(* ===== verification/_CoqProject ===== *)
-Q . S2P
Prelude.v
Utf8.v
RustText.v
KeelGrid.v
KeelDamage.v
KeelExternal.v
KeelCadence.v
KeelActivity.v
UsbDescriptor.v
UsbAttachment.v
ProtocolWire.v
ProtocolUsb.v
ProtocolFsm.v
QuicFraming.v
FrameQueue.v
SessionThrottle.v
SessionAdmission.v
RegionSchedule.v
OutputsFair.v
LaneOutbox.v
RestoreLease.v
AnnexB.v
HevcSps.v
MediaRegion.v
RegionTransform.v
RegionInput.v
RegionPipeline.v
CaptureSurface.v
CaptureLease.v
DirectReconnect.v
HidDigitizer.v
UsbGuard.v
MonitorWire.v
MultiMonitor.v
EncoderAdmission.v
RegionFrame.v
HostLifecycle.v
LaneWire.v
LaneRegistry.v
LaneSession.v
TransportContract.v
TransportHealth.v
CertMarker.v
CertJournal.v
CertPublish.v
CertProvision.v
IdentityGrants.v
IdentityResume.v
Float64.v
PathSignal.v
RateControl.v
RateLoss.v
RateSync.v
TopologyPlacement.v
PenEdges.v
PenAxes.v
StylusEmulator.v
AppliedTopology.v
OutputTransaction.v
Worklist.v
FloatExact.v
WaylandOutputs.v
VirtualTopology.v
RegionAdmission.v
MediaFormats.v
MediaPlan.v
ReadyLine.v
Pipelines.v
CaptureAdmission.v
