(* ===== verification/Prelude.v ===== *)
(** * Arcen: verification of the shared core

    Arcen streams a desktop from a workstation (the Pier, a host) to a thin
    client (the Deck).  Its platform-independent logic is the Rust workspace
    under [src/shared]: what to capture and encode, what goes on the wire, who
    may sign in and resume, which devices and input events are let through.
    This library models that logic and proves it correct.  Paths below are
    relative to [src/shared].

    ** The program and its parts

    A session goes through these parts, each a file (or several) here.

    - _Sign-in and session_ ([session/src]).  [SessionThrottle] backs off failed
      sign-ins ([auth_throttle.rs]); [SessionAdmission] gives the one session
      slot and its reconnect hold ([session_admission.rs]); [DirectReconnect]
      keeps a session through a lost connection and grants one resumption
      ([direct_reconnect.rs]); [HostLifecycle] is the state of every session and
      the table of live ones ([host_lifecycle.rs]); [RestoreLease] is the journal that gives changed
      host resources back after a crash ([restore_lease.rs]).
    - _Identity_ ([identity/src], [transport/src/cert_marker.rs] and its
      neighbours, [src/hosts/macos/src/host_cert.rs]).  [IdentityGrants] is the
      acknowledged disclaimer and the session grant that is consumed once
      ([lib.rs]), [IdentityResume] the signed grant of a direct resume
      ([direct_resume.rs]).  The host's own certificate: [CertMarker] is the
      marker file and the PEM text, [CertJournal] the provisioning decision and
      the transaction's journal, [CertPublish] the transaction on a file system
      that may crash between any two calls (a crash Hoare logic) with its
      recovery, [CertProvision] the whole provisioning over these.
    - _Transport_ ([transport/src], [protocol/src/lanes.rs]).  [LaneWire] is the
      preface, grant and record a lane starts with; [LaneRegistry] admits,
      recovers and ends the lanes of an attachment ([lanes.rs]), [LaneSession]
      composes two registries over their streams; [TransportContract] is the
      admission evidence, the envelopes and the bounded queue ([lib.rs]);
      [TransportHealth] the fallback ladder and the proof of silence
      ([fallback.rs], [liveness.rs]).
    - _Capture_ ([media/src/video], [keel/src]).  [CaptureSurface] validates a
      delivered buffer ([capture_surface.rs]); [CaptureLease] is the
      latest-wins mailbox between capture and import ([capture_lease.rs]).
      [KeelGrid], [KeelDamage], [KeelExternal], [KeelActivity], [KeelCadence]
      are the damage tracker, the operating system's damage, the classification
      of content and the submission cadence ([grid.rs], [hash.rs], [damage.rs],
      [external.rs], [activity.rs], [cadence.rs], [pacing.rs]).
    - _Regions and monitors_.  [MediaRegion] is the roster of one to four
      regions ([media/src/region.rs]); [RegionSchedule] decides at each tick
      whether a region is served ([region_activity.rs], [region_schedule.rs]),
      over [KeelActivity] and [KeelCadence]; [MonitorWire] is the negotiation of
      monitor topologies ([protocol/src/multi_monitor.rs]); [MultiMonitor] the
      host's topologies, plans and budgets ([media/src/multi_monitor.rs]), which
      convert to and from [MonitorWire]'s messages; [TopologyPlacement] puts
      those monitors on the host's desktop, flush with their neighbours
      ([media/src/topology_placement.rs]); [VirtualTopology] plans a virtual
      output for each of them ([outputs/src/virtual_topology.rs]),
      [WaylandOutputs] the outputs a Wayland compositor is given
      ([session/src/wayland_outputs.rs]); [OutputTransaction] acquires outputs
      from a provider, commits and gives them back ([outputs/src/provider]);
      [RegionAdmission] is the order in which a host admits a request for
      several regions and joins what it applied
      ([outputs/src/admission.rs], [applied.rs]), [AppliedTopology] what the
      client makes of that answer ([media/src/applied_topology.rs]), over
      [MonitorWire]'s message; [EncoderAdmission] measures
      and admits encoder sets ([media/src/encoder_admission.rs]) made of
      [MultiMonitor]'s plans and [KeelActivity]'s classes; [OutputsFair] starts
      every region or none and serves them in turn ([outputs/src/fairness.rs],
      [atomic_start.rs]).
    - _Video out_.  [AnnexB] and [HevcSps] walk access units and read the HEVC
      parameter set ([media/src/annexb.rs], [hevc_sps.rs]); [FrameQueue] is the
      outbound queue with its prediction-chain recovery
      ([media/src/video/frame_queue.rs]).  [MediaFormats] is the vocabulary of
      video formats ([media/src/lib.rs]), [MediaPlan] resolves a request to a
      plan an encoder can keep, exactly or degraded ([media/src/video/plan.rs]),
      and [ReadyLine] is the line in which a capture process reports it.
      [Pipelines] are the product's contracts ([media/src/video/pipeline],
      [preset.rs], [bitrate.rs]): what Auto, Speed, Grading, HDR and Software
      encode, at which rates, and which of them a session may say it serves.
      [CaptureAdmission] decides from [CaptureSurface]'s facts and [MediaPlan]'s
      limits which contract a source is served as ([capture_admission.rs]).
    - _Rate_.  [PathSignal] turns a connection's counters into an interval's
      signal ([telemetry/src/path_signal.rs]); [RateControl] is the bitrate
      controller ([media/src/rate_control.rs]), [RateLoss] which packets its
      loss evidence was measured over, [RateSync] the ledger that brings the
      target to every pipeline.
    - _Video in_.  [RegionFrame] is the client's fence and its router with one
      decoder per monitor ([media/src/region_frame.rs],
      [clients/macos/src/pipeline/monitor_router.rs]), over the headers of
      [ProtocolWire] and the plans of [MultiMonitor].
    - _Wire_.  [ProtocolWire] and [ProtocolUsb] are the binary frames
      ([protocol/src/wire.rs]), [QuicFraming] the transport's framing and
      duplicate guard ([transport/src/quic/framing.rs]), [ProtocolFsm] the
      client's connection states ([protocol/src/fsm.rs]).
    - _Input_ ([input/src], [protocol/src/region_input.rs]).  [RegionTransform]
      maps logical to pixel coordinates ([region.rs]); [RegionInput] is the
      state of an input stream and its messages ([region_state.rs],
      [region_wire.rs]); [RegionPipeline] is the client's emitter and the host's
      pipeline ([region_emitter.rs], [region_pipeline.rs]); [LaneOutbox] is the
      queue that coalesces motion ([lane_outbox.rs]).  [PenEdges] plans a
      stylus's edges on the host and forwards them from the client
      ([pen_edges.rs], [pen_forwarding.rs]), [PenAxes] converts its axes
      ([pen_axes.rs]), [StylusEmulator] sends its samples as an emulated stylus
      ([pen_emulation.rs]).
    - _USB_ ([usb-bridge/src]).  [UsbDescriptor] parses configuration
      descriptors and applies the device policy ([descriptor.rs], [policy.rs]);
      [HidDigitizer] classifies report descriptors ([hid_digitizer.rs]);
      [UsbGuard] authorizes a tablet and keeps it to its claims
      ([tablet_claim.rs], [bridged_device_guard.rs]), over both and over the
      frames of [ProtocolUsb]; [UsbAttachment] is the ledger of requests in
      flight and the attachment's states ([ledger.rs], [state.rs]).

    ** How the code is modelled

    A struct is a [Record], an enum an [Inductive] with the source's variants
    (renamed where two modules use one name), a function a [Definition] or
    [Fixpoint] of the source's name.  [&mut self] becomes a state returned with
    the result; a mutex or an atomic makes an operation one atomic step, and
    concurrent runs are lists of steps, as in [CaptureLease] and [OutputsFair].
    [Result] is [result] of this file with its monad; an early return inside a
    loop is [forM_err] or a loop of its own.  A possible panic (an index, a
    slice, [expect]) is an [option].  Integers are [Z] with the width's checked,
    saturating and wrapping operations of this file; [f32] and [f64] are
    [SpecFloat]'s binary floating point ([Float64]); text is its UTF-8 bytes
    ([Utf8], [RustText]); durations and instants are nanoseconds.  A
    set or map of which only membership is used is a list or a [gmap].

    This file holds what the others share: the result monad, machine integers,
    bytes and slices, list and loop lemmas and their tactics and hints.
    [Worklist] is the exploration of a graph by a stack or a queue, with what it
    reaches; [FloatExact] the integers that binary64 arithmetic keeps exact.

    Third-party code is a parameter of the definitions that use it, with the law
    the code relies on as a hypothesis where a theorem needs one: the hashes
    XXH3 and CRC32C ([KeelDamage]), SHA-256 ([RestoreLease]), constant-time
    comparison ([DirectReconnect], [LaneRegistry]), signatures and MACs
    ([IdentityGrants], [IdentityResume]), X.509 ([CertProvision]), JSON values ([LaneOutbox]), the allocator
    ([ProtocolWire]), the hash map's order ([SessionThrottle]); so are the
    platform's point mapper ([RegionPipeline]), encoder probe
    ([EncoderAdmission]) and decoder (the class of [RegionFrame]).

    ** Bounds and fuel

    Loops over a byte offset carry fuel: the length of the input, as every
    iteration consumes at least one byte ([UsbDescriptor], [HidDigitizer],
    [UsbGuard], [AnnexB]); walks over a damage map carry one unit per block and
    row ([KeelDamage.grid_fuel]); the placement walk one unit per monitor
    ([TopologyPlacement.walk_never_runs_out], [Worklist.explore_from_spec]);
    [supersede_oldest] the length of its queue.
    Running out of fuel is [None] or shows in the result, and totality theorems
    ([HidDigitizer.report_parser_total], [AnnexB.nal_walks_total],
    [UsbDescriptor.descriptor_parser_exact]) prove it never happens.

    ** What the theorems show

    - Refinement of an abstract contract: damage owed until submission
      ([KeelExternal.pending_damage_refines_owed]), latest-wins intake
      ([CaptureLease.mailbox_refines_intake]), client and host input state in
      step ([RegionPipeline.emitter_and_pipeline_in_step]), coalescing without
      loss ([LaneOutbox.outbox_preserves_input]), one independent decoder per
      monitor ([RegionFrame.router_is_product]), three phases per session
      ([HostLifecycle.lifecycles_refine_phases]), a publication that is atomic
      under crashes, also of its recovery ([CertPublish.publish_is_atomic]), a
      queue within its bounds ([TransportContract.bounded_queue_refines]).
    - Exactness of a validator or parser against a declarative description:
      capture buffers, applied topologies, region rosters, USB configuration
      descriptors and the guard's checks, device claims, encoder decisions,
      lane admissions, session grants, the loss a controller judges, plans and
      READY lines ([MediaPlan.media_plan_exact], [MediaPlan.degraded_plan_exact],
      [ReadyLine.ready_line_read_back]), what a capture source is served as
      ([CaptureAdmission.capture_admission_exact]), what a session says it serves
      and the rates it runs at ([Pipelines.served_name_truthful],
      [Pipelines.served_rate_policy_sound]).
    - Invariants and safety over every run: no predicted frame without its
      reference ([FrameQueue.prediction_chain_safe]), every block whose
      fingerprint changed is reported ([KeelDamage.damage_detects_changes]), buffers and requests are
      conserved, one session at a time, a grant works once and only within its
      window, crash recovery undoes only what the host did, an admitted encoder set
      keeps its thresholds, no session is live without evidence, a lane that is
      open was admitted by the other side ([LaneSession.open_lane_admitted]), a
      resume grant was issued for its session, trust changes only on request
      ([CertProvision.provision_keeps_trust]), the rate stays in its bounds and
      its cuts keep their pace.
    - Round trips of the codecs, coordinates and wire conversions; bounds and
      overflow of budgets, capacities and rates; errors without side effects
      ([OutputsFair.atomic_start_exact],
      [EncoderAdmission.admission_errors_before_measuring]); starvation freedom
      ([RegionSchedule.region_never_starved], [OutputsFair.roster_never_starves]).
    - Where the code does not do what its documentation says, a theorem shows a
      concrete run: [FrameQueue.room_state_stuck_after_overflow],
      [QuicFraming.sequence_guard_accepts_duplicate],
      [HidDigitizer.contact_identifier_range_unseen],
      [RegionPipeline.refused_enter_loses_leave],
      [RegionSchedule.promoted_grid_starves], [HevcSps.bit_depth_wraps],
      [MultiMonitor.opaque_ids_not_convertible],
      [EncoderAdmission.idle_failure_steps_down],
      [RateControl.slow_probe_crosses_gate], [WaylandOutputs.wrapped_layout_overlaps],
      [TransportHealth.upgrades_without_a_probe],
      [TopologyPlacement.stacked_monitors_overlap],
      [RateControl.slow_probe_goes_unreported], [CertPublish.roll_back_loses_record],
      [RegionFrame.legacy_roster_admits_nothing_decoded] and others.

    ** Not modelled

    Text ([Display], log tokens), serde's JSON and accessors that return a
    field.  [f64] ratios of keel.  Of certificates: key generation, X.509 and
    file permissions.  The hosts, capture and encoder bindings, the
    rest of the client, transports over quinn and rustls, audio and colour conversion,
    installers and scripts: operating-system, network and device I/O.

    ** Next

    In this order: the rest of [media/src/video] (white levels, conversions, the runtime guard of
    Speed); seat pens and gestures of [input]; EDID and head discovery of
    [outputs]; cursor and clipboard messages of [protocol]. *)

From stdpp Require Export base numbers list option gmap sorting.
From Stdlib Require Export ZArith Lia.

(** ** Fallible code: Rust's [Result] *)

Inductive result (E A : Type) : Type :=
| Ok (a : A)
| Err (e : E).
Arguments Ok {E A} a.
Arguments Err {E A} e.

#[global] Instance result_ret {E} : MRet (result E) := fun A a => Ok a.
#[global] Instance result_bind {E} : MBind (result E) :=
  fun A B k r => match r with Ok a => k a | Err e => Err e end.
#[global] Instance result_fmap {E} : FMap (result E) :=
  fun A B f r => match r with Ok a => Ok (f a) | Err e => Err e end.
#[global] Instance result_eq_dec {E A} `{EqDecision E, EqDecision A} : EqDecision (result E A).
Proof. solve_decision. Defined.

Section Result.
Context {E : Type}.

(** [ok_or]: [Option::ok_or]. *)
Definition ok_or {A} (o : option A) (e : E) : result E A :=
  match o with Some a => Ok a | None => Err e end.

(** [guard_err b e]: the early return [if b { return Err(e) }]. *)
Definition guard_err (b : bool) (e : E) : result E unit :=
  if b then Err e else Ok tt.

Definition is_ok {A} (r : result E A) : bool :=
  match r with Ok _ => true | Err _ => false end.

Lemma Ok_inj {A} (a b : A) : @Ok E A a = Ok b -> a = b.
Proof. congruence. Qed.

Lemma bind_Ok {A B} (r : result E A) (k : A -> result E B) (b : B) :
  (r ≫= k) = Ok b <-> exists a, r = Ok a /\ k a = Ok b.
Proof. destruct r; cbn; naive_solver. Qed.

Lemma bind_Err {A B} (r : result E A) (k : A -> result E B) (e : E) :
  (r ≫= k) = Err e <-> r = Err e \/ exists a, r = Ok a /\ k a = Err e.
Proof. destruct r; cbn; naive_solver. Qed.

Lemma guard_err_Ok (b : bool) (e : E) (u : unit) :
  guard_err b e = Ok u <-> b = false.
Proof. destruct b, u; cbn; naive_solver. Qed.

Lemma ok_or_Ok {A} (o : option A) (e : E) (a : A) :
  ok_or o e = Ok a <-> o = Some a.
Proof. destruct o; cbn; naive_solver. Qed.
Lemma unit_bind_Ok {A} (r : result E unit) (k : result E A) (a : A) :
  (_ ← r; k) = Ok a <-> r = Ok tt /\ k = Ok a.
Proof. destruct r as [[]|]; cbn; naive_solver. Qed.

End Result.

(** [forM_err f l]: a [for] loop whose body may return early with an error. *)
Fixpoint forM_err {E A} (f : A -> result E unit) (l : list A) : result E unit :=
  match l with
  | [] => Ok tt
  | x :: l => _ ← f x; forM_err f l
  end.

Lemma forM_err_Ok {E A} (f : A -> result E unit) (l : list A) :
  forM_err f l = Ok tt <-> Forall (fun x => f x = Ok tt) l.
Proof.
  induction l as [|x l IH]; cbn; [split; [constructor|done]|].
  rewrite Forall_cons, <- IH.
  destruct (f x) as [[]|]; cbn; naive_solver.
Qed.

(** [Option::is_some] *)
Definition is_some {A} (o : option A) : bool := match o with Some _ => true | None => false end.

(** ** Machine integers

    A Rust integer of [w] bits is a [Z] in [0, 2^w).  Operators that the
    source writes with an explicit overflow behaviour are the definitions
    below; [usize] is 64 bits wide, as on every platform Arcen ships for. *)

Open Scope Z_scope.

Definition usize_bits : Z := 64.
Definition umax (w : Z) : Z := 2 ^ w - 1.
Definition in_width (w z : Z) : Prop := 0 <= z < 2 ^ w.
Abbreviation is_u8 := (in_width 8).
Abbreviation is_u16 := (in_width 16).
Abbreviation is_u32 := (in_width 32).
Abbreviation is_u64 := (in_width 64).
Abbreviation is_usize := (in_width 64).

#[global] Instance in_width_dec w z : Decision (in_width w z).
Proof. unfold in_width. apply _. Defined.

Definition wrapping (w z : Z) : Z := z mod 2 ^ w.
Definition wrapping_mul (w a b : Z) : Z := wrapping w (a * b).
Definition saturating_add (w a b : Z) : Z := Z.min (a + b) (umax w).
Definition saturating_sub (a b : Z) : Z := Z.max (a - b) 0.
Definition checked_add (w a b : Z) : option Z :=
  if a + b <=? umax w then Some (a + b) else None.
Definition checked_mul (w a b : Z) : option Z :=
  if a * b <=? umax w then Some (a * b) else None.
Definition checked_sub (a b : Z) : option Z :=
  if b <=? a then Some (a - b) else None.
(** [i64::try_from], for [w] = 64. *)
Definition in_signed (w z : Z) : Prop := - 2 ^ (w - 1) <= z < 2 ^ (w - 1).
Definition try_signed (w z : Z) : option Z :=
  if (- 2 ^ (w - 1) <=? z) && (z <? 2 ^ (w - 1)) then Some z else None.
(** [u64::try_from]. *)
Definition try_unsigned (w z : Z) : option Z :=
  if (0 <=? z) && (z <=? umax w) then Some z else None.
(** [usize::div_ceil]: the quotient, plus one when a remainder is left. *)
Definition div_ceil (a b : Z) : Z :=
  if 0 <? a mod b then a / b + 1 else a / b.
Definition rotate_left (w x k : Z) : Z :=
  Z.lor (wrapping w (Z.shiftl x k)) (Z.shiftr x (w - k)).

Ltac pow2 :=
  change (2 ^ 8) with 256 in *; change (2 ^ 16) with 65536 in *;
  change (2 ^ 32) with 4294967296 in *;
  change (2 ^ 64) with 18446744073709551616 in *.

(** Turns boolean comparisons of hypotheses and goal into propositions. *)
Ltac boolify :=
  repeat match goal with
  | H : _ && _ = true |- _ => apply andb_true_iff in H as [? ?]
  | H : _ && _ = false |- _ => apply andb_false_iff in H
  | H : _ || _ = false |- _ => apply orb_false_iff in H as [? ?]
  | H : _ || _ = true |- _ => apply orb_true_iff in H
  | H : negb _ = true |- _ => apply negb_true_iff in H
  | H : negb _ = false |- _ => apply negb_false_iff in H
  | H : (_ <? _) = true |- _ => apply Z.ltb_lt in H
  | H : (_ <? _) = false |- _ => apply Z.ltb_ge in H
  | H : (_ <=? _) = true |- _ => apply Z.leb_le in H
  | H : (_ <=? _) = false |- _ => apply Z.leb_gt in H
  | H : (_ =? _) = true |- _ => apply Z.eqb_eq in H
  | H : (_ =? _) = false |- _ => apply Z.eqb_neq in H
  end.

(** Decomposes a hypothesis [do-block = Ok _] into its steps. *)
Ltac inv_ok :=
  repeat match goal with
  | H : (_ ≫= _) = Ok _ |- _ => apply bind_Ok in H as (? & ? & ?)
  | H : guard_err _ _ = Ok _ |- _ => apply guard_err_Ok in H
  | H : ok_or _ _ = Ok _ |- _ => apply ok_or_Ok in H
  | H : Ok _ = Ok _ |- _ => apply Ok_inj in H; subst
  | H : (_, _) = (_, _) |- _ => apply pair_equal_spec in H as [? ?]; subst
  | H : Some _ = Some _ |- _ => injection H as H; subst
  | H : Err _ = Ok _ |- _ => discriminate H
  | H : None = Some _ |- _ => discriminate H
  end.

Lemma div_ceil_spec a b :
  0 < b -> b * (div_ceil a b - 1) < a <= b * div_ceil a b.
Proof.
  intros Hb. unfold div_ceil.
  pose proof (Z.div_mod a b). pose proof (Z.mod_pos_bound a b Hb).
  destruct (Z.ltb_spec 0 (a mod b)); nia.
Qed.

Lemma div_ceil_pos a b : 0 < a -> 0 < b -> 0 < div_ceil a b.
Proof. intros Ha Hb. pose proof (div_ceil_spec a b Hb). nia. Qed.

Lemma div_ceil_nonneg a b : 0 <= a -> 0 < b -> 0 <= div_ceil a b.
Proof. intros Ha Hb. pose proof (div_ceil_spec a b Hb). nia. Qed.

Lemma div_ceil_le a b : 0 <= a -> 0 < b -> div_ceil a b <= a.
Proof.
  intros Ha Hb. pose proof (div_ceil_spec a b Hb).
  destruct (decide (a = 0)) as [->|]; nia.
Qed.

(** [q] is a quotient index of [a] exactly when its cell starts before [a]. *)
Lemma div_ceil_lt_iff a b q : 0 < b -> q < div_ceil a b <-> q * b < a.
Proof. intros Hb. pose proof (div_ceil_spec a b Hb). nia. Qed.

Lemma div_lt_div_ceil x a b : 0 < b -> x < a -> x / b < div_ceil a b.
Proof.
  intros Hb Hx. apply div_ceil_lt_iff; [done|].
  pose proof (Z.mul_div_le x b Hb). lia.
Qed.

Lemma checked_mul_Some w a b c :
  checked_mul w a b = Some c <-> c = a * b /\ a * b <= umax w.
Proof.
  unfold checked_mul. destruct (Z.leb_spec (a * b) (umax w)); naive_solver lia.
Qed.

Lemma checked_add_Some w a b c :
  checked_add w a b = Some c <-> c = a + b /\ a + b <= umax w.
Proof.
  unfold checked_add. destruct (Z.leb_spec (a + b) (umax w)); naive_solver lia.
Qed.

Lemma checked_sub_Some a b c :
  checked_sub a b = Some c <-> c = a - b /\ b <= a.
Proof. unfold checked_sub. destruct (Z.leb_spec b a); naive_solver lia. Qed.

Lemma try_signed_Some w z z' : try_signed w z = Some z' <-> z' = z /\ in_signed w z.
Proof.
  unfold try_signed, in_signed. destruct (Z.leb_spec (- 2 ^ (w - 1)) z), (Z.ltb_spec z (2 ^ (w - 1)));
    cbn; naive_solver lia.
Qed.

Lemma try_unsigned_Some w z z' : try_unsigned w z = Some z' <-> z' = z /\ in_width w z.
Proof.
  unfold try_unsigned, in_width, umax. destruct (Z.leb_spec 0 z), (Z.leb_spec z (2 ^ w - 1));
    cbn; naive_solver lia.
Qed.

Lemma try_signed_in w z : in_signed w z -> try_signed w z = Some z.
Proof. intros H. by apply try_signed_Some. Qed.

Lemma try_unsigned_in w z : in_width w z -> try_unsigned w z = Some z.
Proof. intros H. by apply try_unsigned_Some. Qed.

Lemma wrapping_small w z : in_width w z -> wrapping w z = z.
Proof. apply Z.mod_small. Qed.

Lemma wrapping_in_width w z : 0 <= w -> in_width w (wrapping w z).
Proof. intros Hw. apply Z.mod_pos_bound. lia. Qed.

(** The test of one bit of a mask. *)
Lemma land_bit (x i : Z) : 0 <= i -> (Z.land x (Z.shiftl 1 i) =? 0) = negb (Z.testbit x i).
Proof.
  intros Hi. rewrite Z.shiftl_1_l. destruct (Z.testbit x i) eqn:E; cbn.
  - apply Z.eqb_neq. intros H. assert (Z.testbit (Z.land x (2 ^ i)) i = false) as F by (rewrite H; apply Z.bits_0).
    rewrite Z.land_spec, Z.pow2_bits_true, E in F by done. done.
  - apply Z.eqb_eq, Z.bits_inj'. intros n Hn. rewrite Z.land_spec, Z.pow2_bits_eqb, Z.bits_0 by done.
    destruct (Z.eqb_spec i n) as [-> |]; [by rewrite E|by rewrite andb_false_r].
Qed.

(** ** Durations

    [core::time::Duration] is a number of nanoseconds, at most
    [u64::MAX] seconds and 999,999,999 nanoseconds. *)

Definition NANOS_PER_SEC : Z := 1000000000.
Definition DURATION_MAX : Z := umax 64 * NANOS_PER_SEC + 999999999.
Definition is_duration (d : Z) : Prop := 0 <= d <= DURATION_MAX.
Definition duration_saturating_add (a b : Z) : Z := Z.min (a + b) DURATION_MAX.
Definition duration_saturating_mul (a k : Z) : Z := Z.min (a * k) DURATION_MAX.
Definition duration_from_secs (s : Z) : Z := s * NANOS_PER_SEC.

(** ** Slices *)

(** [l[a..b]] as a list; the source indexes with [a <= b <= len]. *)
Definition slice {A} (l : list A) (a b : Z) : list A :=
  take (Z.to_nat (b - a)) (drop (Z.to_nat a) l).

(** [l[a..]] *)
Definition slice_from {A} (l : list A) (a : Z) : list A := drop (Z.to_nat a) l.

(** [l[i]] on a byte buffer; out of range the source panics and the model
    reads zero, so every theorem that depends on it bounds the index. *)
Definition byte_at (l : list Z) (i : Z) : Z := nth (Z.to_nat i) l 0.

Definition len {A} (l : list A) : Z := Z.of_nat (length l).

(** [l[i]] where the source may panic: [None] is the panic. *)
Definition read_at {A} (l : list A) (i : Z) : option A :=
  if i <? 0 then None else l !! Z.to_nat i.

Lemma read_at_app {A} (pre rec post : list A) (k : Z) :
  0 <= k < len rec -> read_at (pre ++ rec ++ post) (len pre + k) = read_at rec k.
Proof.
  unfold read_at, len. intros Hk. destruct (Z.ltb_spec (Z.of_nat (length pre) + k) 0); [lia|].
  destruct (Z.ltb_spec k 0); [lia|].
  rewrite lookup_app_r by lia. rewrite lookup_app_l by lia. f_equal. lia.
Qed.

Lemma read_at_Some {A} (l : list A) (i : Z) : 0 <= i < len l -> exists x, read_at l i = Some x.
Proof.
  unfold read_at, len. intros Hi. destruct (Z.ltb_spec i 0); [lia|].
  apply lookup_lt_is_Some_2. lia.
Qed.

Lemma len_nonneg {A} (l : list A) : 0 <= len l.
Proof. unfold len. lia. Qed.

Lemma len_app {A} (l k : list A) : len (l ++ k) = len l + len k.
Proof. unfold len. rewrite length_app. lia. Qed.

Lemma len_cons {A} (x : A) l : len (x :: l) = 1 + len l.
Proof. unfold len. cbn [length]. lia. Qed.

Lemma len_nil {A} : len (@nil A) = 0.
Proof. done. Qed.

Lemma slice_length {A} (l : list A) a b :
  0 <= a <= b -> b <= len l -> len (slice l a b) = b - a.
Proof.
  unfold len, slice. intros Hab Hb.
  rewrite length_take, length_drop. lia.
Qed.

(** Filtering by predicates that agree on the members of the list. *)
Lemma filter_iff_in {A} (P Q : A -> Prop) `{!forall x, Decision (P x)} `{!forall x, Decision (Q x)} (l : list A) :
  Forall (fun x => P x <-> Q x) l -> filter P l = filter Q l.
Proof.
  induction 1 as [|x l Hx Hl IH]; [done|]. rewrite !filter_cons, IH.
  destruct (decide (P x)), (decide (Q x)); naive_solver.
Qed.

(** ** Bytes *)

Fixpoint to_le (n : nat) (z : Z) : list Z :=
  match n with
  | O => []
  | S n => z mod 256 :: to_le n (z / 256)
  end.

Fixpoint from_le (bs : list Z) : Z :=
  match bs with
  | [] => 0
  | b :: bs => b + 256 * from_le bs
  end.

Definition to_be (n : nat) (z : Z) : list Z := rev (to_le n z).
Definition from_be (bs : list Z) : Z := from_le (rev bs).

Lemma to_le_length n z : length (to_le n z) = n.
Proof. revert z. induction n; intros; cbn; auto. Qed.

Lemma to_be_length n z : length (to_be n z) = n.
Proof. unfold to_be. rewrite length_rev. apply to_le_length. Qed.

Lemma len_to_le n z : len (to_le n z) = Z.of_nat n.
Proof. unfold len. by rewrite to_le_length. Qed.

Lemma len_to_be n z : len (to_be n z) = Z.of_nat n.
Proof. unfold len. by rewrite to_be_length. Qed.

Lemma to_le_bytes n z : Forall is_u8 (to_le n z).
Proof.
  revert z. induction n; intros; cbn; constructor; auto.
  apply Z.mod_pos_bound. lia.
Qed.

Lemma to_be_bytes n z : Forall is_u8 (to_be n z).
Proof. apply Forall_rev, to_le_bytes. Qed.

Lemma from_to_le n z : from_le (to_le n z) = z mod 256 ^ Z.of_nat n.
Proof.
  revert z. induction n as [|n IH]; intros z; cbn [to_le from_le].
  - rewrite Z.mod_1_r. done.
  - rewrite IH, Nat2Z.inj_succ, Z.pow_succ_r by lia.
    rewrite Z.rem_mul_r by lia. lia.
Qed.

Lemma pow256 n : 256 ^ Z.of_nat n = 2 ^ (8 * Z.of_nat n).
Proof. rewrite Z.pow_mul_r by lia. done. Qed.

(** A value of the encoded width survives the encoding. *)
Lemma from_to_le_small n z :
  in_width (8 * Z.of_nat n) z -> from_le (to_le n z) = z.
Proof. intros Hz. rewrite from_to_le, pow256. by apply Z.mod_small. Qed.

Lemma from_to_be_small n z :
  in_width (8 * Z.of_nat n) z -> from_be (to_be n z) = z.
Proof.
  intros Hz. unfold from_be, to_be. rewrite rev_involutive.
  by apply from_to_le_small.
Qed.

Lemma to_from_le bs : Forall is_u8 bs -> to_le (length bs) (from_le bs) = bs.
Proof.
  induction 1 as [|b bs Hb Hbs IH]; [done|].
  cbn [length to_le from_le]. unfold in_width in Hb. pow2.
  rewrite (Z.mul_comm 256), Z_mod_plus_full, Z.mod_small by lia.
  rewrite Z.div_add, Z.div_small, Z.add_0_l by lia. by rewrite IH.
Qed.

Lemma to_from_be bs : Forall is_u8 bs -> to_be (length bs) (from_be bs) = bs.
Proof.
  intros H. unfold to_be, from_be.
  rewrite <- (length_rev bs), to_from_le by by apply Forall_rev.
  apply rev_involutive.
Qed.

Lemma from_le_bound bs :
  Forall is_u8 bs -> in_width (8 * len bs) (from_le bs).
Proof.
  unfold len. intros H. rewrite <- (to_from_le bs) at 2 by done.
  rewrite from_to_le, pow256. apply Z.mod_pos_bound. lia.
Qed.

Lemma from_be_bound bs :
  Forall is_u8 bs -> in_width (8 * len bs) (from_be bs).
Proof.
  intros H. unfold from_be, len. rewrite <- (length_rev bs).
  by apply from_le_bound, Forall_rev.
Qed.

Lemma to_be_from_be n bs : length bs = n -> Forall is_u8 bs -> to_be n (from_be bs) = bs.
Proof. intros <-. apply to_from_be. Qed.

Lemma to_le_from_le n bs : length bs = n -> Forall is_u8 bs -> to_le n (from_le bs) = bs.
Proof. intros <-. apply to_from_le. Qed.

Lemma from_be_width n bs : length bs = n -> Forall is_u8 bs -> in_width (8 * Z.of_nat n) (from_be bs).
Proof. intros <-. apply from_be_bound. Qed.

Lemma from_le_width n bs : length bs = n -> Forall is_u8 bs -> in_width (8 * Z.of_nat n) (from_le bs).
Proof. intros <-. apply from_le_bound. Qed.

(** [l] has at least [n] elements: names them. *)
Ltac explode_prefix l n :=
  match n with
  | O => idtac
  | S ?n => let x := fresh "b" in
    destruct l as [|x l]; [exfalso; unfold len in *; cbn [length] in *; lia|]; explode_prefix l n
  end.

(** The bytes of an exploded buffer. *)
Ltac byte_facts :=
  repeat match goal with H : Forall is_u8 (_ :: _) |- _ => apply Forall_cons in H as [? H] end.

Ltac solve_bytes := repeat (apply Forall_nil_2 || apply Forall_cons_2); assumption.
Ltac reencode :=
  rewrite ?to_be_from_be, ?to_le_from_le by (reflexivity || solve_bytes).
Ltac solve_width :=
  match goal with
  | |- in_width _ (from_be ?l) =>
    let n := eval vm_compute in (length l) in exact (from_be_width n l eq_refl ltac:(solve_bytes))
  | |- in_width _ (from_le ?l) =>
    let n := eval vm_compute in (length l) in exact (from_le_width n l eq_refl ltac:(solve_bytes))
  | |- in_width _ 0 => by vm_compute
  | |- _ => assumption
  end.

(** Reads at constant positions of a buffer written as explicit bytes. *)
Ltac compute_reads :=
  repeat match goal with
  | |- context [slice ?l ?a ?b] =>
    let n := eval vm_compute in (Z.to_nat a) in
    let k := eval vm_compute in (Z.to_nat (b - a)) in
    change (slice l a b) with (take k (drop n l))
  | |- context [slice_from ?l ?a] =>
    let n := eval vm_compute in (Z.to_nat a) in change (slice_from l a) with (drop n l)
  | |- context [byte_at ?l ?i] =>
    let n := eval vm_compute in (Z.to_nat i) in change (byte_at l i) with (nth n l 0)
  end; cbn [take drop nth]; rewrite ?take_0, ?drop_0.

(** Splits a list of known length into its elements. *)
Ltac explode l :=
  match goal with
  | H : length l = ?n |- _ =>
    match n with
    | O => apply nil_length_inv in H; subst l
    | S _ => let x := fresh "b" in let k := fresh "bs" in
             destruct l as [|x k]; [discriminate H|]; cbn [length] in H; injection H as H; explode k
    end
  end.

(** Names the bytes of the fixed-width encodings of the goal. *)
Ltac open_bytes :=
  repeat match goal with
  | |- context [to_be ?n ?z] =>
    let l := fresh "l" in let E := fresh "Ebe" in let H := fresh "Hl" in
    pose proof (to_be_length n z) as H; remember (to_be n z) as l eqn:E in *; explode l
  | |- context [to_le ?n ?z] =>
    let l := fresh "l" in let E := fresh "Ele" in let H := fresh "Hl" in
    pose proof (to_le_length n z) as H; remember (to_le n z) as l eqn:E in *; explode l
  end.

(** Folds named bytes back into the integers they encode. *)
Ltac close_bytes :=
  repeat match goal with
  | E : ?l = to_be ?n ?z |- context [from_be ?l] =>
    rewrite E, (from_to_be_small n z) by assumption
  | E : ?l = to_le ?n ?z |- context [from_le ?l] =>
    rewrite E, (from_to_le_small n z) by assumption
  end.

Lemma len_lt_cons {A} (x : A) l n : (len (x :: l) <? n) = (len l <? n - 1).
Proof. rewrite len_cons. destruct (Z.ltb_spec (1 + len l) n), (Z.ltb_spec (len l) (n - 1)); lia || done. Qed.

Lemma len_lt_0 {A} (l : list A) n : n <= 0 -> (len l <? n) = false.
Proof. intros Hn. apply Z.ltb_ge. pose proof (len_nonneg l). lia. Qed.

Ltac check_len := rewrite ?len_lt_cons; 
  repeat match goal with |- context [len ?l <? ?n] => rewrite (len_lt_0 l n) by lia end;
  cbn [guard_err mbind result_bind].

(** ** Hints *)

Create HintDb arcen.
Create Rewrite HintDb arcen.
#[export] Hint Resolve len_nonneg div_ceil_nonneg to_le_bytes to_be_bytes : arcen.
#[export] Hint Rewrite @len_app @len_cons @len_nil : arcen.

(** ** Counted loops *)

(** [range n] is the sequence of values of [0..n]. *)
Definition range (n : Z) : list Z := seqZ 0 n.

Lemma elem_of_range n i : i ∈ range n <-> 0 <= i < n.
Proof. unfold range. rewrite elem_of_seqZ. lia. Qed.

Lemma range_snoc n : 0 <= n -> range (n + 1) = range n ++ [n].
Proof. intros Hn. unfold range. rewrite seqZ_app by lia. cbn. do 2 f_equal. Qed.

Lemma range_split n k : 0 <= k < n -> range n = range k ++ k :: seqZ (k + 1) (n - k - 1).
Proof.
  intros Hk. unfold range. replace n with (k + (n - k)) at 1 by lia.
  rewrite seqZ_app by lia. f_equal. rewrite seqZ_cons by lia. f_equal; f_equal; lia.
Qed.

(** [collect next fuel s]: [Iterator::collect]; [None] when [fuel] calls of
    [next] did not exhaust the iterator. *)
Fixpoint collect {S A} (next : S -> option (option A * S)) (fuel : nat) (s : S)
  : option (list A) :=
  match fuel with
  | O => None
  | S fuel =>
    r ← next s;
    match r with
    | (None, _) => Some []
    | (Some a, s') => l ← collect next fuel s'; Some (a :: l)
    end
  end.

(** [while_fuel fuel cond body s]: the loop [while cond { body }]; [None] when
    [fuel] iterations did not leave the loop. *)
Fixpoint while_fuel {S} (fuel : nat) (cond : S -> bool) (body : S -> S) (s : S) : option S :=
  match fuel with
  | O => None
  | S fuel => if cond s then while_fuel fuel cond body (body s) else Some s
  end.

(** A scan [while i < n && p i { i += 1 }] leaves the loop at the first
    index from [i] on that fails [p], or at [n]. *)
Lemma while_scan (p : Z -> bool) (n i : Z) (fuel : nat) :
  0 <= i <= n -> n - i < Z.of_nat fuel ->
  exists j, while_fuel fuel (fun i => (i <? n) && p i) (fun i => i + 1) i = Some j /\
    i <= j <= n /\ (forall k, i <= k < j -> p k = true) /\ (j < n -> p j = false).
Proof.
  revert i. induction fuel as [|fuel IH]; intros i Hi Hf; [lia|]. cbn [while_fuel].
  destruct (Z.ltb_spec i n); cbn [andb]; [|exists i; split_and!; auto; lia].
  destruct (p i) eqn:Ep; [|exists i; split_and!; auto; lia].
  destruct (IH (i + 1)) as (j & -> & Hj & Hall & Hend); [lia..|].
  exists j. split_and!; auto; [lia|lia|].
  intros k Hk. destruct (decide (k = i)) as [->|]; [done|]. apply Hall. lia.
Qed.
