(* ===== verification/Utf8.v ===== *)
(** * Text: Rust strings as bytes

    A Rust [str] is a sequence of bytes that is well-formed UTF-8, and its
    length, slices and character boundaries are in bytes.  This file holds
    what the components share of that: the bytes of a literal, the validity
    [std::str::from_utf8] checks, [str::is_char_boundary] and the loop that
    moves an index back to a boundary. *)

From stdpp Require Import strings.
From S2P Require Import Prelude.

Definition string_bytes (s : string) : list Z :=
  map (fun c => Z.of_N (Ascii.N_of_ascii c)) (String.list_ascii_of_string s).

(** ** Well-formed UTF-8 *)

Definition is_continuation (b : Z) : bool := (0x80 <=? b) && (b <=? 0xBF).

(** The second byte allowed after a three-byte and a four-byte lead: no
    overlong form, no surrogate, nothing past U+10FFFF. *)
Definition second_of_three (a b : Z) : bool :=
  is_continuation b && (negb (a =? 0xE0) || (0xA0 <=? b)) && (negb (a =? 0xED) || (b <=? 0x9F)).

Definition second_of_four (a b : Z) : bool :=
  is_continuation b && (negb (a =? 0xF0) || (0x90 <=? b)) && (negb (a =? 0xF4) || (b <=? 0x8F)).

(** [std::str::from_utf8(bytes).is_ok()]. *)
Fixpoint from_utf8 (bytes : list Z) : bool :=
  match bytes with
  | [] => true
  | a :: r1 =>
    if a <? 0x80 then from_utf8 r1 else
    match r1 with
    | [] => false
    | b :: r2 =>
      if (0xC2 <=? a) && (a <=? 0xDF) then is_continuation b && from_utf8 r2 else
      match r2 with
      | [] => false
      | c :: r3 =>
        if (0xE0 <=? a) && (a <=? 0xEF) then second_of_three a b && is_continuation c && from_utf8 r3 else
        match r3 with
        | [] => false
        | d :: r4 =>
          (0xF0 <=? a) && (a <=? 0xF4) && second_of_four a b && is_continuation c && is_continuation d
          && from_utf8 r4
        end
      end
    end
  end.

(** [str::is_char_boundary]. *)
Definition is_char_boundary (s : list Z) (i : nat) : bool :=
  match i with
  | O => true
  | _ => match s !! i with
         | Some b => negb (is_continuation b)
         | None => (i =? length s)%nat
         end
  end.

(** [while !s.is_char_boundary(end) { end -= 1; }]: index 0 is a boundary, so
    the loop stops there at the latest. *)
Fixpoint floor_char_boundary (s : list Z) (end_ : nat) : nat :=
  if is_char_boundary s end_ then end_
  else match end_ with O => O | S e => floor_char_boundary s e end.

(** ** Cutting at a boundary keeps text valid *)

Lemma floor_le s e : (floor_char_boundary s e <= e)%nat.
Proof.
  induction e as [|e IH]; cbn [floor_char_boundary]; [by destruct (is_char_boundary s 0)|].
  destruct (is_char_boundary s (S e)); lia.
Qed.

Lemma floor_boundary s e : is_char_boundary s (floor_char_boundary s e) = true.
Proof.
  induction e as [|e IH]; cbn [floor_char_boundary]; [done|].
  by destruct (is_char_boundary s (S e)) eqn:E.
Qed.

Lemma floor_at_boundary s e : is_char_boundary s e = true -> floor_char_boundary s e = e.
Proof. destruct e; cbn [floor_char_boundary]; intros H; [done|by rewrite H]. Qed.

(** A continuation byte is no boundary. *)
Lemma boundary_not_continuation s i b :
  (i <> 0)%nat -> s !! i = Some b -> is_continuation b = true -> is_char_boundary s i = false.
Proof. intros Hi Hb Hc. unfold is_char_boundary. rewrite Hb, Hc. by destruct i. Qed.

Lemma boundary_tail x s i :
  (i <> 0)%nat -> is_char_boundary (x :: s) (S i) = is_char_boundary s i.
Proof. intros Hi. unfold is_char_boundary. by destruct i. Qed.

(** The lead of a character: [from_utf8] consumes one to four bytes, the
    first not a continuation byte and the others continuation bytes. *)
Lemma from_utf8_lead s : from_utf8 s = true -> s <> [] ->
  exists lead rest, s = lead ++ rest /\ from_utf8 rest = true /\
    (1 <= length lead <= 4)%nat /\
    (forall i b, lead !! S i = Some b -> is_continuation b = true) /\
    (forall tail, from_utf8 (lead ++ tail) = from_utf8 tail).
Proof.
  destruct s as [|a r1]; [done|]; intros H _. cbn [from_utf8] in H.
  destruct (a <? 0x80) eqn:E1.
  { exists [a], r1. split_and!; [done|done|cbn; lia..|done|]. intros tail. cbn. by rewrite E1. }
  destruct r1 as [|b r2]; [done|].
  destruct ((0xC2 <=? a) && (a <=? 0xDF)) eqn:E2.
  { apply andb_prop in H as [Hb H]. exists [a; b], r2. split_and!; [done|done|cbn; lia..| |].
    - intros [|i] x; cbn; [by intros [= <-]|done].
    - intros tail. cbn. by rewrite E1, E2, Hb. }
  destruct r2 as [|c r3]; [done|].
  destruct ((0xE0 <=? a) && (a <=? 0xEF)) eqn:E3.
  { apply andb_prop in H as [[Hb Hc]%andb_prop H]. exists [a; b; c], r3.
    split_and!; [done|done|cbn; lia..| |].
    - intros [|[|i]] x; cbn; [intros [= <-]|by intros [= <-]|done].
      by unfold second_of_three in Hb; apply andb_prop in Hb as [[Hb _]%andb_prop _].
    - intros tail. cbn. by rewrite E1, E2, E3, Hb, Hc. }
  destruct r3 as [|d r4]; [done|].
  apply andb_prop in H as [[[[Ha Hb]%andb_prop Hc]%andb_prop Hd]%andb_prop H]. exists [a; b; c; d], r4.
  split_and!; [done|done|cbn; lia..| |].
  - intros [|[|[|i]]] x; cbn; [intros [= <-]|by intros [= <-]..|done].
    by unfold second_of_four in Hb; apply andb_prop in Hb as [[Hb _]%andb_prop _].
  - intros tail. cbn. by rewrite E1, E2, E3, Ha, Hb, Hc, Hd.
Qed.

Lemma utf8_take_len n s i :
  (length s <= n)%nat -> from_utf8 s = true -> is_char_boundary s i = true -> from_utf8 (take i s) = true.
Proof.
  revert s i. induction n as [|n IH]; intros s i Hn Hs Hb.
  { destruct s; [by rewrite take_nil|cbn in Hn; lia]. }
  destruct i as [|i]; [done|].
  destruct (decide (s = [])) as [->|Hne]; [by rewrite take_nil|].
  destruct (from_utf8_lead s Hs Hne) as (lead & rest & -> & Hr & Hl & Hc & Htail).
  destruct (decide (S i < length lead)%nat) as [Hlt|Hge].
  - destruct (lookup_lt_is_Some_2 lead (S i) Hlt) as [b Hbi].
    assert ((lead ++ rest) !! S i = Some b) as Hb' by by rewrite lookup_app_l.
    rewrite (boundary_not_continuation _ (S i) b) in Hb; [done|lia|done|eauto].
  - rewrite take_app_ge by lia. rewrite Htail. apply IH; [rewrite length_app in Hn; lia|done|].
    unfold is_char_boundary in *. rewrite lookup_app_r in Hb by lia.
    destruct (S i - length lead)%nat as [|j] eqn:Ej; [done|].
    destruct (rest !! S j); [done|]. apply Nat.eqb_eq in Hb. apply Nat.eqb_eq. rewrite length_app in Hb. lia.
Qed.

(** Slicing valid text at a boundary gives valid text. *)
Lemma utf8_take s i : from_utf8 s = true -> is_char_boundary s i = true -> from_utf8 (take i s) = true.
Proof. apply (utf8_take_len (length s)). lia. Qed.

