(* ===== verification/RustText.v ===== *)
(** * Text: Rust strings as characters

    The parsers of key-and-value files read a [str] character by character:
    [lines], [trim], [split_once], [strip_prefix] and [find].  Here a text is
    the list of its characters, each a Unicode scalar value, and these are the
    standard library's functions on it; a literal is [string_bytes], the
    characters of ASCII text. *)

From stdpp Require Import strings pretty.
From S2P Require Import Prelude Utf8.

Definition LF : Z := 10.
Definition CR : Z := 13.
Definition EQUALS : Z := 61.

(** [char::is_whitespace]: the White_Space property. *)
Definition is_whitespace (c : Z) : bool :=
  ((9 <=? c) && (c <=? 13)) || (c =? 32) || (c =? 0x85) || (c =? 0xA0) || (c =? 0x1680)
  || ((0x2000 <=? c) && (c <=? 0x200A)) || (c =? 0x2028) || (c =? 0x2029) || (c =? 0x202F)
  || (c =? 0x205F) || (c =? 0x3000).

Fixpoint trim_start_matches (p : Z -> bool) (t : list Z) : list Z :=
  match t with
  | [] => []
  | c :: r => if p c then trim_start_matches p r else t
  end.

Definition trim_end_matches (p : Z -> bool) (t : list Z) : list Z := rev (trim_start_matches p (rev t)).

Definition trim (t : list Z) : list Z := trim_end_matches is_whitespace (trim_start_matches is_whitespace t).

(** [split_inclusive('\n')]. *)
Fixpoint split_inclusive (t : list Z) : list (list Z) :=
  match t with
  | [] => []
  | c :: r =>
    if c =? LF then [c] :: split_inclusive r else
    match split_inclusive r with
    | [] => [[c]]
    | l :: ls => (c :: l) :: ls
    end
  end.

Definition strip_suffix_char (c : Z) (t : list Z) : option (list Z) :=
  match rev t with
  | d :: r => if d =? c then Some (rev r) else None
  | [] => None
  end.

(** A line without its end: a line feed, and one carriage return before it. *)
Definition strip_line_end (l : list Z) : list Z :=
  match strip_suffix_char LF l with
  | None => l
  | Some l => match strip_suffix_char CR l with None => l | Some l => l end
  end.

Definition lines (t : list Z) : list (list Z) := map strip_line_end (split_inclusive t).

Fixpoint split_once (d : Z) (t : list Z) : option (list Z * list Z) :=
  match t with
  | [] => None
  | c :: r => if c =? d then Some ([], r) else '(a, b) ← split_once d r; Some (c :: a, b)
  end.

Fixpoint rsplit_once (d : Z) (t : list Z) : option (list Z * list Z) :=
  match t with
  | [] => None
  | c :: r =>
    match rsplit_once d r with
    | Some (a, b) => Some (c :: a, b)
    | None => if c =? d then Some ([], r) else None
    end
  end.

Fixpoint strip_prefix (p t : list Z) : option (list Z) :=
  match p, t with
  | [], _ => Some t
  | a :: p, c :: t => if a =? c then strip_prefix p t else None
  | _ :: _, [] => None
  end.

(** [text.find(p)] followed by the slices around the match: what is before the
    first occurrence and what is after it. *)
Fixpoint find_split (p t : list Z) : option (list Z * list Z) :=
  match strip_prefix p t, t with
  | Some rest, _ => Some ([], rest)
  | None, [] => None
  | None, c :: r => '(a, b) ← find_split p r; Some (c :: a, b)
  end.

Definition to_ascii_lowercase (c : Z) : Z := if (65 <=? c) && (c <=? 90) then c + 32 else c.
Definition to_ascii_uppercase (c : Z) : Z := if (97 <=? c) && (c <=? 122) then c - 32 else c.
Definition eq_ignore_ascii_case (a b : list Z) : bool :=
  bool_decide (map to_ascii_lowercase a = map to_ascii_lowercase b).

Definition is_ascii_digit (c : Z) : bool := (48 <=? c) && (c <=? 57).
Definition is_ascii_hexdigit (c : Z) : bool :=
  is_ascii_digit c || ((97 <=? c) && (c <=? 102)) || ((65 <=? c) && (c <=? 70)).

(** [str::parse] of an unsigned integer of [w] bits: an optional plus sign,
    then decimal digits, refused when there are none or when the value does not
    fit. *)
Fixpoint parse_digits (w acc : Z) (t : list Z) : option Z :=
  match t with
  | [] => Some acc
  | c :: r => if is_ascii_digit c then v ← checked_mul w acc 10; v ← checked_add w v (c - 48); parse_digits w v r else None
  end.

Definition parse_unsigned (w : Z) (t : list Z) : option Z :=
  let digits := match t with c :: r => if c =? 43 then r else t | [] => t end in
  match digits with [] => None | _ => parse_digits w 0 digits end.

Definition parse_u32 (t : list Z) : option Z := parse_unsigned 32 t.

(** [format!("{n}")] of an unsigned integer. *)
Definition decimal (n : Z) : list Z := string_bytes (pretty (Z.to_N n)).

(** [split_ascii_whitespace]. *)
Definition is_ascii_whitespace (c : Z) : bool := (c =? 9) || (c =? 10) || (c =? 12) || (c =? 13) || (c =? 32).
Definition flush (word : list Z) : list (list Z) := match word with [] => [] | _ => [word] end.
Fixpoint split_words (word t : list Z) : list (list Z) :=
  match t with
  | [] => flush word
  | c :: r => if is_ascii_whitespace c then flush word ++ split_words [] r else split_words (word ++ [c]) r
  end.
Definition split_ascii_whitespace (t : list Z) : list (list Z) := split_words [] t.

(** ** Lines *)

Lemma strip_suffix_char_snoc c d t : strip_suffix_char c (t ++ [d]) = if d =? c then Some t else None.
Proof. unfold strip_suffix_char. rewrite rev_app_distr. simpl. by rewrite rev_involutive. Qed.

Lemma strip_suffix_char_Some c t u : strip_suffix_char c t = Some u -> t = u ++ [c].
Proof.
  unfold strip_suffix_char. destruct (rev t) as [|d r] eqn:E; [done|].
  destruct (d =? c) eqn:Edc; [|done]. intros [= <-]. apply Z.eqb_eq in Edc as ->.
  rewrite <- (rev_involutive t), E. simpl. done.
Qed.

Lemma split_inclusive_line l rest : LF ∉ l -> split_inclusive (l ++ LF :: rest) = (l ++ [LF]) :: split_inclusive rest.
Proof.
  induction l as [|c l IH]; intros Hl; [done|].
  apply not_elem_of_cons in Hl as [Hc Hl]. simpl. rewrite (proj2 (Z.eqb_neq c LF)) by congruence.
  by rewrite IH.
Qed.

(** What [lines] gives of a text whose first line is [l]: the line, less a
    carriage return at its end. *)
Lemma lines_line l rest : LF ∉ l ->
  lines (l ++ LF :: rest) = match strip_suffix_char CR l with None => l | Some l => l end :: lines rest.
Proof.
  intros Hl. unfold lines. rewrite (split_inclusive_line l rest Hl). simpl. f_equal.
  unfold strip_line_end. by rewrite strip_suffix_char_snoc, Z.eqb_refl.
Qed.

Lemma split_inclusive_pieces t l : (l ∈ split_inclusive t) ->
  exists body, (LF ∉ body) /\ (l = body \/ l = body ++ [LF]).
Proof.
  revert l. induction t as [|c t IH]; simpl; intros l Hl; [by apply not_elem_of_nil in Hl|].
  destruct (c =? LF) eqn:Ec.
  - apply elem_of_cons in Hl as [->|Hl]; [|by apply IH].
    exists []. split; [apply not_elem_of_nil|]. apply Z.eqb_eq in Ec as ->. by right.
  - apply Z.eqb_neq in Ec. destruct (split_inclusive t) as [|h ls] eqn:E.
    + apply list_elem_of_singleton in Hl as ->. exists [c]. split; [|by left].
      intros ?%list_elem_of_singleton. congruence.
    + apply elem_of_cons in Hl as [->|Hl]; [|apply IH; by apply elem_of_cons; right].
      destruct (IH h) as (body & Hb & Hh); [by apply elem_of_cons; left|].
      exists (c :: body). split; [by apply not_elem_of_cons; split; [congruence|]|].
      destruct Hh as [-> | ->]; [by left|by right].
Qed.

Lemma lines_no_LF t l : (l ∈ lines t) -> LF ∉ l.
Proof.
  unfold lines. intros Hl. apply list_elem_of_fmap in Hl as (piece & -> & Hp).
  apply split_inclusive_pieces in Hp as (body & Hb & Hp). unfold strip_line_end.
  destruct (strip_suffix_char LF piece) as [u|] eqn:E.
  - apply strip_suffix_char_Some in E as ->. destruct Hp as [<-|Hp].
    + exfalso. apply Hb. apply elem_of_app. right. by apply list_elem_of_singleton.
    + apply app_inj_2 in Hp as [-> _]; [|done]. destruct (strip_suffix_char CR body) as [v|] eqn:E2; [|done].
      apply strip_suffix_char_Some in E2 as ->. intros Hv. apply Hb. apply elem_of_app. by left.
  - destruct Hp as [-> | ->]; [done|]. by rewrite strip_suffix_char_snoc, Z.eqb_refl in E.
Qed.

(** ** Trimming *)

Definition trimmed_start (t : list Z) : bool := match t with c :: _ => negb (is_whitespace c) | [] => true end.
Definition trimmed_end (t : list Z) : bool := trimmed_start (rev t).

Lemma trim_start_matches_keep p t : match t with c :: _ => negb (p c) | [] => true end = true -> trim_start_matches p t = t.
Proof. destruct t as [|c t]; simpl; [done|]. by intros ->%negb_true_iff. Qed.

Lemma trim_start_matches_head p t :
  match trim_start_matches p t with c :: _ => negb (p c) | [] => true end = true.
Proof. induction t as [|c t IH]; simpl; [done|]. destruct (p c) eqn:E; [done|]. by rewrite E. Qed.

Lemma trim_keep t : trimmed_start t = true -> trimmed_end t = true -> trim t = t.
Proof.
  intros Hs He. unfold trim, trim_end_matches.
  rewrite (trim_start_matches_keep is_whitespace t) by done.
  by rewrite (trim_start_matches_keep is_whitespace (rev t)), rev_involutive.
Qed.

Lemma trim_trimmed_end t : trimmed_end (trim t) = true.
Proof. unfold trimmed_end, trim, trim_end_matches. rewrite rev_involutive. apply trim_start_matches_head. Qed.

Lemma trim_start_matches_suffix p t : exists pre, t = pre ++ trim_start_matches p t /\ Forall (fun c => p c = true) pre.
Proof.
  induction t as [|c t (pre & Ht & Hp)]; simpl; [by exists []|].
  destruct (p c) eqn:E; [|by exists []]. exists (c :: pre). simpl. rewrite <- Ht. by repeat constructor.
Qed.

(** A trimmed text is the text between two runs of white space. *)
Lemma trim_spec t : exists pre post, t = pre ++ trim t ++ post
  /\ Forall (fun c => is_whitespace c = true) (pre ++ post).
Proof.
  destruct (trim_start_matches_suffix is_whitespace t) as (pre & Ht & Hpre).
  destruct (trim_start_matches_suffix is_whitespace (rev (trim_start_matches is_whitespace t))) as (post & Hm & Hpost).
  exists pre, (rev post). split.
  - rewrite Ht at 1. f_equal. unfold trim, trim_end_matches.
    rewrite <- (rev_involutive (trim_start_matches is_whitespace t)) at 1.
    rewrite Hm at 1. by rewrite rev_app_distr.
  - apply Forall_app. split; [done|]. by apply Forall_rev.
Qed.

Lemma trim_trimmed_start t : trimmed_start (trim t) = true.
Proof.
  destruct (trim_start_matches_suffix is_whitespace (rev (trim_start_matches is_whitespace t))) as (post & Hm & _).
  pose proof (trim_start_matches_head is_whitespace t) as Hhead.
  unfold trim, trim_end_matches, trimmed_start.
  destruct (rev (trim_start_matches is_whitespace (rev (trim_start_matches is_whitespace t)))) as [|c r] eqn:E; [done|].
  assert (trim_start_matches is_whitespace t = (c :: r) ++ rev post) as Ht.
  { rewrite <- E, <- rev_app_distr, <- Hm. by rewrite rev_involutive. }
  by rewrite Ht in Hhead.
Qed.

Lemma trim_subset t c : (c ∈ trim t) -> c ∈ t.
Proof. intros Hc. destruct (trim_spec t) as (pre & post & -> & _). rewrite !elem_of_app. tauto. Qed.

Lemma trim_idemp t : trim (trim t) = trim t.
Proof. apply trim_keep; [apply trim_trimmed_start|apply trim_trimmed_end]. Qed.

Lemma trimmed_end_app a b : b <> [] -> trimmed_end (a ++ b) = trimmed_end b.
Proof.
  intros Hb. unfold trimmed_end. rewrite rev_app_distr. destruct (rev b) as [|c r] eqn:E; [|done].
  apply (f_equal (@rev Z)) in E. rewrite rev_involutive in E. by subst.
Qed.

(** A line that does not end in white space is read whole. *)
Lemma lines_record l rest : (LF ∉ l) -> trimmed_end l = true -> lines (l ++ LF :: rest) = l :: lines rest.
Proof.
  intros Hl He. rewrite lines_line by done. destruct (strip_suffix_char CR l) as [u|] eqn:E; [|done].
  apply strip_suffix_char_Some in E as ->. unfold trimmed_end in He. by rewrite rev_app_distr in He.
Qed.

(** ** Splitting *)

Lemma split_once_app d a b : d ∉ a -> split_once d (a ++ d :: b) = Some (a, b).
Proof.
  induction a as [|c a IH]; simpl; intros Ha; [by rewrite Z.eqb_refl|].
  apply not_elem_of_cons in Ha as [Hc Ha]. rewrite (proj2 (Z.eqb_neq c d)) by congruence. by rewrite IH.
Qed.

Lemma split_once_Some d t a b : split_once d t = Some (a, b) -> t = a ++ d :: b /\ d ∉ a.
Proof.
  revert a. induction t as [|c t IH]; simpl; intros a H; [done|].
  destruct (c =? d) eqn:E.
  - injection H as <- <-. apply Z.eqb_eq in E as ->. split; [done|]. apply not_elem_of_nil.
  - destruct (split_once d t) as [[a' b']|] eqn:E2; simpl in H; [|done]. injection H as <- <-.
    destruct (IH a' eq_refl) as [-> Ha]. split; [done|]. apply Z.eqb_neq in E. by apply not_elem_of_cons; split; [congruence|].
Qed.

Lemma rsplit_once_app d a b : d ∉ b -> rsplit_once d (a ++ d :: b) = Some (a, b).
Proof.
  intros Hb. assert (rsplit_once d b = None) as Hn.
  { induction b as [|c b IH]; simpl; [done|]. apply not_elem_of_cons in Hb as [Hc Hb].
    rewrite (IH Hb), (proj2 (Z.eqb_neq c d)); congruence. }
  induction a as [|c a IH]; simpl; [by rewrite Hn, Z.eqb_refl|]. by rewrite IH.
Qed.

Lemma rsplit_once_None d t : rsplit_once d t = None <-> d ∉ t.
Proof.
  induction t as [|c t IH]; simpl; [split; [intros _; apply not_elem_of_nil|done]|].
  rewrite not_elem_of_cons, <- IH. destruct (rsplit_once d t) as [[a b]|].
  - split; [done|]. by intros [_ ?].
  - destruct (c =? d) eqn:E; [apply Z.eqb_eq in E as ->|apply Z.eqb_neq in E]; naive_solver.
Qed.

Lemma strip_prefix_app p t : strip_prefix p (p ++ t) = Some t.
Proof. induction p as [|a p IH]; simpl; [done|]. by rewrite Z.eqb_refl. Qed.

Lemma strip_prefix_Some p t r : strip_prefix p t = Some r -> t = p ++ r.
Proof.
  revert t. induction p as [|a p IH]; intros [|c t]; simpl; try done; try (by intros [= ->]).
  destruct (a =? c) eqn:E; [|done]. apply Z.eqb_eq in E as ->. by intros ->%IH.
Qed.

(** A text is found at its first occurrence when nothing before it begins
    with its first character. *)
Lemma find_split_app a p pre rest : a ∉ pre -> find_split (a :: p) (pre ++ (a :: p) ++ rest) = Some (pre, rest).
Proof.
  induction pre as [|c pre IH]; intros Hpre.
  - simpl. by rewrite Z.eqb_refl, strip_prefix_app.
  - apply not_elem_of_cons in Hpre as [Hc Hpre]. cbn [find_split strip_prefix app].
    rewrite (proj2 (Z.eqb_neq a c)) by done. change (pre ++ a :: p ++ rest) with (pre ++ (a :: p) ++ rest).
    by rewrite IH.
Qed.

(** ** Numbers *)

Definition is_digit (b : Z) : Prop := 0x30 <= b <= 0x39.

Lemma string_bytes_cons c s : string_bytes (String c s) = Z.of_N (Ascii.N_of_ascii c) :: string_bytes s.
Proof. done. Qed.

Lemma pretty_char x : (x < 10)%N -> Z.of_N (Ascii.N_of_ascii (pretty_N_char x)) = 0x30 + Z.of_N x.
Proof.
  intros Hx. assert (x = 0 \/ x = 1 \/ x = 2 \/ x = 3 \/ x = 4 \/ x = 5 \/ x = 6 \/ x = 7 \/ x = 8 \/ x = 9)%N as H by lia.
  by repeat destruct H as [->|H]; [..|subst x].
Qed.

Lemma pretty_go_digits x s : Forall is_digit (string_bytes s) -> Forall is_digit (string_bytes (pretty_N_go x s)).
Proof.
  revert s. induction (N.lt_wf_0 x) as [x _ IH]; intros s Hs.
  assert (x = 0 \/ 0 < x)%N as [->|Hx] by lia; [by rewrite pretty_N_go_0|].
  rewrite pretty_N_go_step by done. apply IH; [by apply N.div_lt|].
  rewrite string_bytes_cons. constructor; [|done].
  pose proof (N.mod_lt x 10 ltac:(lia)). rewrite pretty_char by done. unfold is_digit.
  generalize dependent (x mod 10)%N. lia.
Qed.

Lemma parse_digits_go w x s : 0 <= w -> Z.of_N x < 2 ^ w ->
  parse_digits w 0 (string_bytes (pretty_N_go x s)) = parse_digits w (Z.of_N x) (string_bytes s).
Proof.
  intros Hw0. revert s. induction (N.lt_wf_0 x) as [x _ IH]; intros s Hw.
  assert (x = 0 \/ 0 < x)%N as [->|Hx] by lia; [by rewrite pretty_N_go_0|].
  rewrite pretty_N_go_step by done.
  pose proof (N.div_lt x 10 Hx eq_refl) as Hq. pose proof (N.mod_lt x 10 ltac:(lia)) as Hm.
  pose proof (N.div_mod x 10 ltac:(lia)) as Hdm.
  generalize dependent (x mod 10)%N. generalize dependent (x / 10)%N. intros q Hq m Hm Hdm.
  rewrite IH by lia. rewrite string_bytes_cons, pretty_char by done. cbn [parse_digits].
  unfold is_ascii_digit. rewrite (proj2 (Z.leb_le _ _)), (proj2 (Z.leb_le _ _)) by lia. cbn [andb].
  rewrite (proj2 (checked_mul_Some w (Z.of_N q) 10 (Z.of_N q * 10))) by (unfold umax; lia).
  cbn [mbind option_bind].
  rewrite (proj2 (checked_add_Some w (Z.of_N q * 10) (0x30 + Z.of_N m - 48) (Z.of_N x)))
    by (unfold umax; lia).
  done.
Qed.

Lemma decimal_digits v : Forall is_digit (decimal v).
Proof.
  unfold decimal, pretty, pretty_N. case_decide; [|apply pretty_go_digits; constructor].
  unfold is_digit. repeat constructor; cbn; lia.
Qed.

Lemma decimal_nonempty v : decimal v <> [].
Proof.
  unfold decimal, pretty, pretty_N. case_decide as Hz; [done|]. intros E.
  pose proof (parse_digits_go (Z.of_N (Z.to_N v)) (Z.to_N v) "" ltac:(lia)) as Hp. rewrite E in Hp.
  specialize (Hp ltac:(apply Z.pow_gt_lin_r; lia)). cbn in Hp. injection Hp as Hp. lia.
Qed.

Lemma parse_decimal w v : 0 <= w -> in_width w v -> parse_unsigned w (decimal v) = Some v.
Proof.
  intros Hw Hv. unfold in_width in Hv. pose proof (decimal_nonempty v) as Hne. pose proof (decimal_digits v) as Hd.
  unfold decimal, pretty, pretty_N in *. case_decide as Hz.
  { replace v with 0 by lia. change (parse_digits w 0 [48] = Some 0). cbn [parse_digits is_ascii_digit Z.leb Z.compare Pos.compare Pos.compare_cont andb].
    assert (0 < 2 ^ w) by lia.
    rewrite (proj2 (checked_mul_Some w 0 10 0)) by (unfold umax; lia). cbn [mbind option_bind].
    by rewrite (proj2 (checked_add_Some w 0 (48 - 48) 0)) by (unfold umax; lia). }
  pose proof (parse_digits_go w (Z.to_N v) "" Hw ltac:(lia)) as Hp.
  destruct (string_bytes (pretty_N_go (Z.to_N v) "")) as [|b l] eqn:E; [done|].
  apply Forall_cons in Hd as [Hd _]. unfold parse_unsigned, is_digit in *.
  destruct (Z.eqb_spec b 43); [lia|]. rewrite Hp. cbn. f_equal. lia.
Qed.

(** ** Words *)

Lemma split_words_app acc word rest : Forall (fun c => is_ascii_whitespace c = false) word ->
  split_words acc (word ++ rest) = split_words (acc ++ word) rest.
Proof.
  revert acc. induction word as [|c word IH]; intros acc Hw; [by rewrite app_nil_r|].
  apply Forall_cons in Hw as [Hc Hw]. cbn [app split_words]. rewrite Hc, IH by done. by rewrite <- app_assoc.
Qed.

(** A word and what follows it. *)
Lemma split_word word rest : word <> [] -> Forall (fun c => is_ascii_whitespace c = false) word ->
  match rest with [] => true | c :: _ => is_ascii_whitespace c end = true ->
  split_ascii_whitespace (word ++ rest) = word :: split_ascii_whitespace rest.
Proof.
  intros Hne Hw Hrest. unfold split_ascii_whitespace. rewrite split_words_app by done. cbn [app].
  destruct rest as [|c rest]; cbn [split_words]; [by destruct word|]. rewrite Hrest. by destruct word.
Qed.
