(* ===== verification/KeelGrid.v ===== *)
(** * Keel: block grid and borrowed frames

    Models [shared/keel/src/grid.rs]: the checked 16x16 block geometry every
    damage producer and consumer shares, and the bounds-checked view over a
    captured BGRA frame. *)

From S2P Require Import Prelude.

Definition BLOCK_SIZE : Z := 16.
Definition BGRA_BYTES_PER_PIXEL : Z := 4.

Record BlockGrid := mkBlockGrid {
  grid_width : Z;
  grid_height : Z;
  blocks_wide : Z;
  blocks_tall : Z;
  block_count : Z
}.

Record BlockBounds := mkBlockBounds {
  bounds_x : Z;
  bounds_y : Z;
  bounds_width : Z;
  bounds_height : Z
}.

Inductive KeelError :=
| ZeroDimension
| GeometryOverflow
| StrideTooSmall (stride minimum : Z)
| BufferTooSmall (actual required : Z)
| GeometryChanged (expected actual : BlockGrid)
| ExternalBlockSizeZero
| ExternalMapGeometry (expected_wide expected_tall actual_wide actual_tall : Z)
| ExternalMapTooSmall (actual required : Z).

#[global] Instance BlockGrid_eq_dec : EqDecision BlockGrid.
Proof. solve_decision. Defined.
#[global] Instance BlockBounds_eq_dec : EqDecision BlockBounds.
Proof. solve_decision. Defined.
#[global] Instance KeelError_eq_dec : EqDecision KeelError.
Proof. solve_decision. Defined.

Definition BlockGrid_new (width height : Z) : result KeelError BlockGrid :=
  _ ← guard_err ((width =? 0) || (height =? 0)) ZeroDimension;
  let wide := div_ceil width BLOCK_SIZE in
  let tall := div_ceil height BLOCK_SIZE in
  count ← ok_or (checked_mul usize_bits wide tall) GeometryOverflow;
  Ok (mkBlockGrid width height wide tall count).

Definition block_index (g : BlockGrid) (block_x block_y : Z) : option Z :=
  if (blocks_wide g <=? block_x) || (blocks_tall g <=? block_y) then None
  else row ← checked_mul usize_bits block_y (blocks_wide g);
       checked_add usize_bits row block_x.

Definition block_bounds (g : BlockGrid) (index : Z) : option BlockBounds :=
  if block_count g <=? index then None
  else
    let block_x := index mod blocks_wide g in
    let block_y := index / blocks_wide g in
    let x := block_x * BLOCK_SIZE in
    let y := block_y * BLOCK_SIZE in
    Some (mkBlockBounds x y
            (Z.min BLOCK_SIZE (grid_width g - x))
            (Z.min BLOCK_SIZE (grid_height g - y))).

(** A [Range<usize>] of pixel rows, as its start and end. *)
Definition block_row_pixels (g : BlockGrid) (block_row : Z) : option (Z * Z) :=
  if blocks_tall g <=? block_row then None
  else
    let start := block_row * BLOCK_SIZE in
    Some (start, Z.min (start + BLOCK_SIZE) (grid_height g)).

Record BgraFrame := mkBgraFrame {
  frame_pixels : list Z;
  frame_grid : BlockGrid;
  frame_stride : Z
}.

Definition BgraFrame_new (pixels : list Z) (width height stride : Z)
  : result KeelError BgraFrame :=
  grid ← BlockGrid_new width height;
  active_row_bytes ←
    ok_or (checked_mul usize_bits width BGRA_BYTES_PER_PIXEL) GeometryOverflow;
  _ ← guard_err (stride <? active_row_bytes) (StrideTooSmall stride active_row_bytes);
  required ← ok_or (checked_mul usize_bits stride height) GeometryOverflow;
  _ ← guard_err (len pixels <? required) (BufferTooSmall (len pixels) required);
  Ok (mkBgraFrame pixels grid stride).

Definition active_row (f : BgraFrame) (row : Z) : option (list Z) :=
  if grid_height (frame_grid f) <=? row then None
  else
    let start := row * frame_stride f in
    let stop := start + grid_width (frame_grid f) * BGRA_BYTES_PER_PIXEL in
    Some (slice (frame_pixels f) start stop).

Definition block_row_segment (f : BgraFrame) (pixel_row : Z) (b : BlockBounds) : list Z :=
  let row_start := pixel_row * frame_stride f in
  let start := row_start + bounds_x b * BGRA_BYTES_PER_PIXEL in
  let stop := start + bounds_width b * BGRA_BYTES_PER_PIXEL in
  slice (frame_pixels f) start stop.

(** ** Specification predicates *)

(** What [BlockGrid::new] establishes; the type's invariant. *)
Record grid_wf (g : BlockGrid) : Prop := {
  wf_width : 0 < grid_width g < 2 ^ 64;
  wf_height : 0 < grid_height g < 2 ^ 64;
  wf_wide : blocks_wide g = div_ceil (grid_width g) BLOCK_SIZE;
  wf_tall : blocks_tall g = div_ceil (grid_height g) BLOCK_SIZE;
  wf_count : block_count g = blocks_wide g * blocks_tall g;
  wf_count_max : block_count g <= umax 64
}.

Definition pixel_in_block (g : BlockGrid) (i x y : Z) : Prop :=
  0 <= i /\ exists b, block_bounds g i = Some b /\
    bounds_x b <= x < bounds_x b + bounds_width b /\
    bounds_y b <= y < bounds_y b + bounds_height b.

(** The type invariant of a borrowed frame. *)
Record frame_wf (f : BgraFrame) : Prop := {
  wf_frame_grid : grid_wf (frame_grid f);
  wf_stride : 4 * grid_width (frame_grid f) <= frame_stride f;
  wf_storage : frame_stride f * grid_height (frame_grid f) <= len (frame_pixels f)
}.

(** ** Lemmas *)

Lemma BlockGrid_new_inv w h g :
  is_usize w -> is_usize h -> BlockGrid_new w h = Ok g ->
  grid_wf g /\ grid_width g = w /\ grid_height g = h.
Proof.
  intros Hw Hh H. unfold BlockGrid_new in H. inv_ok. boolify.
  match goal with H : checked_mul _ _ _ = _ |- _ => apply checked_mul_Some in H as [-> ?] end.
  unfold in_width in *. repeat split; cbn; auto; lia.
Qed.

Lemma BgraFrame_new_inv pixels w h stride f :
  is_usize w -> is_usize h -> BgraFrame_new pixels w h stride = Ok f ->
  frame_wf f /\ frame_pixels f = pixels /\ frame_stride f = stride /\
  BlockGrid_new w h = Ok (frame_grid f).
Proof.
  intros Hw Hh H. unfold BgraFrame_new in H. inv_ok. boolify.
  repeat match goal with H : checked_mul _ _ _ = _ |- _ => apply checked_mul_Some in H as [-> ?] end.
  edestruct (BlockGrid_new_inv w h) as (Hg & Ew & Eh); eauto.
  unfold BGRA_BYTES_PER_PIXEL in *.
  split_and!; auto. constructor; cbn; rewrite ?Ew, ?Eh; auto; lia.
Qed.

Section Wf.
Context (g : BlockGrid) (Hg : grid_wf g).

Lemma blocks_wide_pos : 0 < blocks_wide g.
Proof. destruct Hg as [? ? -> ? ? ?]. apply div_ceil_pos; unfold BLOCK_SIZE; lia. Qed.

Lemma blocks_tall_pos : 0 < blocks_tall g.
Proof. destruct Hg as [? ? ? -> ? ?]. apply div_ceil_pos; unfold BLOCK_SIZE; lia. Qed.

Lemma block_count_pos : 0 < block_count g.
Proof.
  destruct Hg as [? ? ? ? -> ?]. pose proof blocks_wide_pos. pose proof blocks_tall_pos. nia.
Qed.

(** Row-major decoding of an index. *)
Lemma index_coords i :
  0 <= i < block_count g ->
  0 <= i mod blocks_wide g < blocks_wide g /\
  0 <= i / blocks_wide g < blocks_tall g /\
  i = i / blocks_wide g * blocks_wide g + i mod blocks_wide g.
Proof.
  intros Hi. pose proof blocks_wide_pos as Hw. rewrite (wf_count g Hg) in Hi.
  pose proof (Z.mod_pos_bound i _ Hw). pose proof (Z.div_mod i (blocks_wide g)).
  repeat split; try lia; [apply Z.div_pos; lia | apply Z.div_lt_upper_bound; lia].
Qed.

Lemma index_of_coords bx by_ :
  0 <= bx < blocks_wide g -> 0 <= by_ < blocks_tall g ->
  0 <= by_ * blocks_wide g + bx < block_count g /\
  (by_ * blocks_wide g + bx) mod blocks_wide g = bx /\
  (by_ * blocks_wide g + bx) / blocks_wide g = by_.
Proof.
  intros Hx Hy. rewrite (wf_count g Hg). repeat split; try nia.
  - rewrite Z.add_comm, Z_mod_plus_full. apply Z.mod_small. lia.
  - rewrite Z.add_comm, Z_div_plus_full, Z.div_small by lia. lia.
Qed.

(** The two checked operations of [block_index] never overflow. *)
Lemma block_index_Some bx by_ :
  0 <= bx -> 0 <= by_ ->
  block_index g bx by_ =
    if (bx <? blocks_wide g) && (by_ <? blocks_tall g)
    then Some (by_ * blocks_wide g + bx) else None.
Proof.
  intros Hx Hy. unfold block_index.
  destruct (Z.leb_spec (blocks_wide g) bx), (Z.ltb_spec bx (blocks_wide g)); try lia; [done|].
  destruct (Z.leb_spec (blocks_tall g) by_), (Z.ltb_spec by_ (blocks_tall g)); try lia; [done|].
  cbn [orb andb]. destruct (index_of_coords bx by_) as [? _]; [lia..|].
  pose proof (wf_count_max g Hg). unfold checked_mul, checked_add, usize_bits.
  destruct (Z.leb_spec (by_ * blocks_wide g) (umax 64)); [cbn|lia].
  destruct (Z.leb_spec (by_ * blocks_wide g + bx) (umax 64)); [done|lia].
Qed.

Lemma block_bounds_Some i b :
  0 <= i -> block_bounds g i = Some b <->
  i < block_count g /\
  b = mkBlockBounds (i mod blocks_wide g * 16) (i / blocks_wide g * 16)
        (Z.min 16 (grid_width g - i mod blocks_wide g * 16))
        (Z.min 16 (grid_height g - i / blocks_wide g * 16)).
Proof.
  intros Hi. unfold block_bounds, BLOCK_SIZE.
  destruct (Z.leb_spec (block_count g) i); naive_solver lia.
Qed.

(** Every block is non-empty, at most 16x16 and inside the frame. *)
Lemma block_bounds_inside i b :
  0 <= i -> block_bounds g i = Some b ->
  0 <= bounds_x b /\ 0 < bounds_width b <= 16 /\
  bounds_x b + bounds_width b <= grid_width g /\
  0 <= bounds_y b /\ 0 < bounds_height b <= 16 /\
  bounds_y b + bounds_height b <= grid_height g.
Proof.
  intros Hi Hb. apply block_bounds_Some in Hb as [Hc ->]; [|done].
  destruct (index_coords i) as ([? Hx] & [? Hy] & _); [lia|].
  rewrite (wf_wide g Hg) in Hx at 2. rewrite (wf_tall g Hg) in Hy.
  apply (div_ceil_lt_iff _ 16) in Hx; [|lia].
  apply (div_ceil_lt_iff _ 16) in Hy; [|lia].
  cbn. lia.
Qed.

Lemma pixel_in_block_iff i x y :
  pixel_in_block g i x y <->
  0 <= i < block_count g /\ 0 <= x < grid_width g /\ 0 <= y < grid_height g /\
  i mod blocks_wide g = x / 16 /\ i / blocks_wide g = y / 16.
Proof.
  pose proof (Z.div_mod x 16) as Ex. pose proof (Z.mod_pos_bound x 16) as Bx.
  pose proof (Z.div_mod y 16) as Ey. pose proof (Z.mod_pos_bound y 16) as By.
  split.
  - intros (Hi & b & Hb & Hx & Hy).
    pose proof (block_bounds_inside _ _ Hi Hb) as Hin.
    apply block_bounds_Some in Hb as [Hc ->]; [|done]. cbn in *.
    repeat split; try lia; nia.
  - intros (Hi & Hx & Hy & Ex' & Ey'). split; [lia|]. eexists. split.
    { apply block_bounds_Some; [lia|]. split; [lia|done]. }
    cbn. rewrite Ex', Ey'. lia.
Qed.

(** The block holding a pixel is the one its coordinates name. *)
Lemma pixel_block_unique x y :
  0 <= x < grid_width g -> 0 <= y < grid_height g ->
  exists! i, pixel_in_block g i x y.
Proof.
  intros Hx Hy.
  assert (Bx : 0 <= x / 16 < blocks_wide g).
  { split; [apply Z.div_pos; lia|]. rewrite (wf_wide g Hg). apply div_lt_div_ceil; unfold BLOCK_SIZE; lia. }
  assert (By : 0 <= y / 16 < blocks_tall g).
  { split; [apply Z.div_pos; lia|]. rewrite (wf_tall g Hg). apply div_lt_div_ceil; unfold BLOCK_SIZE; lia. }
  destruct (index_of_coords _ _ Bx By) as (? & ? & ?).
  exists (y / 16 * blocks_wide g + x / 16). split.
  - apply pixel_in_block_iff. auto.
  - intros j (Hj & _ & _ & E1 & E2)%pixel_in_block_iff.
    destruct (index_coords j Hj) as (_ & _ & ->). congruence.
Qed.

Lemma block_row_pixels_Some r lo hi :
  0 <= r -> block_row_pixels g r = Some (lo, hi) <->
  r < blocks_tall g /\ lo = r * 16 /\ hi = Z.min (r * 16 + 16) (grid_height g).
Proof.
  intros Hr. unfold block_row_pixels, BLOCK_SIZE.
  destruct (Z.leb_spec (blocks_tall g) r); naive_solver lia.
Qed.
End Wf.

Section FrameWf.
Context (f : BgraFrame) (Hf : frame_wf f).

(** A row prefix of [n] bytes starting [k] bytes into row [r] is stored. *)
Lemma row_bytes_stored r k n :
  0 <= r < grid_height (frame_grid f) -> 0 <= k -> 0 <= n ->
  k + n <= 4 * grid_width (frame_grid f) ->
  0 <= r * frame_stride f + k /\ r * frame_stride f + k + n <= len (frame_pixels f).
Proof. intros Hr Hk Hn Hkn. destruct Hf as [Hg Hs Hl]. destruct (wf_width _ Hg). nia. Qed.

Lemma active_row_length r bytes :
  0 <= r -> active_row f r = Some bytes ->
  len bytes = 4 * grid_width (frame_grid f).
Proof.
  intros Hr. unfold active_row, BGRA_BYTES_PER_PIXEL.
  destruct (Z.leb_spec (grid_height (frame_grid f)) r); [done|]. intros [= <-].
  pose proof (wf_width _ (wf_frame_grid f Hf)).
  destruct (row_bytes_stored r 0 (4 * grid_width (frame_grid f))); try lia.
  rewrite slice_length; lia.
Qed.

Lemma block_row_segment_length i b r :
  0 <= i -> block_bounds (frame_grid f) i = Some b ->
  0 <= r < bounds_height b ->
  len (block_row_segment f (bounds_y b + r) b) = 4 * bounds_width b.
Proof.
  intros Hi Hb Hr.
  destruct (block_bounds_inside _ (wf_frame_grid f Hf) i b Hi Hb) as (? & ? & ? & ? & ? & ?).
  unfold block_row_segment, BGRA_BYTES_PER_PIXEL.
  destruct (row_bytes_stored (bounds_y b + r) (bounds_x b * 4) (bounds_width b * 4)); try lia.
  rewrite slice_length; lia.
Qed.
End FrameWf.

#[export] Hint Resolve blocks_wide_pos blocks_tall_pos block_count_pos : arcen.

(** ** Properties *)

(** The blocks of a grid partition the frame: every block that
    [block_bounds] returns is non-empty, at most 16x16 and inside the frame,
    every pixel lies in exactly one block, and [block_index] of the block
    coordinates names that block without overflowing [usize]. *)
Theorem grid_blocks_partition (w h : Z) (g : BlockGrid) :
  is_usize w -> is_usize h -> BlockGrid_new w h = Ok g ->
  (forall i b, 0 <= i -> block_bounds g i = Some b ->
     0 <= bounds_x b /\ 0 < bounds_width b <= BLOCK_SIZE /\
     bounds_x b + bounds_width b <= w /\
     0 <= bounds_y b /\ 0 < bounds_height b <= BLOCK_SIZE /\
     bounds_y b + bounds_height b <= h) /\
  (forall x y, 0 <= x < w -> 0 <= y < h ->
     exists! i, pixel_in_block g i x y) /\
  (forall x y i, pixel_in_block g i x y ->
     block_index g (x / BLOCK_SIZE) (y / BLOCK_SIZE) = Some i).
Proof.
  intros Hw Hh H. destruct (BlockGrid_new_inv w h g Hw Hh H) as (Hg & <- & <-).
  split_and!.
  - intros i b. apply (block_bounds_inside g Hg).
  - apply (pixel_block_unique g Hg).
  - intros x y i (Hi & Hx & Hy & E1 & E2)%(pixel_in_block_iff g Hg).
    destruct (index_coords g Hg i Hi) as (B1 & B2 & E).
    unfold BLOCK_SIZE. rewrite <- E1, <- E2 in *.
    rewrite (block_index_Some g Hg) by lia.
    destruct (Z.ltb_spec (i mod blocks_wide g) (blocks_wide g)); [|lia].
    destruct (Z.ltb_spec (i / blocks_wide g) (blocks_tall g)); [|lia].
    cbn. by rewrite <- E.
Qed.

Lemma grid_blocks_partition_witness :
  exists g, BlockGrid_new 33 17 = Ok g /\ exists! i, pixel_in_block g i 32 16.
Proof.
  eexists. split; [reflexivity|].
  eapply (grid_blocks_partition 33 17); [vm_compute; split; congruence..|reflexivity|lia|lia].
Defined.

(** A frame accepted by [BgraFrame::new] is read only inside its buffer:
    every active row is stored in full, and every row of every block of its
    grid is stored in full and lies inside the active row, so no slice of
    the damage path can panic; the offsets also stay below [usize::MAX]. *)
Theorem frame_reads_in_bounds (pixels : list Z) (w h stride : Z) (f : BgraFrame) :
  is_usize w -> is_usize h -> is_usize (len pixels) ->
  BgraFrame_new pixels w h stride = Ok f ->
  (forall r, 0 <= r < h -> exists bytes, active_row f r = Some bytes /\ len bytes = 4 * w) /\
  (forall i b r, 0 <= i -> block_bounds (frame_grid f) i = Some b -> 0 <= r < bounds_height b ->
     len (block_row_segment f (bounds_y b + r) b) = 4 * bounds_width b /\
     (bounds_y b + r) * stride + bounds_x b * 4 + bounds_width b * 4 <= len pixels /\
     bounds_x b * 4 + bounds_width b * 4 <= stride).
Proof.
  intros Hw Hh Hl H.
  destruct (BgraFrame_new_inv _ _ _ _ _ Hw Hh H) as (Hf & Ep & Es & Eg).
  destruct (BlockGrid_new_inv w h _ Hw Hh Eg) as (Hg & <- & <-). split.
  - intros r Hr. destruct (active_row f r) as [bytes|] eqn:E.
    + exists bytes. split; [done|]. apply (active_row_length f Hf r); [lia|done].
    + unfold active_row in E. destruct (Z.leb_spec (grid_height (frame_grid f)) r); [lia|done].
  - intros i b r Hi Hb Hr. pose proof (wf_stride f Hf).
    destruct (block_bounds_inside _ Hg i b Hi Hb) as (? & ? & ? & ? & ? & ?).
    destruct (row_bytes_stored f Hf (bounds_y b + r) (bounds_x b * 4) (bounds_width b * 4)); try lia.
    rewrite (block_row_segment_length f Hf i b r), <- Ep, <- Es by done. split_and!; lia.
Qed.

Lemma frame_reads_in_bounds_witness :
  exists f, BgraFrame_new (replicate 512 7) 20 5 100 = Ok f /\
    exists bytes, active_row f 4 = Some bytes /\ len bytes = 4 * 20.
Proof.
  eexists. split; [reflexivity|].
  eapply (frame_reads_in_bounds (replicate 512 7) 20 5 100);
    [vm_compute; split; congruence..|reflexivity|lia].
Defined.
