(* ===== verification/KeelDamage.v ===== *)
(** * Keel: block fingerprints and damage tracking

    Models [shared/keel/src/hash.rs] and [shared/keel/src/damage.rs]: the two
    block-hash kernels over the third-party primitives XXH3 and CRC32C
    (parameters of the model), the damage tracker that compares fingerprints
    of consecutive frames, and the iterators over its damage map. *)

From S2P Require Import Prelude KeelGrid.

Definition WORD_BITS : Z := 64.

(** ** Bitsets *)

Definition set_bit (words : list Z) (index : Z) : list Z :=
  alter (fun w => Z.lor w (Z.shiftl 1 (index mod WORD_BITS)))
        (Z.to_nat (index / WORD_BITS)) words.

Definition bit_is_set (words : list Z) (index : Z) : bool :=
  match words !! Z.to_nat (index / WORD_BITS) with
  | Some word => negb (Z.land word (Z.shiftl 1 (index mod WORD_BITS)) =? 0)
  | None => false
  end.

Definition row_is_dirty (g : BlockGrid) (words : list Z) (block_row : Z) : bool :=
  if blocks_tall g <=? block_row then false
  else
    let start := block_row * blocks_wide g in
    existsb (fun index => bit_is_set words index) (seqZ start (blocks_wide g)).

(** ** Damage maps and their iterators *)

Record DamageMap := mkDamageMap { map_grid : BlockGrid; map_bits : list Z }.

Record DamageSummary := mkDamageSummary {
  dirty_blocks : Z;
  total_blocks : Z;
  dirty_block_rows : Z;
  total_block_rows : Z
}.

Definition is_clean (s : DamageSummary) : bool := dirty_blocks s =? 0.
Definition is_full_damage (s : DamageSummary) : bool := dirty_blocks s =? total_blocks s.

Definition is_dirty (m : DamageMap) (block_index : Z) : bool :=
  (block_index <? block_count (map_grid m)) && bit_is_set (map_bits m) block_index.

(** [DirtyBlocks::next]; the iterator's state is [next_index]. *)
Fixpoint DirtyBlocks_next_fuel (fuel : nat) (m : DamageMap) (next_index : Z)
  : option (option Z * Z) :=
  match fuel with
  | O => None
  | S fuel =>
    if next_index <? block_count (map_grid m) then
      if is_dirty m next_index then Some (Some next_index, next_index + 1)
      else DirtyBlocks_next_fuel fuel m (next_index + 1)
    else Some (None, next_index)
  end.

Definition grid_fuel (g : BlockGrid) : nat := Z.to_nat (block_count g + blocks_tall g + 1).

Definition DirtyBlocks_next (m : DamageMap) (next_index : Z) : option (option Z * Z) :=
  DirtyBlocks_next_fuel (grid_fuel (map_grid m)) m next_index.

(** [DirtyBlockRows::next]; the iterator's state is [next_block_row]. *)
Definition DirtyBlockRows_next (m : DamageMap) (next_block_row : Z)
  : option (option (Z * Z) * Z) :=
  let g := map_grid m in
  let dirty r := row_is_dirty g (map_bits m) r in
  first ← while_fuel (grid_fuel g)
            (fun r => (r <? blocks_tall g) && negb (dirty r)) (fun r => r + 1) next_block_row;
  if blocks_tall g <=? first then Some (None, first)
  else
    next ← while_fuel (grid_fuel g)
             (fun r => (r <? blocks_tall g) && dirty r) (fun r => r + 1) (first + 1);
    Some (start ← block_row_pixels g first;
          stop ← block_row_pixels g (next - 1);
          Some (start.1, stop.2), next).

(** [damage_map().dirty_blocks().collect()] and its row counterpart. *)
Definition collect_dirty_blocks (m : DamageMap) : option (list Z) :=
  collect (DirtyBlocks_next m) (grid_fuel (map_grid m)) 0.
Definition collect_dirty_block_rows (m : DamageMap) : option (list (Z * Z)) :=
  collect (DirtyBlockRows_next m) (grid_fuel (map_grid m)) 0.

(** ** Hash kernels *)

Inductive KernelPreference := Auto | PreferXxh3 | PreferCrc32c.
Inductive HashKernel := Xxh3 | Crc32c.

#[global] Instance HashKernel_eq_dec : EqDecision HashKernel.
Proof. solve_decision. Defined.

Definition resolve (p : KernelPreference) : HashKernel :=
  match p with Auto | PreferXxh3 => Xxh3 | PreferCrc32c => Crc32c end.

Definition ROW_SEED : Z := 0x9e3779b185ebca87.
Definition CRC_MIX_SEED : Z := 0x6a09e667f3bcc909.
Definition COMBINE_PRIME : Z := 0xc2b2ae3d27d4eb4f.

Definition finish_mix (combined : Z) : Z := Z.lxor combined (Z.shiftr combined 29).

Section Kernel.
(** [xxh3_64_with_seed(bytes, seed)] and [crc32c::crc32c_append(crc, bytes)],
    from third-party crates. *)
Context (xxh3_64_with_seed : list Z -> Z -> Z) (crc32c_append : Z -> list Z -> Z).

Definition mix_row (combined : Z) (row : list Z) (row_offset seed : Z) : Z :=
  let row_hash := xxh3_64_with_seed row (wrapping_mul 64 seed (row_offset + 1)) in
  let combined := Z.lxor (rotate_left 64 combined 17) row_hash in
  wrapping_mul 64 combined COMBINE_PRIME.

Definition hash_block (k : HashKernel) (f : BgraFrame) (b : BlockBounds) : Z :=
  match k with
  | Xxh3 =>
    let combined := Z.lxor ROW_SEED (bounds_height b) in
    finish_mix
      (fold_left (fun combined row_offset =>
         let row := block_row_segment f (bounds_y b + row_offset) b in
         mix_row combined row row_offset ROW_SEED)
       (range (bounds_height b)) combined)
  | Crc32c =>
    let independent := Z.lxor CRC_MIX_SEED (bounds_height b) in
    let st :=
      fold_left (fun '(crc, independent) row_offset =>
         let row := block_row_segment f (bounds_y b + row_offset) b in
         (crc32c_append crc row, mix_row independent row row_offset CRC_MIX_SEED))
       (range (bounds_height b)) (0, independent) in
    Z.lor st.1 (Z.land (finish_mix st.2) 0xffffffff00000000)
  end.

(** ** The tracker *)

Record DamageTracker := mkDamageTracker {
  tracker_grid : BlockGrid;
  tracker_kernel : HashKernel;
  previous_hashes : list Z;
  dirty_bits : list Z;
  has_baseline : bool
}.

Definition DamageTracker_new (width height : Z) (p : KernelPreference)
  : result KeelError DamageTracker :=
  grid ← BlockGrid_new width height;
  let words := div_ceil (block_count grid) WORD_BITS in
  Ok (mkDamageTracker grid (resolve p)
        (replicate (Z.to_nat (block_count grid)) 0)
        (replicate (Z.to_nat words) 0) false).

Definition DamageTracker_reset (t : DamageTracker) : DamageTracker :=
  mkDamageTracker (tracker_grid t) (tracker_kernel t) (previous_hashes t)
    (replicate (length (dirty_bits t)) 0) false.

Definition damage_map (t : DamageTracker) : DamageMap :=
  mkDamageMap (tracker_grid t) (dirty_bits t).

(** Loop state of [update]: the retained hashes, the bitset and the count. *)
Record UpdateState := mkUpdateState {
  us_hashes : list Z; us_bits : list Z; us_dirty : Z }.

Definition update_block (t : DamageTracker) (f : BgraFrame) (b : BlockBounds)
    (st : UpdateState) (index : Z) : UpdateState :=
  let hash := hash_block (tracker_kernel t) f b in
  let dirty := negb (has_baseline t)
               || negb (nth (Z.to_nat index) (us_hashes st) 0 =? hash) in
  let hashes := <[Z.to_nat index := hash]> (us_hashes st) in
  if dirty then mkUpdateState hashes (set_bit (us_bits st) index) (us_dirty st + 1)
  else mkUpdateState hashes (us_bits st) (us_dirty st).

Fixpoint update_loop (t : DamageTracker) (f : BgraFrame) (indices : list Z)
    (st : UpdateState) : UpdateState * result KeelError unit :=
  match indices with
  | [] => (st, Ok tt)
  | index :: indices =>
    match block_bounds (tracker_grid t) index with
    | None => (st, Err GeometryOverflow)
    | Some b => update_loop t f indices (update_block t f b st index)
    end
  end.

Definition count_dirty_rows (g : BlockGrid) (bits : list Z) : Z :=
  len (filter (fun row => row_is_dirty g bits row = true) (range (blocks_tall g))).

Definition DamageTracker_update (t : DamageTracker) (f : BgraFrame)
  : DamageTracker * result KeelError DamageSummary :=
  let g := tracker_grid t in
  if decide (frame_grid f <> g) then (t, Err (GeometryChanged g (frame_grid f)))
  else
    let st0 := mkUpdateState (previous_hashes t) (replicate (length (dirty_bits t)) 0) 0 in
    let '(st, r) := update_loop t f (range (block_count g)) st0 in
    match r with
    | Err e =>
      (mkDamageTracker g (tracker_kernel t) (us_hashes st) (us_bits st) (has_baseline t), Err e)
    | Ok _ =>
      (mkDamageTracker g (tracker_kernel t) (us_hashes st) (us_bits st) true,
       Ok (mkDamageSummary (us_dirty st) (block_count g)
             (count_dirty_rows g (us_bits st)) (blocks_tall g)))
    end.
End Kernel.

(** ** Bitset lemmas *)

Lemma bit_is_set_testbit ws i :
  bit_is_set ws i =
    match ws !! Z.to_nat (i / 64) with
    | Some w => Z.testbit w (i mod 64)
    | None => false
    end.
Proof.
  unfold bit_is_set, WORD_BITS. destruct (ws !! _); [|done].
  rewrite land_bit, negb_involutive; [done|]. apply Z.mod_pos_bound. lia.
Qed.

Lemma set_bit_length ws i : length (set_bit ws i) = length ws.
Proof. apply length_alter. Qed.

(** The one law of the bitset: setting a bit sets that bit and no other. *)
Lemma bit_is_set_set_bit ws i j :
  0 <= i < 64 * len ws -> 0 <= j ->
  bit_is_set (set_bit ws i) j = (i =? j) || bit_is_set ws j.
Proof.
  intros Hi Hj. rewrite !bit_is_set_testbit. unfold set_bit, WORD_BITS, len in *.
  pose proof (Z.div_mod i 64). pose proof (Z.mod_pos_bound i 64).
  pose proof (Z.div_mod j 64). pose proof (Z.mod_pos_bound j 64).
  destruct (decide (i / 64 = j / 64)) as [E|E].
  - rewrite <- E, list_lookup_alter_eq.
    destruct (lookup_lt_is_Some_2 ws (Z.to_nat (i / 64))) as [w Hw].
    { apply Nat2Z.inj_lt. rewrite Z2Nat.id by lia. lia. }
    rewrite Hw. cbn. rewrite Z.lor_spec, Z.shiftl_1_l, orb_comm. f_equal.
    rewrite Z.pow2_bits_eqb by lia.
    destruct (Z.eqb_spec (i mod 64) (j mod 64)), (Z.eqb_spec i j); done || lia.
  - rewrite list_lookup_alter_ne by (intros ?%Z2Nat.inj; lia).
    destruct (Z.eqb_spec i j); [congruence|done].
Qed.

Lemma bit_is_set_zero n i : bit_is_set (replicate n 0) i = false.
Proof.
  rewrite bit_is_set_testbit. destruct (_ !! _) as [w|] eqn:E; [|done].
  apply lookup_replicate in E as [-> _]. apply Z.bits_0.
Qed.

(** ** Damage-map lemmas *)

(** The invariant every producer of damage maps keeps: a valid grid and one
    bit for each of its blocks. *)
Definition map_wf (m : DamageMap) : Prop :=
  grid_wf (map_grid m) /\ block_count (map_grid m) <= 64 * len (map_bits m).

(** What one component promises to a consumer of its damage. *)
Class DamageProducer (T : Type) := {
  producer_wf : T -> Prop;
  producer_map : T -> DamageMap;
  producer_map_wf : forall t, producer_wf t -> map_wf (producer_map t)
}.

Section Iterators.
Context (m : DamageMap) (Hm : map_wf m).
Let g := map_grid m.
Let Hg : grid_wf g := proj1 Hm.

Lemma row_is_dirty_spec r :
  0 <= r ->
  row_is_dirty g (map_bits m) r = true <->
  r < blocks_tall g /\ exists i, i / blocks_wide g = r /\ 0 <= i /\ is_dirty m i = true.
Proof.
  intros Hr. unfold row_is_dirty. pose proof (blocks_wide_pos g Hg) as Hw.
  destruct (Z.leb_spec (blocks_tall g) r); [naive_solver lia|].
  rewrite existsb_exists. split.
  - intros (i & Hi & Hb). split; [done|]. apply list_elem_of_In, elem_of_seqZ in Hi.
    exists i. assert (E : i / blocks_wide g = r).
    { symmetry. apply Z.div_unique with (i - r * blocks_wide g); lia. }
    split_and!; [done|nia|]. unfold is_dirty. fold g. rewrite Hb, (wf_count g Hg), andb_true_r.
    apply Z.ltb_lt. nia.
  - intros (_ & i & E & Hi & Hd). unfold is_dirty in Hd. fold g in Hd. boolify.
    exists i. split; [|done]. apply list_elem_of_In, elem_of_seqZ.
    pose proof (Z.div_mod i (blocks_wide g)). pose proof (Z.mod_pos_bound i (blocks_wide g) Hw). nia.
Qed.

Lemma DirtyBlocks_next_spec fuel n :
  0 <= n <= block_count g -> block_count g - n < Z.of_nat fuel ->
  match filter (fun i => is_dirty m i = true) (seqZ n (block_count g - n)) with
  | [] => exists n', DirtyBlocks_next_fuel fuel m n = Some (None, n')
  | i :: l =>
    DirtyBlocks_next_fuel fuel m n = Some (Some i, i + 1) /\ n <= i < block_count g /\
    l = filter (fun i => is_dirty m i = true) (seqZ (i + 1) (block_count g - (i + 1)))
  end.
Proof.
  revert n. induction fuel as [|fuel IH]; intros n Hn Hf; [lia|].
  cbn [DirtyBlocks_next_fuel]. fold g. destruct (Z.ltb_spec n (block_count g)).
  - rewrite seqZ_cons by lia. rewrite filter_cons.
    replace (Z.pred (block_count g - n)) with (block_count g - Z.succ n) by lia.
    destruct (decide (is_dirty m n = true)) as [->|E].
    + split_and!; auto; lia.
    + apply not_true_is_false in E. rewrite E.
      specialize (IH (n + 1)). unfold Z.succ.
      destruct (filter _ _) eqn:Ef; [apply IH; lia|].
      destruct IH as (? & ? & ?); [lia..|]. split_and!; auto; lia.
  - rewrite seqZ_nil by lia. cbn. eauto.
Qed.

Lemma collect_dirty_blocks_aux fuel n :
  0 <= n <= block_count g -> block_count g - n < Z.of_nat fuel ->
  collect (DirtyBlocks_next m) fuel n =
    Some (filter (fun i => is_dirty m i = true) (seqZ n (block_count g - n))).
Proof.
  revert n. induction fuel as [|fuel IH]; intros n Hn Hf; [lia|].
  cbn [collect]. pose proof (blocks_tall_pos g Hg).
  pose proof (DirtyBlocks_next_spec (grid_fuel g) n Hn) as Hs.
  change (DirtyBlocks_next_fuel (grid_fuel g) m n) with (DirtyBlocks_next m n) in Hs.
  destruct (filter _ _) as [|i l] eqn:Ef.
  - destruct Hs as [n' ->]; [unfold grid_fuel; lia|done].
  - destruct Hs as (-> & Hi & ->); [unfold grid_fuel; lia|]. cbn.
    rewrite IH by lia. done.
Qed.

(** The block iterator yields the dirty blocks in order and stops. *)
Lemma collect_dirty_blocks_spec :
  collect_dirty_blocks m =
    Some (filter (fun i => is_dirty m i = true) (range (block_count g))).
Proof.
  unfold collect_dirty_blocks, range. fold g.
  pose proof (block_count_pos g Hg). pose proof (blocks_tall_pos g Hg).
  rewrite collect_dirty_blocks_aux by (unfold grid_fuel; lia).
  by rewrite Z.sub_0_r.
Qed.

(** What the row iterator promises from block row [s] on: non-empty ranges
    inside the frame, strictly separated, covering the dirty rows exactly. *)
Definition rows_spec (s : Z) (rs : list (Z * Z)) : Prop :=
  Forall (fun '(lo, hi) => 16 * s <= lo /\ lo < hi <= grid_height g) rs /\
  StronglySorted (fun a b => a.2 < b.1) rs /\
  forall y, 16 * s <= y < grid_height g ->
    row_is_dirty g (map_bits m) (y / 16) = true <->
    Exists (fun '(lo, hi) => lo <= y < hi) rs.

Lemma rows_spec_cons s first next rs :
  0 <= s <= first -> first < next <= blocks_tall g ->
  (forall r, s <= r < first -> row_is_dirty g (map_bits m) r = false) ->
  (forall r, first <= r < next -> row_is_dirty g (map_bits m) r = true) ->
  (next < blocks_tall g -> row_is_dirty g (map_bits m) next = false) ->
  rows_spec next rs ->
  rows_spec s ((first * 16, Z.min (next * 16) (grid_height g)) :: rs).
Proof.
  intros Hs Hfn Hclean Hdirty Hend (Hin & Hsort & Hcov).
  assert (Hfirst : first * 16 < grid_height g).
  { apply (div_ceil_lt_iff (grid_height g) 16); [lia|].
    pose proof (wf_tall g Hg) as E. unfold BLOCK_SIZE in E. lia. }
  split_and!.
  - constructor; [lia|]. eapply Forall_impl; [exact Hin|]. intros [lo hi]; cbn; lia.
  - constructor; [done|]. apply Forall_forall. intros [lo hi] Hr. cbn.
    pose proof Hr as Hr'. rewrite Forall_forall in Hin. apply Hin in Hr' as [Hlo Hhi].
    destruct (decide (next < blocks_tall g)) as [Hn|Hn].
    + specialize (Hend Hn). enough (~ lo < 16 * next + 16) by lia. intros Hlt.
      assert (E : lo / 16 = next) by (symmetry; apply Z.div_unique with (lo - 16 * next); lia).
      enough (row_is_dirty g (map_bits m) (lo / 16) = true) by congruence.
      apply Hcov; [lia|]. apply Exists_exists. exists (lo, hi). split; [done|lia].
    + pose proof (wf_tall g Hg) as E. unfold BLOCK_SIZE in E.
      pose proof (div_ceil_spec (grid_height g) 16 ltac:(lia)). lia.
  - intros y Hy. rewrite Exists_cons.
    pose proof (Z.div_mod y 16). pose proof (Z.mod_pos_bound y 16).
    destruct (decide (y / 16 < first)); [|destruct (decide (y / 16 < next))].
    + rewrite Hclean by lia. split; [done|]. intros [?|Hex]; [lia|].
      apply Exists_exists in Hex as ([lo hi] & Hr & ?).
      rewrite Forall_forall in Hin. apply Hin in Hr. lia.
    + rewrite Hdirty by lia. split; [|done]. intros _. left. lia.
    + rewrite Hcov by lia. split; [auto|]. intros [?|?]; [lia|done].
Qed.

Lemma DirtyBlockRows_next_spec s :
  0 <= s <= blocks_tall g ->
  (exists first, DirtyBlockRows_next m s = Some (None, first) /\
     forall r, s <= r < blocks_tall g -> row_is_dirty g (map_bits m) r = false) \/
  (exists first next,
     DirtyBlockRows_next m s =
       Some (Some (first * 16, Z.min (next * 16) (grid_height g)), next) /\
     s <= first < next /\ next <= blocks_tall g /\
     (forall r, s <= r < first -> row_is_dirty g (map_bits m) r = false) /\
     (forall r, first <= r < next -> row_is_dirty g (map_bits m) r = true) /\
     (next < blocks_tall g -> row_is_dirty g (map_bits m) next = false)).
Proof.
  intros Hs. pose proof (block_count_pos g Hg). unfold DirtyBlockRows_next. fold g.
  destruct (while_scan (fun r => negb (row_is_dirty g (map_bits m) r)) (blocks_tall g) s (grid_fuel g))
    as (first & -> & Hf1 & Hc & Hd); [lia|unfold grid_fuel; lia|]. cbn.
  setoid_rewrite negb_true_iff in Hc. setoid_rewrite negb_false_iff in Hd.
  destruct (Z.leb_spec (blocks_tall g) first).
  - left. exists first. split; [done|]. intros r Hr. apply Hc. lia.
  - right. destruct (while_scan (row_is_dirty g (map_bits m)) (blocks_tall g) (first + 1) (grid_fuel g))
      as (next & -> & Hn1 & Hc' & Hd'); [lia|unfold grid_fuel; lia|]. cbn.
    exists first, next. split_and!; auto; try lia.
    + unfold block_row_pixels, BLOCK_SIZE.
      destruct (Z.leb_spec (blocks_tall g) first); [lia|].
      destruct (Z.leb_spec (blocks_tall g) (next - 1)); [lia|]. cbn.
      by replace ((next - 1) * 16 + 16) with (next * 16) by lia.
    + intros r Hr. destruct (decide (r = first)) as [->|]; [auto|apply Hc'; lia].
Qed.

Lemma collect_dirty_block_rows_aux fuel s :
  0 <= s <= blocks_tall g -> blocks_tall g - s < Z.of_nat fuel ->
  exists rs, collect (DirtyBlockRows_next m) fuel s = Some rs /\ rows_spec s rs.
Proof.
  revert s. induction fuel as [|fuel IH]; intros s Hs Hf; [lia|]. cbn [collect].
  destruct (DirtyBlockRows_next_spec s Hs)
    as [(first & -> & Hc)|(first & next & -> & ? & ? & ? & ? & ?)]; cbn.
  - exists []. split; [done|]. split_and!; [constructor|constructor|].
    intros y Hy. rewrite Exists_nil, Hc; [done|].
    pose proof (div_lt_div_ceil y (grid_height g) 16 ltac:(lia) ltac:(lia)) as Hlt.
    pose proof (wf_tall g Hg) as Et. unfold BLOCK_SIZE in Et.
    pose proof (Z.div_mod y 16). pose proof (Z.mod_pos_bound y 16). lia.
  - destruct (IH next) as (rs & -> & Hrs); [lia..|]. cbn.
    eexists. split; [done|]. apply rows_spec_cons; auto; lia.
Qed.

Lemma collect_dirty_block_rows_spec :
  exists rs, collect_dirty_block_rows m = Some rs /\ rows_spec 0 rs.
Proof.
  pose proof (block_count_pos g Hg). pose proof (blocks_tall_pos g Hg).
  apply collect_dirty_block_rows_aux; [lia|]. unfold grid_fuel. fold g. lia.
Qed.
End Iterators.

(** ** Mixing is injective *)

Lemma u64_bits_high x n : is_u64 x -> 64 <= n -> Z.testbit x n = false.
Proof.
  intros Hx Hn. destruct (decide (x = 0)) as [->|]; [apply Z.bits_0|].
  unfold in_width in Hx. apply Z.bits_above_log2; [lia|].
  apply Z.log2_lt_pow2; [lia|]. apply Z.lt_le_trans with (2 ^ 64); [lia|].
  apply Z.pow_le_mono_r; lia.
Qed.

Lemma u64_ext x y :
  is_u64 x -> is_u64 y -> (forall n, 0 <= n < 64 -> Z.testbit x n = Z.testbit y n) -> x = y.
Proof.
  intros Hx Hy H. apply Z.bits_inj'. intros n Hn.
  destruct (decide (n < 64)); [by apply H|].
  by rewrite !u64_bits_high by (done || lia).
Qed.

Lemma rotate_left_testbit x k n :
  is_u64 x -> 0 <= k < 64 -> 0 <= n < 64 ->
  Z.testbit (rotate_left 64 x k) ((n + k) mod 64) = Z.testbit x n.
Proof.
  intros Hx Hk Hn. unfold rotate_left, wrapping.
  pose proof (Z.mod_pos_bound (n + k) 64 ltac:(lia)).
  rewrite Z.lor_spec, Z.mod_pow2_bits_low by lia.
  rewrite Z.shiftl_spec, Z.shiftr_spec by lia.
  destruct (decide (n + k < 64)) as [Hl|Hl].
  - rewrite Z.mod_small by lia. replace (n + k - k) with n by lia.
    rewrite (u64_bits_high x (n + k + (64 - k))) by (done || lia). apply orb_false_r.
  - replace ((n + k) mod 64) with (n + k - 64).
    + rewrite Z.testbit_neg_r by lia. cbn. f_equal. lia.
    + apply Z.mod_unique with 1; lia.
Qed.

Lemma rotate_left_inj x y k :
  is_u64 x -> is_u64 y -> 0 <= k < 64 ->
  rotate_left 64 x k = rotate_left 64 y k -> x = y.
Proof.
  intros Hx Hy Hk E. apply u64_ext; auto. intros n Hn.
  by rewrite <- (rotate_left_testbit x k n), <- (rotate_left_testbit y k n), E.
Qed.

Lemma lxor_cancel_l a b c : Z.lxor a b = Z.lxor a c -> b = c.
Proof.
  intros E. apply (f_equal (Z.lxor a)) in E.
  by rewrite <- !Z.lxor_assoc, !Z.lxor_nilpotent, !Z.lxor_0_l in E.
Qed.

Lemma lxor_cancel_r a b c : Z.lxor b a = Z.lxor c a -> b = c.
Proof. rewrite !(Z.lxor_comm _ a). apply lxor_cancel_l. Qed.

Lemma lxor_u64 x y : is_u64 x -> is_u64 y -> is_u64 (Z.lxor x y).
Proof.
  intros Hx Hy. assert (Hn : 0 <= Z.lxor x y) by (apply Z.lxor_nonneg; unfold in_width in *; lia).
  split; [done|]. rewrite <- (Z.mod_small x (2 ^ 64)), <- (Z.mod_small y (2 ^ 64)) by done.
  rewrite <- !Z.land_ones by lia.
  assert (E : Z.lxor (Z.land x (Z.ones 64)) (Z.land y (Z.ones 64)) = Z.land (Z.lxor x y) (Z.ones 64)).
  { apply Z.bits_inj'. intros n ?. rewrite !Z.lxor_spec, !Z.land_spec, Z.lxor_spec.
    by destruct (Z.testbit x n), (Z.testbit y n), (Z.testbit (Z.ones 64) n). }
  rewrite E, Z.land_ones by lia. apply Z.mod_pos_bound. lia.
Qed.

Lemma rotate_left_u64 x k : is_u64 x -> 0 <= k <= 64 -> is_u64 (rotate_left 64 x k).
Proof.
  intros Hx Hk. unfold rotate_left.
  assert (H1 : is_u64 (wrapping 64 (Z.shiftl x k))) by (apply wrapping_in_width; lia).
  assert (H2 : is_u64 (Z.shiftr x (64 - k))).
  { rewrite Z.shiftr_div_pow2 by lia. unfold in_width in *.
    pose proof (Z.pow_pos_nonneg 2 (64 - k) ltac:(lia) ltac:(lia)).
    split; [apply Z.div_pos; lia|]. apply Z.div_lt_upper_bound; nia. }
  assert (Hn : 0 <= Z.lor (wrapping 64 (Z.shiftl x k)) (Z.shiftr x (64 - k))).
  { apply Z.lor_nonneg. unfold in_width in *. lia. }
  split; [done|].
  destruct (decide (Z.lor (wrapping 64 (Z.shiftl x k)) (Z.shiftr x (64 - k)) = 0)) as [->|]; [lia|].
  apply Z.log2_lt_pow2; [lia|]. unfold in_width in *. rewrite Z.log2_lor by lia.
  apply Z.max_lub_lt.
  - destruct (decide (wrapping 64 (Z.shiftl x k) = 0)) as [->|]; [done|].
    apply Z.log2_lt_pow2; lia.
  - destruct (decide (Z.shiftr x (64 - k) = 0)) as [->|]; [done|].
    apply Z.log2_lt_pow2; lia.
Qed.

(** The multiplier is odd, so multiplication by it is invertible. *)
Definition COMBINE_PRIME_INVERSE : Z := 0x0ba79078168d4baf.

Lemma wrapping_mul_prime_inj x y :
  is_u64 x -> is_u64 y ->
  wrapping_mul 64 x COMBINE_PRIME = wrapping_mul 64 y COMBINE_PRIME -> x = y.
Proof.
  assert (Hinv : forall z, is_u64 z ->
    (wrapping_mul 64 z COMBINE_PRIME * COMBINE_PRIME_INVERSE) mod 2 ^ 64 = z).
  { intros z Hz. unfold wrapping_mul, wrapping. rewrite Z.mul_mod_idemp_l by lia.
    rewrite <- Z.mul_assoc, <- Z.mul_mod_idemp_r by lia.
    replace (COMBINE_PRIME * COMBINE_PRIME_INVERSE mod 2 ^ 64) with 1 by (vm_compute; reflexivity).
    rewrite Z.mul_1_r. by apply Z.mod_small. }
  intros Hx Hy E. by rewrite <- (Hinv x), <- (Hinv y), E.
Qed.

Lemma finish_mix_inj x y :
  is_u64 x -> is_u64 y -> finish_mix x = finish_mix y -> x = y.
Proof.
  intros Hx Hy E. unfold finish_mix in E.
  assert (H : forall k n, 0 <= n -> 64 - Z.of_nat k <= n -> Z.testbit x n = Z.testbit y n).
  { induction k as [|k IH]; intros n Hn Hk.
    - by rewrite !u64_bits_high by (done || lia).
    - apply (f_equal (fun z => Z.testbit z n)) in E.
      rewrite !Z.lxor_spec, !Z.shiftr_spec in E by lia.
      rewrite (IH (n + 29)) in E by lia.
      by destruct (Z.testbit x n), (Z.testbit y n), (Z.testbit y (n + 29)). }
  apply Z.bits_inj'. intros n Hn. apply (H 64%nat); lia.
Qed.

Section KernelLemmas.
Context (xxh3 : list Z -> Z -> Z) (crc : Z -> list Z -> Z).

(** The pixels of a block, row by row, as the kernels read them. *)
Definition block_rows (f : BgraFrame) (b : BlockBounds) : list (list Z) :=
  map (fun r => block_row_segment f (bounds_y b + r) b) (range (bounds_height b)).

Lemma fold_rows_content {A} (step : A -> list Z -> Z -> A) f1 f2 b l a :
  map (fun r => block_row_segment f1 (bounds_y b + r) b) l =
  map (fun r => block_row_segment f2 (bounds_y b + r) b) l ->
  fold_left (fun a r => step a (block_row_segment f1 (bounds_y b + r) b) r) l a =
  fold_left (fun a r => step a (block_row_segment f2 (bounds_y b + r) b) r) l a.
Proof.
  revert a. induction l as [|r l IH]; intros a El; [done|].
  cbn in *. injection El as -> El. by apply IH.
Qed.

(** A fingerprint depends only on the block's own pixels. *)
Lemma hash_block_content k f1 f2 b :
  block_rows f1 b = block_rows f2 b -> hash_block xxh3 crc k f1 b = hash_block xxh3 crc k f2 b.
Proof.
  unfold block_rows, hash_block. intros E. cbv zeta. destruct k.
  - f_equal. apply (fold_rows_content (fun c row r => mix_row xxh3 c row r ROW_SEED)). done.
  - assert (Eq : forall (f : BgraFrame) l a,
      fold_left (fun '(c, i) r =>
        (crc c (block_row_segment f (bounds_y b + r) b),
         mix_row xxh3 i (block_row_segment f (bounds_y b + r) b) r CRC_MIX_SEED)) l a =
      fold_left (fun a r => (fun (a : Z * Z) row r => (crc a.1 row, mix_row xxh3 a.2 row r CRC_MIX_SEED))
                   a (block_row_segment f (bounds_y b + r) b) r) l a).
    { intros f l. induction l as [|r l IH]; intros [c i]; [done|]. cbn. apply IH. }
    rewrite !Eq. pose proof (fold_rows_content
      (fun (a : Z * Z) row r => (crc a.1 row, mix_row xxh3 a.2 row r CRC_MIX_SEED))
      f1 f2 b (range (bounds_height b)) (0, Z.lxor CRC_MIX_SEED (bounds_height b)) E) as Ef.
    cbv beta in Ef |- *. by rewrite Ef.
Qed.

(** [xxh3_64_with_seed] returns a [u64]. *)
Hypothesis xxh3_u64 : forall row seed, is_u64 (xxh3 row seed).

Lemma mix_row_u64 c row off seed : is_u64 (mix_row xxh3 c row off seed).
Proof. apply wrapping_in_width. lia. Qed.

Lemma mix_row_inj c1 c2 row1 row2 off seed :
  is_u64 c1 -> is_u64 c2 ->
  mix_row xxh3 c1 row1 off seed = mix_row xxh3 c2 row2 off seed ->
  let s := wrapping_mul 64 seed (off + 1) in
  (xxh3 row1 s = xxh3 row2 s -> c1 = c2) /\ (c1 = c2 -> xxh3 row1 s = xxh3 row2 s).
Proof.
  intros H1 H2 E s. unfold mix_row in E. fold s in E.
  apply wrapping_mul_prime_inj in E;
    [|apply lxor_u64; [apply rotate_left_u64; [done|lia]|done]..].
  split.
  - intros Er. rewrite Er in E. apply lxor_cancel_r in E.
    apply rotate_left_inj in E; auto; lia.
  - intros ->. by apply lxor_cancel_l in E.
Qed.

Lemma mix_rows_u64 f b l c :
  is_u64 c ->
  is_u64 (fold_left (fun c r => mix_row xxh3 c (block_row_segment f (bounds_y b + r) b) r ROW_SEED) l c).
Proof.
  revert c. induction l as [|r l IH]; intros c Hc; [done|]. cbn. apply IH, mix_row_u64.
Qed.

(** Equal folds over rows that agree from here on have equal accumulators. *)
Lemma mix_rows_inj f1 f2 b l c1 c2 :
  is_u64 c1 -> is_u64 c2 ->
  (forall r, r ∈ l -> block_row_segment f1 (bounds_y b + r) b = block_row_segment f2 (bounds_y b + r) b) ->
  fold_left (fun c r => mix_row xxh3 c (block_row_segment f1 (bounds_y b + r) b) r ROW_SEED) l c1 =
  fold_left (fun c r => mix_row xxh3 c (block_row_segment f2 (bounds_y b + r) b) r ROW_SEED) l c2 ->
  c1 = c2.
Proof.
  revert c1 c2. induction l as [|r l IH]; intros c1 c2 H1 H2 Hrows E; [done|]. cbn in E.
  apply IH in E; [|apply mix_row_u64..|intros; apply Hrows; by right].
  apply mix_row_inj in E as [E _]; [|done..]. apply E. f_equal. apply Hrows. by left.
Qed.

Lemma initial_mix_u64 b : 0 <= bounds_height b <= 16 -> is_u64 (Z.lxor ROW_SEED (bounds_height b)).
Proof.
  intros Hh. apply lxor_u64; [vm_compute; split; congruence|]. unfold in_width. pow2. lia.
Qed.
End KernelLemmas.

Section TrackerLemmas.
Context (xxh3 : list Z -> Z -> Z) (crc : Z -> list Z -> Z).

Record tracker_wf (t : DamageTracker) : Prop := {
  wf_tracker_grid : grid_wf (tracker_grid t);
  wf_hashes : len (previous_hashes t) = block_count (tracker_grid t);
  wf_bits : block_count (tracker_grid t) <= 64 * len (dirty_bits t)
}.

Lemma DamageTracker_new_wf w h p t :
  is_usize w -> is_usize h -> DamageTracker_new w h p = Ok t ->
  tracker_wf t /\ BlockGrid_new w h = Ok (tracker_grid t) /\ has_baseline t = false.
Proof.
  intros Hw Hh H. unfold DamageTracker_new in H. inv_ok.
  destruct (BlockGrid_new_inv w h x) as (Hg & _ & _); auto.
  pose proof (block_count_pos x Hg). unfold len, WORD_BITS.
  pose proof (div_ceil_spec (block_count x) 64 ltac:(lia)).
  split_and!; auto. constructor; cbn; auto; unfold len; rewrite length_replicate; lia.
Qed.

Lemma DamageTracker_reset_wf t :
  tracker_wf t -> tracker_wf (DamageTracker_reset t).
Proof. intros [? ? ?]. constructor; auto. cbn. unfold len. by rewrite length_replicate. Qed.

Definition block_hash (t : DamageTracker) (f : BgraFrame) (i : Z) : Z :=
  match block_bounds (tracker_grid t) i with
  | Some b => hash_block xxh3 crc (tracker_kernel t) f b
  | None => 0
  end.

(** Whether [update] finds block [i] of [f] changed. *)
Definition block_changed (t : DamageTracker) (f : BgraFrame) (i : Z) : bool :=
  negb (has_baseline t) || negb (nth (Z.to_nat i) (previous_hashes t) 0 =? block_hash t f i).

Record loop_inv (t : DamageTracker) (f : BgraFrame) (n : Z) (st : UpdateState) : Prop := {
  li_hashes_len : length (us_hashes st) = length (previous_hashes t);
  li_bits_len : length (us_bits st) = length (dirty_bits t);
  li_hashes : forall i, 0 <= i < block_count (tracker_grid t) ->
    nth (Z.to_nat i) (us_hashes st) 0 =
      if i <? n then block_hash t f i else nth (Z.to_nat i) (previous_hashes t) 0;
  li_bits : forall i, 0 <= i -> bit_is_set (us_bits st) i = (i <? n) && block_changed t f i;
  li_count : us_dirty st = len (filter (fun i => block_changed t f i = true) (range n))
}.

Lemma update_loop_app t f l k st :
  update_loop xxh3 crc t f (l ++ k) st =
    match update_loop xxh3 crc t f l st with
    | (st', Ok _) => update_loop xxh3 crc t f k st'
    | (st', Err e) => (st', Err e)
    end.
Proof.
  revert st. induction l as [|i l IH]; intros st; [done|]. cbn.
  destruct (block_bounds _ _); [apply IH|done].
Qed.

Lemma nth_insert_Z (l : list Z) i j x :
  0 <= i < len l -> 0 <= j ->
  nth (Z.to_nat j) (<[Z.to_nat i := x]> l) 0 = if j =? i then x else nth (Z.to_nat j) l 0.
Proof.
  intros Hi Hj. unfold len in Hi. rewrite !nth_lookup.
  destruct (Z.eqb_spec j i) as [->|].
  - rewrite list_lookup_insert_eq by lia. done.
  - rewrite list_lookup_insert_ne by lia. done.
Qed.

Lemma update_block_inv t f n b st :
  tracker_wf t -> 0 <= n < block_count (tracker_grid t) ->
  block_bounds (tracker_grid t) n = Some b ->
  loop_inv t f n st -> loop_inv t f (n + 1) (update_block xxh3 crc t f b st n).
Proof.
  intros Ht Hn Hb [Hl1 Hl2 Hh Hbits Hc]. destruct Ht as [Hg Hph Hpb].
  assert (Eh : hash_block xxh3 crc (tracker_kernel t) f b = block_hash t f n)
    by (unfold block_hash; by rewrite Hb).
  unfold update_block. cbv zeta. rewrite Eh, (Hh n) by lia.
  destruct (Z.ltb_spec n n); [lia|]. fold (block_changed t f n).
  assert (Hhash : forall i, 0 <= i < block_count (tracker_grid t) ->
    nth (Z.to_nat i) (<[Z.to_nat n := block_hash t f n]> (us_hashes st)) 0 =
    if i <? n + 1 then block_hash t f i else nth (Z.to_nat i) (previous_hashes t) 0).
  { intros i Hi. rewrite nth_insert_Z by (unfold len in *; lia).
    destruct (Z.eqb_spec i n) as [->|]; [by rewrite (proj2 (Z.ltb_lt _ _)) by lia|].
    rewrite Hh by lia. destruct (Z.ltb_spec i n), (Z.ltb_spec i (n + 1)); done || lia. }
  assert (Hcnt : len (filter (fun i => block_changed t f i = true) (range (n + 1))) =
    us_dirty st + (if block_changed t f n then 1 else 0)).
  { rewrite range_snoc, filter_app, len_app, Hc by lia. f_equal.
    destruct (block_changed t f n) eqn:E; rewrite filter_cons;
      [rewrite decide_True by done|rewrite decide_False by congruence]; done. }
  destruct (block_changed t f n) eqn:E; constructor; cbn;
    rewrite ?length_insert, ?set_bit_length, ?Hcnt; auto; try lia.
  - intros i Hi. rewrite bit_is_set_set_bit, Hbits by (unfold len in *; lia).
    destruct (Z.eqb_spec n i) as [->|]; [by rewrite E, (proj2 (Z.ltb_lt i (i + 1))) by lia|].
    destruct (Z.ltb_spec i n), (Z.ltb_spec i (n + 1)); done || lia.
  - intros i Hi. rewrite Hbits by done.
    destruct (Z.ltb_spec i n), (Z.ltb_spec i (n + 1)); try done; try lia.
    replace i with n by lia. by rewrite E.
Qed.

Lemma update_loop_inv t f n st :
  tracker_wf t -> 0 <= n -> n <= block_count (tracker_grid t) -> loop_inv t f 0 st ->
  exists st', update_loop xxh3 crc t f (range n) st = (st', Ok tt) /\ loop_inv t f n st'.
Proof.
  intros Ht Hn. revert n Hn. apply (natlike_ind (fun n => n <= _ -> _ -> _)).
  - intros _ H0. exists st. done.
  - intros n Hn IH Hle H0. destruct IH as (st' & E & Hi); [lia|done|].
    rewrite <- Z.add_1_r, range_snoc, update_loop_app, E by done. cbn.
    destruct (block_bounds (tracker_grid t) n) as [b|] eqn:Eb.
    + eexists. split; [done|]. apply update_block_inv; auto; lia.
    + unfold block_bounds in Eb. destruct (Z.leb_spec (block_count (tracker_grid t)) n); [lia|done].
Qed.

(** [update] on a frame of the tracker's geometry. *)
Lemma DamageTracker_update_spec t f :
  tracker_wf t -> frame_grid f = tracker_grid t ->
  exists t' s, DamageTracker_update xxh3 crc t f = (t', Ok s) /\ tracker_wf t' /\
    has_baseline t' = true /\ tracker_grid t' = tracker_grid t /\
    tracker_kernel t' = tracker_kernel t /\
    (forall i, 0 <= i < block_count (tracker_grid t) ->
       nth (Z.to_nat i) (previous_hashes t') 0 = block_hash t f i /\
       is_dirty (damage_map t') i = block_changed t f i) /\
    s = mkDamageSummary
          (len (filter (fun i => block_changed t f i = true) (range (block_count (tracker_grid t)))))
          (block_count (tracker_grid t))
          (count_dirty_rows (tracker_grid t) (dirty_bits t')) (blocks_tall (tracker_grid t)).
Proof.
  intros Ht Eg. pose proof (block_count_pos _ (wf_tracker_grid t Ht)).
  unfold DamageTracker_update. rewrite decide_False by (intros ?; done). cbv zeta.
  destruct (update_loop_inv t f (block_count (tracker_grid t))
              (mkUpdateState (previous_hashes t) (replicate (length (dirty_bits t)) 0) 0))
    as (st & -> & [Hl1 Hl2 Hh Hb Hc]); [done|lia|lia| |].
  { constructor; cbn; auto; [by rewrite length_replicate| |].
    - intros i Hi. destruct (Z.ltb_spec i 0); [lia|done].
    - intros i Hi. rewrite bit_is_set_zero. destruct (Z.ltb_spec i 0); [lia|done]. }
  eexists _, _. split; [done|]. cbn. destruct Ht as [Hg Hph Hpb]. split_and!; auto.
  - constructor; cbn; auto; unfold len in *; rewrite ?Hl1, ?Hl2; auto.
  - intros i Hi. rewrite Hh by lia. unfold is_dirty. cbn. rewrite Hb by lia.
    by rewrite (proj2 (Z.ltb_lt i (block_count (tracker_grid t)))) by lia.
  - by rewrite Hc.
Qed.

Lemma DamageTracker_update_geometry t f :
  frame_grid f <> tracker_grid t ->
  DamageTracker_update xxh3 crc t f = (t, Err (GeometryChanged (tracker_grid t) (frame_grid f))).
Proof. intros H. unfold DamageTracker_update. by rewrite decide_True. Qed.
End TrackerLemmas.

#[export] Instance tracker_producer : DamageProducer DamageTracker := {
  producer_wf := tracker_wf;
  producer_map := damage_map;
  producer_map_wf := fun t H => conj (wf_tracker_grid t H) (wf_bits t H)
}.

(** ** Properties *)

(** C5: Over two consecutive frames of the tracker's geometry, both updates
    succeed and the second damage map is exact: a block is reported clean iff
    its fingerprints agree; a block whose pixels did not change is clean; and
    where the hash does not collide a block is dirty iff its pixels changed. *)
Theorem damage_detects_changes
  (xxh3 : list Z -> Z -> Z) (crc : Z -> list Z -> Z) (t : DamageTracker) (f1 f2 : BgraFrame) :
  tracker_wf t -> frame_grid f1 = tracker_grid t -> frame_grid f2 = tracker_grid t ->
  exists t1 s1 t2 s2,
    DamageTracker_update xxh3 crc t f1 = (t1, Ok s1) /\
    DamageTracker_update xxh3 crc t1 f2 = (t2, Ok s2) /\
    forall i b, 0 <= i -> block_bounds (tracker_grid t) i = Some b ->
      let h f := hash_block xxh3 crc (tracker_kernel t) f b in
      let dirty := is_dirty (damage_map t2) i in
      (dirty = false <-> h f1 = h f2) /\
      (block_rows f1 b = block_rows f2 b -> dirty = false) /\
      ((h f1 = h f2 -> block_rows f1 b = block_rows f2 b) ->
       dirty = true <-> block_rows f1 b <> block_rows f2 b).
Proof.
  intros Ht E1 E2.
  destruct (DamageTracker_update_spec xxh3 crc t f1 Ht E1)
    as (t1 & s1 & U1 & Ht1 & B1 & G1 & K1 & H1 & _).
  destruct (DamageTracker_update_spec xxh3 crc t1 f2 Ht1)
    as (t2 & s2 & U2 & Ht2 & B2 & G2 & K2 & H2 & _); [congruence|].
  exists t1, s1, t2, s2. split_and!; auto. intros i b Hi Hb h dirty.
  assert (Hc : 0 <= i < block_count (tracker_grid t)).
  { apply block_bounds_Some in Hb as [? _]; [lia|done]. }
  destruct (H1 i Hc) as [Hh1 _]. destruct (H2 i ltac:(rewrite G1; lia)) as [_ Hd].
  unfold block_changed, block_hash in *. rewrite B1, G1, K1, Hb in Hd.
  rewrite Hb in Hh1. rewrite Hh1 in Hd. cbn in Hd. fold (h f1) (h f2) in Hd. fold dirty in Hd.
  assert (Iff : dirty = false <-> h f1 = h f2) by (rewrite Hd, negb_false_iff; apply Z.eqb_eq).
  split_and!; [done| |].
  - intros Er. apply Iff. by apply hash_block_content.
  - intros Hinj. rewrite <- not_false_iff_true, Iff. split; [|naive_solver].
    intros Hne Er. apply Hne. by apply hash_block_content.
Qed.

Definition toy_xxh3 (row : list Z) (seed : Z) : Z := wrapping 64 (from_le row + seed).
Definition toy_crc (c : Z) (row : list Z) : Z := wrapping 32 (c + from_le row).
Definition toy_frame (v : Z) : BgraFrame :=
  mkBgraFrame (v :: replicate 255 0) (mkBlockGrid 8 8 1 1 1) 32.
Definition toy_tracker : DamageTracker :=
  mkDamageTracker (mkBlockGrid 8 8 1 1 1) Xxh3 [0] [0] false.

Lemma toy_tracker_wf : tracker_wf toy_tracker.
Proof. repeat constructor; vm_compute; congruence. Qed.

Lemma damage_detects_changes_witness :
  exists t1 s1 t2 s2,
    DamageTracker_update toy_xxh3 toy_crc toy_tracker (toy_frame 1) = (t1, Ok s1) /\
    DamageTracker_update toy_xxh3 toy_crc t1 (toy_frame 2) = (t2, Ok s2) /\
    is_dirty (damage_map t2) 0 = true.
Proof.
  destruct (damage_detects_changes toy_xxh3 toy_crc toy_tracker (toy_frame 1) (toy_frame 2))
    as (t1 & s1 & t2 & s2 & U1 & U2 & H); [apply toy_tracker_wf|reflexivity..|].
  exists t1, s1, t2, s2. split_and!; auto.
  destruct (H 0 (mkBlockBounds 0 0 8 8) ltac:(lia) eq_refl) as (_ & _ & Hd).
  apply Hd; vm_compute; congruence.
Defined.

(** The XXH3 kernel cannot lose a change confined to one pixel row of a
    block: if exactly one row of the block differs and XXH3 separates the two
    versions of that row under the row's seed, the block fingerprints differ
    (position mixing and finishing are injective on 64-bit words), so the
    tracker reports the block dirty. *)
Theorem single_row_change_is_detected
  (xxh3 : list Z -> Z -> Z) (crc : Z -> list Z -> Z) (f1 f2 : BgraFrame) (b : BlockBounds) (k : Z) :
  (forall row seed, is_u64 (xxh3 row seed)) ->
  0 <= k < bounds_height b -> bounds_height b <= BLOCK_SIZE ->
  (forall r, 0 <= r < bounds_height b -> r <> k ->
     block_row_segment f1 (bounds_y b + r) b = block_row_segment f2 (bounds_y b + r) b) ->
  xxh3 (block_row_segment f1 (bounds_y b + k) b) (wrapping_mul 64 ROW_SEED (k + 1)) <>
  xxh3 (block_row_segment f2 (bounds_y b + k) b) (wrapping_mul 64 ROW_SEED (k + 1)) ->
  hash_block xxh3 crc Xxh3 f1 b <> hash_block xxh3 crc Xxh3 f2 b.
Proof.
  intros Hx Hk Hh Hrows Hne E. unfold hash_block in E. cbv zeta in E.
  assert (Hi : is_u64 (Z.lxor ROW_SEED (bounds_height b)))
    by (apply initial_mix_u64; unfold BLOCK_SIZE in Hh; lia).
  apply finish_mix_inj in E; [|by apply mix_rows_u64..].
  rewrite (range_split (bounds_height b) k), !fold_left_app in E by done. cbn [fold_left] in E.
  apply mix_rows_inj in E; [|done|apply mix_row_u64..|].
  - apply mix_row_inj in E as [_ E]; [|done|by apply mix_rows_u64..].
    apply Hne, E. apply (fold_rows_content (fun c row r => mix_row xxh3 c row r ROW_SEED)).
    apply map_ext_in. intros r Hr. apply list_elem_of_In, elem_of_range in Hr. apply Hrows; lia.
  - intros r Hr. apply elem_of_seqZ in Hr. apply Hrows; lia.
Qed.

Lemma single_row_change_is_detected_witness :
  hash_block toy_xxh3 toy_crc Xxh3 (toy_frame 1) (mkBlockBounds 0 0 8 8) <>
  hash_block toy_xxh3 toy_crc Xxh3 (toy_frame 2) (mkBlockBounds 0 0 8 8).
Proof.
  apply (single_row_change_is_detected toy_xxh3 toy_crc (toy_frame 1) (toy_frame 2)
           (mkBlockBounds 0 0 8 8) 0).
  - intros row seed. apply wrapping_in_width. lia.
  - cbn. lia.
  - unfold BLOCK_SIZE. cbn. lia.
  - intros r Hr Hne. cbn in Hr.
    assert (r = 1 \/ r = 2 \/ r = 3 \/ r = 4 \/ r = 5 \/ r = 6 \/ r = 7) as Hc by lia.
    destruct Hc as [-> | [-> | [-> | [-> | [-> | [-> | ->]]]]]]; reflexivity.
  - vm_compute. congruence.
Defined.

(** Whatever component produced the damage, walking its map is exact and
    terminates: the block iterator yields exactly the dirty blocks in index
    order, and the row iterator yields non-empty pixel-row ranges inside the
    frame, in order and separated by at least one clean row (adjacent dirty
    bands are coalesced), that cover a pixel row iff its band has a dirty
    block. *)
Theorem dirty_iterators_exact (T : Type) (P : DamageProducer T) (t : T) :
  producer_wf t ->
  let m := producer_map t in
  collect_dirty_blocks m =
    Some (filter (fun i => is_dirty m i = true) (range (block_count (map_grid m)))) /\
  exists rs, collect_dirty_block_rows m = Some rs /\
    Forall (fun '(lo, hi) => 0 <= lo < hi /\ hi <= grid_height (map_grid m)) rs /\
    StronglySorted (fun a b => a.2 < b.1) rs /\
    forall y, 0 <= y < grid_height (map_grid m) ->
      Exists (fun '(lo, hi) => lo <= y < hi) rs <->
      exists i, is_dirty m i = true /\ 0 <= i /\ i / blocks_wide (map_grid m) = y / BLOCK_SIZE.
Proof.
  intros Ht m. pose proof (producer_map_wf t Ht) as Hm. fold m in Hm.
  split; [by apply collect_dirty_blocks_spec|].
  destruct (collect_dirty_block_rows_spec m Hm) as (rs & E & Hin & Hs & Hc).
  exists rs. split_and!; auto.
  - eapply Forall_impl; [exact Hin|]. intros [lo hi]. lia.
  - intros y Hy. rewrite <- Hc by lia.
    rewrite (row_is_dirty_spec m Hm) by (apply Z.div_pos; lia). unfold BLOCK_SIZE.
    assert (y / 16 < blocks_tall (map_grid m)).
    { rewrite (wf_tall _ (proj1 Hm)). apply div_lt_div_ceil; unfold BLOCK_SIZE; lia. }
    naive_solver.
Qed.

Definition toy_dirty_tracker : DamageTracker :=
  mkDamageTracker (mkBlockGrid 33 40 3 3 9) Xxh3 (replicate 9 0) [0x1a1] true.

Lemma dirty_iterators_exact_witness :
  collect_dirty_blocks (damage_map toy_dirty_tracker) = Some [0; 5; 7; 8] /\
  collect_dirty_block_rows (damage_map toy_dirty_tracker) = Some [(0, 40)].
Proof.
  pose proof (dirty_iterators_exact DamageTracker tracker_producer toy_dirty_tracker) as H.
  destruct H as [H _]; [repeat constructor; vm_compute; congruence|].
  split; [exact H|vm_compute; reflexivity].
Defined.
