(* ===== verification/KeelExternal.v ===== *)
(** * Keel: damage reported by the operating system

    Models [shared/keel/src/external.rs]: the accumulator that folds dirty
    rectangles, move rectangles and foreign block maps onto the 16x16 grid,
    and the latest-wins accumulator that unions the damage of superseded
    captures until a submission consumes it. *)

From S2P Require Import Prelude KeelGrid KeelDamage.

Record PixelRect := mkPixelRect { rect_x : Z; rect_y : Z; rect_width : Z; rect_height : Z }.

Record ExternalDamage := mkExternalDamage { ext_grid : BlockGrid; ext_bits : list Z }.

Record PendingExternalDamage := mkPendingExternalDamage {
  pend_damage : ExternalDamage;
  pending : bool
}.

Inductive DamageMetadataStatus := Complete | Unknown.

(** [i64] saturating arithmetic, used on signed rectangle bounds. *)
Definition I64_MAX : Z := 2 ^ 63 - 1.
Definition I64_MIN : Z := - 2 ^ 63.
Definition i64_saturate (z : Z) : Z := Z.max I64_MIN (Z.min z I64_MAX).

(** [external.rs] repeats [set_bit]; it is the same function. *)
Definition external_set_bit (words : list Z) (index : Z) : list Z :=
  alter (fun w => Z.lor w (Z.shiftl 1 (index mod WORD_BITS)))
        (Z.to_nat (index / WORD_BITS)) words.

Definition clamp_signed_to_extent (value extent : Z) : Z :=
  if value <=? 0 then 0
  else (* [usize::try_from] of a positive [i64] succeeds on 64-bit targets *)
    Z.min value extent.

Definition ExternalDamage_new (width height : Z) : result KeelError ExternalDamage :=
  grid ← BlockGrid_new width height;
  Ok (mkExternalDamage grid
        (replicate (Z.to_nat (div_ceil (block_count grid) WORD_BITS)) 0)).

Definition ExternalDamage_reset (e : ExternalDamage) : ExternalDamage :=
  mkExternalDamage (ext_grid e) (replicate (length (ext_bits e)) 0).

Definition ext_damage_map (e : ExternalDamage) : DamageMap :=
  mkDamageMap (ext_grid e) (ext_bits e).

(** Body of the inner loop of [mark_rect]. *)
Definition mark_block (g : BlockGrid) (block_y : Z) (bits : list Z) (block_x : Z) : list Z :=
  match block_index g block_x block_y with
  | Some index => external_set_bit bits index
  | None => bits
  end.

Definition mark_rect (e : ExternalDamage) (r : PixelRect) : ExternalDamage :=
  let g := ext_grid e in
  let start_x := Z.min (rect_x r) (grid_width g) in
  let start_y := Z.min (rect_y r) (grid_height g) in
  let end_x := Z.min (saturating_add 64 (rect_x r) (rect_width r)) (grid_width g) in
  let end_y := Z.min (saturating_add 64 (rect_y r) (rect_height r)) (grid_height g) in
  if (end_x <=? start_x) || (end_y <=? start_y) then e
  else
    let first_block_x := start_x / BLOCK_SIZE in
    let first_block_y := start_y / BLOCK_SIZE in
    let end_block_x := div_ceil end_x BLOCK_SIZE in
    let end_block_y := div_ceil end_y BLOCK_SIZE in
    mkExternalDamage g
      (fold_left (fun bits block_y =>
         fold_left (mark_block g block_y)
           (seqZ first_block_x (end_block_x - first_block_x)) bits)
       (seqZ first_block_y (end_block_y - first_block_y)) (ext_bits e)).

Definition mark_full_frame (e : ExternalDamage) : ExternalDamage :=
  mark_rect e (mkPixelRect 0 0 (grid_width (ext_grid e)) (grid_height (ext_grid e))).

Definition mark_rect_bounds (e : ExternalDamage) (left top right bottom : Z) : ExternalDamage :=
  let g := ext_grid e in
  let start_x := clamp_signed_to_extent left (grid_width g) in
  let start_y := clamp_signed_to_extent top (grid_height g) in
  let end_x := clamp_signed_to_extent right (grid_width g) in
  let end_y := clamp_signed_to_extent bottom (grid_height g) in
  if (end_x <=? start_x) || (end_y <=? start_y) then e
  else mark_rect e (mkPixelRect start_x start_y (end_x - start_x) (end_y - start_y)).

Definition mark_move_rect (e : ExternalDamage)
    (source_x source_y dest_left dest_top dest_right dest_bottom : Z) : ExternalDamage :=
  let e := mark_rect_bounds e dest_left dest_top dest_right dest_bottom in
  let width := i64_saturate (dest_right - dest_left) in
  let height := i64_saturate (dest_bottom - dest_top) in
  if (width <=? 0) || (height <=? 0) then e
  else mark_rect_bounds e source_x source_y
         (i64_saturate (source_x + width)) (i64_saturate (source_y + height)).

Definition merge_from (e : ExternalDamage) (d : DamageMap) : ExternalDamage * result KeelError unit :=
  if decide (map_grid d <> ext_grid e) then
    (e, Err (GeometryChanged (ext_grid e) (map_grid d)))
  else
    match collect_dirty_blocks d with
    | None => (e, Ok tt) (* the iterator always ends: [collect_dirty_blocks_spec] *)
    | Some indices =>
      (mkExternalDamage (ext_grid e) (fold_left external_set_bit indices (ext_bits e)), Ok tt)
    end.

(** The loop of [mark_block_map] over [blocks[..required].enumerate()]. *)
Fixpoint mark_block_loop (blocks_wide_ source_block_size : Z) (blocks : list (Z * Z))
    (e : ExternalDamage) : ExternalDamage * result KeelError unit :=
  match blocks with
  | [] => (e, Ok tt)
  | (index, dirty) :: blocks =>
    if dirty =? 0 then mark_block_loop blocks_wide_ source_block_size blocks e
    else
      let block_x := index mod blocks_wide_ in
      let block_y := index / blocks_wide_ in
      match checked_mul usize_bits block_x source_block_size,
            checked_mul usize_bits block_y source_block_size with
      | Some x, Some y =>
        mark_block_loop blocks_wide_ source_block_size blocks
          (mark_rect e (mkPixelRect x y source_block_size source_block_size))
      | _, _ => (e, Err GeometryOverflow)
      end
  end.

Definition enumerate (l : list Z) : list (Z * Z) := zip (range (len l)) l.

Definition mark_block_map (e : ExternalDamage) (blocks : list Z)
    (blocks_wide_ blocks_tall_ source_block_size : Z) : ExternalDamage * result KeelError unit :=
  let g := ext_grid e in
  if source_block_size =? 0 then (e, Err ExternalBlockSizeZero)
  else
    let expected_wide := div_ceil (grid_width g) source_block_size in
    let expected_tall := div_ceil (grid_height g) source_block_size in
    if negb (blocks_wide_ =? expected_wide) || negb (blocks_tall_ =? expected_tall) then
      (e, Err (ExternalMapGeometry expected_wide expected_tall blocks_wide_ blocks_tall_))
    else
      match checked_mul usize_bits blocks_wide_ blocks_tall_ with
      | None => (e, Err GeometryOverflow)
      | Some required =>
        if len blocks <? required then (e, Err (ExternalMapTooSmall (len blocks) required))
        else mark_block_loop blocks_wide_ source_block_size
               (enumerate (take (Z.to_nat required) blocks)) e
      end.

Definition ext_summary (e : ExternalDamage) : DamageSummary :=
  let g := ext_grid e in
  let m := ext_damage_map e in
  let row_dirty block_y :=
    existsb (fun block_x =>
      match block_index g block_x block_y with
      | Some index => is_dirty m index
      | None => false
      end) (range (blocks_wide g)) in
  mkDamageSummary
    (match collect_dirty_blocks m with Some l => len l | None => 0 end)
    (block_count g)
    (len (filter (fun y => row_dirty y = true) (range (blocks_tall g))))
    (blocks_tall g).

Definition PendingExternalDamage_new (width height : Z) : result KeelError PendingExternalDamage :=
  damage ← ExternalDamage_new width height;
  Ok (mkPendingExternalDamage damage false).

Definition observe (p : PendingExternalDamage) (d : DamageMap)
  : PendingExternalDamage * result KeelError unit :=
  let damage := if pending p then pend_damage p else ExternalDamage_reset (pend_damage p) in
  let '(damage, r) := merge_from damage d in
  match r with
  | Err e => (mkPendingExternalDamage damage (pending p), Err e)
  | Ok _ => (mkPendingExternalDamage damage true, Ok tt)
  end.

Definition mark_submitted (p : PendingExternalDamage) : PendingExternalDamage :=
  mkPendingExternalDamage (pend_damage p) false.

Definition discard_pending (p : PendingExternalDamage) : PendingExternalDamage :=
  mkPendingExternalDamage (ExternalDamage_reset (pend_damage p)) false.

Definition coalesced_rect_metadata_status
    (first_observation : bool) (source_frame_count named_regions : Z) : DamageMetadataStatus :=
  if first_observation || ((1 <? source_frame_count) && (named_regions =? 0))
  then Unknown else Complete.

Definition report_only_dirty_regions_status (region_count : Z) (entry_read_failed : bool)
  : DamageMetadataStatus :=
  if (region_count =? 0) || entry_read_failed then Unknown else Complete.

(** ** Lemmas *)

Record ext_wf (e : ExternalDamage) : Prop := {
  wf_ext_grid : grid_wf (ext_grid e);
  wf_ext_bits : block_count (ext_grid e) <= 64 * len (ext_bits e)
}.

#[export] Instance external_producer : DamageProducer ExternalDamage := {
  producer_wf := ext_wf;
  producer_map := ext_damage_map;
  producer_map_wf := fun e H => conj (wf_ext_grid e H) (wf_ext_bits e H)
}.

#[export] Instance pending_producer : DamageProducer PendingExternalDamage := {
  producer_wf := fun p => ext_wf (pend_damage p);
  producer_map := fun p => ext_damage_map (pend_damage p);
  producer_map_wf := fun p H => conj (wf_ext_grid _ H) (wf_ext_bits _ H)
}.

(** Marking the blocks of a list: the fold every operation reduces to. *)
Lemma fold_set_bit_spec (indices : list Z) (bits : list Z) :
  Forall (fun i => 0 <= i < 64 * len bits) indices ->
  len (fold_left external_set_bit indices bits) = len bits /\
  forall i, 0 <= i ->
    bit_is_set (fold_left external_set_bit indices bits) i = true <->
    bit_is_set bits i = true \/ i ∈ indices.
Proof.
  revert bits. induction indices as [|j js IH]; intros bits Hall; cbn.
  - split; [done|]. intros i Hi. set_solver.
  - apply Forall_cons in Hall as [Hj Hjs].
    change (external_set_bit bits j) with (set_bit bits j).
    assert (El : len (set_bit bits j) = len bits) by (unfold len; by rewrite set_bit_length).
    destruct (IH (set_bit bits j)) as [El' Hb]; [by rewrite El|].
    split; [lia|]. intros i Hi. rewrite Hb, bit_is_set_set_bit by done.
    rewrite orb_true_iff, Z.eqb_eq, elem_of_cons. naive_solver.
Qed.

(** Block columns met by the pixel interval [lo, hi). *)
Lemma block_span lo hi c :
  0 <= lo < hi ->
  lo / 16 <= c < div_ceil hi 16 <-> exists x, lo <= x < hi /\ x / 16 = c.
Proof.
  intros H. rewrite div_ceil_lt_iff by lia.
  pose proof (Z.div_mod lo 16). pose proof (Z.mod_pos_bound lo 16). split.
  - intros [Hc1 Hc2]. destruct (decide (lo <= c * 16)).
    + exists (c * 16). split; [lia|]. apply Z.div_mul. lia.
    + exists lo. split; [lia|]. lia.
  - intros (x & Hx & <-). pose proof (Z.div_mod x 16). pose proof (Z.mod_pos_bound x 16). lia.
Qed.

Section Marking.
Context (e : ExternalDamage) (He : ext_wf e).
Let g := ext_grid e.
Let Hg : grid_wf g := wf_ext_grid e He.

Definition rect_indices (first_x end_x first_y end_y : Z) : list Z :=
  flat_map (fun block_y => map (fun block_x => block_y * blocks_wide g + block_x)
                             (seqZ first_x (end_x - first_x)))
    (seqZ first_y (end_y - first_y)).

Lemma mark_blocks_fold first_x end_x first_y end_y bits :
  0 <= first_x -> end_x <= blocks_wide g -> 0 <= first_y -> end_y <= blocks_tall g ->
  fold_left (fun bits block_y =>
      fold_left (mark_block g block_y) (seqZ first_x (end_x - first_x)) bits)
    (seqZ first_y (end_y - first_y)) bits =
  fold_left external_set_bit (rect_indices first_x end_x first_y end_y) bits.
Proof.
  intros Hx1 Hx2 Hy1 Hy2. unfold rect_indices.
  assert (Hys : Forall (fun y => 0 <= y < blocks_tall g) (seqZ first_y (end_y - first_y))).
  { apply Forall_forall. intros y Hy%elem_of_seqZ. lia. }
  assert (Hxs : Forall (fun x => 0 <= x < blocks_wide g) (seqZ first_x (end_x - first_x))).
  { apply Forall_forall. intros y Hy%elem_of_seqZ. lia. }
  revert bits. induction Hys as [|y ys Hy Hys IH]; intros bits; [done|].
  cbn. rewrite fold_left_app, <- IH. f_equal. clear IH.
  revert bits. induction Hxs as [|x xs Hx Hxs IHx]; intros bits; [done|].
  cbn. rewrite <- IHx. f_equal. unfold mark_block. rewrite (block_index_Some g Hg) by lia.
  destruct (Z.ltb_spec x (blocks_wide g)), (Z.ltb_spec y (blocks_tall g)); done || lia.
Qed.

Lemma elem_of_rect_indices first_x end_x first_y end_y i :
  0 <= first_x -> end_x <= blocks_wide g -> 0 <= first_y -> end_y <= blocks_tall g ->
  i ∈ rect_indices first_x end_x first_y end_y <->
  0 <= i < block_count g /\ first_x <= i mod blocks_wide g < end_x /\
  first_y <= i / blocks_wide g < end_y.
Proof.
  intros Hx1 Hx2 Hy1 Hy2. unfold rect_indices.
  rewrite list_elem_of_In, in_flat_map. split.
  - intros (y & Hy & Hin). apply list_elem_of_In, elem_of_seqZ in Hy.
    apply in_map_iff in Hin as (x & <- & Hx). apply list_elem_of_In, elem_of_seqZ in Hx.
    destruct (index_of_coords g Hg x y) as (? & -> & ->); lia.
  - intros (Hi & Hx & Hy). destruct (index_coords g Hg i Hi) as (_ & _ & E).
    exists (i / blocks_wide g). rewrite <- list_elem_of_In, elem_of_seqZ. split; [lia|].
    apply in_map_iff. exists (i mod blocks_wide g).
    rewrite <- list_elem_of_In, elem_of_seqZ. split; [by rewrite <- E|lia].
Qed.

(** [mark_rect] dirties exactly the blocks that share a frame pixel with the
    rectangle. *)
Lemma mark_rect_spec (r : PixelRect) :
  0 <= rect_x r -> 0 <= rect_y r -> 0 <= rect_width r -> 0 <= rect_height r ->
  ext_wf (mark_rect e r) /\ ext_grid (mark_rect e r) = g /\
  forall i, 0 <= i ->
    is_dirty (ext_damage_map (mark_rect e r)) i = true <->
    is_dirty (ext_damage_map e) i = true \/
    exists x y, pixel_in_block g i x y /\
      rect_x r <= x < rect_x r + rect_width r /\ rect_y r <= y < rect_y r + rect_height r.
Proof.
  intros Hx Hy Hw Hh. unfold mark_rect. cbv zeta. fold g.
  set (sx := Z.min (rect_x r) (grid_width g)). set (sy := Z.min (rect_y r) (grid_height g)).
  set (ex := Z.min (saturating_add 64 (rect_x r) (rect_width r)) (grid_width g)).
  set (ey := Z.min (saturating_add 64 (rect_y r) (rect_height r)) (grid_height g)).
  pose proof (wf_width g Hg). pose proof (wf_height g Hg).
  assert (Hclip : forall x y, 0 <= x < grid_width g -> 0 <= y < grid_height g ->
    (rect_x r <= x < rect_x r + rect_width r /\ rect_y r <= y < rect_y r + rect_height r) <->
    sx <= x < ex /\ sy <= y < ey).
  { intros x y Bx By. subst sx sy ex ey. unfold saturating_add, umax. lia. }
  destruct (Z.leb_spec ex sx) as [Hex|Hex]; [|destruct (Z.leb_spec ey sy) as [Hey|Hey]]; cbn [orb].
  1, 2: split_and!; auto; intros i Hi; split; [auto|]; intros [?|(x & y & Hp & Hr)]; [done|];
    apply (pixel_in_block_iff g Hg) in Hp as (? & ? & ? & ? & ?); apply Hclip in Hr; lia.
  assert (Bx : div_ceil ex 16 <= blocks_wide g).
  { rewrite (wf_wide g Hg). unfold BLOCK_SIZE. pose proof (div_ceil_spec ex 16 ltac:(lia)).
    pose proof (div_ceil_spec (grid_width g) 16 ltac:(lia)). subst ex. lia. }
  assert (By : div_ceil ey 16 <= blocks_tall g).
  { rewrite (wf_tall g Hg). unfold BLOCK_SIZE. pose proof (div_ceil_spec ey 16 ltac:(lia)).
    pose proof (div_ceil_spec (grid_height g) 16 ltac:(lia)). subst ey. lia. }
  assert (0 <= sx / 16) by (apply Z.div_pos; lia). assert (0 <= sy / 16) by (apply Z.div_pos; lia).
  unfold BLOCK_SIZE. rewrite mark_blocks_fold by done.
  destruct (fold_set_bit_spec (rect_indices (sx / 16) (div_ceil ex 16) (sy / 16) (div_ceil ey 16))
              (ext_bits e)) as [El Hb].
  { apply Forall_forall. intros i Hi%elem_of_rect_indices; auto. pose proof (wf_ext_bits e He) as Hb. fold g in Hb. lia. }
  split_and!; [constructor; cbn; [done|rewrite El; apply He]|done|].
  intros i Hi. unfold is_dirty. cbn. fold g. rewrite !andb_true_iff, Hb by done.
  rewrite elem_of_rect_indices, !block_span, Z.ltb_lt by lia. split.
  - intros (Hc & [?|(_ & (x & Hx1 & Ex) & (y & Hy1 & Ey))]); [auto|]. right.
    exists x, y. subst sx sy ex ey. split; [apply (pixel_in_block_iff g Hg); lia|]. apply Hclip; lia.
  - intros [?|(x & y & Hp & Hr)]; [naive_solver|].
    apply (pixel_in_block_iff g Hg) in Hp as (? & ? & ? & ? & ?). apply Hclip in Hr; [|lia..].
    split; [lia|]. right. split; [lia|]. split; [exists x|exists y]; lia.
Qed.

Lemma clamp_signed_spec v extent x :
  0 <= x < extent ->
  (clamp_signed_to_extent v extent <= x <-> v <= x) /\
  (x < clamp_signed_to_extent v extent <-> x < v).
Proof. intros Hx. unfold clamp_signed_to_extent. destruct (Z.leb_spec v 0); lia. Qed.

Lemma mark_rect_bounds_spec l t r b :
  ext_wf (mark_rect_bounds e l t r b) /\ ext_grid (mark_rect_bounds e l t r b) = g /\
  forall i, 0 <= i ->
    is_dirty (ext_damage_map (mark_rect_bounds e l t r b)) i = true <->
    is_dirty (ext_damage_map e) i = true \/
    exists x y, pixel_in_block g i x y /\ l <= x < r /\ t <= y < b.
Proof.
  unfold mark_rect_bounds. cbv zeta. fold g.
  assert (Hn : forall v ext, 0 <= ext -> 0 <= clamp_signed_to_extent v ext)
    by (intros; unfold clamp_signed_to_extent; destruct (Z.leb_spec v 0); lia).
  pose proof (wf_width g Hg). pose proof (wf_height g Hg).
  pose proof (Hn l (grid_width g)). pose proof (Hn t (grid_height g)).
  assert (Hclip : forall x y i, pixel_in_block g i x y ->
    (l <= x < r /\ t <= y < b) <->
    clamp_signed_to_extent l (grid_width g) <= x < clamp_signed_to_extent r (grid_width g) /\
    clamp_signed_to_extent t (grid_height g) <= y < clamp_signed_to_extent b (grid_height g)).
  { intros x y i (Hi & Hx & Hy & _)%(pixel_in_block_iff g Hg).
    pose proof (clamp_signed_spec l (grid_width g) x Hx). pose proof (clamp_signed_spec r (grid_width g) x Hx).
    pose proof (clamp_signed_spec t (grid_height g) y Hy). pose proof (clamp_signed_spec b (grid_height g) y Hy).
    naive_solver. }
  destruct (Z.leb_spec (clamp_signed_to_extent r (grid_width g)) (clamp_signed_to_extent l (grid_width g))) as [?|?];
  [|destruct (Z.leb_spec (clamp_signed_to_extent b (grid_height g)) (clamp_signed_to_extent t (grid_height g))) as [?|?]];
  cbn [orb].
  1, 2: split_and!; auto; intros i Hi; split; [auto|]; intros [?|(x & y & Hp & Hr)]; [done|];
    apply (Hclip _ _ _ Hp) in Hr; lia.
  destruct (mark_rect_spec (mkPixelRect (clamp_signed_to_extent l (grid_width g)) (clamp_signed_to_extent t (grid_height g))
    (clamp_signed_to_extent r (grid_width g) - clamp_signed_to_extent l (grid_width g))
    (clamp_signed_to_extent b (grid_height g) - clamp_signed_to_extent t (grid_height g))))
    as (Hwf & Hgr & Hd); cbn; try lia.
  split_and!; auto. intros i Hi. rewrite Hd by done. cbn.
  split; (intros [?|(x & y & Hp & Hr)]; [auto|]; right; exists x, y; split; [done|]).
  - apply (Hclip _ _ _ Hp). lia.
  - apply (Hclip _ _ _ Hp) in Hr. lia.
Qed.
End Marking.

Lemma elem_of_enumerate l k d :
  (k, d) ∈ enumerate l <-> 0 <= k < len l /\ byte_at l k = d.
Proof.
  unfold enumerate, byte_at, range. rewrite list_elem_of_lookup. split.
  - intros [i Hi]. apply lookup_zip_with_Some in Hi as (a & b & [= -> ->] & Ha & Hb).
    apply lookup_seqZ in Ha as [-> ?]. split; [lia|].
    rewrite Z.add_0_l, Nat2Z.id, nth_lookup, Hb. done.
  - intros [Hk <-]. exists (Z.to_nat k). apply lookup_zip_with_Some.
    unfold len in *. destruct (lookup_lt_is_Some_2 l (Z.to_nat k) ltac:(lia)) as [b Hb].
    exists k, b. split_and!; [|apply lookup_seqZ; lia|done].
    by rewrite nth_lookup, Hb.
Qed.

Section BlockMap.
Context (g : BlockGrid) (Hg : grid_wf g) (size : Z) (Hsize : 0 < size).
Let wide := div_ceil (grid_width g) size.
Let tall := div_ceil (grid_height g) size.

Lemma source_cell_in_range k :
  0 <= k < wide * tall ->
  0 <= k mod wide * size < grid_width g /\ 0 <= k / wide * size < grid_height g.
Proof.
  intros Hk. pose proof (wf_width g Hg). pose proof (wf_height g Hg).
  assert (Hw : 0 < wide) by (apply div_ceil_pos; lia).
  pose proof (Z.mod_pos_bound k wide Hw).
  assert (0 <= k / wide < tall) by (split; [apply Z.div_pos; lia|apply Z.div_lt_upper_bound; lia]).
  rewrite <- (div_ceil_lt_iff (grid_width g) size), <- (div_ceil_lt_iff (grid_height g) size) by done.
  fold wide tall. lia.
Qed.

Lemma source_cell_iff x c : c * size <= x < c * size + size <-> x / size = c.
Proof.
  pose proof (Z.div_mod x size). pose proof (Z.mod_pos_bound x size Hsize). split; [|nia].
  intros Hx. symmetry. apply Z.div_unique with (x - c * size); lia.
Qed.

Lemma mark_block_loop_spec l :
  Forall (fun '(k, d) => 0 <= k < wide * tall) l ->
  forall e, ext_wf e -> ext_grid e = g ->
  exists e', mark_block_loop wide size l e = (e', Ok tt) /\ ext_wf e' /\ ext_grid e' = g /\
    forall i, 0 <= i ->
      is_dirty (ext_damage_map e') i = true <->
      is_dirty (ext_damage_map e) i = true \/
      exists k d x y, (k, d) ∈ l /\ d <> 0 /\ pixel_in_block g i x y /\
        x / size = k mod wide /\ y / size = k / wide.
Proof.
  induction 1 as [|[k d] l Hk Hl IH]; intros e He Eg; cbn [mark_block_loop].
  - exists e. split_and!; auto. intros i Hi. set_solver.
  - destruct (Z.eqb_spec d 0) as [->|Hd].
    + destruct (IH e He Eg) as (e' & -> & ? & ? & Hb). exists e'. split_and!; auto.
      intros i Hi. rewrite Hb by done.
      split; (intros [?|(k' & d' & x & y & Hin & Hne & ?)]; [auto|right]);
        exists k', d', x, y; (split; [|by split]); [by right|].
      apply elem_of_cons in Hin as [[= -> ->]|?]; done.
    + destruct (source_cell_in_range k Hk) as [Bx By].
      pose proof (wf_width g Hg). pose proof (wf_height g Hg).
      unfold checked_mul, usize_bits, umax.
      destruct (Z.leb_spec (k mod wide * size) (2 ^ 64 - 1)); [|lia].
      destruct (Z.leb_spec (k / wide * size) (2 ^ 64 - 1)); [|lia].
      destruct (mark_rect_spec e He (mkPixelRect (k mod wide * size) (k / wide * size) size size))
        as (He1 & Eg1 & Hd1); cbn; try lia.
      destruct (IH (mark_rect e (mkPixelRect (k mod wide * size) (k / wide * size) size size)))
        as (e' & -> & ? & ? & Hb); [done|congruence|].
      exists e'. split_and!; auto. intros i Hi. rewrite Hb, Hd1 by done. cbn. rewrite Eg.
      setoid_rewrite source_cell_iff. setoid_rewrite elem_of_cons.
      split.
      * intros [[?|(x & y & ? & ? & ?)]|(k' & d' & x & y & ? & ?)]; [auto|right|right].
        -- exists k, d, x, y. split_and!; auto.
        -- exists k', d', x, y. destruct_and!. split_and!; auto.
      * intros [?|(k' & d' & x & y & [[= -> ->]|Hin] & ?)]; [auto|left; right|right].
        -- exists x, y. destruct_and!. auto.
        -- exists k', d', x, y. auto.
Qed.
End BlockMap.

Lemma merge_from_spec e d :
  ext_wf e -> map_wf d -> map_grid d = ext_grid e ->
  exists e', merge_from e d = (e', Ok tt) /\ ext_wf e' /\ ext_grid e' = ext_grid e /\
    forall i, 0 <= i ->
      is_dirty (ext_damage_map e') i = true <->
      is_dirty (ext_damage_map e) i = true \/ is_dirty d i = true.
Proof.
  intros He Hd Eg. unfold merge_from. rewrite decide_False by (intros ?; done).
  rewrite (collect_dirty_blocks_spec d Hd). eexists. split; [done|].
  destruct (fold_set_bit_spec (filter (fun i => is_dirty d i = true) (range (block_count (map_grid d)))) (ext_bits e))
    as [El Hb].
  { apply Forall_forall. intros i [_ Hi%elem_of_range]%list_elem_of_filter.
    pose proof (wf_ext_bits e He). rewrite Eg in Hi. lia. }
  split_and!; [constructor; cbn; [apply He|rewrite El; apply He]|done|].
  intros i Hi. unfold is_dirty at 1. cbn. rewrite andb_true_iff, Hb, list_elem_of_filter, elem_of_range by done.
  rewrite Eg. unfold is_dirty. cbn. rewrite !andb_true_iff, Eg, Z.ltb_lt. naive_solver lia.
Qed.

Lemma ExternalDamage_reset_spec e :
  ext_wf e -> ext_wf (ExternalDamage_reset e) /\
  forall i, is_dirty (ext_damage_map (ExternalDamage_reset e)) i = false.
Proof.
  intros [Hg Hb]. split.
  - constructor; [done|]. cbn. unfold len. by rewrite length_replicate.
  - intros i. unfold is_dirty. cbn. by rewrite bit_is_set_zero, andb_false_r.
Qed.

Lemma ExternalDamage_new_spec w h e :
  is_usize w -> is_usize h -> ExternalDamage_new w h = Ok e ->
  ext_wf e /\ BlockGrid_new w h = Ok (ext_grid e) /\
  forall i, is_dirty (ext_damage_map e) i = false.
Proof.
  intros Hw Hh H. unfold ExternalDamage_new in H. inv_ok.
  destruct (BlockGrid_new_inv w h x) as (Hg & _ & _); auto.
  pose proof (block_count_pos x Hg). unfold WORD_BITS.
  pose proof (div_ceil_spec (block_count x) 64 ltac:(lia)). split_and!; auto.
  - constructor; cbn; auto. unfold len. rewrite length_replicate. lia.
  - intros i. unfold is_dirty. cbn. by rewrite bit_is_set_zero, andb_false_r.
Qed.

(** ** The pending accumulator as a state machine *)

Inductive PendingOp :=
| OpObserve (d : DamageMap)
| OpSubmitted
| OpDiscard.

Definition pending_step (p : PendingExternalDamage) (op : PendingOp) : PendingExternalDamage :=
  match op with
  | OpObserve d => (observe p d).1
  | OpSubmitted => mark_submitted p
  | OpDiscard => discard_pending p
  end.

(** The captures not yet submitted, newest first, of a history given newest
    first: what the next encoded picture owes. *)
Fixpoint owed (g : BlockGrid) (history : list PendingOp) : list DamageMap :=
  match history with
  | [] | OpSubmitted :: _ | OpDiscard :: _ => []
  | OpObserve d :: history =>
    if decide (map_grid d = g) then d :: owed g history else owed g history
  end.

Definition op_wf (op : PendingOp) : Prop :=
  match op with OpObserve d => map_wf d | _ => True end.

Record pending_inv (g : BlockGrid) (history : list PendingOp) (p : PendingExternalDamage) : Prop := {
  pi_wf : ext_wf (pend_damage p);
  pi_grid : ext_grid (pend_damage p) = g;
  pi_pending : pending p = negb (bool_decide (owed g history = []));
  pi_dirty : pending p = true -> forall i, 0 <= i ->
    is_dirty (ext_damage_map (pend_damage p)) i = true <->
    Exists (fun d => is_dirty d i = true) (owed g history)
}.

Lemma observe_other_geometry p d :
  map_grid d <> ext_grid (pend_damage p) ->
  observe p d = (mkPendingExternalDamage
      (if pending p then pend_damage p else ExternalDamage_reset (pend_damage p)) (pending p),
    Err (GeometryChanged (ext_grid (pend_damage p)) (map_grid d))).
Proof.
  intros Hne. unfold observe, merge_from.
  destruct (pending p); cbn; rewrite decide_True by done; done.
Qed.

Lemma observe_same_geometry p d :
  ext_wf (pend_damage p) -> map_wf d -> map_grid d = ext_grid (pend_damage p) ->
  exists e', observe p d = (mkPendingExternalDamage e' true, Ok tt) /\ ext_wf e' /\
    ext_grid e' = ext_grid (pend_damage p) /\
    forall i, 0 <= i ->
      is_dirty (ext_damage_map e') i = true <->
      (pending p = true /\ is_dirty (ext_damage_map (pend_damage p)) i = true) \/ is_dirty d i = true.
Proof.
  intros He Hd Eg. unfold observe.
  destruct (ExternalDamage_reset_spec _ He) as [Hr Hclean].
  destruct (pending p).
  - destruct (merge_from_spec (pend_damage p) d) as (e' & -> & ? & ? & Hb); auto.
    eexists. split_and!; eauto. intros i Hi. rewrite Hb by done. naive_solver.
  - destruct (merge_from_spec (ExternalDamage_reset (pend_damage p)) d) as (e' & -> & ? & ? & Hb); auto.
    eexists. split_and!; eauto. intros i Hi. rewrite Hb, Hclean by done. naive_solver.
Qed.

Lemma pending_step_inv g history p op :
  op_wf op -> pending_inv g history p -> pending_inv g (op :: history) (pending_step p op).
Proof.
  intros Hop [Hwf Hg Hp Hd]. destruct op as [d| |]; cbn [pending_step].
  - destruct (decide (map_grid d = g)) as [Eg|Eg].
    + destruct (observe_same_geometry p d) as (e' & -> & ? & ? & Hb); [done..|congruence|].
      constructor; cbn [fst pend_damage pending owed]; rewrite ?decide_True by done; auto; [congruence|].
      intros _ i Hi. rewrite Hb, Exists_cons by done.
      destruct (pending p) eqn:Epend.
      * rewrite Hd by done. naive_solver.
      * symmetry in Hp. rewrite negb_false_iff, bool_decide_eq_true in Hp. rewrite Hp, Exists_nil. naive_solver.
    + rewrite observe_other_geometry by congruence.
      constructor; cbn [fst pend_damage pending owed]; rewrite ?decide_False by done.
      * destruct (pending p); [done|by apply ExternalDamage_reset_spec].
      * destruct (pending p); done.
      * done.
      * intros Epend i Hi. rewrite Epend. by apply Hd.
  - constructor; cbn; auto. done.
  - destruct (ExternalDamage_reset_spec _ Hwf). constructor; cbn; auto. done.
Qed.

(** ** Properties *)

(** [mark_move_rect] dirties exactly the blocks that share a frame pixel
    with the destination rectangle or, when that is not empty, with the
    source rectangle of the same size, for signed bounds that may lie outside
    the frame; nothing already dirty is lost. *)
Theorem mark_move_rect_exact (e : ExternalDamage) (sx sy l t r b i : Z) :
  ext_wf e -> grid_width (ext_grid e) <= I64_MAX -> grid_height (ext_grid e) <= I64_MAX ->
  r - l <= I64_MAX -> b - t <= I64_MAX -> I64_MIN <= r - l -> I64_MIN <= b - t ->
  I64_MIN <= sx -> I64_MIN <= sy -> 0 <= i ->
  is_dirty (ext_damage_map (mark_move_rect e sx sy l t r b)) i = true <->
  is_dirty (ext_damage_map e) i = true \/
  (exists x y, pixel_in_block (ext_grid e) i x y /\ l <= x < r /\ t <= y < b) \/
  (l < r /\ t < b /\ exists x y, pixel_in_block (ext_grid e) i x y /\
     sx <= x < sx + (r - l) /\ sy <= y < sy + (b - t)).
Proof.
  intros He Hw Hh H1 H2 H3 H4 H5 H6 Hi. unfold mark_move_rect. cbv zeta.
  destruct (mark_rect_bounds_spec e He l t r b) as (He1 & Eg1 & Hd1).
  assert (Es : forall z, I64_MIN <= z <= I64_MAX -> i64_saturate z = z) by (unfold i64_saturate; lia).
  rewrite !(Es (r - l)), !(Es (b - t)) by lia.
  destruct (Z.leb_spec (r - l) 0); [|destruct (Z.leb_spec (b - t) 0)]; cbn [orb].
  1, 2: rewrite Hd1 by done; naive_solver lia.
  set (e1 := mark_rect_bounds e l t r b) in *.
  destruct (mark_rect_bounds_spec e1 He1 sx sy (i64_saturate (sx + (r - l))) (i64_saturate (sy + (b - t))))
    as (_ & _ & Hd2). rewrite Hd2, Hd1, Eg1 by done.
  assert (Hsat : forall x y, pixel_in_block (ext_grid e) i x y ->
    (sx <= x < i64_saturate (sx + (r - l)) /\ sy <= y < i64_saturate (sy + (b - t))) <->
    (sx <= x < sx + (r - l) /\ sy <= y < sy + (b - t))).
  { intros x y (_ & Hx & Hy & _)%(pixel_in_block_iff _ (wf_ext_grid e He)).
    unfold i64_saturate. lia. }
  split.
  - intros [[?|?]|(x & y & Hp & Hr)]; [auto|auto|]. right; right. split_and!; [lia..|].
    exists x, y. split; [done|]. by apply Hsat.
  - intros [?|[?|(_ & _ & x & y & Hp & Hr)]]; [auto|auto|]. right.
    exists x, y. split; [done|]. by apply Hsat.
Qed.

Definition toy_external : ExternalDamage := mkExternalDamage (mkBlockGrid 64 64 4 4 16) [0].

Lemma toy_external_wf : ext_wf toy_external.
Proof. repeat constructor; vm_compute; congruence. Qed.

Lemma mark_move_rect_exact_witness :
  is_dirty (ext_damage_map (mark_move_rect toy_external 0 0 40 40 60 50)) 1 = true.
Proof.
  apply (mark_move_rect_exact toy_external 0 0 40 40 60 50 1 toy_external_wf);
    try (vm_compute; congruence).
  right; right. split; [lia|]. split; [lia|]. exists 16, 8.
  split; [|lia]. split; [lia|]. exists (mkBlockBounds 16 0 16 16).
  split; [reflexivity|]. cbn. lia.
Defined.

(** A foreign one-byte-per-block map of any block size, accepted exactly
    when it covers the frame, dirties exactly the 16x16 blocks holding a pixel
    whose source block is non-zero; every rejected map leaves the damage
    untouched, and no offset computation overflows. *)
Theorem mark_block_map_exact (e : ExternalDamage) (blocks : list Z) (wide tall size : Z) :
  ext_wf e -> 0 <= size ->
  if (size =? 0)
     || negb (wide =? div_ceil (grid_width (ext_grid e)) size)
     || negb (tall =? div_ceil (grid_height (ext_grid e)) size)
     || (umax 64 <? wide * tall) || (len blocks <? wide * tall)
  then exists err, mark_block_map e blocks wide tall size = (e, Err err)
  else exists e', mark_block_map e blocks wide tall size = (e', Ok tt) /\ ext_wf e' /\
    ext_grid e' = ext_grid e /\
    forall i, 0 <= i ->
      is_dirty (ext_damage_map e') i = true <->
      is_dirty (ext_damage_map e) i = true \/
      exists x y, pixel_in_block (ext_grid e) i x y /\
        byte_at blocks (y / size * wide + x / size) <> 0.
Proof.
  intros He Hs. unfold mark_block_map. cbv zeta. pose proof (wf_ext_grid e He) as Hg.
  destruct (Z.eqb_spec size 0); cbn [orb]; [eauto|].
  destruct (Z.eqb_spec wide (div_ceil (grid_width (ext_grid e)) size)) as [Ew|]; cbn [orb negb]; [|eauto].
  destruct (Z.eqb_spec tall (div_ceil (grid_height (ext_grid e)) size)) as [Et|]; cbn [orb negb]; [|eauto].
  unfold checked_mul, usize_bits.
  destruct (Z.ltb_spec (umax 64) (wide * tall)), (Z.leb_spec (wide * tall) (umax 64)); try lia; cbn [orb]; [eauto|].
  destruct (Z.ltb_spec (len blocks) (wide * tall)); [eauto|].
  pose proof (wf_width _ Hg). pose proof (wf_height _ Hg).
  assert (Hw : 0 < wide) by (rewrite Ew; apply div_ceil_pos; lia).
  assert (Ht : 0 < tall) by (rewrite Et; apply div_ceil_pos; lia).
  assert (El : len (take (Z.to_nat (wide * tall)) blocks) = wide * tall).
  { unfold len in *. rewrite length_take. lia. }
  assert (Hnth : forall k, 0 <= k < wide * tall -> byte_at (take (Z.to_nat (wide * tall)) blocks) k = byte_at blocks k).
  { intros k Hk. unfold byte_at. rewrite !nth_lookup, lookup_take_lt by lia. done. }
  destruct (mark_block_loop_spec (ext_grid e) Hg size ltac:(lia) (enumerate (take (Z.to_nat (wide * tall)) blocks)))
    with e as (e' & E & He' & Eg & Hd); auto.
  { apply Forall_forall. intros [k d] [Hk _]%elem_of_enumerate. rewrite El, Ew, Et in Hk. done. }
  rewrite <- Ew in E, Hd. exists e'. split_and!; auto.
  intros i Hi. rewrite Hd by done.
  split; (intros [?|Hex]; [auto|right]).
  - destruct Hex as (k & d & x & y & Hin & Hne & Hp & Ex & Ey).
    apply elem_of_enumerate in Hin as [Hk <-]. rewrite El in Hk. rewrite Hnth in Hne by done.
    exists x, y. split; [done|]. rewrite Ex, Ey.
    replace (k / wide * wide + k mod wide) with k; [done|].
    pose proof (Z.div_mod k wide). lia.
  - destruct Hex as (x & y & Hp & Hne).
    pose proof Hp as (_ & Bx & By & _)%(pixel_in_block_iff _ Hg).
    pose proof (div_lt_div_ceil x _ size ltac:(lia) (proj2 Bx)) as Bx'. rewrite <- Ew in Bx'.
    pose proof (div_lt_div_ceil y _ size ltac:(lia) (proj2 By)) as By'. rewrite <- Et in By'.
    pose proof (Z.div_pos x size ltac:(lia) ltac:(lia)). pose proof (Z.div_pos y size ltac:(lia) ltac:(lia)).
    assert (Bk : 0 <= y / size * wide + x / size < wide * tall) by nia.
    exists (y / size * wide + x / size), (byte_at blocks (y / size * wide + x / size)), x, y.
    split_and!; auto.
    + apply elem_of_enumerate. rewrite El, Hnth; auto.
    + rewrite Z.add_comm, Z_mod_plus_full, Z.mod_small; lia.
    + rewrite Z.add_comm, Z_div_plus_full, (Z.div_small (x / size) wide); lia.
Qed.

Lemma mark_block_map_exact_witness :
  exists e', mark_block_map toy_external (replicate 3 0 ++ [1]) 2 2 32 = (e', Ok tt) /\
    is_dirty (ext_damage_map e') 15 = true /\ is_dirty (ext_damage_map e') 0 = false.
Proof.
  destruct (mark_block_map_exact toy_external (replicate 3 0 ++ [1]) 2 2 32 toy_external_wf ltac:(lia))
    as (e' & E & _ & _ & Hd).
  exists e'. split; [exact E|]. split.
  - apply Hd; [lia|]. right. exists 60, 60. split; [|vm_compute; congruence].
    split; [lia|]. exists (mkBlockBounds 48 48 16 16). split; [reflexivity|]. cbn. lia.
  - vm_compute in E. injection E as <-. reflexivity.
Defined.

(** C3: No capture damage is lost or carried over between encoded pictures:
    after any history of captures, submissions and discards, the pending
    accumulator is marked pending exactly when some capture of its geometry is
    not yet submitted, and then a block is dirty iff it is dirty in at least
    one of those captures; a capture of another geometry changes nothing that
    is owed. *)
Theorem pending_damage_refines_owed (w h : Z) (p : PendingExternalDamage) (ops : list PendingOp) :
  is_usize w -> is_usize h -> PendingExternalDamage_new w h = Ok p -> Forall op_wf ops ->
  let g := ext_grid (pend_damage p) in
  let p' := fold_left pending_step ops p in
  pending p' = negb (bool_decide (owed g (rev ops) = [])) /\
  (pending p' = true -> forall i, 0 <= i ->
     is_dirty (ext_damage_map (pend_damage p')) i = true <->
     Exists (fun d => is_dirty d i = true) (owed g (rev ops))).
Proof.
  intros Hw Hh Hnew Hops g. unfold PendingExternalDamage_new in Hnew. inv_ok.
  destruct (ExternalDamage_new_spec w h x) as (Hwf & _ & _); auto.
  assert (Hinv : pending_inv g (rev ops) (fold_left pending_step ops (mkPendingExternalDamage x false))).
  { induction ops as [|op ops IH] using rev_ind.
    - constructor; cbn; auto. done.
    - apply Forall_app in Hops as [Hops Hop]. rewrite Forall_singleton in Hop.
      rewrite fold_left_app, rev_app_distr.
      apply (pending_step_inv _ (rev ops)); [done|by apply IH]. }
  intros p'. destruct Hinv as [_ _ Hp Hd]. auto.
Qed.

Definition toy_map (word : Z) : DamageMap := mkDamageMap (mkBlockGrid 64 64 4 4 16) [word].

Definition toy_ops : list PendingOp :=
  [OpObserve (toy_map 1); OpSubmitted; OpObserve (toy_map 4); OpObserve (toy_map 8)].

Lemma toy_ops_wf : Forall op_wf toy_ops.
Proof. repeat constructor; vm_compute; congruence. Qed.

Lemma pending_damage_refines_owed_witness :
  exists p, PendingExternalDamage_new 64 64 = Ok p /\
    let p' := fold_left pending_step toy_ops p in
    pending p' = true /\ is_dirty (ext_damage_map (pend_damage p')) 2 = true.
Proof.
  eexists. split; [reflexivity|].
  destruct (pending_damage_refines_owed 64 64 _ toy_ops ltac:(vm_compute; split; congruence)
              ltac:(vm_compute; split; congruence) eq_refl toy_ops_wf) as [Hp Hd].
  split; [exact Hp|]. apply Hd; [exact Hp|lia|]. right. left. reflexivity.
Defined.

(** The summary of OS damage agrees with the tracker's own accounting:
    [ExternalDamage::summary] counts exactly the dirty blocks and, although it
    walks block coordinates instead of the packed words, exactly the rows
    [row_is_dirty] reports. *)
Theorem ext_summary_matches_tracker (e : ExternalDamage) :
  ext_wf e ->
  ext_summary e =
    mkDamageSummary
      (len (filter (fun i => is_dirty (ext_damage_map e) i = true) (range (block_count (ext_grid e)))))
      (block_count (ext_grid e))
      (count_dirty_rows (ext_grid e) (ext_bits e))
      (blocks_tall (ext_grid e)).
Proof.
  intros He. pose proof (wf_ext_grid e He) as Hg.
  assert (Hm : map_wf (ext_damage_map e)) by (split; apply He).
  unfold ext_summary. cbv zeta. rewrite (collect_dirty_blocks_spec _ Hm). f_equal.
  unfold count_dirty_rows. f_equal. apply filter_iff_in. apply Forall_forall.
  intros y Hy%elem_of_range. rewrite (row_is_dirty_spec _ Hm) by lia. cbn. rewrite existsb_exists.
  split.
  - intros (x & Hx%list_elem_of_In%elem_of_range & Hd). split; [lia|].
    rewrite (block_index_Some _ Hg) in Hd by lia.
    destruct (index_of_coords _ Hg x y) as (? & _ & E); [lia..|].
    destruct (Z.ltb_spec x (blocks_wide (ext_grid e))), (Z.ltb_spec y (blocks_tall (ext_grid e))); try lia.
    cbn in Hd. eauto with lia.
  - intros (_ & i & E & Hi & Hd).
    assert (Hc : 0 <= i < block_count (ext_grid e)) by (unfold is_dirty in Hd; cbn in Hd; boolify; lia).
    destruct (index_coords _ Hg i Hc) as (Bx & By & Ei).
    exists (i mod blocks_wide (ext_grid e)). split; [apply list_elem_of_In, elem_of_range; lia|].
    rewrite (block_index_Some _ Hg) by lia.
    destruct (Z.ltb_spec (i mod blocks_wide (ext_grid e)) (blocks_wide (ext_grid e))); [|lia].
    destruct (Z.ltb_spec y (blocks_tall (ext_grid e))); [|lia]. cbn. rewrite <- E, <- Ei. done.
Qed.

Lemma ext_summary_matches_tracker_witness :
  ext_summary (mark_rect toy_external (mkPixelRect 10 10 10 40)) = mkDamageSummary 8 16 4 4.
Proof.
  rewrite (ext_summary_matches_tracker _ (proj1 (mark_rect_spec toy_external toy_external_wf
    (mkPixelRect 10 10 10 40) ltac:(cbn; lia) ltac:(cbn; lia) ltac:(cbn; lia) ltac:(cbn; lia)))).
  vm_compute. reflexivity.
Defined.
