(* ===== verification/KeelCadence.v ===== *)
(** * Keel: when an encoder submits a frame

    Models [shared/keel/src/cadence.rs] (idle cadence and the submission gate
    of the hardware-encoder adapters) and [shared/keel/src/pacing.rs] (the
    arrival pacer).  Durations are nanoseconds. *)

From S2P Require Import Prelude.

(** ** cadence.rs *)

Inductive EmitMode := FirstFrame | Idr | Activity | Keepalive.

Record IdleCadence := mkIdleCadence {
  keepalive : Z;
  has_frame : bool;
  dirty : bool;
  first : bool
}.

Definition IdleCadence_new (keepalive : Z) : IdleCadence :=
  mkIdleCadence keepalive false false true.

Definition cadence_note_frame (c : IdleCadence) : IdleCadence :=
  mkIdleCadence (keepalive c) true true (first c).

Definition note_unchanged_frame (c : IdleCadence) : IdleCadence :=
  mkIdleCadence (keepalive c) true (dirty c) (first c).

Definition cadence_reset (c : IdleCadence) : IdleCadence := IdleCadence_new (keepalive c).

Definition cadence_decision (c : IdleCadence) (idr_pending : bool) (elapsed : Z) : option EmitMode :=
  if negb (has_frame c) then None
  else if first c then Some FirstFrame
  else if idr_pending then Some Idr
  else if dirty c then Some Activity
  else if keepalive c <=? elapsed then Some Keepalive
  else None.

Definition cadence_on_submitted (c : IdleCadence) : IdleCadence :=
  mkIdleCadence (keepalive c) (has_frame c) false false.

Inductive SubmissionMode :=
| SFirstFrame | SIdr | SActivity | SKeepalive | SPipelineFlush.

#[global] Instance SubmissionMode_eq_dec : EqDecision SubmissionMode.
Proof. solve_decision. Defined.

Definition submission_of_emit (m : EmitMode) : SubmissionMode :=
  match m with
  | FirstFrame => SFirstFrame | Idr => SIdr | Activity => SActivity | Keepalive => SKeepalive
  end.

Record SubmissionGate := mkSubmissionGate {
  cadence : IdleCadence;
  pipeline_flush_pending : bool
}.

Definition SubmissionGate_new (keepalive : Z) : SubmissionGate :=
  mkSubmissionGate (IdleCadence_new keepalive) false.

Definition gate_note_frame (s : SubmissionGate) : SubmissionGate :=
  mkSubmissionGate (cadence_note_frame (cadence s)) (pipeline_flush_pending s).

Definition gate_reset (s : SubmissionGate) : SubmissionGate :=
  mkSubmissionGate (cadence_reset (cadence s)) false.

Definition gate_decision (s : SubmissionGate) (idr_pending : bool) (elapsed : Z)
  : option SubmissionMode :=
  match submission_of_emit <$> cadence_decision (cadence s) idr_pending elapsed with
  | Some m => Some m
  | None => if pipeline_flush_pending s then Some SPipelineFlush else None
  end.

Definition gate_on_submitted (s : SubmissionGate) (mode : SubmissionMode) (output_ready : bool)
  : SubmissionGate :=
  mkSubmissionGate (cadence_on_submitted (cadence s))
    (negb output_ready
     || match mode with SFirstFrame | SIdr | SActivity => true | _ => false end).

(** *** The gate under an encoder loop

    A tick asks for a decision and, when one is due, submits it and reports
    whether the encoder returned an access unit. *)

Definition gate_tick (s : SubmissionGate) (idr_pending : bool) (elapsed : Z) (output_ready : bool)
  : SubmissionGate * option SubmissionMode :=
  match gate_decision s idr_pending elapsed with
  | Some m => (gate_on_submitted s m output_ready, Some m)
  | None => (s, None)
  end.

Inductive gate_step : SubmissionGate -> SubmissionGate -> Prop :=
| step_frame s : gate_step s (gate_note_frame s)
| step_reset s : gate_step s (gate_reset s)
| step_tick s idr elapsed ready : gate_step s (gate_tick s idr elapsed ready).1.

(** A flush is only ever owed for a frame that was submitted. *)
Definition gate_inv (s : SubmissionGate) : Prop :=
  (pipeline_flush_pending s = true -> has_frame (cadence s) = true /\ first (cadence s) = false) /\
  (has_frame (cadence s) = false -> first (cadence s) = true /\ dirty (cadence s) = false).

Lemma gate_step_inv s s' : gate_inv s -> gate_step s s' -> gate_inv s'.
Proof.
  intros [Hf Hn] Hs. destruct Hs as [[[k h d fr] p]|[[k h d fr] p]|[[k h d fr] p] idr el rd].
  - unfold gate_inv in *. cbn in *. naive_solver.
  - unfold gate_inv. cbn. naive_solver.
  - unfold gate_tick, gate_decision, cadence_decision, gate_on_submitted, cadence_on_submitted.
    unfold gate_inv in *. cbn in *.
    destruct h, fr, idr, d, p; cbn in *; try destruct (k <=? el); cbn; naive_solver.
Qed.

Lemma gate_reachable_inv k s :
  rtc gate_step (SubmissionGate_new k) s -> gate_inv s.
Proof.
  apply (rtc_ind_r (fun s => gate_inv s)).
  - split; [done|]. naive_solver.
  - intros y z _ Hyz Hy. by eapply gate_step_inv.
Qed.

(** ** pacing.rs *)

Record ArrivalPacer := mkArrivalPacer { interval : Z; next : option Z }.

Definition ArrivalPacer_new (interval : Z) : ArrivalPacer := mkArrivalPacer interval None.

Definition set_interval (p : ArrivalPacer) (interval : Z) : ArrivalPacer :=
  mkArrivalPacer interval (next p).

Definition pacer_reset (p : ArrivalPacer) : ArrivalPacer := mkArrivalPacer (interval p) None.

Definition half_interval (p : ArrivalPacer) : Z :=
  saturating_sub (interval p) (interval p / 2).

Definition fresh_due (p : ArrivalPacer) (now : Z) : bool :=
  match next p with
  | None => true
  | Some next => next <=? duration_saturating_add now (half_interval p)
  end.

Definition slot_due (p : ArrivalPacer) (now : Z) : bool :=
  match next p with
  | None => true
  | Some next => duration_saturating_add next (half_interval p) <=? now
  end.

Definition on_fresh_submitted (p : ArrivalPacer) (now : Z) : ArrivalPacer :=
  let after_now := duration_saturating_add now (interval p) in
  let following :=
    match next p with
    | None => after_now
    | Some next => Z.max (duration_saturating_add next (interval p)) after_now
    end in
  mkArrivalPacer (interval p) (Some following).

(** A run of fresh submissions, each made when the pacer allows it. *)
Fixpoint submit_run (p : ArrivalPacer) (times : list Z) : option ArrivalPacer :=
  match times with
  | [] => Some p
  | t :: times => if fresh_due p t then submit_run (on_fresh_submitted p t) times else None
  end.

(** The instant at which a frame that arrived at [a] is first due. *)
Definition earliest_submit (p : ArrivalPacer) (a : Z) : Z :=
  match next p with
  | None => a
  | Some next => Z.max a (next - half_interval p)
  end.

(** Submitting every arrival at its first due instant. *)
Fixpoint submit_arrivals (p : ArrivalPacer) (arrivals : list Z) : list Z :=
  match arrivals with
  | [] => []
  | a :: arrivals =>
    let s := earliest_submit p a in
    s :: submit_arrivals (on_fresh_submitted p s) arrivals
  end.

Lemma half_interval_bounds p :
  0 <= interval p -> interval p <= 2 * half_interval p <= interval p + 1.
Proof.
  intros Hi. unfold half_interval, saturating_sub.
  pose proof (Z.div_mod (interval p) 2). pose proof (Z.mod_pos_bound (interval p) 2). lia.
Qed.

Lemma submit_run_app p ts us :
  submit_run p (ts ++ us) = p' ← submit_run p ts; submit_run p' us.
Proof.
  revert p. induction ts as [|t ts IH]; intros p; [done|]. cbn.
  destruct (fresh_due p t); [apply IH|done].
Qed.

(** After [n + 1] fresh submissions the slot is [n + 1] intervals past the
    first one. *)
Lemma submit_run_slot i t0 ts p' :
  0 <= i -> 0 <= t0 -> submit_run (ArrivalPacer_new i) (t0 :: ts) = Some p' ->
  interval p' = i /\
  exists n, next p' = Some n /\ Z.min (t0 + (len ts + 1) * i) DURATION_MAX <= n.
Proof.
  intros Hi Ht. revert p'. induction ts as [|t ts IH] using rev_ind; intros p' H.
  - cbn in H. injection H as <-. cbn. split; [done|]. eexists. split; [done|].
    unfold duration_saturating_add, len. cbn. lia.
  - rewrite app_comm_cons, submit_run_app in H.
    destruct (submit_run _ (t0 :: ts)) as [p|] eqn:E; [|done].
    destruct (IH p eq_refl) as (Ei & n & En & Hn). cbn in H.
    destruct (fresh_due p t); [|done]. injection H as <-.
    split; [done|]. cbn. rewrite En, Ei. eexists. split; [done|].
    rewrite len_app, len_cons, len_nil. unfold duration_saturating_add. lia.
Qed.

Lemma on_fresh_submitted_next p t :
  0 <= interval p -> is_duration (t + interval p) ->
  (forall n, next p = Some n -> n + interval p <= DURATION_MAX) ->
  next (on_fresh_submitted p t) =
    Some (match next p with
          | None => t + interval p
          | Some n => Z.max (n + interval p) (t + interval p)
          end).
Proof.
  intros Hi [_ Ht] Hn. unfold on_fresh_submitted, duration_saturating_add. cbn.
  destruct (next p) as [n|]; [specialize (Hn n eq_refl)|]; do 2 f_equal; lia.
Qed.

(** Submissions of arrivals that stay within [jitter] of a nominal grid of
    period [interval], starting with frame [k] of the grid. *)
Lemma submit_arrivals_no_loss i phase jitter k arrivals p :
  0 <= i -> 0 <= jitter -> 2 * jitter <= i -> interval p = i ->
  phase + (k + len arrivals) * i + jitter <= DURATION_MAX -> jitter <= phase -> 0 <= k ->
  (forall n, next p = Some n -> n <= phase + k * i + jitter) ->
  (forall m a, arrivals !! m = Some a ->
     phase + (k + Z.of_nat m) * i - jitter <= a <= phase + (k + Z.of_nat m) * i + jitter) ->
  forall m a s, arrivals !! m = Some a -> submit_arrivals p arrivals !! m = Some s ->
    a <= s <= phase + (k + Z.of_nat m) * i + jitter.
Proof.
  intros Hi Hj Hij. revert k p.
  induction arrivals as [|a0 arrivals IH]; intros k p Ep Hmax Hph Hk Hn Ha m a s Hm Hs; [done|].
  pose proof (half_interval_bounds p ltac:(lia)) as Hh. rewrite len_cons in Hmax.
  pose proof (len_nonneg arrivals). pose proof (Ha 0%nat a0 eq_refl) as Ha0.
  assert (Bs : a0 <= earliest_submit p a0 <= phase + k * i + jitter).
  { unfold earliest_submit. destruct (next p) as [n|] eqn:En; [|lia].
    specialize (Hn n eq_refl). lia. }
  destruct m as [|m]; cbn in Hm, Hs; [injection Hm as <-; injection Hs as <-; lia|].
  specialize (IH (k + 1) (on_fresh_submitted p (earliest_submit p a0))).
  eapply IH in Hs; eauto; try lia.
  - intros n En. rewrite on_fresh_submitted_next in En.
    + injection En as <-. rewrite Ep. destruct (next p) as [n'|]; [specialize (Hn n' eq_refl)|]; lia.
    + lia.
    + rewrite Ep. unfold is_duration. nia.
    + intros n' En'. specialize (Hn n' En'). nia.
  - intros m' a' Hm'. specialize (Ha (S m') a' Hm'). lia.
Qed.

(** ** Properties *)

(** The submission gate of a hardware encoder, in every state its loop can
    reach: it submits nothing before a frame was captured since the (re)start
    of capture, even with a keyframe request or keepalive due; changed content
    is submitted at the next tick whatever the clock says; a change is followed
    by exactly one flush (or keepalive) that drains the encoder, after which a
    still desktop stays silent until the keepalive is due. *)
Theorem gate_submission_discipline (k : Z) (s : SubmissionGate) :
  rtc gate_step (SubmissionGate_new k) s ->
  (has_frame (cadence s) = false -> forall idr el, gate_decision s idr el = None) /\
  (forall idr el, exists m, gate_decision (gate_note_frame s) idr el = Some m /\
     m <> SKeepalive /\ m <> SPipelineFlush) /\
  (forall idr el ready s1 m, gate_tick s idr el ready = (s1, Some m) ->
     m = SFirstFrame \/ m = SIdr \/ m = SActivity ->
     forall el1 s2 m1, gate_tick s1 false el1 true = (s2, m1) ->
       m1 = Some (if keepalive (cadence s) <=? el1 then SKeepalive else SPipelineFlush) /\
       forall el2, gate_decision s2 false el2 =
         if keepalive (cadence s) <=? el2 then Some SKeepalive else None).
Proof.
  intros Hr. apply gate_reachable_inv in Hr as [Hf Hn].
  destruct s as [[ka h d fr] p]. unfold gate_tick, gate_decision, cadence_decision,
    gate_on_submitted, cadence_on_submitted, gate_note_frame, cadence_note_frame in *. cbn in *.
  split_and!.
  - intros ->. intros. destruct p; [naive_solver|done].
  - intros idr el. destruct fr, idr; cbn; eauto.
  - intros idr el ready s1 m H Hm el1 s2 m1 H2.
    assert (Es1 : s1 = mkSubmissionGate (mkIdleCadence ka h false false) true /\ h = true).
    { destruct h, fr, idr, d, p; cbn in *; try destruct (ka <=? el); cbn in *;
        simplify_eq; destruct ready; cbn; naive_solver. }
    destruct Es1 as [-> ->]. cbn in H2.
    destruct (ka <=? el1); cbn in H2; injection H2 as <- <-; split; try done;
      intros el2; cbn; destruct (ka <=? el2); done.
Qed.

Lemma gate_submission_discipline_witness :
  gate_decision (SubmissionGate_new 1000) true 5000 = None.
Proof.
  apply (gate_submission_discipline 1000 (SubmissionGate_new 1000)); [apply rtc_refl|reflexivity].
Defined.

(** The arrival pacer never exceeds its contract rate: if [n + 1] fresh
    frames were submitted, each when [fresh_due] allowed it, the last came at
    least [n] intervals minus half an interval after the first (up to the
    saturation of [Duration]), so over a long run the rate is at most one frame
    per interval; and a submission without fresh content is not due before
    half an interval past the slot that follows the last fresh one. *)
Theorem pacer_rate_bound (i t0 t : Z) (ts : list Z) (p : ArrivalPacer) :
  0 <= i -> 0 <= t0 ->
  submit_run (ArrivalPacer_new i) (t0 :: ts) = Some p ->
  (fresh_due p t = true ->
     Z.min (t0 + (len ts + 1) * i) DURATION_MAX <= t + half_interval p) /\
  (slot_due p t = true ->
     Z.min (t0 + (len ts + 1) * i + half_interval p) DURATION_MAX <= t).
Proof.
  intros Hi Ht H. destruct (submit_run_slot i t0 ts p Hi Ht H) as (Ei & n & En & Hn).
  pose proof (half_interval_bounds p ltac:(lia)).
  unfold fresh_due, slot_due. rewrite En. unfold duration_saturating_add.
  split; intros Hd%Z.leb_le; lia.
Qed.

Lemma pacer_rate_bound_witness :
  exists p, submit_run (ArrivalPacer_new 16) [100; 110; 130] = Some p /\ 148 <= 140 + half_interval p.
Proof.
  eexists. split; [reflexivity|].
  apply (pacer_rate_bound 16 100 140 [110; 130] _ ltac:(lia) ltac:(lia) eq_refl). reflexivity.
Defined.

(** The arrival pacer loses no frame of a source that runs at the contract
    rate with up to a whole interval of arrival jitter: if frame [m] arrives
    within half an interval of its nominal instant and each frame is submitted
    as soon as it is due, then every frame is submitted no later than the next
    one arrives, and the delay does not accumulate. *)
Theorem pacer_no_loss (i phase jitter : Z) (arrivals : list Z) :
  0 <= jitter -> 2 * jitter <= i -> jitter <= phase ->
  phase + len arrivals * i + jitter <= DURATION_MAX ->
  (forall m a, arrivals !! m = Some a ->
     phase + Z.of_nat m * i - jitter <= a <= phase + Z.of_nat m * i + jitter) ->
  forall m a s, arrivals !! m = Some a ->
    submit_arrivals (ArrivalPacer_new i) arrivals !! m = Some s ->
    a <= s <= phase + Z.of_nat m * i + jitter /\
    (forall a', arrivals !! S m = Some a' -> s <= a').
Proof.
  intros Hj Hij Hph Hmax Ha m a s Hm Hs.
  pose proof (submit_arrivals_no_loss i phase jitter 0 arrivals (ArrivalPacer_new i)
    ltac:(lia) Hj Hij eq_refl ltac:(lia) Hph ltac:(lia) ltac:(done) Ha m a s Hm Hs) as B.
  rewrite Z.add_0_l in B. split; [done|].
  intros a' Ha'. specialize (Ha (S m) a' Ha'). lia.
Qed.

Lemma pacer_no_loss_witness :
  submit_arrivals (ArrivalPacer_new 16) [95; 120; 124; 155] !! 2%nat = Some 128 /\ 128 <= 155.
Proof.
  split; [reflexivity|].
  refine (proj2 (pacer_no_loss 16 100 8 [95; 120; 124; 155] ltac:(lia) ltac:(lia) ltac:(lia)
    ltac:(vm_compute; congruence) _ 2%nat 124 128 eq_refl eq_refl) 155 eq_refl).
  intros m a Hm. do 4 (destruct m as [|m]; [injection Hm as <-; lia|]). done.
Defined.
