(* ===== verification/KeelActivity.v ===== *)
(** * Keel: content activity

    Models [shared/keel/src/activity.rs]: fixed-point dirty ratios, the
    eight-sample rolling window, activity classification and the activity grid
    that combines them with a damage tracker.  The [f64] view of a ratio is
    left out. *)

From S2P Require Import Prelude KeelGrid KeelDamage.

Definition ACTIVITY_ROLLING_WINDOW : Z := 8.
Definition DIRTY_RATIO_BASIS_POINTS : Z := 10000.
Definition FULL_MOTION_ROLLING_BASIS_POINTS : Z := 6000.
Definition FULL_MOTION_INSTANT_BASIS_POINTS : Z := 7500.
Definition SCROLL_MIN_DIRTY_BASIS_POINTS : Z := 1250.
Definition SCROLL_MIN_ROW_BASIS_POINTS : Z := 5000.

Inductive ActivityClass := Idle | Sparse | Scroll | FullMotion.
Inductive ActivityHint := HintNone | HintScroll.
Inductive CadenceRecommendation :=
| RKeepalive | RImmediate | RResponsive | RSmooth | RContinuous.

#[global] Instance ActivityClass_eq_dec : EqDecision ActivityClass.
Proof. solve_decision. Defined.
#[global] Instance ActivityHint_eq_dec : EqDecision ActivityHint.
Proof. solve_decision. Defined.

(** [DirtyRatio] wraps its basis points. *)
Definition from_basis_points (value : Z) : option Z :=
  if value <=? DIRTY_RATIO_BASIS_POINTS then Some value else None.

Definition from_counts (dirty total : Z) : Z :=
  if (dirty =? 0) || (total =? 0) then 0
  else
    let scale := DIRTY_RATIO_BASIS_POINTS in
    let rounded := (dirty * scale + total / 2) / total in
    Z.min rounded scale.

Record ActivityDiagnostics := mkDiagnostics {
  update_sequence : Z;
  summary : DamageSummary;
  current_dirty_ratio : Z;
  rolling_dirty_ratio : Z;
  activity_class : ActivityClass;
  activity_cadence : CadenceRecommendation;
  rolling_samples : Z;
  class_streak : Z;
  baseline_refresh : bool
}.

Definition ActivityDiagnostics_initial (g : BlockGrid) : ActivityDiagnostics :=
  mkDiagnostics 0 (mkDamageSummary 0 (block_count g) 0 (blocks_tall g)) 0 0
    Idle RKeepalive 0 0 false.

Record RollingRatios := mkRolling {
  roll_values : list Z;
  roll_sum : Z;
  roll_next : Z;
  roll_len : Z
}.

Definition RollingRatios_new : RollingRatios := mkRolling (replicate 8 0) 0 0 0.

Definition rolling_push (r : RollingRatios) (ratio : Z) : RollingRatios :=
  let full := roll_len r =? ACTIVITY_ROLLING_WINDOW in
  let sum := if full then roll_sum r - nth (Z.to_nat (roll_next r)) (roll_values r) 0
             else roll_sum r in
  let length := if full then roll_len r else roll_len r + 1 in
  mkRolling (<[Z.to_nat (roll_next r) := ratio]> (roll_values r))
    (sum + ratio) ((roll_next r + 1) mod ACTIVITY_ROLLING_WINDOW) length.

Definition rolling_ratio (r : RollingRatios) : Z :=
  if roll_len r =? 0 then 0
  else
    let count := roll_len r in
    let rounded := (roll_sum r + count / 2) / count in
    if rounded <=? umax 16 then rounded else DIRTY_RATIO_BASIS_POINTS.

Definition cadence_for_class (c : ActivityClass) : CadenceRecommendation :=
  match c with
  | Idle => RKeepalive
  | Sparse => RResponsive
  | Scroll => RSmooth
  | FullMotion => RContinuous
  end.

Definition classify (s : DamageSummary) (current rolling : Z) (hint : ActivityHint) : ActivityClass :=
  if is_clean s then Idle
  else if bool_decide (hint = HintScroll) then Scroll
  else if (FULL_MOTION_INSTANT_BASIS_POINTS <=? current)
          || (FULL_MOTION_ROLLING_BASIS_POINTS <=? rolling) then FullMotion
  else
    let dirty_row_ratio := from_counts (dirty_block_rows s) (total_block_rows s) in
    if (SCROLL_MIN_DIRTY_BASIS_POINTS <=? current)
       && (SCROLL_MIN_ROW_BASIS_POINTS <=? dirty_row_ratio)
    then Scroll else Sparse.

Record ActivityGrid := mkActivityGrid {
  act_damage : DamageTracker;
  act_rolling : RollingRatios;
  act_diagnostics : ActivityDiagnostics;
  act_has_baseline : bool
}.

Definition from_damage_tracker (t : DamageTracker) : ActivityGrid :=
  mkActivityGrid t RollingRatios_new (ActivityDiagnostics_initial (tracker_grid t)) false.

Definition ActivityGrid_new (width height : Z) (p : KernelPreference) : result KeelError ActivityGrid :=
  t ← DamageTracker_new width height p;
  Ok (from_damage_tracker t).

Definition ActivityGrid_reset (a : ActivityGrid) : ActivityGrid :=
  mkActivityGrid (DamageTracker_reset (act_damage a)) RollingRatios_new
    (ActivityDiagnostics_initial (tracker_grid (act_damage a))) false.

Section Update.
Context (xxh3 : list Z -> Z -> Z) (crc : Z -> list Z -> Z).

Definition update_with_hint (a : ActivityGrid) (f : BgraFrame) (hint : ActivityHint)
  : ActivityGrid * result KeelError ActivityDiagnostics :=
  let '(damage, r) := DamageTracker_update xxh3 crc (act_damage a) f in
  match r with
  | Err e =>
    (mkActivityGrid damage (act_rolling a) (act_diagnostics a) (act_has_baseline a), Err e)
  | Ok s =>
    let refresh := negb (act_has_baseline a) in
    let current := from_counts (dirty_blocks s) (total_blocks s) in
    let rolling := if refresh then act_rolling a else rolling_push (act_rolling a) current in
    let rolling_dirty := rolling_ratio rolling in
    let class := if refresh then FullMotion else classify s current rolling_dirty hint in
    let cad := if refresh then RImmediate else cadence_for_class class in
    let old := act_diagnostics a in
    let streak :=
      if negb (update_sequence old =? 0) && bool_decide (activity_class old = class)
      then saturating_add 16 (class_streak old) 1 else 1 in
    let diag := mkDiagnostics (saturating_add 64 (update_sequence old) 1) s current rolling_dirty
                  class cad (roll_len rolling) streak refresh in
    (mkActivityGrid damage rolling diag true, Ok diag)
  end.

Definition ActivityGrid_update (a : ActivityGrid) (f : BgraFrame)
  : ActivityGrid * result KeelError ActivityDiagnostics :=
  update_with_hint a f HintNone.

(** A run of updates with the diagnostics each one returned, oldest first. *)
Fixpoint activity_run (a : ActivityGrid) (inputs : list (BgraFrame * ActivityHint))
  : ActivityGrid * list (result KeelError ActivityDiagnostics) :=
  match inputs with
  | [] => (a, [])
  | (f, hint) :: inputs =>
    let '(a, d) := update_with_hint a f hint in
    let '(a, ds) := activity_run a inputs in
    (a, d :: ds)
  end.
End Update.

(** ** Lemmas *)

Lemma from_counts_bounds d t :
  0 <= d <= t -> 0 <= from_counts d t <= DIRTY_RATIO_BASIS_POINTS.
Proof.
  intros H. unfold from_counts, DIRTY_RATIO_BASIS_POINTS.
  destruct (Z.eqb_spec d 0), (Z.eqb_spec t 0); cbn [orb]; try lia.
  assert (0 <= (d * 10000 + t / 2) / t); [|lia].
  apply Z.div_pos; [|lia]. pose proof (Z.div_pos t 2). lia.
Qed.

(** Specification of the rolling window over the whole history. *)
Definition last_samples (h : list Z) : list Z := drop (length h - 8) h.
Definition sumZ (l : list Z) : Z := foldr Z.add 0 l.
Definition rounded_mean (l : list Z) : Z :=
  if bool_decide (l = []) then 0 else (sumZ l + len l / 2) / len l.

Lemma sumZ_app l k : sumZ (l ++ k) = sumZ l + sumZ k.
Proof. unfold sumZ. induction l as [|x l IH]; cbn; [done|]. lia. Qed.

Record rolling_inv (h : list Z) (r : RollingRatios) : Prop := {
  ri_length : length (roll_values r) = 8%nat;
  ri_len : roll_len r = Z.min (len h) 8;
  ri_next : roll_next r = len h mod 8;
  ri_values : forall k, 0 <= k < len h -> len h - 8 <= k ->
    nth (Z.to_nat (k mod 8)) (roll_values r) 0 = byte_at h k;
  ri_sum : roll_sum r = sumZ (last_samples h)
}.

Lemma rolling_inv_new : rolling_inv [] RollingRatios_new.
Proof. constructor; try done. intros k Hk. unfold len in Hk. cbn in Hk. lia. Qed.

Lemma last_samples_snoc h v :
  last_samples (h ++ [v]) =
    if len h <? 8 then last_samples h ++ [v] else drop 1 (last_samples h) ++ [v].
Proof.
  unfold last_samples, len. rewrite length_app. cbn [length].
  destruct (Z.ltb_spec (Z.of_nat (length h)) 8).
  - replace (length h + 1 - 8)%nat with 0%nat by lia.
    replace (length h - 8)%nat with 0%nat by lia. done.
  - rewrite drop_drop, drop_app_le by lia. do 2 f_equal. lia.
Qed.

Lemma last_samples_head h :
  8 <= len h -> exists l, last_samples h = byte_at h (len h - 8) :: l.
Proof.
  intros Hl. unfold last_samples, byte_at, len in *.
  replace (Z.to_nat (Z.of_nat (length h) - 8)) with (length h - 8)%nat by lia.
  destruct (drop (length h - 8) h) as [|x l] eqn:E.
  - apply (f_equal length) in E. rewrite length_drop in E. cbn in E. lia.
  - exists l. f_equal. rewrite nth_lookup, <- (Nat.add_0_r (length h - 8)), <- lookup_drop, E. done.
Qed.

Lemma rolling_push_inv h r v :
  rolling_inv h r -> rolling_inv (h ++ [v]) (rolling_push r v).
Proof.
  intros [Hlen Hl Hn Hv Hs]. unfold rolling_push, ACTIVITY_ROLLING_WINDOW. cbv zeta.
  pose proof (len_nonneg h). pose proof (Z.mod_pos_bound (len h) 8 ltac:(lia)) as Hm.
  pose proof (Z.div_mod (len h) 8 ltac:(lia)) as Hdm.
  constructor; cbn [roll_values roll_len roll_next roll_sum]; rewrite ?len_app, ?len_cons;
    change (len (@nil Z)) with 0.
  - by rewrite length_insert.
  - destruct (Z.eqb_spec (roll_len r) 8); lia.
  - by rewrite Hn, Z.add_mod_idemp_l by lia.
  - intros k Hk Hk'. rewrite Hn.
    pose proof (Z.mod_pos_bound k 8 ltac:(lia)). pose proof (Z.div_mod k 8 ltac:(lia)).
    rewrite nth_insert_Z by (unfold len in *; lia). unfold byte_at.
    destruct (decide (k = len h)) as [->|].
    + rewrite Z.eqb_refl. unfold len. by rewrite Nat2Z.id, nth_middle.
    + rewrite app_nth1 by (unfold len in *; lia).
      destruct (Z.eqb_spec (k mod 8) (len h mod 8)); [lia|]. apply Hv; lia.
  - rewrite last_samples_snoc, Hl.
    destruct (Z.ltb_spec (len h) 8), (Z.eqb_spec (Z.min (len h) 8) 8); try lia;
      rewrite sumZ_app, Hs; [cbn; rewrite ?drop_0; lia|].
    destruct (last_samples_head h ltac:(lia)) as [l El].
    rewrite Hn. replace (len h mod 8) with ((len h - 8) mod 8).
    + rewrite Hv, El by lia. unfold sumZ. cbn [foldr drop]. rewrite ?drop_0. cbn. lia.
    + replace (len h - 8) with (len h + (-1) * 8) by lia. apply Z_mod_plus_full.
Qed.

Lemma sumZ_bounds l : Forall (fun x => 0 <= x <= DIRTY_RATIO_BASIS_POINTS) l ->
  0 <= sumZ l <= DIRTY_RATIO_BASIS_POINTS * len l.
Proof.
  unfold sumZ, DIRTY_RATIO_BASIS_POINTS. induction 1 as [|x l H _ IH]; [done|].
  rewrite len_cons. cbn [foldr]. lia.
Qed.

Lemma last_samples_len h : len (last_samples h) = Z.min (len h) 8.
Proof. unfold last_samples, len. rewrite length_drop. lia. Qed.

Lemma rounded_mean_bounds l :
  Forall (fun x => 0 <= x <= DIRTY_RATIO_BASIS_POINTS) l ->
  0 <= rounded_mean l <= DIRTY_RATIO_BASIS_POINTS.
Proof.
  intros H. pose proof (sumZ_bounds _ H). unfold rounded_mean, DIRTY_RATIO_BASIS_POINTS in *.
  case_bool_decide; [lia|]. assert (0 < len l) by (destruct l; [done|rewrite len_cons; pose proof (len_nonneg l); lia]).
  pose proof (Z.div_mod (len l) 2 ltac:(lia)). pose proof (Z.mod_pos_bound (len l) 2 ltac:(lia)).
  split; [apply Z.div_pos; lia|]. apply Z.lt_succ_r, Z.div_lt_upper_bound; lia.
Qed.

Lemma rolling_ratio_mean h r :
  rolling_inv h r -> Forall (fun x => 0 <= x <= DIRTY_RATIO_BASIS_POINTS) h ->
  rolling_ratio r = rounded_mean (last_samples h) /\ 0 <= rolling_ratio r <= DIRTY_RATIO_BASIS_POINTS.
Proof.
  intros Hr Hh. assert (Hb : Forall (fun x => 0 <= x <= DIRTY_RATIO_BASIS_POINTS) (last_samples h)).
  { by apply Forall_drop. }
  pose proof (rounded_mean_bounds _ Hb) as Hm.
  assert (E : rolling_ratio r = rounded_mean (last_samples h)); [|by rewrite E].
  unfold rolling_ratio, rounded_mean in *.
  rewrite (ri_len _ _ Hr), (ri_sum _ _ Hr), <- last_samples_len.
  destruct (last_samples h) as [|x l] eqn:El; [done|]. rewrite <- El in *.
  assert (last_samples h <> []) by (rewrite El; done).
  rewrite bool_decide_eq_false_2 in * by done.
  assert (0 < len (last_samples h)) by (rewrite El, len_cons; pose proof (len_nonneg l); lia).
  destruct (Z.eqb_spec (len (last_samples h)) 0); [lia|]. cbv zeta.
  unfold DIRTY_RATIO_BASIS_POINTS in *.
  by rewrite (proj2 (Z.leb_le _ (umax 16))) by (change (umax 16) with 65535; lia).
Qed.

Lemma rolling_run_inv h0 r0 h :
  rolling_inv h0 r0 -> rolling_inv (h0 ++ h) (foldl rolling_push r0 h).
Proof.
  revert h0 r0. induction h as [|x h IH]; intros h0 r0 H; cbn; [by rewrite app_nil_r|].
  rewrite cons_middle, app_assoc. by apply IH, rolling_push_inv.
Qed.

(** What one diagnostics record must say after the records [past] of the same
    baseline: the specification of the activity grid. *)
Record diag_ok (past : list ActivityDiagnostics) (d : ActivityDiagnostics) : Prop := {
  do_seq : update_sequence d = Z.min (len past + 1) (umax 64);
  do_baseline : baseline_refresh d = bool_decide (past = []);
  do_current : current_dirty_ratio d = from_counts (dirty_blocks (summary d)) (total_blocks (summary d));
  do_samples : rolling_samples d = Z.min (len past) 8;
  do_rolling : rolling_dirty_ratio d =
    rounded_mean (last_samples (drop 1 (map current_dirty_ratio (past ++ [d]))));
  do_bounds : 0 <= current_dirty_ratio d <= DIRTY_RATIO_BASIS_POINTS /\
    0 <= rolling_dirty_ratio d <= DIRTY_RATIO_BASIS_POINTS;
  do_first : past = [] -> activity_class d = FullMotion /\ activity_cadence d = RImmediate;
  do_later : past <> [] ->
    activity_cadence d = cadence_for_class (activity_class d) /\
    (activity_class d = Idle <-> dirty_blocks (summary d) = 0)
}.

Record act_inv (g : BlockGrid) (past : list ActivityDiagnostics) (a : ActivityGrid) : Prop := {
  ai_wf : tracker_wf (act_damage a);
  ai_grid : tracker_grid (act_damage a) = g;
  ai_roll : rolling_inv (drop 1 (map current_dirty_ratio past)) (act_rolling a);
  ai_bounds : Forall (fun d => 0 <= current_dirty_ratio d <= DIRTY_RATIO_BASIS_POINTS) past;
  ai_seq : update_sequence (act_diagnostics a) = Z.min (len past) (umax 64);
  ai_base : act_has_baseline a = negb (bool_decide (past = []))
}.

Lemma act_inv_new w h p a :
  is_usize w -> is_usize h -> ActivityGrid_new w h p = Ok a ->
  act_inv (tracker_grid (act_damage a)) [] a.
Proof.
  intros Hw Hh. unfold ActivityGrid_new. destruct (DamageTracker_new w h p) as [t|e] eqn:E; [|done]. cbn.
  intros [= <-]. apply DamageTracker_new_wf in E as (? & _ & _); [|done..].
  constructor; try done. apply rolling_inv_new.
Qed.

Lemma act_inv_reset g past a : act_inv g past a -> act_inv g [] (ActivityGrid_reset a).
Proof.
  intros H. constructor; try done; cbn.
  - apply DamageTracker_reset_wf, H.
  - apply (ai_grid _ _ _ H).
  - apply rolling_inv_new.
Qed.

Lemma classify_idle s c r hint : classify s c r hint = Idle <-> dirty_blocks s = 0.
Proof.
  unfold classify, is_clean. destruct (Z.eqb_spec (dirty_blocks s) 0); [naive_solver|].
  case_bool_decide; [naive_solver|]. cbv zeta. repeat case_match; naive_solver.
Qed.

Lemma drop1_snoc {A} (l : list A) x : l <> [] -> drop 1 (l ++ [x]) = drop 1 l ++ [x].
Proof. by destruct l. Qed.

Lemma map_neq_nil {A B} (f : A -> B) l : l <> [] -> map f l <> [].
Proof. by destruct l. Qed.

Lemma len_filter_range (P : Z -> Prop) `{!forall i, Decision (P i)} n :
  0 <= n -> len (filter P (range n)) <= n.
Proof.
  intros Hn. unfold len. pose proof (length_filter P (range n)) as Hf.
  unfold range in *. rewrite length_seqZ in Hf. lia.
Qed.

Section UpdateLemmas.
Context (xxh3 : list Z -> Z -> Z) (crc : Z -> list Z -> Z).

Lemma update_with_hint_ok g past a f hint :
  act_inv g past a -> frame_grid f = g ->
  exists a' d, update_with_hint xxh3 crc a f hint = (a', Ok d) /\
    act_inv g (past ++ [d]) a' /\ diag_ok past d /\ act_diagnostics a' = d.
Proof.
  intros Ha Hf. pose proof Ha as [Hw Hg Hr Hb Hs Hbase].
  destruct (DamageTracker_update_spec xxh3 crc (act_damage a) f Hw) as (t' & s & E & Hw' & _ & Hg' & _ & _ & Es);
    [congruence|].
  unfold update_with_hint. rewrite E, Hbase, negb_involutive, Hs. cbv zeta.
  set (current := from_counts (dirty_blocks s) (total_blocks s)).
  assert (Hc : 0 <= current <= DIRTY_RATIO_BASIS_POINTS).
  { apply from_counts_bounds. subst s. cbn. split; [apply len_nonneg|].
    apply len_filter_range. pose proof (block_count_pos _ (wf_tracker_grid _ Hw)). lia. }
  assert (Hroll : rolling_inv (drop 1 (map current_dirty_ratio past ++ [current]))
    (if bool_decide (past = []) then act_rolling a else rolling_push (act_rolling a) current)).
  { case_bool_decide as Hp; [by subst past|].
    rewrite drop1_snoc by (by apply map_neq_nil). by apply rolling_push_inv. }
  assert (Hall : Forall (fun x => 0 <= x <= DIRTY_RATIO_BASIS_POINTS)
                   (drop 1 (map current_dirty_ratio past ++ [current]))).
  { apply Forall_drop, Forall_app. split; [|by constructor].
    apply Forall_map. exact Hb. }
  destruct (rolling_ratio_mean _ _ Hroll Hall) as [Em Hm].
  pose proof (ri_len _ _ Hroll) as El.
  pose proof (len_nonneg past).
  assert (Esat : saturating_add 64 (Z.min (len past) (umax 64)) 1 = Z.min (len past + 1) (umax 64)).
  { unfold saturating_add. lia. }
  eexists _, _. split; [reflexivity|]. split_and!; [|constructor|reflexivity]; cbn.
  - constructor; cbn; auto; try congruence.
    + rewrite map_app. exact Hroll.
    + apply Forall_app. split; [done|by constructor].
    + rewrite Esat, len_app, len_cons. by change (len (@nil ActivityDiagnostics)) with 0.
    + by rewrite bool_decide_eq_false_2 by (by destruct past).
  - exact Esat.
  - reflexivity.
  - reflexivity.
  - rewrite El. unfold len in *. rewrite length_drop, length_app, length_map. cbn [length]. lia.
  - by rewrite Em, map_app.
  - done.
  - intros ->. done.
  - intros Hp. rewrite bool_decide_eq_false_2 by done. split; [done|]. apply classify_idle.
Qed.

(** The diagnostics a run delivered, errors left out. *)
Definition delivered (ds : list (result KeelError ActivityDiagnostics)) : list ActivityDiagnostics :=
  omap (fun r => match r with Ok d => Some d | Err _ => None end) ds.

Lemma activity_run_spec g inputs : forall past a,
  act_inv g past a ->
  exists a' ds, activity_run xxh3 crc a inputs = (a', ds) /\
    act_inv g (past ++ delivered ds) a' /\
    (forall k d, delivered ds !! k = Some d -> diag_ok (past ++ take k (delivered ds)) d) /\
    (forall k f hint, inputs !! k = Some (f, hint) ->
       (frame_grid f = g -> exists d, ds !! k = Some (Ok d)) /\
       (frame_grid f <> g -> ds !! k = Some (Err (GeometryChanged g (frame_grid f))))).
Proof.
  induction inputs as [|[f hint] inputs IH]; intros past a Ha; cbn.
  - exists a, []. split_and!; [done|by rewrite app_nil_r|done|done].
  - destruct (decide (frame_grid f = g)) as [Hf|Hf].
    + destruct (update_with_hint_ok g past a f hint Ha Hf) as (a1 & d & -> & Ha1 & Hd & _).
      destruct (IH _ _ Ha1) as (a2 & ds & -> & Ha2 & Hds & Hin).
      exists a2, (Ok d :: ds). split_and!; [done| | |].
      * by rewrite <- app_assoc in Ha2.
      * intros [|k] d' Hk; cbn in *.
        -- rewrite app_nil_r. by simplify_eq.
        -- specialize (Hds k d' Hk). by rewrite <- app_assoc in Hds.
      * intros [|k] f' hint' Hk; cbn in *; [|by eapply Hin].
        simplify_eq. split; [by eexists|done].
    + unfold update_with_hint.
      rewrite (DamageTracker_update_geometry xxh3 crc) by (by rewrite (ai_grid _ _ _ Ha)).
      replace (mkActivityGrid _ _ _ _) with a by (by destruct a).
      destruct (IH _ _ Ha) as (a2 & ds & -> & Ha2 & Hds & Hin).
      exists a2, (Err (GeometryChanged (tracker_grid (act_damage a)) (frame_grid f)) :: ds).
      split_and!; [done|done|done|].
      rewrite (ai_grid _ _ _ Ha).
      intros [|k] f' hint' Hk; cbn in *; [|by eapply Hin]. by simplify_eq.
Qed.
End UpdateLemmas.

(** ** Properties *)

(** The rolling window is exact: after any pushes its length is the number
    of samples capped at eight, its sum is the sum of the last eight samples
    (so the running [u32] subtraction and addition neither underflow nor
    overflow), and its ratio is their rounded mean, at most 100%. *)
Theorem rolling_window_exact (h : list Z) :
  Forall (fun x => 0 <= x <= DIRTY_RATIO_BASIS_POINTS) h ->
  let r := foldl rolling_push RollingRatios_new h in
  roll_len r = Z.min (len h) ACTIVITY_ROLLING_WINDOW /\
  roll_sum r = sumZ (last_samples h) /\ 0 <= roll_sum r <= 80000 /\
  rolling_ratio r = rounded_mean (last_samples h) /\
  0 <= rolling_ratio r <= DIRTY_RATIO_BASIS_POINTS.
Proof.
  intros Hh r. pose proof (rolling_run_inv [] _ h rolling_inv_new) as Hr. cbn [app] in Hr. fold r in Hr.
  destruct (rolling_ratio_mean _ _ Hr Hh) as [Em Hm].
  assert (Hl : Forall (fun x => 0 <= x <= DIRTY_RATIO_BASIS_POINTS) (last_samples h)) by (by apply Forall_drop).
  pose proof (sumZ_bounds _ Hl). rewrite last_samples_len in *. unfold DIRTY_RATIO_BASIS_POINTS in *.
  pose proof (ri_len _ _ Hr). pose proof (ri_sum _ _ Hr). unfold ACTIVITY_ROLLING_WINDOW.
  split_and!; (done || lia).
Qed.

Lemma rolling_window_exact_witness :
  rolling_ratio (foldl rolling_push RollingRatios_new [0; 1; 2; 3; 4; 5; 6; 7; 8; 9]) = 6.
Proof.
  destruct (rolling_window_exact [0; 1; 2; 3; 4; 5; 6; 7; 8; 9]) as (_ & _ & _ & E & _).
  - repeat constructor; vm_compute; congruence.
  - rewrite E. reflexivity.
Defined.

(** Over any run of updates after construction, a frame of another
    geometry is refused with [GeometryChanged] and leaves no trace, and every
    other update is delivered with consistent diagnostics: the first one is
    the immediate full-motion baseline and stays out of the rolling window,
    later ones report the sample count, the rounded mean of the last eight
    post-baseline ratios, and [Idle] exactly when no block is dirty. *)
Theorem activity_run_consistent (xxh3 : list Z -> Z -> Z) (crc : Z -> list Z -> Z)
    w h p a inputs :
  is_usize w -> is_usize h -> ActivityGrid_new w h p = Ok a ->
  let g := tracker_grid (act_damage a) in
  exists a' ds, activity_run xxh3 crc a inputs = (a', ds) /\
    (forall k d, delivered ds !! k = Some d -> diag_ok (take k (delivered ds)) d) /\
    (forall k f hint, inputs !! k = Some (f, hint) ->
       (frame_grid f = g -> exists d, ds !! k = Some (Ok d)) /\
       (frame_grid f <> g -> ds !! k = Some (Err (GeometryChanged g (frame_grid f))))).
Proof.
  intros Hw Hh Hnew g.
  destruct (activity_run_spec xxh3 crc g inputs [] a (act_inv_new _ _ _ _ Hw Hh Hnew))
    as (a' & ds & E & _ & Hd & Hi).
  by exists a', ds.
Qed.

Lemma activity_run_consistent_witness :
  exists a a' d1 d2, ActivityGrid_new 8 8 PreferXxh3 = Ok a /\
    activity_run toy_xxh3 toy_crc a [(toy_frame 1, HintNone); (toy_frame 1, HintScroll)]
      = (a', [Ok d1; Ok d2]) /\ diag_ok [] d1 /\ diag_ok [d1] d2 /\ activity_class d2 = Idle.
Proof.
  destruct (ActivityGrid_new 8 8 PreferXxh3) as [a|e] eqn:E; [|vm_compute in E; discriminate].
  destruct (activity_run_consistent toy_xxh3 toy_crc 8 8 PreferXxh3 a
              [(toy_frame 1, HintNone); (toy_frame 1, HintScroll)]) as (a' & ds & R & Hd & _);
    [unfold is_usize, in_width; vm_compute; split; congruence..|exact E|].
  vm_compute in E. injection E as <-. vm_compute in R. injection R as <- <-.
  eexists _, _, _, _. split; [reflexivity|]. split; [vm_compute; reflexivity|]. split_and!.
  - exact (Hd 0%nat _ eq_refl).
  - exact (Hd 1%nat _ eq_refl).
  - reflexivity.
Defined.
