(* ===== verification/UsbDescriptor.v ===== *)
(** * USB bridge: descriptors and device policy

    Models [shared/usb-bridge/src/types.rs], [descriptor.rs] and [policy.rs]:
    the bounded parser of USB configuration descriptors and the exact-profile
    policy applied to what it parsed.  The parser indexes the byte slice
    directly, so the model reads with [read_at] and a panic is [None]; the loop
    runs on fuel and running out is [None] too. *)

From S2P Require Import Prelude.
From stdpp Require Import strings.
Open Scope Z_scope.
Open Scope list_scope.

(** ** Types *)

Definition MAX_CONFIGURATION_DESCRIPTOR_BYTES : Z := 4 * 1024.
Definition MAX_INTERFACES : Z := 16.
Definition MAX_ENDPOINTS : Z := 32.
Definition DESCRIPTOR_CONFIGURATION : Z := 2.
Definition DESCRIPTOR_INTERFACE : Z := 4.
Definition DESCRIPTOR_ENDPOINT : Z := 5.

Inductive TransferDirection := DirIn | DirOut.
Inductive TransferKind := Control | Interrupt.

#[global] Instance TransferDirection_eq_dec : EqDecision TransferDirection.
Proof. solve_decision. Defined.
#[global] Instance TransferKind_eq_dec : EqDecision TransferKind.
Proof. solve_decision. Defined.

(** An [EndpointAddress] is its byte. *)
Definition endpoint_direction (address : Z) : TransferDirection :=
  if Z.land address 128 =? 0 then DirOut else DirIn.
Definition endpoint_number (address : Z) : Z := Z.land address 15.

Record EndpointDescriptor := mkEndpoint {
  ep_address : Z;
  ep_transfer_kind : TransferKind;
  max_packet_size : Z;
  interval : Z
}.

Record InterfaceDescriptor := mkInterface {
  if_number : Z;
  if_alternate_setting : Z;
  if_class : Z;
  if_subclass : Z;
  if_protocol : Z;
  if_endpoints : list EndpointDescriptor
}.

Record ParsedConfiguration := mkParsed {
  configuration_value : Z;
  interfaces : list InterfaceDescriptor
}.

Inductive DescriptorError :=
| TooLarge (actual maximum : Z)
| Truncated
| InvalidLength (offset length : Z)
| MissingConfiguration
| InvalidConfigurationHeader
| InterfaceLimit
| EndpointLimit
| EndpointBeforeInterface
| UnsupportedTransferType (kind : Z)
| EndpointDirectionMismatch.

#[global] Instance EndpointDescriptor_eq_dec : EqDecision EndpointDescriptor.
Proof. solve_decision. Defined.
#[global] Instance InterfaceDescriptor_eq_dec : EqDecision InterfaceDescriptor.
Proof. solve_decision. Defined.

(** ** The parser *)

(** [parsed] and [endpoint_count] of the loop. *)
Record ParseState := mkParseState {
  ps_interfaces : list InterfaceDescriptor;
  ps_endpoint_count : Z
}.

(** [interfaces.last_mut()] followed by [endpoints.push]. *)
Fixpoint push_endpoint (l : list InterfaceDescriptor) (e : EndpointDescriptor)
  : list InterfaceDescriptor :=
  match l with
  | [] => []
  | [i] => [mkInterface (if_number i) (if_alternate_setting i) (if_class i) (if_subclass i)
              (if_protocol i) (if_endpoints i ++ [e])]
  | i :: l => i :: push_endpoint l e
  end.

Definition parse_interface (bytes : list Z) (offset length : Z) (st : ParseState)
  : option (result DescriptorError ParseState) :=
  if length <? 9 then Some (Err (InvalidLength offset length))
  else if MAX_INTERFACES <=? len (ps_interfaces st) then Some (Err InterfaceLimit)
  else
    number ← read_at bytes (offset + 2);
    alternate ← read_at bytes (offset + 3);
    class ← read_at bytes (offset + 5);
    subclass ← read_at bytes (offset + 6);
    protocol ← read_at bytes (offset + 7);
    Some (Ok (mkParseState
      (ps_interfaces st ++ [mkInterface number alternate class subclass protocol []])
      (ps_endpoint_count st))).

Definition parse_endpoint (bytes : list Z) (offset length : Z) (st : ParseState)
  : option (result DescriptorError ParseState) :=
  if length <? 7 then Some (Err (InvalidLength offset length))
  else
    let endpoint_count := saturating_add usize_bits (ps_endpoint_count st) 1 in
    if MAX_ENDPOINTS <? endpoint_count then Some (Err EndpointLimit)
    else if bool_decide (ps_interfaces st = []) then Some (Err EndpointBeforeInterface)
    else
      address ← read_at bytes (offset + 2);
      if endpoint_number address =? 0 then Some (Err EndpointDirectionMismatch)
      else
        attr ← read_at bytes (offset + 3);
        let attributes := Z.land attr 3 in
        if negb (attributes =? 3) then Some (Err (UnsupportedTransferType attributes))
        else
          low ← read_at bytes (offset + 4);
          high ← read_at bytes (offset + 5);
          iv ← read_at bytes (offset + 6);
          Some (Ok (mkParseState
            (push_endpoint (ps_interfaces st) (mkEndpoint address Interrupt (from_le [low; high]) iv))
            endpoint_count)).

(** One iteration of the loop: the next offset and state. *)
Definition descriptor_step (bytes : list Z) (declared_total offset : Z) (st : ParseState)
  : option (result DescriptorError (Z * ParseState)) :=
  match read_at bytes offset with
  | None => Some (Err Truncated)
  | Some length =>
    if (length <? 2) || (declared_total <? saturating_add usize_bits offset length)
    then Some (Err (InvalidLength offset length))
    else
      descriptor_type ← read_at bytes (offset + 1);
      r ← (if (descriptor_type =? DESCRIPTOR_CONFIGURATION) && (offset =? 0) then Some (Ok st)
           else if descriptor_type =? DESCRIPTOR_INTERFACE then parse_interface bytes offset length st
           else if descriptor_type =? DESCRIPTOR_ENDPOINT then parse_endpoint bytes offset length st
           else Some (Ok st));
      Some (match r with Ok st => Ok (offset + length, st) | Err e => Err e end)
  end.

Fixpoint descriptor_loop (fuel : nat) (bytes : list Z) (declared_total offset : Z) (st : ParseState)
  : option (result DescriptorError ParseState) :=
  match fuel with
  | O => None
  | S fuel =>
    if offset <? declared_total then
      r ← descriptor_step bytes declared_total offset st;
      match r with
      | Err e => Some (Err e)
      | Ok (offset, st) => descriptor_loop fuel bytes declared_total offset st
      end
    else Some (Ok st)
  end.

Definition parse_configuration_descriptor (bytes : list Z)
  : option (result DescriptorError ParsedConfiguration) :=
  if MAX_CONFIGURATION_DESCRIPTOR_BYTES <? len bytes
  then Some (Err (TooLarge (len bytes) MAX_CONFIGURATION_DESCRIPTOR_BYTES))
  else if len bytes <? 9 then Some (Err Truncated)
  else
    b0 ← read_at bytes 0;
    b1 ← read_at bytes 1;
    if negb (b0 =? 9) || negb (b1 =? DESCRIPTOR_CONFIGURATION)
    then Some (Err InvalidConfigurationHeader)
    else
      b2 ← read_at bytes 2;
      b3 ← read_at bytes 3;
      let declared_total := from_le [b2; b3] in
      if (declared_total <? 9) || (len bytes <? declared_total) then Some (Err Truncated)
      else
        b5 ← read_at bytes 5;
        r ← descriptor_loop (S (length bytes)) bytes declared_total 0 (mkParseState [] 0);
        Some (match r with
              | Err e => Err e
              | Ok st =>
                if bool_decide (ps_interfaces st = []) then Err MissingConfiguration
                else Ok (mkParsed b5 (ps_interfaces st))
              end).

(** ** Policy *)

Record UsbDeviceId := mkDeviceId { vendor_id : Z; product_id : Z; bcd_device : Z }.

Record InterfaceRule := mkRule {
  rule_number : Z;
  rule_alternate_setting : Z;
  rule_class : Z;
  rule_subclass : Z;
  rule_protocol : Z
}.

Record DeviceProfile := mkProfile {
  profile_name : string;
  profile_vendor_id : Z;
  profile_product_id : Z;
  minimum_bcd_device : Z;
  maximum_bcd_device : Z;
  profile_interfaces : list InterfaceRule
}.

Record DeviceSnapshot := mkSnapshot {
  snap_id : UsbDeviceId;
  device_class : Z;
  configuration : ParsedConfiguration
}.

Record PolicyDecision := mkDecision {
  decided_profile_name : string;
  decided_configuration_value : Z
}.

Inductive PolicyDenial :=
| Disabled
| IdentityMismatch
| DeviceRevisionMismatch
| ProhibitedDeviceClass (class : Z)
| ProhibitedInterfaceClass (class : Z)
| InterfaceCountMismatch
| UnexpectedInterface (number alternate_setting : Z)
| MissingInterface (number alternate_setting : Z).

#[global] Instance InterfaceRule_eq_dec : EqDecision InterfaceRule.
Proof. solve_decision. Defined.

Definition is_permanently_prohibited_class (class : Z) : bool :=
  existsb (Z.eqb class) [1; 2; 6; 7; 8; 9; 10; 11; 14; 220; 224; 254].

Definition rule_matches (rule : InterfaceRule) (i : InterfaceDescriptor) : bool :=
  (rule_number rule =? if_number i)
  && (rule_alternate_setting rule =? if_alternate_setting i)
  && (rule_class rule =? if_class i)
  && (rule_subclass rule =? if_subclass i)
  && (rule_protocol rule =? if_protocol i).

Definition check_interface (profile : DeviceProfile) (i : InterfaceDescriptor)
  : result PolicyDenial unit :=
  _ ← guard_err (is_permanently_prohibited_class (if_class i)) (ProhibitedInterfaceClass (if_class i));
  guard_err (negb (existsb (fun rule => rule_matches rule i) (profile_interfaces profile)))
    (UnexpectedInterface (if_number i) (if_alternate_setting i)).

Definition check_rule (snapshot : DeviceSnapshot) (rule : InterfaceRule) : result PolicyDenial unit :=
  guard_err (negb (existsb (rule_matches rule) (interfaces (configuration snapshot))))
    (MissingInterface (rule_number rule) (rule_alternate_setting rule)).

Definition evaluate_profile (enabled : bool) (profile : DeviceProfile) (snapshot : DeviceSnapshot)
  : result PolicyDenial PolicyDecision :=
  _ ← guard_err (negb enabled) Disabled;
  _ ← guard_err (negb (vendor_id (snap_id snapshot) =? profile_vendor_id profile)
                 || negb (product_id (snap_id snapshot) =? profile_product_id profile))
        IdentityMismatch;
  _ ← guard_err (negb ((minimum_bcd_device profile <=? bcd_device (snap_id snapshot))
                       && (bcd_device (snap_id snapshot) <=? maximum_bcd_device profile)))
        DeviceRevisionMismatch;
  _ ← guard_err (is_permanently_prohibited_class (device_class snapshot))
        (ProhibitedDeviceClass (device_class snapshot));
  _ ← guard_err (negb (len (interfaces (configuration snapshot)) =? len (profile_interfaces profile)))
        InterfaceCountMismatch;
  _ ← forM_err (check_interface profile) (interfaces (configuration snapshot));
  _ ← forM_err (check_rule snapshot) (profile_interfaces profile);
  Ok (mkDecision (profile_name profile) (configuration_value (configuration snapshot))).

(** ** Reference semantics of a configuration descriptor

    A configuration is a concatenation of records, each starting with its own
    length and type; [apply_record] says what one record after the header
    contributes, [None] standing for rejection. *)

Definition is_record (rec : list Z) : Prop := read_at rec 0 = Some (len rec) /\ 2 <= len rec.

Definition apply_record (rec : list Z) (st : ParseState) : option ParseState :=
  match rec with
  | _ :: ty :: body =>
    if ty =? DESCRIPTOR_INTERFACE then
      match body with
      | number :: alternate :: _ :: class :: subclass :: protocol :: _ :: _ =>
        if len (ps_interfaces st) <? MAX_INTERFACES
        then Some (mkParseState
                     (ps_interfaces st ++ [mkInterface number alternate class subclass protocol []])
                     (ps_endpoint_count st))
        else None
      | _ => None
      end
    else if ty =? DESCRIPTOR_ENDPOINT then
      match body with
      | address :: attributes :: low :: high :: iv :: _ =>
        if (ps_endpoint_count st <? MAX_ENDPOINTS) && negb (bool_decide (ps_interfaces st = []))
           && negb (endpoint_number address =? 0) && (Z.land attributes 3 =? 3)
        then Some (mkParseState
                     (push_endpoint (ps_interfaces st) (mkEndpoint address Interrupt (from_le [low; high]) iv))
                     (ps_endpoint_count st + 1))
        else None
      | _ => None
      end
    else Some st
  | _ => None
  end.

Fixpoint apply_records (recs : list (list Z)) (st : ParseState) : option ParseState :=
  match recs with
  | [] => Some st
  | rec :: recs => st ← apply_record rec st; apply_records recs st
  end.

Ltac read_record :=
  repeat match goal with
  | |- context [read_at (?pre ++ ?rec ++ ?post) (len ?pre + ?k)] =>
    rewrite (read_at_app pre rec post k) by (autorewrite with arcen; repeat (rewrite len_cons || rewrite len_nil); lia || (unfold len; cbn; lia))
  end.

Section StepLemmas.
Context (pre rec post : list Z) (total : Z).
Context (Hrec : is_record rec) (Htotal : len pre + len rec <= total <= umax 64).
Let bytes := pre ++ rec ++ post.

Lemma parse_interface_record st :
  forall l body, rec = l :: DESCRIPTOR_INTERFACE :: body ->
  match apply_record rec st with
  | Some st' => parse_interface bytes (len pre) (len rec) st = Some (Ok st')
  | None => exists e, parse_interface bytes (len pre) (len rec) st = Some (Err e)
  end.
Proof.
  intros l body E. unfold parse_interface, bytes. pose proof (len_nonneg pre).
  destruct (Z.ltb_spec (len rec) 9) as [Hs|Hs].
  - rewrite E in *. do 7 (destruct body as [|? body]; [by eexists|]). exfalso.
    rewrite !len_cons in Hs. pose proof (len_nonneg body). lia.
  - read_record. rewrite E in *. clear E. unfold read_at.
    do 7 (destruct body as [|? body]; [exfalso; unfold len in Hs; cbn in Hs; lia|]). cbn.
    destruct (Z.leb_spec MAX_INTERFACES (len (ps_interfaces st))), (Z.ltb_spec (len (ps_interfaces st)) MAX_INTERFACES);
      try lia; [by eexists|done].
Qed.

Lemma parse_endpoint_record st :
  0 <= ps_endpoint_count st <= MAX_ENDPOINTS ->
  forall l body, rec = l :: DESCRIPTOR_ENDPOINT :: body ->
  match apply_record rec st with
  | Some st' => parse_endpoint bytes (len pre) (len rec) st = Some (Ok st')
  | None => exists e, parse_endpoint bytes (len pre) (len rec) st = Some (Err e)
  end.
Proof.
  intros Hc l body E. unfold parse_endpoint, bytes. pose proof (len_nonneg pre).
  destruct (Z.ltb_spec (len rec) 7) as [Hs|Hs].
  - rewrite E in *. do 5 (destruct body as [|? body]; [by eexists|]). exfalso.
    rewrite !len_cons in Hs. pose proof (len_nonneg body). lia.
  - read_record. rewrite E in *. clear E. unfold read_at.
    do 5 (destruct body as [|? body]; [exfalso; unfold len in Hs; cbn in Hs; lia|]). cbn.
    unfold saturating_add, MAX_ENDPOINTS, usize_bits in *. change (umax 64) with 18446744073709551615 in *.
    rewrite Z.min_l by lia.
    destruct (Z.ltb_spec 32 (ps_endpoint_count st + 1)), (Z.ltb_spec (ps_endpoint_count st) 32); try lia;
      cbn [andb]; [by eexists|].
    change (Z.to_nat 2) with 2%nat. change (Z.to_nat 3) with 3%nat. change (Z.to_nat 4) with 4%nat.
    change (Z.to_nat 5) with 5%nat. change (Z.to_nat 6) with 6%nat.
    case_bool_decide; cbn [andb negb]; [by eexists|]. cbn.
    destruct (endpoint_number _ =? 0); cbn [andb negb]; [by eexists|].
    destruct (Z.land _ 3 =? 3); cbn; [done|by eexists].
Qed.

Lemma descriptor_step_record st :
  0 < len pre -> 0 <= ps_endpoint_count st <= MAX_ENDPOINTS ->
  match apply_record rec st with
  | Some st' => descriptor_step bytes total (len pre) st = Some (Ok (len pre + len rec, st'))
  | None => exists e, descriptor_step bytes total (len pre) st = Some (Err e)
  end.
Proof.
  intros Hpre Hc. unfold descriptor_step, bytes. destruct Hrec as [Hhd Hlen].
  replace (read_at (pre ++ rec ++ post) (len pre)) with (Some (len rec)).
  2:{ rewrite <- Hhd, <- (read_at_app pre rec post 0) by lia. f_equal. lia. }
  unfold saturating_add, usize_bits. rewrite Z.min_l by lia.
  rewrite (proj2 (Z.ltb_ge _ _)), (proj2 (Z.ltb_ge _ (_ + _))) by lia. cbn [orb].
  rewrite read_at_app by lia.
  assert (Hshape : exists l ty body, rec = l :: ty :: body).
  { clear -Hlen. destruct rec as [|l [|ty body]]; [unfold len in Hlen; cbn in Hlen; lia..|eauto]. }
  destruct Hshape as (l & ty & body & E).
  replace (read_at rec 1) with (Some ty) by (by rewrite E). cbn [mbind option_bind].
  rewrite (proj2 (Z.eqb_neq (len pre) 0)), andb_false_r by lia.
  destruct (Z.eqb_spec ty DESCRIPTOR_INTERFACE) as [->|Hi]; [|destruct (Z.eqb_spec ty DESCRIPTOR_ENDPOINT) as [->|He]].
  - pose proof (parse_interface_record st l body E) as H. unfold bytes in H.
    destruct (apply_record rec st); [by rewrite H|]. destruct H as [e H]. rewrite H. by eexists.
  - pose proof (parse_endpoint_record st Hc l body E) as H. unfold bytes in H.
    destruct (apply_record rec st); [by rewrite H|]. destruct H as [e H]. rewrite H. by eexists.
  - rewrite E. cbn [apply_record]. by rewrite (proj2 (Z.eqb_neq _ _) Hi), (proj2 (Z.eqb_neq _ _) He).
Qed.
End StepLemmas.

(** What holds of the parser state between iterations. *)
Definition endpoint_ok (e : EndpointDescriptor) : Prop :=
  endpoint_number (ep_address e) <> 0 /\ ep_transfer_kind e = Interrupt.

Definition endpoint_total (l : list InterfaceDescriptor) : Z :=
  foldr (fun i n => len (if_endpoints i) + n) 0 l.

Record state_ok (st : ParseState) : Prop := {
  so_interfaces : len (ps_interfaces st) <= MAX_INTERFACES;
  so_total : ps_endpoint_count st = endpoint_total (ps_interfaces st);
  so_count : 0 <= ps_endpoint_count st <= MAX_ENDPOINTS;
  so_endpoints : Forall (fun i => Forall endpoint_ok (if_endpoints i)) (ps_interfaces st)
}.

Lemma endpoint_total_app l k : endpoint_total (l ++ k) = endpoint_total l + endpoint_total k.
Proof. unfold endpoint_total. induction l as [|i l IH]; cbn; [done|]. rewrite IH. lia. Qed.

Lemma push_endpoint_snoc l i e :
  push_endpoint (l ++ [i]) e =
    l ++ [mkInterface (if_number i) (if_alternate_setting i) (if_class i) (if_subclass i)
            (if_protocol i) (if_endpoints i ++ [e])].
Proof. induction l as [|j l IH]; [done|]. cbn. rewrite IH. by destruct l. Qed.

Lemma apply_record_ok rec st st' : state_ok st -> apply_record rec st = Some st' -> state_ok st'.
Proof.
  intros [Hi Ht Hc He] E. unfold apply_record in E. repeat case_match; simplify_eq; try done; boolify.
  - constructor; cbn; autorewrite with arcen; try lia.
    + rewrite endpoint_total_app. cbn. change (len (@nil EndpointDescriptor)) with 0. lia.
    + apply Forall_app; split; [done|]. by repeat constructor.
  - assert (Hn : ps_interfaces st <> []) by (by eapply bool_decide_eq_false_1).
    destruct st as [ifs c]; cbn in *. induction ifs as [|i l _] using rev_ind; [done|].
    rewrite push_endpoint_snoc. apply Forall_app in He as [He1 He2]. rewrite Forall_singleton in He2.
    rewrite endpoint_total_app in Ht. cbn in Ht.
    constructor; cbn; autorewrite with arcen; rewrite ?len_app, ?len_cons in *; change (len (@nil InterfaceDescriptor)) with 0 in *; try lia.
    + rewrite endpoint_total_app. cbn. autorewrite with arcen. lia.
    + apply Forall_app; split; [done|]. rewrite Forall_singleton. cbn. apply Forall_app; split; [done|].
      by repeat constructor.
Qed.

Lemma apply_records_ok recs : forall st st',
  state_ok st -> apply_records recs st = Some st' -> state_ok st'.
Proof.
  induction recs as [|rec recs IH]; intros st st' H E; cbn in E; [by simplify_eq|].
  destruct (apply_record rec st) as [st1|] eqn:E1; [|done]. eauto using apply_record_ok.
Qed.

Lemma len_0_nil {A} (l : list A) : len l = 0 -> l = [].
Proof. destruct l; [done|]. rewrite len_cons. pose proof (len_nonneg l). lia. Qed.

(** The loop on a concatenation of records applies them. *)
Lemma descriptor_loop_records recs : forall fuel pre post st,
  Forall is_record recs -> 0 < len pre -> state_ok st ->
  len pre + len (concat recs) <= umax 64 -> (length recs < fuel)%nat ->
  match apply_records recs st with
  | Some st' =>
    descriptor_loop fuel (pre ++ concat recs ++ post) (len pre + len (concat recs)) (len pre) st
      = Some (Ok st')
  | None => exists e,
    descriptor_loop fuel (pre ++ concat recs ++ post) (len pre + len (concat recs)) (len pre) st
      = Some (Err e)
  end.
Proof.
  induction recs as [|rec recs IH]; intros fuel pre post st Hr Hpre Hst Hmax Hf;
    (destruct fuel as [|fuel]; [cbn in Hf; lia|]); cbn [apply_records concat descriptor_loop].
  - by rewrite (proj2 (Z.ltb_ge _ _)) by (rewrite len_nil; lia).
  - apply Forall_cons in Hr as [Hrec Hr]. cbn [concat length] in *. rewrite len_app in *.
    destruct Hrec as [Hhd Hlen]. pose proof (len_nonneg (concat recs)).
    rewrite (proj2 (Z.ltb_lt _ _)) by lia. rewrite <- app_assoc.
    pose proof (descriptor_step_record pre rec (concat recs ++ post) (len pre + (len rec + len (concat recs)))
                  (conj Hhd Hlen) ltac:(lia) st Hpre (so_count _ Hst)) as Hstep.
    destruct (apply_record rec st) as [st1|] eqn:E1; cbn [mbind option_bind].
    2:{ destruct Hstep as [e ->]. by eexists. }
    rewrite Hstep. cbn [mbind option_bind].
    specialize (IH fuel (pre ++ rec) post st1 Hr). rewrite len_app, <- !app_assoc in IH.
    replace (len pre + (len rec + len (concat recs))) with (len pre + len rec + len (concat recs)) by lia.
    apply IH; [lia|by eapply apply_record_ok|lia|lia].
Qed.

(** The loop always returns, and succeeds only on a concatenation of records. *)
Lemma descriptor_loop_total : forall fuel pre mid post st,
  0 < len pre -> state_ok st -> len pre + len mid < umax 64 -> (length mid < fuel)%nat ->
  exists r, descriptor_loop fuel (pre ++ mid ++ post) (len pre + len mid) (len pre) st = Some r /\
    forall st', r = Ok st' ->
      exists recs, Forall is_record recs /\ concat recs = mid /\ apply_records recs st = Some st'.
Proof.
  induction fuel as [|fuel IH]; intros pre mid post st Hpre Hst Hmax Hf; [lia|].
  cbn [descriptor_loop]. destruct mid as [|l mid].
  { rewrite len_nil, (proj2 (Z.ltb_ge _ _)) by lia. eexists. split; [done|].
    intros st' [= <-]. by exists []. }
  rewrite len_cons in *. pose proof (len_nonneg mid).
  rewrite (proj2 (Z.ltb_lt _ _)) by lia.
  destruct ((l <? 2) || (len pre + (1 + len mid) <? saturating_add usize_bits (len pre) l)) eqn:Eb.
  { unfold descriptor_step. pose proof (read_at_app pre (l :: mid) post 0) as Hread.
    rewrite Z.add_0_r, len_cons in Hread. rewrite Hread by lia.
    change (read_at (l :: mid) 0) with (Some l). cbv iota beta. rewrite Eb. by eexists. }
  boolify. unfold saturating_add, usize_bits in *.
  assert (Hl : 2 <= l <= 1 + len mid) by lia.
  assert (Hsplit : exists rec rest, l :: mid = rec ++ rest /\ len rec = l /\ is_record rec).
  { exists (take (Z.to_nat l) (l :: mid)), (drop (Z.to_nat l) (l :: mid)).
    assert (Ht : len (take (Z.to_nat l) (l :: mid)) = l).
    { unfold len in *. rewrite length_take. cbn [length]. lia. }
    split_and!; [by rewrite take_drop|done|]. split; [|lia]. rewrite Ht.
    destruct (Z.to_nat l) eqn:El; [lia|done]. }
  destruct Hsplit as (rec & rest & E & Hrl & Hrec). rewrite E.
  assert (Hlens : 1 + len mid = len rec + len rest) by (rewrite <- len_app, <- E, len_cons; lia).
  pose proof (len_nonneg rest). rewrite Hlens, <- app_assoc.
  pose proof (descriptor_step_record pre rec (rest ++ post) (len pre + (len rec + len rest))
                Hrec ltac:(lia) st Hpre (so_count _ Hst)) as Hstep.
  destruct (apply_record rec st) as [st1|] eqn:E1.
  2:{ destruct Hstep as [e ->]. by eexists. }
  rewrite Hstep. cbn [mbind option_bind].
  destruct (IH (pre ++ rec) rest post st1) as (r & Hr & Hok);
    rewrite ?len_app; [lia|by eapply apply_record_ok|lia|unfold len in *; cbn [length] in Hf; lia|].
  rewrite len_app, <- !app_assoc in Hr.
  replace (len pre + (len rec + len rest)) with (len pre + len rec + len rest) by lia.
  exists r. split; [done|]. intros st' ->. destruct (Hok st' eq_refl) as (recs & Hrecs & <- & Ha).
  exists (rec :: recs). split_and!; [by constructor|done|]. cbn. by rewrite E1.
Qed.

(** The configuration header record. *)
Definition is_header (hdr : list Z) (total value : Z) : Prop :=
  exists b2 b3 b4 b6 b7 b8, hdr = [9; DESCRIPTOR_CONFIGURATION; b2; b3; b4; value; b6; b7; b8] /\
    total = from_le [b2; b3].

Lemma state_ok_empty : state_ok (mkParseState [] 0).
Proof. by constructor. Qed.

Lemma header_step fuel b2 b3 b4 value b6 b7 b8 rest total st :
  9 <= total -> total <= MAX_CONFIGURATION_DESCRIPTOR_BYTES ->
  let bytes := 9 :: DESCRIPTOR_CONFIGURATION :: b2 :: b3 :: b4 :: value :: b6 :: b7 :: b8 :: rest in
  descriptor_loop (S fuel) bytes total 0 st = descriptor_loop fuel bytes total 9 st.
Proof.
  intros H1 H2 bytes. cbn [descriptor_loop]. rewrite (proj2 (Z.ltb_lt 0 total)) by lia.
  unfold descriptor_step. change (read_at bytes 0) with (Some 9).
  change (read_at bytes (0 + 1)) with (Some DESCRIPTOR_CONFIGURATION).
  unfold saturating_add. change (umax usize_bits) with 18446744073709551615.
  unfold MAX_CONFIGURATION_DESCRIPTOR_BYTES in H2. cbv iota beta.
  rewrite (proj2 (Z.ltb_ge total _)) by lia. done.
Qed.

(** Parsing after the size and header checks. *)
Lemma parse_after_header hdr mid post value :
  is_header hdr (9 + len mid) value -> 9 + len mid + len post <= MAX_CONFIGURATION_DESCRIPTOR_BYTES ->
  parse_configuration_descriptor (hdr ++ mid ++ post) =
    (r ← descriptor_loop (length (hdr ++ mid ++ post)) (hdr ++ mid ++ post) (len hdr + len mid) (len hdr)
           (mkParseState [] 0);
     Some (match r with
           | Err e => Err e
           | Ok st => if bool_decide (ps_interfaces st = []) then Err MissingConfiguration
                      else Ok (mkParsed value (ps_interfaces st))
           end)).
Proof.
  intros (b2 & b3 & b4 & b6 & b7 & b8 & -> & Et) Hmax.
  pose proof (len_nonneg mid). pose proof (len_nonneg post).
  unfold parse_configuration_descriptor. rewrite !len_app.
  change (len [9; DESCRIPTOR_CONFIGURATION; b2; b3; b4; value; b6; b7; b8]) with 9.
  rewrite (proj2 (Z.ltb_ge _ _)), (proj2 (Z.ltb_ge _ 9)) by lia.
  cbn [app]. set (bytes := 9 :: _).
  change (read_at bytes 0) with (Some 9). change (read_at bytes 1) with (Some DESCRIPTOR_CONFIGURATION).
  change (read_at bytes 2) with (Some b2). change (read_at bytes 3) with (Some b3).
  change (read_at bytes 5) with (Some value). cbn [mbind option_bind].
  change (negb (9 =? 9) || negb (DESCRIPTOR_CONFIGURATION =? DESCRIPTOR_CONFIGURATION)) with false.
  cbv iota. rewrite <- Et.
  rewrite (proj2 (Z.ltb_ge _ 9)), (proj2 (Z.ltb_ge _ (9 + len mid))) by lia. cbn [orb].
  unfold bytes. rewrite header_step by lia. done.
Qed.

(** A slice is rejected by the size and header checks or starts with a header. *)
Lemma parse_cases bytes :
  (exists e, parse_configuration_descriptor bytes = Some (Err e)) \/
  exists hdr mid post value, bytes = hdr ++ mid ++ post /\ is_header hdr (9 + len mid) value /\
    9 + len mid + len post <= MAX_CONFIGURATION_DESCRIPTOR_BYTES.
Proof.
  unfold parse_configuration_descriptor.
  destruct (Z.ltb_spec MAX_CONFIGURATION_DESCRIPTOR_BYTES (len bytes)) as [|Hmax]; [eauto|].
  destruct (Z.ltb_spec (len bytes) 9) as [|H9]; [eauto|].
  do 9 (destruct bytes as [|? bytes]; [exfalso; unfold len in H9; cbn in H9; lia|]).
  match goal with |- context [read_at ?l 0] => set (full := l) in * end.
  change (read_at full 0) with (Some z). change (read_at full 1) with (Some z0).
  change (read_at full 2) with (Some z1). change (read_at full 3) with (Some z2).
  change (read_at full 5) with (Some z4). cbn [mbind option_bind].
  destruct (negb (z =? 9) || _) eqn:Eh; [eauto|].
  destruct ((from_le [z1; z2] <? 9) || _) eqn:Et; [eauto|]. boolify. subst z z0. right.
  exists [9; DESCRIPTOR_CONFIGURATION; z1; z2; z3; z4; z5; z6; z7],
    (take (Z.to_nat (from_le [z1; z2] - 9)) bytes), (drop (Z.to_nat (from_le [z1; z2] - 9)) bytes), z4.
  unfold full in *. rewrite !len_cons in *. unfold len in *. rewrite length_take, length_drop.
  split_and!; [by rewrite take_drop| |lia]. exists z1, z2, z3, z5, z6, z7. split; [done|]. lia.
Qed.

(** Parsing returns, and when it succeeds the bytes are a header, records the
    reference semantics accepts, and ignored trailing bytes. *)
Lemma parse_sound bytes :
  exists r, parse_configuration_descriptor bytes = Some r /\
    forall p, r = Ok p ->
      exists hdr recs post st, bytes = hdr ++ concat recs ++ post /\
        is_header hdr (9 + len (concat recs)) (configuration_value p) /\
        len bytes <= MAX_CONFIGURATION_DESCRIPTOR_BYTES /\
        Forall is_record recs /\ apply_records recs (mkParseState [] 0) = Some st /\
        ps_interfaces st = interfaces p /\ interfaces p <> [].
Proof.
  destruct (parse_cases bytes) as [[e ->]|(hdr & mid & post & value & -> & Hh & Hmax)].
  { by eexists. }
  rewrite (parse_after_header _ _ _ _ Hh Hmax).
  assert (H9 : len hdr = 9) by (destruct Hh as (? & ? & ? & ? & ? & ? & -> & _); done).
  pose proof (len_nonneg mid). pose proof (len_nonneg post).
  unfold MAX_CONFIGURATION_DESCRIPTOR_BYTES in *.
  destruct (descriptor_loop_total (length (hdr ++ mid ++ post)) hdr mid post (mkParseState [] 0))
    as (r & -> & Hr); [lia|apply state_ok_empty|change (umax 64) with 18446744073709551615; lia| |].
  { rewrite !length_app. unfold len in H9. lia. }
  cbn. eexists. split; [done|]. intros p E. destruct r as [st|]; [|done].
  case_bool_decide; [done|]. injection E as <-.
  destruct (Hr st eq_refl) as (recs & Hrecs & <- & Ha).
  exists hdr, recs, post, st. rewrite !len_app. split_and!; auto. lia.
Qed.

Lemma parse_complete hdr recs post value st :
  is_header hdr (9 + len (concat recs)) value ->
  len (hdr ++ concat recs ++ post) <= MAX_CONFIGURATION_DESCRIPTOR_BYTES ->
  Forall is_record recs -> apply_records recs (mkParseState [] 0) = Some st ->
  ps_interfaces st <> [] ->
  parse_configuration_descriptor (hdr ++ concat recs ++ post) = Some (Ok (mkParsed value (ps_interfaces st))).
Proof.
  intros Hh Hmax Hrecs Ha Hne.
  assert (H9 : len hdr = 9) by (destruct Hh as (? & ? & ? & ? & ? & ? & -> & _); done).
  rewrite !len_app, H9 in Hmax. rewrite (parse_after_header _ _ _ _ Hh) by lia.
  pose proof (len_nonneg post). unfold MAX_CONFIGURATION_DESCRIPTOR_BYTES in Hmax.
  pose proof (descriptor_loop_records recs (length (hdr ++ concat recs ++ post)) hdr post
                (mkParseState [] 0) Hrecs) as Hl.
  rewrite Ha in Hl. rewrite Hl; [|lia|apply state_ok_empty|change (umax 64) with 18446744073709551615; lia|].
  - cbn. by rewrite bool_decide_eq_false_2.
  - rewrite !length_app. unfold len in H9.
    assert (length recs <= length (concat recs))%nat; [|lia].
    clear -Hrecs. induction Hrecs as [|r recs [_ Hr] _ IH]; [done|].
    cbn [concat length]. rewrite length_app. unfold len in Hr. lia.
Qed.

(** ** Reference encoder *)

Definition encode_endpoint (e : EndpointDescriptor) : list Z :=
  [7; DESCRIPTOR_ENDPOINT; ep_address e; 3] ++ to_le 2 (max_packet_size e) ++ [interval e].

Definition encode_interface (i : InterfaceDescriptor) : list (list Z) :=
  [9; DESCRIPTOR_INTERFACE; if_number i; if_alternate_setting i; len (if_endpoints i);
   if_class i; if_subclass i; if_protocol i; 0] :: map encode_endpoint (if_endpoints i).

Definition encode_records (p : ParsedConfiguration) : list (list Z) :=
  concat (map encode_interface (interfaces p)).

Definition encode_configuration (p : ParsedConfiguration) : list Z :=
  let body := concat (encode_records p) in
  ([9; DESCRIPTOR_CONFIGURATION] ++ to_le 2 (9 + len body)
   ++ [len (interfaces p); configuration_value p; 0; 128; 50]) ++ body.

(** A configuration the v1 bridge can carry. *)
Definition configuration_ok (p : ParsedConfiguration) : Prop :=
  1 <= len (interfaces p) <= MAX_INTERFACES /\ endpoint_total (interfaces p) <= MAX_ENDPOINTS /\
  Forall (fun i => Forall (fun e => endpoint_ok e /\ is_u16 (max_packet_size e)) (if_endpoints i))
    (interfaces p).

Lemma apply_records_app r1 r2 st :
  apply_records (r1 ++ r2) st = st ← apply_records r1 st; apply_records r2 st.
Proof.
  revert st. induction r1 as [|r r1 IH]; intros st; [done|]. cbn.
  destruct (apply_record r st); [apply IH|done].
Qed.

Lemma apply_encode_endpoints es : forall l i c,
  Forall (fun e => endpoint_ok e /\ is_u16 (max_packet_size e)) es -> 0 <= c -> c + len es <= MAX_ENDPOINTS ->
  apply_records (map encode_endpoint es) (mkParseState (l ++ [i]) c) =
    Some (mkParseState (l ++ [mkInterface (if_number i) (if_alternate_setting i) (if_class i)
                                (if_subclass i) (if_protocol i) (if_endpoints i ++ es)]) (c + len es)).
Proof.
  induction es as [|e es IH]; intros l i c He Hc Hmax.
  { cbn. rewrite app_nil_r, len_nil, Z.add_0_r. by destruct i. }
  apply Forall_cons in He as [[[Hn Hk] Hp] He]. rewrite len_cons in *. pose proof (len_nonneg es).
  cbn [map apply_records].
  change (encode_endpoint e) with [7; DESCRIPTOR_ENDPOINT; ep_address e; 3; max_packet_size e mod 256;
    max_packet_size e / 256 mod 256; interval e].
  unfold apply_record. change (DESCRIPTOR_ENDPOINT =? DESCRIPTOR_INTERFACE) with false.
  change (DESCRIPTOR_ENDPOINT =? DESCRIPTOR_ENDPOINT) with true. cbv iota. cbn [ps_interfaces ps_endpoint_count].
  rewrite (proj2 (Z.ltb_lt _ _)), bool_decide_eq_false_2, (proj2 (Z.eqb_neq _ _) Hn)
    by (lia || (destruct l; discriminate)). cbn [andb negb]. change (Z.land 3 3 =? 3) with true. cbv iota. rewrite push_endpoint_snoc.
  cbn [mbind option_bind].
  change [max_packet_size e mod 256; max_packet_size e / 256 mod 256] with (to_le 2 (max_packet_size e)).
  rewrite from_to_le_small by exact Hp. rewrite IH by (done || lia). cbn. rewrite <- app_assoc.
  do 2 f_equal; [|lia]. destruct e; cbn in *. by subst.
Qed.

Lemma apply_encode_interfaces ifs : forall l c,
  Forall (fun i => Forall (fun e => endpoint_ok e /\ is_u16 (max_packet_size e)) (if_endpoints i)) ifs ->
  0 <= c -> c + endpoint_total ifs <= MAX_ENDPOINTS -> len l + len ifs <= MAX_INTERFACES ->
  apply_records (concat (map encode_interface ifs)) (mkParseState l c) =
    Some (mkParseState (l ++ ifs) (c + endpoint_total ifs)).
Proof.
  induction ifs as [|i ifs IH]; intros l c Hi Hc Hmax Hl.
  { cbn. by rewrite app_nil_r, Z.add_0_r. }
  apply Forall_cons in Hi as [Hi His]. cbn [endpoint_total foldr] in *. fold (endpoint_total ifs) in *.
  assert (0 <= endpoint_total ifs).
  { clear. induction ifs as [|j ifs IH]; cbn; [lia|]. pose proof (len_nonneg (if_endpoints j)). unfold endpoint_total in IH. lia. }
  pose proof (len_nonneg (if_endpoints i)). pose proof (len_nonneg ifs). rewrite len_cons in *.
  cbn [map concat]. rewrite apply_records_app. 
  change (encode_interface i) with ([9; DESCRIPTOR_INTERFACE; if_number i; if_alternate_setting i;
    len (if_endpoints i); if_class i; if_subclass i; if_protocol i; 0]
    :: map encode_endpoint (if_endpoints i)).
  cbn [apply_records apply_record].
  change (DESCRIPTOR_INTERFACE =? DESCRIPTOR_INTERFACE) with true. cbv iota. cbn [ps_interfaces ps_endpoint_count].
  rewrite (proj2 (Z.ltb_lt _ _)) by lia. cbn [mbind option_bind].
  rewrite apply_encode_endpoints by (done || lia). cbn [mbind option_bind if_endpoints if_number if_alternate_setting if_class if_subclass if_protocol app].
  rewrite IH; [|done|lia|lia|rewrite len_app, len_cons, len_nil; lia].
  rewrite <- app_assoc. do 2 f_equal; [|lia]. by destruct i.
Qed.

Lemma encode_records_are_records p : Forall is_record (encode_records p).
Proof.
  unfold encode_records. apply Forall_concat, Forall_map, Forall_true. intros i. cbn. constructor; [done|].
  apply Forall_map, Forall_true. done.
Qed.

(** ** Policy lemmas *)

(** The facts of an interface a profile can name. *)
Definition interface_rule (i : InterfaceDescriptor) : InterfaceRule :=
  mkRule (if_number i) (if_alternate_setting i) (if_class i) (if_subclass i) (if_protocol i).

Lemma rule_matches_spec rule i : rule_matches rule i = true <-> rule = interface_rule i.
Proof.
  unfold rule_matches, interface_rule. rewrite !andb_true_iff, !Z.eqb_eq.
  destruct rule; cbn. naive_solver.
Qed.

Lemma check_interface_Ok profile i :
  check_interface profile i = Ok tt <->
  is_permanently_prohibited_class (if_class i) = false /\ interface_rule i ∈ profile_interfaces profile.
Proof.
  unfold check_interface. destruct (is_permanently_prohibited_class (if_class i)); cbn; [naive_solver|].
  rewrite guard_err_Ok, negb_false_iff, existsb_exists. setoid_rewrite rule_matches_spec.
  setoid_rewrite list_elem_of_In. naive_solver.
Qed.

Lemma check_rule_Ok snapshot rule :
  check_rule snapshot rule = Ok tt <->
  rule ∈ map interface_rule (interfaces (configuration snapshot)).
Proof.
  unfold check_rule. rewrite guard_err_Ok, negb_false_iff, existsb_exists, list_elem_of_In, in_map_iff.
  setoid_rewrite rule_matches_spec. naive_solver.
Qed.

(** ** Properties *)

(** Parsing a configuration descriptor never panics on an index, always
    terminates, and what it accepts respects every bridge limit: at least one
    and at most sixteen interfaces, at most thirty-two endpoints in all, every
    endpoint an interrupt endpoint with a nonzero number. *)
Theorem descriptor_parser_total_bounded (bytes : list Z) :
  exists r, parse_configuration_descriptor bytes = Some r /\
    forall p, r = Ok p ->
      1 <= len (interfaces p) <= MAX_INTERFACES /\
      endpoint_total (interfaces p) <= MAX_ENDPOINTS /\
      Forall (fun i => Forall endpoint_ok (if_endpoints i)) (interfaces p).
Proof.
  destruct (parse_sound bytes) as (r & -> & Hr). exists r. split; [done|]. intros p E.
  destruct (Hr p E) as (_ & recs & _ & st & _ & _ & _ & _ & Ha & <- & Hne).
  apply apply_records_ok in Ha as [Hi Ht Hc He]; [|apply state_ok_empty].
  split_and!; auto; [|lia]. destruct (ps_interfaces st); [done|]. rewrite len_cons.
  pose proof (len_nonneg l). lia.
Qed.

(** C17: The parser accepts exactly the slices of at most 4096 bytes that start
    with a configuration header, continue with self-delimiting records up to
    the declared total, and whose records the reference semantics accepts;
    bytes after the declared total are ignored. *)
Theorem descriptor_parser_exact (bytes : list Z) (p : ParsedConfiguration) :
  parse_configuration_descriptor bytes = Some (Ok p) <->
  exists hdr recs post st, bytes = hdr ++ concat recs ++ post /\
    is_header hdr (9 + len (concat recs)) (configuration_value p) /\
    len bytes <= MAX_CONFIGURATION_DESCRIPTOR_BYTES /\
    Forall is_record recs /\ apply_records recs (mkParseState [] 0) = Some st /\
    ps_interfaces st = interfaces p /\ interfaces p <> [].
Proof.
  split.
  - intros E. destruct (parse_sound bytes) as (r & Er & Hr). rewrite E in Er. injection Er as <-. by apply Hr.
  - intros (hdr & recs & post & st & -> & Hh & Hmax & Hr & Ha & Ei & Hne).
    rewrite (parse_complete hdr recs post _ st Hh Hmax Hr Ha) by congruence.
    rewrite Ei. by destruct p.
Qed.

(** A configuration within the bridge limits, encoded as USB descriptors,
    parses back to itself. *)
Theorem descriptor_roundtrip (p : ParsedConfiguration) :
  configuration_ok p -> len (encode_configuration p) <= MAX_CONFIGURATION_DESCRIPTOR_BYTES ->
  parse_configuration_descriptor (encode_configuration p) = Some (Ok p).
Proof.
  intros (Hn & He & Hf) Hmax. unfold encode_configuration in *.
  set (hdr := [9; DESCRIPTOR_CONFIGURATION] ++ _) in *.
  rewrite <- (app_nil_r (concat (encode_records p))) in *. rewrite !app_nil_r in Hmax.
  pose proof (apply_encode_interfaces (interfaces p) [] 0 Hf ltac:(lia) ltac:(lia) ltac:(rewrite len_nil; lia)) as Ha.
  assert (Hh : is_header hdr (9 + len (concat (encode_records p))) (configuration_value p)).
  { unfold hdr. do 6 eexists. split; [reflexivity|].
    match goal with |- ?t = from_le [?a; ?b] => change [a; b] with (to_le 2 t) end.
    rewrite from_to_le_small; [done|]. rewrite len_app in Hmax.
    change (len hdr) with 9 in Hmax. unfold MAX_CONFIGURATION_DESCRIPTOR_BYTES in Hmax.
    pose proof (len_nonneg (concat (encode_records p))). unfold in_width. cbn. lia. }
  rewrite (parse_complete hdr (encode_records p) [] (configuration_value p) _ Hh
             ltac:(by rewrite app_nil_r) (encode_records_are_records p) Ha); cbn [ps_interfaces app].
  - by destruct p.
  - destruct (interfaces p); [|done]. change (len (@nil InterfaceDescriptor)) with 0 in Hn. lia.
Qed.

Definition sample_configuration : ParsedConfiguration :=
  mkParsed 1 [mkInterface 0 0 3 0 0 [mkEndpoint 129 Interrupt 64 1];
              mkInterface 1 0 3 1 1 [mkEndpoint 130 Interrupt 8 10]].

Lemma descriptor_roundtrip_witness :
  parse_configuration_descriptor (encode_configuration sample_configuration) = Some (Ok sample_configuration).
Proof.
  apply (descriptor_roundtrip sample_configuration).
  - unfold configuration_ok, endpoint_ok. repeat split; repeat constructor; vm_compute; congruence.
  - vm_compute. congruence.
Defined.

(** For a profile whose rules are distinct, a device is accepted exactly
    when bridging is enabled, vendor, product and revision fit the profile, no
    device or interface class is permanently prohibited, and the interfaces are
    the profile's rules in some order: no interface is missing, additional or
    different. *)
Theorem policy_accepts_exact_profile enabled profile snapshot d :
  NoDup (profile_interfaces profile) ->
  evaluate_profile enabled profile snapshot = Ok d <->
  enabled = true /\
  vendor_id (snap_id snapshot) = profile_vendor_id profile /\
  product_id (snap_id snapshot) = profile_product_id profile /\
  minimum_bcd_device profile <= bcd_device (snap_id snapshot) <= maximum_bcd_device profile /\
  is_permanently_prohibited_class (device_class snapshot) = false /\
  Forall (fun i => is_permanently_prohibited_class (if_class i) = false)
    (interfaces (configuration snapshot)) /\
  map interface_rule (interfaces (configuration snapshot)) ≡ₚ profile_interfaces profile /\
  d = mkDecision (profile_name profile) (configuration_value (configuration snapshot)).
Proof.
  intros Hnd. unfold evaluate_profile.
  split.
  - intros E. inv_ok. repeat match goal with u : unit |- _ => destruct u end.
    repeat match goal with H : forM_err _ _ = _ |- _ => rewrite forM_err_Ok in H end. boolify.
    setoid_rewrite check_interface_Ok in H4. setoid_rewrite check_rule_Ok in H5.
    rewrite Forall_and in H4. destruct H4 as [H4 H4'].
    split_and!; auto.
    symmetry. apply submseteq_length_Permutation.
    + apply NoDup_submseteq; [done|]. by apply Forall_forall.
    + rewrite length_map. unfold len in *. lia.
  - intros (-> & Hv & Hp & Hr & Hc & Hi & Hperm & ->). cbn [guard_err negb orb andb mbind result_bind].
    rewrite Hv, Hp, !Z.eqb_refl. cbn [guard_err negb orb andb mbind result_bind].
    rewrite (proj2 (Z.leb_le _ _)), (proj2 (Z.leb_le _ _)) by lia. cbn [guard_err negb orb andb mbind result_bind]. rewrite Hc. cbn [guard_err negb orb andb mbind result_bind].
    assert (Hl : len (interfaces (configuration snapshot)) = len (profile_interfaces profile)).
    { unfold len. by rewrite <- Hperm, length_map. }
    rewrite Hl, Z.eqb_refl. cbn [guard_err negb orb andb mbind result_bind].
    assert (H1 : forM_err (check_interface profile) (interfaces (configuration snapshot)) = Ok tt).
    { apply forM_err_Ok, Forall_forall. intros i Hin. apply check_interface_Ok. split.
      - by apply (proj1 (Forall_forall _ _) Hi).
      - rewrite <- Hperm. apply list_elem_of_In, in_map, list_elem_of_In, Hin. }
    rewrite H1. cbn [guard_err negb orb andb mbind result_bind].
    assert (H2 : forM_err (check_rule snapshot) (profile_interfaces profile) = Ok tt).
    { apply forM_err_Ok, Forall_forall. intros rule Hin. apply check_rule_Ok. by rewrite Hperm. }
    by rewrite H2.
Qed.

Definition sample_profile : DeviceProfile :=
  mkProfile "arcen-lab-tablet" 65535 41678 256 256 [mkRule 1 0 3 1 1; mkRule 0 0 3 0 0].

Lemma policy_accepts_exact_profile_witness :
  evaluate_profile true sample_profile
    (mkSnapshot (mkDeviceId 65535 41678 256) 0 sample_configuration)
    = Ok (mkDecision "arcen-lab-tablet" 1).
Proof.
  apply (policy_accepts_exact_profile true sample_profile).
  - repeat constructor; vm_compute; intros H; inversion H; subst; try inversion H1; try inversion H2; congruence.
  - split_and!; try done; [by repeat constructor|]. apply Permutation_swap.
Defined.
