(* ===== verification/UsbAttachment.v ===== *)
(** * USB bridge: in-flight ledger and attachment lifecycle

    Models [shared/usb-bridge/src/ledger.rs] and [state.rs].  The ordered map
    of in-flight requests is a [gmap] from URB id to record; the order in which
    [drain_generation] visits it is made explicit by sorting the ids. *)

From S2P Require Import Prelude UsbDescriptor.

Definition MAX_IN_FLIGHT_URBS : Z := 128.

(** ** The ledger *)

Record UrbRecord := mkUrbRecord {
  urb_generation : Z;
  urb_endpoint : Z;
  urb_transfer_kind : TransferKind;
  declared_length : Z;
  deadline_millis : Z
}.

#[global] Instance UrbRecord_eq_dec : EqDecision UrbRecord.
Proof. solve_decision. Defined.

Inductive LedgerError :=
| Capacity
| Duplicate (id : Z)
| Unknown (id : Z)
| StaleGeneration (expected actual : Z).

Abbreviation InFlightLedger := (gmap Z UrbRecord).

Definition ledger_len (l : InFlightLedger) : Z := Z.of_nat (size l).

Definition submit (l : InFlightLedger) (id : Z) (record : UrbRecord)
  : InFlightLedger * result LedgerError unit :=
  if MAX_IN_FLIGHT_URBS <=? ledger_len l then (l, Err Capacity)
  else if bool_decide (is_Some (l !! id)) then (l, Err (Duplicate id))
  else (<[id := record]> l, Ok tt).

Definition take_matching (l : InFlightLedger) (generation id : Z)
  : InFlightLedger * result LedgerError UrbRecord :=
  match l !! id with
  | None => (l, Err (Unknown id))
  | Some record =>
    if negb (urb_generation record =? generation)
    then (l, Err (StaleGeneration (urb_generation record) generation))
    else (delete id l, Ok record)
  end.

Definition cancel := take_matching.
Definition complete := take_matching.

(** [ids.into_iter().filter_map(|id| requests.remove(&id)).collect()] *)
Fixpoint remove_ids (l : InFlightLedger) (ids : list Z) : InFlightLedger * list UrbRecord :=
  match ids with
  | [] => (l, [])
  | id :: ids =>
    match l !! id with
    | Some record => let '(l, records) := remove_ids (delete id l) ids in (l, record :: records)
    | None => remove_ids l ids
    end
  end.

(** The ids of one generation in the map's key order. *)
Definition generation_ids (l : InFlightLedger) (generation : Z) : list Z :=
  merge_sort Z.le (filter (fun p => urb_generation p.2 = generation) (map_to_list l)).*1.

Definition drain_generation (l : InFlightLedger) (generation : Z) : InFlightLedger * list UrbRecord :=
  remove_ids l (generation_ids l generation).

(** ** The attachment lifecycle *)

Inductive AttachmentState :=
| Offered | Accepted | ExporterReady | Enumerating | Active | Draining | Detached.

#[global] Instance AttachmentState_eq_dec : EqDecision AttachmentState.
Proof. solve_decision. Defined.

Record AttachmentMachine := mkMachine {
  machine_generation : Z;
  machine_state : AttachmentState
}.

Inductive StateError :=
| InvalidTransition (actual expected target : AttachmentState).

Definition offered (generation : Z) : AttachmentMachine := mkMachine generation Offered.

Definition transition (m : AttachmentMachine) (expected target : AttachmentState)
  : AttachmentMachine * result StateError unit :=
  if bool_decide (machine_state m <> expected)
  then (m, Err (InvalidTransition (machine_state m) expected target))
  else (mkMachine (machine_generation m) target, Ok tt).

Definition accept (m : AttachmentMachine) := transition m Offered Accepted.
Definition exporter_ready (m : AttachmentMachine) := transition m Accepted ExporterReady.
Definition begin_enumeration (m : AttachmentMachine) := transition m ExporterReady Enumerating.
Definition activate (m : AttachmentMachine) := transition m Enumerating Active.
Definition detach (m : AttachmentMachine) := transition m Draining Detached.

Definition begin_drain (m : AttachmentMachine) : AttachmentMachine * result StateError unit :=
  match machine_state m with
  | Accepted | ExporterReady | Enumerating | Active =>
    (mkMachine (machine_generation m) Draining, Ok tt)
  | actual => (m, Err (InvalidTransition actual Active Draining))
  end.

(** ** Runs *)

Inductive LedgerOp :=
| OpSubmit (id : Z) (record : UrbRecord)
| OpCancel (generation id : Z)
| OpComplete (generation id : Z)
| OpDrain (generation : Z).

(** One operation: the new ledger, the records it accepted and the records it
    handed back. *)
Definition ledger_step (l : InFlightLedger) (op : LedgerOp)
  : InFlightLedger * list UrbRecord * list UrbRecord :=
  match op with
  | OpSubmit id record =>
    let '(l, r) := submit l id record in (l, (if is_ok r then [record] else []), [])
  | OpCancel generation id =>
    let '(l, r) := cancel l generation id in (l, [], match r with Ok record => [record] | Err _ => [] end)
  | OpComplete generation id =>
    let '(l, r) := complete l generation id in (l, [], match r with Ok record => [record] | Err _ => [] end)
  | OpDrain generation =>
    let '(l, records) := drain_generation l generation in (l, [], records)
  end.

Fixpoint ledger_run (l : InFlightLedger) (ops : list LedgerOp)
  : InFlightLedger * list UrbRecord * list UrbRecord :=
  match ops with
  | [] => (l, [], [])
  | op :: ops =>
    let '(l, accepted, returned) := ledger_step l op in
    let '(l, accepted', returned') := ledger_run l ops in
    (l, accepted ++ accepted', returned ++ returned')
  end.

Inductive LifecycleOp := LAccept | LExporterReady | LBeginEnumeration | LActivate | LBeginDrain | LDetach.

Definition lifecycle_step (m : AttachmentMachine) (op : LifecycleOp)
  : AttachmentMachine * result StateError unit :=
  match op with
  | LAccept => accept m
  | LExporterReady => exporter_ready m
  | LBeginEnumeration => begin_enumeration m
  | LActivate => activate m
  | LBeginDrain => begin_drain m
  | LDetach => detach m
  end.

(** The operations that succeeded, oldest first. *)
Fixpoint lifecycle_run (m : AttachmentMachine) (ops : list LifecycleOp)
  : AttachmentMachine * list LifecycleOp :=
  match ops with
  | [] => (m, [])
  | op :: ops =>
    let '(m, r) := lifecycle_step m op in
    let '(m, done) := lifecycle_run m ops in
    (m, if is_ok r then op :: done else done)
  end.

(** ** Ledger lemmas *)

Abbreviation records_of l := (map_to_list l).*2.

Lemma records_of_delete (l : InFlightLedger) id record :
  l !! id = Some record -> records_of l ≡ₚ record :: records_of (delete id l).
Proof. intros E. by rewrite <- (map_to_list_delete l id record E). Qed.

Lemma remove_ids_spec ids : forall l l' records,
  remove_ids l ids = (l', records) ->
  records_of l ≡ₚ records ++ records_of l' /\
  (forall k, l' !! k = if decide (k ∈ ids) then None else l !! k) /\
  Forall (fun r => exists id, id ∈ ids /\ l !! id = Some r) records.
Proof.
  induction ids as [|id ids IH]; intros l l' records E; cbn in E.
  { injection E as <- <-. done. }
  destruct (l !! id) as [record|] eqn:Ei.
  - destruct (remove_ids (delete id l) ids) as [l1 rs] eqn:E1. injection E as <- <-.
    apply IH in E1 as (Hp & Hk & Hf). split_and!.
    + rewrite (records_of_delete _ _ _ Ei), Hp. done.
    + intros k. rewrite Hk. destruct (decide (k = id)) as [->|].
      * rewrite lookup_delete_eq. repeat case_decide; set_solver.
      * rewrite lookup_delete_ne by done. repeat case_decide; set_solver.
    + constructor; [exists id; set_solver|]. eapply Forall_impl; [done|].
      intros r (i & Hi & El). apply lookup_delete_Some in El as [_ El]. set_solver.
  - apply IH in E as (Hp & Hk & Hf). split_and!; [done| |].
    + intros k. rewrite Hk. destruct (decide (k = id)) as [->|]; repeat case_decide; set_solver.
    + eapply Forall_impl; [done|]. set_solver.
Qed.

Lemma elem_of_generation_ids l g id :
  id ∈ generation_ids l g <-> exists r, l !! id = Some r /\ urb_generation r = g.
Proof.
  unfold generation_ids. rewrite merge_sort_Permutation, list_elem_of_fmap. split.
  - intros ([i r] & -> & H). apply list_elem_of_filter in H as [Hg H].
    apply elem_of_map_to_list in H. eauto.
  - intros (r & El & Hg). exists (id, r). split; [done|]. apply list_elem_of_filter.
    by rewrite elem_of_map_to_list.
Qed.

Lemma drain_generation_spec l g l' records :
  drain_generation l g = (l', records) ->
  records_of l ≡ₚ records ++ records_of l' /\
  Forall (fun r => urb_generation r = g) records /\
  (forall k, l' !! k = match l !! k with
                       | Some r => if decide (urb_generation r = g) then None else Some r
                       | None => None
                       end).
Proof.
  intros E. apply remove_ids_spec in E as (Hp & Hk & Hf). split_and!; [done| |].
  - eapply Forall_impl; [done|]. intros r (i & Hi & El). apply elem_of_generation_ids in Hi as (r' & El' & Hg).
    congruence.
  - intros k. rewrite Hk. case_decide as Hd.
    + apply elem_of_generation_ids in Hd as (r & -> & Hg). by rewrite decide_True.
    + destruct (l !! k) as [r|] eqn:El; [|done]. rewrite decide_False; [done|].
      intros Hg. apply Hd, elem_of_generation_ids. eauto.
Qed.

Lemma ledger_step_conserves l op l' accepted returned :
  ledger_step l op = (l', accepted, returned) ->
  accepted ++ records_of l ≡ₚ returned ++ records_of l' /\
  (ledger_len l <= MAX_IN_FLIGHT_URBS -> ledger_len l' <= MAX_IN_FLIGHT_URBS).
Proof.
  assert (Htake : forall g id l' r, take_matching l g id = (l', r) ->
    records_of l ≡ₚ match r with Ok record => [record] | Err _ => [] end ++ records_of l' /\
    (ledger_len l <= MAX_IN_FLIGHT_URBS -> ledger_len l' <= MAX_IN_FLIGHT_URBS)).
  { intros g id l1 r E. unfold take_matching in E.
    destruct (l !! id) as [record|] eqn:El; [|by injection E as <- <-].
    destruct (negb _); injection E as <- <-; [done|]. split; [by apply records_of_delete|].
    unfold ledger_len. pose proof (map_size_delete_Some id l ltac:(eauto)). lia. }
  destruct op as [id record|g id|g id|g]; cbn; intros E.
  - unfold submit in E. destruct (Z.leb_spec MAX_IN_FLIGHT_URBS (ledger_len l)); [by injection E as <- <- <-|].
    case_bool_decide as Hd; injection E as <- <- <-; [done|]. apply eq_None_not_Some in Hd. cbn. split.
    + rewrite map_to_list_insert by done. done.
    + unfold ledger_len in *. rewrite map_size_insert_None by done. lia.
  - unfold cancel in E. destruct (take_matching l g id) as [l1 r] eqn:Et. injection E as <- <- <-.
    by apply Htake in Et.
  - unfold complete in E. destruct (take_matching l g id) as [l1 r] eqn:Et. injection E as <- <- <-.
    by apply Htake in Et.
  - destruct (drain_generation l g) as [l1 rs] eqn:Ed. injection E as <- <- <-.
    apply drain_generation_spec in Ed as (Hp & _ & Hk). split; [done|]. unfold ledger_len in *.
    apply Permutation_length in Hp. rewrite length_app, !length_fmap, !length_map_to_list in Hp. lia.
Qed.

Lemma ledger_run_conserves ops : forall l l' accepted returned,
  ledger_run l ops = (l', accepted, returned) ->
  accepted ++ records_of l ≡ₚ returned ++ records_of l' /\
  (ledger_len l <= MAX_IN_FLIGHT_URBS -> ledger_len l' <= MAX_IN_FLIGHT_URBS).
Proof.
  induction ops as [|op ops IH]; intros l l' acc ret E; cbn in E.
  { by injection E as <- <- <-. }
  destruct (ledger_step l op) as [[l1 a1] r1] eqn:E1.
  destruct (ledger_run l1 ops) as [[l2 a2] r2] eqn:E2. injection E as <- <- <-.
  apply ledger_step_conserves in E1 as [P1 S1]. apply IH in E2 as [P2 S2]. split; [|by eauto].
  rewrite <- app_assoc, (Permutation_app_comm a2), app_assoc, P1, <- !app_assoc, <- P2.
  by rewrite (Permutation_app_comm (records_of l1)).
Qed.

(** ** Lifecycle lemmas *)

(** The forward path and the states along it. *)
Definition forward_path : list LifecycleOp := [LAccept; LExporterReady; LBeginEnumeration; LActivate].
Definition forward_states : list AttachmentState := [Offered; Accepted; ExporterReady; Enumerating; Active].

(** The histories of successful operations and the state each one leads to. *)
Inductive lifecycle_history : list LifecycleOp -> AttachmentState -> Prop :=
| history_forward k s : forward_states !! k = Some s -> lifecycle_history (take k forward_path) s
| history_draining k : (1 <= k <= 4)%nat -> lifecycle_history (take k forward_path ++ [LBeginDrain]) Draining
| history_detached k : (1 <= k <= 4)%nat ->
    lifecycle_history (take k forward_path ++ [LBeginDrain; LDetach]) Detached.

Lemma lifecycle_step_history m op m' r h :
  lifecycle_history h (machine_state m) -> lifecycle_step m op = (m', r) ->
  machine_generation m' = machine_generation m /\
  lifecycle_history (if is_ok r then h ++ [op] else h) (machine_state m') /\
  (is_ok r = false -> m' = m).
Proof.
  intros Hh E. destruct m as [g s]. cbn in Hh.
  inversion Hh as [k s' Hk Eh Es|k Hk Eh Es|k Hk Eh Es]; subst;
    [do 5 (destruct k as [|k]; [cbn in Hk; injection Hk as <-; destruct op; cbn in E; injection E as <- <-; cbn;
       (split_and!; [done| |done]);
       first [ exact (history_forward 0 _ eq_refl) | exact (history_forward 1 _ eq_refl)
             | exact (history_forward 2 _ eq_refl) | exact (history_forward 3 _ eq_refl)
             | exact (history_forward 4 _ eq_refl)
             | exact (history_draining 1 ltac:(lia)) | exact (history_draining 2 ltac:(lia))
             | exact (history_draining 3 ltac:(lia)) | exact (history_draining 4 ltac:(lia)) ]|]);
     done|..].
  - destruct op; cbn in E; injection E as <- <-; cbn; (split_and!; [done| |done]); try done.
    rewrite <- app_assoc. by constructor.
  - destruct op; cbn in E; injection E as <- <-; cbn; (split_and!; [done| |done]); done.
Qed.

Lemma lifecycle_run_history ops : forall m m' done h,
  lifecycle_history h (machine_state m) -> lifecycle_run m ops = (m', done) ->
  machine_generation m' = machine_generation m /\ lifecycle_history (h ++ done) (machine_state m').
Proof.
  induction ops as [|op ops IH]; intros m m' done h Hh E; cbn in E.
  { injection E as <- <-. by rewrite app_nil_r. }
  destruct (lifecycle_step m op) as [m1 r] eqn:E1. destruct (lifecycle_run m1 ops) as [m2 d] eqn:E2.
  injection E as <- <-. destruct (lifecycle_step_history _ _ _ _ _ Hh E1) as (Hg & Hh1 & _).
  destruct (IH _ _ _ _ Hh1 E2) as [Hg2 Hh2]. split; [congruence|].
  destruct (is_ok r); [|done]. by rewrite <- app_assoc in Hh2.
Qed.

(** ** Properties *)

(** C23: No request is lost or handed back twice: after any sequence of
    submissions, completions, cancellations and drains, the accepted requests
    are exactly those handed back plus those still in flight, and at most 128
    are ever in flight. *)
Theorem ledger_conserves_requests (ops : list LedgerOp) :
  let '(l, accepted, returned) := ledger_run ∅ ops in
  accepted ≡ₚ returned ++ (map_to_list l).*2 /\ ledger_len l <= MAX_IN_FLIGHT_URBS.
Proof.
  destruct (ledger_run ∅ ops) as [[l acc] ret] eqn:E. apply ledger_run_conserves in E as [Hp Hs].
  rewrite map_to_list_empty, app_nil_r in Hp. split; [done|]. apply Hs. done.
Qed.

(** A request of another generation is out of reach: completing or
    cancelling it is refused as stale and changes nothing, draining a
    generation leaves it in place, and draining its own generation removes
    every request of that generation and only those. *)
Theorem ledger_generation_isolation l g id r :
  l !! id = Some r -> urb_generation r <> g ->
  complete l g id = (l, Err (StaleGeneration (urb_generation r) g)) /\
  cancel l g id = (l, Err (StaleGeneration (urb_generation r) g)) /\
  (drain_generation l g).1 !! id = Some r /\
  Forall (fun r' => urb_generation r' = g) (drain_generation l g).2 /\
  (forall k r', (drain_generation l g).1 !! k = Some r' <-> l !! k = Some r' /\ urb_generation r' <> g).
Proof.
  intros El Hg. unfold complete, cancel, take_matching. rewrite El, (proj2 (Z.eqb_neq _ _) Hg). cbn [negb].
  destruct (drain_generation l g) as [l' rs] eqn:Ed.
  apply drain_generation_spec in Ed as (_ & Hf & Hk). cbn. split_and!; try done.
  - rewrite Hk, El. by rewrite decide_False.
  - intros k r'. rewrite Hk. destruct (l !! k); [case_decide|]; naive_solver.
Qed.

Lemma ledger_generation_isolation_witness :
  complete {[ 1 := mkUrbRecord 1 129 Interrupt 10 1000 ]} 2 1
    = ({[ 1 := mkUrbRecord 1 129 Interrupt 10 1000 ]}, Err (StaleGeneration 1 2)).
Proof.
  apply (ledger_generation_isolation {[ 1 := mkUrbRecord 1 129 Interrupt 10 1000 ]} 2 1
           (mkUrbRecord 1 129 Interrupt 10 1000)); [reflexivity|vm_compute; congruence].
Defined.

(** The attachment lifecycle cannot skip or repeat a step: whatever is
    attempted on an offered attachment, the operations that succeeded are a
    prefix of accept, exporter-ready, begin-enumeration, activate, possibly
    followed by begin-drain (after accept) and detach, and they determine the
    state; the generation never changes. In particular an active attachment
    went through all four steps in order. *)
Theorem lifecycle_is_strict g ops m done :
  lifecycle_run (offered g) ops = (m, done) ->
  machine_generation m = g /\ lifecycle_history done (machine_state m) /\
  (machine_state m = Active -> done = forward_path).
Proof.
  intros E.
  destruct (lifecycle_run_history ops (offered g) m done [] (history_forward 0 _ eq_refl) E) as [Hg Hh].
  split_and!; [done|done|]. cbn in Hh. intros Ha. rewrite Ha in Hh. inversion Hh as [k s Hk| |]; subst.
  do 4 (destruct k as [|k]; [done|]). destruct k; [done|]. cbn in Hk. done.
Qed.

Lemma lifecycle_is_strict_witness :
  lifecycle_history [LAccept; LBeginDrain]
    (machine_state (lifecycle_run (offered 7) [LAccept; LActivate; LBeginDrain; LAccept]).1).
Proof.
  apply (lifecycle_is_strict 7 [LAccept; LActivate; LBeginDrain; LAccept]). reflexivity.
Defined.
