(* ===== verification/ProtocolWire.v ===== *)
(** * Protocol: media and clipboard frames

    Models the video, audio, microphone and clipboard codecs of
    [shared/protocol/src/wire.rs].  A frame is a list of bytes.  Every decoder
    checks the length of its input before it indexes it, so reads are written
    with [byte_at], [slice] and [slice_from].  [try_reserve_exact] is the
    environment's: the encoders that allocate take the predicate saying which
    sizes the allocator grants. *)

From S2P Require Import Prelude.

(** ** Constants *)

Definition VIDEO_HEADER_SIZE : Z := 10.
Definition REGION_VIDEO_HEADER_SIZE : Z := 26.
Definition VIDEO_KEYFRAME_FLAG : Z := 1.
Definition VIDEO_BIT_DEPTH_MASK : Z := 6.
Definition VIDEO_BIT_DEPTH_SHIFT : Z := 1.
Definition VIDEO_FULL_RANGE_FLAG : Z := 8.
Definition VIDEO_MATRIX_MASK : Z := 112.
Definition VIDEO_MATRIX_SHIFT : Z := 4.
Definition AUDIO_HEADER_SIZE : Z := 8.
Definition MICROPHONE_HEADER_SIZE : Z := 16.
Definition MICROPHONE_PROTOCOL_VERSION : Z := 1.
Definition MAX_MICROPHONE_OPUS_BYTES : Z := 1275.
Definition MICROPHONE_PCM_BYTES : Z := 960 * 2.
Definition CHUNK_BYTES : Z := 1024 * 1024.
Definition CLIPBOARD_HEADER_SIZE : Z := 20.
Definition SESSION_RECORD_LENGTH_BYTES : Z := 4.
Definition SESSION_RECORD_KIND_BYTES : Z := 1.
Definition CLIPBOARD_CHUNK_PAYLOAD_BYTES : Z :=
  CHUNK_BYTES - SESSION_RECORD_LENGTH_BYTES - SESSION_RECORD_KIND_BYTES - CLIPBOARD_HEADER_SIZE.
Definition HARD_MAX_CLIPBOARD_BYTES : Z := 20 * 1024 * 1024.

(** ** Wire enums *)

Inductive FrameType :=
| VideoFull | VideoPartial | VideoH264 | VideoH265 | VideoAv1
| RegionVideoFull | RegionVideoH264 | RegionVideoH265 | RegionVideoAv1
| FAudio | AudioUpstream | Clipboard
| HidDeviceAdded | HidDeviceRemoved | HidReport
| UsbBridgeUrbSubmit | UsbBridgeUrbCancel | UsbBridgeUrbComplete
| CursorUpdate.

Inductive VideoCodec := Jpeg | H264 | H265 | Vp9 | Av1.
Inductive ChromaSubsampling := Yuv420 | Yuv422 | Yuv444.
Inductive BitDepth := Eight | Ten | Twelve.
Inductive ColorRange := Limited | Full.
Inductive ColorMatrix := Bt709 | Identity | Bt601 | Bt2020Ncl.
Inductive AudioCodec := Opus | Pcm.
Inductive ClipboardContentKind := TextUtf8 | ImagePng.

#[global] Instance FrameType_eq_dec : EqDecision FrameType.
Proof. solve_decision. Defined.

Inductive ProtocolError :=
| ShortHeader
| UnknownFrameType (value : Z)
| UnknownVideoCodec (value : Z)
| UnknownChroma (value : Z)
| UnknownBitDepth (value : Z)
| UnknownColorMatrix (value : Z)
| UnknownAudioCodec (value : Z)
| LegacyVideoMonitorId
| RegionVideoMonitorId
| RegionTopologyGeneration
| RegionStreamEpoch
| MicrophoneReserved
| MicrophoneVersion (value : Z)
| MicrophoneSequence
| MicrophoneGeneration
| MicrophonePayloadSize
| UnknownClipboardKind (value : Z)
| ClipboardReserved
| HidShortFrame
| HidDescriptorTooLarge
| HidReportTooLarge
| UsbUrbShortFrame
| UsbUrbGeneration
| UsbUrbId
| UsbUrbTransferKind (value : Z)
| UsbUrbStatus (value : Z)
| UsbUrbReserved
| UsbUrbTimeout
| UsbUrbPayloadSize
| UsbUrbEndpoint
| UsbUrbSetup
| ClipboardSequence
| ClipboardTotalSize
| ClipboardPayloadSize
| ClipboardOffset
| AllocationFailed.

(** [frame_type as u8] *)
Definition frame_type_byte (t : FrameType) : Z :=
  match t with
  | VideoFull => 1 | VideoPartial => 2 | VideoH264 => 3 | VideoH265 => 4 | VideoAv1 => 5
  | RegionVideoFull => 6 | RegionVideoH264 => 7 | RegionVideoH265 => 8 | RegionVideoAv1 => 9
  | FAudio => 16 | AudioUpstream => 17 | Clipboard => 32
  | HidDeviceAdded => 48 | HidDeviceRemoved => 49 | HidReport => 50
  | UsbBridgeUrbSubmit => 64 | UsbBridgeUrbCancel => 65 | UsbBridgeUrbComplete => 66
  | CursorUpdate => 80
  end.

Definition FrameType_try_from (value : Z) : result ProtocolError FrameType :=
  match value with
  | 1 => Ok VideoFull | 2 => Ok VideoPartial | 3 => Ok VideoH264 | 4 => Ok VideoH265
  | 5 => Ok VideoAv1 | 6 => Ok RegionVideoFull | 7 => Ok RegionVideoH264
  | 8 => Ok RegionVideoH265 | 9 => Ok RegionVideoAv1 | 16 => Ok FAudio
  | 17 => Ok AudioUpstream | 32 => Ok Clipboard | 48 => Ok HidDeviceAdded
  | 49 => Ok HidDeviceRemoved | 50 => Ok HidReport | 64 => Ok UsbBridgeUrbSubmit
  | 65 => Ok UsbBridgeUrbCancel | 66 => Ok UsbBridgeUrbComplete | 80 => Ok CursorUpdate
  | other => Err (UnknownFrameType other)
  end.

Definition is_audio_frame (message : list Z) : bool :=
  bool_decide (head message = Some (frame_type_byte FAudio)).

Definition is_region_video (t : FrameType) : bool :=
  match t with
  | RegionVideoFull | RegionVideoH264 | RegionVideoH265 | RegionVideoAv1 => true
  | _ => false
  end.

Definition is_legacy_video (t : FrameType) : bool :=
  match t with
  | VideoFull | VideoPartial | VideoH264 | VideoH265 | VideoAv1 => true
  | _ => false
  end.

Definition video_codec_byte (c : VideoCodec) : Z :=
  match c with Jpeg => 0 | H264 => 1 | H265 => 2 | Vp9 => 3 | Av1 => 4 end.

Definition VideoCodec_try_from (value : Z) : result ProtocolError VideoCodec :=
  match value with
  | 0 => Ok Jpeg | 1 => Ok H264 | 2 => Ok H265 | 3 => Ok Vp9 | 4 => Ok Av1
  | other => Err (UnknownVideoCodec other)
  end.

Definition chroma_byte (c : ChromaSubsampling) : Z :=
  match c with Yuv420 => 0 | Yuv422 => 1 | Yuv444 => 2 end.

Definition ChromaSubsampling_try_from (value : Z) : result ProtocolError ChromaSubsampling :=
  match value with
  | 0 => Ok Yuv420 | 1 => Ok Yuv422 | 2 => Ok Yuv444
  | other => Err (UnknownChroma other)
  end.

Definition audio_codec_byte (c : AudioCodec) : Z :=
  match c with Opus => 0 | Pcm => 1 end.

Definition AudioCodec_try_from (value : Z) : result ProtocolError AudioCodec :=
  match value with
  | 0 => Ok Opus | 1 => Ok Pcm
  | other => Err (UnknownAudioCodec other)
  end.

Definition bit_depth_byte (d : BitDepth) : Z :=
  match d with Eight => 0 | Ten => 1 | Twelve => 2 end.
Definition color_matrix_byte (m : ColorMatrix) : Z :=
  match m with Bt709 => 0 | Identity => 1 | Bt601 => 2 | Bt2020Ncl => 3 end.

(** ** Video *)

Record VideoHeader := mkVideoHeader {
  frame_type : FrameType;
  codec : VideoCodec;
  chroma : ChromaSubsampling;
  flags : Z;
  timestamp_ms : Z;
  monitor_id : Z;
  topology_generation : Z;
  stream_epoch : Z
}.

Definition encoded_len (h : VideoHeader) : Z :=
  if is_region_video (frame_type h) then REGION_VIDEO_HEADER_SIZE else VIDEO_HEADER_SIZE.

Definition is_keyframe (h : VideoHeader) : bool :=
  negb (Z.land (flags h) VIDEO_KEYFRAME_FLAG =? 0)
  || match frame_type h with VideoFull | RegionVideoFull => true | _ => false end.

Definition bit_depth (h : VideoHeader) : result ProtocolError BitDepth :=
  match Z.shiftr (Z.land (flags h) VIDEO_BIT_DEPTH_MASK) VIDEO_BIT_DEPTH_SHIFT with
  | 0 => Ok Eight | 1 => Ok Ten | 2 => Ok Twelve
  | other => Err (UnknownBitDepth other)
  end.

Definition color_range (h : VideoHeader) : ColorRange :=
  if negb (Z.land (flags h) VIDEO_FULL_RANGE_FLAG =? 0) then Full else Limited.

Definition color_matrix (h : VideoHeader) : result ProtocolError ColorMatrix :=
  match Z.shiftr (Z.land (flags h) VIDEO_MATRIX_MASK) VIDEO_MATRIX_SHIFT with
  | 0 => Ok Bt709 | 1 => Ok Identity | 2 => Ok Bt601 | 3 => Ok Bt2020Ncl
  | other => Err (UnknownColorMatrix other)
  end.

Definition encode_flags (keyframe : bool) (depth : BitDepth) (range : ColorRange) (matrix : ColorMatrix) : Z :=
  let flags := 0 in
  let flags := if keyframe then Z.lor flags VIDEO_KEYFRAME_FLAG else flags in
  let flags := Z.lor flags (Z.land (wrapping 8 (Z.shiftl (bit_depth_byte depth) VIDEO_BIT_DEPTH_SHIFT))
                              VIDEO_BIT_DEPTH_MASK) in
  let flags := match range with Full => Z.lor flags VIDEO_FULL_RANGE_FLAG | Limited => flags end in
  Z.lor flags (Z.land (wrapping 8 (Z.shiftl (color_matrix_byte matrix) VIDEO_MATRIX_SHIFT))
                 VIDEO_MATRIX_MASK).

Definition encode_video_header (h : VideoHeader) : list Z :=
  [frame_type_byte (frame_type h); video_codec_byte (codec h); chroma_byte (chroma h); flags h]
  ++ to_be 4 (timestamp_ms h) ++ to_be 2 (monitor_id h)
  ++ (if is_region_video (frame_type h)
      then to_be 8 (topology_generation h) ++ to_be 8 (stream_epoch h) else []).

Definition decode_video_header (data : list Z) : result ProtocolError VideoHeader :=
  _ ← guard_err (len data <? VIDEO_HEADER_SIZE) ShortHeader;
  frame_type ← FrameType_try_from (byte_at data 0);
  let monitor_id := from_be (slice data 8 10) in
  ids ← (if is_region_video frame_type then
           _ ← guard_err (len data <? REGION_VIDEO_HEADER_SIZE) ShortHeader;
           _ ← guard_err (monitor_id =? 0) RegionVideoMonitorId;
           let topology_generation := from_be (slice data 10 18) in
           _ ← guard_err (topology_generation =? 0) RegionTopologyGeneration;
           let stream_epoch := from_be (slice data 18 26) in
           _ ← guard_err (stream_epoch =? 0) RegionStreamEpoch;
           Ok (topology_generation, stream_epoch)
         else
           _ ← guard_err (is_legacy_video frame_type && negb (monitor_id =? 0)) LegacyVideoMonitorId;
           Ok (0, 0));
  codec ← VideoCodec_try_from (byte_at data 1);
  chroma ← ChromaSubsampling_try_from (byte_at data 2);
  let header := mkVideoHeader frame_type codec chroma (byte_at data 3) (from_be (slice data 4 8))
                  monitor_id ids.1 ids.2 in
  _ ← bit_depth header;
  _ ← color_matrix header;
  Ok header.

(** ** Audio and microphone *)

Record AudioHeader := mkAudioHeader { audio_codec : AudioCodec; audio_timestamp_ms : Z }.

Definition encode_audio_header (h : AudioHeader) : list Z :=
  [frame_type_byte FAudio; audio_codec_byte (audio_codec h); 0; 0] ++ to_be 4 (audio_timestamp_ms h).

Definition decode_audio_header (data : list Z) : result ProtocolError AudioHeader :=
  _ ← guard_err (len data <? AUDIO_HEADER_SIZE) ShortHeader;
  t ← FrameType_try_from (byte_at data 0);
  _ ← guard_err (bool_decide (t <> FAudio)) (UnknownFrameType (byte_at data 0));
  c ← AudioCodec_try_from (byte_at data 1);
  Ok (mkAudioHeader c (from_be (slice data 4 8))).

Record MicrophoneHeader := mkMicrophoneHeader {
  mic_codec : AudioCodec;
  mic_sequence : Z;
  mic_timestamp_ms : Z;
  mic_generation : Z
}.

Definition encode_microphone_header (h : MicrophoneHeader) : result ProtocolError (list Z) :=
  _ ← guard_err (mic_sequence h =? 0) MicrophoneSequence;
  _ ← guard_err (mic_generation h =? 0) MicrophoneGeneration;
  Ok ([frame_type_byte AudioUpstream; audio_codec_byte (mic_codec h); MICROPHONE_PROTOCOL_VERSION; 0]
      ++ to_be 4 (mic_sequence h) ++ to_be 4 (mic_timestamp_ms h) ++ to_be 4 (mic_generation h)).

Definition microphone_payload_valid (c : AudioCodec) (payload_len : Z) : bool :=
  match c with
  | Pcm => payload_len =? MICROPHONE_PCM_BYTES
  | Opus => (1 <=? payload_len) && (payload_len <=? MAX_MICROPHONE_OPUS_BYTES)
  end.

Definition decode_microphone_frame (data : list Z) : result ProtocolError (MicrophoneHeader * list Z) :=
  _ ← guard_err (len data <? MICROPHONE_HEADER_SIZE) ShortHeader;
  t ← FrameType_try_from (byte_at data 0);
  _ ← guard_err (bool_decide (t <> AudioUpstream)) (UnknownFrameType (byte_at data 0));
  _ ← guard_err (negb (byte_at data 2 =? MICROPHONE_PROTOCOL_VERSION)) (MicrophoneVersion (byte_at data 2));
  _ ← guard_err (negb (byte_at data 3 =? 0)) MicrophoneReserved;
  c ← AudioCodec_try_from (byte_at data 1);
  let header := mkMicrophoneHeader c (from_be (slice data 4 8)) (from_be (slice data 8 12))
                  (from_be (slice data 12 16)) in
  _ ← guard_err (mic_sequence header =? 0) MicrophoneSequence;
  _ ← guard_err (mic_generation header =? 0) MicrophoneGeneration;
  let payload := slice_from data MICROPHONE_HEADER_SIZE in
  _ ← guard_err (negb (microphone_payload_valid (mic_codec header) (len payload))) MicrophonePayloadSize;
  Ok (header, payload).

(** ** Clipboard *)

Record ClipboardChunkHeader := mkChunkHeader {
  chunk_kind : ClipboardContentKind;
  chunk_sequence : Z;
  chunk_total_size : Z;
  chunk_offset : Z
}.

Definition clipboard_kind_byte (k : ClipboardContentKind) : Z :=
  match k with TextUtf8 => 0 | ImagePng => 1 end.

Definition clipboard_kind_try_from (value : Z) : result ProtocolError ClipboardContentKind :=
  match value with
  | 0 => Ok TextUtf8 | 1 => Ok ImagePng
  | other => Err (UnknownClipboardKind other)
  end.

Definition validate_clipboard_chunk (h : ClipboardChunkHeader) (payload_len : Z) : result ProtocolError unit :=
  _ ← guard_err (chunk_sequence h =? 0) ClipboardSequence;
  let total_size := chunk_total_size h in
  _ ← guard_err ((total_size =? 0) || (HARD_MAX_CLIPBOARD_BYTES <? total_size)) ClipboardTotalSize;
  _ ← guard_err ((payload_len =? 0) || (CHUNK_BYTES <? payload_len)) ClipboardPayloadSize;
  end_ ← ok_or (checked_add usize_bits (chunk_offset h) payload_len) ClipboardOffset;
  guard_err (total_size <? end_) ClipboardOffset.

Definition encode_clipboard_chunk (can_reserve : Z -> bool) (h : ClipboardChunkHeader) (payload : list Z)
  : result ProtocolError (list Z) :=
  _ ← validate_clipboard_chunk h (len payload);
  frame_len ← ok_or (checked_add usize_bits CLIPBOARD_HEADER_SIZE (len payload)) AllocationFailed;
  _ ← guard_err (negb (can_reserve frame_len)) AllocationFailed;
  Ok ([frame_type_byte Clipboard; clipboard_kind_byte (chunk_kind h); 0; 0]
      ++ to_be 8 (chunk_sequence h) ++ to_be 4 (chunk_total_size h) ++ to_be 4 (chunk_offset h) ++ payload).

Definition decode_clipboard_chunk (encoded : list Z)
  : result ProtocolError (ClipboardChunkHeader * list Z) :=
  _ ← guard_err (len encoded <? CLIPBOARD_HEADER_SIZE) ShortHeader;
  t ← FrameType_try_from (byte_at encoded 0);
  _ ← guard_err (bool_decide (t <> Clipboard)) (UnknownFrameType (byte_at encoded 0));
  kind ← clipboard_kind_try_from (byte_at encoded 1);
  _ ← guard_err (negb (byte_at encoded 2 =? 0) || negb (byte_at encoded 3 =? 0)) ClipboardReserved;
  let header := mkChunkHeader kind (from_be (slice encoded 4 12)) (from_be (slice encoded 12 16))
                  (from_be (slice encoded 16 20)) in
  let payload := slice_from encoded CLIPBOARD_HEADER_SIZE in
  _ ← validate_clipboard_chunk header (len payload);
  Ok (header, payload).

(** ** Lemmas *)

Lemma FrameType_byte_roundtrip t : FrameType_try_from (frame_type_byte t) = Ok t.
Proof. by destruct t. Qed.
Lemma VideoCodec_byte_roundtrip c : VideoCodec_try_from (video_codec_byte c) = Ok c.
Proof. by destruct c. Qed.
Lemma Chroma_byte_roundtrip c : ChromaSubsampling_try_from (chroma_byte c) = Ok c.
Proof. by destruct c. Qed.
Lemma AudioCodec_byte_roundtrip c : AudioCodec_try_from (audio_codec_byte c) = Ok c.
Proof. by destruct c. Qed.
Lemma clipboard_kind_roundtrip k : clipboard_kind_try_from (clipboard_kind_byte k) = Ok k.
Proof. by destruct k. Qed.

Ltac invert_byte := unfold FrameType_try_from, VideoCodec_try_from, ChromaSubsampling_try_from,
  AudioCodec_try_from, clipboard_kind_try_from; repeat case_match; intros [= <-]; done.

Lemma FrameType_try_from_Ok v t : FrameType_try_from v = Ok t -> v = frame_type_byte t.
Proof. invert_byte. Qed.
Lemma VideoCodec_try_from_Ok v c : VideoCodec_try_from v = Ok c -> v = video_codec_byte c.
Proof. invert_byte. Qed.
Lemma Chroma_try_from_Ok v c : ChromaSubsampling_try_from v = Ok c -> v = chroma_byte c.
Proof. invert_byte. Qed.
Lemma AudioCodec_try_from_Ok v c : AudioCodec_try_from v = Ok c -> v = audio_codec_byte c.
Proof. invert_byte. Qed.
Lemma clipboard_kind_try_from_Ok v k : clipboard_kind_try_from v = Ok k -> v = clipboard_kind_byte k.
Proof. invert_byte. Qed.

(** ** Video lemmas *)

(** Field widths of the Rust type. *)
Definition video_header_typed (h : VideoHeader) : Prop :=
  is_u8 (flags h) /\ is_u32 (timestamp_ms h) /\ is_u16 (monitor_id h) /\
  is_u64 (topology_generation h) /\ is_u64 (stream_epoch h).

(** The headers a decoder accepts. *)
Definition video_header_valid (h : VideoHeader) : Prop :=
  (if is_region_video (frame_type h)
   then monitor_id h <> 0 /\ topology_generation h <> 0 /\ stream_epoch h <> 0
   else (is_legacy_video (frame_type h) = true -> monitor_id h = 0) /\
        topology_generation h = 0 /\ stream_epoch h = 0) /\
  (exists d, bit_depth h = Ok d) /\ (exists m, color_matrix h = Ok m).

Lemma colour_checks (h : VideoHeader) :
  (_ ← bit_depth h; _ ← color_matrix h; Ok h) = Ok h <->
  (exists d, bit_depth h = Ok d) /\ (exists m, color_matrix h = Ok m).
Proof. destruct (bit_depth h), (color_matrix h); cbn; naive_solver. Qed.

Lemma colour_checks_Ok (h h' : VideoHeader) :
  (_ ← bit_depth h; _ ← color_matrix h; Ok h) = Ok h' ->
  h' = h /\ (exists d, bit_depth h = Ok d) /\ (exists m, color_matrix h = Ok m).
Proof. destruct (bit_depth h), (color_matrix h); cbn; naive_solver. Qed.

Lemma decode_encode_video h rest :
  video_header_typed h ->
  (decode_video_header (encode_video_header h ++ rest) = Ok h <-> video_header_valid h).
Proof.
  intros (Hf & Ht & Hm & Hg & He). unfold video_header_valid. rewrite <- colour_checks.
  unfold encode_video_header, decode_video_header, VIDEO_HEADER_SIZE, REGION_VIDEO_HEADER_SIZE.
  destruct (is_region_video (frame_type h)) eqn:Er; open_bytes; cbn [app]; check_len; compute_reads;
    rewrite FrameType_byte_roundtrip; cbn [mbind result_bind]; rewrite Er.
  - check_len. close_bytes. cbv zeta.
    destruct (Z.eqb_spec (monitor_id h) 0); cbn [guard_err mbind result_bind]; [by split; [|intros [[? _] _]]|].
    destruct (Z.eqb_spec (topology_generation h) 0); cbn [guard_err mbind result_bind];
      [by split; [|intros [(_ & ? & _) _]]|].
    destruct (Z.eqb_spec (stream_epoch h) 0); cbn [guard_err mbind result_bind];
      [by split; [|intros [(_ & _ & ?) _]]|].
    rewrite VideoCodec_byte_roundtrip, Chroma_byte_roundtrip. cbn [mbind result_bind fst snd].
    replace (mkVideoHeader _ _ _ _ _ _ _ _) with h by (by destruct h). by split; [|intros [_ ?]].
  - close_bytes. cbv zeta.
    destruct (is_legacy_video (frame_type h)), (Z.eqb_spec (monitor_id h) 0) as [E0|E0];
      cbn [andb negb guard_err mbind result_bind];
      [|split; [discriminate|intros [[Hmon _] _]; destruct E0; by apply Hmon]|..];
      rewrite VideoCodec_byte_roundtrip, Chroma_byte_roundtrip; cbn [mbind result_bind fst snd];
      (split; [intros H; pose proof (colour_checks_Ok _ _ H) as [Eh _];
               assert (topology_generation h = 0 /\ stream_epoch h = 0) as [] by (rewrite Eh; done);
               rewrite <- Eh in H; by split_and!
              |intros [(_ & Eg & Ee) H];
               replace (mkVideoHeader _ _ _ _ _ _ _ _) with h by (destruct h; cbn in *; by subst); done]).
Qed.

Lemma decode_video_canonical data h :
  Forall is_u8 data -> decode_video_header data = Ok h ->
  exists rest, data = encode_video_header h ++ rest /\ video_header_typed h /\ video_header_valid h.
Proof.
  intros Hb E. unfold decode_video_header, VIDEO_HEADER_SIZE, REGION_VIDEO_HEADER_SIZE in E.
  apply bind_Ok in E as ([] & Hl & E). apply guard_err_Ok, Z.ltb_ge in Hl.
  explode_prefix data 10%nat. revert E. compute_reads. intros E.
  apply bind_Ok in E as (t & Et & E). apply FrameType_try_from_Ok in Et. cbv zeta in E.
  unfold video_header_valid, video_header_typed.
  destruct (is_region_video t) eqn:Er; inv_ok; boolify.
  - rewrite !len_cons in *. explode_prefix data 16%nat. cbn [fst snd take drop] in *. byte_facts. exists data.
    apply VideoCodec_try_from_Ok in H0. apply Chroma_try_from_Ok in H1. subst.
    cbn [frame_type codec chroma flags timestamp_ms monitor_id topology_generation stream_epoch].
    rewrite Er. split_and!; [|solve_width..|assumption|assumption|assumption|eauto|eauto].
    unfold encode_video_header. cbn [frame_type codec chroma flags timestamp_ms monitor_id topology_generation stream_epoch].
    rewrite Er. by reencode.
  - cbn [fst snd] in *. byte_facts. exists data.
    apply VideoCodec_try_from_Ok in H0. apply Chroma_try_from_Ok in H1. subst.
    cbn [frame_type codec chroma flags timestamp_ms monitor_id topology_generation stream_epoch].
    rewrite Er. split_and!; [|solve_width..| |done|done|eauto|eauto].
    + unfold encode_video_header. cbn [frame_type codec chroma flags timestamp_ms monitor_id topology_generation stream_epoch].
      rewrite Er. by reencode.
    + intros El. rewrite El in *. by destruct H; boolify.
Qed.

(** ** Microphone and clipboard lemmas *)

Definition microphone_header_typed (h : MicrophoneHeader) : Prop :=
  is_u32 (mic_sequence h) /\ is_u32 (mic_timestamp_ms h) /\ is_u32 (mic_generation h).

Lemma decode_encode_microphone h hb payload :
  microphone_header_typed h -> encode_microphone_header h = Ok hb ->
  microphone_payload_valid (mic_codec h) (len payload) = true ->
  decode_microphone_frame (hb ++ payload) = Ok (h, payload).
Proof.
  intros (Hs & Ht & Hg) E Hp. unfold encode_microphone_header in E. inv_ok. boolify.
  unfold decode_microphone_frame, MICROPHONE_HEADER_SIZE, MICROPHONE_PROTOCOL_VERSION.
  open_bytes. cbn [app]. check_len. compute_reads.
  rewrite FrameType_byte_roundtrip. cbn [mbind result_bind]. rewrite bool_decide_eq_false_2 by auto.
  cbn [guard_err mbind result_bind negb Z.eqb Pos.eqb]. rewrite AudioCodec_byte_roundtrip.
  cbn [mbind result_bind mic_sequence mic_generation mic_codec]. close_bytes.
  rewrite (proj2 (Z.eqb_neq (mic_sequence h) 0)), (proj2 (Z.eqb_neq (mic_generation h) 0)) by done.
  cbn [guard_err mbind result_bind]. rewrite Hp. cbn. by destruct h.
Qed.

Lemma decode_microphone_canonical data h payload :
  Forall is_u8 data -> decode_microphone_frame data = Ok (h, payload) ->
  exists hb, encode_microphone_header h = Ok hb /\ data = hb ++ payload /\
    microphone_header_typed h /\ microphone_payload_valid (mic_codec h) (len payload) = true.
Proof.
  intros Hb E. unfold decode_microphone_frame, MICROPHONE_HEADER_SIZE in E.
  apply bind_Ok in E as ([] & Hl & E). apply guard_err_Ok, Z.ltb_ge in Hl.
  explode_prefix data 16%nat. revert E. compute_reads. intros E. cbv zeta in E. inv_ok.
  apply bool_decide_eq_false, dec_stable in H0. subst. boolify.
  apply FrameType_try_from_Ok in H. apply AudioCodec_try_from_Ok in H3. subst. byte_facts.
  unfold encode_microphone_header, microphone_header_typed in *.
  cbn [mic_sequence mic_generation mic_codec mic_timestamp_ms] in *.
  rewrite (proj2 (Z.eqb_neq _ _) H4), (proj2 (Z.eqb_neq _ _) H5). cbn [guard_err mbind result_bind].
  eexists. split; [reflexivity|]. split_and!; [by reencode|solve_width..|done].
Qed.

Definition chunk_header_typed (h : ClipboardChunkHeader) : Prop :=
  is_u64 (chunk_sequence h) /\ is_u32 (chunk_total_size h) /\ is_u32 (chunk_offset h).

Lemma validate_clipboard_Ok h n :
  chunk_header_typed h -> 0 <= n ->
  validate_clipboard_chunk h n = Ok tt <->
  chunk_sequence h <> 0 /\ 0 < chunk_total_size h <= HARD_MAX_CLIPBOARD_BYTES /\
  0 < n <= CHUNK_BYTES /\ chunk_offset h + n <= chunk_total_size h.
Proof.
  intros (Hs & Ht & Ho) Hn. unfold validate_clipboard_chunk, in_width in *. split.
  - intros E. inv_ok. boolify. apply checked_add_Some in H2 as [-> ?]. lia.
  - intros (Hs0 & Ht0 & Hn0 & He). rewrite (proj2 (Z.eqb_neq _ _) Hs0). cbn [guard_err mbind result_bind].
    rewrite (proj2 (Z.eqb_neq _ 0)), (proj2 (Z.ltb_ge _ _)) by lia. cbn [orb guard_err mbind result_bind].
    rewrite (proj2 (Z.eqb_neq _ 0)), (proj2 (Z.ltb_ge _ _)) by lia. cbn [orb guard_err mbind result_bind].
    assert (Hc : checked_add usize_bits (chunk_offset h) n = Some (chunk_offset h + n)).
    { apply checked_add_Some. split; [done|]. unfold umax, usize_bits, HARD_MAX_CLIPBOARD_BYTES in *. pow2. lia. }
    rewrite Hc. cbn. rewrite (proj2 (Z.ltb_ge _ _)) by lia. done.
Qed.

Lemma decode_encode_clipboard can h payload frame :
  chunk_header_typed h -> encode_clipboard_chunk can h payload = Ok frame ->
  decode_clipboard_chunk frame = Ok (h, payload).
Proof.
  intros (Hs & Ht & Ho) E. unfold encode_clipboard_chunk in E. inv_ok.
  unfold decode_clipboard_chunk, CLIPBOARD_HEADER_SIZE. open_bytes. cbn [app]. check_len. compute_reads.
  rewrite FrameType_byte_roundtrip. cbn [mbind result_bind]. rewrite bool_decide_eq_false_2 by auto.
  cbn [guard_err mbind result_bind negb Z.eqb orb]. rewrite clipboard_kind_roundtrip.
  cbn [mbind result_bind]. close_bytes. replace (mkChunkHeader _ _ _ _) with h by (by destruct h).
  by rewrite H.
Qed.

Lemma decode_clipboard_canonical data h payload :
  Forall is_u8 data -> decode_clipboard_chunk data = Ok (h, payload) ->
  chunk_header_typed h /\ validate_clipboard_chunk h (len payload) = Ok tt /\
  data = [frame_type_byte Clipboard; clipboard_kind_byte (chunk_kind h); 0; 0]
      ++ to_be 8 (chunk_sequence h) ++ to_be 4 (chunk_total_size h) ++ to_be 4 (chunk_offset h) ++ payload.
Proof.
  intros Hb E. unfold decode_clipboard_chunk, CLIPBOARD_HEADER_SIZE in E.
  apply bind_Ok in E as ([] & Hl & E). apply guard_err_Ok, Z.ltb_ge in Hl.
  explode_prefix data 20%nat. revert E. compute_reads. intros E. cbv zeta in E. inv_ok.
  apply bool_decide_eq_false, dec_stable in H0. subst. boolify.
  apply FrameType_try_from_Ok in H. apply clipboard_kind_try_from_Ok in H1. subst. byte_facts.
  unfold chunk_header_typed in *. cbn [chunk_kind chunk_sequence chunk_total_size chunk_offset] in *.
  split_and!; [solve_width..| |by reencode]. by repeat match goal with u : unit |- _ => destruct u end.
Qed.

(** ** Properties *)

(** A byte string decodes to a video header exactly when it starts with the
    encoding of that header and the header is one the format allows: region
    frames name a monitor, a topology generation and a stream epoch, other
    frames carry neither generation nor epoch and legacy frames no monitor, and
    the colour bits are not reserved values. Decoding loses and invents
    nothing. *)
Theorem video_header_codec_exact (data : list Z) (h : VideoHeader) :
  Forall is_u8 data ->
  decode_video_header data = Ok h <->
  exists rest, data = encode_video_header h ++ rest /\ video_header_typed h /\ video_header_valid h.
Proof.
  intros Hb. split.
  - by apply decode_video_canonical.
  - intros (rest & -> & Ht & Hv). by apply decode_encode_video.
Qed.

Definition sample_region_header : VideoHeader :=
  mkVideoHeader RegionVideoH265 H265 Yuv444 (encode_flags true Ten Full Identity) 123456 2 7 9.

Lemma video_header_codec_exact_witness :
  decode_video_header (encode_video_header sample_region_header ++ [170; 187]) = Ok sample_region_header.
Proof.
  apply (video_header_codec_exact (encode_video_header sample_region_header ++ [170; 187])).
  - apply (bool_decide_unpack _). vm_compute. exact I.
  - exists [170; 187]. unfold video_header_typed, video_header_valid.
    split_and!; try (vm_compute; split; congruence); try (vm_compute; congruence); try reflexivity; by eexists.
Defined.

(** The flags byte built for a packet's colour truth is a byte that states
    exactly the keyframe bit, depth, range and matrix it was built from. *)
Theorem video_flags_state_colour keyframe depth range matrix h :
  flags h = encode_flags keyframe depth range matrix ->
  is_u8 (flags h) /\ bit_depth h = Ok depth /\ color_range h = range /\ color_matrix h = Ok matrix /\
  is_keyframe h = keyframe || match frame_type h with VideoFull | RegionVideoFull => true | _ => false end.
Proof.
  intros E. unfold bit_depth, color_range, color_matrix, is_keyframe, in_width. rewrite E.
  by destruct keyframe, depth, range, matrix.
Qed.

Lemma video_flags_state_colour_witness :
  bit_depth sample_region_header = Ok Ten /\ color_matrix sample_region_header = Ok Identity.
Proof.
  destruct (video_flags_state_colour true Ten Full Identity sample_region_header eq_refl)
    as (_ & ? & _ & ? & _). by split.
Defined.

(** A byte string decodes as a microphone frame exactly when it is the
    encoded header of that frame followed by a payload of the size its codec
    allows (1920 bytes of PCM, or 1 to 1275 bytes of Opus). *)
Theorem microphone_frame_codec_exact (data : list Z) (h : MicrophoneHeader) (payload : list Z) :
  Forall is_u8 data ->
  decode_microphone_frame data = Ok (h, payload) <->
  exists hb, encode_microphone_header h = Ok hb /\ data = hb ++ payload /\
    microphone_header_typed h /\ microphone_payload_valid (mic_codec h) (len payload) = true.
Proof.
  intros Hb. split; [by apply decode_microphone_canonical|].
  intros (hb & E & -> & Ht & Hp). by apply decode_encode_microphone.
Qed.

Lemma microphone_frame_codec_exact_witness :
  decode_microphone_frame ([17; 0; 1; 0; 0; 0; 0; 5; 0; 0; 1; 0; 0; 0; 0; 3] ++ [1; 2; 3])
    = Ok (mkMicrophoneHeader Opus 5 256 3, [1; 2; 3]).
Proof.
  apply (microphone_frame_codec_exact
           ([17; 0; 1; 0; 0; 0; 0; 5; 0; 0; 1; 0; 0; 0; 0; 3] ++ [1; 2; 3])
           (mkMicrophoneHeader Opus 5 256 3) [1; 2; 3]).
  - apply (bool_decide_unpack _). vm_compute. exact I.
  - exists [17; 0; 1; 0; 0; 0; 0; 5; 0; 0; 1; 0; 0; 0; 0; 3]. unfold microphone_header_typed, in_width.
    split_and!; try reflexivity; vm_compute; congruence.
Defined.

(** Clipboard chunks round trip in both directions. A frame decodes to a
    chunk exactly when an allocation of its size lets the encoder produce that
    very frame; the chunk then has a nonzero sequence, fits its declared total,
    which is at most 20 MiB, and a payload no larger than the sender's chunk
    size makes a session record of at most 1 MiB. *)
Theorem clipboard_chunk_codec_exact can_reserve data h payload :
  Forall is_u8 data -> can_reserve (CLIPBOARD_HEADER_SIZE + len payload) = true ->
  (decode_clipboard_chunk data = Ok (h, payload) <->
   chunk_header_typed h /\ encode_clipboard_chunk can_reserve h payload = Ok data) /\
  (decode_clipboard_chunk data = Ok (h, payload) ->
   chunk_sequence h <> 0 /\ chunk_offset h + len payload <= chunk_total_size h <= HARD_MAX_CLIPBOARD_BYTES /\
   0 < len payload <= CHUNK_BYTES /\
   (len payload <= CLIPBOARD_CHUNK_PAYLOAD_BYTES ->
    SESSION_RECORD_LENGTH_BYTES + SESSION_RECORD_KIND_BYTES + len data <= CHUNK_BYTES)).
Proof.
  intros Hb Hc.
  assert (Hdec : decode_clipboard_chunk data = Ok (h, payload) -> _) by apply (decode_clipboard_canonical _ _ _ Hb).
  pose proof (len_nonneg payload). split; [split|].
  - intros E. destruct (Hdec E) as (Ht & Hv & Ed). split; [done|].
    unfold encode_clipboard_chunk. rewrite Hv. cbn [mbind result_bind].
    apply validate_clipboard_Ok in Hv as (_ & _ & Hn & _); [|done..].
    assert (Ha : checked_add usize_bits CLIPBOARD_HEADER_SIZE (len payload) = Some (CLIPBOARD_HEADER_SIZE + len payload)).
    { apply checked_add_Some. split; [done|]. unfold umax, usize_bits, CHUNK_BYTES, CLIPBOARD_HEADER_SIZE in *. pow2. lia. }
    rewrite Ha. cbn [ok_or mbind result_bind]. rewrite Hc. by rewrite Ed.
  - intros [Ht E]. by eapply decode_encode_clipboard.
  - intros E. destruct (Hdec E) as (Ht & Hv & Ed).
    apply validate_clipboard_Ok in Hv as (Hs & Htot & Hn & Ho); [|done..].
    assert (Hl : len data = 20 + len payload).
    { rewrite Ed. unfold len. rewrite !length_app, !to_be_length. cbn [length]. lia. }
    unfold CLIPBOARD_CHUNK_PAYLOAD_BYTES, CHUNK_BYTES, SESSION_RECORD_LENGTH_BYTES,
      SESSION_RECORD_KIND_BYTES, CLIPBOARD_HEADER_SIZE in *. split_and!; lia.
Qed.

Lemma clipboard_chunk_codec_exact_witness :
  decode_clipboard_chunk [32; 0; 0; 0; 0; 0; 0; 0; 0; 0; 0; 1; 0; 0; 0; 2; 0; 0; 0; 0; 104; 105]
    = Ok (mkChunkHeader TextUtf8 1 2 0, [104; 105]).
Proof.
  apply (clipboard_chunk_codec_exact (fun _ => true)
           [32; 0; 0; 0; 0; 0; 0; 0; 0; 0; 0; 1; 0; 0; 0; 2; 0; 0; 0; 0; 104; 105]
           (mkChunkHeader TextUtf8 1 2 0) [104; 105]).
  - apply (bool_decide_unpack _). vm_compute. exact I.
  - reflexivity.
  - unfold chunk_header_typed, in_width. split_and!; try reflexivity; vm_compute; congruence.
Defined.
