(* ===== verification/ProtocolUsb.v ===== *)
(** * Protocol: HID passthrough and USB URB frames

    Models the HID and normalized-URB codecs of [shared/protocol/src/wire.rs].
    Generations and URB ids are nonzero in the source; here they are integers
    and the nonzero checks of the decoders are explicit. *)

From S2P Require Import Prelude UsbDescriptor ProtocolWire.

Definition HID_DEVICE_ADDED_HEADER_SIZE : Z := 8.
Definition HID_MINIMAL_FRAME_SIZE : Z := 2.
Definition MAX_HID_DESCRIPTOR_LEN : Z := 4096.
Definition MAX_HID_REPORT_LEN : Z := 4096.
Definition USB_URB_SUBMIT_HEADER_SIZE : Z := 33.
Definition USB_URB_CANCEL_SIZE : Z := 13.
Definition USB_URB_COMPLETE_HEADER_SIZE : Z := 20.
Definition MAX_USB_URB_TIMEOUT_MS : Z := 1000.
Definition MAX_TRANSFER_BYTES : Z := 16 * 1024.

(** ** HID passthrough *)

Record HidDeviceAddedHeader := mkHidHeader {
  hid_device_id : Z;
  hid_vendor_id : Z;
  hid_product_id : Z
}.

Definition encode_hid_device_added (h : HidDeviceAddedHeader) (descriptor : list Z) : list Z :=
  [frame_type_byte HidDeviceAdded; hid_device_id h]
  ++ to_le 2 (hid_vendor_id h) ++ to_le 2 (hid_product_id h)
  ++ to_le 2 (wrapping 16 (len descriptor)) ++ descriptor.

Definition decode_hid_device_added (data : list Z)
  : result ProtocolError (HidDeviceAddedHeader * list Z) :=
  _ ← guard_err (len data <? HID_DEVICE_ADDED_HEADER_SIZE) HidShortFrame;
  let device_id := byte_at data 1 in
  let vendor_id := from_le (slice data 2 4) in
  let product_id := from_le (slice data 4 6) in
  let desc_len := from_le (slice data 6 8) in
  _ ← guard_err (MAX_HID_DESCRIPTOR_LEN <? desc_len) HidDescriptorTooLarge;
  let end_ := HID_DEVICE_ADDED_HEADER_SIZE + desc_len in
  _ ← guard_err (len data <? end_) HidShortFrame;
  Ok (mkHidHeader device_id vendor_id product_id,
      slice data HID_DEVICE_ADDED_HEADER_SIZE end_).

Definition encode_hid_device_removed (device_id : Z) : list Z :=
  [frame_type_byte HidDeviceRemoved; device_id].

Definition encode_hid_report (device_id : Z) (report : list Z) : list Z :=
  [frame_type_byte HidReport; device_id] ++ report.

Definition decode_hid_report (data : list Z) : result ProtocolError (Z * list Z) :=
  _ ← guard_err (len data <? HID_MINIMAL_FRAME_SIZE) HidShortFrame;
  let payload := slice_from data HID_MINIMAL_FRAME_SIZE in
  _ ← guard_err (MAX_HID_REPORT_LEN <? len payload) HidReportTooLarge;
  Ok (byte_at data 1, payload).

Definition decode_hid_device_removed (data : list Z) : result ProtocolError Z :=
  _ ← guard_err (len data <? HID_MINIMAL_FRAME_SIZE) HidShortFrame;
  Ok (byte_at data 1).

(** ** URB envelopes *)

Inductive UrbStatus := Success | Cancelled | TimedOut | Stall | Disconnected | Protocol | Io.

#[global] Instance UrbStatus_eq_dec : EqDecision UrbStatus.
Proof. solve_decision. Defined.

Record SetupPacket := mkSetup {
  request_type : Z;
  request : Z;
  setup_value : Z;
  setup_index : Z;
  setup_length : Z
}.

Record UsbUrbSubmitHeader := mkSubmitHeader {
  sub_generation : Z;
  sub_urb_id : Z;
  sub_endpoint : Z;
  sub_transfer_kind : TransferKind;
  sub_timeout_ms : Z;
  sub_declared_length : Z;
  sub_setup : option SetupPacket
}.

Record UsbUrbCompletionHeader := mkCompletionHeader {
  com_generation : Z;
  com_urb_id : Z;
  com_status : UrbStatus;
  com_actual_length : Z
}.

Definition transfer_kind_byte (k : TransferKind) : Z :=
  match k with Control => 0 | Interrupt => 1 end.

Definition transfer_kind_from_byte (value : Z) : result ProtocolError TransferKind :=
  match value with
  | 0 => Ok Control | 1 => Ok Interrupt
  | other => Err (UsbUrbTransferKind other)
  end.

Definition urb_status_byte (s : UrbStatus) : Z :=
  match s with
  | Success => 0 | Cancelled => 1 | TimedOut => 2 | Stall => 3
  | Disconnected => 4 | Protocol => 5 | Io => 6
  end.

Definition urb_status_from_byte (value : Z) : result ProtocolError UrbStatus :=
  match value with
  | 0 => Ok Success | 1 => Ok Cancelled | 2 => Ok TimedOut | 3 => Ok Stall
  | 4 => Ok Disconnected | 5 => Ok Protocol | 6 => Ok Io
  | other => Err (UsbUrbStatus other)
  end.

Definition encode_setup (s : SetupPacket) : list Z :=
  [request_type s; request s] ++ to_le 2 (setup_value s) ++ to_le 2 (setup_index s)
  ++ to_le 2 (setup_length s).

Definition decode_setup (bytes : list Z) : SetupPacket :=
  mkSetup (byte_at bytes 0) (byte_at bytes 1) (from_le (slice bytes 2 4))
    (from_le (slice bytes 4 6)) (from_le (slice bytes 6 8)).

Definition nonzero_generation (bytes : list Z) : result ProtocolError Z :=
  let value := from_le bytes in
  if value =? 0 then Err UsbUrbGeneration else Ok value.

Definition nonzero_urb_id (bytes : list Z) : result ProtocolError Z :=
  let value := from_le bytes in
  if value =? 0 then Err UsbUrbId else Ok value.

Definition validate_usb_submit (h : UsbUrbSubmitHeader) (payload : list Z) : result ProtocolError unit :=
  _ ← guard_err ((sub_timeout_ms h =? 0) || (MAX_USB_URB_TIMEOUT_MS <? sub_timeout_ms h)) UsbUrbTimeout;
  let declared := sub_declared_length h in
  _ ← guard_err ((MAX_TRANSFER_BYTES <? declared) || (MAX_TRANSFER_BYTES <? len payload)) UsbUrbPayloadSize;
  _ ← match sub_transfer_kind h with
      | Control =>
        guard_err (negb (endpoint_number (sub_endpoint h) =? 0) || bool_decide (sub_setup h = None)) UsbUrbSetup
      | Interrupt =>
        guard_err ((endpoint_number (sub_endpoint h) =? 0) || bool_decide (is_Some (sub_setup h))) UsbUrbEndpoint
      end;
  let expected_payload :=
    match endpoint_direction (sub_endpoint h) with DirIn => 0 | DirOut => declared end in
  guard_err (negb (len payload =? expected_payload)) UsbUrbPayloadSize.

Definition validate_usb_completion (h : UsbUrbCompletionHeader) (payload : list Z) : result ProtocolError unit :=
  let actual := com_actual_length h in
  _ ← guard_err ((MAX_TRANSFER_BYTES <? actual) || negb (len payload =? actual)) UsbUrbPayloadSize;
  guard_err (bool_decide (com_status h <> Success) && negb (len payload =? 0)) UsbUrbPayloadSize.

Definition encode_usb_urb_submit (can_reserve : Z -> bool) (h : UsbUrbSubmitHeader) (payload : list Z)
  : result ProtocolError (list Z) :=
  _ ← validate_usb_submit h payload;
  capacity ← ok_or (checked_add usize_bits USB_URB_SUBMIT_HEADER_SIZE (len payload)) AllocationFailed;
  _ ← guard_err (negb (can_reserve capacity)) AllocationFailed;
  let setup := match sub_setup h with Some s => s | None => mkSetup 0 0 0 0 0 end in
  Ok ([frame_type_byte UsbBridgeUrbSubmit]
      ++ to_le 8 (sub_generation h) ++ to_le 4 (sub_urb_id h)
      ++ [sub_endpoint h; transfer_kind_byte (sub_transfer_kind h);
          (if bool_decide (is_Some (sub_setup h)) then 1 else 0); 0]
      ++ to_le 4 (sub_timeout_ms h) ++ to_le 4 (sub_declared_length h)
      ++ encode_setup setup ++ payload).

Definition decode_usb_urb_submit (data : list Z)
  : result ProtocolError (UsbUrbSubmitHeader * list Z) :=
  _ ← guard_err (len data <? USB_URB_SUBMIT_HEADER_SIZE) UsbUrbShortFrame;
  generation ← nonzero_generation (slice data 1 9);
  urb_id ← nonzero_urb_id (slice data 9 13);
  let endpoint := byte_at data 13 in
  transfer_kind ← transfer_kind_from_byte (byte_at data 14);
  setup_present ← match byte_at data 15 with
                  | 0 => Ok false | 1 => Ok true | _ => Err UsbUrbSetup
                  end;
  _ ← guard_err (negb (byte_at data 16 =? 0)) UsbUrbReserved;
  let timeout_ms := from_le (slice data 17 21) in
  let declared_length := from_le (slice data 21 25) in
  let setup := if setup_present : bool then Some (decode_setup (slice data 25 33)) else None in
  let header := mkSubmitHeader generation urb_id endpoint transfer_kind timeout_ms declared_length setup in
  let payload := slice_from data USB_URB_SUBMIT_HEADER_SIZE in
  _ ← validate_usb_submit header payload;
  Ok (header, payload).

Definition encode_usb_urb_cancel (generation urb_id : Z) : list Z :=
  [frame_type_byte UsbBridgeUrbCancel] ++ to_le 8 generation ++ to_le 4 urb_id.

Definition decode_usb_urb_cancel (data : list Z) : result ProtocolError (Z * Z) :=
  _ ← guard_err (negb (len data =? USB_URB_CANCEL_SIZE)) UsbUrbShortFrame;
  generation ← nonzero_generation (slice data 1 9);
  urb_id ← nonzero_urb_id (slice data 9 13);
  Ok (generation, urb_id).

Definition encode_usb_urb_complete (can_reserve : Z -> bool) (h : UsbUrbCompletionHeader) (payload : list Z)
  : result ProtocolError (list Z) :=
  _ ← validate_usb_completion h payload;
  capacity ← ok_or (checked_add usize_bits USB_URB_COMPLETE_HEADER_SIZE (len payload)) AllocationFailed;
  _ ← guard_err (negb (can_reserve capacity)) AllocationFailed;
  Ok ([frame_type_byte UsbBridgeUrbComplete]
      ++ to_le 8 (com_generation h) ++ to_le 4 (com_urb_id h)
      ++ [urb_status_byte (com_status h); 0; 0]
      ++ to_le 4 (com_actual_length h) ++ payload).

Definition decode_usb_urb_complete (data : list Z)
  : result ProtocolError (UsbUrbCompletionHeader * list Z) :=
  _ ← guard_err (len data <? USB_URB_COMPLETE_HEADER_SIZE) UsbUrbShortFrame;
  _ ← guard_err (negb (byte_at data 14 =? 0) || negb (byte_at data 15 =? 0)) UsbUrbReserved;
  generation ← nonzero_generation (slice data 1 9);
  urb_id ← nonzero_urb_id (slice data 9 13);
  status ← urb_status_from_byte (byte_at data 13);
  let header := mkCompletionHeader generation urb_id status (from_le (slice data 16 20)) in
  let payload := slice_from data USB_URB_COMPLETE_HEADER_SIZE in
  _ ← validate_usb_completion header payload;
  Ok (header, payload).

(** ** Lemmas *)

Lemma transfer_kind_roundtrip k : transfer_kind_from_byte (transfer_kind_byte k) = Ok k.
Proof. by destruct k. Qed.
Lemma urb_status_roundtrip s : urb_status_from_byte (urb_status_byte s) = Ok s.
Proof. by destruct s. Qed.
Lemma transfer_kind_from_byte_Ok v k : transfer_kind_from_byte v = Ok k -> v = transfer_kind_byte k.
Proof. unfold transfer_kind_from_byte. repeat case_match; intros [= <-]; done. Qed.
Lemma urb_status_from_byte_Ok v s : urb_status_from_byte v = Ok s -> v = urb_status_byte s.
Proof. unfold urb_status_from_byte. repeat case_match; intros [= <-]; done. Qed.

Lemma nonzero_generation_Ok bs g : nonzero_generation bs = Ok g <-> g = from_le bs /\ g <> 0.
Proof. unfold nonzero_generation. destruct (Z.eqb_spec (from_le bs) 0); naive_solver. Qed.
Lemma nonzero_urb_id_Ok bs g : nonzero_urb_id bs = Ok g <-> g = from_le bs /\ g <> 0.
Proof. unfold nonzero_urb_id. destruct (Z.eqb_spec (from_le bs) 0); naive_solver. Qed.

Definition setup_typed (s : SetupPacket) : Prop :=
  is_u8 (request_type s) /\ is_u8 (request s) /\ is_u16 (setup_value s) /\ is_u16 (setup_index s) /\
  is_u16 (setup_length s).

Definition submit_header_typed (h : UsbUrbSubmitHeader) : Prop :=
  is_u64 (sub_generation h) /\ sub_generation h <> 0 /\ is_u32 (sub_urb_id h) /\ sub_urb_id h <> 0 /\
  is_u8 (sub_endpoint h) /\ is_u32 (sub_timeout_ms h) /\ is_u32 (sub_declared_length h) /\
  (forall s, sub_setup h = Some s -> setup_typed s).

Definition completion_header_typed (h : UsbUrbCompletionHeader) : Prop :=
  is_u64 (com_generation h) /\ com_generation h <> 0 /\ is_u32 (com_urb_id h) /\ com_urb_id h <> 0 /\
  is_u32 (com_actual_length h).

Lemma decode_encode_setup s : setup_typed s -> decode_setup (encode_setup s) = s.
Proof.
  intros (_ & _ & Hv & Hi & Hl). unfold decode_setup, encode_setup. open_bytes. cbn [app]. compute_reads.
  close_bytes. by destruct s.
Qed.

Lemma decode_encode_submit can h payload frame :
  submit_header_typed h -> encode_usb_urb_submit can h payload = Ok frame ->
  decode_usb_urb_submit frame = Ok (h, payload).
Proof.
  intros (Hg & Hg0 & Hi & Hi0 & He & Ht & Hd & Hs) E. unfold encode_usb_urb_submit in E. inv_ok.
  unfold decode_usb_urb_submit, USB_URB_SUBMIT_HEADER_SIZE.
  assert (Hse : exists s8, encode_setup (match sub_setup h with Some s => s | None => mkSetup 0 0 0 0 0 end) = s8
    /\ length s8 = 8%nat) by (eexists; split; [reflexivity|]; done).
  destruct Hse as (s8 & Es8 & Hl8). rewrite Es8. explode s8.
  open_bytes. cbn [app]. check_len. compute_reads.
  rewrite (proj2 (nonzero_generation_Ok _ (sub_generation h))) by (close_bytes; done).
  cbn [mbind result_bind]. rewrite (proj2 (nonzero_urb_id_Ok _ (sub_urb_id h))) by (close_bytes; done).
  cbn [mbind result_bind]. rewrite transfer_kind_roundtrip. cbn [mbind result_bind]. close_bytes.
  assert (Ef : forall sp, (match (if bool_decide (is_Some (sub_setup h)) then 1 else 0) with
    | 0 => Ok false | 1 => Ok true | _ => Err UsbUrbSetup end) = @Ok ProtocolError bool sp <->
    sp = bool_decide (is_Some (sub_setup h))) by (intros sp; case_bool_decide; naive_solver).
  rewrite (proj2 (Ef _) eq_refl). cbn [mbind result_bind negb Z.eqb guard_err].
  assert (Eset : (if bool_decide (is_Some (sub_setup h))
                  then Some (decode_setup [b; b0; b1; b2; b3; b4; b5; b6]) else None) = sub_setup h).
  { destruct (sub_setup h) as [s|]; [|done]. rewrite <- Es8, decode_encode_setup; auto. }
  rewrite Eset. replace (mkSubmitHeader _ _ _ _ _ _ _) with h by (by destruct h). by rewrite H.
Qed.

Lemma decode_encode_complete can h payload frame :
  completion_header_typed h -> encode_usb_urb_complete can h payload = Ok frame ->
  decode_usb_urb_complete frame = Ok (h, payload).
Proof.
  intros (Hg & Hg0 & Hi & Hi0 & Ha) E. unfold encode_usb_urb_complete in E. inv_ok.
  unfold decode_usb_urb_complete, USB_URB_COMPLETE_HEADER_SIZE.
  open_bytes. cbn [app]. check_len. compute_reads. cbn [negb Z.eqb orb guard_err mbind result_bind].
  rewrite (proj2 (nonzero_generation_Ok _ (com_generation h))) by (close_bytes; done).
  cbn [mbind result_bind]. rewrite (proj2 (nonzero_urb_id_Ok _ (com_urb_id h))) by (close_bytes; done).
  cbn [mbind result_bind]. rewrite urb_status_roundtrip. cbn [mbind result_bind]. close_bytes.
  replace (mkCompletionHeader _ _ _ _) with h by (by destruct h). by rewrite H.
Qed.

Lemma decode_encode_cancel g id :
  is_u64 g -> g <> 0 -> is_u32 id -> id <> 0 ->
  decode_usb_urb_cancel (encode_usb_urb_cancel g id) = Ok (g, id).
Proof.
  intros Hg Hg0 Hi Hi0. unfold decode_usb_urb_cancel, encode_usb_urb_cancel. open_bytes. cbn [app].
  change (negb (len _ =? USB_URB_CANCEL_SIZE)) with false. cbn [guard_err mbind result_bind]. compute_reads.
  rewrite (proj2 (nonzero_generation_Ok _ g)) by (close_bytes; done). cbn [mbind result_bind].
  by rewrite (proj2 (nonzero_urb_id_Ok _ id)) by (close_bytes; done).
Qed.

Lemma validate_usb_submit_Ok h payload :
  validate_usb_submit h payload = Ok tt <->
  0 <> sub_timeout_ms h /\ sub_timeout_ms h <= MAX_USB_URB_TIMEOUT_MS /\
  sub_declared_length h <= MAX_TRANSFER_BYTES /\ len payload <= MAX_TRANSFER_BYTES /\
  match sub_transfer_kind h with
  | Control => endpoint_number (sub_endpoint h) = 0 /\ is_Some (sub_setup h)
  | Interrupt => endpoint_number (sub_endpoint h) <> 0 /\ sub_setup h = None
  end /\
  len payload = match endpoint_direction (sub_endpoint h) with DirIn => 0 | DirOut => sub_declared_length h end.
Proof.
  unfold validate_usb_submit. cbv zeta. set (expected := match endpoint_direction _ with DirIn => _ | _ => _ end).
  assert (Ek : forall k : result ProtocolError unit,
    (_ ← match sub_transfer_kind h with
         | Control => guard_err (negb (endpoint_number (sub_endpoint h) =? 0) || bool_decide (sub_setup h = None)) UsbUrbSetup
         | Interrupt => guard_err ((endpoint_number (sub_endpoint h) =? 0) || bool_decide (is_Some (sub_setup h))) UsbUrbEndpoint
         end; k) = Ok tt <->
    match sub_transfer_kind h with
    | Control => endpoint_number (sub_endpoint h) = 0 /\ is_Some (sub_setup h)
    | Interrupt => endpoint_number (sub_endpoint h) <> 0 /\ sub_setup h = None
    end /\ k = Ok tt).
  { intros k. destruct (sub_transfer_kind h), (Z.eqb_spec (endpoint_number (sub_endpoint h)) 0), (sub_setup h);
      cbn; naive_solver. }
  destruct (Z.eqb_spec (sub_timeout_ms h) 0), (Z.ltb_spec MAX_USB_URB_TIMEOUT_MS (sub_timeout_ms h));
    cbn [orb guard_err mbind result_bind]; try (split; [done|lia]).
  destruct (Z.ltb_spec MAX_TRANSFER_BYTES (sub_declared_length h)), (Z.ltb_spec MAX_TRANSFER_BYTES (len payload));
    cbn [orb guard_err mbind result_bind]; try (split; [done|lia]).
  unfold mbind, result_bind in Ek |- *. rewrite Ek, guard_err_Ok, negb_false_iff, Z.eqb_eq.
  split; [intros [? ?]; split_and!; auto; lia|intros (_ & _ & _ & _ & ? & ?); done].
Qed.

Lemma decode_submit_sound data h payload :
  Forall is_u8 data -> decode_usb_urb_submit data = Ok (h, payload) ->
  submit_header_typed h /\ validate_usb_submit h payload = Ok tt /\
  len data = USB_URB_SUBMIT_HEADER_SIZE + len payload.
Proof.
  intros Hb E. unfold decode_usb_urb_submit, USB_URB_SUBMIT_HEADER_SIZE in *.
  apply bind_Ok in E as ([] & Hl & E). apply guard_err_Ok, Z.ltb_ge in Hl.
  explode_prefix data 33%nat. revert E. compute_reads. intros E. cbv zeta in E. inv_ok. byte_facts.
  apply nonzero_generation_Ok in H as [-> H]. apply nonzero_urb_id_Ok in H0 as [-> H0].
  repeat match goal with u : unit |- _ => destruct u end.
  unfold submit_header_typed.
  cbn [sub_generation sub_urb_id sub_endpoint sub_timeout_ms sub_declared_length sub_setup].
  split_and!; try done; try solve_width; [|rewrite !len_cons; lia].
  intros s Es. destruct x2; [|done]. injection Es as <-. unfold decode_setup, setup_typed. compute_reads.
  cbn [request_type request setup_value setup_index setup_length]. split_and!; solve_width.
Qed.

Lemma decode_complete_sound data h payload :
  Forall is_u8 data -> decode_usb_urb_complete data = Ok (h, payload) ->
  completion_header_typed h /\ validate_usb_completion h payload = Ok tt /\
  len data = USB_URB_COMPLETE_HEADER_SIZE + len payload.
Proof.
  intros Hb E. unfold decode_usb_urb_complete, USB_URB_COMPLETE_HEADER_SIZE in *.
  apply bind_Ok in E as ([] & Hl & E). apply guard_err_Ok, Z.ltb_ge in Hl.
  explode_prefix data 20%nat. revert E. compute_reads. intros E. cbv zeta in E. inv_ok. byte_facts.
  apply nonzero_generation_Ok in H0 as [-> H0]. apply nonzero_urb_id_Ok in H1 as [-> H1].
  repeat match goal with u : unit |- _ => destruct u end.
  unfold completion_header_typed. cbn [com_generation com_urb_id com_actual_length].
  split_and!; try done; try solve_width. rewrite !len_cons. lia.
Qed.

Lemma decode_encode_hid_added h d :
  is_u16 (hid_vendor_id h) -> is_u16 (hid_product_id h) ->
  decode_hid_device_added (encode_hid_device_added h d) =
    if MAX_HID_DESCRIPTOR_LEN <? wrapping 16 (len d) then Err HidDescriptorTooLarge
    else Ok (h, take (Z.to_nat (wrapping 16 (len d))) d).
Proof.
  intros Hv Hp. unfold decode_hid_device_added, encode_hid_device_added, HID_DEVICE_ADDED_HEADER_SIZE.
  pose proof (wrapping_in_width 16 (len d) ltac:(lia)) as Hw.
  assert (Hle : wrapping 16 (len d) <= len d) by (apply Z.mod_le; [apply len_nonneg|lia]).
  set (w := wrapping 16 (len d)) in *. open_bytes. cbn [app]. check_len.
  match goal with |- context [slice ?l 8 (8 + ?k)] =>
    assert (Hsl : slice l 8 (8 + k) = take (Z.to_nat k) d)
      by (unfold slice; change (Z.to_nat 8) with 8%nat; cbn [drop]; rewrite drop_0; f_equal; lia);
    rewrite Hsl; clear Hsl
  end.
  compute_reads. close_bytes.
  destruct (MAX_HID_DESCRIPTOR_LEN <? w); cbn [guard_err mbind result_bind]; [done|].
  rewrite (proj2 (Z.ltb_ge (len d) _)) by lia. cbn [guard_err mbind result_bind]. by destruct h.
Qed.

(** ** Properties *)

(** URB submissions round trip: whatever the encoder emits for a header of
    the Rust type decodes to the same header and payload, and whatever the
    decoder accepts satisfies the whole v1 contract (a bounded timeout, at most
    16 KiB, control transfers only on endpoint zero and with a setup packet,
    interrupt transfers only elsewhere and without one, payload exactly the
    declared length for OUT and none for IN) and can be re-encoded. *)
Theorem urb_submit_codec can_reserve h payload :
  (forall n, can_reserve n = true) ->
  (forall frame, submit_header_typed h -> encode_usb_urb_submit can_reserve h payload = Ok frame ->
     decode_usb_urb_submit frame = Ok (h, payload)) /\
  (forall data, Forall is_u8 data -> decode_usb_urb_submit data = Ok (h, payload) ->
     1 <= sub_timeout_ms h <= MAX_USB_URB_TIMEOUT_MS /\
     sub_declared_length h <= MAX_TRANSFER_BYTES /\ sub_generation h <> 0 /\ sub_urb_id h <> 0 /\
     match sub_transfer_kind h with
     | Control => endpoint_number (sub_endpoint h) = 0 /\ is_Some (sub_setup h)
     | Interrupt => endpoint_number (sub_endpoint h) <> 0 /\ sub_setup h = None
     end /\
     len payload = match endpoint_direction (sub_endpoint h) with
                   | DirIn => 0 | DirOut => sub_declared_length h end /\
     exists frame, encode_usb_urb_submit can_reserve h payload = Ok frame /\ len frame = len data).
Proof.
  intros Hc. split; [intros; by eapply decode_encode_submit|].
  intros data Hb E. destruct (decode_submit_sound _ _ _ Hb E) as (Ht & Hv & Hl).
  pose proof (proj1 (validate_usb_submit_Ok h payload) Hv) as (H0 & H1 & H2 & H3 & H4 & H5).
  destruct Ht as (_ & ? & _ & ? & _ & [? _] & _). split_and!; try done; [lia|].
  unfold encode_usb_urb_submit. rewrite Hv. cbn [mbind result_bind].
  assert (Ha : checked_add usize_bits USB_URB_SUBMIT_HEADER_SIZE (len payload)
               = Some (USB_URB_SUBMIT_HEADER_SIZE + len payload)).
  { apply checked_add_Some. split; [done|].
    unfold umax, usize_bits, MAX_TRANSFER_BYTES, USB_URB_SUBMIT_HEADER_SIZE in *. pow2. lia. }
  rewrite Ha. cbn [ok_or mbind result_bind]. rewrite Hc. cbn [negb guard_err mbind result_bind].
  eexists. split; [reflexivity|]. rewrite Hl. unfold encode_setup. rewrite !len_app, !len_cons.
  rewrite !len_to_le, !len_nil. unfold USB_URB_SUBMIT_HEADER_SIZE. lia.
Qed.

Definition sample_submit : UsbUrbSubmitHeader :=
  mkSubmitHeader 3 41 0 Control 250 2 (Some (mkSetup 33 9 512 0 2)).

Lemma urb_submit_codec_witness :
  exists frame, encode_usb_urb_submit (fun _ => true) sample_submit [7; 8] = Ok frame /\
    decode_usb_urb_submit frame = Ok (sample_submit, [7; 8]).
Proof.
  eexists. split; [reflexivity|].
  apply (urb_submit_codec (fun _ => true) sample_submit [7; 8] (fun _ => eq_refl)); [|reflexivity].
  unfold submit_header_typed, setup_typed, in_width.
  split_and!; try (vm_compute; congruence). intros s [= <-]. split_and!; vm_compute; congruence.
Defined.

(** URB completions and cancellations round trip: what the encoders emit
    decodes to the same values, and a decoded completion carries at most 16 KiB,
    exactly its declared length, and no data unless it succeeded. *)
Theorem urb_completion_cancel_codec can_reserve h payload g id :
  completion_header_typed h -> is_u64 g -> g <> 0 -> is_u32 id -> id <> 0 ->
  (forall frame, encode_usb_urb_complete can_reserve h payload = Ok frame ->
     decode_usb_urb_complete frame = Ok (h, payload)) /\
  decode_usb_urb_cancel (encode_usb_urb_cancel g id) = Ok (g, id) /\
  (forall data h' payload', Forall is_u8 data -> decode_usb_urb_complete data = Ok (h', payload') ->
     len payload' = com_actual_length h' /\ len payload' <= MAX_TRANSFER_BYTES /\
     com_generation h' <> 0 /\ com_urb_id h' <> 0 /\ (com_status h' <> Success -> payload' = [])).
Proof.
  intros Ht Hg Hg0 Hi Hi0. split_and!.
  - intros frame E. by eapply decode_encode_complete.
  - by apply decode_encode_cancel.
  - intros data h' p' Hb E. destruct (decode_complete_sound _ _ _ Hb E) as ((_ & ? & _ & ? & _) & Hv & _).
    unfold validate_usb_completion in Hv. inv_ok. boolify. split_and!; try done; [lia|].
    intros Hs. match goal with H : _ \/ _ |- _ => destruct H as [Hb0|Hz] end.
    + by apply bool_decide_eq_false in Hb0.
    + boolify. by apply len_0_nil.
Qed.

Lemma urb_completion_cancel_codec_witness :
  decode_usb_urb_complete [66; 3; 0; 0; 0; 0; 0; 0; 0; 41; 0; 0; 0; 0; 0; 0; 1; 0; 0; 0; 9]
    = Ok (mkCompletionHeader 3 41 Success 1, [9]).
Proof.
  apply (urb_completion_cancel_codec (fun _ => true) (mkCompletionHeader 3 41 Success 1) [9] 1 1);
    unfold completion_header_typed, in_width; split_and?; try reflexivity; try (vm_compute; congruence).
Defined.

(** A HID descriptor survives its frame exactly when it is at most 4096
    bytes long. The encoder writes the length modulo 65536 without checking it,
    so a descriptor longer than 65535 bytes whose truncated length is at most
    4096 decodes, without an error, to a proper prefix of itself. *)
Theorem hid_descriptor_roundtrip_iff h d :
  is_u16 (hid_vendor_id h) -> is_u16 (hid_product_id h) ->
  (decode_hid_device_added (encode_hid_device_added h d) = Ok (h, d) <-> len d <= MAX_HID_DESCRIPTOR_LEN) /\
  (65536 <= len d -> len d mod 65536 <= MAX_HID_DESCRIPTOR_LEN ->
   exists prefix, decode_hid_device_added (encode_hid_device_added h d) = Ok (h, prefix) /\
     len prefix = len d mod 65536 /\ prefix <> d).
Proof.
  intros Hv Hp. rewrite (decode_encode_hid_added h d Hv Hp). unfold wrapping, MAX_HID_DESCRIPTOR_LEN. pow2.
  pose proof (len_nonneg d) as Hd. pose proof (Z.mod_pos_bound (len d) 65536 ltac:(lia)) as Hm.
  assert (Ht : forall k, 0 <= k -> len (take (Z.to_nat k) d) = Z.min k (len d)).
  { intros k Hk. unfold len. rewrite length_take. lia. }
  split.
  - destruct (Z.ltb_spec 4096 (len d mod 65536)) as [Hlt|Hge].
    + split; [done|]. intros Hle. rewrite Z.mod_small in Hlt by lia. lia.
    + split.
      * intros [= E]. apply (f_equal len) in E. rewrite Ht in E by lia. lia.
      * intros Hle. rewrite Z.mod_small by lia. do 2 f_equal. apply take_ge. unfold len. lia.
  - intros Hl Hle. destruct (Z.ltb_spec 4096 (len d mod 65536)); [lia|].
    eexists. split; [reflexivity|]. rewrite Ht by lia. split; [lia|].
    intros E. apply (f_equal len) in E. rewrite Ht in E by lia. lia.
Qed.

Lemma hid_descriptor_roundtrip_iff_witness :
  decode_hid_device_added (encode_hid_device_added (mkHidHeader 1 1386 868) [5; 13; 9])
    = Ok (mkHidHeader 1 1386 868, [5; 13; 9]).
Proof.
  apply (hid_descriptor_roundtrip_iff (mkHidHeader 1 1386 868) [5; 13; 9]);
    unfold in_width; vm_compute; try split; congruence.
Defined.
