(* ===== verification/ProtocolFsm.v ===== *)
(** * Protocol: the client connection state machine

    Models [shared/protocol/src/fsm.rs]: the client states and events,
    [ClientFsm::send], and the table of compatible client and server states. *)

From S2P Require Import Prelude.
From stdpp Require Import strings.
Open Scope Z_scope.
Open Scope list_scope.

Inductive ClientState :=
| CDisconnected | CHandshaking | CAuthenticating | CCapabilityExchange
| CStreaming | CDegraded | CReconnecting | CClosed.

Inductive ServerState :=
| SBootstrapping | SAuthenticating | SCapabilityExchange | SStreaming
| SReconfiguring | SDraining | SClosed.

Inductive ClientEvent :=
| ConnectRequested | TlsOk | TlsFailed | AuthOk | AuthFailed | AuthTimeout | HelloReceived
| ProtoMismatch | HealthDegraded | HealthRestored | TransportLost | MaxRetries | UserQuit.

#[global] Instance ClientState_eq_dec : EqDecision ClientState.
Proof. solve_decision. Defined.
#[global] Instance ServerState_eq_dec : EqDecision ServerState.
Proof. solve_decision. Defined.
#[global] Instance ClientEvent_eq_dec : EqDecision ClientEvent.
Proof. solve_decision. Defined.

Record TransitionNotAllowed := mkNotAllowed { na_state : ClientState; na_event : ClientEvent }.

Definition client_as_str (s : ClientState) : string :=
  match s with
  | CDisconnected => "disconnected" | CHandshaking => "handshaking"
  | CAuthenticating => "authenticating" | CCapabilityExchange => "capability_exchange"
  | CStreaming => "streaming" | CDegraded => "degraded"
  | CReconnecting => "reconnecting" | CClosed => "closed"
  end.

Definition server_as_str (s : ServerState) : string :=
  match s with
  | SBootstrapping => "bootstrapping" | SAuthenticating => "authenticating"
  | SCapabilityExchange => "capability_exchange" | SStreaming => "streaming"
  | SReconfiguring => "reconfiguring" | SDraining => "draining" | SClosed => "closed"
  end.

Definition CLIENT_STATES : list string :=
  ["disconnected"; "handshaking"; "authenticating"; "capability_exchange";
   "streaming"; "degraded"; "reconnecting"; "closed"].

Definition SERVER_STATES : list string :=
  ["bootstrapping"; "authenticating"; "capability_exchange"; "streaming";
   "reconfiguring"; "draining"; "closed"].

Definition ALLOWED_PAIRS : list (string * string) :=
  [("handshaking", "bootstrapping"); ("authenticating", "authenticating");
   ("capability_exchange", "capability_exchange"); ("streaming", "streaming");
   ("streaming", "reconfiguring"); ("degraded", "streaming");
   ("reconnecting", "draining"); ("reconnecting", "closed"); ("closed", "closed")].

Definition is_state_pair_allowed (client_state server_state : string) : bool :=
  if negb (bool_decide (client_state ∈ CLIENT_STATES))
     || negb (bool_decide (server_state ∈ SERVER_STATES))
  then false
  else existsb (fun p => bool_decide (p.1 = client_state) && bool_decide (p.2 = server_state)) ALLOWED_PAIRS.

(** The transition table of [send]. *)
Definition client_next (s : ClientState) (e : ClientEvent) : option ClientState :=
  match s, e with
  | CDisconnected, ConnectRequested | CReconnecting, ConnectRequested => Some CHandshaking
  | CHandshaking, TlsOk => Some CAuthenticating
  | CHandshaking, TlsFailed => Some CReconnecting
  | CAuthenticating, AuthOk => Some CCapabilityExchange
  | CAuthenticating, AuthFailed | CCapabilityExchange, ProtoMismatch => Some CDisconnected
  | CAuthenticating, AuthTimeout => Some CReconnecting
  | CCapabilityExchange, HelloReceived => Some CStreaming
  | CStreaming, HealthDegraded => Some CDegraded
  | CDegraded, HealthRestored => Some CStreaming
  | CStreaming, TransportLost | CDegraded, TransportLost | CHandshaking, TransportLost
  | CAuthenticating, TransportLost | CCapabilityExchange, TransportLost => Some CReconnecting
  | CReconnecting, MaxRetries => Some CClosed
  | CDisconnected, UserQuit | CHandshaking, UserQuit | CAuthenticating, UserQuit
  | CCapabilityExchange, UserQuit | CStreaming, UserQuit | CDegraded, UserQuit
  | CReconnecting, UserQuit => Some CClosed
  | _, _ => None
  end.

(** [ClientFsm] is its state. *)
Definition ClientFsm_new : ClientState := CDisconnected.

Definition client_send (s : ClientState) (e : ClientEvent)
  : ClientState * result TransitionNotAllowed ClientState :=
  match client_next s e with
  | Some next => (next, Ok next)
  | None => (s, Err (mkNotAllowed s e))
  end.

(** A run of [send] with the events it accepted, oldest first. *)
Fixpoint client_run (s : ClientState) (events : list ClientEvent) : ClientState * list ClientEvent :=
  match events with
  | [] => (s, [])
  | e :: events =>
    let '(s, r) := client_send s e in
    let '(s, accepted) := client_run s events in
    (s, if is_ok r then e :: accepted else accepted)
  end.

(** ** Lemmas *)

Definition is_health_event (e : ClientEvent) : Prop := e = HealthDegraded \/ e = HealthRestored.

(** What the accepted events say about how the state was reached. *)
Definition reached_by (accepted : list ClientEvent) (s : ClientState) : Prop :=
  match s with
  | CHandshaking => exists pre, accepted = pre ++ [ConnectRequested]
  | CAuthenticating => exists pre, accepted = pre ++ [ConnectRequested; TlsOk]
  | CCapabilityExchange => exists pre, accepted = pre ++ [ConnectRequested; TlsOk; AuthOk]
  | CStreaming | CDegraded => exists pre health,
      accepted = pre ++ [ConnectRequested; TlsOk; AuthOk; HelloReceived] ++ health /\
      Forall is_health_event health
  | CClosed => exists pre e, accepted = pre ++ [e] /\ (e = UserQuit \/ e = MaxRetries)
  | CDisconnected | CReconnecting => True
  end.

Lemma reached_by_step h s e s' :
  reached_by h s -> client_next s e = Some s' -> reached_by (h ++ [e]) s'.
Proof.
  destruct s, e; cbn; intros Hh [= <-]; cbn; try done; try (by eauto 6);
    repeat match goal with H : exists _, _ |- _ => destruct H as [? H] end;
    repeat match goal with H : _ /\ _ |- _ => destruct H end; subst;
    rewrite <- ?app_assoc; cbn [app];
    try (by eexists);
    try (eexists _, _; split; [reflexivity|by repeat constructor]).
  - exists x, (x0 ++ [HealthDegraded]). split; [done|]. apply Forall_app. split; [done|].
    rewrite Forall_singleton. by left.
  - exists x, (x0 ++ [HealthRestored]). split; [done|]. apply Forall_app. split; [done|].
    rewrite Forall_singleton. by right.
Qed.

Lemma client_run_reached events : forall s h s' accepted,
  reached_by h s -> client_run s events = (s', accepted) -> reached_by (h ++ accepted) s'.
Proof.
  induction events as [|e events IH]; intros s h s' accepted Hh E; cbn in E.
  { injection E as <- <-. by rewrite app_nil_r. }
  unfold client_send in E. destruct (client_next s e) as [s1|] eqn:En.
  - destruct (client_run s1 events) as [s2 acc] eqn:Er. injection E as <- <-. cbn [is_ok].
    rewrite cons_middle, app_assoc. eapply IH; [|done]. by eapply reached_by_step.
  - destruct (client_run s events) as [s2 acc] eqn:Er. injection E as <- <-. by eapply IH.
Qed.

(** ** Properties *)

(** The client machine keeps the connection discipline. From a fresh
    machine, whatever events arrive: it is streaming or degraded only if, since
    the last connection attempt, the accepted events were exactly connect, TLS
    success, authentication success and hello, followed by health changes only;
    the earlier stages likewise; it is closed only by a quit or exhausted
    retries; a refused event changes nothing; a closed machine refuses every
    event; and any other machine closes on a quit. *)
Theorem client_fsm_discipline (events : list ClientEvent) :
  let '(s, accepted) := client_run ClientFsm_new events in
  reached_by accepted s /\
  (forall e, client_send CClosed e = (CClosed, Err (mkNotAllowed CClosed e))) /\
  (forall e s' r, client_send s e = (s', Err r) -> s' = s /\ r = mkNotAllowed s e) /\
  (s <> CClosed -> client_send s UserQuit = (CClosed, Ok CClosed)).
Proof.
  destruct (client_run ClientFsm_new events) as [s accepted] eqn:E. split_and!.
  - exact (client_run_reached events ClientFsm_new [] s accepted I E).
  - by destruct e.
  - intros e s' r. unfold client_send. destruct (client_next s e); naive_solver.
  - by destruct s.
Qed.

(** The table of compatible states is about existing states: a pair of
    names is allowed exactly when it is the names of one of nine pairs of
    states; in particular a streaming or degraded client never faces a server
    that is not streaming or reconfiguring, and unknown names are refused. *)
Theorem state_pairs_exact (c s : string) :
  is_state_pair_allowed c s = true <->
  exists cs ss, c = client_as_str cs /\ s = server_as_str ss /\
    (cs, ss) ∈ [(CHandshaking, SBootstrapping); (CAuthenticating, SAuthenticating);
      (CCapabilityExchange, SCapabilityExchange); (CStreaming, SStreaming);
      (CStreaming, SReconfiguring); (CDegraded, SStreaming); (CReconnecting, SDraining);
      (CReconnecting, SClosed); (CClosed, SClosed)].
Proof.
  split.
  - unfold is_state_pair_allowed. destruct (_ || _); [done|]. intros H.
    apply existsb_exists in H as ([c' s'] & Hin & H). apply andb_true_iff in H as [H1 H2].
    apply bool_decide_eq_true in H1, H2. cbn in H1, H2. subst. apply list_elem_of_In in Hin.
    assert (Hmap : (c, s) ∈ map (fun p => (client_as_str p.1, server_as_str p.2))
      [(CHandshaking, SBootstrapping); (CAuthenticating, SAuthenticating);
       (CCapabilityExchange, SCapabilityExchange); (CStreaming, SStreaming);
       (CStreaming, SReconfiguring); (CDegraded, SStreaming); (CReconnecting, SDraining);
       (CReconnecting, SClosed); (CClosed, SClosed)]) by exact Hin.
    apply list_elem_of_In, in_map_iff in Hmap as ([cs ss] & [= <- <-] & Hp).
    exists cs, ss. by rewrite list_elem_of_In.
  - intros (cs & ss & -> & -> & Hin). repeat (apply elem_of_cons in Hin as [[= -> ->]|Hin]; [done|]).
    by apply elem_of_nil in Hin.
Qed.
