(* ===== verification/QuicFraming.v ===== *)
(** * Transport: QUIC framing and the datagram sequence guard

    Models [shared/transport/src/quic/framing.rs]: the headers of reliable
    stream messages, datagram frames, and the inbound guard against duplicate
    and late datagrams. *)

From S2P Require Import Prelude.

Definition STREAM_FRAME_HEADER_BYTES : Z := 3 + 4 + 8.
Definition DATAGRAM_FRAME_HEADER_BYTES : Z := 3 + 4 + 8.

Inductive MessageClass := MControl | MMedia | MInput.
Inductive ReliabilityClass := RControl | MediaReliable | MediaLowLatency | InputLowLatency.
Inductive DeliveryMechanism := ReliableStream | EncryptedDatagram.

Definition encode_message_class (c : MessageClass) : Z :=
  match c with MControl => 0 | MMedia => 1 | MInput => 2 end.
Definition decode_message_class (value : Z) : option MessageClass :=
  match value with 0 => Some MControl | 1 => Some MMedia | 2 => Some MInput | _ => None end.

Definition encode_class (c : ReliabilityClass) : Z :=
  match c with RControl => 0 | MediaReliable => 1 | MediaLowLatency => 2 | InputLowLatency => 3 end.
Definition decode_class (value : Z) : option ReliabilityClass :=
  match value with
  | 0 => Some RControl | 1 => Some MediaReliable | 2 => Some MediaLowLatency
  | 3 => Some InputLowLatency | _ => None
  end.

Definition encode_delivery (d : DeliveryMechanism) : Z :=
  match d with ReliableStream => 0 | EncryptedDatagram => 1 end.
Definition decode_delivery (value : Z) : option DeliveryMechanism :=
  match value with 0 => Some ReliableStream | 1 => Some EncryptedDatagram | _ => None end.

(** ** Stream headers *)

Record StreamFrameHeader := mkStreamHeader {
  sh_message_class : MessageClass;
  sh_reliability : ReliabilityClass;
  sh_delivery : DeliveryMechanism;
  sh_payload_len : Z;
  sh_sequence : Z
}.

Definition encode_stream_header (message_class : MessageClass) (reliability : ReliabilityClass)
  (delivery : DeliveryMechanism) (payload_len sequence : Z) : list Z :=
  [encode_message_class message_class; encode_class reliability; encode_delivery delivery]
  ++ to_be 4 payload_len ++ to_be 8 sequence.

(** The argument is an array of exactly [STREAM_FRAME_HEADER_BYTES] bytes. *)
Definition decode_stream_header (bytes : list Z) : option StreamFrameHeader :=
  message_class ← decode_message_class (byte_at bytes 0);
  reliability ← decode_class (byte_at bytes 1);
  delivery ← decode_delivery (byte_at bytes 2);
  Some (mkStreamHeader message_class reliability delivery
          (from_be (slice bytes 3 7)) (from_be (slice bytes 7 15))).

(** ** Datagram frames *)

(** The fields of [EnvelopeMetadata] that the framing uses. *)
Record EnvelopeMetadata := mkEnvelope {
  env_message_class : MessageClass;
  env_reliability : ReliabilityClass;
  env_delivery : DeliveryMechanism;
  env_sequence : Z
}.

Inductive FramingError := DeclaredSizeUnrepresentable.

Record DatagramFrame := mkDatagramFrame {
  df_message_class : MessageClass;
  df_reliability : ReliabilityClass;
  df_delivery : DeliveryMechanism;
  df_payload_len : Z;
  df_sequence : Z;
  df_payload : list Z
}.

Definition encode_datagram_frame (m : EnvelopeMetadata) (payload : list Z)
  : result FramingError (list Z) :=
  _ ← guard_err (umax 32 <? len payload) DeclaredSizeUnrepresentable;
  let declared_size := len payload in
  Ok ([encode_message_class (env_message_class m); encode_class (env_reliability m);
       encode_delivery (env_delivery m)]
      ++ to_be 4 declared_size ++ to_be 8 (env_sequence m) ++ payload).

Definition decode_datagram_frame (bytes : list Z) : option DatagramFrame :=
  if len bytes <? DATAGRAM_FRAME_HEADER_BYTES then None
  else
    message_class ← decode_message_class (byte_at bytes 0);
    reliability ← decode_class (byte_at bytes 1);
    delivery ← decode_delivery (byte_at bytes 2);
    let payload_len := from_be (slice bytes 3 7) in
    let sequence := from_be (slice bytes 7 15) in
    let payload := slice_from bytes DATAGRAM_FRAME_HEADER_BYTES in
    if negb (payload_len =? len payload) then None
    else Some (mkDatagramFrame message_class reliability delivery payload_len sequence payload).

(** ** The sequence guard *)

Inductive SequenceDecision := Accept | Duplicate | Late.

#[global] Instance SequenceDecision_eq_dec : EqDecision SequenceDecision.
Proof. solve_decision. Defined.

Record DatagramSequenceGuard := mkGuard {
  window : Z;
  highest : option Z;
  recent : list Z
}.

Definition Guard_new (w : Z) : DatagramSequenceGuard := mkGuard (Z.max w 1) None [].

Definition observe (g : DatagramSequenceGuard) (sequence : Z)
  : DatagramSequenceGuard * SequenceDecision :=
  let accept :=
    let highest' := match highest g with None => sequence | Some current => Z.max current sequence end in
    let recent' := if window g <=? len (recent g) then drop 1 (recent g) else recent g in
    (mkGuard (window g) (Some highest') (recent' ++ [sequence]), Accept) in
  match highest g with
  | None => accept
  | Some highest =>
    if bool_decide (sequence ∈ recent g) then (g, Duplicate)
    else
      let window := Z.min (window g) (umax 64) in
      if (sequence <=? highest) && (window <=? highest - sequence) then (g, Late)
      else accept
  end.

(** The decisions of a run and the accepted numbers, both oldest first. *)
Fixpoint guard_run (g : DatagramSequenceGuard) (l : list Z)
  : DatagramSequenceGuard * list SequenceDecision :=
  match l with
  | [] => (g, [])
  | x :: l =>
    let '(g, d) := observe g x in
    let '(g, ds) := guard_run g l in
    (g, d :: ds)
  end.

Fixpoint accepted_of (l : list Z) (ds : list SequenceDecision) : list Z :=
  match l, ds with
  | x :: l, Accept :: ds => x :: accepted_of l ds
  | _ :: l, _ :: ds => accepted_of l ds
  | _, _ => []
  end.

(** ** Framing lemmas *)

Lemma message_class_roundtrip c : decode_message_class (encode_message_class c) = Some c.
Proof. by destruct c. Qed.
Lemma class_roundtrip c : decode_class (encode_class c) = Some c.
Proof. by destruct c. Qed.
Lemma delivery_roundtrip d : decode_delivery (encode_delivery d) = Some d.
Proof. by destruct d. Qed.
Lemma decode_message_class_Some v c : decode_message_class v = Some c -> v = encode_message_class c.
Proof. unfold decode_message_class. repeat case_match; intros [= <-]; done. Qed.
Lemma decode_class_Some v c : decode_class v = Some c -> v = encode_class c.
Proof. unfold decode_class. repeat case_match; intros [= <-]; done. Qed.
Lemma decode_delivery_Some v d : decode_delivery v = Some d -> v = encode_delivery d.
Proof. unfold decode_delivery. repeat case_match; intros [= <-]; done. Qed.

Lemma stream_decode_encode c r d n s :
  is_u32 n -> is_u64 s ->
  decode_stream_header (encode_stream_header c r d n s) = Some (mkStreamHeader c r d n s).
Proof.
  intros Hn Hs. unfold decode_stream_header, encode_stream_header. open_bytes. cbn [app]. compute_reads.
  rewrite message_class_roundtrip, class_roundtrip, delivery_roundtrip. cbn [mbind option_bind].
  by close_bytes.
Qed.

Lemma stream_encode_decode bytes h :
  Forall is_u8 bytes -> len bytes = STREAM_FRAME_HEADER_BYTES -> decode_stream_header bytes = Some h ->
  bytes = encode_stream_header (sh_message_class h) (sh_reliability h) (sh_delivery h)
            (sh_payload_len h) (sh_sequence h) /\ is_u32 (sh_payload_len h) /\ is_u64 (sh_sequence h).
Proof.
  intros Hb Hl E. unfold STREAM_FRAME_HEADER_BYTES in Hl. explode_prefix bytes 15%nat.
  rewrite !len_cons in Hl. assert (bytes = []) as -> by (destruct bytes; [done|rewrite len_cons in Hl; pose proof (len_nonneg bytes); lia]).
  revert E. unfold decode_stream_header. compute_reads. intros E.
  apply bind_Some in E as (c & Ec & E). apply bind_Some in E as (r & Er & E).
  apply bind_Some in E as (d & Ed & E). injection E as <-. cbn [sh_message_class sh_reliability sh_delivery sh_payload_len sh_sequence].
  apply decode_message_class_Some in Ec. apply decode_class_Some in Er. apply decode_delivery_Some in Ed.
  subst. byte_facts. split_and!; [|solve_width..]. unfold encode_stream_header. by reencode.
Qed.

Lemma datagram_decode_encode m payload frame :
  is_u64 (env_sequence m) -> encode_datagram_frame m payload = Ok frame ->
  decode_datagram_frame frame = Some (mkDatagramFrame (env_message_class m) (env_reliability m)
    (env_delivery m) (len payload) (env_sequence m) payload).
Proof.
  intros Hs E. unfold encode_datagram_frame in E. inv_ok. boolify.
  assert (Hn : in_width (8 * Z.of_nat 4) (len payload)).
  { unfold in_width, umax in *. pose proof (len_nonneg payload). change (8 * Z.of_nat 4) with 32. lia. }
  unfold decode_datagram_frame, DATAGRAM_FRAME_HEADER_BYTES. open_bytes. cbn [app]. check_len. cbv iota.
  compute_reads. rewrite message_class_roundtrip, class_roundtrip, delivery_roundtrip. cbn [mbind option_bind].
  close_bytes. by rewrite Z.eqb_refl.
Qed.

Lemma datagram_encode_decode bytes f :
  Forall is_u8 bytes -> decode_datagram_frame bytes = Some f ->
  encode_datagram_frame (mkEnvelope (df_message_class f) (df_reliability f) (df_delivery f) (df_sequence f))
    (df_payload f) = Ok bytes /\ df_payload_len f = len (df_payload f) /\ is_u64 (df_sequence f).
Proof.
  intros Hb E. unfold decode_datagram_frame, DATAGRAM_FRAME_HEADER_BYTES in E.
  destruct (Z.ltb_spec (len bytes) (3 + 4 + 8)) as [|Hl]; [done|].
  explode_prefix bytes 15%nat. revert E. compute_reads. intros E.
  apply bind_Some in E as (c & Ec & E). apply bind_Some in E as (r & Er & E).
  apply bind_Some in E as (d & Ed & E). cbv zeta in E.
  destruct (Z.eqb_spec (from_be [b2; b3; b4; b5]) (len bytes)) as [En|]; [|done]. cbn [negb] in E.
  injection E as <-. cbn [df_message_class df_reliability df_delivery df_payload_len df_sequence df_payload].
  apply decode_message_class_Some in Ec. apply decode_class_Some in Er. apply decode_delivery_Some in Ed.
  subst. byte_facts. split_and!; [|done|solve_width].
  unfold encode_datagram_frame. cbn [env_message_class env_reliability env_delivery env_sequence].
  rewrite <- En. assert (Hw : is_u32 (from_be [b2; b3; b4; b5])) by solve_width.
  rewrite (proj2 (Z.ltb_ge _ _)) by (unfold in_width, umax in *; lia). cbn [guard_err mbind result_bind].
  by reencode.
Qed.

(** ** Guard lemmas *)

(** The last [w] members of the accepted history. *)
Definition last_n (w : Z) (acc : list Z) : list Z := drop (length acc - Z.to_nat w) acc.

Record guard_inv (w : Z) (acc : list Z) (g : DatagramSequenceGuard) : Prop := {
  gi_window : window g = w;
  gi_recent : recent g = last_n w acc;
  gi_none : highest g = None <-> acc = [];
  gi_max : forall h, highest g = Some h -> h ∈ acc /\ forall y, y ∈ acc -> y <= h
}.

Lemma guard_inv_new w : guard_inv (Z.max w 1) [] (Guard_new w).
Proof. by constructor. Qed.

Lemma last_n_snoc w acc x : 1 <= w ->
  (if w <=? len (last_n w acc) then drop 1 (last_n w acc) else last_n w acc) ++ [x] = last_n w (acc ++ [x]).
Proof.
  intros Hw. unfold last_n, len. rewrite length_drop, length_app. cbn [length].
  destruct (Z.leb_spec w (Z.of_nat (length acc - (length acc - Z.to_nat w)))).
  - rewrite drop_drop, drop_app_le by lia. do 2 f_equal. lia.
  - replace (length acc - Z.to_nat w)%nat with 0%nat by lia.
    replace (length acc + 1 - Z.to_nat w)%nat with 0%nat by lia. done.
Qed.

Lemma last_n_subset w acc x : x ∈ last_n w acc -> x ∈ acc.
Proof.
  unfold last_n. intros Hx. rewrite <- (take_drop (length acc - Z.to_nat w) acc). apply elem_of_app. by right.
Qed.

(** What [observe] decides and records, in terms of the accepted history. *)
Lemma observe_spec w acc g x :
  guard_inv w acc g -> 1 <= w <= umax 64 ->
  let '(g', d) := observe g x in
  guard_inv w (match d with Accept => acc ++ [x] | _ => acc end) g' /\
  match d with
  | Duplicate => x ∈ last_n w acc
  | Late => (x ∉ last_n w acc) /\ exists h, h ∈ acc /\ (forall y, y ∈ acc -> y <= h) /\ w <= h - x
  | Accept => (x ∉ last_n w acc) /\ forall h, h ∈ acc -> (forall y, y ∈ acc -> y <= h) -> h - x < w
  end.
Proof.
  intros Hg Hw. pose proof Hg as [Ew Er En Em]. unfold observe. cbv zeta. rewrite Ew, Er.
  assert (Hacc : forall h', (forall y, y ∈ acc -> y <= h') -> x <= h' -> (h' = x \/ h' ∈ acc) ->
    guard_inv w (acc ++ [x]) (mkGuard w (Some h')
      ((if w <=? len (last_n w acc) then drop 1 (last_n w acc) else last_n w acc) ++ [x]))).
  { intros h' Hall Hx Hin. constructor; cbn; [done|apply last_n_snoc; lia|split; [done|by destruct acc]|].
    intros h [= <-]. split; [set_solver|]. intros y Hy. apply elem_of_app in Hy as [Hy|Hy]; [auto|].
    apply list_elem_of_singleton in Hy. lia. }
  destruct (highest g) as [h|] eqn:Eh.
  - destruct (Em h eq_refl) as [Hin Hmax]. case_bool_decide as Hd; [done|].
    rewrite Z.min_l by lia.
    destruct ((x <=? h) && (w <=? h - x)) eqn:Eb; boolify.
    + split; [done|]. split; [done|]. exists h. split_and!; auto.
    + split.
      * apply Hacc; [intros y Hy; pose proof (Hmax y Hy); lia|lia|].
        destruct (Z.max_spec h x) as [[_ ->]|[_ ->]]; auto.
      * split; [done|]. intros h' Hin' Hmax'. pose proof (Hmax _ Hin'). pose proof (Hmax' _ Hin).
        assert (h' = h) as -> by lia. destruct Eb; boolify; lia.
  - assert (acc = []) as -> by (by apply En). split; [apply Hacc; set_solver|]. split; set_solver.
Qed.

Lemma guard_run_inv l : forall w acc g g' ds,
  guard_inv w acc g -> 1 <= w <= umax 64 -> guard_run g l = (g', ds) ->
  guard_inv w (acc ++ accepted_of l ds) g'.
Proof.
  induction l as [|x l IH]; intros w acc g g' ds Hg Hw E; cbn in E.
  { injection E as <- <-. by rewrite app_nil_r. }
  pose proof (observe_spec w acc g x Hg Hw) as Ho. destruct (observe g x) as [g1 d].
  destruct (guard_run g1 l) as [g2 ds'] eqn:Er. injection E as <- <-. destruct Ho as [Hg1 _].
  specialize (IH _ _ _ _ _ Hg1 Hw Er). destruct d; cbn [accepted_of]; [|done..].
  by rewrite <- app_assoc in IH.
Qed.

Lemma sorted_gap post : forall x h,
  StronglySorted Z.lt (x :: post) -> (forall y, y ∈ x :: post -> y <= h) -> x + len post <= h.
Proof.
  induction post as [|y post IH]; intros x h Hs Hh.
  - rewrite len_nil. specialize (Hh x ltac:(set_solver)). lia.
  - apply StronglySorted_inv in Hs as [Hs Hlt]. apply Forall_cons in Hlt as [Hlt _].
    specialize (IH y h Hs ltac:(set_solver)). rewrite len_cons. lia.
Qed.

Lemma StronglySorted_suffix {A} (R : A -> A -> Prop) l k :
  StronglySorted R (l ++ k) -> StronglySorted R k.
Proof. induction l as [|x l IH]; [done|]. intros H. apply StronglySorted_inv in H as [H _]. auto. Qed.

(** In a strictly increasing history, a member is recent or far behind. *)
Lemma increasing_recent_or_far w acc x h :
  1 <= w -> StronglySorted Z.lt acc -> x ∈ acc -> (forall y, y ∈ acc -> y <= h) ->
  x ∈ last_n w acc \/ w <= h - x.
Proof.
  intros Hw Hs Hx Hmax. unfold last_n.
  rewrite <- (take_drop (length acc - Z.to_nat w) acc) in Hx. apply elem_of_app in Hx as [Hx|Hx]; [|by left].
  right. apply list_elem_of_split in Hx as (pre & post & E).
  assert (El : length (pre ++ x :: post) = (length acc - Z.to_nat w)%nat).
  { rewrite <- E, length_take. lia. }
  rewrite length_app in El. cbn [length] in El.
  rewrite <- (take_drop (length acc - Z.to_nat w) acc), E, <- app_assoc in Hs, Hmax.
  apply StronglySorted_suffix in Hs. cbn [app] in *.
  pose proof (sorted_gap _ x h Hs ltac:(set_solver)) as Hgap.
  rewrite len_app in Hgap. unfold len in Hgap. rewrite length_drop in Hgap. lia.
Qed.

(** ** Properties *)

(** Stream headers and datagram frames are exact codecs: encoding then
    decoding returns the fields, and every byte string that decodes is the
    encoding of what it decoded to, with a payload of exactly the declared
    length. *)
Theorem quic_frames_codec_exact c r d n s m payload :
  is_u32 n -> is_u64 s -> is_u64 (env_sequence m) ->
  decode_stream_header (encode_stream_header c r d n s) = Some (mkStreamHeader c r d n s) /\
  (forall bytes h, Forall is_u8 bytes -> len bytes = STREAM_FRAME_HEADER_BYTES ->
     decode_stream_header bytes = Some h ->
     bytes = encode_stream_header (sh_message_class h) (sh_reliability h) (sh_delivery h)
               (sh_payload_len h) (sh_sequence h)) /\
  (forall frame, encode_datagram_frame m payload = Ok frame ->
     decode_datagram_frame frame = Some (mkDatagramFrame (env_message_class m) (env_reliability m)
       (env_delivery m) (len payload) (env_sequence m) payload)) /\
  (forall bytes f, Forall is_u8 bytes -> decode_datagram_frame bytes = Some f ->
     df_payload_len f = len (df_payload f) /\
     encode_datagram_frame (mkEnvelope (df_message_class f) (df_reliability f) (df_delivery f)
       (df_sequence f)) (df_payload f) = Ok bytes).
Proof.
  intros Hn Hs Hm. split_and!.
  - by apply stream_decode_encode.
  - intros bytes h Hb Hl E. by apply stream_encode_decode.
  - intros frame E. by apply datagram_decode_encode.
  - intros bytes f Hb E. destruct (datagram_encode_decode bytes f Hb E) as (? & ? & _). done.
Qed.

Lemma quic_frames_codec_exact_witness :
  decode_stream_header (encode_stream_header MMedia MediaLowLatency EncryptedDatagram 1200 77)
    = Some (mkStreamHeader MMedia MediaLowLatency EncryptedDatagram 1200 77).
Proof.
  apply (quic_frames_codec_exact MMedia MediaLowLatency EncryptedDatagram 1200 77
           (mkEnvelope MMedia MediaLowLatency EncryptedDatagram 77) []);
    unfold in_width; split_and!; vm_compute; congruence.
Defined.

(** What the sequence guard decides, in terms of the numbers it accepted so
    far: duplicate exactly when the number is among the last [window] accepted,
    otherwise late exactly when it lies at least [window] behind the highest
    accepted number, otherwise accepted. It remembers at most [window]
    numbers. *)
Theorem sequence_guard_decisions w l x :
  1 <= w <= umax 64 ->
  let '(g, ds) := guard_run (Guard_new w) l in
  let acc := accepted_of l ds in
  len (recent g) <= w /\
  match (observe g x).2 with
  | Duplicate => x ∈ last_n w acc
  | Late => (x ∉ last_n w acc) /\ exists h, h ∈ acc /\ (forall y, y ∈ acc -> y <= h) /\ w <= h - x
  | Accept => (x ∉ last_n w acc) /\ forall h, h ∈ acc -> (forall y, y ∈ acc -> y <= h) -> h - x < w
  end.
Proof.
  intros Hw. pose proof (guard_inv_new w) as Hnew. rewrite Z.max_l in Hnew by lia.
  destruct (guard_run (Guard_new w) l) as [g ds] eqn:E.
  pose proof (guard_run_inv l w [] _ _ _ Hnew Hw E) as Hg. cbn [app] in Hg. split.
  - rewrite (gi_recent _ _ _ Hg). unfold last_n, len. rewrite length_drop. lia.
  - pose proof (observe_spec w _ g x Hg Hw) as Ho. destruct (observe g x) as [g' d]. apply Ho.
Qed.

Lemma sequence_guard_decisions_witness :
  exists g ds, guard_run (Guard_new 3) [10; 8; 9] = (g, ds) /\ len (recent g) <= 3.
Proof.
  pose proof (sequence_guard_decisions 3 [10; 8; 9] 5 ltac:(vm_compute; split; congruence)) as H.
  destruct (guard_run (Guard_new 3) [10; 8; 9]) as [g ds]. exists g, ds. split; [reflexivity|apply H].
Defined.

(** While the accepted numbers are in increasing order, no number is ever
    accepted twice: one already accepted is reported duplicate or late. *)
Theorem sequence_guard_in_order_no_duplicate w l x :
  1 <= w <= umax 64 ->
  let '(g, ds) := guard_run (Guard_new w) l in
  StronglySorted Z.lt (accepted_of l ds) -> x ∈ accepted_of l ds -> (observe g x).2 <> Accept.
Proof.
  intros Hw. pose proof (guard_inv_new w) as Hnew. rewrite Z.max_l in Hnew by lia.
  destruct (guard_run (Guard_new w) l) as [g ds] eqn:E. intros Hs Hx.
  pose proof (guard_run_inv l w [] _ _ _ Hnew Hw E) as Hg. cbn [app] in Hg.
  pose proof (observe_spec w _ g x Hg Hw) as Ho. destruct (observe g x) as [g' d]. cbn.
  destruct Ho as [_ Ho]. intros ->. destruct Ho as [Hn Hfar].
  destruct (highest g) as [h|] eqn:Eh.
  - destruct (gi_max _ _ _ Hg h Eh) as [Hin Hmax]. specialize (Hfar h Hin Hmax).
    destruct (increasing_recent_or_far w _ x h ltac:(lia) Hs Hx Hmax); [done|lia].
  - apply (gi_none _ _ _ Hg) in Eh. rewrite Eh in Hx. set_solver.
Qed.

Lemma sequence_guard_in_order_no_duplicate_witness :
  (observe (guard_run (Guard_new 3) [8; 9; 10; 12]).1 9).2 <> Accept.
Proof.
  pose proof (sequence_guard_in_order_no_duplicate 3 [8; 9; 10; 12] 9 ltac:(vm_compute; split; congruence)) as H.
  destruct (guard_run (Guard_new 3) [8; 9; 10; 12]) as [g ds] eqn:E. apply H; vm_compute in E; injection E as <- <-.
  - apply (bool_decide_unpack _). vm_compute. exact I.
  - apply (bool_decide_unpack _). vm_compute. exact I.
Defined.

(** Out of order, the guard can accept the same number twice: with a window
    of three, the arrivals 10, 8, 9, 11, 10 are all accepted although 10 was
    delivered before and lies one behind the highest number, well inside the
    window: numbers are evicted in the order they were accepted. *)
Theorem sequence_guard_accepts_duplicate :
  (guard_run (Guard_new 3) [10; 8; 9; 11; 10]).2 = [Accept; Accept; Accept; Accept; Accept].
Proof. reflexivity. Qed.
