(* ===== verification/FrameQueue.v ===== *)
(** * Media: the outbound video queue

    Models [shared/media/src/video/frame_queue.rs]: the shared queue policy
    (bounded buffering, prediction-chain recovery, generation barriers,
    keyframe-request throttling) and the coalescer of full-frame requests.
    Instants and durations are nanoseconds in [Z]; the source panics when an
    [Instant] sum leaves the clock's range, which the model does not reach.
    The instant [pop_front_with_bytes] reads from the clock is an argument. *)

From S2P Require Import Prelude.

(** ** Data *)

Record FrameClassification := mkClass { class_keyframe : bool; class_recovery_point : bool }.

Definition keyframe_is_recovery (keyframe : bool) : FrameClassification := mkClass keyframe keyframe.

Inductive VideoQueuePush (T : Type) :=
| Enqueued (cleared : Z)
| Dropped (count : Z) (recovery_started idr_request : bool)
| PushClosed (item : T).
Arguments Enqueued {T}.
Arguments Dropped {T}.
Arguments PushClosed {T}.

Record PinGenerationRecovery := mkPin {
  pin_accepted : bool;
  pin_dropped : Z;
  pin_idr_request : bool;
  pin_requested_at : option Z
}.

Record KeyframeRequestRetry := mkRetry {
  retry_due : bool;
  retry_pending : bool;
  retry_at : option Z
}.

Inductive RoomState := NotOrdinary | HasRoom | RoomFull.

Record QueuedVideo (T : Type) := mkQueued {
  queued_item : T;
  enqueued_at : Z;
  queued_keyframe : bool
}.
Arguments mkQueued {T}.
Arguments queued_item {T}.
Arguments enqueued_at {T}.
Arguments queued_keyframe {T}.

Record SharedVideoQueue (T : Type) := mkQueue {
  capacity : Z;
  keyframe_request_min_interval : Z;
  deque : list (QueuedVideo T);
  generation_recovery : option (QueuedVideo T);
  generation_chain : bool;
  require_generation_recovery : bool;
  protected_front : bool;
  awaiting_keyframe : bool;
  keyframe_request_pending : bool;
  drops_since_keyframe : Z;
  last_keyframe_request_at : option Z;
  paused : bool;
  closed : bool;
  frames_sent : Z;
  frames_dropped : Z;
  bytes_sent : Z;
  keyframe_bytes_sent : Z;
  wait_total : Z;
  wait_max : Z;
  wait_frames : Z
}.
Arguments mkQueue {T}.
Arguments capacity {T}.
Arguments keyframe_request_min_interval {T}.
Arguments deque {T}.
Arguments generation_recovery {T}.
Arguments generation_chain {T}.
Arguments require_generation_recovery {T}.
Arguments protected_front {T}.
Arguments awaiting_keyframe {T}.
Arguments keyframe_request_pending {T}.
Arguments drops_since_keyframe {T}.
Arguments last_keyframe_request_at {T}.
Arguments paused {T}.
Arguments closed {T}.
Arguments frames_sent {T}.
Arguments frames_dropped {T}.
Arguments bytes_sent {T}.
Arguments keyframe_bytes_sent {T}.
Arguments wait_total {T}.
Arguments wait_max {T}.
Arguments wait_frames {T}.

Section Queue.
Context {T : Type}.
Implicit Types q : SharedVideoQueue T.

(** Assignments to one field. *)
Definition set_deque (v : list (QueuedVideo T)) q : SharedVideoQueue T :=
  mkQueue (capacity q) (keyframe_request_min_interval q) v (generation_recovery q) (generation_chain
    q) (require_generation_recovery q) (protected_front q) (awaiting_keyframe q)
    (keyframe_request_pending q) (drops_since_keyframe q) (last_keyframe_request_at q) (paused
    q) (closed q) (frames_sent q) (frames_dropped q) (bytes_sent q) (keyframe_bytes_sent q)
    (wait_total q) (wait_max q) (wait_frames q).
Definition set_generation_recovery (v : option (QueuedVideo T)) q : SharedVideoQueue T :=
  mkQueue (capacity q) (keyframe_request_min_interval q) (deque q) v (generation_chain q)
    (require_generation_recovery q) (protected_front q) (awaiting_keyframe q)
    (keyframe_request_pending q) (drops_since_keyframe q) (last_keyframe_request_at q) (paused
    q) (closed q) (frames_sent q) (frames_dropped q) (bytes_sent q) (keyframe_bytes_sent q)
    (wait_total q) (wait_max q) (wait_frames q).
Definition set_generation_chain (v : bool) q : SharedVideoQueue T :=
  mkQueue (capacity q) (keyframe_request_min_interval q) (deque q) (generation_recovery q) v
    (require_generation_recovery q) (protected_front q) (awaiting_keyframe q)
    (keyframe_request_pending q) (drops_since_keyframe q) (last_keyframe_request_at q) (paused
    q) (closed q) (frames_sent q) (frames_dropped q) (bytes_sent q) (keyframe_bytes_sent q)
    (wait_total q) (wait_max q) (wait_frames q).
Definition set_require_generation_recovery (v : bool) q : SharedVideoQueue T :=
  mkQueue (capacity q) (keyframe_request_min_interval q) (deque q) (generation_recovery q)
    (generation_chain q) v (protected_front q) (awaiting_keyframe q) (keyframe_request_pending
    q) (drops_since_keyframe q) (last_keyframe_request_at q) (paused q) (closed q)
    (frames_sent q) (frames_dropped q) (bytes_sent q) (keyframe_bytes_sent q) (wait_total q)
    (wait_max q) (wait_frames q).
Definition set_protected_front (v : bool) q : SharedVideoQueue T :=
  mkQueue (capacity q) (keyframe_request_min_interval q) (deque q) (generation_recovery q)
    (generation_chain q) (require_generation_recovery q) v (awaiting_keyframe q)
    (keyframe_request_pending q) (drops_since_keyframe q) (last_keyframe_request_at q) (paused
    q) (closed q) (frames_sent q) (frames_dropped q) (bytes_sent q) (keyframe_bytes_sent q)
    (wait_total q) (wait_max q) (wait_frames q).
Definition set_awaiting_keyframe (v : bool) q : SharedVideoQueue T :=
  mkQueue (capacity q) (keyframe_request_min_interval q) (deque q) (generation_recovery q)
    (generation_chain q) (require_generation_recovery q) (protected_front q) v
    (keyframe_request_pending q) (drops_since_keyframe q) (last_keyframe_request_at q) (paused
    q) (closed q) (frames_sent q) (frames_dropped q) (bytes_sent q) (keyframe_bytes_sent q)
    (wait_total q) (wait_max q) (wait_frames q).
Definition set_keyframe_request_pending (v : bool) q : SharedVideoQueue T :=
  mkQueue (capacity q) (keyframe_request_min_interval q) (deque q) (generation_recovery q)
    (generation_chain q) (require_generation_recovery q) (protected_front q)
    (awaiting_keyframe q) v (drops_since_keyframe q) (last_keyframe_request_at q) (paused q)
    (closed q) (frames_sent q) (frames_dropped q) (bytes_sent q) (keyframe_bytes_sent q)
    (wait_total q) (wait_max q) (wait_frames q).
Definition set_drops_since_keyframe (v : Z) q : SharedVideoQueue T :=
  mkQueue (capacity q) (keyframe_request_min_interval q) (deque q) (generation_recovery q)
    (generation_chain q) (require_generation_recovery q) (protected_front q)
    (awaiting_keyframe q) (keyframe_request_pending q) v (last_keyframe_request_at q) (paused
    q) (closed q) (frames_sent q) (frames_dropped q) (bytes_sent q) (keyframe_bytes_sent q)
    (wait_total q) (wait_max q) (wait_frames q).
Definition set_last_keyframe_request_at (v : option Z) q : SharedVideoQueue T :=
  mkQueue (capacity q) (keyframe_request_min_interval q) (deque q) (generation_recovery q)
    (generation_chain q) (require_generation_recovery q) (protected_front q)
    (awaiting_keyframe q) (keyframe_request_pending q) (drops_since_keyframe q) v (paused q)
    (closed q) (frames_sent q) (frames_dropped q) (bytes_sent q) (keyframe_bytes_sent q)
    (wait_total q) (wait_max q) (wait_frames q).
Definition set_paused (v : bool) q : SharedVideoQueue T :=
  mkQueue (capacity q) (keyframe_request_min_interval q) (deque q) (generation_recovery q)
    (generation_chain q) (require_generation_recovery q) (protected_front q)
    (awaiting_keyframe q) (keyframe_request_pending q) (drops_since_keyframe q)
    (last_keyframe_request_at q) v (closed q) (frames_sent q) (frames_dropped q) (bytes_sent
    q) (keyframe_bytes_sent q) (wait_total q) (wait_max q) (wait_frames q).
Definition set_closed (v : bool) q : SharedVideoQueue T :=
  mkQueue (capacity q) (keyframe_request_min_interval q) (deque q) (generation_recovery q)
    (generation_chain q) (require_generation_recovery q) (protected_front q)
    (awaiting_keyframe q) (keyframe_request_pending q) (drops_since_keyframe q)
    (last_keyframe_request_at q) (paused q) v (frames_sent q) (frames_dropped q) (bytes_sent
    q) (keyframe_bytes_sent q) (wait_total q) (wait_max q) (wait_frames q).
Definition set_frames_sent (v : Z) q : SharedVideoQueue T :=
  mkQueue (capacity q) (keyframe_request_min_interval q) (deque q) (generation_recovery q)
    (generation_chain q) (require_generation_recovery q) (protected_front q)
    (awaiting_keyframe q) (keyframe_request_pending q) (drops_since_keyframe q)
    (last_keyframe_request_at q) (paused q) (closed q) v (frames_dropped q) (bytes_sent q)
    (keyframe_bytes_sent q) (wait_total q) (wait_max q) (wait_frames q).
Definition set_frames_dropped (v : Z) q : SharedVideoQueue T :=
  mkQueue (capacity q) (keyframe_request_min_interval q) (deque q) (generation_recovery q)
    (generation_chain q) (require_generation_recovery q) (protected_front q)
    (awaiting_keyframe q) (keyframe_request_pending q) (drops_since_keyframe q)
    (last_keyframe_request_at q) (paused q) (closed q) (frames_sent q) v (bytes_sent q)
    (keyframe_bytes_sent q) (wait_total q) (wait_max q) (wait_frames q).
Definition set_bytes_sent (v : Z) q : SharedVideoQueue T :=
  mkQueue (capacity q) (keyframe_request_min_interval q) (deque q) (generation_recovery q)
    (generation_chain q) (require_generation_recovery q) (protected_front q)
    (awaiting_keyframe q) (keyframe_request_pending q) (drops_since_keyframe q)
    (last_keyframe_request_at q) (paused q) (closed q) (frames_sent q) (frames_dropped q) v
    (keyframe_bytes_sent q) (wait_total q) (wait_max q) (wait_frames q).
Definition set_keyframe_bytes_sent (v : Z) q : SharedVideoQueue T :=
  mkQueue (capacity q) (keyframe_request_min_interval q) (deque q) (generation_recovery q)
    (generation_chain q) (require_generation_recovery q) (protected_front q)
    (awaiting_keyframe q) (keyframe_request_pending q) (drops_since_keyframe q)
    (last_keyframe_request_at q) (paused q) (closed q) (frames_sent q) (frames_dropped q)
    (bytes_sent q) v (wait_total q) (wait_max q) (wait_frames q).
Definition set_wait_total (v : Z) q : SharedVideoQueue T :=
  mkQueue (capacity q) (keyframe_request_min_interval q) (deque q) (generation_recovery q)
    (generation_chain q) (require_generation_recovery q) (protected_front q)
    (awaiting_keyframe q) (keyframe_request_pending q) (drops_since_keyframe q)
    (last_keyframe_request_at q) (paused q) (closed q) (frames_sent q) (frames_dropped q)
    (bytes_sent q) (keyframe_bytes_sent q) v (wait_max q) (wait_frames q).
Definition set_wait_max (v : Z) q : SharedVideoQueue T :=
  mkQueue (capacity q) (keyframe_request_min_interval q) (deque q) (generation_recovery q)
    (generation_chain q) (require_generation_recovery q) (protected_front q)
    (awaiting_keyframe q) (keyframe_request_pending q) (drops_since_keyframe q)
    (last_keyframe_request_at q) (paused q) (closed q) (frames_sent q) (frames_dropped q)
    (bytes_sent q) (keyframe_bytes_sent q) (wait_total q) v (wait_frames q).
Definition set_wait_frames (v : Z) q : SharedVideoQueue T :=
  mkQueue (capacity q) (keyframe_request_min_interval q) (deque q) (generation_recovery q)
    (generation_chain q) (require_generation_recovery q) (protected_front q)
    (awaiting_keyframe q) (keyframe_request_pending q) (drops_since_keyframe q)
    (last_keyframe_request_at q) (paused q) (closed q) (frames_sent q) (frames_dropped q)
    (bytes_sent q) (keyframe_bytes_sent q) (wait_total q) (wait_max q) v.

(** ** Operations *)

Definition SharedVideoQueue_new (cap min_interval : Z) : option (SharedVideoQueue T) :=
  if 0 <? cap
  then Some (mkQueue cap min_interval [] None false false false false false 0 None false false
               0 0 0 0 0 0 0)
  else None.

Definition record_drop (count : Z) q : SharedVideoQueue T :=
  let q := set_drops_since_keyframe (saturating_add 64 (drops_since_keyframe q) count) q in
  set_frames_dropped (saturating_add 64 (frames_dropped q) count) q.

Definition keyframe_request_due_at q (now : Z) : bool :=
  keyframe_request_pending q &&
  match last_keyframe_request_at q with
  | None => true
  | Some last => keyframe_request_min_interval q <=? Z.max (now - last) 0
  end.

Definition keyframe_request_due q (now : Z) : SharedVideoQueue T * bool :=
  let q := set_keyframe_request_pending true q in
  (q, keyframe_request_due_at q now).

Definition keyframe_request_retry_at q (now : Z) : option Z :=
  if negb (keyframe_request_pending q) then None
  else
    last ← last_keyframe_request_at q;
    let due := last + keyframe_request_min_interval q in
    if now <? due then Some due else None.

Definition push_back (x : QueuedVideo T) q : SharedVideoQueue T := set_deque (deque q ++ [x]) q.

(** The tail shared by the branches of [push] that drop: record the drop, then
    ask whether a keyframe request is due. *)
Definition drop_and_request q (count : Z) (recovery_started : bool) (now : Z)
  : SharedVideoQueue T * VideoQueuePush T :=
  let q := record_drop count q in
  let '(q, idr_request) := keyframe_request_due q now in
  (q, Dropped count recovery_started idr_request).

(** [push], branch by branch. A generation that needs a recovery point: *)
Definition push_recovering q (queued : QueuedVideo T) (c : FrameClassification) (now : Z)
  : SharedVideoQueue T * VideoQueuePush T :=
  if class_recovery_point c && (len (deque q) <? capacity q) then
    let q := push_back queued q in
    let q := set_require_generation_recovery false q in
    let q := set_awaiting_keyframe false q in
    let q := set_keyframe_request_pending false q in
    let q := set_drops_since_keyframe 0 q in
    let q := set_last_keyframe_request_at None q in
    let q := if negb (paused q) then set_generation_chain false q else q in
    (q, Enqueued 0)
  else drop_and_request q 1 false now.

(** The chain that follows a pinned unit while the barrier is up: *)
Definition push_behind_barrier q (queued : QueuedVideo T) (now : Z)
  : SharedVideoQueue T * VideoQueuePush T :=
  let generation_capacity :=
    saturating_sub (capacity q) (Z.b2z (is_some (generation_recovery q))) in
  if len (deque q) <? generation_capacity then (push_back queued q, Enqueued 0)
  else
    let count := len (deque q) + 1 in
    let q := set_deque [] q in
    let q := set_require_generation_recovery true q in
    let q := set_awaiting_keyframe true q in
    let q := set_keyframe_request_pending true q in
    drop_and_request q count true now.

(** The pinned unit is at the front and not yet sent: *)
Definition push_protected q (queued : QueuedVideo T) (c : FrameClassification) (now : Z)
  : SharedVideoQueue T * VideoQueuePush T :=
  if len (deque q) <? capacity q then (push_back queued q, Enqueued 0)
  else
    let pinned := head (deque q) in
    let count := len (drop 1 (deque q)) + 1 in
    let q := set_deque (match pinned with Some pinned => [pinned] | None => [] end) q in
    let q := set_generation_chain true q in
    let q := set_require_generation_recovery (negb (class_recovery_point c)) q in
    let q := set_awaiting_keyframe (negb (class_recovery_point c)) q in
    let q := set_keyframe_request_pending (negb (class_recovery_point c)) q in
    if class_recovery_point c then
      let q := push_back queued q in
      let q := set_drops_since_keyframe 0 q in
      let q := set_keyframe_request_pending false q in
      let q := set_last_keyframe_request_at None q in
      let q := set_frames_dropped (saturating_add 64 (frames_dropped q) count) q in
      (q, Enqueued count)
    else drop_and_request q count true now.

(** The ordinary path: *)
Definition push_ordinary q (queued : QueuedVideo T) (c : FrameClassification) (now : Z)
  : SharedVideoQueue T * VideoQueuePush T :=
  if class_keyframe c then
    let cleared := len (deque q) in
    let q := set_deque [queued] q in
    let q := set_awaiting_keyframe false q in
    let q := set_keyframe_request_pending false q in
    let q := set_drops_since_keyframe 0 q in
    let q := set_last_keyframe_request_at None q in
    (q, Enqueued cleared)
  else if awaiting_keyframe q then
    drop_and_request (set_keyframe_request_pending true q) 1 false now
  else if len (deque q) <? capacity q then (push_back queued q, Enqueued 0)
  else
    let count := len (deque q) + 1 in
    let q := set_deque [] q in
    let q := set_awaiting_keyframe true q in
    let q := set_keyframe_request_pending true q in
    drop_and_request q count true now.

Definition push q (item : T) (c : FrameClassification) (now : Z)
  : SharedVideoQueue T * VideoQueuePush T :=
  if closed q then (q, PushClosed item)
  else
    let keyframe := class_keyframe c || class_recovery_point c in
    let queued := mkQueued item now keyframe in
    if generation_chain q && require_generation_recovery q then push_recovering q queued c now
    else if paused q && generation_chain q then push_behind_barrier q queued now
    else if paused q && is_some (generation_recovery q) then
      (record_drop 1 q, Dropped 1 false false)
    else if protected_front q then push_protected q queued c now
    else push_ordinary q queued c now.

Definition pin_generation_recovery q (item : T) (now : Z)
  : SharedVideoQueue T * PinGenerationRecovery :=
  if closed q || negb (paused q) || is_some (generation_recovery q)
  then (q, mkPin false 0 false None)
  else
    let dropped := len (deque q) in
    let q := set_deque [] q in
    let q := set_generation_recovery (Some (mkQueued item now true)) q in
    let q := set_generation_chain true q in
    let q := set_require_generation_recovery true q in
    let q := set_awaiting_keyframe true q in
    let q := set_keyframe_request_pending true q in
    let q := set_drops_since_keyframe 0 q in
    let q := set_frames_dropped (saturating_add 64 (frames_dropped q) dropped) q in
    (q, mkPin true dropped true None).

Definition clear_keyframe_request_if_at q (requested_at : Z) : SharedVideoQueue T :=
  if bool_decide (last_keyframe_request_at q = Some requested_at)
  then set_keyframe_request_pending true (set_last_keyframe_request_at None q) else q.

Definition note_keyframe_request_handoff q (success : bool) (now : Z) : SharedVideoQueue T :=
  if success
  then set_last_keyframe_request_at (Some now) (set_keyframe_request_pending false q) else q.

Definition abandon_keyframe_request q : SharedVideoQueue T := set_keyframe_request_pending false q.

Definition keyframe_request_retry q (now : Z) : KeyframeRequestRetry :=
  mkRetry (keyframe_request_due_at q now) (keyframe_request_pending q) (keyframe_request_retry_at q now).

Definition pop_front_with_bytes q (bytes : T -> Z) (clock : Z) : SharedVideoQueue T * option T :=
  if paused q then (q, None)
  else
    match deque q with
    | [] => (q, None)
    | queued :: rest =>
      let q := set_deque rest q in
      let q := if protected_front q then set_protected_front false q else q in
      let wait := Z.max (clock - enqueued_at queued) 0 in
      let q := set_wait_total (duration_saturating_add (wait_total q) wait) q in
      let q := set_wait_max (Z.max (wait_max q) wait) q in
      let q := set_wait_frames (saturating_add 64 (wait_frames q) 1) q in
      let q := set_frames_sent (saturating_add 64 (frames_sent q) 1) q in
      let size := bytes (queued_item queued) in
      let q := set_bytes_sent (saturating_add 64 (bytes_sent q) size) q in
      let q := if queued_keyframe queued
               then set_keyframe_bytes_sent (saturating_add 64 (keyframe_bytes_sent q) size) q else q in
      (q, Some (queued_item queued))
    end.

Definition pop_front q (clock : Z) : SharedVideoQueue T * option T :=
  pop_front_with_bytes q (fun _ => 0) clock.

Definition room_state q : RoomState :=
  let ordinary := negb (closed q) && negb (paused q) && negb (awaiting_keyframe q)
                  && negb (generation_chain q) && negb (protected_front q) in
  if negb ordinary then NotOrdinary
  else if len (deque q) <? capacity q then HasRoom else RoomFull.

Definition close q : SharedVideoQueue T := set_closed true q.

Definition close_and_clear q : SharedVideoQueue T :=
  let q := set_closed true q in
  let q := set_deque [] q in
  let q := set_generation_recovery None q in
  set_awaiting_keyframe false q.

Definition clear q : SharedVideoQueue T * Z := (set_deque [] q, len (deque q)).

Definition begin_generation q : SharedVideoQueue T :=
  let dropped := len (deque q) + (Z.b2z (is_some (generation_recovery q))) in
  let q := set_generation_recovery None q in
  let q := set_deque [] q in
  let q := set_generation_chain false q in
  let q := set_require_generation_recovery false q in
  let q := set_protected_front false q in
  let q := set_awaiting_keyframe true q in
  let q := set_drops_since_keyframe 0 q in
  let q := set_last_keyframe_request_at None q in
  let q := set_paused true q in
  let q := set_keyframe_request_pending true q in
  set_frames_dropped (saturating_add 64 (frames_dropped q) dropped) q.

Definition activate_generation q : SharedVideoQueue T * bool :=
  match generation_recovery q with
  | None => (q, false)
  | Some recovery =>
    let q := set_generation_recovery None q in
    let q := set_deque (recovery :: deque q) q in
    let q := set_paused false q in
    let q := set_protected_front true q in
    let q := if negb (require_generation_recovery q) then set_generation_chain false q else q in
    (q, true)
  end.
End Queue.

(** ** Full-frame request coalescer *)

Record FullFrameRequestDecision := mkFullFrame {
  deliver_now : bool;
  ff_pending : bool;
  deliver_at : option Z
}.

Record FullFrameRequestCoalescer := mkCoalescer {
  co_min_interval : Z;
  last_delivered_at : option Z;
  co_pending : bool
}.

Definition Coalescer_new (min_interval : Z) : FullFrameRequestCoalescer := mkCoalescer min_interval None false.

Definition deliver_due_at (c : FullFrameRequestCoalescer) (now : Z) : option Z :=
  last ← last_delivered_at c;
  let due := last + co_min_interval c in
  if now <? due then Some due else None.

Definition ff_decision (c : FullFrameRequestCoalescer) (now : Z) : FullFrameRequestDecision :=
  mkFullFrame false (co_pending c) (if co_pending c then deliver_due_at c now else None).

Definition ff_request (c : FullFrameRequestCoalescer) (now : Z)
  : FullFrameRequestCoalescer * FullFrameRequestDecision :=
  if negb (is_some (deliver_due_at c now))
  then (mkCoalescer (co_min_interval c) (Some now) false, mkFullFrame true false None)
  else
    let c := mkCoalescer (co_min_interval c) (last_delivered_at c) true in
    (c, ff_decision c now).

Definition ff_poll (c : FullFrameRequestCoalescer) (now : Z)
  : FullFrameRequestCoalescer * FullFrameRequestDecision :=
  if co_pending c && negb (is_some (deliver_due_at c now))
  then (mkCoalescer (co_min_interval c) (Some now) false, mkFullFrame true false None)
  else (c, ff_decision c now).

(** ** Queue-wait statistics *)

Record VideoQueueWaitStats := mkWaitStats { ws_frames : Z; ws_mean : Z; ws_max : Z }.

Definition wait_stats_combine (samples : list VideoQueueWaitStats) : VideoQueueWaitStats :=
  let '(frames, total_nanos, max) :=
    foldl (fun '(frames, total, max) s =>
             (saturating_add 64 frames (ws_frames s),
              saturating_add 128 total (Z.min (ws_mean s * ws_frames s) (umax 128)),
              Z.max max (ws_max s))) (0, 0, 0) samples in
  let mean := if frames =? 0 then 0 else Z.min (total_nanos / frames) (umax 64) in
  mkWaitStats frames mean max.

Definition take_wait_stats {T} (q : SharedVideoQueue T) : SharedVideoQueue T * VideoQueueWaitStats :=
  let frames := wait_frames q in
  let mean := if frames =? 0 then 0 else wait_total q / Z.min frames (umax 32) in
  let stats := mkWaitStats frames mean (wait_max q) in
  (set_wait_frames 0 (set_wait_max 0 (set_wait_total 0 q)), stats).

(** ** Runs

    Access units are numbered in encoder order as they are pushed; a unit that
    is not self-contained needs the one numbered just before it.  The unit a
    host pins at a generation barrier is self-contained and outside the
    numbering.  A run also remembers the units that [clear] discarded, which it
    does without telling the recovery state. *)

Record AccessUnit := mkAu { au_seq : Z; au_self : bool }.

Definition PINNED_SEQ : Z := -2.

Inductive QueueOp :=
| QPush (c : FrameClassification) (now : Z)
| QPin (now : Z)
| QPop (bytes : AccessUnit -> Z) (clock : Z)
| QBegin
| QActivate
| QClose
| QCloseAndClear
| QClear
| QHandoff (success : bool) (now : Z)
| QRollback (requested_at : Z)
| QAbandon
| QTakeStats.

Record RunState := mkRun {
  rs_queue : SharedVideoQueue AccessUnit;
  rs_next : Z;
  rs_delivered : list AccessUnit;
  rs_gone : list Z
}.

Definition queue_step (st : RunState) (op : QueueOp) : RunState :=
  let q := rs_queue st in
  match op with
  | QPush c now =>
    let item := mkAu (rs_next st) (class_keyframe c || class_recovery_point c) in
    mkRun (push q item c now).1 (rs_next st + 1) (rs_delivered st) (rs_gone st)
  | QPin now => mkRun (pin_generation_recovery q (mkAu PINNED_SEQ true) now).1 (rs_next st) (rs_delivered st) (rs_gone st)
  | QPop bytes clock =>
    let '(q, r) := pop_front_with_bytes q bytes clock in
    mkRun q (rs_next st) (rs_delivered st ++ match r with Some x => [x] | None => [] end) (rs_gone st)
  | QBegin => mkRun (begin_generation q) (rs_next st) (rs_delivered st) (rs_gone st)
  | QActivate => mkRun (activate_generation q).1 (rs_next st) (rs_delivered st) (rs_gone st)
  | QClose => mkRun (close q) (rs_next st) (rs_delivered st) (rs_gone st)
  | QCloseAndClear => mkRun (close_and_clear q) (rs_next st) (rs_delivered st) (rs_gone st)
  | QClear => mkRun (clear q).1 (rs_next st) (rs_delivered st) (rs_gone st ++ map au_seq (map queued_item (deque q)))
  | QHandoff success now => mkRun (note_keyframe_request_handoff q success now) (rs_next st) (rs_delivered st) (rs_gone st)
  | QRollback at_ => mkRun (clear_keyframe_request_if_at q at_) (rs_next st) (rs_delivered st) (rs_gone st)
  | QAbandon => mkRun (abandon_keyframe_request q) (rs_next st) (rs_delivered st) (rs_gone st)
  | QTakeStats => mkRun (take_wait_stats q).1 (rs_next st) (rs_delivered st) (rs_gone st)
  end.

Definition queue_run (q : SharedVideoQueue AccessUnit) (ops : list QueueOp) : RunState :=
  foldl queue_step (mkRun q 0 [] []) ops.

(** [linked gone p l]: every unit of [l] is self-contained, directly follows the
    unit before it ([p] being the number before the first), or its reference is
    among the units that are [gone]. *)
Fixpoint linked (gone : list Z) (p : Z) (l : list AccessUnit) : Prop :=
  match l with
  | [] => True
  | x :: l => (au_self x = true \/ au_seq x = p + 1 \/ au_seq x - 1 ∈ gone) /\ linked gone (au_seq x) l
  end.

Definition tail_seq (p : Z) (l : list AccessUnit) : Z := foldl (fun _ x => au_seq x) p l.

Lemma linked_app gone l k : forall p, linked gone p (l ++ k) <-> linked gone p l /\ linked gone (tail_seq p l) k.
Proof. induction l as [|x l IH]; intros p; cbn; [tauto|]. rewrite IH. unfold tail_seq. cbn. tauto. Qed.

Lemma linked_mono gone gone' l : gone ⊆ gone' -> forall p, linked gone p l -> linked gone' p l.
Proof. intros Hg. induction l as [|x l IH]; intros p; cbn; [done|]. set_solver. Qed.

Lemma tail_seq_in p l : l <> [] -> tail_seq p l ∈ map au_seq l.
Proof.
  revert p. induction l as [|x l IH]; intros p; [done|]. intros _. destruct l as [|y l]; [cbn; set_solver|].
  specialize (IH (au_seq x) ltac:(done)). cbn [map]. apply elem_of_cons. by right.
Qed.

Lemma tail_seq_app p l k : tail_seq p (l ++ k) = tail_seq (tail_seq p l) k.
Proof. unfold tail_seq. by rewrite foldl_app. Qed.

Definition items (q : SharedVideoQueue AccessUnit) : list AccessUnit := map queued_item (deque q).

(** The queue invariant relative to what was delivered and the next number. *)
Record queue_inv (cap next : Z) (gone : list Z) (delivered : list AccessUnit) (q : SharedVideoQueue AccessUnit) : Prop := {
  qi_linked : linked gone (-1) (delivered ++ items q);
  qi_capacity : capacity q = cap /\ 1 <= cap;
  qi_bound : len (deque q) + Z.b2z (is_some (generation_recovery q)) <= Z.max (capacity q) 2;
  qi_pinned : forall p, generation_recovery q = Some p ->
    au_self (queued_item p) = true /\ paused q = true /\ generation_chain q = true /\
    awaiting_keyframe q = require_generation_recovery q /\
    (require_generation_recovery q = true -> deque q = []) /\
    (require_generation_recovery q = false ->
       match deque q with
       | [] => closed q = false -> next - 1 ∈ gone
       | x :: _ => au_self (queued_item x) = true \/ au_seq (queued_item x) - 1 ∈ gone
       end);
  qi_tail : closed q = false -> awaiting_keyframe q = false ->
    tail_seq (-1) (delivered ++ items q) = next - 1 \/ next - 1 ∈ gone;
  qi_require : closed q = false -> require_generation_recovery q = true ->
    awaiting_keyframe q = true /\ generation_chain q = true;
  qi_paused : closed q = false -> paused q = true -> generation_chain q = true ->
    exists p, generation_recovery q = Some p;
  qi_protected : closed q = false -> protected_front q = true ->
    paused q = false /\
    (require_generation_recovery q = true \/ awaiting_keyframe q = false)
}.

Lemma queue_inv_new cap interval q :
  SharedVideoQueue_new cap interval = Some q -> queue_inv cap 0 [] [] q.
Proof.
  unfold SharedVideoQueue_new. destruct (Z.ltb_spec 0 cap); [|done]. intros [= <-].
  constructor; cbn; try done; [split; [done|lia]| |by left]. change (len _) with 0. lia.
Qed.

(** Appending one unit to what is delivered and queued. *)
Lemma linked_snoc gone d l x next :
  linked gone (-1) (d ++ l) -> au_self x = true \/ au_seq x = tail_seq (-1) (d ++ l) + 1 \/ au_seq x - 1 ∈ gone ->
  au_seq x = next ->
  linked gone (-1) (d ++ l ++ [x]) /\ tail_seq (-1) (d ++ l ++ [x]) = next.
Proof.
  intros Hl Hx Hn. rewrite app_assoc. split; [|rewrite tail_seq_app; exact Hn].
  rewrite linked_app. split; [done|]. split; [done|exact I].
Qed.

Lemma linked_prefix gone d l : linked gone (-1) (d ++ l) -> linked gone (-1) (d ++ []).
Proof. rewrite app_nil_r, linked_app. by intros [? _]. Qed.

Lemma linked_self gone d x : linked gone (-1) (d ++ []) -> au_self x = true ->
  linked gone (-1) (d ++ [x]) /\ tail_seq (-1) (d ++ [x]) = au_seq x.
Proof.
  rewrite app_nil_r. intros Hd Hx. split; [|by rewrite tail_seq_app].
  rewrite linked_app. split; [done|]. split; [by left|done].
Qed.

(** Dropping leaves the recovery state as it is. *)
Lemma drop_and_request_fields {T} (q : SharedVideoQueue T) count started now :
  exists pend drops dropped,
    (drop_and_request q count started now).1 =
      set_keyframe_request_pending pend (set_drops_since_keyframe drops (set_frames_dropped dropped q)).
Proof. by eexists _, _, _. Qed.

(** The branches of [push] keep the invariant.  [x] is the pushed unit. *)
Section PushBranches.
Context (cap next : Z) (gone : list Z) (d : list AccessUnit) (q : SharedVideoQueue AccessUnit).
Context (c : FrameClassification) (now : Z).
Context (Hinv : queue_inv cap next gone d q) (Hopen : closed q = false).
Let x := mkQueued (mkAu next (class_keyframe c || class_recovery_point c)) now
           (class_keyframe c || class_recovery_point c).

Lemma pushed_self : class_recovery_point c = true \/ class_keyframe c = true -> au_self (queued_item x) = true.
Proof using Type. cbn. intros [-> | ->]; [apply orb_true_r|done]. Qed.

(** The queue that keeps the rest of [q] and drops the unit. *)
Lemma inv_dropped pend drops dropped :
  awaiting_keyframe q = true ->
  queue_inv cap (next + 1) gone d
    (set_keyframe_request_pending pend (set_drops_since_keyframe drops (set_frames_dropped dropped q))).
Proof using Hinv.
  intros Ha. destruct Hinv as [HL HC HB HP HA HR HQ HF]. constructor; cbn; auto; [|congruence].
  intros p Hp. destruct (HP p Hp) as (? & ? & ? & Haw & ? & _). split_and!; auto. congruence.
Qed.

(** The queue that appends the unit after the last one. *)
Lemma inv_appended :
  awaiting_keyframe q = false ->
  len (deque q) + 1 + Z.b2z (is_some (generation_recovery q)) <= Z.max (capacity q) 2 ->
  queue_inv cap (next + 1) gone d (push_back x q).
Proof using Hinv Hopen.
  intros Ha Hroom. destruct Hinv as [HL HC HB HP HA HR HQ HF]. specialize (HA Hopen Ha).
  destruct (linked_snoc gone d (items q) (queued_item x) next HL) as [HL' HT'];
    [cbn; destruct HA; [right; left; lia|right; by right]|done|].
  assert (Ei : items (push_back x q) = items q ++ [queued_item x]) by (unfold items; cbn; by rewrite map_app).
  constructor; rewrite ?Ei; cbn; auto.
  - rewrite len_app, len_cons. change (len (@nil (QueuedVideo AccessUnit))) with 0. lia.
  - intros p Hp. destruct (HP p Hp) as (? & ? & ? & Er & _ & Hne). split_and!; auto; [congruence|].
    intros Hr. specialize (Hne Hr). destruct (deque q); cbn; [|done]. right. by apply Hne.
  - intros _ _. left. transitivity next; [exact HT'|lia].
Qed.

Lemma push_recovering_inv :
  generation_chain q = true -> require_generation_recovery q = true ->
  queue_inv cap (next + 1) gone d (push_recovering q x c now).1.
Proof using Hinv Hopen.
  intros Hch Hre. unfold push_recovering. pose proof Hinv as [HL HC HB HP HA HR HQ HF].
  destruct (HR Hopen Hre) as [Ha _].
  destruct (class_recovery_point c && (len (deque q) <? capacity q)) eqn:E2.
  - apply andb_true_iff in E2 as [Er El]. apply Z.ltb_lt in El.
    destruct (linked_snoc gone d (items q) (queued_item x) next HL (or_introl (pushed_self (or_introl Er))) eq_refl)
      as [HL' HT'].
    cbn [fst]. set (q' := if negb _ then _ else _).
    assert (Ei : items q' = items q ++ [queued_item x]).
    { subst q'. unfold items. cbn. destruct (paused q); cbn; by rewrite map_app. }
    assert (Hdq : deque q' = deque q ++ [x]) by (subst q'; cbn; by destruct (paused q)).
    assert (Hpa : paused q' = paused q /\ generation_recovery q' = generation_recovery q /\
      capacity q' = capacity q /\ awaiting_keyframe q' = false /\ require_generation_recovery q' = false /\
      generation_chain q' = paused q /\ protected_front q' = protected_front q)
      by (subst q'; cbn; destruct (paused q) eqn:Ep; cbn; split_and!; congruence).
    destruct Hpa as (P1 & P2 & P3 & P4 & P5 & P6 & P7).
    constructor; rewrite ?Ei, ?Hdq, ?P1, ?P2, ?P3, ?P4, ?P5, ?P6, ?P7; auto; try done.
    + rewrite len_app, len_cons. change (len (@nil (QueuedVideo AccessUnit))) with 0.
      destruct (generation_recovery q) as [p|] eqn:Ep; cbn; [|lia].
      destruct (HP p eq_refl) as (_ & _ & _ & _ & Hnil & _). rewrite (Hnil Hre).
      change (len (@nil (QueuedVideo AccessUnit))) with 0. lia.
    + intros p Hp. destruct (HP p Hp) as (? & Hpa & _ & _ & Hnil & _). split_and!; auto; try done.
      intros _. rewrite (Hnil Hre). cbn. left. apply pushed_self. by left.
    + intros _ _. left. transitivity next; [exact HT'|lia].
    + intros _ Hp. destruct (HF Hopen Hp) as (? & _). split_and!; auto.
  - destruct (drop_and_request_fields q 1 false now) as (p1 & p2 & p3 & ->). by apply inv_dropped.
Qed.

Lemma push_behind_barrier_inv :
  paused q = true -> generation_chain q = true -> require_generation_recovery q = false ->
  queue_inv cap (next + 1) gone d (push_behind_barrier q x now).1.
Proof using Hinv Hopen.
  intros Hpa Hch Hre. unfold push_behind_barrier. pose proof Hinv as [HL HC HB HP HA HR HQ HF].
  destruct (HQ Hopen Hpa Hch) as [p Ep]. destruct (HP p Ep) as (Hps & _ & _ & Ha & _ & Hne).
  rewrite Ep. cbn [is_some Z.b2z]. unfold saturating_sub. pose proof (len_nonneg (deque q)).
  destruct (Z.ltb_spec (len (deque q)) (Z.max (capacity q - 1) 0)) as [Hlt|_].
  - apply inv_appended; [congruence|]. rewrite Ep. cbn. lia.
  - match goal with |- context [drop_and_request ?q' ?n ?b now] =>
      destruct (drop_and_request_fields q' n b now) as (p1 & p2 & p3 & ->) end.
    constructor; cbn; auto.
    + by apply (linked_prefix gone d (items q)).
    + rewrite Ep. cbn. change (len _) with 0. lia.
    + intros p' Hp'. destruct (HP p' Hp') as (? & _). by split_and!.
    + done.
    + intros _ Hp. destruct (HF Hopen Hp) as (? & _). congruence.
Qed.

Lemma push_protected_inv :
  protected_front q = true -> paused q = false -> require_generation_recovery q = false ->
  queue_inv cap (next + 1) gone d (push_protected q x c now).1.
Proof using Hinv Hopen.
  intros Hpr Hpa Hre. unfold push_protected. pose proof pushed_self as Hself. pose proof Hinv as [HL HC HB HP HA HR HQ HF].
  destruct (HF Hopen Hpr) as (_ & Hor).
  assert (Hnone : generation_recovery q = None).
  { destruct (generation_recovery q) as [p|] eqn:Ep; [|done]. destruct (HP p eq_refl) as (_ & ? & _). congruence. }
  destruct (Z.ltb_spec (len (deque q)) (capacity q)) as [Hlt|Hge].
  { apply inv_appended; [destruct Hor; congruence|]. rewrite Hnone. cbn. lia. }
  destruct (deque q) as [|front rest] eqn:Edq; [change (len _) with 0 in Hge; lia|]. cbn [head].
  assert (Hfront : linked gone (-1) (d ++ [queued_item front])).
  { unfold items in HL. rewrite Edq in HL. cbn [map] in HL. rewrite cons_middle, app_assoc, linked_app in HL. tauto. }
  destruct (class_recovery_point c) eqn:Er; cbn [negb fst].
  - destruct (linked_snoc gone d [queued_item front] (queued_item x) next Hfront) as [HL' HT'];
      [left; apply Hself; by left|done|].
    constructor; unfold items; cbn; auto; try done.
    + change (len _) with 2. rewrite Hnone. cbn. lia.
    + intros p Hp. congruence.
    + intros _ _. left. transitivity next; [exact HT'|lia].
    + congruence.
  - match goal with |- context [drop_and_request ?q' ?n ?b now] =>
      destruct (drop_and_request_fields q' n b now) as (p1 & p2 & p3 & ->) end.
    constructor; unfold items; cbn; auto; try done.
    + change (len _) with 1. rewrite Hnone. cbn. lia.
    + intros p Hp. congruence.
    + congruence.
Qed.

Lemma push_ordinary_inv :
  require_generation_recovery q = false -> protected_front q = false -> generation_recovery q = None ->
  paused q && generation_chain q = false -> queue_inv cap (next + 1) gone d (push_ordinary q x c now).1.
Proof using Hinv Hopen.
  intros Hre Hpr Hnone Hpc. unfold push_ordinary. pose proof pushed_self as Hself. pose proof inv_appended as Happ. pose proof Hinv as [HL HC HB HP HA HR HQ HF].
  destruct (class_keyframe c) eqn:Ek; cbn [fst].
  - destruct (linked_self gone d (queued_item x) (linked_prefix _ _ _ HL)) as [HL' HT'];
      [apply Hself; by right|].
    constructor; unfold items; cbn; auto; try done; try congruence.
    + change (len _) with 1. rewrite Hnone. cbn. lia.
    + intros _ _. left. transitivity next; [exact HT'|lia].
  - destruct (awaiting_keyframe q) eqn:Ea.
    + match goal with |- context [drop_and_request ?q' ?n ?b now] =>
        destruct (drop_and_request_fields q' n b now) as (p1 & p2 & p3 & ->) end.
      constructor; unfold items; cbn; auto; try done; congruence.
    + destruct (Z.ltb_spec (len (deque q)) (capacity q)).
      * apply Happ; [done|]. rewrite Hnone. cbn. lia.
      * match goal with |- context [drop_and_request ?q' ?n ?b now] =>
          destruct (drop_and_request_fields q' n b now) as (p1 & p2 & p3 & ->) end.
        constructor; unfold items; cbn; auto; try done; try congruence.
        -- by apply (linked_prefix gone d (items q)).
        -- change (len _) with 0. rewrite Hnone. cbn. lia.
Qed.

Lemma push_inv : queue_inv cap (next + 1) gone d (push q (queued_item x) c now).1.
Proof using Hinv Hopen.
  unfold push. rewrite Hopen. cbv zeta. fold x. pose proof Hinv as [HL HC HB HP HA HR HQ HF].
  destruct (generation_chain q && require_generation_recovery q) eqn:E1.
  { apply andb_true_iff in E1 as [E1 E2]. by apply push_recovering_inv. }
  assert (Hre : require_generation_recovery q = false).
  { destruct (require_generation_recovery q) eqn:Er; [|done]. destruct (HR Hopen eq_refl) as [_ Hc].
    by rewrite Hc in E1. }
  destruct (paused q && generation_chain q) eqn:E2.
  { apply andb_true_iff in E2 as [E2 E3]. by apply push_behind_barrier_inv. }
  destruct (generation_recovery q) as [p|] eqn:Ep.
  { destruct (HP p eq_refl) as (_ & H1 & H2 & _). by rewrite H1, H2 in E2. }
  cbn [is_some]. rewrite andb_false_r. destruct (protected_front q) eqn:E4.
  - destruct (HF Hopen eq_refl) as (? & _). by apply push_protected_inv.
  - by apply push_ordinary_inv.
Qed.
End PushBranches.

Lemma pop_cases {T} (q q' : SharedVideoQueue T) bytes clock r :
  pop_front_with_bytes q bytes clock = (q', r) ->
  (q' = q /\ r = None) \/
  exists x rest, paused q = false /\ deque q = x :: rest /\ r = Some (queued_item x) /\
    deque q' = rest /\ generation_recovery q' = generation_recovery q /\ capacity q' = capacity q /\
    generation_chain q' = generation_chain q /\
    require_generation_recovery q' = require_generation_recovery q /\ protected_front q' = false /\
    awaiting_keyframe q' = awaiting_keyframe q /\ paused q' = paused q /\ closed q' = closed q.
Proof.
  unfold pop_front_with_bytes. destruct q as [cap iv dq pin chain req prot aw kp drops lk pau cl]. cbn.
  destruct pau; [by intros [= <- <-]; left|]. destruct dq as [|x rest]; [by intros [= <- <-]; left|].
  cbv zeta. intros E. right. exists x, rest. revert E.
  destruct prot, (queued_keyframe x); intros [= <- <-]; cbn; by split_and!.
Qed.

Lemma activate_fields {T} (q : SharedVideoQueue T) p :
  generation_recovery q = Some p -> generation_chain q = true ->
  let q' := (activate_generation q).1 in
  deque q' = p :: deque q /\ generation_recovery q' = None /\ capacity q' = capacity q /\
  generation_chain q' = require_generation_recovery q /\
  require_generation_recovery q' = require_generation_recovery q /\ protected_front q' = true /\
  awaiting_keyframe q' = awaiting_keyframe q /\ paused q' = false /\ closed q' = closed q.
Proof.
  unfold activate_generation. destruct q as [cap iv dq pin chain req]. cbn. intros -> ->.
  destruct req; cbn; by split_and!.
Qed.

Lemma step_inv cap next gone d q op :
  queue_inv cap next gone d q ->
  let st := queue_step (mkRun q next d gone) op in queue_inv cap (rs_next st) (rs_gone st) (rs_delivered st) (rs_queue st).
Proof.
  intros Hinv. pose proof Hinv as [HL HC HB HP HA HR HQ HF].
  destruct op as [c now|now|bytes clock| | | | | |success now|at_| |]; cbn [queue_step rs_queue rs_next rs_delivered rs_gone].
  - destruct (closed q) eqn:Ec; [|by apply push_inv].
    unfold push. rewrite Ec. constructor; cbn; auto; try congruence.
    intros p Hp. destruct (HP p Hp) as (? & ? & ? & ? & ? & Hne). split_and!; auto. intros Hr. specialize (Hne Hr).
    destruct (deque q); [by rewrite Ec|done].
  - unfold pin_generation_recovery. destruct (closed q || negb (paused q) || _) eqn:Eb; [done|].
    boolify. cbn. constructor; unfold items; cbn; auto; try done.
    + by apply (linked_prefix gone d (items q)).
    + change (len _) with 0. lia.
    + intros p [= <-]. by split_and!.
    + intros _ _ _. by eexists.
    + intros _ Hp. destruct (HF ltac:(done) Hp) as (? & _). congruence.
  - destruct (pop_front_with_bytes q bytes clock) as [q1 r] eqn:E. cbn [rs_next rs_delivered rs_queue rs_gone].
    apply pop_cases in E as [[-> ->]|(y & rest & Ep & Edq & -> & Eq)]; [by rewrite app_nil_r|].
    assert (Hnone : generation_recovery q = None).
    { destruct (generation_recovery q) as [p|] eqn:Eg; [|done]. destruct (HP p eq_refl) as (_ & ? & _). congruence. }
    destruct Eq as (E1 & E2 & E3 & E4 & E5 & E6 & E7 & E8 & E9).
    unfold items in *. rewrite Edq in *. cbn [map] in *. rewrite len_cons in HB.
    assert (El : (d ++ [queued_item y]) ++ map queued_item (deque q1) = d ++ queued_item y :: map queued_item rest)
      by (by rewrite E1, <- app_assoc).
    constructor; unfold items; rewrite ?El, ?E1, ?E2, ?E3, ?E4, ?E5, ?E6, ?E7, ?E8, ?E9; auto; try done.
    + rewrite Hnone in *. cbn in *. lia.
    + intros p Hp. congruence.
  - unfold begin_generation. constructor; unfold items; cbn; auto; try done.
    + by apply (linked_prefix gone d (items q)).
    + change (len _) with 0. lia.
  - destruct (generation_recovery q) as [p|] eqn:Eg; [|by unfold activate_generation; rewrite Eg].
    destruct (HP p eq_refl) as (Hs & Hpa & Hch & Haw & Hnil & Hne).
    destruct (activate_fields q p Eg Hch) as (E1 & E2 & E3 & E4 & E5 & E6 & E7 & E8 & E9).
    unfold items in *.
    assert (HL' : linked gone (-1) (d ++ queued_item p :: map queued_item (deque q)) /\
      (deque q <> [] -> tail_seq (-1) (d ++ queued_item p :: map queued_item (deque q))
                       = tail_seq (-1) (d ++ map queued_item (deque q)))).
    { rewrite cons_middle, app_assoc. apply linked_app in HL as [Hd Hl]. rewrite linked_app. split.
      - destruct (linked_self gone d (queued_item p)) as [Hd' _]; [by rewrite app_nil_r|done|]. split; [done|].
        rewrite tail_seq_app. destruct (require_generation_recovery q) eqn:Er.
        + by rewrite (Hnil eq_refl).
        + specialize (Hne eq_refl). destruct (deque q) as [|y r]; [done|]. destruct Hl as [_ Hl].
          split; [naive_solver|exact Hl].
      - intros Hdq. rewrite !tail_seq_app. by destruct (deque q). }
    destruct HL' as [HL' HT'].
    constructor; unfold items; rewrite ?E1, ?E2, ?E3, ?E4, ?E5, ?E6, ?E7, ?E8, ?E9; auto; try done.
    + rewrite len_cons. cbn in *. lia.
    + intros Hc Ha. destruct (HA Hc Ha) as [E|?]; [|by right]. rewrite Haw in Ha. specialize (Hne Ha).
      destruct (deque q); [right; by apply Hne|]. left. rewrite <- E. by apply HT'.
    + intros Hc Hr. split; congruence.
    + intros _ _. split_and!; try done. rewrite Haw. destruct (require_generation_recovery q); auto.
  - constructor; cbn; auto; try done.
    intros p Hp. destruct (HP p Hp) as (? & ? & ? & ? & ? & Hne). split_and!; auto. intros Hr. specialize (Hne Hr).
    by destruct (deque q).
  - constructor; cbn; try done; [|change (len _) with 0; lia]. by apply (linked_prefix gone d (items q)).
  - unfold clear. constructor; unfold items; cbn; auto.
    + eapply linked_prefix, linked_mono; [|exact HL]. set_solver.
    + pose proof (len_nonneg (deque q)). change (len _) with 0. lia.
    + intros p Hp. destruct (HP p Hp) as (? & ? & ? & Haw & ? & Hne). split_and!; auto. intros Hr. specialize (Hne Hr).
      intros Hc. rewrite Hr in Haw. apply elem_of_app. destruct (HA Hc Haw) as [E|?]; [|by left]. unfold items in E.
      destruct (deque q) as [|y r]; [left; by apply Hne|]. right. rewrite <- E, tail_seq_app. by apply tail_seq_in.
    + intros Hc Ha. rewrite elem_of_app. destruct (HA Hc Ha) as [E|?]; [|auto]. unfold items in E.
      destruct (deque q) as [|y r]; [by left|]. right. right. rewrite <- E, tail_seq_app. by apply tail_seq_in.
  - destruct success; [|done]. by constructor.
  - unfold clear_keyframe_request_if_at. case_bool_decide; [|done]. by constructor.
  - by constructor.
  - by constructor.
Qed.

Lemma run_inv cap ops : forall st,
  queue_inv cap (rs_next st) (rs_gone st) (rs_delivered st) (rs_queue st) ->
  let st' := foldl queue_step st ops in queue_inv cap (rs_next st') (rs_gone st') (rs_delivered st') (rs_queue st').
Proof.
  induction ops as [|op ops IH]; intros [q next d gone] H; [done|]. cbn [foldl]. apply IH.
  by apply (step_inv cap next gone d q op).
Qed.

(** Only [clear] discards units without recovery. *)
Lemma gone_only_cleared ops : forall st, QClear ∉ ops -> rs_gone st = [] -> rs_gone (foldl queue_step st ops) = [].
Proof.
  induction ops as [|op ops IH]; intros st Hops Hst; [done|]. apply not_elem_of_cons in Hops as [Hop Hops]. cbn [foldl].
  apply IH; [done|]. destruct op; cbn [queue_step rs_gone]; try done. by destruct (pop_front_with_bytes _ _ _).
Qed.

(** ** Coalescer lemmas *)

Inductive CoalescerOp := CRequest (now : Z) | CPoll (now : Z).

Definition coalescer_step (c : FullFrameRequestCoalescer) (op : CoalescerOp)
  : FullFrameRequestCoalescer * list Z :=
  match op with
  | CRequest now => let '(c, d) := ff_request c now in (c, if deliver_now d then [now] else [])
  | CPoll now => let '(c, d) := ff_poll c now in (c, if deliver_now d then [now] else [])
  end.

(** The instants at which keyframe requests were delivered, oldest first. *)
Fixpoint coalescer_run (c : FullFrameRequestCoalescer) (ops : list CoalescerOp) : list Z :=
  match ops with
  | [] => []
  | op :: ops => let '(c, l) := coalescer_step c op in l ++ coalescer_run c ops
  end.

Lemma deliver_due_at_None c now :
  deliver_due_at c now = None <-> forall last, last_delivered_at c = Some last -> last + co_min_interval c <= now.
Proof.
  unfold deliver_due_at. destruct (last_delivered_at c) as [last|]; cbn; [|done].
  destruct (Z.ltb_spec now (last + co_min_interval c)) as [Hlt|Hge]; split; try done.
  - intros H. specialize (H last eq_refl). lia.
  - by intros _ last' [= <-].
Qed.

Lemma coalescer_step_cases c op :
  let '(c', l) := coalescer_step c op in
  co_min_interval c' = co_min_interval c /\
  ((l = [] /\ last_delivered_at c' = last_delivered_at c) \/
   exists now, l = [now] /\ last_delivered_at c' = Some now /\
     forall last, last_delivered_at c = Some last -> last + co_min_interval c <= now).
Proof.
  destruct op as [now|now]; cbn; unfold ff_request, ff_poll.
  - destruct (deliver_due_at c now) eqn:E; cbn; [by auto|]. split; [done|]. right. exists now.
    split_and!; try done. by apply deliver_due_at_None.
  - destruct (co_pending c), (deliver_due_at c now) eqn:E; cbn; auto. split; [done|]. right. exists now.
    split_and!; try done. by apply deliver_due_at_None.
Qed.

Lemma coalescer_spaced ops : forall c, 0 <= co_min_interval c ->
  StronglySorted (fun a b => a + co_min_interval c <= b) (coalescer_run c ops) /\
  Forall (fun b => forall last, last_delivered_at c = Some last -> last + co_min_interval c <= b)
    (coalescer_run c ops).
Proof.
  induction ops as [|op ops IH]; intros c Hc; cbn [coalescer_run]; [repeat constructor|].
  pose proof (coalescer_step_cases c op) as Hs. destruct (coalescer_step c op) as [c' l].
  destruct Hs as [Em Hs]. rewrite <- Em in Hc. destruct (IH c' Hc) as [H1 H2]. rewrite Em in *.
  destruct Hs as [[-> El]|(now & -> & El & Hge)]; cbn [app]; rewrite El in *; [by split|].
  assert (Hnow : Forall (fun b => now + co_min_interval c <= b) (coalescer_run c' ops)).
  { eapply Forall_impl; [exact H2|]. intros b Hb. by apply Hb. }
  split; [by constructor|]. constructor; [done|]. eapply Forall_impl; [exact Hnow|].
  intros b Hb last Hl. specialize (Hge last Hl). cbn in *. lia.
Qed.

(** ** Properties *)

(** C1: The queue breaks the prediction chain nowhere but where it is told to.
    Whatever is pushed, pinned, popped, activated, cleared or closed in
    whatever order, every delivered access unit is a keyframe or recovery point,
    or directly follows in encoder order the unit delivered just before it (the
    first unit pushed counts as following the start), or the unit it follows
    was discarded by [clear], which empties the queue and asks for no recovery.
    Without a [clear] there is no third case: no overflow, barrier, recovery or
    throttled request ever lets a unit through whose reference is missing. *)
Theorem prediction_chain_safe cap interval q ops :
  SharedVideoQueue_new cap interval = Some q ->
  linked (rs_gone (queue_run q ops)) (-1) (rs_delivered (queue_run q ops))
  /\ (QClear ∉ ops -> rs_gone (queue_run q ops) = []).
Proof.
  intros E. pose proof (run_inv cap ops (mkRun q 0 [] []) (queue_inv_new _ _ _ E)) as H.
  apply qi_linked in H. apply linked_app in H as [H _]. split; [done|]. intros Hno. by apply gone_only_cleared.
Qed.

Definition key := mkClass true true.
Definition delta := mkClass false false.

(** A stream that overflows and recovers, and one that is cleared after its
    keyframe was queued: the next dependent unit is delivered unlinked. *)
Definition overflowing : list QueueOp :=
  [QPush key 0; QPush delta 1; QPush delta 2; QPop (fun _ => 9) 3; QPush delta 4; QPush key 5; QPop (fun _ => 9) 6].
Definition cleared : list QueueOp := [QPush key 0; QClear; QPush delta 1; QPop (fun _ => 9) 2].

Lemma prediction_chain_safe_witness :
  exists q, SharedVideoQueue_new 2 1000 = Some q
    /\ rs_delivered (queue_run q overflowing) = [mkAu 4 true] /\ linked [] (-1) (rs_delivered (queue_run q overflowing))
    /\ rs_delivered (queue_run q cleared) = [mkAu 1 false] /\ linked [0] (-1) (rs_delivered (queue_run q cleared))
    /\ ~ linked [] (-1) (rs_delivered (queue_run q cleared)).
Proof.
  eexists. split; [reflexivity|]. split; [vm_compute; reflexivity|]. split; [|split; [vm_compute; reflexivity|split]].
  - rewrite <- (proj2 (prediction_chain_safe 2 1000 _ overflowing eq_refl) ltac:(set_solver)) at 1.
    exact (proj1 (prediction_chain_safe 2 1000 _ overflowing eq_refl)).
  - exact (proj1 (prediction_chain_safe 2 1000 _ cleared eq_refl)).
  - vm_compute. intros [[H|[H|H]] _]; try discriminate. inversion H.
Defined.

(** The queue is bounded: the visible units and the pinned one never exceed
    the capacity, or two when the capacity is one (a pinned unit and its
    recovery point are kept together). *)
Theorem queue_bounded cap interval q ops :
  SharedVideoQueue_new cap interval = Some q ->
  let q' := rs_queue (queue_run q ops) in
  len (deque q') + Z.b2z (is_some (generation_recovery q')) <= Z.max cap 2.
Proof.
  intros E q'. pose proof (run_inv cap ops (mkRun q 0 [] []) (queue_inv_new _ _ _ E)) as H.
  pose proof (qi_capacity _ _ _ _ _ H) as [<- _]. exact (qi_bound _ _ _ _ _ H).
Qed.

Definition sample_queue (cap : Z) : SharedVideoQueue AccessUnit :=
  mkQueue cap 1000 [] None false false false false false 0 None false false 0 0 0 0 0 0 0.

Lemma queue_bounded_witness :
  let q' := rs_queue (queue_run (sample_queue 1) [QBegin; QPin 0; QPush key 1; QActivate]) in
  len (deque q') = 2 /\ len (deque q') + Z.b2z (is_some (generation_recovery q')) <= Z.max 1 2.
Proof.
  split; [vm_compute; reflexivity|].
  exact (queue_bounded 1 1000 (sample_queue 1) [QBegin; QPin 0; QPush key 1; QActivate] eq_refl).
Defined.

(** A pending keyframe request is never forgotten: either it is due now, or
    a retry deadline in the future is announced and from that deadline on it is
    due; when nothing is pending, nothing is due and no retry is announced. *)
Theorem keyframe_retry_no_lost_wakeup {T} (q : SharedVideoQueue T) now :
  let r := keyframe_request_retry q now in
  if retry_pending r
  then retry_due r = true \/
       exists t, retry_at r = Some t /\ now < t /\
         forall later, t <= later -> retry_due (keyframe_request_retry q later) = true
  else retry_due r = false /\ retry_at r = None.
Proof.
  cbn. unfold keyframe_request_due_at, keyframe_request_retry_at.
  destruct (keyframe_request_pending q); cbn [andb negb]; [|done].
  destruct (last_keyframe_request_at q) as [last|]; cbn; [|by left].
  destruct (Z.leb_spec (keyframe_request_min_interval q) (Z.max (now - last) 0)); [by left|right].
  rewrite (proj2 (Z.ltb_lt now _)) by lia. eexists. split; [reflexivity|]. split; [lia|].
  intros later Hl. apply Z.leb_le. lia.
Qed.

(** Full-frame requests are coalesced without being lost: delivered keyframe
    requests are at least the minimum interval apart, and a request that is not
    delivered at once announces a deadline, stays pending through every earlier
    poll, and is delivered by the first poll at or after the deadline. *)
Theorem full_frame_coalescer_exact c ops now :
  0 <= co_min_interval c ->
  StronglySorted (fun a b => a + co_min_interval c <= b) (coalescer_run c ops) /\
  let '(c1, d) := ff_request c now in
  deliver_now d = true \/
  exists due, deliver_at d = Some due /\ now < due /\
    forall early later, Forall (fun t => t < due) early -> due <= later ->
      let c2 := foldl (fun c t => (ff_poll c t).1) c1 early in
      co_pending c2 = true /\ deliver_now (ff_poll c2 later).2 = true.
Proof.
  intros Hc. split; [by apply coalescer_spaced|]. unfold ff_request.
  destruct (deliver_due_at c now) as [due|] eqn:E; cbn [is_some negb]; [|by left].
  right. exists due. split; [exact E|].
  unfold deliver_due_at in E. destruct (last_delivered_at c) as [last|] eqn:El; [|done]. cbn in E.
  destruct (Z.ltb_spec now (last + co_min_interval c)) as [Hlt|]; [|done]. injection E as <-.
  split; [done|]. intros early later He Hl.
  assert (Hfix : foldl (fun c t => (ff_poll c t).1) (mkCoalescer (co_min_interval c) (Some last) true) early
                 = mkCoalescer (co_min_interval c) (Some last) true).
  { induction He as [|t early Ht _ IH]; [done|]. cbn [foldl]. unfold ff_poll at 2. cbn.
    by rewrite (proj2 (Z.ltb_lt t _)). }
  cbv zeta. rewrite Hfix. split; [done|]. unfold ff_poll. cbn. by rewrite (proj2 (Z.ltb_ge later _)).
Qed.

Lemma full_frame_coalescer_exact_witness :
  coalescer_run (Coalescer_new 100) [CRequest 0; CRequest 30; CPoll 60; CPoll 100; CPoll 300] = [0; 100] /\
  StronglySorted (fun a b => a + 100 <= b)
    (coalescer_run (Coalescer_new 100) [CRequest 0; CRequest 30; CPoll 60; CPoll 100; CPoll 300]).
Proof.
  split; [reflexivity|].
  apply (full_frame_coalescer_exact (Coalescer_new 100)
           [CRequest 0; CRequest 30; CPoll 60; CPoll 100; CPoll 300] 0). vm_compute. congruence.
Defined.

(** The units a stuck queue keeps: streaming, no barrier, nothing to recover,
    and yet the generation-chain flag is set. *)
Definition chain_flag_stuck (q : SharedVideoQueue AccessUnit) : Prop :=
  generation_chain q = true /\ require_generation_recovery q = false /\ paused q = false /\
  protected_front q = false /\ closed q = false.

Definition streaming_op (op : QueueOp) : bool :=
  match op with QPush _ _ | QPop _ _ | QClear | QHandoff _ _ | QRollback _ | QAbandon | QTakeStats => true | _ => false end.

Lemma push_ordinary_flags {T} (q : SharedVideoQueue T) x c now :
  let q' := (push_ordinary q x c now).1 in
  generation_chain q' = generation_chain q /\
  require_generation_recovery q' = require_generation_recovery q /\ paused q' = paused q /\
  protected_front q' = protected_front q /\ closed q' = closed q.
Proof.
  unfold push_ordinary. destruct (class_keyframe c); [done|].
  destruct (awaiting_keyframe q); [|destruct (len (deque q) <? capacity q); [done|]];
    match goal with |- context [drop_and_request ?q' ?n ?b now] =>
      destruct (drop_and_request_fields q' n b now) as (p1 & p2 & p3 & ->) end; done.
Qed.

Lemma chain_flag_stuck_step st op :
  streaming_op op = true -> chain_flag_stuck (rs_queue st) -> chain_flag_stuck (rs_queue (queue_step st op)).
Proof.
  destruct st as [q next d gone]. unfold chain_flag_stuck. cbn [rs_queue]. intros Ho (H1 & H2 & H3 & H4 & H5).
  destruct op as [c now|now|bytes clock| | | | | |success now|at_| |]; try done; cbn [queue_step rs_queue].
  - unfold push. rewrite H5, H1, H2, H3, H4. cbn [andb]. cbv zeta.
    match goal with |- context [push_ordinary q ?x c now] =>
      destruct (push_ordinary_flags q x c now) as (E1 & E2 & E3 & E4 & E5) end.
    rewrite E1, E2, E3, E4, E5. by split_and!.
  - destruct (pop_front_with_bytes q bytes clock) as [q1 r] eqn:E.
    apply pop_cases in E as [[-> _]|(x & rest & _ & _ & _ & _ & _ & _ & E4 & E5 & E6 & _ & E8 & E9)];
      cbn [rs_queue]; [done|]. rewrite E4, E5, E6, E8, E9. by split_and!.
  - by destruct success.
  - unfold clear_keyframe_request_if_at. by case_match.
Qed.

(** A recovery point that overflows the queue while the pinned unit is still
    at its front leaves the generation-chain flag set although nothing is left
    to recover. From then on, until the next generation barrier or close, the
    queue reports no ordinary room whatever its fill, even when it is empty and
    the next dependent unit would be enqueued by the ordinary path. *)
Theorem room_state_stuck_after_overflow :
  let st := queue_run (sample_queue 2)
              [QBegin; QPin 0; QPush key 1; QActivate; QPush key 2;
               QPop (fun _ => 9) 3; QPop (fun _ => 9) 4] in
  deque (rs_queue st) = [] /\ awaiting_keyframe (rs_queue st) = false /\
  (push (rs_queue st) (mkAu 9 false) delta 5).2 = Enqueued 0 /\
  forall ops, forallb streaming_op ops = true ->
    room_state (rs_queue (foldl queue_step st ops)) = NotOrdinary.
Proof.
  cbv zeta. split_and!; [vm_compute; reflexivity..|]. intros ops Hops.
  set (st := queue_run _ _).
  assert (H : chain_flag_stuck (rs_queue st)) by (vm_compute; by split_and!).
  clearbody st. revert st H. induction ops as [|op ops IH]; intros st H; cbn [foldl].
  - destruct H as (H1 & _). unfold room_state. rewrite H1. by rewrite !andb_false_r.
  - cbn [forallb] in Hops. apply andb_true_iff in Hops as [Ho Hops]. apply IH; [done|].
    by apply chain_flag_stuck_step.
Qed.
