(* ===== verification/SessionThrottle.v ===== *)
(** * Session: backing off failed sign-ins

    Models [shared/session/src/auth_throttle.rs].  Times and delays are
    durations in nanoseconds.  The hash map is a [gmap]; its iteration order,
    which decides which of several equally old keys is evicted, is a parameter
    of which only that it lists the entries is assumed. *)

From S2P Require Import Prelude.
From stdpp Require Import strings.
Open Scope Z_scope.
Open Scope list_scope.

Record AuthThrottlePolicy := mkPolicy {
  free_failures : Z;
  base_delay : Z;
  max_delay : Z;
  forget_after : Z;
  max_keys : Z
}.

Definition AuthThrottlePolicy_default : AuthThrottlePolicy :=
  mkPolicy 3 (duration_from_secs 2) (duration_from_secs 300) (duration_from_secs (15 * 60)) 4096.

Inductive ThrottleKey := Source (address : string) | Account (name : string).

#[global] Instance ThrottleKey_eq_dec : EqDecision ThrottleKey.
Proof. solve_decision. Defined.
#[global] Instance ThrottleKey_countable : Countable ThrottleKey.
Proof.
  refine (inj_countable' (fun k => match k with Source s => inl s | Account s => inr s end)
            (fun s => match s with inl s => Source s | inr s => Account s end) _).
  by intros [].
Defined.

Record Entry := mkEntry { failures : Z; last_failure : Z; blocked_until : Z }.

Record AuthThrottle := mkThrottle { policy : AuthThrottlePolicy; entries : gmap ThrottleKey Entry }.

Definition AuthThrottle_new (p : AuthThrottlePolicy) : AuthThrottle := mkThrottle p ∅.

(** [Iterator::max] *)
Definition max_option (l : list Z) : option Z :=
  match l with [] => None | x :: l => Some (foldl Z.max x l) end.

Definition retry_after (t : AuthThrottle) (keys : list ThrottleKey) (now : Z) : option Z :=
  max_option (omap (fun key => entry ← entries t !! key;
                               if now <? blocked_until entry
                               then Some (saturating_sub (blocked_until entry) now) else None) keys).

Definition is_fresh (p : AuthThrottlePolicy) (now : Z) (e : Entry) : Prop :=
  saturating_sub now (last_failure e) < forget_after p \/ now < blocked_until e.

#[global] Instance is_fresh_dec p now e : Decision (is_fresh p now e).
Proof. unfold is_fresh. apply _. Defined.

Definition forget_stale (p : AuthThrottlePolicy) (now : Z) (m : gmap ThrottleKey Entry) : gmap ThrottleKey Entry :=
  filter (fun kv => is_fresh p now kv.2) m.

(** The update of one entry by a failure. *)
Definition failed_entry (p : AuthThrottlePolicy) (now : Z) (e : Entry) : Entry :=
  let failures := saturating_add 32 (failures e) 1 in
  let over := saturating_sub failures (free_failures p) in
  if 0 <? over then
    let exponent := Z.min (over - 1) 16 in
    let delay := Z.min (duration_saturating_mul (base_delay p) (Z.shiftl 1 exponent)) (max_delay p) in
    mkEntry failures now (duration_saturating_add now delay)
  else mkEntry failures now (blocked_until e).

(** [Iterator::min_by_key]: the first of the minimal elements. *)
Fixpoint min_by_key {A} (key : A -> Z) (l : list A) : option A :=
  match l with
  | [] => None
  | x :: l =>
    match min_by_key key l with
    | None => Some x
    | Some y => if key x <=? key y then Some x else Some y
    end
  end.

Lemma min_by_key_In {A} (key : A -> Z) l x : min_by_key key l = Some x -> x ∈ l.
Proof.
  revert x. induction l as [|y l IH]; intros x; cbn; [done|].
  destruct (min_by_key key l) as [z|] eqn:E; [case_match|]; intros [= <-]; set_solver.
Qed.

Lemma min_by_key_None {A} (key : A -> Z) l : min_by_key key l = None -> l = [].
Proof. destruct l as [|y l]; [done|]. cbn. by repeat case_match. Qed.

Lemma delete_keys_lookup keys : forall (m : gmap ThrottleKey Entry) k,
  foldl (fun m key => delete key m) m keys !! k = if decide (k ∈ keys) then None else m !! k.
Proof.
  induction keys as [|k' keys IH]; intros m k; [done|]. cbn [foldl]. rewrite IH.
  destruct (decide (k ∈ keys)); [by rewrite decide_True by set_solver|].
  destruct (decide (k = k')) as [->|]; [by rewrite lookup_delete_eq, decide_True by set_solver|].
  by rewrite lookup_delete_ne, decide_False by set_solver.
Qed.
Section Throttle.
Context (order : gmap ThrottleKey Entry -> list (ThrottleKey * Entry)).

Definition evict_oldest (m : gmap ThrottleKey Entry) : gmap ThrottleKey Entry :=
  match min_by_key (fun kv => last_failure kv.2) (order m) with
  | Some (oldest, _) => delete oldest m
  | None => m
  end.

Definition record_failure_key (p : AuthThrottlePolicy) (now : Z) (m : gmap ThrottleKey Entry)
  (key : ThrottleKey) : gmap ThrottleKey Entry :=
  let m := if bool_decide (m !! key = None) && (max_keys p <=? Z.of_nat (size m))
           then evict_oldest m else m in
  let entry := default (mkEntry 0 now 0) (m !! key) in
  <[key := failed_entry p now entry]> m.

Definition record_failure (t : AuthThrottle) (keys : list ThrottleKey) (now : Z) : AuthThrottle :=
  mkThrottle (policy t)
    (foldl (record_failure_key (policy t) now) (forget_stale (policy t) now (entries t)) keys).

Definition record_success (t : AuthThrottle) (keys : list ThrottleKey) : AuthThrottle :=
  mkThrottle (policy t) (foldl (fun m key => delete key m) (entries t) keys).

(** ** Runs *)

Inductive ThrottleOp := TFailure (keys : list ThrottleKey) (now : Z) | TSuccess (keys : list ThrottleKey).

Definition throttle_step (t : AuthThrottle) (op : ThrottleOp) : AuthThrottle :=
  match op with
  | TFailure keys now => record_failure t keys now
  | TSuccess keys => record_success t keys
  end.

Definition throttle_run (t : AuthThrottle) (ops : list ThrottleOp) : AuthThrottle := foldl throttle_step t ops.

(** ** Lemmas *)

(** ** Exact delays while the table has room *)

Section Room.
Context (p : AuthThrottlePolicy) (U : gset ThrottleKey) (HU : Z.of_nat (size U) <= max_keys p).

Lemma record_failure_key_room now m key :
  dom m ⊆ U -> key ∈ U ->
  record_failure_key p now m key = <[key := failed_entry p now (default (mkEntry 0 now 0) (m !! key))]> m.
Proof.
  intros Hm Hk. unfold record_failure_key. case_bool_decide as Hn; cbn [andb]; [|done].
  assert (Hsz : (size m < size U)%nat).
  { rewrite <- size_dom. assert (Hsub : dom m ⊆ U ∖ {[key]}).
    { intros x Hx. apply elem_of_difference. split; [set_solver|].
      intros ->%elem_of_singleton. by apply elem_of_dom in Hx as [? Hx]; rewrite Hn in Hx. }
    apply subseteq_size in Hsub. rewrite size_difference in Hsub by set_solver.
    rewrite size_singleton in Hsub. assert (size U <> 0)%nat by (intros ?%size_empty_inv; set_solver). lia. }
  by rewrite (proj2 (Z.leb_gt _ _)) by lia.
Qed.

Lemma record_keys_room keys : forall m now k,
  NoDup keys -> dom m ⊆ U -> (forall x, x ∈ keys -> x ∈ U) ->
  let m' := foldl (record_failure_key p now) m keys in
  dom m' ⊆ U /\
  m' !! k = if decide (k ∈ keys) then Some (failed_entry p now (default (mkEntry 0 now 0) (m !! k))) else m !! k.
Proof.
  induction keys as [|key keys IH]; intros m now k Hnd Hm Hin; [done|]. cbn [foldl].
  apply NoDup_cons in Hnd as [Hni Hnd].
  rewrite record_failure_key_room by (auto; set_solver).
  destruct (IH (<[key := failed_entry p now (default (mkEntry 0 now 0) (m !! key))]> m) now k Hnd) as [Hd Hl];
    [set_solver|set_solver|]. split; [done|]. rewrite Hl.
  destruct (decide (k ∈ keys)) as [Hk|Hk].
  - rewrite decide_True by set_solver. rewrite lookup_insert_ne; [done|]. by intros ->.
  - destruct (decide (k = key)) as [->|Hne].
    + by rewrite lookup_insert_eq, decide_True by set_solver.
    + rewrite lookup_insert_ne by done. rewrite decide_False by set_solver. done.
Qed.
End Room.

(** The entry after failures at the given times, oldest first. *)
Definition entry_of (p : AuthThrottlePolicy) (times : list Z) : option Entry :=
  match times with
  | [] => None
  | t :: _ => Some (foldl (fun e t => failed_entry p t e) (mkEntry 0 t 0) times)
  end.

Definition failure_times (k : ThrottleKey) (attempts : list (list ThrottleKey * Z)) : list Z :=
  map snd (filter (fun a => k ∈ a.1) attempts).

Definition record_attempts (t : AuthThrottle) (attempts : list (list ThrottleKey * Z)) : AuthThrottle :=
  foldl (fun t a => record_failure t a.1 a.2) t attempts.

Lemma foldl_last_failure p ts : forall e,
  last_failure (foldl (fun e t => failed_entry p t e) e ts) = default (last_failure e) (last ts).
Proof.
  induction ts as [|t ts IH] using rev_ind; intros e; [done|].
  rewrite foldl_app, last_snoc. cbn. unfold failed_entry. by case_match.
Qed.

Lemma entry_of_snoc p ts t :
  entry_of p (ts ++ [t]) = Some (failed_entry p t (default (mkEntry 0 t 0) (entry_of p ts))).
Proof. destruct ts as [|t' ts]; [done|]. cbn [entry_of app default]. by rewrite app_comm_cons, foldl_app. Qed.

Lemma entry_of_last p ts e : entry_of p ts = Some e -> last ts = Some (last_failure e).
Proof.
  destruct ts as [|t ts]; [done|]. intros [= <-]. rewrite foldl_last_failure.
  assert (Et : forall e, last_failure (failed_entry p t e) = t) by (intros e; unfold failed_entry; by case_match).
  rewrite last_cons, Et. by destruct (last ts).
Qed.

Lemma record_attempts_exact p (U : gset ThrottleKey) t0 k attempts :
  Z.of_nat (size U) <= max_keys p ->
  Forall (fun a => NoDup a.1 /\ Forall (fun x => x ∈ U) a.1 /\ t0 <= a.2 < t0 + forget_after p) attempts ->
  let t := record_attempts (AuthThrottle_new p) attempts in
  policy t = p /\ dom (entries t) ⊆ U /\ entries t !! k = entry_of p (failure_times k attempts).
Proof.
  intros HU. induction attempts as [|[keys now] attempts IH] using rev_ind; intros Ha.
  { cbn. split_and!; [done|set_solver|done]. }
  apply Forall_app in Ha as [Ha Hnow]. rewrite Forall_singleton in Hnow. destruct Hnow as (Hnd & Hin & Htime). rewrite Forall_forall in Hin.
  destruct (IH Ha) as (Ep & Hd & Hl). clear IH. unfold record_attempts in *. rewrite foldl_app. cbn [foldl].
  set (t := foldl _ (AuthThrottle_new p) attempts) in *. unfold record_failure. cbn [policy entries].
  rewrite Ep. split; [done|]. cbn [fst snd] in *.
  assert (Hdf : dom (forget_stale p now (entries t)) ⊆ U).
  { intros x Hx. apply Hd. unfold forget_stale in Hx. by apply dom_filter_subseteq in Hx. }
  destruct (record_keys_room p U HU keys (forget_stale p now (entries t)) now k Hnd Hdf Hin) as [Hd' Hl'].
  split; [done|]. rewrite Hl'.
  assert (Hkeep : forget_stale p now (entries t) !! k = entries t !! k).
  { unfold forget_stale. destruct (entries t !! k) as [e|] eqn:Ee.
    - apply map_lookup_filter_Some. split; [done|]. cbn. left.
      symmetry in Hl. apply entry_of_last, last_Some_elem_of in Hl.
      unfold failure_times in Hl. apply list_elem_of_In, in_map_iff in Hl as ([ks t1] & Et & Hf).
      apply list_elem_of_In, list_elem_of_filter in Hf as [_ Hf].
      rewrite Forall_forall in Ha. destruct (Ha _ Hf) as (_ & _ & Ht1). cbn in *.
      unfold saturating_sub. lia.
    - apply map_lookup_filter_None. by left. }
  rewrite Hkeep. unfold failure_times. rewrite filter_app, map_app.
  fold (failure_times k attempts). rewrite filter_cons. cbn [fst].
  destruct (decide (k ∈ keys)).
  - cbn [filter list_filter map snd]. rewrite entry_of_snoc. by rewrite Hl.
  - cbn. by rewrite app_nil_r.
Qed.

(** The wait after [n] failures. *)
Definition delay_after (p : AuthThrottlePolicy) (n : Z) : Z :=
  if n <=? free_failures p then 0
  else Z.min (base_delay p * 2 ^ Z.min (n - free_failures p - 1) 16) (max_delay p).

Definition policy_ok (p : AuthThrottlePolicy) : Prop :=
  0 <= free_failures p < 2 ^ 32 - 1 /\ 0 <= base_delay p /\ 0 <= max_delay p <= DURATION_MAX.

Lemma entry_of_exact p ts :
  policy_ok p -> Forall (fun t => 0 <= t /\ t + max_delay p <= DURATION_MAX) ts -> len ts < 2 ^ 32 ->
  match entry_of p ts with
  | None => ts = []
  | Some e => exists t, last ts = Some t /\ failures e = len ts /\
      (if len ts <=? free_failures p then blocked_until e = 0
       else blocked_until e = t + delay_after p (len ts))
  end.
Proof.
  intros (Hf & Hb & Hm). induction ts as [|t ts IH] using rev_ind; intros Ht Hlen; [done|].
  apply Forall_app in Ht as [Ht Ht']. rewrite Forall_singleton in Ht'.
  rewrite len_app, len_cons in *. change (len (@nil Z)) with 0 in *. pose proof (len_nonneg ts).
  specialize (IH Ht ltac:(lia)). rewrite entry_of_snoc, last_snoc. exists t. split; [done|].
  assert (He : failures (default (mkEntry 0 t 0) (entry_of p ts)) = len ts /\
    (len ts <= free_failures p -> blocked_until (default (mkEntry 0 t 0) (entry_of p ts)) = 0)).
  { destruct (entry_of p ts) as [e|]; [|by subst ts].
    destruct IH as (t' & _ & E & Hbl). cbn. split; [done|]. intros Hle.
    by rewrite (proj2 (Z.leb_le _ _) Hle) in Hbl. }
  destruct He as [Ef Hbl]. unfold failed_entry. rewrite Ef. unfold saturating_add, saturating_sub.
  change (umax 32) with (2 ^ 32 - 1). rewrite Z.min_l by lia.
  destruct (Z.ltb_spec 0 (Z.max (len ts + 1 - free_failures p) 0)) as [Hlt|Hge]; cbn [failures blocked_until].
  - split; [lia|]. unfold delay_after. rewrite (proj2 (Z.leb_gt _ _)) by lia.
    rewrite Z.max_l by lia. rewrite Z.shiftl_1_l. unfold duration_saturating_add, duration_saturating_mul.
    replace (len ts + (1 + 0) - free_failures p - 1) with (len ts + 1 - free_failures p - 1) by lia. lia.
  - split; [lia|]. rewrite (proj2 (Z.leb_le _ _)) by lia. apply Hbl. lia.
Qed.

(** ** Properties *)

(** The wait imposed on a key depends on its own failures alone and is exact
    while the table has room and nothing is old enough to forget: with up to
    [free_failures] failures there is no wait; after more, the key must wait
    until its last failure plus the base delay doubled for every further failure
    (at most sixteen times), never more than the maximum delay.  Failures
    recorded together with other sources or accounts count the same. *)
Theorem throttle_wait_exact p (U : gset ThrottleKey) t0 k attempts now :
  policy_ok p -> Z.of_nat (size U) <= max_keys p ->
  Forall (fun a => NoDup a.1 /\ Forall (fun x => x ∈ U) a.1 /\ t0 <= a.2 < t0 + forget_after p) attempts ->
  Forall (fun t => 0 <= t /\ t + max_delay p <= DURATION_MAX) (failure_times k attempts) ->
  len (failure_times k attempts) < 2 ^ 32 -> 0 <= now ->
  let n := len (failure_times k attempts) in
  retry_after (record_attempts (AuthThrottle_new p) attempts) [k] now =
    match last (failure_times k attempts) with
    | None => None
    | Some t => if (n <=? free_failures p) || (t + delay_after p n <=? now) then None
                else Some (t + delay_after p n - now)
    end.
Proof.
  intros Hp HU Ha Ht Hlen Hnow n. destruct (record_attempts_exact p U t0 k attempts HU Ha) as (_ & _ & Hl).
  pose proof (entry_of_exact p _ Hp Ht Hlen) as He. unfold retry_after. cbn [omap list_omap]. rewrite Hl.
  destruct (entry_of p (failure_times k attempts)) as [e|]; cbn [mbind option_bind].
  2:{ by rewrite He. }
  destruct He as (t & Hlast & _ & Hb). rewrite Hlast. fold n in Hb |- *.
  destruct (n <=? free_failures p); cbn [orb].
  - rewrite Hb, (proj2 (Z.ltb_ge _ _)) by lia. done.
  - rewrite Hb. unfold saturating_sub.
    destruct (Z.ltb_spec now (t + delay_after p n)), (Z.leb_spec (t + delay_after p n) now); try lia; [|done].
    cbn. f_equal. lia.
Qed.

(** The size of the table, for any iteration order. *)
Context (Horder : forall m, order m ≡ₚ map_to_list m).

Lemma evict_oldest_size m : m <> ∅ -> (size (evict_oldest m) + 1 = size m)%nat.
Proof.
  intros Hm. unfold evict_oldest.
  destruct (min_by_key _ (order m)) as [[k e]|] eqn:E.
  - apply min_by_key_In in E. rewrite Horder, elem_of_map_to_list in E.
    assert (Hk : is_Some (m !! k)) by eauto. pose proof (map_size_delete_Some k m Hk).
    assert (size m <> 0%nat) by (by intros ?%map_size_empty_inv). lia.
  - apply min_by_key_None in E. exfalso. apply Hm. apply map_to_list_empty_iff.
    apply Permutation_nil_r. by rewrite <- Horder, E.
Qed.

Lemma record_failure_key_size p now m key :
  Z.of_nat (size m) <= Z.max (max_keys p) 1 ->
  Z.of_nat (size (record_failure_key p now m key)) <= Z.max (max_keys p) 1.
Proof.
  intros Hs. unfold record_failure_key. case_bool_decide as Hk; cbn [andb].
  - destruct (Z.leb_spec (max_keys p) (Z.of_nat (size m))) as [Hle|Hlt].
    + assert (Hd : evict_oldest m !! key = None).
      { unfold evict_oldest. case_match; [|done]. destruct p0. by rewrite lookup_delete_None; right. }
      rewrite map_size_insert_None by done.
      destruct (decide (m = ∅)) as [->|Hne].
      * assert (size (evict_oldest ∅) = 0)%nat; [|lia]. unfold evict_oldest.
        destruct (min_by_key _ (order ∅)) as [[k e]|]; [by rewrite delete_empty|done].
      * pose proof (evict_oldest_size m Hne). lia.
    + rewrite map_size_insert_None by done. lia.
  - rewrite map_size_insert_Some; [done|]. by apply not_eq_None_Some.
Qed.

Lemma throttle_step_size t op :
  Z.of_nat (size (entries t)) <= Z.max (max_keys (policy t)) 1 ->
  policy (throttle_step t op) = policy t /\
  Z.of_nat (size (entries (throttle_step t op))) <= Z.max (max_keys (policy t)) 1.
Proof.
  intros Hs. destruct op as [keys now|keys]; cbn; (split; [done|]).
  - assert (Hf : Z.of_nat (size (forget_stale (policy t) now (entries t))) <= Z.max (max_keys (policy t)) 1).
    { pose proof (map_size_filter (fun kv => is_fresh (policy t) now kv.2) (entries t)).
      unfold forget_stale. lia. }
    revert Hf. generalize (forget_stale (policy t) now (entries t)).
    induction keys as [|k keys IH]; intros m Hm; [done|]. cbn [foldl]. apply IH.
    by apply record_failure_key_size.
  - revert Hs. generalize (entries t). induction keys as [|k keys IH]; intros m Hm; [done|].
    cbn [foldl]. apply IH. rewrite map_size_delete. destruct (m !! k); [|exact Hm].
    etrans; [|exact Hm]. apply inj_le, Nat.le_pred_l.
Qed.

Lemma throttle_run_size ops : forall t,
  Z.of_nat (size (entries t)) <= Z.max (max_keys (policy t)) 1 ->
  Z.of_nat (size (entries (throttle_run t ops))) <= Z.max (max_keys (policy t)) 1.
Proof.
  induction ops as [|op ops IH]; intros t Hs; [done|]. unfold throttle_run in *. cbn [foldl].
  destruct (throttle_step_size t op Hs) as [Ep Hs']. rewrite <- Ep in *. by apply IH.
Qed.


(** The table is bounded and a successful sign-in clears exactly its keys:
    after any run of failures and successes at most [max_keys] keys (one, if
    that is zero) are remembered, whatever the hash map's iteration order; and
    after a success none of its keys must wait while every other entry is
    untouched. *)
Theorem throttle_bounded_and_cleared p ops keys now :
  let t := throttle_run (AuthThrottle_new p) ops in
  Z.of_nat (size (entries t)) <= Z.max (max_keys p) 1 /\
  retry_after (record_success t keys) keys now = None /\
  forall k, k ∉ keys -> entries (record_success t keys) !! k = entries t !! k.
Proof.
  intros t. split_and!.
  - apply (throttle_run_size ops (AuthThrottle_new p)). cbn. rewrite map_size_empty. lia.
  - unfold retry_after, record_success. cbn [entries].
    assert (Hnil : forall l, (forall x, x ∈ l -> x ∈ keys) ->
      omap (fun key => entry ← foldl (fun m key => delete key m) (entries t) keys !! key;
        if now <? blocked_until entry then Some (saturating_sub (blocked_until entry) now) else None) l = []).
    { induction l as [|x l IH]; intros Hin; [done|]. cbn. rewrite delete_keys_lookup, decide_True by set_solver.
      cbn. apply IH. set_solver. }
    by rewrite Hnil.
  - intros k Hk. unfold record_success. cbn [entries]. by rewrite delete_keys_lookup, decide_False.
Qed.
End Throttle.

Lemma map_order_ok (m : gmap ThrottleKey Entry) : map_to_list m ≡ₚ map_to_list m.
Proof. done. Qed.

Definition sample_attempts : list (list ThrottleKey * Z) :=
  [([Source "a"; Account "x"], 10); ([Source "b"; Account "x"], 20); ([Source "c"; Account "x"], 30);
   ([Source "d"; Account "x"], 40)].

Lemma throttle_wait_exact_witness :
  retry_after (record_attempts map_to_list (AuthThrottle_new AuthThrottlePolicy_default) sample_attempts)
    [Account "x"] 1000000040 = Some 1000000000.
Proof.
  rewrite (throttle_wait_exact map_to_list AuthThrottlePolicy_default
             (list_to_set [Source "a"; Source "b"; Source "c"; Source "d"; Account "x"]) 0 (Account "x")).
  - vm_compute. reflexivity.
  - unfold policy_ok. vm_compute. repeat split; congruence.
  - vm_compute. congruence.
  - apply (bool_decide_unpack _). vm_compute. exact I.
  - apply (bool_decide_unpack _). vm_compute. exact I.
  - vm_compute. reflexivity.
  - vm_compute. congruence.
Defined.

Lemma throttle_bounded_and_cleared_witness :
  retry_after
    (record_success (throttle_run map_to_list (AuthThrottle_new AuthThrottlePolicy_default)
       [TFailure [Account "x"] 1; TFailure [Account "x"] 2; TFailure [Account "x"] 3; TFailure [Account "x"] 4])
       [Account "x"]) [Account "x"] 5 = None.
Proof.
  apply (throttle_bounded_and_cleared map_to_list map_order_ok AuthThrottlePolicy_default
           [TFailure [Account "x"] 1; TFailure [Account "x"] 2; TFailure [Account "x"] 3; TFailure [Account "x"] 4]
           [Account "x"] 5).
Defined.

(** Eviction forgets a live block: in a table of two keys, an account that
    must still wait is evicted by one failure of a third key, because the key
    with the oldest failure goes first whether or not it is blocked, and then
    may try again at once. *)
Theorem throttle_eviction_forgets_block :
  let p := mkPolicy 3 (duration_from_secs 2) (duration_from_secs 300) (duration_from_secs 900) 2 in
  let t := throttle_run map_to_list (AuthThrottle_new p)
    [TFailure [Account "victim"] 0; TFailure [Account "victim"] 0; TFailure [Account "victim"] 0;
     TFailure [Account "victim"] 0; TFailure [Source "a"] 1] in
  retry_after t [Account "victim"] 1 = Some 1999999999 /\
  retry_after (record_failure map_to_list t [Source "b"] 1) [Account "victim"] 1 = None.
Proof. split; vm_compute; reflexivity. Qed.
