(* ===== verification/SessionAdmission.v ===== *)
(** * Session: capacity-one admission

    Models [shared/session/src/session_admission.rs]: the gate that admits one
    session at a time and its bounded reconnect hold.  Each runtime operation
    locks the gate's mutex, so the operations are atomic; whether the lock was
    poisoned is an argument. *)

From S2P Require Import Prelude.

Definition MAX_RECONNECT_HOLD_SECONDS : Z := 2 * 60 * 60.

Inductive SessionAdmissionError :=
| SessionAlreadyActive | ForeignLease | ReconnectHoldExpired | ReconnectHoldOutOfRange | LockPoisoned.

(** [ReconnectHoldPolicy] is its maximum. *)
Definition ReconnectHoldPolicy_new (max_hold_seconds : Z) : result SessionAdmissionError Z :=
  if MAX_RECONNECT_HOLD_SECONDS <? max_hold_seconds then Err ReconnectHoldOutOfRange
  else Ok max_hold_seconds.

Record SessionAdmissionLease := mkLease { token : Z; reconnect_until : option Z }.

Definition is_reconnect_hold (l : SessionAdmissionLease) : bool := is_some (reconnect_until l).

Record SessionAdmissionGate := mkGate { active_token : option Z; next_token : Z }.

Definition Gate_new : SessionAdmissionGate := mkGate None 1.

Definition gate_admit_new (g : SessionAdmissionGate)
  : SessionAdmissionGate * result SessionAdmissionError SessionAdmissionLease :=
  if is_some (active_token g) then (g, Err SessionAlreadyActive)
  else
    let t := next_token g in
    (mkGate (Some t) (saturating_add 64 (next_token g) 1), Ok (mkLease t None)).

Definition validate_lease (g : SessionAdmissionGate) (l : SessionAdmissionLease)
  : result SessionAdmissionError unit :=
  if bool_decide (active_token g = Some (token l)) then Ok tt else Err ForeignLease.

(** The operations that update the lease return the updated lease. *)
Definition gate_hold_for_reconnect (g : SessionAdmissionGate) (l : SessionAdmissionLease)
  (now_epoch_seconds until max_hold_seconds : Z)
  : SessionAdmissionLease * result SessionAdmissionError unit :=
  match validate_lease g l with
  | Err e => (l, Err e)
  | Ok _ =>
    match checked_sub until now_epoch_seconds with
    | None => (l, Err ReconnectHoldExpired)
    | Some hold_seconds =>
      if max_hold_seconds <? hold_seconds then (l, Err ReconnectHoldOutOfRange)
      else (mkLease (token l) (Some until), Ok tt)
    end
  end.

Definition gate_resume (g : SessionAdmissionGate) (l : SessionAdmissionLease) (now_epoch_seconds : Z)
  : SessionAdmissionLease * result SessionAdmissionError unit :=
  match validate_lease g l with
  | Err e => (l, Err e)
  | Ok _ =>
    match reconnect_until l with
    | Some until =>
      if now_epoch_seconds <=? until then (mkLease (token l) None, Ok tt)
      else (l, Err ReconnectHoldExpired)
    | None => (l, Err ReconnectHoldExpired)
    end
  end.

Definition gate_complete (g : SessionAdmissionGate) (l : SessionAdmissionLease)
  : SessionAdmissionGate * result SessionAdmissionError unit :=
  if bool_decide (active_token g = Some (token l)) then (mkGate None (next_token g), Ok tt)
  else (g, Err ForeignLease).

(** The runtime: each operation takes the lock first. *)
Section Runtime.
Context (poisoned : bool).

Definition admit_new (g : SessionAdmissionGate) :=
  if poisoned then (g, Err LockPoisoned) else gate_admit_new g.

Definition hold_for_reconnect (g : SessionAdmissionGate) (l : SessionAdmissionLease)
  (now_epoch_seconds until : Z) : SessionAdmissionLease * result SessionAdmissionError unit :=
  match ReconnectHoldPolicy_new MAX_RECONNECT_HOLD_SECONDS with
  | Err e => (l, Err e)
  | Ok policy =>
    if poisoned then (l, Err LockPoisoned)
    else gate_hold_for_reconnect g l now_epoch_seconds until policy
  end.

Definition resume (g : SessionAdmissionGate) (l : SessionAdmissionLease) (now_epoch_seconds : Z) :=
  if poisoned then (l, Err LockPoisoned) else gate_resume g l now_epoch_seconds.

Definition complete_session (g : SessionAdmissionGate) (l : SessionAdmissionLease) :=
  if poisoned then (g, Err LockPoisoned) else gate_complete g l.
End Runtime.

(** ** Runs of one gate

    The holders keep the leases they were given; an operation names the lease it
    presents by its position among those issued. *)

Inductive AdmissionOp :=
| OpAdmit
| OpHold (lease : nat) (now until : Z)
| OpResume (lease : nat) (now : Z)
| OpRelease (lease : nat).

Record AdmissionState := mkAdmission {
  as_gate : SessionAdmissionGate;
  as_leases : list SessionAdmissionLease;
  as_live : list nat
}.

(** [as_live] lists the leases admitted and not yet released. *)
Definition admission_step (s : AdmissionState) (op : AdmissionOp) : AdmissionState :=
  let g := as_gate s in
  match op with
  | OpAdmit =>
    match admit_new false g with
    | (g, Ok lease) => mkAdmission g (as_leases s ++ [lease]) (length (as_leases s) :: as_live s)
    | (g, Err _) => mkAdmission g (as_leases s) (as_live s)
    end
  | OpHold i now until =>
    match as_leases s !! i with
    | Some lease =>
      let '(lease, _) := hold_for_reconnect false g lease now until in
      mkAdmission g (<[i := lease]> (as_leases s)) (as_live s)
    | None => s
    end
  | OpResume i now =>
    match as_leases s !! i with
    | Some lease =>
      let '(lease, _) := resume false g lease now in
      mkAdmission g (<[i := lease]> (as_leases s)) (as_live s)
    | None => s
    end
  | OpRelease i =>
    match as_leases s !! i with
    | Some lease =>
      match complete_session false g lease with
      | (g, Ok _) => mkAdmission g (as_leases s) (filter (fun j => j <> i) (as_live s))
      | (g, Err _) => mkAdmission g (as_leases s) (as_live s)
      end
    | None => s
    end
  end.

Definition admission_run (ops : list AdmissionOp) : AdmissionState :=
  foldl admission_step (mkAdmission Gate_new [] []) ops.

(** ** Lemmas *)

(** Lease [i] carries token [i + 1]; the live leases are exactly the one the
    gate names. *)
Record admission_inv (s : AdmissionState) : Prop := {
  av_next : next_token (as_gate s) = len (as_leases s) + 1;
  av_tokens : forall i l, as_leases s !! i = Some l -> token l = Z.of_nat i + 1;
  av_live : match active_token (as_gate s) with
            | None => as_live s = []
            | Some t => exists i, as_live s = [i] /\ t = Z.of_nat i + 1 /\ (i < length (as_leases s))%nat
            end
}.

Lemma hold_token g l now until : token (hold_for_reconnect false g l now until).1 = token l.
Proof. unfold hold_for_reconnect, gate_hold_for_reconnect. by repeat case_match. Qed.

Lemma resume_token g l now : token (resume false g l now).1 = token l.
Proof. unfold resume, gate_resume. by repeat case_match. Qed.

Lemma inv_update_lease s i l l' :
  admission_inv s -> as_leases s !! i = Some l -> token l' = token l ->
  admission_inv (mkAdmission (as_gate s) (<[i := l']> (as_leases s)) (as_live s)).
Proof.
  intros [Hn Ht Hl] El Etok. constructor; cbn.
  - unfold len in *. by rewrite length_insert.
  - intros j lj Hj. destruct (decide (i = j)) as [<-|Hne].
    + rewrite list_lookup_insert_eq in Hj by (by eapply lookup_lt_Some). injection Hj as <-.
      rewrite Etok. by apply Ht.
    + rewrite list_lookup_insert_ne in Hj by done. by apply Ht.
  - rewrite length_insert. exact Hl.
Qed.

Lemma admission_step_inv s op :
  len (as_leases s) + 1 < 2 ^ 64 - 1 -> admission_inv s -> admission_inv (admission_step s op).
Proof.
  intros Hlen Hs. pose proof Hs as [Hn Ht Hl]. destruct op as [|i now until|i now|i]; cbn [admission_step].
  - unfold admit_new, gate_admit_new. destruct (active_token (as_gate s)) as [t|] eqn:Ea; cbn; [by destruct s|].
    constructor; cbn.
    + rewrite Hn, len_app, len_cons. change (len (@nil SessionAdmissionLease)) with 0.
      unfold saturating_add. change (umax 64) with (2 ^ 64 - 1). lia.
    + intros j lj Hj. destruct (decide (j < length (as_leases s))%nat).
      * rewrite lookup_app_l in Hj by done. by apply Ht.
      * rewrite lookup_app_r in Hj by lia.
        destruct (j - length (as_leases s))%nat as [|k] eqn:Ek; [|by destruct k].
        injection Hj as <-. cbn. rewrite Hn. unfold len. lia.
    + exists (length (as_leases s)). rewrite Hl, length_app, Hn. unfold len. cbn. split_and!; [done|lia|lia].
  - destruct (as_leases s !! i) as [l|] eqn:El; [|done].
    pose proof (hold_token (as_gate s) l now until) as Etok.
    destruct (hold_for_reconnect _ _ l now until) as [l' r]. by eapply inv_update_lease.
  - destruct (as_leases s !! i) as [l|] eqn:El; [|done].
    pose proof (resume_token (as_gate s) l now) as Etok.
    destruct (resume _ _ l now) as [l' r]. by eapply inv_update_lease.
  - destruct (as_leases s !! i) as [l|] eqn:El; [|done]. unfold complete_session, gate_complete.
    case_bool_decide as Ha; [|by destruct s]. constructor; cbn; [done|done|].
    rewrite Ha in Hl. destruct Hl as (j & -> & Hj & _). rewrite (Ht _ _ El) in Hj.
    assert (j = i) as -> by lia. rewrite filter_cons, decide_False by auto. done.
Qed.

Lemma leases_length s op : (length (as_leases (admission_step s op)) <= length (as_leases s) + 1)%nat.
Proof.
  destruct op as [|i now until|i now|i]; cbn [admission_step].
  - unfold admit_new, gate_admit_new. destruct (is_some _); cbn; rewrite ?length_app; cbn; lia.
  - destruct (as_leases s !! i) as [l|]; [|lia]. destruct (hold_for_reconnect _ _ _ _ _). cbn.
    rewrite length_insert. lia.
  - destruct (as_leases s !! i) as [l|]; [|lia]. destruct (resume _ _ _ _). cbn. rewrite length_insert. lia.
  - destruct (as_leases s !! i) as [l|]; [|lia]. unfold complete_session, gate_complete. case_bool_decide; cbn; lia.
Qed.

Lemma admission_run_inv ops : forall s,
  admission_inv s -> len (as_leases s) + len ops + 1 < 2 ^ 64 - 1 ->
  admission_inv (foldl admission_step s ops).
Proof.
  induction ops as [|op ops IH]; intros s Hs Hlen; [done|]. cbn [foldl].
  rewrite len_cons in Hlen. pose proof (len_nonneg ops). apply IH.
  - apply admission_step_inv; [lia|done].
  - pose proof (leases_length s op). unfold len in *. lia.
Qed.

(** ** Properties *)

(** C39: One gate admits one session at a time. After any sequence of
    admissions, holds, resumes and releases (fewer than 2^64 - 2 of them),
    presented with any of the leases ever issued, at most one lease is live; it
    is the one the gate recognises, a lease already released is foreign to
    every operation, and admission succeeds exactly when no lease is live. *)
Theorem admission_capacity_one (ops : list AdmissionOp) :
  len ops + 1 < 2 ^ 64 - 1 ->
  let s := admission_run ops in
  (length (as_live s) <= 1)%nat /\
  (is_ok (admit_new false (as_gate s)).2 = true <-> as_live s = []) /\
  forall i l, as_leases s !! i = Some l ->
    (i ∈ as_live s -> validate_lease (as_gate s) l = Ok tt) /\
    (i ∉ as_live s ->
       validate_lease (as_gate s) l = Err ForeignLease /\
       complete_session false (as_gate s) l = (as_gate s, Err ForeignLease) /\
       forall now until, resume false (as_gate s) l now = (l, Err ForeignLease) /\
         hold_for_reconnect false (as_gate s) l now until = (l, Err ForeignLease)).
Proof.
  intros Hlen s. assert (Hs : admission_inv s).
  { apply admission_run_inv; [|change (len (as_leases _)) with 0; lia]. constructor; done. }
  destruct Hs as [Hn Ht Hl]. split_and!.
  - destruct (active_token (as_gate s)); [destruct Hl as (i & -> & _)|rewrite Hl]; cbn; lia.
  - unfold admit_new, gate_admit_new. destruct (active_token (as_gate s)); cbn; [|by rewrite Hl].
    destruct Hl as (i & -> & _). by split.
  - intros i l Hi. specialize (Ht i l Hi).
    assert (Hv : active_token (as_gate s) = Some (token l) <-> i ∈ as_live s).
    { destruct (active_token (as_gate s)) as [t|].
      - destruct Hl as (j & -> & -> & _). rewrite Ht, list_elem_of_singleton. split; [intros [= E]; lia|intros ->; done].
      - rewrite Hl. split; [done|set_solver]. }
    unfold resume, gate_resume, hold_for_reconnect, gate_hold_for_reconnect, complete_session, gate_complete,
      validate_lease. cbn [ReconnectHoldPolicy_new Z.ltb Z.compare Pos.compare]. split.
    + intros Hin. by rewrite bool_decide_eq_true_2 by (by apply Hv).
    + intros Hin. rewrite bool_decide_eq_false_2 by (by rewrite Hv). split_and!; try done.
Qed.

Lemma admission_capacity_one_witness :
  (length (as_live (admission_run [OpAdmit; OpAdmit; OpHold 0 100 7300; OpResume 0 7300; OpRelease 0; OpAdmit])) <= 1)%nat.
Proof.
  apply (admission_capacity_one [OpAdmit; OpAdmit; OpHold 0 100 7300; OpResume 0 7300; OpRelease 0; OpAdmit]).
  vm_compute. reflexivity.
Defined.

(** The reconnect hold is bounded and single-use: a hold is granted exactly
    when the lease is the gate's and its deadline is between now and two hours
    from now; a granted hold can be resumed up to and including the deadline and
    not after it, and a resumed lease holds nothing more to resume. *)
Theorem reconnect_hold_exact g l now until :
  is_u64 now -> is_u64 until ->
  ((hold_for_reconnect false g l now until).2 = Ok tt <->
     active_token g = Some (token l) /\ now <= until <= now + MAX_RECONNECT_HOLD_SECONDS) /\
  ((hold_for_reconnect false g l now until).2 = Ok tt ->
   let held := (hold_for_reconnect false g l now until).1 in
   is_reconnect_hold held = true /\
   forall later, (later <= until ->
       let '(resumed, r) := resume false g held later in
       r = Ok tt /\ is_reconnect_hold resumed = false /\
       forall again, (resume false g resumed again).2 = Err ReconnectHoldExpired) /\
     (until < later -> resume false g held later = (held, Err ReconnectHoldExpired))).
Proof.
  intros Hnow Hun. unfold hold_for_reconnect, gate_hold_for_reconnect, resume, gate_resume, validate_lease, checked_sub.
  change (ReconnectHoldPolicy_new MAX_RECONNECT_HOLD_SECONDS)
    with (@Ok SessionAdmissionError Z MAX_RECONNECT_HOLD_SECONDS). cbv iota.
  case_bool_decide as Ha; [|cbn; split; [split; [done|by intros [? _]]|done]].
  destruct (Z.leb_spec now until); [|cbn; split; [split; [done|intros [_ ?]; lia]|done]].
  cbv beta iota. destruct (Z.ltb_spec MAX_RECONNECT_HOLD_SECONDS (until - now)); cbn.
  { split; [split; [done|intros [_ ?]; lia]|done]. }
  split; [split; [intros _; split; [done|lia]|done]|]. intros _. split; [done|]. intros later.
  rewrite bool_decide_eq_true_2 by done. split.
  - intros Hl. rewrite (proj2 (Z.leb_le _ _)) by lia. cbn. split_and!; try done.
    intros again. by rewrite bool_decide_eq_true_2.
  - intros Hl. by rewrite (proj2 (Z.leb_gt _ _)) by lia.
Qed.

Lemma reconnect_hold_exact_witness :
  (hold_for_reconnect false (mkGate (Some 1) 2) (mkLease 1 None) 100 7300).2 = Ok tt.
Proof.
  apply (reconnect_hold_exact (mkGate (Some 1) 2) (mkLease 1 None) 100 7300).
  - unfold in_width. vm_compute. split; congruence.
  - unfold in_width. vm_compute. split; congruence.
  - split; [reflexivity|]. vm_compute. split; congruence.
Defined.

(** Tokens are only unique within one gate: a second gate accepts the first
    lease of another gate as its own, and completing with it frees the second
    gate's slot although that gate's session is still live. *)
Theorem foreign_gate_lease_accepted :
  let '(g1, r1) := admit_new false Gate_new in
  let '(g2, r2) := admit_new false Gate_new in
  r1 = Ok (mkLease 1 None) /\ r2 = Ok (mkLease 1 None) /\
  complete_session false g2 (mkLease 1 None) = (mkGate None 2, Ok tt) /\
  is_ok (admit_new false (complete_session false g2 (mkLease 1 None)).1).2 = true.
Proof. cbn. by split_and!. Qed.
