(* ===== verification/RegionSchedule.v ===== *)
(** * Media: per-region activity and service scheduling

    Models [shared/media/src/region_activity.rs] (the activity grid owned by
    one generation of one region) and [shared/media/src/region_schedule.rs]
    (the scheduler that decides at each capture tick whether the region is
    served).  It is the client of [KeelActivity] and of the idle cadence of
    [KeelCadence].  Durations are nanoseconds; generations and region ids are
    the integers they wrap. *)

From S2P Require Import Prelude KeelGrid KeelDamage KeelActivity KeelCadence.

(** ** region_activity.rs *)

Record RegionActivityOwner := mkOwner { owner_generation : Z; owner_region_id : Z }.

Record RegionActivityDiagnostics := mkRegionDiagnostics {
  rd_generation : Z;
  rd_region_id : Z;
  rd_grid : BlockGrid;
  rd_activity : ActivityDiagnostics
}.

Inductive RegionActivityError :=
| StaleGeneration (current received : Z)
| UnexpectedGeneration (current received : Z)
| RegionMismatch (expected received : Z)
| Keel (e : KeelError).

Record RegionActivityGrid := mkRegionGrid {
  rg_owner : RegionActivityOwner;
  rg_activity : ActivityGrid
}.

Definition region_grid_new (owner : RegionActivityOwner) (width height : Z) (p : KernelPreference)
  : result RegionActivityError RegionActivityGrid :=
  match ActivityGrid_new width height p with
  | Ok a => Ok (mkRegionGrid owner a)
  | Err e => Err (Keel e)
  end.

Definition region_from_damage_tracker (owner : RegionActivityOwner) (t : DamageTracker)
  : RegionActivityGrid := mkRegionGrid owner (from_damage_tracker t).

Definition region_diagnostics (g : RegionActivityGrid) : RegionActivityDiagnostics :=
  mkRegionDiagnostics (owner_generation (rg_owner g)) (owner_region_id (rg_owner g))
    (tracker_grid (act_damage (rg_activity g))) (act_diagnostics (rg_activity g)).

Definition region_reset (g : RegionActivityGrid) : RegionActivityGrid :=
  mkRegionGrid (rg_owner g) (ActivityGrid_reset (rg_activity g)).

Definition region_rebind (g : RegionActivityGrid) (owner : RegionActivityOwner)
  : RegionActivityGrid * result RegionActivityError unit :=
  let current := owner_generation (rg_owner g) in
  if owner_generation owner <=? current
  then (g, Err (StaleGeneration current (owner_generation owner)))
  else (mkRegionGrid owner (ActivityGrid_reset (rg_activity g)), Ok tt).

Definition validate_owner (g : RegionActivityGrid) (received : RegionActivityOwner)
  : result RegionActivityError unit :=
  let current := owner_generation (rg_owner g) in
  match owner_generation received ?= current with
  | Lt => Err (StaleGeneration current (owner_generation received))
  | Gt => Err (UnexpectedGeneration current (owner_generation received))
  | Eq =>
    if negb (owner_region_id received =? owner_region_id (rg_owner g))
    then Err (RegionMismatch (owner_region_id (rg_owner g)) (owner_region_id received))
    else Ok tt
  end.

(** ** region_schedule.rs: policy, signals and decisions *)

Definition MIN_REGION_FRAME_INTERVAL : Z := 1000000.
Definition MAX_REGION_FRAME_INTERVAL : Z := duration_from_secs 1.
Definition MAX_REGION_IDLE_REFRESH : Z := duration_from_secs 10.
Definition MAX_REGION_KEYFRAME_INTERVAL : Z := duration_from_secs 60.
Definition REGION_IDLE_BACKOFF_STREAK : Z := 4.
Definition REGION_IDLE_BACKOFF_FACTOR : Z := 8.

Inductive RegionSchedulePolicyError :=
| ZeroTargetFps
| FrameInterval (value : Z)
| IdleRefreshBelowFrameInterval (frame_interval max_idle_refresh : Z)
| IdleRefreshTooLong (value : Z)
| KeyframeIntervalBelowIdleRefresh (max_idle_refresh keyframe_interval : Z)
| KeyframeIntervalTooLong (value : Z)
| InputWakeGraceTooLong (input_wake_grace max_idle_refresh : Z).

Record RegionSchedulePolicy := mkSchedulePolicy {
  frame_interval : Z;
  max_idle_refresh : Z;
  keyframe_interval : Z;
  input_wake_grace : Z
}.

Definition RegionSchedulePolicy_new (frame idle key grace : Z)
  : result RegionSchedulePolicyError RegionSchedulePolicy :=
  if (frame <? MIN_REGION_FRAME_INTERVAL) || (MAX_REGION_FRAME_INTERVAL <? frame)
  then Err (FrameInterval frame)
  else if idle <? frame then Err (IdleRefreshBelowFrameInterval frame idle)
  else if MAX_REGION_IDLE_REFRESH <? idle then Err (IdleRefreshTooLong idle)
  else if key <? idle then Err (KeyframeIntervalBelowIdleRefresh idle key)
  else if MAX_REGION_KEYFRAME_INTERVAL <? key then Err (KeyframeIntervalTooLong key)
  else if idle <? grace then Err (InputWakeGraceTooLong grace idle)
  else Ok (mkSchedulePolicy frame idle key grace).

Definition from_target_fps (target_fps idle key grace : Z)
  : result RegionSchedulePolicyError RegionSchedulePolicy :=
  if target_fps =? 0 then Err ZeroTargetFps
  else RegionSchedulePolicy_new (1000000000 / target_fps) idle key grace.

Inductive ForcedKeyframe := Startup | ClientRequest | Recovery | Reconfigure.

Record RegionScheduleSignals := mkSignals {
  sig_hint : ActivityHint;
  forced_keyframe : option ForcedKeyframe;
  input_activity : bool
}.

Inductive RegionServiceAction := Serve | Skip.

Inductive RegionServiceReason :=
| StartupBaseline
| ReasonForced (kind : ForcedKeyframe)
| KeyframeDeadline
| Damage
| InputWake
| MaxIdleRefresh
| StaticSuppressed.

Definition reason_is_keyframe (r : RegionServiceReason) : bool :=
  match r with StartupBaseline | ReasonForced _ | KeyframeDeadline => true | _ => false end.

Definition reason_is_mandatory (r : RegionServiceReason) : bool :=
  reason_is_keyframe r || match r with MaxIdleRefresh => true | _ => false end.

Record RegionServiceDecision := mkDecision {
  action : RegionServiceAction;
  reason : RegionServiceReason;
  decision_keyframe : bool;
  decision_activity : RegionActivityDiagnostics;
  decision_cadence : CadenceRecommendation;
  decision_interval : Z;
  decision_deadline : Z
}.

Definition serves (d : RegionServiceDecision) : bool :=
  match action d with Serve => true | Skip => false end.

Definition decision_is_mandatory (d : RegionServiceDecision) : bool :=
  serves d && reason_is_mandatory (reason d).

(** ** Telemetry: saturating counters *)

Record RegionScheduleTelemetry := mkTelemetry {
  ticks : Z;
  served : Z;
  skipped : Z;
  keyframes : Z;
  damage_serves : Z;
  input_wakes : Z;
  idle_refreshes : Z;
  idle_ticks : Z;
  sparse_ticks : Z;
  scroll_ticks : Z;
  full_motion_ticks : Z;
  service_failures : Z;
  current_skip_streak : Z;
  max_skip_streak : Z;
  max_service_gap_micros : Z
}.

Definition Telemetry_default : RegionScheduleTelemetry :=
  mkTelemetry 0 0 0 0 0 0 0 0 0 0 0 0 0 0 0.

Definition inc (b : bool) (v : Z) : Z := if b then saturating_add 64 v 1 else v.

(** The counters of one tick: [ticks] and the class counter. *)
Definition record_tick (t : RegionScheduleTelemetry) (c : ActivityClass) : RegionScheduleTelemetry :=
  mkTelemetry (inc true (ticks t)) (served t) (skipped t) (keyframes t) (damage_serves t)
    (input_wakes t) (idle_refreshes t) (inc (bool_decide (c = Idle)) (idle_ticks t))
    (inc (bool_decide (c = Sparse)) (sparse_ticks t)) (inc (bool_decide (c = Scroll)) (scroll_ticks t))
    (inc (bool_decide (c = FullMotion)) (full_motion_ticks t))
    (service_failures t) (current_skip_streak t) (max_skip_streak t) (max_service_gap_micros t).

Definition record_serve (t : RegionScheduleTelemetry) (r : RegionServiceReason) : RegionScheduleTelemetry :=
  mkTelemetry (ticks t) (inc true (served t)) (skipped t) (inc (reason_is_keyframe r) (keyframes t))
    (inc (match r with Damage => true | _ => false end) (damage_serves t))
    (inc (match r with InputWake => true | _ => false end) (input_wakes t))
    (inc (match r with MaxIdleRefresh => true | _ => false end) (idle_refreshes t))
    (idle_ticks t) (sparse_ticks t) (scroll_ticks t) (full_motion_ticks t) (service_failures t) 0 (max_skip_streak t) (max_service_gap_micros t).

Definition record_skip (t : RegionScheduleTelemetry) : RegionScheduleTelemetry :=
  let streak := saturating_add 32 (current_skip_streak t) 1 in
  mkTelemetry (ticks t) (served t) (inc true (skipped t)) (keyframes t) (damage_serves t)
    (input_wakes t) (idle_refreshes t) (idle_ticks t) (sparse_ticks t) (scroll_ticks t) (full_motion_ticks t) (service_failures t) streak
    (Z.max (max_skip_streak t) streak) (max_service_gap_micros t).

Definition record_gap (t : RegionScheduleTelemetry) (since : Z) : RegionScheduleTelemetry :=
  mkTelemetry (ticks t) (served t) (skipped t) (keyframes t) (damage_serves t)
    (input_wakes t) (idle_refreshes t) (idle_ticks t) (sparse_ticks t) (scroll_ticks t) (full_motion_ticks t) (service_failures t) (current_skip_streak t)
    (max_skip_streak t) (Z.max (max_service_gap_micros t) (Z.min (since / 1000) (umax 64))).

Definition record_failed_service (t : RegionScheduleTelemetry) : RegionScheduleTelemetry :=
  mkTelemetry (ticks t) (served t) (skipped t) (keyframes t) (damage_serves t)
    (input_wakes t) (idle_refreshes t) (idle_ticks t) (sparse_ticks t) (scroll_ticks t) (full_motion_ticks t) (inc true (service_failures t))
    (current_skip_streak t) (max_skip_streak t) (max_service_gap_micros t).

Definition record_external (t : RegionScheduleTelemetry) (keyframe : bool) : RegionScheduleTelemetry :=
  mkTelemetry (ticks t) (inc true (served t)) (skipped t) (inc keyframe (keyframes t))
    (damage_serves t) (input_wakes t) (idle_refreshes t) (idle_ticks t) (sparse_ticks t) (scroll_ticks t) (full_motion_ticks t) (service_failures t)
    (current_skip_streak t) (max_skip_streak t) (max_service_gap_micros t).

(** ** The scheduler *)

Record RegionActivityScheduler := mkScheduler {
  policy : RegionSchedulePolicy;
  activity : RegionActivityGrid;
  sched_cadence : IdleCadence;
  telemetry : RegionScheduleTelemetry;
  since_service : Z;
  since_keyframe : Z;
  since_input : option Z;
  pending_keyframe : bool;
  committed_since_service : Z;
  committed_since_keyframe : Z;
  last_decision : option RegionServiceDecision
}.

Definition from_activity_grid (g : RegionActivityGrid) (p : RegionSchedulePolicy)
  : RegionActivityScheduler :=
  mkScheduler p g (IdleCadence_new (max_idle_refresh p)) Telemetry_default 0 0 None true 0 0 None.

Definition Scheduler_new (owner : RegionActivityOwner) (width height : Z) (pref : KernelPreference)
  (p : RegionSchedulePolicy) : result RegionActivityError RegionActivityScheduler :=
  match region_grid_new owner width height pref with
  | Ok g => Ok (from_activity_grid g p)
  | Err e => Err e
  end.

(** [Duration::saturating_sub]. *)
Definition duration_saturating_sub (a b : Z) : Z := Z.max (a - b) 0.

Definition deadline_remaining (s : RegionActivityScheduler) : Z :=
  Z.min (duration_saturating_sub (max_idle_refresh (policy s)) (since_service s))
        (duration_saturating_sub (keyframe_interval (policy s)) (since_keyframe s)).

Definition service_due (s : RegionActivityScheduler) : bool :=
  pending_keyframe s || (deadline_remaining s =? 0).

(** [reset_schedule_state], over the activity grid [g]. *)
Definition reset_schedule_state (g : RegionActivityGrid) (s : RegionActivityScheduler)
  : RegionActivityScheduler :=
  mkScheduler (policy s) g (IdleCadence_new (max_idle_refresh (policy s))) (telemetry s)
    0 0 None true 0 0 None.

Definition scheduler_reset (s : RegionActivityScheduler) : RegionActivityScheduler :=
  reset_schedule_state (region_reset (activity s)) s.

Definition scheduler_rebind (s : RegionActivityScheduler) (owner : RegionActivityOwner)
  : RegionActivityScheduler * result RegionActivityError unit :=
  match region_rebind (activity s) owner with
  | (g, Ok _) => (reset_schedule_state g s, Ok tt)
  | (g, Err e) =>
    (mkScheduler (policy s) g (sched_cadence s) (telemetry s) (since_service s) (since_keyframe s)
       (since_input s) (pending_keyframe s) (committed_since_service s) (committed_since_keyframe s)
       (last_decision s), Err e)
  end.

Definition note_service_failed (s : RegionActivityScheduler) : RegionActivityScheduler :=
  mkScheduler (policy s) (activity s) (cadence_note_frame (sched_cadence s))
    (record_failed_service (telemetry s))
    (committed_since_service s) (committed_since_keyframe s) (since_input s)
    (pending_keyframe s
     || match last_decision s with Some d => decision_keyframe d && serves d | None => false end)
    (committed_since_service s) (committed_since_keyframe s) (last_decision s).

Definition commit_service (s : RegionActivityScheduler) (keyframe : bool) : RegionActivityScheduler :=
  mkScheduler (policy s) (activity s) (sched_cadence s) (record_gap (telemetry s) (since_service s))
    0 (if keyframe then 0 else since_keyframe s) (since_input s)
    (if keyframe then false else pending_keyframe s)
    (since_service s) (since_keyframe s) (last_decision s).

Definition with_telemetry (t : RegionScheduleTelemetry) (s : RegionActivityScheduler)
  : RegionActivityScheduler :=
  mkScheduler (policy s) (activity s) (sched_cadence s) t (since_service s) (since_keyframe s)
    (since_input s) (pending_keyframe s) (committed_since_service s) (committed_since_keyframe s)
    (last_decision s).

Definition note_external_service (s : RegionActivityScheduler) (keyframe : bool)
  : RegionActivityScheduler :=
  let s := commit_service s keyframe in
  with_telemetry (record_external (telemetry s) keyframe) s.

Definition input_wake_active (since_input : option Z) (p : RegionSchedulePolicy) : bool :=
  match since_input with Some since => since <=? input_wake_grace p | None => false end.

Definition recommended_interval (s : RegionActivityScheduler) (a : RegionActivityDiagnostics)
  (input_wake : bool) : Z :=
  let frame_interval := frame_interval (policy s) in
  if input_wake || pending_keyframe s then frame_interval
  else if negb (match activity_cadence (rd_activity a) with RKeepalive => true | _ => false end)
       || negb (bool_decide (activity_class (rd_activity a) = Idle))
       || (class_streak (rd_activity a) <? REGION_IDLE_BACKOFF_STREAK)
  then frame_interval
  else
    Z.max (Z.min (Z.min (duration_saturating_mul frame_interval REGION_IDLE_BACKOFF_FACTOR)
                        (max_idle_refresh (policy s)))
                 (deadline_remaining s))
          frame_interval.

(** The three phases of [advance]: the clocks and the cadence of the tick, *)
Definition advance_clocks (s : RegionActivityScheduler) (a : RegionActivityDiagnostics)
  (elapsed : Z) (signals : RegionScheduleSignals) : RegionActivityScheduler :=
  let since_input :=
    if input_activity signals then Some 0
    else option_map (fun since => duration_saturating_add since elapsed) (since_input s) in
  let input_wake := input_wake_active since_input (policy s) in
  let dirty := negb (is_clean (summary (rd_activity a))) in
  let cad := if dirty || baseline_refresh (rd_activity a) || input_wake
             then cadence_note_frame (sched_cadence s) else sched_cadence s in
  mkScheduler (policy s) (activity s) cad
    (record_tick (telemetry s) (activity_class (rd_activity a)))
    (duration_saturating_add (since_service s) elapsed)
    (duration_saturating_add (since_keyframe s) elapsed) since_input
    (pending_keyframe s) (committed_since_service s) (committed_since_keyframe s) (last_decision s).

(** the action and its reason, *)
Definition choose_service (s : RegionActivityScheduler) (a : RegionActivityDiagnostics)
  (signals : RegionScheduleSignals) : RegionServiceAction * RegionServiceReason :=
  let keyframe_deadline_due := keyframe_interval (policy s) <=? since_keyframe s in
  let idr_pending := is_some (forced_keyframe signals) || keyframe_deadline_due || pending_keyframe s in
  match cadence_decision (sched_cadence s) idr_pending (since_service s) with
  | Some FirstFrame => (Serve, StartupBaseline)
  | Some Idr =>
    (Serve, match forced_keyframe signals with
            | Some kind => ReasonForced kind
            | None => if pending_keyframe s then ReasonForced Recovery else KeyframeDeadline
            end)
  | Some Activity => (Serve, if negb (is_clean (summary (rd_activity a))) then Damage else InputWake)
  | Some Keepalive => (Serve, MaxIdleRefresh)
  | None => (Skip, StaticSuppressed)
  end.

(** and the state after it. *)
Definition settle_service (s : RegionActivityScheduler) (act : RegionServiceAction)
  (r : RegionServiceReason) : RegionActivityScheduler :=
  match act with
  | Serve =>
    let s := mkScheduler (policy s) (activity s) (cadence_on_submitted (sched_cadence s))
               (record_serve (telemetry s) r) (since_service s) (since_keyframe s) (since_input s)
               (pending_keyframe s) (committed_since_service s) (committed_since_keyframe s)
               (last_decision s) in
    commit_service s (reason_is_keyframe r)
  | Skip => with_telemetry (record_skip (telemetry s)) s
  end.

Definition with_decision (d : RegionServiceDecision) (s : RegionActivityScheduler)
  : RegionActivityScheduler :=
  mkScheduler (policy s) (activity s) (sched_cadence s) (telemetry s) (since_service s)
    (since_keyframe s) (since_input s) (pending_keyframe s) (committed_since_service s)
    (committed_since_keyframe s) (Some d).

Definition advance (s : RegionActivityScheduler) (a : RegionActivityDiagnostics) (elapsed : Z)
  (signals : RegionScheduleSignals) : RegionActivityScheduler * RegionServiceDecision :=
  let s := advance_clocks s a elapsed signals in
  let input_wake := input_wake_active (since_input s) (policy s) in
  let '(act, r) := choose_service s a signals in
  let s := settle_service s act r in
  let d := mkDecision act r (reason_is_keyframe r) a (activity_cadence (rd_activity a))
             (recommended_interval s a input_wake) (deadline_remaining s) in
  (with_decision d s, d).

Section Observe.
Context (xxh3 : list Z -> Z -> Z) (crc : Z -> list Z -> Z).

Definition region_update_with_hint (g : RegionActivityGrid) (owner : RegionActivityOwner)
  (f : BgraFrame) (hint : ActivityHint)
  : RegionActivityGrid * result RegionActivityError RegionActivityDiagnostics :=
  match validate_owner g owner with
  | Err e => (g, Err e)
  | Ok _ =>
    let '(a, r) := update_with_hint xxh3 crc (rg_activity g) f hint in
    let g := mkRegionGrid (rg_owner g) a in
    match r with
    | Err e => (g, Err (Keel e))
    | Ok _ => (g, Ok (region_diagnostics g))
    end
  end.

Definition with_activity (g : RegionActivityGrid) (s : RegionActivityScheduler)
  : RegionActivityScheduler :=
  mkScheduler (policy s) g (sched_cadence s) (telemetry s) (since_service s) (since_keyframe s)
    (since_input s) (pending_keyframe s) (committed_since_service s) (committed_since_keyframe s)
    (last_decision s).

Definition scheduler_observe (s : RegionActivityScheduler) (owner : RegionActivityOwner)
  (f : BgraFrame) (elapsed : Z) (signals : RegionScheduleSignals)
  : RegionActivityScheduler * result RegionActivityError RegionServiceDecision :=
  let '(g, r) := region_update_with_hint (activity s) owner f (sig_hint signals) in
  let s := with_activity g s in
  match r with
  | Err e => (s, Err e)
  | Ok a => let '(s, d) := advance s a elapsed signals in (s, Ok d)
  end.
End Observe.

(** ** Lemmas *)

Lemma DURATION_MAX_pos : 0 < DURATION_MAX.
Proof. reflexivity. Qed.

Lemma policy_new_valid frame idle key grace p :
  RegionSchedulePolicy_new frame idle key grace = Ok p ->
  0 < frame_interval p <= max_idle_refresh p /\ max_idle_refresh p <= keyframe_interval p /\
  keyframe_interval p <= MAX_REGION_KEYFRAME_INTERVAL.
Proof.
  unfold RegionSchedulePolicy_new. intros H. repeat case_match; simplify_eq; cbn.
  unfold MIN_REGION_FRAME_INTERVAL in *. lia.
Qed.

Section ObserveLemmas.
Context (xxh3 : list Z -> Z -> Z) (crc : Z -> list Z -> Z).

Lemma update_with_hint_Ok a f hint a' d :
  update_with_hint xxh3 crc a f hint = (a', Ok d) ->
  act_diagnostics a' = d /\ baseline_refresh d = negb (act_has_baseline a) /\ act_has_baseline a' = true.
Proof.
  unfold update_with_hint. destruct (DamageTracker_update xxh3 crc (act_damage a) f) as [t [s|e]];
    intros H; simplify_eq. done.
Qed.

Lemma update_with_hint_Err a f hint a' e :
  update_with_hint xxh3 crc a f hint = (a', Err e) -> act_has_baseline a' = act_has_baseline a.
Proof.
  unfold update_with_hint. destruct (DamageTracker_update xxh3 crc (act_damage a) f) as [t [s|e']];
    intros H; simplify_eq. done.
Qed.

(** Every state the owner of a scheduler can bring it to. *)
Inductive sched_step : RegionActivityScheduler -> RegionActivityScheduler -> Prop :=
| sched_observe s owner f elapsed signals : 0 <= elapsed ->
    sched_step s (scheduler_observe xxh3 crc s owner f elapsed signals).1
| sched_reset s : sched_step s (scheduler_reset s)
| sched_rebind s owner : sched_step s (scheduler_rebind s owner).1
| sched_failed s : sched_step s (note_service_failed s)
| sched_external s keyframe : sched_step s (note_external_service s keyframe).

Record sched_inv (p : RegionSchedulePolicy) (s : RegionActivityScheduler) : Prop := {
  si_policy : policy s = p;
  si_keepalive : keepalive (sched_cadence s) = max_idle_refresh p;
  si_frame : act_has_baseline (rg_activity (activity s)) = true -> has_frame (sched_cadence s) = true;
  si_wf : tracker_wf (act_damage (rg_activity (activity s)));
  si_service : 0 <= since_service s /\ 0 <= since_keyframe s;
  si_committed : 0 <= committed_since_service s /\ 0 <= committed_since_keyframe s
}.

(** What an accepted observation must decide, from the state before it: *)
Definition keyframe_owed (s : RegionActivityScheduler) (elapsed : Z) (signals : RegionScheduleSignals) : bool :=
  first (sched_cadence s) || pending_keyframe s || is_some (forced_keyframe signals)
  || (keyframe_interval (policy s) <=? duration_saturating_add (since_keyframe s) elapsed).

Definition woken (s : RegionActivityScheduler) (elapsed : Z) (signals : RegionScheduleSignals) : bool :=
  input_activity signals
  || match since_input s with
     | Some since => duration_saturating_add since elapsed <=? input_wake_grace (policy s)
     | None => false
     end.

Definition service_owed (s : RegionActivityScheduler) (elapsed : Z) (signals : RegionScheduleSignals)
  (a : ActivityDiagnostics) : bool :=
  keyframe_owed s elapsed signals || dirty (sched_cadence s) || negb (is_clean (summary a))
  || baseline_refresh a || woken s elapsed signals
  || (max_idle_refresh (policy s) <=? duration_saturating_add (since_service s) elapsed).

Record settled (s s' : RegionActivityScheduler) (elapsed : Z) (d : RegionServiceDecision) : Prop := {
  se_service : since_service s' =
    if serves d then 0 else duration_saturating_add (since_service s) elapsed;
  se_keyframe : since_keyframe s' =
    if decision_keyframe d then 0 else duration_saturating_add (since_keyframe s) elapsed;
  se_committed_service : committed_since_service s' =
    if serves d then duration_saturating_add (since_service s) elapsed else committed_since_service s;
  se_committed_keyframe : committed_since_keyframe s' =
    if serves d then duration_saturating_add (since_keyframe s) elapsed else committed_since_keyframe s;
  se_last : last_decision s' = Some d
}.

Lemma input_wake_spec p s elapsed signals :
  policy s = p -> 0 <= input_wake_grace p ->
  input_wake_active (if input_activity signals then Some 0
    else option_map (fun since => duration_saturating_add since elapsed) (since_input s)) p =
  woken s elapsed signals.
Proof.
  intros Hp Hg. unfold woken, input_wake_active. rewrite Hp.
  destruct (input_activity signals); cbn; [lia|]. by destruct (since_input s).
Qed.

(** The decision in terms of what is owed. *)
Lemma choose_service_spec p s a elapsed signals act r :
  policy s = p -> keepalive (sched_cadence s) = max_idle_refresh p -> 0 <= input_wake_grace p ->
  (has_frame (sched_cadence s) = false -> baseline_refresh (rd_activity a) = true) ->
  choose_service (advance_clocks s a elapsed signals) a signals = (act, r) ->
  let cad := sched_cadence (advance_clocks s a elapsed signals) in
  reason_is_keyframe r = keyframe_owed s elapsed signals /\
  (match act with Serve => true | Skip => false end) = service_owed s elapsed signals (rd_activity a) /\
  has_frame cad = true /\ keepalive cad = max_idle_refresh p /\
  (first cad = true -> act = Serve) /\
  (dirty cad = true -> act = Serve) /\ (act = Skip -> pending_keyframe s = false).
Proof.
  intros Hp Hk Hg Hf.
  unfold choose_service, advance_clocks, service_owed, keyframe_owed, cadence_decision.
  cbn [policy activity sched_cadence since_service since_keyframe since_input pending_keyframe].
  rewrite !Hp, !(input_wake_spec p s) by done.
  set (wake := woken _ _ _). set (cl := is_clean _). set (base := baseline_refresh _) in *.
  set (forced := is_some _). set (kd := keyframe_interval p <=? _).
  destruct (sched_cadence s) as [ka hf di fi]; cbn in Hk, Hf. subst ka.
  assert (Hhf : negb cl || base || wake || hf = true).
  { destruct hf; [by rewrite orb_true_r|]. rewrite Hf by done. by destruct cl. }
  destruct (negb cl || base || wake) eqn:E; cbn [orb] in Hhf; [|subst hf]; cbn;
    rewrite ?(proj1 (orb_false_iff _ _) (proj1 (proj1 (orb_false_iff _ _) E)));
    set (id := max_idle_refresh p <=? _).
  - assert (Eo : forall x y, x || y || negb cl || base || wake || id = true).
    { intros x y. destruct cl, base, wake, x, y; done. }
    rewrite Eo. destruct fi, (pending_keyframe s), kd, (forced_keyframe signals); subst forced; cbn;
      intros Eq; injection Eq as <- <-; destruct cl; cbn; split_and!; auto; discriminate.
  - apply orb_false_iff in E as [E Ew]. apply orb_false_iff in E as [E Eb]. rewrite E, Eb, Ew.
    destruct fi, (pending_keyframe s), kd, (forced_keyframe signals), di, id; subst forced; cbn;
      intros Eq; injection Eq as <- <-; cbn; split_and!; auto; discriminate.
Qed.

Lemma advance_spec p s a elapsed signals s' d :
  policy s = p -> keepalive (sched_cadence s) = max_idle_refresh p -> 0 <= input_wake_grace p ->
  (has_frame (sched_cadence s) = false -> baseline_refresh (rd_activity a) = true) ->
  advance s a elapsed signals = (s', d) ->
  decision_activity d = a /\
  decision_keyframe d = keyframe_owed s elapsed signals /\
  serves d = service_owed s elapsed signals (rd_activity a) /\ settled s s' elapsed d /\
  policy s' = p /\ keepalive (sched_cadence s') = max_idle_refresh p /\
  has_frame (sched_cadence s') = true /\ activity s' = activity s /\
  first (sched_cadence s') = false /\ pending_keyframe s' = false /\ dirty (sched_cadence s') = false.
Proof.
  intros Hp Hk Hg Hf. unfold advance.
  destruct (choose_service _ _ _) as [act r] eqn:E.
  destruct (choose_service_spec p s a elapsed signals act r Hp Hk Hg Hf E)
    as (Ek & Es & Hhf & Hka & Hfi & Hdi & Hpe).
  set (s1 := advance_clocks _ _ _ _) in *.
  assert (Hkp : reason_is_keyframe r = false -> pending_keyframe s = false).
  { rewrite Ek. unfold keyframe_owed. intros H. by repeat (apply orb_false_iff in H as [H ?]). }
  assert (Hskip : act = Skip -> reason_is_keyframe r = false /\
            first (sched_cadence s1) = false /\ dirty (sched_cadence s1) = false).
  { intros ->. split_and!.
    - rewrite Ek. unfold service_owed in Es. by destruct (keyframe_owed s elapsed signals).
    - destruct (first (sched_cadence s1)); [by specialize (Hfi eq_refl)|done].
    - destruct (dirty (sched_cadence s1)); [by specialize (Hdi eq_refl)|done]. }
  set (interval := recommended_interval _ _ _). set (dl := deadline_remaining _).
  intros H. injection H as <- <-. unfold serves. cbn [action reason decision_keyframe decision_activity].
  destruct act; [|destruct (Hskip eq_refl) as (Hr & Hfi' & Hdi')].
  - split_and!; try done. cbn. destruct (reason_is_keyframe r); auto.
  - split_and!; try done; [|by apply Hpe]. constructor; try done. cbn. by rewrite Hr.
Qed.

Lemma validate_owner_Ok g owner : validate_owner g owner = Ok tt <-> owner = rg_owner g.
Proof.
  unfold validate_owner. destruct owner as [og oi], (rg_owner g) as [cg ci] eqn:E. cbn.
  split; [|intros [= -> ->]; by rewrite Z.compare_refl, Z.eqb_refl].
  destruct (Z.compare_spec og cg); [|done..].
  destruct (Z.eqb_spec oi ci); cbn; [|done]. intros _. congruence.
Qed.

(** An observation is accepted exactly from the owner with a frame of the
    region's geometry, and leaves no trace otherwise. *)
Lemma region_update_spec g owner f hint :
  tracker_wf (act_damage (rg_activity g)) ->
  let '(g', r) := region_update_with_hint xxh3 crc g owner f hint in
  match r with
  | Ok a => owner = rg_owner g /\ frame_grid f = tracker_grid (act_damage (rg_activity g)) /\
      rg_owner g' = rg_owner g /\ tracker_wf (act_damage (rg_activity g')) /\
      tracker_grid (act_damage (rg_activity g')) = tracker_grid (act_damage (rg_activity g)) /\
      baseline_refresh (rd_activity a) = negb (act_has_baseline (rg_activity g)) /\
      act_has_baseline (rg_activity g') = true
  | Err _ => g' = g /\
      (owner <> rg_owner g \/ frame_grid f <> tracker_grid (act_damage (rg_activity g)))
  end.
Proof.
  intros Hw. unfold region_update_with_hint. pose proof (validate_owner_Ok g owner) as Ho.
  destruct (validate_owner g owner) as [[]|e]; [|split; [done|left]; naive_solver].
  assert (owner = rg_owner g) as -> by (by apply Ho). clear Ho.
  destruct (decide (frame_grid f = tracker_grid (act_damage (rg_activity g)))) as [Hf|Hf].
  - destruct (DamageTracker_update_spec xxh3 crc _ f Hw Hf) as (t' & s & E & Hw' & _ & Hg' & _).
    unfold update_with_hint. rewrite E. cbn. split_and!; done.
  - unfold update_with_hint. rewrite DamageTracker_update_geometry by done.
    split; [by destruct g as [? []]|by right].
Qed.

Lemma with_activity_same s : with_activity (activity s) s = s.
Proof. by destruct s. Qed.

Lemma scheduler_observe_spec p s owner f elapsed signals :
  sched_inv p s -> 0 <= input_wake_grace p -> 0 <= elapsed ->
  let '(s', r) := scheduler_observe xxh3 crc s owner f elapsed signals in
  sched_inv p s' /\
  match r with
  | Ok d =>
    (owner = rg_owner (activity s) /\
     frame_grid f = tracker_grid (act_damage (rg_activity (activity s)))) /\
    decision_keyframe d = keyframe_owed s elapsed signals /\
    serves d = service_owed s elapsed signals (rd_activity (decision_activity d)) /\
    settled s s' elapsed d
  | Err _ => s' = s /\
    (owner <> rg_owner (activity s) \/
     frame_grid f <> tracker_grid (act_damage (rg_activity (activity s))))
  end.
Proof.
  intros Hs Hg He. pose proof Hs as [Hp Hk Hbf Hw [Hss Hsk] [Hcs Hck]]. unfold scheduler_observe.
  pose proof (region_update_spec (activity s) owner f (sig_hint signals) Hw) as Hu.
  destruct (region_update_with_hint _ _ _ _ _ _) as [g [a|e]]; [|destruct Hu as [-> Hu]].
  - destruct Hu as (Ho & Hf & _ & Hw' & _ & Hbase & Hb').
    destruct (advance (with_activity g s) a elapsed signals) as [s' d] eqn:E.
    assert (Hbf' : has_frame (sched_cadence s) = false -> baseline_refresh (rd_activity a) = true).
    { intros Hf'. rewrite Hbase. destruct (act_has_baseline _); [by rewrite Hbf in Hf'|done]. }
    destruct (advance_spec p (with_activity g s) a elapsed signals s' d Hp Hk Hg Hbf' E)
      as (Ea & Ek & Es & Hset & Hp' & Hk' & Hhf & Hact & _).
    assert (Hn : forall x, 0 <= x -> 0 <= duration_saturating_add x elapsed).
    { intros x Hx. unfold duration_saturating_add. pose proof DURATION_MAX_pos. lia. }
    split; [|rewrite Ea; split_and!; [done..|by destruct Hset]]. destruct Hset as [E1 E2 E3 E4 _]. cbn in *.
    constructor; auto; [by rewrite Hact| |].
    + rewrite E1, E2. clear -Hn Hss Hsk. destruct (serves d), (decision_keyframe d); split; auto; lia.
    + rewrite E3, E4. clear -Hn Hss Hsk Hcs Hck. destruct (serves d); split; auto; lia.
  - by rewrite with_activity_same.
Qed.

Lemma sched_step_inv p s s' : 0 <= input_wake_grace p -> sched_step s s' -> sched_inv p s -> sched_inv p s'.
Proof.
  intros Hg Hst Hs. destruct Hst as [s owner f e sig He|s|s owner|s|s b].
  - pose proof (scheduler_observe_spec p s owner f e sig Hs Hg He) as H.
    by destruct (scheduler_observe _ _ _ _ _ _ _) as [s' r]; destruct H.
  - destruct Hs. constructor; cbn; auto; try lia; try done; [by f_equal|by apply DamageTracker_reset_wf].
  - unfold scheduler_rebind, region_rebind. destruct Hs as [? ? ? ? ? ?].
    destruct (owner_generation owner <=? _); constructor; cbn; auto; try lia; try done;
      [by f_equal|by apply DamageTracker_reset_wf].
  - destruct Hs. constructor; cbn; auto.
  - destruct Hs. constructor; cbn; auto; destruct b; lia.
Qed.

(** A run of observations with the results they returned. *)
Fixpoint observe_run (s : RegionActivityScheduler)
  (obs : list (RegionActivityOwner * BgraFrame * Z * RegionScheduleSignals))
  : RegionActivityScheduler * list (result RegionActivityError RegionServiceDecision) :=
  match obs with
  | [] => (s, [])
  | (owner, f, elapsed, signals) :: obs =>
    let '(s, r) := scheduler_observe xxh3 crc s owner f elapsed signals in
    let '(s, rs) := observe_run s obs in
    (s, r :: rs)
  end.

Definition total_elapsed (obs : list (RegionActivityOwner * BgraFrame * Z * RegionScheduleSignals)) : Z :=
  foldr (fun o t => o.1.2 + t) 0 obs.

Lemma add_below x e bound :
  bound <= MAX_REGION_KEYFRAME_INTERVAL ->
  duration_saturating_add x e < bound -> duration_saturating_add x e = x + e.
Proof.
  unfold duration_saturating_add. assert (MAX_REGION_KEYFRAME_INTERVAL < DURATION_MAX) by reflexivity. lia.
Qed.

Lemma keyframe_not_owed s e sig :
  keyframe_owed s e sig = false ->
  duration_saturating_add (since_keyframe s) e < keyframe_interval (policy s).
Proof. unfold keyframe_owed. intros H. apply orb_false_iff in H as [_ H]. lia. Qed.

Lemma service_not_owed s e sig a :
  service_owed s e sig a = false ->
  duration_saturating_add (since_service s) e < max_idle_refresh (policy s).
Proof. unfold service_owed. intros H. apply orb_false_iff in H as [_ H]. lia. Qed.

Lemma observe_run_deadlines p frame idle key grace obs : forall s s' ds,
  RegionSchedulePolicy_new frame idle key grace = Ok p -> 0 <= input_wake_grace p ->
  sched_inv p s -> Forall (fun o => 0 <= o.1.2) obs -> obs <> [] ->
  observe_run s obs = (s', map Ok ds) ->
  (Forall (fun d => serves d = false) ds ->
     since_service s + total_elapsed obs < max_idle_refresh p) /\
  (Forall (fun d => decision_keyframe d = false) ds ->
     since_keyframe s + total_elapsed obs < keyframe_interval p).
Proof.
  induction obs as [|[[[owner f] e] sig] obs IH]; intros s s' ds Hpol Hg Hs Hobs Hne; [done|].
  cbn [observe_run]. apply Forall_cons in Hobs as [He Hobs]. cbn in He.
  pose proof (scheduler_observe_spec p s owner f e sig Hs Hg He) as H.
  destruct (scheduler_observe _ _ _ _ _ _ _) as [s1 r]. destruct H as [Hs1 H].
  destruct (observe_run s1 obs) as [s2 rs] eqn:E. intros [= <- Er].
  destruct ds as [|d ds]; [done|]. cbn in Er. injection Er as -> ->.
  destruct H as (_ & Hk & Hse & Hset). pose proof (si_policy _ _ Hs) as Hp.
  pose proof (policy_new_valid _ _ _ _ _ Hpol) as (_ & Hv1 & Hv2).
  assert (Hrest : obs = [] \/ obs <> []) by (destruct obs; auto).
  split; intros Hall; apply Forall_cons in Hall as [Hd Hall].
  - rewrite Hd in Hse. symmetry in Hse. apply service_not_owed in Hse. rewrite Hp in Hse.
    pose proof (add_below (since_service s) e (max_idle_refresh p) ltac:(lia) Hse).
    destruct Hrest as [->|Hrest]; [cbn; lia|].
    destruct (IH s1 s2 ds Hpol Hg Hs1 Hobs Hrest E) as [IH1 _]. specialize (IH1 Hall).
    rewrite (se_service _ _ _ _ Hset), Hd in IH1.
    change (total_elapsed ((owner, f, e, sig) :: obs)) with (e + total_elapsed obs). lia.
  - rewrite Hd in Hk. symmetry in Hk. apply keyframe_not_owed in Hk. rewrite Hp in Hk.
    pose proof (add_below (since_keyframe s) e (keyframe_interval p) ltac:(lia) Hk).
    destruct Hrest as [->|Hrest]; [cbn; lia|].
    destruct (IH s1 s2 ds Hpol Hg Hs1 Hobs Hrest E) as [_ IH1]. specialize (IH1 Hall).
    rewrite (se_keyframe _ _ _ _ Hset), Hd in IH1.
    change (total_elapsed ((owner, f, e, sig) :: obs)) with (e + total_elapsed obs). lia.
Qed.

Lemma Scheduler_new_inv owner w h pref p s :
  is_usize w -> is_usize h -> Scheduler_new owner w h pref p = Ok s -> sched_inv p s.
Proof.
  intros Hw Hh. unfold Scheduler_new, region_grid_new.
  destruct (ActivityGrid_new w h pref) as [a|e] eqn:E; [|done]. intros [= <-].
  pose proof (act_inv_new _ _ _ _ Hw Hh E) as Ha.
  constructor; cbn; try done; try lia; [by rewrite (ai_base _ _ _ Ha)|apply (ai_wf _ _ _ Ha)].
Qed.

Lemma sched_reach_inv p s0 s :
  0 <= input_wake_grace p -> sched_inv p s0 -> rtc sched_step s0 s -> sched_inv p s.
Proof. intros Hg H0. induction 1; [done|]. eauto using sched_step_inv. Qed.
End ObserveLemmas.

(** ** Properties *)

(** A grid that has observed nothing since it was made or reset. *)
Definition fresh_grid (g : RegionActivityGrid) : Prop :=
  tracker_wf (act_damage (rg_activity g)) /\ act_has_baseline (rg_activity g) = false.

Lemma promoted_fresh_inv g p : fresh_grid g -> sched_inv p (from_activity_grid g p).
Proof. intros [Hw Hb]. constructor; cbn; try done; try lia; congruence. Qed.

(** A scheduler its owner can have: built by [Scheduler_new], or promoted by
    [from_activity_grid] from a fresh grid, under a policy
    [RegionSchedulePolicy_new] accepted, and brought to [s] by any operations.
    Promotion of a grid that has observed frames is left out:
    [promoted_grid_starves] is what happens then. *)
Definition reachable (xxh3 : list Z -> Z -> Z) (crc : Z -> list Z -> Z)
  (p : RegionSchedulePolicy) (s : RegionActivityScheduler) : Prop :=
  exists frame idle key grace s0,
    RegionSchedulePolicy_new frame idle key grace = Ok p /\ 0 <= grace /\
    ((exists owner w h pref, is_usize w /\ is_usize h /\ Scheduler_new owner w h pref p = Ok s0) \/
     (exists g, fresh_grid g /\ s0 = from_activity_grid g p)) /\
    rtc (sched_step xxh3 crc) s0 s.

Lemma reachable_inv xxh3 crc p s : reachable xxh3 crc p s -> sched_inv p s /\ 0 <= input_wake_grace p.
Proof.
  intros (frame & idle & key & grace & s0 & Hp & Hg & Hs0 & Hr).
  assert (0 <= input_wake_grace p).
  { unfold RegionSchedulePolicy_new in Hp. by repeat case_match; simplify_eq. }
  split; [|done]. eapply sched_reach_inv; [done| |done].
  destruct Hs0 as [(owner & w & h & pref & Hw & Hh & Hn)|(g & Hf & ->)]; eauto using Scheduler_new_inv, promoted_fresh_inv.
Qed.

(** Every observation is decided exactly: one from another owner or of
    another geometry is refused and leaves no trace; an accepted one serves a
    keyframe exactly when one is owed (nothing was served yet, a keyframe is
    pending or forced, or the keyframe interval elapsed), serves at all exactly
    when a keyframe is owed, a failed service or a change is undelivered, the
    pixels changed, input woke the region or the idle-refresh bound elapsed,
    and restarts exactly the clocks of what it served. *)
Theorem region_decision_exact xxh3 crc p s owner f elapsed signals :
  reachable xxh3 crc p s -> 0 <= elapsed ->
  let '(s', r) := scheduler_observe xxh3 crc s owner f elapsed signals in
  match r with
  | Ok d =>
    (owner = rg_owner (activity s) /\
     frame_grid f = tracker_grid (act_damage (rg_activity (activity s)))) /\
    decision_keyframe d = keyframe_owed s elapsed signals /\
    serves d = service_owed s elapsed signals (rd_activity (decision_activity d)) /\
    settled s s' elapsed d
  | Err _ => s' = s /\
    (owner <> rg_owner (activity s) \/
     frame_grid f <> tracker_grid (act_damage (rg_activity (activity s))))
  end.
Proof.
  intros Hr He. apply reachable_inv in Hr as [Hs Hg].
  pose proof (scheduler_observe_spec xxh3 crc p s owner f elapsed signals Hs Hg He) as H.
  by destruct (scheduler_observe _ _ _ _ _ _ _) as [s' [d|e]]; destruct H.
Qed.

(** C37: A region is never starved.  Its scheduler was built by [new], or
    promoted from a grid that has observed nothing since it was made or reset,
    and then went through any operations: over any observations the region
    accepts, as long as none is served the time since the last service stays
    below the idle-refresh bound, and as long as none is served as a keyframe
    the time since the last keyframe stays below the keyframe interval; so each
    bound of elapsed time contains a service, resp. a keyframe.  (A grid
    promoted after it observed frames can starve, as [promoted_grid_starves]
    shows.) *)
Theorem region_never_starved xxh3 crc p s obs s' ds :
  reachable xxh3 crc p s -> Forall (fun o => 0 <= o.1.2) obs -> obs <> [] ->
  observe_run xxh3 crc s obs = (s', map Ok ds) ->
  (Forall (fun d => serves d = false) ds -> total_elapsed obs < max_idle_refresh p) /\
  (Forall (fun d => decision_keyframe d = false) ds -> total_elapsed obs < keyframe_interval p).
Proof.
  intros Hr Hobs Hne E. pose proof Hr as (frame & idle & key & grace & _ & Hp & _).
  apply reachable_inv in Hr as [Hs Hg].
  pose proof (observe_run_deadlines xxh3 crc p _ _ _ _ obs s s' ds Hp Hg Hs Hobs Hne E) as [H1 H2].
  destruct Hs as [_ _ _ _ [Hss Hsk] _]. split; intros H; [specialize (H1 H)|specialize (H2 H)]; lia.
Qed.

(** Keyframes and services are not lost: the first accepted observation
    after construction, reset or a successful rebind serves a keyframe; and
    when a service fails, the next accepted observation serves again, as a
    keyframe if the failed one was, with the clocks running on as if the failed
    service had not happened. *)
Theorem region_services_not_lost xxh3 crc p s owner f elapsed signals :
  reachable xxh3 crc p s -> 0 <= elapsed ->
  (forall t t' d, t = scheduler_reset s \/
      (exists o, scheduler_rebind s o = (t, Ok tt)) \/
      (exists o w h pref, is_usize w /\ is_usize h /\ Scheduler_new o w h pref p = Ok t) ->
    scheduler_observe xxh3 crc t owner f elapsed signals = (t', Ok d) ->
    decision_keyframe d = true /\ serves d = true) /\
  (forall s1 d1 owner2 f2 elapsed2 signals2 s2 d2,
    scheduler_observe xxh3 crc s owner f elapsed signals = (s1, Ok d1) -> serves d1 = true ->
    0 <= elapsed2 ->
    scheduler_observe xxh3 crc (note_service_failed s1) owner2 f2 elapsed2 signals2 = (s2, Ok d2) ->
    since_service (note_service_failed s1) = duration_saturating_add (since_service s) elapsed /\
    since_keyframe (note_service_failed s1) = duration_saturating_add (since_keyframe s) elapsed /\
    serves d2 = true /\ (decision_keyframe d1 = true -> decision_keyframe d2 = true)).
Proof.
  intros Hr He. apply reachable_inv in Hr as [Hs Hg]. split.
  - intros t t' d Ht E.
    assert (sched_inv p t /\ pending_keyframe t = true) as [Hti Hpe].
    { destruct Ht as [->|[[o Eo]|(o & w & h & pref & Hw & Hh & Eo)]].
      - split; [|done]. eapply sched_step_inv; [done|apply (sched_reset xxh3 crc)|done].
      - split.
        + replace t with (scheduler_rebind s o).1 by (by rewrite Eo).
          eapply sched_step_inv; [done|apply (sched_rebind xxh3 crc)|done].
        + unfold scheduler_rebind, region_rebind in Eo.
          destruct (owner_generation o <=? _); cbn in Eo; [done|]. by injection Eo as <-.
      - split; [exact (Scheduler_new_inv _ _ _ _ _ _ Hw Hh Eo)|]. unfold Scheduler_new in Eo.
        destruct (region_grid_new o w h pref); [|done]. by injection Eo as <-. }
    pose proof (scheduler_observe_spec xxh3 crc p t owner f elapsed signals Hti Hg He) as H.
    rewrite E in H. destruct H as (_ & _ & Hk & Hse & _).
    assert (Ho : keyframe_owed t elapsed signals = true).
    { unfold keyframe_owed. by rewrite Hpe, orb_true_r. }
    rewrite Hk, Hse. unfold service_owed. by rewrite Ho.
  - intros s1 d1 owner2 f2 elapsed2 signals2 s2 d2 E1 Hd1 He2 E2.
    pose proof (scheduler_observe_spec xxh3 crc p s owner f elapsed signals Hs Hg He) as H.
    rewrite E1 in H. destruct H as (Hs1 & _ & _ & _ & Hset).
    assert (Hf1 : sched_inv p (note_service_failed s1)).
    { eapply sched_step_inv; [done|apply (sched_failed xxh3 crc)|done]. }
    pose proof (scheduler_observe_spec xxh3 crc p _ owner2 f2 elapsed2 signals2 Hf1 Hg He2) as H.
    rewrite E2 in H. destruct H as (_ & _ & Hk & Hse & _).
    destruct Hset as [_ _ Hc1 Hc2 Hl]. rewrite Hd1 in Hc1, Hc2. split_and!; [done..| |].
    + rewrite Hse. unfold service_owed. cbn. by rewrite orb_true_r.
    + intros Hk1. rewrite Hk. unfold keyframe_owed. cbn. by rewrite Hl, Hk1, Hd1, !orb_true_r.
Qed.

Definition sample_policy : RegionSchedulePolicy :=
  mkSchedulePolicy 16000000 100000000 1000000000 50000000.
Definition sample_owner : RegionActivityOwner := mkOwner 1 1.
Definition sample_scheduler : RegionActivityScheduler :=
  from_activity_grid (mkRegionGrid sample_owner (from_damage_tracker toy_tracker)) sample_policy.
Definition no_signals : RegionScheduleSignals := mkSignals HintNone None false.
Definition sample_observe (s : RegionActivityScheduler) (elapsed : Z) (signals : RegionScheduleSignals) :=
  scheduler_observe toy_xxh3 toy_crc s sample_owner (toy_frame 1) elapsed signals.

Lemma sample_reachable : reachable toy_xxh3 toy_crc sample_policy sample_scheduler.
Proof.
  exists 16000000, 100000000, 1000000000, 50000000, sample_scheduler.
  split_and!; [reflexivity|lia| |apply rtc_refl]. left. exists sample_owner, 8, 8, PreferXxh3. by split_and!.
Qed.

Lemma region_decision_exact_witness :
  exists s' d, sample_observe sample_scheduler 0 no_signals = (s', Ok d) /\
    decision_keyframe d = true /\ since_service s' = 0.
Proof.
  pose proof (region_decision_exact toy_xxh3 toy_crc sample_policy sample_scheduler sample_owner
                (toy_frame 1) 0 no_signals sample_reachable ltac:(lia)) as H.
  unfold sample_observe.
  destruct (scheduler_observe _ _ _ _ _ _ _) as [s' [d|e]] eqn:E; [|vm_compute in E; discriminate].
  exists s', d. destruct H as (_ & Hk & Hs & Hset). split; [done|].
  assert (Ho : keyframe_owed sample_scheduler 0 no_signals = true) by reflexivity.
  split; [by rewrite Hk|]. rewrite (se_service _ _ _ _ Hset), Hs. unfold service_owed. by rewrite Ho.
Defined.

Definition sample_observations :=
  [(sample_owner, toy_frame 1, 0, no_signals); (sample_owner, toy_frame 1, 100000000, no_signals)].

Lemma region_never_starved_witness :
  exists s' d1 d2, observe_run toy_xxh3 toy_crc sample_scheduler sample_observations
    = (s', [Ok d1; Ok d2]) /\ ~ Forall (fun d => serves d = false) [d1; d2].
Proof.
  destruct (observe_run toy_xxh3 toy_crc sample_scheduler sample_observations) as [s' rs] eqn:E.
  assert (Hrs : forallb is_ok rs = true /\ length rs = 2%nat).
  { vm_compute in E. injection E as _ <-. by split. }
  destruct rs as [|[d1|] [|[d2|] [|]]]; destruct Hrs as [Hok Hlen];
    try discriminate Hok; try discriminate Hlen.
  exists s', d1, d2. split; [done|]. intros H.
  destruct (region_never_starved toy_xxh3 toy_crc sample_policy sample_scheduler
              sample_observations s' [d1; d2] sample_reachable ltac:(repeat constructor; done) ltac:(done) E)
    as [H1 _].
  specialize (H1 H). vm_compute in H1. discriminate H1.
Defined.

Lemma region_services_not_lost_witness :
  exists s1 d1 s2 d2, sample_observe sample_scheduler 5 no_signals = (s1, Ok d1) /\
    sample_observe (note_service_failed s1) 7 no_signals = (s2, Ok d2) /\
    serves d2 = true /\ decision_keyframe d2 = true.
Proof.
  destruct (region_services_not_lost toy_xxh3 toy_crc sample_policy sample_scheduler sample_owner
              (toy_frame 1) 5 no_signals sample_reachable ltac:(lia)) as [_ H].
  unfold sample_observe in *.
  destruct (scheduler_observe _ _ sample_scheduler _ _ _ _) as [s1 [d1|e]] eqn:E1;
    [|vm_compute in E1; discriminate].
  assert (serves d1 = true /\ decision_keyframe d1 = true /\
    exists s2 d2, scheduler_observe toy_xxh3 toy_crc (note_service_failed s1) sample_owner
      (toy_frame 1) 7 no_signals = (s2, Ok d2)) as (Hs1 & Hk1 & s2 & d2 & E2).
  { vm_compute in E1. injection E1 as <- <-. split_and!; [reflexivity..|].
    eexists _, _. vm_compute. reflexivity. }
  destruct (H _ _ sample_owner (toy_frame 1) 7 no_signals _ _ eq_refl Hs1 ltac:(lia) E2) as (_ & _ & Hs & Hk).
  exists s1, d1, s2, d2. auto.
Defined.

(** A grid that already observed frames can be promoted into a scheduler,
    and then the promise that the first frame after construction is served as a
    keyframe fails: on a still desktop not even a keyframe forced by the host
    is served, then or at any deadline. *)
Theorem promoted_grid_starves :
  let '(g, _) := region_update_with_hint toy_xxh3 toy_crc (activity sample_scheduler) sample_owner
                   (toy_frame 1) HintNone in
  let s := from_activity_grid g sample_policy in
  exists s1 s2 d1 d2,
    sample_observe s 0 (mkSignals HintNone (Some Startup) false) = (s1, Ok d1) /\ action d1 = Skip /\
    sample_observe s1 (duration_from_secs 3600) no_signals = (s2, Ok d2) /\ action d2 = Skip /\
    service_due s1 = true.
Proof.
  destruct (region_update_with_hint _ _ _ _ _ _) as [g r] eqn:E. vm_compute in E. injection E as <- <-.
  eexists _, _, _, _. split; [vm_compute; reflexivity|]. split; [reflexivity|].
  split; [vm_compute; reflexivity|]. by split.
Qed.

(** The recommended capture interval can pass the next deadline: one
    millisecond before the idle refresh is due, the recommendation is a whole
    frame interval of sixteen. *)
Theorem recommendation_passes_deadline :
  exists s1 s2 d1 d2,
    sample_observe sample_scheduler 0 no_signals = (s1, Ok d1) /\
    sample_observe s1 99000000 no_signals = (s2, Ok d2) /\
    action d2 = Skip /\ decision_deadline d2 = 1000000 /\ decision_interval d2 = 16000000.
Proof.
  eexists _, _, _, _. split; [vm_compute; reflexivity|]. split; [vm_compute; reflexivity|].
  split_and!; reflexivity.
Qed.
