(* ===== verification/OutputsFair.v ===== *)
(** * Outputs: fair delivery and atomic start

    Models [shared/outputs/src/fairness.rs] (the validated region roster and
    its rotating service order) and [shared/outputs/src/atomic_start.rs] (start
    every region or none).  The roster's atomics are read and written by single
    relaxed operations, so a run is a sequence of operations.  The payload of a
    region is a host queue: closing one is a parameter.  The host's closures
    are state-passing functions over the state of the host. *)

From S2P Require Import Prelude.

Definition MAX_MULTI_MONITOR_COUNT : Z := 4.

(** ** fairness.rs *)

Inductive RosterError (K : Type) :=
| RosterEmpty
| RosterDuplicate (key : K)
| RosterTooMany (count limit : Z).
Arguments RosterEmpty {K}.
Arguments RosterDuplicate {K}.
Arguments RosterTooMany {K}.

Record ServiceOrder := mkOrder { order_start : Z; order_len : Z; order_offset : Z }.

Definition ServiceOrder_next (o : ServiceOrder) : ServiceOrder * option Z :=
  if order_len o <=? order_offset o then (o, None)
  else (mkOrder (order_start o) (order_len o) (order_offset o + 1),
        Some ((order_start o + order_offset o) mod order_len o)).

Section Roster.
Context {K T : Type} `{EqDecision K}.

Record FairRoster := mkRoster { entries : list (K * T); roster_cursor : Z; roster_closed : bool }.

(** The pairwise scan of the constructor: the first key seen before. *)
Fixpoint first_duplicate (seen : list K) (keys : list K) : option K :=
  match keys with
  | [] => None
  | key :: keys => if decide (key ∈ seen) then Some key else first_duplicate (seen ++ [key]) keys
  end.

Definition FairRoster_new (entries : list (K * T)) : result (RosterError K) FairRoster :=
  if bool_decide (entries = []) then Err RosterEmpty
  else if MAX_MULTI_MONITOR_COUNT <? len entries
  then Err (RosterTooMany (len entries) MAX_MULTI_MONITOR_COUNT)
  else match first_duplicate [] entries.*1 with
       | Some key => Err (RosterDuplicate key)
       | None => Ok (mkRoster entries 0 false)
       end.

Definition roster_len (r : FairRoster) : Z := len (entries r).

Definition roster_keys (r : FairRoster) : list K := (entries r).*1.

Definition roster_get (r : FairRoster) (key : K) : option T :=
  option_map snd (list_find (fun e => e.1 = key) (entries r) ≫= fun '(_, e) => Some e).

Definition roster_contains (r : FairRoster) (key : K) : bool := is_some (roster_get r key).

Definition roster_entry (r : FairRoster) (index : Z) : option (K * T) := read_at (entries r) index.

Definition cursor (r : FairRoster) : Z := roster_cursor r mod roster_len r.

Definition service_order (r : FairRoster) : ServiceOrder := mkOrder (cursor r) (roster_len r) 0.

(** [service_order().collect()]. *)
Definition service_indices (r : FairRoster) : option (list Z) :=
  collect (fun o => let '(o, i) := ServiceOrder_next o in Some (i, o))
          (S (length (entries r))) (service_order r).

Definition record_served (r : FairRoster) (index : Z) : FairRoster :=
  if index <? roster_len r
  then mkRoster (entries r) ((index + 1) mod roster_len r) (roster_closed r) else r.

(** [close_one] closes and clears one payload. *)
Definition close_and_clear_all (close_one : T -> T) (r : FairRoster) : FairRoster :=
  mkRoster (map (fun e => (e.1, close_one e.2)) (entries r)) (roster_cursor r) true.

(** A delivery round of the host: the first payload of the service order that
    is ready is served and reported. *)
Definition deliver (r : FairRoster) (ready : Z -> bool) : FairRoster * option Z :=
  match service_indices r with
  | Some indices =>
    match list_find (fun i => ready i = true) indices with
    | Some (_, i) => (record_served r i, Some i)
    | None => (r, None)
    end
  | None => (r, None)
  end.

Fixpoint deliver_run (r : FairRoster) (rounds : list (Z -> bool)) : FairRoster * list (option Z) :=
  match rounds with
  | [] => (r, [])
  | ready :: rounds =>
    let '(r, i) := deliver r ready in
    let '(r, served) := deliver_run r rounds in
    (r, i :: served)
  end.
End Roster.
Arguments FairRoster : clear implicits.

(** ** atomic_start.rs *)

Record RollbackFailure (R : Type) := mkRollback { rollback_index : Z; rollback_source : R }.
Arguments mkRollback {R}.
Arguments rollback_index {R}.
Arguments rollback_source {R}.

Record AtomicStartFailure (E R : Type) := mkStartFailure {
  failure_index : Z;
  failure_started : Z;
  failure_source : E;
  rollback_failures : list (RollbackFailure R)
}.
Arguments mkStartFailure {E R}.
Arguments failure_index {E R}.
Arguments failure_started {E R}.
Arguments failure_source {E R}.
Arguments rollback_failures {E R}.

Section AtomicStart.
Context {World Spec Started StartError StopError : Type}.
Context (start_one : World -> Spec -> World * result StartError Started).
Context (stop_one : World -> Started -> World * result StopError unit).

(** The rollback loop over the started items, last first: [started.pop()]. *)
Fixpoint rollback (w : World) (reversed : list Started) : World * list (RollbackFailure StopError) :=
  match reversed with
  | [] => (w, [])
  | item :: reversed =>
    let '(w, r) := stop_one w item in
    let '(w, failures) := rollback w reversed in
    (w, match r with
        | Ok _ => failures
        | Err e => mkRollback (len reversed) e :: failures
        end)
  end.

Fixpoint start_loop (w : World) (index : Z) (started : list Started) (specs : list Spec)
  : World * result (AtomicStartFailure StartError StopError) (list Started) :=
  match specs with
  | [] => (w, Ok started)
  | spec :: specs =>
    match start_one w spec with
    | (w, Ok item) => start_loop w (index + 1) (started ++ [item]) specs
    | (w, Err e) =>
      let '(w, failures) := rollback w (rev started) in
      (w, Err (mkStartFailure index (len started) e failures))
    end
  end.

Definition start_all_or_rollback (w : World) (specs : list Spec) := start_loop w 0 [] specs.
End AtomicStart.

(** ** Lemmas *)

Section RosterLemmas.
Context {K T : Type} `{EqDecision K}.
Implicit Types r : FairRoster K T.

Lemma first_duplicate_None seen keys :
  NoDup seen -> first_duplicate (K := K) seen keys = None <-> NoDup (seen ++ keys).
Proof.
  revert seen. induction keys as [|key keys IH]; intros seen Hs; cbn; [by rewrite app_nil_r|].
  case_decide as Hin.
  - split; [done|]. intros Hn. apply NoDup_app in Hn as (_ & Hd & _). exfalso. apply (Hd key); [done|left].
  - rewrite IH; [by rewrite <- app_assoc|]. apply NoDup_app. split_and!; [done| |by apply NoDup_singleton].
    intros x Hx Hk. apply list_elem_of_singleton in Hk as ->. done.
Qed.

Lemma service_indices_aux start n (off : Z) (fuel : nat) :
  0 <= off <= n -> n - off < Z.of_nat fuel ->
  collect (fun o => let '(o, i) := ServiceOrder_next o in Some (i, o)) fuel (mkOrder start n off) =
    Some (map (fun k => (start + k) mod n) (seqZ off (n - off))).
Proof.
  revert off. induction fuel as [|fuel IH]; intros off Ho Hf; [lia|]. cbn [collect].
  unfold ServiceOrder_next. cbn [order_len order_offset order_start].
  destruct (Z.leb_spec n off).
  - replace (n - off) with 0 by lia. done.
  - cbn. rewrite IH by lia. cbn. rewrite (seqZ_cons off (n - off)) by lia. cbn.
    replace (Z.succ off) with (off + 1) by lia. by replace (Z.pred (n - off)) with (n - (off + 1)) by lia.
Qed.

Lemma service_indices_spec r :
  service_indices r = Some (map (fun k => (cursor r + k) mod roster_len r) (range (roster_len r))).
Proof.
  unfold service_indices, service_order. rewrite service_indices_aux.
  - by rewrite Z.sub_0_r.
  - unfold roster_len. pose proof (len_nonneg (entries r)). lia.
  - unfold roster_len, len. lia.
Qed.

(** How many regions are tried before region [i]. *)
Definition distance r (i : Z) : Z := (i - cursor r) mod roster_len r.

Lemma cursor_bounds r : 0 < roster_len r -> 0 <= cursor r < roster_len r.
Proof. intros. by apply Z.mod_pos_bound. Qed.

Lemma distance_offset r i : 0 <= i < roster_len r -> (cursor r + distance r i) mod roster_len r = i.
Proof.
  intros Hi. unfold distance. rewrite Zplus_mod_idemp_r. replace (cursor r + (i - cursor r)) with i by lia.
  by apply Z.mod_small.
Qed.

(** One round: a ready region is served, or gets strictly closer to the cursor. *)
Lemma deliver_closer r ready i :
  0 <= i < roster_len r -> ready i = true ->
  exists j, deliver r ready = (record_served r j, Some j) /\ 0 <= j < roster_len r /\ ready j = true /\
    (j <> i -> distance (record_served r j) i < distance r i).
Proof.
  intros Hi Hr. unfold deliver. rewrite service_indices_spec.
  set (f := fun k => (cursor r + k) mod roster_len r).
  pose proof (Z.mod_pos_bound (i - cursor r) (roster_len r) ltac:(lia)) as Hd. fold (distance r i) in Hd.
  destruct (list_find _ _) as [[k j]|] eqn:E.
  - apply list_find_Some in E as (Hk & Hj & Hmin). rewrite list_lookup_fmap in Hk.
    apply fmap_Some in Hk as (o & Ho & ->). apply lookup_seqZ in Ho as [-> Ho]. rewrite Z.add_0_l in *.
    exists (f (Z.of_nat k)). pose proof (Z.mod_pos_bound (cursor r + Z.of_nat k) (roster_len r) ltac:(lia)) as Hf.
    split_and!; [done|apply Hf..|done|]. intros Hne.
    assert (Hlt : Z.of_nat k < distance r i).
    { destruct (Z.lt_trichotomy (Z.of_nat k) (distance r i)) as [?|[Heq|Hgt]]; [done|..].
      - exfalso. apply Hne. unfold f. rewrite Heq. by apply distance_offset.
      - exfalso. apply (Hmin (Z.to_nat (distance r i)) i); [|lia|done].
        unfold range. rewrite list_lookup_fmap, lookup_seqZ_lt by lia. cbn. f_equal.
        rewrite Z2Nat.id by lia. unfold f. rewrite Z.add_0_l. by apply distance_offset. }
    unfold distance at 1, record_served, cursor. cbv zeta.
    rewrite (proj2 (Z.ltb_lt _ _)) by apply Hf. unfold roster_len in *. cbn [entries roster_cursor].
    set (n := len (entries r)) in *. rewrite Z.mod_mod by lia. unfold f.
    replace ((i - (((cursor r + Z.of_nat k) mod n + 1) mod n)) mod n) with
      ((distance r i - Z.of_nat k - 1) mod n); [rewrite Z.mod_small; lia|].
    unfold distance. unfold roster_len. fold n.
    rewrite Zminus_mod_idemp_r, <- Z.sub_add_distr, Zminus_mod_idemp_l, <- Zminus_mod_idemp_r,
      <- (Zminus_mod_idemp_r i).
    rewrite Zplus_mod_idemp_l, !Zminus_mod_idemp_r. f_equal. lia.
  - exfalso. apply list_find_None in E. rewrite Forall_forall in E.
    apply (E i); [|done]. apply list_elem_of_fmap. exists (distance r i).
    split; [symmetry; by apply distance_offset|]. apply elem_of_range. lia.
Qed.

Lemma record_served_len r j : roster_len (record_served r j) = roster_len r.
Proof. unfold record_served. by case_match. Qed.

(** A region ready in more rounds than are tried before it is served in one. *)
Lemma deliver_run_serves rounds : forall r i,
  0 <= i < roster_len r -> Forall (fun ready => ready i = true) rounds ->
  distance r i < len rounds -> Some i ∈ (deliver_run r rounds).2.
Proof.
  induction rounds as [|ready rounds IH]; intros r i Hi Hall Hd.
  { change (len []) with 0 in Hd. pose proof (Z.mod_pos_bound (i - cursor r) (roster_len r) ltac:(lia)).
    unfold distance in Hd. lia. }
  apply Forall_cons in Hall as [Hr Hall]. cbn [deliver_run].
  destruct (deliver_closer r ready i Hi Hr) as (j & -> & Hj & _ & Hc).
  destruct (deliver_run (record_served r j) rounds) as [r' served] eqn:E. cbn.
  destruct (decide (j = i)) as [->|Hne]; [left|right].
  replace served with (deliver_run (record_served r j) rounds).2 by (by rewrite E).
  apply IH; [by rewrite record_served_len|done|]. specialize (Hc Hne). rewrite len_cons in Hd. lia.
Qed.
End RosterLemmas.

Section StartLemmas.
Context {World Spec Started StartError StopError : Type}.
Context (start_one : World -> Spec -> World * result StartError Started).
Context (stop_one : World -> Started -> World * result StopError unit).

(** The reference: starting in order with no failure, *)
Inductive starts : World -> list Spec -> list Started -> World -> Prop :=
| starts_nil w : starts w [] [] w
| starts_cons w spec w1 item specs items w2 :
    start_one w spec = (w1, Ok item) -> starts w1 specs items w2 ->
    starts w (spec :: specs) (item :: items) w2.

(** and stopping numbered items, each attempted whatever the others did. *)
Inductive stops : World -> list (Z * Started) -> list (RollbackFailure StopError) -> World -> Prop :=
| stops_nil w : stops w [] [] w
| stops_ok w i item w1 items fs w2 :
    stop_one w item = (w1, Ok tt) -> stops w1 items fs w2 -> stops w ((i, item) :: items) fs w2
| stops_err w i item e w1 items fs w2 :
    stop_one w item = (w1, Err e) -> stops w1 items fs w2 ->
    stops w ((i, item) :: items) (mkRollback i e :: fs) w2.

(** The items with their start order, last first. *)
Definition last_first (items : list Started) : list (Z * Started) :=
  rev (zip (range (len items)) items).

Lemma last_first_snoc items item : last_first (items ++ [item]) = (len items, item) :: last_first items.
Proof.
  unfold last_first. rewrite len_app. change (len [item]) with 1.
  rewrite range_snoc by apply len_nonneg. rewrite zip_with_app.
  - by rewrite rev_app_distr.
  - unfold range. rewrite length_seqZ. unfold len. lia.
Qed.

Lemma rollback_spec items : forall w,
  let '(w', fs) := rollback stop_one w (rev items) in stops w (last_first items) fs w'.
Proof.
  induction items as [|item items IH] using rev_ind; intros w; [constructor|].
  rewrite rev_app_distr. cbn [rev app rollback].
  destruct (stop_one w item) as [w1 [[]|e]] eqn:E; specialize (IH w1);
    destruct (rollback stop_one w1 (rev items)) as [w2 fs]; rewrite last_first_snoc.
  - by eapply stops_ok.
  - replace (len (rev items)) with (len items) by (unfold len; by rewrite length_rev).
    by eapply stops_err.
Qed.

Lemma start_loop_spec specs : forall w index started,
  let '(w', r) := start_loop start_one stop_one w index started specs in
  match r with
  | Ok items => exists new, items = started ++ new /\ starts w specs new w'
  | Err f => exists pre spec post new w1 w2 e, specs = pre ++ spec :: post /\
      starts w pre new w1 /\ start_one w1 spec = (w2, Err e) /\ len new = len pre /\
      failure_index f = index + len pre /\ failure_started f = len started + len pre /\
      failure_source f = e /\ stops w2 (last_first (started ++ new)) (rollback_failures f) w'
  end.
Proof.
  induction specs as [|spec specs IH]; intros w index started; cbn [start_loop].
  { exists []. split; [by rewrite app_nil_r|constructor]. }
  destruct (start_one w spec) as [w1 [item|e]] eqn:E.
  - specialize (IH w1 (index + 1) (started ++ [item])).
    destruct (start_loop _ _ _ _ _ _) as [w' [items|f]].
    + destruct IH as (new & -> & Hs). exists (item :: new).
      split; [by rewrite <- app_assoc|]. by econstructor.
    + destruct IH as (pre & spec' & post & new & w2 & w3 & e & -> & Hs & Hf & Hl & Hi & Hn & He & Hst).
      exists (spec :: pre), spec', post, (item :: new), w2, w3, e. rewrite !len_cons.
      rewrite len_app in Hn. change (len [item]) with 1 in Hn.
      rewrite <- app_assoc in Hst. split_and!; try done; try lia. by econstructor.
  - pose proof (rollback_spec started w1) as Hr. destruct (rollback _ _ _) as [w' fs].
    exists [], spec, specs, [], w, w1, e. change (len []) with 0. cbn.
    rewrite app_nil_r. split_and!; try done; try lia. constructor.
Qed.
End StartLemmas.

(** ** Properties *)

(** A roster is accepted exactly when it has between one and four regions
    with distinct keys; an accepted one starts open with its cursor at the first
    region, and its service order tries every region exactly once, starting at
    the cursor and wrapping. *)
Theorem roster_service_order_exact {K T} `{EqDecision K} (l : list (K * T)) :
  (is_ok (FairRoster_new l) = true <-> 1 <= len l <= MAX_MULTI_MONITOR_COUNT /\ NoDup l.*1) /\
  (forall r, FairRoster_new l = Ok r -> r = mkRoster l 0 false) /\
  forall r : FairRoster K T, entries r <> [] ->
    exists indices, service_indices r = Some indices /\ indices ≡ₚ range (roster_len r) /\
      head indices = Some (cursor r) /\
      forall k i j, indices !! k = Some i -> indices !! S k = Some j -> j = (i + 1) mod roster_len r.
Proof.
  split_and!.
  - unfold FairRoster_new. case_bool_decide as Hl; [subst l|].
    { change (len []) with 0. split; [done|]. intros [? _]. lia. }
    assert (1 <= len l) by (destruct l; [done|rewrite len_cons; pose proof (len_nonneg l); lia]).
    destruct (Z.ltb_spec MAX_MULTI_MONITOR_COUNT (len l)); [split; [done|lia]|].
    pose proof (first_duplicate_None [] l.*1 (NoDup_nil_2)) as Hd. cbn [app] in Hd.
    destruct (first_duplicate [] l.*1); (split; [|naive_solver]); [done|]. intros _. split; [lia|by apply Hd].
  - unfold FairRoster_new. intros r. repeat case_match; congruence.
  - intros r Hne. rewrite service_indices_spec.
    assert (Hn : 0 < roster_len r).
    { unfold roster_len. destruct (entries r); [done|]. rewrite len_cons. pose proof (len_nonneg l0). lia. }
    set (n := roster_len r) in *. pose proof (cursor_bounds r Hn) as Hc. fold n in Hc.
    eexists. split; [reflexivity|]. split_and!.
    + apply submseteq_length_Permutation; [apply NoDup_submseteq|].
      * apply (NoDup_fmap_2_strong (fun k => (cursor r + k) mod n)); [|apply NoDup_seqZ]. intros x y Hx Hy E.
        apply elem_of_range in Hx, Hy.
        destruct (Z.lt_ge_cases (cursor r + x) n), (Z.lt_ge_cases (cursor r + y) n);
          rewrite ?(Z.mod_small (cursor r + x) n), ?(Z.mod_small (cursor r + y) n) in E by lia;
          try lia; rewrite <- ?(Z_mod_plus_full (cursor r + x) (-1) n), <- ?(Z_mod_plus_full (cursor r + y) (-1) n) in E;
          rewrite ?(Z.mod_small (cursor r + x + -1 * n) n), ?(Z.mod_small (cursor r + y + -1 * n) n) in E by lia; lia.
      * intros x Hx. apply list_elem_of_fmap in Hx as (o & -> & Ho). apply elem_of_range.
        apply Z.mod_pos_bound. lia.
      * by rewrite length_map.
    + unfold range. rewrite seqZ_cons by lia. cbn. rewrite Z.add_0_r. by rewrite Z.mod_small.
    + intros k i j Hi Hj. rewrite list_lookup_fmap in Hi, Hj.
      apply fmap_Some in Hi as (o & Ho & ->). apply fmap_Some in Hj as (o' & Ho' & ->).
      apply lookup_seqZ in Ho as [-> _]. apply lookup_seqZ in Ho' as [-> _].
      rewrite Zplus_mod_idemp_l. f_equal. lia.
Qed.

Lemma roster_service_order_exact_witness :
  exists r indices, FairRoster_new [(7, tt); (9, tt); (4, tt)] = Ok r /\
    service_indices (record_served r 0) = Some indices /\ head indices = Some 1.
Proof.
  destruct (roster_service_order_exact [(7, tt); (9, tt); (4, tt)]) as (_ & _ & H).
  destruct (H (record_served (mkRoster [(7, tt); (9, tt); (4, tt)] 0 false) 0) ltac:(discriminate))
    as (indices & E & _ & Hh & _).
  eexists _, indices. split; [reflexivity|]. split; [exact E|exact Hh].
Defined.

(** No region starves: over any delivery rounds in which a region is always
    ready, whatever the other regions do, it is served once every other region
    had at most one turn, that is within as many rounds as there are regions. *)
Theorem roster_never_starves {K T} `{EqDecision K} (r : FairRoster K T) i rounds :
  0 <= i < roster_len r -> Forall (fun ready => ready i = true) rounds ->
  roster_len r <= len rounds -> Some i ∈ (deliver_run r rounds).2.
Proof.
  intros Hi Hall Hn. apply deliver_run_serves; [done..|].
  pose proof (Z.mod_pos_bound (i - cursor r) (roster_len r) ltac:(lia)). unfold distance. lia.
Qed.

Lemma roster_never_starves_witness :
  Some 2 ∈ (deliver_run (mkRoster [(7, tt); (9, tt); (4, tt)] 0 false)
              [(fun _ => true); (fun _ => true); (fun _ => true)]).2.
Proof.
  apply roster_never_starves; [split; [done|reflexivity]|by repeat constructor|done].
Defined.

(** Starting is all or nothing: on success every region was started once, in
    order, and none was stopped; on failure the regions before the failing one
    were started in order and every one of them was stopped once, last first,
    even after a stop failed, the failing region and those after it were never
    running, and the report names the failing position, how many had started,
    the error and every failed stop at its position. *)
Theorem atomic_start_exact {World Spec Started StartError StopError : Type}
  (start_one : World -> Spec -> World * result StartError Started)
  (stop_one : World -> Started -> World * result StopError unit) w specs :
  let '(w', r) := start_all_or_rollback start_one stop_one w specs in
  match r with
  | Ok items => starts start_one w specs items w'
  | Err f => exists pre spec post items w1 w2, specs = pre ++ spec :: post /\
      starts start_one w pre items w1 /\
      start_one w1 spec = (w2, Err (failure_source f)) /\
      failure_index f = len pre /\ failure_started f = len pre /\
      stops stop_one w2 (last_first items) (rollback_failures f) w'
  end.
Proof.
  unfold start_all_or_rollback. pose proof (start_loop_spec start_one stop_one specs w 0 []) as H.
  destruct (start_loop _ _ _ _ _ _) as [w' [items|f]].
  - by destruct H as (new & -> & H).
  - destruct H as (pre & spec & post & new & w1 & w2 & e & -> & Hs & Hf & _ & Hi & Hn & -> & Hst).
    change (len []) with 0 in Hn. exists pre, spec, post, new, w1, w2. split_and!; try done; lia.
Qed.
