(* ===== verification/LaneOutbox.v ===== *)
(** * Input: the ordered outbox of the input lane

    Models [shared/input/src/lane_outbox.rs]: the queue that holds input
    messages while the lane is full and coalesces motion.  A message is a JSON
    value of the [serde_json] package: the lookups on it, its equality and the
    conversion of a relative-motion message are parameters, and the only thing
    relied on is that such a message converts back to itself. *)

From stdpp Require Import strings.
From S2P Require Import Prelude.

Inductive InputRecordClass :=
| Edge | AbsoluteMotion | RegionMotion | RelativeMotion | PenHoverMotion | PenContactMotion.

#[global] Instance InputRecordClass_eq_dec : EqDecision InputRecordClass.
Proof. solve_decision. Defined.

Definition PEN_CONTACT_BACKLOG_CAP : Z := 256.
Definition PEN_EVENT : string := "pen_event".
Definition REGION_PEN_EVENT : string := "region_pen_event".
Definition REGION_POINTER_MOTION : string := "region_pointer_motion".
Definition MOUSE_MOVE_RELATIVE : string := "mouse_move_relative".

Record MouseMoveRelativeMsg := mkRelative {
  msg_type : string;
  dx : Z;
  dy : Z;
  sequence : Z;
  timestamp_ns : Z;
  coalescable : bool
}.

(** [i32::checked_add]. *)
Definition checked_add_i32 (a b : Z) : option Z :=
  if (- 2 ^ 31 <=? a + b) && (a + b <? 2 ^ 31) then Some (a + b) else None.

Definition of_message_type (t : string) : InputRecordClass :=
  if decide (t = "mouse_move"%string) then AbsoluteMotion
  else if decide (t = REGION_POINTER_MOTION) then RegionMotion
  else if decide (t = MOUSE_MOVE_RELATIVE) then RelativeMotion
  else Edge.

Section Outbox.
Context {Value : Type} `{EqDecision Value}.
Context (get : Value -> string -> option Value).
Context (as_str : Value -> option string) (as_bool : Value -> option bool).
Context (from_value : Value -> option MouseMoveRelativeMsg).
Context (to_value : MouseMoveRelativeMsg -> option Value).

Definition of_pen_message (message : Value) : InputRecordClass :=
  let flag name := get message name ≫= as_bool in
  if bool_decide (flag "coalescable"%string <> Some true)
     || bool_decide (flag "in_proximity"%string <> Some true) then Edge
  else if bool_decide (flag "touching"%string = Some true) then PenContactMotion
  else PenHoverMotion.

Definition of_message (message : Value) : InputRecordClass :=
  match get message "type"%string ≫= as_str with
  | None => Edge
  | Some t =>
    if bool_decide (t = PEN_EVENT) || bool_decide (t = REGION_PEN_EVENT)
    then of_pen_message message else of_message_type t
  end.

Definition PEN_STROKE_KEYS : list string :=
  ["type"; "tool"; "buttons"; "touching"; "in_proximity"; "region_id"; "region_generation"]%string.

Definition same_pen_stroke (older newer : Value) : bool :=
  forallb (fun key => bool_decide (get older key = get newer key)) PEN_STROKE_KEYS.

Definition sum_relative (older newer : Value) : option Value :=
  older ← from_value older;
  newer ← from_value newer;
  if negb (coalescable older) || negb (coalescable newer) then None
  else
    sx ← checked_add_i32 (dx older) (dx newer);
    sy ← checked_add_i32 (dy older) (dy newer);
    to_value (mkRelative (msg_type newer) sx sy (sequence newer) (timestamp_ns newer) (coalescable newer)).

Record InputLaneOutbox := mkOutbox {
  pending : list (Value * InputRecordClass);
  coalesced : Z;
  pen_contact_pending : Z;
  pen_contact_decimated : Z
}.

Definition Outbox_default : InputLaneOutbox := mkOutbox [] 0 0 0.

(** [back_mut]: overwriting the last message keeps its class. *)
Definition replace_last (o : InputLaneOutbox) (message : Value) (class : InputRecordClass)
  : InputLaneOutbox :=
  mkOutbox (removelast (pending o) ++ [(message, class)]) (saturating_add 64 (coalesced o) 1)
    (pen_contact_pending o) (pen_contact_decimated o).

(** Is [index] the newer of an adjacent pair of contact samples of a stroke? *)
Definition contact_pair (l : list (Value * InputRecordClass)) (index : nat) : bool :=
  match l !! Nat.pred index, l !! index with
  | Some (older, PenContactMotion), Some (newer, PenContactMotion) => same_pen_stroke older newer
  | _, _ => false
  end.

Definition fold_oldest_contact_pair (o : InputLaneOutbox) : InputLaneOutbox :=
  match list_find (fun index => contact_pair (pending o) index = true)
          (seq 1 (Nat.pred (length (pending o)))) with
  | Some (_, index) =>
    mkOutbox (delete (Nat.pred index) (pending o)) (coalesced o) (pen_contact_pending o - 1)
      (saturating_add 64 (pen_contact_decimated o) 1)
  | None => o
  end.

Definition push_last (o : InputLaneOutbox) (message : Value) (class : InputRecordClass)
  : InputLaneOutbox :=
  let o := mkOutbox (pending o ++ [(message, class)]) (coalesced o) (pen_contact_pending o)
             (pen_contact_decimated o) in
  if bool_decide (class = PenContactMotion) then
    let o := mkOutbox (pending o) (coalesced o) (pen_contact_pending o + 1) (pen_contact_decimated o) in
    if PEN_CONTACT_BACKLOG_CAP <? pen_contact_pending o then fold_oldest_contact_pair o else o
  else o.

Definition push (o : InputLaneOutbox) (message : Value) : InputLaneOutbox :=
  let class := of_message message in
  match last (pending o) with
  | Some (last, last_class) =>
    if bool_decide (last_class = class) then
      match class with
      | AbsoluteMotion | RegionMotion => replace_last o message class
      | RelativeMotion =>
        match sum_relative last message with
        | Some summed => replace_last o summed class
        | None => push_last o message class
        end
      | PenHoverMotion =>
        if same_pen_stroke last message then replace_last o message class
        else push_last o message class
      | PenContactMotion | Edge => push_last o message class
      end
    else push_last o message class
  | None => push_last o message class
  end.

Definition front (o : InputLaneOutbox) : option Value := fst <$> head (pending o).

Definition pop_front (o : InputLaneOutbox) : InputLaneOutbox * option Value :=
  match pending o with
  | [] => (o, None)
  | (message, class) :: rest =>
    (mkOutbox rest (coalesced o)
       (if bool_decide (class = PenContactMotion) then pen_contact_pending o - 1 else pen_contact_pending o)
       (pen_contact_decimated o), Some message)
  end.

(** ** Runs: [sent] collects what was popped, with the class it was queued under. *)

Inductive OutboxOp := OPush (message : Value) | OPop.

Definition outbox_step (st : InputLaneOutbox * list (Value * InputRecordClass)) (op : OutboxOp)
  : InputLaneOutbox * list (Value * InputRecordClass) :=
  match op with
  | OPush message => (push st.1 message, st.2)
  | OPop => ((pop_front st.1).1, st.2 ++ take 1 (pending st.1))
  end.

Definition outbox_run (ops : list OutboxOp) : InputLaneOutbox * list (Value * InputRecordClass) :=
  foldl outbox_step (Outbox_default, []) ops.

(** The messages pushed, with their classes, in order. *)
Definition pushed (ops : list OutboxOp) : list (Value * InputRecordClass) :=
  omap (fun op => match op with OPush m => Some (m, of_message m) | OPop => None end) ops.

(** What merging two adjacent records into one may do: *)
Definition merges (x y z : Value * InputRecordClass) : Prop :=
  x.2 = y.2 /\ z.2 = y.2 /\
  match y.2 with
  | Edge => False
  | AbsoluteMotion | RegionMotion => z.1 = y.1
  | RelativeMotion => sum_relative x.1 y.1 = Some z.1
  | PenHoverMotion | PenContactMotion => z.1 = y.1 /\ same_pen_stroke x.1 y.1 = true
  end.

Inductive merge_step : list (Value * InputRecordClass) -> list (Value * InputRecordClass) -> Prop :=
| merge_pair pre x y z post : merges x y z -> merge_step (pre ++ x :: y :: post) (pre ++ z :: post).

Lemma merge_step_app k l l' : merge_step l l' -> merge_step (k ++ l) (k ++ l').
Proof. intros [pre x y z post H]. rewrite !app_assoc. by constructor. Qed.

Lemma merge_steps_app k l l' : rtc merge_step l l' -> rtc merge_step (k ++ l) (k ++ l').
Proof. induction 1; [done|]. eapply rtc_l; [by apply merge_step_app|done]. Qed.

Lemma merge_step_app_r k l l' : merge_step l l' -> merge_step (l ++ k) (l' ++ k).
Proof. intros [pre x y z post H]. rewrite <- !app_assoc. cbn. by constructor. Qed.

Lemma merge_steps_app_r k l l' : rtc merge_step l l' -> rtc merge_step (l ++ k) (l' ++ k).
Proof. induction 1; [done|]. eapply rtc_l; [by apply merge_step_app_r|done]. Qed.

Lemma replace_last_merges l x y z :
  last l = Some x -> merges x y z -> merge_step (l ++ [y]) (removelast l ++ [z]).
Proof.
  intros Hl Hm. apply last_Some in Hl as [k Hk]. rewrite Hk, removelast_last, <- app_assoc. cbn.
  by constructor.
Qed.

Definition contacts (l : list (Value * InputRecordClass)) : Z :=
  len (filter (fun e => e.2 = PenContactMotion) l).

Lemma contacts_app l k : contacts (l ++ k) = contacts l + contacts k.
Proof. unfold contacts. by rewrite filter_app, len_app. Qed.

Lemma contacts_cons e l : contacts (e :: l) = Z.b2z (bool_decide (e.2 = PenContactMotion)) + contacts l.
Proof.
  unfold contacts. rewrite filter_cons. case_bool_decide; [rewrite decide_True, len_cons by done|rewrite decide_False by done]; cbn; lia.
Qed.

Lemma contacts_one m c : contacts [(m, c)] = if bool_decide (c = PenContactMotion) then 1 else 0.
Proof. rewrite contacts_cons. change (contacts []) with 0. cbn [snd]. by case_bool_decide. Qed.

(** Folding merges one adjacent pair, or finds none. *)
Lemma fold_spec o :
  let o' := fold_oldest_contact_pair o in
  coalesced o' = coalesced o /\
  ((pending o' = pending o /\ pen_contact_pending o' = pen_contact_pending o /\
    pen_contact_decimated o' = pen_contact_decimated o /\
    forall k older newer, pending o !! k = Some (older, PenContactMotion) ->
      pending o !! S k = Some (newer, PenContactMotion) -> same_pen_stroke older newer = false) \/
   (merge_step (pending o) (pending o') /\
    contacts (pending o') = contacts (pending o) - 1 /\
    pen_contact_pending o' = pen_contact_pending o - 1 /\
    pen_contact_decimated o' = saturating_add 64 (pen_contact_decimated o) 1 /\
    len (pending o') = len (pending o) - 1)).
Proof.
  unfold fold_oldest_contact_pair. destruct (list_find _ _) as [[j i]|] eqn:E; cbn; (split; [done|]).
  - right. apply list_find_Some in E as (Hj & Hp & _). apply lookup_seq in Hj as [-> Hj].
    replace (Nat.pred (1 + j)) with j by lia. cbn in Hp. unfold contact_pair in Hp. cbn in Hp.
    destruct (pending o !! j) as [[older []]|] eqn:E1; try done.
    destruct (pending o !! S j) as [[newer []]|] eqn:E2; try done.
    assert (El : pending o = take j (pending o) ++ (older, PenContactMotion)
      :: (newer, PenContactMotion) :: drop (S (S j)) (pending o)).
    { rewrite <- (take_drop j (pending o)) at 1. f_equal. by erewrite !drop_S by done. }
    assert (Ed : delete j (pending o) = take j (pending o)
      ++ (newer, PenContactMotion) :: drop (S (S j)) (pending o)).
    { rewrite delete_take_drop. f_equal. by erewrite drop_S by done. }
    split_and!; try done.
    + rewrite Ed, El at 1. by constructor.
    + pose proof (f_equal contacts El) as H. rewrite contacts_app, !contacts_cons in H.
      rewrite Ed, contacts_app, contacts_cons. change (Z.b2z (bool_decide _)) with 1 in *. lia.
    + pose proof (f_equal len El) as H. rewrite len_app, !len_cons in H. rewrite Ed, len_app, len_cons. lia.
  - left. split_and!; [done..|]. intros k older newer E1 E2.
    apply list_find_None in E. rewrite Forall_forall in E.
    specialize (E (S k)). rewrite elem_of_seq in E. pose proof (lookup_lt_Some _ _ _ E2).
    specialize (E ltac:(lia)). unfold contact_pair in E.
    change (Nat.pred (S k)) with k in E. rewrite E1, E2 in E.
    by apply not_true_is_false in E.
Qed.

(** One push: the new message is queued last, then merged into what waits. *)
Record push_ok (o : InputLaneOutbox) (m : Value) (o' : InputLaneOutbox) : Prop := {
  po_merges : rtc merge_step (pending o ++ [(m, of_message m)]) (pending o');
  po_contacts : contacts (pending o') - pen_contact_pending o' =
                contacts (pending o) - pen_contact_pending o;
  po_count : exists dc dd, 0 <= dc /\ 0 <= dd /\
    len (pending o') + dc + dd = len (pending o) + 1 /\
    contacts (pending o') + dd = contacts (pending o ++ [(m, of_message m)]) /\
    (0 < dd -> PEN_CONTACT_BACKLOG_CAP <= pen_contact_pending o) /\
    coalesced o' = saturating_add 64 (coalesced o) dc /\
    pen_contact_decimated o' = saturating_add 64 (pen_contact_decimated o) dd
}.

Lemma saturating_add_0 x : x <= umax 64 -> saturating_add 64 x 0 = x.
Proof. unfold saturating_add. lia. Qed.

Lemma push_last_ok o m :
  coalesced o <= umax 64 -> pen_contact_decimated o <= umax 64 ->
  push_ok o m (push_last o m (of_message m)).
Proof.
  intros Hc Hd. unfold push_last.
  set (o1 := mkOutbox (pending o ++ [(m, of_message m)]) (coalesced o) (pen_contact_pending o) _).
  case_bool_decide as E.
  - set (o2 := mkOutbox (pending o1) (coalesced o1) (pen_contact_pending o1 + 1) _).
    assert (Hcon : contacts (pending o2) = contacts (pending o) + 1).
    { cbn [pending o1 o2]. by rewrite contacts_app, contacts_one, bool_decide_eq_true_2. }
    assert (Hlen : len (pending o2) = len (pending o) + 1) by (cbn; by rewrite len_app).
    assert (Hbase : push_ok o m o2).
    { constructor; [apply rtc_refl|cbn [pen_contact_pending o2 o1]; lia|].
      exists 0, 0. cbn [coalesced pen_contact_decimated o1 o2]. rewrite !saturating_add_0 by done.
      split_and!; try done; try lia. change (pending o2) with (pending o ++ [(m, of_message m)]). lia. }
    destruct (Z.ltb_spec PEN_CONTACT_BACKLOG_CAP (pen_contact_pending o2)) as [Hcap|_]; [|done].
    cbn [pen_contact_pending o2 o1] in Hcap.
    destruct (fold_spec o2) as [Ec [(Ep & Ek & Ed & _)|(Hm & Hk & Ek & Ed & El)]].
    + destruct Hbase as [H1 H2 H3]. constructor; rewrite ?Ep, ?Ek, ?Ed, ?Ec; done.
    + constructor; [by apply rtc_once|cbn [pen_contact_pending o2 o1] in *; lia|].
      exists 0, 1. rewrite Ec, Ed. cbn [coalesced pen_contact_decimated o1 o2] in *.
      rewrite saturating_add_0 by done.
      split_and!; try done; try lia. rewrite Hk.
      change (pending o2) with (pending o ++ [(m, of_message m)]). lia.
  - constructor; [apply rtc_refl| |].
    + cbn [pending pen_contact_pending o1]. rewrite contacts_app, contacts_one, bool_decide_eq_false_2 by done. lia.
    + exists 0, 0. cbn. rewrite !saturating_add_0, len_app by done. change (len [(m, of_message m)]) with 1.
      split_and!; try done; lia.
Qed.

Lemma replace_last_ok o m z x c :
  last (pending o) = Some (x, c) -> of_message m = c -> merges (x, c) (m, c) (z, c) ->
  c <> PenContactMotion -> pen_contact_decimated o <= umax 64 -> push_ok o m (replace_last o z c).
Proof.
  intros Hl Em Hm Hne Hd. constructor; cbn.
  - rewrite Em. apply rtc_once. by eapply replace_last_merges.
  - apply last_Some in Hl as [k Hk]. rewrite Hk, removelast_last, !contacts_app, !contacts_one, !bool_decide_eq_false_2 by done. lia.
  - exists 1, 0. rewrite saturating_add_0 by done. apply last_Some in Hl as [k Hk].
    rewrite Hk, removelast_last, !len_app, !len_cons, !contacts_app, !contacts_one, Em,
      !bool_decide_eq_false_2 by done. split_and!; try done; lia.
Qed.

Lemma push_spec o m :
  coalesced o <= umax 64 -> pen_contact_decimated o <= umax 64 -> push_ok o m (push o m).
Proof.
  intros Hc Hd. unfold push. destruct (last (pending o)) as [[x lc]|] eqn:El; [|by apply push_last_ok].
  case_bool_decide as E; [subst lc|by apply push_last_ok].
  destruct (of_message m) eqn:Em; try (rewrite <- Em; by apply push_last_ok).
  - by eapply replace_last_ok.
  - by eapply replace_last_ok.
  - destruct (sum_relative x m) as [z|] eqn:Es; [by eapply replace_last_ok|rewrite <- Em; by apply push_last_ok].
  - destruct (same_pen_stroke x m) eqn:Es; [by eapply replace_last_ok|rewrite <- Em; by apply push_last_ok].
Qed.

Lemma pop_spec o :
  pending o = take 1 (pending o) ++ pending (pop_front o).1 /\
  contacts (pending (pop_front o).1) - pen_contact_pending (pop_front o).1 =
    contacts (pending o) - pen_contact_pending o /\
  coalesced (pop_front o).1 = coalesced o /\
  pen_contact_decimated (pop_front o).1 = pen_contact_decimated o.
Proof.
  unfold pop_front. destruct (pending o) as [|[m c] rest] eqn:E; cbn; [by rewrite E|].
  rewrite take_0. split_and!; try done. rewrite contacts_cons. cbn. case_bool_decide; cbn; lia.
Qed.

Lemma pushed_snoc ops op :
  pushed (ops ++ [op]) = pushed ops ++ match op with OPush m => [(m, of_message m)] | OPop => [] end.
Proof. unfold pushed. rewrite omap_app. by destruct op. Qed.

Record run_ok (ops : list OutboxOp) (o : InputLaneOutbox) (sent : list (Value * InputRecordClass)) : Prop := {
  ro_merges : rtc merge_step (pushed ops) (sent ++ pending o);
  ro_contacts : pen_contact_pending o = contacts (pending o);
  ro_nonneg : 0 <= coalesced o /\ 0 <= pen_contact_decimated o;
  ro_count : len (sent ++ pending o) + coalesced o + pen_contact_decimated o = len (pushed ops);
  ro_ink : contacts (sent ++ pending o) + pen_contact_decimated o = contacts (pushed ops)
}.

Lemma outbox_run_ok ops :
  len (pushed ops) <= umax 64 -> run_ok ops (outbox_run ops).1 (outbox_run ops).2.
Proof.
  unfold outbox_run. induction ops as [|op ops IH] using rev_ind; [by constructor|].
  rewrite pushed_snoc, foldl_app. cbn [foldl]. rewrite len_app. intros Hlen.
  destruct (foldl outbox_step (Outbox_default, []) ops) as [o sent] eqn:E. cbn [fst snd] in IH.
  pose proof (len_nonneg (match op with OPush m => [(m, of_message m)] | OPop => [] end)).
  destruct IH as [Hm Hc [Hn1 Hn2] Hcount Hink]; [lia|]. pose proof (len_nonneg (sent ++ pending o)).
  destruct op as [m|]; cbn [outbox_step fst snd].
  - change (len [(m, of_message m)]) with 1 in *.
    destruct (push_spec o m ltac:(lia) ltac:(lia)) as [Hm' Hc' (dc & dd & Hdc & Hdd & Hl & Hk & _ & Ec & Ed)].
    pose proof (len_nonneg (sent ++ pending (push o m))). rewrite !len_app, !contacts_app in *.
    assert (Ec' : coalesced (push o m) = coalesced o + dc) by (rewrite Ec; unfold saturating_add; pose proof (len_nonneg (pending (push o m))); pose proof (len_nonneg sent); lia).
    assert (Ed' : pen_contact_decimated (push o m) = pen_contact_decimated o + dd) by (rewrite Ed; unfold saturating_add; pose proof (len_nonneg (pending (push o m))); pose proof (len_nonneg sent); lia).
    constructor; rewrite ?pushed_snoc, ?Ec', ?Ed', ?len_app, ?contacts_app; try lia.
    + etrans; [by apply merge_steps_app_r|]. rewrite <- app_assoc. by apply merge_steps_app.
    + change (len [(m, of_message m)]) with 1. lia.
  - destruct (pop_spec o) as (Ep & Hc' & Ec & Ed).
    constructor; rewrite ?pushed_snoc, ?app_nil_r, ?Ec, ?Ed, <- ?app_assoc, <- ?Ep; done || lia.
Qed.

(** What merging preserves. *)
Definition of_class (c : InputRecordClass) (l : list (Value * InputRecordClass)) :=
  filter (fun e => e.2 = c) l.

Definition total_delta (proj : MouseMoveRelativeMsg -> Z) (l : list (Value * InputRecordClass)) : Z :=
  foldr (fun e t => match from_value e.1 with Some m => proj m | None => 0 end + t) 0
        (of_class RelativeMotion l).

Lemma of_class_app c l k : of_class c (l ++ k) = of_class c l ++ of_class c k.
Proof. apply filter_app. Qed.

Lemma of_class_cons c e l :
  of_class c (e :: l) = if decide (e.2 = c) then e :: of_class c l else of_class c l.
Proof. unfold of_class. rewrite filter_cons. by case_decide. Qed.

Lemma merge_keeps_edges l l' : merge_step l l' -> of_class Edge l = of_class Edge l'.
Proof.
  intros [pre [x cx] [y cy] [z cz] post (Hx & Hz & H)]. cbn in *. subst cx cz.
  rewrite !of_class_app, !of_class_cons. cbn. by destruct cy.
Qed.

Lemma merge_keeps_last c l l' :
  c <> RelativeMotion -> merge_step l l' -> last (of_class c l) = last (of_class c l').
Proof.
  intros Hc [pre [x cx] [y cy] [z cz] post (Hx & Hz & H)]. cbn in *. subst cx cz.
  rewrite !of_class_app, !of_class_cons. cbn [snd]. destruct (decide (cy = c)) as [->|]; [|done].
  assert (z = y) as -> by (by destruct c; try destruct H).
  by rewrite !last_app.
Qed.

Hypothesis relative_roundtrip : forall m v, to_value m = Some v -> from_value v = Some m.

Lemma sum_relative_delta (proj : MouseMoveRelativeMsg -> Z) x y z :
  proj = dx \/ proj = dy -> sum_relative x y = Some z ->
  exists mx my mz, from_value x = Some mx /\ from_value y = Some my /\ from_value z = Some mz /\
    proj mz = proj mx + proj my.
Proof.
  intros Hp. unfold sum_relative. destruct (from_value x) as [mx|] eqn:Ex; [|done]. cbn.
  destruct (from_value y) as [my|] eqn:Ey; [|done]. cbn. destruct (negb _ || _); [done|].
  destruct (checked_add_i32 (dx mx) (dx my)) as [sx|] eqn:Edx; [|done]. cbn.
  destruct (checked_add_i32 (dy mx) (dy my)) as [sy|] eqn:Edy; [|done]. cbn.
  intros E. apply relative_roundtrip in E. exists mx, my. eexists. split_and!; [done..|].
  unfold checked_add_i32 in *. repeat case_match; simplify_eq. destruct Hp as [-> | ->]; done.
Qed.

Lemma merge_keeps_delta (proj : MouseMoveRelativeMsg -> Z) l l' :
  proj = dx \/ proj = dy -> merge_step l l' -> total_delta proj l = total_delta proj l'.
Proof.
  intros Hp [pre [x cx] [y cy] [z cz] post (Hx & Hz & H)]. cbn in *. subst cx cz.
  unfold total_delta. rewrite !of_class_app, !of_class_cons, !foldr_app. cbn [snd]. f_equal.
  destruct (decide (cy = RelativeMotion)) as [->|]; [|done]. cbn [foldr fst] in *.
  destruct (sum_relative_delta proj x y z Hp H) as (mx & my & mz & -> & -> & -> & E). lia.
Qed.

Lemma merges_keep {B} (f : list (Value * InputRecordClass) -> B) l l' :
  (forall l l', merge_step l l' -> f l = f l') -> rtc merge_step l l' -> f l = f l'.
Proof. intros Hf. induction 1 as [|l l1 l' H _ IH]; [done|]. by rewrite (Hf _ _ H). Qed.
End Outbox.

(** ** Properties *)

Section Properties.
Context {Value : Type} `{EqDecision Value}.
Context (get : Value -> string -> option Value).
Context (as_str : Value -> option string) (as_bool : Value -> option bool).
Context (from_value : Value -> option MouseMoveRelativeMsg).
Context (to_value : MouseMoveRelativeMsg -> option Value).
Abbreviation run := (outbox_run get as_str as_bool from_value to_value).
Abbreviation input := (pushed get as_str as_bool).

(** C35: The outbox only ever merges adjacent motion of one kind: after any
    pushes and pops, what was sent followed by what waits comes from the pushed
    messages by such merges alone. So every edge is there, once, unchanged and
    in order; the newest message of every other kind but relative motion is the
    newest one pushed; and the relative deltas add up to those pushed. *)
Theorem outbox_preserves_input (ops : list OutboxOp) :
  (forall m v, to_value m = Some v -> from_value v = Some m) ->
  len (input ops) <= umax 64 ->
  let out := (run ops).2 ++ pending (run ops).1 in
  rtc (merge_step get from_value to_value) (input ops) out /\
  of_class Edge out = of_class Edge (input ops) /\
  (forall c, c <> RelativeMotion -> last (of_class c out) = last (of_class c (input ops))) /\
  total_delta from_value dx out = total_delta from_value dx (input ops) /\
  total_delta from_value dy out = total_delta from_value dy (input ops).
Proof.
  intros Hr Hl out. pose proof (outbox_run_ok get as_str as_bool from_value to_value ops Hl) as [Hm _ _ _ _].
  fold out in Hm. split_and!; [done|..].
  - symmetry. eapply merges_keep; [|exact Hm]. apply merge_keeps_edges.
  - intros c Hc. symmetry. eapply (merges_keep _ _ _ (fun l => last (of_class c l))); [|exact Hm].
    intros. by eapply merge_keeps_last.
  - symmetry. eapply merges_keep; [|exact Hm]. intros. eapply merge_keeps_delta; eauto.
  - symmetry. eapply merges_keep; [|exact Hm]. intros. eapply merge_keeps_delta; eauto.
Qed.

(** Nothing is lost uncounted: the messages sent or waiting and those
    counted as coalesced or decimated add up to the messages pushed, every ink
    sample that is missing was counted as decimated, the backlog counter is the
    number of ink samples waiting, and a push folds an ink sample only when that
    backlog is full. *)
Theorem outbox_accounts_for_messages (ops : list OutboxOp) (m : Value) :
  len (input ops) <= umax 64 ->
  let o := (run ops).1 in
  let out := (run ops).2 ++ pending o in
  len out + coalesced o + pen_contact_decimated o = len (input ops) /\
  contacts out + pen_contact_decimated o = contacts (input ops) /\
  pen_contact_pending o = contacts (pending o) /\
  (pen_contact_decimated (push get as_str as_bool from_value to_value o m) <> pen_contact_decimated o ->
     PEN_CONTACT_BACKLOG_CAP <= contacts (pending o)).
Proof.
  intros Hl o out.
  pose proof (outbox_run_ok get as_str as_bool from_value to_value ops Hl) as [_ Hc [Hn1 Hn2] Hcount Hink].
  fold o out in Hc, Hn1, Hn2, Hcount, Hink. split_and!; [done..|]. intros Hne.
  pose proof (len_nonneg out).
  destruct (push_spec get as_str as_bool from_value to_value o m ltac:(lia) ltac:(lia))
    as [_ _ (dc & dd & Hdc & Hdd & _ & _ & Hcap & _ & Ed)].
  destruct (decide (dd = 0)) as [->|]; [|rewrite <- Hc; apply Hcap; lia].
  exfalso. apply Hne. rewrite Ed. unfold saturating_add. lia.
Qed.
End Properties.

(** A concrete message type. *)
Inductive sample_value :=
| SStr (s : string)
| SBool (b : bool)
| SMsg (m : MouseMoveRelativeMsg) (in_proximity touching : bool).

#[global] Instance relative_eq_dec : EqDecision MouseMoveRelativeMsg.
Proof. solve_decision. Defined.
#[global] Instance sample_value_eq_dec : EqDecision sample_value.
Proof. solve_decision. Defined.

Definition sample_get (v : sample_value) (key : string) : option sample_value :=
  match v with
  | SMsg m prox touch =>
    if decide (key = "type"%string) then Some (SStr (msg_type m))
    else if decide (key = "coalescable"%string) then Some (SBool (coalescable m))
    else if decide (key = "in_proximity"%string) then Some (SBool prox)
    else if decide (key = "touching"%string) then Some (SBool touch)
    else None
  | _ => None
  end.
Definition sample_str (v : sample_value) : option string := match v with SStr s => Some s | _ => None end.
Definition sample_bool (v : sample_value) : option bool := match v with SBool b => Some b | _ => None end.
Definition sample_from (v : sample_value) : option MouseMoveRelativeMsg :=
  match v with SMsg m _ _ => Some m | _ => None end.
Definition sample_to (m : MouseMoveRelativeMsg) : option sample_value := Some (SMsg m false false).

Definition sample_message (t : string) (x y : Z) (touch : bool) : sample_value :=
  SMsg (mkRelative t x y 0 0 true) true touch.
Definition sample_pushes : list OutboxOp :=
  [OPush (sample_message MOUSE_MOVE_RELATIVE 3 4 false); OPush (sample_message "mouse_button" 0 0 false);
   OPop; OPush (sample_message MOUSE_MOVE_RELATIVE 1 2 false);
   OPush (sample_message MOUSE_MOVE_RELATIVE 10 20 false)].

Lemma outbox_preserves_input_witness :
  total_delta sample_from dx
    (let r := outbox_run sample_get sample_str sample_bool sample_from sample_to sample_pushes in
     r.2 ++ pending r.1) = 14.
Proof.
  destruct (outbox_preserves_input sample_get sample_str sample_bool sample_from sample_to sample_pushes)
    as (_ & _ & _ & H & _); [intros m v [= <-]; reflexivity|vm_compute; discriminate|].
  cbv zeta. rewrite H. reflexivity.
Defined.

Lemma outbox_accounts_for_messages_witness :
  let r := outbox_run sample_get sample_str sample_bool sample_from sample_to sample_pushes in
  len (r.2 ++ pending r.1) + coalesced r.1 + pen_contact_decimated r.1 = 4 /\
  coalesced r.1 = 1.
Proof.
  destruct (outbox_accounts_for_messages sample_get sample_str sample_bool sample_from sample_to sample_pushes
              (SBool true)) as (H & _); [vm_compute; discriminate|].
  cbv zeta. split; [rewrite H; reflexivity|reflexivity].
Defined.
