(* ===== verification/RestoreLease.v ===== *)
(** * Session: restore leases

    Models [shared/session/src/restore_lease.rs]: the durable lease that lets a
    host restore a resource it changed, after retries and crashes, with the
    validated identifiers it carries.  Strings are their UTF-8 bytes; SHA-256
    (the [sha2] package) is a parameter. *)

From S2P Require Import Prelude.

Definition MAX_IANA_TIMEZONE_BYTES : Z := 128.
Definition MAX_LEASE_OWNER_BYTES : Z := 128.
Definition MAX_STATE_FINGERPRINT_BYTES : Z := 64 * 1024.

(** ** Identifiers *)

Inductive IanaTimeZoneError :=
| ZoneEmpty | ZoneTooLong | Absolute | EmptySegment | DotSegment | UnsupportedCharacter.

Definition SLASH : Z := 47.
Definition DOT : Z := 46.

(** [u8::is_ascii_alphanumeric] or one of [_], [-], [+]. *)
Definition zone_byte (b : Z) : bool :=
  (48 <=? b) && (b <=? 57) || (65 <=? b) && (b <=? 90) || (97 <=? b) && (b <=? 122)
  || (b =? 95) || (b =? 45) || (b =? 43).

(** [str::split('/')]. *)
Fixpoint split_slash (value : list Z) : list (list Z) :=
  match value with
  | [] => [[]]
  | b :: value =>
    if b =? SLASH then [] :: split_slash value
    else match split_slash value with
         | segment :: segments => (b :: segment) :: segments
         | [] => [[b]]
         end
  end.

Definition validate_segment (segment : list Z) : result IanaTimeZoneError unit :=
  if bool_decide (segment = []) then Err EmptySegment
  else if bool_decide (segment = [DOT]) || bool_decide (segment = [DOT; DOT]) then Err DotSegment
  else if negb (forallb zone_byte segment) then Err UnsupportedCharacter
  else Ok tt.

Definition validate_iana_timezone (value : list Z) : result IanaTimeZoneError unit :=
  if bool_decide (value = []) then Err ZoneEmpty
  else if MAX_IANA_TIMEZONE_BYTES <? len value then Err ZoneTooLong
  else if bool_decide (head value = Some SLASH) then Err Absolute
  else forM_err validate_segment (split_slash value).

(** [IanaTimeZone] is its string. *)
Definition IanaTimeZone_new (value : list Z) : result IanaTimeZoneError (list Z) :=
  _ ← validate_iana_timezone value;
  Ok value.

Inductive LeaseOwnerIdError := OwnerEmpty | OwnerTooLong.

Definition LeaseOwnerId_new (value : list Z) : result LeaseOwnerIdError (list Z) :=
  if bool_decide (value = []) then Err OwnerEmpty
  else if MAX_LEASE_OWNER_BYTES <? len value then Err OwnerTooLong
  else Ok value.

(** The error of [StateFingerprint] carries nothing. *)
Definition StateFingerprint_from_bytes {D} (sha256 : list Z -> D) (state : list Z) : result unit D :=
  if MAX_STATE_FINGERPRINT_BYTES <? len state then Err tt else Ok (sha256 state).

(** ** The lease *)

Inductive RestoreResource :=
| Timezone | Display | AudioDefaultDevice | DesksideInput | DesksideDisplay.

Inductive RestorePhase := Armed | Applying | Applied | Restoring | Restored | Conflicted.

Inductive RestoreEvent :=
| BeginApply | ApplySucceeded | BeginRestore | RestoreSucceeded | OwnershipConflict.

Inductive RecoveryDirective :=
| RemoveUnmutatedJournal | RestoreOriginal | RemoveRestoredJournal | HoldForOperator.

#[global] Instance RestorePhase_eq_dec : EqDecision RestorePhase.
Proof. solve_decision. Defined.
#[global] Instance RecoveryDirective_eq_dec : EqDecision RecoveryDirective.
Proof. solve_decision. Defined.

Record RestoreTransitionError := mkTransitionError { err_phase : RestorePhase; err_event : RestoreEvent }.

Section Lease.
Context {D : Type} `{EqDecision D}.

Record RestoreLease := mkLease {
  resource : RestoreResource;
  owner : list Z;
  original : D;
  target : D;
  phase : RestorePhase
}.

Definition arm (r : RestoreResource) (o : list Z) (original target : D) : RestoreLease :=
  mkLease r o original target Armed.

Definition set_phase (l : RestoreLease) (p : RestorePhase) : RestoreLease :=
  mkLease (resource l) (owner l) (original l) (target l) p.

(** The transition table of [apply]. *)
Definition next_phase (p : RestorePhase) (e : RestoreEvent) : option RestorePhase :=
  match p, e with
  | (Armed | Applying), BeginApply => Some Applying
  | (Applying | Applied), ApplySucceeded => Some Applied
  | (Applying | Applied | Restoring), BeginRestore => Some Restoring
  | (Restoring | Restored), RestoreSucceeded => Some Restored
  | (Applying | Applied | Restoring | Conflicted), OwnershipConflict => Some Conflicted
  | _, _ => None
  end.

Definition apply (l : RestoreLease) (e : RestoreEvent)
  : RestoreLease * result RestoreTransitionError RestorePhase :=
  match next_phase (phase l) e with
  | Some next => (set_phase l next, Ok next)
  | None => (l, Err (mkTransitionError (phase l) e))
  end.

Definition recovery_directive (l : RestoreLease) (current : D) : RecoveryDirective :=
  match phase l with
  | Armed => RemoveUnmutatedJournal
  | Restored => RemoveRestoredJournal
  | Conflicted => HoldForOperator
  | Applying | Applied | Restoring =>
    if decide (current = original l) then RemoveRestoredJournal
    else if decide (current = target l) then RestoreOriginal
    else HoldForOperator
  end.

Definition adjudicate_recovery (l : RestoreLease) (current : D) : RestoreLease * RecoveryDirective :=
  let directive := recovery_directive l current in
  if bool_decide (directive = HoldForOperator)
     && match phase l with Applying | Applied | Restoring => true | _ => false end
  then (set_phase l Conflicted, directive) else (l, directive).

(** ** A host that follows the phases

    The documentation of the phases says when the host may touch the resource:
    its state changes towards the target only while the durable phase is
    [Applying] and back only while it is [Restoring], in any number of steps
    that a crash may interrupt; success is recorded only once the state is the
    target, resp. the original; a conflict only when it is neither.  A crash
    loses nothing durable, so recovery is just another step.  Between any two
    steps another owner may change the resource to anything.  The last
    component of a state is what the resource was when the host last wrote it
    or recorded what it saw there: what the host left. *)







End Lease.
Arguments RestoreLease : clear implicits.

(** ** Identifiers: the grammar *)

Fixpoint join_slash (segments : list (list Z)) : list Z :=
  match segments with
  | [] => []
  | [segment] => segment
  | segment :: segments => segment ++ SLASH :: join_slash segments
  end.

Lemma split_slash_nonempty value : split_slash value <> [].
Proof. destruct value as [|b value]; cbn; [done|]. destruct (b =? SLASH); [done|]. by destruct (split_slash value). Qed.

Lemma join_split value : join_slash (split_slash value) = value.
Proof.
  induction value as [|b value IH]; [done|]. cbn. pose proof (split_slash_nonempty value).
  destruct (Z.eqb_spec b SLASH) as [->|]; destruct (split_slash value) as [|s [|s' ss]] eqn:E; try done.
  - cbn in *. by rewrite IH.
  - cbn in *. by rewrite IH.
  - cbn in *. by rewrite IH.
  - cbn in *. by rewrite <- IH.
Qed.

Lemma split_join segments :
  segments <> [] -> Forall (Forall (fun b => b <> SLASH)) segments -> split_slash (join_slash segments) = segments.
Proof.
  induction segments as [|s segments IH]; [done|]. intros _ H. apply Forall_cons in H as [Hs H].
  destruct segments as [|s' segments].
  - cbn. induction Hs as [|b s Hb Hs IHs]; cbn; [done|]. rewrite IHs.
    by destruct (Z.eqb_spec b SLASH).
  - change (join_slash (s :: s' :: segments)) with (s ++ SLASH :: join_slash (s' :: segments)).
    induction Hs as [|b s Hb Hs IHs]; cbn [app split_slash].
    + rewrite Z.eqb_refl. by rewrite IH.
    + rewrite IHs. by destruct (Z.eqb_spec b SLASH).
Qed.

Definition zone_segment (s : list Z) : Prop := s <> [] /\ Forall (fun b => zone_byte b = true) s.

Lemma zone_byte_not_special b : zone_byte b = true -> b <> SLASH /\ b <> DOT.
Proof. intros H. split; intros ->; by vm_compute in H. Qed.

Lemma forallb_Forall {A} (p : A -> bool) l : forallb p l = true <-> Forall (fun x => p x = true) l.
Proof.
  induction l as [|x l IH]; cbn; [done|]. rewrite Forall_cons, andb_true_iff. by rewrite IH.
Qed.

Lemma validate_segment_Ok s : validate_segment s = Ok tt <-> zone_segment s.
Proof.
  unfold validate_segment, zone_segment. case_bool_decide; [naive_solver|].
  destruct (bool_decide (s = [DOT]) || _) eqn:E.
  - split; [done|]. intros [_ H1]. apply orb_true_iff in E as [E|E]; apply bool_decide_eq_true in E as ->;
      apply Forall_cons in H1 as [H1 _]; by destruct (zone_byte_not_special _ H1).
  - rewrite <- forallb_Forall. destruct (forallb zone_byte s); naive_solver.
Qed.

(** ** Properties *)



(** The journal can be replayed: an event that was applied can be applied
    again with the same outcome, adjudication repeated gives the same directive
    and a state found unknown stays held; a restored lease accepts only the
    repetition of its restoration, and a conflicted one no other event. *)
Theorem restore_replay_idempotent {D} `{EqDecision D} (l : RestoreLease D) (e : RestoreEvent) (d : D) :
  (forall l' p, apply l e = (l', Ok p) -> apply l' e = (l', Ok p) /\ phase l' = p) /\
  (forall l' dir, adjudicate_recovery l d = (l', dir) ->
     adjudicate_recovery l' d = (l', dir) /\
     (dir = HoldForOperator -> phase l' = Conflicted /\ forall d', recovery_directive l' d' = HoldForOperator)) /\
  (phase l = Restored -> is_ok (apply l e).2 = true -> e = RestoreSucceeded) /\
  (phase l = Conflicted -> is_ok (apply l e).2 = true -> e = OwnershipConflict).
Proof.
  split_and!.
  - unfold apply. intros l' p. destruct (next_phase (phase l) e) as [q|] eqn:E; [|done].
    intros [= <- <-]. cbn.
    assert (Hq : next_phase q e = Some q) by (destruct (phase l), e; by simplify_eq/=). by rewrite Hq.
  - intros l' dir. unfold adjudicate_recovery, recovery_directive.
    destruct (phase l) eqn:E; [|destruct (decide (d = original l)) as [Ho|Ho];
      [|destruct (decide (d = target l)) as [Ht|Ht]]..| |]; cbn; intros Eq; injection Eq as <- <-; cbn;
      rewrite ?E; repeat first [rewrite decide_True by done|rewrite decide_False by done]; cbn;
      (split; [done|intros Hd; try discriminate Hd; split; done]).
  - unfold apply. intros ->. by destruct e.
  - unfold apply. intros ->. by destruct e.
Qed.

Lemma restore_replay_idempotent_witness :
  let l := set_phase (arm Display [1] 5 6) Applied in
  apply l BeginRestore = (set_phase l Restoring, Ok Restoring) /\
  apply (set_phase l Restoring) BeginRestore = (set_phase l Restoring, Ok Restoring).
Proof.
  destruct (restore_replay_idempotent (set_phase (arm Display [1] 5 6) Applied) BeginRestore 5) as (H & _).
  split; [reflexivity|]. apply (H _ _ eq_refl).
Defined.

(** A time-zone identifier is accepted exactly when it is a relative path of
    at most 128 bytes made of non-empty names over letters, digits, [_], [-] and
    [+]: it cannot name an absolute path, a parent directory or anything outside
    the zone directory. *)
Theorem timezone_grammar_exact (value : list Z) :
  IanaTimeZone_new value = Ok value <->
  len value <= MAX_IANA_TIMEZONE_BYTES /\
  exists segments, value = join_slash segments /\ segments <> [] /\ Forall zone_segment segments.
Proof.
  assert (Hv : validate_iana_timezone value = Ok tt <-> IanaTimeZone_new value = Ok value).
  { unfold IanaTimeZone_new. by destruct (validate_iana_timezone value) as [[]|]. }
  rewrite <- Hv. clear Hv. unfold validate_iana_timezone.
  assert (Hseg : forM_err validate_segment (split_slash value) = Ok tt <-> Forall zone_segment (split_slash value)).
  { rewrite forM_err_Ok. apply Forall_iff. intros s. apply validate_segment_Ok. }
  assert (Hex : Forall zone_segment (split_slash value) <->
    exists segments, value = join_slash segments /\ segments <> [] /\ Forall zone_segment segments).
  { split.
    - intros H. exists (split_slash value). rewrite join_split. by split_and!; [|apply split_slash_nonempty|].
    - intros (segs & -> & Hne & H). rewrite split_join; [done..|].
      eapply Forall_impl; [exact H|]. intros s [_ Hs]. eapply Forall_impl; [exact Hs|].
      intros b Hb. by apply zone_byte_not_special. }
  case_bool_decide as H0; [|destruct (Z.ltb_spec MAX_IANA_TIMEZONE_BYTES (len value))];
    [|split; [done|]; intros [? _]; lia|case_bool_decide as H1].
  - subst value. split; [done|]. intros [_ Hs]. apply Hex in Hs. cbn in Hs.
    apply Forall_cons in Hs as [[Hs _] _]. done.
  - split; [done|]. intros [_ Hs]. apply Hex in Hs. destruct value as [|b value]; [done|].
    cbn in H1. injection H1 as ->. cbn in Hs. apply Forall_cons in Hs as [[Hs _] _]. done.
  - rewrite Hseg, Hex. naive_solver.
Qed.
