(* ===== verification/AnnexB.v ===== *)
(** * Media: access units as NAL units

    Models [shared/media/src/annexb.rs]: walking length-prefixed samples and
    Annex B access units, rewriting the first as the second, and classifying
    NAL units by the negotiated codec.  Visiting a unit with a closure becomes
    the list of the units visited, in order; the loops carry fuel. *)

From S2P Require Import Prelude.

Inductive NalCodec := H264 | H265.

Definition START_CODE : list Z := [0; 0; 0; 1].

Definition nal_is_irap (nal : list Z) (codec : NalCodec) : bool :=
  match codec with
  | H264 =>
    match nal with
    | [] => false
    | header :: body =>
      if negb (Z.land header 0x80 =? 0) || bool_decide (body = []) then false
      else
        let nal_ref_idc := Z.land (Z.shiftr header 5) 0x03 in
        (Z.land header 0x1F =? 5) && negb (nal_ref_idc =? 0)
    end
  | H265 =>
    if len nal <? 3 then false
    else
      let nal_type := Z.land (Z.shiftr (byte_at nal 0) 1) 0x3F in
      let temporal_id_plus_one := Z.land (byte_at nal 1) 0x07 in
      if negb (Z.land (byte_at nal 0) 0x80 =? 0) || (temporal_id_plus_one =? 0) || (47 <? nal_type)
      then false
      else (16 <=? nal_type) && (nal_type <=? 21) && (temporal_id_plus_one =? 1)
  end.

Definition nal_is_parameter_set (nal : list Z) (codec : NalCodec) : bool :=
  match nal with
  | [] => false
  | header :: _ =>
    match codec with
    | H264 =>
      (Z.land header 0x80 =? 0)
      && ((Z.land header 0x1F =? 7) || (Z.land header 0x1F =? 8))
      && negb (Z.land (Z.shiftr header 5) 0x03 =? 0)
    | H265 =>
      let nal_type := Z.land (Z.shiftr header 1) 0x3F in
      (Z.land header 0x80 =? 0) && ((32 <=? nal_type) && (nal_type <=? 34))
    end
  end.

(** The loop of [for_each_length_prefixed]. *)
Fixpoint length_prefixed_loop (fuel : nat) (sample : list Z) (offset : Z) : option (list (list Z)) :=
  match fuel with
  | O => None
  | S fuel =>
    if offset + 4 <=? len sample then
      let length := from_be (slice sample offset (offset + 4)) in
      let offset := offset + 4 in
      match checked_add usize_bits offset length with
      | None => Some []
      | Some end_ =>
        if (length =? 0) || (len sample <? end_) then Some []
        else
          rest ← length_prefixed_loop fuel sample end_;
          Some (slice sample offset end_ :: rest)
      end
    else Some []
  end.

Definition for_each_length_prefixed (sample : list Z) : option (list (list Z)) :=
  length_prefixed_loop (S (length sample)) sample 0.

Definition append_length_prefixed_as_annex_b (out sample : list Z) : option (list Z) :=
  nals ← for_each_length_prefixed sample;
  Some (foldl (fun out nal => out ++ START_CODE ++ nal) out nals).

Definition length_prefixed_is_keyframe (sample : list Z) (codec : NalCodec) : option bool :=
  nals ← for_each_length_prefixed sample;
  Some (foldl (fun found nal => if negb found && nal_is_irap nal codec then true else found) false nals).

(** [starts_with] on the rest of the data. *)
Definition start_code_prefix (l : list Z) : option Z :=
  if bool_decide (take 4 l = [0; 0; 0; 1]) then Some 4
  else if bool_decide (take 3 l = [0; 0; 1]) then Some 3
  else None.

Definition start_code_len (data : list Z) (index : Z) : option Z :=
  start_code_prefix (slice_from data index).

(** The scan for the next start code, or the end of the data. *)
Definition scan_start_code (data : list Z) (index : Z) : option Z :=
  while_fuel (S (length data))
    (fun scan => (scan <? len data) && negb (is_some (start_code_len data scan)))
    (fun scan => scan + 1) index.

Fixpoint annex_b_loop (fuel : nat) (data : list Z) (index : Z) : option (list (list Z)) :=
  match fuel with
  | O => None
  | S fuel =>
    if index <? len data then
      scan ← scan_start_code data index;
      let '(end_, next) :=
        if scan <? len data
        then match start_code_len data scan with
             | Some prefix => (scan, scan + prefix)
             | None => (len data, len data)
             end
        else (len data, len data) in
      let visited := if index <? end_ then [slice data index end_] else [] in
      if next <=? index then Some visited
      else
        rest ← annex_b_loop fuel data next;
        Some (visited ++ rest)
    else Some []
  end.

Definition for_each_annex_b (data : list Z) : option (list (list Z)) :=
  first ← scan_start_code data 0;
  let index :=
    if first <? len data
    then match start_code_len data first with Some prefix => first + prefix | None => first end
    else first in
  annex_b_loop (S (length data)) data index.

Definition annex_b_is_keyframe (data : list Z) (codec : NalCodec) : option bool :=
  nals ← for_each_annex_b data;
  Some (foldl (fun found nal => if negb found && nal_is_irap nal codec then true else found) false nals).

(** ** Lemmas: length-prefixed samples *)

(** A unit as the encoders write it. *)
Definition prefixed (nal : list Z) : list Z := to_be 4 (len nal) ++ nal.

Definition unit_ok (nal : list Z) : Prop := nal <> [] /\ len nal < 2 ^ 32.

(** Nothing that starts with a complete unit. *)
Definition stops (rest : list Z) : Prop :=
  ~ exists nal rest', unit_ok nal /\ rest = prefixed nal ++ rest'.

Lemma len_prefixed nal : len (prefixed nal) = 4 + len nal.
Proof. unfold prefixed. by rewrite len_app, len_to_be. Qed.

Lemma slice_app_l {A} (pre l post : list A) a b :
  0 <= a <= b -> b <= len l -> slice (pre ++ l ++ post) (len pre + a) (len pre + b) = slice l a b.
Proof.
  intros H1 H2. unfold slice, len in *.
  replace (Z.to_nat (Z.of_nat (length pre) + a)) with (length pre + Z.to_nat a)%nat by lia.
  replace (Z.to_nat (Z.of_nat (length pre) + b - (Z.of_nat (length pre) + a))) with (Z.to_nat (b - a)) by lia.
  rewrite <- drop_drop, drop_app_length, drop_app_le by lia.
  rewrite take_app_le by (rewrite length_drop; lia). done.
Qed.

Lemma slice_all {A} (l : list A) : slice l 0 (len l) = l.
Proof. unfold slice, len. cbn. rewrite drop_0, Z.sub_0_r, Nat2Z.id. by rewrite firstn_all. Qed.

Lemma len_pos {A} (l : list A) : l <> [] -> 0 < len l.
Proof. destruct l; [done|]. intros _. rewrite len_cons. pose proof (len_nonneg l). lia. Qed.

(** One iteration on the data from [pre] on. *)
Lemma length_prefixed_step fuel pre nal suf :
  unit_ok nal -> len (pre ++ prefixed nal ++ suf) <= umax 64 ->
  length_prefixed_loop (S fuel) (pre ++ prefixed nal ++ suf) (len pre) =
    (rest ← length_prefixed_loop fuel (pre ++ prefixed nal ++ suf) (len (pre ++ prefixed nal)); Some (nal :: rest)).
Proof.
  intros [Hne Hlen] Hmax. apply len_pos in Hne as Hpos. cbn [length_prefixed_loop].
  rewrite !len_app, len_prefixed in *. pose proof (len_nonneg pre). pose proof (len_nonneg suf).
  rewrite (proj2 (Z.leb_le _ _)) by lia. cbv zeta.
  replace (slice (pre ++ prefixed nal ++ suf) (len pre) (len pre + 4)) with (to_be 4 (len nal)).
  2:{ pose proof (slice_app_l pre (prefixed nal) suf 0 4 ltac:(lia) ltac:(rewrite len_prefixed; lia)) as E.
      rewrite Z.add_0_r in E. rewrite E. unfold prefixed, slice.
      change (Z.to_nat (4 - 0)) with 4%nat. change (Z.to_nat 0) with 0%nat. rewrite drop_0.
      by rewrite take_app_length' by (by rewrite to_be_length). }
  rewrite from_to_be_small by (unfold in_width, umax; lia).
  unfold checked_add. rewrite (proj2 (Z.leb_le _ _)) by (unfold usize_bits in *; lia).
  destruct (Z.eqb_spec (len nal) 0); [lia|]. destruct (Z.ltb_spec (len pre + (4 + len nal + len suf)) (len pre + 4 + len nal)); [lia|].
  cbn [orb]. replace (len pre + 4 + len nal) with (len pre + (4 + len nal)) by lia.
  replace (slice (pre ++ prefixed nal ++ suf) (len pre + 4) (len pre + (4 + len nal))) with nal; [done|].
  rewrite slice_app_l by (rewrite ?len_prefixed; lia). unfold prefixed, slice.
  rewrite drop_app_length' by (by rewrite to_be_length).
  rewrite take_ge; [done|]. unfold len. lia.
Qed.

(** The length field of the next unit. *)
Definition next_length (suf : list Z) : Z := from_be (take 4 suf).

Definition has_unit (suf : list Z) : bool :=
  (4 <=? len suf) && (0 <? next_length suf) && (4 + next_length suf <=? len suf).

Lemma has_unit_prefixed nal rest : unit_ok nal -> has_unit (prefixed nal ++ rest) = true.
Proof.
  intros [Hne Hlen]. apply len_pos in Hne. unfold has_unit, next_length.
  assert (E : take 4 (prefixed nal ++ rest) = to_be 4 (len nal)).
  { unfold prefixed. rewrite <- app_assoc. by rewrite take_app_length' by (by rewrite to_be_length). }
  rewrite E, from_to_be_small by (unfold in_width; lia). rewrite len_app, len_prefixed.
  pose proof (len_nonneg rest). lia.
Qed.

Lemma has_unit_split suf :
  Forall is_u8 suf -> has_unit suf = true ->
  exists nal rest, unit_ok nal /\ suf = prefixed nal ++ rest /\ len nal = next_length suf.
Proof.
  intros Hb H. unfold has_unit in H.
  assert (Hl : 4 <= len suf /\ 0 < next_length suf /\ 4 + next_length suf <= len suf) by lia.
  destruct Hl as (H4 & Hn & Hr).
  assert (Ht : length (take 4 suf) = 4%nat) by (rewrite length_take; unfold len in *; lia).
  assert (Hu : Forall is_u8 (take 4 suf)) by (by apply Forall_take).
  pose proof (from_be_width 4 _ Ht Hu) as Hw. fold (next_length suf) in Hw.
  exists (take (Z.to_nat (next_length suf)) (drop 4 suf)), (drop (Z.to_nat (next_length suf)) (drop 4 suf)).
  assert (El : len (take (Z.to_nat (next_length suf)) (drop 4 suf)) = next_length suf).
  { unfold len in *. rewrite length_take, length_drop. lia. }
  split_and!; [split| |done].
  - intros E. rewrite E in El. change (len []) with 0 in El. lia.
  - rewrite El. apply Hw.
  - unfold prefixed. rewrite El, <- app_assoc, take_drop. unfold next_length.
    rewrite to_be_from_be by done. by rewrite take_drop.
Qed.

Lemma stops_has_unit suf : Forall is_u8 suf -> stops suf <-> has_unit suf = false.
Proof.
  intros Hb. split.
  - intros Hs. destruct (has_unit suf) eqn:E; [|done]. exfalso. apply Hs.
    destruct (has_unit_split suf Hb E) as (nal & rest & Hn & -> & _). by exists nal, rest.
  - intros E (nal & rest & Hn & ->). by rewrite has_unit_prefixed in E.
Qed.

Lemma length_prefixed_stop fuel pre suf :
  Forall is_u8 suf -> stops suf -> len (pre ++ suf) <= umax 64 ->
  length_prefixed_loop (S fuel) (pre ++ suf) (len pre) = Some [].
Proof.
  intros Hb Hs Hmax. apply stops_has_unit in Hs; [|done]. unfold has_unit in Hs.
  cbn [length_prefixed_loop]. rewrite len_app in *. pose proof (len_nonneg pre).
  destruct (Z.leb_spec (len pre + 4) (len pre + len suf)); [|done]. cbv zeta.
  replace (from_be (slice (pre ++ suf) (len pre) (len pre + 4))) with (next_length suf).
  2:{ pose proof (slice_app_l pre suf [] 0 4 ltac:(lia) ltac:(lia)) as E.
      rewrite Z.add_0_r, app_nil_r in E. rewrite E. unfold next_length, slice.
      change (Z.to_nat (4 - 0)) with 4%nat. change (Z.to_nat 0) with 0%nat. by rewrite drop_0. }
  assert (Ht : length (take 4 suf) = 4%nat) by (rewrite length_take; unfold len in *; lia).
  pose proof (from_be_width 4 _ Ht (Forall_take _ _ _ Hb)) as Hw. fold (next_length suf) in Hw.
  unfold in_width in Hw. unfold checked_add.
  destruct (_ <=? umax usize_bits); [|done].
  destruct (Z.eqb_spec (next_length suf) 0); [done|].
  destruct (Z.ltb_spec (len pre + len suf) (len pre + 4 + next_length suf)); [done|]. exfalso. lia.
Qed.

(** The walk visits the longest sequence of complete units. *)
Lemma length_prefixed_spec nals rest : forall fuel pre,
  Forall unit_ok nals -> Forall is_u8 rest -> stops rest ->
  len (pre ++ concat (map prefixed nals) ++ rest) <= umax 64 -> (length nals < fuel)%nat ->
  length_prefixed_loop fuel (pre ++ concat (map prefixed nals) ++ rest) (len pre) = Some nals.
Proof.
  induction nals as [|nal nals IH]; intros fuel pre Hok Hb Hs Hmax Hf; (destruct fuel as [|fuel]; [cbn in Hf; lia|]).
  - cbn [map concat app] in *. by apply length_prefixed_stop.
  - apply Forall_cons in Hok as [Hn Hok]. cbn [map concat] in *. rewrite <- app_assoc in *.
    rewrite length_prefixed_step by done. rewrite app_assoc in *.
    rewrite IH; [done..|]. cbn in Hf. lia.
Qed.

Lemma length_prefixed_split suf :
  Forall is_u8 suf ->
  exists nals rest, suf = concat (map prefixed nals) ++ rest /\ Forall unit_ok nals /\
    Forall is_u8 rest /\ stops rest.
Proof.
  remember (length suf) as n eqn:En. revert suf En.
  induction n as [n IH] using lt_wf_ind. intros suf -> Hb.
  destruct (has_unit suf) eqn:E.
  - destruct (has_unit_split suf Hb E) as (nal & rest & Hn & -> & _).
    apply Forall_app in Hb as [_ Hb].
    destruct (IH (length rest)) with (suf := rest) as (nals & rest' & -> & Hok & Hr & Hs);
      [rewrite length_app|done..|].
    + pose proof (len_prefixed nal) as Hl. unfold len in Hl. lia.
    + exists (nal :: nals), rest'. cbn. rewrite <- app_assoc. by split_and!; [|constructor|..].
  - exists [], suf. split_and!; [done..|]. by apply stops_has_unit.
Qed.

Lemma concat_length_ge {A B} (f : A -> list B) l :
  (forall x, x ∈ l -> f x <> []) -> (length l <= length (concat (map f l)))%nat.
Proof.
  induction l as [|x l IH]; intros H; [cbn; lia|]. cbn. rewrite length_app.
  assert (f x <> []) by (apply H; left). destruct (f x); [done|]. cbn.
  specialize (IH ltac:(intros y Hy; apply H; by right)). lia.
Qed.

Lemma prefixed_nonempty nal : prefixed nal <> [].
Proof. intros E. pose proof (len_prefixed nal). rewrite E in H. pose proof (len_nonneg nal). change (len []) with 0 in H. lia. Qed.

Lemma for_each_length_prefixed_spec nals rest :
  Forall unit_ok nals -> Forall is_u8 rest -> stops rest ->
  len (concat (map prefixed nals) ++ rest) <= umax 64 ->
  for_each_length_prefixed (concat (map prefixed nals) ++ rest) = Some nals.
Proof.
  intros Hok Hb Hs Hmax. unfold for_each_length_prefixed.
  apply (length_prefixed_spec nals rest _ []); try done.
  rewrite length_app. pose proof (concat_length_ge prefixed nals ltac:(intros; apply prefixed_nonempty)). lia.
Qed.

(** ** Lemmas: Annex B *)

(** What an encoder may put between start codes: no start code inside, and no
    trailing zero that would lengthen the next one. *)
Definition nal_ok (nal : list Z) : Prop :=
  nal <> [] /\ last nal <> Some 0 /\
  forall k, 0 <= k < len nal -> start_code_len nal k = None.

Definition annex_b (nals : list (list Z)) : list Z := concat (map (fun nal => START_CODE ++ nal) nals).

Lemma start_code_prefix_app s nals :
  s <> [] -> last s <> Some 0 -> start_code_prefix s = None ->
  start_code_prefix (s ++ annex_b nals) = None.
Proof.
  intros Hne Hl Hs. unfold start_code_prefix in *.
  destruct s as [|a [|b [|c [|d s]]]]; [done|..];
    cbn [app take] in *; rewrite ?take_0 in *.
  4:{ exact Hs. }
  all: repeat case_bool_decide; try done; exfalso; apply Hl;
    match goal with H : _ :: _ = [0; 0; _] |- _ => injection H | H : _ :: _ = [0; 0; 0; 1] |- _ => injection H end;
    intros; subst; cbn; congruence || (exfalso; congruence) || idtac.
  all: naive_solver.
Qed.

Lemma start_code_len_app pre l k : 0 <= k -> start_code_len (pre ++ l) (len pre + k) = start_code_len l k.
Proof.
  intros Hk. unfold start_code_len, slice_from. f_equal. unfold len.
  replace (Z.to_nat (Z.of_nat (length pre) + k)) with (length pre + Z.to_nat k)%nat by lia.
  by rewrite <- drop_drop, drop_app_length.
Qed.

Lemma start_code_len_nal nal nals k :
  nal_ok nal -> 0 <= k < len nal -> start_code_len (nal ++ annex_b nals) k = None.
Proof.
  intros (Hne & Hl & Hk) Hr. specialize (Hk k Hr). unfold start_code_len, slice_from in *.
  rewrite drop_app_le by (unfold len in *; lia). apply start_code_prefix_app; [| |done].
  - intros E. apply (f_equal length) in E. rewrite length_drop in E. cbn in E. unfold len in Hr. lia.
  - intros E. apply Hl. apply last_Some in E as [l E].
    rewrite <- (take_drop (Z.to_nat k) nal), E, app_assoc. apply last_snoc.
Qed.

Lemma start_code_len_tail nal nals : start_code_len (annex_b (nal :: nals)) 0 = Some 4.
Proof. unfold start_code_len, slice_from, start_code_prefix. cbn. by rewrite ?take_0. Qed.

(** The scan from the start of a unit stops at its end. *)
Lemma scan_nal pre nal nals :
  nal_ok nal ->
  scan_start_code (pre ++ nal ++ annex_b nals) (len pre) = Some (len pre + len nal).
Proof.
  intros Hok. pose proof (len_nonneg pre). pose proof (len_nonneg nal). pose proof (len_nonneg (annex_b nals)).
  unfold scan_start_code. set (data := pre ++ nal ++ annex_b nals).
  assert (El : len data = len pre + (len nal + len (annex_b nals))) by (unfold data; by rewrite !len_app).
  destruct (while_scan (fun k => negb (is_some (start_code_len data k))) (len data) (len pre)
              (S (length data))) as (j & Ej & Hj & Hall & Hend); [lia|unfold len in *; lia|].
  rewrite Ej. f_equal.
  destruct (Z.lt_trichotomy j (len pre + len nal)) as [Hlt|[->|Hgt]]; [|done|].
  - specialize (Hend ltac:(lia)). replace j with (len pre + (j - len pre)) in Hend by lia.
    unfold data in Hend. rewrite start_code_len_app, start_code_len_nal in Hend by (done || lia). done.
  - specialize (Hall (len pre + len nal) ltac:(lia)). unfold data in Hall.
    destruct nals as [|n nals].
    + change (annex_b []) with (@nil Z) in *. change (len []) with 0 in *. lia.
    + rewrite app_assoc, <- len_app, <- (Z.add_0_r (len (pre ++ nal))), start_code_len_app,
        start_code_len_tail in Hall by lia. done.
Qed.

Lemma annex_b_loop_spec nals : forall fuel pre nal,
  Forall nal_ok (nal :: nals) -> (S (length nals) < fuel)%nat ->
  annex_b_loop fuel (pre ++ nal ++ annex_b nals) (len pre) = Some (nal :: nals).
Proof.
  induction nals as [|n nals IH]; intros fuel pre nal Hok Hf; (destruct fuel as [|fuel]; [lia|]);
    apply Forall_cons in Hok as [Hn Hok]; cbn [annex_b_loop]; rewrite scan_nal by done; cbn [mbind option_bind];
    pose proof (len_nonneg pre); pose proof (len_pos nal ltac:(apply Hn)).
  - change (annex_b []) with (@nil Z). rewrite app_nil_r, len_app.
    rewrite (proj2 (Z.ltb_lt _ _)), Z.ltb_irrefl, (proj2 (Z.ltb_lt _ _)), (proj2 (Z.leb_gt _ _)) by lia.
    destruct fuel as [|fuel]; [lia|]. cbn [annex_b_loop]. rewrite len_app, Z.ltb_irrefl. cbn.
    do 2 f_equal. pose proof (slice_app_l pre nal [] 0 (len nal) ltac:(lia) ltac:(lia)) as E.
    rewrite Z.add_0_r, app_nil_r in E. rewrite E. apply slice_all.
  - pose proof (len_nonneg (annex_b nals)) as Ha.
    assert (El : len (annex_b (n :: nals)) = 4 + len n + len (annex_b nals)).
    { unfold annex_b. cbn [map concat]. rewrite !len_app. done. }
    pose proof (len_nonneg n). rewrite !len_app, El.
    rewrite (proj2 (Z.ltb_lt _ _)), (proj2 (Z.ltb_lt _ _)) by lia.
    assert (Es : start_code_len (pre ++ nal ++ annex_b (n :: nals)) (len pre + len nal) = Some 4).
    { rewrite app_assoc, <- len_app, <- (Z.add_0_r (len (pre ++ nal))), start_code_len_app by lia.
      apply start_code_len_tail. }
    rewrite Es, (proj2 (Z.ltb_lt _ _)), (proj2 (Z.leb_gt _ _)) by lia.
    replace (pre ++ nal ++ annex_b (n :: nals)) with ((pre ++ nal ++ START_CODE) ++ n ++ annex_b nals) at 1.
    2:{ unfold annex_b. cbn [map concat]. by rewrite <- !app_assoc. }
    replace (len pre + len nal + 4) with (len (pre ++ nal ++ START_CODE)) by (rewrite !len_app; change (len START_CODE) with 4; lia).
    rewrite IH; [|done|cbn in Hf; lia]. cbn [mbind option_bind]. do 2 f_equal.
    pose proof (slice_app_l pre nal (annex_b (n :: nals)) 0 (len nal) ltac:(lia) ltac:(lia)) as E.
    rewrite Z.add_0_r in E. rewrite E. cbn [app]. f_equal. apply slice_all.
Qed.

Lemma for_each_annex_b_spec nals :
  Forall nal_ok nals -> for_each_annex_b (annex_b nals) = Some nals.
Proof.
  intros Hok. unfold for_each_annex_b. destruct nals as [|nal nals]; [done|].
  assert (E : scan_start_code (annex_b (nal :: nals)) 0 = Some 0).
  { unfold scan_start_code. cbn [while_fuel].
    by rewrite start_code_len_tail, andb_false_r. }
  rewrite E. cbn [mbind option_bind].
  assert (El : 0 < len (annex_b (nal :: nals))).
  { by apply len_pos. }
  rewrite (proj2 (Z.ltb_lt _ _)), start_code_len_tail by done.
  change (annex_b (nal :: nals)) with ((START_CODE ++ nal) ++ annex_b nals). rewrite <- app_assoc.
  apply (annex_b_loop_spec nals _ START_CODE nal); [done|].
  pose proof (concat_length_ge (fun nal => START_CODE ++ nal) nals ltac:(done)).
  rewrite !length_app. change (length START_CODE) with 4%nat. unfold annex_b. lia.
Qed.

Lemma found_existsb (p : list Z -> bool) nals b :
  foldl (fun found nal => if negb found && p nal then true else found) b nals = b || existsb p nals.
Proof.
  revert b. induction nals as [|nal nals IH]; intros b; cbn; [by rewrite orb_false_r|].
  rewrite IH. by destruct b, (p nal).
Qed.

Lemma append_annex_b out nals :
  foldl (fun out nal => out ++ START_CODE ++ nal) out nals = out ++ annex_b nals.
Proof.
  revert out. induction nals as [|nal nals IH]; intros out; cbn [foldl]; [by rewrite app_nil_r|].
  rewrite IH. unfold annex_b. cbn [map concat]. by rewrite <- !app_assoc.
Qed.

Lemma start_code_prefix_pos l p : start_code_prefix l = Some p -> 3 <= p.
Proof. unfold start_code_prefix. repeat case_match; intros; simplify_eq; lia. Qed.

Lemma scan_total data index :
  0 <= index <= len data -> exists j, scan_start_code data index = Some j /\ index <= j <= len data.
Proof.
  intros Hi. destruct (while_scan (fun k => negb (is_some (start_code_len data k))) (len data) index
    (S (length data))) as (j & Ej & Hj & _); [lia|unfold len in *; lia|]. by exists j.
Qed.

Lemma annex_b_loop_total data : forall fuel index,
  0 <= index -> len data - index < Z.of_nat fuel -> (0 < fuel)%nat ->
  exists nals, annex_b_loop fuel data index = Some nals /\ Forall (fun nal => nal <> []) nals.
Proof.
  induction fuel as [|fuel IH]; intros index Hi Hf Hpos; [lia|]. cbn [annex_b_loop].
  destruct (Z.ltb_spec index (len data)) as [Hlt|]; [|by exists []].
  destruct (scan_total data index ltac:(lia)) as (j & -> & Hj). cbn [mbind option_bind].
  destruct (if j <? len data then _ else _) as [end_ next] eqn:E.
  assert (Hen : index <= end_ <= len data /\ index < next).
  { destruct (Z.ltb_spec j (len data)); [|simplify_eq; lia].
    destruct (start_code_len data j) as [p|] eqn:Ep; simplify_eq; [|lia].
    apply start_code_prefix_pos in Ep. lia. }
  rewrite (proj2 (Z.leb_gt _ _)) by lia.
  destruct (IH next ltac:(lia) ltac:(lia)) as (nals & -> & Hn); [lia|].
  eexists. split; [reflexivity|]. apply Forall_app. split; [|done].
  destruct (Z.ltb_spec index end_); constructor; [|done].
  intros Es. apply (f_equal length) in Es. unfold slice, len in *.
  rewrite length_take, length_drop in Es. cbn in Es. lia.
Qed.

(** ** Properties *)

(** Walking a length-prefixed sample visits exactly the longest sequence of
    complete units it starts with, whatever the bytes: the walk ends, stays
    inside the sample, and stops at the first length that is zero or runs past
    the end. Walking any bytes as an Annex B access unit ends too, and visits no
    empty unit. *)
Theorem nal_walks_total (sample : list Z) :
  Forall is_u8 sample -> len sample <= umax 64 ->
  (exists nals rest, for_each_length_prefixed sample = Some nals /\
     sample = concat (map prefixed nals) ++ rest /\ Forall unit_ok nals /\ stops rest) /\
  (exists nals, for_each_annex_b sample = Some nals /\ Forall (fun nal => nal <> []) nals).
Proof.
  intros Hb Hmax. split.
  - destruct (length_prefixed_split sample Hb) as (nals & rest & -> & Hok & Hr & Hs).
    exists nals, rest. split; [|done]. by apply for_each_length_prefixed_spec.
  - unfold for_each_annex_b. destruct (scan_total sample 0) as (j & -> & Hj); [pose proof (len_nonneg sample); lia|].
    cbn [mbind option_bind]. apply annex_b_loop_total; [|unfold len in *|lia].
    + destruct (j <? len sample); [|lia]. destruct (start_code_len sample j) as [p|] eqn:Ep; [|lia].
      apply start_code_prefix_pos in Ep. lia.
    + destruct (j <? Z.of_nat (length sample)); [|lia]. destruct (start_code_len sample j) as [p|] eqn:Ep; [|lia].
      apply start_code_prefix_pos in Ep. lia.
Qed.

Lemma nal_walks_total_witness :
  exists nals rest, for_each_length_prefixed [0; 0; 0; 1; 7; 0; 0; 0; 9; 1] = Some nals /\
    nals = [[7]] /\ stops rest.
Proof.
  destruct (nal_walks_total [0; 0; 0; 1; 7; 0; 0; 0; 9; 1]) as [(nals & rest & E & _ & _ & Hs) _].
  - repeat constructor; lia.
  - vm_compute. discriminate.
  - exists nals, rest. split; [exact E|]. split; [|exact Hs]. vm_compute in E. by injection E as <-.
Defined.

(** Rewriting a length-prefixed sample as Annex B keeps its units: units
    that an encoder may emit come back one by one from the rewritten bytes, and
    the sample and the rewritten access unit are keyframes for the same codec,
    exactly when one of the units begins an intra refresh. *)
Theorem annex_b_rewrite_roundtrip (nals : list (list Z)) (codec : NalCodec) :
  Forall nal_ok nals -> Forall unit_ok nals -> len (concat (map prefixed nals)) <= umax 64 ->
  exists bytes, append_length_prefixed_as_annex_b [] (concat (map prefixed nals)) = Some bytes /\
    for_each_annex_b bytes = Some nals /\
    annex_b_is_keyframe bytes codec = Some (existsb (fun nal => nal_is_irap nal codec) nals) /\
    length_prefixed_is_keyframe (concat (map prefixed nals)) codec =
      Some (existsb (fun nal => nal_is_irap nal codec) nals).
Proof.
  intros Hok Hu Hmax.
  pose proof (for_each_length_prefixed_spec nals [] Hu ltac:(constructor)) as E. rewrite app_nil_r in E.
  assert (Hs : stops []).
  { intros (nal & rest & _ & En). symmetry in En. apply app_nil in En as [En _]. by apply prefixed_nonempty in En. }
  specialize (E Hs Hmax). exists (annex_b nals).
  unfold append_length_prefixed_as_annex_b, annex_b_is_keyframe, length_prefixed_is_keyframe.
  rewrite E, for_each_annex_b_spec by done. cbn [mbind option_bind].
  rewrite append_annex_b. split_and!; try done; f_equal; apply (found_existsb (fun nal => nal_is_irap nal codec)).
Qed.

Lemma annex_b_rewrite_roundtrip_witness :
  exists bytes, append_length_prefixed_as_annex_b [] (concat (map prefixed [[103; 1]; [101; 0; 128]])) = Some bytes /\
    bytes = [0; 0; 0; 1; 103; 1; 0; 0; 0; 1; 101; 0; 128] /\ annex_b_is_keyframe bytes H264 = Some true.
Proof.
  destruct (annex_b_rewrite_roundtrip [[103; 1]; [101; 0; 128]] H264) as (bytes & E & _ & H & _).
  - repeat constructor; try done; cbn; intros k Hk;
      assert (k = 0 \/ k = 1 \/ k = 2) as [-> | [-> | ->]] by (unfold len in Hk; cbn in Hk; lia); reflexivity.
  - repeat constructor; done.
  - vm_compute. discriminate.
  - exists bytes. split; [exact E|]. split; [|exact H]. vm_compute in E. by injection E as <-.
Defined.
