(* ===== verification/HevcSps.v ===== *)
(** * Media: what an HEVC stream really is

    Models [shared/media/src/hevc_sps.rs]: the bit reader, Exp-Golomb codes and
    the parser of the sequence parameter set up to the colour description.  The
    [u32] arithmetic is that of the release profile, which does not check for
    overflow.  The textual summary and the H.273 names are left out. *)

From stdpp Require Import strings.
From S2P Require Import Prelude AnnexB.

Record HevcColourDescription := mkColour { full_range : bool; primaries : Z; transfer : Z; matrix : Z }.

Record HevcStreamTruth := mkTruth {
  profile_idc : Z;
  level_idc : Z;
  chroma_format_idc : Z;
  bit_depth_luma : Z;
  bit_depth_chroma : Z;
  width : Z;
  height : Z;
  display_width : Z;
  display_height : Z;
  colour : option HevcColourDescription
}.

Inductive HevcSpsError := NotSps | Truncated | Invalid (field : string).

Definition SPS_NAL_TYPE : Z := 33.

(** ** The bit reader

    A parser takes the bit position and returns a value and the new position;
    an error ends the parse, as [?] does. *)

Definition Parser (A : Type) : Type := Z -> result HevcSpsError (A * Z).

#[global] Instance parser_ret : MRet Parser := fun A a pos => Ok (a, pos).
#[global] Instance parser_bind : MBind Parser :=
  fun A B k p pos => match p pos with Ok (a, pos) => k a pos | Err e => Err e end.

Definition fail {A} (e : HevcSpsError) : Parser A := fun _ => Err e.

(** A [for] loop of [n] rounds, with the values of its body. *)
Fixpoint repeat_parser {A} (n : nat) (p : Parser A) : Parser (list A) :=
  match n with
  | O => mret []
  | S n => x ← p; xs ← repeat_parser n p; mret (x :: xs)
  end.

(** A [for] loop over a list. *)
Fixpoint for_parser {A B} (p : A -> Parser B) (l : list A) : Parser (list B) :=
  match l with
  | [] => mret []
  | a :: l => x ← p a; xs ← for_parser p l; mret (x :: xs)
  end.

(** [u8::try_from(value).unwrap_or(u8::MAX)]. *)
Definition to_u8 (v : Z) : Z := if v <=? umax 8 then v else umax 8.

(** [u32] addition without overflow checks. *)
Definition add_u32 (a b : Z) : Z := wrapping 32 (a + b).

(** [unescape]. *)
Fixpoint unescape_loop (payload : list Z) (zeros : Z) : list Z :=
  match payload with
  | [] => []
  | byte :: payload =>
    if (2 <=? zeros) && (byte =? 3) then unescape_loop payload 0
    else byte :: unescape_loop payload (if byte =? 0 then zeros + 1 else 0)
  end.

Definition unescape (payload : list Z) : list Z := unescape_loop payload 0.

Section Bits.
Context (data : list Z).

Definition bit : Parser Z := fun position =>
  match read_at data (position / 8) with
  | None => Err Truncated
  | Some byte => Ok (Z.land (Z.shiftr byte (7 - position mod 8)) 1, position + 1)
  end.

Definition flag : Parser bool := b ← bit; mret (b =? 1).

Fixpoint read_loop (count : nat) (value : Z) : Parser Z :=
  match count with
  | O => mret value
  | S count => b ← bit; read_loop count (Z.lor (wrapping 32 (Z.shiftl value 1)) b)
  end.

Definition read (count : Z) : Parser Z := read_loop (Z.to_nat count) 0.

Definition skip (count : Z) : Parser unit := fun position =>
  let end_ := position + count in
  if len data * 8 <? end_ then Err Truncated else Ok (tt, end_).

(** The loop of [ue]: [more] more zeros are allowed. *)
Fixpoint leading_zeros (more : nat) (leading : Z) : Parser Z :=
  b ← bit;
  if b =? 0 then
    match more with
    | O => fail (Invalid "exp-golomb")
    | S more => leading_zeros more (leading + 1)
    end
  else mret leading.

Definition ue : Parser Z :=
  leading ← leading_zeros 31 0;
  v ← read leading;
  mret (Z.shiftl 1 leading - 1 + v).

Definition se : Parser Z :=
  value ← ue;
  let half := div_ceil value 2 in
  let magnitude := if half <=? 2 ^ 31 - 1 then half else 2 ^ 31 - 1 in
  mret (if value mod 2 =? 1 then magnitude else - magnitude).

(** ** The parts of the parameter set *)

Definition profile_tier_level (max_sub_layers_minus1 : Z) : Parser (Z * Z) :=
  _ ← skip 3;
  profile_idc ← read 5;
  _ ← skip 32;
  _ ← skip 48;
  level_idc ← read 8;
  present ← repeat_parser (Z.to_nat max_sub_layers_minus1) (profile ← flag; level ← flag; mret (profile, level));
  _ ← (if 0 <? max_sub_layers_minus1
       then repeat_parser (Z.to_nat (8 - max_sub_layers_minus1)) (skip 2) else mret []);
  _ ← for_parser (fun '(profile, level) =>
         _ ← (if (profile : bool) then skip 88 else mret tt);
         (if (level : bool) then skip 8 else mret tt)) present;
  mret (to_u8 profile_idc, to_u8 level_idc).

Definition cropped (size start end_ unit_ : Z) : option Z :=
  total ← checked_add 32 start end_;
  crop ← checked_mul 32 total unit_;
  visible ← checked_sub size crop;
  if 0 <? visible then Some visible else None.

Definition conformance_window (chroma_format_idc : Z) (separate_colour_planes : bool) (width height : Z)
  : Parser (Z * Z) :=
  present ← flag;
  if negb present then mret (width, height)
  else
    let '(sub_width, sub_height) :=
      if (chroma_format_idc =? 1) && negb separate_colour_planes then (2, 2)
      else if (chroma_format_idc =? 2) && negb separate_colour_planes then (2, 1)
      else (1, 1) in
    crop_left ← ue;
    crop_right ← ue;
    crop_top ← ue;
    crop_bottom ← ue;
    match cropped width crop_left crop_right sub_width with
    | None => fail (Invalid "conformance_window")
    | Some w =>
      match cropped height crop_top crop_bottom sub_height with
      | None => fail (Invalid "conformance_window")
      | Some h => mret (w, h)
      end
    end.

(** The values of [matrix_id] in the loop of one [size_id]. *)
Definition matrix_ids (size_id : Z) : list Z := if size_id =? 3 then [0; 3] else [0; 1; 2; 3; 4; 5].

Definition scaling_list (size_id : Z) : Parser unit :=
  explicit ← flag;
  if (explicit : bool) then
    let coefficients := Z.min 64 (Z.shiftl 1 (4 + Z.shiftl size_id 1)) in
    _ ← (if 1 <? size_id then se else mret 0);
    _ ← repeat_parser (Z.to_nat coefficients) se;
    mret tt
  else _ ← ue; mret tt.

Definition scaling_list_data : Parser unit :=
  _ ← for_parser (fun size_id => for_parser (fun _ => scaling_list size_id) (matrix_ids size_id)) [0; 1; 2; 3];
  mret tt.

Definition st_ref_pic_set (index : Z) (previous : list Z) : Parser Z :=
  predicted ← (if index =? 0 then mret false else flag);
  if (predicted : bool) then
    match last previous with
    | None => fail (Invalid "inter_ref_pic_set_prediction_flag")
    | Some reference =>
      _ ← skip 1;
      _ ← ue;
      kept ← repeat_parser (Z.to_nat (reference + 1))
               (used ← flag; if (used : bool) then mret true else flag);
      mret (len (filter (fun k => k = true) kept))
    end
  else
    negative ← ue;
    positive ← ue;
    if (16 <? negative) || (16 <? positive) then fail (Invalid "num_pics")
    else
      _ ← repeat_parser (Z.to_nat (negative + positive)) (_ ← ue; skip 1);
      mret (negative + positive).

Fixpoint st_ref_pic_sets (n : nat) (index : Z) (delta_pocs : list Z) : Parser (list Z) :=
  match n with
  | O => mret delta_pocs
  | S n => count ← st_ref_pic_set index delta_pocs; st_ref_pic_sets n (index + 1) (delta_pocs ++ [count])
  end.

Definition vui_colour : Parser (option HevcColourDescription) :=
  aspect ← flag;
  _ ← (if (aspect : bool) then idc ← read 8; if idc =? 255 then skip 32 else mret tt else mret tt);
  overscan ← flag;
  _ ← (if (overscan : bool) then skip 1 else mret tt);
  signal ← flag;
  if negb signal then mret None
  else
    _ ← skip 3;
    full ← flag;
    description ← flag;
    if negb description then mret (Some (mkColour full 2 2 2))
    else
      primaries ← read 8;
      transfer ← read 8;
      matrix ← read 8;
      mret (Some (mkColour full (to_u8 primaries) (to_u8 transfer) (to_u8 matrix))).

(** ** [parse_sps], part by part

    From the picture order count to the coding-block sizes: *)
Definition parse_ordering (max_sub_layers_minus1 : Z) : Parser Z :=
  log2 ← ue;
  let log2_max_poc_lsb := add_u32 log2 4 in
  if 16 <? log2_max_poc_lsb then fail (Invalid "log2_max_pic_order_cnt_lsb_minus4")
  else
    present ← flag;
    let first := if (present : bool) then 0 else max_sub_layers_minus1 in
    _ ← repeat_parser (Z.to_nat (max_sub_layers_minus1 - first + 1)) (_ ← ue; _ ← ue; ue);
    _ ← repeat_parser 6 ue;
    mret log2_max_poc_lsb.

(** scaling lists and PCM: *)
Definition parse_tools : Parser unit :=
  enabled ← flag;
  present ← (if (enabled : bool) then flag else mret false);
  _ ← (if (present : bool) then scaling_list_data else mret tt);
  _ ← skip 2;
  pcm ← flag;
  if (pcm : bool) then _ ← skip 8; _ ← ue; _ ← ue; skip 1 else mret tt.

(** short- and long-term reference pictures: *)
Definition parse_references (log2_max_poc_lsb : Z) : Parser unit :=
  num_short_term_ref_pic_sets ← ue;
  if 64 <? num_short_term_ref_pic_sets then fail (Invalid "num_short_term_ref_pic_sets")
  else
    _ ← st_ref_pic_sets (Z.to_nat num_short_term_ref_pic_sets) 0 [];
    long_term ← flag;
    if (long_term : bool) then
      count ← ue;
      if 32 <? count then fail (Invalid "num_long_term_ref_pics_sps")
      else
        _ ← repeat_parser (Z.to_nat count) (_ ← skip log2_max_poc_lsb; skip 1);
        mret tt
    else mret tt.

Definition parse_body : Parser HevcStreamTruth :=
  _ ← skip 4;
  max_sub_layers_minus1 ← read 3;
  _ ← skip 1;
  ptl ← profile_tier_level max_sub_layers_minus1;
  _ ← ue;
  chroma_format_idc ← ue;
  if 3 <? chroma_format_idc then fail (Invalid "chroma_format_idc")
  else
    separate ← (if chroma_format_idc =? 3 then flag else mret false);
    width ← ue;
    height ← ue;
    display ← conformance_window chroma_format_idc separate width height;
    luma ← ue;
    chroma ← ue;
    let bit_depth_luma := add_u32 luma 8 in
    let bit_depth_chroma := add_u32 chroma 8 in
    if (16 <? bit_depth_luma) || (16 <? bit_depth_chroma) then fail (Invalid "bit_depth")
    else
      log2_max_poc_lsb ← parse_ordering max_sub_layers_minus1;
      _ ← parse_tools;
      _ ← parse_references log2_max_poc_lsb;
      _ ← skip 2;
      vui ← flag;
      colour ← (if (vui : bool) then vui_colour else mret None);
      mret (mkTruth ptl.1 ptl.2 (to_u8 chroma_format_idc) (to_u8 bit_depth_luma)
              (to_u8 bit_depth_chroma) width height display.1 display.2 colour).
End Bits.

(** [(nal[0] >> 1) & 0x3F == SPS_NAL_TYPE]. *)
Definition is_sps_header (nal : list Z) : bool :=
  Z.land (Z.shiftr (byte_at nal 0) 1) 0x3F =? SPS_NAL_TYPE.

Definition parse_sps (nal : list Z) : result HevcSpsError HevcStreamTruth :=
  if (len nal <? 3) || negb (is_sps_header nal) then Err NotSps
  else
    match parse_body (unescape (slice_from nal 2)) 0 with
    | Ok (truth, _) => Ok truth
    | Err e => Err e
    end.

(** The fold is the visiting closure. *)
Definition stream_truth_in_access_unit (access_unit : list Z)
  : option (result HevcSpsError HevcStreamTruth) :=
  nals ← for_each_annex_b access_unit;
  let found := foldl (fun found nal =>
      if negb (is_some found) && ((2 <? len nal) && is_sps_header nal) then Some (parse_sps nal) else found)
    None nals in
  Some (match found with Some r => r | None => Err NotSps end).

(** ** Lemmas: reading bits *)

(** The bits of a byte and of a buffer, most significant first. *)
Definition byte_bits (b : Z) : list bool := map (Z.testbit b) [7; 6; 5; 4; 3; 2; 1; 0].
Definition bits_of (data : list Z) : list bool := concat (map byte_bits data).

Lemma length_bits_of data : length (bits_of data) = (8 * length data)%nat.
Proof. unfold bits_of. induction data as [|b data IH]; [done|]. cbn [map concat]. rewrite length_app, IH. cbn. lia. Qed.

Lemma byte_bits_lookup b (k : nat) : (k < 8)%nat -> byte_bits b !! k = Some (Z.testbit b (7 - Z.of_nat k)).
Proof. intros Hk. do 8 (destruct k as [|k]; [done|]). lia. Qed.

Lemma bits_of_lookup data (pos : nat) :
  bits_of data !! pos =
    (byte ← data !! (pos / 8)%nat; Some (Z.testbit byte (7 - Z.of_nat (pos mod 8)))).
Proof.
  revert pos. induction data as [|b data IH]; intros pos; [done|].
  change (bits_of (b :: data)) with (byte_bits b ++ bits_of data).
  destruct (decide (pos < 8)%nat) as [Hp|Hp].
  - rewrite lookup_app_l by (cbn; lia). rewrite Nat.div_small, Nat.mod_small by done. cbn.
    by apply byte_bits_lookup.
  - rewrite lookup_app_r by (cbn; lia). change (length (byte_bits b)) with 8%nat. rewrite IH.
    remember (pos - 8)%nat as q eqn:Eq. assert (pos = (q + 1 * 8)%nat) as -> by lia.
    rewrite Nat.div_add, Nat.Div0.mod_add by lia. by rewrite Nat.add_1_r.
Qed.

Lemma land_1_testbit byte k : 0 <= k -> Z.land (Z.shiftr byte k) 1 = Z.b2z (Z.testbit byte k).
Proof.
  intros Hk. rewrite Z.testbit_spec' by done. rewrite Z.shiftr_div_pow2 by done.
  change 1 with (Z.ones 1). by rewrite Z.land_ones.
Qed.

Lemma lor_double_bit acc b : Z.lor (2 * acc) (Z.b2z b) = 2 * acc + Z.b2z b.
Proof.
  assert (Hl : Z.land (2 * acc) (Z.b2z b) = 0).
  { destruct b; [|apply Z.land_0_r]. change (Z.b2z true) with (Z.ones 1). rewrite Z.land_ones by done.
    change (2 ^ 1) with 2. rewrite Z.mul_comm. by apply Z.mod_mul. }
  by rewrite <- Z.lxor_lor, <- Z.add_nocarry_lxor.
Qed.

Section Reads.
Context (data : list Z).

(** [reads p bs a]: where the data goes on with the bits [bs], [p] consumes
    exactly them and returns [a]. *)
Definition reads {A} (p : Parser A) (bs : list bool) (a : A) : Prop :=
  forall pos rest, 0 <= pos <= 8 * len data -> drop (Z.to_nat pos) (bits_of data) = bs ++ rest ->
    p pos = Ok (a, pos + len bs).

Lemma reads_ret {A} (a : A) : reads (mret a) [] a.
Proof. intros pos rest Hp _. change (len []) with 0. by rewrite Z.add_0_r. Qed.

Lemma drop_reads pos (bs rest : list bool) :
  0 <= pos <= 8 * len data -> drop (Z.to_nat pos) (bits_of data) = bs ++ rest ->
  0 <= pos + len bs <= 8 * len data /\
  drop (Z.to_nat (pos + len bs)) (bits_of data) = rest.
Proof.
  intros Hp E. unfold len in *. replace (Z.to_nat (pos + Z.of_nat (length bs))) with (Z.to_nat pos + length bs)%nat by lia.
  rewrite <- drop_drop, E, drop_app_length. split; [|done].
  apply (f_equal length) in E. rewrite length_drop, length_bits_of, length_app in E. lia.
Qed.

Lemma reads_bind {A B} (p : Parser A) (k : A -> Parser B) bs bs' a b :
  reads p bs a -> reads (k a) bs' b -> reads (p ≫= k) (bs ++ bs') b.
Proof.
  intros Hp Hk pos rest Hpos E. rewrite <- app_assoc in E. unfold mbind, parser_bind.
  rewrite (Hp pos _ Hpos E). apply drop_reads in E as [Hpos' E]; [|done].
  rewrite (Hk (pos + len bs) rest Hpos' E), len_app. do 2 f_equal. lia.
Qed.

(** Binding a parser that consumes nothing. *)
Lemma reads_bind_nil {A B} (p : Parser A) (k : A -> Parser B) bs' a b :
  reads p [] a -> reads (k a) bs' b -> reads (p ≫= k) bs' b.
Proof. intros Hp Hk. by apply (reads_bind p k [] bs' a b). Qed.

Lemma reads_bit b : reads (bit data) [b] (Z.b2z b).
Proof.
  intros pos rest Hp E. change (len [b]) with 1.
  assert (Hb : bits_of data !! Z.to_nat pos = Some b).
  { rewrite <- (Nat.add_0_r (Z.to_nat pos)), <- lookup_drop, E. done. }
  rewrite bits_of_lookup in Hb. unfold bit, read_at.
  pose proof (Z.div_pos pos 8 ltac:(lia) ltac:(lia)). destruct (Z.ltb_spec (pos / 8) 0); [lia|].
  replace (Z.to_nat (pos / 8)) with (Z.to_nat pos / 8)%nat by (rewrite Z2Nat.inj_div by lia; done).
  destruct (data !! (Z.to_nat pos / 8)%nat) as [byte|]; [|done]. cbn [mbind option_bind] in Hb.
  apply (inj Some) in Hb. subst b.
  pose proof (Z.mod_pos_bound pos 8 ltac:(lia)). rewrite land_1_testbit by lia.
  do 4 f_equal. replace (Z.of_nat (Z.to_nat pos mod 8)) with (pos mod 8); [done|].
  rewrite Nat2Z.inj_mod, Z2Nat.id by lia. done.
Qed.

Lemma reads_flag b : reads (flag data) [b] b.
Proof.
  unfold flag. apply (reads_bind _ _ [b] [] _ _ (reads_bit b)). destruct b; apply reads_ret.
Qed.

Lemma reads_skip (bs : list bool) n : len bs = n -> reads (skip data n) bs tt.
Proof.
  intros Hn pos rest Hp E. apply drop_reads in E as [Hpos _]; [|done]. unfold skip. rewrite <- Hn.
  by destruct (Z.ltb_spec (len data * 8) (pos + len bs)); [lia|].
Qed.

Lemma reads_bind_skip {B} (k : unit -> Parser B) (bs : list bool) n bs' b :
  len bs = n -> reads (k tt) bs' b -> reads (skip data n ≫= k) (bs ++ bs') b.
Proof. intros Hn. apply reads_bind. by apply reads_skip. Qed.

(** Fixed-width numbers, most significant bit first. *)
Definition enc_bits (n : nat) (v : Z) : list bool := map (fun k => Z.testbit v (Z.of_nat k)) (rev (seq 0 n)).

Lemma enc_bits_S n v : enc_bits (S n) v = Z.testbit v (Z.of_nat n) :: enc_bits n v.
Proof. unfold enc_bits. rewrite seq_S, rev_app_distr. done. Qed.

Lemma len_enc_bits n v : len (enc_bits n v) = Z.of_nat n.
Proof. unfold enc_bits, len. by rewrite length_map, length_rev, length_seq. Qed.

(** The value of the low [n] bits appended to [acc]. *)
Lemma reads_read_loop n v : forall acc,
  0 <= acc -> (acc + 1) * 2 ^ Z.of_nat n <= 2 ^ 32 -> 0 <= v ->
  reads (read_loop data n acc) (enc_bits n v) (acc * 2 ^ Z.of_nat n + v mod 2 ^ Z.of_nat n).
Proof.
  induction n as [|n IH]; intros acc Ha Hmax Hv.
  - change (2 ^ Z.of_nat 0) with 1. rewrite Z.mod_1_r, Z.mul_1_r, Z.add_0_r. apply reads_ret.
  - rewrite enc_bits_S. cbn [read_loop]. rewrite Nat2Z.inj_succ, Z.pow_succ_r in * by lia.
    pose proof (Z.pow_pos_nonneg 2 (Z.of_nat n) ltac:(lia) ltac:(lia)) as Hpow.
    set (b := Z.testbit v (Z.of_nat n)).
    assert (Hw : wrapping 32 (Z.shiftl acc 1) = 2 * acc).
    { rewrite Z.shiftl_mul_pow2 by lia. rewrite wrapping_small; [lia|]. unfold in_width. nia. }
    assert (Eor : Z.lor (wrapping 32 (Z.shiftl acc 1)) (Z.b2z b) = 2 * acc + Z.b2z b).
    { rewrite Hw. apply lor_double_bit. }
    replace (acc * (2 * 2 ^ Z.of_nat n) + v mod (2 * 2 ^ Z.of_nat n)) with
      ((2 * acc + Z.b2z b) * 2 ^ Z.of_nat n + v mod 2 ^ Z.of_nat n).
    + apply (reads_bind _ _ [b] (enc_bits n v) (Z.b2z b) _ (reads_bit b)). rewrite Eor.
      apply IH; [destruct b; cbn; lia|destruct b; cbn; nia|done].
    + unfold b. rewrite Z.testbit_spec' by lia.
      rewrite (Z.mul_comm 2 (2 ^ Z.of_nat n)), Z.rem_mul_r by lia. lia.
Qed.

Lemma reads_read (n : Z) v : 0 <= n <= 32 -> 0 <= v < 2 ^ n -> reads (read data n) (enc_bits (Z.to_nat n) v) v.
Proof.
  intros Hn Hv. unfold read. pose proof (reads_read_loop (Z.to_nat n) v 0 ltac:(lia)) as H.
  rewrite Z2Nat.id in H by lia. rewrite Z.mod_small, Z.mul_0_l, Z.add_0_l in H by done.
  apply H; [|lia]. rewrite Z.mul_1_l. apply Z.pow_le_mono_r; lia.
Qed.

(** Exp-Golomb codes. *)
Definition enc_ue (v : Z) : list bool :=
  let k := Z.log2 (v + 1) in
  replicate (Z.to_nat k) false ++ [true] ++ enc_bits (Z.to_nat k) (v + 1 - 2 ^ k).

Definition ue_ok (v : Z) : Prop := 0 <= v < 2 ^ 32 - 1.

Lemma reads_leading_zeros k : forall more leading, (k <= more)%nat ->
  reads (leading_zeros data more leading) (replicate k false ++ [true]) (leading + Z.of_nat k).
Proof.
  induction k as [|k IH]; intros more leading Hk.
  - cbn [replicate app]. rewrite Z.add_0_r. destruct more; cbn [leading_zeros];
      apply (reads_bind _ _ [true] [] _ _ (reads_bit true)); apply reads_ret.
  - destruct more as [|more]; [lia|]. cbn [leading_zeros replicate app].
    apply (reads_bind _ _ [false] (replicate k false ++ [true]) _ _ (reads_bit false)). cbn [Z.b2z Z.eqb].
    replace (leading + Z.of_nat (S k)) with (leading + 1 + Z.of_nat k) by lia. apply IH. lia.
Qed.

Lemma reads_ue v : ue_ok v -> reads (ue data) (enc_ue v) v.
Proof.
  intros Hv. unfold ue, enc_ue, ue_ok in *. cbv zeta. set (k := Z.log2 (v + 1)).
  pose proof (Z.log2_spec (v + 1) ltac:(lia)) as Hk. fold k in Hk.
  pose proof (Z.log2_nonneg (v + 1)) as Hk0. fold k in Hk0. rewrite Z.pow_succ_r in Hk by lia.
  assert (Hk31 : k <= 31) by (apply Z.lt_succ_r, Z.log2_lt_pow2; lia).
  rewrite app_assoc. eapply reads_bind; [apply (reads_leading_zeros (Z.to_nat k) 31 0); lia|].
  rewrite Z2Nat.id, Z.add_0_l by lia. rewrite <- (app_nil_r (enc_bits _ _)).
  eapply reads_bind; [apply reads_read; lia|].
  rewrite Z.shiftl_mul_pow2, Z.mul_1_l by lia.
  replace (2 ^ k - 1 + (v + 1 - 2 ^ k)) with v by lia. apply reads_ret.
Qed.

Lemma reads_se v : ue_ok v -> exists s, reads (se data) (enc_ue v) s.
Proof.
  intros Hv. eexists. unfold se. rewrite <- (app_nil_r (enc_ue v)).
  eapply reads_bind; [by apply reads_ue|]. apply reads_ret.
Qed.

Lemma reads_repeat {A X} (p : Parser A) (enc : X -> list bool) (val : X -> A) (xs : list X) :
  (forall x, x ∈ xs -> reads p (enc x) (val x)) ->
  reads (repeat_parser (length xs) p) (concat (map enc xs)) (map val xs).
Proof.
  induction xs as [|x xs IH]; intros H; cbn; [apply reads_ret|].
  eapply reads_bind; [apply H; left|]. rewrite <- (app_nil_r (concat _)).
  eapply reads_bind; [apply IH; intros; apply H; by right|]. apply reads_ret.
Qed.

Lemma reads_map {A B} (p : Parser A) (f : A -> B) bs a :
  reads p bs a -> reads (p ≫= fun x => mret (f x)) bs (f a).
Proof. intros H. rewrite <- (app_nil_r bs). eapply reads_bind; [exact H|]. apply reads_ret. Qed.

Lemma reads_for {A X B} (p : A -> Parser B) (enc : X -> list bool) (val : X -> B) (l : list A) (xs : list X) :
  Forall2 (fun a x => reads (p a) (enc x) (val x)) l xs ->
  reads (for_parser p l) (concat (map enc xs)) (map val xs).
Proof.
  induction 1 as [|a x l xs H _ IH]; cbn; [apply reads_ret|].
  eapply reads_bind; [exact H|]. by apply (reads_map _ (cons (val x))).
Qed.

Lemma reads_skip_bit b : reads (skip data 1) [b] tt.
Proof. by apply reads_skip. Qed.
End Reads.

Create HintDb reads.
#[export] Hint Resolve reads_ret reads_flag reads_ue reads_skip reads_skip_bit reads_map : reads.

(** One field after another; the side conditions on the field are left to
    [eauto] and [lia]. *)
Ltac field := eapply reads_bind; [solve [eauto with reads]|]; cbn [Z.b2z negb].
Ltac fields := repeat field.

(** ** The syntax of a parameter set and its bits *)

Inductive ScalingSyntax := ListPredicted (delta : Z) | ListExplicit (dc : option Z) (coefficients : list Z).
Inductive RefPicsSyntax :=
| RefsPredicted (sign : bool) (abs_delta : Z) (kept : list (bool * bool))
| RefsExplicit (negative positive : list (Z * bool)).

Definition enc_opt {A} (enc : A -> list bool) (o : option A) : list bool :=
  match o with Some a => true :: enc a | None => [false] end.

Definition enc_scaling (s : ScalingSyntax) : list bool :=
  match s with
  | ListPredicted delta => false :: enc_ue delta
  | ListExplicit dc coefficients =>
    true :: match dc with Some d => enc_ue d | None => [] end ++ concat (map enc_ue coefficients)
  end.

Definition scaling_ok (size_id : Z) (s : ScalingSyntax) : Prop :=
  match s with
  | ListPredicted delta => ue_ok delta
  | ListExplicit dc coefficients =>
    (match dc with Some d => 1 < size_id /\ ue_ok d | None => size_id <= 1 end) /\
    len coefficients = Z.min 64 (2 ^ (4 + 2 * size_id)) /\ Forall ue_ok coefficients
  end.

Definition ref_pics_count (s : RefPicsSyntax) : Z :=
  match s with
  | RefsPredicted _ _ kept => len (filter (fun k => k = true) (map (fun k => k.1 || k.2) kept))
  | RefsExplicit negative positive => len negative + len positive
  end.

Definition enc_ref (r : Z * bool) : list bool := enc_ue r.1 ++ [r.2].
Definition enc_kept (k : bool * bool) : list bool := if k.1 then [true] else [false; k.2].

Definition enc_ref_pics (index : Z) (s : RefPicsSyntax) : list bool :=
  match s with
  | RefsPredicted sign abs_delta kept => true :: sign :: enc_ue abs_delta ++ concat (map enc_kept kept)
  | RefsExplicit negative positive =>
    (if index =? 0 then [] else [false]) ++ enc_ue (len negative) ++ enc_ue (len positive) ++
    concat (map enc_ref (negative ++ positive))
  end.

(** The set at [index] after sets with the counts [previous]. *)
Definition ref_pics_ok (index : Z) (previous : list Z) (s : RefPicsSyntax) : Prop :=
  match s with
  | RefsPredicted _ abs_delta kept =>
    index <> 0 /\ ue_ok abs_delta /\ exists reference, last previous = Some reference /\ len kept = reference + 1
  | RefsExplicit negative positive =>
    len negative <= 16 /\ len positive <= 16 /\ Forall (fun r => ue_ok r.1) (negative ++ positive)
  end.

Fixpoint ref_pics_sets_ok (index : Z) (previous : list Z) (sets : list RefPicsSyntax) : Prop :=
  match sets with
  | [] => True
  | s :: sets => ref_pics_ok index previous s /\ ref_pics_sets_ok (index + 1) (previous ++ [ref_pics_count s]) sets
  end.

Fixpoint enc_ref_pics_sets (index : Z) (sets : list RefPicsSyntax) : list bool :=
  match sets with
  | [] => []
  | s :: sets => enc_ref_pics index s ++ enc_ref_pics_sets (index + 1) sets
  end.

Section Parts.
Context (data : list Z).

Lemma reads_ue_list l : Forall ue_ok l -> forall n, Z.of_nat n = len l ->
  reads data (repeat_parser n (ue data)) (concat (map enc_ue l)) l.
Proof.
  intros Hl n Hn. assert (n = length l) as -> by (unfold len in Hn; lia).
  rewrite <- (map_id l) at 3. apply reads_repeat. intros x Hx. apply reads_ue.
  by eapply (proj1 (Forall_forall _ _)) in Hx.
Qed.

(** Signed codes occupy the bits of the unsigned ones. *)
Lemma reads_se_list l : Forall ue_ok l -> forall n, Z.of_nat n = len l ->
  exists vs, reads data (repeat_parser n (se data)) (concat (map enc_ue l)) vs.
Proof.
  intros Hl. induction Hl as [|x l Hx _ IH]; intros n Hn; unfold len in *; cbn in Hn.
  - assert (n = O) as -> by lia. eexists. apply reads_ret.
  - destruct n as [|n]; [lia|]. destruct (IH n ltac:(lia)) as [vs Hvs].
    destruct (reads_se data x Hx) as [v Hv]. eexists. cbn.
    eapply reads_bind; [exact Hv|]. by apply (reads_map _ _ (cons v)).
Qed.

Lemma reads_scaling_list size_id s : 0 <= size_id -> scaling_ok size_id s ->
  reads data (scaling_list data size_id) (enc_scaling s) tt.
Proof.
  intros Hs. destruct s as [delta|dc coefficients]; cbn [scaling_ok enc_scaling].
  - intros Hd. apply (reads_bind _ _ _ [false] (enc_ue delta) false); [apply reads_flag|].
    by apply (reads_map _ _ (fun _ => tt) _ delta), reads_ue.
  - intros (Hdc & Hlen & Hc).
    apply (reads_bind _ _ _ [true] (_ ++ _) true); [apply reads_flag|]. cbv zeta.
    assert (exists d, reads data (if 1 <? size_id then se data else mret 0)
              match dc with Some d => enc_ue d | None => [] end d) as [d Hd].
    { destruct dc as [d|], (Z.ltb_spec 1 size_id); try lia; [apply reads_se; tauto|].
      eexists. apply reads_ret. }
    eapply reads_bind; [exact Hd|].
    assert (Hn : Z.of_nat (Z.to_nat (Z.min 64 (Z.shiftl 1 (4 + Z.shiftl size_id 1)))) = len coefficients).
    { rewrite Hlen, !Z.shiftl_mul_pow2 by (rewrite ?Z.shiftl_mul_pow2; lia). rewrite Z.mul_1_l, Z.mul_comm.
      rewrite Z2Nat.id; [done|]. pose proof (Z.pow_nonneg 2 (4 + 2 ^ 1 * size_id)). lia. }
    destruct (reads_se_list coefficients Hc _ Hn) as [vs Hvs]. by apply (reads_map _ _ (fun _ => tt) _ vs).
Qed.

Lemma reads_kept k :
  reads data (used ← flag data; if (used : bool) then mret true else flag data) (enc_kept k) (k.1 || k.2).
Proof.
  destruct k as [[] d]; cbn.
  - apply (reads_bind _ _ _ [true] [] true); [apply reads_flag|apply reads_ret].
  - apply (reads_bind _ _ _ [false] [d] false); apply reads_flag.
Qed.

Lemma reads_st_ref_pic_set index previous s : ref_pics_ok index previous s ->
  reads data (st_ref_pic_set data index previous) (enc_ref_pics index s) (ref_pics_count s).
Proof.
  destruct s as [sign abs_delta kept|negative positive]; cbn [ref_pics_ok enc_ref_pics ref_pics_count];
    unfold st_ref_pic_set.
  - intros (Hi & Ha & reference & Hl & Hk).
    apply (reads_bind _ _ _ [true] (_ :: _ ++ _) true).
    { destruct (Z.eqb_spec index 0); [lia|]. apply reads_flag. }
    rewrite Hl. apply (reads_bind _ _ _ [sign] (_ ++ _) tt); [apply reads_skip_bit|].
    eapply reads_bind; [by apply reads_ue|].
    apply (reads_map _ _ (fun kept => len (filter (fun k => k = true) kept))).
    replace (Z.to_nat (reference + 1)) with (length kept) by (unfold len in Hk; lia).
    apply reads_repeat. intros k _. apply reads_kept.
  - intros (Hn & Hp & Hr).
    eapply (reads_bind _ _ _ (if index =? 0 then [] else [false]) (_ ++ _) false).
    { destruct (index =? 0); [apply reads_ret|apply reads_flag]. }
    assert (forall (l : list (Z * bool)), len l <= 16 -> ue_ok (len l)) as Hue
      by (intros l; unfold ue_ok, len; lia).
    do 2 (eapply reads_bind; [by apply reads_ue, Hue|]).
    destruct (Z.ltb_spec 16 (len negative)); [lia|]. destruct (Z.ltb_spec 16 (len positive)); [lia|].
    cbn [orb]. rewrite <- len_app.
    apply (reads_map _ _ (fun _ => len (negative ++ positive)) _ (map (fun _ => tt) (negative ++ positive))).
    replace (Z.to_nat (len (negative ++ positive))) with (length (negative ++ positive)) by (unfold len; lia).
    apply reads_repeat. intros r Hin. unfold enc_ref.
    eapply reads_bind; [|apply reads_skip_bit]. apply reads_ue.
    exact (proj1 (Forall_forall _ _) Hr r Hin).
Qed.

Lemma reads_st_ref_pic_sets sets : forall index previous, ref_pics_sets_ok index previous sets ->
  reads data (st_ref_pic_sets data (length sets) index previous) (enc_ref_pics_sets index sets)
    (previous ++ map ref_pics_count sets).
Proof.
  induction sets as [|s sets IH]; intros index previous Hok; cbn.
  - rewrite app_nil_r. apply reads_ret.
  - destruct Hok as [Hs Hok]. eapply reads_bind; [by apply reads_st_ref_pic_set|].
    specialize (IH _ _ Hok). by rewrite <- app_assoc in IH.
Qed.
End Parts.

(** ** The parts before the reference pictures *)

Record PtlSyntax := mkPtl {
  profile_space : list bool;
  profile_value : Z;
  compatibility : list bool;
  constraints : list bool;
  level_value : Z;
  sub_layers : list (option (list bool) * option (list bool));
  alignment : list (list bool)
}.

Record ConformanceSyntax := mkWindow { win_left : Z; win_right : Z; win_top : Z; win_bottom : Z }.

Record OrderingSyntax := mkOrdering { poc_minus4 : Z; per_sub_layer : bool; buffering : list (Z * Z * Z); block_sizes : list Z }.

Record PcmSyntax := mkPcm { pcm_depths : list bool; pcm_min : Z; pcm_diff : Z; pcm_filter : bool }.

Record ToolsSyntax := mkTools {
  scaling : option (option (list (list ScalingSyntax)));
  amp_sao : list bool;
  pcm : option PcmSyntax
}.

Definition some_bits (o : option (list bool)) : list bool := default [] o.

Definition enc_ptl (s : PtlSyntax) : list bool :=
  profile_space s ++ enc_bits 5 (profile_value s) ++ compatibility s ++ constraints s ++
  enc_bits 8 (level_value s) ++
  concat (map (fun l => [is_some l.1; is_some l.2]) (sub_layers s)) ++
  concat (alignment s) ++
  concat (map (fun l => some_bits l.1 ++ some_bits l.2) (sub_layers s)).

Definition opt_len (o : option (list bool)) (n : Z) : Prop := forall bs, o = Some bs -> len bs = n.

Definition ptl_ok (s : PtlSyntax) : Prop :=
  len (profile_space s) = 3 /\ 0 <= profile_value s < 32 /\ len (compatibility s) = 32 /\
  len (constraints s) = 48 /\ 0 <= level_value s < 256 /\ len (sub_layers s) <= 7 /\
  Forall (fun l => opt_len l.1 88 /\ opt_len l.2 8) (sub_layers s) /\
  len (alignment s) = (if 0 <? len (sub_layers s) then 8 - len (sub_layers s) else 0) /\
  Forall (fun bs => len bs = 2) (alignment s).

Definition enc_window (w : ConformanceSyntax) : list bool :=
  enc_ue (win_left w) ++ enc_ue (win_right w) ++ enc_ue (win_top w) ++ enc_ue (win_bottom w).

(** Luma samples per unit of a window offset (Table 6-1). *)
Definition sub_size (chroma_format_idc : Z) (separate : bool) : Z * Z :=
  if separate then (1, 1)
  else if chroma_format_idc =? 1 then (2, 2) else if chroma_format_idc =? 2 then (2, 1) else (1, 1).

Definition displayed (chroma : Z) (separate : bool) (width height : Z) (w : option ConformanceSyntax) : Z * Z :=
  match w with
  | None => (width, height)
  | Some w =>
    let u := sub_size chroma separate in
    (width - u.1 * (win_left w + win_right w), height - u.2 * (win_top w + win_bottom w))
  end.

Definition window_ok (chroma : Z) (separate : bool) (width height : Z) (w : ConformanceSyntax) : Prop :=
  ue_ok (win_left w) /\ ue_ok (win_right w) /\ ue_ok (win_top w) /\ ue_ok (win_bottom w) /\
  0 < (displayed chroma separate width height (Some w)).1 /\
  0 < (displayed chroma separate width height (Some w)).2.

Definition enc_triple (t : Z * Z * Z) : list bool := enc_ue t.1.1 ++ enc_ue t.1.2 ++ enc_ue t.2.

Definition enc_ordering (s : OrderingSyntax) : list bool :=
  enc_ue (poc_minus4 s) ++ [per_sub_layer s] ++ concat (map enc_triple (buffering s)) ++
  concat (map enc_ue (block_sizes s)).

Definition ordering_ok (sub_layers : Z) (s : OrderingSyntax) : Prop :=
  0 <= poc_minus4 s <= 12 /\
  len (buffering s) = (if per_sub_layer s then sub_layers + 1 else 1) /\
  Forall (fun t => ue_ok t.1.1 /\ ue_ok t.1.2 /\ ue_ok t.2) (buffering s) /\
  len (block_sizes s) = 6 /\ Forall ue_ok (block_sizes s).

Definition enc_pcm (s : PcmSyntax) : list bool :=
  pcm_depths s ++ enc_ue (pcm_min s) ++ enc_ue (pcm_diff s) ++ [pcm_filter s].

Definition pcm_ok (s : PcmSyntax) : Prop := len (pcm_depths s) = 8 /\ ue_ok (pcm_min s) /\ ue_ok (pcm_diff s).

Definition enc_scaling_data (lists : list (list ScalingSyntax)) : list bool :=
  concat (map (fun l => concat (map enc_scaling l)) lists).

Definition scaling_data_ok (lists : list (list ScalingSyntax)) : Prop :=
  Forall2 (fun size_id l => length l = length (matrix_ids size_id) /\ Forall (scaling_ok size_id) l) [0; 1; 2; 3] lists.

Definition enc_tools (s : ToolsSyntax) : list bool :=
  enc_opt (enc_opt enc_scaling_data) (scaling s) ++ amp_sao s ++ enc_opt enc_pcm (pcm s).

Definition tools_ok (s : ToolsSyntax) : Prop :=
  (forall lists, scaling s = Some (Some lists) -> scaling_data_ok lists) /\
  len (amp_sao s) = 2 /\
  (forall p, pcm s = Some p -> pcm_ok p).

Section Front.
Context (data : list Z).

Lemma reads_some_bits o n : opt_len o n ->
  reads data (if is_some o then skip data n else mret tt) (some_bits o) tt.
Proof. intros H. destruct o as [bs|]; cbn; [|apply reads_ret]. apply reads_skip. by apply H. Qed.

Lemma reads_profile_tier_level s : ptl_ok s ->
  reads data (profile_tier_level data (len (sub_layers s))) (enc_ptl s) (profile_value s, level_value s).
Proof.
  intros (H1 & H2 & H3 & H4 & H5 & H6 & H7 & H8 & H9). unfold profile_tier_level, enc_ptl.
  apply reads_bind_skip; [done|].
  eapply reads_bind; [by apply (reads_read data 5)|].
  do 2 (apply reads_bind_skip; [done|]).
  eapply reads_bind; [by apply (reads_read data 8)|].
  replace (Z.to_nat (len (sub_layers s))) with (length (sub_layers s)) by (unfold len; lia).
  eapply (reads_bind _ _ _ _ _ (map (fun l => (is_some l.1, is_some l.2)) (sub_layers s))).
  { apply reads_repeat. intros l _. apply (reads_bind _ _ _ [is_some l.1] [is_some l.2] (is_some l.1)); [apply reads_flag|].
    apply (reads_map _ _ (fun b => (is_some l.1, b))), reads_flag. }
  eapply (reads_bind _ _ _ _ _ (map (fun _ => tt) (alignment s))).
  { destruct (0 <? len (sub_layers s)).
    - replace (Z.to_nat (8 - len (sub_layers s))) with (length (alignment s)) by (unfold len in *; lia).
      rewrite <- (map_id (alignment s)) at 2. apply reads_repeat. intros bs Hin. apply reads_skip.
      exact (proj1 (Forall_forall _ _) H9 bs Hin).
    - destruct (alignment s) as [|a l]; [apply reads_ret|]. unfold len in H8. cbn in H8. lia. }
  unfold to_u8. change (umax 8) with 255.
  destruct (Z.leb_spec (profile_value s) 255); [|lia]. destruct (Z.leb_spec (level_value s) 255); [|lia].
  apply (reads_map _ _ (fun _ => (profile_value s, level_value s)) _ (map (fun _ => tt) (sub_layers s))).
  apply reads_for. clear H6 H8. induction H7 as [|l ls [Ha Hb] _ IH]; cbn; constructor; [|exact IH].
  eapply reads_bind; by apply reads_some_bits.
Qed.

Lemma cropped_Some size a b u : 0 <= a -> 0 <= b -> 1 <= u -> size <= umax 32 -> 0 < size - u * (a + b) ->
  cropped size a b u = Some (size - u * (a + b)).
Proof.
  intros Ha Hb Hu Hs Hv. unfold cropped.
  assert (checked_add 32 a b = Some (a + b)) as -> by (apply checked_add_Some; nia).
  cbn [mbind option_bind].
  assert (checked_mul 32 (a + b) u = Some ((a + b) * u)) as -> by (apply checked_mul_Some; nia).
  cbn [mbind option_bind].
  assert (checked_sub size ((a + b) * u) = Some (size - u * (a + b))) as -> by (apply checked_sub_Some; nia).
  cbn [mbind option_bind]. destruct (Z.ltb_spec 0 (size - u * (a + b))); [done|lia].
Qed.

Lemma reads_conformance_window chroma separate width height w :
  ue_ok width -> ue_ok height ->
  (forall win, w = Some win -> window_ok chroma separate width height win) ->
  reads data (conformance_window data chroma separate width height) (enc_opt enc_window w)
    (displayed chroma separate width height w).
Proof.
  intros Hw Hh Hok. unfold conformance_window.
  destruct w as [w|]; cbn [enc_opt].
  2: { apply (reads_bind _ _ _ [false] [] false); [apply reads_flag|apply reads_ret]. }
  apply (reads_bind _ _ _ [true] (enc_window w) true); [apply reads_flag|]. cbn [negb].
  specialize (Hok w eq_refl) as (Hl & Hr & Ht & Hb & Hx & Hy).
  set (u := sub_size chroma separate).
  assert ((if (chroma =? 1) && negb separate then (2, 2)
           else if (chroma =? 2) && negb separate then (2, 1) else (1, 1)) = u) as ->.
  { unfold u, sub_size. destruct (chroma =? 1), (chroma =? 2), separate; done. }
  assert (Hu : 1 <= u.1 /\ 1 <= u.2).
  { unfold u, sub_size. destruct separate; [done|]. destruct (chroma =? 1), (chroma =? 2); done. }
  cbn [displayed fst snd] in Hx, Hy. fold u in Hx, Hy. unfold enc_window.
  destruct u as [u1 u2] eqn:Eu. cbn [fst snd] in *.
  do 3 (eapply reads_bind; [by apply reads_ue|]). rewrite <- (app_nil_r (enc_ue (win_bottom w))).
  eapply reads_bind; [by apply reads_ue|]. unfold ue_ok in *.
  rewrite !cropped_Some by (try lia; change (umax 32) with (2 ^ 32 - 1); lia).
  cbn [displayed]. fold u. rewrite Eu. apply reads_ret.
Qed.

Lemma reads_ordering n s : 0 <= n -> ordering_ok n s ->
  reads data (parse_ordering data n) (enc_ordering s) (poc_minus4 s + 4).
Proof.
  intros Hn (Hp & Hb & Hbs & Hk & Hks). unfold parse_ordering, enc_ordering.
  eapply reads_bind; [apply reads_ue; unfold ue_ok; lia|].
  assert (add_u32 (poc_minus4 s) 4 = poc_minus4 s + 4) as ->.
  { apply wrapping_small. unfold in_width. lia. }
  cbv zeta. destruct (Z.ltb_spec 16 (poc_minus4 s + 4)); [lia|].
  apply (reads_bind _ _ _ [per_sub_layer s] _ (per_sub_layer s)); [apply reads_flag|].
  eapply (reads_bind _ _ _ _ _ (map snd (buffering s))).
  { replace (Z.to_nat _) with (length (buffering s)) by (unfold len in *; destruct (per_sub_layer s); lia).
    apply reads_repeat. intros t Hin. apply (proj1 (Forall_forall _ _) Hbs) in Hin as (H1 & H2 & H3).
    unfold enc_triple. do 2 (eapply reads_bind; [by apply reads_ue|]). by apply reads_ue. }
  apply (reads_map _ _ (fun _ => poc_minus4 s + 4) _ (block_sizes s)). by apply reads_ue_list.
Qed.

Lemma reads_scaling_list_data lists : scaling_data_ok lists ->
  reads data (scaling_list_data data) (enc_scaling_data lists) tt.
Proof.
  intros H. unfold scaling_list_data, enc_scaling_data.
  apply (reads_map _ _ (fun _ => tt) _ (map (map (fun _ => tt)) lists)). apply reads_for.
  assert (Forall (fun size_id => 0 <= size_id) [0; 1; 2; 3]) as Hpos by (repeat constructor; done).
  revert Hpos. unfold scaling_data_ok in H. induction H as [|size_id l sizes lists [Hl Hok] _ IH]; intros Hpos; [constructor|].
  apply Forall_cons in Hpos as [Hs Hpos]. constructor; [|auto]. apply reads_for.
  clear IH Hpos. revert Hl Hok. generalize (matrix_ids size_id) as ids. induction l as [|s l IHl]; intros [|i ids] Hl Hok; try done; constructor.
  - apply Forall_cons in Hok as [Hok _]. by apply reads_scaling_list.
  - apply Forall_cons in Hok as [_ Hok]. apply IHl; [by injection Hl|done].
Qed.

Lemma reads_tools s : tools_ok s -> reads data (parse_tools data) (enc_tools s) tt.
Proof.
  intros (Hs & Ha & Hp). unfold parse_tools, enc_tools.
  assert (Hpcm : reads data (pcm ← flag data; if (pcm : bool) then _ ← skip data 8; _ ← ue data; _ ← ue data; skip data 1 else mret tt)
                   (enc_opt enc_pcm (pcm s)) tt).
  { destruct (pcm s) as [p|] eqn:Ep; cbn [enc_opt].
    - apply (reads_bind _ _ _ [true] (enc_pcm p) true); [apply reads_flag|].
      destruct (Hp p eq_refl) as (H1 & H2 & H3). unfold enc_pcm.
      apply reads_bind_skip; [done|]. do 2 (eapply reads_bind; [by apply reads_ue|]). apply reads_skip_bit.
    - apply (reads_bind _ _ _ [false] [] false); [apply reads_flag|apply reads_ret]. }
  destruct (scaling s) as [[lists|]|] eqn:Es; cbn [enc_opt app].
  - apply (reads_bind _ _ _ [true] (true :: _ ++ _) true); [apply reads_flag|].
    apply (reads_bind _ _ _ [true] (_ ++ _) true); [apply reads_flag|].
    eapply reads_bind; [by apply reads_scaling_list_data, Hs|]. by apply reads_bind_skip.
  - apply (reads_bind _ _ _ [true] (false :: _ ++ _) true); [apply reads_flag|].
    apply (reads_bind _ _ _ [false] (_ ++ _) false); [apply reads_flag|].
    eapply reads_bind_nil; [apply reads_ret|]. by apply reads_bind_skip.
  - apply (reads_bind _ _ _ [false] (_ ++ _) false); [apply reads_flag|].
    do 2 (eapply reads_bind_nil; [apply reads_ret|]). by apply reads_bind_skip.
Qed.
End Front.

(** ** The whole parameter set *)

Record ReferencesSyntax := mkReferences {
  short_term : list RefPicsSyntax;
  long_term : option (list (list bool * bool))
}.

Record SignalSyntax := mkSignal { video_format : list bool; signal_range : bool; description : option (Z * Z * Z) }.

Record VuiSyntax := mkVui {
  aspect_ratio : option (Z * list bool);
  overscan : option bool;
  signal_type : option SignalSyntax
}.

Record SpsSyntax := mkSps {
  vps_id : list bool;
  temporal_nesting : bool;
  ptl : PtlSyntax;
  sps_id : Z;
  chroma_format : Z;
  separate_planes : bool;
  coded_width : Z;
  coded_height : Z;
  conformance : option ConformanceSyntax;
  luma_minus8 : Z;
  chroma_minus8 : Z;
  ordering : OrderingSyntax;
  tools : ToolsSyntax;
  references : ReferencesSyntax;
  temporal_mvp_smoothing : list bool;
  vui : option VuiSyntax
}.

Definition enc_long_term (l : list (list bool * bool)) : list bool :=
  enc_ue (len l) ++ concat (map (fun p => p.1 ++ [p.2]) l).

Definition enc_references (s : ReferencesSyntax) : list bool :=
  enc_ue (len (short_term s)) ++ enc_ref_pics_sets 0 (short_term s) ++ enc_opt enc_long_term (long_term s).

Definition references_ok (log2_max_poc_lsb : Z) (s : ReferencesSyntax) : Prop :=
  len (short_term s) <= 64 /\ ref_pics_sets_ok 0 [] (short_term s) /\
  (forall l, long_term s = Some l -> len l <= 32 /\ Forall (fun p => len p.1 = log2_max_poc_lsb) l).

Definition enc_aspect (a : Z * list bool) : list bool := enc_bits 8 a.1 ++ a.2.
Definition enc_colour (c : Z * Z * Z) : list bool := enc_bits 8 c.1.1 ++ enc_bits 8 c.1.2 ++ enc_bits 8 c.2.
Definition enc_signal (s : SignalSyntax) : list bool :=
  video_format s ++ [signal_range s] ++ enc_opt enc_colour (description s).
Definition enc_vui (s : VuiSyntax) : list bool :=
  enc_opt enc_aspect (aspect_ratio s) ++ enc_opt (fun b => [b]) (overscan s) ++ enc_opt enc_signal (signal_type s).

Definition byte_ok (v : Z) : Prop := 0 <= v < 256.

Definition vui_ok (s : VuiSyntax) : Prop :=
  (forall a, aspect_ratio s = Some a -> byte_ok a.1 /\ len a.2 = (if a.1 =? 255 then 32 else 0)) /\
  (forall t, signal_type s = Some t -> len (video_format t) = 3 /\
    forall c, description t = Some c -> byte_ok c.1.1 /\ byte_ok c.1.2 /\ byte_ok c.2).

(** Unspecified (2, 2, 2) where no description is coded (Annex E.3.1). *)
Definition vui_truth (s : VuiSyntax) : option HevcColourDescription :=
  t ← signal_type s;
  Some (match description t with
        | None => mkColour (signal_range t) 2 2 2
        | Some (p, tr, m) => mkColour (signal_range t) p tr m
        end).

Definition enc_sps (s : SpsSyntax) : list bool :=
  vps_id s ++ enc_bits 3 (len (sub_layers (ptl s))) ++ [temporal_nesting s] ++ enc_ptl (ptl s) ++
  enc_ue (sps_id s) ++ enc_ue (chroma_format s) ++
  (if chroma_format s =? 3 then [separate_planes s] else []) ++
  enc_ue (coded_width s) ++ enc_ue (coded_height s) ++ enc_opt enc_window (conformance s) ++
  enc_ue (luma_minus8 s) ++ enc_ue (chroma_minus8 s) ++ enc_ordering (ordering s) ++ enc_tools (tools s) ++
  enc_references (references s) ++ temporal_mvp_smoothing s ++ enc_opt enc_vui (vui s).

Definition sps_ok (s : SpsSyntax) : Prop :=
  len (vps_id s) = 4 /\ ptl_ok (ptl s) /\ ue_ok (sps_id s) /\
  0 <= chroma_format s <= 3 /\ (chroma_format s <> 3 -> separate_planes s = false) /\
  ue_ok (coded_width s) /\ ue_ok (coded_height s) /\
  (forall w, conformance s = Some w ->
     window_ok (chroma_format s) (separate_planes s) (coded_width s) (coded_height s) w) /\
  0 <= luma_minus8 s <= 8 /\ 0 <= chroma_minus8 s <= 8 /\
  ordering_ok (len (sub_layers (ptl s))) (ordering s) /\ tools_ok (tools s) /\
  references_ok (poc_minus4 (ordering s) + 4) (references s) /\
  len (temporal_mvp_smoothing s) = 2 /\ (forall v, vui s = Some v -> vui_ok v).

(** What a decoder is told. *)
Definition sps_truth (s : SpsSyntax) : HevcStreamTruth :=
  let shown := displayed (chroma_format s) (separate_planes s) (coded_width s) (coded_height s) (conformance s) in
  mkTruth (profile_value (ptl s)) (level_value (ptl s)) (chroma_format s)
    (luma_minus8 s + 8) (chroma_minus8 s + 8) (coded_width s) (coded_height s) shown.1 shown.2
    (v ← vui s; vui_truth v).

Section Whole.
Context (data : list Z).

Lemma reads_references n s : references_ok n s ->
  reads data (parse_references data n) (enc_references s) tt.
Proof.
  intros (Hl & Hs & Ht). unfold parse_references, enc_references.
  eapply reads_bind; [apply reads_ue; unfold ue_ok, len in *; lia|].
  destruct (Z.ltb_spec 64 (len (short_term s))); [lia|].
  replace (Z.to_nat (len (short_term s))) with (length (short_term s)) by (unfold len; lia).
  eapply reads_bind; [by apply reads_st_ref_pic_sets|].
  destruct (long_term s) as [l|] eqn:El; cbn [enc_opt].
  - destruct (Ht l eq_refl) as [Hn Hbits]. apply (reads_bind _ _ _ [true] (enc_long_term l) true); [apply reads_flag|].
    unfold enc_long_term. eapply reads_bind; [apply reads_ue; unfold ue_ok, len in *; lia|].
    destruct (Z.ltb_spec 32 (len l)); [lia|].
    apply (reads_map _ _ (fun _ => tt) _ (map (fun _ => tt) l)).
    replace (Z.to_nat (len l)) with (length l) by (unfold len; lia).
    apply reads_repeat. intros p Hin. apply (proj1 (Forall_forall _ _) Hbits) in Hin.
    apply reads_bind_skip; [done|]. apply reads_skip_bit.
  - apply (reads_bind _ _ _ [false] [] false); [apply reads_flag|apply reads_ret].
Qed.

Lemma reads_byte v : byte_ok v -> reads data (read data 8) (enc_bits 8 v) v.
Proof. intros H. by apply (reads_read data 8). Qed.

Lemma to_u8_byte v : byte_ok v -> to_u8 v = v.
Proof. intros H. unfold to_u8. change (umax 8) with 255. by destruct (Z.leb_spec v 255); unfold byte_ok in H; [|lia]. Qed.

Lemma reads_aspect o :
  (forall a, o = Some a -> byte_ok a.1 /\ len a.2 = (if a.1 =? 255 then 32 else 0)) ->
  reads data (aspect ← flag data;
              (if (aspect : bool) then idc ← read data 8; if idc =? 255 then skip data 32 else mret tt else mret tt))
    (enc_opt enc_aspect o) tt.
Proof.
  intros H. destruct o as [[idc bs]|]; cbn [enc_opt].
  - destruct (H _ eq_refl) as [Hb Hl]. cbn [fst snd] in *.
    apply (reads_bind _ _ _ [true] (enc_aspect (idc, bs)) true); [apply reads_flag|]. unfold enc_aspect.
    eapply reads_bind; [by apply reads_byte|]. cbn [fst snd].
    destruct (idc =? 255); [by apply reads_skip|].
    destruct bs as [|b bs]; [apply reads_ret|]. unfold len in Hl. cbn in Hl. lia.
  - apply (reads_bind _ _ _ [false] [] false); [apply reads_flag|apply reads_ret].
Qed.

Lemma reads_bind_assoc {A B C} (p : Parser A) (q : A -> Parser B) (k : B -> Parser C) bs c :
  reads data ((a ← p; q a) ≫= k) bs c -> reads data (a ← p; b ← q a; k b) bs c.
Proof.
  intros H pos rest Hp E. rewrite <- (H pos rest Hp E). unfold mbind, parser_bind.
  destruct (p pos) as [[a pos']|e]; done.
Qed.

Lemma reads_vui s : vui_ok s -> reads data (vui_colour data) (enc_vui s) (vui_truth s).
Proof.
  intros [Ha Ht]. unfold vui_colour, enc_vui. apply reads_bind_assoc.
  eapply reads_bind; [by apply reads_aspect|].
  apply reads_bind_assoc. eapply (reads_bind _ _ _ _ _ tt).
  { destruct (overscan s) as [b|]; cbn [enc_opt].
    - apply (reads_bind _ _ _ [true] [b] true); [apply reads_flag|apply reads_skip_bit].
    - apply (reads_bind _ _ _ [false] [] false); [apply reads_flag|apply reads_ret]. }
  unfold vui_truth. destruct (signal_type s) as [t|] eqn:Et; cbn [enc_opt mbind option_bind].
  2: { apply (reads_bind _ _ _ [false] [] false); [apply reads_flag|apply reads_ret]. }
  destruct (Ht t eq_refl) as [Hf Hd].
  apply (reads_bind _ _ _ [true] (enc_signal t) true); [apply reads_flag|]. cbn [negb]. unfold enc_signal.
  apply reads_bind_skip; [done|].
  apply (reads_bind _ _ _ [signal_range t] _ (signal_range t)); [apply reads_flag|].
  destruct (description t) as [[[p tr] m]|] eqn:Ed; cbn [enc_opt].
  2: { apply (reads_bind _ _ _ [false] [] false); [apply reads_flag|apply reads_ret]. }
  destruct (Hd _ eq_refl) as (H1 & H2 & H3). cbn [fst snd] in *.
  apply (reads_bind _ _ _ [true] (enc_colour (p, tr, m)) true); [apply reads_flag|]. cbn [negb].
  unfold enc_colour. cbn [fst snd]. do 2 (eapply reads_bind; [by apply reads_byte|]).
  rewrite <- (app_nil_r (enc_bits 8 m)). eapply reads_bind; [by apply reads_byte|].
  rewrite !to_u8_byte by done. apply reads_ret.
Qed.

Lemma reads_body s : sps_ok s -> reads data (parse_body data) (enc_sps s) (sps_truth s).
Proof.
  intros (Hvps & Hptl & Hid & Hc & Hsep & Hw & Hh & Hwin & Hl & Hch & Hord & Htools & Hrefs & Hmvp & Hvui).
  unfold parse_body, enc_sps. pose proof Hptl as (_ & _ & _ & _ & Hlev & Hsub & _ & _ & _).
  pose proof Hptl as (_ & Hprof & _).
  apply reads_bind_skip; [done|].
  eapply reads_bind; [apply (reads_read data 3); unfold len in *; lia|].
  eapply reads_bind; [apply reads_skip_bit|].
  eapply reads_bind; [by apply reads_profile_tier_level|]. cbn [fst snd].
  eapply reads_bind; [by apply reads_ue|].
  assert (forall v, 0 <= v <= 8 -> ue_ok v) as Hsmall by (unfold ue_ok; lia).
  eapply reads_bind; [apply reads_ue; unfold ue_ok; lia|].
  destruct (Z.ltb_spec 3 (chroma_format s)); [lia|].
  eapply (reads_bind _ _ _ _ _ (separate_planes s)).
  { destruct (Z.eqb_spec (chroma_format s) 3); [apply reads_flag|]. rewrite Hsep by done. apply reads_ret. }
  do 2 (eapply reads_bind; [by apply reads_ue|]).
  eapply reads_bind; [by apply reads_conformance_window|].
  do 2 (eapply reads_bind; [by apply reads_ue, Hsmall|]).
  assert (forall v, 0 <= v <= 8 -> add_u32 v 8 = v + 8) as Hadd.
  { intros v Hv. apply wrapping_small. unfold in_width. lia. }
  rewrite !Hadd by done. cbv zeta.
  destruct (Z.ltb_spec 16 (luma_minus8 s + 8)); [lia|]. destruct (Z.ltb_spec 16 (chroma_minus8 s + 8)); [lia|].
  cbn [orb].
  eapply reads_bind; [apply reads_ordering; [unfold len; lia|done]|].
  eapply reads_bind; [by apply reads_tools|].
  eapply reads_bind; [by apply reads_references|].
  apply reads_bind_skip; [done|].
  unfold sps_truth. cbv zeta. rewrite !to_u8_byte by (unfold byte_ok; lia).
  apply reads_bind_assoc. eapply (reads_map _ _ (fun c => mkTruth _ _ _ _ _ _ _ _ _ c)).
  destruct (vui s) as [v|] eqn:Ev; cbn [enc_opt mbind option_bind].
  - apply (reads_bind _ _ _ [true] (enc_vui v) true); [apply reads_flag|]. by apply reads_vui, Hvui.
  - apply (reads_bind _ _ _ [false] [] false); [apply reads_flag|apply reads_ret].
Qed.
End Whole.

(** ** Emulation prevention *)

(** What an encoder inserts (H.265 7.4.2). *)
Fixpoint escape_loop (rbsp : list Z) (zeros : Z) : list Z :=
  match rbsp with
  | [] => []
  | b :: rbsp =>
    if (2 <=? zeros) && (b <=? 3) then 3 :: b :: escape_loop rbsp (if b =? 0 then 1 else 0)
    else b :: escape_loop rbsp (if b =? 0 then zeros + 1 else 0)
  end.

Definition escape (rbsp : list Z) : list Z := escape_loop rbsp 0.

Lemma unescape_escape_loop rbsp : forall zeros, unescape_loop (escape_loop rbsp zeros) zeros = rbsp.
Proof.
  induction rbsp as [|b rbsp IH]; intros zeros; [done|]. cbn [escape_loop].
  destruct ((2 <=? zeros) && (b <=? 3)) eqn:E.
  - apply andb_true_iff in E as [E1 E2]. cbn [unescape_loop]. rewrite E1. cbn [andb].
    change (3 =? 3) with true. cbn [unescape_loop]. change (2 <=? 0) with false. cbn [andb].
    by rewrite Z.add_0_l, IH.
  - cbn [unescape_loop]. destruct ((2 <=? zeros) && (b =? 3)) eqn:E3; [lia|]. by rewrite IH.
Qed.

Lemma unescape_escape rbsp : unescape (escape rbsp) = rbsp.
Proof. apply unescape_escape_loop. Qed.

Lemma len_escape rbsp : rbsp <> [] -> 0 < len (escape rbsp).
Proof.
  destruct rbsp as [|b rbsp]; [done|]. intros _. unfold escape. cbn [escape_loop].
  change (2 <=? 0) with false. cbn [andb]. rewrite len_cons. pose proof (len_nonneg (escape_loop rbsp (if b =? 0 then 0 + 1 else 0))). lia.
Qed.

(** Bits in bytes, the last one filled up with zeros. *)
Fixpoint pack (n : nat) (bits : list bool) : list Z :=
  match n, bits with
  | S n, _ :: _ =>
    fold_left (fun acc b => 2 * acc + Z.b2z b) (take 8 (bits ++ replicate 7 false)) 0 :: pack n (drop 8 bits)
  | _, _ => []
  end.

(** The unit that carries a parameter set, after its two-byte header. *)
Definition sps_nal (h0 h1 : Z) (rbsp : list Z) : list Z := h0 :: h1 :: escape rbsp.

Lemma bits_of_nonempty rbsp s rest : sps_ok s -> bits_of rbsp = enc_sps s ++ rest -> rbsp <> [].
Proof.
  intros (Hv & _) E ->. cbn in E. apply (f_equal len) in E. unfold enc_sps in E.
  rewrite !len_app, Hv in E. change (len []) with 0 in E.
  repeat match type of E with context [len ?l] => pose proof (len_nonneg l); generalize dependent (len l); intros end. lia.
Qed.

Lemma parse_sps_nal h0 h1 s rbsp rest :
  is_sps_header [h0] = true -> sps_ok s -> bits_of rbsp = enc_sps s ++ rest ->
  parse_sps (sps_nal h0 h1 rbsp) = Ok (sps_truth s) /\ 2 < len (sps_nal h0 h1 rbsp).
Proof.
  intros Hh Hok E. pose proof (len_escape rbsp (bits_of_nonempty rbsp s rest Hok E)) as Hlen.
  unfold parse_sps, sps_nal. rewrite !len_cons.
  change (is_sps_header (h0 :: h1 :: escape rbsp)) with (is_sps_header [h0]). rewrite Hh.
  split; [|lia]. destruct (Z.ltb_spec (1 + (1 + len (escape rbsp))) 3); [lia|]. cbn [orb negb].
  change (slice_from (h0 :: h1 :: escape rbsp) 2) with (escape rbsp). rewrite unescape_escape.
  rewrite (reads_body rbsp s Hok 0 rest); [done| |].
  - pose proof (len_nonneg rbsp). lia.
  - by rewrite drop_0.
Qed.

(** The visiting closure keeps the first parameter set. *)
Lemma stream_fold found nals : is_some found = true ->
  foldl (fun found nal =>
      if negb (is_some found) && ((2 <? len nal) && is_sps_header nal) then Some (parse_sps nal) else found)
    found nals = found.
Proof. intros H. induction nals as [|nal nals IH]; [done|]. cbn [foldl]. by rewrite H. Qed.

Lemma stream_first before nal after :
  Forall (fun n => (2 <? len n) && is_sps_header n = false) before -> (2 <? len nal) && is_sps_header nal = true ->
  foldl (fun found nal =>
      if negb (is_some found) && ((2 <? len nal) && is_sps_header nal) then Some (parse_sps nal) else found)
    None (before ++ nal :: after) = Some (parse_sps nal).
Proof.
  intros Hb Hn. induction Hb as [|n before H _ IH]; cbn [app foldl is_some negb andb].
  - rewrite Hn. by apply stream_fold.
  - by rewrite H.
Qed.

(** ** What the parser promises *)

(** C33: Every well-formed parameter set is read for what it says: for any SPS
    syntax inside H.265's ranges, coded to bits, packed into bytes and escaped
    behind an SPS header, [parse_sps] returns its profile, level, chroma
    format, depths, coded and displayed size and colour, whatever follows the
    colour description; and [stream_truth_in_access_unit] returns the same of
    an Annex B access unit in which it is the first SPS. *)
Theorem stream_truth_exact (h0 h1 : Z) (s : SpsSyntax) (rbsp : list Z) (rest : list bool) (before after : list (list Z)) :
  is_sps_header [h0] = true -> sps_ok s -> bits_of rbsp = enc_sps s ++ rest ->
  parse_sps (sps_nal h0 h1 rbsp) = Ok (sps_truth s) /\
  (Forall nal_ok (before ++ sps_nal h0 h1 rbsp :: after) ->
   Forall (fun n => (2 <? len n) && is_sps_header n = false) before ->
   stream_truth_in_access_unit (annex_b (before ++ sps_nal h0 h1 rbsp :: after)) = Some (Ok (sps_truth s))).
Proof.
  intros Hh Hok E. destruct (parse_sps_nal h0 h1 s rbsp rest Hh Hok E) as [Hp Hl]. split; [done|].
  intros Hn Hb. unfold stream_truth_in_access_unit. rewrite for_each_annex_b_spec by done.
  cbn [mbind option_bind]. cbv zeta. rewrite stream_first; [by rewrite Hp|done|].
  unfold sps_nal in *. change (is_sps_header (h0 :: h1 :: escape rbsp)) with (is_sps_header [h0]).
  rewrite Hh. lia.
Qed.

(** A 1080p Main 4:2:0 parameter set, coded as 1088 rows, with BT.709 colour. *)
Definition sample_sps : SpsSyntax :=
  mkSps [false; false; false; false] true
    (mkPtl [false; false; false] 1 (replicate 32 false) (replicate 48 false) 120 [] [])
    0 1 false 1920 1088 (Some (mkWindow 0 0 0 4)) 0 0
    (mkOrdering 4 true [(4, 0, 0)] [0; 3; 0; 3; 0; 0])
    (mkTools None [false; true] None)
    (mkReferences [RefsExplicit [(0, true)] []] None)
    [false; false]
    (Some (mkVui (Some (1, [])) None (Some (mkSignal [true; false; true] false (Some (1, 1, 1)))))).

Definition sample_rbsp : list Z := pack 40 (enc_sps sample_sps ++ [true]).

Lemma stream_truth_exact_witness :
  stream_truth_in_access_unit (annex_b [[64; 1; 12]; sps_nal 66 1 sample_rbsp; [38; 1; 175]]) =
    Some (Ok (mkTruth 1 120 1 8 8 1920 1088 1920 1080 (Some (mkColour false 1 1 1)))).
Proof.
  assert (Hk : forall l n, len l = n -> forallb (fun k => negb (is_some (start_code_len l (Z.of_nat k)))) (seq 0 (Z.to_nat n)) = true ->
            forall k, 0 <= k < len l -> start_code_len l k = None).
  { intros l n <- H k Hk. rewrite forallb_forall in H. specialize (H (Z.to_nat k)).
    rewrite Z2Nat.id in H by lia. destruct (start_code_len l k); [|done].
    assert (false = true) by (apply H, in_seq; lia). done. }
  apply (stream_truth_exact 66 1 sample_sps sample_rbsp (drop (length (enc_sps sample_sps)) (bits_of sample_rbsp))
           [[64; 1; 12]] [[38; 1; 175]]).
  - reflexivity.
  - unfold sps_ok, ptl_ok, ordering_ok, tools_ok, references_ok, ue_ok; cbn [sample_sps vps_id ptl sps_id chroma_format
      separate_planes coded_width coded_height conformance luma_minus8 chroma_minus8 ordering tools references
      temporal_mvp_smoothing vui profile_space profile_value compatibility constraints level_value sub_layers alignment
      poc_minus4 per_sub_layer buffering block_sizes scaling amp_sao pcm short_term long_term].
    repeat match goal with
           | |- _ /\ _ => split
           | |- forall _, _ = _ -> _ => intros ? ?; simplify_eq
           | |- Forall _ _ => repeat constructor
           end; unfold len; cbn; try lia; try done.
    + split; [|done]. unfold len; cbn. repeat split; try lia. repeat constructor; unfold ue_ok; cbn; lia.
    + split.
      * intros a Ha. cbn in Ha. simplify_eq. done.
      * intros t Ht. cbn in Ht. simplify_eq. split; [done|]. intros c Hc. cbn in Hc. simplify_eq. done.
  - vm_compute. reflexivity.
  - repeat first [apply Forall_cons_2 | apply Forall_nil_2];
      (split; [unfold sps_nal; congruence|split; [vm_compute; congruence|eapply Hk; [reflexivity|vm_compute; reflexivity]]]).
  - repeat constructor.
Defined.

(** The offset of eight is added in 32 bits without a check: an SPS whose
    [bit_depth_luma_minus8] is 2^32 - 8 is accepted by the release build, with
    a bit depth of zero, although the code refuses depths over 16. *)
Theorem bit_depth_wraps :
  let s := sample_sps in
  let wrapped := mkSps (vps_id s) (temporal_nesting s) (ptl s) (sps_id s) (chroma_format s) (separate_planes s)
    (coded_width s) (coded_height s) (conformance s) (2 ^ 32 - 8) (chroma_minus8 s) (ordering s) (tools s)
    (references s) (temporal_mvp_smoothing s) (vui s) in
  parse_sps (sps_nal 66 1 (pack 60 (enc_sps wrapped))) =
    Ok (mkTruth 1 120 1 0 8 1920 1088 1920 1080 (Some (mkColour false 1 1 1))).
Proof. vm_compute. reflexivity. Qed.
