(* ===== verification/MediaRegion.v ===== *)
(** * Media: requested and applied regions

    Models [shared/media/src/region.rs]: fixed-point logical geometry, applied
    pixel geometry, and the rosters of one to four regions.  A [NonZeroU32] or
    [NonZeroU64] is the [Z] its constructor accepted; an output identity is the
    string of its bytes.  Field accessors and [Display] are left out. *)

From stdpp Require Import strings.
From S2P Require Import Prelude.

Definition LOGICAL_UNITS_PER_PIXEL : Z := 120.
Definition MAX_REGION_COUNT : Z := 4.
Definition MAX_OUTPUT_IDENTITY_BYTES : Z := 255.
Definition SCALE_DENOMINATOR : Z := 120.

(** ** Identities, points and sizes *)

Definition RegionId : Type := Z.
Definition OutputIdentity : Type := string.
Definition RegionGeneration : Type := Z.

Record LogicalPoint := mkLogicalPoint { lp_x : Z; lp_y : Z }.
Record LogicalSize := mkLogicalSize { ls_width : Z; ls_height : Z }.
Record LogicalRect := mkLogicalRect { lr_origin : LogicalPoint; lr_size : LogicalSize }.
Definition Scale120 : Type := Z.

Inductive OutputTransform :=
  Normal | Rotate90 | Rotate180 | Rotate270 | Flipped | Flipped90 | Flipped180 | Flipped270.

Record PhysicalSize := mkPhysicalSize { ps_width : Z; ps_height : Z }.
Record AppliedPoint := mkAppliedPoint { ap_x : Z; ap_y : Z }.
Record AppliedSize := mkAppliedSize { as_width : Z; as_height : Z }.
Record AppliedRect := mkAppliedRect { ar_origin : AppliedPoint; ar_size : AppliedSize }.

#[export] Instance RegionId_eq_dec : EqDecision RegionId := Z.eq_dec.
#[export] Instance OutputIdentity_eq_dec : EqDecision OutputIdentity.
Proof. unfold OutputIdentity. apply _. Defined.
#[export] Instance Scale120_eq_dec : EqDecision Scale120 := Z.eq_dec.
#[export] Instance LogicalPoint_eq_dec : EqDecision LogicalPoint.
Proof. solve_decision. Defined.
#[export] Instance LogicalSize_eq_dec : EqDecision LogicalSize.
Proof. solve_decision. Defined.
#[export] Instance LogicalRect_eq_dec : EqDecision LogicalRect.
Proof. solve_decision. Defined.
#[export] Instance OutputTransform_eq_dec : EqDecision OutputTransform.
Proof. solve_decision. Defined.
#[export] Instance PhysicalSize_eq_dec : EqDecision PhysicalSize.
Proof. solve_decision. Defined.
#[export] Instance AppliedPoint_eq_dec : EqDecision AppliedPoint.
Proof. solve_decision. Defined.
#[export] Instance AppliedSize_eq_dec : EqDecision AppliedSize.
Proof. solve_decision. Defined.
#[export] Instance AppliedRect_eq_dec : EqDecision AppliedRect.
Proof. solve_decision. Defined.

Inductive RegionContractError :=
| ZeroRegionId
| EmptyOutputIdentity
| OutputIdentityTooLong (length : Z)
| ZeroGeneration
| EmptyLogicalSize
| ZeroScale
| EmptyPhysicalSize
| EmptyAppliedSize
| RegionCoordinateOverflow
| UnsupportedRegionCount (count : Z)
| PrimaryRegionCount (count : Z)
| DuplicateRegionId (id : RegionId)
| DuplicateOutputIdentity (id : OutputIdentity)
| AppliedSizeMismatch (expected actual : AppliedSize).

Definition RegionId_new (value : Z) : result RegionContractError RegionId :=
  if value =? 0 then Err ZeroRegionId else Ok value.

Definition OutputIdentity_new (value : string) : result RegionContractError OutputIdentity :=
  let length := Z.of_nat (String.length value) in
  if length =? 0 then Err EmptyOutputIdentity
  else if MAX_OUTPUT_IDENTITY_BYTES <? length then Err (OutputIdentityTooLong length)
  else Ok value.

Definition RegionGeneration_new (value : Z) : result RegionContractError RegionGeneration :=
  if value =? 0 then Err ZeroGeneration else Ok value.

Definition Scale120_new (value : Z) : result RegionContractError Scale120 :=
  if value =? 0 then Err ZeroScale else Ok value.

(** [checked_mul] of two [i64]s. *)
Definition LogicalPoint_from_pixels (x y : Z) : result RegionContractError LogicalPoint :=
  x ← ok_or (try_signed 64 (x * LOGICAL_UNITS_PER_PIXEL)) RegionCoordinateOverflow;
  y ← ok_or (try_signed 64 (y * LOGICAL_UNITS_PER_PIXEL)) RegionCoordinateOverflow;
  Ok (mkLogicalPoint x y).

Definition LogicalSize_new (width height : Z) : result RegionContractError LogicalSize :=
  if (width =? 0) || (height =? 0) then Err EmptyLogicalSize else Ok (mkLogicalSize width height).

Definition LogicalSize_from_pixels (width height : Z) : result RegionContractError LogicalSize :=
  width ← ok_or (checked_mul 64 width LOGICAL_UNITS_PER_PIXEL) RegionCoordinateOverflow;
  height ← ok_or (checked_mul 64 height LOGICAL_UNITS_PER_PIXEL) RegionCoordinateOverflow;
  LogicalSize_new width height.

Definition checked_end (origin extent : Z) : result RegionContractError Z :=
  ok_or (try_signed 64 (origin + extent)) RegionCoordinateOverflow.

Definition LogicalRect_new (origin : LogicalPoint) (size : LogicalSize) : result RegionContractError LogicalRect :=
  _ ← checked_end (lp_x origin) (ls_width size);
  _ ← checked_end (lp_y origin) (ls_height size);
  Ok (mkLogicalRect origin size).

Definition LogicalRect_contains (r : LogicalRect) (p : LogicalPoint) : bool :=
  let right := lp_x (lr_origin r) + ls_width (lr_size r) in
  let bottom := lp_y (lr_origin r) + ls_height (lr_size r) in
  (lp_x (lr_origin r) <=? lp_x p) && (lp_x p <? right) &&
  (lp_y (lr_origin r) <=? lp_y p) && (lp_y p <? bottom).

Definition swaps_axes (t : OutputTransform) : bool :=
  match t with Rotate90 | Rotate270 | Flipped90 | Flipped270 => true | _ => false end.

Definition PhysicalSize_new (width height : Z) : result RegionContractError PhysicalSize :=
  if (width =? 0) || (height =? 0) then Err EmptyPhysicalSize else Ok (mkPhysicalSize width height).

Definition AppliedSize_new (width height : Z) : result RegionContractError AppliedSize :=
  if (width =? 0) || (height =? 0) then Err EmptyAppliedSize else Ok (mkAppliedSize width height).

Definition AppliedRect_new (origin : AppliedPoint) (size : AppliedSize) : result RegionContractError AppliedRect :=
  _ ← checked_end (ap_x origin) (as_width size);
  _ ← checked_end (ap_y origin) (as_height size);
  Ok (mkAppliedRect origin size).

Definition AppliedRect_contains (r : AppliedRect) (p : AppliedPoint) : bool :=
  let right := ap_x (ar_origin r) + as_width (ar_size r) in
  let bottom := ap_y (ar_origin r) + as_height (ar_size r) in
  (ap_x (ar_origin r) <=? ap_x p) && (ap_x p <? right) &&
  (ap_y (ar_origin r) <=? ap_y p) && (ap_y p <? bottom).

(** ** Regions and rosters *)

Record RegionDescriptor := mkDescriptor {
  rd_id : RegionId;
  rd_output_identity : OutputIdentity;
  rd_logical_rect : LogicalRect;
  rd_physical_size : PhysicalSize;
  rd_scale : Scale120;
  rd_transform : OutputTransform;
  rd_primary : bool
}.

#[export] Instance RegionDescriptor_eq_dec : EqDecision RegionDescriptor.
Proof. solve_decision. Defined.

Definition expected_applied_size (d : RegionDescriptor) : result RegionContractError AppliedSize :=
  let p := rd_physical_size d in
  if swaps_axes (rd_transform d) then AppliedSize_new (ps_height p) (ps_width p)
  else AppliedSize_new (ps_width p) (ps_height p).

(** The loop over the roster, with the sets of identities seen. *)
Fixpoint duplicate_identity (region_ids : list RegionId) (output_ids : list OutputIdentity)
  (regions : list RegionDescriptor) : result RegionContractError unit :=
  match regions with
  | [] => Ok tt
  | r :: regions =>
    if bool_decide (rd_id r ∈ region_ids) then Err (DuplicateRegionId (rd_id r))
    else if bool_decide (rd_output_identity r ∈ output_ids)
    then Err (DuplicateOutputIdentity (rd_output_identity r))
    else duplicate_identity (rd_id r :: region_ids) (rd_output_identity r :: output_ids) regions
  end.

(** [iter().position(..)]. *)
Fixpoint position {A} (p : A -> bool) (l : list A) : option Z :=
  match l with
  | [] => None
  | a :: l => if p a then Some 0 else option_map Z.succ (position p l)
  end.

Definition validate_descriptors (regions : list RegionDescriptor) : result RegionContractError Z :=
  if negb ((1 <=? len regions) && (len regions <=? MAX_REGION_COUNT))
  then Err (UnsupportedRegionCount (len regions))
  else
    let primary_count := len (filter (fun r => rd_primary r = true) regions) in
    if negb (primary_count =? 1) then Err (PrimaryRegionCount primary_count)
    else
      _ ← duplicate_identity [] [] regions;
      ok_or (position rd_primary regions) (PrimaryRegionCount 0).

Record RegionSet := mkRegionSet {
  set_generation : RegionGeneration;
  set_regions : list RegionDescriptor;
  set_primary_index : Z
}.

Definition RegionSet_new (generation : RegionGeneration) (regions : list RegionDescriptor)
  : result RegionContractError RegionSet :=
  primary_index ← validate_descriptors regions;
  Ok (mkRegionSet generation regions primary_index).

(** The index is out of bounds, a panic, where there is no such region. *)
Definition RegionSet_primary (s : RegionSet) : option RegionDescriptor :=
  read_at (set_regions s) (set_primary_index s).

Definition RegionSet_get (s : RegionSet) (id : RegionId) : option RegionDescriptor :=
  snd <$> list_find (fun r => rd_id r = id) (set_regions s).

Record AppliedRegionDescriptor := mkAppliedDescriptor {
  ad_descriptor : RegionDescriptor;
  ad_applied_rect : AppliedRect
}.

Definition AppliedRegionDescriptor_new (descriptor : RegionDescriptor) (applied_rect : AppliedRect)
  : result RegionContractError AppliedRegionDescriptor :=
  expected ← expected_applied_size descriptor;
  if negb (bool_decide (expected = ar_size applied_rect))
  then Err (AppliedSizeMismatch expected (ar_size applied_rect))
  else Ok (mkAppliedDescriptor descriptor applied_rect).

Record AppliedRegionSet := mkAppliedSet {
  applied_generation : RegionGeneration;
  applied_regions : list AppliedRegionDescriptor;
  applied_primary_index : Z
}.

Definition AppliedRegionSet_new (generation : RegionGeneration) (regions : list AppliedRegionDescriptor)
  : result RegionContractError AppliedRegionSet :=
  primary_index ← validate_descriptors (map ad_descriptor regions);
  Ok (mkAppliedSet generation regions primary_index).

Definition AppliedRegionSet_primary (s : AppliedRegionSet) : option AppliedRegionDescriptor :=
  read_at (applied_regions s) (applied_primary_index s).

Definition AppliedRegionSet_get (s : AppliedRegionSet) (id : RegionId) : option AppliedRegionDescriptor :=
  snd <$> list_find (fun r => rd_id (ad_descriptor r) = id) (applied_regions s).

(** ** What a roster promises *)

(** One to four regions, no identity twice, one primary at [i]. *)
Definition roster (regions : list RegionDescriptor) (i : Z) : Prop :=
  1 <= len regions <= MAX_REGION_COUNT /\
  NoDup (map rd_id regions) /\ NoDup (map rd_output_identity regions) /\
  exists pre r post, regions = pre ++ r :: post /\ i = len pre /\ rd_primary r = true /\
    Forall (fun r => rd_primary r = false) (pre ++ post).

Lemma duplicate_identity_Ok regions : forall ids outs,
  NoDup ids -> NoDup outs ->
  duplicate_identity ids outs regions = Ok tt <->
    NoDup (map rd_id regions ++ ids) /\ NoDup (map rd_output_identity regions ++ outs).
Proof.
  induction regions as [|r regions IH]; intros ids outs Hi Ho; cbn [duplicate_identity map app]; [done|].
  rewrite !NoDup_cons, !elem_of_app.
  case_bool_decide as H1; [split; [done|tauto]|].
  case_bool_decide as H2; [split; [done|tauto]|].
  rewrite IH by (constructor; done).
  rewrite <- !Permutation_middle, !NoDup_cons, !elem_of_app. tauto.
Qed.

Lemma position_Some {A} (p : A -> bool) l i :
  position p l = Some i <->
    exists pre a post, l = pre ++ a :: post /\ i = len pre /\ p a = true /\ Forall (fun a => p a = false) pre.
Proof.
  revert i. induction l as [|a l IH]; intros i; cbn [position].
  - split; [done|]. intros ([|? ?] & ? & ? & ? & _); done.
  - destruct (p a) eqn:E.
    + split.
      * intros [= <-]. exists [], a, l. auto.
      * intros ([|b pre] & c & post & [= -> ->] & -> & Hc & Hpre); [done|].
        apply Forall_cons in Hpre as [Hb _]. congruence.
    + split.
      * destruct (position p l) as [j|] eqn:Ej; [|done]. cbn. intros [= <-].
        destruct (proj1 (IH j) eq_refl) as (pre & c & post & -> & -> & Hc & Hpre).
        exists (a :: pre), c, post. rewrite len_cons. repeat split; [lia|done|by constructor].
      * intros ([|b pre] & c & post & [= -> ->] & -> & Hc & Hpre); [congruence|].
        apply Forall_cons in Hpre as [_ Hpre].
        rewrite (proj2 (IH (len pre))) by (exists pre, c, post; auto). cbn. rewrite len_cons. f_equal. lia.
Qed.

Lemma primary_count_one (pre post : list RegionDescriptor) r :
  rd_primary r = true ->
  len (filter (fun r => rd_primary r = true) (pre ++ r :: post)) = 1 <->
  Forall (fun r => rd_primary r = false) (pre ++ post).
Proof.
  intros Hr. rewrite filter_app, filter_cons_True, len_app, len_cons by done. rewrite Forall_app.
  assert (H0 : forall l, len (filter (fun r => rd_primary r = true) l) = 0 <-> Forall (fun r => rd_primary r = false) l).
  { intros l. induction l as [|b l IH]; [by split|]. rewrite filter_cons, Forall_cons, <- IH.
    case_decide as E.
    - rewrite len_cons. pose proof (len_nonneg (filter (fun r => rd_primary r = true) l)).
      split; [lia|intros [E' _]; congruence].
    - destruct (rd_primary b); [done|tauto]. }
  rewrite <- !H0. pose proof (len_nonneg (filter (fun r => rd_primary r = true) pre)).
  pose proof (len_nonneg (filter (fun r => rd_primary r = true) post)). lia.
Qed.

Lemma validate_descriptors_Ok regions i : validate_descriptors regions = Ok i <-> roster regions i.
Proof.
  unfold validate_descriptors, roster.
  destruct (negb ((1 <=? len regions) && (len regions <=? MAX_REGION_COUNT))) eqn:En.
  { split; [done|]. intros [H _]. lia. }
  cbv zeta. rewrite <- (app_nil_r (map rd_id regions)), <- (app_nil_r (map rd_output_identity regions)).
  pose proof (duplicate_identity_Ok regions [] [] (NoDup_nil_2) (NoDup_nil_2)) as Hd.
  destruct (Z.eqb_spec (len (filter (fun r => rd_primary r = true) regions)) 1) as [E1|E1]; cbn [negb].
  - rewrite bind_Ok. setoid_rewrite ok_or_Ok. setoid_rewrite position_Some. split.
    + intros ([] & Hu & pre & r & post & -> & -> & Hr & Hpre). apply Hd in Hu as [H1 H2].
      apply (primary_count_one pre post r Hr) in E1. repeat split; try done; try lia. by exists pre, r, post.
    + intros (_ & H1 & H2 & pre & r & post & -> & -> & Hr & Hall). exists tt. split; [by apply Hd|].
      exists pre, r, post. apply Forall_app in Hall as [Hpre _]. done.
  - split; [done|]. intros (_ & _ & _ & pre & r & post & -> & -> & Hr & Hall). destruct E1.
    by apply (primary_count_one pre post r Hr).
Qed.

Lemma read_at_middle {A} (pre : list A) a post : read_at (pre ++ a :: post) (len pre) = Some a.
Proof.
  unfold read_at. pose proof (len_nonneg pre). destruct (Z.ltb_spec (len pre) 0); [lia|].
  unfold len. rewrite Nat2Z.id, lookup_app_r by done. by rewrite Nat.sub_diag.
Qed.

(** Looking a region up by its identity. *)
Lemma AppliedRegionSet_get_Some s id r :
  AppliedRegionSet_get s id = Some r -> r ∈ applied_regions s /\ rd_id (ad_descriptor r) = id.
Proof.
  unfold AppliedRegionSet_get. destruct (list_find _ (applied_regions s)) as [[k r']|] eqn:E; [|done].
  cbn. intros [= ->]. apply list_find_Some in E as (E & H & _). split; [by eapply list_elem_of_lookup_2|done].
Qed.

(** A region set that came out of the constructors: rectangles whose bounds fit
    in [i64], nonempty sizes, a footprint that is the transformed stream. *)
Record descriptor_ok (d : RegionDescriptor) : Prop := {
  dok_id : 0 < rd_id d < 2 ^ 32;
  dok_logical : 0 < ls_width (lr_size (rd_logical_rect d)) < 2 ^ 64 /\ 0 < ls_height (lr_size (rd_logical_rect d)) < 2 ^ 64;
  dok_physical : 0 < ps_width (rd_physical_size d) < 2 ^ 32 /\ 0 < ps_height (rd_physical_size d) < 2 ^ 32
}.

Record applied_ok (r : AppliedRegionDescriptor) : Prop := {
  aok_descriptor : descriptor_ok (ad_descriptor r);
  aok_size : expected_applied_size (ad_descriptor r) = Ok (ar_size (ad_applied_rect r));
  aok_origin : in_signed 64 (ap_x (ar_origin (ad_applied_rect r))) /\ in_signed 64 (ap_y (ar_origin (ad_applied_rect r)));
  aok_end :
    in_signed 64 (ap_x (ar_origin (ad_applied_rect r)) + as_width (ar_size (ad_applied_rect r))) /\
    in_signed 64 (ap_y (ar_origin (ad_applied_rect r)) + as_height (ar_size (ad_applied_rect r)))
}.

Record applied_set_ok (s : AppliedRegionSet) : Prop := {
  aso_generation : 0 < applied_generation s < 2 ^ 64;
  aso_regions : Forall applied_ok (applied_regions s)
}.

Lemma AppliedRegionSet_get_ok s id r :
  applied_set_ok s -> AppliedRegionSet_get s id = Some r -> applied_ok r /\ rd_id (ad_descriptor r) = id.
Proof.
  intros [_ H] Hg. apply AppliedRegionSet_get_Some in Hg as [Hin Hid].
  split; [|done]. exact (proj1 (Forall_forall _ _) H r Hin).
Qed.

Lemma AppliedRect_new_Ok origin size r :
  AppliedRect_new origin size = Ok r <->
    r = mkAppliedRect origin size /\
    in_signed 64 (ap_x origin + as_width size) /\ in_signed 64 (ap_y origin + as_height size).
Proof.
  unfold AppliedRect_new, checked_end. rewrite bind_Ok. setoid_rewrite ok_or_Ok. setoid_rewrite try_signed_Some.
  setoid_rewrite bind_Ok. setoid_rewrite ok_or_Ok. setoid_rewrite try_signed_Some.
  split; [intros (? & (_ & ?) & ? & (_ & ?) & [= <-]); auto|]. intros (-> & ? & ?).
  eexists. split; [eauto|]. eexists. eauto.
Qed.

(** The region roster is exactly what its documentation says: a requested
    set is built precisely when there are one to four regions, no region or
    output identity occurs twice and exactly one region is primary; the stored
    primary index is that region's, so [primary] never indexes out of bounds;
    and [get] finds every region by its identity. *)
Theorem region_roster_exact (generation : RegionGeneration) (regions : list RegionDescriptor) (s : RegionSet) :
  RegionSet_new generation regions = Ok s <->
    exists i, roster regions i /\ s = mkRegionSet generation regions i /\
      (exists r, RegionSet_primary s = Some r /\ rd_primary r = true) /\
      (forall r, r ∈ regions -> RegionSet_get s (rd_id r) = Some r).
Proof.
  unfold RegionSet_new. rewrite bind_Ok. setoid_rewrite validate_descriptors_Ok. split.
  - intros (i & Hr & [= <-]). exists i. split; [done|]. split; [done|].
    destruct Hr as (_ & Hid & _ & pre & r & post & Er & -> & Hp & _). split.
    + exists r. split; [|done]. unfold RegionSet_primary. cbn [set_regions set_primary_index].
      rewrite Er. apply read_at_middle.
    + intros r' [k Hk]%list_elem_of_lookup. unfold RegionSet_get. cbn [set_regions].
      rewrite (proj2 (list_find_Some _ regions k r')); [done|]. split; [done|]. split; [done|].
      intros j y Hj Hlt Heq.
      assert (j = k); [|lia]. eapply (NoDup_lookup (map rd_id regions)); [done| |].
      * rewrite list_lookup_fmap. by rewrite Hj.
      * rewrite list_lookup_fmap, Hk. cbn. by rewrite Heq.
  - intros (i & Hr & -> & _). by exists i.
Qed.
