(* ===== verification/RegionTransform.v ===== *)
(** * Input: region coordinates

    Models [shared/input/src/region.rs]: the mapping between a region's
    fixed-point logical coordinates and the pixels of the applied desktop, in
    exact rounded integer ratios, through the output's rotation or reflection. *)

From stdpp Require Import strings.
From S2P Require Import Prelude MediaRegion.

Inductive CoordinateTransformError :=
| TransformUnknownRegion (id : RegionId)
| LogicalPointOutsideRegion
| AppliedPointOutsideRegion
| CoordinateOverflow.

Definition local_coordinate (coordinate extent : Z) : result CoordinateTransformError Z :=
  coordinate ← ok_or (try_unsigned 64 coordinate) LogicalPointOutsideRegion;
  if extent <=? coordinate then Err LogicalPointOutsideRegion else Ok coordinate.

Definition rounded_ratio (numerator denominator : Z) : result CoordinateTransformError Z :=
  sum ← ok_or (checked_add 128 numerator (denominator / 2)) CoordinateOverflow;
  ok_or (try_signed 64 (sum / denominator)) CoordinateOverflow.

Definition map_axis_forward (coordinate logical_extent physical_extent : Z) : result CoordinateTransformError Z :=
  if (logical_extent =? 1) || (physical_extent =? 1) then Ok 0
  else
    numerator ← ok_or (checked_mul 128 coordinate (physical_extent - 1)) CoordinateOverflow;
    rounded_ratio numerator (logical_extent - 1).

Definition map_axis_inverse (coordinate logical_extent physical_extent : Z) : result CoordinateTransformError Z :=
  if (logical_extent =? 1) || (physical_extent =? 1) then Ok 0
  else
    coordinate ← ok_or (try_unsigned 64 coordinate) CoordinateOverflow;
    numerator ← ok_or (checked_mul 128 coordinate (logical_extent - 1)) CoordinateOverflow;
    rounded_ratio numerator (physical_extent - 1).

(** [i64::checked_add] and [i64::checked_sub]. *)
Definition transform_checked_add (left_ right_ : Z) : result CoordinateTransformError Z :=
  ok_or (try_signed 64 (left_ + right_)) CoordinateOverflow.
Definition transform_checked_sub (left_ right_ : Z) : result CoordinateTransformError Z :=
  ok_or (try_signed 64 (left_ - right_)) CoordinateOverflow.

Definition transform_forward (t : OutputTransform) (x y max_x max_y : Z) : Z * Z :=
  match t with
  | Normal => (x, y)
  | Rotate90 => (max_y - y, x)
  | Rotate180 => (max_x - x, max_y - y)
  | Rotate270 => (y, max_x - x)
  | Flipped => (max_x - x, y)
  | Flipped90 => (max_y - y, max_x - x)
  | Flipped180 => (x, max_y - y)
  | Flipped270 => (y, x)
  end.

Definition transform_inverse (t : OutputTransform) (x y max_x max_y : Z) : Z * Z :=
  match t with
  | Normal => (x, y)
  | Rotate90 => (y, max_y - x)
  | Rotate180 => (max_x - x, max_y - y)
  | Rotate270 => (max_x - y, x)
  | Flipped => (max_x - x, y)
  | Flipped90 => (max_x - y, max_y - x)
  | Flipped180 => (x, max_y - y)
  | Flipped270 => (y, x)
  end.

Definition transformer_region (regions : AppliedRegionSet) (id : RegionId)
  : result CoordinateTransformError AppliedRegionDescriptor :=
  ok_or (AppliedRegionSet_get regions id) (TransformUnknownRegion id).

Definition logical_to_applied (regions : AppliedRegionSet) (id : RegionId) (point : LogicalPoint)
  : result CoordinateTransformError AppliedPoint :=
  region ← transformer_region regions id;
  let logical_size := lr_size (rd_logical_rect (ad_descriptor region)) in
  x ← local_coordinate (lp_x point) (ls_width logical_size);
  y ← local_coordinate (lp_y point) (ls_height logical_size);
  let physical := rd_physical_size (ad_descriptor region) in
  x ← map_axis_forward x (ls_width logical_size) (ps_width physical);
  y ← map_axis_forward y (ls_height logical_size) (ps_height physical);
  let max_x := ps_width physical - 1 in
  let max_y := ps_height physical - 1 in
  let xy := transform_forward (rd_transform (ad_descriptor region)) x y max_x max_y in
  let origin := ar_origin (ad_applied_rect region) in
  x ← transform_checked_add (ap_x origin) xy.1;
  y ← transform_checked_add (ap_y origin) xy.2;
  Ok (mkAppliedPoint x y).

Definition applied_to_logical (regions : AppliedRegionSet) (id : RegionId) (point : AppliedPoint)
  : result CoordinateTransformError LogicalPoint :=
  region ← transformer_region regions id;
  if negb (AppliedRect_contains (ad_applied_rect region) point) then Err AppliedPointOutsideRegion
  else
    let origin := ar_origin (ad_applied_rect region) in
    x ← transform_checked_sub (ap_x point) (ap_x origin);
    y ← transform_checked_sub (ap_y point) (ap_y origin);
    let physical := rd_physical_size (ad_descriptor region) in
    let max_x := ps_width physical - 1 in
    let max_y := ps_height physical - 1 in
    let xy := transform_inverse (rd_transform (ad_descriptor region)) x y max_x max_y in
    let logical_size := lr_size (rd_logical_rect (ad_descriptor region)) in
    x ← map_axis_inverse xy.1 (ls_width logical_size) (ps_width physical);
    y ← map_axis_inverse xy.2 (ls_height logical_size) (ps_height physical);
    Ok (mkLogicalPoint x y).

(** ** Lemmas: rounded ratios *)

(** [n / d] rounded to the nearest integer, halves up. *)
Definition nearest (n d : Z) : Z := (n + d / 2) / d.

Lemma nearest_spec n d : 0 < d -> 2 * n - d <= 2 * d * nearest n d <= 2 * n + d.
Proof.
  intros Hd. unfold nearest.
  pose proof (Z.div_mod (n + d / 2) d ltac:(lia)). pose proof (Z.mod_pos_bound (n + d / 2) d Hd).
  pose proof (Z.div_mod d 2 ltac:(lia)). pose proof (Z.mod_pos_bound d 2 ltac:(lia)). nia.
Qed.

Lemma nearest_unique n d q : 0 < d -> 2 * n - d < 2 * d * q < 2 * n + d -> nearest n d = q.
Proof. intros Hd Hq. pose proof (nearest_spec n d Hd). nia. Qed.

Lemma nearest_mono n n' d : 0 < d -> n <= n' -> nearest n d <= nearest n' d.
Proof. intros Hd Hn. unfold nearest. apply Z.div_le_mono; lia. Qed.

Lemma nearest_0 d : 0 < d -> nearest 0 d = 0.
Proof. intros Hd. apply nearest_unique; lia. Qed.

Lemma nearest_mul q d : 0 < d -> nearest (q * d) d = q.
Proof. intros Hd. apply nearest_unique; lia. Qed.

Lemma nearest_bounds n d q : 0 < d -> 0 <= n <= q * d -> 0 <= nearest n d <= q.
Proof.
  intros Hd Hn. pose proof (nearest_mono 0 n d Hd ltac:(lia)). pose proof (nearest_mono n (q * d) d Hd ltac:(lia)).
  rewrite nearest_0, nearest_mul in * by done. lia.
Qed.

Lemma rounded_ratio_nearest n d q :
  0 < d < 2 ^ 64 -> 0 <= n <= q * d -> 0 <= q < 2 ^ 63 -> rounded_ratio n d = Ok (nearest n d).
Proof.
  intros Hd Hn Hq. unfold rounded_ratio.
  pose proof (Z.div_mod d 2 ltac:(lia)). pose proof (Z.mod_pos_bound d 2 ltac:(lia)).
  assert (checked_add 128 n (d / 2) = Some (n + d / 2)) as ->.
  { apply checked_add_Some. split; [done|]. unfold umax. nia. }
  cbn [ok_or mbind result_bind]. pose proof (nearest_bounds n d q ltac:(lia) Hn) as Hb. unfold nearest in *.
  assert (try_signed 64 ((n + d / 2) / d) = Some ((n + d / 2) / d)) as ->; [|done].
  apply try_signed_Some. unfold in_signed. split; [done|]. lia.
Qed.

(** The pixel of a logical coordinate: [x * (P - 1) / (L - 1)] to the nearest. *)
Definition axis (x logical physical : Z) : Z :=
  if (logical =? 1) || (physical =? 1) then 0 else nearest (x * (physical - 1)) (logical - 1).

Section Axis.
Context (logical physical : Z) (Hl : 0 < logical < 2 ^ 64) (Hp : 0 < physical < 2 ^ 32).

Lemma map_axis_forward_axis x :
  0 <= x < logical -> map_axis_forward x logical physical = Ok (axis x logical physical).
Proof.
  intros Hx. unfold map_axis_forward, axis.
  destruct (Z.eqb_spec logical 1) as [|Hl1], (Z.eqb_spec physical 1) as [|Hp1]; cbn [orb]; try done.
  assert (checked_mul 128 x (physical - 1) = Some (x * (physical - 1))) as ->.
  { apply checked_mul_Some. split; [done|]. unfold umax. nia. }
  cbn [ok_or mbind result_bind]. apply (rounded_ratio_nearest _ _ (physical - 1)); [lia|nia|lia].
Qed.

Lemma axis_range x : 0 <= x < logical -> 0 <= axis x logical physical < physical.
Proof.
  intros Hx. unfold axis. destruct (Z.eqb_spec logical 1), (Z.eqb_spec physical 1); cbn [orb]; try lia.
  pose proof (nearest_bounds (x * (physical - 1)) (logical - 1) (physical - 1) ltac:(lia) ltac:(nia)). lia.
Qed.

Lemma axis_mono x x' : x <= x' -> axis x logical physical <= axis x' logical physical.
Proof.
  intros Hx. unfold axis. destruct (Z.eqb_spec logical 1), (Z.eqb_spec physical 1); cbn [orb]; try lia.
  apply nearest_mono; nia.
Qed.

Lemma axis_first : axis 0 logical physical = 0.
Proof.
  unfold axis. destruct (Z.eqb_spec logical 1), (Z.eqb_spec physical 1); cbn [orb]; try done.
  rewrite Z.mul_0_l. apply nearest_0. lia.
Qed.

Lemma axis_last : 1 < logical -> axis (logical - 1) logical physical = physical - 1.
Proof.
  intros H1. unfold axis. destruct (Z.eqb_spec logical 1), (Z.eqb_spec physical 1); cbn [orb]; try lia.
  rewrite Z.mul_comm. apply nearest_mul. lia.
Qed.

(** The way back, for regions at least as fine as their pixels. *)
Lemma map_axis_inverse_axis p :
  physical <= logical < 2 ^ 63 -> 0 <= p < physical ->
  exists x, map_axis_inverse p logical physical = Ok x /\ 0 <= x < logical /\ axis x logical physical = p.
Proof.
  intros Hle Hpx. unfold map_axis_inverse.
  destruct (Z.eqb_spec logical 1) as [|Hl1]; cbn [orb].
  { exists 0. rewrite axis_first. repeat split; lia. }
  destruct (Z.eqb_spec physical 1) as [|Hp1]; cbn [orb].
  { exists 0. rewrite axis_first. repeat split; lia. }
  assert (try_unsigned 64 p = Some p) as ->.
  { apply try_unsigned_Some. unfold in_width. split; [done|]. lia. }
  cbn [ok_or mbind result_bind].
  assert (checked_mul 128 p (logical - 1) = Some (p * (logical - 1))) as ->.
  { apply checked_mul_Some. split; [done|]. unfold umax. nia. }
  cbn [ok_or mbind result_bind].
  rewrite (rounded_ratio_nearest _ _ (logical - 1)) by (lia || nia).
  pose proof (nearest_bounds (p * (logical - 1)) (physical - 1) (logical - 1) ltac:(lia) ltac:(nia)) as Hb.
  eexists. split; [reflexivity|]. split; [lia|].
  set (x := nearest (p * (logical - 1)) (physical - 1)) in *.
  pose proof (nearest_spec (p * (logical - 1)) (physical - 1) ltac:(lia)) as Hs. fold x in Hs.
  unfold axis. destruct (Z.eqb_spec logical 1), (Z.eqb_spec physical 1); try lia. cbn [orb].
  destruct (Z.eq_dec logical physical) as [->|Hne].
  - assert (x = p) as -> by nia. apply nearest_mul. lia.
  - apply nearest_unique; [lia|]. nia.
Qed.
End Axis.

(** ** Lemmas: rotations and reflections *)

Lemma transform_forward_inverse t x y mx my :
  transform_forward t (transform_inverse t x y mx my).1 (transform_inverse t x y mx my).2 mx my = (x, y).
Proof. destruct t; cbn; f_equal; lia. Qed.

(** The footprint of a [w] by [h] stream. *)
Definition footprint (t : OutputTransform) (w h : Z) : Z * Z := if swaps_axes t then (h, w) else (w, h).

Lemma transform_forward_range t x y w h :
  0 <= x < w -> 0 <= y < h ->
  let p := transform_forward t x y (w - 1) (h - 1) in
  0 <= p.1 < (footprint t w h).1 /\ 0 <= p.2 < (footprint t w h).2.
Proof. intros Hx Hy. destruct t; cbn; lia. Qed.

Lemma transform_inverse_range t x y w h :
  0 <= x < (footprint t w h).1 -> 0 <= y < (footprint t w h).2 ->
  let p := transform_inverse t x y (w - 1) (h - 1) in 0 <= p.1 < w /\ 0 <= p.2 < h.
Proof. intros Hx Hy. destruct t; cbn in *; lia. Qed.

Lemma expected_applied_size_footprint d s :
  expected_applied_size d = Ok s ->
  (as_width s, as_height s) = footprint (rd_transform d) (ps_width (rd_physical_size d)) (ps_height (rd_physical_size d)).
Proof.
  unfold expected_applied_size, footprint, AppliedSize_new. intros H.
  destruct (swaps_axes (rd_transform d)); destruct (_ || _); try done; apply Ok_inj in H; by subst s.
Qed.

Section Region.
Context (r : AppliedRegionDescriptor) (Hr : applied_ok r).

Abbreviation desc := (ad_descriptor r).
Abbreviation L := (lr_size (rd_logical_rect desc)).
Abbreviation P := (rd_physical_size desc).
Abbreviation O := (ar_origin (ad_applied_rect r)).

Lemma region_footprint :
  as_width (ar_size (ad_applied_rect r)) = (footprint (rd_transform desc) (ps_width P) (ps_height P)).1 /\
  as_height (ar_size (ad_applied_rect r)) = (footprint (rd_transform desc) (ps_width P) (ps_height P)).2.
Proof.
  destruct Hr as [_ Hs _ _]. apply expected_applied_size_footprint in Hs.
  rewrite <- Hs. done.
Qed.

(** The pixel of a point: its axes scaled, turned, and moved to the region. *)
Definition pixel_of (p : LogicalPoint) : AppliedPoint :=
  let xy := transform_forward (rd_transform desc) (axis (lp_x p) (ls_width L) (ps_width P))
              (axis (lp_y p) (ls_height L) (ps_height P)) (ps_width P - 1) (ps_height P - 1) in
  mkAppliedPoint (ap_x O + xy.1) (ap_y O + xy.2).

Definition inside (p : LogicalPoint) : bool :=
  (0 <=? lp_x p) && (lp_x p <? ls_width L) && ((0 <=? lp_y p) && (lp_y p <? ls_height L)).

Lemma local_coordinate_spec c extent :
  0 < extent < 2 ^ 64 ->
  local_coordinate c extent = if (0 <=? c) && (c <? extent) then Ok c else Err LogicalPointOutsideRegion.
Proof.
  intros He. unfold local_coordinate, try_unsigned, umax.
  destruct (Z.leb_spec 0 c), (Z.leb_spec c (2 ^ 64 - 1)), (Z.ltb_spec c extent); cbn [andb ok_or mbind result_bind];
    try lia; try done; destruct (Z.leb_spec extent c); try lia; done.
Qed.

Lemma pixel_of_contained p : inside p = true -> AppliedRect_contains (ad_applied_rect r) (pixel_of p) = true.
Proof.
  intros Hin. unfold inside in Hin. destruct Hr as [[_ [Hw Hh] [Hpw Hph]] _ _ _].
  pose proof (transform_forward_range (rd_transform desc) (axis (lp_x p) (ls_width L) (ps_width P))
    (axis (lp_y p) (ls_height L) (ps_height P)) (ps_width P) (ps_height P)
    (axis_range _ _ Hw Hpw (lp_x p) ltac:(lia)) (axis_range _ _ Hh Hph (lp_y p) ltac:(lia))) as [H1 H2].
  destruct region_footprint as [F1 F2]. unfold AppliedRect_contains, pixel_of. cbn [ap_x ap_y].
  rewrite F1, F2. lia.
Qed.

Lemma contained_fits p : AppliedRect_contains (ad_applied_rect r) p = true ->
  in_signed 64 (ap_x p) /\ in_signed 64 (ap_y p) /\
  0 <= ap_x p - ap_x O < (footprint (rd_transform desc) (ps_width P) (ps_height P)).1 /\
  0 <= ap_y p - ap_y O < (footprint (rd_transform desc) (ps_width P) (ps_height P)).2.
Proof.
  intros Hc. unfold AppliedRect_contains in Hc. destruct region_footprint as [F1 F2].
  destruct Hr as [_ _ [H1 H2] [H3 H4]]. rewrite <- F1, <- F2. unfold in_signed in *. lia.
Qed.

Lemma transform_checked_add_Ok a b : in_signed 64 (a + b) -> transform_checked_add a b = Ok (a + b).
Proof. intros H. unfold transform_checked_add. by rewrite (proj2 (try_signed_Some 64 (a + b) (a + b))). Qed.

Lemma transform_checked_sub_Ok a b : in_signed 64 (a - b) -> transform_checked_sub a b = Ok (a - b).
Proof. intros H. unfold transform_checked_sub. by rewrite (proj2 (try_signed_Some 64 (a - b) (a - b))). Qed.

Lemma logical_to_applied_region regions id p :
  AppliedRegionSet_get regions id = Some r ->
  logical_to_applied regions id p = if inside p then Ok (pixel_of p) else Err LogicalPointOutsideRegion.
Proof.
  intros Hg. unfold logical_to_applied, transformer_region. rewrite Hg. cbn [ok_or mbind result_bind].
  pose proof (pixel_of_contained p) as Hc. unfold inside in *. destruct Hr as [[_ [Hw Hh] [Hpw Hph]] _ _ _].
  rewrite !local_coordinate_spec by done.
  destruct ((0 <=? lp_x p) && (lp_x p <? ls_width L)) eqn:Ex; cbn [andb mbind result_bind]; [|done].
  destruct ((0 <=? lp_y p) && (lp_y p <? ls_height L)) eqn:Ey; cbn [mbind result_bind]; [|done].
  rewrite !map_axis_forward_axis by (done || lia). cbn [mbind result_bind]. cbv zeta.
  apply contained_fits in Hc as (F1 & F2 & _); [|done]. unfold pixel_of in *. cbn [ap_x ap_y] in *.
  rewrite !transform_checked_add_Ok by done. done.
Qed.

(** Regions whose logical grid is at least as fine as their pixels. *)
Definition fine : Prop := ps_width P <= ls_width L < 2 ^ 63 /\ ps_height P <= ls_height L < 2 ^ 63.

Lemma applied_to_logical_region regions id p :
  AppliedRegionSet_get regions id = Some r -> fine -> AppliedRect_contains (ad_applied_rect r) p = true ->
  exists q, applied_to_logical regions id p = Ok q /\ inside q = true /\ pixel_of q = p.
Proof.
  intros Hg [Hfw Hfh] Hc. pose proof (contained_fits p Hc) as (F1 & F2 & F3 & F4).
  unfold applied_to_logical, transformer_region. rewrite Hg. cbn [ok_or mbind result_bind]. rewrite Hc. cbn [negb].
  assert (Hps : (footprint (rd_transform desc) (ps_width P) (ps_height P)).1 < 2 ^ 32 /\
    (footprint (rd_transform desc) (ps_width P) (ps_height P)).2 < 2 ^ 32).
  { destruct Hr as [[_ _ [Hpw Hph]] _ _ _]. unfold footprint. destruct (swaps_axes _); cbn; lia. }
  rewrite !transform_checked_sub_Ok by (unfold in_signed; lia). cbn [mbind result_bind]. cbv zeta.
  destruct Hr as [[_ [Hw Hh] [Hpw Hph]] _ _ _].
  pose proof (transform_inverse_range (rd_transform desc) _ _ _ _ F3 F4) as [I1 I2].
  pose proof (transform_forward_inverse (rd_transform desc) (ap_x p - ap_x O) (ap_y p - ap_y O)
    (ps_width P - 1) (ps_height P - 1)) as Hti.
  set (xy := transform_inverse (rd_transform desc) (ap_x p - ap_x O) (ap_y p - ap_y O)
    (ps_width P - 1) (ps_height P - 1)) in *.
  destruct (map_axis_inverse_axis _ _ Hw Hpw xy.1 Hfw I1) as (x & -> & Hx & Ax).
  destruct (map_axis_inverse_axis _ _ Hh Hph xy.2 Hfh I2) as (y & -> & Hy & Ay).
  cbn [mbind result_bind]. eexists. split; [reflexivity|]. split.
  - unfold inside. cbn [lp_x lp_y]. lia.
  - unfold pixel_of. cbn [lp_x lp_y]. rewrite Ax, Ay, Hti. cbn [fst snd]. destruct p as [px py]. cbn. f_equal; lia.
Qed.
End Region.

(** ** What the transformer promises *)

(** Every logical point of a region has a pixel of that region and no other
    point has one: over regions built by their constructors,
    [logical_to_applied] answers [LogicalPointOutsideRegion] exactly outside
    the logical extent, never overflows inside it, and returns the point's
    coordinates scaled to the nearest pixel, rotated or reflected, inside the
    region's applied rectangle; and it is monotone in each logical axis before
    the rotation, with the first and last logical coordinates on the first and
    last pixel. *)
Theorem logical_to_applied_exact (regions : AppliedRegionSet) (id : RegionId) (r : AppliedRegionDescriptor)
  (p : LogicalPoint) :
  applied_set_ok regions -> AppliedRegionSet_get regions id = Some r ->
  logical_to_applied regions id p = (if inside r p then Ok (pixel_of r p) else Err LogicalPointOutsideRegion) /\
  (inside r p = true -> AppliedRect_contains (ad_applied_rect r) (pixel_of r p) = true) /\
  (forall logical physical, 0 < logical < 2 ^ 64 -> 0 < physical < 2 ^ 32 ->
     (forall x x', x <= x' -> axis x logical physical <= axis x' logical physical) /\
     axis 0 logical physical = 0 /\ (1 < logical -> axis (logical - 1) logical physical = physical - 1)).
Proof.
  intros Hok Hg. destruct (AppliedRegionSet_get_ok _ _ _ Hok Hg) as [Hr _]. split; [by apply logical_to_applied_region|].
  split; [by apply pixel_of_contained|]. intros logical physical Hl Hp. split.
  - intros x x' Hx. by apply axis_mono.
  - split; [by apply axis_first|]. intros H. by apply axis_last.
Qed.

(** Pixels survive the round trip: on a region whose fixed-point grid is at
    least as fine as its pixels, [applied_to_logical] gives every pixel of the
    applied rectangle a logical point inside the region, and
    [logical_to_applied] maps it back to that very pixel, through any of the
    eight rotations and reflections. *)
Theorem pixel_roundtrip (regions : AppliedRegionSet) (id : RegionId) (r : AppliedRegionDescriptor) (p : AppliedPoint) :
  applied_set_ok regions -> AppliedRegionSet_get regions id = Some r -> fine r ->
  AppliedRect_contains (ad_applied_rect r) p = true ->
  exists q, applied_to_logical regions id p = Ok q /\ logical_to_applied regions id q = Ok p.
Proof.
  intros Hok Hg Hf Hc. destruct (AppliedRegionSet_get_ok _ _ _ Hok Hg) as [Hr _].
  destruct (applied_to_logical_region r Hr regions id p Hg Hf Hc) as (q & Hq & Hi & Hpx).
  exists q. split; [done|]. rewrite (logical_to_applied_region r Hr regions id q Hg), Hi. by rewrite Hpx.
Qed.

(** A 1080p output turned by 90 degrees beside another one. *)
Definition sample_region (id : RegionId) (name : OutputIdentity) (x : Z) (t : OutputTransform) (w h : Z) (primary : bool)
  : AppliedRegionDescriptor :=
  mkAppliedDescriptor
    (mkDescriptor id name (mkLogicalRect (mkLogicalPoint 0 0) (mkLogicalSize (1920 * 120) (1080 * 120)))
       (mkPhysicalSize 1920 1080) 120 t primary)
    (mkAppliedRect (mkAppliedPoint x 0) (mkAppliedSize w h)).

Definition sample_regions : AppliedRegionSet :=
  mkAppliedSet 7 [sample_region 1 "left" 0 Rotate90 1080 1920 true;
                  sample_region 2 "right" 1080 Normal 1920 1080 false] 0.

Lemma sample_regions_ok : applied_set_ok sample_regions.
Proof.
  repeat constructor; cbn; try lia; try done.
Qed.

Lemma logical_to_applied_exact_witness :
  logical_to_applied sample_regions 1 (mkLogicalPoint 120 (1079 * 120)) = Ok (mkAppliedPoint 1 1).
Proof.
  rewrite (proj1 (logical_to_applied_exact sample_regions 1 (sample_region 1 "left" 0 Rotate90 1080 1920 true) _
    sample_regions_ok eq_refl)).
  vm_compute. reflexivity.
Defined.

Lemma pixel_roundtrip_witness :
  exists q, applied_to_logical sample_regions 1 (mkAppliedPoint 1 1) = Ok q /\
    logical_to_applied sample_regions 1 q = Ok (mkAppliedPoint 1 1).
Proof.
  apply (pixel_roundtrip sample_regions 1 (sample_region 1 "left" 0 Rotate90 1080 1920 true)).
  - exact sample_regions_ok.
  - reflexivity.
  - unfold fine. cbn. lia.
  - reflexivity.
Defined.
