(* ===== verification/RegionInput.v ===== *)
(** * Input: region-scoped input events and their state

    Models [shared/input/src/region_state.rs] (the ordered state of one input
    stream), [shared/input/src/region_wire.rs] (wire messages to events and
    back) and [shared/protocol/src/region_input.rs] (the wire messages and
    their validation).  Pen axes are [f32], as the binary floating-point
    numbers of [SpecFloat]; the JSON framing (serde) is left out. *)

From Stdlib Require Import SpecFloat.
From stdpp Require Import strings gmap.
From S2P Require Import Prelude MediaRegion.

(** ** lib.rs and messages.rs: the vocabularies *)

Inductive ScrollUnit := Line | Point.
Inductive ScrollPhase := PhaseNone | Began | Changed | Ended | Cancelled.
Inductive PenTool := Tip | Eraser.
Inductive ScrollUnitMsg := LineMsg | PointMsg.
Inductive ScrollPhaseMsg := PhaseNoneMsg | BeganMsg | ChangedMsg | EndedMsg | CancelledMsg.
Inductive PenToolMsg := TipMsg | EraserMsg.

#[export] Instance ScrollPhase_eq_dec : EqDecision ScrollPhase.
Proof. solve_decision. Defined.

Definition ScrollUnit_from (u : ScrollUnitMsg) : ScrollUnit :=
  match u with LineMsg => Line | PointMsg => Point end.
Definition ScrollUnitMsg_from (u : ScrollUnit) : ScrollUnitMsg :=
  match u with Line => LineMsg | Point => PointMsg end.
Definition ScrollPhase_from (p : ScrollPhaseMsg) : ScrollPhase :=
  match p with
  | PhaseNoneMsg => PhaseNone | BeganMsg => Began | ChangedMsg => Changed | EndedMsg => Ended
  | CancelledMsg => Cancelled
  end.
Definition ScrollPhaseMsg_from (p : ScrollPhase) : ScrollPhaseMsg :=
  match p with
  | PhaseNone => PhaseNoneMsg | Began => BeganMsg | Changed => ChangedMsg | Ended => EndedMsg
  | Cancelled => CancelledMsg
  end.
Definition domain_pen_tool (t : PenToolMsg) : PenTool := match t with TipMsg => Tip | EraserMsg => Eraser end.
Definition wire_pen_tool (t : PenTool) : PenToolMsg := match t with Tip => TipMsg | Eraser => EraserMsg end.

(** ** Pen axes *)

Definition f32 : Type := spec_float.
Definition F32_ZERO : f32 := S754_zero false.
Definition F32_ONE : f32 := S754_finite false 8388608 (-23).
Definition F32_90 : f32 := S754_finite false 11796480 (-17).
Definition F32_MINUS_90 : f32 := S754_finite true 11796480 (-17).
Definition F32_360 : f32 := S754_finite false 11796480 (-15).

Definition is_finite (v : f32) : bool :=
  match v with S754_zero _ | S754_finite _ _ _ => true | S754_infinity _ | S754_nan => false end.

(** The test both [validate_f32]s make: [value.is_finite() && (min..=max).contains(&value)]. *)
Definition f32_in_range (value minimum maximum : f32) : bool :=
  is_finite value && (SFleb minimum value && SFleb value maximum).

(** ** region_state.rs *)

Record RegionLogicalPosition := mkPosition { pos_region_id : RegionId; pos_point : LogicalPoint }.

#[export] Instance RegionLogicalPosition_eq_dec : EqDecision RegionLogicalPosition.
Proof. solve_decision. Defined.

Record RegionPenSample := mkPenSample {
  pen_position : RegionLogicalPosition;
  pressure : f32;
  tilt_x_degrees : f32;
  tilt_y_degrees : f32;
  rotation_degrees : f32;
  pen_tool : PenTool;
  in_proximity : bool;
  touching : bool;
  pen_buttons : Z
}.

Record RegionPenState := mkPenState { pen_sample : RegionPenSample }.

Inductive RegionInputEvent :=
| PointerEnter (generation : RegionGeneration) (position : RegionLogicalPosition) (sequence : Z)
| PointerLeave (generation : RegionGeneration) (position : RegionLogicalPosition) (sequence : Z)
| PointerMotion (generation : RegionGeneration) (position : RegionLogicalPosition) (sequence : Z)
| PointerButton (generation : RegionGeneration) (position : RegionLogicalPosition) (button : Z)
    (pressed : bool) (sequence : Z)
| PointerScroll (generation : RegionGeneration) (position : RegionLogicalPosition) (delta_x delta_y : Z)
    (unit_ : ScrollUnit) (phase : ScrollPhase) (sequence : Z)
| Pen (generation : RegionGeneration) (sample : RegionPenSample) (sequence : Z).

Definition event_generation (e : RegionInputEvent) : RegionGeneration :=
  match e with
  | PointerEnter g _ _ | PointerLeave g _ _ | PointerMotion g _ _ | PointerButton g _ _ _ _
  | PointerScroll g _ _ _ _ _ _ | Pen g _ _ => g
  end.

Definition event_sequence (e : RegionInputEvent) : Z :=
  match e with
  | PointerEnter _ _ s | PointerLeave _ _ s | PointerMotion _ _ s | PointerButton _ _ _ _ s
  | PointerScroll _ _ _ _ _ _ s | Pen _ _ s => s
  end.

Definition event_position (e : RegionInputEvent) : RegionLogicalPosition :=
  match e with
  | PointerEnter _ p _ | PointerLeave _ p _ | PointerMotion _ p _ | PointerButton _ p _ _ _
  | PointerScroll _ p _ _ _ _ _ => p
  | Pen _ sample _ => pen_position sample
  end.

Record ReleasedRegionInput := mkReleased {
  released_pointer_position : option RegionLogicalPosition;
  released_buttons : list Z;
  released_pen : option RegionPenState;
  had_focus : bool
}.

Record RegionInputState := mkInputState {
  active_pointer_region : option RegionId;
  latest_pointer_position : option RegionLogicalPosition;
  held_buttons : gset Z;
  pen : option RegionPenState;
  focused : bool;
  last_sequence : Z
}.

Inductive RegionInputStateError :=
| StateStaleGeneration (expected received : RegionGeneration)
| UnknownRegion (id : RegionId)
| PositionOutsideRegion (position : RegionLogicalPosition)
| InvalidSequence (last received : Z)
| PointerAlreadyFocused
| PointerNotFocused (id : RegionId)
| ButtonPositionMismatch (expected : option RegionLogicalPosition) (received : RegionLogicalPosition)
| StateZeroButton
| ButtonAlreadyHeld (button : Z)
| ButtonNotHeld (button : Z)
| StatePenFieldOutOfRange (field : string).

Definition InputState_new : RegionInputState := mkInputState None None ∅ None false 0.

Definition validate_f32 (field : string) (value minimum maximum : f32) : result RegionInputStateError unit :=
  if f32_in_range value minimum maximum then Ok tt else Err (StatePenFieldOutOfRange field).

Definition PenSample_validate (s : RegionPenSample) : result RegionInputStateError unit :=
  _ ← validate_f32 "pressure" (pressure s) F32_ZERO F32_ONE;
  _ ← validate_f32 "tilt_x_degrees" (tilt_x_degrees s) F32_MINUS_90 F32_90;
  _ ← validate_f32 "tilt_y_degrees" (tilt_y_degrees s) F32_MINUS_90 F32_90;
  validate_f32 "rotation_degrees" (rotation_degrees s) F32_ZERO F32_360.

Definition validate_position (regions : AppliedRegionSet) (position : RegionLogicalPosition)
  : result RegionInputStateError unit :=
  region ← ok_or (AppliedRegionSet_get regions (pos_region_id position)) (UnknownRegion (pos_region_id position));
  let size := lr_size (rd_logical_rect (ad_descriptor region)) in
  x ← ok_or (try_unsigned 64 (lp_x (pos_point position))) (PositionOutsideRegion position);
  y ← ok_or (try_unsigned 64 (lp_y (pos_point position))) (PositionOutsideRegion position);
  if (x <? ls_width size) && (y <? ls_height size) then Ok tt else Err (PositionOutsideRegion position).

Definition validate_common (s : RegionInputState) (regions : AppliedRegionSet) (e : RegionInputEvent)
  : result RegionInputStateError unit :=
  if negb (event_generation e =? applied_generation regions)
  then Err (StateStaleGeneration (applied_generation regions) (event_generation e))
  else
    let sequence := event_sequence e in
    if (sequence =? 0) || (sequence <=? last_sequence s) then Err (InvalidSequence (last_sequence s) sequence)
    else validate_position regions (event_position e).

Definition require_active (s : RegionInputState) (id : RegionId) : result RegionInputStateError unit :=
  if focused s && bool_decide (active_pointer_region s = Some id) then Ok tt else Err (PointerNotFocused id).

Definition require_latest (s : RegionInputState) (position : RegionLogicalPosition) : result RegionInputStateError unit :=
  _ ← require_active s (pos_region_id position);
  if bool_decide (latest_pointer_position s = Some position) then Ok tt
  else Err (ButtonPositionMismatch (latest_pointer_position s) position).

(** The [match event] of [apply]: the state it leaves, or its early return. *)
Definition apply_event (s : RegionInputState) (e : RegionInputEvent) : result RegionInputStateError RegionInputState :=
  match e with
  | PointerEnter _ position _ =>
    if focused s then Err PointerAlreadyFocused
    else Ok (mkInputState (Some (pos_region_id position)) (Some position) (held_buttons s) (pen s) true (last_sequence s))
  | PointerLeave _ position _ =>
    _ ← require_active s (pos_region_id position);
    Ok (mkInputState None (Some position) (held_buttons s) (pen s) false (last_sequence s))
  | PointerMotion _ position _ =>
    _ ← require_active s (pos_region_id position);
    Ok (mkInputState (active_pointer_region s) (Some position) (held_buttons s) (pen s) (focused s) (last_sequence s))
  | PointerButton _ position button pressed _ =>
    _ ← require_latest s position;
    if button =? 0 then Err StateZeroButton
    else if (pressed : bool) then
      if bool_decide (button ∈ held_buttons s) then Err (ButtonAlreadyHeld button)
      else Ok (mkInputState (active_pointer_region s) (latest_pointer_position s) ({[button]} ∪ held_buttons s) (pen s)
                 (focused s) (last_sequence s))
    else if bool_decide (button ∈ held_buttons s)
    then Ok (mkInputState (active_pointer_region s) (latest_pointer_position s) (held_buttons s ∖ {[button]}) (pen s)
               (focused s) (last_sequence s))
    else Err (ButtonNotHeld button)
  | PointerScroll _ position _ _ _ _ _ =>
    _ ← require_latest s position;
    Ok s
  | Pen _ sample _ =>
    _ ← PenSample_validate sample;
    let pen := if in_proximity sample || touching sample || negb (pen_buttons sample =? 0)
               then Some (mkPenState sample) else None in
    Ok (mkInputState (active_pointer_region s) (latest_pointer_position s) (held_buttons s) pen (focused s) (last_sequence s))
  end.

Definition with_sequence (s : RegionInputState) (sequence : Z) : RegionInputState :=
  mkInputState (active_pointer_region s) (latest_pointer_position s) (held_buttons s) (pen s) (focused s) sequence.

(** [apply] writes the state only on the way to [Ok]: every early return comes
    before the first assignment of its branch. *)
Definition state_apply (s : RegionInputState) (regions : AppliedRegionSet) (e : RegionInputEvent)
  : RegionInputState * result RegionInputStateError unit :=
  match validate_common s regions e with
  | Err err => (s, Err err)
  | Ok _ =>
    match apply_event s e with
    | Err err => (s, Err err)
    | Ok s' => (with_sequence s' (event_sequence e), Ok tt)
    end
  end.

(** [release_all]; the set of held buttons iterates in increasing order. *)
Definition release_all (s : RegionInputState) : RegionInputState * ReleasedRegionInput :=
  (mkInputState None (latest_pointer_position s) ∅ None false (last_sequence s),
   mkReleased (latest_pointer_position s) (merge_sort Z.le (elements (held_buttons s))) (pen s) (focused s)).

(** ** protocol region_input.rs: the wire messages *)

Record RegionInputPositionMsg := mkPositionMsg {
  msg_region_generation : Z;
  msg_region_id : Z;
  logical_x : Z;
  logical_y : Z
}.

Record RegionInputMetadataMsg := mkMetadataMsg { msg_sequence : Z; timestamp_ns : Z; coalescable : bool }.

Inductive RegionInputValidationError :=
| ZeroRegionGeneration
| WireZeroRegionId
| ZeroSequence
| ZeroButton
| PenFieldOutOfRange (field : string).

Record RegionPointerMotionMsg := mkMotionMsg {
  motion_type : string; motion_position : RegionInputPositionMsg; motion_metadata : RegionInputMetadataMsg }.
Record RegionPointerEnterMsg := mkEnterMsg {
  enter_type : string; enter_position : RegionInputPositionMsg; enter_metadata : RegionInputMetadataMsg }.
Record RegionPointerLeaveMsg := mkLeaveMsg {
  leave_type : string; leave_position : RegionInputPositionMsg; leave_metadata : RegionInputMetadataMsg }.
Record RegionPointerButtonMsg := mkButtonMsg {
  button_type : string; button_position : RegionInputPositionMsg; msg_button : Z; msg_pressed : bool;
  button_metadata : RegionInputMetadataMsg }.
Record RegionPointerScrollMsg := mkScrollMsg {
  scroll_type : string; scroll_position : RegionInputPositionMsg; msg_delta_x : Z; msg_delta_y : Z;
  msg_unit : ScrollUnitMsg; msg_phase : ScrollPhaseMsg; scroll_metadata : RegionInputMetadataMsg }.
Record RegionPenEventMsg := mkPenMsg {
  pen_type : string; pen_msg_position : RegionInputPositionMsg;
  msg_pressure : f32; msg_tilt_x : f32; msg_tilt_y : f32; msg_rotation : f32;
  msg_tool : PenToolMsg; msg_in_proximity : bool; msg_touching : bool; msg_buttons : Z;
  pen_metadata : RegionInputMetadataMsg }.

Definition PositionMsg_validate (p : RegionInputPositionMsg) : result RegionInputValidationError unit :=
  if msg_region_generation p =? 0 then Err ZeroRegionGeneration
  else if msg_region_id p =? 0 then Err WireZeroRegionId
  else Ok tt.

Definition MetadataMsg_validate (m : RegionInputMetadataMsg) : result RegionInputValidationError unit :=
  if msg_sequence m =? 0 then Err ZeroSequence else Ok tt.

Definition MotionMsg_validate (m : RegionPointerMotionMsg) : result RegionInputValidationError unit :=
  _ ← PositionMsg_validate (motion_position m); MetadataMsg_validate (motion_metadata m).
Definition EnterMsg_validate (m : RegionPointerEnterMsg) : result RegionInputValidationError unit :=
  _ ← PositionMsg_validate (enter_position m); MetadataMsg_validate (enter_metadata m).
Definition LeaveMsg_validate (m : RegionPointerLeaveMsg) : result RegionInputValidationError unit :=
  _ ← PositionMsg_validate (leave_position m); MetadataMsg_validate (leave_metadata m).
Definition ScrollMsg_validate (m : RegionPointerScrollMsg) : result RegionInputValidationError unit :=
  _ ← PositionMsg_validate (scroll_position m); MetadataMsg_validate (scroll_metadata m).
Definition ButtonMsg_validate (m : RegionPointerButtonMsg) : result RegionInputValidationError unit :=
  _ ← PositionMsg_validate (button_position m);
  if msg_button m =? 0 then Err ZeroButton else MetadataMsg_validate (button_metadata m).

Definition wire_validate_f32 (field : string) (value minimum maximum : f32) : result RegionInputValidationError unit :=
  if f32_in_range value minimum maximum then Ok tt else Err (PenFieldOutOfRange field).

Definition PenMsg_validate (m : RegionPenEventMsg) : result RegionInputValidationError unit :=
  _ ← PositionMsg_validate (pen_msg_position m);
  _ ← MetadataMsg_validate (pen_metadata m);
  _ ← wire_validate_f32 "pressure" (msg_pressure m) F32_ZERO F32_ONE;
  _ ← wire_validate_f32 "tilt_x_degrees" (msg_tilt_x m) F32_MINUS_90 F32_90;
  _ ← wire_validate_f32 "tilt_y_degrees" (msg_tilt_y m) F32_MINUS_90 F32_90;
  wire_validate_f32 "rotation_degrees" (msg_rotation m) F32_ZERO F32_360.

(** ** region_wire.rs *)

Inductive RegionInputWireMessage :=
| WirePointerEnter (m : RegionPointerEnterMsg)
| WirePointerLeave (m : RegionPointerLeaveMsg)
| WirePointerMotion (m : RegionPointerMotionMsg)
| WirePointerButton (m : RegionPointerButtonMsg)
| WirePointerScroll (m : RegionPointerScrollMsg)
| WirePen (m : RegionPenEventMsg).

Inductive RegionInputDecodeError :=
| DecodeWire (e : RegionInputValidationError)
| DecodeContract (e : RegionContractError).

Definition from_error {E F A} (f : E -> F) (r : result E A) : result F A :=
  match r with Ok a => Ok a | Err e => Err (f e) end.

Definition domain_position (p : RegionInputPositionMsg) : result RegionContractError RegionLogicalPosition :=
  id ← RegionId_new (msg_region_id p);
  Ok (mkPosition id (mkLogicalPoint (logical_x p) (logical_y p))).

Definition wire_position (generation : RegionGeneration) (p : RegionLogicalPosition) : RegionInputPositionMsg :=
  mkPositionMsg generation (pos_region_id p) (lp_x (pos_point p)) (lp_y (pos_point p)).

Definition wire_validate (m : RegionInputWireMessage) : result RegionInputValidationError unit :=
  match m with
  | WirePointerEnter m => EnterMsg_validate m
  | WirePointerLeave m => LeaveMsg_validate m
  | WirePointerMotion m => MotionMsg_validate m
  | WirePointerButton m => ButtonMsg_validate m
  | WirePointerScroll m => ScrollMsg_validate m
  | WirePen m => PenMsg_validate m
  end.

Definition message_position (m : RegionInputWireMessage) : RegionInputPositionMsg :=
  match m with
  | WirePointerEnter m => enter_position m
  | WirePointerLeave m => leave_position m
  | WirePointerMotion m => motion_position m
  | WirePointerButton m => button_position m
  | WirePointerScroll m => scroll_position m
  | WirePen m => pen_msg_position m
  end.

Definition message_metadata (m : RegionInputWireMessage) : RegionInputMetadataMsg :=
  match m with
  | WirePointerEnter m => enter_metadata m
  | WirePointerLeave m => leave_metadata m
  | WirePointerMotion m => motion_metadata m
  | WirePointerButton m => button_metadata m
  | WirePointerScroll m => scroll_metadata m
  | WirePen m => pen_metadata m
  end.

Definition wire_decode (m : RegionInputWireMessage) : result RegionInputDecodeError RegionInputEvent :=
  _ ← from_error DecodeWire (wire_validate m);
  generation ← from_error DecodeContract (RegionGeneration_new (msg_region_generation (message_position m)));
  position ← from_error DecodeContract (domain_position (message_position m));
  let sequence := msg_sequence (message_metadata m) in
  Ok match m with
     | WirePointerEnter _ => PointerEnter generation position sequence
     | WirePointerLeave _ => PointerLeave generation position sequence
     | WirePointerMotion _ => PointerMotion generation position sequence
     | WirePointerButton m => PointerButton generation position (msg_button m) (msg_pressed m) sequence
     | WirePointerScroll m =>
       PointerScroll generation position (msg_delta_x m) (msg_delta_y m) (ScrollUnit_from (msg_unit m))
         (ScrollPhase_from (msg_phase m)) sequence
     | WirePen m =>
       Pen generation
         (mkPenSample position (msg_pressure m) (msg_tilt_x m) (msg_tilt_y m) (msg_rotation m)
            (domain_pen_tool (msg_tool m)) (msg_in_proximity m) (msg_touching m) (msg_buttons m)) sequence
     end.

Definition wire_encode (e : RegionInputEvent) (timestamp_ns : Z) (coalescable : bool) : RegionInputWireMessage :=
  let generation := event_generation e in
  let metadata := mkMetadataMsg (event_sequence e) timestamp_ns coalescable in
  match e with
  | PointerEnter _ position _ =>
    WirePointerEnter (mkEnterMsg "region_pointer_enter" (wire_position generation position) metadata)
  | PointerLeave _ position _ =>
    WirePointerLeave (mkLeaveMsg "region_pointer_leave" (wire_position generation position) metadata)
  | PointerMotion _ position _ =>
    WirePointerMotion (mkMotionMsg "region_pointer_motion" (wire_position generation position) metadata)
  | PointerButton _ position button pressed _ =>
    WirePointerButton (mkButtonMsg "region_pointer_button" (wire_position generation position) button pressed metadata)
  | PointerScroll _ position delta_x delta_y unit_ phase _ =>
    WirePointerScroll (mkScrollMsg "region_pointer_scroll" (wire_position generation position) delta_x delta_y
      (ScrollUnitMsg_from unit_) (ScrollPhaseMsg_from phase) metadata)
  | Pen _ sample _ =>
    WirePen (mkPenMsg "region_pen_event" (wire_position generation (pen_position sample)) (pressure sample)
      (tilt_x_degrees sample) (tilt_y_degrees sample) (rotation_degrees sample) (wire_pen_tool (pen_tool sample))
      (in_proximity sample) (touching sample) (pen_buttons sample) metadata)
  end.
