(* ===== verification/RegionPipeline.v ===== *)
(** * Input: from the client's emitter to the host's pipeline

    Models [shared/input/src/region_emitter.rs] (the client's encoder of region
    input) and [shared/input/src/region_pipeline.rs] (the host's decoder), and
    proves that the two stay in step.  The host's last step, the platform's
    point mapper, is an interface. *)

From stdpp Require Import strings gmap.
From S2P Require Import Prelude MediaRegion RegionTransform RegionInput.

(** ** region_emitter.rs *)

Record RegionInputEmitter := mkEmitter { em_state : RegionInputState; em_sequence : Z }.

Inductive RegionInputEmitError :=
| EmitState (e : RegionInputStateError)
| EmitWire (e : RegionInputValidationError)
| EmitContract (e : RegionContractError)
| MissingPointerPosition.

(** A method with [&mut self] and a [Result]: the state stays changed where an
    error returns. *)
Definition Emit (A : Type) : Type := RegionInputEmitter -> RegionInputEmitter * result RegionInputEmitError A.

#[export] Instance emit_ret : MRet Emit := fun A a em => (em, Ok a).
#[export] Instance emit_bind : MBind Emit :=
  fun A B k m em => match m em with (em, Ok a) => k a em | (em, Err e) => (em, Err e) end.

Definition emit_fail {A} (e : RegionInputEmitError) : Emit A := fun em => (em, Err e).
Definition get_state : Emit RegionInputState := fun em => (em, Ok (em_state em)).

Definition Emitter_new : RegionInputEmitter := mkEmitter InputState_new 0.
Definition Emitter_with_sequence (sequence : Z) : RegionInputEmitter := mkEmitter InputState_new sequence.

Definition advance_sequence_to (em : RegionInputEmitter) (sequence : Z) : RegionInputEmitter :=
  if em_sequence em <? sequence then mkEmitter (em_state em) sequence else em.

Definition next_sequence : Emit Z := fun em =>
  let sequence := saturating_add 64 (em_sequence em) 1 in (mkEmitter (em_state em) sequence, Ok sequence).

(** [self.sequence = self.sequence.max(sequence)]. *)
Definition raise_sequence (sequence : Z) : Emit unit := fun em =>
  (mkEmitter (em_state em) (Z.max (em_sequence em) sequence), Ok tt).

Definition emit (regions : AppliedRegionSet) (e : RegionInputEvent) (timestamp_ns : Z) (coalescable : bool)
  : Emit RegionInputWireMessage := fun em =>
  let '(state, r) := state_apply (em_state em) regions e in
  let em := mkEmitter state (em_sequence em) in
  match r with
  | Err err => (em, Err (EmitState err))
  | Ok _ =>
    let message := wire_encode e timestamp_ns coalescable in
    match wire_validate message with
    | Err err => (em, Err (EmitWire err))
    | Ok _ => (em, Ok message)
    end
  end.

Section Emitter.
Context (regions : AppliedRegionSet).

Definition emit_button (position : RegionLogicalPosition) (button : Z) (pressed : bool) (timestamp_ns : Z)
  : Emit RegionInputWireMessage :=
  sequence ← next_sequence;
  emit regions (PointerButton (applied_generation regions) position button pressed sequence) timestamp_ns false.

Definition ensure_pointer_position (position : RegionLogicalPosition) (timestamp_ns : Z)
  : Emit (list RegionInputWireMessage) :=
  state ← get_state;
  if bool_decide (active_pointer_region state = Some (pos_region_id position)) then
    if negb (bool_decide (latest_pointer_position state = Some position)) then
      sequence ← next_sequence;
      m ← emit regions (PointerMotion (applied_generation regions) position sequence) timestamp_ns true;
      mret [m]
    else mret []
  else
    leave ← (if focused state then
               match latest_pointer_position state with
               | None => emit_fail MissingPointerPosition
               | Some previous =>
                 sequence ← next_sequence;
                 m ← emit regions (PointerLeave (applied_generation regions) previous sequence) timestamp_ns false;
                 mret [m]
               end
             else mret []);
    sequence ← next_sequence;
    m ← emit regions (PointerEnter (applied_generation regions) position sequence) timestamp_ns false;
    mret (leave ++ [m]).

Definition pointer_motion (position : RegionLogicalPosition) (timestamp_ns : Z) : Emit (list RegionInputWireMessage) :=
  ensure_pointer_position position timestamp_ns.

(** The loop over the sampled buttons, against the set held before it. *)
Fixpoint sample_buttons (held : gset Z) (position : RegionLogicalPosition) (timestamp_ns : Z)
  (buttons : list (Z * bool)) : Emit (list RegionInputWireMessage) :=
  match buttons with
  | [] => mret []
  | (button, pressed) :: buttons =>
    edge ← (if negb (eqb (bool_decide (button ∈ held)) pressed)
            then m ← emit_button position button pressed timestamp_ns; mret [m] else mret []);
    rest ← sample_buttons held position timestamp_ns buttons;
    mret (edge ++ rest)
  end.

Definition pointer_sample (position : RegionLogicalPosition) (buttons : list (Z * bool)) (timestamp_ns : Z)
  : Emit (list RegionInputWireMessage) :=
  messages ← ensure_pointer_position position timestamp_ns;
  state ← get_state;
  edges ← sample_buttons (held_buttons state) position timestamp_ns buttons;
  mret (messages ++ edges).

Definition pointer_button (position : RegionLogicalPosition) (button : Z) (pressed : bool) (timestamp_ns : Z)
  : Emit (list RegionInputWireMessage) :=
  messages ← ensure_pointer_position position timestamp_ns;
  state ← get_state;
  if negb (eqb (bool_decide (button ∈ held_buttons state)) pressed)
  then m ← emit_button position button pressed timestamp_ns; mret (messages ++ [m])
  else mret messages.

Definition pointer_button_at_latest (button : Z) (pressed : bool) (timestamp_ns : Z)
  : Emit (option RegionInputWireMessage) :=
  state ← get_state;
  match latest_pointer_position state with
  | None => emit_fail MissingPointerPosition
  | Some position =>
    if eqb (bool_decide (button ∈ held_buttons state)) pressed then mret None
    else m ← emit_button position button pressed timestamp_ns; mret (Some m)
  end.

Definition pointer_scroll (position : RegionLogicalPosition) (delta_x delta_y timestamp_ns : Z)
  : Emit (list RegionInputWireMessage) :=
  messages ← ensure_pointer_position position timestamp_ns;
  if negb (delta_x =? 0) || negb (delta_y =? 0) then
    sequence ← next_sequence;
    m ← emit regions (PointerScroll (applied_generation regions) position delta_x delta_y Line PhaseNone sequence)
          timestamp_ns false;
    mret (messages ++ [m])
  else mret messages.

Definition pointer_scroll_with_details (position : RegionLogicalPosition) (delta_x delta_y : Z) (unit_ : ScrollUnit)
  (phase : ScrollPhase) (timestamp_ns : Z) : Emit (list RegionInputWireMessage) :=
  messages ← ensure_pointer_position position timestamp_ns;
  if negb (delta_x =? 0) || negb (delta_y =? 0) || negb (bool_decide (phase = PhaseNone \/ phase = Changed)) then
    sequence ← next_sequence;
    m ← emit regions (PointerScroll (applied_generation regions) position delta_x delta_y unit_ phase sequence)
          timestamp_ns false;
    mret (messages ++ [m])
  else mret messages.

Definition pen_with_sequence (sample : RegionPenSample) (sequence timestamp_ns : Z) (coalescable : bool)
  : Emit RegionInputWireMessage :=
  m ← emit regions (Pen (applied_generation regions) sample sequence) timestamp_ns coalescable;
  _ ← raise_sequence sequence;
  mret m.

Definition emitter_pen (sample : RegionPenSample) (timestamp_ns : Z) (coalescable : bool)
  : Emit RegionInputWireMessage :=
  sequence ← next_sequence;
  pen_with_sequence sample sequence timestamp_ns coalescable.
End Emitter.

Definition emitter_release_all (em : RegionInputEmitter) : RegionInputEmitter * ReleasedRegionInput :=
  let '(state, released) := release_all (em_state em) in (mkEmitter state (em_sequence em), released).

(** ** region_pipeline.rs *)

(** The trait [RegionPointMapper]. *)
Class RegionPointMapper (M P E : Type) := map_applied : M -> AppliedPoint -> result E P.

Inductive RegionInputPipelineError (E : Type) :=
| PipelineWire (e : RegionInputValidationError)
| PipelineContract (e : RegionContractError)
| PipelineState (e : RegionInputStateError)
| PipelineTransform (e : CoordinateTransformError)
| PipelineMapping (e : E).
Arguments PipelineWire {E}. Arguments PipelineContract {E}. Arguments PipelineState {E}.
Arguments PipelineTransform {E}. Arguments PipelineMapping {E}.

Definition from_decode_error {E} (e : RegionInputDecodeError) : RegionInputPipelineError E :=
  match e with DecodeWire e => PipelineWire e | DecodeContract e => PipelineContract e end.

Record MappedRegionButton (P : Type) := mkMappedButton { mapped_button_position : P; mapped_button : Z; mapped_pressed : bool }.
Record MappedRegionScroll (P : Type) := mkMappedScroll {
  mapped_scroll_position : P; mapped_delta_x : Z; mapped_delta_y : Z; mapped_unit : ScrollUnit; mapped_phase : ScrollPhase }.
Record MappedRegionPen (P : Type) := mkMappedPen { mapped_pen_position : P; mapped_sample : RegionPenSample }.
Arguments mkMappedButton {P}. Arguments mkMappedScroll {P}. Arguments mkMappedPen {P}.

Inductive MappedRegionInput (P : Type) :=
| MappedPointerEnter (p : P)
| MappedPointerLeave (p : P)
| MappedPointerMotion (p : P)
| MappedPointerButton (b : MappedRegionButton P)
| MappedPointerScroll (s : MappedRegionScroll P)
| MappedPen (p : MappedRegionPen P).
Arguments MappedPointerEnter {P}. Arguments MappedPointerLeave {P}. Arguments MappedPointerMotion {P}.
Arguments MappedPointerButton {P}. Arguments MappedPointerScroll {P}. Arguments MappedPen {P}.

Section Pipeline.
Context {M P E : Type} `{Mapper : RegionPointMapper M P E}.

Record RegionInputPipeline := mkPipeline {
  pl_regions : AppliedRegionSet;
  pl_state : RegionInputState;
  pl_mapper : M
}.

Definition Pipeline_new (regions : AppliedRegionSet) (mapper : M) : RegionInputPipeline :=
  mkPipeline regions InputState_new mapper.

Definition pipeline_release_all (p : RegionInputPipeline) : RegionInputPipeline * ReleasedRegionInput :=
  let '(state, released) := release_all (pl_state p) in (mkPipeline (pl_regions p) state (pl_mapper p), released).

Definition pipeline_map (p : RegionInputPipeline) (position : RegionLogicalPosition)
  : result (RegionInputPipelineError E) P :=
  point ← from_error PipelineTransform (logical_to_applied (pl_regions p) (pos_region_id position) (pos_point position));
  from_error PipelineMapping (map_applied (pl_mapper p) point).

Definition accept (p : RegionInputPipeline) (m : RegionInputWireMessage)
  : RegionInputPipeline * result (RegionInputPipelineError E) (P * RegionInputEvent) :=
  match from_error from_decode_error (wire_decode m) with
  | Err e => (p, Err e)
  | Ok event =>
    match pipeline_map p (event_position event) with
    | Err e => (p, Err e)
    | Ok mapped =>
      let '(state, r) := state_apply (pl_state p) (pl_regions p) event in
      let p := mkPipeline (pl_regions p) state (pl_mapper p) in
      match r with
      | Err e => (p, Err (PipelineState e))
      | Ok _ => (p, Ok (mapped, event))
      end
    end
  end.

Definition pipeline_apply (p : RegionInputPipeline) (m : RegionInputWireMessage)
  : RegionInputPipeline * result (RegionInputPipelineError E) (MappedRegionInput P) :=
  let '(p, r) := accept p m in
  (p, match r with
      | Err e => Err e
      | Ok (position, event) =>
        Ok match event with
           | PointerEnter _ _ _ => MappedPointerEnter position
           | PointerLeave _ _ _ => MappedPointerLeave position
           | PointerMotion _ _ _ => MappedPointerMotion position
           | PointerButton _ _ button pressed _ => MappedPointerButton (mkMappedButton position button pressed)
           | PointerScroll _ _ delta_x delta_y unit_ phase _ =>
             MappedPointerScroll (mkMappedScroll position delta_x delta_y unit_ phase)
           | Pen _ sample _ => MappedPen (mkMappedPen position sample)
           end
      end).
End Pipeline.

(** [validate_aggregate_parity]. *)
Definition validate_aggregate_parity (requested : RegionSet) (applied : AppliedRegionSet) : bool :=
  negb (negb (set_generation requested =? applied_generation applied)
        || negb (len (set_regions requested) =? len (applied_regions applied))
        || existsb (fun d => match AppliedRegionSet_get applied (rd_id d) with
                             | None => true
                             | Some r => negb (bool_decide (ad_descriptor r = d))
                             end) (set_regions requested)).

(** ** The link between the two *)

(** What the client asks of its emitter. *)
Inductive ClientOp :=
| OpMotion (position : RegionLogicalPosition)
| OpSample (position : RegionLogicalPosition) (buttons : list (Z * bool))
| OpButton (position : RegionLogicalPosition) (button : Z) (pressed : bool)
| OpButtonAtLatest (button : Z) (pressed : bool)
| OpScroll (position : RegionLogicalPosition) (delta_x delta_y : Z)
| OpScrollDetails (position : RegionLogicalPosition) (delta_x delta_y : Z) (unit_ : ScrollUnit) (phase : ScrollPhase)
| OpPen (sample : RegionPenSample) (coalescable : bool)
| OpPenSequence (sample : RegionPenSample) (sequence : Z) (coalescable : bool)
| OpRelease.

(** What crosses the link: messages, and the loss of focus or connection on
    which both ends release everything. *)
Inductive LinkItem := Message (m : RegionInputWireMessage) | ReleaseAll.

Definition emitter_release_step : Emit (list LinkItem) := fun em => ((emitter_release_all em).1, Ok [ReleaseAll]).

Definition client_op (regions : AppliedRegionSet) (op : ClientOp) (ts : Z) : Emit (list LinkItem) :=
  match op with
  | OpMotion position => ms ← pointer_motion regions position ts; mret (map Message ms)
  | OpSample position buttons => ms ← pointer_sample regions position buttons ts; mret (map Message ms)
  | OpButton position button pressed => ms ← pointer_button regions position button pressed ts; mret (map Message ms)
  | OpButtonAtLatest button pressed =>
    m ← pointer_button_at_latest regions button pressed ts; mret (match m with Some m => [Message m] | None => [] end)
  | OpScroll position dx dy => ms ← pointer_scroll regions position dx dy ts; mret (map Message ms)
  | OpScrollDetails position dx dy u phase =>
    ms ← pointer_scroll_with_details regions position dx dy u phase ts; mret (map Message ms)
  | OpPen sample coalescable => m ← emitter_pen regions sample ts coalescable; mret [Message m]
  | OpPenSequence sample sequence coalescable =>
    m ← pen_with_sequence regions sample sequence ts coalescable; mret [Message m]
  | OpRelease => emitter_release_step
  end.

Fixpoint client_run (regions : AppliedRegionSet) (ops : list (ClientOp * Z)) : Emit (list LinkItem) :=
  match ops with
  | [] => mret []
  | (op, ts) :: ops => items ← client_op regions op ts; rest ← client_run regions ops; mret (items ++ rest)
  end.

(** A queue on the way may drop a motion or a pen sample that another one
    directly follows. *)
Inductive coalesce : list LinkItem -> list LinkItem -> Prop :=
| coalesce_motion pre a b post :
    coalesce (pre ++ Message (WirePointerMotion a) :: Message (WirePointerMotion b) :: post)
             (pre ++ Message (WirePointerMotion b) :: post)
| coalesce_pen pre a b post :
    coalesce (pre ++ Message (WirePen a) :: Message (WirePen b) :: post) (pre ++ Message (WirePen b) :: post).

Section Host.
Context {M P E : Type} `{Mapper : RegionPointMapper M P E}.

(** The host takes the items in order; [None] where it refuses one. *)
Fixpoint host_run (p : RegionInputPipeline (M := M)) (items : list LinkItem)
  : option (RegionInputPipeline (M := M) * list P) :=
  match items with
  | [] => Some (p, [])
  | ReleaseAll :: items => host_run (pipeline_release_all p).1 items
  | Message m :: items =>
    match accept p m with
    | (_, Err _) => None
    | (p, Ok (point, _)) => '(p, points) ← host_run p items; Some (p, point :: points)
    end
  end.
End Host.

(** ** Lemmas: events on the wire *)

(** What both ends require of an event. *)
Definition wire_valid (e : RegionInputEvent) : Prop :=
  event_generation e <> 0 /\ pos_region_id (event_position e) <> 0 /\ event_sequence e <> 0 /\
  match e with
  | PointerButton _ _ button _ _ => button <> 0
  | Pen _ s _ => PenSample_validate s = Ok tt
  | _ => True
  end.

Lemma PositionMsg_validate_Ok p : PositionMsg_validate p = Ok tt <-> msg_region_generation p <> 0 /\ msg_region_id p <> 0.
Proof.
  unfold PositionMsg_validate. destruct (Z.eqb_spec (msg_region_generation p) 0), (Z.eqb_spec (msg_region_id p) 0);
    naive_solver.
Qed.

Lemma MetadataMsg_validate_Ok m : MetadataMsg_validate m = Ok tt <-> msg_sequence m <> 0.
Proof. unfold MetadataMsg_validate. destruct (Z.eqb_spec (msg_sequence m) 0); naive_solver. Qed.

Lemma f32_checks field v lo hi :
  wire_validate_f32 field v lo hi = Ok tt <-> validate_f32 field v lo hi = Ok tt.
Proof. unfold wire_validate_f32, validate_f32. destruct (f32_in_range v lo hi); done. Qed.

Lemma wire_validate_encode e ts c : wire_validate (wire_encode e ts c) = Ok tt <-> wire_valid e.
Proof.
  unfold wire_valid. destruct e; cbn [wire_encode wire_validate event_generation event_position event_sequence];
    unfold EnterMsg_validate, LeaveMsg_validate, MotionMsg_validate, ButtonMsg_validate, ScrollMsg_validate,
      PenMsg_validate, PenSample_validate; rewrite ?unit_bind_Ok, ?PositionMsg_validate_Ok, ?MetadataMsg_validate_Ok,
      ?f32_checks; cbn [enter_position enter_metadata leave_position leave_metadata motion_position motion_metadata
      button_position button_metadata scroll_position scroll_metadata pen_msg_position pen_metadata msg_region_generation
      msg_region_id wire_position msg_sequence msg_button msg_pressure msg_tilt_x msg_tilt_y msg_rotation];
    try tauto.
  destruct (Z.eqb_spec button 0); [naive_solver|]. rewrite MetadataMsg_validate_Ok. cbn. tauto.
Qed.

Lemma unit_roundtrip u : ScrollUnit_from (ScrollUnitMsg_from u) = u.
Proof. by destruct u. Qed.
Lemma phase_roundtrip p : ScrollPhase_from (ScrollPhaseMsg_from p) = p.
Proof. by destruct p. Qed.
Lemma tool_roundtrip t : domain_pen_tool (wire_pen_tool t) = t.
Proof. by destruct t. Qed.

Lemma wire_decode_encode e ts c : wire_valid e -> wire_decode (wire_encode e ts c) = Ok e.
Proof.
  intros Hv. pose proof (proj2 (wire_validate_encode e ts c) Hv) as Hw. destruct Hv as (Hg & Hi & _ & _).
  unfold wire_decode. rewrite Hw. cbn [from_error mbind result_bind].
  assert (Hp : message_position (wire_encode e ts c) = wire_position (event_generation e) (event_position e))
    by (by destruct e).
  assert (Hm : msg_sequence (message_metadata (wire_encode e ts c)) = event_sequence e) by (by destruct e).
  rewrite Hp, Hm. cbn [wire_position msg_region_generation]. unfold RegionGeneration_new, domain_position, RegionId_new.
  cbn [msg_region_id wire_position logical_x logical_y].
  destruct (Z.eqb_spec (event_generation e) 0); [done|]. cbn [from_error mbind result_bind].
  destruct (Z.eqb_spec (pos_region_id (event_position e)) 0); [done|]. cbn [from_error mbind result_bind].
  assert (Ep : mkPosition (pos_region_id (event_position e))
                 (mkLogicalPoint (lp_x (pos_point (event_position e))) (lp_y (pos_point (event_position e)))) = event_position e).
  { destruct (event_position e) as [i [x y]]. done. }
  rewrite Ep. destruct e; cbn; rewrite ?unit_roundtrip, ?phase_roundtrip, ?tool_roundtrip; try done.
  f_equal. f_equal. by destruct sample.
Qed.

(** An event the state accepts has a position inside its region. *)
Lemma validate_position_inside regions p :
  applied_set_ok regions -> validate_position regions p = Ok tt <->
  exists r, AppliedRegionSet_get regions (pos_region_id p) = Some r /\ inside r (pos_point p) = true.
Proof.
  intros Hok. unfold validate_position. destruct (AppliedRegionSet_get regions (pos_region_id p)) as [r|] eqn:Eg; cbn [ok_or mbind result_bind].
  2: { split; [done|]. by intros (? & ? & _). }
  destruct (AppliedRegionSet_get_ok _ _ _ Hok Eg) as [[[_ [Hw Hh] _] _ _ _] _].
  unfold inside, try_unsigned, umax. destruct (pos_point p) as [x y]. cbn [lp_x lp_y].
  split.
  - destruct (Z.leb_spec 0 x), (Z.leb_spec x (2 ^ 64 - 1)), (Z.leb_spec 0 y), (Z.leb_spec y (2 ^ 64 - 1));
      cbn [andb ok_or mbind result_bind]; try done.
    destruct (Z.ltb_spec x (ls_width (lr_size (rd_logical_rect (ad_descriptor r))))),
      (Z.ltb_spec y (ls_height (lr_size (rd_logical_rect (ad_descriptor r))))); cbn [andb]; try done.
    intros _. exists r. split; [done|]. lia.
  - intros (r' & [= <-] & Hi). destruct (Z.leb_spec 0 x), (Z.leb_spec x (2 ^ 64 - 1)), (Z.leb_spec 0 y), (Z.leb_spec y (2 ^ 64 - 1));
      cbn [andb ok_or mbind result_bind]; try lia.
    destruct (_ && _) eqn:E; [done|]. lia.
Qed.

(** The whole of [state_apply], on the way to [Ok]. *)
Lemma state_apply_Ok s regions e s' :
  state_apply s regions e = (s', Ok tt) <->
  event_generation e = applied_generation regions /\ event_sequence e <> 0 /\ last_sequence s < event_sequence e /\
  validate_position regions (event_position e) = Ok tt /\
  exists s1, apply_event s e = Ok s1 /\ s' = with_sequence s1 (event_sequence e).
Proof.
  unfold state_apply, validate_common.
  destruct (Z.eqb_spec (event_generation e) (applied_generation regions)); cbn [negb]; [|naive_solver].
  destruct (Z.eqb_spec (event_sequence e) 0); cbn [orb]; [naive_solver|].
  destruct (Z.leb_spec (event_sequence e) (last_sequence s)); [naive_solver lia|].
  destruct (validate_position regions (event_position e)) as [[]|]; [|naive_solver].
  destruct (apply_event s e); naive_solver.
Qed.

Lemma state_apply_error s regions e s' err : state_apply s regions e = (s', Err err) -> s' = s.
Proof.
  unfold state_apply. destruct (validate_common s regions e); [|naive_solver].
  destruct (apply_event s e); naive_solver.
Qed.

(** What the state accepts is valid on the wire. *)
Lemma state_apply_wire_valid s regions e s' :
  applied_set_ok regions -> state_apply s regions e = (s', Ok tt) -> wire_valid e.
Proof.
  intros Hok. rewrite state_apply_Ok. intros (Hg & Hs & _ & Hp & s1 & Ha & _).
  apply (validate_position_inside _ _ Hok) in Hp as (r & Hr & _).
  destruct (AppliedRegionSet_get_ok _ _ _ Hok Hr) as [[[Hid _ _] _ _ _] Hid'].
  pose proof (aso_generation _ Hok). unfold wire_valid. split; [lia|]. split; [lia|]. split; [done|].
  destruct e; try done; cbn in Ha.
  - apply unit_bind_Ok in Ha as [_ Ha]. by destruct (Z.eqb_spec button 0).
  - by apply unit_bind_Ok in Ha as [? _].
Qed.

(** ** Lemmas: the emitter mirrors the host *)

Section Mirror.
Context (regions : AppliedRegionSet).

(** The items take a stream's state from one to the other. *)
Inductive delivers : RegionInputState -> list LinkItem -> RegionInputState -> Prop :=
| delivers_nil s : delivers s [] s
| delivers_message s m e s1 items s' :
    wire_decode m = Ok e -> state_apply s regions e = (s1, Ok tt) -> delivers s1 items s' ->
    delivers s (Message m :: items) s'
| delivers_release s items s' : delivers (release_all s).1 items s' -> delivers s (ReleaseAll :: items) s'.

Lemma delivers_app s items items' s' :
  delivers s (items ++ items') s' <-> exists s1, delivers s items s1 /\ delivers s1 items' s'.
Proof.
  split.
  - revert s. induction items as [|i items IH]; intros s H; cbn in H; [exists s; split; [constructor|done]|].
    inversion H; subst.
    + destruct (IH _ ltac:(eassumption)) as (s2 & ? & ?). exists s2. split; [by econstructor|done].
    + destruct (IH _ ltac:(eassumption)) as (s2 & ? & ?). exists s2. split; [by econstructor|done].
  - intros (s1 & H1 & H2). induction H1; cbn; [done| |]; econstructor; eauto.
Qed.

(** A client step whose items, named by [out], carry its state. *)
Definition mirrors {A} (m : Emit A) (out : A -> list LinkItem) : Prop :=
  forall em em' a, m em = (em', Ok a) -> delivers (em_state em) (out a) (em_state em').

Lemma emit_bind_Ok {A B} (m : Emit A) (k : A -> Emit B) em em' b :
  (m ≫= k) em = (em', Ok b) <-> exists em1 a, m em = (em1, Ok a) /\ k a em1 = (em', Ok b).
Proof. unfold mbind, emit_bind. destruct (m em) as [em1 [a|e]]; naive_solver. Qed.

Lemma emit_delivers e ts c em em' m :
  emit regions e ts c em = (em', Ok m) -> delivers (em_state em) [Message m] (em_state em').
Proof.
  unfold emit. destruct (state_apply (em_state em) regions e) as [s' [[]|err]] eqn:E; [|done].
  destruct (wire_validate (wire_encode e ts c)) as [[]|] eqn:Ev; [|done]. intros [= <- <-]. cbn [em_state].
  econstructor; [|exact E|constructor]. apply wire_decode_encode. by apply wire_validate_encode in Ev.
Qed.

Lemma next_sequence_state em em' n : next_sequence em = (em', Ok n) -> em_state em' = em_state em.
Proof. unfold next_sequence. by intros [= <- <-]. Qed.

Lemma raise_sequence_state em em' q u : raise_sequence q em = (em', Ok u) -> em_state em' = em_state em.
Proof. unfold raise_sequence. by intros [= <- <-]. Qed.

Lemma get_state_state em em' s : get_state em = (em', Ok s) -> em' = em /\ s = em_state em.
Proof. unfold get_state. by intros [= <- <-]. Qed.
End Mirror.

(** Opens a client step into the steps it is made of. *)
Ltac open_emit :=
  repeat match goal with
  | H : (_ ≫= _) _ = (_, Ok _) |- _ => apply emit_bind_Ok in H as (? & ? & ? & ?)
  | H : mret _ _ = (_, Ok _) |- _ => apply pair_equal_spec in H as [? H]; apply Ok_inj in H; subst
  | H : emit_fail _ _ = (_, Ok _) |- _ => discriminate H
  | H : next_sequence _ = (_, Ok _) |- _ => apply next_sequence_state in H
  | H : raise_sequence _ _ = (_, Ok _) |- _ => apply raise_sequence_state in H
  | H : get_state _ = (_, Ok _) |- _ => apply get_state_state in H as [? ?]; subst
  | H : emit _ _ _ _ _ = (_, Ok _) |- _ => apply emit_delivers in H
  | H : (if ?b then _ else _) _ = (_, Ok _) |- _ => destruct b
  | H : (match ?o with Some _ => _ | None => _ end) _ = (_, Ok _) |- _ => destruct o
  end.

Section Operations.
Context (regions : AppliedRegionSet).


Lemma delivers_snoc s items s1 m s' :
  delivers regions s items s1 -> delivers regions s1 [m] s' -> delivers regions s (items ++ [m]) s'.
Proof. intros H1 H2. apply delivers_app. by exists s1. Qed.

Lemma emit_button_mirrors position b pr ts : mirrors regions (emit_button regions position b pr ts) (fun m => [Message m]).
Proof. intros em em' m H. unfold emit_button in H. open_emit. by rewrite <- H. Qed.

Lemma ensure_mirrors position ts : mirrors regions (ensure_pointer_position regions position ts) (map Message).
Proof.
  intros em em' ms H. unfold ensure_pointer_position in H. open_emit; cbn [app map]; rewrite ?app_nil_l; try (constructor; fail).
  all: repeat match goal with H : em_state _ = em_state _ |- _ => rewrite H in *; clear H end; try done.
  eapply (delivers_snoc _ [_]); eauto.
Qed.

Lemma sample_buttons_mirrors held position ts buttons :
  mirrors regions (sample_buttons regions held position ts buttons) (map Message).
Proof.
  induction buttons as [|[b pr] buttons IH]; intros em em' ms H; cbn in H; open_emit; [constructor| |].
  - match goal with H : emit_button _ _ _ _ _ _ = _ |- _ => apply emit_button_mirrors in H end.
    rewrite map_app. apply delivers_app. eexists. split; [eassumption|]. by apply IH.
  - cbn. by apply IH.
Qed.

(** Names what each step of an operation delivers. *)
Ltac steps :=
  open_emit; cbn [map app];
  repeat match goal with
  | H : ensure_pointer_position _ _ _ _ = _ |- _ => apply ensure_mirrors in H
  | H : emit_button _ _ _ _ _ _ = _ |- _ => apply emit_button_mirrors in H
  | H : sample_buttons _ _ _ _ _ _ = _ |- _ => apply sample_buttons_mirrors in H
  | H : em_state _ = em_state _ |- _ => rewrite H in *; clear H
  end;
  rewrite ?map_app; cbn [map app]; eauto using delivers_nil, delivers_snoc.

Lemma client_op_mirrors op ts : mirrors regions (client_op regions op ts) (fun items => items).
Proof.
  intros em em' items H. destruct op; cbn [client_op] in H.
  - unfold pointer_motion in H. steps.
  - unfold pointer_sample in H. steps. apply delivers_app. eauto.
  - unfold pointer_button in H. steps.
  - unfold pointer_button_at_latest in H. steps.
  - unfold pointer_scroll in H. steps.
  - unfold pointer_scroll_with_details in H. steps.
  - unfold emitter_pen, pen_with_sequence in H. steps.
  - unfold pen_with_sequence in H. steps.
  - unfold emitter_release_step, emitter_release_all in H. cbn in H. injection H as <- <-.
    apply delivers_release. apply delivers_nil.
Qed.

Lemma client_run_mirrors ops : mirrors regions (client_run regions ops) (fun items => items).
Proof.
  induction ops as [|[op ts] ops IH]; intros em em' items H; cbn [client_run] in H; open_emit; [constructor|].
  apply delivers_app. eexists. split; [by eapply client_op_mirrors|by apply IH].
Qed.

(** Dropping a motion that a motion follows, or a pen sample that one follows,
    changes nothing at the host. *)
Lemma motion_superseded s a b s1 s2 :
  delivers regions s [Message (WirePointerMotion a)] s1 -> delivers regions s1 [Message (WirePointerMotion b)] s2 ->
  delivers regions s [Message (WirePointerMotion b)] s2.
Proof.
  intros H1 H2. inversion H1 as [|? ? ea ? ? ? Da Sa Na|]; subst. inversion Na; subst.
  inversion H2 as [|? ? eb ? ? ? Db Sb Nb|]; subst. inversion Nb; subst.
  econstructor; [exact Db| |constructor].
  assert (exists g p n, ea = PointerMotion g p n) as (ga & pa & na & ->).
  { revert Da. unfold wire_decode. intros D. inv_ok. eauto. }
  assert (exists g p n, eb = PointerMotion g p n) as (gb & pb & nb & ->).
  { revert Db. unfold wire_decode. intros D. inv_ok. eauto. }
  rewrite state_apply_Ok in Sa, Sb |- *. cbn [event_generation event_sequence event_position apply_event] in *.
  destruct Sa as (Ga & _ & La & _ & s' & Aa & ->), Sb as (Gb & Zb & Lb & Pb & s'' & Ab & ->).
  cbn [with_sequence last_sequence] in Lb. split; [done|]. split; [done|]. split; [lia|]. split; [done|].
  apply unit_bind_Ok in Aa as [Ra Aa]. injection Aa as <-. apply unit_bind_Ok in Ab as [Rb Ab]. injection Ab as <-.
  unfold require_active in *. cbn [with_sequence focused active_pointer_region held_buttons pen last_sequence] in *.
  eexists. rewrite Rb. cbn. split; reflexivity.
Qed.

Lemma pen_superseded s a b s1 s2 :
  delivers regions s [Message (WirePen a)] s1 -> delivers regions s1 [Message (WirePen b)] s2 ->
  delivers regions s [Message (WirePen b)] s2.
Proof.
  intros H1 H2. inversion H1 as [|? ? ea ? ? ? Da Sa Na|]; subst. inversion Na; subst.
  inversion H2 as [|? ? eb ? ? ? Db Sb Nb|]; subst. inversion Nb; subst.
  econstructor; [exact Db| |constructor].
  assert (exists g p n, ea = Pen g p n) as (ga & pa & na & ->).
  { revert Da. unfold wire_decode. intros D. inv_ok. eauto. }
  assert (exists g p n, eb = Pen g p n) as (gb & pb & nb & ->).
  { revert Db. unfold wire_decode. intros D. inv_ok. eauto. }
  rewrite state_apply_Ok in Sa, Sb |- *. cbn [event_generation event_sequence event_position apply_event] in *.
  destruct Sa as (Ga & _ & La & _ & s' & Aa & ->), Sb as (Gb & Zb & Lb & Pb & s'' & Ab & ->).
  cbn [with_sequence last_sequence] in Lb. split; [done|]. split; [done|]. split; [lia|]. split; [done|].
  apply unit_bind_Ok in Aa as [Ra Aa]. injection Aa as <-. apply unit_bind_Ok in Ab as [Rb Ab]. injection Ab as <-.
  eexists. rewrite Rb. cbn. split; reflexivity.
Qed.

Lemma delivers_cons_app s i items s' :
  delivers regions s (i :: items) s' <-> exists s1, delivers regions s [i] s1 /\ delivers regions s1 items s'.
Proof. apply (delivers_app regions s [i] items s'). Qed.

Lemma delivers_coalesce items items' s s' :
  coalesce items items' -> delivers regions s items s' -> delivers regions s items' s'.
Proof.
  intros [pre a b post|pre a b post] H; apply delivers_app in H as (s1 & Hpre & H);
    apply delivers_cons_app in H as (s2 & Ha & H); apply delivers_cons_app in H as (s3 & Hb & Hpost);
    apply delivers_app; exists s1; (split; [done|]); apply delivers_cons_app; exists s3; (split; [|done]).
  - by eapply motion_superseded.
  - by eapply pen_superseded.
Qed.
End Operations.

Section HostSide.
Context {M P E : Type} `{Mapper : RegionPointMapper M P E}.
Context (regions : AppliedRegionSet) (Hok : applied_set_ok regions) (mapper : M).

(** A native point that is the image of a pixel of some applied region. *)
Definition on_region (q : P) : Prop :=
  exists r pixel, r ∈ applied_regions regions /\ AppliedRect_contains (ad_applied_rect r) pixel = true /\
    map_applied mapper pixel = Ok q.

(** The platform can represent every pixel of the applied regions. *)
Definition mapper_total : Prop :=
  forall r pixel, r ∈ applied_regions regions -> AppliedRect_contains (ad_applied_rect r) pixel = true ->
    exists q, map_applied mapper pixel = Ok q.

Lemma accept_event (Htotal : mapper_total) s m e s1 :
  wire_decode m = Ok e -> state_apply s regions e = (s1, Ok tt) ->
  exists q, accept (mkPipeline regions s mapper) m = (mkPipeline regions s1 mapper, Ok (q, e)) /\ on_region q.
Proof.
  intros Hd Hs. pose proof Hs as Hs'. apply state_apply_Ok in Hs' as (_ & _ & _ & Hp & _).
  apply (validate_position_inside _ _ Hok) in Hp as (r & Hr & Hin).
  destruct (AppliedRegionSet_get_ok _ _ _ Hok Hr) as [Hrok _].
  pose proof (AppliedRegionSet_get_Some _ _ _ Hr) as [Hmem _].
  pose proof (pixel_of_contained r Hrok _ Hin) as Hc.
  destruct (Htotal r _ Hmem Hc) as [q Hq]. exists q. split; [|by exists r, (pixel_of r (pos_point (event_position e)))].
  unfold accept. rewrite Hd. cbn [from_error]. unfold pipeline_map. cbn [pl_regions pl_mapper pl_state].
  rewrite (logical_to_applied_region r Hrok regions _ _ Hr), Hin. cbn [from_error mbind result_bind].
  rewrite Hq. cbn [from_error]. by rewrite Hs.
Qed.

Lemma host_run_delivers (Htotal : mapper_total) s items s' :
  delivers regions s items s' ->
  exists points, host_run (mkPipeline regions s mapper) items = Some (mkPipeline regions s' mapper, points) /\
    Forall on_region points.
Proof.
  induction 1 as [s|s m e s1 items s' Hd Hs _ (points & Hr & Hp)|s items s' _ (points & Hr & Hp)].
  - exists []. done.
  - destruct (accept_event Htotal s m e s1 Hd Hs) as (q & Ha & Hq). exists (q :: points).
    cbn [host_run]. rewrite Ha, Hr. cbn. split; [done|by constructor].
  - exists points. done.
Qed.
End HostSide.

(** ** What the link promises *)

(** C4: Client and host stay in step: after any sequence of emitter calls that
    succeed -- motions, samples, button edges, scrolls, pen samples and
    releases, against one negotiated region set -- a host pipeline that takes
    the emitted messages in order accepts every one of them, ends in exactly
    the emitter's state (focus, position, held buttons, pen, sequence) and
    injects only native points that are the image of a pixel of an applied
    region; and so it does when a queue on the way dropped motions or pen
    samples that another one directly followed. *)
Theorem emitter_and_pipeline_in_step {M P E : Type} `{Mapper : RegionPointMapper M P E}
  (regions : AppliedRegionSet) (mapper : M) (ops : list (ClientOp * Z)) (em : RegionInputEmitter) (items items' : list LinkItem) :
  applied_set_ok regions -> mapper_total regions mapper ->
  client_run regions ops Emitter_new = (em, Ok items) -> rtc coalesce items items' ->
  exists points, host_run (Pipeline_new regions mapper) items' = Some (mkPipeline regions (em_state em) mapper, points) /\
    Forall (on_region regions mapper) points.
Proof.
  intros Hok Htotal Hrun Hco. apply (client_run_mirrors regions ops) in Hrun. cbn in Hrun.
  apply (host_run_delivers regions Hok mapper Htotal). clear Htotal.
  induction Hco as [|items1 items2 items3 H12 _ IH]; [done|]. apply IH. by eapply delivers_coalesce.
Qed.

(** An emission is all or nothing: over a region set built by its
    constructors, [emit] fails only where the ordered state refuses the event,
    with the emitter unchanged; an event the state accepted is always valid on
    the wire and decodes there to itself, so no accepted transition is lost
    between the state and the message. *)
Theorem emit_all_or_nothing (regions : AppliedRegionSet) (e : RegionInputEvent) (ts : Z) (c : bool)
  (em em' : RegionInputEmitter) (r : result RegionInputEmitError RegionInputWireMessage) :
  applied_set_ok regions -> emit regions e ts c em = (em', r) ->
  match r with
  | Err err => em' = em /\ exists se, err = EmitState se
  | Ok m => m = wire_encode e ts c /\ wire_decode m = Ok e /\
      state_apply (em_state em) regions e = (em_state em', Ok tt) /\ em_sequence em' = em_sequence em
  end.
Proof.
  intros Hok. unfold emit. destruct (state_apply (em_state em) regions e) as [s' [[]|err]] eqn:E.
  - pose proof (state_apply_wire_valid _ _ _ _ Hok E) as Hv.
    rewrite (proj2 (wire_validate_encode e ts c) Hv). intros [= <- <-].
    split; [done|]. split; [by apply wire_decode_encode|]. done.
  - intros [= <- <-]. apply state_apply_error in E as ->. split; [by destruct em|eauto].
Qed.

(** ** Examples *)

#[local] Instance identity_mapper : RegionPointMapper unit AppliedPoint Empty_set := fun _ p => Ok p.

Definition at_ (id : RegionId) (x y : Z) : RegionLogicalPosition := mkPosition id (mkLogicalPoint x y).

Definition sample_pen : RegionPenSample :=
  mkPenSample (at_ 2 5 5) F32_ONE F32_ZERO F32_MINUS_90 F32_360 Tip true true 1.

Definition sample_ops : list (ClientOp * Z) :=
  [(OpMotion (at_ 1 0 0), 1); (OpMotion (at_ 1 120 0), 2); (OpMotion (at_ 1 240 0), 3);
   (OpButton (at_ 1 240 0) 1 true, 4); (OpMotion (at_ 2 7 7), 5); (OpScroll (at_ 2 7 7) 0 120, 6);
   (OpPen sample_pen true, 7); (OpRelease, 8); (OpSample (at_ 2 9 9) [(1, true); (3, false)], 9)].

Definition sample_items : list LinkItem :=
  match (client_run sample_regions sample_ops Emitter_new).2 with Ok items => items | Err _ => [] end.

Definition motion_at (x n : Z) : RegionPointerMotionMsg :=
  mkMotionMsg "region_pointer_motion" (mkPositionMsg 7 1 x 0) (mkMetadataMsg n n true).

(** The third item, a motion, follows the second one. *)
Definition sample_coalesced : list LinkItem := take 1 sample_items ++ drop 2 sample_items.

Lemma emitter_and_pipeline_in_step_witness :
  exists points, host_run (Pipeline_new sample_regions tt) sample_coalesced =
    Some (mkPipeline sample_regions (em_state (client_run sample_regions sample_ops Emitter_new).1) tt, points) /\
    Forall (on_region sample_regions tt) points.
Proof.
  apply (emitter_and_pipeline_in_step sample_regions tt sample_ops _ sample_items).
  - exact sample_regions_ok.
  - intros r pixel _ _. exists pixel. reflexivity.
  - vm_compute. reflexivity.
  - assert (E1 : take 1 sample_items ++ Message (WirePointerMotion (motion_at 120 2)) ::
                   Message (WirePointerMotion (motion_at 240 3)) :: drop 3 sample_items = sample_items)
      by (vm_compute; reflexivity).
    assert (E2 : take 1 sample_items ++ Message (WirePointerMotion (motion_at 240 3)) :: drop 3 sample_items =
                 sample_coalesced) by (vm_compute; reflexivity).
    pose proof (coalesce_motion (take 1 sample_items) (motion_at 120 2) (motion_at 240 3) (drop 3 sample_items)) as H.
    rewrite E1, E2 in H. by apply rtc_once.
Defined.

Lemma emit_all_or_nothing_witness :
  exists m, (emit sample_regions (PointerEnter 7 (at_ 1 0 0) 1) 0 false Emitter_new).2 = Ok m /\
    wire_decode m = Ok (PointerEnter 7 (at_ 1 0 0) 1).
Proof.
  exists (wire_encode (PointerEnter 7 (at_ 1 0 0) 1) 0 false). split; [reflexivity|].
  exact (proj1 (proj2 (emit_all_or_nothing sample_regions (PointerEnter 7 (at_ 1 0 0) 1) 0 false Emitter_new _ _
    sample_regions_ok eq_refl))).
Defined.

(** A refused move leaves the two ends apart: from focus in one region, a
    motion to a region the client does not have emits nothing, although the
    emitter has already left the first region; the enter it sends for the next
    motion is then refused by the host, which is still focused. *)
Theorem refused_enter_loses_leave :
  let '(em1, r1) := pointer_motion sample_regions (at_ 1 0 0) 0 Emitter_new in
  let '(em2, r2) := pointer_motion sample_regions (at_ 9 0 0) 0 em1 in
  let '(em3, r3) := pointer_motion sample_regions (at_ 1 0 0) 0 em2 in
  r2 = Err (EmitState (UnknownRegion 9)) /\ focused (em_state em1) = true /\ focused (em_state em2) = false /\
  match r1, r3 with
  | Ok [m1], Ok [m3] =>
    (accept (accept (Pipeline_new sample_regions tt) m1).1 m3).2 = Err (PipelineState PointerAlreadyFocused)
  | _, _ => False
  end.
Proof. vm_compute. repeat split. Qed.
