(* ===== verification/CaptureSurface.v ===== *)
(** * Media: delivered capture buffers and their validation

    Models [shared/media/src/video/capture_surface.rs]: the description of a
    delivered buffer, what the importer proved, and the validation every buffer
    passes before anything reads its pixels.  Tokens (names for logs) are left
    out; the packed-RGB10 layouts are those of [video/convert.rs]. *)

From stdpp Require Import strings.
From S2P Require Import Prelude KeelGrid KeelDamage KeelExternal MediaRegion.

Definition MAX_CAPTURE_PLANES : Z := 4.
Definition MAX_CAPTURE_DAMAGE_RECTS : Z := 256.

(** ** Facts *)

Inductive SourceFact (T : Type) := Authoritative (value : T) | Inferred (value : T) | FactUnknown.
Arguments Authoritative {T}. Arguments Inferred {T}. Arguments FactUnknown {T}.

Definition authoritative {T} (f : SourceFact T) : option T :=
  match f with Authoritative v => Some v | Inferred _ | FactUnknown => None end.

Definition fact_value {T} (f : SourceFact T) : option T :=
  match f with Authoritative v | Inferred v => Some v | FactUnknown => None end.

Inductive SourcePrecision := Eight | Ten | HalfFloat.
Definition is_wide (p : SourcePrecision) : bool := match p with Eight => false | _ => true end.

Inductive CapturePixelFormat := Bgra8 | Bgrx8 | Rgba8 | Rgbx8 | Nv12 | Xrgb2101010 | Xbgr2101010 | RgbaF16.

Definition precision (f : CapturePixelFormat) : SourcePrecision :=
  match f with
  | Bgra8 | Bgrx8 | Rgba8 | Rgbx8 | Nv12 => Eight
  | Xrgb2101010 | Xbgr2101010 => Ten
  | RgbaF16 => HalfFloat
  end.

Definition is_yuv (f : CapturePixelFormat) : bool := match f with Nv12 => true | _ => false end.
Definition plane_count (f : CapturePixelFormat) : Z := match f with Nv12 => 2 | _ => 1 end.

Record PackedRgb10Layout := mkRgb10 { rgb10_red : Z; rgb10_green : Z; rgb10_blue : Z }.

Definition packed_rgb10_layout (f : CapturePixelFormat) : option PackedRgb10Layout :=
  match f with
  | Xrgb2101010 => Some (mkRgb10 20 10 0)
  | Xbgr2101010 => Some (mkRgb10 0 10 20)
  | _ => None
  end.

Definition min_row_bytes (f : CapturePixelFormat) (plane width : Z) : option Z :=
  match f with
  | Nv12 => if plane =? 0 then Some width
            else if plane =? 1 then checked_mul 64 (div_ceil width 2) 2 else None
  | RgbaF16 => if plane =? 0 then checked_mul 64 width 8 else None
  | _ => if plane =? 0 then checked_mul 64 width 4 else None
  end.

Definition plane_rows (f : CapturePixelFormat) (plane height : Z) : Z :=
  match f with Nv12 => if plane =? 1 then div_ceil height 2 else height | _ => height end.

Definition FormatModifier : Type := Z.
Definition MODIFIER_LINEAR : FormatModifier := 0.
Definition MODIFIER_IMPLICIT : FormatModifier := 0x00ffffffffffffff.

Inductive ModifierClass := Linear | Vendor | Implicit.

Definition modifier_class (m : FormatModifier) : ModifierClass :=
  if m =? 0 then Linear else if m =? 0x00ffffffffffffff then Implicit else Vendor.

Inductive CaptureMemory := DmaBuf (modifier : FormatModifier) | HostShared | GpuDevice.

Record PlaneLayout := mkPlane { plane_buffer : Z; plane_offset : Z; plane_stride : Z; plane_size : Z }.
Record CaptureGeometry := mkGeometry { coded_width : Z; coded_height : Z; visible : PixelRect }.

Inductive SourceTransfer := TransferSrgb | TransferBt709 | TransferPq | TransferHlg | LinearExtended.
Definition is_sdr (t : SourceTransfer) : bool := match t with TransferSrgb | TransferBt709 => true | _ => false end.

Inductive ColorRange := RangeLimited | RangeFull.
Inductive ColorMatrix := MatrixIdentity | MatrixBt709 | MatrixBt601 | MatrixBt2020Ncl.
Inductive ColorPrimaries := PrimariesBt709 | PrimariesBt2020 | PrimariesDisplayP3.

Record SourceColour := mkColour {
  colour_primaries : SourceFact ColorPrimaries;
  colour_transfer : SourceFact SourceTransfer;
  colour_range : SourceFact ColorRange;
  colour_matrix : SourceFact ColorMatrix;
  sdr_white_nits : SourceFact Z
}.

Definition SourceColour_UNKNOWN : SourceColour := mkColour FactUnknown FactUnknown FactUnknown FactUnknown FactUnknown.

Record CaptureTimestamps := mkTimestamps {
  capture_sequence : Z; capture_monotonic_ns : Z; presentation_ns : option Z }.

Inductive DamageEvidence := EvidenceUnknown | EvidenceFull | Regions (rects : list PixelRect).

Definition metadata_status (d : DamageEvidence) : DamageMetadataStatus :=
  match d with Regions _ => Complete | EvidenceUnknown | EvidenceFull => Unknown end.
Definition is_full (d : DamageEvidence) : bool := match d with Regions _ => false | _ => true end.

Inductive CursorMode := CursorLocal | CursorHost.
Inductive CursorEvidence := SeparateMetadata | Composited | Absent | CursorUnknown.

Definition in_video (c : CursorEvidence) : option bool :=
  match c with Composited => Some true | SeparateMetadata | Absent => Some false | CursorUnknown => None end.

Definition cursor_authority (c : CursorEvidence) : option CursorMode :=
  match c with
  | Composited => Some CursorHost
  | SeparateMetadata | Absent => Some CursorLocal
  | CursorUnknown => None
  end.

(** ** GPUs and copy paths *)

Record PciAddress := mkPci { pci_domain : Z; pci_bus : Z; pci_device : Z; pci_function : Z }.
Record GpuIdentity := mkGpu { gpu_pci : option PciAddress; render_node_minor : option Z; vendor_id : option Z }.
Inductive GpuMatch := GpuSame | GpuDifferent | GpuUnknown.

#[export] Instance SourceFact_eq_dec {T} `{EqDecision T} : EqDecision (SourceFact T).
Proof. solve_decision. Defined.
#[export] Instance ModifierClass_eq_dec : EqDecision ModifierClass.
Proof. solve_decision. Defined.
#[export] Instance ColorRange_eq_dec : EqDecision ColorRange.
Proof. solve_decision. Defined.
#[export] Instance ColorMatrix_eq_dec : EqDecision ColorMatrix.
Proof. solve_decision. Defined.
#[export] Instance ColorPrimaries_eq_dec : EqDecision ColorPrimaries.
Proof. solve_decision. Defined.
#[export] Instance SourceTransfer_eq_dec : EqDecision SourceTransfer.
Proof. solve_decision. Defined.
#[export] Instance SourceColour_eq_dec : EqDecision SourceColour.
Proof. solve_decision. Defined.
#[export] Instance PciAddress_eq_dec : EqDecision PciAddress.
Proof. solve_decision. Defined.
#[export] Instance GpuMatch_eq_dec : EqDecision GpuMatch.
Proof. solve_decision. Defined.
#[export] Instance FormatModifier_eq_dec : EqDecision FormatModifier := Z.eq_dec.

Definition compare_key {T} `{EqDecision T} (left_ right_ : option T) : option bool :=
  l ← left_; r ← right_; Some (bool_decide (l = r)).

(** The loop over the two strong keys, then the vendor. *)
Definition gpu_compare (a b : GpuIdentity) : GpuMatch :=
  let keys := [compare_key (gpu_pci a) (gpu_pci b); compare_key (render_node_minor a) (render_node_minor b)] in
  if existsb (fun k => bool_decide (k = Some false)) keys then GpuDifferent
  else if bool_decide (compare_key (vendor_id a) (vendor_id b) = Some false) then GpuDifferent
  else if existsb (fun k => bool_decide (k = Some true)) keys then GpuSame else GpuUnknown.

Definition compare_gpus (source encoder : option GpuIdentity) : GpuMatch :=
  match source, encoder with Some s, Some e => gpu_compare s e | _, _ => GpuUnknown end.

Inductive CopyPath := ZeroCopyImport | GpuConvert | HostCopy | CrossGpu.
#[export] Instance CopyPath_eq_dec : EqDecision CopyPath.
Proof. solve_decision. Defined.

Definition zero_copy (p : CopyPath) : bool := match p with ZeroCopyImport => true | _ => false end.
Definition host_round_trip (p : CopyPath) : bool := match p with HostCopy => true | _ => false end.
Definition requires_same_gpu (p : CopyPath) : bool := match p with ZeroCopyImport | GpuConvert => true | _ => false end.

Inductive CaptureBackend := NvFbc | XShm | DesktopDuplication | WindowsGraphicsCapture | PipeWire.

(** ** Surfaces *)

Record CaptureSurface := mkSurface {
  surface_output : OutputIdentity;
  surface_generation : RegionGeneration;
  surface_backend : CaptureBackend;
  surface_format : CapturePixelFormat;
  geometry : CaptureGeometry;
  planes : list PlaneLayout;
  buffer_sizes : list (option Z);
  memory : CaptureMemory;
  surface_colour : SourceColour;
  timestamps : CaptureTimestamps;
  surface_damage : DamageEvidence;
  surface_cursor : CursorEvidence;
  surface_gpu : option GpuIdentity;
  copy_path : CopyPath
}.

Record CaptureImporter := mkImporter {
  importer_output : OutputIdentity;
  importer_generation : RegionGeneration;
  importer_colour : SourceColour;
  encoder_gpu : option GpuIdentity;
  gpu_modifiers : list FormatModifier;
  importer_last_sequence : option Z
}.

Record ValidatedCaptureSurface := mkValidated {
  validated_surface : CaptureSurface;
  validated_damage : DamageEvidence;
  validated_gpu : GpuMatch
}.

Inductive CaptureSurfaceError :=
| OutputMismatch
| SurfaceStaleGeneration (presented current : Z)
| FutureGeneration (presented current : Z)
| EmptyGeometry
| VisibleOutsideCoded
| PlaneCountMismatch (expected actual : Z)
| UnknownBuffer (plane : Z)
| StrideTooSmall (plane : Z)
| PlaneTruncated (plane : Z)
| BufferSizeUnknown (plane : Z)
| PlaneOutsideBuffer (plane : Z)
| PlaneOverlap
| LayoutOverflow
| UnsupportedModifier (class : ModifierClass)
| NonLinearForCpu (class : ModifierClass)
| ColourChanged
| CopyPathMismatch
| GpuIdentityUnproven
| GpuMismatch
| NonMonotonicSequence
| InvalidPciAddress.

Definition PciAddress_new (domain bus device function : Z) : result CaptureSurfaceError PciAddress :=
  if (32 <=? device) || (8 <=? function) then Err InvalidPciAddress else Ok (mkPci domain bus device function).

Definition rect_within (r : PixelRect) (width height : Z) : bool :=
  match checked_add 64 (rect_x r) (rect_width r) with Some right_ => right_ <=? width | None => false end &&
  match checked_add 64 (rect_y r) (rect_height r) with Some bottom_ => bottom_ <=? height | None => false end.

Definition validate_identity (s : CaptureSurface) (importer : CaptureImporter) : result CaptureSurfaceError unit :=
  if negb (bool_decide (surface_output s = importer_output importer)) then Err OutputMismatch
  else
    let presented := surface_generation s in
    let current := importer_generation importer in
    if presented <? current then Err (SurfaceStaleGeneration presented current)
    else if current <? presented then Err (FutureGeneration presented current)
    else Ok tt.

Definition validate_geometry (s : CaptureSurface) : result CaptureSurfaceError unit :=
  let g := geometry s in
  if (coded_width g =? 0) || (coded_height g =? 0) || (rect_width (visible g) =? 0) || (rect_height (visible g) =? 0)
  then Err EmptyGeometry
  else if negb (rect_within (visible g) (coded_width g) (coded_height g)) then Err VisibleOutsideCoded
  else Ok tt.

(** The body of the loop over the planes, with the [extents] seen. *)
Definition validate_plane (s : CaptureSurface) (extents : list (Z * Z * Z)) (index : Z) (plane : PlaneLayout)
  : result CaptureSurfaceError (list (Z * Z * Z)) :=
  buffer_size ← ok_or (read_at (buffer_sizes s) (plane_buffer plane)) (UnknownBuffer index);
  row_bytes ← ok_or (min_row_bytes (surface_format s) index (coded_width (geometry s))) LayoutOverflow;
  let stride := plane_stride plane in
  if stride <? row_bytes then Err (StrideTooSmall index)
  else
    let rows := plane_rows (surface_format s) index (coded_height (geometry s)) in
    needed ← ok_or (bytes ← checked_mul 64 stride (rows - 1); checked_add 64 bytes row_bytes) LayoutOverflow;
    if plane_size plane <? needed then Err (PlaneTruncated index)
    else
      end_ ← ok_or (checked_add 64 (plane_offset plane) (plane_size plane)) LayoutOverflow;
      _ ← match buffer_size, memory s with
          | Some size, _ => if size <? end_ then Err (PlaneOutsideBuffer index) else Ok tt
          | None, GpuDevice => Ok tt
          | None, _ => Err (BufferSizeUnknown index)
          end;
      if existsb (fun '(buffer, start, stop) =>
           (buffer =? plane_buffer plane) && ((plane_offset plane <? stop) && (start <? end_))) extents
      then Err PlaneOverlap
      else Ok (extents ++ [(plane_buffer plane, plane_offset plane, end_)]).

Fixpoint validate_plane_loop (s : CaptureSurface) (extents : list (Z * Z * Z)) (index : Z) (planes : list PlaneLayout)
  : result CaptureSurfaceError unit :=
  match planes with
  | [] => Ok tt
  | plane :: planes =>
    extents ← validate_plane s extents index plane;
    validate_plane_loop s extents (index + 1) planes
  end.

Definition validate_planes (s : CaptureSurface) : result CaptureSurfaceError unit :=
  let expected := plane_count (surface_format s) in
  if negb (len (planes s) =? expected) || (MAX_CAPTURE_PLANES <? len (buffer_sizes s))
  then Err (PlaneCountMismatch expected (len (planes s)))
  else validate_plane_loop s [] 0 (planes s).

Definition validate_path (s : CaptureSurface) (importer : CaptureImporter) (gpu : GpuMatch)
  : result CaptureSurfaceError unit :=
  let path := copy_path s in
  _ ← (if requires_same_gpu path then
         match memory s with
         | HostShared => Err CopyPathMismatch
         | _ => match gpu with
                | GpuSame => Ok tt
                | GpuDifferent => Err GpuMismatch
                | GpuUnknown => Err GpuIdentityUnproven
                end
         end
       else Ok tt);
  if bool_decide (path = CrossGpu) && bool_decide (gpu = GpuSame) then Err CopyPathMismatch
  else
    match memory s with
    | DmaBuf modifier =>
      let class := modifier_class modifier in
      if host_round_trip path then
        if negb (bool_decide (class = Linear)) then Err (NonLinearForCpu class) else Ok tt
      else if bool_decide (class = Implicit) || negb (bool_decide (modifier ∈ gpu_modifiers importer))
      then Err (UnsupportedModifier class)
      else Ok tt
    | _ => Ok tt
    end.

Definition effective_damage (s : CaptureSurface) : DamageEvidence :=
  match surface_damage s with
  | Regions rects =>
    if (len rects <=? MAX_CAPTURE_DAMAGE_RECTS) &&
       forallb (fun r => rect_within r (coded_width (geometry s)) (coded_height (geometry s))) rects
    then Regions rects else EvidenceUnknown
  | EvidenceFull => EvidenceFull
  | EvidenceUnknown => EvidenceUnknown
  end.

Definition validate (s : CaptureSurface) (importer : CaptureImporter)
  : result CaptureSurfaceError ValidatedCaptureSurface :=
  _ ← validate_identity s importer;
  _ ← validate_geometry s;
  _ ← validate_planes s;
  if negb (bool_decide (surface_colour s = importer_colour importer)) then Err ColourChanged
  else
    let gpu := compare_gpus (surface_gpu s) (encoder_gpu importer) in
    _ ← validate_path s importer gpu;
    if match importer_last_sequence importer with Some last => capture_sequence (timestamps s) <=? last | None => false end
    then Err NonMonotonicSequence
    else Ok (mkValidated s (effective_damage s) gpu).

(** ** What an accepted surface is *)

(** Bytes [first, last) of a row lie inside the plane and its buffer. *)
Record plane_fits (s : CaptureSurface) (index : Z) (plane : PlaneLayout) (row_bytes : Z) (size : option Z) : Prop := {
  pf_row : min_row_bytes (surface_format s) index (coded_width (geometry s)) = Some row_bytes;
  pf_stride : row_bytes <= plane_stride plane;
  pf_buffer : read_at (buffer_sizes s) (plane_buffer plane) = Some size;
  pf_rows : forall k, 0 <= k < plane_rows (surface_format s) index (coded_height (geometry s)) ->
    k * plane_stride plane + row_bytes <= plane_size plane;
  pf_end : plane_offset plane + plane_size plane <= umax 64;
  pf_bounded : match size with
               | Some n => plane_offset plane + plane_size plane <= n
               | None => memory s = GpuDevice
               end
}.

Definition apart (p q : PlaneLayout) : Prop :=
  plane_buffer p <> plane_buffer q \/
  plane_offset p + plane_size p <= plane_offset q \/ plane_offset q + plane_size q <= plane_offset p.

Definition rect_inside (r : PixelRect) (width height : Z) : Prop :=
  rect_x r + rect_width r <= width /\ rect_y r + rect_height r <= height.

(** The copy path is one the memory and the GPUs allow. *)
Record path_ok (s : CaptureSurface) (importer : CaptureImporter) (gpu : GpuMatch) : Prop := {
  po_same_gpu : requires_same_gpu (copy_path s) = true -> gpu = GpuSame /\ memory s <> HostShared;
  po_cross : copy_path s = CrossGpu -> gpu <> GpuSame;
  po_modifier : forall m, memory s = DmaBuf m ->
    if host_round_trip (copy_path s) then m = MODIFIER_LINEAR
    else m <> MODIFIER_IMPLICIT /\ m ∈ gpu_modifiers importer
}.

Record surface_ok (s : CaptureSurface) (importer : CaptureImporter) : Prop := {
  so_output : surface_output s = importer_output importer;
  so_generation : surface_generation s = importer_generation importer;
  so_coded : coded_width (geometry s) <> 0 /\ coded_height (geometry s) <> 0;
  so_visible : rect_width (visible (geometry s)) <> 0 /\ rect_height (visible (geometry s)) <> 0 /\
    rect_inside (visible (geometry s)) (coded_width (geometry s)) (coded_height (geometry s));
  so_count : len (planes s) = plane_count (surface_format s) /\ len (buffer_sizes s) <= MAX_CAPTURE_PLANES;
  so_planes : forall i p, read_at (planes s) i = Some p -> exists row_bytes size, plane_fits s i p row_bytes size;
  so_apart : forall i j p q, read_at (planes s) i = Some p -> read_at (planes s) j = Some q -> i < j -> apart p q;
  so_colour : surface_colour s = importer_colour importer;
  so_path : path_ok s importer (compare_gpus (surface_gpu s) (encoder_gpu importer));
  so_sequence : forall last, importer_last_sequence importer = Some last -> last < capture_sequence (timestamps s)
}.

(** The machine widths of a surface. *)
Record surface_wf (s : CaptureSurface) : Prop := {
  sw_coded : in_width 32 (coded_width (geometry s)) /\ in_width 32 (coded_height (geometry s));
  sw_visible : in_width 64 (rect_x (visible (geometry s))) /\ in_width 64 (rect_y (visible (geometry s))) /\
    in_width 64 (rect_width (visible (geometry s))) /\ in_width 64 (rect_height (visible (geometry s)));
  sw_planes : Forall (fun p => in_width 8 (plane_buffer p) /\ in_width 64 (plane_offset p) /\
    in_width 32 (plane_stride p) /\ in_width 64 (plane_size p)) (planes s)
}.

(** ** Lemmas *)

Lemma rect_within_inside r w h :
  w <= umax 32 -> h <= umax 32 -> rect_within r w h = true <-> rect_inside r w h.
Proof.
  intros Hw Hh. unfold rect_within, rect_inside, checked_add.
  assert (umax 32 < umax 64) by done.
  destruct (Z.leb_spec (rect_x r + rect_width r) (umax 64)), (Z.leb_spec (rect_y r + rect_height r) (umax 64));
    rewrite ?andb_true_iff, ?Z.leb_le; split; try lia; intros [? ?]; try done; lia.
Qed.

Lemma guard_if_Ok {E} (b : bool) (e : E) : (if b then Err e else Ok tt) = Ok tt <-> b = false.
Proof. by destruct b. Qed.

(** Every later row ends where the last row ends or before. *)
Lemma rows_fit stride rows row_bytes size :
  0 <= stride -> 0 < rows ->
  (forall k, 0 <= k < rows -> k * stride + row_bytes <= size) <-> stride * (rows - 1) + row_bytes <= size.
Proof.
  intros Hs Hr. split.
  - intros H. specialize (H (rows - 1) ltac:(lia)). lia.
  - intros H k Hk. nia.
Qed.

Lemma plane_rows_pos f index height : 0 < height -> 0 < plane_rows f index height.
Proof. intros H. unfold plane_rows. destruct f; try done. destruct (index =? 1); [|done]. apply div_ceil_pos; lia. Qed.

Lemma min_row_bytes_nonneg f index width row :
  0 <= width -> min_row_bytes f index width = Some row -> 0 <= row.
Proof.
  intros Hw. pose proof (div_ceil_nonneg width 2 Hw ltac:(lia)). unfold min_row_bytes.
  destruct f; repeat case_match; intros E; simplify_eq; try done; apply checked_mul_Some in E as [-> _]; lia.
Qed.

Section Plane.
Context (s : CaptureSurface) (Hh : 0 < coded_height (geometry s)) (Hw : 0 <= coded_width (geometry s)).
Context (index : Z) (plane : PlaneLayout).
Hypothesis Hstride : 0 <= plane_stride plane.
Hypothesis Hsize : plane_size plane <= umax 64.

(** The extents the loop has pushed for the planes before this one. *)
Definition extent_of (p : PlaneLayout) : Z * Z * Z := (plane_buffer p, plane_offset p, plane_offset p + plane_size p).

Lemma overlap_spec seen :
  existsb (fun '(buffer, start, stop) =>
     (buffer =? plane_buffer plane) &&
     ((plane_offset plane <? stop) && (start <? plane_offset plane + plane_size plane))) (map extent_of seen) = false <->
  Forall (fun p => apart p plane) seen.
Proof.
  induction seen as [|p seen IH]; cbn; [split; [constructor|done]|].
  rewrite Forall_cons, orb_false_iff, IH. unfold apart.
  assert (Hb : (plane_buffer p =? plane_buffer plane) &&
    ((plane_offset plane <? plane_offset p + plane_size p) &&
     (plane_offset p <? plane_offset plane + plane_size plane)) = false <->
    plane_buffer p <> plane_buffer plane \/
    plane_offset p + plane_size p <= plane_offset plane \/ plane_offset plane + plane_size plane <= plane_offset p) by lia.
  tauto.
Qed.

Lemma validate_plane_Ok seen extents :
  validate_plane s (map extent_of seen) index plane = Ok extents <->
  extents = map extent_of (seen ++ [plane]) /\ Forall (fun p => apart p plane) seen /\
  exists row_bytes size, plane_fits s index plane row_bytes size.
Proof.
  pose proof (plane_rows_pos (surface_format s) index (coded_height (geometry s)) Hh) as Hrows.
  unfold validate_plane. rewrite bind_Ok. setoid_rewrite ok_or_Ok.
  rewrite map_app. cbn [map].
  split.
  - intros (size & Eb & H). apply bind_Ok in H as (row & Er & H). apply ok_or_Ok in Er. cbv zeta in H.
    destruct (Z.ltb_spec (plane_stride plane) row) as [|Hst]; [done|].
    apply bind_Ok in H as (needed & En & H). apply ok_or_Ok in En. apply bind_Some in En as (bytes & Em & En).
    apply checked_mul_Some in Em as [-> Em]. apply checked_add_Some in En as [-> En].
    destruct (Z.ltb_spec (plane_size plane) (plane_stride plane * (plane_rows (surface_format s) index (coded_height (geometry s)) - 1) + row)) as [|Hn]; [done|].
    apply bind_Ok in H as (end_ & Ee & H). apply ok_or_Ok in Ee. apply checked_add_Some in Ee as [-> Ee].
    apply bind_Ok in H as ([] & Ebound & H).
    destruct (existsb _ _) eqn:Eo in H; [done|]. apply Ok_inj in H as <-.
    apply overlap_spec in Eo. split; [done|]. split; [done|]. exists row, size. split; try done.
    + by apply rows_fit.
    + destruct size as [n|]; [|by destruct (memory s)].
      apply guard_if_Ok in Ebound. lia.
  - intros (-> & Ha & row & size & [Er Hst Eb Hr Ee Hbound]). exists size. split; [done|].
    rewrite Er. cbn [ok_or mbind result_bind]. cbv zeta.
    destruct (Z.ltb_spec (plane_stride plane) row) as [|_]; [lia|].
    apply rows_fit in Hr; [|done|done].
    pose proof (min_row_bytes_nonneg _ _ _ _ Hw Er) as Hrow.
    set (rows := plane_rows (surface_format s) index (coded_height (geometry s))) in *.
    assert (checked_mul 64 (plane_stride plane) (rows - 1) = Some (plane_stride plane * (rows - 1))) as ->
      by (apply checked_mul_Some; lia).
    cbn [mbind option_bind].
    assert (checked_add 64 (plane_stride plane * (rows - 1)) row = Some (plane_stride plane * (rows - 1) + row)) as ->
      by (apply checked_add_Some; lia).
    cbn [ok_or mbind result_bind].
    destruct (Z.ltb_spec (plane_size plane) (plane_stride plane * (rows - 1) + row)); [lia|].
    assert (checked_add 64 (plane_offset plane) (plane_size plane) = Some (plane_offset plane + plane_size plane)) as ->
      by (apply checked_add_Some; lia).
    cbn [ok_or mbind result_bind].
    assert (match size, memory s with
            | Some size, _ => if size <? plane_offset plane + plane_size plane then Err (PlaneOutsideBuffer index) else Ok tt
            | None, GpuDevice => Ok tt
            | None, _ => Err (BufferSizeUnknown index)
            end = Ok tt) as ->.
    { destruct size as [n|]; [|by rewrite Hbound]. apply guard_if_Ok. lia. }
    cbn [mbind result_bind]. by rewrite (proj2 (overlap_spec seen) Ha).
Qed.
End Plane.

Section Surface.
Context (s : CaptureSurface) (Hh : 0 < coded_height (geometry s)) (Hw : 0 <= coded_width (geometry s)).

Lemma validate_plane_loop_Ok ps : forall seen index,
  Forall (fun p => 0 <= plane_stride p /\ plane_size p <= umax 64) ps ->
  validate_plane_loop s (map extent_of seen) index ps = Ok tt <->
  (forall i p, read_at ps i = Some p -> exists row size, plane_fits s (index + i) p row size) /\
  (forall j q, read_at ps j = Some q -> Forall (fun p => apart p q) seen) /\
  (forall i j p q, read_at ps i = Some p -> read_at ps j = Some q -> i < j -> apart p q).
Proof.
  induction ps as [|plane ps IH]; intros seen index Hps; cbn [validate_plane_loop].
  { split; [|done]. intros _. split; [|split]; intros *; unfold read_at; destruct (_ <? 0); done. }
  apply Forall_cons in Hps as [[Hst Hsz] Hps]. rewrite bind_Ok.
  assert (Hread : forall i p, read_at (plane :: ps) i = Some p <-> (i = 0 /\ p = plane) \/ (0 < i /\ read_at ps (i - 1) = Some p)).
  { intros i p. unfold read_at. destruct (Z.ltb_spec i 0); [split; [done|lia]|].
    destruct (Z.eq_dec i 0) as [->|].
    - cbn. split; [intros [= <-]; auto|]. intros [[_ ->]|[? _]]; [done|lia].
    - destruct (Z.ltb_spec (i - 1) 0); [lia|]. replace (Z.to_nat i) with (S (Z.to_nat (i - 1))) by lia.
      cbn [lookup list_lookup]. split; [auto with lia|]. intros [[? _]|[_ ?]]; [lia|done]. }
  split.
  - intros (extents & Hp & Hl). apply validate_plane_Ok in Hp as (-> & Ha & Hf); [|done..].
    apply IH in Hl as (H1 & H2 & H3); [|done]. split; [|split].
    + intros i p [[-> ->]|[Hi Hr]]%Hread; [by rewrite Z.add_0_r|].
      replace (index + i) with (index + 1 + (i - 1)) by lia. by apply H1.
    + intros j q [[-> ->]|[Hj Hr]]%Hread; [done|]. apply H2 in Hr. by apply Forall_app in Hr as [? _].
    + intros i j p q [[-> ->]|[Hi Hri]]%Hread [[-> ->]|[Hj Hrj]]%Hread Hij; try lia.
      * apply H2 in Hrj. apply Forall_app in Hrj as [_ Hrj]. by apply Forall_cons in Hrj as [? _].
      * apply (H3 (i - 1) (j - 1)); [done|done|lia].
  - intros (H1 & H2 & H3). exists (map extent_of (seen ++ [plane])).
    assert (H0 : read_at (plane :: ps) 0 = Some plane) by (apply Hread; auto).
    split.
    + apply validate_plane_Ok; [done..|]. split; [done|]. split; [by eapply H2|].
      specialize (H1 0 plane H0). by rewrite Z.add_0_r in H1.
    + apply IH; [done|]. split; [|split].
      * intros i p Hr. replace (index + 1 + i) with (index + (i + 1)) by lia. apply H1, Hread. right.
        assert (0 <= i) by (revert Hr; unfold read_at; destruct (Z.ltb_spec i 0); [done|lia]).
        replace (i + 1 - 1) with i by lia. split; [lia|done].
      * intros j q Hr. assert (0 <= j) by (revert Hr; unfold read_at; destruct (Z.ltb_spec j 0); [done|lia]).
        assert (Hq : read_at (plane :: ps) (j + 1) = Some q).
        { apply Hread. right. replace (j + 1 - 1) with j by lia. split; [lia|done]. }
        apply Forall_app. split; [by eapply H2|]. apply Forall_cons. split; [|constructor].
        eapply (H3 0 (j + 1)); [done|done|lia].
      * intros i j p q Hi Hj Hij. eapply (H3 (i + 1) (j + 1)).
        -- apply Hread. right. assert (0 <= i) by (revert Hi; unfold read_at; destruct (Z.ltb_spec i 0); [done|lia]).
           replace (i + 1 - 1) with i by lia. split; [lia|done].
        -- apply Hread. right. assert (0 <= j) by (revert Hj; unfold read_at; destruct (Z.ltb_spec j 0); [done|lia]).
           replace (j + 1 - 1) with j by lia. split; [lia|done].
        -- lia.
Qed.

Lemma validate_path_Ok importer gpu : validate_path s importer gpu = Ok tt <-> path_ok s importer gpu.
Proof.
  unfold validate_path. rewrite bind_Ok.
  assert (Hcls : forall m, modifier_class m = Linear <-> m = MODIFIER_LINEAR).
  { intros m. unfold modifier_class, MODIFIER_LINEAR. destruct (Z.eqb_spec m 0); [done|].
    destruct (Z.eqb_spec m 0x00ffffffffffffff); split; done. }
  assert (Himp : forall m, modifier_class m = Implicit <-> m = MODIFIER_IMPLICIT).
  { intros m. unfold modifier_class, MODIFIER_IMPLICIT. destruct (Z.eqb_spec m 0); [subst; done|].
    destruct (Z.eqb_spec m 0x00ffffffffffffff); split; done. }
  split.
  - intros ([] & H1 & H2).
    destruct (bool_decide (copy_path s = CrossGpu) && bool_decide (gpu = GpuSame)) eqn:Ec; [done|].
    split.
    + intros Hr. rewrite Hr in H1. destruct (memory s), gpu; done.
    + intros Hc Hg. rewrite !bool_decide_true in Ec by done. done.
    + intros m Hm. rewrite Hm in H2. cbv zeta in H2. destruct (host_round_trip (copy_path s)).
      * case_bool_decide as E; [|done]. by apply Hcls.
      * case_bool_decide as E; [done|]. cbn in H2. rewrite <- Himp. case_bool_decide; done.
  - intros [H1 H2 H3]. exists tt. split.
    + destruct (requires_same_gpu (copy_path s)); [|done]. destruct (H1 eq_refl) as [-> Hm]. by destruct (memory s).
    + destruct (bool_decide (copy_path s = CrossGpu) && bool_decide (gpu = GpuSame)) eqn:Ec.
      { apply andb_true_iff in Ec as [E1%bool_decide_eq_true E2%bool_decide_eq_true]. by destruct (H2 E1). }
      destruct (memory s) as [m| |] eqn:Em; try done. specialize (H3 m eq_refl). cbv zeta.
      destruct (host_round_trip (copy_path s)).
      * rewrite bool_decide_true by (by apply Hcls). done.
      * destruct H3 as [H3 H4]. rewrite (bool_decide_false (modifier_class m = Implicit)) by (by rewrite Himp).
        by rewrite bool_decide_true.
Qed.
End Surface.

Lemma validate_identity_Ok s importer : validate_identity s importer = Ok tt <->
  surface_output s = importer_output importer /\ surface_generation s = importer_generation importer.
Proof.
  unfold validate_identity. case_bool_decide; cbn [negb]; [|naive_solver].
  destruct (Z.ltb_spec (surface_generation s) (importer_generation importer)); [naive_solver lia|].
  destruct (Z.ltb_spec (importer_generation importer) (surface_generation s)); [naive_solver lia|].
  split; [|done]. intros _. split; [done|]. unfold RegionGeneration in *. lia.
Qed.

Lemma validate_geometry_Ok s : surface_wf s ->
  validate_geometry s = Ok tt <->
  (coded_width (geometry s) <> 0 /\ coded_height (geometry s) <> 0) /\
  (rect_width (visible (geometry s)) <> 0 /\ rect_height (visible (geometry s)) <> 0 /\
    rect_inside (visible (geometry s)) (coded_width (geometry s)) (coded_height (geometry s))).
Proof.
  intros [[Hw Hh] _ _]. unfold validate_geometry. cbv zeta.
  rewrite <- (rect_within_inside (visible (geometry s))) by (unfold in_width, umax in *; lia).
  destruct (Z.eqb_spec (coded_width (geometry s)) 0), (Z.eqb_spec (coded_height (geometry s)) 0),
    (Z.eqb_spec (rect_width (visible (geometry s))) 0), (Z.eqb_spec (rect_height (visible (geometry s))) 0);
    cbn [orb]; try tauto; try (split; [done|tauto]).
  destruct (rect_within _ _ _); cbn [negb]; naive_solver.
Qed.

Lemma validate_planes_Ok s : surface_wf s -> coded_height (geometry s) <> 0 ->
  validate_planes s = Ok tt <->
  (len (planes s) = plane_count (surface_format s) /\ len (buffer_sizes s) <= MAX_CAPTURE_PLANES) /\
  (forall i p, read_at (planes s) i = Some p -> exists row_bytes size, plane_fits s i p row_bytes size) /\
  (forall i j p q, read_at (planes s) i = Some p -> read_at (planes s) j = Some q -> i < j -> apart p q).
Proof.
  intros [[Hw Hh] _ Hp] Hne. unfold validate_planes. cbv zeta.
  destruct (Z.eqb_spec (len (planes s)) (plane_count (surface_format s))); cbn [negb orb]; [|naive_solver].
  destruct (Z.ltb_spec MAX_CAPTURE_PLANES (len (buffer_sizes s))); [naive_solver lia|].
  change ([] : list (Z * Z * Z)) with (map extent_of []).
  rewrite validate_plane_loop_Ok.
  - split; [intros (H1 & _ & H3); auto|]. intros (_ & H1 & H3). split; [done|]. split; [|done]. constructor.
  - unfold in_width in *. lia.
  - unfold in_width in *. lia.
  - eapply Forall_impl; [exact Hp|]. intros p (_ & _ & ? & ?). unfold in_width, umax in *. lia.
Qed.

(** ** What validation promises *)

(** C6: Validation accepts exactly the buffers that can be read safely: a
    surface passes precisely when it belongs to the importer's output and
    generation, its visible rectangle lies in a nonempty coded size, every row
    of every plane ends inside the plane, the plane ends inside a delivered
    buffer of known size (of any size only in GPU memory) without overflow, no
    two planes of one buffer overlap, the colour is the admitted one, the copy
    path is one the memory, the modifier and the proven GPU identity allow, and
    the sequence number advances.  The damage it then carries is the
    producer's rectangles, at most 256 and all inside the coded size, or the
    full frame. *)
Theorem capture_validation_exact (s : CaptureSurface) (importer : CaptureImporter) (v : ValidatedCaptureSurface) :
  surface_wf s ->
  (validate s importer = Ok v <->
    surface_ok s importer /\
    v = mkValidated s (effective_damage s) (compare_gpus (surface_gpu s) (encoder_gpu importer))) /\
  (forall rects, effective_damage s = Regions rects ->
    surface_damage s = Regions rects /\ len rects <= MAX_CAPTURE_DAMAGE_RECTS /\
    Forall (fun r => rect_inside r (coded_width (geometry s)) (coded_height (geometry s))) rects).
Proof.
  intros Hwf. split.
  - unfold validate. rewrite !unit_bind_Ok, validate_identity_Ok, validate_geometry_Ok by done.
    split.
    + intros ((Ho & Hg) & (Hc & Hv) & Hp & H). apply validate_planes_Ok in Hp as (Hn & Hf & Ha); [|done|tauto].
      case_bool_decide as Ecol; cbn [negb] in H; [|done]. apply unit_bind_Ok in H as [Hpath H].
      apply validate_path_Ok in Hpath. destruct (match importer_last_sequence importer with Some _ => _ | None => _ end) eqn:El; [done|].
      apply Ok_inj in H as <-. split; [|done]. split; try done.
      intros last Hl. rewrite Hl in El. lia.
    + intros ([Ho Hg Hc Hv Hn Hf Ha Hcol Hp Hs] & ->).
      split; [done|]. split; [done|]. split; [by apply validate_planes_Ok; [done|tauto|]|].
      rewrite bool_decide_true by done. cbn [negb]. apply unit_bind_Ok. split; [by apply validate_path_Ok|].
      destruct (importer_last_sequence importer) as [last|]; [|done]. specialize (Hs last eq_refl).
      destruct (Z.leb_spec (capture_sequence (timestamps s)) last); [lia|done].
  - intros rects. unfold effective_damage. destruct (surface_damage s) as [| |rs]; [done..|].
    destruct ((len rs <=? MAX_CAPTURE_DAMAGE_RECTS) && forallb _ rs) eqn:E; [|done]. intros [= <-].
    apply andb_true_iff in E as [E1%Z.leb_le E2]. split; [done|]. split; [done|].
    apply Forall_forall. intros r Hr. rewrite forallb_forall in E2.
    destruct Hwf as [[Hw Hh] _ _]. apply rect_within_inside; [unfold in_width, umax in *; lia..|].
    apply E2. by apply list_elem_of_In.
Qed.

(** A 641x480 NV12 surface in a DMA buffer with two planes, copied through the
    host by a producer that names one damaged rectangle. *)
Definition sample_surface : CaptureSurface :=
  mkSurface "edid:sample" 3 PipeWire Nv12 (mkGeometry 641 480 (mkPixelRect 0 0 640 480))
    [mkPlane 0 0 704 337920; mkPlane 0 337920 704 168960] [Some 506880] (DmaBuf MODIFIER_LINEAR)
    SourceColour_UNKNOWN (mkTimestamps 8 1000 None) (Regions [mkPixelRect 16 16 32 32]) CursorUnknown None HostCopy.

Definition sample_importer : CaptureImporter :=
  mkImporter "edid:sample" 3 SourceColour_UNKNOWN None [] (Some 7).

Lemma capture_validation_exact_witness :
  surface_ok sample_surface sample_importer /\ effective_damage sample_surface = Regions [mkPixelRect 16 16 32 32].
Proof.
  split; [|reflexivity].
  eapply (proj1 (capture_validation_exact sample_surface sample_importer
    (mkValidated sample_surface (Regions [mkPixelRect 16 16 32 32]) GpuUnknown) ltac:(split; [by cbn|by cbn|by repeat constructor]))).
  reflexivity.
Defined.
