(* ===== verification/CaptureLease.v ===== *)
(** * Media: bounded capture-buffer leases

    Models [shared/media/src/video/capture_lease.rs]: the latest-wins mailbox
    between a capture callback and the import worker, the leases that return a
    buffer to its producer, the union of the damage of superseded frames, and
    the pending damage a submission consumes.

    [System] is the mailbox with what its threads hold: the worker between the
    end of its critical section and the return of [take_latest] ([taking]), the
    leases it keeps ([held]) and the buffers that went back ([returned]).  Each
    [Op] is one atomic step of one thread, so a list of them is an arbitrary
    interleaving.  Waiting on the condition variable is the outcome [Waiting] of
    an attempt, which a later attempt repeats. *)

From S2P Require Import Prelude KeelGrid KeelDamage KeelExternal CaptureSurface.

(** ** The union of damage *)

(** [DamageEvidence::union], [older] first. *)
Definition union_evidence (older newer : DamageEvidence) : DamageEvidence :=
  match older, newer with
  | Regions older, Regions newer =>
    if MAX_CAPTURE_DAMAGE_RECTS <? len older + len newer then EvidenceUnknown else Regions (older ++ newer)
  | EvidenceFull, _ | _, EvidenceFull => EvidenceFull
  | _, _ => EvidenceUnknown
  end.

(** [Some(match carried { Some(carried) => carried.union(damage), None => damage })] *)
Definition union_carried (carried : option DamageEvidence) (damage : DamageEvidence) : DamageEvidence :=
  match carried with Some carried => union_evidence carried damage | None => damage end.

(** ** The mailbox *)

Record CaptureLeaseCounters := mkCounters {
  c_pushed : Z; c_superseded : Z; c_taken : Z; c_released : Z; c_outstanding : Z; c_max_outstanding : Z }.

Definition counters_default : CaptureLeaseCounters := mkCounters 0 0 0 0 0 0.

(** Atomic [fetch_add]/[fetch_sub] wrap at their width. *)
Definition acquire (c : CaptureLeaseCounters) : CaptureLeaseCounters :=
  let now := wrapping 64 (c_outstanding c + 1) in
  mkCounters (c_pushed c) (c_superseded c) (c_taken c) (c_released c) now (Z.max (c_max_outstanding c) now).

Definition end_ (c : CaptureLeaseCounters) : CaptureLeaseCounters :=
  mkCounters (c_pushed c) (c_superseded c) (c_taken c) (wrapping 64 (c_released c + 1))
    (wrapping 64 (c_outstanding c - 1)) (c_max_outstanding c).

Definition count_pushed (c : CaptureLeaseCounters) : CaptureLeaseCounters :=
  mkCounters (wrapping 64 (c_pushed c + 1)) (c_superseded c) (c_taken c) (c_released c) (c_outstanding c) (c_max_outstanding c).
Definition count_superseded (c : CaptureLeaseCounters) : CaptureLeaseCounters :=
  mkCounters (c_pushed c) (wrapping 64 (c_superseded c + 1)) (c_taken c) (c_released c) (c_outstanding c) (c_max_outstanding c).
Definition count_taken (c : CaptureLeaseCounters) : CaptureLeaseCounters :=
  mkCounters (c_pushed c) (c_superseded c) (wrapping 64 (c_taken c + 1)) (c_released c) (c_outstanding c) (c_max_outstanding c).

Inductive CaptureTakeError := Closed.

Section Mailbox.
Context {T : Type}.

Record QueuedCapture := mkQueued {
  q_token : T;
  q_surface : ValidatedCaptureSurface;
  q_damage : DamageEvidence;
  q_superseded : Z;
  q_received : Z
}.

Record CaptureMailbox := mkMailbox {
  queue : list QueuedCapture;
  closed : bool;
  carried : option DamageEvidence;
  capacity : Z;
  counters : CaptureLeaseCounters
}.

Definition CaptureMailbox_new (capacity : Z) : CaptureMailbox :=
  mkMailbox [] false None (Z.max capacity 1) counters_default.

(** [next.superseded.saturating_add(oldest.superseded.saturating_add(1))] and
    the damage of the two frames, folded into the newer. *)
Definition fold_superseded (older newer : QueuedCapture) : QueuedCapture :=
  mkQueued (q_token newer) (q_surface newer) (union_evidence (q_damage older) (q_damage newer))
    (saturating_add 32 (q_superseded newer) (saturating_add 32 (q_superseded older) 1)) (q_received newer).

(** The loop of [push]; the queue's length is enough fuel. *)
Fixpoint supersede_oldest (fuel : nat) (m : CaptureMailbox) (release : list T) : CaptureMailbox * list T :=
  match fuel with
  | O => (m, release)
  | S fuel =>
    if capacity m <? len (queue m) then
      match queue m with
      | [] => (m, release)
      | oldest :: rest =>
        let rest := match rest with next :: rest => fold_superseded oldest next :: rest | [] => [] end in
        supersede_oldest fuel
          (mkMailbox rest (closed m) (carried m) (capacity m) (end_ (count_superseded (counters m))))
          (release ++ [q_token oldest])
      end
    else (m, release)
  end.

Definition push (m : CaptureMailbox) (now : Z) (token : T) (surface : ValidatedCaptureSurface)
  : CaptureMailbox * list T :=
  let damage := validated_damage surface in
  if closed m then (m, [token])
  else
    let damage := union_carried (carried m) damage in
    let queue := queue m ++ [mkQueued token surface damage 0 now] in
    supersede_oldest (length queue)
      (mkMailbox queue (closed m) None (capacity m) (count_pushed (acquire (counters m)))) [].

Fixpoint pop_back {A} (l : list A) : option (A * list A) :=
  match l with
  | [] => None
  | x :: l => match pop_back l with Some (last, l) => Some (last, x :: l) | None => Some (x, []) end
  end.

Inductive TakeOutcome := Leased (frame : QueuedCapture) (superseded : list T) | TakeClosed (e : CaptureTakeError) | TimedOut | Waiting.

(** One older frame folded into the newest by [take_latest]. *)
Definition take_older (acc : QueuedCapture * CaptureLeaseCounters * list T) (older : QueuedCapture)
  : QueuedCapture * CaptureLeaseCounters * list T :=
  let '(newest, counters, tokens) := acc in
  (fold_superseded older newest, end_ (count_superseded counters), tokens ++ [q_token older]).

(** The critical section of [take_latest]; [expired] is [now >= deadline]. *)
Definition take_attempt (m : CaptureMailbox) (expired : bool) : CaptureMailbox * TakeOutcome :=
  match pop_back (queue m) with
  | Some (newest, older) =>
    let '(newest, counters, tokens) := fold_left take_older (rev older) (newest, counters m, []) in
    (mkMailbox [] (closed m) (carried m) (capacity m) counters, Leased newest tokens)
  | None =>
    (m, if closed m then TakeClosed Closed else if expired then TimedOut else Waiting)
  end.

Definition carry_damage (m : CaptureMailbox) (damage : DamageEvidence) : CaptureMailbox :=
  mkMailbox (queue m) (closed m) (Some (union_carried (carried m) damage)) (capacity m) (counters m).

Definition close (m : CaptureMailbox) : CaptureMailbox :=
  mkMailbox (queue m) true (carried m) (capacity m) (counters m).

(** The loop of [drain] over [state.queue.drain(..)]. *)
Definition drain_frame (acc : option DamageEvidence * list T * CaptureLeaseCounters) (frame : QueuedCapture)
  : option DamageEvidence * list T * CaptureLeaseCounters :=
  let '(drained, tokens, counters) := acc in
  (Some (union_carried drained (q_damage frame)), tokens ++ [q_token frame], end_ counters).

Definition drain (m : CaptureMailbox) : CaptureMailbox * list T :=
  let '(drained, tokens, counters) := fold_left drain_frame (queue m) (None, [], counters m) in
  let carried := match drained with
                 | Some drained => Some (union_carried (carried m) drained)
                 | None => carried m
                 end in
  (mkMailbox [] (closed m) carried (capacity m) counters, tokens).

(** ** The mailbox with its threads *)

Record System := mkSystem {
  mailbox : CaptureMailbox;
  taking : option (list T * QueuedCapture);
  held : list QueuedCapture;
  returned : list T
}.

Inductive Op :=
| OpPush (now : Z) (token : T) (surface : ValidatedCaptureSurface)
| OpAttempt (expired : bool)
| OpFinish
| OpDrop (index : nat)
| OpCarry (damage : DamageEvidence)
| OpClose
| OpDrain.

Definition System_new (capacity : Z) : System := mkSystem (CaptureMailbox_new capacity) None [] [].

(** [CaptureLease::drop] of the lease at [index]. *)
Definition drop_lease (s : System) (index : nat) : System :=
  match held s !! index with
  | Some frame =>
    let m := mailbox s in
    mkSystem (mkMailbox (queue m) (closed m) (carried m) (capacity m) (end_ (counters m)))
      (taking s) (delete index (held s)) (returned s ++ [q_token frame])
  | None => s
  end.

(** The rest of [take_latest] after its critical section: the superseded
    tokens go to the releaser one by one, then the lease is made. *)
Definition finish_take (s : System) : System :=
  match taking s with
  | None => s
  | Some (token :: tokens, frame) => mkSystem (mailbox s) (Some (tokens, frame)) (held s) (returned s ++ [token])
  | Some ([], frame) =>
    let m := mailbox s in
    mkSystem (mkMailbox (queue m) (closed m) (carried m) (capacity m) (count_taken (counters m)))
      None (held s ++ [frame]) (returned s)
  end.

Definition step (s : System) (op : Op) : System :=
  match op with
  | OpPush now token surface =>
    let '(m, release) := push (mailbox s) now token surface in mkSystem m (taking s) (held s) (returned s ++ release)
  | OpAttempt expired =>
    match taking s with
    | Some _ => s
    | None =>
      let '(m, outcome) := take_attempt (mailbox s) expired in
      match outcome with
      | Leased frame tokens => mkSystem m (Some (tokens, frame)) (held s) (returned s)
      | _ => mkSystem m None (held s) (returned s)
      end
    end
  | OpFinish => finish_take s
  | OpDrop index => drop_lease s index
  | OpCarry damage => mkSystem (carry_damage (mailbox s) damage) (taking s) (held s) (returned s)
  | OpClose => mkSystem (close (mailbox s)) (taking s) (held s) (returned s)
  | OpDrain =>
    let '(m, tokens) := drain (mailbox s) in mkSystem m (taking s) (held s) (returned s ++ tokens)
  end.

Definition run (s : System) (ops : list Op) : System := fold_left step ops s.

(** The tokens the callback handed to [push]. *)
Definition pushed_tokens (ops : list Op) : list T :=
  omap (fun op => match op with OpPush _ token _ => Some token | _ => None end) ops.

Definition taking_tokens (s : System) : list T :=
  match taking s with Some (tokens, frame) => tokens ++ [q_token frame] | None => [] end.

(** Where a buffer can be. *)
Definition places (s : System) : list T :=
  map q_token (queue (mailbox s)) ++ taking_tokens s ++ map q_token (held s) ++ returned s.

Definition leases (s : System) : Z :=
  len (queue (mailbox s)) + (if is_some (taking s) then 1 else 0) + len (held s).

(** ** The unbounded queue the mailbox stands for *)

(** What the worker sees of an attempt. *)
Inductive View :=
| ViewFrame (token : T) (surface : ValidatedCaptureSurface) (damage : DamageEvidence) (superseded : Z)
| ViewClosed | ViewTimedOut | ViewWaiting.

Definition view_of (outcome : TakeOutcome) : View :=
  match outcome with
  | Leased f _ => ViewFrame (q_token f) (q_surface f) (q_damage f) (q_superseded f)
  | TakeClosed _ => ViewClosed
  | TimedOut => ViewTimedOut
  | Waiting => ViewWaiting
  end.

(** The steps of the mailbox itself; a lease's own steps do not touch its queue. *)
Definition mail_step (m : CaptureMailbox) (op : Op) : CaptureMailbox * option View :=
  match op with
  | OpPush now token surface => ((push m now token surface).1, None)
  | OpAttempt expired => let '(m, outcome) := take_attempt m expired in (m, Some (view_of outcome))
  | OpFinish | OpDrop _ => (m, None)
  | OpCarry damage => (carry_damage m damage, None)
  | OpClose => (close m, None)
  | OpDrain => ((drain m).1, None)
  end.

(** The specification keeps every frame since the last take, the evidence
    they and the carried observations brought, and what is carried now. *)
Record Intake := mkIntake {
  in_frames : list (T * ValidatedCaptureSurface);
  in_evidence : list DamageEvidence;
  in_carried : list DamageEvidence;
  in_closed : bool
}.

Definition intake_new : Intake := mkIntake [] [] [] false.

Fixpoint all_regions (l : list DamageEvidence) : option (list PixelRect) :=
  match l with
  | [] => Some []
  | Regions rects :: l => rest ← all_regions l; Some (rects ++ rest)
  | _ :: _ => None
  end.

Definition evidence_is_full (d : DamageEvidence) : bool := match d with EvidenceFull => true | _ => false end.

(** What several observations together say: full when one is full, all the
    rectangles when every one is a list and they are at most 256, else
    unknown. *)
Definition joint_evidence (l : list DamageEvidence) : DamageEvidence :=
  if existsb evidence_is_full l then EvidenceFull
  else match all_regions l with
       | Some rects => if MAX_CAPTURE_DAMAGE_RECTS <? len rects then EvidenceUnknown else Regions rects
       | None => EvidenceUnknown
       end.

Definition evidence_of (l : list DamageEvidence) : DamageEvidence :=
  match l with [d] => d | _ => joint_evidence l end.

Definition intake_step (i : Intake) (op : Op) : Intake * option View :=
  match op with
  | OpPush _ token surface =>
    (if in_closed i then i
     else mkIntake (in_frames i ++ [(token, surface)])
            (in_evidence i ++ in_carried i ++ [validated_damage surface]) [] (in_closed i), None)
  | OpAttempt expired =>
    match last (in_frames i) with
    | Some (token, surface) =>
      (mkIntake [] [] (in_carried i) (in_closed i),
       Some (ViewFrame token surface (evidence_of (in_evidence i)) (Z.min (umax 32) (len (in_frames i) - 1))))
    | None => (i, Some (if in_closed i then ViewClosed else if expired then ViewTimedOut else ViewWaiting))
    end
  | OpFinish | OpDrop _ => (i, None)
  | OpCarry damage => (mkIntake (in_frames i) (in_evidence i) (in_carried i ++ [damage]) (in_closed i), None)
  | OpClose => (mkIntake (in_frames i) (in_evidence i) (in_carried i) true, None)
  | OpDrain => (mkIntake [] [] (in_carried i ++ in_evidence i) (in_closed i), None)
  end.

(** The views of a sequence of steps. *)
Fixpoint views {S : Type} (next : S -> Op -> S * option View) (s : S) (ops : list Op) : list (option View) :=
  match ops with [] => [] | op :: ops => (next s op).2 :: views next (next s op).1 ops end.
End Mailbox.
Arguments QueuedCapture : clear implicits.
Arguments CaptureMailbox : clear implicits.
Arguments System : clear implicits.
Arguments Op : clear implicits.
Arguments TakeOutcome : clear implicits.
Arguments View : clear implicits.
Arguments Intake : clear implicits.

(** ** Pending damage *)

Record PendingCaptureDamage := mkPendingCapture {
  pc_pending : PendingExternalDamage;
  scratch : ExternalDamage;
  authoritative : bool
}.

Definition PendingCaptureDamage_new (width height : Z) : result KeelError PendingCaptureDamage :=
  pending ← PendingExternalDamage_new width height;
  scratch ← ExternalDamage_new width height;
  Ok (mkPendingCapture pending scratch false).

Definition PendingCaptureDamage_observe (p : PendingCaptureDamage) (damage : DamageEvidence)
  : PendingCaptureDamage * result KeelError unit :=
  let regions := match damage with Regions _ => true | _ => false end in
  let authoritative := regions && (authoritative p || negb (pending (pc_pending p))) in
  let scratch := ExternalDamage_reset (scratch p) in
  let scratch := match damage with
                 | Regions rects => fold_left mark_rect rects scratch
                 | EvidenceUnknown | EvidenceFull => mark_full_frame scratch
                 end in
  let '(pending, r) := observe (pc_pending p) (ext_damage_map scratch) in
  (mkPendingCapture pending scratch authoritative, r).

Definition PendingCaptureDamage_mark_submitted (p : PendingCaptureDamage) : PendingCaptureDamage :=
  mkPendingCapture (mark_submitted (pc_pending p)) (scratch p) (authoritative p).

Definition pending_damage_map (p : PendingCaptureDamage) : DamageMap := ext_damage_map (pend_damage (pc_pending p)).
Definition is_pending (p : PendingCaptureDamage) : bool := pending (pc_pending p).
Definition is_authoritative (p : PendingCaptureDamage) : bool := authoritative p && pending (pc_pending p).

(** ** Lemmas: the union is a monoid *)

Lemma all_regions_app a b :
  all_regions (a ++ b) = (x ← all_regions a; y ← all_regions b; Some (x ++ y)).
Proof.
  induction a as [|[| |rects] a IH]; cbn; [by destruct (all_regions b)|done|done|].
  rewrite IH. destruct (all_regions a), (all_regions b); cbn; [|done..]. by rewrite app_assoc.
Qed.

Lemma joint_evidence_single d : joint_evidence [d] = match d with
  | Regions rects => if MAX_CAPTURE_DAMAGE_RECTS <? len rects then EvidenceUnknown else d | _ => d end.
Proof. destruct d; try done. unfold joint_evidence. cbn. by rewrite app_nil_r. Qed.

Lemma joint_evidence_app a b :
  joint_evidence (a ++ b) = union_evidence (joint_evidence a) (joint_evidence b).
Proof.
  unfold joint_evidence. rewrite existsb_app, all_regions_app.
  destruct (existsb _ a), (existsb _ b); cbn [orb]; try done.
  - cbn. repeat case_match; done.
  - destruct (all_regions a) as [x|], (all_regions b) as [y|]; cbn; try done.
    + rewrite len_app. pose proof (len_nonneg x). pose proof (len_nonneg y).
      destruct (Z.ltb_spec MAX_CAPTURE_DAMAGE_RECTS (len x)), (Z.ltb_spec MAX_CAPTURE_DAMAGE_RECTS (len y)),
        (Z.ltb_spec MAX_CAPTURE_DAMAGE_RECTS (len x + len y)); cbn; try done; try lia;
        destruct (Z.ltb_spec MAX_CAPTURE_DAMAGE_RECTS (len x + len y)); try done; lia.
    + by case_match.
    + by cbn; repeat case_match.
Qed.

Lemma union_joint_l d e : union_evidence (joint_evidence [d]) e = union_evidence d e.
Proof.
  rewrite joint_evidence_single. destruct d as [| |x]; [done..|].
  destruct (Z.ltb_spec MAX_CAPTURE_DAMAGE_RECTS (len x)); [|done].
  destruct e as [| |y]; cbn; [done..|]. pose proof (len_nonneg y).
  by destruct (Z.ltb_spec MAX_CAPTURE_DAMAGE_RECTS (len x + len y)); [|lia].
Qed.

Lemma union_joint_r e d : union_evidence e (joint_evidence [d]) = union_evidence e d.
Proof.
  rewrite joint_evidence_single. destruct d as [| |x]; [done..|].
  destruct (Z.ltb_spec MAX_CAPTURE_DAMAGE_RECTS (len x)); [|done].
  destruct e as [| |y]; cbn; [done..|]. pose proof (len_nonneg y).
  by destruct (Z.ltb_spec MAX_CAPTURE_DAMAGE_RECTS (len y + len x)); [|lia].
Qed.

Lemma evidence_of_app a b :
  a <> [] -> b <> [] -> evidence_of (a ++ b) = union_evidence (evidence_of a) (evidence_of b).
Proof.
  intros Ha Hb.
  assert (evidence_of (a ++ b) = joint_evidence (a ++ b)) as ->.
  { destruct a as [|x [|y a]]; [done| |done]. by destruct b. }
  rewrite joint_evidence_app.
  assert (forall e, union_evidence (joint_evidence a) e = union_evidence (evidence_of a) e) as ->.
  { intros e. destruct a as [|x [|y a]]; try done. apply union_joint_l. }
  destruct b as [|x [|y b]]; try done. apply union_joint_r.
Qed.

(** The evidence carried, when there is any. *)
Definition carried_of (l : list DamageEvidence) : option DamageEvidence :=
  match l with [] => None | _ => Some (evidence_of l) end.

Lemma union_carried_of l m : m <> [] -> union_carried (carried_of l) (evidence_of m) = evidence_of (l ++ m).
Proof. intros Hm. destruct l as [|d l]; [done|]. symmetry. by apply evidence_of_app. Qed.

Lemma carried_of_some l : l <> [] -> Some (evidence_of l) = carried_of l.
Proof. by destruct l. Qed.

Lemma pop_back_app {A} (l : list A) x : pop_back (l ++ [x]) = Some (x, l).
Proof. induction l as [|y l IH]; cbn; [done|]. by rewrite IH. Qed.

Lemma pop_back_spec {A} (l : list A) : match pop_back l with Some (x, l') => l = l' ++ [x] | None => l = [] end.
Proof. induction l as [|x l _] using rev_ind; [done|]. by rewrite pop_back_app. Qed.

(** ** Lemmas: the frames a queued frame stands for *)

Section Refinement.
Context {T : Type}.
(** [g] is what the queued frame [q] stands for: its superseded frames with
    itself last, and all their evidence. *)
Record stands_for (q : QueuedCapture T) (g : list (T * ValidatedCaptureSurface) * list DamageEvidence) : Prop := {
  sf_frames : exists older, g.1 = older ++ [(q_token q, q_surface q)] /\
    q_superseded q = Z.min (umax 32) (len older);
  sf_some : g.2 <> [];
  sf_damage : q_damage q = evidence_of g.2
}.

Definition merge_group (a b : list (T * ValidatedCaptureSurface) * list DamageEvidence) := (a.1 ++ b.1, a.2 ++ b.2).

Lemma fold_superseded_stands a ga b gb :
  stands_for a ga -> stands_for b gb -> stands_for (fold_superseded a b) (merge_group ga gb).
Proof.
  intros [(oa & Ea & Na) Sa Da] [(ob & Eb & Nb) Sb Db]. split; cbn.
  - exists (ga.1 ++ ob). split; [by rewrite Eb, app_assoc|].
    rewrite Na, Nb, Ea. unfold saturating_add. rewrite !len_app, len_cons. change (len []) with 0.
    pose proof (len_nonneg oa). pose proof (len_nonneg ob). assert (0 <= umax 32) by done. lia.
  - by destruct ga.2.
  - rewrite Da, Db. symmetry. by apply evidence_of_app.
Qed.

Definition group_concat (gs : list (list (T * ValidatedCaptureSurface) * list DamageEvidence)) : list (T * ValidatedCaptureSurface) * list DamageEvidence :=
  (concat gs.*1, concat gs.*2).

Lemma group_concat_app a b : group_concat (a ++ b) = merge_group (group_concat a) (group_concat b).
Proof. unfold group_concat, merge_group. by rewrite !fmap_app, !concat_app. Qed.

Record mail_rel (m : CaptureMailbox T) (i : Intake T) : Prop := {
  mr_capacity : 1 <= capacity m;
  mr_closed : closed m = in_closed i;
  mr_carried : carried m = carried_of (in_carried i);
  mr_queue : exists gs, Forall2 stands_for (queue m) gs /\ group_concat gs = (in_frames i, in_evidence i)
}.

Lemma supersede_oldest_stands fuel : forall (m : CaptureMailbox T) release gs,
  1 <= capacity m -> Forall2 stands_for (queue m) gs ->
  let m' := (supersede_oldest fuel m release).1 in
  capacity m' = capacity m /\ closed m' = closed m /\ carried m' = carried m /\
  exists gs', Forall2 stands_for (queue m') gs' /\ group_concat gs' = group_concat gs.
Proof.
  induction fuel as [|fuel IH]; intros m release gs Hc Hq; cbn [supersede_oldest]; [naive_solver|].
  destruct (Z.ltb_spec (capacity m) (len (queue m))) as [Hl|]; [|naive_solver].
  destruct (queue m) as [|a [|b rest]] eqn:Eq; [change (len []) with 0 in Hl; lia|rewrite len_cons in Hl; change (len []) with 0 in Hl; lia|].
  apply Forall2_cons_inv_l in Hq as (ga & gs1 & Ha & (gb & gs2 & Hb & Hr & ->)%Forall2_cons_inv_l & ->).
  destruct (IH (mkMailbox (fold_superseded a b :: rest) (closed m) (carried m) (capacity m)
    (end_ (count_superseded (counters m)))) (release ++ [q_token a]) (merge_group ga gb :: gs2))
    as (H1 & H2 & H3 & gs' & H4 & H5).
  { exact Hc. }
  { cbn. constructor; [by apply fold_superseded_stands|done]. }
  split; [exact H1|]. split; [exact H2|]. split; [exact H3|]. exists gs'. split; [exact H4|]. rewrite H5.
  unfold group_concat, merge_group. cbn. by rewrite !app_assoc.
Qed.

Lemma take_older_stands (older : list (QueuedCapture T)) : forall gs newest g counters tokens,
  Forall2 stands_for older gs -> stands_for newest g ->
  stands_for (fold_left take_older (rev older) (newest, counters, tokens)).1.1 (merge_group (group_concat gs) g).
Proof.
  induction older as [|q older IH] using rev_ind; intros gs newest g counters tokens Ho Hn.
  - apply Forall2_nil_inv_l in Ho as ->. by destruct g.
  - apply Forall2_app_inv_l in Ho as (gs1 & gs2 & Ho & (gq & gs3 & Hq & ->%Forall2_nil_inv_l & ->)%Forall2_cons_inv_l & ->).
    rewrite rev_app_distr. cbn [rev app fold_left take_older].
    rewrite group_concat_app.
    replace (merge_group (merge_group (group_concat gs1) (group_concat [gq])) g)
      with (merge_group (group_concat gs1) (merge_group gq g))
      by (unfold merge_group, group_concat; cbn; by rewrite !app_nil_r, !app_assoc).
    apply IH; [done|]. by apply fold_superseded_stands.
Qed.

Lemma drain_frames_stands (q : list (QueuedCapture T)) : forall gs l tokens counters,
  Forall2 stands_for q gs ->
  (fold_left drain_frame q (carried_of l, tokens, counters)).1.1 = carried_of (l ++ (group_concat gs).2).
Proof.
  induction q as [|f q IH]; intros gs l tokens counters Hq.
  - apply Forall2_nil_inv_l in Hq as ->. cbn. by rewrite app_nil_r.
  - apply Forall2_cons_inv_l in Hq as (g & gs' & [_ Hs Hd] & Hq & ->). cbn [fold_left drain_frame].
    rewrite Hd, union_carried_of by done.
    rewrite carried_of_some by (intros [_ ?]%app_eq_nil; done).
    rewrite (IH gs') by done. unfold group_concat. cbn. by rewrite app_assoc.
Qed.

Lemma mail_step_rel (m : CaptureMailbox T) (i : Intake T) op :
  mail_rel m i -> (mail_step m op).2 = (intake_step i op).2 /\ mail_rel (mail_step m op).1 (intake_step i op).1.
Proof.
  intros [Hc Hcl Hca (gs & Hq & Hg)]. destruct op as [now token surface|expired| |idx|damage| |]; cbn [mail_step intake_step].
  - split; [done|]. cbn [fst]. unfold push. rewrite <- Hcl. destruct (closed m) eqn:Ecl.
    { split; cbn; eauto. }
    rewrite Hca.
    destruct (supersede_oldest_stands
      (length (queue m ++ [mkQueued token surface (union_carried (carried_of (in_carried i)) (validated_damage surface)) 0 now]))
      (mkMailbox (queue m ++ [mkQueued token surface (union_carried (carried_of (in_carried i)) (validated_damage surface)) 0 now])
        false None (capacity m) (count_pushed (acquire (counters m)))) []
      (gs ++ [([(token, surface)], in_carried i ++ [validated_damage surface])])) as (H1 & H2 & H3 & gs' & H4 & H5).
    { done. }
    { apply Forall2_app; [done|]. constructor; [|constructor]. split; cbn.
      - exists []. done.
      - by intros [_ ?]%app_eq_nil.
      - change (validated_damage surface) with (evidence_of [validated_damage surface]) at 1.
        by apply union_carried_of. }
    split; cbn [in_closed in_carried in_frames in_evidence]; [by rewrite H1|by rewrite H2|by rewrite H3|].
    exists gs'. split; [done|]. rewrite H5, group_concat_app, Hg. unfold merge_group, group_concat. cbn.
    by rewrite !app_nil_r.
  - unfold take_attempt. pose proof (pop_back_spec (queue m)) as Hp.
    destruct (pop_back (queue m)) as [[f older]|].
    + rewrite Hp in Hq. apply Forall2_app_inv_l in Hq as (gs1 & gs2 & Ho & (g & gs3 & Hf & ->%Forall2_nil_inv_l & ->)%Forall2_cons_inv_l & ->).
      pose proof (take_older_stands older gs1 f g (counters m) [] Ho Hf) as [(init & E1 & E2) _ E3].
      destruct (fold_left take_older (rev older) (f, counters m, [])) as [[newest c] tokens]. cbn [fst snd] in *.
      replace (merge_group (group_concat gs1) g) with (in_frames i, in_evidence i) in E1, E3.
      2:{ rewrite <- Hg, group_concat_app. unfold merge_group, group_concat. cbn. by rewrite !app_nil_r. }
      cbn [fst snd] in E1, E3. rewrite E1, last_snoc. cbn [fst snd view_of]. split.
      * rewrite E2, E3, len_app, len_cons. change (len []) with 0. do 3 f_equal. lia.
      * split; cbn; [done..|]. exists []. split; [constructor|done].
    + rewrite Hp in Hq. apply Forall2_nil_inv_l in Hq as ->. injection Hg as E1 E2. rewrite <- E1. cbn [last fst snd].
      split; [rewrite <- Hcl; by destruct (closed m), expired|].
      split; [done..|]. exists []. rewrite Hp, <- E1, <- E2. split; constructor.
  - split; [done|]. split; eauto.
  - split; [done|]. split; eauto.
  - split; [done|]. split; cbn; [done..| |eauto]. rewrite Hca. change damage with (evidence_of [damage]) at 1.
    rewrite union_carried_of by done. apply carried_of_some. by intros [_ ?]%app_eq_nil.
  - split; [done|]. split; cbn; eauto.
  - split; [done|]. cbn [fst]. unfold drain.
    pose proof (drain_frames_stands (queue m) gs [] [] (counters m) Hq) as Hd. cbn [app] in Hd. change (carried_of []) with (@None DamageEvidence) in Hd.
    rewrite Hg in Hd. destruct (fold_left drain_frame (queue m) (None, [], counters m)) as [[drained tokens] c].
    cbn [fst snd] in *. split; cbn; [done..| |exists []; split; [constructor|done]].
    rewrite Hd, Hca. destruct (in_evidence i) as [|d l] eqn:E; cbn [carried_of]; [by rewrite app_nil_r|].
    rewrite union_carried_of by done. apply carried_of_some. by intros [_ ?]%app_eq_nil.
Qed.

Lemma mail_views_rel ops : forall (m : CaptureMailbox T) (i : Intake T),
  mail_rel m i -> views mail_step m ops = views intake_step i ops.
Proof.
  induction ops as [|op ops IH]; intros m i H; cbn [views]; [done|].
  destruct (mail_step_rel m i op H) as [-> H']. f_equal. by apply IH.
Qed.

End Refinement.

(** ** Lemmas: where the buffers are *)

(** The counters agree with [n] leases outstanding. *)
Record counted (c : CaptureLeaseCounters) (n : Z) : Prop := {
  ct_outstanding : c_outstanding c = wrapping 64 n;
  ct_balance : wrapping 64 (c_pushed c) = wrapping 64 (c_released c + c_outstanding c)
}.

Lemma wrapping_add_l w a b : wrapping w (wrapping w a + b) = wrapping w (a + b).
Proof. unfold wrapping. by rewrite Zplus_mod_idemp_l. Qed.

Lemma wrapping_add_r w a b : wrapping w (a + wrapping w b) = wrapping w (a + b).
Proof. unfold wrapping. by rewrite Zplus_mod_idemp_r. Qed.

Lemma wrapping_idem w a : wrapping w (wrapping w a) = wrapping w a.
Proof. unfold wrapping. by rewrite Zmod_mod. Qed.

Lemma counted_end c n : counted c n -> counted (end_ c) (n - 1).
Proof.
  intros [Ho Hb]. split; cbn.
  - rewrite Ho. unfold Z.sub. by rewrite wrapping_add_l.
  - rewrite wrapping_add_l, wrapping_add_r, Hb. f_equal. lia.
Qed.

Lemma counted_push c n : counted c n -> counted (count_pushed (acquire c)) (n + 1).
Proof.
  intros [Ho Hb]. split; cbn.
  - rewrite Ho. by rewrite wrapping_add_l.
  - rewrite wrapping_idem, wrapping_add_r, Z.add_assoc.
    by rewrite <- (wrapping_add_l 64 (c_pushed c)), Hb, wrapping_add_l.
Qed.

Lemma counted_superseded c n : counted c n -> counted (count_superseded c) n.
Proof. by intros [? ?]. Qed.

Lemma counted_taken c n : counted c n -> counted (count_taken c) n.
Proof. by intros [? ?]. Qed.

Section Conservation.
Context {T : Type}.

Lemma supersede_oldest_tokens fuel : forall (m : CaptureMailbox T) release k,
  counted (counters m) (len (queue m) + k) -> 1 <= capacity m ->
  let '(m', release') := supersede_oldest fuel m release in
  release' ++ map q_token (queue m') = release ++ map q_token (queue m) /\
  counted (counters m') (len (queue m') + k) /\ capacity m' = capacity m /\
  (len (queue m) <= Z.of_nat fuel + capacity m -> len (queue m') <= capacity m).
Proof.
  induction fuel as [|fuel IH]; intros m release k Hc Hcap; cbn [supersede_oldest]; [naive_solver lia|].
  destruct (Z.ltb_spec (capacity m) (len (queue m))) as [Hl|]; [|naive_solver].
  destruct (queue m) as [|a rest] eqn:Eq; [change (len []) with 0 in Hl; lia|].
  set (rest' := match rest with next :: rest => fold_superseded a next :: rest | [] => [] end).
  assert (Hr : map q_token rest' = map q_token rest /\ len rest' = len rest) by (subst rest'; by destruct rest).
  destruct Hr as [Hr Hlen]. rewrite len_cons in Hc, Hl |- *.
  specialize (IH (mkMailbox rest' (closed m) (carried m) (capacity m) (end_ (count_superseded (counters m))))
    (release ++ [q_token a]) k).
  destruct (supersede_oldest fuel _ _) as [m' release']. cbn [queue counters capacity] in IH.
  destruct IH as (H1 & H2 & H3 & H4); [|done|].
  { rewrite Hlen. replace (len rest + k) with (1 + len rest + k - 1) by lia.
    by apply counted_end, counted_superseded. }
  split; [rewrite H1, <- app_assoc; cbn; by rewrite Hr|]. split; [done|]. split; [done|].
  intros ?. apply H4. lia.
Qed.

Lemma take_older_tokens (older : list (QueuedCapture T)) : forall newest c tokens k,
  counted c (len older + k) ->
  let '(newest', c', tokens') := fold_left take_older older (newest, c, tokens) in
  q_token newest' = q_token newest /\ tokens' = tokens ++ map q_token older /\ counted c' k.
Proof.
  induction older as [|q older IH]; intros newest c tokens k Hc; cbn [fold_left take_older].
  { by rewrite app_nil_r. }
  specialize (IH (fold_superseded q newest) (end_ (count_superseded c)) (tokens ++ [q_token q]) k).
  destruct (fold_left take_older older _) as [[newest' c'] tokens'].
  destruct IH as (H1 & H2 & H3).
  { rewrite len_cons in Hc. replace (len older + k) with (1 + len older + k - 1) by lia.
    by apply counted_end, counted_superseded. }
  split; [done|]. split; [rewrite H2, <- app_assoc; done|done].
Qed.

Lemma drain_frames_tokens (q : list (QueuedCapture T)) : forall drained tokens c k,
  counted c (len q + k) ->
  let '(_, tokens', c') := fold_left drain_frame q (drained, tokens, c) in
  tokens' = tokens ++ map q_token q /\ counted c' k.
Proof.
  induction q as [|f q IH]; intros drained tokens c k Hc; cbn [fold_left drain_frame].
  { by rewrite app_nil_r. }
  specialize (IH (Some (union_carried drained (q_damage f))) (tokens ++ [q_token f]) (end_ c) k).
  destruct (fold_left drain_frame q _) as [[d' tokens'] c']. destruct IH as (H1 & H2).
  { rewrite len_cons in Hc. replace (len q + k) with (1 + len q + k - 1) by lia. by apply counted_end. }
  split; [rewrite H1, <- app_assoc; done|done].
Qed.

Record conserved (tokens : list T) (s : System T) : Prop := {
  cv_places : Permutation tokens (places s);
  cv_counted : counted (counters (mailbox s)) (leases s);
  cv_capacity : 1 <= capacity (mailbox s);
  cv_bound : len (queue (mailbox s)) <= capacity (mailbox s)
}.

Lemma conserved_push tokens s now token surface :
  conserved tokens s -> conserved (tokens ++ [token]) (step s (OpPush now token surface)).
Proof.
  intros [Hp Hc Hcap Hb]. cbn [step]. unfold push.
  destruct (closed (mailbox s)) eqn:Ecl.
  { split; cbn; [|done..]. unfold places in *. cbn. rewrite Hp. by rewrite <- !app_assoc. }
  set (q := queue (mailbox s) ++ [_]).
  pose proof (supersede_oldest_tokens (length q) (mkMailbox q false None (capacity (mailbox s))
    (count_pushed (acquire (counters (mailbox s))))) [] (leases s - len (queue (mailbox s)))) as H.
  destruct (supersede_oldest _ _ _) as [m' release]. cbn [queue counters capacity app] in H.
  assert (Hq : len q = len (queue (mailbox s)) + 1) by (subst q; by rewrite len_app).
  destruct H as (H1 & H2 & H3 & H4); [|done|].
  { rewrite Hq. replace (len (queue (mailbox s)) + 1 + (leases s - len (queue (mailbox s)))) with (leases s + 1) by lia.
    by apply counted_push. }
  split; cbn [mailbox].
  - unfold places, taking_tokens in *. cbn [mailbox taking held returned]. rewrite Hp.
    subst q. rewrite map_app in H1. cbn in H1.
    transitivity ((release ++ map q_token (queue m')) ++ taking_tokens s ++ map q_token (held s) ++ returned s).
    + rewrite H1. unfold taking_tokens. rewrite <- !app_assoc. apply Permutation_app_head.
      rewrite (Permutation_app_comm (_ :: _)). by rewrite <- !app_assoc.
    + unfold taking_tokens. rewrite <- !app_assoc. rewrite (Permutation_app_comm release). by rewrite <- !app_assoc.
  - unfold leases in *. cbn [mailbox taking held].
    replace (len (queue m') + _ + len (held s)) with
      (len (queue m') + (len (queue (mailbox s)) + (if is_some (taking s) then 1 else 0) + len (held s) - len (queue (mailbox s)))) by lia.
    done.
  - lia.
  - rewrite H3. apply H4. unfold len at 1. lia.
Qed.

Lemma conserved_attempt tokens s expired :
  conserved tokens s -> conserved tokens (step s (OpAttempt expired)).
Proof.
  intros [Hp Hc Hcap Hb]. cbn [step]. destruct (taking s) as [t|] eqn:Et; [done|].
  unfold take_attempt. pose proof (pop_back_spec (queue (mailbox s))) as Hpop.
  destruct (pop_back (queue (mailbox s))) as [[f older]|].
  - unfold leases in Hc. rewrite Et, Hpop, len_app, len_cons in Hc. change (len []) with 0 in Hc. cbn [is_some] in Hc.
    pose proof (take_older_tokens (rev older) f (counters (mailbox s)) [] (1 + len (held s))) as H.
    destruct (fold_left take_older _ _) as [[f' c'] tokens'].
    destruct H as (H1 & H2 & H3).
    { unfold len in *. rewrite length_rev. eapply eq_ind; [exact Hc|lia]. }
    split; cbn [mailbox queue capacity counters]; [|exact H3|done|change (len []) with 0; lia].
    rewrite Hp. unfold places, taking_tokens. rewrite Et, Hpop. cbn. rewrite H2, H1, !map_app. cbn.
    rewrite map_rev, <- Permutation_rev, <- !app_assoc. done.
  - assert (Es : mkSystem (mailbox s) None (held s) (returned s) = s) by (destruct s; cbn in *; congruence).
    by destruct (closed (mailbox s)), expired; rewrite Es.
Qed.

Lemma conserved_finish tokens (s : System T) : conserved tokens s -> conserved tokens (step s OpFinish).
Proof.
  intros [Hp Hc Hcap Hb]. cbn [step]. unfold finish_take.
  destruct (taking s) as [[[|t ts] f]|] eqn:Et; [| |done].
  - unfold places, taking_tokens, leases in *. rewrite Et in *. split; cbn in *; [| |done|done].
    + rewrite Hp, map_app. cbn. apply Permutation_app_head. rewrite <- app_assoc. apply Permutation_middle.
    + eapply eq_ind; [by apply counted_taken|]. unfold leases, len. cbn. rewrite length_app. cbn. lia.
  - unfold places, taking_tokens, leases in *. rewrite Et in *. split; cbn in *; [|done..].
    unfold places, taking_tokens. cbn [mailbox taking held returned queue]. rewrite Hp.
    apply Permutation_app_head. rewrite !app_assoc. apply Permutation_cons_append.
Qed.

Lemma conserved_drop tokens (s : System T) i : conserved tokens s -> conserved tokens (step s (OpDrop i)).
Proof.
  intros [Hp Hc Hcap Hb]. cbn [step]. unfold drop_lease. destruct (held s !! i) as [f|] eqn:Ei; [|done].
  pose proof (delete_Permutation _ _ _ Ei) as Hd.
  unfold places, taking_tokens, leases in *. split; cbn [mailbox queue capacity counters]; [| |done|done].
  - unfold places, taking_tokens. cbn [mailbox taking held returned queue]. rewrite Hp. do 2 apply Permutation_app_head.
    change (fun x => @q_token T x) with (@q_token T). rewrite (Permutation_map q_token Hd) at 1. cbn.
    rewrite app_assoc. apply Permutation_cons_append.
  - assert (len (held s) = len (delete i (held s)) + 1) as Hl.
    { unfold len. apply Permutation_length in Hd. rewrite Hd. cbn. lia. }
    rewrite Hl in Hc. eapply eq_ind; [by apply counted_end|]. unfold leases. cbn. lia.
Qed.

Lemma conserved_drain tokens (s : System T) : conserved tokens s -> conserved tokens (step s OpDrain).
Proof.
  intros [Hp Hc Hcap Hb]. cbn [step]. unfold drain, leases in *.
  pose proof (drain_frames_tokens (queue (mailbox s)) None [] (counters (mailbox s))
    ((if is_some (taking s) then 1 else 0) + len (held s))) as H.
  destruct (fold_left drain_frame _ _) as [[d tokens'] c']. destruct H as (H1 & H2).
  { eapply eq_ind; [exact Hc|lia]. }
  split; cbn [mailbox queue capacity counters]; [|exact H2|done|change (len []) with 0; lia].
  rewrite Hp. unfold places, taking_tokens. cbn. rewrite H1. cbn.
  rewrite Permutation_app_comm. by rewrite <- !app_assoc.
Qed.

Lemma conserved_step tokens s op :
  conserved tokens s ->
  conserved (tokens ++ match op with OpPush _ token _ => [token] | _ => [] end) (step s op).
Proof.
  intros H. destruct op as [now token surface|expired| |i|damage| |]; rewrite ?app_nil_r.
  - by apply conserved_push.
  - by apply conserved_attempt.
  - by apply conserved_finish.
  - by apply conserved_drop.
  - destruct H. by split.
  - destruct H. by split.
  - by apply conserved_drain.
Qed.

Lemma conserved_run (ops : list (Op T)) : forall tokens s,
  conserved tokens s -> conserved (tokens ++ pushed_tokens ops) (run s ops).
Proof.
  induction ops as [|op ops IH]; intros tokens s H; cbn [run fold_left].
  - by rewrite app_nil_r.
  - apply (conserved_step _ _ op), IH in H. rewrite <- app_assoc in H.
    by destruct op.
Qed.

Lemma conserved_new n : conserved [] (System_new n).
Proof. split; cbn; [done|split; done|lia|change (len []) with 0; lia]. Qed.
End Conservation.

(** ** Lemmas: pending damage *)

Inductive CaptureDamageOp := Observe (damage : DamageEvidence) | MarkSubmitted.

Definition pending_capture_step (p : PendingCaptureDamage) (op : CaptureDamageOp) : PendingCaptureDamage :=
  match op with
  | Observe damage => (PendingCaptureDamage_observe p damage).1
  | MarkSubmitted => PendingCaptureDamage_mark_submitted p
  end.

(** The observations not yet submitted, of a history given newest first. *)
Fixpoint unsubmitted (history : list CaptureDamageOp) : list DamageEvidence :=
  match history with
  | Observe damage :: history => damage :: unsubmitted history
  | MarkSubmitted :: _ | [] => []
  end.

Definition is_regions (d : DamageEvidence) : bool := match d with Regions _ => true | _ => false end.

Definition rect_nonneg (r : PixelRect) : Prop :=
  0 <= rect_x r /\ 0 <= rect_y r /\ 0 <= rect_width r /\ 0 <= rect_height r.

Definition evidence_wf (d : DamageEvidence) : Prop :=
  match d with Regions rects => Forall rect_nonneg rects | _ => True end.

Definition damage_op_wf (op : CaptureDamageOp) : Prop :=
  match op with Observe d => evidence_wf d | MarkSubmitted => True end.

(** Block [i] holds a pixel the evidence names. *)
Definition evidence_touches (g : BlockGrid) (d : DamageEvidence) (i : Z) : Prop :=
  match d with
  | Regions rects => Exists (fun r => exists x y, pixel_in_block g i x y /\
      rect_x r <= x < rect_x r + rect_width r /\ rect_y r <= y < rect_y r + rect_height r) rects
  | _ => exists x y, pixel_in_block g i x y /\ 0 <= x < grid_width g /\ 0 <= y < grid_height g
  end.

Lemma mark_rects_spec rects : forall e,
  ext_wf e -> Forall rect_nonneg rects ->
  ext_wf (fold_left mark_rect rects e) /\ ext_grid (fold_left mark_rect rects e) = ext_grid e /\
  forall i, 0 <= i ->
    is_dirty (ext_damage_map (fold_left mark_rect rects e)) i = true <->
    is_dirty (ext_damage_map e) i = true \/ evidence_touches (ext_grid e) (Regions rects) i.
Proof.
  induction rects as [|r rects IH]; intros e He Hr; cbn [fold_left].
  { split; [done|]. split; [done|]. intros i _. cbn. rewrite Exists_nil. tauto. }
  apply Forall_cons in Hr as [(? & ? & ? & ?) Hr].
  destruct (mark_rect_spec e He r) as (Hw & Hg & Hd); [done..|].
  destruct (IH (mark_rect e r) Hw Hr) as (Hw1 & Hg1 & Hd1).
  split; [done|]. split; [congruence|]. intros i Hi. rewrite Hd1, Hd by done. cbn [evidence_touches].
  rewrite Exists_cons, Hg. tauto.
Qed.

Lemma evidence_scratch_spec e d :
  ext_wf e -> evidence_wf d ->
  let e' := match d with
            | Regions rects => fold_left mark_rect rects (ExternalDamage_reset e)
            | EvidenceUnknown | EvidenceFull => mark_full_frame (ExternalDamage_reset e)
            end in
  ext_wf e' /\ ext_grid e' = ext_grid e /\
  forall i, 0 <= i -> is_dirty (ext_damage_map e') i = true <-> evidence_touches (ext_grid e) d i.
Proof.
  intros He Hd. destruct (ExternalDamage_reset_spec e He) as [Hr Hclean].
  assert (Hg : ext_grid (ExternalDamage_reset e) = ext_grid e) by done.
  assert (Hfull : forall d', d' = EvidenceUnknown \/ d' = EvidenceFull ->
    ext_wf (mark_full_frame (ExternalDamage_reset e)) /\ ext_grid (mark_full_frame (ExternalDamage_reset e)) = ext_grid e /\
    forall i, 0 <= i -> is_dirty (ext_damage_map (mark_full_frame (ExternalDamage_reset e))) i = true <->
      evidence_touches (ext_grid e) d' i).
  { intros d' Hd'. pose proof (wf_ext_grid e He) as Hgw.
    destruct (mark_rect_spec _ Hr (mkPixelRect 0 0 (grid_width (ext_grid e)) (grid_height (ext_grid e))))
      as (H1 & H2 & H3); cbn; [lia|lia|destruct Hgw; lia|destruct Hgw; lia|].
    split; [done|]. split; [done|]. intros i Hi. unfold mark_full_frame. rewrite Hg, H3, Hclean by done. cbn.
    by destruct Hd' as [-> | ->]; cbn; naive_solver. }
  destruct d as [| |rects]; [by apply Hfull; auto..|].
  destruct (mark_rects_spec rects _ Hr Hd) as (H1 & H2 & H3). split; [done|]. split; [done|].
  intros i Hi. rewrite H3, Hclean by done. naive_solver.
Qed.

Record capture_damage_inv (g : BlockGrid) (history : list CaptureDamageOp) (p : PendingCaptureDamage) : Prop := {
  cd_pending : ext_wf (pend_damage (pc_pending p)) /\ ext_grid (pend_damage (pc_pending p)) = g;
  cd_scratch : ext_wf (scratch p) /\ ext_grid (scratch p) = g;
  cd_owed : is_pending p = negb (bool_decide (unsubmitted history = []));
  cd_auth : is_pending p = true -> authoritative p = forallb is_regions (unsubmitted history);
  cd_dirty : is_pending p = true -> forall i, 0 <= i ->
    is_dirty (pending_damage_map p) i = true <-> Exists (fun d => evidence_touches g d i) (unsubmitted history)
}.

Lemma pending_capture_step_inv g history p op :
  damage_op_wf op -> capture_damage_inv g history p ->
  capture_damage_inv g (op :: history) (pending_capture_step p op).
Proof.
  intros Hop [[Hp Hpg] [Hs Hsg] Ho Ha Hd]. destruct op as [d|]; cbn [pending_capture_step].
  - unfold PendingCaptureDamage_observe.
    destruct (evidence_scratch_spec (scratch p) d Hs Hop) as (Hs' & Hsg' & Hsd). cbv zeta.
    set (e' := match d with Regions _ => _ | _ => _ end) in *.
    destruct (observe_same_geometry (pc_pending p) (ext_damage_map e')) as (n & -> & Hn & Hng & Hnd);
      [done|split; apply Hs'|cbn; congruence|].
    split; cbn; [split; [done|congruence]|split; [done|congruence]|done|intros _|].
    + destruct (pending (pc_pending p)) eqn:Ep.
      * rewrite Ha by done. cbn [negb]. by rewrite orb_false_r.
      * assert (unsubmitted history = []) as ->.
        { unfold is_pending in Ho. rewrite Ep in Ho. symmetry in Ho. by rewrite negb_false_iff, bool_decide_eq_true in Ho. }
        cbn. by rewrite orb_true_r.
    + intros _ i Hi. rewrite Hnd, Hsd, Exists_cons, Hsg by done.
      destruct (pending (pc_pending p)) eqn:Ep.
      * rewrite <- Hd by done. unfold pending_damage_map. tauto.
      * assert (unsubmitted history = []) as ->.
        { unfold is_pending in Ho. rewrite Ep in Ho. symmetry in Ho. by rewrite negb_false_iff, bool_decide_eq_true in Ho. }
        rewrite Exists_nil. naive_solver.
  - split; cbn; done.
Qed.

(** ** Properties *)

(** C7: The bounded mailbox loses nothing the worker needs: whatever its
    capacity and whatever the interleaving of pushes, carried damage, drains,
    closing and attempts to take, each attempt sees what an unbounded queue
    would give it.  That is the frame pushed last, the number of frames it
    superseded (saturating at 32 bits), and the joint damage of every frame
    and every carried observation since the last take; and it sees the closed
    state, the timeout or the wait exactly when no frame was pushed. *)
Theorem mailbox_refines_intake {T} (n : Z) (ops : list (Op T)) :
  views mail_step (CaptureMailbox_new n) ops = views intake_step intake_new ops.
Proof.
  apply mail_views_rel. split; cbn; [lia|done..|]. exists []. split; [constructor|done].
Qed.

(** Buffers are conserved: in every interleaving, each token pushed is in
    exactly one place (queued, in the worker's hands between superseding and
    releasing, leased, or returned to the producer), the queue never exceeds
    its capacity, and the counters agree: [outstanding] is the number of
    leases queued or held and [pushed] is [released] plus [outstanding],
    modulo the counters' 64 bits. *)
Theorem buffers_are_conserved {T} (n : Z) (ops : list (Op T)) :
  let s := run (System_new n) ops in
  Permutation (pushed_tokens ops) (places s) /\
  len (queue (mailbox s)) <= capacity (mailbox s) /\
  c_outstanding (counters (mailbox s)) = wrapping 64 (leases s) /\
  wrapping 64 (c_pushed (counters (mailbox s))) =
    wrapping 64 (c_released (counters (mailbox s)) + c_outstanding (counters (mailbox s))).
Proof.
  destruct (conserved_run ops [] (System_new n) (conserved_new n)) as [Hp [Ho Hb] _ Hl]. auto.
Qed.

(** What a submission owes after any history of observations and
    submissions: damage is pending exactly when an observation came since the
    last submission, it is authoritative exactly when moreover each of those
    observations was a region list, and then a block is dirty exactly when one
    of them names a pixel of it (an observation without regions names the
    whole frame). *)
Theorem pending_capture_exact (w h : Z) (p : PendingCaptureDamage) (ops : list CaptureDamageOp) :
  is_usize w -> is_usize h -> PendingCaptureDamage_new w h = Ok p -> Forall damage_op_wf ops ->
  let g := ext_grid (pend_damage (pc_pending p)) in
  let owed := unsubmitted (rev ops) in
  let p' := fold_left pending_capture_step ops p in
  is_pending p' = negb (bool_decide (owed = [])) /\
  is_authoritative p' = negb (bool_decide (owed = [])) && forallb is_regions owed /\
  (is_pending p' = true -> forall i, 0 <= i ->
    is_dirty (pending_damage_map p') i = true <-> Exists (fun d => evidence_touches g d i) owed).
Proof.
  intros Hw Hh Hnew Hops g owed p'. unfold PendingCaptureDamage_new, PendingExternalDamage_new in Hnew.
  apply bind_Ok in Hnew as (pe & (d & Hd & [= <-])%bind_Ok & (e & He & [= <-])%bind_Ok).
  assert (e = d) as -> by congruence.
  destruct (ExternalDamage_new_spec w h d) as (Hwf & _ & _); [done..|].
  assert (Hinv : capture_damage_inv g (rev ops) p').
  { subst p'. clear owed. induction ops as [|op ops IH] using rev_ind.
    - split; cbn; done.
    - apply Forall_app in Hops as [Hops Hop]. rewrite Forall_singleton in Hop.
      rewrite fold_left_app, rev_app_distr. apply (pending_capture_step_inv _ (rev ops)); [done|by apply IH]. }
  destruct Hinv as [_ _ Ho Ha Hdirty]. split; [done|]. split; [|done].
  unfold is_authoritative. change (pending (pc_pending p')) with (is_pending p'). fold owed in Ho, Ha.
  rewrite <- Ho. destruct (is_pending p'); [by rewrite Ha, andb_true_r|by rewrite andb_false_r].
Qed.

Definition sample_damage_ops : list CaptureDamageOp :=
  [Observe EvidenceUnknown; MarkSubmitted; Observe (Regions [mkPixelRect 0 0 8 8]);
   Observe (Regions [mkPixelRect 48 48 8 8])].

Lemma pending_capture_exact_witness :
  exists p, PendingCaptureDamage_new 64 64 = Ok p /\
    let p' := fold_left pending_capture_step sample_damage_ops p in
    is_authoritative p' = true /\ is_pending p' = true.
Proof.
  eexists. split; [reflexivity|].
  destruct (pending_capture_exact 64 64 _ sample_damage_ops ltac:(vm_compute; split; congruence)
    ltac:(vm_compute; split; congruence) eq_refl ltac:(repeat constructor; cbn; lia)) as (Hp & Ha & _).
  split; [exact Ha|exact Hp].
Defined.
