(* ===== verification/DirectReconnect.v ===== *)
(** * Session: direct reconnect

    Models [shared/session/src/direct_reconnect.rs]: the state machine that
    keeps a session for its own client through a lost connection, the
    compare-and-rotate slot that makes a resume grant work once, and the
    decisions on a fresh sign-in.  Constant-time equality is a third-party
    crate's and is a parameter; redacting [Debug] output is left out. *)

From stdpp Require Import strings.
From S2P Require Import Prelude.

Definition MAX_RECONNECT_WINDOW_SECONDS : Z := 7200.
Definition DEFAULT_RECONNECT_WINDOW_SECONDS : Z := 180.

Definition MonotonicMillis : Type := Z.

Definition add_seconds (t : MonotonicMillis) (seconds : Z) : MonotonicMillis := saturating_add 128 t (seconds * 1000).

Record ReconnectPolicy := mkPolicy { window_secs : Z }.
Inductive ReconnectPolicyError := WindowTooLong.

Definition ReconnectPolicy_new (window_secs : Z) : result ReconnectPolicyError ReconnectPolicy :=
  if MAX_RECONNECT_WINDOW_SECONDS <? window_secs then Err WindowTooLong else Ok (mkPolicy window_secs).

Definition is_disabled (p : ReconnectPolicy) : bool := window_secs p =? 0.
Definition ReconnectPolicy_default : ReconnectPolicy := mkPolicy DEFAULT_RECONNECT_WINDOW_SECONDS.

(** ** The state machine *)

Inductive ReconnectState :=
| Disabled
| Attached
| Detached (deadline : MonotonicMillis) (timer_generation : Z)
| Resuming (deadline : MonotonicMillis) (timer_generation : Z)
| Draining
| ReconnectClosed.

Inductive ReconnectEvent :=
| UnexpectedLoss
| ExplicitDisconnect
| BeginResume
| ResumeAccepted
| ResumeFailed
| DeadlineReached (timer_generation : Z)
| NativeSessionEnded
| OwnerCrashed
| DrainComplete.

Inductive ReconnectTimerAction :=
| NoTimer
| Arm (deadline : MonotonicMillis) (timer_generation : Z)
| Cancel (timer_generation : Z).

Record ReconnectActions := mkActions {
  hold_restore_leases : bool;
  restore_leases : bool;
  stop_media : bool;
  start_media : bool;
  reset_input : bool;
  rotate_grant : bool;
  revoke_grant : bool;
  close_transport : bool;
  timer : ReconnectTimerAction
}.

Definition actions_default : ReconnectActions := mkActions false false false false false false false false NoTimer.

Record DirectReconnect := mkReconnect { policy : ReconnectPolicy; state : ReconnectState; next_timer_generation : Z }.

Definition DirectReconnect_new (p : ReconnectPolicy) : DirectReconnect :=
  mkReconnect p (if is_disabled p then Disabled else Attached) 1.

Definition active_timer_generation (r : DirectReconnect) : option Z :=
  match state r with Detached _ g | Resuming _ g => Some g | _ => None end.

Definition set_state (s : ReconnectState) (r : DirectReconnect) : DirectReconnect :=
  mkReconnect (policy r) s (next_timer_generation r).

Definition detach (r : DirectReconnect) (now : MonotonicMillis) : DirectReconnect * ReconnectActions :=
  let timer_generation := next_timer_generation r in
  let deadline := add_seconds now (window_secs (policy r)) in
  (mkReconnect (policy r) (Detached deadline timer_generation) (saturating_add 64 (next_timer_generation r) 1),
   mkActions true false true false true false false true (Arm deadline timer_generation)).

Definition begin_drain (r : DirectReconnect) (timer_generation : option Z) : DirectReconnect * ReconnectActions :=
  (set_state Draining r,
   mkActions false true true false true false true true
     (match timer_generation with Some g => Cancel g | None => NoTimer end)).

(** The arms of [apply], in the source's order; a failing guard falls through
    to the arms below. *)
Definition apply (r : DirectReconnect) (event : ReconnectEvent) (now : MonotonicMillis)
  : DirectReconnect * ReconnectActions :=
  match state r, event with
  | Attached, UnexpectedLoss => detach r now
  | Disabled, UnexpectedLoss => begin_drain r None
  | (Attached | Disabled | Detached _ _ | Resuming _ _), (ExplicitDisconnect | NativeSessionEnded | OwnerCrashed) =>
    begin_drain r (active_timer_generation r)
  | Detached deadline g, BeginResume =>
    if now <? deadline then (set_state (Resuming deadline g) r, actions_default) else begin_drain r (Some g)
  | Detached deadline g, (ResumeAccepted | ResumeFailed) | Resuming deadline g, BeginResume =>
    if deadline <=? now then begin_drain r (Some g) else (r, actions_default)
  | Resuming deadline g, ResumeAccepted =>
    if deadline <=? now then begin_drain r (Some g)
    else (set_state Attached r, mkActions false false false true true true false false (Cancel g))
  | Resuming deadline g, ResumeFailed =>
    if deadline <=? now then begin_drain r (Some g)
    else (set_state (Detached deadline g) r, mkActions false false false false true false false true NoTimer)
  | (Detached deadline active | Resuming deadline active), DeadlineReached timer_generation =>
    if (timer_generation =? active) && (deadline <=? now) then begin_drain r (Some active) else (r, actions_default)
  | Draining, DrainComplete => (set_state ReconnectClosed r, actions_default)
  | _, _ => (r, actions_default)
  end.

(** ** Fresh sign-ins *)

Inductive FreshAuthenticatedReconnectDecision := StartNewSession | ReconnectTakeOverDetached | RefuseDifferentPrincipal.

Definition decide_fresh_authenticated_reconnect {P} `{EqDecision P} (detached_owner : option P) (authenticated : P)
  : FreshAuthenticatedReconnectDecision :=
  match detached_owner with
  | None => StartNewSession
  | Some owner => if bool_decide (owner = authenticated) then ReconnectTakeOverDetached else RefuseDifferentPrincipal
  end.

Inductive SessionAttachment := SessionAttached | SessionDetached.
Inductive FreshSignIn := TakeOverDetached | ProveIncumbentSilent | Refuse.
Record AccountPrincipal := mkPrincipal { principal_name : string; principal_id : Z }.

#[export] Instance AccountPrincipal_eq_dec : EqDecision AccountPrincipal.
Proof. solve_decision. Defined.

Definition fresh_sign_in (owner signed_in : AccountPrincipal) (attachment : SessionAttachment) : FreshSignIn :=
  if bool_decide (principal_name owner = EmptyString) || negb (bool_decide (owner = signed_in)) then Refuse
  else match attachment with SessionDetached => TakeOverDetached | SessionAttached => ProveIncumbentSilent end.

(** ** The resume slot *)

Record DirectResumeSlot := mkSlot { slot_generation : Z; slot_nonce : list Z; slot_active : bool }.

Inductive DirectResumeSlotResult := Rotated (generation : Z) (nonce : list Z) | Replayed | GenerationExhausted.

Definition Slot_new (generation : Z) (nonce : list Z) : DirectResumeSlot := mkSlot generation nonce true.

Definition slot_current (s : DirectResumeSlot) : option (Z * list Z) :=
  if slot_active s then Some (slot_generation s, slot_nonce s) else None.

Definition slot_revoke (s : DirectResumeSlot) : DirectResumeSlot :=
  mkSlot (slot_generation s) (replicate (length (slot_nonce s)) 0) false.

Section Slot.
Context (ct_eq : list Z -> list Z -> bool).

Definition compare_and_rotate (s : DirectResumeSlot) (expected_generation : Z) (expected_nonce next_nonce : list Z)
  : DirectResumeSlot * DirectResumeSlotResult :=
  if negb (slot_active s) || negb (slot_generation s =? expected_generation) || negb (ct_eq (slot_nonce s) expected_nonce)
  then (s, Replayed)
  else
    match checked_add 64 (slot_generation s) 1 with
    | None => (mkSlot (slot_generation s) (slot_nonce s) false, GenerationExhausted)
    | Some next_generation => (mkSlot next_generation next_nonce true, Rotated next_generation next_nonce)
    end.

(** Attempts and revocations in the order the host's lock admits them. *)
Inductive SlotOp := Attempt (generation : Z) (nonce next_nonce : list Z) | Revoke.

Definition slot_step (s : DirectResumeSlot) (op : SlotOp) : DirectResumeSlot * option DirectResumeSlotResult :=
  match op with
  | Attempt g n next => let '(s, r) := compare_and_rotate s g n next in (s, Some r)
  | Revoke => (slot_revoke s, None)
  end.

(** The attempts that did not fail as replays, with the grant each presented. *)
Fixpoint winners (s : DirectResumeSlot) (ops : list SlotOp) : list (Z * list Z) :=
  match ops with
  | [] => []
  | op :: ops =>
    let '(s', r) := slot_step s op in
    match op, r with
    | Attempt g n _, Some (Rotated _ _ | GenerationExhausted) => (g, n) :: winners s' ops
    | _, _ => winners s' ops
    end
  end.

(** The grants issued: the first, and the one each rotation returned. *)
Fixpoint issued (s : DirectResumeSlot) (ops : list SlotOp) : list (Z * list Z) :=
  match ops with
  | [] => []
  | op :: ops =>
    let '(s', r) := slot_step s op in
    match r with
    | Some (Rotated g n) => (g, n) :: issued s' ops
    | _ => issued s' ops
    end
  end.
End Slot.

(** ** The host's side of the directives *)

(** What the directives act on: whether media runs, the one deadline timer,
    whether the restore leases were executed and the resume grant revoked. *)
Record HostEffects := mkEffects {
  media_running : bool;
  armed_timer : option (MonotonicMillis * Z);
  leases_restored : bool;
  grant_revoked : bool
}.

Definition effects_new : HostEffects := mkEffects true None false false.

(** [None] where a directive does not apply: arming a second timer, cancelling
    one that is not armed, starting media twice, restoring the leases or
    revoking the grant twice, rotating a revoked grant. *)
Definition perform (h : HostEffects) (a : ReconnectActions) : option HostEffects :=
  if start_media a && (media_running h || stop_media a) then None
  else if restore_leases a && leases_restored h then None
  else if (revoke_grant a || rotate_grant a) && grant_revoked h then None
  else
    timer ← match timer a, armed_timer h with
            | NoTimer, t => Some t
            | Arm d g, None => Some (Some (d, g))
            | Cancel g, Some (_, g') => if g =? g' then Some None else None
            | _, _ => None
            end;
    Some (mkEffects (if start_media a then true else if stop_media a then false else media_running h) timer
            (leases_restored h || restore_leases a) (grant_revoked h || revoke_grant a)).

Definition attached (s : ReconnectState) : bool := match s with Attached | Disabled => true | _ => false end.
Definition terminal (s : ReconnectState) : bool := match s with Draining | ReconnectClosed => true | _ => false end.

Definition state_timer (s : ReconnectState) : option (MonotonicMillis * Z) :=
  match s with Detached d g | Resuming d g => Some (d, g) | _ => None end.

Definition effects_of (s : ReconnectState) : HostEffects :=
  mkEffects (attached s) (state_timer s) (terminal s) (terminal s).

Definition reconnect_run (r : DirectReconnect) (events : list (ReconnectEvent * MonotonicMillis)) : DirectReconnect :=
  fold_left (fun r '(e, t) => (apply r e t).1) events r.

Fixpoint effects_run (r : DirectReconnect) (h : HostEffects) (events : list (ReconnectEvent * MonotonicMillis))
  : option HostEffects :=
  match events with
  | [] => Some h
  | (e, t) :: events => h ← perform h (apply r e t).2; effects_run (apply r e t).1 h events
  end.

(** ** Lemmas *)

Lemma apply_effects r e t : perform (effects_of (state r)) (apply r e t).2 = Some (effects_of (state (apply r e t).1)).
Proof.
  unfold apply, begin_drain, detach, active_timer_generation.
  destruct (state r) eqn:Es, e; cbn; rewrite ?Es, ?Z.eqb_refl; try done; case_match; cbn; rewrite ?Es, ?Z.eqb_refl; done.
Qed.

Lemma effects_run_spec events : forall r,
  effects_run r (effects_of (state r)) events = Some (effects_of (state (reconnect_run r events))).
Proof.
  induction events as [|[e t] events IH]; intros r; cbn [effects_run reconnect_run fold_left]; [done|].
  rewrite apply_effects. cbn [mbind option_bind]. apply IH.
Qed.

(** A step that changes the state, by where it leads. *)
Lemma apply_state r e t :
  policy (apply r e t).1 = policy r /\
  match state (apply r e t).1 with
  | Detached d g =>
    (state r = Attached /\ e = UnexpectedLoss /\ d = add_seconds t (window_secs (policy r)) /\ g = next_timer_generation r) \/
    state r = Detached d g \/ (state r = Resuming d g /\ e = ResumeFailed /\ t < d)
  | Resuming d g => state r = Resuming d g \/ (state r = Detached d g /\ e = BeginResume /\ t < d)
  | Attached => state r = Attached \/ exists d g, state r = Resuming d g /\ e = ResumeAccepted /\ t < d
  | _ => True
  end.
Proof.
  unfold apply, begin_drain, detach, set_state.
  destruct (state r) eqn:Es, e; cbn; rewrite ?Es; auto 10;
    repeat match goal with |- context [if ?b then _ else _] => destruct b eqn:? end;
    cbn; rewrite ?Es; boolify; naive_solver lia.
Qed.

Lemma reconnect_run_app r a b : reconnect_run r (a ++ b) = reconnect_run (reconnect_run r a) b.
Proof. apply fold_left_app. Qed.

Lemma reconnect_run_policy events : forall r, policy (reconnect_run r events) = policy r.
Proof.
  induction events as [|[e t] events IH]; intros r; [done|]. change (policy (reconnect_run (apply r e t).1 events) = policy r). rewrite IH. apply apply_state.
Qed.

(** Where a waiting state comes from: the loss that detached the session. *)
Definition lost_at (p : ReconnectPolicy) (events : list (ReconnectEvent * MonotonicMillis)) (deadline : MonotonicMillis)
  (resuming : bool) : Prop :=
  exists pre lost post, events = pre ++ (UnexpectedLoss, lost) :: post /\
    state (reconnect_run (DirectReconnect_new p) pre) = Attached /\
    deadline = add_seconds lost (window_secs p) /\
    (resuming = true -> exists begun, (BeginResume, begun) ∈ post /\ begun < deadline).

Lemma lost_at_snoc p events deadline resuming ev :
  lost_at p events deadline resuming -> lost_at p (events ++ [ev]) deadline resuming.
Proof.
  intros (pre & lost & post & -> & H1 & H2 & H3). exists pre, lost, (post ++ [ev]).
  split; [by rewrite <- app_assoc|]. split; [done|]. split; [done|].
  intros Hr. destruct (H3 Hr) as (b & Hb & Hlt). exists b. split; [|done]. apply elem_of_app. by left.
Qed.

Lemma lost_at_begin p events deadline resuming t :
  lost_at p events deadline resuming -> t < deadline -> lost_at p (events ++ [(BeginResume, t)]) deadline true.
Proof.
  intros (pre & lost & post & -> & H1 & H2 & H3) Ht. exists pre, lost, (post ++ [(BeginResume, t)]).
  split; [by rewrite <- app_assoc|]. split; [done|]. split; [done|].
  intros _. exists t. split; [|done]. apply elem_of_app. right. by apply list_elem_of_singleton.
Qed.

Lemma lost_at_weaken p events deadline resuming :
  lost_at p events deadline resuming -> lost_at p events deadline false.
Proof. intros (pre & lost & post & ? & ? & ? & ?). exists pre, lost, post. done. Qed.

Lemma waiting_state p events :
  match state (reconnect_run (DirectReconnect_new p) events) with
  | Detached d g => lost_at p events d false
  | Resuming d g => lost_at p events d true
  | _ => True
  end.
Proof.
  induction events as [|[e t] events IH] using rev_ind.
  { cbn. by destruct (is_disabled p). }
  rewrite reconnect_run_app. cbn [reconnect_run fold_left].
  destruct (apply_state (reconnect_run (DirectReconnect_new p) events) e t) as [_ Hs].
  rewrite reconnect_run_policy in Hs.
  destruct (state (apply _ e t).1) as [| |d g|d g| |] eqn:E; try done.
  - destruct Hs as [(Ha & -> & -> & _)|[Hd|(Hr & -> & _)]].
    + exists events, t, []. done.
    + rewrite Hd in IH. by apply lost_at_snoc.
    + rewrite Hr in IH. by apply lost_at_snoc, (lost_at_weaken _ _ _ true).
  - destruct Hs as [Hr|(Hd & -> & Ht)].
    + rewrite Hr in IH. by apply lost_at_snoc.
    + rewrite Hd in IH. by eapply lost_at_begin.
Qed.

Lemma start_media_resumes r e t :
  start_media (apply r e t).2 = true ->
  e = ResumeAccepted /\ state (apply r e t).1 = Attached /\ exists d g, state r = Resuming d g /\ t < d.
Proof.
  unfold apply, begin_drain, detach. destruct (state r) eqn:Es, e; cbn; try done;
    repeat match goal with |- context [if ?b then _ else _] => destruct b eqn:? end; cbn; try done.
  intros _. boolify. split; [done|]. split; [done|]. by exists deadline, timer_generation.
Qed.

Definition NONCE_BYTES : nat := 32.

Definition slot_op_wf (op : SlotOp) : Prop :=
  match op with Attempt _ n next => length n = NONCE_BYTES /\ length next = NONCE_BYTES | Revoke => True end.

Record slot_wf (s : DirectResumeSlot) : Prop := {
  sl_generation : in_width 64 (slot_generation s);
  sl_nonce : length (slot_nonce s) = NONCE_BYTES
}.

Section SlotLemmas.
Context (ct_eq : list Z -> list Z -> bool).
(** What the constant-time comparison documents for slices of one length. *)
Hypothesis ct_eq_spec : forall a b, length a = length b -> ct_eq a b = true <-> a = b.

Lemma compare_and_rotate_spec s g n next :
  slot_wf s -> length n = NONCE_BYTES -> length next = NONCE_BYTES ->
  let '(s', r) := compare_and_rotate ct_eq s g n next in
  slot_wf s' /\
  match r with
  | Rotated g' n' => slot_active s = true /\ g = slot_generation s /\ n = slot_nonce s /\
      g' = g + 1 /\ n' = next /\ s' = mkSlot g' n' true
  | GenerationExhausted => slot_active s = true /\ g = slot_generation s /\ n = slot_nonce s /\ slot_active s' = false
  | Replayed => s' = s
  end.
Proof.
  intros [Hg Hn] Hl Hnext. unfold compare_and_rotate.
  destruct (slot_active s) eqn:Ea; cbn [negb orb]; [|done].
  destruct (Z.eqb_spec (slot_generation s) g) as [<-|]; cbn [negb orb]; [|done].
  destruct (ct_eq (slot_nonce s) n) eqn:En; cbn [negb]; [|done].
  apply ct_eq_spec in En; [subst n|congruence].
  destruct (checked_add 64 (slot_generation s) 1) as [g'|] eqn:Eg.
  - apply checked_add_Some in Eg as [-> Hmax]. split; [|done]. split; cbn; [|done].
    unfold in_width, umax in *. lia.
  - done.
Qed.

Lemma inactive_slot_wins_nothing ops : forall s,
  slot_active s = false -> winners ct_eq s ops = [] /\ issued ct_eq s ops = [].
Proof.
  induction ops as [|[g n next|] ops IH]; intros s Hs; cbn [winners issued slot_step]; [done| |].
  - unfold compare_and_rotate. rewrite Hs. cbn. by apply IH.
  - by apply IH.
Qed.

Lemma winners_in_order ops : forall s,
  slot_wf s -> Forall slot_op_wf ops -> slot_active s = true ->
  (exists rest, (slot_generation s, slot_nonce s) :: issued ct_eq s ops = winners ct_eq s ops ++ rest) /\
  ((slot_generation s, slot_nonce s) :: issued ct_eq s ops).*1 =
    seqZ (slot_generation s) (1 + len (issued ct_eq s ops)).
Proof.
  induction ops as [|[g n next|] ops IH]; intros s Hs Hops Ha; cbn [winners issued slot_step].
  - split; [by eexists|done].
  - apply Forall_cons in Hops as [[Hn Hx] Hops].
    pose proof (compare_and_rotate_spec s g n next Hs Hn Hx) as Hr.
    destruct (compare_and_rotate ct_eq s g n next) as [s' r]. destruct Hr as [Hs' Hr]. destruct r as [g' n'| |].
    + destruct Hr as (_ & -> & -> & -> & -> & ->).
      destruct (IH (mkSlot (slot_generation s + 1) next true) Hs' Hops eq_refl) as [[rest Hrest] Hseq].
      cbn [slot_generation slot_nonce] in Hrest, Hseq. split.
      * exists rest. by rewrite Hrest.
      * rewrite fmap_cons. cbn [fst]. rewrite Hseq, len_cons.
        pose proof (len_nonneg (issued ct_eq (mkSlot (slot_generation s + 1) next true) ops)).
        rewrite (seqZ_cons (slot_generation s)) by lia. f_equal. f_equal; lia.
    + subst s'. by apply IH.
    + destruct Hr as (_ & -> & -> & Hs0). destruct (inactive_slot_wins_nothing ops s' Hs0) as [-> ->].
      split; [by exists []|done].
  - destruct (inactive_slot_wins_nothing ops (slot_revoke s) eq_refl) as [-> ->]. split; [by eexists|done].
Qed.
End SlotLemmas.

(** ** Properties *)

(** C32: The directives keep the host in step with the state, through every
    history of events: a directive never arms a second timer, cancels a timer
    that is not armed, starts running media, or executes the restore leases or
    revokes the grant twice; and afterwards media runs exactly while a
    transport is attached, the armed timer is exactly the deadline of a
    waiting session, and the leases are restored and the grant revoked exactly
    when the session is terminal.  The armed timer ends the wait when it fires
    at or after its deadline, and an earlier or an older timer changes
    nothing. *)
Theorem reconnect_effects_in_step (p : ReconnectPolicy) (events : list (ReconnectEvent * MonotonicMillis)) :
  let r := reconnect_run (DirectReconnect_new p) events in
  effects_run (DirectReconnect_new p) effects_new events = Some (effects_of (state r)) /\
  (forall g now,
    match armed_timer (effects_of (state r)) with
    | Some (deadline, active) =>
      if (g =? active) && (deadline <=? now) then state (apply r (DeadlineReached g) now).1 = Draining
      else apply r (DeadlineReached g) now = (r, actions_default)
    | None => apply r (DeadlineReached g) now = (r, actions_default)
    end).
Proof.
  split.
  - rewrite <- effects_run_spec. f_equal. cbn. by destruct (is_disabled p).
  - intros g now. unfold apply. destruct (state (reconnect_run _ events)) eqn:Es; cbn; try done;
      by destruct ((g =? timer_generation) && (deadline <=? now)).
Qed.

(** A session is resumed only within its window: media starts again at
    [now] only because a resume was accepted after the connection was lost at
    some earlier point of the history while attached, a replacement began to
    resume before that loss's deadline (the loss plus the policy's window),
    and [now] is still before it. *)
Theorem resume_within_window (p : ReconnectPolicy) (events : list (ReconnectEvent * MonotonicMillis))
  (e : ReconnectEvent) (now : MonotonicMillis) :
  start_media (apply (reconnect_run (DirectReconnect_new p) events) e now).2 = true ->
  e = ResumeAccepted /\
  exists pre lost post begun,
    events = pre ++ (UnexpectedLoss, lost) :: post /\
    state (reconnect_run (DirectReconnect_new p) pre) = Attached /\
    (BeginResume, begun) ∈ post /\
    begun < add_seconds lost (window_secs p) /\ now < add_seconds lost (window_secs p).
Proof.
  intros H. apply start_media_resumes in H as (-> & _ & d & g & Hs & Ht). split; [done|].
  pose proof (waiting_state p events) as Hw. rewrite Hs in Hw.
  destruct Hw as (pre & lost & post & E & Ha & -> & Hb). destruct (Hb eq_refl) as (begun & Hin & Hlt).
  by exists pre, lost, post, begun.
Qed.

Definition sample_history : list (ReconnectEvent * MonotonicMillis) :=
  [(UnexpectedLoss, 1000); (BeginResume, 60000); (ResumeFailed, 61000); (BeginResume, 90000)].

Lemma resume_within_window_witness :
  exists pre lost post begun,
    sample_history = pre ++ (UnexpectedLoss, lost) :: post /\
    state (reconnect_run (DirectReconnect_new ReconnectPolicy_default) pre) = Attached /\
    (BeginResume, begun) ∈ post /\ begun < add_seconds lost 180 /\ 180999 < add_seconds lost 180.
Proof. apply (proj2 (resume_within_window ReconnectPolicy_default sample_history ResumeAccepted 180999 eq_refl)). Defined.

(** A resume grant works at most once, and in order: whatever attempts and
    revocations reach the slot, the grants that win are exactly the first ones
    of the sequence of grants issued (the initial one, then each one a rotation
    returned), each presented with its own generation and nonce; and the
    generations issued are consecutive without wrapping, so no two grants
    share one. *)
Theorem resume_grant_single_use (ct_eq : list Z -> list Z -> bool) (generation : Z) (nonce : list Z) (ops : list SlotOp) :
  (forall a b, length a = length b -> ct_eq a b = true <-> a = b) ->
  in_width 64 generation -> length nonce = NONCE_BYTES -> Forall slot_op_wf ops ->
  let s := Slot_new generation nonce in
  let grants := (generation, nonce) :: issued ct_eq s ops in
  (exists rest, grants = winners ct_eq s ops ++ rest) /\
  grants.*1 = seqZ generation (len grants) /\ NoDup (winners ct_eq s ops).*1.
Proof.
  intros Hct Hg Hn Hops s grants.
  destruct (winners_in_order ct_eq Hct ops s ltac:(by split) Hops eq_refl) as [[rest Hrest] Hseq].
  assert (Hseq' : grants.*1 = seqZ generation (len grants)) by (subst grants; rewrite len_cons; exact Hseq).
  split; [by exists rest|]. split; [exact Hseq'|].
  assert (Hnd : NoDup (grants.*1)) by (rewrite Hseq'; apply NoDup_seqZ).
  subst grants. change (generation, nonce) with (slot_generation s, slot_nonce s) in Hnd.
  rewrite Hrest, fmap_app in Hnd. by apply NoDup_app in Hnd as [? _].
Qed.

Definition nonce_of (b : Z) : list Z := replicate NONCE_BYTES b.

(** A rotation, its replay, and the rotation of the new grant. *)
Definition sample_attempts : list SlotOp :=
  [Attempt 5 (nonce_of 1) (nonce_of 2); Attempt 5 (nonce_of 1) (nonce_of 3); Attempt 6 (nonce_of 2) (nonce_of 4)].

Lemma resume_grant_single_use_witness :
  NoDup (winners (fun a b => bool_decide (a = b)) (Slot_new 5 (nonce_of 1)) sample_attempts).*1.
Proof.
  apply (resume_grant_single_use (fun a b => bool_decide (a = b)) 5 (nonce_of 1) sample_attempts).
  - intros a b _. apply bool_decide_eq_true.
  - done.
  - done.
  - by repeat constructor.
Defined.
