(* ===== verification/HidDigitizer.v ===== *)
(** * USB bridge: pen tablets from HID report descriptors

    Models [shared/usb-bridge/src/hid_digitizer.rs]: the bounded parser of HID
    report descriptors, the classification of collections and devices, and the
    HID class descriptor.  The parser's loop advances by at least one byte, so
    the length is enough fuel; running out is [None].  Slices are read within
    their bounds by construction; [Display] is left out. *)

From S2P Require Import Prelude UsbDescriptor.

(** ** Constants *)

Definition MAX_HID_REPORT_DESCRIPTOR_BYTES : Z := 4096.
Definition MAX_COLLECTION_DEPTH : Z := 32.
Definition MAX_TOP_LEVEL_COLLECTIONS : Z := 64.
Definition MAX_LOCAL_USAGES : Z := 256.
Definition MAX_GLOBAL_STACK_DEPTH : Z := 16.
Definition USAGE_PAGE_GENERIC_DESKTOP : Z := 0x01.
Definition USAGE_PAGE_DIGITIZER : Z := 0x0D.
Definition USAGE_PAGE_VENDOR_DIGITIZER : Z := 0xFF0D.
Definition USAGE_X : Z := 0x30.
Definition USAGE_Y : Z := 0x31.
Definition DIGITIZER_DIGITIZER : Z := 0x01.
Definition DIGITIZER_PEN : Z := 0x02.
Definition DIGITIZER_TOUCH_SCREEN : Z := 0x04.
Definition DIGITIZER_TOUCH_PAD : Z := 0x05.
Definition DIGITIZER_STYLUS : Z := 0x20.
Definition DIGITIZER_FINGER : Z := 0x22.
Definition DIGITIZER_TIP_PRESSURE : Z := 0x30.
Definition DIGITIZER_IN_RANGE : Z := 0x32.
Definition DIGITIZER_X_TILT : Z := 0x3D.
Definition DIGITIZER_Y_TILT : Z := 0x3E.
Definition DIGITIZER_TWIST : Z := 0x41.
Definition DIGITIZER_TIP_SWITCH : Z := 0x42.
Definition DIGITIZER_BARREL_SWITCH : Z := 0x44.
Definition DIGITIZER_ERASER : Z := 0x45.
Definition DIGITIZER_INVERT : Z := 0x3C.
Definition DIGITIZER_SECONDARY_BARREL_SWITCH : Z := 0x5A.
Definition DIGITIZER_CONTACT_IDENTIFIER : Z := 0x51.

(** ** Data *)

Record AxisRange := mkAxis {
  logical_min : Z; logical_max : Z; physical_min : Z; physical_max : Z; unit_word : Z; unit_exponent : Z }.

Definition levels (r : AxisRange) : Z :=
  let span := logical_max r - logical_min r + 1 in Z.min (Z.max span 0) (umax 64).
Definition axis_is_valid (r : AxisRange) : bool := logical_min r <? logical_max r.
Definition physical_unit_is_degrees (r : AxisRange) : bool :=
  (unit_word r =? 0x14) && negb (physical_max r =? physical_min r).

Record PenCapabilities := mkCaps {
  cap_x : option AxisRange;
  cap_y : option AxisRange;
  cap_tip_switch : bool;
  cap_in_range : bool;
  cap_pressure : option AxisRange;
  cap_tilt_x : option AxisRange;
  cap_tilt_y : option AxisRange;
  cap_twist : option AxisRange;
  cap_eraser : bool;
  cap_barrel_buttons : Z
}.

Definition caps_default : PenCapabilities := mkCaps None None false false None None None None false 0.

Definition option_or {A} (a b : option A) : option A := match a with Some _ => a | None => b end.

Definition pressure_levels (c : PenCapabilities) : option Z :=
  r ← cap_pressure c; if axis_is_valid r then Some (levels r) else None.
Definition has_tilt (c : PenCapabilities) : bool := is_some (cap_tilt_x c) && is_some (cap_tilt_y c).
Definition is_pen_shaped (c : PenCapabilities) : bool :=
  is_some (cap_x c) && is_some (cap_y c) && (cap_tip_switch c || cap_in_range c || is_some (cap_pressure c)).

Definition merged (a b : PenCapabilities) : PenCapabilities :=
  mkCaps (option_or (cap_x a) (cap_x b)) (option_or (cap_y a) (cap_y b))
    (cap_tip_switch a || cap_tip_switch b) (cap_in_range a || cap_in_range b)
    (option_or (cap_pressure a) (cap_pressure b))
    (option_or (cap_tilt_x a) (cap_tilt_x b)) (option_or (cap_tilt_y a) (cap_tilt_y b))
    (option_or (cap_twist a) (cap_twist b))
    (cap_eraser a || cap_eraser b) (Z.max (cap_barrel_buttons a) (cap_barrel_buttons b)).

Inductive CollectionClass := ClassPen | ClassVendorDigitizer | ClassTouch | ClassOtherDigitizer | ClassOther.

#[export] Instance CollectionClass_eq_dec : EqDecision CollectionClass.
Proof. solve_decision. Defined.

Record TopLevelCollection := mkCollection {
  col_usage_page : Z;
  col_usage : Z;
  col_class : CollectionClass;
  col_capabilities : PenCapabilities;
  col_nested : bool;
  col_nested_controller_usage : option Z
}.

(** A [ReportDescriptorSummary] is its collections. *)
Definition ReportDescriptorSummary : Type := list TopLevelCollection.

Definition summary_any (s : ReportDescriptorSummary) (class : CollectionClass) : bool :=
  existsb (fun c => bool_decide (col_class c = class)) s.
Definition standard_digitizer (s : ReportDescriptorSummary) : bool :=
  existsb (fun c => col_usage_page c =? USAGE_PAGE_DIGITIZER) s.

Inductive HidDescriptorError :=
| HidEmpty
| HidTooLarge (actual : Z)
| HidTruncated (offset : Z)
| UnbalancedCollection (offset : Z)
| UnterminatedCollection
| CollectionTooDeep
| TooManyCollections
| TooManyUsages
| GlobalStack.

(** ** Parser state *)

Record GlobalState := mkGlobal {
  g_usage_page : Z;
  g_logical_min : Z;
  g_logical_max_raw : Z;
  g_logical_max_size : Z;
  g_physical_min : Z;
  g_physical_max_raw : Z;
  g_physical_max_size : Z;
  g_unit : Z;
  g_unit_exponent : Z
}.

Definition global_default : GlobalState := mkGlobal 0 0 0 0 0 0 0 0 0.

(** The low [w] bits read as two's complement. *)
Definition from_twos (w raw : Z) : Z :=
  let m := raw mod 2 ^ w in if m <? 2 ^ (w - 1) then m else m - 2 ^ w.

Definition sign_extend (raw size : Z) : Z :=
  if size =? 1 then from_twos 8 raw
  else if size =? 2 then from_twos 16 raw
  else if size =? 4 then from_twos 32 raw
  else 0.

Definition interpret_maximum (minimum raw size : Z) : Z := if minimum <? 0 then sign_extend raw size else raw.

Definition global_range (g : GlobalState) : AxisRange :=
  mkAxis (g_logical_min g) (interpret_maximum (g_logical_min g) (g_logical_max_raw g) (g_logical_max_size g))
    (g_physical_min g) (interpret_maximum (g_physical_min g) (g_physical_max_raw g) (g_physical_max_size g))
    (g_unit g) (g_unit_exponent g).

Inductive LocalUsage := UsageSingle (page usage : Z) | UsageRange (page minimum maximum : Z).

Record LocalState := mkLocal { usages : list LocalUsage; pending_minimum : option (Z * Z) }.
Definition local_default : LocalState := mkLocal [] None.

Definition local_push (l : LocalState) (u : LocalUsage) : result HidDescriptorError LocalState :=
  if MAX_LOCAL_USAGES <=? len (usages l) then Err TooManyUsages
  else Ok (mkLocal (usages l ++ [u]) (pending_minimum l)).

Record OpenTopLevel := mkOpen {
  op_usage_page : Z;
  op_usage : Z;
  opened_at : Z;
  stylus : bool;
  finger : bool;
  contact_identifier : bool;
  nested_foreign_application : bool;
  nested_controller_usage : option Z;
  op_capabilities : PenCapabilities
}.

Definition digitizer_equivalent (page usage : Z) : option Z :=
  if (page =? USAGE_PAGE_DIGITIZER) || ((page =? USAGE_PAGE_VENDOR_DIGITIZER) && (usage <=? 0xFF))
  then Some usage else None.

Definition extended_usage (data size page : Z) : Z * Z :=
  if size =? 4 then (Z.shiftr data 16, Z.land data 0xFFFF) else (page, Z.land data 0xFFFF).

Definition with_caps (top : OpenTopLevel) (c : PenCapabilities) : OpenTopLevel :=
  mkOpen (op_usage_page top) (op_usage top) (opened_at top) (stylus top) (finger top) (contact_identifier top)
    (nested_foreign_application top) (nested_controller_usage top) c.

Definition set_contact_identifier (top : OpenTopLevel) : OpenTopLevel :=
  mkOpen (op_usage_page top) (op_usage top) (opened_at top) (stylus top) (finger top) true
    (nested_foreign_application top) (nested_controller_usage top) (op_capabilities top).

Definition record_input (top : OpenTopLevel) (page usage : Z) (range : AxisRange) : OpenTopLevel :=
  let c := op_capabilities top in
  if page =? USAGE_PAGE_GENERIC_DESKTOP then
    if usage =? USAGE_X then
      with_caps top (mkCaps (option_or (cap_x c) (Some range)) (cap_y c) (cap_tip_switch c) (cap_in_range c)
        (cap_pressure c) (cap_tilt_x c) (cap_tilt_y c) (cap_twist c) (cap_eraser c) (cap_barrel_buttons c))
    else if usage =? USAGE_Y then
      with_caps top (mkCaps (cap_x c) (option_or (cap_y c) (Some range)) (cap_tip_switch c) (cap_in_range c)
        (cap_pressure c) (cap_tilt_x c) (cap_tilt_y c) (cap_twist c) (cap_eraser c) (cap_barrel_buttons c))
    else top
  else
    match digitizer_equivalent page usage with
    | None => top
    | Some digitizer =>
      if digitizer =? DIGITIZER_TIP_PRESSURE then
        with_caps top (mkCaps (cap_x c) (cap_y c) (cap_tip_switch c) (cap_in_range c)
          (option_or (cap_pressure c) (Some range)) (cap_tilt_x c) (cap_tilt_y c) (cap_twist c) (cap_eraser c)
          (cap_barrel_buttons c))
      else if digitizer =? DIGITIZER_IN_RANGE then
        with_caps top (mkCaps (cap_x c) (cap_y c) (cap_tip_switch c) true (cap_pressure c) (cap_tilt_x c)
          (cap_tilt_y c) (cap_twist c) (cap_eraser c) (cap_barrel_buttons c))
      else if digitizer =? DIGITIZER_X_TILT then
        with_caps top (mkCaps (cap_x c) (cap_y c) (cap_tip_switch c) (cap_in_range c) (cap_pressure c)
          (option_or (cap_tilt_x c) (Some range)) (cap_tilt_y c) (cap_twist c) (cap_eraser c) (cap_barrel_buttons c))
      else if digitizer =? DIGITIZER_Y_TILT then
        with_caps top (mkCaps (cap_x c) (cap_y c) (cap_tip_switch c) (cap_in_range c) (cap_pressure c)
          (cap_tilt_x c) (option_or (cap_tilt_y c) (Some range)) (cap_twist c) (cap_eraser c) (cap_barrel_buttons c))
      else if digitizer =? DIGITIZER_TWIST then
        with_caps top (mkCaps (cap_x c) (cap_y c) (cap_tip_switch c) (cap_in_range c) (cap_pressure c)
          (cap_tilt_x c) (cap_tilt_y c) (option_or (cap_twist c) (Some range)) (cap_eraser c) (cap_barrel_buttons c))
      else if digitizer =? DIGITIZER_TIP_SWITCH then
        with_caps top (mkCaps (cap_x c) (cap_y c) true (cap_in_range c) (cap_pressure c) (cap_tilt_x c)
          (cap_tilt_y c) (cap_twist c) (cap_eraser c) (cap_barrel_buttons c))
      else if (digitizer =? DIGITIZER_ERASER) || (digitizer =? DIGITIZER_INVERT) then
        with_caps top (mkCaps (cap_x c) (cap_y c) (cap_tip_switch c) (cap_in_range c) (cap_pressure c)
          (cap_tilt_x c) (cap_tilt_y c) (cap_twist c) true (cap_barrel_buttons c))
      else if (digitizer =? DIGITIZER_BARREL_SWITCH) || (digitizer =? DIGITIZER_SECONDARY_BARREL_SWITCH) then
        with_caps top (mkCaps (cap_x c) (cap_y c) (cap_tip_switch c) (cap_in_range c) (cap_pressure c)
          (cap_tilt_x c) (cap_tilt_y c) (cap_twist c) (cap_eraser c) (saturating_add 8 (cap_barrel_buttons c) 1))
      else if digitizer =? DIGITIZER_CONTACT_IDENTIFIER then set_contact_identifier top
      else top
    end.

Definition close_top_level (top : OpenTopLevel) : TopLevelCollection :=
  let page := op_usage_page top in
  let class :=
    if page =? USAGE_PAGE_DIGITIZER then
      let pen_usage := (op_usage top =? DIGITIZER_PEN) || (op_usage top =? DIGITIZER_DIGITIZER)
                       || (op_usage top =? DIGITIZER_STYLUS) in
      let touch_usage := (op_usage top =? DIGITIZER_TOUCH_SCREEN) || (op_usage top =? DIGITIZER_TOUCH_PAD) in
      let touch_shaped := (finger top || contact_identifier top) && negb (stylus top) in
      if is_pen_shaped (op_capabilities top) && (stylus top || (pen_usage && negb touch_shaped))
         && (negb touch_usage || stylus top)
      then ClassPen
      else if touch_usage || touch_shaped then ClassTouch
      else ClassOtherDigitizer
    else if (page =? USAGE_PAGE_VENDOR_DIGITIZER) && negb (nested_foreign_application top)
    then ClassVendorDigitizer
    else ClassOther in
  mkCollection page (op_usage top) class (op_capabilities top) (0 <? opened_at top) (nested_controller_usage top).

Definition COLLECTION_APPLICATION : Z := 0x01.
Definition is_controller_usage (page usage : Z) : bool :=
  (page =? USAGE_PAGE_GENERIC_DESKTOP) && ((usage =? 0x04) || (usage =? 0x05) || (usage =? 0x08)).
Definition is_digitizer_application (page : Z) : bool :=
  (page =? USAGE_PAGE_DIGITIZER) || (page =? USAGE_PAGE_VENDOR_DIGITIZER).

Definition RECOGNISED_USAGES : list Z :=
  [USAGE_X; USAGE_Y; DIGITIZER_TIP_PRESSURE; DIGITIZER_IN_RANGE; DIGITIZER_X_TILT; DIGITIZER_Y_TILT; DIGITIZER_TWIST;
   DIGITIZER_TIP_SWITCH; DIGITIZER_BARREL_SWITCH; DIGITIZER_ERASER; DIGITIZER_INVERT; DIGITIZER_SECONDARY_BARREL_SWITCH].

Record ShortItem := mkItem { item_offset : Z; item_type : Z; item_tag : Z; item_size : Z; item_data : Z }.

(** The innermost open application collection is the head of [applications]. *)
Record DescriptorParser := mkParser {
  summary : ReportDescriptorSummary;
  global : GlobalState;
  global_stack : list GlobalState;
  local : LocalState;
  depth : Z;
  applications : list OpenTopLevel
}.

Definition parser_default : DescriptorParser := mkParser [] global_default [] local_default 0 [].

(** ** Parser operations *)

Definition set_global (p : DescriptorParser) (g : GlobalState) : DescriptorParser :=
  mkParser (summary p) g (global_stack p) (local p) (depth p) (applications p).
Definition set_local (p : DescriptorParser) (l : LocalState) : DescriptorParser :=
  mkParser (summary p) (global p) (global_stack p) l (depth p) (applications p).
Definition set_applications (p : DescriptorParser) (apps : list OpenTopLevel) : DescriptorParser :=
  mkParser (summary p) (global p) (global_stack p) (local p) (depth p) apps.

(** One recorded usage of an input item; of a range, the recognised ones. *)
Definition record_usage (range : AxisRange) (open : OpenTopLevel) (u : LocalUsage) : OpenTopLevel :=
  match u with
  | UsageSingle page usage => record_input open page usage range
  | UsageRange page minimum maximum =>
    fold_left (fun open usage =>
      if (minimum <=? usage) && (usage <=? maximum) then record_input open page usage range else open)
      RECOGNISED_USAGES open
  end.

Definition input (p : DescriptorParser) : DescriptorParser :=
  match applications p with
  | [] => p
  | open :: rest =>
    let range := global_range (global p) in
    set_applications p (fold_left (record_usage range) (usages (local p)) open :: rest)
  end.

Definition flag_foreign_application (top : OpenTopLevel) : OpenTopLevel :=
  mkOpen (op_usage_page top) (op_usage top) (opened_at top) (stylus top) (finger top) (contact_identifier top)
    true (nested_controller_usage top) (op_capabilities top).

(** A physical or logical collection noted in its application collection. *)
Definition note_collection (top : OpenTopLevel) (page usage : Z) : OpenTopLevel :=
  let equivalent := digitizer_equivalent page usage in
  mkOpen (op_usage_page top) (op_usage top) (opened_at top)
    (stylus top || bool_decide (equivalent = Some DIGITIZER_STYLUS))
    (finger top || bool_decide (equivalent = Some DIGITIZER_FINGER))
    (contact_identifier top) (nested_foreign_application top)
    (if is_controller_usage page usage && negb (is_some (nested_controller_usage top))
     then Some usage else nested_controller_usage top)
    (op_capabilities top).

Definition open_collection (p : DescriptorParser) (kind : Z) : result HidDescriptorError DescriptorParser :=
  if MAX_COLLECTION_DEPTH <=? depth p then Err CollectionTooDeep
  else
    let '(page, usage) := match usages (local p) with
                          | UsageSingle page usage :: _ => (page, usage)
                          | UsageRange page minimum _ :: _ => (page, minimum)
                          | [] => (g_usage_page (global p), 0)
                          end in
    let application := (depth p =? 0) || (Z.land kind 0xFF =? COLLECTION_APPLICATION) in
    apps ← (if application then
              if MAX_TOP_LEVEL_COLLECTIONS <=? len (summary p) + len (applications p) then Err TooManyCollections
              else
                let apps := match applications p with
                            | parent :: rest =>
                              (if negb (is_digitizer_application page) then flag_foreign_application parent else parent) :: rest
                            | [] => []
                            end in
                Ok (mkOpen page usage (depth p) false false false false None caps_default :: apps)
            else
              Ok match applications p with
                 | open :: rest => note_collection open page usage :: rest
                 | [] => []
                 end);
    Ok (mkParser (summary p) (global p) (global_stack p) (local p) (depth p + 1) apps).

Definition close_collection (p : DescriptorParser) (offset : Z) : result HidDescriptorError DescriptorParser :=
  if depth p =? 0 then Err (UnbalancedCollection offset)
  else
    let depth := depth p - 1 in
    Ok match applications p with
       | open :: rest =>
         if opened_at open =? depth
         then mkParser (summary p ++ [close_top_level open]) (global p) (global_stack p) (local p) depth rest
         else mkParser (summary p) (global p) (global_stack p) (local p) depth (applications p)
       | [] => mkParser (summary p) (global p) (global_stack p) (local p) depth []
       end.

Definition main_item (p : DescriptorParser) (i : ShortItem) : result HidDescriptorError DescriptorParser :=
  if (item_tag i =? 0x8) && (Z.land (item_data i) 0x01 =? 0) then Ok (input p)
  else if item_tag i =? 0xA then open_collection p (item_data i)
  else if item_tag i =? 0xC then close_collection p (item_offset i)
  else Ok p.

Definition global_item (p : DescriptorParser) (i : ShortItem) : result HidDescriptorError DescriptorParser :=
  let g := global p in
  let data := item_data i in
  let tag := item_tag i in
  if tag =? 0x0 then
    Ok (set_global p (mkGlobal (Z.land data 0xFFFF) (g_logical_min g) (g_logical_max_raw g) (g_logical_max_size g)
      (g_physical_min g) (g_physical_max_raw g) (g_physical_max_size g) (g_unit g) (g_unit_exponent g)))
  else if tag =? 0x1 then
    Ok (set_global p (mkGlobal (g_usage_page g) (sign_extend data (item_size i)) (g_logical_max_raw g) (g_logical_max_size g)
      (g_physical_min g) (g_physical_max_raw g) (g_physical_max_size g) (g_unit g) (g_unit_exponent g)))
  else if tag =? 0x2 then
    Ok (set_global p (mkGlobal (g_usage_page g) (g_logical_min g) data (item_size i)
      (g_physical_min g) (g_physical_max_raw g) (g_physical_max_size g) (g_unit g) (g_unit_exponent g)))
  else if tag =? 0x3 then
    Ok (set_global p (mkGlobal (g_usage_page g) (g_logical_min g) (g_logical_max_raw g) (g_logical_max_size g)
      (sign_extend data (item_size i)) (g_physical_max_raw g) (g_physical_max_size g) (g_unit g) (g_unit_exponent g)))
  else if tag =? 0x4 then
    Ok (set_global p (mkGlobal (g_usage_page g) (g_logical_min g) (g_logical_max_raw g) (g_logical_max_size g)
      (g_physical_min g) data (item_size i) (g_unit g) (g_unit_exponent g)))
  else if tag =? 0x5 then
    let value := Z.land data 0x0F in
    Ok (set_global p (mkGlobal (g_usage_page g) (g_logical_min g) (g_logical_max_raw g) (g_logical_max_size g)
      (g_physical_min g) (g_physical_max_raw g) (g_physical_max_size g) (g_unit g)
      (if 8 <=? value then value - 16 else value)))
  else if tag =? 0x6 then
    Ok (set_global p (mkGlobal (g_usage_page g) (g_logical_min g) (g_logical_max_raw g) (g_logical_max_size g)
      (g_physical_min g) (g_physical_max_raw g) (g_physical_max_size g) data (g_unit_exponent g)))
  else if tag =? 0xA then
    if MAX_GLOBAL_STACK_DEPTH <=? len (global_stack p) then Err GlobalStack
    else Ok (mkParser (summary p) g (g :: global_stack p) (local p) (depth p) (applications p))
  else if tag =? 0xB then
    match global_stack p with
    | [] => Err GlobalStack
    | g :: stack => Ok (mkParser (summary p) g stack (local p) (depth p) (applications p))
    end
  else Ok p.

Definition local_item (p : DescriptorParser) (i : ShortItem) : result HidDescriptorError DescriptorParser :=
  let '(page, usage) := extended_usage (item_data i) (item_size i) (g_usage_page (global p)) in
  let l := local p in
  if item_tag i =? 0x0 then l ← local_push l (UsageSingle page usage); Ok (set_local p l)
  else if item_tag i =? 0x1 then Ok (set_local p (mkLocal (usages l) (Some (page, usage))))
  else if item_tag i =? 0x2 then
    let taken := mkLocal (usages l) None in
    match pending_minimum l with
    | Some (min_page, minimum) =>
      if (min_page =? page) && (minimum <=? usage)
      then l ← local_push taken (UsageRange min_page minimum usage); Ok (set_local p l)
      else Ok (set_local p taken)
    | None => Ok (set_local p taken)
    end
  else Ok p.

(** [self.local] is reset after every main item; a refused item ends the parse. *)
Definition item (p : DescriptorParser) (i : ShortItem) : result HidDescriptorError DescriptorParser :=
  if item_type i =? 0 then p ← main_item p i; Ok (set_local p local_default)
  else if item_type i =? 1 then global_item p i
  else if item_type i =? 2 then local_item p i
  else Ok p.

(** One iteration of the loop at [offset]: the item read there, if it is a
    short one, and the offset after it. *)
Definition next_item (bytes : list Z) (offset : Z) : result HidDescriptorError (option ShortItem * Z) :=
  let prefix := byte_at bytes offset in
  if prefix =? 0xFE then
    match read_at bytes (offset + 1) with
    | None => Err (HidTruncated offset)
    | Some size =>
      let stop := offset + 3 + size in
      if len bytes <? stop then Err (HidTruncated offset) else Ok (None, stop)
    end
  else
    let size := match Z.land prefix 0x03 with 0 => 0 | 1 => 1 | 2 => 2 | _ => 4 end in
    let data_start := offset + 1 in
    let data_end := data_start + size in
    if len bytes <? data_end then Err (HidTruncated offset)
    else
      Ok (Some (mkItem offset (Z.land (Z.shiftr prefix 2) 0x03) (Z.shiftr prefix 4) size
                  (from_le (slice bytes data_start data_end))), data_end).

Fixpoint parse_loop (fuel : nat) (bytes : list Z) (offset : Z) (p : DescriptorParser)
  : option (result HidDescriptorError DescriptorParser) :=
  match fuel with
  | O => None
  | S fuel =>
    if offset <? len bytes then
      match next_item bytes offset with
      | Err e => Some (Err e)
      | Ok (None, offset) => parse_loop fuel bytes offset p
      | Ok (Some i, offset) =>
        match item p i with
        | Err e => Some (Err e)
        | Ok p => parse_loop fuel bytes offset p
        end
      end
    else Some (Ok p)
  end.

Definition parse_report_descriptor (bytes : list Z) : option (result HidDescriptorError ReportDescriptorSummary) :=
  if bool_decide (bytes = []) then Some (Err HidEmpty)
  else if MAX_HID_REPORT_DESCRIPTOR_BYTES <? len bytes then Some (Err (HidTooLarge (len bytes)))
  else
    r ← parse_loop (S (length bytes)) bytes 0 parser_default;
    Some (p ← r; if negb (depth p =? 0) then Err UnterminatedCollection else Ok (summary p)).

(** ** Classification *)

Inductive NotPenTablet :=
| NoDescriptors
| TooManyDescriptors
| Malformed (e : HidDescriptorError)
| TouchOnly
| NoPenCollection
| VendorDigitizerOnly
| DisqualifyingCollection
| NoDigitizer.

Inductive PenTabletEvidence := DigitizerPen | VendorDigitizerWithStandardDigitizer | VendorDigitizerPen.

Record PenTabletProfile := mkPenProfile { evidence : PenTabletEvidence; capabilities : PenCapabilities }.

Definition disqualifying_usage (c : TopLevelCollection) : option Z :=
  if is_controller_usage (col_usage_page c) (col_usage c) then Some (col_usage c) else col_nested_controller_usage c.
Definition is_disqualifying (c : TopLevelCollection) : bool := is_some (disqualifying_usage c).

Fixpoint find_map {A B} (f : A -> option B) (l : list A) : option B :=
  match l with [] => None | a :: l => match f a with Some b => Some b | None => find_map f l end end.

Definition disqualifying_collection (descriptor : list Z) : option (result HidDescriptorError (option Z)) :=
  r ← parse_report_descriptor descriptor; Some (s ← r; Ok (find_map disqualifying_usage s)).

Definition is_boot_keyboard_interface (subclass protocol : Z) : bool := (subclass =? 1) && (protocol =? 1).

(** The loop that parses every descriptor. *)
Fixpoint parse_descriptors (summaries : list ReportDescriptorSummary) (descriptors : list (list Z))
  : option (result NotPenTablet (list ReportDescriptorSummary)) :=
  match descriptors with
  | [] => Some (Ok summaries)
  | descriptor :: descriptors =>
    if MAX_INTERFACES <=? len summaries then Some (Err TooManyDescriptors)
    else
      r ← parse_report_descriptor descriptor;
      match r with
      | Err e => Some (Err (Malformed e))
      | Ok s => parse_descriptors (summaries ++ [s]) descriptors
      end
  end.

Definition is_class (class : CollectionClass) (c : TopLevelCollection) : bool := bool_decide (col_class c = class).

Definition merge_pen (m : option PenCapabilities) (c : TopLevelCollection) : option PenCapabilities :=
  Some match m with Some m => merged m (col_capabilities c) | None => col_capabilities c end.

(** The decision on the parsed summaries. *)
Definition classify_summaries (summaries : list ReportDescriptorSummary) : result NotPenTablet PenTabletProfile :=
  let collections := concat summaries in
  let pen := fold_left merge_pen (List.filter (is_class ClassPen) collections) None in
  let vendor := fold_left (fun m c => merged m (col_capabilities c))
                  (List.filter (is_class ClassVendorDigitizer) collections) caps_default in
  match pen with
  | Some capabilities => Ok (mkPenProfile DigitizerPen (merged capabilities vendor))
  | None =>
    let has_vendor := existsb (fun s => summary_any s ClassVendorDigitizer) summaries in
    let has_standard := existsb standard_digitizer summaries in
    if has_vendor && has_standard then Ok (mkPenProfile VendorDigitizerWithStandardDigitizer vendor)
    else
      let vendor_pen := existsb (fun c => is_class ClassVendorDigitizer c
                          && ((col_usage c =? DIGITIZER_DIGITIZER) || (col_usage c =? DIGITIZER_PEN))) collections in
      if vendor_pen then
        if existsb is_disqualifying collections then Err DisqualifyingCollection
        else Ok (mkPenProfile VendorDigitizerPen vendor)
      else if has_vendor then Err VendorDigitizerOnly
      else if existsb (fun s => summary_any s ClassOtherDigitizer) summaries then Err NoPenCollection
      else if existsb (fun s => summary_any s ClassTouch) summaries then Err TouchOnly
      else Err NoDigitizer
  end.

Definition classify_pen_tablet (descriptors : list (list Z)) : option (result NotPenTablet PenTabletProfile) :=
  r ← parse_descriptors [] descriptors;
  Some (summaries ← r;
        if bool_decide (summaries = []) then Err NoDescriptors else classify_summaries summaries).

Definition declares_class (test : CollectionClass -> bool) (descriptor : list Z) : option bool :=
  r ← parse_report_descriptor descriptor;
  Some match r with Ok s => existsb (fun c => test (col_class c)) s | Err _ => false end.
Definition declares_pen_or_vendor_digitizer : list Z -> option bool :=
  declares_class (fun c => bool_decide (c = ClassPen \/ c = ClassVendorDigitizer)).
Definition declares_any_digitizer : list Z -> option bool := declares_class (fun c => negb (bool_decide (c = ClassOther))).

(** ** The HID class descriptor *)

Definition DESCRIPTOR_HID : Z := 0x21.
Definition DESCRIPTOR_HID_REPORT : Z := 0x22.
Definition MAX_HID_SUBORDINATE_DESCRIPTORS : Z := 16.

Inductive HidClassDescriptorError :=
| ClassMalformed | InconsistentCount | ReportEntries (count : Z) | ReportLength (length : Z).

(** [chunks_exact(3)]: a shorter tail is dropped. *)
Fixpoint chunks3 (l : list Z) : list (Z * Z * Z) :=
  match l with a :: b :: c :: l => (a, b, c) :: chunks3 l | _ => [] end.

Definition parse_hid_class_descriptor (descriptor : list Z) : result HidClassDescriptorError Z :=
  if (len descriptor <? 6) || negb (byte_at descriptor 0 =? len descriptor) || negb (byte_at descriptor 1 =? DESCRIPTOR_HID)
  then Err ClassMalformed
  else
    let count := byte_at descriptor 5 in
    if (count =? 0) || (MAX_HID_SUBORDINATE_DESCRIPTORS <? count) || negb (len descriptor =? 6 + 3 * count)
    then Err InconsistentCount
    else
      let reports := omap (fun '(ty, low, high) => if ty =? DESCRIPTOR_HID_REPORT then Some (from_le [low; high]) else None)
                       (chunks3 (slice_from descriptor 6)) in
      match reports with
      | [length] =>
        if (length =? 0) || (MAX_HID_REPORT_DESCRIPTOR_BYTES <? length) then Err (ReportLength length) else Ok length
      | _ => Err (ReportEntries (len reports))
      end.

Fixpoint report_length_loop (fuel : nat) (bytes : list Z) (offset : Z) : option (option Z) :=
  match fuel with
  | O => None
  | S fuel =>
    if offset + 2 <=? len bytes then
      let length := byte_at bytes offset in
      if (length <? 2) || (len bytes <? offset + length) then Some None
      else
        let descriptor := slice bytes offset (offset + length) in
        if byte_at descriptor 1 =? DESCRIPTOR_HID
        then Some (match parse_hid_class_descriptor descriptor with Ok l => Some l | Err _ => None end)
        else report_length_loop fuel bytes (offset + length)
    else Some None
  end.

Definition hid_report_descriptor_length (class_descriptors : list Z) : option (option Z) :=
  report_length_loop (S (length class_descriptors)) class_descriptors 0.

(** ** Lemmas: the loop *)

(** The short items the loop reads, up to an unreadable one. *)
Fixpoint items_loop (fuel : nat) (bytes : list Z) (offset : Z) : list ShortItem :=
  match fuel with
  | O => []
  | S fuel =>
    if offset <? len bytes then
      match next_item bytes offset with
      | Err _ => []
      | Ok (None, offset) => items_loop fuel bytes offset
      | Ok (Some i, offset) => i :: items_loop fuel bytes offset
      end
    else []
  end.

Definition items_of (bytes : list Z) : list ShortItem := items_loop (S (length bytes)) bytes 0.

Lemma next_item_progress bytes offset i stop :
  Forall is_u8 bytes -> 0 <= offset -> next_item bytes offset = Ok (i, stop) -> offset < stop <= len bytes.
Proof.
  intros Hb Ho. unfold next_item. destruct (byte_at bytes offset =? 0xFE).
  - destruct (read_at bytes (offset + 1)) as [size|] eqn:Er; [|done].
    destruct (Z.ltb_spec (len bytes) (offset + 3 + size)); [done|]. intros [= _ <-].
    assert (is_u8 size).
    { unfold read_at in Er. destruct (offset + 1 <? 0); [done|]. by apply (proj1 (Forall_lookup _ _) Hb _ _ Er). }
    unfold is_u8, in_width in *. lia.
  - set (size := match Z.land _ _ with 0 => 0 | 1 => 1 | 2 => 2 | _ => 4 end).
    assert (0 <= size) by (subst size; by repeat case_match).
    destruct (Z.ltb_spec (len bytes) (offset + 1 + size)); [done|]. intros [= _ <-]. lia.
Qed.

(** Any property of the parser state that items keep holds when the loop ends
    well, and the loop always ends. *)
Lemma parse_loop_ind (P : DescriptorParser -> Prop) bytes :
  Forall is_u8 bytes ->
  forall fuel offset p,
    (forall i p p', i ∈ items_loop fuel bytes offset -> P p -> item p i = Ok p' -> P p') ->
    0 <= offset <= len bytes -> len bytes - offset < Z.of_nat fuel -> P p ->
    exists r, parse_loop fuel bytes offset p = Some r /\ forall p', r = Ok p' -> P p'.
Proof.
  intros Hb. induction fuel as [|fuel IH]; intros offset p Hstep Ho Hf Hp; [lia|].
  cbn [parse_loop items_loop] in *. destruct (Z.ltb_spec offset (len bytes)); [|naive_solver].
  destruct (next_item bytes offset) as [[[i|] stop]|e] eqn:En; [| |naive_solver].
  - pose proof (next_item_progress bytes offset _ stop Hb (proj1 Ho) En).
    destruct (item p i) as [p'|e] eqn:Ei; [|naive_solver].
    apply IH; [|lia|lia|].
    + intros j q q' Hj. apply Hstep. by right.
    + eapply Hstep; [by left|done|done].
  - pose proof (next_item_progress bytes offset _ stop Hb (proj1 Ho) En). apply IH; [exact Hstep|lia|lia|done].
Qed.

(** ** Lemmas: bounds and nesting *)

(** The open application collections, innermost first, below depth [d]. *)
Fixpoint nested_at (d : Z) (apps : list OpenTopLevel) : Prop :=
  match apps with
  | [] => d = 0
  | a :: rest => 0 <= opened_at a < d /\ nested_at (opened_at a) rest
  end.

Record parser_inv (p : DescriptorParser) : Prop := {
  inv_depth : 0 <= depth p <= MAX_COLLECTION_DEPTH;
  inv_nested : nested_at (depth p) (applications p);
  inv_count : len (summary p) + len (applications p) <= MAX_TOP_LEVEL_COLLECTIONS;
  inv_usages : len (usages (local p)) <= MAX_LOCAL_USAGES;
  inv_stack : len (global_stack p) <= MAX_GLOBAL_STACK_DEPTH
}.

Lemma record_input_opened top page usage range : opened_at (record_input top page usage range) = opened_at top.
Proof. unfold record_input, with_caps, set_contact_identifier. repeat case_match; done. Qed.

Lemma record_usage_opened range top u : opened_at (record_usage range top u) = opened_at top.
Proof.
  destruct u as [page usage|page lo hi]; cbn [record_usage]; [apply record_input_opened|].
  generalize RECOGNISED_USAGES as l. intros l. revert top.
  induction l as [|usage l IH]; intros top; cbn [fold_left]; [done|]. rewrite IH.
  case_match; [apply record_input_opened|done].
Qed.

Lemma record_usages_opened range us : forall top, opened_at (fold_left (record_usage range) us top) = opened_at top.
Proof.
  induction us as [|u us IH]; intros top; cbn [fold_left]; [done|]. rewrite IH. apply record_usage_opened.
Qed.

Lemma parser_default_inv : parser_inv parser_default.
Proof. split; cbn; done. Qed.

Lemma local_push_spec l u l' : local_push l u = Ok l' -> len (usages l) <= MAX_LOCAL_USAGES ->
  len (usages l') <= MAX_LOCAL_USAGES.
Proof.
  unfold local_push. destruct (Z.leb_spec MAX_LOCAL_USAGES (len (usages l))); [done|]. intros [= <-] _. cbn.
  rewrite len_app, len_cons. change (len []) with 0. lia.
Qed.

Lemma open_collection_inv p kind p' : parser_inv p -> open_collection p kind = Ok p' -> parser_inv p'.
Proof.
  intros [Hd Hn Hc Hu Hs]. unfold open_collection.
  destruct (Z.leb_spec MAX_COLLECTION_DEPTH (depth p)) as [|Hlt]; [done|].
  destruct (match usages (local p) with [] => _ | _ => _ end) as [page usage].
  destruct (Z.eqb_spec (depth p) 0) as [E0|E0]; cbn [orb].
  - destruct (Z.leb_spec MAX_TOP_LEVEL_COLLECTIONS (len (summary p) + len (applications p))) as [|Hl]; cbn; [done|].
    intros [= <-]. destruct (applications p) as [|a rest] eqn:Ea; cbn in Hn; [|lia].
    change (len []) with 0 in Hl. split; cbn; [lia|lia| |done|done]. rewrite len_cons. change (len []) with 0. lia.
  - destruct (applications p) as [|a rest] eqn:Ea; cbn in Hn; [lia|].
    destruct (Z.land kind 0xFF =? COLLECTION_APPLICATION).
    + destruct (Z.leb_spec MAX_TOP_LEVEL_COLLECTIONS (len (summary p) + len (a :: rest))) as [|Hl]; cbn; [done|].
      intros [= <-]. split; cbn; [lia| | |done|done].
      * destruct (negb _); cbn; lia || (split; [lia|]; tauto).
      * rewrite !len_cons in *. lia.
    + cbn. intros [= <-]. split; cbn; [lia|split; [lia|tauto]| |done|done]. by rewrite !len_cons in *.
Qed.

Lemma close_collection_inv p offset p' : parser_inv p -> close_collection p offset = Ok p' -> parser_inv p'.
Proof.
  intros [Hd Hn Hc Hu Hs]. unfold close_collection. destruct (Z.eqb_spec (depth p) 0) as [|E0]; [done|].
  destruct (applications p) as [|a rest] eqn:Ea; cbn in Hn; [lia|].
  destruct (Z.eqb_spec (opened_at a) (depth p - 1)) as [Eo|Eo]; intros [= <-].
  - split; cbn; [lia|rewrite <- Eo; tauto| |done|done]. rewrite len_app, !len_cons in *. change (len []) with 0. lia.
  - split; cbn; [lia|split; [lia|tauto]|done|done|done].
Qed.

Lemma main_item_inv p i p' : parser_inv p -> main_item p i = Ok p' -> parser_inv p'.
Proof.
  intros Hi. unfold main_item. destruct ((item_tag i =? 0x8) && _).
  - intros [= <-]. unfold input. destruct (applications p) as [|a rest] eqn:Ea; [done|].
    destruct Hi as [Hd Hn Hc Hu Hs]. rewrite Ea in Hn, Hc. split; cbn; [done| |by rewrite len_cons in *|done|done].
    by rewrite record_usages_opened.
  - destruct (item_tag i =? 0xA); [by apply open_collection_inv|].
    destruct (item_tag i =? 0xC); [by apply close_collection_inv|]. by intros [= <-].
Qed.

Lemma global_item_inv p i p' : parser_inv p -> global_item p i = Ok p' -> parser_inv p'.
Proof.
  intros [Hd Hn Hc Hu Hs]. unfold global_item.
  repeat (match goal with |- context [if (item_tag i =? ?k) then _ else _] => destruct (item_tag i =? k) end;
    [try (intros [= <-]; done)|]); [| |by intros [= <-]].
  - destruct (Z.leb_spec MAX_GLOBAL_STACK_DEPTH (len (global_stack p))); [done|]. intros [= <-].
    split; cbn; try done. rewrite len_cons. lia.
  - destruct (global_stack p) as [|g stack] eqn:Eg; [done|]. intros [= <-]. split; cbn; try done.
    rewrite len_cons in Hs. lia.
Qed.

Lemma local_item_inv p i p' : parser_inv p -> local_item p i = Ok p' -> parser_inv p'.
Proof.
  intros [Hd Hn Hc Hu Hs]. unfold local_item. destruct (extended_usage _ _ _) as [page usage].
  destruct (item_tag i =? 0x0).
  { intros (l & Hl & [= <-])%bind_Ok. split; cbn; try done. by eapply local_push_spec. }
  destruct (item_tag i =? 0x1); [by intros [= <-]|].
  destruct (item_tag i =? 0x2); [|by intros [= <-]].
  destruct (pending_minimum (local p)) as [[mp m]|]; [|by intros [= <-]].
  destruct ((mp =? page) && _); [|by intros [= <-]].
  intros (l & Hl & [= <-])%bind_Ok. split; cbn; try done. by apply local_push_spec in Hl.
Qed.

Lemma item_inv p i p' : parser_inv p -> item p i = Ok p' -> parser_inv p'.
Proof.
  intros Hp. unfold item. destruct (item_type i =? 0).
  { intros (q & Hq & [= <-])%bind_Ok. destruct (main_item_inv p i q Hp Hq). split; cbn; done. }
  destruct (item_type i =? 1); [by apply global_item_inv|].
  destruct (item_type i =? 2); [by apply local_item_inv|]. by intros [= <-].
Qed.

(** ** Lemmas: descriptors without a digitizer page *)

(** An item that puts the Digitizers page or its vendor mirror in play: a
    usage-page item, or a four-byte usage that carries its own page. *)
Definition names_digitizer_page (i : ShortItem) : bool :=
  ((item_type i =? 1) && (item_tag i =? 0x0) && is_digitizer_application (Z.land (item_data i) 0xFFFF)) ||
  ((item_type i =? 2) && (item_tag i <=? 0x2) && (item_size i =? 4) && is_digitizer_application (Z.shiftr (item_data i) 16)).

Definition usage_page_of (u : LocalUsage) : Z := match u with UsageSingle page _ | UsageRange page _ _ => page end.

Definition foreign_page (page : Z) : Prop := is_digitizer_application page = false.
Definition foreign_collection (c : TopLevelCollection) : Prop := col_class c = ClassOther /\ foreign_page (col_usage_page c).

Record digitizer_free (p : DescriptorParser) : Prop := {
  df_global : foreign_page (g_usage_page (global p));
  df_stack : Forall (fun g => foreign_page (g_usage_page g)) (global_stack p);
  df_usages : Forall (fun u => foreign_page (usage_page_of u)) (usages (local p));
  df_pending : forall page minimum, pending_minimum (local p) = Some (page, minimum) -> foreign_page page;
  df_applications : Forall (fun a => foreign_page (op_usage_page a)) (applications p);
  df_summary : Forall foreign_collection (summary p)
}.

Lemma record_input_page top page usage range : op_usage_page (record_input top page usage range) = op_usage_page top.
Proof. unfold record_input, with_caps, set_contact_identifier. repeat case_match; done. Qed.

Lemma record_usages_page range us : forall top, op_usage_page (fold_left (record_usage range) us top) = op_usage_page top.
Proof.
  induction us as [|u us IH]; intros top; cbn [fold_left]; [done|]. rewrite IH.
  destruct u as [page usage|page lo hi]; cbn [record_usage]; [apply record_input_page|].
  generalize RECOGNISED_USAGES as l. intros l. clear IH. revert top.
  induction l as [|usage l IH]; intros top; cbn [fold_left]; [done|]. rewrite IH.
  case_match; [apply record_input_page|done].
Qed.

Lemma close_foreign top : foreign_page (op_usage_page top) -> foreign_collection (close_top_level top).
Proof.
  unfold foreign_collection, foreign_page, close_top_level, is_digitizer_application. cbn.
  intros [H1 H2]%orb_false_iff. by rewrite H1, H2.
Qed.

Lemma first_usage_foreign (p : DescriptorParser) page usage :
  digitizer_free p ->
  match usages (local p) with
  | UsageSingle page usage :: _ => (page, usage)
  | UsageRange page minimum _ :: _ => (page, minimum)
  | [] => (g_usage_page (global p), 0)
  end = (page, usage) -> foreign_page page.
Proof.
  intros [Hg _ Hu _ _ _]. destruct (usages (local p)) as [|[pg u|pg lo hi] rest]; [by intros [= <- _]|..];
    apply Forall_cons in Hu as [Hu _]; by intros [= <- _].
Qed.

Lemma open_collection_foreign p kind p' : digitizer_free p -> open_collection p kind = Ok p' -> digitizer_free p'.
Proof.
  intros Hp. unfold open_collection. destruct (MAX_COLLECTION_DEPTH <=? depth p); [done|].
  destruct (match usages (local p) with [] => _ | _ => _ end) as [page usage] eqn:Eu.
  pose proof (first_usage_foreign p page usage Hp Eu) as Hpage. destruct Hp as [Hg Hs Hu Hm Ha Hc].
  intros (apps & Happs & [= <-])%bind_Ok. split; cbn; try done.
  destruct ((depth p =? 0) || _).
  - destruct (MAX_TOP_LEVEL_COLLECTIONS <=? _); [done|]. injection Happs as <-. constructor; [done|].
    destruct (applications p) as [|a rest]; [done|]. apply Forall_cons in Ha as [Ha Hrest].
    constructor; [by destruct (negb _)|done].
  - injection Happs as <-. destruct (applications p) as [|a rest]; [done|].
    apply Forall_cons in Ha as [Ha Hrest]. by constructor.
Qed.

Lemma close_collection_foreign p offset p' : digitizer_free p -> close_collection p offset = Ok p' -> digitizer_free p'.
Proof.
  intros [Hg Hs Hu Hm Ha Hc]. unfold close_collection. destruct (depth p =? 0); [done|].
  destruct (applications p) as [|a rest] eqn:Ea; [by intros [= <-]|].
  apply Forall_cons in Ha as [Ha Hrest].
  destruct (opened_at a =? depth p - 1); intros [= <-]; split; cbn; try done.
  - apply Forall_app. split; [done|]. constructor; [by apply close_foreign|done].
  - by constructor.
Qed.

Lemma main_item_foreign p i p' : digitizer_free p -> main_item p i = Ok p' -> digitizer_free p'.
Proof.
  intros Hp. unfold main_item. destruct ((item_tag i =? 0x8) && _).
  - intros [= <-]. unfold input. destruct (applications p) as [|a rest] eqn:Ea; [done|].
    destruct Hp as [Hg Hs Hu Hm Ha Hc]. rewrite Ea in Ha. apply Forall_cons in Ha as [Ha Hrest].
    split; cbn; try done. constructor; [by rewrite record_usages_page|done].
  - destruct (item_tag i =? 0xA); [by apply open_collection_foreign|].
    destruct (item_tag i =? 0xC); [by apply close_collection_foreign|]. by intros [= <-].
Qed.

Lemma global_item_foreign p i p' :
  item_type i = 1 -> names_digitizer_page i = false -> digitizer_free p -> global_item p i = Ok p' -> digitizer_free p'.
Proof.
  intros Hty Hn [Hg Hs Hu Hm Ha Hc]. unfold names_digitizer_page in Hn. rewrite Hty in Hn. cbn in Hn.
  rewrite orb_false_r in Hn. unfold global_item.
  destruct (item_tag i =? 0x0); [intros [= <-]; split; cbn; done|].
  repeat (match goal with |- context [if (item_tag i =? ?k) then _ else _] => destruct (item_tag i =? k) end;
    [try (intros [= <-]; done)|]); [| |by intros [= <-]].
  - destruct (MAX_GLOBAL_STACK_DEPTH <=? len (global_stack p)); [done|]. intros [= <-].
    split; cbn; try done. by constructor.
  - destruct (global_stack p) as [|g stack] eqn:Eg; [done|]. apply Forall_cons in Hs as [Hg' Hs].
    intros [= <-]. split; cbn; done.
Qed.

Lemma local_push_foreign l u l' :
  local_push l u = Ok l' -> Forall (fun u => foreign_page (usage_page_of u)) (usages l) -> foreign_page (usage_page_of u) ->
  Forall (fun u => foreign_page (usage_page_of u)) (usages l') /\ pending_minimum l' = pending_minimum l.
Proof.
  unfold local_push. destruct (MAX_LOCAL_USAGES <=? len (usages l)); [done|]. intros [= <-] H Hu.
  split; [|done]. apply Forall_app. split; [done|by constructor].
Qed.

Lemma local_item_foreign p i p' :
  item_type i = 2 -> names_digitizer_page i = false -> digitizer_free p -> local_item p i = Ok p' -> digitizer_free p'.
Proof.
  intros Hty Hn [Hg Hs Hu Hm Ha Hc]. unfold names_digitizer_page in Hn. rewrite Hty in Hn. cbn in Hn.
  unfold local_item, extended_usage in *.
  destruct (if item_size i =? 4 then _ else _) as [page usage] eqn:Ep.
  assert (Hpage : item_tag i <= 2 -> foreign_page page).
  { intros Ht. destruct (item_size i =? 4); injection Ep as <- _; [|done].
    destruct (Z.leb_spec (item_tag i) 2); [done|lia]. }
  destruct (Z.eqb_spec (item_tag i) 0x0) as [Et|_].
  { intros (l & Hl & [= <-])%bind_Ok. apply local_push_foreign in Hl as [Hl Hm']; [|done|cbn; apply Hpage; lia].
    split; cbn; try done. by rewrite Hm'. }
  destruct (Z.eqb_spec (item_tag i) 0x1) as [Et|_].
  { intros [= <-]. split; cbn; try done. intros pg m [= <- _]. apply Hpage. lia. }
  destruct (Z.eqb_spec (item_tag i) 0x2) as [Et|_]; [|by intros [= <-]].
  destruct (pending_minimum (local p)) as [[mp m]|] eqn:Em; [|by intros [= <-]].
  pose proof (Hm mp m eq_refl) as Hmp.
  destruct ((mp =? page) && _); [|by intros [= <-]].
  intros (l & Hl & [= <-])%bind_Ok. apply local_push_foreign in Hl as [Hl Hm']; [|done|done].
  split; cbn; try done. by rewrite Hm'.
Qed.

Lemma item_foreign p i p' :
  names_digitizer_page i = false -> digitizer_free p -> item p i = Ok p' -> digitizer_free p'.
Proof.
  intros Hn Hp. unfold item. destruct (item_type i =? 0).
  { intros (q & Hq & [= <-])%bind_Ok. destruct (main_item_foreign p i q Hp Hq). split; cbn; done. }
  destruct (Z.eqb_spec (item_type i) 1); [by apply global_item_foreign|].
  destruct (Z.eqb_spec (item_type i) 2); [by apply local_item_foreign|]. by intros [= <-].
Qed.

Lemma parse_foreign bytes :
  Forall is_u8 bytes -> Forall (fun i => names_digitizer_page i = false) (items_of bytes) ->
  exists r, parse_report_descriptor bytes = Some r /\ forall s, r = Ok s -> Forall foreign_collection s.
Proof.
  intros Hb Hi. unfold parse_report_descriptor. case_bool_decide; [by eexists|].
  destruct (_ <? len bytes); [by eexists|].
  destruct (parse_loop_ind digitizer_free bytes Hb (S (length bytes)) 0 parser_default) as (r & -> & Hr).
  - intros i p p' Hin. apply item_foreign. by apply (proj1 (Forall_forall _ _) Hi).
  - pose proof (len_nonneg bytes). lia.
  - unfold len. lia.
  - split; cbn; done.
  - cbn. eexists. split; [done|]. intros s. intros (p & -> & Hs)%bind_Ok.
    destruct (negb (depth p =? 0)); [done|]. injection Hs as <-. by apply Hr.
Qed.

Lemma existsb_foreign (test : TopLevelCollection -> bool) l :
  Forall foreign_collection l -> (forall c, foreign_collection c -> test c = false) -> existsb test l = false.
Proof. intros Hl Ht. induction Hl as [|c l Hc Hl IH]; cbn; [done|]. by rewrite Ht, IH. Qed.

Lemma filter_foreign class l : Forall foreign_collection l -> class <> ClassOther -> List.filter (is_class class) l = [].
Proof.
  intros Hl Hne. induction Hl as [|c l [Hc _] Hl IH]; cbn; [done|]. unfold is_class at 1.
  rewrite bool_decide_false by congruence. done.
Qed.

Lemma classify_foreign summaries : Forall (Forall foreign_collection) summaries -> classify_summaries summaries = Err NoDigitizer.
Proof.
  intros H. assert (Hc : Forall foreign_collection (concat summaries)).
  { induction H as [|s l Hs Hl IH]; cbn; [done|]. by apply Forall_app. }
  assert (Hany : forall class, class <> ClassOther -> existsb (fun s => summary_any s class) summaries = false).
  { intros class Hne. induction H as [|s l Hs Hl IH]; cbn; [done|]. apply orb_false_iff. split.
    - apply existsb_foreign; [done|]. intros c [Hcl _]. apply bool_decide_false. congruence.
    - apply IH. cbn in Hc. by apply Forall_app in Hc as [_ ?]. }
  unfold classify_summaries. rewrite !filter_foreign by done. cbn [fold_left].
  rewrite !Hany by done. cbn [andb].
  rewrite existsb_foreign; [done|done|]. intros c [Hcl _]. unfold is_class. by rewrite bool_decide_false by congruence.
Qed.

Lemma parse_descriptors_foreign descriptors : forall summaries : list ReportDescriptorSummary,
  Forall (Forall is_u8) descriptors ->
  Forall (fun d => Forall (fun i => names_digitizer_page i = false) (items_of d)) descriptors ->
  Forall (Forall foreign_collection) summaries ->
  exists r, parse_descriptors summaries descriptors = Some r /\
    match r with Ok s => Forall (Forall foreign_collection) s | Err e => e = TooManyDescriptors \/ exists e', e = Malformed e' end.
Proof.
  induction descriptors as [|d descriptors IH]; intros summaries Hb Hi Hs; cbn [parse_descriptors]; [by eexists|].
  apply Forall_cons in Hb as [Hb Hbs]. apply Forall_cons in Hi as [Hi His].
  destruct (MAX_INTERFACES <=? len summaries); [eexists; split; [reflexivity|by left]|].
  destruct (parse_foreign d Hb Hi) as (r & -> & Hr). cbn [mbind option_bind].
  destruct r as [s|e]; [|eexists; split; [reflexivity|right; by eexists]].
  apply IH; [done|done|]. apply Forall_app. split; [done|]. constructor; [by apply Hr|done].
Qed.

(** ** Properties *)

(** The gate in front of the virtual-device boundary fails closed: a
    device whose report descriptors never put the Digitizers page or its
    vendor mirror in play (no usage-page item naming one and no four-byte
    usage on one), such as a keyboard, mouse or gamepad, is never classified
    as a pen tablet, whatever else the descriptors contain. *)
Theorem no_digitizer_page_no_tablet (descriptors : list (list Z)) :
  Forall (Forall is_u8) descriptors ->
  Forall (fun d => Forall (fun i => names_digitizer_page i = false) (items_of d)) descriptors ->
  exists e, classify_pen_tablet descriptors = Some (Err e) /\
    (e = NoDigitizer \/ e = NoDescriptors \/ e = TooManyDescriptors \/ exists e', e = Malformed e').
Proof.
  intros Hb Hi. unfold classify_pen_tablet.
  destruct (parse_descriptors_foreign descriptors [] Hb Hi ltac:(constructor)) as (r & -> & Hr).
  cbn [mbind option_bind]. destruct r as [s|e]; cbn [mbind result_bind].
  - case_bool_decide; [by exists NoDescriptors; auto|]. rewrite classify_foreign by done. by exists NoDigitizer; auto.
  - exists e. split; [done|]. destruct Hr as [->|?]; auto.
Qed.

(** The boot keyboard of the HID specification, shortened. *)
Definition keyboard_descriptor : list Z :=
  [0x05; 0x01; 0x09; 0x06; 0xA1; 0x01; 0x05; 0x07; 0x19; 0xE0; 0x29; 0xE7; 0x15; 0x00; 0x25; 0x01; 0x75; 0x01;
   0x95; 0x08; 0x81; 0x02; 0xC0].

Lemma no_digitizer_page_no_tablet_witness : exists e, classify_pen_tablet [keyboard_descriptor] = Some (Err e).
Proof.
  destruct (no_digitizer_page_no_tablet [keyboard_descriptor]) as (e & He & _).
  - constructor; [|constructor]. apply Forall_forall. intros b Hb. revert b Hb. apply Forall_forall.
    eapply (bool_decide_unpack _). vm_compute. exact I.
  - constructor; [|constructor]. eapply (bool_decide_unpack _). vm_compute. exact I.
  - by exists e.
Defined.

(** C40: Parsing a report descriptor always ends, and what it accepts is
    bounded: on any bytes the parser answers, in at most one step per byte; an
    accepted descriptor closed every collection it opened, lists at most 64
    application collections, and was neither empty nor longer than 4096
    bytes. *)
Theorem report_parser_total (bytes : list Z) :
  Forall is_u8 bytes ->
  exists r, parse_report_descriptor bytes = Some r /\
    forall s, r = Ok s ->
      0 < len bytes <= MAX_HID_REPORT_DESCRIPTOR_BYTES /\ len s <= MAX_TOP_LEVEL_COLLECTIONS /\
      exists p, parse_loop (S (length bytes)) bytes 0 parser_default = Some (Ok p) /\
        summary p = s /\ depth p = 0 /\ applications p = [].
Proof.
  intros Hb. unfold parse_report_descriptor. case_bool_decide as Hne; [by eexists|].
  destruct (Z.ltb_spec MAX_HID_REPORT_DESCRIPTOR_BYTES (len bytes)); [by eexists|].
  destruct (parse_loop_ind parser_inv bytes Hb (S (length bytes)) 0 parser_default) as (r & E & Hr).
  - intros i p p' _. apply item_inv.
  - pose proof (len_nonneg bytes). lia.
  - unfold len. lia.
  - apply parser_default_inv.
  - rewrite E. cbn. eexists. split; [reflexivity|]. intros s (p & -> & Hs)%bind_Ok.
    destruct (Z.eqb_spec (depth p) 0) as [Ed|]; cbn in Hs; [|done]. injection Hs as <-.
    destruct (Hr p eq_refl) as [_ Hn Hc _ _].
    assert (Ea : applications p = []) by (rewrite Ed in Hn; destruct (applications p) as [|a rest]; [done|cbn in Hn; lia]).
    rewrite Ea in Hc. change (len []) with 0 in Hc. split; [|split; [lia|by exists p]].
    destruct bytes; [done|]. rewrite len_cons in *. pose proof (len_nonneg bytes). lia.
Qed.

Lemma report_parser_total_witness : exists r, parse_report_descriptor keyboard_descriptor = Some r.
Proof.
  destruct (report_parser_total keyboard_descriptor) as (r & Hr & _); [|by exists r].
  eapply (bool_decide_unpack _). vm_compute. exact I.
Defined.

(** A touch surface that presents itself with application usage Digitizer:
    contact identifier, tip switch and position.  The contact identifier is
    declared by a single usage, resp. by a range of one usage. *)
Definition touch_prefix : list Z := [0x05; 0x0D; 0x09; 0x01; 0xA1; 0x01].
Definition touch_suffix : list Z :=
  [0x81; 0x02; 0x09; 0x42; 0x81; 0x02; 0x05; 0x01; 0x09; 0x30; 0x09; 0x31; 0x81; 0x02; 0xC0].
Definition touch_by_usage : list Z := touch_prefix ++ [0x09; 0x51] ++ touch_suffix.
Definition touch_by_range : list Z := touch_prefix ++ [0x19; 0x51; 0x29; 0x51] ++ touch_suffix.

(** A contact identifier declared by a usage range is not seen: the
    parser expands a range only to the recognised usages, and the list of
    those omits the contact identifier although it acts on it.  The same touch
    surface is refused as touch-only when the usage is named and accepted as a
    pen tablet when it is given as a range of one. *)
Theorem contact_identifier_range_unseen :
  classify_pen_tablet [touch_by_usage] = Some (Err TouchOnly) /\
  match classify_pen_tablet [touch_by_range] with
  | Some (Ok profile) => evidence profile = DigitizerPen
  | _ => False
  end.
Proof. split; vm_compute; reflexivity. Qed.

(** A vendor-page pen around a keyboard application, directly and through one
    more vendor-page application. *)
Definition wrapped_keyboard : list Z :=
  [0x06; 0x0D; 0xFF; 0x09; 0x02; 0xA1; 0x01; 0x05; 0x01; 0x09; 0x06; 0xA1; 0x01; 0xC0; 0xC0].
Definition doubly_wrapped_keyboard : list Z :=
  [0x06; 0x0D; 0xFF; 0x09; 0x02; 0xA1; 0x01; 0x09; 0x01; 0xA1; 0x01; 0x05; 0x01; 0x09; 0x06; 0xA1; 0x01; 0xC0; 0xC0; 0xC0].

(** A vendor-page pen is refused as a wrapper when it holds a foreign
    application directly, but only its direct children are looked at: with
    another vendor-page application in between it is accepted. *)
Theorem nested_wrapper_accepted :
  classify_pen_tablet [wrapped_keyboard] = Some (Err NoDigitizer) /\
  match classify_pen_tablet [doubly_wrapped_keyboard] with
  | Some (Ok profile) => evidence profile = VendorDigitizerPen
  | _ => False
  end.
Proof. split; vm_compute; reflexivity. Qed.
