(* ===== verification/UsbGuard.v ===== *)
(** * USB bridge: authorizing a tablet and keeping it honest

    Models [shared/usb-bridge/src/tablet_claim.rs] (the decision on a device's
    claims) and [bridged_device_guard.rs] (the check of every descriptor the
    device returns against those claims).  Maps keyed by interface or request
    are [gmap]s; only membership, size and equality of key sets are used.
    [Display] is left out. *)

From stdpp Require Import gmap.
From S2P Require Import Prelude UsbDescriptor UsbAttachment ProtocolUsb HidDigitizer.

(** ** tablet_claim.rs *)

Definition MAX_CLAIMED_REPORT_DESCRIPTOR_BYTES : Z := 12 * 1024.

Record InterfaceReportDescriptor := mkClaim { claim_interface : Z; claim_descriptor : list Z }.

Inductive HardUsbTabletDenial :=
| DenyDeviceClass (class : Z)
| DenyNoDescriptors
| DenyTooManyDescriptors
| DuplicateInterface (interface : Z)
| DescriptorTooLarge (interface : Z)
| DescriptorsTooLarge (total : Z)
| DenyNotPenTablet (reason : NotPenTablet)
| ForwardsNonPenInput (interface usage : Z).

Definition total_claimed (descriptors : list InterfaceReportDescriptor) : Z :=
  fold_left (fun total e => saturating_add usize_bits total (len (claim_descriptor e))) descriptors 0.

(** The loop over the claims, with the interfaces before the current one. *)
Fixpoint check_claims (earlier : list Z) (descriptors : list InterfaceReportDescriptor) : result HardUsbTabletDenial unit :=
  match descriptors with
  | [] => Ok tt
  | e :: rest =>
    if MAX_HID_REPORT_DESCRIPTOR_BYTES <? len (claim_descriptor e) then Err (DescriptorTooLarge (claim_interface e))
    else if bool_decide (claim_interface e ∈ earlier) then Err (DuplicateInterface (claim_interface e))
    else check_claims (earlier ++ [claim_interface e]) rest
  end.

(** The loop that refuses controllers. *)
Fixpoint check_forwarded (descriptors : list InterfaceReportDescriptor) : option (result HardUsbTabletDenial unit) :=
  match descriptors with
  | [] => Some (Ok tt)
  | e :: rest =>
    r ← disqualifying_collection (claim_descriptor e);
    match r with
    | Err error => Some (Err (DenyNotPenTablet (Malformed error)))
    | Ok (Some usage) => Some (Err (ForwardsNonPenInput (claim_interface e) usage))
    | Ok None => check_forwarded rest
    end
  end.

Definition authorize_hard_usb_tablet (device_class : Z) (descriptors : list InterfaceReportDescriptor)
  : option (result HardUsbTabletDenial PenTabletProfile) :=
  if negb (device_class =? 0x00) && negb (device_class =? 0x03) then Some (Err (DenyDeviceClass device_class))
  else match descriptors with
  | [] => Some (Err DenyNoDescriptors)
  | _ =>
    if MAX_INTERFACES <? len descriptors then Some (Err DenyTooManyDescriptors)
    else
      let total := total_claimed descriptors in
      if MAX_CLAIMED_REPORT_DESCRIPTOR_BYTES <? total then Some (Err (DescriptorsTooLarge total))
      else
        match check_claims [] descriptors with
        | Err e => Some (Err e)
        | Ok _ =>
          r ← classify_pen_tablet (map claim_descriptor descriptors);
          match r with
          | Err e => Some (Err (DenyNotPenTablet e))
          | Ok profile =>
            f ← check_forwarded descriptors;
            Some (_ ← f; Ok profile)
          end
        end
  end.

(** ** bridged_device_guard.rs *)

Definition REQUEST_TYPE_STANDARD_DEVICE_IN : Z := 0x80.
Definition REQUEST_TYPE_STANDARD_INTERFACE_IN : Z := 0x81.
Definition REQUEST_GET_DESCRIPTOR : Z := 0x06.
Definition DESCRIPTOR_DEVICE : Z := 0x01.
Definition DESCRIPTOR_DEVICE_QUALIFIER : Z := 0x06.
Definition DESCRIPTOR_OTHER_SPEED_CONFIGURATION : Z := 0x07.
Definition DEVICE_DESCRIPTOR_LENGTH : Z := 18.
Definition DEVICE_QUALIFIER_LENGTH : Z := 10.
Definition CONFIGURATION_HEADER_LENGTH : Z := 9.
Definition USB_CLASS_PER_INTERFACE : Z := 0x00.
Definition USB_CLASS_HID : Z := 0x03.

Inductive DeviceDescriptorViolation :=
| DeviceMalformed | DeviceClass (class : Z) | DeviceIdentity | ConfigurationCount (count : Z).

Inductive ConfigurationViolation :=
| ConfigurationMalformed
| Unparseable (e : DescriptorError)
| ConfigurationTooLarge (total : Z)
| InterfaceCount (declared authorized : Z)
| NotHid (interface class : Z)
| InterfaceSet
| HidClassDescriptor (interface : Z) (e : HidClassDescriptorError)
| ViolatedReportLength (interface : Z) (declared : option Z) (authorized : Z).

Inductive BridgedDeviceViolation :=
| TooManyPending
| ReportUnclaimed (interface : Z)
| ReportMismatch (interface : Z)
| ReportTruncated (interface returned expected : Z)
| ViolatedDevice (v : DeviceDescriptorViolation)
| ViolatedConfiguration (v : ConfigurationViolation).

Definition check_byte (payload : list Z) (offset : Z) (accept : Z -> bool) : result DeviceDescriptorViolation unit :=
  match read_at payload offset with
  | Some byte => if negb (accept byte) then Err DeviceMalformed else Ok tt
  | None => Ok tt
  end.

Definition check_class (payload : list Z) : result DeviceDescriptorViolation unit :=
  match read_at payload 4 with
  | Some class => if negb (class =? USB_CLASS_PER_INTERFACE) && negb (class =? USB_CLASS_HID) then Err (DeviceClass class) else Ok tt
  | None => Ok tt
  end.

Definition device_field (payload : list Z) (offset : Z) : Z :=
  from_le [byte_at payload offset; byte_at payload (offset + 1)].

Definition validate_device_descriptor (payload : list Z) (identity : UsbDeviceId) : result DeviceDescriptorViolation unit :=
  if DEVICE_DESCRIPTOR_LENGTH <? len payload then Err DeviceMalformed
  else
    _ ← check_byte payload 0 (fun length => length =? DEVICE_DESCRIPTOR_LENGTH);
    _ ← check_byte payload 1 (fun kind => kind =? DESCRIPTOR_DEVICE);
    _ ← check_class payload;
    if len payload =? DEVICE_DESCRIPTOR_LENGTH then
      if negb (device_field payload 8 =? vendor_id identity) || negb (device_field payload 10 =? product_id identity)
         || negb (device_field payload 12 =? bcd_device identity)
      then Err DeviceIdentity
      else if negb (byte_at payload 17 =? 1) then Err (ConfigurationCount (byte_at payload 17))
      else Ok tt
    else Ok tt.

Definition validate_device_qualifier (payload : list Z) : result DeviceDescriptorViolation unit :=
  if DEVICE_QUALIFIER_LENGTH <? len payload then Err DeviceMalformed
  else
    _ ← check_byte payload 0 (fun length => length =? DEVICE_QUALIFIER_LENGTH);
    _ ← check_byte payload 1 (fun kind => kind =? DESCRIPTOR_DEVICE_QUALIFIER);
    _ ← check_class payload;
    match read_at payload 8 with
    | Some count => if 1 <? count then Err (ConfigurationCount count) else Ok tt
    | None => Ok tt
    end.

(** (interface, declared length, HID descriptors seen) per interface
    descriptor, in order. *)
Definition ReportEntry : Type := Z * option Z * Z.

(** [entries.last_mut()] and what the HID descriptor does to it. *)
Fixpoint note_hid (entries : list ReportEntry) (descriptor : list Z) : result ConfigurationViolation (list ReportEntry) :=
  match entries with
  | [] => Err ConfigurationMalformed
  | [(interface, _, seen)] =>
    match parse_hid_class_descriptor descriptor with
    | Ok declared => Ok [(interface, Some declared, seen + 1)]
    | Err error => Err (HidClassDescriptor interface error)
    end
  | entry :: entries => rest ← note_hid entries descriptor; Ok (entry :: rest)
  end.

Definition note_descriptor (entries : list ReportEntry) (descriptor : list Z)
  : result ConfigurationViolation (list ReportEntry) :=
  let ty := byte_at descriptor 1 in
  if (ty =? DESCRIPTOR_INTERFACE) && (3 <=? len descriptor) then Ok (entries ++ [(byte_at descriptor 2, None, 0)])
  else if ty =? DESCRIPTOR_HID then note_hid entries descriptor
  else Ok entries.

Fixpoint report_entries (fuel : nat) (bytes : list Z) (offset : Z) (entries : list ReportEntry)
  : option (result ConfigurationViolation (list ReportEntry)) :=
  match fuel with
  | O => None
  | S fuel =>
    if offset + 1 <? len bytes then
      let length := byte_at bytes offset in
      if (length <? 2) || (len bytes <? offset + length) then Some (Err ConfigurationMalformed)
      else
        match note_descriptor entries (slice bytes offset (offset + length)) with
        | Err e => Some (Err e)
        | Ok entries => report_entries fuel bytes (offset + length) entries
        end
    else Some (Ok entries)
  end.

Definition check_entry (authorized : gmap Z Z) (entry : ReportEntry) : result ConfigurationViolation unit :=
  let '(interface, declared, seen) := entry in
  let expected := default (umax usize_bits) (authorized !! interface) in
  if negb (seen =? 1) || negb (bool_decide (declared = Some expected))
  then Err (ViolatedReportLength interface (if seen =? 1 then declared else None) expected)
  else Ok tt.

Definition check_report_lengths (bytes : list Z) (authorized : gmap Z Z) : option (result ConfigurationViolation unit) :=
  r ← report_entries (S (length bytes)) bytes 0 [];
  Some (entries ← r; forM_err (check_entry authorized) entries).

Definition check_hid_class (i : InterfaceDescriptor) : result ConfigurationViolation unit :=
  guard_err (negb (if_class i =? USB_CLASS_HID)) (NotHid (if_number i) (if_class i)).

(** The checks of the header, as far as it was read. *)
Definition check_configuration_header (payload : list Z) (descriptor_type : Z) (authorized : gmap Z Z)
  : result ConfigurationViolation unit :=
  if match read_at payload 0 with Some length => negb (length =? CONFIGURATION_HEADER_LENGTH) | None => false end
     || match read_at payload 1 with Some kind => negb (kind =? descriptor_type) | None => false end
  then Err ConfigurationMalformed
  else
    _ ← (if 4 <=? len payload then
           let total := from_le [byte_at payload 2; byte_at payload 3] in
           if MAX_CONFIGURATION_DESCRIPTOR_BYTES <? total then Err (ConfigurationTooLarge total)
           else if total <? CONFIGURATION_HEADER_LENGTH then Err ConfigurationMalformed
           else if (CONFIGURATION_HEADER_LENGTH <? len payload) && negb (len payload =? total) then Err ConfigurationMalformed
           else Ok tt
         else Ok tt);
    match read_at payload 4 with
    | Some declared =>
      if negb (declared =? Z.of_nat (size authorized)) then Err (InterfaceCount declared (Z.of_nat (size authorized))) else Ok tt
    | None => Ok tt
    end.

(** The checks of a whole configuration, its type byte normalized. *)
Definition validate_whole_configuration (normalized : list Z) (authorized : gmap Z Z)
  : option (result ConfigurationViolation unit) :=
  r ← parse_configuration_descriptor normalized;
  match r with
  | Err e => Some (Err (Unparseable e))
  | Ok parsed =>
    match forM_err check_hid_class (interfaces parsed) with
    | Err e => Some (Err e)
    | Ok _ =>
      let numbers : gset Z := list_to_set (map if_number (interfaces parsed)) in
      if negb (bool_decide (numbers = dom authorized)) then Some (Err InterfaceSet)
      else check_report_lengths normalized authorized
    end
  end.

Definition validate_configuration_descriptor (payload : list Z) (descriptor_type : Z) (authorized : gmap Z Z)
  : option (result ConfigurationViolation unit) :=
  match check_configuration_header payload descriptor_type authorized with
  | Err e => Some (Err e)
  | Ok _ =>
    if len payload <=? CONFIGURATION_HEADER_LENGTH then Some (Ok tt)
    else validate_whole_configuration (<[1%nat := DESCRIPTOR_CONFIGURATION]> payload) authorized
  end.

Inductive Requested :=
| RequestedDevice
| RequestedDeviceQualifier
| RequestedConfiguration (kind : Z)
| RequestedReport (interface length : Z).

(** [SetupPacket::descriptor_type] of [types.rs]. *)
Definition descriptor_type (s : SetupPacket) : Z := Z.land (Z.shiftr (setup_value s) 8) 0xFF.

Definition requested_report_descriptor_interface (s : SetupPacket) : option Z :=
  if (request_type s =? REQUEST_TYPE_STANDARD_INTERFACE_IN) && (request s =? REQUEST_GET_DESCRIPTOR)
     && (descriptor_type s =? DESCRIPTOR_HID_REPORT) && (setup_index s <=? 0xFF)
  then Some (Z.land (setup_index s) 0xFF) else None.

Definition hid_report_descriptor_request (interface length : Z) : SetupPacket :=
  mkSetup REQUEST_TYPE_STANDARD_INTERFACE_IN REQUEST_GET_DESCRIPTOR (Z.shiftl DESCRIPTOR_HID_REPORT 8) interface length.

Definition requested (s : SetupPacket) : option Requested :=
  match requested_report_descriptor_interface s with
  | Some interface => Some (RequestedReport interface (setup_length s))
  | None =>
    if negb (request_type s =? REQUEST_TYPE_STANDARD_DEVICE_IN) || negb (request s =? REQUEST_GET_DESCRIPTOR) then None
    else
      let kind := descriptor_type s in
      if kind =? DESCRIPTOR_DEVICE then Some RequestedDevice
      else if kind =? DESCRIPTOR_DEVICE_QUALIFIER then Some RequestedDeviceQualifier
      else if (kind =? DESCRIPTOR_CONFIGURATION) || (kind =? DESCRIPTOR_OTHER_SPEED_CONFIGURATION)
      then Some (RequestedConfiguration kind)
      else None
  end.

Record BridgedDeviceGuard := mkGuard {
  guard_identity : UsbDeviceId;
  guard_claims : list InterfaceReportDescriptor;
  report_lengths : gmap Z Z;
  guard_pending : gmap Z Requested
}.

(** [collect] into a map keeps the last value of a key. *)
Definition Guard_new (identity : UsbDeviceId) (claims : list InterfaceReportDescriptor) : BridgedDeviceGuard :=
  mkGuard identity claims
    (list_to_map (rev (map (fun c => (claim_interface c, len (claim_descriptor c))) claims))) ∅.

Definition set_pending (g : BridgedDeviceGuard) (p : gmap Z Requested) : BridgedDeviceGuard :=
  mkGuard (guard_identity g) (guard_claims g) (report_lengths g) p.

Definition observe_submit (g : BridgedDeviceGuard) (urb_id : Z) (setup : option SetupPacket)
  : BridgedDeviceGuard * result BridgedDeviceViolation unit :=
  match setup ≫= requested with
  | None => (g, Ok tt)
  | Some r =>
    if (MAX_IN_FLIGHT_URBS <=? Z.of_nat (size (guard_pending g))) && negb (is_some (guard_pending g !! urb_id))
    then (g, Err TooManyPending)
    else (set_pending g (<[urb_id := r]> (guard_pending g)), Ok tt)
  end.

Definition observe_cancel (g : BridgedDeviceGuard) (urb_id : Z) : BridgedDeviceGuard :=
  set_pending g (delete urb_id (guard_pending g)).

(** [slice::starts_with]. *)
Definition starts_with (l prefix : list Z) : bool := bool_decide (take (length prefix) l = prefix).

Definition claim_of (claims : list InterfaceReportDescriptor) (interface : Z) : option InterfaceReportDescriptor :=
  snd <$> list_find (fun c => claim_interface c = interface) claims.

Definition map_violation {E A} (f : E -> BridgedDeviceViolation) (r : result E A) : result BridgedDeviceViolation A :=
  match r with Ok a => Ok a | Err e => Err (f e) end.

Definition check_report (claims : list InterfaceReportDescriptor) (interface length : Z) (payload : list Z)
  : result BridgedDeviceViolation unit :=
  match claim_of claims interface with
  | None => Err (ReportUnclaimed interface)
  | Some claim =>
    if negb (starts_with (claim_descriptor claim) payload) then Err (ReportMismatch interface)
    else
      let expected := Z.min (len (claim_descriptor claim)) length in
      if len payload =? expected then Ok tt else Err (ReportTruncated interface (len payload) expected)
  end.

Definition check_completion (g : BridgedDeviceGuard) (urb_id : Z) (success : bool) (payload : list Z)
  : option (BridgedDeviceGuard * result BridgedDeviceViolation unit) :=
  match guard_pending g !! urb_id with
  | None => Some (g, Ok tt)
  | Some r =>
    let g := set_pending g (delete urb_id (guard_pending g)) in
    if negb success then Some (g, Ok tt)
    else match r with
    | RequestedDevice => Some (g, map_violation ViolatedDevice (validate_device_descriptor payload (guard_identity g)))
    | RequestedDeviceQualifier => Some (g, map_violation ViolatedDevice (validate_device_qualifier payload))
    | RequestedConfiguration kind =>
      v ← validate_configuration_descriptor payload kind (report_lengths g);
      Some (g, map_violation ViolatedConfiguration v)
    | RequestedReport interface length => Some (g, check_report (guard_claims g) interface length payload)
    end
  end.

(** ** An honest configuration *)

Definition is_interface_record (rec : list Z) : bool := (byte_at rec 1 =? DESCRIPTOR_INTERFACE) && (3 <=? len rec).
Definition is_hid_record (rec : list Z) : bool := byte_at rec 1 =? DESCRIPTOR_HID.

(** The records before the first interface, and each interface with the
    records up to the next one. *)
Fixpoint interface_groups (recs : list (list Z)) : list (list Z) * list (list Z * list (list Z)) :=
  match recs with
  | [] => ([], [])
  | rec :: recs =>
    let '(lead, groups) := interface_groups recs in
    if is_interface_record rec then ([], (rec, lead) :: groups) else (rec :: lead, groups)
  end.

(** Each interface (and alternate setting) has exactly one HID class
    descriptor, whose report length is the authorized one. *)
Definition report_layout_ok (authorized : gmap Z Z) (recs : list (list Z)) : Prop :=
  let '(lead, groups) := interface_groups recs in
  List.filter is_hid_record lead = [] /\
  Forall (fun '(interface, body) => exists d n, List.filter is_hid_record body = [d] /\
    parse_hid_class_descriptor d = Ok n /\ authorized !! byte_at interface 2 = Some n) groups.

Definition configuration_honest (payload : list Z) (kind : Z) (authorized : gmap Z Z) : Prop :=
  exists b2 b3 value b6 b7 b8 recs st,
    payload = [9; kind; b2; b3; Z.of_nat (size authorized); value; b6; b7; b8] ++ concat recs /\
    from_le [b2; b3] = len payload /\ len payload <= MAX_CONFIGURATION_DESCRIPTOR_BYTES /\
    Forall is_record recs /\ apply_records recs (mkParseState [] 0) = Some st /\ ps_interfaces st <> [] /\
    Forall (fun i => if_class i = USB_CLASS_HID) (ps_interfaces st) /\
    list_to_set (map if_number (ps_interfaces st)) = dom authorized /\
    report_layout_ok authorized recs.

(** ** Lemmas: report lengths *)

Fixpoint note_records (entries : list ReportEntry) (recs : list (list Z)) : result ConfigurationViolation (list ReportEntry) :=
  match recs with
  | [] => Ok entries
  | rec :: recs => entries ← note_descriptor entries rec; note_records entries recs
  end.

Lemma record_slice (pre rec post : list Z) : slice (pre ++ rec ++ post) (len pre) (len pre + len rec) = rec.
Proof.
  unfold slice, len. replace (Z.to_nat (Z.of_nat (length pre))) with (length pre) by lia.
  rewrite drop_app_length.
  replace (Z.to_nat _) with (length rec) by lia. by rewrite take_app_length.
Qed.

Lemma record_first (pre rec post : list Z) : is_record rec -> byte_at (pre ++ rec ++ post) (len pre) = len rec.
Proof.
  intros [Hr Hl]. pose proof (read_at_app pre rec post 0 ltac:(lia)) as H. rewrite Z.add_0_r, Hr in H.
  unfold read_at in H. destruct (len pre <? 0); [done|]. unfold byte_at. by apply nth_lookup_Some.
Qed.

Lemma report_entries_records recs : forall fuel pre entries,
  Forall is_record recs -> (length recs < fuel)%nat ->
  report_entries fuel (pre ++ concat recs) (len pre) entries = Some (note_records entries recs).
Proof.
  induction recs as [|rec recs IH]; intros fuel pre entries Hr Hf; (destruct fuel as [|fuel]; [cbn in Hf; lia|]);
    cbn [report_entries note_records concat].
  - rewrite app_nil_r. destruct (Z.ltb_spec (len pre + 1) (len pre)); [lia|done].
  - apply Forall_cons in Hr as [Hrec Hr]. pose proof Hrec as [_ Hl2].
    pose proof (len_nonneg (concat recs)). rewrite !len_app.
    destruct (Z.ltb_spec (len pre + 1) (len pre + (len rec + len (concat recs)))); [|lia].
    rewrite record_first by done. cbv zeta.
    destruct (Z.ltb_spec (len rec) 2); [lia|]. cbn [orb].
    destruct (Z.ltb_spec (len pre + (len rec + len (concat recs))) (len pre + len rec)); [lia|].
    rewrite record_slice. destruct (note_descriptor entries rec) as [entries'|e]; cbn [mbind result_bind]; [|done].
    rewrite app_assoc, <- len_app. apply IH; [done|]. cbn in Hf. lia.
Qed.

(** One interface's entry after the records of its body. *)
Fixpoint body_entry (interface : Z) (declared : option Z) (seen : Z) (body : list (list Z))
  : result ConfigurationViolation ReportEntry :=
  match body with
  | [] => Ok (interface, declared, seen)
  | d :: body =>
    if is_hid_record d then
      match parse_hid_class_descriptor d with
      | Ok n => body_entry interface (Some n) (seen + 1) body
      | Err e => Err (HidClassDescriptor interface e)
      end
    else body_entry interface declared seen body
  end.

Fixpoint group_entries (groups : list (list Z * list (list Z))) : result ConfigurationViolation (list ReportEntry) :=
  match groups with
  | [] => Ok []
  | (i, body) :: groups => e ← body_entry (byte_at i 2) None 0 body; rest ← group_entries groups; Ok (e :: rest)
  end.

Lemma note_hid_snoc pre i dcl s d :
  note_hid (pre ++ [(i, dcl, s)]) d =
  match parse_hid_class_descriptor d with
  | Ok n => Ok (pre ++ [(i, Some n, s + 1)])
  | Err e => Err (HidClassDescriptor i e)
  end.
Proof.
  induction pre as [|e pre IH]; cbn [app note_hid]; [by destruct (parse_hid_class_descriptor d)|].
  destruct e as [[? ?] ?]. destruct (pre ++ [(i, dcl, s)]) as [|x l] eqn:E; [by destruct pre|].
  rewrite IH. by destruct (parse_hid_class_descriptor d).
Qed.

Lemma note_records_spec recs : forall pre i dcl s,
  note_records (pre ++ [(i, dcl, s)]) recs =
  (e ← body_entry i dcl s (interface_groups recs).1;
   rest ← group_entries (interface_groups recs).2; Ok (pre ++ e :: rest)).
Proof.
  induction recs as [|rec recs IH]; intros pre i dcl s; cbn [note_records interface_groups]; [done|].
  unfold note_descriptor. fold (is_interface_record rec). fold (is_hid_record rec).
  destruct (interface_groups recs) as [lead groups] eqn:Eg. cbn [fst snd] in IH.
  destruct (is_interface_record rec) eqn:Ei; cbn [fst snd].
  - cbn [mbind result_bind body_entry group_entries]. rewrite IH.
    destruct (body_entry (byte_at rec 2) None 0 lead) as [e|err]; cbn [mbind result_bind]; [|done].
    destruct (group_entries groups); cbn [mbind result_bind]; [|done]. by rewrite <- app_assoc.
  - cbn [body_entry]. destruct (is_hid_record rec).
    + rewrite note_hid_snoc. destruct (parse_hid_class_descriptor rec) as [n|e]; cbn [mbind result_bind]; [apply IH|done].
    + cbn [mbind result_bind]. apply IH.
Qed.

Lemma note_records_none recs :
  match List.filter is_hid_record (interface_groups recs).1 with
  | [] => note_records [] recs = group_entries (interface_groups recs).2
  | _ => exists e, note_records [] recs = Err e
  end.
Proof.
  induction recs as [|rec recs IH]; cbn [note_records interface_groups]; [done|].
  unfold note_descriptor. fold (is_interface_record rec). fold (is_hid_record rec).
  destruct (interface_groups recs) as [lead groups] eqn:Eg. cbn [fst snd] in IH.
  destruct (is_interface_record rec) eqn:Ei; cbn [fst snd List.filter].
  - cbn [mbind result_bind app group_entries]. change [(byte_at rec 2, None, 0)] with ([] ++ [(byte_at rec 2, @None Z, 0)]).
    rewrite note_records_spec, Eg. done.
  - destruct (is_hid_record rec); [by eexists|]. exact IH.
Qed.

(** An entry passes when its body holds exactly one HID descriptor, with the
    authorized length. *)
Lemma body_entry_ok authorized i body :
  (exists e, body_entry i None 0 body = Ok e /\ check_entry authorized e = Ok tt) <->
  exists d n, List.filter is_hid_record body = [d] /\ parse_hid_class_descriptor d = Ok n /\ authorized !! i = Some n.
Proof.
  assert (Hcount : forall body dcl s e, body_entry i dcl s body = Ok e -> e.1.1 = i /\ e.2 = s + len (List.filter is_hid_record body)).
  { clear body. induction body as [|d body IH]; intros dcl s e; cbn [body_entry List.filter].
    - intros [= <-]. cbn. change (len []) with 0. split; [done|lia].
    - destruct (is_hid_record d); [|apply IH].
      destruct (parse_hid_class_descriptor d); [|done]. intros H. apply IH in H as [? ?]. rewrite len_cons. split; [done|lia]. }
  assert (Hskip : forall body dcl s, List.filter is_hid_record body = [] -> body_entry i dcl s body = Ok (i, dcl, s)).
  { clear body. induction body as [|d body IH]; intros dcl s; cbn [body_entry List.filter]; [done|].
    destruct (is_hid_record d); [done|]. apply IH. }
  assert (Hone : forall body s d, List.filter is_hid_record body = [d] -> body_entry i None s body =
    match parse_hid_class_descriptor d with Ok n => Ok (i, Some n, s + 1) | Err e => Err (HidClassDescriptor i e) end).
  { clear body. induction body as [|d body IH]; intros s d0; cbn [body_entry List.filter]; [done|].
    destruct (is_hid_record d); [|apply IH]. intros [= <- Hf].
    destruct (parse_hid_class_descriptor d); [|done]. by apply Hskip. }
  assert (Hlen : forall d n, parse_hid_class_descriptor d = Ok n -> n <= MAX_HID_REPORT_DESCRIPTOR_BYTES).
  { intros d n. unfold parse_hid_class_descriptor. destruct (_ || _ || _); [done|]. destruct (_ || _ || _); [done|].
    destruct (omap _ _) as [|l [|? ?]]; [done| |done].
    destruct (Z.eqb_spec l 0); cbn [orb]; [done|]. destruct (Z.ltb_spec MAX_HID_REPORT_DESCRIPTOR_BYTES l); [done|].
    by intros [= <-]. }
  split.
  - intros ([[i' dcl] seen] & He & Hc). pose proof (Hcount _ _ _ _ He) as [Hi Hs]. cbn in Hi, Hs. subst i'.
    unfold check_entry in Hc. destruct (Z.eqb_spec seen 1) as [E1|]; cbn [negb orb] in Hc; [|done].
    case_bool_decide as Hd; cbn [negb] in Hc; [|done].
    destruct (List.filter is_hid_record body) as [|d [|d2 ds]] eqn:Ef; rewrite ?len_cons in Hs.
    + change (len []) with 0 in Hs. lia.
    + rewrite (Hone _ _ _ Ef) in He. destruct (parse_hid_class_descriptor d) as [n|] eqn:Ep; [|done].
      exists d, n. injection He as <-. split; [done|]. split; [done|].
      destruct (authorized !! i) as [m|]; cbn in Hd; [congruence|].
      injection Hd as ->. pose proof (Hlen _ _ Ep) as Hle. by vm_compute in Hle.
    + pose proof (len_nonneg ds). cbn in Hs. unfold len in *. cbn in Hs. lia.
  - intros (d & n & Ef & Ep & Ha). exists (i, Some n, 0 + 1). rewrite (Hone _ _ _ Ef), Ep. split; [done|].
    unfold check_entry. rewrite Ha. cbn. by rewrite bool_decide_true.
Qed.

Lemma group_entries_ok authorized groups :
  (exists es, group_entries groups = Ok es /\ forM_err (check_entry authorized) es = Ok tt) <->
  Forall (fun '(interface, body) => exists d n, List.filter is_hid_record body = [d] /\
    parse_hid_class_descriptor d = Ok n /\ authorized !! byte_at interface 2 = Some n) groups.
Proof.
  induction groups as [|[i body] groups IH]; cbn [group_entries]; [split; [constructor|]; intros _; by exists []|].
  rewrite Forall_cons, <- IH, <- body_entry_ok. split.
  - intros (es & (e & He & (rest & Hr & [= <-])%bind_Ok)%bind_Ok & Hc). cbn in Hc. apply unit_bind_Ok in Hc as [? ?].
    split; [by exists e|by exists rest].
  - intros [(e & He & Hc) (rest & Hr & Hcr)]. exists (e :: rest). rewrite He, Hr. cbn. by rewrite Hc.
Qed.

Lemma check_report_lengths_ok hdr recs authorized :
  Forall is_record (hdr :: recs) -> is_interface_record hdr = false -> is_hid_record hdr = false ->
  exists r, check_report_lengths (hdr ++ concat recs) authorized = Some r /\
    (r = Ok tt <-> report_layout_ok authorized recs).
Proof.
  intros Hr Hi Hh. unfold check_report_lengths.
  pose proof (report_entries_records (hdr :: recs) (S (length (hdr ++ concat recs))) [] [] Hr) as H.
  cbn [concat app] in H. change (len []) with 0 in H. rewrite H.
  - cbn [mbind option_bind]. eexists. split; [reflexivity|]. cbn [note_records]. unfold note_descriptor.
    fold (is_interface_record hdr). fold (is_hid_record hdr). rewrite Hi, Hh. cbn [mbind result_bind].
    unfold report_layout_ok. pose proof (note_records_none recs) as Hn.
    destruct (interface_groups recs) as [lead groups]. cbn [fst snd] in Hn.
    rewrite <- group_entries_ok. destruct (List.filter is_hid_record lead) as [|x l].
    + rewrite Hn. destruct (group_entries groups) as [es|e]; cbn [mbind result_bind]; [|naive_solver].
      split; [intros ?; split; [done|by exists es]|by intros [_ (? & [= <-] & ?)]].
    + destruct Hn as [e ->]. naive_solver.
  - clear -Hr. assert (forall l, Forall is_record l -> (length l <= length (concat l))%nat) as Hl.
    { induction 1 as [|r l [_ Hr'] _ IH]; [done|]. cbn [concat length]. rewrite length_app. unfold len in Hr'. lia. }
    apply Hl in Hr. cbn [concat] in Hr. lia.
Qed.

(** ** Lemmas: the configuration *)

Lemma header_check_ok p0 p1 p2 p3 p4 rest kind authorized :
  let payload := p0 :: p1 :: p2 :: p3 :: p4 :: rest in
  CONFIGURATION_HEADER_LENGTH < len payload ->
  check_configuration_header payload kind authorized = Ok tt <->
  p0 = 9 /\ p1 = kind /\ from_le [p2; p3] = len payload /\ len payload <= MAX_CONFIGURATION_DESCRIPTOR_BYTES /\
  p4 = Z.of_nat (size authorized).
Proof.
  intros payload Hl. unfold check_configuration_header.
  change (read_at payload 0) with (Some p0). change (read_at payload 1) with (Some p1).
  change (read_at payload 4) with (Some p4). change (byte_at payload 2) with p2. change (byte_at payload 3) with p3.
  unfold CONFIGURATION_HEADER_LENGTH, MAX_CONFIGURATION_DESCRIPTOR_BYTES in *. cbv zeta.
  destruct (Z.eqb_spec p0 9); cbn [negb orb]; [|naive_solver].
  destruct (Z.eqb_spec p1 kind); cbn [negb]; [|naive_solver].
  destruct (Z.leb_spec 4 (len payload)); [|lia].
  destruct (Z.ltb_spec (4 * 1024) (from_le [p2; p3])); cbn [mbind result_bind]; [split; [done|lia]|].
  destruct (Z.ltb_spec (from_le [p2; p3]) 9); cbn [mbind result_bind]; [split; [done|lia]|].
  destruct (Z.ltb_spec 9 (len payload)); [|lia]. cbn [andb].
  destruct (Z.eqb_spec (len payload) (from_le [p2; p3])); cbn [negb mbind result_bind]; [|split; [done|lia]].
  destruct (Z.eqb_spec p4 (Z.of_nat (size authorized))); cbn [negb]; [|split; [done|lia]].
  split; [intros _; split_and!; try done; lia|done].
Qed.

Lemma check_hid_class_ok ifs :
  forM_err check_hid_class ifs = Ok tt <-> Forall (fun i => if_class i = USB_CLASS_HID) ifs.
Proof.
  rewrite forM_err_Ok. apply Forall_iff. intros i. unfold check_hid_class. rewrite guard_err_Ok, negb_false_iff.
  apply Z.eqb_eq.
Qed.

Lemma from_le_pair a b : from_le [a; b] = a + 256 * (b + 256 * 0).
Proof. done. Qed.

(** The header of the normalized configuration, as the first record. *)
Lemma normalized_header b2 b3 b4 value b6 b7 b8 :
  let hdr := [9; DESCRIPTOR_CONFIGURATION; b2; b3; b4; value; b6; b7; b8] in
  is_record hdr /\ is_interface_record hdr = false /\ is_hid_record hdr = false.
Proof. split; [by split|done]. Qed.

(** What the records after the header must be. *)
Definition records_honest (body : list Z) (authorized : gmap Z Z) : Prop :=
  exists recs st, body = concat recs /\ Forall is_record recs /\
    apply_records recs (mkParseState [] 0) = Some st /\ ps_interfaces st <> [] /\
    Forall (fun i => if_class i = USB_CLASS_HID) (ps_interfaces st) /\
    list_to_set (map if_number (ps_interfaces st)) = dom authorized /\ report_layout_ok authorized recs.

Lemma whole_configuration_ok hdr b2 b3 b4 value b6 b7 b8 body authorized :
  hdr = [9; DESCRIPTOR_CONFIGURATION; b2; b3; b4; value; b6; b7; b8] ->
  from_le [b2; b3] = 9 + len body -> 9 + len body <= MAX_CONFIGURATION_DESCRIPTOR_BYTES ->
  exists r, validate_whole_configuration (hdr ++ body) authorized = Some r /\
    (r = Ok tt <-> records_honest body authorized).
Proof.
  intros Ehdr Htotal Hmax. unfold validate_whole_configuration, records_honest.
  destruct (normalized_header b2 b3 b4 value b6 b7 b8) as (Hrec & Hni & Hnh). rewrite <- Ehdr in Hrec, Hni, Hnh.
  assert (Hl9 : len hdr = 9) by (by rewrite Ehdr).
  destruct (parse_sound (hdr ++ body)) as (r & Ep & Hr). rewrite Ep. cbn [mbind option_bind].
  (* however the body splits into accepted records, the parser returns their interfaces *)
  assert (Hparse : forall recs st, body = concat recs -> Forall is_record recs ->
    apply_records recs (mkParseState [] 0) = Some st -> ps_interfaces st <> [] -> r = Ok (mkParsed value (ps_interfaces st))).
  { intros recs st E H1 H2 H3.
    assert (Hh : is_header hdr (9 + len (concat recs)) value) by (exists b2, b3, b4, b6, b7, b8; split; [done|by rewrite <- E]).
    pose proof (parse_complete hdr recs [] value st Hh) as H4. rewrite app_nil_r, <- E, Ep in H4.
    apply (inj Some), H4; [rewrite len_app; lia|done..]. }
  destruct r as [parsed|e].
  2:{ eexists. split; [done|]. split; [done|]. intros (recs & st & E & H1 & H2 & H3 & _). by discriminate (Hparse recs st E H1 H2 H3). }
  destruct (Hr parsed eq_refl) as (hdr' & recs & post & st & E & (c2 & c3 & c4 & c6 & c7 & c8 & -> & Eb) & _ & H1 & H2 & H3 & H4).
  rewrite Ehdr in E. injection E as -> -> _ _ _ _ _ E.
  assert (post = []) as -> by (apply (len_0_nil post); pose proof (f_equal len E) as El; rewrite len_app in El; lia).
  rewrite app_nil_r in E.
  assert (Hsame : forall recs st, body = concat recs -> Forall is_record recs ->
    apply_records recs (mkParseState [] 0) = Some st -> ps_interfaces st <> [] -> ps_interfaces st = interfaces parsed).
  { intros recs' st' E' H1' H2' H3'. by injection (Hparse recs' st' E' H1' H2' H3') as ->. }
  destruct (forM_err check_hid_class (interfaces parsed)) as [[]|e] eqn:Eh.
  2:{ eexists. split; [done|]. split; [done|]. intros (recs' & st' & E' & H1' & H2' & H3' & Hhid & _).
      apply check_hid_class_ok in Hhid. rewrite (Hsame recs' st' E' H1' H2' H3') in Hhid. congruence. }
  case_bool_decide as Hset; cbn [negb].
  2:{ eexists. split; [done|]. split; [done|]. intros (recs' & st' & E' & H1' & H2' & H3' & _ & Hset' & _).
      rewrite (Hsame recs' st' E' H1' H2' H3') in Hset'. done. }
  destruct (check_report_lengths_ok hdr recs authorized (Forall_cons_2 _ _ _ Hrec H1) Hni Hnh) as (rr & Erl & Hrr).
  rewrite <- E in Erl. rewrite Erl. eexists. split; [reflexivity|]. rewrite Hrr. split.
  - intros Hlay. apply check_hid_class_ok in Eh. rewrite <- H3 in *. by exists recs, st.
  - intros (recs' & st' & E' & H1' & _ & _ & _ & _ & Hlay').
    destruct (check_report_lengths_ok hdr recs' authorized (Forall_cons_2 _ _ _ Hrec H1') Hni Hnh) as (rr' & Erl' & Hrr').
    rewrite <- E', Erl in Erl'. injection Erl' as <-. by apply Hrr, Hrr'.
Qed.

Lemma configuration_validation (payload : list Z) (kind : Z) (authorized : gmap Z Z) :
  CONFIGURATION_HEADER_LENGTH < len payload ->
  exists r, validate_configuration_descriptor payload kind authorized = Some r /\
    (r = Ok tt <-> configuration_honest payload kind authorized).
Proof.
  intros Hl. unfold CONFIGURATION_HEADER_LENGTH in Hl.
  do 9 (destruct payload as [|? payload]; [unfold len in Hl; cbn in Hl; lia|]).
  rename z into p0, z0 into p1, z1 into p2, z2 into p3, z3 into p4, z4 into p5, z5 into p6, z6 into p7, z7 into p8.
  set (full := p0 :: _) in *. unfold validate_configuration_descriptor.
  pose proof (header_check_ok p0 p1 p2 p3 p4 (p5 :: p6 :: p7 :: p8 :: payload) kind authorized Hl) as Hh. cbv zeta in Hh.
  fold full in Hh. destruct (check_configuration_header full kind authorized) as [[]|e].
  2:{ eexists. split; [done|]. split; [done|]. intros (b2 & b3 & value & b6 & b7 & b8 & recs & st & E & Ht & Hm & _).
      exfalso. assert (Err e = Ok tt) as [=]. apply Hh. subst full. injection E as -> -> -> -> -> _ _ _ _ _. done. }
  destruct (proj1 Hh eq_refl) as (-> & -> & Htotal & Hmax & ->). clear Hh.
  destruct (Z.leb_spec (len full) CONFIGURATION_HEADER_LENGTH); [unfold CONFIGURATION_HEADER_LENGTH in *; lia|].
  assert (Hlen : len full = 9 + len payload) by (subst full; unfold len; cbn; lia). rewrite Hlen in Htotal, Hmax.
  destruct (whole_configuration_ok _ p2 p3 (Z.of_nat (size authorized)) p5 p6 p7 p8 payload authorized eq_refl Htotal Hmax)
    as (r & Er & Hr).
  exists r. split; [exact Er|]. rewrite Hr. split.
  - intros (recs & st & -> & H1). rewrite <- Hlen in *. by exists p2, p3, p5, p6, p7, p8, recs, st.
  - intros (b2 & b3 & value & b6 & b7 & b8 & recs & st & E & _ & _ & H1). exists recs, st. subst full.
    injection E as _ _ _ _ _ _ ->. done.
Qed.

(** ** The guard through a session *)

Inductive GuardOp :=
| Submit (urb : Z) (setup : option SetupPacket)
| CancelUrb (urb : Z)
| Complete (urb : Z) (success : bool) (payload : list Z).

(** [None] once the guard refuses: the host tears the attachment down. *)
Definition guard_step (g : BridgedDeviceGuard) (op : GuardOp) : option BridgedDeviceGuard :=
  match op with
  | Submit urb setup => match observe_submit g urb setup with (g, Ok _) => Some g | (_, Err _) => None end
  | CancelUrb urb => Some (observe_cancel g urb)
  | Complete urb success payload =>
    '(g, r) ← check_completion g urb success payload; match r with Ok _ => Some g | Err _ => None end
  end.

Fixpoint guard_run (g : BridgedDeviceGuard) (ops : list GuardOp) : option BridgedDeviceGuard :=
  match ops with [] => Some g | op :: ops => g ← guard_step g op; guard_run g ops end.

(** The descriptor request a request id stands for, after the operations given
    newest first. *)
Fixpoint outstanding (history : list GuardOp) (urb : Z) : option Requested :=
  match history with
  | [] => None
  | Submit u setup :: history =>
    match setup ≫= requested with
    | Some r => if u =? urb then Some r else outstanding history urb
    | None => outstanding history urb
    end
  | CancelUrb u :: history | Complete u _ _ :: history => if u =? urb then None else outstanding history urb
  end.

Record guard_inv (identity : UsbDeviceId) (claims : list InterfaceReportDescriptor) (history : list GuardOp)
  (g : BridgedDeviceGuard) : Prop := {
  gi_identity : guard_identity g = identity;
  gi_claims : guard_claims g = claims;
  gi_lengths : report_lengths g = report_lengths (Guard_new identity claims);
  gi_pending : forall urb, guard_pending g !! urb = outstanding history urb;
  gi_bound : Z.of_nat (size (guard_pending g)) <= MAX_IN_FLIGHT_URBS
}.

Lemma pending_delete_inv identity claims history g urb op :
  guard_inv identity claims history g ->
  (forall u, outstanding (op :: history) u = if urb =? u then None else outstanding history u) ->
  guard_inv identity claims (op :: history) (set_pending g (delete urb (guard_pending g))).
Proof.
  intros [Hi Hc Hl Hp Hb] Ho. split; cbn [guard_identity guard_claims report_lengths guard_pending set_pending]; try done.
  - intros u. rewrite Ho. destruct (Z.eqb_spec urb u) as [->|]; [by simplify_map_eq|]. by rewrite lookup_delete_ne.
  - destruct (guard_pending g !! urb) as [r|] eqn:E.
    + rewrite map_size_delete_Some by eauto. lia.
    + by rewrite delete_id.
Qed.

(** A completion that is not refused only forgets its request. *)
Lemma check_completion_state g urb success payload g' :
  guard_step g (Complete urb success payload) = Some g' -> g' = set_pending g (delete urb (guard_pending g)).
Proof.
  cbn [guard_step]. unfold check_completion. destruct (guard_pending g !! urb) as [r|] eqn:E.
  2:{ intros [= <-]. rewrite delete_id by done. by destruct g. }
  cbv zeta. destruct success; cbn [negb]; [|by intros [= <-]].
  destruct r as [| |kind|interface length].
  1,2,4: cbn [mbind option_bind]; case_match; [intros [= <-]|]; done.
  destruct (validate_configuration_descriptor _ _ _) as [v|]; cbn [mbind option_bind]; [|done].
  destruct v; [intros [= <-]|]; done.
Qed.

Lemma guard_step_inv identity claims history g op g' :
  guard_inv identity claims history g -> guard_step g op = Some g' -> guard_inv identity claims (op :: history) g'.
Proof.
  intros Hinv. destruct op as [urb setup|urb|urb success payload]; cbn [guard_step].
  - unfold observe_submit. destruct (setup ≫= requested) as [r|] eqn:Er.
    2:{ intros [= <-]. destruct Hinv. split; try done. intros u. cbn. rewrite Er. done. }
    destruct ((MAX_IN_FLIGHT_URBS <=? _) && _) eqn:Ef; [done|]. intros [= <-]. destruct Hinv as [Hi Hc Hl Hp Hb].
    split; cbn [guard_identity guard_claims report_lengths guard_pending set_pending]; try done.
    + intros u. cbn [outstanding]. rewrite Er. destruct (Z.eqb_spec urb u) as [->|]; [by simplify_map_eq|].
      by rewrite lookup_insert_ne.
    + destruct (guard_pending g !! urb) as [r'|] eqn:E.
      * rewrite map_size_insert_Some by eauto. done.
      * rewrite map_size_insert_None by done. cbn [is_some negb] in Ef. rewrite andb_true_r in Ef.
        apply Z.leb_gt in Ef. lia.
  - intros [= <-]. by apply pending_delete_inv.
  - intros H. apply (check_completion_state g urb success payload) in H as ->. by apply pending_delete_inv.
Qed.

(** ** Lemmas: the decision on the claims *)

Lemma check_claims_ok descriptors : forall earlier,
  check_claims earlier descriptors = Ok tt <->
  Forall (fun e => len (claim_descriptor e) <= MAX_HID_REPORT_DESCRIPTOR_BYTES) descriptors /\
  NoDup (map claim_interface descriptors) /\ (forall i, i ∈ map claim_interface descriptors -> i ∉ earlier).
Proof.
  induction descriptors as [|e descriptors IH]; intros earlier; cbn [check_claims map].
  { split; [intros _; split_and!; [constructor|constructor|intros i []%elem_of_nil]|done]. }
  rewrite Forall_cons, NoDup_cons. destruct (Z.ltb_spec MAX_HID_REPORT_DESCRIPTOR_BYTES (len (claim_descriptor e))) as [|Hle].
  { split; [done|]. intros [[? _] _]. lia. }
  case_bool_decide as Hin.
  { split; [done|]. intros (_ & _ & H). by destruct (H (claim_interface e) ltac:(left)). }
  rewrite IH. split.
  - intros (? & ? & H). split_and!; [done|done| |done|].
    + intros Hi. apply (H _ Hi), elem_of_app. right. by apply list_elem_of_singleton.
    + intros i [->|Hi]%elem_of_cons; [done|]. intros Hc. apply (H _ Hi), elem_of_app. by left.
  - intros ([_ Hr] & [Hn Hnd] & H). split_and!; [done|done|]. intros i Hi [Hc|Hc]%elem_of_app.
    + apply (H i); [by right|done].
    + apply list_elem_of_singleton in Hc as ->. done.
Qed.

Lemma total_claimed_sum descriptors : forall acc, 0 <= acc ->
  fold_left (fun total e => saturating_add usize_bits total (len (claim_descriptor e))) descriptors acc <= MAX_CLAIMED_REPORT_DESCRIPTOR_BYTES <->
  acc + Z.of_nat (sum_list_with (fun e => length (claim_descriptor e)) descriptors) <= MAX_CLAIMED_REPORT_DESCRIPTOR_BYTES.
Proof.
  induction descriptors as [|e descriptors IH]; intros acc Ha; cbn [fold_left sum_list_with]; [rewrite Z.add_0_r; done|].
  assert (Hmax : MAX_CLAIMED_REPORT_DESCRIPTOR_BYTES < umax usize_bits) by done.
  unfold MAX_CLAIMED_REPORT_DESCRIPTOR_BYTES in *.
  rewrite IH by (unfold saturating_add, len; lia). unfold saturating_add, len in *. lia.
Qed.

Lemma check_forwarded_ok descriptors :
  check_forwarded descriptors = Some (Ok tt) <->
  Forall (fun e => disqualifying_collection (claim_descriptor e) = Some (Ok None)) descriptors.
Proof.
  induction descriptors as [|e descriptors IH]; cbn [check_forwarded]; [by split|].
  rewrite Forall_cons, <- IH. destruct (disqualifying_collection (claim_descriptor e)) as [[[u|]|err]|];
    cbn [mbind option_bind]; split; try done; try (by intros [? _]).
  by intros [_ ?].
Qed.

(** ** Properties *)

(** The host forwards a device exactly when its claims say it is a pen
    tablet and nothing else: its device class is per-interface or HID, it
    claims between one and sixteen interfaces, no interface twice, each report
    descriptor at most 4096 bytes and at most 12288 together, the descriptors
    classify as a pen tablet, and each of them parses without declaring a
    keyboard, pointer, or other controller.  The profile the session then uses is
    the classifier's. *)
Theorem authorize_exact (device_class : Z) (descriptors : list InterfaceReportDescriptor) (profile : PenTabletProfile) :
  authorize_hard_usb_tablet device_class descriptors = Some (Ok profile) <->
  (device_class = USB_CLASS_PER_INTERFACE \/ device_class = USB_CLASS_HID) /\
  1 <= len descriptors <= MAX_INTERFACES /\
  NoDup (map claim_interface descriptors) /\
  Forall (fun e => len (claim_descriptor e) <= MAX_HID_REPORT_DESCRIPTOR_BYTES) descriptors /\
  Z.of_nat (sum_list_with (fun e => length (claim_descriptor e)) descriptors) <= MAX_CLAIMED_REPORT_DESCRIPTOR_BYTES /\
  classify_pen_tablet (map claim_descriptor descriptors) = Some (Ok profile) /\
  Forall (fun e => disqualifying_collection (claim_descriptor e) = Some (Ok None)) descriptors.
Proof.
  unfold authorize_hard_usb_tablet.
  assert (Hclass : negb (device_class =? 0) && negb (device_class =? 3) = false <->
    device_class = USB_CLASS_PER_INTERFACE \/ device_class = USB_CLASS_HID) by (unfold USB_CLASS_PER_INTERFACE, USB_CLASS_HID; lia).
  destruct (negb (device_class =? 0) && _); [split; [done|]; intros [Hc _]; by apply Hclass in Hc|].
  pose proof (proj1 Hclass eq_refl) as Hc. clear Hclass.
  destruct descriptors as [|e0 rest]; [split; [done|]; intros (_ & H & _); change (len []) with 0 in H; lia|].
  assert (Hpos : 1 <= len (e0 :: rest)) by (rewrite len_cons; pose proof (len_nonneg rest); lia).
  set (l := e0 :: rest) in *. clearbody l. clear e0 rest.
  destruct (Z.ltb_spec MAX_INTERFACES (len l)); [split; [done|lia]|]. cbv zeta.
  pose proof (total_claimed_sum l 0 ltac:(lia)) as Ht. fold (total_claimed l) in Ht.
  destruct (Z.ltb_spec MAX_CLAIMED_REPORT_DESCRIPTOR_BYTES (total_claimed l)); [split; [done|lia]|].
  pose proof (check_claims_ok l []) as Hcl. destruct (check_claims [] l) as [[]|e].
  2:{ split; [done|]. intros (_ & _ & Hn & Hs & _). assert (Err e = Ok tt) as [=]. apply Hcl. split_and!; [done..|].
      by intros i _ []%elem_of_nil. }
  destruct (proj1 Hcl eq_refl) as (Hs & Hn & _). pose proof (check_forwarded_ok l) as Hf.
  destruct (classify_pen_tablet _) as [[p|e]|]; cbn [mbind option_bind]; [|naive_solver..].
  destruct (check_forwarded l) as [[[]|e]|]; cbn [mbind option_bind result_bind]; rewrite <- Hf; [|naive_solver..].
  split; [intros [= ->]|intros (_ & _ & _ & _ & _ & [= ->] & _); done]. split_and!; try done; lia.
Qed.

(** A minimal pen: pen application with in-range, tip pressure and position. *)
Definition pen_descriptor : list Z :=
  [0x05; 0x0D; 0x09; 0x02; 0xA1; 0x01; 0x15; 0x00; 0x26; 0xFF; 0x1F; 0x75; 0x10; 0x95; 0x01; 0x09; 0x32; 0x81; 0x02; 0x09; 0x30; 0x81; 0x02;
   0x05; 0x01; 0x09; 0x30; 0x81; 0x02; 0x09; 0x31; 0x81; 0x02; 0xC0].
Definition pen_claims : list InterfaceReportDescriptor := [mkClaim 0 pen_descriptor].

Example pen_is_authorized :
  match authorize_hard_usb_tablet 0 pen_claims with Some (Ok profile) => evidence profile = DigitizerPen | _ => False end.
Proof. vm_compute. reflexivity. Qed.

(** What the bytes returned for a request must be: a prefix of an acceptable
    device descriptor or qualifier, at most a configuration header or an honest
    configuration, exactly the requested bytes of an authorized report
    descriptor. *)
Definition device_honest (payload : list Z) (identity : UsbDeviceId) : Prop :=
  len payload <= DEVICE_DESCRIPTOR_LENGTH /\
  (len payload = DEVICE_DESCRIPTOR_LENGTH ->
    byte_at payload 0 = DEVICE_DESCRIPTOR_LENGTH /\ byte_at payload 1 = DESCRIPTOR_DEVICE /\
    (byte_at payload 4 = USB_CLASS_PER_INTERFACE \/ byte_at payload 4 = USB_CLASS_HID) /\
    device_field payload 8 = vendor_id identity /\ device_field payload 10 = product_id identity /\
    device_field payload 12 = bcd_device identity /\ byte_at payload 17 = 1).

Definition answer_honest (identity : UsbDeviceId) (claims : list InterfaceReportDescriptor) (asked : Requested)
  (payload : list Z) : Prop :=
  match asked with
  | RequestedDevice => device_honest payload identity
  | RequestedDeviceQualifier => len payload <= DEVICE_QUALIFIER_LENGTH
  | RequestedConfiguration kind =>
    len payload <= CONFIGURATION_HEADER_LENGTH \/ configuration_honest payload kind (report_lengths (Guard_new identity claims))
  | RequestedReport interface length =>
    exists claim, claim_of claims interface = Some claim /\ payload = take (Z.to_nat length) (claim_descriptor claim)
  end.

(** ** Lemmas: each answer *)

Lemma check_byte_ok payload offset accept b :
  check_byte payload offset accept = Ok tt -> read_at payload offset = Some b -> accept b = true.
Proof. unfold check_byte. intros H E. rewrite E in H. by destruct (accept b). Qed.

Lemma check_class_ok payload b :
  check_class payload = Ok tt -> read_at payload 4 = Some b -> b = USB_CLASS_PER_INTERFACE \/ b = USB_CLASS_HID.
Proof.
  unfold check_class. intros H E. rewrite E in H. destruct (Z.eqb_spec b USB_CLASS_PER_INTERFACE); [by left|].
  destruct (Z.eqb_spec b USB_CLASS_HID); [by right|done].
Qed.

Lemma device_descriptor_sound payload identity :
  validate_device_descriptor payload identity = Ok tt -> device_honest payload identity.
Proof.
  unfold validate_device_descriptor, device_honest.
  destruct (Z.ltb_spec DEVICE_DESCRIPTOR_LENGTH (len payload)); [done|].
  intros Hv. split; [lia|]. intros Hl. rewrite Hl in Hv.
  unfold DEVICE_DESCRIPTOR_LENGTH in Hl, Hv |- *.
  do 18 (destruct payload as [|? payload]; [unfold len in Hl; cbn in Hl; lia|]).
  destruct payload; [|unfold len in Hl; cbn in Hl; lia]. clear Hl.
  apply unit_bind_Ok in Hv as [H0 Hv]. apply unit_bind_Ok in Hv as [H1 Hv]. apply unit_bind_Ok in Hv as [H4 Hv].
  eapply check_byte_ok in H0 as H0%Z.eqb_eq; [|done]. eapply check_byte_ok in H1 as H1%Z.eqb_eq; [|done].
  eapply check_class_ok in H4; [|done]. cbn [Z.eqb Pos.eqb] in Hv.
  destruct (negb _ || negb _ || negb _) eqn:Eid in Hv; [done|]. apply orb_false_iff in Eid as [[Ev Ep]%orb_false_iff Eb].
  apply negb_false_iff, Z.eqb_eq in Ev. apply negb_false_iff, Z.eqb_eq in Ep. apply negb_false_iff, Z.eqb_eq in Eb.
  destruct (negb (_ =? 1)) eqn:E17 in Hv; [done|]. apply negb_false_iff, Z.eqb_eq in E17. by split_and!.
Qed.

Lemma report_sound claims interface length payload :
  check_report claims interface length payload = Ok tt ->
  exists claim, claim_of claims interface = Some claim /\ payload = take (Z.to_nat length) (claim_descriptor claim).
Proof.
  unfold check_report. destruct (claim_of claims interface) as [claim|]; [|done]. intros H. exists claim. split; [done|].
  unfold starts_with in H. case_bool_decide as Hp; cbn [negb] in H; [|done].
  destruct (Z.eqb_spec (len payload) (Z.min (len (claim_descriptor claim)) length)) as [El|]; [|done].
  unfold len in El. rewrite <- Hp at 1. destruct (Z_le_gt_dec (Z.of_nat (List.length (claim_descriptor claim))) length).
  - rewrite !take_ge by lia. done.
  - f_equal. lia.
Qed.

Lemma answer_sound identity claims history g urb payload g' asked :
  guard_inv identity claims history g -> outstanding history urb = Some asked ->
  check_completion g urb true payload = Some (g', Ok tt) -> answer_honest identity claims asked payload.
Proof.
  intros [Hi Hc Hl Hp _] Ho. unfold check_completion. rewrite Hp, Ho. cbv zeta. cbn [negb set_pending guard_identity guard_claims report_lengths].
  rewrite Hi, Hc, Hl. destruct asked as [| |kind|interface length]; cbn [answer_honest].
  - intros [= _ H]. apply device_descriptor_sound. by destruct (validate_device_descriptor _ _) as [[]|].
  - intros [= _ H]. unfold validate_device_qualifier in H.
    destruct (Z.ltb_spec DEVICE_QUALIFIER_LENGTH (len payload)); [done|lia].
  - intros H. destruct (Z.le_gt_cases (len payload) CONFIGURATION_HEADER_LENGTH) as [|Hlen]; [by left|right].
    destruct (configuration_validation payload kind (report_lengths (Guard_new identity claims)) Hlen) as (r & Er & Hr).
    rewrite Er in H. cbn [mbind option_bind] in H. apply Hr. destruct r as [[]|]; [done|by injection H].
  - intros [= _ H]. by apply report_sound.
Qed.

Lemma usb_guard_run_inv identity claims ops : forall history g g',
  guard_inv identity claims history g -> guard_run g ops = Some g' -> guard_inv identity claims (rev ops ++ history) g'.
Proof.
  induction ops as [|op ops IH]; intros history g g' Hg; cbn [guard_run rev app]; [by intros [= <-]|].
  intros (g1 & H1 & H)%bind_Some. rewrite <- app_assoc. eapply IH; [|exact H]. by eapply guard_step_inv.
Qed.

Lemma Guard_new_inv identity claims : guard_inv identity claims [] (Guard_new identity claims).
Proof. split; try done. Qed.

(** A whole configuration read passes the guard exactly when it is honest:
    it is the header of the requested kind with the authorized number of
    interfaces and its own length as total, followed by well-formed records
    within the bridge's limits that describe only HID interfaces with
    interrupt endpoints, whose numbers are exactly the authorized ones, and
    each interface and alternate setting has exactly one HID class descriptor,
    which advertises exactly the authorized report length.  The check always
    answers. *)
Theorem configuration_guard_exact (payload : list Z) (kind : Z) (authorized : gmap Z Z) :
  CONFIGURATION_HEADER_LENGTH < len payload ->
  exists r, validate_configuration_descriptor payload kind authorized = Some r /\
    (r = Ok tt <-> configuration_honest payload kind authorized).
Proof. apply configuration_validation. Qed.

Definition pen_configuration : list Z :=
  [9; 2; 34; 0; 1; 1; 0; 0x80; 50] ++
  [9; 4; 0; 0; 1; 3; 0; 0; 0] ++ [9; 0x21; 0x11; 0x01; 0; 1; 0x22; 34; 0] ++ [7; 5; 0x81; 3; 10; 0; 1].

Lemma configuration_guard_exact_witness :
  configuration_honest pen_configuration DESCRIPTOR_CONFIGURATION (report_lengths (Guard_new (mkDeviceId 1 2 3) pen_claims)).
Proof.
  destruct (configuration_guard_exact pen_configuration DESCRIPTOR_CONFIGURATION
              (report_lengths (Guard_new (mkDeviceId 1 2 3) pen_claims)) ltac:(done)) as (r & Er & Hr).
  apply Hr. vm_compute in Er. by injection Er.
Defined.

(** C18: A forwarded device can never answer with a different device than the
    one that was authorized: through any session of submissions, cancellations and
    completions the guard let pass, it keeps at most 128 outstanding
    descriptor reads, it remembers for each request id the last descriptor
    read not yet answered or cancelled, and when it lets the answer to
    one pass, a whole device descriptor carries the claimed identity, one
    configuration and a HID-compatible class, a whole configuration is honest
    for the claims, and a report descriptor is exactly the requested bytes of
    the claimed one. *)
Theorem guarded_enumeration_honest (identity : UsbDeviceId) (claims : list InterfaceReportDescriptor) (ops : list GuardOp)
  (g : BridgedDeviceGuard) :
  guard_run (Guard_new identity claims) ops = Some g ->
  Z.of_nat (size (guard_pending g)) <= MAX_IN_FLIGHT_URBS /\
  forall urb, guard_pending g !! urb = outstanding (rev ops) urb /\
    forall payload g' asked, outstanding (rev ops) urb = Some asked ->
      check_completion g urb true payload = Some (g', Ok tt) ->
      answer_honest identity claims asked payload /\ guard_pending g' !! urb = None.
Proof.
  intros H. apply (usb_guard_run_inv identity claims ops []) in H; [|apply Guard_new_inv]. rewrite app_nil_r in H.
  split; [apply H|]. intros urb. split; [apply H|]. intros payload g' asked Ho Hc. split; [by eapply answer_sound|].
  assert (guard_step g (Complete urb true payload) = Some g') as Hs by (cbn [guard_step]; by rewrite Hc).
  apply check_completion_state in Hs as ->. cbn [guard_pending set_pending]. by rewrite lookup_delete_eq.
Qed.

Definition get_configuration : SetupPacket := mkSetup 0x80 6 0x0200 0 255.
Definition get_report : SetupPacket := hid_report_descriptor_request 0 255.

(** An enumeration that reads the header, the configuration and the report
    descriptor. *)
Definition enumeration : list GuardOp :=
  [Submit 1 (Some get_configuration); Complete 1 true (take 9 pen_configuration);
   Submit 2 (Some get_configuration); Complete 2 true pen_configuration; Submit 3 (Some get_report)].

Lemma guarded_enumeration_honest_witness :
  exists g, guard_run (Guard_new (mkDeviceId 1 2 3) pen_claims) enumeration = Some g /\
    guard_pending g !! 3 = Some (RequestedReport 0 255) /\
    (forall g', check_completion g 3 true pen_descriptor = Some (g', Ok tt) -> guard_pending g' !! 3 = None) /\
    (exists g', check_completion g 3 true pen_descriptor = Some (g', Ok tt)).
Proof.
  destruct (guard_run (Guard_new (mkDeviceId 1 2 3) pen_claims) enumeration) as [g|] eqn:E; [|vm_compute in E; discriminate].
  destruct (guarded_enumeration_honest (mkDeviceId 1 2 3) pen_claims enumeration g E) as [_ H].
  destruct (H 3) as [H3 Hc]. exists g. split_and!; [done|by rewrite H3| |].
  - intros g' Hg'. by eapply (Hc pen_descriptor g' (RequestedReport 0 255)).
  - vm_compute in E. injection E as <-. vm_compute. by eexists.
Defined.
