(* ===== verification/MonitorWire.v ===== *)
(** * Protocol: multi-monitor topologies and their negotiation

    Models [shared/protocol/src/multi_monitor.rs]: requested and applied
    monitor topologies with their validation, and the negotiation of monitor
    count, rotations and carrier.  The sets the validation loops keep are lists
    of what was seen.  Strings are their UTF-8 bytes; scales are [f32] numbers
    of [SpecFloat].  JSON (serde) and [Display] are left out. *)

From Stdlib Require Import SpecFloat.
From Stdlib Require String Ascii.
From stdpp Require Import strings.
From S2P Require Import Prelude Utf8 MediaRegion RegionInput CaptureSurface.

(** ** messages.rs *)

Definition MAX_MULTI_MONITOR_COUNT : Z := 4.
Definition MAX_CLIENT_DISPLAY_ID_BYTES : Z := 64.

Inductive DisplayGamutMsg := Srgb | DisplayP3 | Bt2020.

Record DisplayColorMsg := mkColorMsg {
  gamut : DisplayGamutMsg;
  hdr_headroom : f32;
  peak_nits : option f32;
  max_frame_average_nits : option f32;
  min_nits : option f32
}.

Record ClientMonitor := mkClientMonitor {
  cm_id : Z; cm_x : Z; cm_y : Z; cm_width_px : Z; cm_height_px : Z; cm_scale : f32; cm_refresh_hz : Z;
  cm_is_primary : bool; cm_name : string; cm_width_mm : f32; cm_height_mm : f32; cm_vendor : Z; cm_model : Z;
  cm_serial : Z; cm_edid : string; cm_color : option DisplayColorMsg
}.

(** ** Data *)

Definition ClientDisplayId : Type := string.

Inductive ClientDisplayIdError := DisplayIdEmpty | DisplayIdTooLong | DisplayIdControlCharacter.

(** [chars().any(char::is_control)]: U+0000-U+001F, U+007F and, encoded as
    [C2 80] to [C2 9F], U+0080-U+009F. *)
Fixpoint has_control (bytes : list Z) : bool :=
  match bytes with
  | [] => false
  | b :: rest =>
    (b <? 0x20) || (b =? 0x7F)
    || ((b =? 0xC2) && match rest with c :: _ => c <? 0xA0 | [] => false end)
    || has_control rest
  end.

Definition ClientDisplayId_new (value : string) : result ClientDisplayIdError ClientDisplayId :=
  let bytes := string_bytes value in
  if len bytes =? 0 then Err DisplayIdEmpty
  else if MAX_CLIENT_DISPLAY_ID_BYTES <? len bytes then Err DisplayIdTooLong
  else if has_control bytes then Err DisplayIdControlCharacter
  else Ok value.

Inductive RotationMsg := Degrees0 | Degrees90 | Degrees180 | Degrees270.
#[global] Instance RotationMsg_eq_dec : EqDecision RotationMsg. Proof. solve_decision. Defined.

Inductive SafeAreaPolicyMsg := StandardFullscreen | FullFrame.
Inductive MonitorQualityIntentMsg := HostDefault | FullColorRequired | BandwidthOptimized.

Record RequestedMonitorDescriptorMsg := mkRequested {
  rq_client_display_id : ClientDisplayId;
  rq_client_monitor_id : Z;
  rq_x : Z; rq_y : Z;
  rq_width_px : Z; rq_height_px : Z;
  rq_logical_width : Z; rq_logical_height : Z;
  rq_scale : f32;
  rq_refresh_hz : Z;
  rq_rotation : RotationMsg;
  rq_is_primary : bool;
  rq_name : string;
  rq_width_mm : f32; rq_height_mm : f32;
  rq_vendor : Z; rq_model : Z; rq_serial : Z;
  rq_edid : string;
  rq_color : option DisplayColorMsg;
  rq_safe_area_policy : SafeAreaPolicyMsg;
  rq_quality_intent : MonitorQualityIntentMsg
}.

Definition legacy_client_monitor (m : RequestedMonitorDescriptorMsg) : ClientMonitor :=
  mkClientMonitor (rq_client_monitor_id m) (rq_x m) (rq_y m) (rq_width_px m) (rq_height_px m) (rq_scale m)
    (rq_refresh_hz m) (rq_is_primary m) (rq_name m) (rq_width_mm m) (rq_height_mm m) (rq_vendor m) (rq_model m)
    (rq_serial m) (rq_edid m) (rq_color m).

Inductive MultiMonitorCarrierMsg := MuxedReliableStream | PerMonitorReliableStream.
#[global] Instance MultiMonitorCarrierMsg_eq_dec : EqDecision MultiMonitorCarrierMsg. Proof. solve_decision. Defined.

Inductive TopologyBackendKindMsg := DedicatedXorg | PhysicalOutputs | VirtualOutputs.

Inductive MultiMonitorValidationError :=
| UnsupportedMonitorCount (count : Z)
| InvalidMaxMonitors (max : Z)
| EmptySupportedRotations
| EmptyAdvertisedCarriers
| EmptyClientSupportedCarriers
| DuplicateSupportedRotation (r : RotationMsg)
| DuplicateAdvertisedCarrier (c : MultiMonitorCarrierMsg)
| DuplicateClientSupportedCarrier (c : MultiMonitorCarrierMsg)
| NoCommonAuthCarrier
| RequestedMonitorCountExceedsMax (count max_monitors : Z)
| AppliedMonitorCountExceedsMax (count max_monitors : Z)
| UnsupportedRequestedRotation (id : string) (r : RotationMsg)
| UnsupportedAppliedRotation (id : string) (r : RotationMsg)
| UnadvertisedSelectedCarrier (c : MultiMonitorCarrierMsg)
| PrimaryMonitorCount (count : Z)
| DuplicateClientDisplayId (id : string)
| DuplicateClientMonitorId (id : Z)
| ZeroSessionMonitorId
| DuplicateSessionMonitorId (id : Z)
| InvalidRequestedPhysicalDimensions (id : string)
| InvalidRequestedLogicalDimensions (id : string)
| InvalidAppliedPixelDimensions (id : string)
| InvalidAppliedMediaDimensions (id : string)
| InvalidAppliedFps (id : string)
| InvalidAppliedBitrateKbps (id : string)
| ZeroAppliedStreamEpoch (id : string)
| InvalidAppliedEncoderBackend (id : string)
| InvalidAppliedEncoderClass (id : string)
| InvalidAppliedCodec (id codec : string)
| InvalidAppliedChroma (id chroma : string)
| InvalidMonitorScale (id : string)
| InvalidDeclaredDesktopDimensions
| ZeroTopologyGeneration
| CoordinateOverflow (context : string)
| InconsistentAppliedDesktopBounds
| InconsistentAppliedDesktopTranslation.

Record AppliedMonitorMediaPlanMsg := mkMediaPlanMsg {
  mp_stream_epoch : Z;
  mp_encoder_backend : string; mp_encoder_class : string; mp_codec : string; mp_chroma : string;
  mp_width_px : Z; mp_height_px : Z; mp_fps : Z; mp_bitrate_kbps : Z;
  mp_cursor_mode : CursorMode; mp_degraded : bool; mp_degradation_reason : string
}.

Record AppliedMonitorDescriptorMsg := mkAppliedMsg {
  ap_client_display_id : ClientDisplayId;
  ap_session_monitor_id : Z;
  ap_x : Z; ap_y : Z; ap_width_px : Z; ap_height_px : Z;
  ap_refresh_hz : Z;
  ap_rotation : RotationMsg;
  ap_is_primary : bool;
  ap_media_plan : AppliedMonitorMediaPlanMsg
}.

(** ** Layout arithmetic *)

Record CheckedLayoutRect := mkLayoutRect { clr_x : Z; clr_y : Z; clr_width : Z; clr_height : Z }.
Record CheckedLayoutBounds := mkLayoutBounds { clb_x : Z; clb_y : Z; clb_width : Z; clb_height : Z }.
#[global] Instance CheckedLayoutBounds_eq_dec : EqDecision CheckedLayoutBounds. Proof. solve_decision. Defined.

Definition I32_MAX : Z := 2 ^ 31 - 1.

Definition validate_layout_end (origin extent : Z) (context : string) : result MultiMonitorValidationError unit :=
  end_ ← ok_or (try_signed 64 (origin + extent)) (CoordinateOverflow context);
  guard_err (I32_MAX + 1 <? end_) (CoordinateOverflow context).

Definition checked_i64_to_i32 (value : Z) (context : string) : result MultiMonitorValidationError Z :=
  ok_or (try_signed 32 value) (CoordinateOverflow context).

Definition CheckedLayoutRect_new (x y width height : Z) (zero_dimensions : MultiMonitorValidationError)
  (overflow_context : string) : result MultiMonitorValidationError CheckedLayoutRect :=
  if (width =? 0) || (height =? 0) then Err zero_dimensions
  else
    _ ← validate_layout_end x width overflow_context;
    _ ← validate_layout_end y height overflow_context;
    Ok (mkLayoutRect x y width height).

Definition right_exclusive (r : CheckedLayoutRect) : Z := clr_x r + clr_width r.
Definition bottom_exclusive (r : CheckedLayoutRect) : Z := clr_y r + clr_height r.

(** The loop's [(min_x, min_y, max_right, max_bottom)]. *)
Definition grow_bounds (b : Z * Z * Z * Z) (r : CheckedLayoutRect) : Z * Z * Z * Z :=
  let '(min_x, min_y, max_right, max_bottom) := b in
  (Z.min min_x (clr_x r), Z.min min_y (clr_y r), Z.max max_right (right_exclusive r), Z.max max_bottom (bottom_exclusive r)).

Definition from_rects (rectangles : list CheckedLayoutRect) (context : string)
  : result MultiMonitorValidationError CheckedLayoutBounds :=
  match rectangles with
  | [] => Err (UnsupportedMonitorCount 0)
  | first :: rest =>
    let '(min_x, min_y, max_right, max_bottom) :=
      fold_left grow_bounds rest (clr_x first, clr_y first, right_exclusive first, bottom_exclusive first) in
    w ← ok_or (try_signed 64 (max_right - min_x)) (CoordinateOverflow context);
    width ← ok_or (try_unsigned 32 w) (CoordinateOverflow context);
    h ← ok_or (try_signed 64 (max_bottom - min_y)) (CoordinateOverflow context);
    height ← ok_or (try_unsigned 32 h) (CoordinateOverflow context);
    x ← checked_i64_to_i32 min_x context;
    y ← checked_i64_to_i32 min_y context;
    Ok (mkLayoutBounds x y width height)
  end.

Definition translated (b : CheckedLayoutBounds) (dx dy : Z) (context : string)
  : result MultiMonitorValidationError CheckedLayoutBounds :=
  x ← ok_or (try_signed 64 (clb_x b + dx)) (CoordinateOverflow context);
  x ← checked_i64_to_i32 x context;
  y ← ok_or (try_signed 64 (clb_y b + dy)) (CoordinateOverflow context);
  y ← checked_i64_to_i32 y context;
  Ok (mkLayoutBounds x y (clb_width b) (clb_height b)).

Definition translation_to_origin (b : CheckedLayoutBounds) : Z * Z :=
  (if clb_x b <? 0 then - clb_x b else 0, if clb_y b <? 0 then - clb_y b else 0).

(** ** Requested topologies *)

Definition validate_multi_monitor_count (count : Z) : result MultiMonitorValidationError unit :=
  guard_err ((count =? 0) || (MAX_MULTI_MONITOR_COUNT <? count)) (UnsupportedMonitorCount count).

(** [primary_count] and [primary_index] of both loops. *)
Definition note_primary (is_primary : bool) (index : Z) (p : Z * option Z) : Z * option Z :=
  if is_primary then (p.1 + 1, Some index) else p.

Definition finish_primary (p : Z * option Z) : result MultiMonitorValidationError Z :=
  index ← ok_or p.2 (PrimaryMonitorCount 0);
  if negb (p.1 =? 1) then Err (PrimaryMonitorCount p.1) else Ok index.

(** One monitor of the roster, after the checks of uniqueness. *)
Definition requested_rect (m : RequestedMonitorDescriptorMsg) : result MultiMonitorValidationError CheckedLayoutRect :=
  let display_id := rq_client_display_id m in
  if negb (is_finite (rq_scale m)) || SFleb (rq_scale m) F32_ZERO then Err (InvalidMonitorScale display_id)
  else
    rect ← CheckedLayoutRect_new (rq_x m) (rq_y m) (rq_logical_width m) (rq_logical_height m)
             (InvalidRequestedLogicalDimensions display_id) "requested monitor logical bounds";
    if (rq_width_px m =? 0) || (rq_height_px m =? 0) then Err (InvalidRequestedPhysicalDimensions display_id)
    else Ok rect.

Fixpoint requested_loop (display_ids : list string) (monitor_ids : list Z) (rects : list CheckedLayoutRect)
  (p : Z * option Z) (index : Z) (monitors : list RequestedMonitorDescriptorMsg)
  : result MultiMonitorValidationError (list CheckedLayoutRect * (Z * option Z)) :=
  match monitors with
  | [] => Ok (rects, p)
  | m :: monitors =>
    if bool_decide (rq_client_display_id m ∈ display_ids) then Err (DuplicateClientDisplayId (rq_client_display_id m))
    else if bool_decide (rq_client_monitor_id m ∈ monitor_ids) then Err (DuplicateClientMonitorId (rq_client_monitor_id m))
    else
      rect ← requested_rect m;
      requested_loop (rq_client_display_id m :: display_ids) (rq_client_monitor_id m :: monitor_ids) (rects ++ [rect])
        (note_primary (rq_is_primary m) index p) (index + 1) monitors
  end.

Definition validate_requested_topology (monitors : list RequestedMonitorDescriptorMsg)
  : result MultiMonitorValidationError Z :=
  _ ← validate_multi_monitor_count (len monitors);
  '(rects, p) ← requested_loop [] [] [] (0, None) 0 monitors;
  primary_index ← finish_primary p;
  _ ← from_rects rects "requested monitor logical bounds";
  Ok primary_index.

Record RequestedMonitorTopologyMsg := mkRequestedTopology {
  rt_monitors : list RequestedMonitorDescriptorMsg;
  rt_primary_index : Z
}.

Definition RequestedMonitorTopologyMsg_new (monitors : list RequestedMonitorDescriptorMsg)
  : result MultiMonitorValidationError RequestedMonitorTopologyMsg :=
  primary_index ← validate_requested_topology monitors;
  Ok (mkRequestedTopology monitors primary_index).

Definition RequestedTopology_validate (t : RequestedMonitorTopologyMsg) : result MultiMonitorValidationError Z :=
  validate_requested_topology (rt_monitors t).

(** Indexing is a panic, [None], out of bounds. *)
Definition validated_primary (t : RequestedMonitorTopologyMsg)
  : option (result MultiMonitorValidationError RequestedMonitorDescriptorMsg) :=
  match RequestedTopology_validate t with
  | Err e => Some (Err e)
  | Ok primary_index => Ok <$> read_at (rt_monitors t) primary_index
  end.

Definition RequestedTopology_primary (t : RequestedMonitorTopologyMsg) : option RequestedMonitorDescriptorMsg :=
  read_at (rt_monitors t) (rt_primary_index t).

Definition legacy_monitors (t : RequestedMonitorTopologyMsg) : list ClientMonitor := map legacy_client_monitor (rt_monitors t).

(** ** Applied topologies *)

Definition one_of (s : string) (l : list string) : bool := bool_decide (s ∈ l).

Definition validate_applied_monitor_descriptor (m : AppliedMonitorDescriptorMsg)
  : result MultiMonitorValidationError CheckedLayoutRect :=
  let display_id := ap_client_display_id m in
  let plan := ap_media_plan m in
  _ ← guard_err (ap_session_monitor_id m =? 0) ZeroSessionMonitorId;
  rect ← CheckedLayoutRect_new (ap_x m) (ap_y m) (ap_width_px m) (ap_height_px m)
           (InvalidAppliedPixelDimensions display_id) "applied monitor pixel bounds";
  _ ← guard_err ((mp_width_px plan =? 0) || (mp_height_px plan =? 0)) (InvalidAppliedMediaDimensions display_id);
  _ ← guard_err (mp_fps plan =? 0) (InvalidAppliedFps display_id);
  _ ← guard_err (mp_bitrate_kbps plan =? 0) (InvalidAppliedBitrateKbps display_id);
  _ ← guard_err (mp_stream_epoch plan =? 0) (ZeroAppliedStreamEpoch display_id);
  _ ← guard_err (bool_decide (mp_encoder_backend plan = "")) (InvalidAppliedEncoderBackend display_id);
  _ ← guard_err (negb (one_of (mp_encoder_class plan) [""; "hardware"; "software"])) (InvalidAppliedEncoderClass display_id);
  _ ← guard_err (negb (one_of (mp_codec plan) ["jpeg"; "h264"; "h265"; "vp9"; "av1"]))
        (InvalidAppliedCodec display_id (mp_codec plan));
  _ ← guard_err (negb (one_of (mp_chroma plan) ["yuv420"; "yuv422"; "yuv444"])) (InvalidAppliedChroma display_id (mp_chroma plan));
  Ok rect.

Fixpoint applied_loop (display_ids : list string) (session_ids : list Z) (rects : list CheckedLayoutRect)
  (p : Z * option Z) (index : Z) (monitors : list AppliedMonitorDescriptorMsg)
  : result MultiMonitorValidationError (list CheckedLayoutRect * (Z * option Z)) :=
  match monitors with
  | [] => Ok (rects, p)
  | m :: monitors =>
    if bool_decide (ap_client_display_id m ∈ display_ids) then Err (DuplicateClientDisplayId (ap_client_display_id m))
    else
      rect ← validate_applied_monitor_descriptor m;
      if bool_decide (ap_session_monitor_id m ∈ session_ids) then Err (DuplicateSessionMonitorId (ap_session_monitor_id m))
      else
        applied_loop (ap_client_display_id m :: display_ids) (ap_session_monitor_id m :: session_ids) (rects ++ [rect])
          (note_primary (ap_is_primary m) index p) (index + 1) monitors
  end.

Definition validate_declared_desktop_bounds (desktop_x desktop_y desktop_width_px desktop_height_px : Z)
  : result MultiMonitorValidationError CheckedLayoutBounds :=
  _ ← CheckedLayoutRect_new desktop_x desktop_y desktop_width_px desktop_height_px
        InvalidDeclaredDesktopDimensions "declared desktop bounds";
  Ok (mkLayoutBounds desktop_x desktop_y desktop_width_px desktop_height_px).

Definition validate_declared_desktop_translation (desktop_bounds : CheckedLayoutBounds) (translation_x translation_y : Z)
  : result MultiMonitorValidationError unit :=
  dx ← ok_or (try_signed 64 (- translation_x)) (CoordinateOverflow "declared desktop translation");
  dy ← ok_or (try_signed 64 (- translation_y)) (CoordinateOverflow "declared desktop translation");
  source_bounds ← translated desktop_bounds dx dy "declared desktop translation";
  guard_err (negb (bool_decide (translation_to_origin source_bounds = (translation_x, translation_y))))
    InconsistentAppliedDesktopTranslation.

(** The declared desktop: its origin, size and translation. *)
Record DeclaredDesktop := mkDesktop {
  desktop_x : Z; desktop_y : Z; desktop_width_px : Z; desktop_height_px : Z; translation_x : Z; translation_y : Z
}.

Definition validate_applied_topology (topology_generation : Z) (d : DeclaredDesktop)
  (monitors : list AppliedMonitorDescriptorMsg) : result MultiMonitorValidationError Z :=
  _ ← guard_err (topology_generation =? 0) ZeroTopologyGeneration;
  _ ← validate_multi_monitor_count (len monitors);
  '(rects, p) ← applied_loop [] [] [] (0, None) 0 monitors;
  primary_index ← finish_primary p;
  declared_bounds ← validate_declared_desktop_bounds (desktop_x d) (desktop_y d) (desktop_width_px d) (desktop_height_px d);
  bounds ← from_rects rects "applied monitor pixel bounds";
  _ ← guard_err (negb (bool_decide (bounds = declared_bounds))) InconsistentAppliedDesktopBounds;
  _ ← validate_declared_desktop_translation declared_bounds (translation_x d) (translation_y d);
  Ok primary_index.

Record AppliedMonitorTopologyMsg := mkAppliedTopology {
  at_topology_generation : Z;
  at_desktop : DeclaredDesktop;
  at_selected_carrier : MultiMonitorCarrierMsg;
  at_monitors : list AppliedMonitorDescriptorMsg;
  at_primary_index : Z
}.

Definition AppliedMonitorTopologyMsg_new (topology_generation : Z) (d : DeclaredDesktop)
  (selected_carrier : MultiMonitorCarrierMsg) (monitors : list AppliedMonitorDescriptorMsg)
  : result MultiMonitorValidationError AppliedMonitorTopologyMsg :=
  primary_index ← validate_applied_topology topology_generation d monitors;
  Ok (mkAppliedTopology topology_generation d selected_carrier monitors primary_index).

Definition AppliedTopology_validate (t : AppliedMonitorTopologyMsg) : result MultiMonitorValidationError Z :=
  validate_applied_topology (at_topology_generation t) (at_desktop t) (at_monitors t).

Definition AppliedTopology_primary (t : AppliedMonitorTopologyMsg) : option AppliedMonitorDescriptorMsg :=
  read_at (at_monitors t) (at_primary_index t).

(** ** Advertisements *)

Definition validate_max_monitors (max_monitors : Z) : result MultiMonitorValidationError unit :=
  guard_err (negb ((1 <=? max_monitors) && (max_monitors <=? MAX_MULTI_MONITOR_COUNT))) (InvalidMaxMonitors max_monitors).

(** The loops [if !seen.insert(a) { return Err(..) }]. *)
Fixpoint check_distinct {A} `{EqDecision A} (duplicate : A -> MultiMonitorValidationError) (seen l : list A)
  : result MultiMonitorValidationError unit :=
  match l with
  | [] => Ok tt
  | a :: l => if bool_decide (a ∈ seen) then Err (duplicate a) else check_distinct duplicate (a :: seen) l
  end.

Definition validate_supported_rotations (rotations : list RotationMsg) : result MultiMonitorValidationError unit :=
  if bool_decide (rotations = []) then Err EmptySupportedRotations
  else check_distinct DuplicateSupportedRotation [] rotations.

Definition validate_advertised_carriers (carriers : list MultiMonitorCarrierMsg) : result MultiMonitorValidationError unit :=
  if bool_decide (carriers = []) then Err EmptyAdvertisedCarriers
  else check_distinct DuplicateAdvertisedCarrier [] carriers.

Definition validate_client_supported_carriers (carriers : list MultiMonitorCarrierMsg)
  : result MultiMonitorValidationError unit :=
  if bool_decide (carriers = []) then Err EmptyClientSupportedCarriers
  else check_distinct DuplicateClientSupportedCarrier [] carriers.

Definition validate_multi_monitor_advertisement (max_monitors : Z) (rotations : list RotationMsg)
  (carriers : list MultiMonitorCarrierMsg) : result MultiMonitorValidationError unit :=
  _ ← validate_max_monitors max_monitors;
  _ ← validate_supported_rotations rotations;
  validate_advertised_carriers carriers.

Definition check_requested_rotation (rotations : list RotationMsg) (m : RequestedMonitorDescriptorMsg)
  : result MultiMonitorValidationError unit :=
  guard_err (negb (bool_decide (rq_rotation m ∈ rotations)))
    (UnsupportedRequestedRotation (rq_client_display_id m) (rq_rotation m)).

Definition validate_requested_topology_against_advertisement (max_monitors : Z) (rotations : list RotationMsg)
  (topology : RequestedMonitorTopologyMsg) : result MultiMonitorValidationError unit :=
  _ ← RequestedTopology_validate topology;
  let count := len (rt_monitors topology) in
  if max_monitors <? count then Err (RequestedMonitorCountExceedsMax count max_monitors)
  else forM_err (check_requested_rotation rotations) (rt_monitors topology).

Definition check_applied_rotation (rotations : list RotationMsg) (m : AppliedMonitorDescriptorMsg)
  : result MultiMonitorValidationError unit :=
  guard_err (negb (bool_decide (ap_rotation m ∈ rotations)))
    (UnsupportedAppliedRotation (ap_client_display_id m) (ap_rotation m)).

Definition validate_applied_topology_against_advertisement (max_monitors : Z) (rotations : list RotationMsg)
  (carriers : list MultiMonitorCarrierMsg) (topology : AppliedMonitorTopologyMsg) : result MultiMonitorValidationError unit :=
  _ ← AppliedTopology_validate topology;
  let count := len (at_monitors topology) in
  if max_monitors <? count then Err (AppliedMonitorCountExceedsMax count max_monitors)
  else if negb (bool_decide (at_selected_carrier topology ∈ carriers))
  then Err (UnadvertisedSelectedCarrier (at_selected_carrier topology))
  else forM_err (check_applied_rotation rotations) (at_monitors topology).

(** ** The negotiation *)

Record AuthMultiMonitorOfferMsg := mkOffer {
  of_max_monitors : Z; of_rotations : list RotationMsg; of_carriers : list MultiMonitorCarrierMsg
}.

Definition Offer_validate (o : AuthMultiMonitorOfferMsg) : result MultiMonitorValidationError unit :=
  validate_multi_monitor_advertisement (of_max_monitors o) (of_rotations o) (of_carriers o).

Definition AuthMultiMonitorOfferMsg_new (max_monitors : Z) (rotations : list RotationMsg)
  (carriers : list MultiMonitorCarrierMsg) : result MultiMonitorValidationError AuthMultiMonitorOfferMsg :=
  _ ← validate_multi_monitor_advertisement max_monitors rotations carriers;
  Ok (mkOffer max_monitors rotations carriers).

Record AuthMultiMonitorRequestMsg := mkRequest {
  rm_requested_topology : RequestedMonitorTopologyMsg; rm_carriers : list MultiMonitorCarrierMsg
}.

Definition AuthMultiMonitorRequestMsg_new (topology : RequestedMonitorTopologyMsg) (carriers : list MultiMonitorCarrierMsg)
  : result MultiMonitorValidationError AuthMultiMonitorRequestMsg :=
  _ ← RequestedTopology_validate topology;
  _ ← validate_client_supported_carriers carriers;
  Ok (mkRequest topology carriers).

Definition Request_validate (r : AuthMultiMonitorRequestMsg) : result MultiMonitorValidationError unit :=
  _ ← RequestedTopology_validate (rm_requested_topology r);
  validate_client_supported_carriers (rm_carriers r).

Definition common_request_carriers (o : AuthMultiMonitorOfferMsg) (r : AuthMultiMonitorRequestMsg)
  : list MultiMonitorCarrierMsg := filter (fun c => c ∈ of_carriers o) (rm_carriers r).

Definition validate_request (o : AuthMultiMonitorOfferMsg) (r : AuthMultiMonitorRequestMsg)
  : result MultiMonitorValidationError unit :=
  _ ← Request_validate r;
  _ ← validate_requested_topology_against_advertisement (of_max_monitors o) (of_rotations o) (rm_requested_topology r);
  if bool_decide (common_request_carriers o r = []) then Err NoCommonAuthCarrier else Ok tt.

Definition common_carriers (o : AuthMultiMonitorOfferMsg) (r : AuthMultiMonitorRequestMsg)
  : result MultiMonitorValidationError (list MultiMonitorCarrierMsg) :=
  _ ← validate_request o r; Ok (common_request_carriers o r).

Fixpoint first_preferred (common preferred_order : list MultiMonitorCarrierMsg) : option MultiMonitorCarrierMsg :=
  match preferred_order with
  | [] => None
  | c :: rest => if bool_decide (c ∈ common) then Some c else first_preferred common rest
  end.

(** [None] where [common[0]] would be out of bounds. *)
Definition select_carrier (o : AuthMultiMonitorOfferMsg) (r : AuthMultiMonitorRequestMsg)
  (preferred_order : list MultiMonitorCarrierMsg) : option (result MultiMonitorValidationError MultiMonitorCarrierMsg) :=
  match common_carriers o r with
  | Err e => Some (Err e)
  | Ok common =>
    match first_preferred common preferred_order with
    | Some c => Some (Ok c)
    | None => Ok <$> read_at common 0
    end
  end.

Inductive AuthRequestMultiMonitorOfferError := OfferMissing | OfferInvalid (e : MultiMonitorValidationError).

(** Of the [AuthRequest] only the offer it carries is read or written. *)
Definition attach_auth_request_multi_monitor_v1_offer (slot : option AuthMultiMonitorOfferMsg) (o : AuthMultiMonitorOfferMsg)
  : option AuthMultiMonitorOfferMsg * result MultiMonitorValidationError unit :=
  match Offer_validate o with Ok _ => (Some o, Ok tt) | Err e => (slot, Err e) end.

Definition required_auth_request_multi_monitor_v1_offer (slot : option AuthMultiMonitorOfferMsg)
  : result AuthRequestMultiMonitorOfferError AuthMultiMonitorOfferMsg :=
  o ← ok_or slot OfferMissing;
  match Offer_validate o with Ok _ => Ok o | Err e => Err (OfferInvalid e) end.

(** The fields of [AuthResponse] the request is attached to. *)
Record AuthResponseDisplays := mkAuthDisplays {
  screen_width : Z; screen_height : Z; displays_mode : string; monitors : list ClientMonitor;
  multi_monitor_v1 : option AuthMultiMonitorRequestMsg
}.

Definition attach_auth_response_multi_monitor_v1 (response : AuthResponseDisplays) (o : AuthMultiMonitorOfferMsg)
  (topology : RequestedMonitorTopologyMsg) (carriers : list MultiMonitorCarrierMsg)
  : option (AuthResponseDisplays * result MultiMonitorValidationError unit) :=
  match (request ← AuthMultiMonitorRequestMsg_new topology carriers; _ ← validate_request o request; Ok request) with
  | Err e => Some (response, Err e)
  | Ok request =>
    r ← validated_primary (rm_requested_topology request);
    Some match r with
    | Err e => (response, Err e)
    | Ok primary =>
      (mkAuthDisplays (rq_width_px primary) (rq_height_px primary) "match_layout"
         (legacy_monitors (rm_requested_topology request)) (Some request), Ok tt)
    end
  end.

Record ClientMultiMonitorMsg := mkClientMonitors {
  cl_max_monitors : Z; cl_rotations : list RotationMsg; cl_carriers : list MultiMonitorCarrierMsg;
  cl_requested_topology : option RequestedMonitorTopologyMsg
}.

Definition ClientMonitors_validate (c : ClientMultiMonitorMsg) : result MultiMonitorValidationError unit :=
  _ ← validate_multi_monitor_advertisement (cl_max_monitors c) (cl_rotations c) (cl_carriers c);
  match cl_requested_topology c with
  | Some topology => validate_requested_topology_against_advertisement (cl_max_monitors c) (cl_rotations c) topology
  | None => Ok tt
  end.

Definition ClientMultiMonitorMsg_new (max_monitors : Z) (rotations : list RotationMsg)
  (carriers : list MultiMonitorCarrierMsg) (topology : option RequestedMonitorTopologyMsg)
  : result MultiMonitorValidationError ClientMultiMonitorMsg :=
  let c := mkClientMonitors max_monitors rotations carriers topology in _ ← ClientMonitors_validate c; Ok c.

Record ServerMultiMonitorMsg := mkServerMonitors {
  sv_max_monitors : Z; sv_rotations : list RotationMsg; sv_fixed_topology : bool;
  sv_topology_backend : TopologyBackendKindMsg; sv_carriers : list MultiMonitorCarrierMsg;
  sv_applied_topology : option AppliedMonitorTopologyMsg
}.

Definition ServerMonitors_validate (s : ServerMultiMonitorMsg) : result MultiMonitorValidationError unit :=
  _ ← validate_multi_monitor_advertisement (sv_max_monitors s) (sv_rotations s) (sv_carriers s);
  match sv_applied_topology s with
  | Some topology =>
    validate_applied_topology_against_advertisement (sv_max_monitors s) (sv_rotations s) (sv_carriers s) topology
  | None => Ok tt
  end.

Definition ServerMultiMonitorMsg_new (max_monitors : Z) (rotations : list RotationMsg) (fixed_topology : bool)
  (topology_backend : TopologyBackendKindMsg) (carriers : list MultiMonitorCarrierMsg)
  (topology : option AppliedMonitorTopologyMsg) : result MultiMonitorValidationError ServerMultiMonitorMsg :=
  let s := mkServerMonitors max_monitors rotations fixed_topology topology_backend carriers topology in
  _ ← ServerMonitors_validate s; Ok s.

(** ** What the validators require *)

(** The least and the greatest value of [f] on [l]. *)
Definition least {A} (f : A -> Z) (l : list A) (m : Z) : Prop := (forall a, a ∈ l -> m <= f a) /\ exists a, a ∈ l /\ f a = m.
Definition greatest {A} (f : A -> Z) (l : list A) (m : Z) : Prop := (forall a, a ∈ l -> f a <= m) /\ exists a, a ∈ l /\ f a = m.

(** [b] is the smallest rectangle that contains the rectangles. *)
Definition is_hull (rects : list CheckedLayoutRect) (b : CheckedLayoutBounds) : Prop :=
  least clr_x rects (clb_x b) /\ least clr_y rects (clb_y b) /\
  greatest right_exclusive rects (clb_x b + clb_width b) /\ greatest bottom_exclusive rects (clb_y b + clb_height b).

(** The fields are integers of their widths. *)
Definition rect_typed (r : CheckedLayoutRect) : Prop :=
  in_signed 32 (clr_x r) /\ in_signed 32 (clr_y r) /\ is_u32 (clr_width r) /\ is_u32 (clr_height r).

(** A nonempty rectangle that ends within the signed 32-bit desktop. *)
Definition rect_ok (r : CheckedLayoutRect) : Prop :=
  clr_width r <> 0 /\ clr_height r <> 0 /\ right_exclusive r <= 2 ^ 31 /\ bottom_exclusive r <= 2 ^ 31.

Definition requested_layout (m : RequestedMonitorDescriptorMsg) : CheckedLayoutRect :=
  mkLayoutRect (rq_x m) (rq_y m) (rq_logical_width m) (rq_logical_height m).
Definition applied_rect (m : AppliedMonitorDescriptorMsg) : CheckedLayoutRect :=
  mkLayoutRect (ap_x m) (ap_y m) (ap_width_px m) (ap_height_px m).
Definition declared_bounds (d : DeclaredDesktop) : CheckedLayoutBounds :=
  mkLayoutBounds (desktop_x d) (desktop_y d) (desktop_width_px d) (desktop_height_px d).

Definition desktop_typed (d : DeclaredDesktop) : Prop :=
  in_signed 32 (desktop_x d) /\ in_signed 32 (desktop_y d) /\ is_u32 (desktop_width_px d) /\ is_u32 (desktop_height_px d) /\
  in_signed 64 (translation_x d) /\ in_signed 64 (translation_y d).

Definition requested_monitor_ok (m : RequestedMonitorDescriptorMsg) : Prop :=
  is_finite (rq_scale m) = true /\ SFleb (rq_scale m) F32_ZERO = false /\ rect_ok (requested_layout m) /\
  rq_width_px m <> 0 /\ rq_height_px m <> 0.

Definition media_plan_ok (p : AppliedMonitorMediaPlanMsg) : Prop :=
  mp_width_px p <> 0 /\ mp_height_px p <> 0 /\ mp_fps p <> 0 /\ mp_bitrate_kbps p <> 0 /\ mp_stream_epoch p <> 0 /\
  mp_encoder_backend p <> "" /\ mp_encoder_class p ∈ [""; "hardware"; "software"] /\
  mp_codec p ∈ ["jpeg"; "h264"; "h265"; "vp9"; "av1"] /\ mp_chroma p ∈ ["yuv420"; "yuv422"; "yuv444"].

Definition applied_monitor_ok (m : AppliedMonitorDescriptorMsg) : Prop :=
  ap_session_monitor_id m <> 0 /\ rect_ok (applied_rect m) /\ media_plan_ok (ap_media_plan m).

(** Exactly one element is primary: the one at [i]. *)
Definition primary_at {A} (primary : A -> bool) (l : list A) (i : Z) : Prop :=
  exists pre a post, l = pre ++ a :: post /\ i = len pre /\ primary a = true /\
    Forall (fun a => primary a = false) (pre ++ post).

(** The declared origin [d] of an axis after moving the desktop by [t]: it is
    not negative, and only a desktop that began on the negative side is moved,
    to zero. *)
Definition axis_translation (d t : Z) : Prop := (t = 0 /\ 0 <= d) \/ (d = 0 /\ 0 < t <= 2 ^ 31).

Record requested_topology_ok (monitors : list RequestedMonitorDescriptorMsg) (i : Z) : Prop := {
  rto_count : 1 <= len monitors <= MAX_MULTI_MONITOR_COUNT;
  rto_display_ids : NoDup (map rq_client_display_id monitors);
  rto_monitor_ids : NoDup (map rq_client_monitor_id monitors);
  rto_monitors : Forall requested_monitor_ok monitors;
  rto_primary : primary_at rq_is_primary monitors i;
  rto_bounds : exists b, is_hull (map requested_layout monitors) b /\ clb_width b < 2 ^ 32 /\ clb_height b < 2 ^ 32
}.

Record applied_topology_ok (generation : Z) (d : DeclaredDesktop) (monitors : list AppliedMonitorDescriptorMsg) (i : Z) : Prop := {
  ato_generation : generation <> 0;
  ato_count : 1 <= len monitors <= MAX_MULTI_MONITOR_COUNT;
  ato_display_ids : NoDup (map ap_client_display_id monitors);
  ato_session_ids : NoDup (map ap_session_monitor_id monitors);
  ato_monitors : Forall applied_monitor_ok monitors;
  ato_primary : primary_at ap_is_primary monitors i;
  ato_desktop : is_hull (map applied_rect monitors) (declared_bounds d);
  ato_translation_x : axis_translation (desktop_x d) (translation_x d);
  ato_translation_y : axis_translation (desktop_y d) (translation_y d)
}.

(** ** Lemmas: rectangles *)

Lemma layout_end_Ok origin extent c :
  in_signed 32 origin -> is_u32 extent -> validate_layout_end origin extent c = Ok tt <-> origin + extent <= 2 ^ 31.
Proof.
  unfold in_signed, in_width. intros Ho He. unfold validate_layout_end, I32_MAX.
  rewrite (try_signed_in 64 (origin + extent)) by (unfold in_signed; lia).
  cbn [ok_or mbind result_bind]. rewrite guard_err_Ok. lia.
Qed.

Lemma rect_new_Ok x y w h e c r :
  rect_typed (mkLayoutRect x y w h) ->
  CheckedLayoutRect_new x y w h e c = Ok r <-> r = mkLayoutRect x y w h /\ rect_ok r.
Proof.
  intros (Hx & Hy & Hw & Hh). cbn in Hx, Hy, Hw, Hh. unfold CheckedLayoutRect_new.
  destruct (Z.eqb_spec w 0) as [->|]; cbn [orb]; [split; [done|intros [-> (H & _)]; done]|].
  destruct (Z.eqb_spec h 0) as [->|]; [split; [done|intros [-> (_ & H & _)]; done]|].
  rewrite unit_bind_Ok, unit_bind_Ok, !layout_end_Ok by done. unfold rect_ok, right_exclusive, bottom_exclusive. split.
  - by intros (? & ? & [= <-]).
  - intros (-> & _ & _ & ? & ?). done.
Qed.

Lemma least_unique {A} (f : A -> Z) l m m' : least f l m -> least f l m' -> m = m'.
Proof. intros [H (a & Ha & <-)] [H' (a' & Ha' & <-)]. specialize (H a' Ha'). specialize (H' a Ha). lia. Qed.

Lemma greatest_unique {A} (f : A -> Z) l m m' : greatest f l m -> greatest f l m' -> m = m'.
Proof. intros [H (a & Ha & <-)] [H' (a' & Ha' & <-)]. specialize (H a' Ha'). specialize (H' a Ha). lia. Qed.

Lemma least_snoc {A} (f : A -> Z) l m a : least f l m -> least f (l ++ [a]) (Z.min m (f a)).
Proof.
  intros [H (b & Hb & E)]. split.
  - intros c [Hc|Hc%list_elem_of_singleton]%elem_of_app; [specialize (H c Hc)|subst c]; lia.
  - destruct (Z.min_spec m (f a)) as [[_ ->]|[_ ->]]; [exists b|exists a]; (split; [set_solver|done]).
Qed.

Lemma greatest_snoc {A} (f : A -> Z) l m a : greatest f l m -> greatest f (l ++ [a]) (Z.max m (f a)).
Proof.
  intros [H (b & Hb & E)]. split.
  - intros c [Hc|Hc%list_elem_of_singleton]%elem_of_app; [specialize (H c Hc)|subst c]; lia.
  - destruct (Z.max_spec m (f a)) as [[_ ->]|[_ ->]]; [exists a|exists b]; (split; [set_solver|done]).
Qed.

(** The loop keeps the four extremes. *)
Lemma grow_bounds_spec rest : forall seen mx my xr xb,
  least clr_x seen mx -> least clr_y seen my -> greatest right_exclusive seen xr -> greatest bottom_exclusive seen xb ->
  exists mx' my' xr' xb', fold_left grow_bounds rest (mx, my, xr, xb) = (mx', my', xr', xb') /\
    least clr_x (seen ++ rest) mx' /\ least clr_y (seen ++ rest) my' /\
    greatest right_exclusive (seen ++ rest) xr' /\ greatest bottom_exclusive (seen ++ rest) xb'.
Proof.
  induction rest as [|r rest IH]; intros seen mx my xr xb H1 H2 H3 H4.
  - rewrite app_nil_r. by exists mx, my, xr, xb.
  - cbn [fold_left grow_bounds]. replace (seen ++ r :: rest) with ((seen ++ [r]) ++ rest) by (by rewrite <- app_assoc).
    apply IH; by (apply least_snoc || apply greatest_snoc).
Qed.

Lemma from_rects_Ok rects c b :
  Forall rect_typed rects -> Forall rect_ok rects ->
  from_rects rects c = Ok b <-> is_hull rects b /\ clb_width b < 2 ^ 32 /\ clb_height b < 2 ^ 32.
Proof.
  intros Ht Ho. destruct rects as [|r rest]; [split; [done|intros [[[_ (a & []%elem_of_nil & _)] _] _]]|].
  unfold from_rects.
  destruct (grow_bounds_spec rest [r] (clr_x r) (clr_y r) (right_exclusive r) (bottom_exclusive r))
    as (mx & my & xr & xb & E & H1 & H2 & H3 & H4).
  1-4: split; [intros a ->%list_elem_of_singleton; lia|exists r; split; [by left|done]].
  rewrite E. cbn [app] in H1, H2, H3, H4.
  pose proof (proj1 (Forall_forall _ _) Ht) as Ht'. pose proof (proj1 (Forall_forall _ _) Ho) as Ho'.
  assert (Hx : in_signed 32 mx) by (destruct H1 as [_ (a & Ha & <-)]; apply (Ht' a Ha)).
  assert (Hy : in_signed 32 my) by (destruct H2 as [_ (a & Ha & <-)]; apply (Ht' a Ha)).
  assert (Hw : 0 < xr - mx <= 2 ^ 32).
  { pose proof (proj1 H1 r ltac:(left)). pose proof (proj1 H3 r ltac:(left)). destruct (Ho' r ltac:(left)) as (Hnz & _).
    destruct (Ht' r ltac:(left)) as (_ & _ & Hwr & _). unfold right_exclusive, in_width, in_signed in *.
    destruct H3 as [_ (a & Ha & <-)]. destruct (Ho' a Ha) as (_ & _ & Hr & _). unfold right_exclusive in *. lia. }
  assert (Hh : 0 < xb - my <= 2 ^ 32).
  { pose proof (proj1 H2 r ltac:(left)). pose proof (proj1 H4 r ltac:(left)). destruct (Ho' r ltac:(left)) as (_ & Hnz & _).
    destruct (Ht' r ltac:(left)) as (_ & _ & _ & Hhr). unfold bottom_exclusive, in_width, in_signed in *.
    destruct H4 as [_ (a & Ha & <-)]. destruct (Ho' a Ha) as (_ & _ & _ & Hr). unfold bottom_exclusive in *. lia. }
  rewrite (try_signed_in 64 (xr - mx)), (try_signed_in 64 (xb - my)) by (unfold in_signed; lia).
  cbn [ok_or mbind result_bind]. unfold checked_i64_to_i32.
  rewrite (try_signed_in 32 mx Hx), (try_signed_in 32 my Hy).
  cbn [ok_or mbind result_bind]. split.
  - intros (w & Hw1 & (h & Hh1 & [= <-])%bind_Ok)%bind_Ok. inv_ok.
    apply try_unsigned_Some in Hw1 as [-> Hw1]. apply try_unsigned_Some in Hh1 as [-> Hh1].
    unfold is_hull. cbn [clb_x clb_y clb_width clb_height]. rewrite !Zplus_minus. unfold in_width in *.
    split_and!; try done; lia.
  - intros [(L1 & L2 & G1 & G2) [Hbw Hbh]].
    pose proof (least_unique _ _ _ _ H1 L1) as ->. pose proof (least_unique _ _ _ _ H2 L2) as ->.
    pose proof (greatest_unique _ _ _ _ H3 G1) as Er. pose proof (greatest_unique _ _ _ _ H4 G2) as Eb.
    replace (xr - clb_x b) with (clb_width b) in * by lia. replace (xb - clb_y b) with (clb_height b) in * by lia.
    rewrite (try_unsigned_in 32 (clb_width b)), (try_unsigned_in 32 (clb_height b)) by (unfold in_width; lia).
    cbn. by destruct b.
Qed.

(** ** Lemmas: the loops *)

Definition distinct_from {A} (seen l : list A) : Prop := NoDup l /\ forall a, a ∈ l -> a ∉ seen.

Lemma distinct_cons {A} (seen : list A) a l : distinct_from seen (a :: l) <-> (a ∉ seen) /\ distinct_from (a :: seen) l.
Proof.
  unfold distinct_from. rewrite NoDup_cons. split.
  - intros [[Hn Hd] H]. split; [apply H; by left|]. split; [done|]. intros b Hb [->|Hs]%elem_of_cons; [done|].
    apply (H b); [by right|done].
  - intros (Hs & Hd & H). split; [split; [|done]|].
    + intros Ha. apply (H a Ha). by left.
    + intros b [->|Hb]%elem_of_cons; [done|]. intros Hc. apply (H b Hb). by right.
Qed.

Lemma distinct_from_nothing {A} (l : list A) : distinct_from [] l <-> NoDup l.
Proof. unfold distinct_from. split; [by intros [? _]|]. intros H. split; [done|]. by intros a _ []%elem_of_nil. Qed.

Lemma check_distinct_Ok {A} `{EqDecision A} (duplicate : A -> MultiMonitorValidationError) l : forall seen,
  check_distinct duplicate seen l = Ok tt <-> distinct_from seen l.
Proof.
  induction l as [|a l IH]; intros seen; cbn [check_distinct].
  { split; [|done]. intros _. split; [constructor|]. by intros a []%elem_of_nil. }
  rewrite distinct_cons, <- IH. case_bool_decide; [split; [done|tauto]|]. tauto.
Qed.

Fixpoint note_primaries (p : Z * option Z) (index : Z) (l : list bool) : Z * option Z :=
  match l with [] => p | b :: l => note_primaries (note_primary b index p) (index + 1) l end.

Lemma note_primaries_none l : forall p index, Forall (fun b => b = false) l -> note_primaries p index l = p.
Proof. induction l as [|b l IH]; intros p index; [done|]. intros [-> Hl]%Forall_cons. by apply IH. Qed.

Lemma note_primaries_count l : forall p index,
  p.1 <= (note_primaries p index l).1 /\ ((note_primaries p index l).1 = p.1 -> Forall (fun b => b = false) l).
Proof.
  induction l as [|b l IH]; intros p index; cbn [note_primaries]; [split; [lia|constructor]|].
  destruct (IH (note_primary b index p) (index + 1)) as [H1 H2]. destruct b; cbn [note_primary fst] in *.
  - split; [lia|]. intros E. lia.
  - split; [done|]. intros E. constructor; [done|]. by apply H2.
Qed.

Lemma note_primaries_app pre : forall p index l,
  Forall (fun b => b = false) pre -> note_primaries p index (pre ++ l) = note_primaries p (index + len pre) l.
Proof.
  induction pre as [|b pre IH]; intros p index l Hf; cbn [app note_primaries].
  - change (len []) with 0. by rewrite Z.add_0_r.
  - apply Forall_cons in Hf as [-> Hf]. cbn [note_primary]. rewrite IH by done. rewrite len_cons. f_equal. lia.
Qed.

Lemma split_first {A} (primary : A -> bool) l :
  Forall (fun a => primary a = false) l \/
  exists pre a post, l = pre ++ a :: post /\ primary a = true /\ Forall (fun a => primary a = false) pre.
Proof.
  induction l as [|a l [IH|(pre & b & post & -> & Hb & Hp)]]; [by left| |].
  - destruct (primary a) eqn:E; [right; by exists [], a, l|left; by constructor].
  - right. destruct (primary a) eqn:E; [by exists [], a, (pre ++ b :: post)|].
    exists (a :: pre), b, post. split_and!; [done|done|by constructor].
Qed.

Lemma primary_Ok {A} (primary : A -> bool) l i :
  finish_primary (note_primaries (0, None) 0 (map primary l)) = Ok i <-> primary_at primary l i.
Proof.
  assert (Hmap : forall l, Forall (fun b => b = false) (map primary l) <-> Forall (fun a => primary a = false) l)
    by (intros l'; apply Forall_fmap).
  unfold primary_at. split.
  - intros H. destruct (split_first primary l) as [Hf|(pre & a & post & -> & Ha & Hpre)].
    { rewrite note_primaries_none in H by (by apply Hmap). done. }
    rewrite map_app, note_primaries_app in H by (by apply Hmap). cbn [map note_primaries] in H. rewrite Ha in H.
    cbn [note_primary] in H. rewrite Z.add_0_l in H.
    pose proof (note_primaries_count (map primary post) (0 + 1, Some (len (map primary pre))) (len (map primary pre) + 1)) as [_ Hc].
    unfold finish_primary in H. cbn [fst] in *.
    destruct (note_primaries _ _ (map primary post)) as [n o] eqn:En. cbn [fst snd] in *.
    destruct o as [j|]; cbn [ok_or mbind result_bind] in H; [|done].
    destruct (Z.eqb_spec n 1) as [->|]; cbn [negb] in H; [|done]. specialize (Hc eq_refl).
    rewrite note_primaries_none in En by done. injection En as <-. injection H as <-.
    exists pre, a, post. split_and!; [done| |done|].
    + unfold len. by rewrite length_map.
    + apply Forall_app. split; [done|]. by apply Hmap.
  - intros (pre & a & post & -> & -> & Ha & [Hpre Hpost]%Forall_app).
    rewrite map_app, note_primaries_app by (by apply Hmap). cbn [map note_primaries]. rewrite Ha. cbn [note_primary].
    rewrite note_primaries_none by (by apply Hmap). unfold finish_primary. cbn. unfold len. by rewrite length_map.
Qed.

Lemma requested_rect_Ok m r :
  rect_typed (requested_layout m) -> requested_rect m = Ok r <-> r = requested_layout m /\ requested_monitor_ok m.
Proof.
  intros Ht. unfold requested_rect, requested_monitor_ok.
  destruct (is_finite (rq_scale m)); cbn [negb orb]; [|naive_solver].
  destruct (SFleb (rq_scale m) F32_ZERO); [naive_solver|].
  rewrite bind_Ok. setoid_rewrite (rect_new_Ok _ _ _ _ _ _ _ Ht).
  destruct (Z.eqb_spec (rq_width_px m) 0) as [Ew|Ew]; cbn [orb].
  { split; [by intros (? & _ & ?)|]. intros (_ & _ & _ & _ & H & _). done. }
  destruct (Z.eqb_spec (rq_height_px m) 0) as [Eh|Eh].
  { split; [by intros (? & _ & ?)|]. intros (_ & _ & _ & _ & _ & H). done. }
  split.
  - intros (a & [-> Ho] & [= <-]). done.
  - intros (-> & _ & _ & Ho & _). by exists (requested_layout m).
Qed.

Lemma requested_loop_Ok monitors : forall ids mids rects p index rects' p',
  Forall (fun m => rect_typed (requested_layout m)) monitors ->
  requested_loop ids mids rects p index monitors = Ok (rects', p') <->
  distinct_from ids (map rq_client_display_id monitors) /\ distinct_from mids (map rq_client_monitor_id monitors) /\
  Forall requested_monitor_ok monitors /\ rects' = rects ++ map requested_layout monitors /\
  p' = note_primaries p index (map rq_is_primary monitors).
Proof.
  induction monitors as [|m monitors IH]; intros ids mids rects p index rects' p' Ht; cbn [requested_loop map note_primaries].
  - rewrite app_nil_r. unfold distinct_from. split.
    + intros [= <- <-]. split_and!; try constructor; intros a []%elem_of_nil.
    + by intros (_ & _ & _ & -> & ->).
  - apply Forall_cons in Ht as [Hm Ht]. rewrite !distinct_cons, Forall_cons.
    case_bool_decide; [split; [done|tauto]|]. case_bool_decide; [split; [done|tauto]|].
    rewrite bind_Ok. setoid_rewrite (requested_rect_Ok m _ Hm). split.
    + intros (r & [-> Hr] & H1). apply IH in H1 as (? & ? & ? & -> & ->); [|done]. rewrite <- app_assoc. done.
    + intros ([_ ?] & [_ ?] & [? ?] & -> & ->). exists (requested_layout m). split; [done|].
      apply IH; [done|]. rewrite <- app_assoc. done.
Qed.

Lemma applied_descriptor_Ok m r :
  rect_typed (applied_rect m) -> validate_applied_monitor_descriptor m = Ok r <-> r = applied_rect m /\ applied_monitor_ok m.
Proof.
  intros Ht. unfold validate_applied_monitor_descriptor, applied_monitor_ok, media_plan_ok, one_of.
  rewrite unit_bind_Ok, bind_Ok. setoid_rewrite (rect_new_Ok _ _ _ _ _ _ _ Ht).
  repeat setoid_rewrite unit_bind_Ok. setoid_rewrite guard_err_Ok.
  repeat setoid_rewrite negb_false_iff. repeat setoid_rewrite bool_decide_eq_true.
  setoid_rewrite bool_decide_eq_false. repeat setoid_rewrite orb_false_iff. repeat setoid_rewrite Z.eqb_neq. split.
  - intros (H1 & a & [-> Ho] & [H2 H3] & H4 & H5 & H6 & H7 & H8 & H9 & H10 & [= <-]). done.
  - intros (-> & H1 & Ho & H2 & H3 & H4 & H5 & H6 & H7 & H8 & H9 & H10). split; [done|]. by exists (applied_rect m).
Qed.

Lemma applied_loop_Ok monitors : forall ids sids rects p index rects' p',
  Forall (fun m => rect_typed (applied_rect m)) monitors ->
  applied_loop ids sids rects p index monitors = Ok (rects', p') <->
  distinct_from ids (map ap_client_display_id monitors) /\ distinct_from sids (map ap_session_monitor_id monitors) /\
  Forall applied_monitor_ok monitors /\ rects' = rects ++ map applied_rect monitors /\
  p' = note_primaries p index (map ap_is_primary monitors).
Proof.
  induction monitors as [|m monitors IH]; intros ids sids rects p index rects' p' Ht; cbn [applied_loop map note_primaries].
  - rewrite app_nil_r. unfold distinct_from. split.
    + intros [= <- <-]. split_and!; try constructor; intros a []%elem_of_nil.
    + by intros (_ & _ & _ & -> & ->).
  - apply Forall_cons in Ht as [Hm Ht]. rewrite !distinct_cons, Forall_cons.
    case_bool_decide; [split; [done|tauto]|].
    rewrite bind_Ok. setoid_rewrite (applied_descriptor_Ok m _ Hm). case_bool_decide.
    { split; [by intros (? & _ & ?)|tauto]. }
    split.
    + intros (r & [-> Hr] & H1). apply IH in H1 as (? & ? & ? & -> & ->); [|done]. rewrite <- app_assoc. done.
    + intros ([_ ?] & [_ ?] & [? ?] & -> & ->). exists (applied_rect m). split; [done|].
      apply IH; [done|]. rewrite <- app_assoc. done.
Qed.

(** ** Lemmas: the validators *)

Lemma count_Ok n : validate_multi_monitor_count n = Ok tt <-> 0 < n <= MAX_MULTI_MONITOR_COUNT \/ n < 0.
Proof.
  unfold validate_multi_monitor_count, MAX_MULTI_MONITOR_COUNT. rewrite guard_err_Ok, orb_false_iff, Z.eqb_neq, Z.ltb_ge. lia.
Qed.

Lemma axis_translation_Ok d t :
  in_signed 32 d -> in_signed 64 t ->
  (exists s, in_signed 64 (- t) /\ in_signed 64 (d + - t) /\ s = d + - t /\ in_signed 32 s /\ (if s <? 0 then - s else 0) = t) <->
  axis_translation d t.
Proof.
  unfold in_signed, axis_translation. intros Hd Ht. split.
  - intros (s & _ & _ & -> & Hs & E). destruct (Z.ltb_spec (d + - t) 0); lia.
  - intros [[-> Hp]|[-> Hp]]; eexists; (split_and!; [..|reflexivity| | |]); try lia.
    + destruct (Z.ltb_spec (d + - 0) 0); lia.
    + destruct (Z.ltb_spec (0 + - t) 0); lia.
Qed.

Lemma declared_translation_Ok b tx ty :
  in_signed 32 (clb_x b) -> in_signed 32 (clb_y b) -> in_signed 64 tx -> in_signed 64 ty ->
  validate_declared_desktop_translation b tx ty = Ok tt <-> axis_translation (clb_x b) tx /\ axis_translation (clb_y b) ty.
Proof.
  intros Hx Hy Htx Hty. rewrite <- (axis_translation_Ok (clb_x b) tx), <- (axis_translation_Ok (clb_y b) ty) by done.
  unfold validate_declared_desktop_translation, translated, checked_i64_to_i32.
  repeat setoid_rewrite bind_Ok. repeat setoid_rewrite ok_or_Ok. repeat setoid_rewrite try_signed_Some. split.
  - intros (? & [-> H1] & ? & [-> H2] & b' & (? & [-> H3] & ? & [-> H4] & ? & [-> H5] & ? & [-> H6] & [= <-]) & Hg).
    apply guard_err_Ok, negb_false_iff, bool_decide_eq_true in Hg. unfold translation_to_origin in Hg. cbn in Hg.
    injection Hg as E1 E2. split; eexists; (split_and!; [done|done|reflexivity|done|done]).
  - intros [(s & H1 & H2 & -> & H3 & E1) (s' & H1' & H2' & -> & H3' & E2)].
    exists (- tx). split; [done|]. exists (- ty). split; [done|].
    exists (mkLayoutBounds (clb_x b + - tx) (clb_y b + - ty) (clb_width b) (clb_height b)). split.
    + exists (clb_x b + - tx). split; [done|]. exists (clb_x b + - tx). split; [done|].
      exists (clb_y b + - ty). split; [done|]. by exists (clb_y b + - ty).
    + apply guard_err_Ok, negb_false_iff, bool_decide_eq_true. unfold translation_to_origin. cbn [clb_x clb_y]. congruence.
Qed.

Lemma hull_ok rects b : Forall rect_ok rects -> Forall rect_typed rects -> is_hull rects b ->
  clb_width b <> 0 /\ clb_height b <> 0 /\ clb_x b + clb_width b <= 2 ^ 31 /\ clb_y b + clb_height b <= 2 ^ 31.
Proof.
  intros Ho Ht ((Lx & a1 & Ha1 & E1) & (Ly & a2 & Ha2 & E2) & (Gx & a3 & Ha3 & E3) & (Gy & a4 & Ha4 & E4)).
  pose proof (proj1 (Forall_forall _ _) Ho) as Ho'. pose proof (proj1 (Forall_forall _ _) Ht) as Ht'.
  pose proof (Lx a3 Ha3). pose proof (Ly a4 Ha4). destruct (Ho' a3 Ha3) as (? & _ & ? & _). destruct (Ho' a4 Ha4) as (_ & ? & _ & ?).
  destruct (Ht' a3 Ha3) as (_ & _ & ? & _). destruct (Ht' a4 Ha4) as (_ & _ & _ & ?).
  unfold right_exclusive, bottom_exclusive, in_width in *. lia.
Qed.

Lemma declared_Ok d :
  desktop_typed d -> forall b, validate_declared_desktop_bounds (desktop_x d) (desktop_y d) (desktop_width_px d) (desktop_height_px d) = Ok b <->
    b = declared_bounds d /\ rect_ok (mkLayoutRect (desktop_x d) (desktop_y d) (desktop_width_px d) (desktop_height_px d)).
Proof.
  intros (Hx & Hy & Hw & Hh & _) b. unfold validate_declared_desktop_bounds. rewrite bind_Ok.
  setoid_rewrite rect_new_Ok; [|by split_and!]. split.
  - intros (r & [-> Ho] & [= <-]). done.
  - intros [-> Ho]. eexists. split; [by split|]. done.
Qed.

Lemma applied_rects_ok monitors : Forall applied_monitor_ok monitors -> Forall rect_ok (map applied_rect monitors).
Proof. intros H. apply Forall_fmap. eapply Forall_impl; [exact H|]. by intros m (_ & ? & _). Qed.

Lemma requested_rects_ok monitors : Forall requested_monitor_ok monitors -> Forall rect_ok (map requested_layout monitors).
Proof. intros H. apply Forall_fmap. eapply Forall_impl; [exact H|]. by intros m (_ & _ & ? & _). Qed.

Lemma validate_applied_Ok generation d monitors i :
  Forall (fun m => rect_typed (applied_rect m)) monitors -> desktop_typed d ->
  validate_applied_topology generation d monitors = Ok i <-> applied_topology_ok generation d monitors i.
Proof.
  intros Ht Hd. unfold validate_applied_topology.
  assert (Htr : Forall rect_typed (map applied_rect monitors)) by (by apply Forall_fmap).
  rewrite unit_bind_Ok, guard_err_Ok, Z.eqb_neq, unit_bind_Ok, count_Ok, bind_Ok. pose proof (len_nonneg monitors).
  pose proof (declared_Ok d Hd) as Hdecl.
  pose proof Hd as (Hx & Hy & Hw & Hh & Htx & Hty). split.
  - intros (Hg & Hc & [rects p] & Hl & Hrest). apply applied_loop_Ok in Hl as (H1 & H2 & H3 & -> & ->); [|done]. cbn [app] in Hrest.
    apply bind_Ok in Hrest as (i' & Hp & Hrest). apply bind_Ok in Hrest as (b & Hb & Hrest).
    apply bind_Ok in Hrest as (h & Hhull & Hrest). apply unit_bind_Ok in Hrest as [Eh Hrest].
    apply unit_bind_Ok in Hrest as [Htr' [= ->]]. apply Hdecl in Hb as [-> _].
    apply guard_err_Ok, negb_false_iff, bool_decide_eq_true in Eh as ->.
    apply from_rects_Ok in Hhull as [Hhull _]; [|done|by apply applied_rects_ok].
    apply declared_translation_Ok in Htr' as [T1 T2]; [|done..]. apply primary_Ok in Hp. apply distinct_from_nothing in H1, H2.
    split; try done. lia.
  - intros [Hg Hc H1 H2 H3 Hp Hhull T1 T2]. split; [done|]. split; [lia|].
    exists (map applied_rect monitors, note_primaries (0, None) 0 (map ap_is_primary monitors)). split.
    { apply applied_loop_Ok; [done|]. by rewrite !distinct_from_nothing. }
    apply bind_Ok. exists i. split; [by apply primary_Ok|].
    destruct (hull_ok _ _ (applied_rects_ok _ H3) Htr Hhull) as (D1 & D2 & D3 & D4).
    apply bind_Ok. exists (declared_bounds d). split; [by apply Hdecl|].
    apply bind_Ok. exists (declared_bounds d). split.
    { apply from_rects_Ok; [done|by apply applied_rects_ok|]. split; [done|]. unfold in_width in *. cbn. lia. }
    apply unit_bind_Ok. split; [apply guard_err_Ok; by rewrite bool_decide_true|].
    apply unit_bind_Ok. split; [by apply declared_translation_Ok|done].
Qed.

Lemma validate_requested_Ok monitors i :
  Forall (fun m => rect_typed (requested_layout m)) monitors ->
  validate_requested_topology monitors = Ok i <-> requested_topology_ok monitors i.
Proof.
  intros Ht. unfold validate_requested_topology.
  assert (Htr : Forall rect_typed (map requested_layout monitors)) by (by apply Forall_fmap).
  rewrite unit_bind_Ok, count_Ok, bind_Ok. pose proof (len_nonneg monitors). split.
  - intros (Hc & [rects p] & Hl & Hrest). apply requested_loop_Ok in Hl as (H1 & H2 & H3 & -> & ->); [|done]. cbn [app] in Hrest.
    apply bind_Ok in Hrest as (i' & Hp & Hrest). apply bind_Ok in Hrest as (b & Hb & [= ->]).
    apply from_rects_Ok in Hb; [|done|by apply requested_rects_ok]. apply primary_Ok in Hp. apply distinct_from_nothing in H1, H2.
    split; try done; [lia|by exists b].
  - intros [Hc H1 H2 H3 Hp (b & Hb)]. split; [lia|].
    exists (map requested_layout monitors, note_primaries (0, None) 0 (map rq_is_primary monitors)). split.
    { apply requested_loop_Ok; [done|]. by rewrite !distinct_from_nothing. }
    apply bind_Ok. exists i. split; [by apply primary_Ok|]. apply bind_Ok. exists b. split; [|done].
    apply from_rects_Ok; [done|by apply requested_rects_ok|done].
Qed.

(** ** Lemmas: the negotiation *)

Lemma advertisement_Ok max_monitors rotations carriers :
  validate_multi_monitor_advertisement max_monitors rotations carriers = Ok tt <->
  1 <= max_monitors <= MAX_MULTI_MONITOR_COUNT /\ rotations <> [] /\ NoDup rotations /\ carriers <> [] /\ NoDup carriers.
Proof.
  unfold validate_multi_monitor_advertisement, validate_max_monitors, validate_supported_rotations, validate_advertised_carriers.
  rewrite unit_bind_Ok, unit_bind_Ok, guard_err_Ok, negb_false_iff, andb_true_iff, !Z.leb_le.
  case_bool_decide; [naive_solver|]. case_bool_decide; [naive_solver|].
  rewrite !check_distinct_Ok, !distinct_from_nothing. tauto.
Qed.

Lemma requested_rotations_Ok rotations monitors :
  forM_err (check_requested_rotation rotations) monitors = Ok tt <-> Forall (fun m => rq_rotation m ∈ rotations) monitors.
Proof.
  rewrite forM_err_Ok. apply Forall_iff. intros m. unfold check_requested_rotation.
  by rewrite guard_err_Ok, negb_false_iff, bool_decide_eq_true.
Qed.

Lemma applied_rotations_Ok rotations monitors :
  forM_err (check_applied_rotation rotations) monitors = Ok tt <-> Forall (fun m => ap_rotation m ∈ rotations) monitors.
Proof.
  rewrite forM_err_Ok. apply Forall_iff. intros m. unfold check_applied_rotation.
  by rewrite guard_err_Ok, negb_false_iff, bool_decide_eq_true.
Qed.

(** Validating again what a constructor accepted. *)
Lemma Request_new_valid topology carriers request :
  AuthMultiMonitorRequestMsg_new topology carriers = Ok request ->
  request = mkRequest topology carriers /\ Request_validate request = Ok tt.
Proof.
  unfold AuthMultiMonitorRequestMsg_new, Request_validate. intros (i & Hi & [Hc [= <-]]%unit_bind_Ok)%bind_Ok.
  split; [done|]. apply bind_Ok. by exists i.
Qed.

(** What a request must satisfy to be within an offer. *)
Definition request_fits (o : AuthMultiMonitorOfferMsg) (r : AuthMultiMonitorRequestMsg) : Prop :=
  len (rt_monitors (rm_requested_topology r)) <= of_max_monitors o /\
  Forall (fun m => rq_rotation m ∈ of_rotations o) (rt_monitors (rm_requested_topology r)) /\
  exists c, c ∈ of_carriers o /\ c ∈ rm_carriers r.

Lemma validate_request_Ok o r :
  Request_validate r = Ok tt -> validate_request o r = Ok tt <-> request_fits o r.
Proof.
  intros Hr. unfold validate_request, request_fits. rewrite Hr. cbn [mbind result_bind].
  unfold Request_validate in Hr. apply bind_Ok in Hr as (i & Hi & _).
  unfold validate_requested_topology_against_advertisement. rewrite Hi. cbn [mbind result_bind].
  destruct (Z.ltb_spec (of_max_monitors o) (len (rt_monitors (rm_requested_topology r)))).
  { split; [done|]. intros [? _]. lia. }
  rewrite unit_bind_Ok, requested_rotations_Ok. unfold common_request_carriers. case_bool_decide as Hc.
  - split; [by intros [_ ?]|]. intros (_ & _ & c & Ho & Hcc). exfalso.
    assert (Hin : c ∈ filter (fun c => c ∈ of_carriers o) (rm_carriers r)) by (by apply list_elem_of_filter).
    rewrite Hc in Hin. by apply elem_of_nil in Hin.
  - split; [|tauto]. intros [Hf _]. split_and!; [done|done|].
    destruct (filter _ (rm_carriers r)) as [|c l] eqn:E; [done|]. exists c.
    assert (Hin : c ∈ filter (fun c => c ∈ of_carriers o) (rm_carriers r)) by (rewrite E; by left).
    by apply list_elem_of_filter in Hin.
Qed.

(** [c] is the first element of [l] that satisfies [P]. *)
Definition first_with {A} (P : A -> Prop) (l : list A) (c : A) : Prop :=
  exists pre post, l = pre ++ c :: post /\ P c /\ Forall (fun a => ~ P a) pre.

Lemma first_with_cons {A} (P : A -> Prop) a l c :
  first_with P (a :: l) c <-> (P a /\ c = a) \/ (~ P a /\ first_with P l c).
Proof.
  unfold first_with. split.
  - intros ([|b pre] & post & [= -> ->] & Hc & Hf); [by left|]. right. apply Forall_cons in Hf as [? ?]. split; [done|]. by exists pre, post.
  - intros [[Ha ->]|[Ha (pre & post & -> & Hc & Hf)]]; [by exists [], l|]. exists (a :: pre), post. split_and!; [done|done|by constructor].
Qed.

Lemma first_preferred_Some common preferred c :
  first_preferred common preferred = Some c <-> first_with (fun c => c ∈ common) preferred c.
Proof.
  induction preferred as [|a preferred IH]; cbn [first_preferred]; [by split; [|intros ([] & ? & [=] & _)]|].
  rewrite first_with_cons. case_bool_decide; naive_solver.
Qed.

Lemma first_preferred_None common preferred :
  first_preferred common preferred = None <-> Forall (fun c => ~ c ∈ common) preferred.
Proof.
  induction preferred as [|a preferred IH]; cbn [first_preferred]; [by split|].
  rewrite Forall_cons. case_bool_decide; naive_solver.
Qed.

Lemma filter_head {A} (P : A -> Prop) `{forall a, Decision (P a)} (l : list A) c :
  read_at (filter P l) 0 = Some c <-> first_with P l c.
Proof.
  induction l as [|a l IH]; [by split; [|intros ([] & ? & [=] & _)]|].
  rewrite filter_cons, first_with_cons. case_decide; [|rewrite IH; tauto]. cbn. naive_solver.
Qed.

(** The host's first preference among the common carriers; without one, the
    client's first. *)
Definition chosen_carrier (o : AuthMultiMonitorOfferMsg) (r : AuthMultiMonitorRequestMsg)
  (preferred : list MultiMonitorCarrierMsg) (c : MultiMonitorCarrierMsg) : Prop :=
  let common c := c ∈ of_carriers o /\ c ∈ rm_carriers r in
  first_with common preferred c \/
  (Forall (fun c => ~ common c) preferred /\ first_with (fun c => c ∈ of_carriers o) (rm_carriers r) c).

Lemma select_carrier_spec o r preferred :
  Request_validate r = Ok tt ->
  exists res, select_carrier o r preferred = Some res /\
    forall c, res = Ok c <-> request_fits o r /\ chosen_carrier o r preferred c.
Proof.
  intros Hr. unfold select_carrier, common_carriers, chosen_carrier.
  pose proof (validate_request_Ok o r Hr) as Hv.
  destruct (validate_request o r) as [[]|e]; cbn [mbind result_bind]; [|naive_solver].
  pose proof (proj1 Hv eq_refl) as Hfit. unfold common_request_carriers.
  assert (Hcommon : forall c, c ∈ filter (fun c => c ∈ of_carriers o) (rm_carriers r) <-> c ∈ of_carriers o /\ c ∈ rm_carriers r)
    by (intros c; exact (list_elem_of_filter (fun c => c ∈ of_carriers o) (rm_carriers r) c)).
  assert (Hex : forall l, Forall (fun c => ~ c ∈ filter (fun c => c ∈ of_carriers o) (rm_carriers r)) l <->
                          Forall (fun c => ~ (c ∈ of_carriers o /\ c ∈ rm_carriers r)) l)
    by (intros l; apply Forall_iff; intros c; by rewrite Hcommon).
  assert (Hfirst : forall l c, first_with (fun c => c ∈ filter (fun c => c ∈ of_carriers o) (rm_carriers r)) l c <->
                               first_with (fun c => c ∈ of_carriers o /\ c ∈ rm_carriers r) l c).
  { intros l c. unfold first_with. setoid_rewrite Hex. by setoid_rewrite Hcommon. }
  destruct (first_preferred _ preferred) as [c0|] eqn:Ep.
  - apply first_preferred_Some, Hfirst in Ep. eexists. split; [reflexivity|]. intros c. split.
    + intros [= <-]. auto.
    + intros [_ [Hc|[Hn _]]].
      * f_equal. clear -Ep Hc. revert Ep Hc. induction preferred as [|a l IH]; [by intros ([] & ? & [=] & _)|].
        rewrite !first_with_cons. naive_solver.
      * exfalso. destruct Ep as (pre & post & -> & H1 & _). apply Forall_app in Hn as [_ [Hn _]%Forall_cons]. done.
  - apply first_preferred_None, Hex in Ep.
    destruct (read_at _ 0) as [c0|] eqn:E0.
    + apply filter_head in E0. eexists. split; [reflexivity|]. intros c. split.
      * intros [= <-]. auto.
      * intros [_ [(pre & post & -> & H1 & _)|[_ Hc]]].
        { apply Forall_app in Ep as [_ [Ep _]%Forall_cons]. done. }
        f_equal. apply (filter_head (fun c => c ∈ of_carriers o)) in Hc, E0. congruence.
    + exfalso. destruct Hfit as (_ & _ & c & H1 & H2).
      destruct (filter (fun c => c ∈ of_carriers o) (rm_carriers r)) as [|x l] eqn:Ef; [|done].
      by apply (not_elem_of_nil c), Hcommon.
Qed.

(** ** Properties *)

(** C11: The host's applied topology is accepted exactly when it is coherent: a
    nonzero generation, one to four monitors with distinct display ids and
    distinct nonzero session ids, exactly one primary, every rectangle
    nonempty and within the signed 32-bit desktop, every media plan complete
    with a known codec, chroma and encoder class, the declared desktop exactly
    the smallest rectangle around the monitors, and a translation that moved a
    negative origin to zero or nothing.  An accepted topology keeps validating,
    its primary can be read and is the primary one, and no monitor lies
    outside the declared desktop or at a negative coordinate. *)
Theorem applied_topology_exact (generation : Z) (d : DeclaredDesktop) (carrier : MultiMonitorCarrierMsg)
  (ms : list AppliedMonitorDescriptorMsg) :
  Forall (fun m => rect_typed (applied_rect m)) ms -> desktop_typed d ->
  (forall t, AppliedMonitorTopologyMsg_new generation d carrier ms = Ok t <->
    exists i, t = mkAppliedTopology generation d carrier ms i /\ applied_topology_ok generation d ms i) /\
  (forall t, AppliedMonitorTopologyMsg_new generation d carrier ms = Ok t ->
    AppliedTopology_validate t = Ok (at_primary_index t) /\
    (exists m, AppliedTopology_primary t = Some m /\ ap_is_primary m = true) /\
    (forall m, m ∈ ms -> 0 <= desktop_x d <= ap_x m /\ 0 <= desktop_y d <= ap_y m /\
      ap_x m + ap_width_px m <= desktop_x d + desktop_width_px d /\
      ap_y m + ap_height_px m <= desktop_y d + desktop_height_px d)).
Proof.
  intros Ht Hd. pose proof (fun i => validate_applied_Ok generation d ms i Ht Hd) as Hv.
  assert (Hnew : forall t, AppliedMonitorTopologyMsg_new generation d carrier ms = Ok t <->
    exists i, t = mkAppliedTopology generation d carrier ms i /\ applied_topology_ok generation d ms i).
  { intros t. unfold AppliedMonitorTopologyMsg_new. rewrite bind_Ok. setoid_rewrite Hv. naive_solver. }
  split; [exact Hnew|]. intros t (i & -> & Hok)%Hnew. split; [by apply Hv|]. split.
  - destruct (ato_primary _ _ _ _ Hok) as (pre & m & post & E & -> & Hm & _). exists m. split; [|done].
    unfold AppliedTopology_primary. cbn [at_monitors at_primary_index]. rewrite E. apply read_at_middle.
  - intros m Hm. destruct Hok as [_ _ _ _ _ _ ((L1 & _) & (L2 & _) & (G1 & _) & (G2 & _)) T1 T2].
    assert (Hin : applied_rect m ∈ map applied_rect ms) by (by apply list_elem_of_fmap_2).
    specialize (L1 _ Hin). specialize (L2 _ Hin). specialize (G1 _ Hin). specialize (G2 _ Hin).
    unfold axis_translation, right_exclusive, bottom_exclusive in *. cbn in *. lia.
Qed.

(** Two monitors side by side, moved so that the left one, the secondary, is
    at the origin. *)
Definition sample_plan : AppliedMonitorMediaPlanMsg :=
  mkMediaPlanMsg 1 "nvenc" "hardware" "h265" "yuv444" 1920 1080 60 6000 CursorLocal false "".
Definition sample_applied : list AppliedMonitorDescriptorMsg :=
  [mkAppliedMsg "left" 1 0 0 1920 1080 60 Degrees0 false sample_plan;
   mkAppliedMsg "right" 2 1920 0 1920 1080 60 Degrees0 true sample_plan].
Definition sample_desktop : DeclaredDesktop := mkDesktop 0 0 3840 1080 1920 0.

Lemma applied_topology_exact_witness :
  exists t, AppliedMonitorTopologyMsg_new 1 sample_desktop MuxedReliableStream sample_applied = Ok t /\
    applied_topology_ok 1 sample_desktop sample_applied 1.
Proof.
  destruct (applied_topology_exact 1 sample_desktop MuxedReliableStream sample_applied) as [H _].
  - eapply (bool_decide_unpack _). vm_compute. exact I.
  - eapply (bool_decide_unpack _). vm_compute. exact I.
  - destruct (AppliedMonitorTopologyMsg_new 1 sample_desktop MuxedReliableStream sample_applied) as [t|e] eqn:E; [|vm_compute in E; discriminate].
    destruct (proj1 (H t) eq_refl) as (i & Ei & Hok). exists t. split; [done|].
    vm_compute in E. injection E as <-. injection Ei as <-. exact Hok.
Defined.

(** The client's requested roster is accepted exactly when it names one to
    four monitors with distinct display ids and distinct numeric ids, exactly
    one of them primary, each with a positive finite scale, a nonempty stream
    size and a nonempty logical rectangle within the signed 32-bit desktop,
    and the whole arrangement spans less than 2^32 in both directions. *)
Theorem requested_topology_exact (ms : list RequestedMonitorDescriptorMsg) (t : RequestedMonitorTopologyMsg) :
  Forall (fun m => rect_typed (requested_layout m)) ms ->
  RequestedMonitorTopologyMsg_new ms = Ok t <->
    exists i, t = mkRequestedTopology ms i /\ requested_topology_ok ms i.
Proof.
  intros Ht. unfold RequestedMonitorTopologyMsg_new. rewrite bind_Ok.
  setoid_rewrite (fun i => validate_requested_Ok ms i Ht). naive_solver.
Qed.

Definition sample_requested : list RequestedMonitorDescriptorMsg :=
  [mkRequested "left" 7 (-1920) 0 1920 1080 1920 1080 F32_ONE 60 Degrees0 false "" F32_ZERO F32_ZERO 0 0 0 "" None
     StandardFullscreen HostDefault;
   mkRequested "right" 8 0 0 1920 1080 1920 1080 F32_ONE 60 Degrees0 true "" F32_ZERO F32_ZERO 0 0 0 "" None
     StandardFullscreen HostDefault].

Lemma requested_topology_exact_witness : exists i, requested_topology_ok sample_requested i.
Proof.
  destruct (RequestedMonitorTopologyMsg_new sample_requested) as [t|e] eqn:E; [|vm_compute in E; discriminate].
  destruct (proj1 (requested_topology_exact sample_requested t ltac:(eapply (bool_decide_unpack _); vm_compute; exact I)) E)
    as (i & _ & H).
  by exists i.
Defined.

(** The two ends agree on a multi-monitor session: for any offer and
    request their constructors let through, the host's choice of carrier never
    indexes out of bounds; it succeeds exactly when the request stays within
    the offered monitor count and rotations and some carrier is common, and
    then picks the host's first preference that both sides support or else the
    client's first supported one; and a host that answers with a valid applied
    topology on that carrier with the requested rotations never has its answer
    refused by its own advertisement. *)
Theorem negotiation_agrees (max_monitors : Z) (rotations : list RotationMsg) (carriers : list MultiMonitorCarrierMsg)
  (offer : AuthMultiMonitorOfferMsg) (topology : RequestedMonitorTopologyMsg) (client_carriers : list MultiMonitorCarrierMsg)
  (request : AuthMultiMonitorRequestMsg) (preferred : list MultiMonitorCarrierMsg) :
  AuthMultiMonitorOfferMsg_new max_monitors rotations carriers = Ok offer ->
  AuthMultiMonitorRequestMsg_new topology client_carriers = Ok request ->
  exists choice, select_carrier offer request preferred = Some choice /\
    (forall c, choice = Ok c <-> request_fits offer request /\ chosen_carrier offer request preferred c) /\
    forall c applied fixed backend, choice = Ok c -> is_ok (AppliedTopology_validate applied) = true ->
      at_selected_carrier applied = c ->
      map ap_rotation (at_monitors applied) = map rq_rotation (rt_monitors topology) ->
      is_ok (ServerMultiMonitorMsg_new max_monitors rotations fixed backend carriers (Some applied)) = true.
Proof.
  intros Ho Hr. apply Request_new_valid in Hr as [-> Hvalid].
  unfold AuthMultiMonitorOfferMsg_new in Ho. apply unit_bind_Ok in Ho as [Hadv [= <-]].
  destruct (select_carrier_spec (mkOffer max_monitors rotations carriers) (mkRequest topology client_carriers) preferred Hvalid)
    as (choice & Hc & Hspec).
  exists choice. split; [done|]. split; [done|]. intros c applied fixed backend Hch Hap Hcar Hrot.
  apply Hspec in Hch as [(Hcount & Hrots & _) Hch]. cbn [of_max_monitors of_rotations rm_requested_topology] in *.
  unfold ServerMultiMonitorMsg_new, ServerMonitors_validate.
  cbn [sv_max_monitors sv_rotations sv_carriers sv_applied_topology]. rewrite Hadv. cbn [mbind result_bind].
  unfold validate_applied_topology_against_advertisement.
  destruct (AppliedTopology_validate applied) as [i|]; [|done]. cbn [mbind result_bind].
  assert (Hlen : len (at_monitors applied) = len (rt_monitors topology)).
  { unfold len. by rewrite <- (length_map ap_rotation), Hrot, length_map. }
  destruct (Z.ltb_spec max_monitors (len (at_monitors applied))); [lia|].
  rewrite Hcar. assert (Hin : c ∈ carriers).
  { destruct Hch as [(pre & post & _ & [H1 _] & _)|[_ (pre & post & _ & H1 & _)]]; exact H1. }
  rewrite bool_decide_true by done. cbn [negb].
  rewrite (proj2 (applied_rotations_Ok rotations (at_monitors applied))); [done|].
  apply (Forall_fmap ap_rotation (fun r => r ∈ rotations)). change (ap_rotation <$> at_monitors applied) with (map ap_rotation (at_monitors applied)).
  rewrite Hrot. apply Forall_fmap. exact Hrots.
Qed.

Lemma negotiation_agrees_witness :
  exists request, AuthMultiMonitorRequestMsg_new (mkRequestedTopology sample_requested 1)
      [PerMonitorReliableStream; MuxedReliableStream] = Ok request /\
    select_carrier (mkOffer 4 [Degrees0] [MuxedReliableStream]) request [PerMonitorReliableStream] = Some (Ok MuxedReliableStream) /\
    is_ok (ServerMultiMonitorMsg_new 4 [Degrees0] false VirtualOutputs [MuxedReliableStream]
      (Some (mkAppliedTopology 1 sample_desktop MuxedReliableStream sample_applied 1))) = true.
Proof.
  destruct (AuthMultiMonitorRequestMsg_new (mkRequestedTopology sample_requested 1)
              [PerMonitorReliableStream; MuxedReliableStream]) as [request|] eqn:E; [|vm_compute in E; discriminate].
  destruct (negotiation_agrees 4 [Degrees0] [MuxedReliableStream] (mkOffer 4 [Degrees0] [MuxedReliableStream])
              (mkRequestedTopology sample_requested 1) [PerMonitorReliableStream; MuxedReliableStream] request
              [PerMonitorReliableStream] eq_refl E) as (choice & Hc & _ & Hanswer).
  assert (Hchoice : choice = Ok MuxedReliableStream).
  { vm_compute in E. injection E as <-. vm_compute in Hc. by injection Hc as <-. }
  exists request. split; [done|]. split; [by rewrite Hc, Hchoice|].
  apply (Hanswer MuxedReliableStream); [done|vm_compute; reflexivity|reflexivity|reflexivity].
Defined.
