(* ===== verification/MultiMonitor.v ===== *)
(** * Media: multi-monitor topologies, media plans and budgets

    Models [shared/media/src/multi_monitor.rs] with the monitor roster of
    [lib.rs]: requested and applied monitors, their conversion to and from the
    wire messages of [MonitorWire], per-region media plans and aggregate
    budgets.  [LayoutRect] and [LayoutBounds] have the fields of the wire
    crate's checked rectangles and share their records.  Nonzero integers are
    the integers their constructor accepted. *)

From Stdlib Require Import SpecFloat.
From stdpp Require Import strings.
From S2P Require Import Prelude Utf8 MediaRegion RegionInput CaptureSurface MonitorWire.

(** ** lib.rs *)

Inductive VideoCodec := CodecJpeg | CodecH264 | CodecH265 | CodecVp9 | CodecAv1.
Inductive ChromaSubsampling := Chroma420 | Chroma422 | Chroma444.
#[global] Instance ChromaSubsampling_eq_dec : EqDecision ChromaSubsampling. Proof. solve_decision. Defined.
Inductive BitDepth := EightBit | TenBit | TwelveBit.
Inductive TransferCharacteristics := TcBt709 | TcSrgb | TcPq | TcHlg.

Record VideoConfiguration := mkVideo {
  video_codec : VideoCodec; video_chroma : ChromaSubsampling; video_bit_depth : BitDepth; video_range : ColorRange;
  video_matrix : ColorMatrix; video_primaries : ColorPrimaries; video_transfer : TransferCharacteristics
}.

Record MonitorIdentity := mkIdentity { id_id : string; id_name : string; id_vendor : Z; id_model : Z; id_serial : Z }.

Inductive Rotation := Rot0 | Rot90 | Rot180 | Rot270.

Record Monitor := mkMonitor {
  identity : MonitorIdentity;
  mon_x : Z; mon_y : Z; mon_width_px : Z; mon_height_px : Z;
  mon_scale : f32; mon_refresh_hz : Z; mon_rotation : Rotation; mon_primary : bool;
  mon_width_mm : f32; mon_height_mm : f32; mon_color : option DisplayColorMsg
}.

Inductive MediaContractError :=
| EmptyTopology
| MediaMonitorCount (count : Z)
| EmptyMonitorId
| InvalidClientDisplayId (e : ClientDisplayIdError)
| DuplicateMonitorId (id : string)
| MediaZeroSessionMonitorId
| MediaDuplicateSessionMonitorId (id : Z)
| MediaPrimaryCount (count : Z)
| InvalidMonitorDimensions (id : string)
| MediaInvalidScale (id : string)
| InvalidLayoutDimensions
| MediaZeroGeneration
| ZeroStreamEpoch
| InvalidMediaDimensions
| InvalidMediaFps
| MediaCoordinateOverflow
| InvalidBitrateKbps
| BitrateBudgetOutOfRange (kbps : Z)
| BudgetOverflow (what : string).

Record MonitorTopology := mkMonitorTopology { mt_monitors : list Monitor; mt_primary_index : Z }.

(** The loop over the roster, with the identities seen. *)
Fixpoint check_monitors (ids : list string) (monitors : list Monitor) : result MediaContractError unit :=
  match monitors with
  | [] => Ok tt
  | m :: monitors =>
    let id := id_id (identity m) in
    if bool_decide (id = "") then Err EmptyMonitorId
    else if bool_decide (id ∈ ids) then Err (DuplicateMonitorId id)
    else if (mon_width_px m =? 0) || (mon_height_px m =? 0) then Err (InvalidMonitorDimensions id)
    else if negb (is_finite (mon_scale m)) || SFleb (mon_scale m) F32_ZERO then Err (MediaInvalidScale id)
    else check_monitors (id :: ids) monitors
  end.

Definition MonitorTopology_new (monitors : list Monitor) : result MediaContractError MonitorTopology :=
  if bool_decide (monitors = []) then Err EmptyTopology
  else
    let primary_count := len (List.filter mon_primary monitors) in
    if negb (primary_count =? 1) then Err (MediaPrimaryCount primary_count)
    else
      _ ← check_monitors [] monitors;
      primary_index ← ok_or (position mon_primary monitors) (MediaPrimaryCount 0);
      Ok (mkMonitorTopology monitors primary_index).

(** ** Identifiers and budgets *)

Definition validate_monitor_count (count : Z) : result MediaContractError unit :=
  guard_err ((count =? 0) || (MAX_MULTI_MONITOR_COUNT <? count)) (MediaMonitorCount count).

Definition map_client_display_id_error (e : ClientDisplayIdError) : MediaContractError :=
  match e with DisplayIdEmpty => EmptyMonitorId | e => InvalidClientDisplayId e end.

Definition SessionMonitorId_new (value : Z) : result MediaContractError Z :=
  if value =? 0 then Err MediaZeroSessionMonitorId else Ok value.
Definition MediaStreamEpoch_new (value : Z) : result MediaContractError Z :=
  if value =? 0 then Err ZeroStreamEpoch else Ok value.
Definition TopologyGeneration_new (value : Z) : result MediaContractError Z :=
  if value =? 0 then Err MediaZeroGeneration else Ok value.

Definition MIN_KBPS : Z := 100.
Definition MAX_KBPS : Z := 500000.
Definition NOMINAL_FLOOR_KBPS : Z := 500.
Definition NOMINAL_CEILING_KBPS : Z := 50000.
Definition NOMINAL_PIXEL_RATE_DIVISOR : Z := 20000.

Definition BitrateBudgetKbps_new (kbps : Z) : result MediaContractError Z :=
  if kbps =? 0 then Err InvalidBitrateKbps
  else if (kbps <? MIN_KBPS) || (MAX_KBPS <? kbps) then Err (BitrateBudgetOutOfRange kbps)
  else Ok kbps.

Definition saturating_mul (w a b : Z) : Z := Z.min (a * b) (umax w).
Definition clamp (x lo hi : Z) : Z := Z.max lo (Z.min x hi).

Definition nominal_for_geometry (width height fps : Z) : Z :=
  let pixel_rate := saturating_mul 64 (saturating_mul 64 width height) (Z.max fps 1) in
  let kbps := default NOMINAL_CEILING_KBPS (try_unsigned 32 (pixel_rate / NOMINAL_PIXEL_RATE_DIVISOR)) in
  clamp kbps NOMINAL_FLOOR_KBPS NOMINAL_CEILING_KBPS.

(** [EncoderBackend] of [video/plan.rs]. *)
Inductive EncoderBackend := NativeNvenc | WindowsMediaFoundation | VideoToolbox | OpenH264 | Rav1e.
Inductive AcceleratorClass := Hardware | Software.

Definition accelerator_class (b : EncoderBackend) : AcceleratorClass :=
  match b with NativeNvenc | VideoToolbox => Hardware | WindowsMediaFoundation | OpenH264 | Rav1e => Software end.

(** ** Region media plans *)

Record RegionMediaPlan := mkPlan {
  plan_session_monitor_id : Z; plan_stream_epoch : Z; plan_backend : EncoderBackend; plan_video : VideoConfiguration;
  plan_width : Z; plan_height : Z; plan_fps : Z; plan_bitrate_budget : Z
}.

Definition RegionMediaPlan_new (id epoch : Z) (backend : EncoderBackend) (video : VideoConfiguration)
  (width height fps budget : Z) : result MediaContractError RegionMediaPlan :=
  if (width =? 0) || (height =? 0) then Err InvalidMediaDimensions
  else if fps =? 0 then Err InvalidMediaFps
  else Ok (mkPlan id epoch backend video width height fps budget).

(** The loops [if !ids.insert(id) { return Err(..) }]. *)
Fixpoint check_session_ids (seen ids : list Z) : result MediaContractError unit :=
  match ids with
  | [] => Ok tt
  | id :: ids => if bool_decide (id ∈ seen) then Err (MediaDuplicateSessionMonitorId id) else check_session_ids (id :: seen) ids
  end.

Definition RegionMediaRoster : Type := list RegionMediaPlan.

Definition RegionMediaRoster_new (plans : list RegionMediaPlan) : result MediaContractError RegionMediaRoster :=
  _ ← validate_monitor_count (len plans);
  _ ← check_session_ids [] (map plan_session_monitor_id plans);
  Ok plans.

Definition roster_plan (r : RegionMediaRoster) (id : Z) : option RegionMediaPlan :=
  snd <$> list_find (fun p => plan_session_monitor_id p = id) r.

(** ** Layout *)

Definition LayoutRect : Type := CheckedLayoutRect.
Definition LayoutBounds : Type := CheckedLayoutBounds.
Record LayoutTranslation := mkTranslation { dx : Z; dy : Z }.

Definition layout_end (origin extent : Z) : result MediaContractError unit :=
  end_ ← ok_or (try_signed 64 (origin + extent)) MediaCoordinateOverflow;
  guard_err (I32_MAX + 1 <? end_) MediaCoordinateOverflow.

Definition to_i32 (value : Z) : result MediaContractError Z := ok_or (try_signed 32 value) MediaCoordinateOverflow.

Definition LayoutRect_new (x y width height : Z) : result MediaContractError LayoutRect :=
  if (width =? 0) || (height =? 0) then Err InvalidLayoutDimensions
  else
    _ ← layout_end x width;
    _ ← layout_end y height;
    Ok (mkLayoutRect x y width height).

Definition LayoutRect_translated (r : LayoutRect) (t : LayoutTranslation) : result MediaContractError LayoutRect :=
  x ← ok_or (try_signed 64 (clr_x r + dx t)) MediaCoordinateOverflow;
  y ← ok_or (try_signed 64 (clr_y r + dy t)) MediaCoordinateOverflow;
  x ← to_i32 x;
  y ← to_i32 y;
  LayoutRect_new x y (clr_width r) (clr_height r).

Definition bounds_from_rects (rectangles : list LayoutRect) : result MediaContractError LayoutBounds :=
  match rectangles with
  | [] => Err EmptyTopology
  | first :: rest =>
    let '(min_x, min_y, max_right, max_bottom) :=
      fold_left grow_bounds rest (clr_x first, clr_y first, right_exclusive first, bottom_exclusive first) in
    w ← ok_or (try_signed 64 (max_right - min_x)) MediaCoordinateOverflow;
    width ← ok_or (try_unsigned 32 w) MediaCoordinateOverflow;
    h ← ok_or (try_signed 64 (max_bottom - min_y)) MediaCoordinateOverflow;
    height ← ok_or (try_unsigned 32 h) MediaCoordinateOverflow;
    x ← to_i32 min_x;
    y ← to_i32 min_y;
    Ok (mkLayoutBounds x y width height)
  end.

Definition bounds_translation_to_origin (b : LayoutBounds) : LayoutTranslation :=
  mkTranslation (if clb_x b <? 0 then - clb_x b else 0) (if clb_y b <? 0 then - clb_y b else 0).

Definition LayoutBounds_translated (b : LayoutBounds) (t : LayoutTranslation) : result MediaContractError LayoutBounds :=
  x ← ok_or (try_signed 64 (clb_x b + dx t)) MediaCoordinateOverflow;
  y ← ok_or (try_signed 64 (clb_y b + dy t)) MediaCoordinateOverflow;
  x ← to_i32 x;
  y ← to_i32 y;
  _ ← layout_end x (clb_width b);
  _ ← layout_end y (clb_height b);
  Ok (mkLayoutBounds x y (clb_width b) (clb_height b)).

Definition desktop_footprint_px (width_px height_px : Z) (r : Rotation) : Z * Z :=
  match r with Rot0 | Rot180 => (width_px, height_px) | Rot90 | Rot270 => (height_px, width_px) end.

Definition rotation_from_msg (r : RotationMsg) : Rotation :=
  match r with Degrees0 => Rot0 | Degrees90 => Rot90 | Degrees180 => Rot180 | Degrees270 => Rot270 end.
Definition rotation_to_msg (r : Rotation) : RotationMsg :=
  match r with Rot0 => Degrees0 | Rot90 => Degrees90 | Rot180 => Degrees180 | Rot270 => Degrees270 end.

(** ** Requested monitors *)

Record RequestedMonitor := mkRequestedMonitor { rmon_monitor : Monitor; rmon_logical_width : Z; rmon_logical_height : Z }.

Definition monitor_client_display_id (m : Monitor) : result MediaContractError ClientDisplayId :=
  match ClientDisplayId_new (id_id (identity m)) with Ok id => Ok id | Err e => Err (map_client_display_id_error e) end.

Definition client_display_id (r : RequestedMonitor) : result MediaContractError ClientDisplayId :=
  monitor_client_display_id (rmon_monitor r).

Definition logical_arrangement_rect (r : RequestedMonitor) : result MediaContractError LayoutRect :=
  LayoutRect_new (mon_x (rmon_monitor r)) (mon_y (rmon_monitor r)) (rmon_logical_width r) (rmon_logical_height r).

Definition RequestedMonitor_new (m : Monitor) (logical_width logical_height : Z) : result MediaContractError RequestedMonitor :=
  let requested := mkRequestedMonitor m logical_width logical_height in
  _ ← client_display_id requested;
  _ ← logical_arrangement_rect requested;
  Ok requested.

Definition set_origin (m : Monitor) (x y : Z) : Monitor :=
  mkMonitor (identity m) x y (mon_width_px m) (mon_height_px m) (mon_scale m) (mon_refresh_hz m) (mon_rotation m)
    (mon_primary m) (mon_width_mm m) (mon_height_mm m) (mon_color m).

Definition RequestedMonitor_translated (r : RequestedMonitor) (t : LayoutTranslation)
  : result MediaContractError RequestedMonitor :=
  rectangle ← logical_arrangement_rect r;
  rectangle ← LayoutRect_translated rectangle t;
  Ok (mkRequestedMonitor (set_origin (rmon_monitor r) (clr_x rectangle) (clr_y rectangle))
        (rmon_logical_width r) (rmon_logical_height r)).

(** [str::parse::<u32>]: an optional plus sign and at least one digit. *)
Fixpoint parse_digits (acc : Z) (l : list Z) : option Z :=
  match l with
  | [] => Some acc
  | d :: l =>
    if (0x30 <=? d) && (d <=? 0x39) then
      let acc := acc * 10 + (d - 0x30) in
      if acc <=? umax 32 then parse_digits acc l else None
    else None
  end.

Definition parse_u32 (s : string) : option Z :=
  let bytes := string_bytes s in
  let digits := match bytes with b :: rest => if b =? 0x2B then rest else bytes | [] => bytes end in
  if bool_decide (digits = []) then None else parse_digits 0 digits.

Definition numeric_id (r : RequestedMonitor) : Z := default 0 (parse_u32 (id_id (identity (rmon_monitor r)))).

Definition to_wire_descriptor (r : RequestedMonitor) (safe_area : SafeAreaPolicyMsg) (quality : MonitorQualityIntentMsg)
  : result MultiMonitorValidationError RequestedMonitorDescriptorMsg :=
  let m := rmon_monitor r in
  match monitor_client_display_id m with
  | Err _ => Err (DuplicateClientDisplayId (id_id (identity m)))
  | Ok id =>
    Ok (mkRequested id (numeric_id r) (mon_x m) (mon_y m) (mon_width_px m) (mon_height_px m) (rmon_logical_width r)
          (rmon_logical_height r) (mon_scale m) (mon_refresh_hz m) (rotation_to_msg (mon_rotation m)) (mon_primary m)
          (id_name (identity m)) (mon_width_mm m) (mon_height_mm m) (id_vendor (identity m)) (id_model (identity m))
          (id_serial (identity m)) "" (mon_color m) safe_area quality)
  end.

(** [iter().map(f).collect::<Result<Vec<_>, _>>()]: stops at the first error. *)
Fixpoint collect {E A B} (f : A -> result E B) (l : list A) : result E (list B) :=
  match l with [] => Ok [] | a :: l => b ← f a; bs ← collect f l; Ok (b :: bs) end.

Definition check_requested (r : RequestedMonitor) : result MediaContractError unit :=
  _ ← client_display_id r;
  _ ← logical_arrangement_rect r;
  Ok tt.

Definition validate_requested_monitor_roster (monitors : list RequestedMonitor) : result MediaContractError Z :=
  _ ← validate_monitor_count (len monitors);
  _ ← forM_err check_requested monitors;
  _ ← MonitorTopology_new (map rmon_monitor monitors);
  ok_or (position (fun r => mon_primary (rmon_monitor r)) monitors) (MediaPrimaryCount 0).

Record RequestedMonitorTopology := mkTopology { topo_monitors : list RequestedMonitor; topo_primary_index : Z }.

Definition RequestedMonitorTopology_new (monitors : list RequestedMonitor)
  : result MediaContractError RequestedMonitorTopology :=
  primary_index ← validate_requested_monitor_roster monitors;
  Ok (mkTopology monitors primary_index).

Definition topology_primary (t : RequestedMonitorTopology) : option RequestedMonitor :=
  read_at (topo_monitors t) (topo_primary_index t).

Definition logical_bounds (t : RequestedMonitorTopology) : result MediaContractError LayoutBounds :=
  rectangles ← collect logical_arrangement_rect (topo_monitors t);
  bounds_from_rects rectangles.

Definition topology_translated (t : RequestedMonitorTopology) (tr : LayoutTranslation)
  : result MediaContractError RequestedMonitorTopology :=
  monitors ← collect (fun r => RequestedMonitor_translated r tr) (topo_monitors t);
  RequestedMonitorTopology_new monitors.

Definition translated_to_origin (t : RequestedMonitorTopology) : result MediaContractError RequestedMonitorTopology :=
  bounds ← logical_bounds t;
  topology_translated t (bounds_translation_to_origin bounds).

Definition to_wire_topology (t : RequestedMonitorTopology) (safe_area : SafeAreaPolicyMsg) (quality : MonitorQualityIntentMsg)
  : result MultiMonitorValidationError RequestedMonitorTopologyMsg :=
  monitors ← collect (fun r => to_wire_descriptor r safe_area quality) (topo_monitors t);
  RequestedMonitorTopologyMsg_new monitors.

Definition monitor_from_wire (d : RequestedMonitorDescriptorMsg) : result MediaContractError RequestedMonitor :=
  RequestedMonitor_new
    (mkMonitor (mkIdentity (rq_client_display_id d) (rq_name d) (rq_vendor d) (rq_model d) (rq_serial d))
       (rq_x d) (rq_y d) (rq_width_px d) (rq_height_px d) (rq_scale d) (rq_refresh_hz d)
       (rotation_from_msg (rq_rotation d)) (rq_is_primary d) (rq_width_mm d) (rq_height_mm d) (rq_color d))
    (rq_logical_width d) (rq_logical_height d).

Definition topology_from_wire (t : RequestedMonitorTopologyMsg) : result MediaContractError RequestedMonitorTopology :=
  monitors ← collect monitor_from_wire (rt_monitors t);
  RequestedMonitorTopology_new monitors.

(** ** Applied monitors *)

Record AppliedMonitor := mkApplied {
  app_session_monitor_id : Z; app_requested : RequestedMonitor; app_desktop_x_px : Z; app_desktop_y_px : Z
}.

Definition app_client_display_id (a : AppliedMonitor) : result MediaContractError ClientDisplayId :=
  client_display_id (app_requested a).

Definition desktop_rect_px (a : AppliedMonitor) : result MediaContractError LayoutRect :=
  let m := rmon_monitor (app_requested a) in
  let '(width_px, height_px) := desktop_footprint_px (mon_width_px m) (mon_height_px m) (mon_rotation m) in
  LayoutRect_new (app_desktop_x_px a) (app_desktop_y_px a) width_px height_px.

Definition AppliedMonitor_new (id : Z) (r : RequestedMonitor) (desktop_left_px desktop_top_px : Z)
  : result MediaContractError AppliedMonitor :=
  let applied := mkApplied id r desktop_left_px desktop_top_px in
  _ ← app_client_display_id applied;
  _ ← logical_arrangement_rect r;
  _ ← desktop_rect_px applied;
  Ok applied.

Record AppliedMonitorTopology := mkAppliedMonitors { atopo_generation : Z; atopo_monitors : list AppliedMonitor }.

(** The loop over the roster, with the session ids seen. *)
Fixpoint check_applied (seen : list Z) (monitors : list AppliedMonitor) : result MediaContractError unit :=
  match monitors with
  | [] => Ok tt
  | a :: monitors =>
    if bool_decide (app_session_monitor_id a ∈ seen) then Err (MediaDuplicateSessionMonitorId (app_session_monitor_id a))
    else
      _ ← app_client_display_id a;
      _ ← desktop_rect_px a;
      check_applied (app_session_monitor_id a :: seen) monitors
  end.

Definition AppliedMonitorTopology_new (generation : Z) (monitors : list AppliedMonitor)
  : result MediaContractError AppliedMonitorTopology :=
  _ ← validate_monitor_count (len monitors);
  _ ← check_applied [] monitors;
  _ ← validate_requested_monitor_roster (map app_requested monitors);
  Ok (mkAppliedMonitors generation monitors).

(** The first element where no monitor is primary; a panic, [None], where
    there is none. *)
Definition applied_primary (t : AppliedMonitorTopology) : option AppliedMonitor :=
  match list_find (fun a => mon_primary (rmon_monitor (app_requested a)) = true) (atopo_monitors t) with
  | Some (_, a) => Some a
  | None => read_at (atopo_monitors t) 0
  end.

Definition desktop_bounds_px (t : AppliedMonitorTopology) : result MediaContractError LayoutBounds :=
  rectangles ← collect desktop_rect_px (atopo_monitors t);
  bounds_from_rects rectangles.

(** ** Aggregate media plans *)

Record PerMonitorMediaPlan := mkPerMonitor {
  pm_session_monitor_id : Z; pm_backend : EncoderBackend; pm_accelerator_class : AcceleratorClass; pm_video : VideoConfiguration;
  pm_width : Z; pm_height : Z; pm_fps : Z; pm_cursor_mode : CursorMode; pm_bitrate_kbps : Z; pm_degraded : bool
}.

(** The fields [from_resolved] reads of the resolved single-monitor plan are
    its arguments. *)
Definition PerMonitorMediaPlan_from_resolved (id : Z) (backend : EncoderBackend) (video : VideoConfiguration)
  (width height fps : Z) (cursor_mode : CursorMode) (bitrate_kbps : Z) (degraded : bool)
  : result MediaContractError PerMonitorMediaPlan :=
  if bitrate_kbps =? 0 then Err InvalidBitrateKbps
  else Ok (mkPerMonitor id backend (accelerator_class backend) video width height fps cursor_mode bitrate_kbps degraded).

Definition pixel_rate (p : PerMonitorMediaPlan) : result MediaContractError Z :=
  pixels_per_frame ← ok_or (checked_mul 64 (pm_width p) (pm_height p)) (BudgetOverflow "pixel_rate");
  ok_or (checked_mul 64 pixels_per_frame (pm_fps p)) (BudgetOverflow "pixel_rate").

Record AggregateMediaBudget := mkBudget {
  hardware_sessions : Z; software_sessions : Z; encoder_contexts : Z; cpu_millis_per_second : Z; vram_bytes : Z;
  budget_pixel_rate : Z; connection_bitrate_kbps : Z
}.

(** One iteration of the accumulating loop. *)
Definition budget_step (b : AggregateMediaBudget) (p : PerMonitorMediaPlan) : result MediaContractError AggregateMediaBudget :=
  contexts ← ok_or (checked_add 8 (encoder_contexts b) 1) (BudgetOverflow "encoder_contexts");
  bitrate ← ok_or (checked_add 32 (connection_bitrate_kbps b) (pm_bitrate_kbps p)) (BudgetOverflow "connection_bitrate_kbps");
  rate ← pixel_rate p;
  rate ← ok_or (checked_add 64 (budget_pixel_rate b) rate) (BudgetOverflow "pixel_rate");
  match pm_accelerator_class p with
  | Hardware =>
    hardware ← ok_or (checked_add 8 (hardware_sessions b) 1) (BudgetOverflow "hardware_sessions");
    Ok (mkBudget hardware (software_sessions b) contexts (cpu_millis_per_second b) (vram_bytes b) rate bitrate)
  | Software =>
    software ← ok_or (checked_add 8 (software_sessions b) 1) (BudgetOverflow "software_sessions");
    Ok (mkBudget (hardware_sessions b) software contexts (cpu_millis_per_second b) (vram_bytes b) rate bitrate)
  end.

Fixpoint budget_loop (b : AggregateMediaBudget) (plans : list PerMonitorMediaPlan) : result MediaContractError AggregateMediaBudget :=
  match plans with [] => Ok b | p :: plans => b ← budget_step b p; budget_loop b plans end.

Definition from_monitor_plans (plans : list PerMonitorMediaPlan) (cpu vram : Z) : result MediaContractError AggregateMediaBudget :=
  _ ← validate_monitor_count (len plans);
  budget_loop (mkBudget 0 0 0 cpu vram 0 0) plans.

Record AggregateMediaPlan := mkAggregate { agg_monitors : list PerMonitorMediaPlan; agg_budget : AggregateMediaBudget }.

Definition AggregateMediaPlan_new (monitors : list PerMonitorMediaPlan) (cpu vram : Z)
  : result MediaContractError AggregateMediaPlan :=
  _ ← validate_monitor_count (len monitors);
  _ ← check_session_ids [] (map pm_session_monitor_id monitors);
  budget ← from_monitor_plans monitors cpu vram;
  Ok (mkAggregate monitors budget).

(** ** Lemmas: rosters *)

Lemma media_count_Ok n : 0 <= n -> validate_monitor_count n = Ok tt <-> 1 <= n <= MAX_MULTI_MONITOR_COUNT.
Proof.
  intros Hn. unfold validate_monitor_count, MAX_MULTI_MONITOR_COUNT. rewrite guard_err_Ok, orb_false_iff, Z.eqb_neq, Z.ltb_ge. lia.
Qed.

Lemma filter_none {A} (p : A -> bool) l : len (List.filter p l) = 0 <-> Forall (fun a => p a = false) l.
Proof.
  induction l as [|a l IH]; cbn [List.filter]; [by split|]. rewrite Forall_cons, <- IH.
  destruct (p a); [|tauto]. rewrite len_cons. pose proof (len_nonneg (List.filter p l)). split; [lia|by intros [? _]].
Qed.

Lemma primary_position {A} (p : A -> bool) l i :
  len (List.filter p l) = 1 /\ position p l = Some i <-> primary_at p l i.
Proof.
  unfold primary_at. rewrite position_Some. split.
  - intros [Hc (pre & a & post & -> & -> & Ha & Hpre)]. exists pre, a, post. split_and!; [done..|].
    rewrite List.filter_app in Hc. cbn [List.filter] in Hc. rewrite Ha, len_app, len_cons in Hc.
    apply Forall_app. split; [done|]. apply filter_none. pose proof (len_nonneg (List.filter p pre)).
    pose proof (len_nonneg (List.filter p post)). lia.
  - intros (pre & a & post & -> & -> & Ha & [Hpre Hpost]%Forall_app). split; [|by exists pre, a, post].
    rewrite List.filter_app. cbn [List.filter]. rewrite Ha, len_app, len_cons.
    rewrite (proj2 (filter_none p pre) Hpre), (proj2 (filter_none p post) Hpost). lia.
Qed.

Lemma display_id_Ok value id : ClientDisplayId_new value = Ok id <-> id = value /\ ClientDisplayId_new value = Ok value.
Proof.
  unfold ClientDisplayId_new. cbv zeta. repeat (case_match; [naive_solver|]). naive_solver.
Qed.

Lemma monitor_id_Ok m id :
  monitor_client_display_id m = Ok id <-> id = id_id (identity m) /\ ClientDisplayId_new (id_id (identity m)) = Ok (id_id (identity m)).
Proof.
  unfold monitor_client_display_id. destruct (ClientDisplayId_new (id_id (identity m))) as [a|e] eqn:E; [|naive_solver].
  apply display_id_Ok in E as [-> E]. naive_solver.
Qed.

Lemma valid_id_nonempty id : ClientDisplayId_new id = Ok id -> id <> "".
Proof. by intros H ->. Qed.

(** The fields of a monitor that a roster checks. *)
Definition monitor_ok (m : Monitor) : Prop :=
  mon_width_px m <> 0 /\ mon_height_px m <> 0 /\ is_finite (mon_scale m) = true /\ SFleb (mon_scale m) F32_ZERO = false.

Lemma check_monitors_Ok monitors : forall ids,
  Forall (fun m => id_id (identity m) <> "") monitors ->
  check_monitors ids monitors = Ok tt <->
  distinct_from ids (map (fun m => id_id (identity m)) monitors) /\ Forall monitor_ok monitors.
Proof.
  induction monitors as [|m monitors IH]; intros ids Hne; cbn [check_monitors map].
  { split; [|done]. intros _. split; [|constructor]. split; [constructor|]. by intros a []%elem_of_nil. }
  apply Forall_cons in Hne as [Hm Hne]. cbv zeta. rewrite bool_decide_false by done.
  rewrite distinct_cons, Forall_cons. unfold monitor_ok at 1.
  case_bool_decide; [split; [done|tauto]|].
  destruct (Z.eqb_spec (mon_width_px m) 0); cbn [orb]; [split; [done|tauto]|].
  destruct (Z.eqb_spec (mon_height_px m) 0); [split; [done|tauto]|].
  destruct (is_finite (mon_scale m)); cbn [negb orb]; [|split; [done|naive_solver]].
  destruct (SFleb (mon_scale m) F32_ZERO); [split; [done|naive_solver]|].
  rewrite IH by done. tauto.
Qed.

(** The arrangement rectangle of a requested monitor. *)
Definition arrangement (r : RequestedMonitor) : LayoutRect :=
  mkLayoutRect (mon_x (rmon_monitor r)) (mon_y (rmon_monitor r)) (rmon_logical_width r) (rmon_logical_height r).

Lemma layout_new_Ok x y w h r :
  rect_typed (mkLayoutRect x y w h) -> LayoutRect_new x y w h = Ok r <-> r = mkLayoutRect x y w h /\ rect_ok r.
Proof.
  intros Ht. rewrite <- (rect_new_Ok x y w h ZeroSessionMonitorId "" r Ht).
  unfold LayoutRect_new, CheckedLayoutRect_new, layout_end, validate_layout_end.
  destruct (_ || _); [done|].
  destruct (try_signed 64 (x + w)) as [ex|]; cbn [ok_or mbind result_bind]; [|done].
  destruct (I32_MAX + 1 <? ex); cbn [guard_err mbind result_bind]; [done|].
  destruct (try_signed 64 (y + h)) as [ey|]; cbn [ok_or mbind result_bind]; [|done].
  destruct (I32_MAX + 1 <? ey); cbn [guard_err mbind result_bind]; [done|].
  split; by intros [= ->].
Qed.

Lemma check_requested_Ok r :
  rect_typed (arrangement r) ->
  check_requested r = Ok tt <->
  ClientDisplayId_new (id_id (identity (rmon_monitor r))) = Ok (id_id (identity (rmon_monitor r))) /\ rect_ok (arrangement r).
Proof.
  intros Ht. unfold check_requested, client_display_id, logical_arrangement_rect.
  repeat setoid_rewrite bind_Ok. setoid_rewrite monitor_id_Ok. setoid_rewrite (layout_new_Ok _ _ _ _ _ Ht).
  split; [intros (? & [-> ?] & ? & [-> ?] & _)|intros [? ?]]; [done|]. eexists. split; [done|]. by eexists.
Qed.

(** What a requested roster needs, apart from the wire's own limits. *)
Record roster_ok (monitors : list RequestedMonitor) (i : Z) : Prop := {
  ro_count : 1 <= len monitors <= MAX_MULTI_MONITOR_COUNT;
  ro_ids_valid : Forall (fun r => ClientDisplayId_new (id_id (identity (rmon_monitor r))) = Ok (id_id (identity (rmon_monitor r)))) monitors;
  ro_rects : Forall (fun r => rect_ok (arrangement r)) monitors;
  ro_ids : NoDup (map (fun r => id_id (identity (rmon_monitor r))) monitors);
  ro_monitors : Forall (fun r => monitor_ok (rmon_monitor r)) monitors;
  ro_primary : primary_at (fun r => mon_primary (rmon_monitor r)) monitors i
}.

Lemma filter_map_len {A B} (f : A -> B) (p : B -> bool) l : len (List.filter p (map f l)) = len (List.filter (fun a => p (f a)) l).
Proof. induction l as [|a l IH]; [done|]. cbn. destruct (p (f a)); [|done]. rewrite !len_cons. lia. Qed.

Lemma position_map {A B} (f : A -> B) (p : B -> bool) l : position p (map f l) = position (fun a => p (f a)) l.
Proof. induction l as [|a l IH]; [done|]. cbn. rewrite IH. done. Qed.

Lemma validate_roster_Ok monitors i :
  Forall (fun r => rect_typed (arrangement r)) monitors ->
  validate_requested_monitor_roster monitors = Ok i <-> roster_ok monitors i.
Proof.
  intros Ht. unfold validate_requested_monitor_roster.
  rewrite unit_bind_Ok, unit_bind_Ok, (media_count_Ok _ (len_nonneg _)), forM_err_Ok, bind_Ok. setoid_rewrite ok_or_Ok.
  assert (Hcheck : Forall (fun r => check_requested r = Ok tt) monitors <->
    Forall (fun r => ClientDisplayId_new (id_id (identity (rmon_monitor r))) = Ok (id_id (identity (rmon_monitor r)))) monitors /\
    Forall (fun r => rect_ok (arrangement r)) monitors).
  { rewrite <- Forall_and, !Forall_forall.
    split; intros H r Hr; specialize (H r Hr); apply (check_requested_Ok r (proj1 (Forall_forall _ _) Ht r Hr)) in H; exact H. }
  rewrite Hcheck. clear Hcheck.
  assert (Hroster : Forall (fun r => ClientDisplayId_new (id_id (identity (rmon_monitor r))) = Ok (id_id (identity (rmon_monitor r)))) monitors ->
    1 <= len monitors ->
    (exists t, MonitorTopology_new (map rmon_monitor monitors) = Ok t) /\ position (fun r => mon_primary (rmon_monitor r)) monitors = Some i <->
    NoDup (map (fun r => id_id (identity (rmon_monitor r))) monitors) /\ Forall (fun r => monitor_ok (rmon_monitor r)) monitors /\
    primary_at (fun r => mon_primary (rmon_monitor r)) monitors i).
  { intros Hids Hlen. unfold MonitorTopology_new. rewrite bool_decide_false by (by destruct monitors).
    rewrite filter_map_len, position_map, <- primary_position.
    assert (Hcm : check_monitors [] (map rmon_monitor monitors) = Ok tt <->
      NoDup (map (fun r => id_id (identity (rmon_monitor r))) monitors) /\ Forall (fun r => monitor_ok (rmon_monitor r)) monitors).
    { rewrite check_monitors_Ok, distinct_from_nothing, map_map, Forall_fmap; [done|].
      apply Forall_fmap. eapply Forall_impl; [exact Hids|]. intros r. apply valid_id_nonempty. }
    cbv zeta. destruct (Z.eqb_spec (len (List.filter (fun r => mon_primary (rmon_monitor r)) monitors)) 1) as [E|E]; cbn [negb].
    - split.
      + intros [(t & [Hc _]%unit_bind_Ok) ?]. apply Hcm in Hc as [? ?]. done.
      + intros (? & ? & _ & Hpos). split; [|done]. rewrite Hpos. eexists. apply unit_bind_Ok. split; [by apply Hcm|].
        cbn. reflexivity.
    - split; [by intros [(? & ?) _]|]. by intros (_ & _ & ? & _). }
  split.
  - intros (Hc & [Hids Hrects] & t & Ht' & Hp). destruct (proj1 (Hroster Hids ltac:(lia))) as (? & ? & ?); [split; [by exists t|done]|].
    done.
  - intros [Hc Hids Hrects Hn Hm Hp]. split; [done|]. split; [done|].
    destruct (proj2 (Hroster Hids ltac:(lia))) as ([t Ht'] & ?); [done|]. by exists t.
Qed.

(** ** Lemmas: to the wire and back *)

Lemma collect_map {E A B} (f : A -> result E B) (g : A -> B) l :
  Forall (fun a => f a = Ok (g a)) l -> collect f l = Ok (map g l).
Proof. induction 1 as [|a l Ha _ IH]; cbn; [done|]. by rewrite Ha, IH. Qed.

Lemma collect_inv {E A B} (f : A -> result E B) l bs : collect f l = Ok bs -> Forall2 (fun a b => f a = Ok b) l bs.
Proof.
  revert bs. induction l as [|a l IH]; intros bs; cbn; [intros [= <-]; constructor|].
  intros (b & Hb & (bs' & Hbs & [= <-])%bind_Ok)%bind_Ok. constructor; [done|by apply IH].
Qed.

(** The descriptor a monitor with a valid identity becomes. *)
Definition wire_of (safe_area : SafeAreaPolicyMsg) (quality : MonitorQualityIntentMsg) (r : RequestedMonitor)
  : RequestedMonitorDescriptorMsg :=
  let m := rmon_monitor r in
  mkRequested (id_id (identity m)) (numeric_id r) (mon_x m) (mon_y m) (mon_width_px m) (mon_height_px m) (rmon_logical_width r)
    (rmon_logical_height r) (mon_scale m) (mon_refresh_hz m) (rotation_to_msg (mon_rotation m)) (mon_primary m)
    (id_name (identity m)) (mon_width_mm m) (mon_height_mm m) (id_vendor (identity m)) (id_model (identity m))
    (id_serial (identity m)) "" (mon_color m) safe_area quality.

Lemma to_wire_valid safe_area quality r :
  ClientDisplayId_new (id_id (identity (rmon_monitor r))) = Ok (id_id (identity (rmon_monitor r))) ->
  to_wire_descriptor r safe_area quality = Ok (wire_of safe_area quality r).
Proof. intros H. unfold to_wire_descriptor, monitor_client_display_id. by rewrite H. Qed.

Lemma from_wire_valid safe_area quality r :
  rect_typed (arrangement r) -> rect_ok (arrangement r) ->
  ClientDisplayId_new (id_id (identity (rmon_monitor r))) = Ok (id_id (identity (rmon_monitor r))) ->
  monitor_from_wire (wire_of safe_area quality r) = Ok r.
Proof.
  intros Ht Ho Hid. unfold monitor_from_wire, RequestedMonitor_new, client_display_id, monitor_client_display_id, logical_arrangement_rect.
  cbn [wire_of rmon_monitor rmon_logical_width rmon_logical_height identity id_id mon_x mon_y rq_client_display_id rq_x rq_y
       rq_logical_width rq_logical_height]. rewrite Hid. cbn [mbind result_bind].
  rewrite (proj2 (layout_new_Ok _ _ _ _ (arrangement r) Ht) (conj eq_refl Ho)). cbn [mbind result_bind].
  destruct r as [[[] ? ? ? ? ? ? rot ? ? ? ?] ? ?]. cbn. by destruct rot.
Qed.

Lemma collect_from_wire safe_area quality ms :
  Forall (fun r => rect_typed (arrangement r)) ms -> Forall (fun r => rect_ok (arrangement r)) ms ->
  Forall (fun r => ClientDisplayId_new (id_id (identity (rmon_monitor r))) = Ok (id_id (identity (rmon_monitor r)))) ms ->
  collect monitor_from_wire (map (wire_of safe_area quality) ms) = Ok ms.
Proof.
  induction ms as [|r ms IH]; intros Ht Ho Hv; [done|].
  apply Forall_cons in Ht as [? ?]. apply Forall_cons in Ho as [? ?]. apply Forall_cons in Hv as [? ?].
  cbn [map collect]. rewrite from_wire_valid by done. cbn [mbind result_bind]. by rewrite IH.
Qed.

Lemma wire_topology_ok safe_area quality monitors i :
  roster_ok monitors i ->
  requested_topology_ok (map (wire_of safe_area quality) monitors) i <->
  NoDup (map numeric_id monitors) /\
  exists b, is_hull (map arrangement monitors) b /\ clb_width b < 2 ^ 32 /\ clb_height b < 2 ^ 32.
Proof.
  intros [Hc Hv Hr Hn Hm Hp].
  assert (Hlayout : map requested_layout (map (wire_of safe_area quality) monitors) = map arrangement monitors) by apply map_map.
  assert (Hids : map rq_client_monitor_id (map (wire_of safe_area quality) monitors) = map numeric_id monitors) by apply map_map.
  split.
  - intros [_ _ Hi _ _ Hb]. rewrite Hids in Hi. rewrite Hlayout in Hb. done.
  - intros [Hi Hb]. split.
    + unfold len. rewrite length_map. exact Hc.
    + rewrite map_map. exact Hn.
    + by rewrite Hids.
    + apply Forall_fmap. apply Forall_forall. intros r Hin.
      pose proof (proj1 (Forall_forall _ _) Hr r Hin). destruct (proj1 (Forall_forall _ _) Hm r Hin) as (? & ? & ? & ?). done.
    + destruct Hp as (pre & a & post & -> & -> & Ha & Hf).
      exists (map (wire_of safe_area quality) pre), (wire_of safe_area quality a), (map (wire_of safe_area quality) post).
      rewrite map_app. split_and!; [done|unfold len; by rewrite length_map|done|].
      rewrite <- map_app. by apply Forall_fmap.
    + by rewrite Hlayout.
Qed.

(** ** Lemmas: translations *)

Definition shifted (t : LayoutTranslation) (r : RequestedMonitor) : RequestedMonitor :=
  mkRequestedMonitor (set_origin (rmon_monitor r) (mon_x (rmon_monitor r) + dx t) (mon_y (rmon_monitor r) + dy t))
    (rmon_logical_width r) (rmon_logical_height r).

Lemma monitor_translated_Ok r t r' :
  rect_typed (arrangement r) -> rect_ok (arrangement r) ->
  RequestedMonitor_translated r t = Ok r' -> r' = shifted t r /\ rect_typed (arrangement r') /\ rect_ok (arrangement r').
Proof.
  intros Ht Ho. unfold RequestedMonitor_translated, logical_arrangement_rect.
  rewrite (proj2 (layout_new_Ok _ _ _ _ (arrangement r) Ht) (conj eq_refl Ho)). cbn [mbind result_bind].
  intros (rect & Hrect & [= <-])%bind_Ok. unfold LayoutRect_translated, to_i32 in Hrect. inv_ok.
  repeat match goal with H : try_signed _ _ = Some _ |- _ => apply try_signed_Some in H as [-> ?] end.
  destruct Ht as (? & ? & ? & ?).
  match goal with H : LayoutRect_new _ _ _ _ = Ok _ |- _ => apply layout_new_Ok in H as [-> Hr]; [|by split_and!] end.
  unfold shifted. cbn in *. split; [done|]. split; [by split_and!|exact Hr].
Qed.

Lemma topology_translated_Ok monitors t i t' :
  Forall (fun r => rect_typed (arrangement r)) monitors -> Forall (fun r => rect_ok (arrangement r)) monitors ->
  topology_translated (mkTopology monitors i) t = Ok t' ->
  topo_monitors t' = map (shifted t) monitors /\ Forall (fun r => rect_typed (arrangement r)) (topo_monitors t') /\
  Forall (fun r => rect_ok (arrangement r)) (topo_monitors t').
Proof.
  intros Ht Ho (ms & Hms%collect_inv & Hnew)%bind_Ok. cbn [topo_monitors] in Hms.
  unfold RequestedMonitorTopology_new in Hnew. apply bind_Ok in Hnew as (j & _ & [= <-]). cbn [topo_monitors].
  clear i j. revert Ht Ho. induction Hms as [|r r' monitors ms Hr Hms IH]; intros Ht Ho; [done|].
  apply Forall_cons in Ht as [Ht1 Ht]. apply Forall_cons in Ho as [Ho1 Ho].
  destruct (monitor_translated_Ok r t r' Ht1 Ho1 Hr) as (-> & ? & ?). destruct (IH Ht Ho) as (-> & ? & ?).
  split_and!; [done|by constructor|by constructor].
Qed.

Lemma bounds_from_rects_Ok rects b :
  Forall rect_typed rects -> Forall rect_ok rects ->
  bounds_from_rects rects = Ok b <-> is_hull rects b /\ clb_width b < 2 ^ 32 /\ clb_height b < 2 ^ 32.
Proof.
  intros Ht Ho. rewrite <- (from_rects_Ok rects "" b Ht Ho). unfold bounds_from_rects, from_rects, to_i32, checked_i64_to_i32.
  destruct rects as [|r rest]; [done|]. destruct (fold_left grow_bounds rest _) as [[[mx my] xr] xb].
  repeat (case_match; cbn [ok_or mbind result_bind]; try done).
  all: repeat match goal with |- context [ok_or ?o _] => destruct o; cbn [ok_or mbind result_bind] end; try done.
  split; by intros [= ->].
Qed.

Lemma logical_bounds_Ok t b :
  Forall (fun r => rect_typed (arrangement r)) (topo_monitors t) -> Forall (fun r => rect_ok (arrangement r)) (topo_monitors t) ->
  logical_bounds t = Ok b <-> is_hull (map arrangement (topo_monitors t)) b /\ clb_width b < 2 ^ 32 /\ clb_height b < 2 ^ 32.
Proof.
  intros Ht Ho. unfold logical_bounds.
  rewrite (collect_map logical_arrangement_rect arrangement).
  - cbn [mbind result_bind]. apply bounds_from_rects_Ok; by apply Forall_fmap.
  - apply Forall_forall. intros r Hr. unfold logical_arrangement_rect.
    apply (layout_new_Ok _ _ _ _ (arrangement r)); [exact (proj1 (Forall_forall _ _) Ht r Hr)|].
    split; [done|exact (proj1 (Forall_forall _ _) Ho r Hr)].
Qed.

Lemma least_shift {A} (f g : A -> Z) (h : A -> A) k l m :
  (forall a, g (h a) = f a + k) -> least f l m -> least g (map h l) (m + k).
Proof.
  intros E [H (a & Ha & <-)]. split.
  - intros b (c & -> & Hc)%list_elem_of_fmap. rewrite E. specialize (H c Hc). lia.
  - exists (h a). split; [by apply list_elem_of_fmap_2|apply E].
Qed.

Lemma greatest_shift {A} (f g : A -> Z) (h : A -> A) k l m :
  (forall a, g (h a) = f a + k) -> greatest f l m -> greatest g (map h l) (m + k).
Proof.
  intros E [H (a & Ha & <-)]. split.
  - intros b (c & -> & Hc)%list_elem_of_fmap. rewrite E. specialize (H c Hc). lia.
  - exists (h a). split; [by apply list_elem_of_fmap_2|apply E].
Qed.

Definition shift_rect (t : LayoutTranslation) (r : LayoutRect) : LayoutRect :=
  mkLayoutRect (clr_x r + dx t) (clr_y r + dy t) (clr_width r) (clr_height r).

Lemma hull_shift t rects b :
  is_hull rects b ->
  is_hull (map (shift_rect t) rects) (mkLayoutBounds (clb_x b + dx t) (clb_y b + dy t) (clb_width b) (clb_height b)).
Proof.
  intros (H1 & H2 & H3 & H4). unfold is_hull. cbn [clb_x clb_y clb_width clb_height].
  replace (clb_x b + dx t + clb_width b) with (clb_x b + clb_width b + dx t) by lia.
  replace (clb_y b + dy t + clb_height b) with (clb_y b + clb_height b + dy t) by lia.
  split_and!.
  - by apply (least_shift clr_x).
  - by apply (least_shift clr_y).
  - apply (greatest_shift right_exclusive); [|done]. intros a. unfold right_exclusive. cbn. lia.
  - apply (greatest_shift bottom_exclusive); [|done]. intros a. unfold bottom_exclusive. cbn. lia.
Qed.

(** ** Lemmas: budgets *)

Lemma session_ids_Ok ids : forall seen, check_session_ids seen ids = Ok tt <-> distinct_from seen ids.
Proof.
  induction ids as [|id ids IH]; intros seen; cbn [check_session_ids].
  { split; [|done]. intros _. split; [constructor|]. by intros a []%elem_of_nil. }
  rewrite distinct_cons, <- IH. case_bool_decide; [split; [done|tauto]|tauto].
Qed.

Definition total (f : PerMonitorMediaPlan -> Z) (plans : list PerMonitorMediaPlan) : Z := foldr (fun p n => f p + n) 0 plans.
Definition is_hardware (p : PerMonitorMediaPlan) : Z := match pm_accelerator_class p with Hardware => 1 | Software => 0 end.
Definition pixels_per_second (p : PerMonitorMediaPlan) : Z := pm_width p * pm_height p * pm_fps p.

Definition plan_typed (p : PerMonitorMediaPlan) : Prop :=
  is_u32 (pm_width p) /\ is_u32 (pm_height p) /\ is_u32 (pm_fps p) /\ is_u32 (pm_bitrate_kbps p).

Lemma total_nonneg f plans : Forall (fun p => 0 <= f p) plans -> 0 <= total f plans.
Proof. unfold total. induction 1; cbn [foldr]; lia. Qed.

Lemma typed_nonneg plans : Forall plan_typed plans ->
  0 <= total pm_bitrate_kbps plans /\ 0 <= total pixels_per_second plans.
Proof.
  intros H. split; apply total_nonneg; (eapply Forall_impl; [exact H|]); intros p (Hw & Hh & Hf & Hb);
    unfold in_width, pixels_per_second in *; nia.
Qed.

Lemma pixel_rate_Ok p n :
  plan_typed p -> pixel_rate p = Ok n <-> n = pixels_per_second p /\ pixels_per_second p <= umax 64.
Proof.
  intros (Hw & Hh & Hf & _). unfold pixel_rate, pixels_per_second.
  assert (Hwh : pm_width p * pm_height p <= umax 64).
  { unfold in_width in *. pose proof (Z.mul_le_mono_nonneg (pm_width p) (2 ^ 32 - 1) (pm_height p) (2 ^ 32 - 1)) as Hm.
    assert ((2 ^ 32 - 1) * (2 ^ 32 - 1) <= umax 64) by done. lia. }
  rewrite (proj2 (checked_mul_Some 64 (pm_width p) (pm_height p) _) (conj eq_refl Hwh)). cbn [ok_or mbind result_bind].
  rewrite ok_or_Ok, checked_mul_Some. done.
Qed.

(** The budget with some plans added. *)
Definition add_plans (b : AggregateMediaBudget) (plans : list PerMonitorMediaPlan) : AggregateMediaBudget :=
  mkBudget (hardware_sessions b + total is_hardware plans) (software_sessions b + (len plans - total is_hardware plans))
    (encoder_contexts b + len plans) (cpu_millis_per_second b) (vram_bytes b)
    (budget_pixel_rate b + total pixels_per_second plans) (connection_bitrate_kbps b + total pm_bitrate_kbps plans).

Lemma budget_step_Ok b p b' :
  plan_typed p -> encoder_contexts b < 255 -> hardware_sessions b <= encoder_contexts b -> software_sessions b <= encoder_contexts b ->
  budget_step b p = Ok b' <->
  connection_bitrate_kbps b + pm_bitrate_kbps p <= umax 32 /\ pixels_per_second p <= umax 64 /\
  budget_pixel_rate b + pixels_per_second p <= umax 64 /\ b' = add_plans b [p].
Proof.
  intros Ht Hc Hh Hs. unfold budget_step, add_plans.
  assert (Hinc : forall n, n < 255 -> checked_add 8 n 1 = Some (n + 1)).
  { intros n Hn. apply checked_add_Some. split; [done|]. change (umax 8) with 255. lia. }
  rewrite !Hinc by lia. cbn [ok_or mbind result_bind].
  assert (Hadd : forall w x y, checked_add w x y = if x + y <=? umax w then Some (x + y) else None) by done.
  rewrite (Hadd 32). destruct (Z.leb_spec (connection_bitrate_kbps b + pm_bitrate_kbps p) (umax 32));
    cbn [ok_or mbind result_bind]; [|split; [done|lia]].
  destruct (pixel_rate p) as [n|e] eqn:En; cbn [mbind result_bind].
  2:{ split; [done|]. intros (_ & Hpx & _).
      assert (pixel_rate p = Ok (pixels_per_second p)) by (by apply pixel_rate_Ok). congruence. }
  apply pixel_rate_Ok in En as [-> Hpx]; [|done].
  rewrite (Hadd 64). destruct (Z.leb_spec (budget_pixel_rate b + pixels_per_second p) (umax 64));
    cbn [ok_or mbind result_bind]; [|split; [done|lia]].
  cbn [total foldr]. unfold total, is_hardware. cbn [foldr]. change (len [p]) with 1.
  destruct (pm_accelerator_class p); rewrite ?Z.add_0_r; (split;
    [intros [= <-]; split_and!; try done; f_equal; lia|intros (_ & _ & _ & ->); repeat f_equal; lia]).
Qed.

Lemma budget_loop_Ok plans : forall b b',
  Forall plan_typed plans -> encoder_contexts b + len plans <= 255 ->
  hardware_sessions b <= encoder_contexts b -> software_sessions b <= encoder_contexts b ->
  connection_bitrate_kbps b <= umax 32 -> budget_pixel_rate b <= umax 64 -> 0 <= budget_pixel_rate b ->
  budget_loop b plans = Ok b' <->
  connection_bitrate_kbps b + total pm_bitrate_kbps plans <= umax 32 /\
  budget_pixel_rate b + total pixels_per_second plans <= umax 64 /\ b' = add_plans b plans.
Proof.
  induction plans as [|p plans IH]; intros b b' Ht Hc Hh Hs Hb Hp H0; cbn [budget_loop].
  { unfold add_plans. cbn [total foldr]. change (len []) with 0. rewrite !Z.add_0_r. destruct b. cbn in *. naive_solver lia. }
  apply Forall_cons in Ht as [Hpt Ht]. rewrite len_cons in Hc. pose proof (len_nonneg plans).
  destruct (typed_nonneg plans Ht) as [N1 N2].
  destruct (typed_nonneg [p] (Forall_cons_2 _ _ _ Hpt (Forall_nil_2 _))) as [M1 M2]. cbn [total foldr] in M1, M2.
  rewrite bind_Ok. setoid_rewrite budget_step_Ok; [|done..|lia|done|done].
  assert (Hstep : forall b1, b1 = add_plans b [p] -> encoder_contexts b1 = encoder_contexts b + 1 /\
    hardware_sessions b1 <= encoder_contexts b1 /\ software_sessions b1 <= encoder_contexts b1 /\
    connection_bitrate_kbps b1 = connection_bitrate_kbps b + pm_bitrate_kbps p /\
    budget_pixel_rate b1 = budget_pixel_rate b + pixels_per_second p /\ add_plans b1 plans = add_plans b (p :: plans)).
  { intros b1 ->. unfold add_plans, total.
    cbn [hardware_sessions software_sessions encoder_contexts cpu_millis_per_second vram_bytes budget_pixel_rate
         connection_bitrate_kbps foldr].
    rewrite !len_cons. change (@len PerMonitorMediaPlan []) with 0. assert (H01 : 0 <= is_hardware p <= 1) by (unfold is_hardware; by destruct (pm_accelerator_class p)).
    split_and!; try lia; try done. f_equal; lia. }
  destruct (Hstep _ eq_refl) as (E1 & E2 & E3 & E4 & E5 & E6). cbn [total foldr]. fold (total pm_bitrate_kbps plans).
  fold (total pixels_per_second plans). split.
  - intros (b1 & (Hb1 & Hp1 & Hr1 & ->) & Hl). apply IH in Hl as (? & ? & ->); [|done|lia..]. rewrite E6.
    rewrite E4, E5 in *. split_and!; [lia|lia|done].
  - intros (Hb1 & Hr1 & ->). exists (add_plans b [p]). split; [split_and!; [lia|lia|lia|done]|].
    apply IH; [done|lia..|]. rewrite E4, E5, E6. split_and!; [lia|lia|done].
Qed.

(** ** Properties *)

(** C25: A requested topology survives the wire: a topology the constructor
    accepted converts to a wire roster exactly when the numbers read from its
    display ids (zero for an id that is not a 32-bit decimal) are distinct and
    the arrangement spans less than 2^32 in both directions; and whatever
    roster it becomes, the peer reads back the same topology with the same
    display ids and the same primary. *)
Theorem wire_conversion_exact (ms : list RequestedMonitor) (t : RequestedMonitorTopology)
  (safe_area : SafeAreaPolicyMsg) (quality : MonitorQualityIntentMsg) :
  Forall (fun r => rect_typed (arrangement r)) ms ->
  RequestedMonitorTopology_new ms = Ok t ->
  ((exists w, to_wire_topology t safe_area quality = Ok w) <->
    NoDup (map numeric_id ms) /\
    exists b, is_hull (map arrangement ms) b /\ clb_width b < 2 ^ 32 /\ clb_height b < 2 ^ 32) /\
  forall w, to_wire_topology t safe_area quality = Ok w ->
    topology_from_wire w = Ok t /\ rt_primary_index w = topo_primary_index t /\
    map rq_client_display_id (rt_monitors w) = map (fun r => id_id (identity (rmon_monitor r))) ms.
Proof.
  intros Ht Hnew. pose proof Hnew as Hnew'. unfold RequestedMonitorTopology_new in Hnew.
  apply bind_Ok in Hnew as (i & Hi & [= <-]). apply (validate_roster_Ok ms i Ht) in Hi.
  assert (Hwire : forall w, to_wire_topology (mkTopology ms i) safe_area quality = Ok w <->
    exists j, w = mkRequestedTopology (map (wire_of safe_area quality) ms) j /\
              requested_topology_ok (map (wire_of safe_area quality) ms) j).
  { intros w. unfold to_wire_topology. cbn [topo_monitors].
    rewrite (collect_map _ (wire_of safe_area quality)).
    2:{ eapply Forall_impl; [apply (ro_ids_valid _ _ Hi)|]. intros r. apply to_wire_valid. }
    cbn [mbind result_bind]. unfold RequestedMonitorTopologyMsg_new. rewrite bind_Ok.
    setoid_rewrite (fun j => validate_requested_Ok (map (wire_of safe_area quality) ms) j
                      (proj2 (Forall_fmap (wire_of safe_area quality) _ ms) Ht)). naive_solver. }
  assert (Hsame : forall j, requested_topology_ok (map (wire_of safe_area quality) ms) j -> j = i).
  { intros j [_ _ _ _ Hj _]. pose proof (ro_primary _ _ Hi) as Hp. apply primary_position in Hj as [_ Hj].
    apply primary_position in Hp as [_ Hp]. rewrite position_map in Hj. cbn in Hj. congruence. }
  split.
  - rewrite <- (wire_topology_ok safe_area quality ms i Hi). setoid_rewrite Hwire. split.
    + intros (w & j & _ & Hj). by rewrite <- (Hsame j Hj).
    + intros H. by exists (mkRequestedTopology (map (wire_of safe_area quality) ms) i), i.
  - intros w (j & -> & Hj)%Hwire. rewrite (Hsame j Hj). split; [|split; [done|by cbn [rt_monitors]; rewrite map_map]].
    unfold topology_from_wire. cbn [rt_monitors]. rewrite (collect_from_wire safe_area quality ms).
    + exact Hnew'.
    + exact Ht.
    + exact (ro_rects _ _ Hi).
    + exact (ro_ids_valid _ _ Hi).
Qed.

(** Two 1080p monitors, the right one primary. *)
Definition sample_monitor (id : string) (x : Z) (primary : bool) : Monitor :=
  mkMonitor (mkIdentity id "" 0 0 0) x 0 1920 1080 F32_ONE 60 Rot0 primary F32_ZERO F32_ZERO None.
Definition sample_roster (left_id right_id : string) : list RequestedMonitor :=
  [mkRequestedMonitor (sample_monitor left_id (-1920) false) 1920 1080;
   mkRequestedMonitor (sample_monitor right_id 0 true) 1920 1080].

Lemma wire_conversion_exact_witness :
  exists t w, RequestedMonitorTopology_new (sample_roster "1001" "1002") = Ok t /\
    to_wire_topology t StandardFullscreen HostDefault = Ok w /\ topology_from_wire w = Ok t.
Proof.
  destruct (RequestedMonitorTopology_new (sample_roster "1001" "1002")) as [t|e] eqn:E; [|vm_compute in E; discriminate].
  destruct (wire_conversion_exact (sample_roster "1001" "1002") t StandardFullscreen HostDefault
              ltac:(eapply (bool_decide_unpack _); vm_compute; exact I) E) as [_ H].
  destruct (to_wire_topology t StandardFullscreen HostDefault) as [w|e] eqn:Ew.
  2:{ vm_compute in E. injection E as <-. vm_compute in Ew. discriminate. }
  exists t, w. split; [done|]. split; [done|]. apply (H w eq_refl).
Defined.

(** Opaque display ids do not reach the wire: two monitors whose valid ids
    are not decimal numbers make a topology the constructor accepts, but both
    get the numeric id zero and the conversion refuses it as a duplicate, so
    such a client cannot request two monitors. *)
Theorem opaque_ids_not_convertible :
  match RequestedMonitorTopology_new (sample_roster "left" "right") with
  | Ok t => to_wire_topology t StandardFullscreen HostDefault = Err (DuplicateClientMonitorId 0)
  | Err _ => False
  end.
Proof. vm_compute. reflexivity. Qed.

(** Moving a requested desktop to the origin keeps the arrangement: when it
    succeeds every monitor has moved by the same amount, which is the least
    that brings a negative edge to zero and nothing for an edge that was not
    negative, and the bounds of the moved desktop are the old ones moved. *)
Theorem translated_to_origin_exact (ms : list RequestedMonitor) (t t' : RequestedMonitorTopology) (b : LayoutBounds) :
  Forall (fun r => rect_typed (arrangement r)) ms ->
  RequestedMonitorTopology_new ms = Ok t -> logical_bounds t = Ok b -> translated_to_origin t = Ok t' ->
  topo_monitors t' = map (shifted (mkTranslation (Z.max 0 (- clb_x b)) (Z.max 0 (- clb_y b)))) ms /\
  logical_bounds t' = Ok (mkLayoutBounds (Z.max 0 (clb_x b)) (Z.max 0 (clb_y b)) (clb_width b) (clb_height b)).
Proof.
  intros Ht Hnew Hb Hmoved. unfold RequestedMonitorTopology_new in Hnew.
  apply bind_Ok in Hnew as (i & Hi & [= <-]). apply (validate_roster_Ok ms i Ht) in Hi. pose proof (ro_rects _ _ Hi) as Ho.
  unfold translated_to_origin in Hmoved. rewrite Hb in Hmoved. cbn [mbind result_bind] in Hmoved.
  set (tr := bounds_translation_to_origin b) in *.
  assert (Etr : tr = mkTranslation (Z.max 0 (- clb_x b)) (Z.max 0 (- clb_y b))).
  { unfold tr, bounds_translation_to_origin. f_equal; [destruct (Z.ltb_spec (clb_x b) 0)|destruct (Z.ltb_spec (clb_y b) 0)]; lia. }
  destruct (topology_translated_Ok ms tr i t' Ht Ho Hmoved) as (Em & Ht' & Ho'). rewrite <- Etr. split; [done|].
  apply (logical_bounds_Ok (mkTopology ms i) b Ht Ho) in Hb as (Hhull & Hw & Hh). cbn [topo_monitors] in Hhull.
  apply (logical_bounds_Ok t' _ Ht' Ho'). rewrite Em. split; [|done].
  assert (Emap : map arrangement (map (shifted tr) ms) = map (shift_rect tr) (map arrangement ms)) by (rewrite !map_map; done).
  rewrite Emap. pose proof (hull_shift tr _ _ Hhull) as Hs. rewrite Etr in Hs at 2 3. cbn [dx dy] in Hs.
  replace (clb_x b + Z.max 0 (- clb_x b)) with (Z.max 0 (clb_x b)) in Hs by lia.
  replace (clb_y b + Z.max 0 (- clb_y b)) with (Z.max 0 (clb_y b)) in Hs by lia. exact Hs.
Qed.

Lemma translated_to_origin_exact_witness :
  exists t t', RequestedMonitorTopology_new (sample_roster "1" "2") = Ok t /\ translated_to_origin t = Ok t' /\
    logical_bounds t' = Ok (mkLayoutBounds 0 0 3840 1080).
Proof.
  destruct (RequestedMonitorTopology_new (sample_roster "1" "2")) as [t|e] eqn:E; [|vm_compute in E; discriminate].
  destruct (logical_bounds t) as [b|e] eqn:Eb; [|vm_compute in E; injection E as <-; vm_compute in Eb; discriminate].
  destruct (translated_to_origin t) as [t'|e] eqn:Et; [|vm_compute in E; injection E as <-; vm_compute in Et; discriminate].
  exists t, t'. split; [done|]. split; [done|].
  destruct (translated_to_origin_exact (sample_roster "1" "2") t t' b
              ltac:(eapply (bool_decide_unpack _); vm_compute; exact I) E Eb Et) as [_ H].
  rewrite H. vm_compute in E. injection E as <-. vm_compute in Eb. injection Eb as <-. reflexivity.
Defined.

(** A media plan for a whole topology is accepted exactly when it names one
    to four monitors with distinct session ids whose bitrates sum within 32 and
    whose pixel rates sum within 64 bits; its budget is then those sums, one
    context per monitor, split into hardware and software sessions, and no
    intermediate product or counter overflows. *)
Theorem aggregate_budget_exact (plans : list PerMonitorMediaPlan) (cpu vram : Z) (a : AggregateMediaPlan) :
  Forall plan_typed plans ->
  AggregateMediaPlan_new plans cpu vram = Ok a <->
  1 <= len plans <= MAX_MULTI_MONITOR_COUNT /\ NoDup (map pm_session_monitor_id plans) /\
  total pm_bitrate_kbps plans <= umax 32 /\ total pixels_per_second plans <= umax 64 /\
  a = mkAggregate plans
        (mkBudget (total is_hardware plans) (len plans - total is_hardware plans) (len plans) cpu vram
           (total pixels_per_second plans) (total pm_bitrate_kbps plans)).
Proof.
  intros Ht. unfold AggregateMediaPlan_new, from_monitor_plans.
  rewrite unit_bind_Ok, (media_count_Ok _ (len_nonneg _)), unit_bind_Ok, session_ids_Ok, distinct_from_nothing, bind_Ok.
  assert (Hloop : forall b, len plans <= MAX_MULTI_MONITOR_COUNT ->
    budget_loop (mkBudget 0 0 0 cpu vram 0 0) plans = Ok b <->
    0 + total pm_bitrate_kbps plans <= umax 32 /\ 0 + total pixels_per_second plans <= umax 64 /\
    b = add_plans (mkBudget 0 0 0 cpu vram 0 0) plans).
  { intros b Hl. unfold MAX_MULTI_MONITOR_COUNT in Hl. apply budget_loop_Ok; cbn; try done; lia. }
  split.
  - intros (Hc & Hn & b & (_ & Hb)%unit_bind_Ok & [= <-]). apply Hloop in Hb as (? & ? & ->); [|lia]. done.
  - intros (Hc & Hn & Hb & Hp & ->). split; [done|]. split; [done|]. eexists. split; [|reflexivity].
    apply unit_bind_Ok. split; [by apply media_count_Ok; [apply len_nonneg|]|]. by apply Hloop; [lia|].
Qed.

Definition sample_video : VideoConfiguration :=
  mkVideo CodecH264 Chroma420 EightBit RangeLimited MatrixBt709 PrimariesBt709 TcBt709.
Definition sample_plans : list PerMonitorMediaPlan :=
  [mkPerMonitor 1 NativeNvenc Hardware sample_video 1920 1080 60 CursorLocal 6220 false;
   mkPerMonitor 2 OpenH264 Software sample_video 1280 720 30 CursorLocal 1382 true].

Lemma aggregate_budget_exact_witness :
  AggregateMediaPlan_new sample_plans 0 0 = Ok (mkAggregate sample_plans (mkBudget 1 1 2 0 0 152064000 7602)).
Proof.
  apply (aggregate_budget_exact sample_plans 0 0).
  - eapply (bool_decide_unpack _). vm_compute. exact I.
  - split; [by vm_compute|]. split; [eapply (bool_decide_unpack _); vm_compute; exact I|]. split_and!; by vm_compute.
Defined.
