(* ===== verification/EncoderAdmission.v ===== *)
(** * Media: measured admission of encoder sets

    Models [shared/media/src/encoder_admission.rs]: the host measures each
    candidate set of encoders with representative frames, one per region at
    once, and takes the first that keeps its thresholds, or a lower frame rate.
    The platform's measuring adapter is a parameter: a function from the request
    to its result, [None] where it panics; the requests of a candidate run
    concurrently and are joined in order, so only their results matter.
    Durations are nanoseconds.  Failure details and [Display] are text only and
    left out. *)

From stdpp Require Import strings.
From S2P Require Import Prelude Utf8 KeelActivity RegionSchedule CaptureSurface MonitorWire MultiMonitor.

(** ** Constants *)

Definition BASIS_POINTS : Z := 10000.
Definition MILLIFPS_SCALE : Z := 1000.
Definition NANOS_PER_SECOND : Z := 1000000000.
Definition MIN_ENCODER_STEPDOWN_FPS : Z := 24.
Definition FPS_STEPDOWN_LADDER : list Z := [60; 50; 45; 40; 30; 24].
Definition MAX_ENCODER_SET_CANDIDATES : Z := (MAX_MULTI_MONITOR_COUNT + 1) * 3.
Definition MAX_ENCODER_PROBE_FRAMES_PER_REGION : Z := 600.
Definition MAX_ENCODER_PROBE_WARMUP_FRAMES : Z := 64.
Definition MAX_ENCODER_PROBE_WINDOW : Z := duration_from_secs 60.
Definition MAX_ENCODER_PROBE_DURATION : Z := duration_from_secs 300.
Definition MAX_ENCODER_BINDING_ID_BYTES : Z := 256.

(** ** Data *)

Inductive RegionAdmissionPriority := Standard | FullColorRequired.
#[global] Instance RegionAdmissionPriority_eq_dec : EqDecision RegionAdmissionPriority. Proof. solve_decision. Defined.

Record RegionActivityProfile := mkProfile {
  prof_session_monitor_id : Z; prof_region_generation : Z; prof_region_id : Z; prof_activity_class : ActivityClass;
  prof_dirty_ratio : Z; prof_target_fps : Z; prof_priority : RegionAdmissionPriority
}.

Definition profile_from_diagnostics (id : Z) (d : RegionActivityDiagnostics) (target_fps : Z)
  (priority : RegionAdmissionPriority) : RegionActivityProfile :=
  mkProfile id (rd_generation d) (rd_region_id d) (activity_class (rd_activity d)) (current_dirty_ratio (rd_activity d)) target_fps priority.

Inductive EncoderAdmissionError :=
| InvalidProfileCount (count : Z)
| ZeroTargetFps (id : Z)
| MixedActivityGeneration (expected received : Z)
| DuplicateActivityMonitor (id : Z)
| DuplicateActivityRegion (id : Z)
| InvalidBindingIdLength (length : Z)
| BindingCountMismatch (plans bindings : Z)
| DuplicateBindingMonitor (id : Z)
| UnknownBindingMonitor (id : Z)
| MissingBinding (id : Z)
| InvalidMeasurementWindow (d : Z)
| InvalidProbeDuration (d : Z)
| TooManyWarmupFrames (n : Z)
| InvalidSampleFrameBound (n : Z)
| InvalidEncodeLatencyThreshold (d : Z)
| InvalidQueueAgeThreshold (d : Z)
| InvalidBasisPoints (name : string) (value : Z)
| InvalidCandidateCount (count : Z)
| ActivityRosterMismatch
| CandidateRosterMismatch (index id : Z)
| CandidateGeometryChanged (index id : Z)
| CandidateEpochChanged (index id : Z)
| CandidateFpsBelowTarget (index id candidate_fps target_fps : Z)
| FullColorDowngrade (index id : Z)
| WorkloadExceedsFrameBound (id required maximum : Z).

Definition RegionActivityProfiles : Type := list RegionActivityProfile.

Fixpoint check_profiles (generation : Z) (monitor_ids region_ids : list Z) (profiles : list RegionActivityProfile)
  : result EncoderAdmissionError unit :=
  match profiles with
  | [] => Ok tt
  | p :: profiles =>
    if prof_target_fps p =? 0 then Err (ZeroTargetFps (prof_session_monitor_id p))
    else if negb (prof_region_generation p =? generation)
    then Err (MixedActivityGeneration generation (prof_region_generation p))
    else if bool_decide (prof_session_monitor_id p ∈ monitor_ids) then Err (DuplicateActivityMonitor (prof_session_monitor_id p))
    else if bool_decide (prof_region_id p ∈ region_ids) then Err (DuplicateActivityRegion (prof_region_id p))
    else check_profiles generation (prof_session_monitor_id p :: monitor_ids) (prof_region_id p :: region_ids) profiles
  end.

Definition RegionActivityProfiles_new (profiles : list RegionActivityProfile)
  : result EncoderAdmissionError RegionActivityProfiles :=
  match profiles with
  | [] => Err (InvalidProfileCount 0)
  | p :: _ =>
    if MAX_MULTI_MONITOR_COUNT <? len profiles then Err (InvalidProfileCount (len profiles))
    else _ ← check_profiles (prof_region_generation p) [] [] profiles; Ok profiles
  end.

Definition profile (ps : RegionActivityProfiles) (id : Z) : option RegionActivityProfile :=
  snd <$> list_find (fun p => prof_session_monitor_id p = id) ps.

Definition EncoderBindingId : Type := string.

Definition EncoderBindingId_new (value : string) : result EncoderAdmissionError EncoderBindingId :=
  let length := len (string_bytes value) in
  if (length =? 0) || (MAX_ENCODER_BINDING_ID_BYTES <? length) then Err (InvalidBindingIdLength length) else Ok value.

Record RegionEncoderBinding := mkBinding { binding_monitor_id : Z; binding_id : EncoderBindingId }.

Record EncoderSetCandidate := mkCandidate { cand_roster : RegionMediaRoster; cand_bindings : list RegionEncoderBinding }.

Fixpoint check_bindings (roster : RegionMediaRoster) (ids : list Z) (bindings : list RegionEncoderBinding)
  : result EncoderAdmissionError unit :=
  match bindings with
  | [] => Ok tt
  | b :: bindings =>
    let id := binding_monitor_id b in
    if bool_decide (id ∈ ids) then Err (DuplicateBindingMonitor id)
    else if negb (is_some (roster_plan roster id)) then Err (UnknownBindingMonitor id)
    else check_bindings roster (id :: ids) bindings
  end.

Definition check_bound (bindings : list RegionEncoderBinding) (p : RegionMediaPlan) : result EncoderAdmissionError unit :=
  guard_err (negb (bool_decide (plan_session_monitor_id p ∈ map binding_monitor_id bindings))) (MissingBinding (plan_session_monitor_id p)).

Definition EncoderSetCandidate_new (roster : RegionMediaRoster) (bindings : list RegionEncoderBinding)
  : result EncoderAdmissionError EncoderSetCandidate :=
  if negb (len bindings =? len roster) then Err (BindingCountMismatch (len roster) (len bindings))
  else
    _ ← check_bindings roster [] bindings;
    _ ← forM_err (check_bound bindings) roster;
    Ok (mkCandidate roster bindings).

Definition candidate_binding (c : EncoderSetCandidate) (id : Z) : option EncoderBindingId :=
  (fun b => binding_id b.2) <$> list_find (fun b => binding_monitor_id b = id) (cand_bindings c).

Record EncoderAdmissionThresholds := mkThresholds {
  measurement_window : Z; max_probe_duration : Z; warmup_frames : Z; max_sample_frames_per_region : Z;
  max_p95_encode_latency : Z; max_p95_queue_age : Z; min_delivered_fps_basis_points : Z; min_fairness_basis_points : Z
}.

(** [from_qos_targets]: the two fields it reads of the QoS targets. *)
Definition from_qos_targets (fps_degraded_percent rtt_degraded_ms : Z) : EncoderAdmissionThresholds :=
  let minimum_basis_points := fps_degraded_percent * 100 in
  let latency := rtt_degraded_ms * 1000000 in
  mkThresholds (duration_from_secs 2) (duration_from_secs 15) 8 MAX_ENCODER_PROBE_FRAMES_PER_REGION latency latency
    minimum_basis_points minimum_basis_points.

Definition check_basis_points (nv : string * Z) : result EncoderAdmissionError unit :=
  guard_err ((nv.2 =? 0) || (BASIS_POINTS <? nv.2)) (InvalidBasisPoints nv.1 nv.2).

Definition thresholds_validate (t : EncoderAdmissionThresholds) : result EncoderAdmissionError unit :=
  if (measurement_window t =? 0) || (MAX_ENCODER_PROBE_WINDOW <? measurement_window t)
  then Err (InvalidMeasurementWindow (measurement_window t))
  else if (max_probe_duration t <? measurement_window t) || (MAX_ENCODER_PROBE_DURATION <? max_probe_duration t)
  then Err (InvalidProbeDuration (max_probe_duration t))
  else if MAX_ENCODER_PROBE_WARMUP_FRAMES <? warmup_frames t then Err (TooManyWarmupFrames (warmup_frames t))
  else if (max_sample_frames_per_region t =? 0) || (MAX_ENCODER_PROBE_FRAMES_PER_REGION <? max_sample_frames_per_region t)
  then Err (InvalidSampleFrameBound (max_sample_frames_per_region t))
  else if (max_p95_encode_latency t =? 0) || (max_probe_duration t <? max_p95_encode_latency t)
  then Err (InvalidEncodeLatencyThreshold (max_p95_encode_latency t))
  else if max_probe_duration t <? max_p95_queue_age t then Err (InvalidQueueAgeThreshold (max_p95_queue_age t))
  else forM_err check_basis_points
         [("min_delivered_fps_basis_points", min_delivered_fps_basis_points t);
          ("min_fairness_basis_points", min_fairness_basis_points t)].

Inductive RepresentativeFrameKind := FrameSparse | FrameFullMotion.
#[global] Instance RepresentativeFrameKind_eq_dec : EqDecision RepresentativeFrameKind. Proof. solve_decision. Defined.

Record RepresentativeFrame := mkFrame { frame_sequence : Z; frame_kind : RepresentativeFrameKind; frame_dirty_ratio : Z }.

Record EncoderProbeRequest := mkProbe {
  probe_candidate_index : Z; probe_plan : RegionMediaPlan; probe_binding_id : EncoderBindingId;
  probe_activity : RegionActivityProfile; probe_measurement_window : Z; probe_max_duration : Z; probe_warmup_frames : Z;
  probe_sample_frames : list RepresentativeFrame
}.

(** [EncoderProbeFailure] without its text. *)
Inductive EncoderProbeFailureKind := ContextOpen | EncodeFailure | DeadlineExceeded | InvalidMeasurement | Panicked.

Record EncoderProbeSample := mkSample {
  sample_sequence : Z; sample_kind : RepresentativeFrameKind; queue_age : Z; encode_latency : Z; delivered : bool
}.

Record EncoderProbeTrace := mkTrace { elapsed : Z; samples : list EncoderProbeSample }.

Record RegionEncoderMeasurements := mkRegionMeasured {
  rm_session_monitor_id : Z; offered_frames : Z; delivered_frames : Z; rm_elapsed : Z;
  rm_p50_encode_latency : Z; rm_p95_encode_latency : Z; rm_p50_queue_age : Z; rm_p95_queue_age : Z;
  rm_delivered_millifps : Z; delivery_ratio_basis_points : Z
}.

Record EncoderSetMeasurements := mkSetMeasured {
  set_p50_encode_latency : Z; set_p95_encode_latency : Z; set_p50_queue_age : Z; set_p95_queue_age : Z;
  set_delivered_millifps : Z; fairness_basis_points : Z; per_region : list RegionEncoderMeasurements
}.

Inductive EncoderThresholdViolation :=
| ViolatedEncodeLatency (id measured_p95 maximum_p95 : Z)
| ViolatedQueueAge (id measured_p95 maximum_p95 : Z)
| ViolatedDeliveredFps (id measured_millifps required_millifps : Z)
| ViolatedFairness (measured required : Z).

Record RegionProbeFailure := mkProbeFailure { pf_session_monitor_id : Z; pf_failure : EncoderProbeFailureKind }.

Inductive EncoderSetAttemptOutcome :=
| Passed (m : EncoderSetMeasurements)
| ThresholdFailed (m : EncoderSetMeasurements) (violations : list EncoderThresholdViolation)
| ProbeFailed (failures : list RegionProbeFailure).

Definition outcome_passed (o : EncoderSetAttemptOutcome) : bool := match o with Passed _ => true | _ => false end.

Record EncoderSetAttempt := mkAttempt {
  attempt_index : Z; attempt_candidate : EncoderSetCandidate; attempt_outcome : EncoderSetAttemptOutcome
}.

Inductive EncoderSetDecision :=
| Accept (selected : Z) (attempts : list EncoderSetAttempt)
| Reassign (selected : Z) (attempts : list EncoderSetAttempt)
| Reject (attempts : list EncoderSetAttempt)
| StepDown (selected requested_fps admitted_fps : Z) (attempts : list EncoderSetAttempt).

Definition selected_candidate_index (d : EncoderSetDecision) : option Z :=
  match d with Accept s _ | Reassign s _ | StepDown s _ _ _ => Some s | Reject _ => None end.

Definition decision_attempts (d : EncoderSetDecision) : list EncoderSetAttempt :=
  match d with Accept _ a | Reassign _ a | StepDown _ _ _ a | Reject a => a end.

Definition fps_stepdown (d : EncoderSetDecision) : option (Z * Z) :=
  match d with StepDown _ requested admitted _ => Some (requested, admitted) | _ => None end.

(** ** Measuring *)

(** [sorted[rank - 1]]: the rank is between one and the length, for a
    percentage of at most 100 ([percentile_in_range]). *)
Definition percentile (sorted : list Z) (percent : Z) : Z :=
  if bool_decide (sorted = []) then 0
  else
    let rank := Z.max (div_ceil (len sorted * percent) 100) 1 in
    nth (Z.to_nat (rank - 1)) sorted 0.

Definition u32_or_max (v : Z) : Z := default (umax 32) (try_unsigned 32 v).

Definition delivered_millifps (delivered_frames elapsed : Z) : Z :=
  if (delivered_frames =? 0) || (elapsed =? 0) then 0
  else u32_or_max (saturating_mul 128 (saturating_mul 128 delivered_frames MILLIFPS_SCALE) NANOS_PER_SECOND / elapsed).

Definition ratio_basis_points (numerator denominator : Z) : Z :=
  if denominator =? 0 then BASIS_POINTS
  else
    let rounded := (numerator * BASIS_POINTS + denominator / 2) / denominator in
    default BASIS_POINTS (try_unsigned 16 (Z.min rounded BASIS_POINTS)).

Definition scale_basis_points_ceil (value basis_points : Z) : Z := u32_or_max (div_ceil (value * basis_points) BASIS_POINTS).

Definition jains_fairness_basis_points (values : list Z) : Z :=
  if bool_decide (values = []) then BASIS_POINTS
  else
    let sum := sumZ values in
    let sum_squares := sumZ (map (fun v => v * v) values) in
    if sum_squares =? 0 then BASIS_POINTS
    else
      let denominator := saturating_mul 128 (len values) sum_squares in
      let numerator := saturating_mul 128 (saturating_mul 128 sum sum) BASIS_POINTS in
      let rounded := (numerator + denominator / 2) / denominator in
      default BASIS_POINTS (try_unsigned 16 (Z.min rounded BASIS_POINTS)).

Definition representative_frames (p : RegionActivityProfile) (t : EncoderAdmissionThresholds)
  : result EncoderAdmissionError (list RepresentativeFrame) :=
  let required := Z.max (div_ceil (prof_target_fps p * measurement_window t) NANOS_PER_SECOND) 1 in
  let error := WorkloadExceedsFrameBound (prof_session_monitor_id p) required (max_sample_frames_per_region t) in
  if max_sample_frames_per_region t <? required then Err error
  else
    count ← ok_or (try_unsigned 16 required) error;
    let '(kind, dirty_ratio) :=
      match prof_activity_class p with
      | Idle | Sparse => (FrameSparse, prof_dirty_ratio p)
      | Scroll | FullMotion => (FrameFullMotion, BASIS_POINTS)
      end in
    Ok (map (fun n => mkFrame (Z.of_nat n) kind dirty_ratio) (seq 0 (Z.to_nat count))).

Record RegionMeasurementBuild := mkBuild {
  build_measurements : RegionEncoderMeasurements; build_encode_latencies : list Z; build_queue_ages : list Z
}.

(** The loop over frames and samples: latencies, ages and deliveries. *)
Fixpoint check_samples (elapsed : Z) (frames : list RepresentativeFrame) (samples : list EncoderProbeSample)
  (latencies ages : list Z) (delivered_frames : Z) : result EncoderProbeFailureKind (list Z * list Z * Z) :=
  match frames, samples with
  | expected :: frames, s :: samples =>
    if negb (sample_sequence s =? frame_sequence expected) || negb (bool_decide (sample_kind s = frame_kind expected))
    then Err InvalidMeasurement
    else
      let total := queue_age s + encode_latency s in
      if (DURATION_MAX <? total) || (elapsed <? total) then Err InvalidMeasurement
      else
        check_samples elapsed frames samples (latencies ++ [encode_latency s]) (ages ++ [queue_age s])
          (if delivered s then saturating_add 16 delivered_frames 1 else delivered_frames)
  | _, _ => Ok (latencies, ages, delivered_frames)
  end.

Definition measurements_for_trace (r : EncoderProbeRequest) (t : EncoderProbeTrace)
  : result EncoderProbeFailureKind RegionMeasurementBuild :=
  if elapsed t =? 0 then Err InvalidMeasurement
  else if probe_max_duration r <? elapsed t then Err DeadlineExceeded
  else if negb (len (samples t) =? len (probe_sample_frames r)) then Err InvalidMeasurement
  else
    '(latencies, ages, delivered_frames) ← check_samples (elapsed t) (probe_sample_frames r) (samples t) [] [] 0;
    let latencies := merge_sort Z.le latencies in
    let ages := merge_sort Z.le ages in
    offered_frames ← ok_or (try_unsigned 16 (len (samples t))) InvalidMeasurement;
    Ok (mkBuild
          (mkRegionMeasured (plan_session_monitor_id (probe_plan r)) offered_frames delivered_frames (elapsed t)
             (percentile latencies 50) (percentile latencies 95) (percentile ages 50) (percentile ages 95)
             (delivered_millifps delivered_frames (elapsed t)) (ratio_basis_points delivered_frames offered_frames))
          latencies ages).

Definition aggregate_measurements (builds : list RegionMeasurementBuild) : EncoderSetMeasurements :=
  let latencies := merge_sort Z.le (concat (map build_encode_latencies builds)) in
  let ages := merge_sort Z.le (concat (map build_queue_ages builds)) in
  let millifps := fold_left (fun n b => saturating_add 32 n (rm_delivered_millifps (build_measurements b))) builds 0 in
  mkSetMeasured (percentile latencies 50) (percentile latencies 95) (percentile ages 50) (percentile ages 95) millifps
    (jains_fairness_basis_points (map (fun b => delivery_ratio_basis_points (build_measurements b)) builds))
    (map build_measurements builds).

Definition required_millifps (t : EncoderAdmissionThresholds) (p : RegionActivityProfile) : Z :=
  scale_basis_points_ceil (saturating_mul 32 (prof_target_fps p) 1000) (min_delivered_fps_basis_points t).

Definition region_violations (ps : RegionActivityProfiles) (t : EncoderAdmissionThresholds) (r : RegionEncoderMeasurements)
  : list EncoderThresholdViolation :=
  (if max_p95_encode_latency t <? rm_p95_encode_latency r
   then [ViolatedEncodeLatency (rm_session_monitor_id r) (rm_p95_encode_latency r) (max_p95_encode_latency t)] else []) ++
  (if max_p95_queue_age t <? rm_p95_queue_age r
   then [ViolatedQueueAge (rm_session_monitor_id r) (rm_p95_queue_age r) (max_p95_queue_age t)] else []) ++
  match profile ps (rm_session_monitor_id r) with
  | Some p =>
    if rm_delivered_millifps r <? required_millifps t p
    then [ViolatedDeliveredFps (rm_session_monitor_id r) (rm_delivered_millifps r) (required_millifps t p)] else []
  | None => []
  end.

Definition threshold_violations (m : EncoderSetMeasurements) (ps : RegionActivityProfiles) (t : EncoderAdmissionThresholds)
  : list EncoderThresholdViolation :=
  concat (map (region_violations ps t) (per_region m)) ++
  (if fairness_basis_points m <? min_fairness_basis_points t
   then [ViolatedFairness (fairness_basis_points m) (min_fairness_basis_points t)] else []).

(** ** A lower frame rate *)

Definition active_profiles (ps : RegionActivityProfiles) : list RegionActivityProfile :=
  List.filter (fun p => 1 <? prof_target_fps p) ps.

(** [Iterator::max]. *)
Definition iter_max (l : list Z) : option Z :=
  match l with [] => None | x :: l => Some (fold_left Z.max l x) end.

Definition requested_stepdown_fps (ps : RegionActivityProfiles) : option Z :=
  iter_max (map prof_target_fps (active_profiles ps)).

Definition violation_can_step_down (has_idle_regions : bool) (v : EncoderThresholdViolation) : bool :=
  match v with
  | ViolatedEncodeLatency _ _ _ | ViolatedQueueAge _ _ _ | ViolatedDeliveredFps _ _ _ => true
  | ViolatedFairness _ _ => has_idle_regions
  end.

Definition threshold_violations_can_step_down (violations : list EncoderThresholdViolation) (ps : RegionActivityProfiles) : bool :=
  forallb (violation_can_step_down (existsb (fun p => prof_target_fps p <=? 1) ps)) violations.

Definition latency_capacity_millifps (latency : Z) : Z :=
  if latency =? 0 then umax 32
  else u32_or_max (saturating_mul 128 MILLIFPS_SCALE NANOS_PER_SECOND / latency).

Definition delivered_capacity_millifps (t : EncoderAdmissionThresholds) (r : RegionEncoderMeasurements) : Z :=
  if min_delivered_fps_basis_points t =? 0 then 0
  else u32_or_max (saturating_mul 128 (rm_delivered_millifps r) BASIS_POINTS / min_delivered_fps_basis_points t).

Definition measured_region (m : EncoderSetMeasurements) (id : Z) : option RegionEncoderMeasurements :=
  snd <$> list_find (fun r => rm_session_monitor_id r = id) (per_region m).

Fixpoint sustainable_millifps (m : EncoderSetMeasurements) (t : EncoderAdmissionThresholds)
  (active : list RegionActivityProfile) (sustainable : Z) : option Z :=
  match active with
  | [] => Some sustainable
  | p :: active =>
    r ← measured_region m (prof_session_monitor_id p);
    sustainable_millifps m t active
      (Z.min sustainable (Z.min (delivered_capacity_millifps t r) (latency_capacity_millifps (rm_p95_encode_latency r))))
  end.

Definition snap_stepdown_fps (sustainable requested_fps : Z) : option Z :=
  find (fun fps => (fps <? requested_fps) && (MIN_ENCODER_STEPDOWN_FPS <=? fps) && (saturating_mul 32 fps 1000 <=? sustainable))
    FPS_STEPDOWN_LADDER.

Definition sustainable_ladder_fps (m : EncoderSetMeasurements) (ps : RegionActivityProfiles) (t : EncoderAdmissionThresholds)
  (requested_fps : Z) : option Z :=
  sustainable ← sustainable_millifps m t (active_profiles ps) (umax 32);
  snap_stepdown_fps sustainable requested_fps.

Definition attempt_stepdown (ps : RegionActivityProfiles) (t : EncoderAdmissionThresholds) (requested_fps : Z)
  (a : EncoderSetAttempt) : option (Z * Z * Z) :=
  match attempt_outcome a with
  | ThresholdFailed m violations =>
    if threshold_violations_can_step_down violations ps
    then admitted_fps ← sustainable_ladder_fps m ps t requested_fps; Some (attempt_index a, requested_fps, admitted_fps)
    else None
  | _ => None
  end.

Fixpoint find_map {A B} (f : A -> option B) (l : list A) : option B :=
  match l with [] => None | a :: l => match f a with Some b => Some b | None => find_map f l end end.

Definition fps_stepdown_candidate (attempts : list EncoderSetAttempt) (ps : RegionActivityProfiles)
  (t : EncoderAdmissionThresholds) : option (Z * Z * Z) :=
  requested_fps ← requested_stepdown_fps ps;
  if requested_fps <=? MIN_ENCODER_STEPDOWN_FPS then None
  else find_map (attempt_stepdown ps t requested_fps) attempts.

Definition retarget_plan (admitted_fps : Z) (p : RegionMediaPlan) : result MediaContractError RegionMediaPlan :=
  let fps := Z.min (plan_fps p) admitted_fps in
  RegionMediaPlan_new (plan_session_monitor_id p) (plan_stream_epoch p) (plan_backend p) (plan_video p) (plan_width p)
    (plan_height p) fps (nominal_for_geometry (plan_width p) (plan_height p) fps).

Definition retarget_encoder_roster_fps (r : RegionMediaRoster) (admitted_fps : Z) : result MediaContractError RegionMediaRoster :=
  plans ← collect (retarget_plan admitted_fps) r;
  RegionMediaRoster_new plans.

(** ** Admission *)

Definition check_candidate_plan (ps : RegionActivityProfiles) (index : Z) (bp : RegionMediaPlan * RegionMediaPlan)
  : result EncoderAdmissionError unit :=
  let '(b, p) := bp in
  let id := plan_session_monitor_id p in
  if negb (plan_session_monitor_id b =? id) then Err (CandidateRosterMismatch index id)
  else if negb (plan_width b =? plan_width p) || negb (plan_height b =? plan_height p) then Err (CandidateGeometryChanged index id)
  else if negb (plan_stream_epoch b =? plan_stream_epoch p) then Err (CandidateEpochChanged index id)
  else
    prof ← ok_or (profile ps id) ActivityRosterMismatch;
    if plan_fps p <? prof_target_fps prof then Err (CandidateFpsBelowTarget index id (plan_fps p) (prof_target_fps prof))
    else
      guard_err (bool_decide (prof_priority prof = FullColorRequired) && negb (bool_decide (video_chroma (plan_video p) = Chroma444)))
        (FullColorDowngrade index id).

Definition check_candidate (baseline : RegionMediaRoster) (ps : RegionActivityProfiles) (index : Z) (c : EncoderSetCandidate)
  : result EncoderAdmissionError unit :=
  if negb (len (cand_roster c) =? len baseline) then Err ActivityRosterMismatch
  else forM_err (check_candidate_plan ps index) (zip baseline (cand_roster c)).

Fixpoint check_candidates (baseline : RegionMediaRoster) (ps : RegionActivityProfiles) (index : Z) (cs : list EncoderSetCandidate)
  : result EncoderAdmissionError unit :=
  match cs with
  | [] => Ok tt
  | c :: cs => _ ← check_candidate baseline ps index c; check_candidates baseline ps (index + 1) cs
  end.

Definition validate_candidates (cs : list EncoderSetCandidate) (ps : RegionActivityProfiles) : result EncoderAdmissionError unit :=
  match cs with
  | [] => Err (InvalidCandidateCount 0)
  | c0 :: _ =>
    if MAX_ENCODER_SET_CANDIDATES <? len cs then Err (InvalidCandidateCount (len cs))
    else
      let baseline := cand_roster c0 in
      if negb (len baseline =? len ps) || existsb (fun p => negb (is_some (profile ps (plan_session_monitor_id p)))) baseline
      then Err ActivityRosterMismatch
      else check_candidates baseline ps 0 cs
  end.

Definition probe_request (index : Z) (c : EncoderSetCandidate) (ps : RegionActivityProfiles) (t : EncoderAdmissionThresholds)
  (p : RegionMediaPlan) : result EncoderAdmissionError EncoderProbeRequest :=
  let id := plan_session_monitor_id p in
  activity ← ok_or (profile ps id) ActivityRosterMismatch;
  binding ← ok_or (candidate_binding c id) (MissingBinding id);
  frames ← representative_frames activity t;
  Ok (mkProbe index p binding activity (measurement_window t) (max_probe_duration t) (warmup_frames t) frames).

(** [EncoderMeasurementAdapter::measure]; [None] is a panic. *)
Definition EncoderMeasurementAdapter : Type := EncoderProbeRequest -> option (result EncoderProbeFailureKind EncoderProbeTrace).

Definition join_result (measure : EncoderMeasurementAdapter) (r : EncoderProbeRequest)
  : result EncoderProbeFailureKind EncoderProbeTrace :=
  default (Err Panicked) (measure r).

(** The loop sorting the joined results into builds and failures. *)
Fixpoint sort_measured (measure : EncoderMeasurementAdapter) (requests : list EncoderProbeRequest)
  (builds : list RegionMeasurementBuild) (failures : list RegionProbeFailure)
  : list RegionMeasurementBuild * list RegionProbeFailure :=
  match requests with
  | [] => (builds, failures)
  | r :: requests =>
    match (trace ← join_result measure r; measurements_for_trace r trace) with
    | Ok build => sort_measured measure requests (builds ++ [build]) failures
    | Err failure =>
      sort_measured measure requests builds (failures ++ [mkProbeFailure (plan_session_monitor_id (probe_plan r)) failure])
    end
  end.

Definition measured_outcome (measure : EncoderMeasurementAdapter) (ps : RegionActivityProfiles) (t : EncoderAdmissionThresholds)
  (requests : list EncoderProbeRequest) : EncoderSetAttemptOutcome :=
  let '(builds, failures) := sort_measured measure requests [] [] in
  match failures with
  | _ :: _ => ProbeFailed failures
  | [] =>
    let m := aggregate_measurements builds in
    match threshold_violations m ps t with
    | [] => Passed m
    | violations => ThresholdFailed m violations
    end
  end.

Definition measure_candidate (index : Z) (c : EncoderSetCandidate) (ps : RegionActivityProfiles) (t : EncoderAdmissionThresholds)
  (measure : EncoderMeasurementAdapter) : result EncoderAdmissionError EncoderSetAttemptOutcome :=
  requests ← collect (probe_request index c ps t) (cand_roster c);
  Ok (measured_outcome measure ps t requests).

Fixpoint admission_loop (measure : EncoderMeasurementAdapter) (ps : RegionActivityProfiles) (t : EncoderAdmissionThresholds)
  (index : Z) (cs : list EncoderSetCandidate) (attempts : list EncoderSetAttempt)
  : result EncoderAdmissionError EncoderSetDecision :=
  match cs with
  | [] =>
    Ok match fps_stepdown_candidate attempts ps t with
       | Some (selected, requested_fps, admitted_fps) => StepDown selected requested_fps admitted_fps attempts
       | None => Reject attempts
       end
  | c :: cs =>
    outcome ← measure_candidate index c ps t measure;
    let attempts := attempts ++ [mkAttempt index c outcome] in
    if outcome_passed outcome then Ok (if index =? 0 then Accept index attempts else Reassign index attempts)
    else admission_loop measure ps t (index + 1) cs attempts
  end.

Definition admit_encoder_sets (cs : list EncoderSetCandidate) (ps : RegionActivityProfiles) (t : EncoderAdmissionThresholds)
  (measure : EncoderMeasurementAdapter) : result EncoderAdmissionError EncoderSetDecision :=
  _ ← thresholds_validate t;
  _ ← validate_candidates cs ps;
  admission_loop measure ps t 0 cs [].

(** ** The decision *)

Definition no_pass (attempts : list EncoderSetAttempt) : Prop :=
  Forall (fun a => outcome_passed (attempt_outcome a) = false) attempts.

(** The last attempt passed, no earlier one did, and its index is [s]. *)
Definition first_passing (attempts : list EncoderSetAttempt) (s : Z) : Prop :=
  exists init final, attempts = init ++ [final] /\ no_pass init /\ outcome_passed (attempt_outcome final) = true /\
    attempt_index final = s.

(** The [k]-th attempt is the measurement of the candidate at [index + k]. *)
Definition attempts_of (measure : EncoderMeasurementAdapter) (ps : RegionActivityProfiles) (t : EncoderAdmissionThresholds)
  (cs : list EncoderSetCandidate) (attempts : list EncoderSetAttempt) : Prop :=
  forall k a, attempts !! k = Some a ->
    attempt_index a = Z.of_nat k /\ cs !! k = Some (attempt_candidate a) /\
    measure_candidate (Z.of_nat k) (attempt_candidate a) ps t measure = Ok (attempt_outcome a).

Definition decision_shape (ps : RegionActivityProfiles) (t : EncoderAdmissionThresholds) (cs : list EncoderSetCandidate)
  (d : EncoderSetDecision) : Prop :=
  match d with
  | Accept s attempts => s = 0 /\ first_passing attempts s
  | Reassign s attempts => 0 < s /\ first_passing attempts s
  | StepDown s requested admitted attempts =>
    length attempts = length cs /\ no_pass attempts /\
    fps_stepdown_candidate attempts ps t = Some (s, requested, admitted)
  | Reject attempts => length attempts = length cs /\ no_pass attempts /\ fps_stepdown_candidate attempts ps t = None
  end.

Section Decision.
Context (measure : EncoderMeasurementAdapter) (ps : RegionActivityProfiles) (t : EncoderAdmissionThresholds).

Lemma attempts_of_snoc done_ c cs' attempts outcome :
  attempts_of measure ps t (done_ ++ c :: cs') attempts -> length attempts = length done_ ->
  measure_candidate (Z.of_nat (length done_)) c ps t measure = Ok outcome ->
  attempts_of measure ps t (done_ ++ c :: cs') (attempts ++ [mkAttempt (Z.of_nat (length done_)) c outcome]).
Proof.
  intros Hof Hlen Hm k a Hk. apply lookup_app_Some in Hk as [Hk|[Hle Hk]]; [by apply Hof|].
  rewrite Hlen in Hle, Hk. apply list_lookup_singleton_Some in Hk as [Hk <-]. cbn.
  replace k with (length done_) by lia. split_and!; [done| |done].
  rewrite lookup_app_r by lia. by rewrite Nat.sub_diag.
Qed.

Lemma admission_loop_exact cs' : forall done_ attempts d,
  attempts_of measure ps t (done_ ++ cs') attempts -> length attempts = length done_ -> no_pass attempts ->
  admission_loop measure ps t (Z.of_nat (length done_)) cs' attempts = Ok d ->
  attempts_of measure ps t (done_ ++ cs') (decision_attempts d) /\ decision_shape ps t (done_ ++ cs') d.
Proof.
  induction cs' as [|c cs' IH]; intros done_ attempts d Hof Hlen Hnp Hloop; cbn [admission_loop] in Hloop.
  - apply Ok_inj in Hloop as <-. rewrite app_nil_r in Hof |- *.
    destruct (fps_stepdown_candidate attempts ps t) as [[[s r] a]|] eqn:Hs; cbn; auto.
  - apply bind_Ok in Hloop as (outcome & Hm & Hloop).
    pose proof (attempts_of_snoc done_ c cs' attempts outcome Hof Hlen Hm) as Hof'.
    destruct (outcome_passed outcome) eqn:Hp.
    + apply Ok_inj in Hloop as <-.
      assert (first_passing (attempts ++ [mkAttempt (Z.of_nat (length done_)) c outcome]) (Z.of_nat (length done_))) as Hf
        by (eexists attempts, _; eauto).
      destruct (Z.eqb_spec (Z.of_nat (length done_)) 0); cbn; split; auto with lia.
    + replace (Z.of_nat (length done_) + 1) with (Z.of_nat (length (done_ ++ [c]))) in Hloop by (rewrite length_app; cbn; lia).
      specialize (IH (done_ ++ [c])). rewrite <- app_assoc in IH. cbn in IH. eapply IH; try eassumption.
      * rewrite !length_app, Hlen. done.
      * apply Forall_app; split; [done|by constructor].
Qed.

End Decision.

(** An admission that returns a decision has measured the candidates in host
    order from the first, one attempt each and none left out: [Accept] and
    [Reassign] name the first candidate whose measurement passed, [Accept]
    exactly when it is candidate zero, and stop there; [StepDown] and [Reject]
    come after every candidate was measured and none passed, [StepDown]
    exactly when [fps_stepdown_candidate] finds a lower rate. *)
Theorem admission_decision_exact cs ps t measure d :
  admit_encoder_sets cs ps t measure = Ok d ->
  attempts_of measure ps t cs (decision_attempts d) /\ decision_shape ps t cs d.
Proof.
  unfold admit_encoder_sets. rewrite !unit_bind_Ok. intros (_ & _ & Hloop).
  apply (admission_loop_exact measure ps t cs [] [] d); [intros k a Hk; by rewrite lookup_nil in Hk|done|constructor|done].
Qed.

(** ** Errors come before any measurement *)

Definition err_of {E A} (r : result E A) : option E := match r with Ok _ => None | Err e => Some e end.

Lemma err_of_bind {E A B} (r : result E A) (k : A -> result E B) :
  err_of (r ≫= k) = match r with Ok a => err_of (k a) | Err e => Some e end.
Proof. by destruct r. Qed.

Lemma err_of_collect {E A B} (f : A -> result E B) (l : list A) : err_of (collect f l) = find_map (fun a => err_of (f a)) l.
Proof.
  induction l as [|a l IH]; [done|]. cbn. rewrite err_of_bind. destruct (f a) as [b|]; [cbn|done].
  rewrite err_of_bind, <- IH. by destruct (collect f l).
Qed.

Lemma find_map_map {A B C} (f : B -> option C) (g : A -> B) (l : list A) : find_map f (map g l) = find_map (fun a => f (g a)) l.
Proof. induction l as [|a l IH]; [done|]. cbn. by rewrite IH. Qed.

Lemma find_map_ext {A B} (f g : A -> option B) (l : list A) : Forall (fun a => f a = g a) l -> find_map f l = find_map g l.
Proof. induction 1 as [|a l Ha _ IH]; [done|]. cbn. by rewrite Ha, IH. Qed.

(** The error of building a monitor's workload: no measurement is needed. *)
Definition workload_error (ps : RegionActivityProfiles) (t : EncoderAdmissionThresholds) (id : Z) : option EncoderAdmissionError :=
  match profile ps id with Some p => err_of (representative_frames p t) | None => Some ActivityRosterMismatch end.

(** What [admit_encoder_sets] checks without its adapter. *)
Definition preflight (cs : list EncoderSetCandidate) (ps : RegionActivityProfiles) (t : EncoderAdmissionThresholds)
  : option EncoderAdmissionError :=
  match err_of (thresholds_validate t), err_of (validate_candidates cs ps) with
  | Some e, _ | None, Some e => Some e
  | None, None =>
    match cs with c :: _ => find_map (workload_error ps t) (map plan_session_monitor_id (cand_roster c)) | [] => None end
  end.

(** A candidate that [EncoderSetCandidate::new] made. *)
Definition well_bound (c : EncoderSetCandidate) : Prop :=
  exists roster bindings, EncoderSetCandidate_new roster bindings = Ok c.

Lemma list_find_is_some {A} (P : A -> Prop) `{forall a, Decision (P a)} (l : list A) a :
  a ∈ l -> P a -> exists ia, list_find P l = Some ia.
Proof. intros Hin HP. destruct (list_find_elem_of P l a Hin HP) as [ia Hia]; eauto. Qed.

Lemma well_bound_binding c p : well_bound c -> p ∈ cand_roster c ->
  exists b, candidate_binding c (plan_session_monitor_id p) = Some b.
Proof.
  intros (roster & bindings & Hnew). unfold EncoderSetCandidate_new in Hnew.
  destruct (negb (len bindings =? len roster)); [done|].
  rewrite !unit_bind_Ok in Hnew. destruct Hnew as (_ & Hall & Hc). apply Ok_inj in Hc as <-. cbn. intros Hp.
  apply forM_err_Ok in Hall. pose proof (proj1 (Forall_forall _ _) Hall p Hp) as Hb.
  cbn in Hb. apply guard_err_Ok in Hb. apply negb_false_iff, bool_decide_eq_true, list_elem_of_fmap in Hb as (b & Hid & Hin).
  unfold candidate_binding. cbn.
  destruct (list_find_is_some (fun b => binding_monitor_id b = plan_session_monitor_id p) bindings b Hin (eq_sym Hid)) as [ib ->].
  by eexists.
Qed.

Lemma probe_request_error index c ps t p : well_bound c -> p ∈ cand_roster c ->
  err_of (probe_request index c ps t p) = workload_error ps t (plan_session_monitor_id p).
Proof.
  intros Hwb Hp. destruct (well_bound_binding c p Hwb Hp) as [b Hb]. unfold probe_request, workload_error.
  destruct (profile ps (plan_session_monitor_id p)) as [prof|]; [|done]. cbn. rewrite Hb. cbn.
  by destruct (representative_frames prof t).
Qed.

Lemma measure_candidate_error index c ps t measure : well_bound c ->
  err_of (measure_candidate index c ps t measure) = find_map (workload_error ps t) (map plan_session_monitor_id (cand_roster c)).
Proof.
  intros Hwb. unfold measure_candidate. rewrite err_of_bind.
  transitivity (err_of (collect (probe_request index c ps t) (cand_roster c))).
  { by destruct (collect (probe_request index c ps t) (cand_roster c)). }
  rewrite err_of_collect, find_map_map. apply find_map_ext, Forall_forall. intros p Hp.
  by apply probe_request_error.
Qed.

(** Candidates that share a baseline list the same monitors in the same order. *)
Lemma check_candidate_ids baseline ps index c : check_candidate baseline ps index c = Ok tt ->
  map plan_session_monitor_id (cand_roster c) = map plan_session_monitor_id baseline.
Proof.
  unfold check_candidate. destruct (Z.eqb_spec (len (cand_roster c)) (len baseline)) as [Hlen|]; [cbn|done].
  rewrite forM_err_Ok. revert Hlen. generalize (cand_roster c) as l. unfold len.
  induction baseline as [|b baseline IH]; intros [|p l] Hlen Hall; cbn in Hlen; try lia; [done|].
  cbn in Hall. apply Forall_cons in Hall as [Hp Hall]. cbn.
  rewrite IH by (lia || done). f_equal. cbn in Hp.
  by destruct (Z.eqb_spec (plan_session_monitor_id b) (plan_session_monitor_id p)) as [->|].
Qed.

Lemma check_candidates_ids baseline ps cs : forall index, check_candidates baseline ps index cs = Ok tt ->
  Forall (fun c => map plan_session_monitor_id (cand_roster c) = map plan_session_monitor_id baseline) cs.
Proof.
  induction cs as [|c cs IH]; intros index; cbn; [constructor|].
  rewrite unit_bind_Ok. intros [Hc Hcs]. constructor; [by eapply check_candidate_ids|by eapply IH].
Qed.

Lemma validate_candidates_ids c0 cs ps : validate_candidates (c0 :: cs) ps = Ok tt ->
  Forall (fun c => map plan_session_monitor_id (cand_roster c) = map plan_session_monitor_id (cand_roster c0)) (c0 :: cs).
Proof.
  unfold validate_candidates. destruct (_ <? _); [done|]. cbv zeta.
  destruct (negb _ || _); [done|]. apply check_candidates_ids.
Qed.

Lemma admission_loop_error measure ps t ids : forall cs index attempts,
  find_map (workload_error ps t) ids = None -> Forall well_bound cs ->
  Forall (fun c => map plan_session_monitor_id (cand_roster c) = ids) cs ->
  err_of (admission_loop measure ps t index cs attempts) = None.
Proof.
  induction cs as [|c cs IH]; intros index attempts Hids Hwb Heq; [done|].
  apply Forall_cons in Hwb as [Hc Hwb]. apply Forall_cons in Heq as [Hi Heq]. cbn [admission_loop].
  pose proof (measure_candidate_error index c ps t measure Hc) as Hm. rewrite Hi, Hids in Hm.
  rewrite err_of_bind. destruct (measure_candidate index c ps t measure) as [o|]; [|done].
  destruct (outcome_passed o); [by destruct (index =? 0)|]. by apply IH.
Qed.

(** An admission fails exactly with the error of its checks on the
    thresholds, the candidates and the workloads, none of which asks the
    adapter: whatever the adapter answers, or if it panics, candidates made by
    [EncoderSetCandidate::new] lead to the same error or to a decision. *)
Theorem admission_errors_before_measuring cs ps t measure : Forall well_bound cs ->
  err_of (admit_encoder_sets cs ps t measure) = preflight cs ps t.
Proof.
  intros Hwb. unfold admit_encoder_sets, preflight. rewrite !err_of_bind.
  destruct (thresholds_validate t) as [u|]; [|done]. cbn [err_of].
  destruct (validate_candidates cs ps) as [u'|] eqn:Hv; [|done]. cbn [err_of].
  destruct cs as [|c cs]; [done|]. destruct u'. pose proof (validate_candidates_ids c cs ps Hv) as Hids.
  destruct (find_map (workload_error ps t) (map plan_session_monitor_id (cand_roster c))) as [e|] eqn:Hf.
  - apply Forall_cons in Hwb as [Hc _]. cbn [admission_loop].
    pose proof (measure_candidate_error 0 c ps t measure Hc) as Hm. rewrite Hf in Hm. rewrite err_of_bind.
    destruct (measure_candidate 0 c ps t measure); [done|by apply Hm].
  - by apply (admission_loop_error measure ps t _ (c :: cs) 0 []) in Hids.
Qed.

(** ** What a passing measurement shows *)

Lemma div_ceil_up a b : 0 < b -> a <= div_ceil a b * b.
Proof. intros Hb. pose proof (div_ceil_spec a b Hb). lia. Qed.

Lemma div_ceil_bound a b n : 0 < b -> a <= n * b -> div_ceil a b <= n.
Proof. intros Hb Ha. pose proof (div_ceil_spec a b Hb). nia. Qed.

Definition count {A} (f : A -> bool) (l : list A) : Z := len (List.filter f l).

Lemma count_cons {A} (f : A -> bool) a (l : list A) : count f (a :: l) = (if f a then 1 else 0) + count f l.
Proof. unfold count, len. cbn. destruct (f a); cbn; lia. Qed.

Lemma count_nonneg {A} (f : A -> bool) (l : list A) : 0 <= count f l <= len l.
Proof. induction l as [|a l IH]; [done|]. rewrite count_cons. unfold len in *. cbn. destruct (f a); lia. Qed.

Lemma count_Permutation {A} (f : A -> bool) (l l' : list A) : Permutation l l' -> count f l = count f l'.
Proof.
  induction 1 as [|a l l' _ IH|a b l|l1 l2 l3 _ IH1 _ IH2]; rewrite ?count_cons; [done|lia..].
Qed.

Lemma count_map {A B} (f : B -> bool) (g : A -> B) (l : list A) : count f (map g l) = count (fun a => f (g a)) l.
Proof. induction l as [|a l IH]; [done|]. cbn [map]. rewrite !count_cons. lia. Qed.

(** In a sorted list the entries up to one that is at most [v] are at most [v]. *)
Lemma sorted_prefix_count (l : list Z) v : StronglySorted Z.le l ->
  forall k, (k < length l)%nat -> nth k l 0 <= v -> Z.of_nat k + 1 <= count (fun x => x <=? v) l.
Proof.
  induction 1 as [|x l Hl IH Hx]; cbn [length]; intros k Hk Hv; [lia|]. rewrite count_cons.
  pose proof (count_nonneg (fun x => x <=? v) l).
  destruct k as [|k]; cbn [nth] in Hv; [rewrite (proj2 (Z.leb_le x v) Hv); lia|].
  assert (x <= nth k l 0) as Hle by (apply (proj1 (Forall_forall _ _) Hx), list_elem_of_In, nth_In; lia).
  rewrite (proj2 (Z.leb_le x v) ltac:(lia)). specialize (IH k ltac:(lia) Hv). lia.
Qed.

Lemma percentile_rank (l : list Z) percent : l <> [] -> 0 <= percent <= 100 ->
  1 <= Z.max (div_ceil (len l * percent) 100) 1 <= len l.
Proof.
  intros Hl Hp. assert (1 <= len l) by (destruct l; unfold len; cbn; [done|lia]).
  pose proof (div_ceil_bound (len l * percent) 100 (len l)). nia.
Qed.

(** When the percentile of a sorted list is at most [v], that share of it is. *)
Lemma percentile_share (l : list Z) percent v : l <> [] -> 0 <= percent <= 100 -> StronglySorted Z.le l ->
  percentile l percent <= v -> len l * percent <= 100 * count (fun x => x <=? v) l.
Proof.
  intros Hl Hp Hs. unfold percentile. rewrite bool_decide_false by done.
  pose proof (percentile_rank l percent Hl Hp) as Hr. pose proof (div_ceil_up (len l * percent) 100).
  cbv zeta. set (rank := Z.max _ _) in *. intros Hv.
  pose proof (sorted_prefix_count l v Hs (Z.to_nat (rank - 1)) ltac:(unfold len in *; lia) Hv). lia.
Qed.

Lemma sorted_percentile_share (l : list Z) percent v : l <> [] -> 0 <= percent <= 100 ->
  percentile (merge_sort Z.le l) percent <= v -> len l * percent <= 100 * count (fun x => x <=? v) l.
Proof.
  intros Hl Hp Hv. pose proof (merge_sort_Permutation Z.le l) as HP.
  rewrite <- (count_Permutation _ _ _ HP). unfold len. rewrite <- (Permutation_length HP).
  apply percentile_share; [|done|by apply (StronglySorted_merge_sort Z.le)|done].
  intros He. rewrite He in HP. by apply Permutation_nil in HP.
Qed.

(** A sample answers the frame it was asked for within the trace's time. *)
Definition sample_answers (elapsed_ : Z) (f : RepresentativeFrame) (s : EncoderProbeSample) : Prop :=
  sample_sequence s = frame_sequence f /\ sample_kind s = frame_kind f /\ queue_age s + encode_latency s <= elapsed_.

Lemma check_samples_exact e frames : forall ss lat ages n lat' ages' n',
  len ss = len frames -> check_samples e frames ss lat ages n = Ok (lat', ages', n') -> 0 <= n -> n + len ss <= umax 16 ->
  Forall2 (sample_answers e) frames ss /\ lat' = lat ++ map encode_latency ss /\ ages' = ages ++ map queue_age ss /\
  n' = n + count delivered ss.
Proof.
  unfold len. induction frames as [|f frames IH]; intros [|s ss] lat ages n lat' ages' n' Hlen Hc Hn Hm; cbn in Hlen; try lia.
  - cbn in Hc. apply Ok_inj in Hc as [= <- <- <-]. rewrite !app_nil_r. split_and!; [constructor|done|done|].
    unfold count, len. cbn. lia.
  - cbn [check_samples] in Hc.
    destruct (Z.eqb_spec (sample_sequence s) (frame_sequence f)) as [Hseq|]; [cbn in Hc|done].
    destruct (bool_decide_reflect (sample_kind s = frame_kind f)) as [Hk|]; [cbn in Hc|done].
    destruct (Z.ltb_spec e (queue_age s + encode_latency s)) as [|Ht]; [by rewrite orb_true_r in Hc|].
    rewrite orb_false_r in Hc. destruct (DURATION_MAX <? _); [done|].
    cbn [length] in Hm.
    apply IH in Hc as (HF & -> & -> & ->); [|lia|unfold saturating_add, umax in *; destruct (delivered s); lia
                                           |unfold saturating_add in *; destruct (delivered s); lia].
    rewrite <- !app_assoc, count_cons. split_and!; [by constructor|done|done|].
    unfold saturating_add in *. destruct (delivered s); lia.
Qed.

Lemma measurements_for_trace_exact r tr b : measurements_for_trace r tr = Ok b ->
  let m := build_measurements b in
  Forall2 (sample_answers (elapsed tr)) (probe_sample_frames r) (samples tr) /\
  rm_session_monitor_id m = plan_session_monitor_id (probe_plan r) /\
  rm_p95_encode_latency m = percentile (merge_sort Z.le (map encode_latency (samples tr))) 95 /\
  rm_p95_queue_age m = percentile (merge_sort Z.le (map queue_age (samples tr))) 95 /\
  rm_delivered_millifps m = delivered_millifps (count delivered (samples tr)) (elapsed tr).
Proof.
  unfold measurements_for_trace. destruct (_ =? 0); [done|]. destruct (_ <? _); [done|].
  destruct (Z.eqb_spec (len (samples tr)) (len (probe_sample_frames r))) as [Hlen|]; [cbn [negb]|done].
  rewrite bind_Ok. intros ([[lat ages] n] & Hc & Hb). rewrite bind_Ok in Hb. destruct Hb as (o & Ho & Hb).
  apply ok_or_Ok, try_unsigned_Some in Ho as [-> Ho]. unfold in_width in Ho.
  apply Ok_inj in Hb as <-. cbn.
  apply (check_samples_exact _ _ _ _ _ _ _ _ _ Hlen) in Hc as (HF & -> & -> & ->); [|lia|unfold umax; lia].
  by cbn.
Qed.

(** Joining and sorting: no failure exactly when every request was measured. *)
Lemma sort_measured_app measure rs : forall bs fs bs' fs', sort_measured measure rs bs fs = (bs', fs') ->
  exists nb nf, bs' = bs ++ nb /\ fs' = fs ++ nf /\
    (nf = [] -> Forall2 (fun r b => exists tr, measure r = Some (Ok tr) /\ measurements_for_trace r tr = Ok b) rs nb).
Proof.
  induction rs as [|r rs IH]; intros bs fs bs' fs' Hs; cbn [sort_measured] in Hs.
  - injection Hs as <- <-. exists [], []. rewrite !app_nil_r. eauto.
  - destruct (join_result measure r ≫= _) as [b|f] eqn:Hr; apply IH in Hs as (nb & nf & -> & -> & HF).
    + exists (b :: nb), nf. rewrite <- !app_assoc. split_and!; [done|done|]. intros Hnf. constructor; [|by apply HF].
      apply bind_Ok in Hr as (tr & Hj & Htr). exists tr. split; [|done].
      unfold join_result in Hj. destruct (measure r) as [res|]; cbn in Hj; [by subst|done].
    + eexists nb, (_ :: nf). rewrite <- !app_assoc. split_and!; [done|done|by intros [=]].
Qed.

Lemma measured_outcome_passed measure ps t rs m : measured_outcome measure ps t rs = Passed m ->
  exists bs, m = aggregate_measurements bs /\ threshold_violations m ps t = [] /\
    Forall2 (fun r b => exists tr, measure r = Some (Ok tr) /\ measurements_for_trace r tr = Ok b) rs bs.
Proof.
  unfold measured_outcome. destruct (sort_measured measure rs [] []) as [bs fs] eqn:Hs.
  apply sort_measured_app in Hs as (nb & nf & -> & -> & HF). cbn [app].
  destruct nf as [|f nf]; [|done]. cbv zeta.
  destruct (threshold_violations (aggregate_measurements nb) ps t) eqn:Hv; [|done].
  intros [= <-]. eauto.
Qed.

Lemma concat_map_nil {A B} (f : A -> list B) (l : list A) : concat (map f l) = [] -> Forall (fun a => f a = []) l.
Proof. induction l as [|a l IH]; cbn; [constructor|]. intros [Ha Hl]%app_eq_nil. constructor; auto. Qed.

Lemma region_violations_nil ps t r : region_violations ps t r = [] ->
  rm_p95_encode_latency r <= max_p95_encode_latency t /\ rm_p95_queue_age r <= max_p95_queue_age t /\
  (forall p, profile ps (rm_session_monitor_id r) = Some p -> required_millifps t p <= rm_delivered_millifps r).
Proof.
  unfold region_violations. intros [H1 [H2 H3]%app_eq_nil]%app_eq_nil.
  destruct (Z.ltb_spec (max_p95_encode_latency t) (rm_p95_encode_latency r)); [done|].
  destruct (Z.ltb_spec (max_p95_queue_age t) (rm_p95_queue_age r)); [done|].
  split_and!; [done|done|]. intros p Hp. rewrite Hp in H3.
  by destruct (Z.ltb_spec (rm_delivered_millifps r) (required_millifps t p)).
Qed.

Lemma representative_frames_nonempty p t fs : representative_frames p t = Ok fs -> fs <> [].
Proof.
  unfold representative_frames. cbv zeta. destruct (_ <? _); [done|]. rewrite bind_Ok. intros (n & Hn & Hfs).
  apply ok_or_Ok, try_unsigned_Some in Hn as [-> _].
  destruct (match prof_activity_class p with Idle | Sparse => _ | _ => _ end) as [k d].
  apply Ok_inj in Hfs as <-. set (required := Z.max _ 1).
  destruct (Z.to_nat required) eqn:E; [unfold required in E; lia|done].
Qed.

(** The shares and rates of a trace that keeps the thresholds. *)
Definition trace_keeps (t : EncoderAdmissionThresholds) (p : RegionActivityProfile) (tr : EncoderProbeTrace) : Prop :=
  len (samples tr) * 95 <= 100 * count (fun s => encode_latency s <=? max_p95_encode_latency t) (samples tr) /\
  len (samples tr) * 95 <= 100 * count (fun s => queue_age s <=? max_p95_queue_age t) (samples tr) /\
  required_millifps t p <= delivered_millifps (count delivered (samples tr)) (elapsed tr).

Lemma build_keeps r tr b ps t p :
  measurements_for_trace r tr = Ok b -> region_violations ps t (build_measurements b) = [] ->
  probe_sample_frames r <> [] -> profile ps (plan_session_monitor_id (probe_plan r)) = Some p ->
  Forall2 (sample_answers (elapsed tr)) (probe_sample_frames r) (samples tr) /\ trace_keeps t p tr.
Proof.
  intros Hb Hv Hne Hp. destruct (measurements_for_trace_exact r tr b Hb) as (HF & Hid & Hl & Ha & Hd).
  apply region_violations_nil in Hv as (HL & HA & HD). split; [done|].
  assert (samples tr <> []) as Hs by (intros E; rewrite E in HF; by apply Forall2_nil_inv_r in HF).
  rewrite Hl in HL. rewrite Ha in HA.
  apply sorted_percentile_share in HL; [|by intros E%map_eq_nil|lia].
  apply sorted_percentile_share in HA; [|by intros E%map_eq_nil|lia].
  rewrite count_map in HL, HA. unfold len in HL, HA. rewrite length_map in HL, HA.
  split_and!; [done|done|]. rewrite <- Hd. apply HD. by rewrite Hid.
Qed.

(** What a passing measurement of [p] means. *)
Definition plan_measured (index : Z) (c : EncoderSetCandidate) (ps : RegionActivityProfiles) (t : EncoderAdmissionThresholds)
  (measure : EncoderMeasurementAdapter) (p : RegionMediaPlan) : Prop :=
  exists r prof tr, probe_request index c ps t p = Ok r /\ profile ps (plan_session_monitor_id p) = Some prof /\
    measure r = Some (Ok tr) /\ Forall2 (sample_answers (elapsed tr)) (probe_sample_frames r) (samples tr) /\
    trace_keeps t prof tr.

Lemma collect_Forall2 {E A B} (f : A -> result E B) (l : list A) : forall bs,
  collect f l = Ok bs -> Forall2 (fun a b => f a = Ok b) l bs.
Proof.
  induction l as [|a l IH]; intros bs H; cbn in H; [apply Ok_inj in H as <-; constructor|].
  apply bind_Ok in H as (b & Hb & H). apply bind_Ok in H as (bs' & Hbs & H). apply Ok_inj in H as <-.
  constructor; auto.
Qed.

(** C15: A set whose attempt passed was measured in full: for every plan of the
    candidate the adapter returned, without panicking, a trace that answers
    the requested frames one by one within its own time, at least 95 of 100
    samples have an encode latency within the threshold, at least 95 of 100 a
    queue age within it, and the frames delivered per second reach the
    required share of the region's target; the fairness of the set reaches
    its minimum. *)
Theorem passed_set_keeps_thresholds index c ps t measure m :
  measure_candidate index c ps t measure = Ok (Passed m) ->
  Forall (plan_measured index c ps t measure) (cand_roster c) /\ min_fairness_basis_points t <= fairness_basis_points m.
Proof.
  unfold measure_candidate. rewrite bind_Ok. intros (rs & Hrs & Ho). apply Ok_inj, measured_outcome_passed in Ho.
  destruct Ho as (bs & Hm & Hv & HF). unfold threshold_violations in Hv. apply app_eq_nil in Hv as [Hv Hfair]. split.
  - apply concat_map_nil in Hv. rewrite Hm in Hv. cbn in Hv. clear m Hm Hfair.
    apply collect_Forall2 in Hrs. revert bs HF Hv.
    induction Hrs as [|p r ps' rs Hr Hrs IH]; intros bs HF Hv; [constructor|].
    apply Forall2_cons_inv_l in HF as (b & bs' & (tr & Htr & Hb) & HF & ->). cbn in Hv.
    apply Forall_cons in Hv as [Hvb Hv]. constructor; [|by eapply IH]. exists r.
    pose proof Hr as Hreq. unfold probe_request in Hr. apply bind_Ok in Hr as (prof & Hprof & Hr).
    apply bind_Ok in Hr as (bd & Hbd & Hr). apply bind_Ok in Hr as (fs & Hfs & Hr). apply Ok_inj in Hr. apply ok_or_Ok in Hprof.
    exists prof, tr. split_and!; [done|done|done|..]; eapply (build_keeps r tr b ps t prof); try done; rewrite <- Hr; cbn;
      by try eapply representative_frames_nonempty.
  - by destruct (Z.ltb_spec (fairness_basis_points m) (min_fairness_basis_points t)).
Qed.

(** ** The lower rate *)

Lemma u32_or_max_nonneg v : 0 <= u32_or_max v.
Proof.
  unfold u32_or_max. destruct (try_unsigned 32 v) as [w|] eqn:E; [|unfold umax; cbn; lia].
  apply try_unsigned_Some in E as [-> ?]. unfold in_width in *. cbn. lia.
Qed.

Lemma u32_or_max_le v : 0 <= v -> u32_or_max v <= v.
Proof.
  intros Hv. unfold u32_or_max, try_unsigned. rewrite (proj2 (Z.leb_le 0 v) Hv). cbn [andb].
  destruct (Z.leb_spec v (umax 32)); cbn; lia.
Qed.

Lemma fold_max_bound (l : list Z) : forall x, x <= fold_left Z.max l x /\ Forall (fun y => y <= fold_left Z.max l x) l.
Proof.
  induction l as [|y l IH]; intros x; cbn; [split; [lia|constructor]|].
  destruct (IH (Z.max x y)) as [Hx Hl]. split; [lia|]. constructor; [lia|done].
Qed.

Lemma iter_max_bound (l : list Z) m : iter_max l = Some m -> Forall (fun y => y <= m) l.
Proof. destruct l as [|x l]; [done|]. cbn. intros [= <-]. destruct (fold_max_bound l x). by constructor. Qed.

Lemma find_map_Some {A B} (f : A -> option B) (l : list A) b : find_map f l = Some b -> exists a, a ∈ l /\ f a = Some b.
Proof.
  induction l as [|a l IH]; cbn; [done|]. destruct (f a) as [b'|] eqn:E.
  - intros [= ->]. exists a. split; [constructor|done].
  - intros (a' & Hin & Ha')%IH. exists a'. split; [by constructor|done].
Qed.

(** The capacity one region's measurement gives. *)
Definition region_capacity (t : EncoderAdmissionThresholds) (r : RegionEncoderMeasurements) : Z :=
  Z.min (delivered_capacity_millifps t r) (latency_capacity_millifps (rm_p95_encode_latency r)).

(** [sustainable_millifps] is the minimum over the active regions. *)
Lemma sustainable_millifps_exact m t active : forall start v, sustainable_millifps m t active start = Some v ->
  Forall (fun p => exists r, measured_region m (prof_session_monitor_id p) = Some r /\ v <= region_capacity t r) active /\
  (v = start \/ Exists (fun p => exists r, measured_region m (prof_session_monitor_id p) = Some r /\ v = region_capacity t r) active)
  /\ v <= start.
Proof.
  induction active as [|p active IH]; intros start v H; cbn [sustainable_millifps] in H.
  - injection H as <-. split_and!; [constructor|by left|lia].
  - destruct (measured_region m (prof_session_monitor_id p)) as [r|] eqn:Hr; [|done].
    cbn in H. fold (region_capacity t r) in H. apply IH in H as (HF & HE & Hle). split_and!.
    + constructor; [exists r; split; [done|lia]|done].
    + destruct HE as [->|HE]; [|by right; apply Exists_cons_tl].
      destruct (Z.min_spec start (region_capacity t r)) as [[_ ->]|[_ ->]]; [by left|].
      right. apply Exists_cons_hd. eauto.
    + lia.
Qed.

Lemma delivered_capacity_meets t r adm : 0 <= adm -> 0 < min_delivered_fps_basis_points t -> 0 <= rm_delivered_millifps r ->
  adm * 1000 <= delivered_capacity_millifps t r ->
  scale_basis_points_ceil (adm * 1000) (min_delivered_fps_basis_points t) <= rm_delivered_millifps r.
Proof.
  intros Hadm Hbp Hd Hc. unfold delivered_capacity_millifps in Hc. destruct (Z.eqb_spec (min_delivered_fps_basis_points t) 0) as [|_]; [lia|].
  pose proof (Z.le_min_l (rm_delivered_millifps r * BASIS_POINTS) (umax 128)) as Hs.
  fold (saturating_mul 128 (rm_delivered_millifps r) BASIS_POINTS) in Hs.
  assert (0 <= saturating_mul 128 (rm_delivered_millifps r) BASIS_POINTS) as H0
    by (unfold saturating_mul, BASIS_POINTS, umax; lia).
  pose proof (Z.div_pos _ (min_delivered_fps_basis_points t) H0 Hbp) as Hq.
  pose proof (u32_or_max_le _ Hq) as Hu.
  pose proof (Z.mul_div_le (saturating_mul 128 (rm_delivered_millifps r) BASIS_POINTS) _ Hbp).
  assert (adm * 1000 * min_delivered_fps_basis_points t <= rm_delivered_millifps r * BASIS_POINTS) by nia.
  unfold scale_basis_points_ceil.
  pose proof (div_ceil_bound (adm * 1000 * min_delivered_fps_basis_points t) BASIS_POINTS (rm_delivered_millifps r)
                ltac:(unfold BASIS_POINTS; lia) ltac:(lia)).
  pose proof (div_ceil_nonneg (adm * 1000 * min_delivered_fps_basis_points t) BASIS_POINTS ltac:(nia) ltac:(unfold BASIS_POINTS; lia))
    as Hn.
  pose proof (u32_or_max_le _ Hn). lia.
Qed.

Lemma latency_capacity_meets latency adm : 0 < adm -> adm * 1000 <= latency_capacity_millifps latency ->
  adm * latency <= NANOS_PER_SECOND.
Proof.
  intros Hadm Hc. unfold latency_capacity_millifps in Hc. unfold NANOS_PER_SECOND.
  destruct (Z.eqb_spec latency 0) as [->|Hne]; [lia|].
  destruct (Z.lt_ge_cases latency 0) as [|Hl]; [nia|].
  replace (saturating_mul 128 MILLIFPS_SCALE NANOS_PER_SECOND) with 1000000000000 in Hc by reflexivity.
  assert (0 <= 1000000000000 / latency) as Hq by (apply Z.div_pos; lia).
  pose proof (u32_or_max_le _ Hq).
  pose proof (Z.mul_div_le 1000000000000 latency ltac:(lia)). nia.
Qed.

(** The ladder is descending, so the first rate found is the highest. *)
Lemma snap_stepdown_exact v requested fps : snap_stepdown_fps v requested = Some fps ->
  fps ∈ FPS_STEPDOWN_LADDER /\ fps < requested /\ fps * 1000 <= v /\
  Forall (fun g => fps < g < requested -> v < g * 1000 <= 60000) FPS_STEPDOWN_LADDER.
Proof.
  unfold snap_stepdown_fps, FPS_STEPDOWN_LADDER. intros H. pose proof (find_some _ _ H) as [Hin Hf].
  rewrite !andb_true_iff, Z.ltb_lt, Z.leb_le in Hf. destruct Hf as [[Hlt Hmin] Hcap].
  assert (forall g, g ∈ [60; 50; 45; 40; 30; 24] -> saturating_mul 32 g 1000 = g * 1000) as Hsat.
  { intros g Hg. repeat (apply elem_of_cons in Hg as [->|Hg]; [reflexivity|]). by apply not_elem_of_nil in Hg. }
  rewrite Z.leb_le, Hsat in Hcap by (by apply list_elem_of_In). split_and!; [by apply list_elem_of_In|done|done|].
  unfold MIN_ENCODER_STEPDOWN_FPS in H. revert H. cbn [find].
  rewrite !Hsat by (rewrite !elem_of_cons; auto 10).
  repeat (match goal with |- context [if ?b then _ else _] => destruct b eqn:? end; [|]);
    rewrite ?andb_true_iff, ?andb_false_iff, ?Z.ltb_lt, ?Z.ltb_ge, ?Z.leb_le, ?Z.leb_gt in *;
    intros [= <-]; repeat constructor; lia.
Qed.

Lemma requested_stepdown_bound ps r : requested_stepdown_fps ps = Some r ->
  Forall (fun p => prof_target_fps p <= r) (active_profiles ps).
Proof. intros H%iter_max_bound. by rewrite Forall_map in H. Qed.

Definition well_measured (m : EncoderSetMeasurements) : Prop := Forall (fun r => 0 <= rm_delivered_millifps r) (per_region m).

Lemma measured_outcome_well measure ps t rs m vs : measured_outcome measure ps t rs = ThresholdFailed m vs -> well_measured m.
Proof.
  unfold measured_outcome. destruct (sort_measured measure rs [] []) as [bs fs] eqn:Hs.
  apply sort_measured_app in Hs as (nb & nf & -> & -> & HF). cbn [app].
  destruct nf as [|f nf]; [|done]. specialize (HF eq_refl). cbv zeta.
  destruct (threshold_violations (aggregate_measurements nb) ps t); [done|]. intros [= <- _].
  unfold well_measured. cbn. apply Forall_map. clear -HF. induction HF as [|r b rs nb (tr & _ & Hb) HF IH]; constructor; [|done].
  cbn. destruct (measurements_for_trace_exact r tr b Hb) as (_ & _ & _ & _ & ->).
  unfold delivered_millifps. destruct (_ || _); [lia|apply u32_or_max_nonneg].
Qed.

Lemma measured_region_well m id r : well_measured m -> measured_region m id = Some r -> 0 <= rm_delivered_millifps r.
Proof.
  unfold measured_region. intros Hw H. apply fmap_Some in H as ([i r'] & Hf & ->).
  apply list_find_Some in Hf as (Hi & _). by apply (Forall_lookup_1 _ _ _ _ Hw Hi).
Qed.

(** The regions of [m] meet the thresholds at [fps]. *)
Definition meets_at (m : EncoderSetMeasurements) (t : EncoderAdmissionThresholds) (fps : Z) (p : RegionActivityProfile) : Prop :=
  exists r, measured_region m (prof_session_monitor_id p) = Some r /\
    scale_basis_points_ceil (fps * 1000) (min_delivered_fps_basis_points t) <= rm_delivered_millifps r /\
    fps * rm_p95_encode_latency r <= NANOS_PER_SECOND.

Definition exceeded_at (m : EncoderSetMeasurements) (t : EncoderAdmissionThresholds) (fps : Z) (p : RegionActivityProfile) : Prop :=
  exists r, measured_region m (prof_session_monitor_id p) = Some r /\ region_capacity t r < fps * 1000.

Lemma sustainable_ladder_exact m ps t requested admitted :
  0 < min_delivered_fps_basis_points t -> well_measured m -> sustainable_ladder_fps m ps t requested = Some admitted ->
  admitted ∈ FPS_STEPDOWN_LADDER /\ admitted < requested /\ Forall (meets_at m t admitted) (active_profiles ps) /\
  Forall (fun fps => admitted < fps < requested -> Exists (exceeded_at m t fps) (active_profiles ps)) FPS_STEPDOWN_LADDER.
Proof.
  intros Hbp Hw H. unfold sustainable_ladder_fps in H. apply bind_Some in H as (v & Hv & Hsnap).
  apply snap_stepdown_exact in Hsnap as (Hin & Hlt & Hcap & Hmax).
  apply sustainable_millifps_exact in Hv as (HF & HE & _).
  assert (0 < admitted) by (repeat (apply elem_of_cons in Hin as [->|Hin]; [lia|]); by apply not_elem_of_nil in Hin).
  split_and!; [done|done|..].
  - eapply Forall_impl; [exact HF|]. cbn. intros p (r & Hr & Hle). exists r. unfold region_capacity in Hle.
    split_and!; [done| |].
    + apply delivered_capacity_meets; [lia|done|by eapply measured_region_well|lia].
    + apply latency_capacity_meets; [done|lia].
  - eapply Forall_impl; [exact Hmax|]. cbn. intros fps Hfps Hb. specialize (Hfps Hb).
    destruct HE as [->|HE]; [unfold umax in Hfps; lia|].
    eapply Exists_impl; [exact HE|]. intros p (r & Hr & ->). exists r. split; [done|lia].
Qed.

(** A step-down names an attempt that was measured and failed only its
    thresholds, and its rate is the highest of the ladder below the highest
    active target that the measurement sustains: at the admitted rate every
    active region delivered the required share and its 95th-percentile
    encode latency fits the frame interval, and any higher ladder rate below
    the requested one exceeds the measured capacity of some active region. *)
Theorem stepdown_rate_exact cs ps t measure s requested admitted attempts :
  is_u16 (min_delivered_fps_basis_points t) ->
  admit_encoder_sets cs ps t measure = Ok (StepDown s requested admitted attempts) ->
  24 < requested /\ Forall (fun p => prof_target_fps p <= requested) (active_profiles ps) /\
  admitted ∈ FPS_STEPDOWN_LADDER /\ admitted < requested /\
  exists a m violations, a ∈ attempts /\ attempt_index a = s /\ attempt_outcome a = ThresholdFailed m violations /\
    Forall (meets_at m t admitted) (active_profiles ps) /\
    Forall (fun fps => admitted < fps < requested -> Exists (exceeded_at m t fps) (active_profiles ps)) FPS_STEPDOWN_LADDER.
Proof.
  intros Hu Hd. unfold admit_encoder_sets in Hd. rewrite !unit_bind_Ok in Hd. destruct Hd as (Ht & _ & Hloop).
  apply (admission_loop_exact measure ps t cs [] []) in Hloop as [Hof (_ & _ & Hs)];
    [|intros k a Hk; by rewrite lookup_nil in Hk|done|constructor].
  assert (0 < min_delivered_fps_basis_points t) as Hbp.
  { unfold thresholds_validate in Ht. repeat (case_match; [done|]). apply forM_err_Ok, Forall_cons in Ht as [Ht _].
    apply guard_err_Ok, orb_false_iff in Ht as [Ht _]. cbn in Ht. apply Z.eqb_neq in Ht. unfold in_width in Hu. lia. }
  cbn in Hof. unfold fps_stepdown_candidate in Hs. apply bind_Some in Hs as (req & Hreq & Hs).
  destruct (Z.leb_spec req MIN_ENCODER_STEPDOWN_FPS) as [|Hgt]; [done|]. unfold MIN_ENCODER_STEPDOWN_FPS in Hgt.
  apply find_map_Some in Hs as (a & Ha & Hs). unfold attempt_stepdown in Hs.
  destruct (attempt_outcome a) as [|m vs|] eqn:Hout; [done| |done].
  destruct (threshold_violations_can_step_down vs ps); [|done]. apply bind_Some in Hs as (adm & Hadm & [= <- -> ->]).
  assert (well_measured m) as Hw.
  { pose proof Ha as [k Hk]%list_elem_of_lookup. apply Hof in Hk as (_ & _ & Hm). rewrite Hout in Hm.
    unfold measure_candidate in Hm. apply bind_Ok in Hm as (rs & _ & Hm). by apply Ok_inj, measured_outcome_well in Hm. }
  apply sustainable_ladder_exact in Hadm as (Hin & Hlt & Hmeet & Hmax); [|done|done].
  split_and!; [done|by apply requested_stepdown_bound|done|done|]. by exists a, m, vs.
Qed.

(** ** Retargeting *)

(** A plan that [RegionMediaPlan::new] accepted. *)
Definition lawful_plan (p : RegionMediaPlan) : Prop := 0 < plan_width p /\ 0 < plan_height p /\ 0 < plan_fps p.

Definition retargeted (fps : Z) (p : RegionMediaPlan) : RegionMediaPlan :=
  let fps := Z.min (plan_fps p) fps in
  mkPlan (plan_session_monitor_id p) (plan_stream_epoch p) (plan_backend p) (plan_video p) (plan_width p) (plan_height p) fps
    (nominal_for_geometry (plan_width p) (plan_height p) fps).

Lemma retarget_plan_lawful fps p : lawful_plan p -> 0 <= fps ->
  retarget_plan fps p = if fps =? 0 then Err InvalidMediaFps else Ok (retargeted fps p).
Proof.
  intros (Hw & Hh & Hf) Hfps. unfold retarget_plan, RegionMediaPlan_new. cbv zeta.
  destruct (Z.eqb_spec (plan_width p) 0); [lia|]. destruct (Z.eqb_spec (plan_height p) 0); [lia|]. cbn [orb].
  destruct (Z.eqb_spec (Z.min (plan_fps p) fps) 0), (Z.eqb_spec fps 0); (lia || done).
Qed.

Lemma collect_Ok {E A B} (f : A -> result E B) (g : A -> B) (l : list A) :
  Forall (fun a => f a = Ok (g a)) l -> collect f l = Ok (map g l).
Proof. induction 1 as [|a l Ha _ IH]; [done|]. cbn. by rewrite Ha, IH. Qed.

(** Retargeting a valid roster to a positive rate always succeeds, keeps
    every monitor, epoch, backend, video configuration and geometry, lowers
    each rate to at most the admitted one and never raises it, and gives each
    region the nominal budget of its new rate; rate zero is refused. *)
Theorem retarget_roster_exact roster fps :
  RegionMediaRoster_new roster = Ok roster -> Forall lawful_plan roster -> 0 <= fps ->
  retarget_encoder_roster_fps roster fps = if fps =? 0 then Err InvalidMediaFps else Ok (map (retargeted fps) roster).
Proof.
  intros Hr Hl Hfps. unfold retarget_encoder_roster_fps. destruct (Z.eqb_spec fps 0) as [->|Hne].
  - destruct roster as [|p roster]; [done|]. apply Forall_cons in Hl as [Hp _]. cbn [collect].
    by rewrite (retarget_plan_lawful 0 p Hp).
  - rewrite (collect_Ok _ (retargeted fps)).
    + cbn. revert Hr. unfold RegionMediaRoster_new, len. rewrite length_map, map_map. cbn.
      change (map (fun x => plan_session_monitor_id x) roster) with (map plan_session_monitor_id roster).
      rewrite !unit_bind_Ok. intros (Hc & Hi & _). by rewrite Hc, Hi.
    + eapply Forall_impl; [exact Hl|]. cbn. intros p Hp. rewrite retarget_plan_lawful by done.
      by destruct (Z.eqb_spec fps 0).
Qed.

(** ** Examples *)

Module AdmissionExamples.

Definition h264 : VideoConfiguration :=
  mkVideo CodecH264 Chroma420 EightBit RangeLimited MatrixBt709 PrimariesBt709 TcBt709.
Definition plan (id fps : Z) : RegionMediaPlan :=
  mkPlan id 7 NativeNvenc h264 1920 1080 fps (nominal_for_geometry 1920 1080 fps).
Definition candidate (fps : list Z) : EncoderSetCandidate :=
  let roster := map (fun kf => plan (Z.of_nat kf.1 + 1) kf.2) (zip (seq 0 (length fps)) fps) in
  mkCandidate roster (map (fun p => mkBinding (plan_session_monitor_id p) "gpu") roster).
Definition busy : RegionActivityProfile := mkProfile 1 1 1 FullMotion 10000 60 Standard.
Definition idle : RegionActivityProfile := mkProfile 2 1 2 Idle 0 1 Standard.
Definition thresholds : EncoderAdmissionThresholds :=
  mkThresholds (duration_from_secs 2) (duration_from_secs 15) 8 600 (20 * 1000000) (10 * 1000000) 9000 9000.

(** An adapter that takes [latency] for every frame and delivers those of the
    monitors in [ok]. *)
Definition adapter (latency : Z) (ok : list Z) : EncoderMeasurementAdapter := fun r =>
  Some (Ok (mkTrace (probe_measurement_window r)
    (map (fun f => mkSample (frame_sequence f) (frame_kind f) 1000000 latency
                     (bool_decide (plan_session_monitor_id (probe_plan r) ∈ ok)))
       (probe_sample_frames r)))).

End AdmissionExamples.
Import AdmissionExamples.

Example healthy_set_is_accepted :
  selected_candidate_index <$> admit_encoder_sets [candidate [60; 1]] [busy; idle] thresholds (adapter 5000000 [1; 2]) = Ok (Some 0).
Proof. vm_compute. reflexivity. Qed.

(** A set steps down although its busy region met every threshold at the
    requested rate and only the idle region, which no lower rate changes,
    delivered nothing: 60 frames a second are lowered to 50 and the set is
    admitted. *)
Theorem idle_failure_steps_down :
  exists attempts,
    admit_encoder_sets [candidate [60; 1]] [busy; idle] thresholds (adapter 5000000 [1]) = Ok (StepDown 0 60 50 attempts) /\
    map attempt_outcome attempts =
      [ThresholdFailed
         (mkSetMeasured 5000000 5000000 1000000 1000000 60000 5000
            [mkRegionMeasured 1 120 120 2000000000 5000000 5000000 1000000 1000000 60000 10000;
             mkRegionMeasured 2 2 0 2000000000 5000000 5000000 1000000 1000000 0 0])
         [ViolatedDeliveredFps 2 0 900; ViolatedFairness 5000 9000]].
Proof. eexists. split; [vm_compute; reflexivity|vm_compute; reflexivity]. Qed.

Definition slow_attempt : EncoderSetAttempt :=
  mkAttempt 0 (candidate [60; 1])
    (measured_outcome (adapter 25000000 [1; 2]) [busy; idle] thresholds
       (match collect (probe_request 0 (candidate [60; 1]) [busy; idle] thresholds) (cand_roster (candidate [60; 1])) with
        | Ok rs => rs | Err _ => [] end)).

Lemma admission_decision_exact_witness :
  exists d, admit_encoder_sets [candidate [60; 1]] [busy; idle] thresholds (adapter 5000000 [1; 2]) = Ok d /\
    decision_shape [busy; idle] thresholds [candidate [60; 1]] d.
Proof.
  eexists. split; [vm_compute; reflexivity|].
  apply (admission_decision_exact [candidate [60; 1]] [busy; idle] thresholds (adapter 5000000 [1; 2])).
  vm_compute. reflexivity.
Defined.

Lemma admission_errors_before_measuring_witness :
  err_of (admit_encoder_sets [candidate [400; 1]] [mkProfile 1 1 1 FullMotion 10000 400 Standard; idle] thresholds (fun _ => None)) =
  Some (WorkloadExceedsFrameBound 1 800 600).
Proof.
  etransitivity; [apply admission_errors_before_measuring|vm_compute; reflexivity].
  constructor; [|constructor].
  exists (cand_roster (candidate [400; 1])), (cand_bindings (candidate [400; 1])). vm_compute. reflexivity.
Defined.

Lemma passed_set_keeps_thresholds_witness :
  exists m, measure_candidate 0 (candidate [60; 1]) [busy; idle] thresholds (adapter 5000000 [1; 2]) = Ok (Passed m) /\
    Forall (plan_measured 0 (candidate [60; 1]) [busy; idle] thresholds (adapter 5000000 [1; 2])) (cand_roster (candidate [60; 1])).
Proof.
  eexists. split; [vm_compute; reflexivity|].
  eapply (passed_set_keeps_thresholds 0 (candidate [60; 1]) [busy; idle] thresholds (adapter 5000000 [1; 2])).
  vm_compute. reflexivity.
Defined.

Lemma stepdown_rate_exact_witness :
  admit_encoder_sets [candidate [60; 1]] [busy; idle] thresholds (adapter 25000000 [1; 2]) =
    Ok (StepDown 0 60 40 [slow_attempt]) /\ 40 ∈ FPS_STEPDOWN_LADDER.
Proof.
  assert (admit_encoder_sets [candidate [60; 1]] [busy; idle] thresholds (adapter 25000000 [1; 2]) =
    Ok (StepDown 0 60 40 [slow_attempt])) as H by (vm_compute; reflexivity).
  split; [exact H|].
  eapply (stepdown_rate_exact _ _ thresholds _ 0 60 40 _); [split; vm_compute; done|exact H].
Defined.

Lemma retarget_roster_exact_witness :
  retarget_encoder_roster_fps (cand_roster (candidate [60; 1])) 50 = Ok [plan 1 50; plan 2 1].
Proof.
  etransitivity; [apply retarget_roster_exact|vm_compute; reflexivity]; [vm_compute; reflexivity| |done].
  repeat constructor.
Defined.
