(* ===== verification/RegionFrame.v ===== *)
(** * Media: which region frames reach which decoder

    Models [shared/media/src/region_frame.rs] (the fence a client admits region
    frames against) and [clients/macos/src/pipeline/monitor_router.rs] (the
    router with one decoder and one latest frame per route).  The decoder is the
    platform's: an interface with the operations of the trait
    [VideoDecoderBackend], over opaque frames, errors and settings.  Ordered
    maps keyed by route are [gmap]s; their order is the wire order of the
    routes.  [Debug] and [Display] are left out. *)

From S2P Require Import Prelude ProtocolWire CaptureSurface MonitorWire MultiMonitor.

(** ** region_frame.rs *)

Inductive MonitorRoute := LegacyPrimary | Negotiated (id : Z).

#[global] Instance MonitorRoute_eq_dec : EqDecision MonitorRoute.
Proof. solve_decision. Defined.
#[global] Instance MonitorRoute_countable : Countable MonitorRoute.
Proof.
  refine (inj_countable' (fun r => match r with LegacyPrimary => inl tt | Negotiated id => inr id end)
            (fun s => match s with inl _ => LegacyPrimary | inr id => Negotiated id end) _).
  by intros [].
Defined.

Definition from_wire_monitor_id (wire_monitor_id : Z) : MonitorRoute :=
  match SessionMonitorId_new wire_monitor_id with Ok id => Negotiated id | Err _ => LegacyPrimary end.

Definition wire_monitor_id (r : MonitorRoute) : Z := match r with LegacyPrimary => 0 | Negotiated id => id end.

Inductive RegionFrameRosterError := EmptyRoster | TooManyMonitors (count : Z) | DuplicateMonitor (wire_monitor_id : Z).

Inductive RegionFrameAdmissionError :=
| UnroutedMonitor (id : Z)
| StaleGeneration (expected actual : Z)
| StaleStreamEpoch (expected actual : Z)
| WireProfileMismatch (monitor_id : Z).

Inductive RegionFrameDelivery := Decode | SkipUntilKeyframe.

Definition codec_matches (wire : ProtocolWire.VideoCodec) (codec : MultiMonitor.VideoCodec) : bool :=
  match wire, codec with
  | Jpeg, CodecJpeg | H264, CodecH264 | H265, CodecH265 | Vp9, CodecVp9 | Av1, CodecAv1 => true
  | _, _ => false
  end.

Definition chroma_matches (wire : ProtocolWire.ChromaSubsampling) (chroma : MultiMonitor.ChromaSubsampling) : bool :=
  match wire, chroma with
  | Yuv420, Chroma420 | Yuv422, Chroma422 | Yuv444, Chroma444 => true
  | _, _ => false
  end.

Definition wire_profile_matches (h : VideoHeader) (p : RegionMediaPlan) : bool :=
  codec_matches (codec h) (video_codec (plan_video p)) && chroma_matches (chroma h) (video_chroma (plan_video p)).

Definition region_frame_delivery (waiting_for_keyframe : bool) (h : VideoHeader) : RegionFrameDelivery :=
  if waiting_for_keyframe && negb (is_keyframe h) then SkipUntilKeyframe else Decode.

Record RegionFrameRoster := mkRoster { roster_generation : Z; roster_routes : gmap MonitorRoute (option RegionMediaPlan) }.

(** The loop [if map.insert(route, plan).is_some() { return Err(..) }]. *)
Fixpoint insert_routes (map_ : gmap MonitorRoute (option RegionMediaPlan)) (routes : list (MonitorRoute * option RegionMediaPlan))
  : result RegionFrameRosterError (gmap MonitorRoute (option RegionMediaPlan)) :=
  match routes with
  | [] => Ok map_
  | (route, plan) :: routes =>
    if is_some (map_ !! route) then Err (DuplicateMonitor (wire_monitor_id route))
    else insert_routes (<[route := plan]> map_) routes
  end.

Definition RegionFrameRoster_new (generation : Z) (routes : list (MonitorRoute * option RegionMediaPlan))
  : result RegionFrameRosterError RegionFrameRoster :=
  if len routes =? 0 then Err EmptyRoster
  else if MAX_MULTI_MONITOR_COUNT <? len routes then Err (TooManyMonitors (len routes))
  else map_ ← insert_routes ∅ routes; Ok (mkRoster generation map_).

Definition negotiated (generation : Z) (monitor_ids : list Z) : result RegionFrameRosterError RegionFrameRoster :=
  RegionFrameRoster_new generation (map (fun id => (Negotiated id, None)) monitor_ids).

Definition from_media_roster (generation : Z) (roster : RegionMediaRoster) : result RegionFrameRosterError RegionFrameRoster :=
  RegionFrameRoster_new generation (map (fun p => (Negotiated (plan_session_monitor_id p), Some p)) roster).

(** [legacy_primary]: [None] is the [unreachable!]. *)
Definition legacy_primary : option RegionFrameRoster :=
  match TopologyGeneration_new 1 with
  | Ok generation => match RegionFrameRoster_new generation [(LegacyPrimary, None)] with Ok r => Some r | Err _ => None end
  | Err _ => None
  end.

Definition roster_contains (r : RegionFrameRoster) (route : MonitorRoute) : bool := is_some (roster_routes r !! route).

(** [.get(&route).copied().flatten()]. *)
Definition route_plan (r : RegionFrameRoster) (route : MonitorRoute) : option RegionMediaPlan := mjoin (roster_routes r !! route).

Definition admit_route (r : RegionFrameRoster) (generation : Z) (route : MonitorRoute) : result RegionFrameAdmissionError unit :=
  if negb (generation =? roster_generation r) then Err (StaleGeneration (roster_generation r) generation)
  else guard_err (negb (roster_contains r route)) (UnroutedMonitor (wire_monitor_id route)).

Definition check_plan (h : VideoHeader) (p : RegionMediaPlan) : result RegionFrameAdmissionError unit :=
  match MediaStreamEpoch_new (stream_epoch h) with
  | Err _ => Err (StaleStreamEpoch (plan_stream_epoch p) (stream_epoch h))
  | Ok actual =>
    if negb (actual =? plan_stream_epoch p) then Err (StaleStreamEpoch (plan_stream_epoch p) actual)
    else guard_err (negb (wire_profile_matches h p)) (WireProfileMismatch (monitor_id h))
  end.

Definition admit_frame (r : RegionFrameRoster) (h : VideoHeader) : result RegionFrameAdmissionError MonitorRoute :=
  let route := from_wire_monitor_id (monitor_id h) in
  match TopologyGeneration_new (topology_generation h) with
  | Err _ => Err (StaleGeneration (roster_generation r) (topology_generation h))
  | Ok generation =>
    _ ← admit_route r generation route;
    _ ← match route_plan r route with Some p => check_plan h p | None => Ok tt end;
    Ok route
  end.

(** ** monitor_router.rs *)

Class VideoDecoderBackend (D Frame DecodeError SessionColor DecodeLatencyPolicy : Type) := {
  set_session_color : SessionColor -> D -> D;
  set_prefer_native_biplanar : bool -> D -> D * bool;
  set_decode_latency_policy : DecodeLatencyPolicy -> D -> D;
  decode : VideoHeader -> list Z -> D -> D * result DecodeError (option Frame);
  wants_keyframe : D -> bool;
  notify_discontinuity : D -> D
}.

Section Router.
Context {D Frame DecodeError SessionColor DecodeLatencyPolicy : Type}
  `{!VideoDecoderBackend D Frame DecodeError SessionColor DecodeLatencyPolicy}.

Inductive RouteError := Admission (e : RegionFrameAdmissionError) | DecodeFailed (e : DecodeError).
Inductive RouteOutcome := FreshFrame | NoOutputYet.

Record MonitorSlot := mkSlot {
  decoder : D; latest_frame : option Frame; frames_routed : Z; frames_rejected : Z; waiting_for_keyframe : bool
}.

Definition with_decoder (d : D) : MonitorSlot := mkSlot d None 0 0 true.

Record MonitorFrameRouter := mkRouter {
  admission : RegionFrameRoster; slots : gmap MonitorRoute MonitorSlot; primary_monitor_id : option Z
}.

Definition from_admission_with_decoder_factory (admission : RegionFrameRoster) (decoder_for_route : MonitorRoute -> D)
  : MonitorFrameRouter :=
  mkRouter admission (map_imap (fun route _ => Some (with_decoder (decoder_for_route route))) (roster_routes admission)) None.

Definition with_primary (r : MonitorFrameRouter) (primary : option Z) : MonitorFrameRouter :=
  mkRouter (admission r) (slots r) primary.

Definition Router_new (factory : MonitorRoute -> D) (generation : Z) (monitor_ids : list Z)
  : result RegionFrameRosterError MonitorFrameRouter :=
  roster ← negotiated generation monitor_ids;
  Ok (with_primary (from_admission_with_decoder_factory roster factory) (head monitor_ids)).

Definition new_with_media_roster (factory : MonitorRoute -> D) (generation : Z) (roster : RegionMediaRoster)
  : result RegionFrameRosterError MonitorFrameRouter :=
  fence ← from_media_roster generation roster;
  Ok (with_primary (from_admission_with_decoder_factory fence factory) (plan_session_monitor_id <$> head roster)).

Definition single_monitor (factory : MonitorRoute -> D) : option MonitorFrameRouter :=
  (fun roster => from_admission_with_decoder_factory roster factory) <$> legacy_primary.

Definition set_slot (r : MonitorFrameRouter) (route : MonitorRoute) (s : MonitorSlot) : MonitorFrameRouter :=
  mkRouter (admission r) (<[route := s]> (slots r)) (primary_monitor_id r).

Definition map_slots (f : MonitorSlot -> MonitorSlot) (r : MonitorFrameRouter) : MonitorFrameRouter :=
  mkRouter (admission r) (f <$> slots r) (primary_monitor_id r).

Definition set_decoder (s : MonitorSlot) (d : D) : MonitorSlot :=
  mkSlot d (latest_frame s) (frames_routed s) (frames_rejected s) (waiting_for_keyframe s).

Definition router_set_session_color (c : SessionColor) : MonitorFrameRouter -> MonitorFrameRouter :=
  map_slots (fun s => set_decoder s (set_session_color c (decoder s))).

Definition router_set_decode_latency_policy (p : DecodeLatencyPolicy) : MonitorFrameRouter -> MonitorFrameRouter :=
  map_slots (fun s => set_decoder s (set_decode_latency_policy p (decoder s))).

Definition router_set_prefer_native_biplanar (id : Z) (prefer : bool) (r : MonitorFrameRouter) : MonitorFrameRouter * bool :=
  match slots r !! Negotiated id with
  | None => (r, false)
  | Some s => let '(d, accepted) := set_prefer_native_biplanar prefer (decoder s) in (set_slot r (Negotiated id) (set_decoder s d), accepted)
  end.

Definition latest_frame_for_route (r : MonitorFrameRouter) (route : MonitorRoute) : option Frame :=
  slots r !! route ≫= latest_frame.

Definition slot_waiting (r : MonitorFrameRouter) (route : MonitorRoute) : option bool := waiting_for_keyframe <$> slots r !! route.

Definition any_waiting_for_keyframe (r : MonitorFrameRouter) : bool := existsb (fun s => waiting_for_keyframe s.2) (map_to_list (slots r)).
Definition all_recovered (r : MonitorFrameRouter) : bool := negb (any_waiting_for_keyframe r).

(** [admit]: the slot to write to. *)
Definition admit_slot (r : MonitorFrameRouter) (generation : Z) (route : MonitorRoute) : result RegionFrameAdmissionError MonitorSlot :=
  _ ← admit_route (admission r) generation route;
  ok_or (slots r !! route) (UnroutedMonitor (wire_monitor_id route)).

(** [n += 1] on a [u64]. *)
Definition bump (n : Z) : Z := wrapping 64 (n + 1).

(** What [route_and_decode] does to the slot of an admitted frame. *)
Definition decode_into (h : VideoHeader) (payload : list Z) (s : MonitorSlot) : MonitorSlot * result RouteError RouteOutcome :=
  match region_frame_delivery (waiting_for_keyframe s) h with
  | SkipUntilKeyframe =>
    (mkSlot (decoder s) (latest_frame s) (bump (frames_routed s)) (frames_rejected s) (waiting_for_keyframe s), Ok NoOutputYet)
  | Decode =>
    let '(d, decoded) := decode h payload (decoder s) in
    match decoded with
    | Ok (Some frame) => (mkSlot d (Some frame) (bump (frames_routed s)) (frames_rejected s) false, Ok FreshFrame)
    | Ok None =>
      (mkSlot d (latest_frame s) (bump (frames_routed s)) (frames_rejected s)
         (if wants_keyframe d then true else waiting_for_keyframe s), Ok NoOutputYet)
    | Err error => (mkSlot d (latest_frame s) (frames_routed s) (bump (frames_rejected s)) true, Err (DecodeFailed error))
    end
  end.

Definition route_and_decode (r : MonitorFrameRouter) (h : VideoHeader) (payload : list Z)
  : MonitorFrameRouter * result RouteError RouteOutcome :=
  match admit_frame (admission r) h with
  | Err e => (r, Err (Admission e))
  | Ok route =>
    match slots r !! route with
    | None => (r, Err (Admission (UnroutedMonitor (wire_monitor_id route))))
    | Some s => let '(s, outcome) := decode_into h payload s in (set_slot r route s, outcome)
    end
  end.

Definition slot_discontinuity (s : MonitorSlot) : MonitorSlot :=
  mkSlot (notify_discontinuity (decoder s)) (latest_frame s) (frames_routed s) (frames_rejected s) true.

Definition router_notify_discontinuity : MonitorFrameRouter -> MonitorFrameRouter := map_slots slot_discontinuity.

Definition notify_route_discontinuity (r : MonitorFrameRouter) (wire : Z) : MonitorFrameRouter * bool :=
  let route := from_wire_monitor_id wire in
  match slots r !! route with
  | None => (r, false)
  | Some s => (set_slot r route (slot_discontinuity s), true)
  end.

Definition inject_frame (f : Frame) (s : MonitorSlot) : MonitorSlot :=
  mkSlot (decoder s) (Some f) (bump (frames_routed s)) (frames_rejected s) (waiting_for_keyframe s).

Definition route_decoded_frame_for_route (r : MonitorFrameRouter) (generation : Z) (route : MonitorRoute) (f : Frame)
  : MonitorFrameRouter * result RegionFrameAdmissionError unit :=
  match admit_slot r generation route with
  | Err e => (r, Err e)
  | Ok s => (set_slot r route (inject_frame f s), Ok tt)
  end.

End Router.
Arguments MonitorSlot : clear implicits.
Arguments MonitorFrameRouter : clear implicits.
Arguments RouteError : clear implicits.

(** ** The fence against the media roster *)

Lemma from_wire_negotiated id : id <> 0 -> from_wire_monitor_id id = Negotiated id.
Proof. intros H. unfold from_wire_monitor_id, SessionMonitorId_new. by destruct (Z.eqb_spec id 0). Qed.

Lemma wire_route_roundtrip id : wire_monitor_id (from_wire_monitor_id id) = id.
Proof. unfold from_wire_monitor_id, SessionMonitorId_new. by destruct (Z.eqb_spec id 0) as [->|]. Qed.

Abbreviation plan_routes := (map (fun p => (Negotiated (plan_session_monitor_id p), Some p))).

(** Inserting distinct routes succeeds and looks up like the list. *)
Lemma insert_plan_routes plans : forall map_,
  NoDup (map plan_session_monitor_id plans) ->
  Forall (fun p => map_ !! Negotiated (plan_session_monitor_id p) = None) plans ->
  exists map', insert_routes map_ (plan_routes plans) = Ok map' /\
    forall route, map' !! route =
      match route with
      | Negotiated id => match roster_plan plans id with Some p => Some (Some p) | None => map_ !! route end
      | LegacyPrimary => map_ !! route
      end.
Proof.
  induction plans as [|p plans IH]; intros map_ Hnd Hfresh; [by exists map_; split; [|intros []]|].
  apply NoDup_cons in Hnd as [Hp Hnd]. apply Forall_cons in Hfresh as [Hn Hfresh].
  cbn [map insert_routes]. rewrite Hn. cbn [is_some].
  destruct (IH (<[Negotiated (plan_session_monitor_id p) := Some p]> map_) Hnd) as (map' & Hins & Hlook).
  { apply Forall_forall. intros q Hq. rewrite lookup_insert_ne; [by apply (proj1 (Forall_forall _ _) Hfresh)|].
    intros [= E]. apply Hp. rewrite E. by apply list_elem_of_fmap_2. }
  exists map'. split; [done|]. intros [|id]; rewrite Hlook; [by rewrite lookup_insert_ne|].
  unfold roster_plan. cbn [list_find]. destruct (decide (plan_session_monitor_id p = id)) as [<-|Hne].
  - destruct (list_find (fun q => plan_session_monitor_id q = plan_session_monitor_id p) plans) as [[i q]|] eqn:Hf; cbn.
    + exfalso. apply list_find_Some in Hf as (Hi & Hid & _). apply Hp. rewrite <- Hid.
      apply list_elem_of_fmap_2, list_elem_of_lookup. eauto.
    + by rewrite lookup_insert_eq.
  - rewrite lookup_insert_ne by congruence.
    by destruct (list_find (fun q => plan_session_monitor_id q = id) plans) as [[i q]|].
Qed.

Lemma check_session_ids_NoDup ids : forall seen, check_session_ids seen ids = Ok tt -> NoDup ids /\ Forall (fun id => id ∉ seen) ids.
Proof.
  induction ids as [|id ids IH]; intros seen; cbn; [split; constructor|].
  case_bool_decide as Hin; [done|]. intros [Hnd Hs]%IH. split.
  - constructor; [|done]. intros Hi. apply (proj1 (Forall_forall _ _) Hs id Hi). constructor.
  - constructor; [done|]. eapply Forall_impl; [exact Hs|]. cbn. intros x Hx Hx'. apply Hx. by constructor.
Qed.

(** The check of one frame against the host's roster, in the documented order:
    generation, membership, epoch, profile. *)
Definition roster_admission (generation : Z) (plans : RegionMediaRoster) (h : VideoHeader)
  : result RegionFrameAdmissionError MonitorRoute :=
  if negb (topology_generation h =? generation) then Err (StaleGeneration generation (topology_generation h))
  else
    match roster_plan plans (monitor_id h) with
    | None => Err (UnroutedMonitor (monitor_id h))
    | Some p =>
      if negb (stream_epoch h =? plan_stream_epoch p) then Err (StaleStreamEpoch (plan_stream_epoch p) (stream_epoch h))
      else if negb (wire_profile_matches h p) then Err (WireProfileMismatch (monitor_id h))
      else Ok (Negotiated (monitor_id h))
    end.

(** Plans whose nonzero fields are nonzero. *)
Definition plans_typed (plans : RegionMediaRoster) : Prop :=
  Forall (fun p => plan_session_monitor_id p <> 0 /\ plan_stream_epoch p <> 0) plans.

Lemma roster_plan_Some plans id p : roster_plan plans id = Some p -> p ∈ plans /\ plan_session_monitor_id p = id.
Proof.
  unfold roster_plan. intros H. apply fmap_Some in H as ([i q] & Hf & ->). apply list_find_Some in Hf as (Hi & Hid & _).
  split; [|done]. apply list_elem_of_lookup. by exists i.
Qed.

Lemma media_roster_fence generation plans :
  RegionMediaRoster_new plans = Ok plans -> plans_typed plans ->
  exists r, from_media_roster generation plans = Ok r /\ roster_generation r = generation /\
    forall route, roster_routes r !! route =
      match route with Negotiated id => Some <$> roster_plan plans id | LegacyPrimary => None end.
Proof.
  intros Hnew Ht. unfold RegionMediaRoster_new in Hnew. rewrite !unit_bind_Ok in Hnew. destruct Hnew as (Hc & Hids & _).
  apply check_session_ids_NoDup in Hids as [Hnd _]. unfold validate_monitor_count in Hc. apply guard_err_Ok, orb_false_iff in Hc as [H0 H4].
  unfold from_media_roster, RegionFrameRoster_new.
  replace (len (plan_routes plans)) with (len plans) by (unfold len; by rewrite length_map). rewrite H0.
  rewrite H4.
  destruct (insert_plan_routes plans ∅ Hnd) as (map' & -> & Hlook); [by apply Forall_forall; intros p _; apply lookup_empty|].
  eexists. split; [done|]. split; [done|]. cbn. intros [|id]; rewrite Hlook, lookup_empty; [done|]. by destruct (roster_plan plans id).
Qed.

Lemma media_fence_admission generation plans r h :
  generation <> 0 -> plans_typed plans -> roster_generation r = generation ->
  (forall route, roster_routes r !! route =
      match route with Negotiated id => Some <$> roster_plan plans id | LegacyPrimary => None end) ->
  admit_frame r h = roster_admission generation plans h.
Proof.
  intros Hg Ht Hr Hl. unfold admit_frame, roster_admission, admit_route, roster_contains, route_plan, TopologyGeneration_new. rewrite Hr.
  destruct (Z.eqb_spec (topology_generation h) 0) as [E|E].
  { rewrite E. by destruct (Z.eqb_spec 0 generation) as [<-|]. }
  destruct (topology_generation h =? generation); cbn [negb]; [|done].
  rewrite wire_route_roundtrip. destruct (Z.eqb_spec (monitor_id h) 0) as [E0|E0].
  - replace (from_wire_monitor_id (monitor_id h)) with LegacyPrimary by (by rewrite E0). rewrite Hl. cbn. destruct (roster_plan plans (monitor_id h)) as [p|] eqn:Hp; [|done].
    exfalso. apply roster_plan_Some in Hp as [Hin Hid]. apply (proj1 (Forall_forall _ _) Ht) in Hin as [? _]. congruence.
  - rewrite from_wire_negotiated, Hl by done. destruct (roster_plan plans (monitor_id h)) as [p|] eqn:Hp; [|done]. cbn.
    apply roster_plan_Some in Hp as [Hin _]. apply (proj1 (Forall_forall _ _) Ht) in Hin as [_ He].
    unfold check_plan, MediaStreamEpoch_new.
    destruct (Z.eqb_spec (stream_epoch h) 0) as [Es|].
    + rewrite Es. by destruct (Z.eqb_spec 0 (plan_stream_epoch p)).
    + destruct (_ =? plan_stream_epoch p); cbn; [|done]. by destruct (wire_profile_matches h p).
Qed.

(** For every roster of plans that [RegionMediaRoster::new] accepts, the
    fence is built, and it admits exactly the frames of the committed
    generation whose monitor has a plan with the frame's epoch, codec and
    chroma, to that monitor's own route; every other frame is refused with the
    first failing check in the documented order. *)
Theorem media_roster_fence_exact generation plans :
  generation <> 0 -> RegionMediaRoster_new plans = Ok plans -> plans_typed plans ->
  exists r, from_media_roster generation plans = Ok r /\ forall h, admit_frame r h = roster_admission generation plans h.
Proof.
  intros Hg Hnew Ht. destruct (media_roster_fence generation plans Hnew Ht) as (r & Hr & Hgen & Hl).
  exists r. split; [done|]. intros h. by apply media_fence_admission.
Qed.

(** The header of a region frame the host sends for plan [p]. *)
Definition header_of_plan (generation : Z) (p : RegionMediaPlan) (h : VideoHeader) : Prop :=
  video_header_typed h /\ is_region_video (frame_type h) = true /\
  (exists d, bit_depth h = Ok d) /\ (exists m, color_matrix h = Ok m) /\
  monitor_id h = plan_session_monitor_id p /\ topology_generation h = generation /\ stream_epoch h = plan_stream_epoch p /\
  wire_profile_matches h p = true.

Lemma roster_plan_find plans p :
  NoDup (map plan_session_monitor_id plans) -> p ∈ plans -> roster_plan plans (plan_session_monitor_id p) = Some p.
Proof.
  intros Hnd Hp. unfold roster_plan.
  destruct (list_find_elem_of (fun q => plan_session_monitor_id q = plan_session_monitor_id p) plans p Hp eq_refl) as [[i q] Hf].
  rewrite Hf. cbn. f_equal. apply list_find_Some in Hf as (Hi & Hid & _). apply list_elem_of_lookup in Hp as [j Hj].
  assert (i = j) as ->; [|congruence].
  apply (NoDup_lookup (map plan_session_monitor_id plans) i j (plan_session_monitor_id p)); [done|..];
    rewrite list_lookup_fmap; [by rewrite Hi; cbn; rewrite Hid|by rewrite Hj].
Qed.

(** C30: What the host sends for a plan arrives there: the header bytes, with any
    payload behind them, decode to the header that was sent, and the client's
    fence built from the same roster admits it to that plan's route. *)
Theorem host_frame_reaches_region generation plans p h payload :
  generation <> 0 -> RegionMediaRoster_new plans = Ok plans -> plans_typed plans -> p ∈ plans -> header_of_plan generation p h ->
  exists r, from_media_roster generation plans = Ok r /\
    (decode_video_header (encode_video_header h ++ payload) = Ok h) /\
    admit_frame r h = Ok (Negotiated (plan_session_monitor_id p)).
Proof.
  intros Hg Hnew Ht Hp (Hty & Hreg & Hd & Hm & Hid & Hgen & He & Hw).
  destruct (media_roster_fence generation plans Hnew Ht) as (r & Hr & Hrg & Hl). exists r. split; [done|].
  pose proof (proj1 (Forall_forall _ _) Ht p Hp) as [Hid0 He0]. split.
  - apply decode_encode_video; [done|]. unfold video_header_valid. rewrite Hreg, Hid, Hgen, He. done.
  - rewrite (media_fence_admission generation plans) by done. unfold roster_admission.
    rewrite Hgen, Z.eqb_refl. cbn [negb]. unfold RegionMediaRoster_new in Hnew. rewrite !unit_bind_Ok in Hnew.
    destruct Hnew as (_ & Hids & _). apply check_session_ids_NoDup in Hids as [Hnd _].
    rewrite Hid, roster_plan_find by done. by rewrite He, Z.eqb_refl, Hw.
Qed.

(** ** The legacy roster *)

Lemma decoded_monitor_generation data h : Forall is_u8 data -> decode_video_header data = Ok h ->
  (monitor_id h = 0 -> topology_generation h = 0).
Proof.
  intros Hb Hd E. apply (decode_video_canonical data h Hb) in Hd as (rest & _ & _ & Hv).
  unfold video_header_valid in Hv. destruct (is_region_video (frame_type h)); [by destruct Hv as [(? & _) _]|].
  by destruct Hv as [(_ & ? & _) _].
Qed.

(** The legacy roster admits no frame that can arrive: a decoded legacy
    frame carries generation zero, but the roster is fenced to generation one
    and refuses it as stale, and a decoded region frame has no route there. *)
Theorem legacy_roster_admits_nothing_decoded data h : Forall is_u8 data -> decode_video_header data = Ok h ->
  exists r e, legacy_primary = Some r /\ admit_frame r h = Err e /\
    (monitor_id h = 0 -> e = StaleGeneration 1 0).
Proof.
  intros Hb Hd. pose proof (decoded_monitor_generation data h Hb Hd) as Hgen.
  exists (mkRoster 1 (<[LegacyPrimary := None]> ∅)). unfold admit_frame, TopologyGeneration_new, admit_route. cbn [roster_generation].
  destruct (Z.eqb_spec (monitor_id h) 0) as [E|E].
  - rewrite (Hgen E). by eexists.
  - rewrite from_wire_negotiated by done. destruct (topology_generation h =? 0); [by eexists|].
    destruct (topology_generation h =? 1); cbn [negb]; [|by eexists].
    unfold roster_contains. cbn. rewrite lookup_insert_ne by done. rewrite lookup_empty. by eexists.
Qed.

(** ** Runs of the router *)

Section Runs.
Context {D Frame DecodeError SessionColor DecodeLatencyPolicy : Type}
  `{!VideoDecoderBackend D Frame DecodeError SessionColor DecodeLatencyPolicy}.
Abbreviation Router := (MonitorFrameRouter D Frame).
Abbreviation Slot := (MonitorSlot D Frame).

(** The calls that change the router. *)
Inductive RouterOp :=
| OpFrame (h : VideoHeader) (payload : list Z)
| OpDiscontinuity
| OpRouteDiscontinuity (wire : Z)
| OpInject (generation : Z) (route : MonitorRoute) (f : Frame)
| OpColor (c : SessionColor)
| OpLatency (p : DecodeLatencyPolicy)
| OpBiplanar (id : Z) (prefer : bool).

Definition router_step (r : Router) (op : RouterOp) : Router :=
  match op with
  | OpFrame h payload => (route_and_decode r h payload).1
  | OpDiscontinuity => router_notify_discontinuity r
  | OpRouteDiscontinuity wire => (notify_route_discontinuity r wire).1
  | OpInject generation route f => (route_decoded_frame_for_route r generation route f).1
  | OpColor c => router_set_session_color c r
  | OpLatency p => router_set_decode_latency_policy p r
  | OpBiplanar id prefer => (router_set_prefer_native_biplanar id prefer r).1
  end.

Definition router_run (ops : list RouterOp) (r : Router) : Router := fold_left router_step ops r.

(** Whether an operation is for [route]: frames and injections by the fence,
    the rest by name, session-wide ones for every route. *)
Definition concerns (fence : RegionFrameRoster) (route : MonitorRoute) (op : RouterOp) : bool :=
  match op with
  | OpFrame h _ => match admit_frame fence h with Ok route' => bool_decide (route' = route) | Err _ => false end
  | OpRouteDiscontinuity wire => bool_decide (from_wire_monitor_id wire = route)
  | OpInject generation route' _ => bool_decide (route' = route) && is_ok (admit_route fence generation route')
  | OpBiplanar id _ => bool_decide (Negotiated id = route)
  | OpDiscontinuity | OpColor _ | OpLatency _ => true
  end.

(** One slot on its own. *)
Definition slot_step (s : Slot) (op : RouterOp) : Slot :=
  match op with
  | OpFrame h payload => (decode_into h payload s).1
  | OpDiscontinuity | OpRouteDiscontinuity _ => slot_discontinuity s
  | OpInject _ _ f => inject_frame f s
  | OpColor c => set_decoder s (set_session_color c (decoder s))
  | OpLatency p => set_decoder s (set_decode_latency_policy p (decoder s))
  | OpBiplanar _ prefer => set_decoder s (set_prefer_native_biplanar prefer (decoder s)).1
  end.

Lemma router_step_admission r op : admission (router_step r op) = admission r.
Proof.
  destruct op as [h pl| |w|g rt f|c|p|id b]; cbn; try done.
  - unfold route_and_decode. destruct (admit_frame _ h) as [rt|]; [|done]. destruct (slots r !! rt) as [s|]; [|done].
    by destruct (decode_into h pl s).
  - unfold notify_route_discontinuity. cbv zeta. by destruct (slots r !! _).
  - unfold route_decoded_frame_for_route. by destruct (admit_slot r g rt).
  - unfold router_set_prefer_native_biplanar. destruct (slots r !! _) as [s|]; [|done].
    by destruct (set_prefer_native_biplanar b (decoder s)).
Qed.

Lemma set_slot_lookup (r : Router) route s route' :
  slots (set_slot r route s) !! route' = if bool_decide (route = route') then Some s else slots r !! route'.
Proof. cbn. case_bool_decide as E; [subst; apply lookup_insert_eq|by apply lookup_insert_ne]. Qed.

(** Every operation acts on each slot by itself. *)
Lemma router_step_slot r op route :
  slots (router_step r op) !! route =
  (fun s => if concerns (admission r) route op then slot_step s op else s) <$> slots r !! route.
Proof.
  destruct op as [h pl| |w|g rt f|c|p|id b]; cbn [router_step concerns slot_step].
  - unfold route_and_decode. destruct (admit_frame (admission r) h) as [rt|]; [|by rewrite option_fmap_id].
    destruct (slots r !! rt) as [s|] eqn:Hs.
    + destruct (decode_into h pl s) as [s' o] eqn:Hd. cbn [fst]. rewrite set_slot_lookup.
      case_bool_decide as E; [subst; rewrite Hs; cbn; by rewrite Hd|by rewrite option_fmap_id].
    + case_bool_decide as E; [subst; by rewrite Hs|by rewrite option_fmap_id].
  - cbn. by rewrite lookup_fmap.
  - unfold notify_route_discontinuity. cbv zeta. destruct (slots r !! from_wire_monitor_id w) as [s|] eqn:Hs.
    + cbn [fst]. rewrite set_slot_lookup. case_bool_decide as E; [subst; by rewrite Hs|by rewrite option_fmap_id].
    + case_bool_decide as E; [subst; by rewrite Hs|by rewrite option_fmap_id].
  - unfold route_decoded_frame_for_route, admit_slot. destruct (admit_route (admission r) g rt) as [[]|];
      cbn [is_ok]; [rewrite andb_true_r|rewrite andb_false_r; by rewrite option_fmap_id].
    cbn. destruct (slots r !! rt) as [s|] eqn:Hs; cbn.
    + case_bool_decide as E; [subst; rewrite lookup_insert_eq; by rewrite Hs|rewrite lookup_insert_ne by done; by rewrite option_fmap_id].
    + case_bool_decide as E; [subst; by rewrite Hs|by rewrite option_fmap_id].
  - cbn. by rewrite lookup_fmap.
  - cbn. by rewrite lookup_fmap.
  - unfold router_set_prefer_native_biplanar. destruct (slots r !! Negotiated id) as [s|] eqn:Hs.
    + destruct (set_prefer_native_biplanar b (decoder s)) as [d a] eqn:Hd. cbn [fst]. rewrite set_slot_lookup.
      case_bool_decide as E; [subst; rewrite Hs; cbn; by rewrite Hd|by rewrite option_fmap_id].
    + case_bool_decide as E; [subst; by rewrite Hs|by rewrite option_fmap_id].
Qed.

(** C8: The router is one independent decoder per monitor: after any run of its
    operations the slot of a route is what that slot alone becomes under just
    the operations that concern it, so no frame, error, recovery or
    discontinuity of one monitor ever reaches the decoder, the cached frame,
    the counters or the keyframe wait of another. *)
Theorem router_is_product (r : Router) ops route :
  admission (router_run ops r) = admission r /\
  slots (router_run ops r) !! route =
    (fun s => fold_left slot_step (List.filter (concerns (admission r) route) ops) s) <$> slots r !! route.
Proof.
  revert r. induction ops as [|op ops IH]; intros r; cbn [router_run fold_left List.filter].
  - by rewrite option_fmap_id.
  - fold (router_run ops (router_step r op)). destruct (IH (router_step r op)) as [-> ->].
    rewrite router_step_admission, router_step_slot. split; [done|].
    destruct (slots r !! route) as [s|]; [cbn|done]. by destruct (concerns (admission r) route op).
Qed.

(** A waiting slot stays waiting until a keyframe, and skips before the decoder. *)
Definition no_keyframe_for (fence : RegionFrameRoster) (route : MonitorRoute) (ops : list RouterOp) : Prop :=
  Forall (fun op => match op with OpFrame h _ => admit_frame fence h = Ok route -> is_keyframe h = false | _ => True end) ops.

Lemma decode_into_waiting h pl (s : Slot) : waiting_for_keyframe s = true -> is_keyframe h = false ->
  decode_into h pl s =
    (mkSlot (decoder s) (latest_frame s) (bump (frames_routed s)) (frames_rejected s) true, Ok NoOutputYet).
Proof. intros Hw Hk. unfold decode_into, region_frame_delivery. by rewrite Hw, Hk. Qed.

Lemma slot_step_waiting (s : Slot) op fence route : waiting_for_keyframe s = true -> concerns fence route op = true ->
  match op with OpFrame h _ => admit_frame fence h = Ok route -> is_keyframe h = false | _ => True end ->
  waiting_for_keyframe (slot_step s op) = true.
Proof.
  destruct op as [h pl| |w|g rt f|c|p|id b]; cbn; try done. intros Hw Hc Hk.
  destruct (admit_frame fence h) as [rt|] eqn:Ha; [|done]. apply bool_decide_eq_true in Hc as ->.
  rewrite decode_into_waiting; [done|done|by apply Hk].
Qed.

Lemma router_run_waiting ops fence route : no_keyframe_for fence route ops ->
  forall (r : Router) s, admission r = fence -> slots r !! route = Some s -> waiting_for_keyframe s = true ->
  admission (router_run ops r) = fence /\ exists s', slots (router_run ops r) !! route = Some s' /\ waiting_for_keyframe s' = true.
Proof.
  induction 1 as [|op ops Hop Hn IH]; intros r s Hr Hs Hw; cbn [router_run fold_left]; [by eauto|].
  fold (router_run ops (router_step r op)). pose proof (router_step_slot r op route) as Hstep. rewrite Hs, Hr in Hstep. cbn in Hstep.
  eapply IH; [by rewrite router_step_admission|exact Hstep|].
  destruct (concerns fence route op) eqn:Hc; [by eapply slot_step_waiting|done].
Qed.

(** A monitor that waits for a keyframe (a new one, or after a discontinuity
    or a decode error) shows no fresh frame before one arrives for it: through
    any run without an admitted keyframe for its route it keeps waiting, the
    router does not report full recovery, and every further frame for it that
    is not a keyframe is skipped before its decoder, whatever the other
    monitors receive. *)
Theorem recovery_needs_keyframe (r : Router) ops route s h payload :
  slots r !! route = Some s -> waiting_for_keyframe s = true -> no_keyframe_for (admission r) route ops ->
  admit_frame (admission r) h = Ok route -> is_keyframe h = false ->
  all_recovered (router_run ops r) = false /\
  (route_and_decode (router_run ops r) h payload).2 = Ok NoOutputYet /\
  decoder <$> slots (route_and_decode (router_run ops r) h payload).1 !! route = decoder <$> slots (router_run ops r) !! route.
Proof.
  intros Hs Hw Hn Ha Hk. destruct (router_run_waiting ops _ route Hn r s eq_refl Hs Hw) as (Hadm & s' & Hslot & Hw').
  unfold route_and_decode. rewrite Hadm, Ha, Hslot, decode_into_waiting by done. split_and!; [|done|].
  - unfold all_recovered, any_waiting_for_keyframe. apply negb_false_iff, existsb_exists. exists (route, s'). split; [|done].
    apply list_elem_of_In, elem_of_map_to_list. done.
  - cbn. by rewrite lookup_insert_eq.
Qed.

End Runs.

(** ** Examples *)

Module RouterExamples.

(** A decoder that shows the payload as a frame and refuses an empty one. *)
#[export] Instance toy_decoder : VideoDecoderBackend nat (list Z) unit unit unit := {|
  set_session_color _ d := d; set_prefer_native_biplanar b d := (d, b); set_decode_latency_policy _ d := d;
  decode _ payload d := (S d, if bool_decide (payload = []) then Err tt else Ok (Some payload));
  wants_keyframe _ := false; notify_discontinuity d := d
|}.

Definition video : VideoConfiguration := mkVideo CodecH264 Chroma420 EightBit RangeLimited MatrixBt709 PrimariesBt709 TcBt709.
Definition plan (id epoch : Z) : RegionMediaPlan := mkPlan id epoch NativeNvenc video 1920 1080 60 (nominal_for_geometry 1920 1080 60).
Definition plans : RegionMediaRoster := [plan 7 3; plan 1 4].
Definition header (id epoch : Z) (keyframe : bool) : VideoHeader :=
  mkVideoHeader RegionVideoH264 H264 Yuv420 (encode_flags keyframe ProtocolWire.Eight Limited Bt709) 0 id 5 epoch.
Definition router : MonitorFrameRouter nat (list Z) :=
  match new_with_media_roster (fun _ => 0%nat) 5 plans with
  | Ok r => r
  | Err _ => mkRouter (mkRoster 0 ∅) ∅ None
  end.
Definition recovered : MonitorFrameRouter nat (list Z) := router_run [OpFrame (header 7 3 true) [1]] router.

End RouterExamples.
Import RouterExamples.

(** A frame refused by the fence arms nothing: monitor 7 has recovered, a
    frame of a replaced stream of monitor 7 is refused, and the router is
    unchanged, with monitor 7 still not waiting for a keyframe. *)
Theorem refused_frame_arms_nothing :
  slot_waiting recovered (Negotiated 7) = Some false /\
  route_and_decode recovered (header 7 2 false) [9] = (recovered, Err (Admission (StaleStreamEpoch 3 2))) /\
  slot_waiting (fst (route_and_decode recovered (header 7 2 false) [9])) (Negotiated 7) = Some false.
Proof. split_and!; vm_compute; reflexivity. Qed.

Example router_keeps_its_primary : primary_monitor_id router = Some 7 /\ all_recovered recovered = false.
Proof. split; vm_compute; reflexivity. Qed.

Lemma media_roster_fence_exact_witness :
  exists r, from_media_roster 5 plans = Ok r /\ admit_frame r (header 7 2 true) = Err (StaleStreamEpoch 3 2).
Proof.
  destruct (media_roster_fence_exact 5 plans) as (r & Hr & Ha); [lia|reflexivity|repeat constructor; cbn; lia|].
  exists r. split; [exact Hr|]. rewrite (Ha (header 7 2 true)). vm_compute. reflexivity.
Defined.

Lemma host_frame_reaches_region_witness :
  exists r, from_media_roster 5 plans = Ok r /\ admit_frame r (header 1 4 true) = Ok (Negotiated 1).
Proof.
  destruct (host_frame_reaches_region 5 plans (plan 1 4) (header 1 4 true) [1; 2; 3]) as (r & Hr & _ & Ha);
    [lia|reflexivity|repeat constructor; cbn; lia|right; left| |by exists r].
  split; [apply (bool_decide_unpack _); vm_compute; exact I|]. split_and!; try reflexivity; by eexists.
Defined.

Lemma legacy_roster_admits_nothing_decoded_witness :
  decode_video_header [3; 1; 0; 1; 0; 0; 0; 5; 0; 0] = Ok (mkVideoHeader VideoH264 H264 Yuv420 1 5 0 0 0) /\
  exists r e, legacy_primary = Some r /\ admit_frame r (mkVideoHeader VideoH264 H264 Yuv420 1 5 0 0 0) = Err e.
Proof.
  assert (decode_video_header [3; 1; 0; 1; 0; 0; 0; 5; 0; 0] = Ok (mkVideoHeader VideoH264 H264 Yuv420 1 5 0 0 0)) as Hd
    by (vm_compute; reflexivity).
  split; [exact Hd|].
  destruct (legacy_roster_admits_nothing_decoded [3; 1; 0; 1; 0; 0; 0; 5; 0; 0] (mkVideoHeader VideoH264 H264 Yuv420 1 5 0 0 0)) as (r & e & Hr & He & _);
    [apply (bool_decide_unpack _); vm_compute; exact I|exact Hd|].
  by exists r, e.
Defined.

Lemma recovery_needs_keyframe_witness :
  (route_and_decode (router_run [OpFrame (header 1 4 true) [3]] (router_run [OpDiscontinuity] recovered)) (header 7 3 false) [2]).2
  = Ok NoOutputYet.
Proof.
  destruct (recovery_needs_keyframe (router_run [OpDiscontinuity] recovered) [OpFrame (header 1 4 true) [3]] (Negotiated 7)
              (mkSlot 1%nat (Some [1]) 1 0 true) (header 7 3 false) [2]) as (_ & H & _).
  - vm_compute. reflexivity.
  - reflexivity.
  - constructor; [|constructor]. vm_compute. discriminate.
  - vm_compute. reflexivity.
  - vm_compute. reflexivity.
  - exact H.
Defined.
