(* ===== verification/HostLifecycle.v ===== *)
(** * Session: the host's lifecycle of every session

    Models [shared/session/src/host_lifecycle.rs]: the lifecycle state machine
    with its evidence gates and the bounded table of live sessions.  The table's
    mutex is taken per critical section and recovers from poisoning, so a run of
    the host is a list of critical sections; [stream_started] takes three.
    Tokens and [Display] are left out. *)

From stdpp Require Import strings.
From S2P Require Import Prelude.

(** ** The lifecycle of one session *)

Inductive PierLifecycleState :=
| Starting | Listening | Authenticating | PreparingSession | SessionReady | Streaming | Recovering | Stopped | Failed.
#[global] Instance PierLifecycleState_eq_dec : EqDecision PierLifecycleState. Proof. solve_decision. Defined.

Inductive PierLifecycleEvent :=
| NetworkReady | AuthenticationAccepted | NativeSessionReady | StreamReady | TransportLost | RecoveryComplete
| SessionEnded | Shutdown | FatalFailure.
#[global] Instance PierLifecycleEvent_eq_dec : EqDecision PierLifecycleEvent. Proof. solve_decision. Defined.

Record NativeReadinessEvidence := mkEvidence {
  session_identity : bool; outputs_verified : bool; media_verified : bool; input_verified : bool
}.

Definition is_complete (e : NativeReadinessEvidence) : bool :=
  session_identity e && outputs_verified e && media_verified e && input_verified e.

Record InvalidLifecycleTransition := mkInvalid { inv_state : PierLifecycleState; inv_event : PierLifecycleEvent }.

Inductive LifecycleApplyError := IncompleteReadiness | InvalidTransition (e : InvalidLifecycleTransition).

Record PierLifecycle := mkLifecycle { state : PierLifecycleState }.

Definition lifecycle_new : PierLifecycle := mkLifecycle Starting.
Definition listening : PierLifecycle := mkLifecycle Listening.

(** The table of [apply_transition]. *)
Definition next_state (s : PierLifecycleState) (e : PierLifecycleEvent) : option PierLifecycleState :=
  match s, e with
  | Starting, NetworkReady => Some Listening
  | Listening, AuthenticationAccepted => Some Authenticating
  | Authenticating, NativeSessionReady => Some PreparingSession
  | PreparingSession, StreamReady | Recovering, RecoveryComplete => Some SessionReady
  | SessionReady, StreamReady => Some Streaming
  | Streaming, TransportLost => Some Recovering
  | (Authenticating | PreparingSession | SessionReady | Streaming | Recovering), SessionEnded => Some Listening
  | (Listening | Authenticating | PreparingSession | SessionReady | Streaming | Recovering), Shutdown => Some Stopped
  | (Starting | Listening | Authenticating | PreparingSession | SessionReady | Streaming | Recovering), FatalFailure => Some Failed
  | _, _ => None
  end.

Definition apply_transition (l : PierLifecycle) (e : PierLifecycleEvent)
  : PierLifecycle * result InvalidLifecycleTransition PierLifecycleState :=
  match next_state (state l) e with
  | Some next => (mkLifecycle next, Ok next)
  | None => (l, Err (mkInvalid (state l) e))
  end.

Definition apply (l : PierLifecycle) (e : PierLifecycleEvent)
  : PierLifecycle * result InvalidLifecycleTransition PierLifecycleState :=
  match e with
  | NativeSessionReady | StreamReady => (l, Err (mkInvalid (state l) e))
  | _ => apply_transition l e
  end.

(** [map_err(LifecycleApplyError::InvalidTransition)]. *)
Definition invalid_transition {A} (r : result InvalidLifecycleTransition A) : result LifecycleApplyError A :=
  match r with Ok a => Ok a | Err e => Err (InvalidTransition e) end.

Definition gated (e : PierLifecycleEvent) (l : PierLifecycle) (evidence : NativeReadinessEvidence)
  : PierLifecycle * result LifecycleApplyError PierLifecycleState :=
  if negb (is_complete evidence) then (l, Err IncompleteReadiness)
  else let '(l, r) := apply_transition l e in (l, invalid_transition r).

Definition apply_native_session_ready := gated NativeSessionReady.
Definition apply_stream_ready := gated StreamReady.

(** ** The table of sessions *)

Record LifecycleReport := mkReport { from : option PierLifecycleState; to : result LifecycleApplyError PierLifecycleState }.

Definition MAX_TRACKED_SESSIONS : Z := 64.

Definition SessionLifecycles : Type := list (string * PierLifecycle).

Definition session_index (t : SessionLifecycles) (session : string) : option (nat * (string * PierLifecycle)) :=
  list_find (fun e => e.1 = session) t.

Definition refused (event : PierLifecycleEvent) : result LifecycleApplyError PierLifecycleState :=
  Err (InvalidTransition (mkInvalid Listening event)).

(** Streaming and recovering sessions are live. *)
Definition is_live (s : PierLifecycleState) : bool := match s with Streaming | Recovering => true | _ => false end.

(** [Vec::swap_remove]. *)
Definition swap_remove {A} (index : nat) (l : list A) : list A :=
  match last l with Some x => take (length l - 1) (<[index := x]> l) | None => l end.

Definition push_authenticated (t : SessionLifecycles) (session : string) : SessionLifecycles * LifecycleReport :=
  let '(l, r) := apply listening AuthenticationAccepted in (t ++ [(session, l)], mkReport None (invalid_transition r)).

Definition authenticated (t : SessionLifecycles) (session : string) : SessionLifecycles * LifecycleReport :=
  match session_index t session with
  | Some (i, (id, l)) =>
    if bool_decide (state l = Recovering) then (t, mkReport (Some (state l)) (Ok (state l)))
    else
      let '(l', r) := apply l AuthenticationAccepted in
      (<[i := (id, l')]> t, mkReport (Some (state l)) (invalid_transition r))
  | None =>
    if MAX_TRACKED_SESSIONS <=? len t then
      match list_find (fun e => is_live (state e.2) = false) t with
      | Some (i, _) => push_authenticated (delete i t) session
      | None => (t, mkReport None (refused AuthenticationAccepted))
      end
    else push_authenticated t session
  end.

(** The attempt of [stream_started] on one lifecycle. *)
Definition stream_attempt (l : PierLifecycle) (evidence : NativeReadinessEvidence)
  : PierLifecycle * result LifecycleApplyError PierLifecycleState :=
  let '(l, ready) :=
    match state l with
    | Authenticating =>
      let '(l, r) := apply_native_session_ready l evidence in
      match r with Ok _ => apply_stream_ready l evidence | Err e => (l, Err e) end
    | Recovering => let '(l, r) := apply l RecoveryComplete in (l, invalid_transition r)
    | s => (l, Ok s)
    end in
  match ready with Ok _ => apply_stream_ready l evidence | Err e => (l, Err e) end.

(** The last critical section of [stream_started]. *)
Definition stream_section (t : SessionLifecycles) (session : string) (evidence : NativeReadinessEvidence)
  : SessionLifecycles * LifecycleReport :=
  match session_index t session with
  | None => (t, mkReport None (refused StreamReady))
  | Some (i, (id, l)) =>
    let '(attempt, r) := stream_attempt l evidence in
    (match r with Ok _ => <[i := (id, attempt)]> t | Err _ => t end, mkReport (Some (state l)) r)
  end.

Definition stream_started (t : SessionLifecycles) (session : string) (evidence : NativeReadinessEvidence)
  : SessionLifecycles * LifecycleReport :=
  let t := if is_some (session_index t session) then t else (authenticated t session).1 in
  stream_section t session evidence.

Definition session_step (t : SessionLifecycles) (session : string) (event : PierLifecycleEvent) (forget : bool)
  : SessionLifecycles * LifecycleReport :=
  match session_index t session with
  | None => (t, mkReport None (refused event))
  | Some (i, (id, l)) =>
    let '(l', r) := apply l event in
    let t := <[i := (id, l')]> t in
    (if forget && is_ok r then swap_remove i t else t, mkReport (Some (state l)) (invalid_transition r))
  end.

Definition transport_lost (t : SessionLifecycles) (session : string) := session_step t session TransportLost false.
Definition ended (t : SessionLifecycles) (session : string) := session_step t session SessionEnded true.
Definition tracked (t : SessionLifecycles) : Z := len t.

(** ** What the table promises

    A session is set up, live, or held for a resume; the table is a map from
    the sessions' names to these phases. *)

Inductive Phase := Setup | Live | Held.
#[global] Instance Phase_eq_dec : EqDecision Phase. Proof. solve_decision. Defined.

Definition state_of (p : Phase) : PierLifecycleState :=
  match p with Setup => Authenticating | Live => Streaming | Held => Recovering end.

Inductive TableOp :=
| TAuthenticated (session : string)
| TStream (session : string) (evidence : NativeReadinessEvidence)
| TTransportLost (session : string)
| TEnded (session : string).

(** The critical sections that write the table. *)
Definition table_step (t : SessionLifecycles) (op : TableOp) : SessionLifecycles * LifecycleReport :=
  match op with
  | TAuthenticated session => authenticated t session
  | TStream session evidence => stream_section t session evidence
  | TTransportLost session => transport_lost t session
  | TEnded session => ended t session
  end.

Definition table_run (ops : list TableOp) (t : SessionLifecycles) : SessionLifecycles :=
  fold_left (fun t op => (table_step t op).1) ops t.

Definition invalid (p : Phase) (event : PierLifecycleEvent) : LifecycleReport :=
  mkReport (Some (state_of p)) (Err (InvalidTransition (mkInvalid (state_of p) event))).

(** The contract of each section on the phases. *)
Definition phase_step (op : TableOp) (m m' : gmap string Phase) (report : LifecycleReport) : Prop :=
  match op with
  | TAuthenticated s =>
    match m !! s with
    | Some Held => m' = m /\ report = mkReport (Some Recovering) (Ok Recovering)
    | Some p => m' = m /\ report = invalid p AuthenticationAccepted
    | None =>
      if decide (Z.of_nat (size m) < MAX_TRACKED_SESSIONS)
      then m' = <[s := Setup]> m /\ report = mkReport None (Ok Authenticating)
      else
        (exists s0, m !! s0 = Some Setup /\ m' = <[s := Setup]> (delete s0 m) /\ report = mkReport None (Ok Authenticating)) \/
        (map_Forall (fun _ p => p <> Setup) m /\ m' = m /\ report = mkReport None (refused AuthenticationAccepted))
    end
  | TStream s evidence =>
    match m !! s with
    | None => m' = m /\ report = mkReport None (refused StreamReady)
    | Some p =>
      if is_complete evidence then
        match p with
        | Live => m' = m /\ report = invalid Live StreamReady
        | _ => m' = <[s := Live]> m /\ report = mkReport (Some (state_of p)) (Ok Streaming)
        end
      else m' = m /\ report = mkReport (Some (state_of p)) (Err IncompleteReadiness)
    end
  | TTransportLost s =>
    match m !! s with
    | None => m' = m /\ report = mkReport None (refused TransportLost)
    | Some Live => m' = <[s := Held]> m /\ report = mkReport (Some Streaming) (Ok Recovering)
    | Some p => m' = m /\ report = invalid p TransportLost
    end
  | TEnded s =>
    match m !! s with
    | None => m' = m /\ report = mkReport None (refused SessionEnded)
    | Some p => m' = delete s m /\ report = mkReport (Some (state_of p)) (Ok Listening)
    end
  end.

(** ** The table as a list of phases *)

Definition entry (e : string * Phase) : string * PierLifecycle := (e.1, mkLifecycle (state_of e.2)).

Record table_rel (t : SessionLifecycles) (m : gmap string Phase) (l : list (string * Phase)) : Prop := {
  rel_table : t = entry <$> l;
  rel_nodup : NoDup l.*1;
  rel_bound : (length l <= 64)%nat;
  rel_map : m = list_to_map l
}.

(** Looking a session up splits the list at its entry. *)
Lemma session_index_entry l s :
  match session_index (entry <$> l) s with
  | Some (i, e) => exists l1 p l2, l = l1 ++ (s, p) :: l2 /\ i = length l1 /\ e = entry (s, p)
  | None => s ∉ l.*1
  end.
Proof.
  unfold session_index. destruct (list_find _ _) as [[i e]|] eqn:Hf.
  - apply list_find_Some in Hf as (Hi & <- & _). apply list_lookup_fmap_Some in Hi as ([s p] & -> & Hi).
    exists (take i l), p, (drop (S i) l). split_and!; [|by rewrite length_take_le; [|apply lookup_lt_Some in Hi; lia]|done].
    symmetry. by apply take_drop_middle.
  - apply list_find_None in Hf. intros ([s' p] & -> & Hin)%list_elem_of_fmap.
    apply (proj1 (Forall_forall _ _) Hf (entry (s', p))); [by apply list_elem_of_fmap_2|done].
Qed.

Lemma middle_map (l1 l2 : list (string * Phase)) s p : NoDup (l1 ++ (s, p) :: l2).*1 ->
  (s ∉ (l1 ++ l2).*1) /\ (NoDup (l1 ++ l2).*1) /\
  (list_to_map (l1 ++ (s, p) :: l2) : gmap string Phase) = <[s := p]> (list_to_map (l1 ++ l2)).
Proof.
  intros Hnd. pose proof (Permutation_middle l1 l2 (s, p)) as HP.
  pose proof Hnd as Hnd'. rewrite <- HP in Hnd'. cbn in Hnd'. apply NoDup_cons in Hnd' as [Hs Hnd'].
  split_and!; [done|done|]. rewrite <- list_to_map_cons. apply list_to_map_proper; [done|by rewrite HP].
Qed.

(** Replacing the phase of an entry. *)
Lemma rel_replace t m l1 s p l2 q : table_rel t m (l1 ++ (s, p) :: l2) ->
  table_rel (<[length l1 := entry (s, q)]> t) (<[s := q]> m) (l1 ++ (s, q) :: l2).
Proof.
  intros [-> Hnd Hb ->]. destruct (middle_map _ _ _ _ Hnd) as (Hs & Hnd' & ->).
  assert (NoDup (l1 ++ (s, q) :: l2).*1) as Hndq by (rewrite fmap_app in Hnd |- *; exact Hnd).
  split; [|done|by rewrite !length_app in *|].
  - rewrite !fmap_app. cbn. replace (length l1) with (length (entry <$> l1) + 0)%nat by (rewrite length_fmap; lia).
    exact (insert_app_r (entry <$> l1) (entry (s, p) :: (entry <$> l2)) 0 (entry (s, q))).
  - destruct (middle_map _ _ _ _ Hndq) as (_ & _ & ->). by rewrite insert_insert_eq.
Qed.

Lemma rel_remove l1 s p l2 l3 : NoDup (l1 ++ (s, p) :: l2).*1 -> (length (l1 ++ (s, p) :: l2) <= 64)%nat -> l3 ≡ₚ l1 ++ l2 ->
  table_rel (entry <$> l3) (delete s (list_to_map (l1 ++ (s, p) :: l2))) l3 /\ (length l3 < 64)%nat.
Proof.
  intros Hnd Hb HP. destruct (middle_map _ _ _ _ Hnd) as (Hs & Hnd' & ->).
  assert (NoDup l3.*1) as Hnd3 by (by rewrite HP).
  pose proof (Permutation_length HP) as Hl. rewrite length_app in *. cbn in Hb. split; [|lia].
  split; [done|done|lia|]. rewrite delete_insert_id by (by apply not_elem_of_list_to_map_1).
  symmetry. by apply list_to_map_proper.
Qed.

Lemma rel_push t m l s : table_rel t m l -> (length l < 64)%nat -> s ∉ l.*1 ->
  exists l', table_rel (push_authenticated t s).1 (<[s := Setup]> m) l'.
Proof.
  intros [-> Hnd Hb ->] Hlt Hs. exists (l ++ [(s, Setup)]). split.
  - by rewrite fmap_app.
  - rewrite fmap_app. apply NoDup_app. split_and!; [done| |apply NoDup_singleton].
    intros x Hx ->%list_elem_of_singleton. done.
  - rewrite length_app. cbn. lia.
  - rewrite list_to_map_snoc; [done|]. done.
Qed.

(** [swap_remove] leaves the other entries, whatever is at the index. *)
Lemma swap_remove_last {A} (l1 : list A) x : swap_remove (length l1) (l1 ++ [x]) = l1.
Proof.
  unfold swap_remove. rewrite last_snoc. pose proof (insert_app_r l1 [x] 0 x) as H. rewrite Nat.add_0_r in H. rewrite H. cbn.
  rewrite length_app. cbn. replace (length l1 + 1 - 1)%nat with (length l1) by lia. apply take_app_length.
Qed.

Lemma swap_remove_middle {A} (l1 l2 : list A) x y : swap_remove (length l1) (l1 ++ x :: l2 ++ [y]) = l1 ++ y :: l2.
Proof.
  unfold swap_remove. replace (last (l1 ++ x :: l2 ++ [y])) with (Some y) by (by rewrite app_comm_cons, app_assoc, last_snoc).
  pose proof (insert_app_r l1 (x :: l2 ++ [y]) 0 y) as H. rewrite Nat.add_0_r in H. rewrite H. cbn.
  replace (l1 ++ y :: l2 ++ [y]) with ((l1 ++ y :: l2) ++ [y]) by (by rewrite <- app_assoc).
  apply take_app_length'. rewrite !length_app. cbn. rewrite length_app. cbn. lia.
Qed.

Lemma swap_remove_entries (l1 l2 : list (string * Phase)) x :
  exists l3, swap_remove (length l1) ((entry <$> l1) ++ x :: (entry <$> l2)) = entry <$> l3 /\ l3 ≡ₚ l1 ++ l2.
Proof.
  replace (length l1) with (length (entry <$> l1)) by apply length_fmap.
  destruct l2 as [|y l2 _] using rev_ind.
  - exists l1. rewrite app_nil_r. split; [apply swap_remove_last|done].
  - exists (l1 ++ y :: l2). rewrite !fmap_app. split; [apply swap_remove_middle|].
    by rewrite (Permutation_cons_append l2 y).
Qed.

(** ** Each section keeps the contract *)

Lemma rel_lookup t m l1 s p l2 : table_rel t m (l1 ++ (s, p) :: l2) -> m !! s = Some p.
Proof. intros [_ Hnd _ ->]. destruct (middle_map _ _ _ _ Hnd) as (_ & _ & ->). apply lookup_insert_eq. Qed.

(** Writing an entry back. *)
Lemma rel_same t m l1 s p l2 : table_rel t m (l1 ++ (s, p) :: l2) ->
  table_rel (<[length l1 := entry (s, p)]> t) m (l1 ++ (s, p) :: l2).
Proof.
  intros H. pose proof (rel_lookup _ _ _ _ _ _ H) as Hp. pose proof (rel_replace _ _ _ _ _ _ p H) as H'.
  by rewrite (insert_id m s p Hp) in H'.
Qed.

Lemma rel_lookup_none t m l s : table_rel t m l -> s ∉ l.*1 -> m !! s = None.
Proof. intros [_ _ _ ->] Hs. by apply not_elem_of_list_to_map_1. Qed.

Lemma rel_size t m l : table_rel t m l -> size m = length l /\ len t = Z.of_nat (length l).
Proof.
  intros [-> Hnd _ ->]. unfold len. rewrite length_fmap. split; [|done].
  by rewrite map_size_list_to_map.
Qed.

(** The section's outcome: a table of some phases that meets the contract. *)
Definition keeps (op : TableOp) (t : SessionLifecycles) (m : gmap string Phase) : Prop :=
  exists m' l', table_rel (table_step t op).1 m' l' /\ phase_step op m m' (table_step t op).2.

Lemma ended_keeps t m l s : table_rel t m l -> keeps (TEnded s) t m.
Proof.
  intros Hrel. unfold keeps. cbn [table_step phase_step]. unfold ended, session_step.
  pose proof (session_index_entry l s) as Hidx. rewrite <- (rel_table _ _ _ Hrel) in Hidx.
  destruct (session_index t s) as [[i e]|].
  - destruct Hidx as (l1 & p & l2 & -> & -> & ->). unfold entry at 1. cbn [fst snd].
    rewrite (rel_lookup _ _ _ _ _ _ Hrel). destruct Hrel as [-> Hnd Hb ->].
    assert (exists l3, swap_remove (length l1) (<[length l1 := (s, mkLifecycle Listening)]> (entry <$> l1 ++ (s, p) :: l2))
              = entry <$> l3 /\ l3 ≡ₚ l1 ++ l2) as (l3 & E3 & HP).
    { destruct (swap_remove_entries l1 l2 (s, mkLifecycle Listening)) as (l3 & E3 & HP). exists l3. split; [|done].
      rewrite <- E3. f_equal. rewrite fmap_app. cbn.
      pose proof (insert_app_r (entry <$> l1) (entry (s, p) :: (entry <$> l2)) 0 (s, mkLifecycle Listening)) as H.
      rewrite length_fmap, Nat.add_0_r in H. exact H. }
    destruct (rel_remove _ _ _ _ _ Hnd Hb HP) as [Hrel _]. rewrite <- E3 in Hrel.
    exists (delete s (list_to_map (l1 ++ (s, p) :: l2))), l3. destruct p; (split; [exact Hrel|done]).
  - exists m, l. cbn. by rewrite (rel_lookup_none _ _ _ _ Hrel Hidx).
Qed.

Lemma transport_lost_keeps t m l s : table_rel t m l -> keeps (TTransportLost s) t m.
Proof.
  intros Hrel. unfold keeps. cbn [table_step phase_step]. unfold transport_lost, session_step.
  pose proof (session_index_entry l s) as Hidx. rewrite <- (rel_table _ _ _ Hrel) in Hidx.
  destruct (session_index t s) as [[i e]|].
  - destruct Hidx as (l1 & p & l2 & -> & -> & ->). unfold entry at 1. cbn [fst snd].
    pose proof (rel_lookup _ _ _ _ _ _ Hrel) as Hp. rewrite Hp.
    destruct p; cbn.
    + eexists m, _. split; [exact (rel_same _ _ _ _ _ _ Hrel)|done].
    + eexists _, _. split; [exact (rel_replace _ _ _ _ _ _ Held Hrel)|done].
    + eexists m, _. split; [exact (rel_same _ _ _ _ _ _ Hrel)|done].
  - exists m, l. cbn. by rewrite (rel_lookup_none _ _ _ _ Hrel Hidx).
Qed.

Lemma stream_keeps t m l s evidence : table_rel t m l -> keeps (TStream s evidence) t m.
Proof.
  intros Hrel. unfold keeps. cbn [table_step phase_step]. unfold stream_section.
  pose proof (session_index_entry l s) as Hidx. rewrite <- (rel_table _ _ _ Hrel) in Hidx.
  destruct (session_index t s) as [[i e]|].
  - destruct Hidx as (l1 & p & l2 & -> & -> & ->). unfold entry at 1. cbn [fst snd].
    rewrite (rel_lookup _ _ _ _ _ _ Hrel).
    unfold stream_attempt, apply_native_session_ready, apply_stream_ready, gated.
    destruct (is_complete evidence); destruct p; cbn; (eexists _, _; split; [|split; reflexivity]);
      solve [exact Hrel|exact (rel_replace _ _ _ _ _ _ Live Hrel)].
  - exists m, l. cbn. by rewrite (rel_lookup_none _ _ _ _ Hrel Hidx).
Qed.

Lemma authenticated_new t m l s : table_rel t m l -> m !! s = None -> s ∉ l.*1 ->
  (session_index t s = None) -> keeps (TAuthenticated s) t m.
Proof.
  intros Hrel Hm Hs Hidx. unfold keeps. cbn [table_step phase_step]. unfold authenticated. rewrite Hidx, Hm.
  destruct (rel_size _ _ _ Hrel) as [Hsize Hlen]. rewrite Hsize, Hlen. unfold MAX_TRACKED_SESSIONS.
  destruct (Z.leb_spec 64 (Z.of_nat (length l))) as [Hge|Hlt].
  - destruct (decide (Z.of_nat (length l) < 64)); [lia|]. destruct (list_find (fun e => is_live (state e.2) = false) t) as [[i e]|] eqn:Hf.
    + apply list_find_Some in Hf as (Hi & Hlive & _). rewrite (rel_table _ _ _ Hrel) in Hi.
      apply list_lookup_fmap_Some in Hi as ([s0 p] & -> & Hi). destruct p; try done.
      pose proof (take_drop_middle _ _ _ Hi) as Hl.
      assert (i = length (take i l)) as Hilen by (rewrite length_take_le; [done|apply lookup_lt_Some in Hi; lia]).
      rewrite <- Hl in Hrel. pose proof (rel_lookup _ _ _ _ _ _ Hrel) as Hs0. destruct Hrel as [-> Hnd Hb ->].
      destruct (rel_remove _ _ _ _ (take i l ++ drop (S i) l) Hnd Hb) as [Hrel3 Hlt3]; [done|].
      assert (delete i (entry <$> take i l ++ (s0, Setup) :: drop (S i) l) = entry <$> (take i l ++ drop (S i) l)) as Hdel.
      { rewrite !fmap_app. cbn. rewrite Hilen at 1. rewrite <- (length_fmap entry (take i l)). apply delete_middle. }
      destruct (rel_push _ _ _ s Hrel3 Hlt3) as (l' & Hpush).
      { intros Hin. apply Hs. rewrite <- Hl. rewrite fmap_app in Hin |- *. cbn. apply elem_of_app in Hin as [?|?]; set_solver. }
      rewrite <- Hdel in Hpush. eexists _, l'. split; [exact Hpush|]. left. by exists s0.
    + exists m, l. split; [done|]. right. split_and!; [|done|done].
      apply list_find_None in Hf. rewrite (rel_map _ _ _ Hrel). intros s' p Hp -> .
      apply elem_of_list_to_map_2 in Hp. rewrite (rel_table _ _ _ Hrel) in Hf.
      apply (proj1 (Forall_forall _ _) Hf (entry (s', Setup))); [by apply list_elem_of_fmap_2|done].
  - destruct (decide (Z.of_nat (length l) < 64)); [|lia]. destruct (rel_push _ _ _ s Hrel ltac:(lia) Hs) as (l' & Hpush).
    eexists _, l'. split; [exact Hpush|done].
Qed.

Lemma authenticated_keeps t m l s : table_rel t m l -> keeps (TAuthenticated s) t m.
Proof.
  intros Hrel. pose proof (session_index_entry l s) as Hidx. rewrite <- (rel_table _ _ _ Hrel) in Hidx.
  destruct (session_index t s) as [[i e]|] eqn:Hi.
  - destruct Hidx as (l1 & p & l2 & -> & -> & ->). unfold keeps. cbn [table_step phase_step]. unfold authenticated. rewrite Hi.
    unfold entry at 1. cbn [fst snd]. pose proof (rel_lookup _ _ _ _ _ _ Hrel) as Hp. rewrite Hp.
    destruct p; cbn.
    + eexists m, _. split; [exact (rel_same _ _ _ _ _ _ Hrel)|done].
    + eexists m, _. split; [exact (rel_same _ _ _ _ _ _ Hrel)|done].
    + eexists m, _. by split.
  - eapply authenticated_new; [exact Hrel|by eapply rel_lookup_none|done|done].
Qed.

Lemma table_step_keeps t m l op : table_rel t m l -> keeps op t m.
Proof.
  destruct op; intros H; [by eapply authenticated_keeps|by eapply stream_keeps|by eapply transport_lost_keeps|by eapply ended_keeps].
Qed.

(** ** Runs *)

Fixpoint table_reports (ops : list TableOp) (t : SessionLifecycles) : list LifecycleReport :=
  match ops with [] => [] | op :: ops => (table_step t op).2 :: table_reports ops (table_step t op).1 end.

(** The contract along a run, with the report of every section. *)
Fixpoint phase_run (ops : list TableOp) (m m' : gmap string Phase) (reports : list LifecycleReport) : Prop :=
  match ops, reports with
  | [], [] => m' = m
  | op :: ops, r :: reports => exists m1, phase_step op m m1 r /\ phase_run ops m1 m' reports
  | _, _ => False
  end.

Lemma table_run_rel ops : forall t m l, table_rel t m l ->
  exists m' l', phase_run ops m m' (table_reports ops t) /\ table_rel (table_run ops t) m' l'.
Proof.
  induction ops as [|op ops IH]; intros t m l Hrel; cbn; [by exists m, l|].
  destruct (table_step_keeps _ _ _ op Hrel) as (m1 & l1 & Hrel1 & Hstep).
  destruct (IH _ _ _ Hrel1) as (m' & l' & Hrun & Hrel'). exists m', l'. eauto.
Qed.

Lemma empty_rel : table_rel [] ∅ [].
Proof. split; [done|constructor|cbn; lia|done]. Qed.

(** C9: However the critical sections of the host's threads interleave, the
    table of lifecycles is a map from session names to three phases (setup,
    live, held) of at most 64 sessions, and every section changes it and
    reports exactly as its contract says: in particular a session is set up
    only by authentication, made live only with complete evidence, held only
    from live, removed only by its end or, while it is still being set up and
    the table is full, by another session's authentication. *)
Theorem lifecycles_refine_phases ops :
  exists m l, phase_run ops ∅ m (table_reports ops []) /\ table_rel (table_run ops []) m l.
Proof.
  destruct (table_run_rel ops [] ∅ [] empty_rel) as (m & l & Hrun & Hrel). by exists m, l.
Qed.

Definition past_setup (m : gmap string Phase) (s : string) : Prop := exists p, m !! s = Some p /\ p <> Setup.

Lemma phase_step_live op m m' r s : phase_step op m m' r -> op <> TEnded s -> past_setup m s -> past_setup m' s.
Proof.
  intros Hstep Hop (p & Hp & Hlive). unfold past_setup.
  assert (forall s' q, (s' = s -> q <> Setup) -> exists q', <[s' := q]> m !! s = Some q' /\ q' <> Setup) as Hins.
  { intros s' q Hq. destruct (decide (s' = s)) as [->|]; [exists q; rewrite lookup_insert_eq; auto|].
    exists p. by rewrite lookup_insert_ne. }
  destruct op as [s'|s' e|s'|s']; cbn in Hstep; destruct (m !! s') as [q|] eqn:Hq.
  - destruct q; destruct Hstep as [-> _]; eauto.
  - assert (s' <> s) as Hne by congruence. destruct (decide _); [destruct Hstep as [-> _]; apply Hins; done|].
    destruct Hstep as [(s0 & Hs0 & -> & _)|(_ & -> & _)]; [|by eauto].
    exists p. rewrite lookup_insert_ne, lookup_delete_ne by congruence. done.
  - destruct (is_complete e); [|destruct Hstep as [-> _]; by eauto].
    destruct q; destruct Hstep as [-> _]; try (by apply Hins); by eauto.
  - destruct Hstep as [-> _]; eauto.
  - destruct q; destruct Hstep as [-> _]; try (by apply Hins); by eauto.
  - destruct Hstep as [-> _]; eauto.
  - destruct Hstep as [-> _]. exists p. rewrite lookup_delete_ne by congruence. done.
  - destruct Hstep as [-> _]; eauto.
Qed.

Lemma phase_step_evidence op m m' r s : phase_step op m m' r -> past_setup m' s ->
  past_setup m s \/ exists e, op = TStream s e /\ is_complete e = true.
Proof.
  intros Hstep (p & Hp & Hlive). unfold past_setup.
  assert (forall (m0 : gmap string Phase) s' q, <[s' := q]> m0 !! s = Some p -> (s' = s /\ p = q) \/ m0 !! s = Some p) as Hins.
  { intros m0 s' q. destruct (decide (s' = s)) as [->|]; [rewrite lookup_insert_eq; intros [= ->]; auto|].
    rewrite lookup_insert_ne by done. auto. }
  destruct op as [s'|s' e|s'|s']; cbn in Hstep; destruct (m !! s') as [q|] eqn:Hq.
  - destruct q; destruct Hstep as [-> _]; eauto.
  - destruct (decide _); [destruct Hstep as [-> _]; apply Hins in Hp as [[-> ->]|Hp]; by eauto|].
    destruct Hstep as [(s0 & Hs0 & -> & _)|(_ & -> & _)]; [|by eauto].
    apply Hins in Hp as [[-> ->]|Hp]; [done|]. apply lookup_delete_Some in Hp as [_ Hp]. eauto.
  - destruct (is_complete e) eqn:He; [|destruct Hstep as [-> _]; by eauto].
    destruct q; destruct Hstep as [-> _]; try (apply Hins in Hp as [[-> ->]|Hp]); eauto.
  - destruct Hstep as [-> _]; eauto.
  - destruct q; destruct Hstep as [-> _]; try (apply Hins in Hp as [[-> ->]|Hp]); eauto.
  - destruct Hstep as [-> _]; eauto.
  - destruct Hstep as [-> _]. apply lookup_delete_Some in Hp as [_ Hp]. eauto.
  - destruct Hstep as [-> _]; eauto.
Qed.

Lemma phase_run_live ops s : forall m m' rs, phase_run ops m m' rs -> TEnded s ∉ ops -> past_setup m s -> past_setup m' s.
Proof.
  induction ops as [|op ops IH]; intros m m' [|r rs] Hrun Hn Hm; cbn in Hrun; try done; [by subst|].
  destruct Hrun as (m1 & Hstep & Hrun). apply not_elem_of_cons in Hn as [Hne Hn].
  eapply IH; [exact Hrun|done|]. eapply phase_step_live; [exact Hstep|congruence|done].
Qed.

Lemma phase_run_evidence ops s : forall m m' rs, phase_run ops m m' rs -> past_setup m' s ->
  past_setup m s \/ exists e, TStream s e ∈ ops /\ is_complete e = true.
Proof.
  induction ops as [|op ops IH]; intros m m' [|r rs] Hrun Hm; cbn in Hrun; try done; [subst; by left|].
  destruct Hrun as (m1 & Hstep & Hrun). apply (IH _ _ _ Hrun) in Hm as [Hm|(e & He & Hc)].
  - apply (phase_step_evidence _ _ _ _ _ Hstep) in Hm as [Hm|(e & -> & Hc)]; [by left|].
    right. exists e. split; [by constructor|done].
  - right. exists e. split; [by constructor|done].
Qed.

(** A session of the table that streams or waits for its client to resume. *)
Definition live_in (t : SessionLifecycles) (s : string) : Prop := exists l, (s, l) ∈ t /\ is_live (state l) = true.

Lemma live_in_phase t m l s : table_rel t m l -> live_in t s <-> past_setup m s.
Proof.
  intros [-> Hnd _ ->]. unfold live_in, past_setup. split.
  - intros (lc & Hin & Hlive). apply list_elem_of_fmap in Hin as ([s' p] & [= -> ->] & Hin). exists p. split.
    + by apply elem_of_list_to_map_1.
    + by intros ->.
  - intros (p & Hp & Hne). exists (mkLifecycle (state_of p)). split; [|by destruct p].
    apply elem_of_list_to_map_2 in Hp. change (s, mkLifecycle (state_of p)) with (entry (s, p)). by apply list_elem_of_fmap_2.
Qed.

(** A live session (streaming, or held for a resume) stays tracked and live
    through any further run until its own end is reported: no other session,
    however many authenticate, and no refused step makes the table forget it. *)
Theorem live_session_survives earlier later s :
  live_in (table_run earlier []) s -> TEnded s ∉ later -> live_in (table_run later (table_run earlier [])) s.
Proof.
  intros Hlive Hn. destruct (table_run_rel earlier [] ∅ [] empty_rel) as (m & l & _ & Hrel).
  destruct (table_run_rel later _ _ _ Hrel) as (m' & l' & Hrun & Hrel').
  apply (live_in_phase _ _ _ s Hrel'). apply (live_in_phase _ _ _ s Hrel) in Hlive. by eapply phase_run_live.
Qed.

(** No session is live without evidence: if a session streams or is held
    after any run, the run contains a start of its stream reported with its
    session, outputs, media and input all verified. *)
Theorem live_needs_evidence ops s : live_in (table_run ops []) s ->
  exists e, TStream s e ∈ ops /\ session_identity e = true /\ outputs_verified e = true /\ media_verified e = true /\
    input_verified e = true.
Proof.
  intros Hlive. destruct (table_run_rel ops [] ∅ [] empty_rel) as (m & l & Hrun & Hrel).
  apply (live_in_phase _ _ _ s Hrel) in Hlive.
  apply (phase_run_evidence _ _ _ _ _ Hrun) in Hlive as [(p & Hp & _)|(e & He & Hc)]; [by rewrite lookup_empty in Hp|].
  exists e. split; [done|]. unfold is_complete in Hc. rewrite !andb_true_iff in Hc. tauto.
Qed.

(** [stream_started] is one or two of the sections, after a look at the table. *)
Lemma stream_started_sections t s e :
  stream_started t s e =
    table_step (table_run (if is_some (session_index t s) then [] else [TAuthenticated s]) t) (TStream s e).
Proof. unfold stream_started. by destruct (is_some (session_index t s)). Qed.

(** ** Examples *)

Definition evidence : NativeReadinessEvidence := mkEvidence true true true true.

Example unseen_session_streams :
  stream_started [] "a" evidence = ([("a", mkLifecycle Streaming)], mkReport (Some Authenticating) (Ok Streaming)).
Proof. vm_compute. reflexivity. Qed.

Lemma live_session_survives_witness :
  live_in (table_run [TAuthenticated "b"; TTransportLost "a"; TEnded "b"] (table_run [TAuthenticated "a"; TStream "a" evidence] [])) "a".
Proof.
  apply (live_session_survives [TAuthenticated "a"; TStream "a" evidence] [TAuthenticated "b"; TTransportLost "a"; TEnded "b"] "a").
  - exists (mkLifecycle Streaming). split; [vm_compute; left|reflexivity].
  - rewrite !not_elem_of_cons. split_and!; [discriminate..|apply not_elem_of_nil].
Defined.

Lemma live_needs_evidence_witness : exists e, TStream "a" e ∈ [TAuthenticated "a"; TStream "a" evidence] /\ media_verified e = true.
Proof.
  destruct (live_needs_evidence [TAuthenticated "a"; TStream "a" evidence] "a") as (e & He & _ & _ & Hm & _);
    [exists (mkLifecycle Streaming); split; [vm_compute; left|reflexivity]|by exists e].
Defined.
