(* ===== verification/LaneWire.v ===== *)
(** * Protocol: lane roles, prefaces, attachment grants and session records

    Models [shared/protocol/src/lanes.rs]: the table of lane roles, role sets
    as bit masks, the fixed-size lane preface and its validation, the binding
    text, the attachment grant, the classification of a peer that speaks
    another transport, and the records of the session-message lanes.  Text is
    its UTF-8 bytes, except for the literals (tokens, message types), which
    are strings.  JSON parsing (serde_json) is a parameter. *)

From stdpp Require Import strings.
From S2P Require Import Prelude Utf8 RustText ProtocolWire.

Definition LANE_PREFACE_MAGIC : list Z := string_bytes "ARLN".
Definition LANE_PROTOCOL_VERSION : Z := 1.
Definition LANE_PREFACE_HEADER_BYTES : Z := 4 + 2.
Definition LANE_ATTACHMENT_BINDING_BYTES : Z := 16.
Definition LANE_PREFACE_BYTES : Z := LANE_PREFACE_HEADER_BYTES + 1 + 1 + 8 + 4 + LANE_ATTACHMENT_BINDING_BYTES.
Definition LANE_ROLE_COUNT : Z := 6.
Definition LEGACY_DIRECT_STREAM_PREFACE : list Z := string_bytes "arcen-direct-v1" ++ [0].
Definition LANE_VERSION_MISMATCH_CLOSE_CODE : Z := 0x41524C01.
Definition LEGACY_PIER_PREFACE_CLOSE_REASON : list Z := string_bytes "invalid direct stream preface".
Definition SESSION_CLOSED_CLOSE_CODE : Z := 0x41524C03.
Definition SESSION_CLOSED_CLOSE_REASON : list Z := string_bytes "session closed".
Definition LEGACY_REFUSAL_WEBSOCKET_CODE : Z := 1008.
Definition WEBSOCKET_CLOSE_REASON_MAX : Z := 123.
Definition LANE_ATTACHMENT_MSG_TYPE : string := "lane_attachment".
Definition MAX_SESSION_CLOSE_REASON_BYTES : Z := 123.

(** ** Stream error codes *)

Inductive LaneStreamCode :=
| CodeRefused | CodePrefaceTimeout | CodeLaneFailed | CodeSuperseded | CodeAttachmentEnded | CodeDisabled.
#[global] Instance LaneStreamCode_eq_dec : EqDecision LaneStreamCode. Proof. solve_decision. Defined.

Definition LaneStreamCode_ALL : list LaneStreamCode :=
  [CodeRefused; CodePrefaceTimeout; CodeLaneFailed; CodeSuperseded; CodeAttachmentEnded; CodeDisabled].

Definition stream_code (c : LaneStreamCode) : Z :=
  match c with
  | CodeRefused => 0x41524C10 | CodePrefaceTimeout => 0x41524C11 | CodeLaneFailed => 0x41524C12
  | CodeSuperseded => 0x41524C13 | CodeAttachmentEnded => 0x41524C14 | CodeDisabled => 0x41524C15
  end.

Definition from_stream_code (code : Z) : option LaneStreamCode :=
  head (filter (fun c => stream_code c = code) LaneStreamCode_ALL).

(** ** Endpoints, shapes and roles *)

Inductive LaneEndpoint := Pier | Deck.
#[global] Instance LaneEndpoint_eq_dec : EqDecision LaneEndpoint. Proof. solve_decision. Defined.

Definition peer (e : LaneEndpoint) : LaneEndpoint := match e with Pier => Deck | Deck => Pier end.

Inductive LaneShape := Bidirectional | Unidirectional.
#[global] Instance LaneShape_eq_dec : EqDecision LaneShape. Proof. solve_decision. Defined.

Inductive LaneFlow := PierToDeck | DeckToPier | Both.
Inductive LaneFraming := SessionMessages | LengthPrefixedMedia.

Inductive LaneRole := Control | Video | AudioOutput | InputCursor | Microphone | BulkAux.
#[global] Instance LaneRole_eq_dec : EqDecision LaneRole. Proof. solve_decision. Defined.

Definition LaneRole_ALL : list LaneRole := [Control; Video; AudioOutput; InputCursor; Microphone; BulkAux].

Definition role_wire (r : LaneRole) : Z :=
  match r with
  | Control => 1 | Video => 2 | AudioOutput => 3 | InputCursor => 4 | Microphone => 5 | BulkAux => 6
  end.

Definition role_from_wire (value : Z) : option LaneRole :=
  match value with
  | 1 => Some Control | 2 => Some Video | 3 => Some AudioOutput
  | 4 => Some InputCursor | 5 => Some Microphone | 6 => Some BulkAux
  | _ => None
  end.

Definition role_index (r : LaneRole) : Z := role_wire r - 1.

Definition role_token (r : LaneRole) : string :=
  match r with
  | Control => "control" | Video => "video" | AudioOutput => "audio_output"
  | InputCursor => "input_cursor" | Microphone => "microphone" | BulkAux => "bulk_aux"
  end.

Definition role_from_token (value : string) : option LaneRole :=
  head (filter (fun r => role_token r = value) LaneRole_ALL).

Definition shape (r : LaneRole) : LaneShape :=
  match r with
  | Control | InputCursor | BulkAux => Bidirectional
  | Video | AudioOutput | Microphone => Unidirectional
  end.

Definition opener (r : LaneRole) : LaneEndpoint :=
  match r with
  | Control | InputCursor | BulkAux | Microphone => Deck
  | Video | AudioOutput => Pier
  end.

Definition flow (r : LaneRole) : LaneFlow :=
  match r with
  | Control | InputCursor | BulkAux => Both
  | Video | AudioOutput => PierToDeck
  | Microphone => DeckToPier
  end.

Definition may_send (r : LaneRole) (sender : LaneEndpoint) : bool :=
  match flow r with
  | Both => true
  | PierToDeck => bool_decide (sender = Pier)
  | DeckToPier => bool_decide (sender = Deck)
  end.

Definition requires_attachment (r : LaneRole) : bool := negb (bool_decide (r = Control)).

Definition framing (r : LaneRole) : LaneFraming :=
  match r with
  | Control | InputCursor | BulkAux => SessionMessages
  | Video | AudioOutput | Microphone => LengthPrefixedMedia
  end.

Definition for_frame_type (t : FrameType) : LaneRole :=
  match t with
  | VideoFull | VideoPartial | VideoH264 | VideoH265 | VideoAv1
  | RegionVideoFull | RegionVideoH264 | RegionVideoH265 | RegionVideoAv1 => Video
  | FAudio => AudioOutput
  | AudioUpstream => Microphone
  | Clipboard | HidDeviceAdded | HidDeviceRemoved | HidReport
  | UsbBridgeUrbSubmit | UsbBridgeUrbCancel | UsbBridgeUrbComplete => BulkAux
  | CursorUpdate => InputCursor
  end.

(** ** Role sets: the mask of [u8] *)

Definition LaneRoleSet : Type := Z.
Definition EMPTY : LaneRoleSet := 0.

Definition role_bit (r : LaneRole) : Z := Z.shiftl 1 (role_index r).
Definition from_roles (roles : list LaneRole) : LaneRoleSet :=
  fold_left (fun bits r => Z.lor bits (role_bit r)) roles 0.
Definition all_roles : LaneRoleSet := from_roles LaneRole_ALL.
Definition contains (s : LaneRoleSet) (r : LaneRole) : bool := negb (Z.land s (role_bit r) =? 0).
Definition with_role (s : LaneRoleSet) (r : LaneRole) : LaneRoleSet := Z.lor s (role_bit r).
Definition iter (s : LaneRoleSet) : list LaneRole := filter (fun r => contains s r = true) LaneRole_ALL.

(** ** Attachment bindings *)

Inductive LaneContractError :=
| ZeroBinding | MalformedBinding | RandomUnavailable | ContractControlCarriesAttachment
| ZeroAttachmentGeneration | ContractUnsupportedVersion (version : Z) | ContractUnknownRole
| InvalidRoleList | WrongMessageType.

(** The bytes of a binding: sixteen, not all zero. *)
Definition LaneAttachmentBinding : Type := list Z.

Definition all_zero (bytes : list Z) : bool := forallb (fun b => b =? 0) bytes.

Definition LaneAttachmentBinding_new (bytes : list Z) : result LaneContractError LaneAttachmentBinding :=
  if all_zero bytes then Err ZeroBinding else Ok bytes.

(** [generate]: the operating system's random source fills the bytes or
    fails. *)
Definition generate (getrandom : option (list Z)) : result LaneContractError LaneAttachmentBinding :=
  bytes ← ok_or getrandom RandomUnavailable;
  LaneAttachmentBinding_new bytes.

(** [{byte:02x}]. *)
Definition hex_digit (d : Z) : Z := if d <? 10 then 0x30 + d else 0x61 + (d - 10).
Definition to_hex (binding : LaneAttachmentBinding) : list Z :=
  flat_map (fun byte => [hex_digit (byte / 16); hex_digit (byte mod 16)]) binding.

Definition hex_value (digit : Z) : option Z :=
  if (0x30 <=? digit) && (digit <=? 0x39) then Some (digit - 0x30)
  else if (0x61 <=? digit) && (digit <=? 0x66) then Some (digit - 0x61 + 10)
  else None.

(** The loop over [chunks_exact(2)]. *)
Fixpoint hex_pairs (digits : list Z) : result LaneContractError (list Z) :=
  match digits with
  | d0 :: d1 :: rest =>
    high ← ok_or (hex_value d0) MalformedBinding;
    low ← ok_or (hex_value d1) MalformedBinding;
    bytes ← hex_pairs rest;
    Ok (Z.lor (Z.shiftl high 4) low :: bytes)
  | _ => Ok []
  end.

Definition from_hex (digits : list Z) : result LaneContractError LaneAttachmentBinding :=
  _ ← guard_err (negb (len digits =? LANE_ATTACHMENT_BINDING_BYTES * 2)) MalformedBinding;
  bytes ← hex_pairs digits;
  LaneAttachmentBinding_new bytes.

Record LaneAttachment := mkAttachment {
  generation : Z;
  binding : LaneAttachmentBinding
}.
#[global] Instance LaneAttachment_eq_dec : EqDecision LaneAttachment. Proof. solve_decision. Defined.

(** ** Prefaces *)

Record LanePreface := mkPreface {
  role : LaneRole;
  attachment : option LaneAttachment;
  lane_generation : Z
}.
#[global] Instance LanePreface_eq_dec : EqDecision LanePreface. Proof. solve_decision. Defined.

Definition control_preface (lane_gen : Z) : LanePreface := mkPreface Control None lane_gen.

Definition bound_preface (r : LaneRole) (a : LaneAttachment) (lane_gen : Z) : result LaneContractError LanePreface :=
  if negb (requires_attachment r) then Err ContractControlCarriesAttachment
  else Ok (mkPreface r (Some a) lane_gen).

Inductive LanePrefaceError :=
| Truncated | TrailingBytes | BadMagic | LegacyDirectStream
| UnsupportedVersion (received supported : Z)
| UnknownRole (value : Z) | ReservedFlags (flags : Z)
| ZeroLaneGeneration | MissingAttachment | ControlCarriesAttachment.

Definition encode_preface (p : LanePreface) : list Z :=
  let '(gen, bind) :=
    match attachment p with
    | Some a => (generation a, binding a)
    | None => (0, replicate (Z.to_nat LANE_ATTACHMENT_BINDING_BYTES) 0)
    end in
  LANE_PREFACE_MAGIC ++ to_be 2 LANE_PROTOCOL_VERSION ++ [role_wire (role p); 0]
  ++ to_be 8 gen ++ to_be 4 (lane_generation p) ++ bind.

Definition check_header (header : list Z) : result LanePrefaceError unit :=
  if negb (bool_decide (slice header 0 4 = LANE_PREFACE_MAGIC)) then
    if bool_decide (slice LEGACY_DIRECT_STREAM_PREFACE 0 (len header) = header) then Err LegacyDirectStream
    else Err BadMagic
  else
    let version := from_be [byte_at header 4; byte_at header 5] in
    if negb (version =? LANE_PROTOCOL_VERSION) then Err (UnsupportedVersion version LANE_PROTOCOL_VERSION)
    else Ok tt.

(** [NonZeroU32::new], [NonZeroU64::new]. *)
Definition nonzero (z : Z) : option Z := if z =? 0 then None else Some z.

Definition decode_preface (bytes : list Z) : result LanePrefaceError LanePreface :=
  _ ← guard_err (len bytes <? LANE_PREFACE_HEADER_BYTES) Truncated;
  _ ← check_header (slice bytes 0 LANE_PREFACE_HEADER_BYTES);
  _ ← guard_err (len bytes <? LANE_PREFACE_BYTES) Truncated;
  _ ← guard_err (LANE_PREFACE_BYTES <? len bytes) TrailingBytes;
  r ← ok_or (role_from_wire (byte_at bytes 6)) (UnknownRole (byte_at bytes 6));
  _ ← guard_err (negb (byte_at bytes 7 =? 0)) (ReservedFlags (byte_at bytes 7));
  let gen := from_be (slice bytes 8 16) in
  lane_gen ← ok_or (nonzero (from_be (slice bytes 16 20))) ZeroLaneGeneration;
  let bind := slice_from bytes 20 in
  if requires_attachment r then
    gen ← ok_or (nonzero gen) MissingAttachment;
    bind ← match LaneAttachmentBinding_new bind with Ok b => Ok b | Err _ => Err MissingAttachment end;
    Ok (mkPreface r (Some (mkAttachment gen bind)) lane_gen)
  else
    _ ← guard_err (negb (gen =? 0) || negb (all_zero bind)) ControlCarriesAttachment;
    Ok (control_preface lane_gen).

(** ** A peer that speaks another transport *)

Inductive PeerTransportMismatch := PeerPredatesLanes | LaneVersion (received : Z).

Definition version_mismatch (e : LanePrefaceError) : option PeerTransportMismatch :=
  match e with
  | LegacyDirectStream => Some PeerPredatesLanes
  | UnsupportedVersion received _ => Some (LaneVersion received)
  | _ => None
  end.

(** [split_once(c)], its first half. *)
Fixpoint before_char (c : Z) (s : list Z) : option (list Z) :=
  match s with
  | [] => None
  | b :: rest => if b =? c then Some [] else cons b <$> before_char c rest
  end.

Definition parse_u16 (s : list Z) : option Z := parse_unsigned 16 s.

Definition from_peer_close (code : Z) (reason : list Z) : option PeerTransportMismatch :=
  if code =? LANE_VERSION_MISMATCH_CLOSE_CODE then
    let received :=
      reason ← (if from_utf8 reason then Some reason else None);
      rest ← strip_prefix (string_bytes "arcen-lanes v") reason;
      version ← before_char 0x3A rest;
      parse_u16 version in
    Some (LaneVersion (default 0 received))
  else if (code =? 0) && bool_decide (reason = LEGACY_PIER_PREFACE_CLOSE_REASON) then Some PeerPredatesLanes
  else None.

Definition mismatch_close_reason (version : Z) : list Z :=
  string_bytes "arcen-lanes v" ++ decimal version
  ++ string_bytes ": incompatible transport; update the Deck and the Pier to the same release".
Definition lane_mismatch_close_reason : list Z := mismatch_close_reason LANE_PROTOCOL_VERSION.

Definition legacy_deck_refusal_reason : list Z :=
  string_bytes "this Pier speaks lane protocol v" ++ decimal LANE_PROTOCOL_VERSION
  ++ string_bytes "; update the Deck to the same Arcen release as the Pier".

Definition legacy_direct_stream_refusal_frame : list Z :=
  let reason := legacy_deck_refusal_reason in
  let cut := floor_char_boundary reason (Nat.min (length reason) (Z.to_nat WEBSOCKET_CLOSE_REASON_MAX)) in
  let reason := take cut reason in
  [0x88; default 125 (try_unsigned 8 (2 + len reason))] ++ to_be 2 LEGACY_REFUSAL_WEBSOCKET_CODE ++ reason.

(** ** The attachment grant *)

Record LaneAttachmentMsg := mkAttachmentMsg {
  att_msg_type : string;
  lane_protocol_version : Z;
  attachment_generation : Z;
  att_binding : list Z;
  att_roles : list string
}.

Definition LaneAttachmentMsg_new (a : LaneAttachment) (roles : LaneRoleSet) : LaneAttachmentMsg :=
  mkAttachmentMsg LANE_ATTACHMENT_MSG_TYPE LANE_PROTOCOL_VERSION (generation a) (to_hex (binding a))
    (map role_token (filter (fun r => requires_attachment r = true) (iter roles))).

Fixpoint collect_roles (roles : LaneRoleSet) (tokens : list string) : result LaneContractError LaneRoleSet :=
  match tokens with
  | [] => Ok roles
  | token :: tokens =>
    r ← ok_or (role_from_token token) ContractUnknownRole;
    _ ← guard_err (negb (requires_attachment r) || contains roles r) InvalidRoleList;
    collect_roles (with_role roles r) tokens
  end.

Definition validate_attachment (m : LaneAttachmentMsg) : result LaneContractError (LaneAttachment * LaneRoleSet) :=
  _ ← guard_err (negb (bool_decide (att_msg_type m = LANE_ATTACHMENT_MSG_TYPE))) WrongMessageType;
  _ ← guard_err (negb (lane_protocol_version m =? LANE_PROTOCOL_VERSION))
        (ContractUnsupportedVersion (lane_protocol_version m));
  gen ← ok_or (nonzero (attachment_generation m)) ZeroAttachmentGeneration;
  bind ← from_hex (att_binding m);
  _ ← guard_err (LANE_ROLE_COUNT <=? len (att_roles m)) InvalidRoleList;
  roles ← collect_roles EMPTY (att_roles m);
  Ok (mkAttachment gen bind, roles).

(** ** Session records *)

Inductive SessionRecordKind := KText | KBinary | KClose | KPing | KPong.

Definition kind_wire (k : SessionRecordKind) : Z :=
  match k with KText => 1 | KBinary => 2 | KClose => 3 | KPing => 4 | KPong => 5 end.

Definition kind_from_wire (value : Z) : option SessionRecordKind :=
  match value with
  | 1 => Some KText | 2 => Some KBinary | 3 => Some KClose | 4 => Some KPing | 5 => Some KPong
  | _ => None
  end.

Record SessionClose := mkClose { close_code : Z; close_reason : list Z }.

Inductive SessionRecord :=
| Text (text : list Z)
| Binary (bytes : list Z)
| Close (close : option SessionClose)
| Ping (bytes : list Z)
| Pong (bytes : list Z).

Inductive SessionRecordError := Empty | UnknownKind (kind : Z) | InvalidUtf8 | MalformedClose.

Definition kind (r : SessionRecord) : SessionRecordKind :=
  match r with Text _ => KText | Binary _ => KBinary | Close _ => KClose | Ping _ => KPing | Pong _ => KPong end.

(** [while reason.len() > MAX { end = MAX; ...; reason = &reason[..end] }]. *)
Definition cut_reason (reason : list Z) : option (list Z) :=
  while_fuel 2 (fun reason => MAX_SESSION_CLOSE_REASON_BYTES <? len reason)
    (fun reason => take (floor_char_boundary reason (Z.to_nat MAX_SESSION_CLOSE_REASON_BYTES)) reason) reason.

Definition record_payload (r : SessionRecord) : option (list Z) :=
  match r with
  | Text bytes | Binary bytes | Ping bytes | Pong bytes => Some bytes
  | Close None => Some []
  | Close (Some c) => reason ← cut_reason (close_reason c); Some (to_be 2 (close_code c) ++ reason)
  end.

(** [encode]; [None] when the cutting loop has not ended within its fuel,
    which [encode_record_total] excludes. *)
Definition encode_record (r : SessionRecord) : option (list Z) :=
  payload ← record_payload r;
  let body_len := default (umax 32) (try_unsigned 32 (saturating_add usize_bits (len payload) 1)) in
  Some (to_be 4 body_len ++ kind_wire (kind r) :: payload).

Definition decode_body (body : list Z) : result SessionRecordError SessionRecord :=
  match body with
  | [] => Err Empty
  | k :: payload =>
    kind ← ok_or (kind_from_wire k) (UnknownKind k);
    match kind with
    | KText => if from_utf8 payload then Ok (Text payload) else Err InvalidUtf8
    | KBinary => Ok (Binary payload)
    | KPing => Ok (Ping payload)
    | KPong => Ok (Pong payload)
    | KClose =>
      match payload with
      | [] => Ok (Close None)
      | [_] => Err MalformedClose
      | high :: low :: reason =>
        if MAX_SESSION_CLOSE_REASON_BYTES <? len reason then Err MalformedClose
        else if from_utf8 reason then Ok (Close (Some (mkClose (from_be [high; low]) reason)))
        else Err InvalidUtf8
      end
    end
  end.

(** ** The lane of a session message *)

Definition INPUT_CURSOR_MESSAGE_TYPES : list string :=
  ["key_event"; "key_reset_modifiers"; "text_commit"; "mouse_move"; "mouse_move_relative"; "mouse_button";
   "mouse_scroll"; "pen_event"; "gesture_magnify"; "gesture_rotate"; "gesture_smart_zoom"; "gesture_swipe";
   "region_pointer_motion"; "region_pointer_button"; "region_pointer_scroll"; "region_pointer_enter";
   "region_pointer_leave"; "region_pen_event"; "cursor_shape"; "text_commit_result"; "host_keymap"].
Definition CLIPBOARD_DATA : string := "clipboard_data".
Definition BULK_AUX_MESSAGE_TYPES : list string := [CLIPBOARD_DATA].

Definition lane_for_message_type (msg_type : string) : LaneRole :=
  if bool_decide (msg_type ∈ INPUT_CURSOR_MESSAGE_TYPES) then InputCursor
  else if bool_decide (msg_type ∈ BULK_AUX_MESSAGE_TYPES) then BulkAux
  else Control.

Definition lane_for_binary_message (bytes : list Z) : option LaneRole :=
  match bytes with
  | [] => None
  | first :: _ => match FrameType_try_from first with Ok t => Some (for_frame_type t) | Err _ => None end
  end.

Section Json.
(** serde_json: the ["type"] member of a JSON object when the text is one and
    the member is a string, and the sequence of a [clipboard_data] offer. *)
Variable json_type : list Z -> option string.
Variable json_offer : list Z -> option (string * Z).

Definition lane_for_session_text (text : list Z) : LaneRole :=
  match json_type text with Some msg_type => lane_for_message_type msg_type | None => Control end.

Definition lane (r : SessionRecord) : LaneRole :=
  match r with
  | Text text => lane_for_session_text text
  | Binary bytes => default Control (lane_for_binary_message bytes)
  | Close _ | Ping _ | Pong _ => Control
  end.

Definition clipboard_transfer_sequence (r : SessionRecord) : option Z :=
  match r with
  | Text text =>
    offer ← json_offer text;
    if bool_decide (fst offer = CLIPBOARD_DATA) then Some (snd offer) else None
  | Binary bytes =>
    match decode_clipboard_chunk bytes with Ok (header, _) => Some (chunk_sequence header) | Err _ => None end
  | _ => None
  end.
End Json.

(** ** Roles and sets *)

Lemma role_wire_roundtrip r : role_from_wire (role_wire r) = Some r.
Proof. by destruct r. Qed.

Lemma role_from_wire_Some v r : role_from_wire v = Some r -> v = role_wire r.
Proof.
  unfold role_from_wire. destruct v as [|p|p]; [done| |done].
  do 3 (try destruct p as [p|p|]; try done); intros [= <-]; done.
Qed.

Lemma role_token_roundtrip r : role_from_token (role_token r) = Some r.
Proof. by destruct r. Qed.

Lemma role_from_token_Some t r : role_from_token t = Some r -> t = role_token r.
Proof.
  unfold role_from_token. intros H%head_Some_elem_of. apply list_elem_of_filter in H as [<- _]. done.
Qed.

Lemma role_token_inj : Inj (=) (=) role_token.
Proof. intros r1 r2 E. apply Some_inj. by rewrite <- !role_token_roundtrip, E. Qed.

Lemma role_wire_range r : 1 <= role_wire r <= 6.
Proof. destruct r; cbn; lia. Qed.

Lemma role_index_range r : 0 <= role_index r < LANE_ROLE_COUNT.
Proof. unfold role_index, LANE_ROLE_COUNT. pose proof (role_wire_range r). lia. Qed.

Lemma role_index_inj r1 r2 : role_index r1 = role_index r2 -> r1 = r2.
Proof. by destruct r1, r2. Qed.

Lemma contains_testbit s r : contains s r = Z.testbit s (role_index r).
Proof.
  unfold contains, role_bit. pose proof (role_index_range r) as [Hi _].
  rewrite Z.shiftl_1_l. 
  destruct (Z.testbit s (role_index r)) eqn:E.
  - apply negb_true_iff, Z.eqb_neq. intros H.
    assert (Z.testbit (Z.land s (2 ^ role_index r)) (role_index r) = true) as H1.
    { by rewrite Z.land_spec, E, Z.pow2_bits_true by done. }
    rewrite H, Z.bits_0 in H1. done.
  - apply negb_false_iff, Z.eqb_eq. apply Z.bits_inj'. intros n Hn.
    rewrite Z.land_spec, Z.bits_0, Z.pow2_bits_eqb by done.
    destruct (Z.eqb_spec (role_index r) n) as [<-|]; [by rewrite E|by rewrite andb_false_r].
Qed.

Lemma contains_with s r r' : contains (with_role s r) r' = bool_decide (r = r') || contains s r'.
Proof.
  rewrite !contains_testbit. unfold with_role, role_bit.
  rewrite Z.lor_spec, Z.shiftl_1_l, Z.pow2_bits_eqb by apply role_index_range.
  rewrite orb_comm. f_equal. case_bool_decide as E; [subst; apply Z.eqb_refl|].
  apply Z.eqb_neq. intros H. by apply role_index_inj in H.
Qed.

Lemma elem_of_ALL r : r ∈ LaneRole_ALL.
Proof. destruct r; unfold LaneRole_ALL; set_solver. Qed.

Lemma elem_of_iter s r : r ∈ iter s <-> contains s r = true.
Proof. unfold iter. rewrite list_elem_of_filter. pose proof (elem_of_ALL r). tauto. Qed.

Lemma ALL_NoDup : NoDup LaneRole_ALL.
Proof. apply (bool_decide_unpack _). by vm_compute. Qed.

(** ** Bindings *)

Definition binding_ok (b : LaneAttachmentBinding) : Prop :=
  length b = 16%nat /\ Forall is_u8 b /\ all_zero b = false.

Definition attachment_ok (a : LaneAttachment) : Prop :=
  generation a <> 0 /\ in_width 64 (generation a) /\ binding_ok (binding a).

Lemma binding_new_Ok bytes b : LaneAttachmentBinding_new bytes = Ok b <-> b = bytes /\ all_zero bytes = false.
Proof. unfold LaneAttachmentBinding_new. destruct (all_zero bytes); naive_solver. Qed.

Lemma nonzero_Some z z' : nonzero z = Some z' <-> z' = z /\ z <> 0.
Proof. unfold nonzero. destruct (Z.eqb_spec z 0); naive_solver. Qed.

Lemma hex_value_digit d : 0 <= d < 16 -> hex_value (hex_digit d) = Some d.
Proof.
  intros Hd. unfold hex_value, hex_digit.
  destruct (Z.ltb_spec d 10).
  - destruct (Z.leb_spec 0x30 (0x30 + d)), (Z.leb_spec (0x30 + d) 0x39); try lia. cbn. f_equal. lia.
  - destruct (Z.leb_spec (0x61 + (d - 10)) 0x39); [lia|]. rewrite andb_false_r.
    destruct (Z.leb_spec 0x61 (0x61 + (d - 10))), (Z.leb_spec (0x61 + (d - 10)) 0x66); try lia. cbn. f_equal. lia.
Qed.

Lemma hex_value_Some c d : hex_value c = Some d -> 0 <= d < 16 /\ c = hex_digit d.
Proof.
  unfold hex_value, hex_digit. intros H.
  destruct ((0x30 <=? c) && (c <=? 0x39)) eqn:E1; [|destruct ((0x61 <=? c) && (c <=? 0x66)) eqn:E2; [|done]];
    injection H as <-; boolify; split; try lia.
  - destruct (Z.ltb_spec (c - 0x30) 10); lia.
  - destruct (Z.ltb_spec (c - 0x61 + 10) 10); lia.
Qed.

Lemma nibbles high low : 0 <= high < 16 -> 0 <= low < 16 ->
  let b := Z.lor (Z.shiftl high 4) low in is_u8 b /\ b / 16 = high /\ b mod 16 = low.
Proof.
  intros Hh Hl b.
  assert (b = high * 16 + low) as ->.
  { unfold b. rewrite Z.shiftl_mul_pow2 by lia. pose proof (Z.add_lor_land (high * 2 ^ 4) low) as Hs.
    assert (Z.land (high * 2 ^ 4) low = 0) as Hz; [|lia].
    apply Z.bits_inj'. intros n Hn. rewrite Z.land_spec, Z.bits_0.
    destruct (Z.ltb_spec n 4).
    - by rewrite Z.mul_pow2_bits_low.
    - rewrite (Z.bits_above_log2 low n); [by rewrite andb_false_r|lia|].
      destruct (decide (low = 0)) as [->|]; [cbn; lia|]. apply Z.log2_lt_pow2; [lia|].
      assert (2 ^ 4 <= 2 ^ n) by (apply Z.pow_le_mono_r; lia). lia. }
  unfold in_width. split_and!; Z.to_euclidean_division_equations; lia.
Qed.

Lemma nibbles_inv b : is_u8 b -> Z.lor (Z.shiftl (b / 16) 4) (b mod 16) = b.
Proof.
  unfold in_width. intros Hb.
  destruct (nibbles (b / 16) (b mod 16)) as (_ & H1 & H2); [Z.to_euclidean_division_equations; lia..|].
  rewrite (Z.div_mod (Z.lor _ _) 16), H1, H2 by lia. symmetry. apply Z.div_mod. lia.
Qed.

Lemma hex_pairs_to_hex b : Forall is_u8 b -> hex_pairs (to_hex b) = Ok b.
Proof.
  induction 1 as [|x b Hx Hb IH]; [done|]. cbn.
  assert (0 <= x / 16 < 16 /\ 0 <= x mod 16 < 16) as [??].
  { unfold in_width in Hx. Z.to_euclidean_division_equations; lia. }
  rewrite !hex_value_digit by done. cbn. fold (to_hex b). rewrite IH. cbn. by rewrite nibbles_inv.
Qed.

Lemma hex_pairs_Ok n digits b : length digits = (2 * n)%nat -> hex_pairs digits = Ok b ->
  length b = n /\ Forall is_u8 b /\ digits = to_hex b.
Proof.
  revert digits b. induction n as [|n IH]; intros digits b Hl H.
  { destruct digits; [|done]. by injection H as <-. }
  destruct digits as [|d0 [|d1 rest]]; [cbn in Hl; lia..|]. cbn in H. inv_ok.
  edestruct (IH rest) as (<- & Hb & ->); [cbn in Hl; lia|eassumption|].
  match goal with H0 : hex_value d0 = Some ?h, H1 : hex_value d1 = Some ?l |- _ =>
    destruct (hex_value_Some _ _ H0) as [Hh ->]; destruct (hex_value_Some _ _ H1) as [Hll ->];
    destruct (nibbles h l Hh Hll) as (Hu & Hd & Hm) end.
  split_and!; [done|by constructor|]. cbn. by rewrite Hd, Hm.
Qed.

Lemma to_hex_length b : length (to_hex b) = (2 * length b)%nat.
Proof. induction b as [|x b IH]; [done|]. cbn. fold (to_hex b). lia. Qed.

(** The binding text: exactly the lowercase hexadecimal of a binding. *)
Lemma from_hex_Ok digits b : from_hex digits = Ok b <-> binding_ok b /\ digits = to_hex b.
Proof.
  unfold from_hex, binding_ok. split.
  - intros H. inv_ok. boolify.
    match goal with H : LaneAttachmentBinding_new _ = Ok _ |- _ => apply binding_new_Ok in H as [-> Hz] end.
    match goal with H : hex_pairs _ = Ok ?x |- _ => destruct (hex_pairs_Ok 16 digits x) as (? & ? & ->) end;
      [unfold len, LANE_ATTACHMENT_BINDING_BYTES in *; lia|done|done].
  - intros ((Hl & Hb & Hz) & ->). unfold len. rewrite to_hex_length, Hl. cbn.
    rewrite hex_pairs_to_hex by done. cbn. by apply binding_new_Ok.
Qed.

(** ** Prefaces *)

Definition preface_ok (p : LanePreface) : Prop :=
  lane_generation p <> 0 /\ in_width 32 (lane_generation p) /\
  match attachment p with
  | None => role p = Control
  | Some a => role p <> Control /\ attachment_ok a
  end.

Lemma encode_preface_len p : preface_ok p -> len (encode_preface p) = LANE_PREFACE_BYTES.
Proof.
  intros (_ & _ & Ha). unfold encode_preface.
  assert (forall gen bind, len bind = 16 ->
    len (LANE_PREFACE_MAGIC ++ to_be 2 LANE_PROTOCOL_VERSION ++ [role_wire (role p); 0]
      ++ to_be 8 gen ++ to_be 4 (lane_generation p) ++ bind) = 36) as H.
  { intros gen bind Hb. rewrite !len_app, !len_to_be, !len_cons, len_nil, Hb. by vm_compute. }
  destruct (attachment p) as [a|]; apply H; [|done]. destruct Ha as (_ & _ & _ & Hl & _). unfold len. by rewrite Hl.
Qed.

Lemma requires_control : requires_attachment Control = false. Proof. done. Qed.
Lemma requires_other r : r <> Control -> requires_attachment r = true.
Proof. by destruct r. Qed.
Lemma requires_spec r : requires_attachment r = true <-> r <> Control.
Proof. by destruct r. Qed.

Lemma decode_encode_preface p : preface_ok p -> decode_preface (encode_preface p) = Ok p.
Proof.
  intros (Hz & Hw & Ha). destruct p as [r att lg]; cbn [role attachment lane_generation] in *.
  assert (forall gen bind, in_width 64 gen -> length bind = 16%nat ->
    decode_preface (LANE_PREFACE_MAGIC ++ to_be 2 LANE_PROTOCOL_VERSION ++ [role_wire r; 0]
      ++ to_be 8 gen ++ to_be 4 lg ++ bind) =
    if requires_attachment r then
      gen ← ok_or (nonzero gen) MissingAttachment;
      bind ← match LaneAttachmentBinding_new bind with Ok b => Ok b | Err _ => Err MissingAttachment end;
      Ok (mkPreface r (Some (mkAttachment gen bind)) lg)
    else
      _ ← guard_err (negb (gen =? 0) || negb (all_zero bind)) ControlCarriesAttachment;
      Ok (control_preface lg)) as Hdec.
  { intros gen bind Hg Hb. unfold decode_preface. explode bind.
    change (to_be 2 LANE_PROTOCOL_VERSION) with [0; 1].
    change LANE_PREFACE_MAGIC with [65; 82; 76; 78]. open_bytes. cbn [app].
    unfold check_header, LANE_PREFACE_HEADER_BYTES, LANE_PREFACE_BYTES, LANE_ATTACHMENT_BINDING_BYTES. cbn [Z.add].
    compute_reads. check_len. cbn -[from_be role_from_wire nonzero LaneAttachmentBinding_new all_zero].
    rewrite role_wire_roundtrip. cbn -[from_be nonzero LaneAttachmentBinding_new all_zero].
    close_bytes. assert (nonzero lg = Some lg) as -> by (apply nonzero_Some; done).
    cbn -[from_be nonzero LaneAttachmentBinding_new all_zero]. by close_bytes. }
  unfold encode_preface. cbn [role attachment lane_generation]. destruct att as [a|].
  - destruct a as [gen bind]. destruct Ha as (Hr & Hg & Hgw & Hbl & Hbu & Hbz). cbn [generation binding] in *.
    rewrite Hdec by done. rewrite (requires_other r) by done.
    assert (nonzero gen = Some gen) as -> by (apply nonzero_Some; done). cbn [ok_or mbind result_bind].
    assert (LaneAttachmentBinding_new bind = Ok bind) as -> by (apply binding_new_Ok; done). done.
  - subst r. rewrite Hdec by done. done.
Qed.

Lemma all_zero_spec b : all_zero b = true <-> b = replicate (length b) 0.
Proof.
  unfold all_zero. rewrite forallb_forall. split.
  - intros H. symmetry. apply replicate_as_elem_of. split; [done|]. intros x Hx. apply Z.eqb_eq, H. by apply list_elem_of_In.
  - intros -> x Hx. apply list_elem_of_In, elem_of_replicate in Hx as [-> _]. done.
Qed.

Lemma check_header_Ok h : length h = 6%nat -> Forall is_u8 h -> check_header h = Ok tt ->
  h = [65; 82; 76; 78; 0; 1].
Proof.
  intros Hl Hb H. explode h. byte_facts. revert H. unfold check_header. compute_reads.
  case_bool_decide as Em; cbn [negb]; [|by case_bool_decide].
  destruct (from_be [b3; b4] =? LANE_PROTOCOL_VERSION) eqn:Ev; cbn [negb]; [|done]. intros _.
  apply Z.eqb_eq in Ev. injection Em as -> -> -> ->.
  assert ([b3; b4] = to_be 2 1) as E2.
  { rewrite <- (to_be_from_be 2 [b3; b4]) by (done || solve_bytes). by rewrite Ev. }
  by injection E2 as -> ->.
Qed.

Lemma decode_preface_canonical bs p : Forall is_u8 bs -> decode_preface bs = Ok p ->
  preface_ok p /\ bs = encode_preface p.
Proof.
  intros Hb H. unfold decode_preface, LANE_PREFACE_BYTES, LANE_PREFACE_HEADER_BYTES, LANE_ATTACHMENT_BINDING_BYTES in H.
  change (4 + 2 + 1 + 1 + 8 + 4 + 16) with 36 in H. change (4 + 2) with 6 in H. inv_ok.
  repeat match goal with x : unit |- _ => destruct x end.
  match goal with H : check_header _ = _ |- _ => apply check_header_Ok in H; [rename H into Hh| |] end;
    [|unfold slice; rewrite length_take, drop_0; boolify; unfold len in *; lia|by apply Forall_take].
  unfold slice in Hh. rewrite drop_0 in Hh. change (Z.to_nat (6 - 0)) with 6%nat in Hh.
  pose proof (take_drop 6 bs) as Ebs. rewrite Hh in Ebs.
  remember (drop 6 bs) as rest eqn:Er. clear Er Hh. subst bs.
  apply Forall_app in Hb as [_ Hb]. boolify. cbn [app] in *.
  rewrite ?len_cons in *.
  explode_prefix rest 14%nat. byte_facts.
  match goal with H : Forall is_u8 ?l |- _ => rename l into bind, H into Hbu end.
  assert (length bind = 16%nat) as Hbl by (unfold len in *; cbn [length] in *; lia).
  match goal with H1 : role_from_wire _ = _, H2 : byte_at _ 7 = 0, H3 : nonzero _ = _, H4 : (if _ then _ else _) = _ |- _ =>
    revert H1 H2 H3 H4 end.
  compute_reads. intros Hr -> [-> Hlz]%nonzero_Some Hatt. apply role_from_wire_Some in Hr as ->.
  unfold preface_ok, encode_preface.
  destruct (requires_attachment _) eqn:Ereq.
  - inv_ok. match goal with H : nonzero _ = Some _ |- _ => apply nonzero_Some in H as [-> Hgz] end.
    destruct (LaneAttachmentBinding_new bind) eqn:Ebind; [|done]. inv_ok.
    apply binding_new_Ok in Ebind as [-> Hbz]. cbn [role attachment lane_generation generation binding].
    apply requires_spec in Ereq. unfold attachment_ok, binding_ok. cbn [generation binding].
    split; [split_and!; try done; solve_width|]. by rewrite !to_be_from_be by (done || solve_bytes).
  - inv_ok. boolify. cbn [control_preface role attachment lane_generation].
    match goal with H : all_zero bind = true |- _ => apply all_zero_spec in H as -> end. rewrite Hbl in *.
    assert (x3 = Control) as -> by (destruct x3; done).
    split; [split_and!; try done; solve_width|].
    match goal with H : from_be ?l = 0 |- _ => assert (l = to_be 8 0) as Eg
      by (rewrite <- H; symmetry; apply to_be_from_be; [done|solve_bytes]) end.
    injection Eg as -> -> -> -> -> -> -> ->.
    by rewrite !to_be_from_be by (done || solve_bytes).
Qed.


(** ** Grants *)

Definition add_roles (s : LaneRoleSet) (roles : list LaneRole) : LaneRoleSet := fold_left with_role roles s.

Lemma collect_roles_Ok tokens s s' : collect_roles s tokens = Ok s' <->
  exists roles, tokens = map role_token roles /\ NoDup roles /\ (Control ∉ roles) /\
    (forall r, r ∈ roles -> contains s r = false) /\ s' = add_roles s roles.
Proof.
  revert s. induction tokens as [|t tokens IH]; intros s; cbn [collect_roles].
  - split.
    + intros [= <-]. exists []. split_and!; [done|constructor|apply not_elem_of_nil|by intros r ?%not_elem_of_nil|done].
    + intros ([|] & E & _ & _ & _ & ->); done.
  - split.
    + intros H. inv_ok. boolify. match goal with H : collect_roles _ _ = _ |- _ => apply IH in H as (roles & -> & Hnd & Hc & Hf & ->) end.
      match goal with H : role_from_token _ = Some ?x |- _ => apply role_from_token_Some in H as ->; rename x into r end.
      match goal with H : requires_attachment _ = true |- _ => apply requires_spec in H end.
      exists (r :: roles). split_and!; [done| | | |done].
      * constructor; [|done]. intros Hin. specialize (Hf r Hin). rewrite contains_with in Hf.
        by rewrite bool_decide_eq_true_2 in Hf.
      * set_solver.
      * intros r' [->|Hr']%elem_of_cons; [done|]. specialize (Hf r' Hr'). rewrite contains_with in Hf. by boolify.
    + intros ([|r roles] & E & Hnd & Hc & Hf & ->); [done|]. injection E as -> ->.
      apply NoDup_cons in Hnd as [Hr Hnd]. rewrite role_token_roundtrip. cbn [ok_or mbind result_bind].
      rewrite (requires_other r) by set_solver. rewrite (Hf r) by set_solver. cbn [negb orb guard_err mbind result_bind].
      apply IH. exists roles. split_and!; [done..|set_solver| |done].
      intros r' Hr'. rewrite contains_with, (Hf r') by set_solver. rewrite bool_decide_eq_false_2; [done|set_solver].
Qed.

Lemma no_control_short roles : NoDup roles -> Control ∉ roles -> (length roles <= 5)%nat.
Proof.
  intros Hnd Hc. change 5%nat with (length [Video; AudioOutput; InputCursor; Microphone; BulkAux]).
  apply submseteq_length, NoDup_submseteq; [done|]. intros r Hr. destruct r; set_solver.
Qed.

(** What a valid grant says: the attachment and distinct roles, control not
    among them. *)
Definition grant_of (m : LaneAttachmentMsg) (a : LaneAttachment) (roles : list LaneRole) : Prop :=
  NoDup roles /\ (Control ∉ roles) /\
  m = mkAttachmentMsg LANE_ATTACHMENT_MSG_TYPE LANE_PROTOCOL_VERSION (generation a) (to_hex (binding a))
        (map role_token roles).

Lemma validate_attachment_Ok m a s : in_width 64 (attachment_generation m) ->
  validate_attachment m = Ok (a, s) <->
  attachment_ok a /\ exists roles, grant_of m a roles /\ s = add_roles EMPTY roles.
Proof.
  intros Hw. destruct m as [ty v gen bind tokens]. cbn [attachment_generation] in Hw.
  unfold validate_attachment, attachment_ok, grant_of.
  cbn [att_msg_type lane_protocol_version attachment_generation att_binding att_roles]. split.
  - intros H. inv_ok. boolify.
    repeat match goal with
    | H : bool_decide _ = true |- _ => apply bool_decide_eq_true in H
    | H : nonzero _ = Some _ |- _ => apply nonzero_Some in H as [-> ?]
    | H : from_hex _ = Ok _ |- _ => apply from_hex_Ok in H as [? ->]
    | H : collect_roles _ _ = Ok _ |- _ => apply collect_roles_Ok in H as (roles & -> & ? & ? & ? & ->)
    end. subst. cbn [generation binding]. split; [done|]. exists roles. done.
  - intros ((Hz & Hg & Hb) & roles & (Hnd & Hc & E) & ->). injection E as -> -> -> -> ->.
    rewrite bool_decide_eq_true_2 by done. cbn [negb guard_err mbind result_bind].
    rewrite (proj2 (nonzero_Some (generation a) _)) by done. rewrite (proj2 (from_hex_Ok _ (binding a))) by done.
    cbn [Z.eqb Pos.eqb LANE_PROTOCOL_VERSION negb guard_err mbind result_bind ok_or].
    rewrite (proj2 (Z.leb_gt _ _)).
    2:{ pose proof (no_control_short _ Hnd Hc). unfold len, LANE_ROLE_COUNT. rewrite length_map. lia. }
    cbn [guard_err mbind result_bind].
    assert (collect_roles EMPTY (map role_token roles) = Ok (add_roles EMPTY roles)) as ->; [|by destruct a].
    apply collect_roles_Ok. exists roles. split_and!; done.
Qed.

Lemma contains_add s roles r : contains (add_roles s roles) r = contains s r || bool_decide (r ∈ roles).
Proof.
  unfold add_roles. revert s. induction roles as [|x roles IH]; intros s; cbn [fold_left].
  - by rewrite (bool_decide_eq_false_2 (r ∈ [])), orb_false_r by apply not_elem_of_nil.
  - rewrite IH, contains_with.
    rewrite (bool_decide_ext (r ∈ x :: roles) (x = r \/ r ∈ roles))
      by (rewrite elem_of_cons; split; intros [->|]; auto).
    rewrite bool_decide_or. destruct (bool_decide (x = r)), (contains s r), (bool_decide (r ∈ roles)); done.
Qed.

(** The grant a Pier builds is accepted. *)
Lemma grant_accepted a s : attachment_ok a ->
  exists s', validate_attachment (LaneAttachmentMsg_new a s) = Ok (a, s') /\
    forall r, contains s' r = contains s r && requires_attachment r.
Proof.
  intros Ha.
  set (roles := filter (fun r => requires_attachment r = true) (iter s)).
  assert (NoDup roles /\ Control ∉ roles) as [Hnd Hc].
  { split; [apply NoDup_filter, NoDup_filter, ALL_NoDup|]. intros [H _]%list_elem_of_filter. done. }
  exists (add_roles EMPTY roles). split.
  - apply validate_attachment_Ok; [apply Ha|]. split; [done|]. exists roles. done.
  - intros r. rewrite contains_add, contains_testbit, Z.bits_0. cbn [orb].
    apply eq_true_iff_eq. rewrite bool_decide_eq_true, andb_true_iff. unfold roles.
    rewrite list_elem_of_filter, elem_of_iter. tauto.
Qed.

(** The set a list of roles builds. *)
Lemma contains_from_roles roles r : contains (from_roles roles) r = bool_decide (r ∈ roles).
Proof.
  change (from_roles roles) with (add_roles EMPTY roles). rewrite contains_add.
  by rewrite contains_testbit, Z.bits_0.
Qed.

(** ** Session records *)

Definition session_close_ok (c : SessionClose) : Prop :=
  in_width 16 (close_code c) /\ Forall is_u8 (close_reason c) /\ from_utf8 (close_reason c) = true.

Definition record_ok (r : SessionRecord) : Prop :=
  match r with
  | Text t => Forall is_u8 t /\ from_utf8 t = true
  | Binary b | Ping b | Pong b => Forall is_u8 b
  | Close None => True
  | Close (Some c) => session_close_ok c
  end.

(** The text a close record carries: the reason, cut at a character boundary
    when it is longer than the bound. *)
Definition clip_reason (reason : list Z) : list Z :=
  if MAX_SESSION_CLOSE_REASON_BYTES <? len reason then
    take (floor_char_boundary reason (Z.to_nat MAX_SESSION_CLOSE_REASON_BYTES)) reason
  else reason.

Definition clip (r : SessionRecord) : SessionRecord :=
  match r with
  | Close (Some c) => Close (Some (mkClose (close_code c) (clip_reason (close_reason c))))
  | r => r
  end.

Lemma clip_reason_len reason : len (clip_reason reason) <= MAX_SESSION_CLOSE_REASON_BYTES.
Proof.
  unfold clip_reason. destruct (Z.ltb_spec MAX_SESSION_CLOSE_REASON_BYTES (len reason)); [|lia].
  unfold len at 1. rewrite length_take.
  pose proof (floor_le reason (Z.to_nat MAX_SESSION_CLOSE_REASON_BYTES)). unfold MAX_SESSION_CLOSE_REASON_BYTES in *. lia.
Qed.

Lemma clip_reason_id reason : len reason <= MAX_SESSION_CLOSE_REASON_BYTES -> clip_reason reason = reason.
Proof. intros H. unfold clip_reason. by rewrite (proj2 (Z.ltb_ge _ _) H). Qed.

Lemma clip_reason_utf8 reason : from_utf8 reason = true -> from_utf8 (clip_reason reason) = true.
Proof.
  intros H. unfold clip_reason. destruct (_ <? _); [|done]. apply utf8_take; [done|apply floor_boundary].
Qed.

(** The loop that cuts the reason ends after one pass. *)
Lemma cut_reason_Some reason : cut_reason reason = Some (clip_reason reason).
Proof.
  unfold cut_reason. cbn [while_fuel]. unfold clip_reason at 1.
  destruct (MAX_SESSION_CLOSE_REASON_BYTES <? len reason) eqn:E; [|done].
  pose proof (clip_reason_len reason) as H. unfold clip_reason in H. rewrite E in H.
  by rewrite (proj2 (Z.ltb_ge _ _) H).
Qed.

Lemma kind_wire_roundtrip k : kind_from_wire (kind_wire k) = Some k.
Proof. by destruct k. Qed.

Lemma kind_from_wire_Some v k : kind_from_wire v = Some k -> v = kind_wire k.
Proof.
  unfold kind_from_wire. destruct v as [|p|p]; [done| |done].
  do 3 (try destruct p as [p|p|]; try done); intros [= <-]; done.
Qed.

(** The payload a record has on the wire. *)
Definition payload_of (r : SessionRecord) : list Z :=
  match r with
  | Text b | Binary b | Ping b | Pong b => b
  | Close None => []
  | Close (Some c) => to_be 2 (close_code c) ++ clip_reason (close_reason c)
  end.

Lemma record_payload_Some r : record_payload r = Some (payload_of r).
Proof. destruct r as [| |[c|]| |]; try done. unfold record_payload. by rewrite cut_reason_Some. Qed.

(** A record whose body fits the length prefix is encoded with the body's
    exact length. *)
Lemma encode_record_body r : 1 + len (payload_of r) < 2 ^ 32 ->
  encode_record r = Some (to_be 4 (len (kind_wire (kind r) :: payload_of r)) ++ kind_wire (kind r) :: payload_of r).
Proof.
  intros Hl. unfold encode_record. rewrite record_payload_Some. cbn.
  unfold saturating_add. rewrite Z.min_l by (unfold umax, usize_bits; pow2; lia).
  rewrite (try_unsigned_in 32 (len (payload_of r) + 1)).
  2:{ pose proof (len_nonneg (payload_of r)). unfold in_width. lia. }
  by replace (len (kind_wire (kind r) :: payload_of r)) with (len (payload_of r) + 1) by (rewrite len_cons; lia).
Qed.

Lemma decode_payload r : record_ok r -> decode_body (kind_wire (kind r) :: payload_of r) = Ok (clip r).
Proof.
  intros Hr. unfold decode_body. rewrite kind_wire_roundtrip. cbn [ok_or mbind result_bind].
  destruct r as [t|b|[c|]|b|b]; cbn [kind payload_of clip record_ok] in *; try done.
  - destruct Hr as [_ ->]. done.
  - destruct Hr as (Hw & _ & Hu). open_bytes. cbn [app].
    pose proof (clip_reason_len (close_reason c)) as Hl. rewrite (proj2 (Z.ltb_ge _ _) Hl).
    rewrite clip_reason_utf8 by done. by close_bytes.
Qed.

Lemma decode_body_inv body r : Forall is_u8 body -> decode_body body = Ok r ->
  record_ok r /\ clip r = r /\ body = kind_wire (kind r) :: payload_of r.
Proof.
  intros Hb H. destruct body as [|k payload]; [done|]. cbn [decode_body] in H.
  apply Forall_cons in Hb as [Hk Hb]. inv_ok.
  match goal with H : kind_from_wire _ = Some _ |- _ => apply kind_from_wire_Some in H as -> end.
  destruct x; [destruct (from_utf8 payload) eqn:Eu; [|done]; inv_ok; done|inv_ok; done| |inv_ok; done..].
  destruct payload as [|high [|low reason]]; [inv_ok; done|done|].
  destruct (Z.ltb_spec MAX_SESSION_CLOSE_REASON_BYTES (len reason)); [done|].
  destruct (from_utf8 reason) eqn:Eu; [|done]. inv_ok. byte_facts.
  unfold record_ok, session_close_ok, clip, payload_of. cbn [close_code close_reason kind kind_wire].
  rewrite !clip_reason_id by done. split_and!; try done; [solve_width|].
  by rewrite to_be_from_be by (done || solve_bytes).
Qed.

(** ** The version a refusing peer names *)

Lemma before_char_app c l t : Forall (fun b => b <> c) l -> before_char c (l ++ c :: t) = Some l.
Proof.
  induction 1 as [|b l Hb Hl IH]; cbn; [by rewrite Z.eqb_refl|].
  rewrite (proj2 (Z.eqb_neq b c)) by done. by rewrite IH.
Qed.

Lemma ascii_utf8 l : Forall (fun b => b < 0x80) l -> from_utf8 l = true.
Proof. induction 1 as [|b l Hb Hl IH]; [done|]. cbn. by rewrite (proj2 (Z.ltb_lt b 128)). Qed.

Lemma mismatch_reason_read v : in_width 16 v ->
  from_peer_close LANE_VERSION_MISMATCH_CLOSE_CODE (mismatch_close_reason v) = Some (LaneVersion v).
Proof.
  intros Hv. unfold from_peer_close. rewrite Z.eqb_refl. unfold mismatch_close_reason.
  rewrite ascii_utf8.
  2:{ rewrite !Forall_app. split_and!; [|eapply Forall_impl; [apply decimal_digits|unfold is_digit; cbn; lia]|];
      apply (bool_decide_unpack _); by vm_compute. }
  cbn [mbind option_bind]. rewrite strip_prefix_app. cbn [mbind option_bind].
  change (string_bytes ": incompatible transport; update the Deck and the Pier to the same release")
    with (0x3A :: string_bytes " incompatible transport; update the Deck and the Pier to the same release").
  rewrite before_char_app by (eapply Forall_impl; [apply decimal_digits|unfold is_digit; cbn; lia]).
  cbn [mbind option_bind]. unfold parse_u16. by rewrite parse_decimal.
Qed.

(** ** Theorems *)

(** The preface codec is exact. A 36-byte record is decoded to a preface
    exactly when it is that preface's encoding and the preface is
    well-formed: a nonzero lane generation, no attachment on the control lane
    and a nonzero attachment with a nonzero binding on every other; nothing
    else, no flag, other version or other length, is decoded. *)
Theorem preface_codec_exact bs p : Forall is_u8 bs ->
  decode_preface bs = Ok p <-> preface_ok p /\ bs = encode_preface p.
Proof.
  intros Hb. split; [by apply decode_preface_canonical|]. intros [Hp ->]. by apply decode_encode_preface.
Qed.

Definition sample_binding : LaneAttachmentBinding := [7; 0; 0; 255; 1; 2; 3; 4; 5; 6; 7; 8; 9; 10; 11; 12].
Definition sample_attachment : LaneAttachment := mkAttachment 3 sample_binding.
Definition sample_preface : LanePreface := mkPreface Video (Some sample_attachment) 9.

Lemma sample_attachment_ok : attachment_ok sample_attachment.
Proof.
  unfold attachment_ok, binding_ok. split_and!; try done. apply (bool_decide_unpack _). by vm_compute.
Qed.

Lemma preface_codec_exact_witness :
  decode_preface (encode_preface sample_preface) = Ok sample_preface /\ len (encode_preface sample_preface) = 36.
Proof.
  split; [|by vm_compute]. apply (preface_codec_exact (encode_preface sample_preface) sample_preface).
  - apply (bool_decide_unpack _). by vm_compute.
  - split; [|done]. unfold preface_ok. split_and!; [done..|]. split; [done|exact sample_attachment_ok].
Defined.

(** The attachment grant is exact. A received grant is accepted exactly
    when it is, word for word, the grant of a well-formed attachment with
    distinct non-control roles (in any order), and it then yields that
    attachment and the set of those roles; the grant a Pier builds is
    accepted and yields its roles without control. *)
Theorem grant_exact m a s : in_width 64 (attachment_generation m) ->
  (validate_attachment m = Ok (a, s) <->
   attachment_ok a /\ exists roles, grant_of m a roles /\ s = from_roles roles) /\
  (attachment_ok a -> exists s', validate_attachment (LaneAttachmentMsg_new a s) = Ok (a, s') /\
     forall r, contains s' r = contains s r && requires_attachment r).
Proof.
  intros Hw. split; [by apply validate_attachment_Ok|]. apply grant_accepted.
Qed.

Lemma grant_exact_witness :
  validate_attachment (mkAttachmentMsg "lane_attachment" 1 3 (to_hex sample_binding) ["bulk_aux"; "video"])
    = Ok (sample_attachment, 34).
Proof.
  apply (grant_exact (mkAttachmentMsg "lane_attachment" 1 3 (to_hex sample_binding) ["bulk_aux"; "video"])
           sample_attachment 34); [done|].
  split; [exact sample_attachment_ok|]. exists [BulkAux; Video]. split; [|done].
  split_and!; [apply (bool_decide_unpack _); by vm_compute|set_solver|done].
Defined.

(** The session-record codec is exact. A record whose body fits the
    length prefix is written as the prefix of its exact length followed by a
    body that decodes to the record, its close reason cut at a character
    boundary to the bound and still valid text; and a body that decodes at
    all is the one its record is written with, so nothing is cut twice or
    read two ways. *)
Theorem session_record_exact r body :
  (record_ok r -> 1 + len (payload_of r) < 2 ^ 32 ->
   exists body', encode_record r = Some (to_be 4 (len body') ++ body') /\
     decode_body body' = Ok (clip r) /\ record_ok (clip r)) /\
  (Forall is_u8 body -> len body < 2 ^ 32 -> decode_body body = Ok r ->
   record_ok r /\ clip r = r /\ encode_record r = Some (to_be 4 (len body) ++ body)).
Proof.
  split.
  - intros Hr Hl. exists (kind_wire (kind r) :: payload_of r).
    split_and!; [by apply encode_record_body|by apply decode_payload|].
    destruct r as [| |[c|]| |]; try done. destruct Hr as (Hw & Hb & Hu). cbn. split_and!; [done| |].
    + cbn. unfold clip_reason. destruct (_ <? _); [by apply Forall_take|done].
    + by apply clip_reason_utf8.
  - intros Hb Hl H. destruct (decode_body_inv _ _ Hb H) as (Hr & Hc & ->).
    rewrite len_cons in Hl. split_and!; [done..|]. by apply encode_record_body.
Qed.

Lemma session_record_exact_witness :
  exists body, encode_record (Close (Some (mkClose 1000 (repeat 0x61 122 ++ [0xC3; 0xA9])))) =
                 Some (to_be 4 (len body) ++ body) /\
    decode_body body = Ok (Close (Some (mkClose 1000 (repeat 0x61 122)))).
Proof.
  destruct (session_record_exact (Close (Some (mkClose 1000 (repeat 0x61 122 ++ [0xC3; 0xA9])))) [])
    as [(body & He & Hd & _) _].
  - cbn [record_ok]. unfold session_close_ok. split_and!; [by vm_compute..| |by vm_compute].
    apply (bool_decide_unpack _). by vm_compute.
  - by vm_compute.
  - exists body. split; [exact He|exact Hd].
Defined.

(** A peer that closes with the version-mismatch code and the reason a
    build of version [v] writes is classified as speaking version [v], the
    message the operator then reads; every other close with that code is
    still a mismatch. *)
Theorem mismatch_names_version v code reason :
  (in_width 16 v ->
   from_peer_close LANE_VERSION_MISMATCH_CLOSE_CODE (mismatch_close_reason v) = Some (LaneVersion v)) /\
  (from_peer_close code reason = None <->
   code <> LANE_VERSION_MISMATCH_CLOSE_CODE /\ ~ (code = 0 /\ reason = LEGACY_PIER_PREFACE_CLOSE_REASON)).
Proof.
  split; [apply mismatch_reason_read|]. unfold from_peer_close.
  destruct (Z.eqb_spec code LANE_VERSION_MISMATCH_CLOSE_CODE); [naive_solver|].
  destruct (Z.eqb_spec code 0); cbn [andb]; [|naive_solver]. case_bool_decide; naive_solver.
Qed.

Lemma mismatch_names_version_witness :
  from_peer_close LANE_VERSION_MISMATCH_CLOSE_CODE (mismatch_close_reason 412) = Some (LaneVersion 412).
Proof. apply (mismatch_names_version 412 0 []). by vm_compute. Defined.

(** The refusal written to an older client is one unmasked close frame with a
    seven-bit length that covers the rest. *)
Lemma legacy_refusal_frame_shape :
  exists reason, legacy_direct_stream_refusal_frame = [0x88; 2 + len reason] ++ [3; 240] ++ reason /\
    2 + len reason <= 125 /\ from_utf8 reason = true /\ reason = legacy_deck_refusal_reason.
Proof. exists legacy_deck_refusal_reason. split_and!; by vm_compute. Qed.
