(* ===== verification/LaneRegistry.v ===== *)
(** * Transport: the per-attachment lane registry

    Models [shared/transport/src/lanes.rs]: the admission, ownership and
    failure semantics of the QUIC lanes of one attachment.  The array of
    slots indexed by [LaneRole::index] is a function of the role (the index
    is injective, [LaneWire.role_index_inj]).  A method that mutates [self]
    and may fail returns the new registry with its success: no failing path
    of the source has changed [self].  The constant-time comparison of the
    subtle crate is a parameter. *)

From stdpp Require Import functions.
From S2P Require Import Prelude ProtocolWire LaneWire.

Definition MAX_PENDING_LANES_PER_ROLE : Z := 1.
Definition LANE_RECOVERY_HEADROOM : Z := 1.

Definition endpoint_eq (l r : LaneEndpoint) : bool := bool_decide (l = r).
Definition shape_eq (l r : LaneShape) : bool := bool_decide (l = r).

Definition lanes_opened_by (op : LaneEndpoint) (sh : LaneShape) : Z :=
  fold_left (fun count r => if endpoint_eq (opener r) op && shape_eq (shape r) sh then count + 1 else count)
    LaneRole_ALL 0.

Definition with_headroom (count : Z) : Z := if count =? 0 then 0 else count + LANE_RECOVERY_HEADROOM.

Record LaneStreamLimits := mkLimits { max_concurrent_bidi_streams : Z; max_concurrent_uni_streams : Z }.

Definition granted_by (local : LaneEndpoint) : LaneStreamLimits :=
  let peer := peer local in
  mkLimits (with_headroom (lanes_opened_by peer Bidirectional)) (with_headroom (lanes_opened_by peer Unidirectional)).

Definition lane_send_priority (r : LaneRole) : Z :=
  match r with
  | InputCursor => 30 | Control => 20 | AudioOutput | Microphone => 10 | Video => 0 | BulkAux => -10
  end.

(** ** Policies and failures *)

Inductive LaneExhaustion := DisableVisibly | ExhaustEndAttachment.

Record LaneRecoveryPolicy := mkPolicy {
  max_consecutive_failures : Z;
  exhausted : LaneExhaustion;
  release_held_input : bool;
  requires_keyframe : bool
}.

Definition policy_for_role (r : LaneRole) : LaneRecoveryPolicy :=
  match r with
  | Control => mkPolicy 0 ExhaustEndAttachment true false
  | Video => mkPolicy 3 ExhaustEndAttachment false true
  | AudioOutput | Microphone => mkPolicy 3 DisableVisibly false false
  | InputCursor => mkPolicy 3 ExhaustEndAttachment true false
  | BulkAux => mkPolicy 2 DisableVisibly false false
  end.

Inductive LaneFailure := PeerReset | PeerFinished | WriteFailed | PartialFrame | Oversize | MalformedFrame.
#[global] Instance LaneFailure_eq_dec : EqDecision LaneFailure. Proof. solve_decision. Defined.

Definition requires_reset (f : LaneFailure) : bool :=
  match f with WriteFailed | PartialFrame | Oversize | MalformedFrame => true | PeerReset | PeerFinished => false end.

Inductive LaneDisableReason := RecoveryExhausted.
#[global] Instance LaneDisableReason_eq_dec : EqDecision LaneDisableReason. Proof. solve_decision. Defined.

Inductive LaneEndReason := ControlFailed | LaneExhausted (r : LaneRole) | Closed.
#[global] Instance LaneEndReason_eq_dec : EqDecision LaneEndReason. Proof. solve_decision. Defined.

Inductive LaneState :=
| Absent
| Open (generation : Z)
| Recovering (failed : Z) (failure : LaneFailure)
| Disabled (reason : LaneDisableReason).
#[global] Instance LaneState_eq_dec : EqDecision LaneState. Proof. solve_decision. Defined.

Record LaneSlot := mkSlot {
  state : LaneState;
  highest : option Z;
  consecutive_failures : Z;
  pending : option LanePreface
}.
#[global] Instance LaneSlot_eq_dec : EqDecision LaneSlot. Proof. solve_decision. Defined.

Definition LaneSlot_NEW : LaneSlot := mkSlot Absent None 0 None.

Inductive RegistryPhase :=
| AwaitingControl
| Unauthorized
| Authorized (attachment : LaneAttachment) (roles : LaneRoleSet)
| Ended (reason : LaneEndReason).

Inductive LaneRefusal :=
| AttachmentEnded
| ControlNotFirst (r : LaneRole)
| PreAuthorization (r : LaneRole)
| WrongShape (r : LaneRole) (expected : LaneShape)
| WrongDirection (r : LaneRole) (op : LaneEndpoint)
| RoleNotGranted (r : LaneRole)
| StaleAttachment (presented current : Z)
| AttachmentMismatch (r : LaneRole)
| DuplicateLane (r : LaneRole)
| StaleLaneGeneration (r : LaneRole) (presented highest : Z)
| LaneDisabled (r : LaneRole).
#[global] Instance LaneRefusal_eq_dec : EqDecision LaneRefusal. Proof. solve_decision. Defined.

Record SupersededLane := mkSuperseded {
  sup_generation : Z;
  sup_reset_stream : bool;
  sup_release_held_input : bool;
  sup_request_keyframe : bool
}.
#[global] Instance SupersededLane_eq_dec : EqDecision SupersededLane. Proof. solve_decision. Defined.

Definition superseded_for_role (r : LaneRole) (gen : Z) : SupersededLane :=
  let policy := policy_for_role r in
  mkSuperseded gen true (release_held_input policy) (requires_keyframe policy).

Record LaneAdmission := mkAdmission {
  adm_role : LaneRole;
  adm_lane_generation : Z;
  adm_attachment_generation : option Z;
  adm_superseded : option SupersededLane
}.
#[global] Instance LaneAdmission_eq_dec : EqDecision LaneAdmission. Proof. solve_decision. Defined.

Inductive PeerLaneAdmission :=
| LaneAdmitted (a : LaneAdmission)
| PendingAuthorization (r : LaneRole) (lane_generation : Z) (superseded : option SupersededLane).

Record PendingResolution := mkResolution {
  res_role : LaneRole;
  res_lane_generation : Z;
  res_outcome : result LaneRefusal LaneAdmission
}.

Inductive LaneRegistryError :=
| ControlNotOpen | AlreadyAuthorized | RegistryAttachmentEnded | NotLocalOpener (r : LaneRole).
#[global] Instance LaneRegistryError_eq_dec : EqDecision LaneRegistryError. Proof. solve_decision. Defined.

Inductive LaneUnavailable :=
| UnavailableWrongDirection (r : LaneRole)
| NotOpen (r : LaneRole) (s : LaneState)
| UnavailableAttachmentEnded.
#[global] Instance LaneUnavailable_eq_dec : EqDecision LaneUnavailable. Proof. solve_decision. Defined.

Inductive LaneRecoveryAction :=
| Superseded
| Reopen (r : LaneRole) (failed : Z) (reopened_by : LaneEndpoint)
    (reset_stream request_keyframe release_held : bool)
| Disable (r : LaneRole) (reset_stream : bool)
| EndAttachment (r : LaneRole) (reset_stream : bool) (reason : LaneEndReason).
#[global] Instance LaneRecoveryAction_eq_dec : EqDecision LaneRecoveryAction. Proof. solve_decision. Defined.

Inductive LaneOpenError := Registry (e : LaneRegistryError) | Refused (r : LaneRefusal).

Record LaneRegistry := mkRegistry {
  local : LaneEndpoint;
  phase : RegistryPhase;
  lanes : LaneRole -> LaneSlot
}.

Definition LaneRegistry_new (local : LaneEndpoint) : LaneRegistry :=
  mkRegistry local AwaitingControl (fun _ => LaneSlot_NEW).

Definition registry_attachment (g : LaneRegistry) : option LaneAttachment :=
  match phase g with Authorized a _ => Some a | _ => None end.

Definition ended (g : LaneRegistry) : option LaneEndReason :=
  match phase g with Ended reason => Some reason | _ => None end.

Definition lane_state (g : LaneRegistry) (r : LaneRole) : LaneState := state (lanes g r).

Definition set_phase (g : LaneRegistry) (p : RegistryPhase) : LaneRegistry := mkRegistry (local g) p (lanes g).
Definition set_slot (g : LaneRegistry) (r : LaneRole) (s : LaneSlot) : LaneRegistry :=
  mkRegistry (local g) (phase g) (<[r := s]> (lanes g)).

Definition is_ended (g : LaneRegistry) : bool := match phase g with Ended _ => true | _ => false end.

Definition unauthorized_refusal (g : LaneRegistry) (r : LaneRole) : LaneRefusal :=
  match phase g with
  | AwaitingControl => ControlNotFirst r
  | Ended _ => AttachmentEnded
  | Unauthorized | Authorized _ _ => PreAuthorization r
  end.

Definition next_generation (g : LaneRegistry) (r : LaneRole) : Z :=
  default 1 (highest ← highest (lanes g r); checked_add 32 highest 1).

(** The registry after a lane opened: the last assignments of [register]. *)
Definition with_open (g : LaneRegistry) (r : LaneRole) (gen : Z) : LaneRegistry :=
  let slot := lanes g r in
  let g' := set_slot g r (mkSlot (Open gen) (Some gen) (consecutive_failures slot) (pending slot)) in
  if negb (requires_attachment r) then set_phase g' Unauthorized else g'.

Section Compare.
(** [ConstantTimeEq::ct_eq] on the bytes of two bindings. *)
Variable ct_eq : list Z -> list Z -> bool.

(** The attachment generation a preface is admitted under. *)
Definition check_attachment (g : LaneRegistry) (r : LaneRole) (preface : LanePreface)
  : result LaneRefusal (option Z) :=
  if requires_attachment r then
    match phase g with
    | Authorized current roles =>
      _ ← guard_err (negb (contains roles r)) (RoleNotGranted r);
      presented ← ok_or (attachment preface) (AttachmentMismatch r);
      _ ← guard_err (generation presented <? generation current)
            (StaleAttachment (generation presented) (generation current));
      let binding_matches := ct_eq (binding presented) (binding current) in
      _ ← guard_err (negb (generation presented =? generation current) || negb binding_matches)
            (AttachmentMismatch r);
      Ok (Some (generation current))
    | _ => Err (unauthorized_refusal g r)
    end
  else
    match phase g with
    | AwaitingControl => Ok None
    | _ => Err (DuplicateLane r)
    end.

Definition register (g : LaneRegistry) (sh : LaneShape) (preface : LanePreface) (allow_supersede : bool)
  : result LaneRefusal (LaneAdmission * LaneRegistry) :=
  let r := role preface in
  _ ← guard_err (is_ended g) AttachmentEnded;
  _ ← guard_err (negb (shape_eq sh (shape r))) (WrongShape r (shape r));
  attachment_gen ← check_attachment g r preface;
  let presented := lane_generation preface in
  let slot := lanes g r in
  superseded ←
    match state slot with
    | Disabled _ => Err (LaneDisabled r)
    | Open open =>
      if negb allow_supersede || (presented =? open) then Err (DuplicateLane r)
      else Ok (Some (superseded_for_role r open))
    | Absent | Recovering _ _ => Ok None
    end;
  _ ← match highest slot with
      | Some highest => guard_err (presented <=? highest) (StaleLaneGeneration r presented highest)
      | None => Ok tt
      end;
  Ok (mkAdmission r presented attachment_gen superseded, with_open g r presented).

Definition open_local (g : LaneRegistry) (r : LaneRole) : result LaneOpenError (LanePreface * LaneRegistry) :=
  _ ← guard_err (negb (endpoint_eq (opener r) (local g))) (Registry (NotLocalOpener r));
  let gen := next_generation g r in
  preface ←
    (if requires_attachment r then
       match phase g with
       | Authorized a _ =>
         match bound_preface r a gen with
         | Ok p => Ok p
         | Err _ => Err (Refused (AttachmentMismatch r))
         end
       | _ => Err (Refused (unauthorized_refusal g r))
       end
     else Ok (control_preface gen));
  match register g (shape r) preface false with
  | Ok (_, g) => Ok (preface, g)
  | Err e => Err (Refused e)
  end.

Definition hold_pending (g : LaneRegistry) (sh : LaneShape) (preface : LanePreface)
  : result LaneRefusal (PeerLaneAdmission * LaneRegistry) :=
  let r := role preface in
  _ ← guard_err (negb (shape_eq sh (shape r))) (WrongShape r (shape r));
  let presented := lane_generation preface in
  let slot := lanes g r in
  superseded ←
    match pending slot with
    | Some held =>
      if presented <=? lane_generation held then
        Err (StaleLaneGeneration r presented (lane_generation held))
      else Ok (Some (superseded_for_role r (lane_generation held)))
    | None => Ok None
    end;
  Ok (PendingAuthorization r presented superseded,
      set_slot g r (mkSlot (state slot) (highest slot) (consecutive_failures slot) (Some preface))).

Definition is_unauthorized (g : LaneRegistry) : bool := match phase g with Unauthorized => true | _ => false end.

Definition admit_peer (g : LaneRegistry) (sh : LaneShape) (preface : LanePreface)
  : result LaneRefusal (PeerLaneAdmission * LaneRegistry) :=
  let r := role preface in
  _ ← guard_err (negb (endpoint_eq (opener r) (peer (local g)))) (WrongDirection r (opener r));
  if is_unauthorized g && endpoint_eq (local g) Deck && requires_attachment r then hold_pending g sh preface
  else '(a, g) ← register g sh preface true; Ok (LaneAdmitted a, g).

(** One role of [authorize]'s loop: the held lane is taken and registered. *)
Definition resolve_pending (st : LaneRegistry * list PendingResolution) (r : LaneRole)
  : LaneRegistry * list PendingResolution :=
  let '(g, resolutions) := st in
  let slot := lanes g r in
  match pending slot with
  | None => st
  | Some held =>
    let g := set_slot g r (mkSlot (state slot) (highest slot) (consecutive_failures slot) None) in
    match register g (shape r) held true with
    | Ok (a, g) => (g, resolutions ++ [mkResolution r (lane_generation held) (Ok a)])
    | Err e => (g, resolutions ++ [mkResolution r (lane_generation held) (Err e)])
    end
  end.

Definition authorize (g : LaneRegistry) (a : LaneAttachment) (roles : LaneRoleSet)
  : result LaneRegistryError (list PendingResolution * LaneRegistry) :=
  match phase g with
  | AwaitingControl => Err ControlNotOpen
  | Authorized _ _ => Err AlreadyAuthorized
  | Ended _ => Err RegistryAttachmentEnded
  | Unauthorized =>
    let g := set_phase g (Authorized a (with_role roles Control)) in
    let '(g, resolutions) := fold_left resolve_pending LaneRole_ALL (g, []) in
    Ok (resolutions, g)
  end.
End Compare.

Definition pending_generation (g : LaneRegistry) (r : LaneRole) : option Z := lane_generation <$> pending (lanes g r).

Definition drop_pending (g : LaneRegistry) : LaneRegistry :=
  mkRegistry (local g) (phase g)
    (fun r => let s := lanes g r in mkSlot (state s) (highest s) (consecutive_failures s) None).

Definition check_send (g : LaneRegistry) (r : LaneRole) : result LaneUnavailable Z :=
  if is_ended g then Err UnavailableAttachmentEnded
  else if negb (may_send r (local g)) then Err (UnavailableWrongDirection r)
  else match lane_state g r with
       | Open gen => Ok gen
       | s => Err (NotOpen r s)
       end.

Definition mark_healthy (g : LaneRegistry) (r : LaneRole) (gen : Z) : LaneRegistry :=
  let slot := lanes g r in
  if bool_decide (state slot = Open gen) then set_slot g r (mkSlot (state slot) (highest slot) 0 (pending slot))
  else g.

Definition report_failure (g : LaneRegistry) (r : LaneRole) (gen : Z) (failure : LaneFailure)
  : LaneRecoveryAction * LaneRegistry :=
  if is_ended g then (Superseded, g) else
  let policy := policy_for_role r in
  let reset_stream := requires_reset failure in
  let slot := lanes g r in
  if negb (bool_decide (state slot = Open gen)) then (Superseded, g) else
  let failures := saturating_add 8 (consecutive_failures slot) 1 in
  let with_state s := set_slot g r (mkSlot s (highest slot) failures (pending slot)) in
  if bool_decide (r = Control) then
    (EndAttachment r reset_stream ControlFailed,
     drop_pending (set_phase (with_state (Recovering gen failure)) (Ended ControlFailed)))
  else if max_consecutive_failures policy <? failures then
    match exhausted policy with
    | DisableVisibly => (Disable r reset_stream, with_state (Disabled RecoveryExhausted))
    | ExhaustEndAttachment =>
      (EndAttachment r reset_stream (LaneExhausted r),
       drop_pending (set_phase (with_state (Recovering gen failure)) (Ended (LaneExhausted r))))
    end
  else
    (Reopen r gen (opener r) reset_stream (requires_keyframe policy) (release_held_input policy),
     with_state (Recovering gen failure)).

Definition end_attachment (g : LaneRegistry) (reason : LaneEndReason) : LaneRegistry :=
  drop_pending (set_phase g (Ended reason)).

(** ** Runs *)

Inductive RegistryOp :=
| OpenLocal (r : LaneRole)
| AdmitPeer (sh : LaneShape) (preface : LanePreface)
| Authorize (a : LaneAttachment) (roles : LaneRoleSet)
| MarkHealthy (r : LaneRole) (gen : Z)
| ReportFailure (r : LaneRole) (gen : Z) (failure : LaneFailure)
| EndLanes (reason : LaneEndReason).

(** What the owner hands the registry is well-typed: prefaces are decoded and
    attachments are the ones of a grant. *)
Definition op_ok (op : RegistryOp) : Prop :=
  match op with
  | AdmitPeer _ p => preface_ok p
  | Authorize a _ => attachment_ok a
  | _ => True
  end.

Section Registry.
Context (ct_eq : list Z -> list Z -> bool).
Hypothesis ct_eq_spec : forall a b, length a = length b -> ct_eq a b = true <-> a = b.

Definition next_registry {E A} (g : LaneRegistry) (res : result E (A * LaneRegistry)) : LaneRegistry :=
  match res with Ok (_, g) => g | Err _ => g end.

Definition registry_step (g : LaneRegistry) (op : RegistryOp) : LaneRegistry :=
  match op with
  | OpenLocal r => next_registry g (open_local ct_eq g r)
  | AdmitPeer sh p => next_registry g (admit_peer ct_eq g sh p)
  | Authorize a roles => next_registry g (authorize ct_eq g a roles)
  | MarkHealthy r gen => mark_healthy g r gen
  | ReportFailure r gen f => snd (report_failure g r gen f)
  | EndLanes reason => end_attachment g reason
  end.

Definition registry_run (g : LaneRegistry) (ops : list RegistryOp) : LaneRegistry := fold_left registry_step ops g.

(** ** What [register] admits *)

Lemma slot_same g r s : lanes (set_slot g r s) r = s.
Proof. cbn. apply fn_lookup_insert. Qed.

Lemma slot_other g r r' s : r <> r' -> lanes (set_slot g r s) r' = lanes g r'.
Proof. cbn. apply fn_lookup_insert_ne. Qed.

(** The admission conditions, read off the registry. *)
Definition entitled (g : LaneRegistry) (p : LanePreface) : Prop :=
  (role p = Control /\ phase g = AwaitingControl) \/
  (exists a roles, role p <> Control /\ phase g = Authorized a roles /\
     contains roles (role p) = true /\ attachment p = Some a).

(** Attachments held by the phase are well-formed. *)
Definition phase_ok (g : LaneRegistry) : Prop :=
  match phase g with Authorized a _ => attachment_ok a | _ => True end.

Definition granted_generation (g : LaneRegistry) (r : LaneRole) : option Z :=
  if requires_attachment r then generation <$> registry_attachment g else None.

Lemma check_attachment_Ok g p gen : phase_ok g -> preface_ok p ->
  check_attachment ct_eq g (role p) p = Ok gen <-> entitled g p /\ gen = granted_generation g (role p).
Proof.
  intros Hph (_ & _ & Hp). unfold check_attachment, entitled, granted_generation, registry_attachment, phase_ok in *.
  destruct (decide (role p = Control)) as [Hc|Hc].
  - rewrite Hc, requires_control. destruct (phase g) eqn:Eph; naive_solver.
  - rewrite (requires_other _ Hc). destruct (phase g) as [| |a roles|] eqn:Eph; [naive_solver..| |naive_solver].
    destruct (contains roles (role p)) eqn:Ec; cbn [negb guard_err mbind result_bind].
    2:{ split; [done|]. intros [[[? _]|(? & ? & _ & E & E2 & _)] _]; [done|]. injection E as <- <-. congruence. }
    destruct (attachment p) as [pa|] eqn:Ea; cbn [ok_or mbind result_bind].
    2:{ split; [done|]. intros [[[? _]|(? & ? & _ & _ & _ & E)] _]; done. }
    destruct Hp as [_ (Hz & Hw & Hb)]. destruct Hph as (Hz' & Hw' & Hb').
    assert (ct_eq (binding pa) (binding a) = true <-> binding pa = binding a) as Hct.
    { apply ct_eq_spec. destruct Hb as [-> _], Hb' as [-> _]. done. }
    assert ((generation pa = generation a /\ binding pa = binding a) <-> pa = a) as Heq.
    { destruct pa, a; cbn. naive_solver. }
    transitivity (pa = a /\ gen = Some (generation a)).
    + destruct (Z.ltb_spec (generation pa) (generation a)); cbn [guard_err mbind result_bind].
      { split; [done|]. intros [-> _]. lia. }
      destruct (Z.eqb_spec (generation pa) (generation a)), (ct_eq (binding pa) (binding a)) eqn:Ect;
        cbn [negb orb guard_err mbind result_bind]; naive_solver.
    + split; [intros [-> ->]; split; [right; by exists a, roles|done]|].
      intros [[[? _]|(? & ? & _ & E & _ & Ep)] ->]; [done|]. injection E as <- <-. by injection Ep as ->.
Qed.

(** The lane a registration replaces. *)
Definition replaced (r : LaneRole) (s : LaneState) : option SupersededLane :=
  match s with Open open => Some (superseded_for_role r open) | _ => None end.

Definition slot_admits (allow : bool) (s : LaneSlot) (gen : Z) : Prop :=
  (forall reason, state s <> Disabled reason) /\
  (forall open, state s = Open open -> allow = true /\ gen <> open) /\
  (forall h, highest s = Some h -> h < gen).

Lemma fresh_Ok (o : option Z) (e : Z -> LaneRefusal) gen (x : LaneAdmission * LaneRegistry) adm g' :
  (_ ← match o with Some h => guard_err (gen <=? h) (e h) | None => Ok tt end; Ok x) = Ok (adm, g') <->
  (forall h, o = Some h -> h < gen) /\ adm = fst x /\ g' = snd x.
Proof.
  destruct x as [x1 x2]. cbn [fst snd]. destruct o as [h|]; cbn [mbind result_bind]; [|naive_solver].
  destruct (Z.leb_spec gen h); cbn [guard_err mbind result_bind].
  - split; [done|]. intros [Hh _]. specialize (Hh h eq_refl). lia.
  - split; [intros [= <- <-]; split_and!; [|done..]; by intros ? [= <-]|by intros (_ & -> & ->)].
Qed.

Lemma register_Ok g sh p allow adm g' : phase_ok g -> preface_ok p ->
  register ct_eq g sh p allow = Ok (adm, g') <->
  sh = shape (role p) /\ entitled g p /\ slot_admits allow (lanes g (role p)) (lane_generation p) /\
  adm = mkAdmission (role p) (lane_generation p) (granted_generation g (role p))
          (replaced (role p) (state (lanes g (role p)))) /\
  g' = with_open g (role p) (lane_generation p).
Proof.
  intros Hph Hp. unfold register.
  destruct (is_ended g) eqn:Een; cbn [guard_err mbind result_bind].
  { split; [done|]. intros (_ & He & _). exfalso. unfold is_ended in Een. destruct (phase g) eqn:Eph; try done.
    destruct He as [[_ ?]|(? & ? & _ & ? & _)]; congruence. }
  unfold shape_eq. case_bool_decide as Esh; cbn [negb guard_err mbind result_bind]; [|naive_solver].
  destruct (check_attachment ct_eq g (role p) p) as [gen|e] eqn:Eca; cbn [mbind result_bind].
  2:{ split; [done|]. intros (_ & He & _).
      assert (check_attachment ct_eq g (role p) p = Ok (granted_generation g (role p))) as E.
      { by apply check_attachment_Ok. } congruence. }
  apply check_attachment_Ok in Eca as [He ->]; [|done..].
  unfold slot_admits. destruct (state (lanes g (role p))) as [|open|failed f|reason]; cbn [replaced mbind result_bind].
  - rewrite fresh_Ok. naive_solver.
  - destruct allow; cbn [negb orb]; [|naive_solver].
    destruct (Z.eqb_spec (lane_generation p) open); cbn [mbind result_bind]; [naive_solver|].
    rewrite fresh_Ok. naive_solver.
  - rewrite fresh_Ok. naive_solver.
  - naive_solver.
Qed.

Lemma register_local g sh p allow adm g' : register ct_eq g sh p allow = Ok (adm, g') -> local g' = local g.
Proof. intros H. unfold register in H. inv_ok. unfold with_open. by destruct (role p). Qed.

(** ** The invariant *)

Record slot_ok (r : LaneRole) (s : LaneSlot) : Prop := {
  ok_open : forall gen, state s = Open gen -> highest s = Some gen;
  ok_failed : forall gen f, state s = Recovering gen f -> highest s = Some gen;
  ok_absent : state s = Absent -> highest s = None;
  ok_typed : forall h, highest s = Some h -> 0 < h /\ in_width 32 h;
  ok_count : 0 <= consecutive_failures s <= max_consecutive_failures (policy_for_role r) + 1;
  ok_held : forall p, pending s = Some p -> role p = r /\ preface_ok p /\ r <> Control
}.

(** The roles that may have been opened in a phase. *)
Definition openable (ph : RegistryPhase) (r : LaneRole) : Prop :=
  match ph with
  | AwaitingControl => False
  | Unauthorized => r = Control
  | Authorized _ roles => r = Control \/ contains roles r = true
  | Ended _ => True
  end.

Definition control_open (g : LaneRegistry) : Prop := exists gen, state (lanes g Control) = Open gen.

Record core (g : LaneRegistry) : Prop := {
  core_phase : phase_ok g;
  core_slots : forall r, slot_ok r (lanes g r);
  core_awaiting : phase g = AwaitingControl -> forall r, lanes g r = LaneSlot_NEW;
  core_control : phase g <> AwaitingControl -> is_ended g = false -> control_open g;
  core_openable : forall r, state (lanes g r) <> Absent -> openable (phase g) r;
  core_failures : is_ended g = false -> forall r, (forall reason, state (lanes g r) <> Disabled reason) ->
    consecutive_failures (lanes g r) <= max_consecutive_failures (policy_for_role r)
}.

(** Lanes are held only on the Deck, for roles the Pier opens, before
    authorization. *)
Definition holds (g : LaneRegistry) : Prop :=
  forall r p, pending (lanes g r) = Some p -> phase g = Unauthorized /\ local g = Deck /\ opener r = Pier.

Definition registry_inv (g : LaneRegistry) : Prop := core g /\ holds g.

Lemma policy_bounds r : 0 <= max_consecutive_failures (policy_for_role r) <= 3.
Proof. destruct r; cbn; lia. Qed.

Lemma new_inv e : registry_inv (LaneRegistry_new e).
Proof.
  split; [|by intros r p]. constructor; try done.
  all: intros; try constructor; try done; cbn; pose proof (policy_bounds r); lia.
Qed.

Lemma open_phase g r gen :
  phase (with_open g r gen) = if bool_decide (r = Control) then Unauthorized else phase g.
Proof. unfold with_open. by destruct r. Qed.

Lemma open_lanes g r gen r' : lanes (with_open g r gen) r' =
  if bool_decide (r = r') then
    mkSlot (Open gen) (Some gen) (consecutive_failures (lanes g r)) (pending (lanes g r))
  else lanes g r'.
Proof.
  assert (lanes (with_open g r gen) =
    lanes (set_slot g r (mkSlot (Open gen) (Some gen) (consecutive_failures (lanes g r)) (pending (lanes g r))))) as ->.
  { unfold with_open. by destruct r. }
  case_bool_decide as E; [subst; apply slot_same|by apply slot_other].
Qed.

Lemma open_local_end g r gen : local (with_open g r gen) = local g.
Proof. unfold with_open. by destruct r. Qed.

Lemma entitled_phase g p : entitled g p -> is_ended g = false /\
  openable (phase (with_open g (role p) (lane_generation p))) (role p).
Proof.
  unfold entitled, is_ended. rewrite open_phase.
  intros [[-> ->]|(a & roles & Hr & -> & Hc & _)]; [done|]. rewrite bool_decide_eq_false_2 by done.
  split; [done|]. by right.
Qed.

Lemma preface_generation p : preface_ok p -> 0 < lane_generation p /\ in_width 32 (lane_generation p).
Proof. intros (Hz & Hw & _). split; [unfold in_width in Hw; lia|done]. Qed.

Lemma open_core g p : core g -> preface_ok p -> entitled g p ->
  (forall reason, state (lanes g (role p)) <> Disabled reason) -> core (with_open g (role p) (lane_generation p)).
Proof.
  intros [Hph Hs Haw Hco Hop Hf] Hpok He Hd. destruct (entitled_phase g p He) as [Hne Ho].
  assert (is_ended (with_open g (role p) (lane_generation p)) = false) as Hne'.
  { unfold is_ended in *. rewrite open_phase. by case_bool_decide. }
  constructor.
  - unfold phase_ok in *. rewrite open_phase. by case_bool_decide.
  - intros r. rewrite open_lanes. case_bool_decide as E; [subst r|done]. destruct (Hs (role p)) as [_ _ _ _ Hc Hh].
    constructor; try done; cbn; [congruence|]. intros h [= <-]. by apply preface_generation.
  - rewrite open_phase. case_bool_decide as E; [done|]. intros E'. exfalso.
    destruct He as [[? _]|(? & ? & _ & ? & _)]; congruence.
  - intros _ _. unfold control_open. rewrite open_lanes. case_bool_decide as E; [by eexists|].
    apply Hco; [|done]. intros Ea. destruct He as [[? _]|(? & ? & _ & ? & _)]; congruence.
  - intros r. rewrite open_lanes. case_bool_decide as E; [by subst r|]. intros Hna. rewrite open_phase.
    case_bool_decide as Ec; [|by apply Hop]. exfalso.
    destruct He as [[_ Ea]|(? & ? & ? & _)]; [|done]. rewrite Haw in Hna by done. done.
  - intros _ r. rewrite open_lanes. case_bool_decide as E; [subst r|by apply Hf]. cbn. intros _.
    by apply Hf.
Qed.

Lemma open_holds g p : holds g -> entitled g p -> (role p = Control -> forall r, pending (lanes g r) = None) ->
  pending (lanes g (role p)) = None -> holds (with_open g (role p) (lane_generation p)).
Proof.
  intros Hh He Hc Hn r q. rewrite open_lanes, open_phase, open_local_end.
  case_bool_decide as E; [subst r; cbn; congruence|]. intros Hq.
  destruct (Hh _ _ Hq) as (Hu & ? & ?). case_bool_decide; split_and!; done.
Qed.

(** [set_slot] that leaves the phase: what each field needs. *)
Lemma set_slot_core g r s : core g -> is_ended g = false -> phase g <> AwaitingControl -> slot_ok r s ->
  (state s = Absent -> state (lanes g r) = Absent) ->
  (r = Control -> exists gen, state s = Open gen) ->
  (state (lanes g r) = Absent -> state s = Absent) ->
  ((forall reason, state s <> Disabled reason) ->
     consecutive_failures s <= max_consecutive_failures (policy_for_role r)) ->
  core (set_slot g r s).
Proof.
  intros [Hph Hs Haw Hco Hop Hf] Hne Hna Hok Hab Hctl Habs Hcf.
  constructor; try done.
  - intros r'. destruct (decide (r = r')) as [<-|Hr]; [by rewrite slot_same|by rewrite slot_other].
  - intros _ _. unfold control_open. destruct (decide (r = Control)) as [->|Hr]; [rewrite slot_same; auto|].
    rewrite slot_other by done. by apply Hco.
  - intros r'. destruct (decide (r = r')) as [<-|Hr]; [rewrite slot_same|rewrite slot_other by done; auto].
    intros H. apply Hop. auto.
  - intros _ r'. destruct (decide (r = r')) as [<-|Hr]; [by rewrite slot_same|rewrite slot_other by done; auto].
Qed.

(** Ending the attachment. *)
Lemma end_core g reason : (forall r, slot_ok r (lanes g r)) -> registry_inv (drop_pending (set_phase g (Ended reason))).
Proof.
  intros Hs. split; [|by intros r p]. constructor; try done.
  intros r. destruct (Hs r). constructor; try done.
Qed.

(** Changing what a slot holds, or lowering its failure count. *)
Lemma hold_core g r s : core g ->
  state s = state (lanes g r) -> highest s = highest (lanes g r) ->
  0 <= consecutive_failures s <= consecutive_failures (lanes g r) ->
  (forall p, pending s = Some p -> role p = r /\ preface_ok p /\ r <> Control) ->
  phase g <> AwaitingControl \/ pending s = pending (lanes g r) ->
  core (set_slot g r s).
Proof.
  intros [Hph Hs Haw Hco Hop Hf] E1 E2 E3 Hp Hph2.
  assert (forall r', state (lanes (set_slot g r s) r') = state (lanes g r') /\
    consecutive_failures (lanes (set_slot g r s) r') <= consecutive_failures (lanes g r')) as Hsame.
  { intros r'. destruct (decide (r = r')) as [<-|Hr]; [rewrite slot_same|rewrite slot_other by done]; split; done || lia. }
  constructor; try done.
  - intros r'. destruct (decide (r = r')) as [<-|Hr]; [rewrite slot_same|by rewrite slot_other].
    destruct (Hs r). constructor; rewrite ?E1, ?E2; auto. lia.
  - intros Ea r'. destruct Hph2 as [|Hp']; [done|].
    destruct (decide (r = r')) as [<-|Hr]; [rewrite slot_same|rewrite slot_other by done; auto].
    rewrite (Haw Ea r) in *. destruct s; cbn in *. unfold LaneSlot_NEW. f_equal; try done. lia.
  - unfold control_open. intros Ha He. rewrite (proj1 (Hsame Control)). by apply Hco.
  - intros r'. rewrite (proj1 (Hsame r')). apply Hop.
  - intros He r'. rewrite (proj1 (Hsame r')). intros Hd. specialize (Hf He r' Hd). pose proof (proj2 (Hsame r')). lia.
Qed.

(** ** Opened generations *)

(** [ascending h l h']: the generations of [l] each exceed everything before
    them, starting above [h] and ending at [h']. *)
Fixpoint ascending (h : option Z) (l : list Z) (h' : option Z) : Prop :=
  match l with
  | [] => h' = h
  | x :: l => (forall y, h = Some y -> y < x) /\ ascending (Some x) l h'
  end.

Lemma ascending_app h l h1 k h2 : ascending h l h1 -> ascending h1 k h2 -> ascending h (l ++ k) h2.
Proof.
  revert h. induction l as [|x l IH]; intros h; cbn; [by intros ->|]. intros [? ?] ?. split; [done|]. by apply IH.
Qed.

Lemma ascending_above h l h' : ascending h l h' ->
  StronglySorted Z.lt l /\ (forall x y, h = Some y -> x ∈ l -> y < x).
Proof.
  revert h. induction l as [|x l IH]; intros h; cbn.
  - intros _. split; [constructor|]. by intros x y _ ?%not_elem_of_nil.
  - intros [Hx Hl]. destruct (IH _ Hl) as [Hs Hall]. split.
    + constructor; [done|]. apply Forall_forall. intros y Hy. by apply (Hall y x).
    + intros z y Hy [->|Hz]%elem_of_cons; [by apply Hx|]. specialize (Hall z x eq_refl Hz). specialize (Hx y Hy). lia.
Qed.

Definition opened_by (res : PendingResolution) : list (LaneRole * Z) :=
  match res_outcome res with Ok a => [(adm_role a, adm_lane_generation a)] | Err _ => [] end.

(** The lanes an operation opened. *)
Definition op_opens (g : LaneRegistry) (op : RegistryOp) : list (LaneRole * Z) :=
  match op with
  | OpenLocal r => match open_local ct_eq g r with Ok (p, _) => [(role p, lane_generation p)] | Err _ => [] end
  | AdmitPeer sh p =>
    match admit_peer ct_eq g sh p with Ok (LaneAdmitted a, _) => [(adm_role a, adm_lane_generation a)] | _ => [] end
  | Authorize a roles =>
    match authorize ct_eq g a roles with Ok (l, _) => flat_map opened_by l | Err _ => [] end
  | _ => []
  end.

Definition gens (r : LaneRole) (l : list (LaneRole * Z)) : list Z := (filter (fun x => fst x = r) l).*2.

Lemma gens_app r l k : gens r (l ++ k) = gens r l ++ gens r k.
Proof. unfold gens. by rewrite filter_app, fmap_app. Qed.

Definition ascends (g : LaneRegistry) (l : list (LaneRole * Z)) (g' : LaneRegistry) : Prop :=
  forall r, ascending (highest (lanes g r)) (gens r l) (highest (lanes g' r)).

Lemma ascends_same g g' : (forall r, highest (lanes g' r) = highest (lanes g r)) -> ascends g [] g'.
Proof. intros H r. cbn. apply H. Qed.

Lemma ascends_trans g l g1 k g2 : ascends g l g1 -> ascends g1 k g2 -> ascends g (l ++ k) g2.
Proof. intros H1 H2 r. rewrite gens_app. by eapply ascending_app. Qed.

Lemma open_ascends g allow r gen : slot_admits allow (lanes g r) gen ->
  ascends g [(r, gen)] (with_open g r gen).
Proof.
  intros (_ & _ & Hh) r'. rewrite open_lanes. unfold gens.
  destruct (decide (r = r')) as [<-|Hr].
  - rewrite filter_cons_True by done. rewrite bool_decide_eq_true_2 by done. cbn. by split.
  - rewrite filter_cons_False by done. by rewrite bool_decide_eq_false_2.
Qed.

(** ** [authorize]'s loop *)

Definition authorized (g : LaneRegistry) : Prop := exists a roles, phase g = Authorized a roles.

Definition unheld (s : LaneSlot) : LaneSlot := mkSlot (state s) (highest s) (consecutive_failures s) None.

Lemma resolve_none g acc r : pending (lanes g r) = None -> resolve_pending ct_eq (g, acc) r = (g, acc).
Proof. intros H. cbn. by rewrite H. Qed.

Lemma resolve_spec g acc r g' acc' : core g -> authorized g -> resolve_pending ct_eq (g, acc) r = (g', acc') ->
  core g' /\ phase g' = phase g /\ local g' = local g /\ pending (lanes g' r) = None /\
  (forall r', r <> r' -> lanes g' r' = lanes g r') /\
  exists new, acc' = acc ++ new /\ ascends g (flat_map opened_by new) g' /\
    match pending (lanes g r) with
    | None => new = []
    | Some held => exists o, new = [mkResolution r (lane_generation held) o]
    end.
Proof.
  intros Hc (a & roles & Ha). unfold resolve_pending. fold (unheld (lanes g r)).
  destruct (pending (lanes g r)) as [held|] eqn:Ep.
  2:{ intros [= <- <-]. split_and!; try done. exists []. by rewrite app_nil_r. }
  set (g1 := set_slot g r (unheld (lanes g r))).
  destruct (ok_held _ _ (core_slots _ Hc r) _ Ep) as (Hr & Hp & Hnc).
  assert (core g1) as Hc1.
  { apply hold_core; try done; [|left; congruence]. pose proof (ok_count _ _ (core_slots _ Hc r)). cbn. lia. }
  assert (lanes g1 r = unheld (lanes g r)) as Hg1 by apply slot_same.
  assert (forall r', highest (lanes g1 r') = highest (lanes g r')) as Hhi.
  { intros r'. destruct (decide (r = r')) as [<-|]; [by rewrite Hg1|by unfold g1; rewrite slot_other]. }
  destruct (register ct_eq g1 (shape r) held true) as [[adm g2]|e] eqn:Er; intros [= <- <-].
  - apply register_Ok in Er as (_ & He & Hadm & -> & ->); [|apply Hc1|done]. rewrite Hr in *.
    assert (phase (with_open g1 r (lane_generation held)) = phase g1) as Eph.
    { rewrite open_phase. by rewrite bool_decide_eq_false_2. }
    split_and!.
    + rewrite <- Hr. apply open_core; [done|done|done|rewrite Hr; apply Hadm].
    + by rewrite Eph.
    + by rewrite open_local_end.
    + rewrite open_lanes, bool_decide_eq_true_2 by done. cbn [pending]. by rewrite Hg1.
    + intros r' Hr'. rewrite open_lanes, bool_decide_eq_false_2 by done. by apply slot_other.
    + eexists. split; [reflexivity|]. split; [|by eexists]. cbn.
      pose proof (open_ascends g1 true r _ Hadm) as Hasc. intros r'. rewrite <- Hhi. apply Hasc.
  - split_and!; try done; [by rewrite Hg1|intros r' Hr'; by apply slot_other|].
    eexists. split; [reflexivity|]. split; [by apply ascends_same|by eexists].
Qed.

(** The lanes held, in role order. *)
Definition held_lanes (g : LaneRegistry) (l : list LaneRole) : list (LaneRole * Z) :=
  flat_map (fun r => match pending (lanes g r) with Some held => [(r, lane_generation held)] | None => [] end) l.

Lemma resolve_fold l : forall g acc g' acc', NoDup l -> core g -> authorized g ->
  fold_left (resolve_pending ct_eq) l (g, acc) = (g', acc') ->
  core g' /\ phase g' = phase g /\ local g' = local g /\
  (forall r, r ∈ l -> pending (lanes g' r) = None) /\ (forall r, (r ∉ l) -> lanes g' r = lanes g r) /\
  exists new, acc' = acc ++ new /\ ascends g (flat_map opened_by new) g' /\
    map (fun x => (res_role x, res_lane_generation x)) new = held_lanes g l.
Proof.
  induction l as [|r l IH]; intros g acc g' acc' Hnd Hc Ha; cbn [fold_left].
  - intros [= <- <-]. split_and!; [done..|by intros r ?%not_elem_of_nil|done|].
    exists []. rewrite app_nil_r. split_and!; [done|by apply ascends_same|done].
  - apply NoDup_cons in Hnd as [Hr Hnd].
    destruct (resolve_pending ct_eq (g, acc) r) as [g1 acc1] eqn:E1. intros E2.
    destruct (resolve_spec _ _ _ _ _ Hc Ha E1) as (Hc1 & Hph1 & Hl1 & Hp1 & Ho1 & n1 & -> & Hasc1 & Hn1).
    assert (authorized g1) as Ha1 by (unfold authorized; by rewrite Hph1).
    destruct (IH _ _ _ _ Hnd Hc1 Ha1 E2) as (Hc2 & Hph2 & Hl2 & Hp2 & Ho2 & n2 & -> & Hasc2 & Hn2).
    split_and!; [done|by rewrite Hph2|by rewrite Hl2| | |].
    + intros r' [->|Hr']%elem_of_cons; [|by apply Hp2]. by rewrite Ho2.
    + intros r' [Hne Hr']%not_elem_of_cons. rewrite Ho2 by done. by apply Ho1.
    + exists (n1 ++ n2). rewrite app_assoc. split_and!; [done| |].
      * rewrite flat_map_app. by eapply ascends_trans.
      * rewrite map_app, Hn2. cbn [held_lanes flat_map]. f_equal.
        -- destruct (pending (lanes g r)); [by destruct Hn1 as [o ->]|by rewrite Hn1].
        -- unfold held_lanes. assert (forall r', r' ∈ l -> lanes g1 r' = lanes g r') as Hsame.
           { intros r' Hr'. apply Ho1. congruence. }
           clear -Hsame. induction l as [|x l IHl]; [done|]. cbn. rewrite Hsame by set_solver. rewrite IHl; [done|set_solver].
Qed.

Lemma set_authorized_core g a roles : core g -> phase g = Unauthorized -> attachment_ok a ->
  core (set_phase g (Authorized a (with_role roles Control))).
Proof.
  intros [Hph Hs Haw Hco Hop Hf] Hu Ha. unfold is_ended in *. rewrite Hu in *. constructor; try done.
  - intros _ _. by apply Hco.
  - intros r Hr. left. by apply Hop.
Qed.

(** [authorize]: who may call it, and how it resolves the lanes held. *)
Lemma authorize_spec g a roles : registry_inv g -> attachment_ok a ->
  match authorize ct_eq g a roles with
  | Err e => phase g <> Unauthorized
  | Ok (l, g') =>
    phase g = Unauthorized /\ phase g' = Authorized a (with_role roles Control) /\ local g' = local g /\
    registry_inv g' /\ (forall r, pending (lanes g' r) = None) /\
    map (fun x => (res_role x, res_lane_generation x)) l = held_lanes g LaneRole_ALL /\
    ascends g (flat_map opened_by l) g'
  end.
Proof.
  intros [Hc Hh] Ha. unfold authorize. destruct (phase g) eqn:Eph; try done.
  destruct (fold_left _ _ _) as [g' l] eqn:Ef.
  apply resolve_fold in Ef as (Hc' & Hph' & Hl' & Hp' & _ & new & -> & Hasc & Hn);
    [|apply ALL_NoDup|by apply set_authorized_core|by eexists _, _].
  assert (forall r, pending (lanes g' r) = None) as Hnone by (intros r; apply Hp', elem_of_ALL).
  split_and!; try done. split; [done|]. intros r p. by rewrite Hnone.
Qed.

(** ** Every operation keeps the invariant *)

Lemma failures_small g r : core g -> saturating_add 8 (consecutive_failures (lanes g r)) 1 = consecutive_failures (lanes g r) + 1.
Proof.
  intros Hc. pose proof (ok_count _ _ (core_slots _ Hc r)). pose proof (policy_bounds r).
  unfold saturating_add, umax. pow2. lia.
Qed.

Lemma slot_holds g r s : holds g -> (pending s = pending (lanes g r) \/ pending s = None) -> holds (set_slot g r s).
Proof.
  intros Hh Hp r' p. destruct (decide (r = r')) as [<-|Hr]; [rewrite slot_same|rewrite slot_other by done; apply Hh].
  destruct Hp as [-> | ->]; [apply Hh|done].
Qed.

Lemma mark_inv g r gen : registry_inv g -> registry_inv (mark_healthy g r gen).
Proof.
  intros [Hc Hh]. unfold mark_healthy. case_bool_decide as E; [|by split].
  pose proof (core_slots _ Hc r) as Hs. split; [|apply slot_holds; [done|by left]].
  apply hold_core; try done; [|by apply (ok_held _ _ Hs)|by right].
  pose proof (ok_count _ _ Hs). cbn. lia.
Qed.

Lemma failed_slot_ok r s st failures : slot_ok r s -> (exists gen, state s = Open gen) ->
  0 <= failures <= max_consecutive_failures (policy_for_role r) + 1 ->
  (forall gen, st <> Open gen) -> st <> Absent -> (forall gen f, st = Recovering gen f -> highest s = Some gen) ->
  slot_ok r (mkSlot st (highest s) failures (pending s)).
Proof.
  intros [Ho Hf Ha Ht Hc Hh] _ Hb H1 H2 H3. constructor; cbn; try done.
  intros gen E. by destruct (H1 gen).
Qed.

Lemma report_inv g r gen f : registry_inv g -> registry_inv (snd (report_failure g r gen f)).
Proof.
  intros [Hc Hh]. unfold report_failure. destruct (is_ended g) eqn:Een; [by split|].
  case_bool_decide as Eo; cbn [negb]; [|by split]. rewrite (failures_small _ _ Hc).
  pose proof (core_slots _ Hc r) as Hs. pose proof (ok_open _ _ Hs _ Eo) as Hhi.
  pose proof (core_failures _ Hc Een r ltac:(congruence)) as Hf. pose proof (ok_count _ _ Hs) as Hcnt.
  assert (phase g <> AwaitingControl) as Hna.
  { intros Ha. rewrite (core_awaiting _ Hc Ha) in Eo. done. }
  assert (forall st, (forall gen, st <> Open gen) -> st <> Absent ->
    (forall gen' f, st = Recovering gen' f -> highest (lanes g r) = Some gen') ->
    slot_ok r (mkSlot st (highest (lanes g r)) (consecutive_failures (lanes g r) + 1) (pending (lanes g r)))) as Hok.
  { intros st ? ? ?. apply failed_slot_ok; try done; [by eexists|lia]. }
  assert (forall reason, registry_inv (drop_pending (set_phase (set_slot g r (mkSlot (Recovering gen f)
    (highest (lanes g r)) (consecutive_failures (lanes g r) + 1) (pending (lanes g r)))) (Ended reason)))) as Hend.
  { intros reason. apply end_core. intros r'.
    destruct (decide (r = r')) as [<-|Hr]; [rewrite slot_same; apply Hok; congruence|rewrite slot_other by done].
    apply (core_slots _ Hc). }
  case_bool_decide as Ectl; [apply Hend|].
  assert (forall st, (forall gen, st <> Open gen) -> st <> Absent ->
    (forall gen' f, st = Recovering gen' f -> highest (lanes g r) = Some gen') ->
    ((forall reason, st <> Disabled reason) ->
       consecutive_failures (lanes g r) + 1 <= max_consecutive_failures (policy_for_role r)) ->
    registry_inv (set_slot g r (mkSlot st (highest (lanes g r)) (consecutive_failures (lanes g r) + 1)
      (pending (lanes g r))))) as Hset.
  { intros st H1 H2 H3 H4. split; [|apply slot_holds; [done|by left]].
    apply set_slot_core; try done; [by apply Hok|cbn; congruence]. }
  destruct (Z.ltb_spec (max_consecutive_failures (policy_for_role r)) (consecutive_failures (lanes g r) + 1)).
  - destruct (exhausted (policy_for_role r)); [|apply Hend]. apply Hset; try done. intros Hd. by destruct (Hd RecoveryExhausted).
  - apply Hset; try done. congruence.
Qed.

Lemma report_highest g r gen f r' : highest (lanes (snd (report_failure g r gen f)) r') = highest (lanes g r').
Proof.
  unfold report_failure. destruct (is_ended g); [done|]. case_bool_decide; cbn [negb]; [|done].
  assert (forall s, highest s = highest (lanes g r) ->
    highest (lanes (set_slot g r s) r') = highest (lanes g r')) as Hset.
  { intros s Hs. destruct (decide (r = r')) as [<-|]; [by rewrite slot_same|by rewrite slot_other]. }
  repeat case_match; cbn [snd]; by apply Hset.
Qed.

Lemma report_pending g r gen f r' : pending (lanes (snd (report_failure g r gen f)) r') = pending (lanes g r') \/
  pending (lanes (snd (report_failure g r gen f)) r') = None.
Proof.
  unfold report_failure. destruct (is_ended g); [by left|]. case_bool_decide; cbn [negb]; [|by left].
  assert (forall s, pending s = pending (lanes g r) ->
    pending (lanes (set_slot g r s) r') = pending (lanes g r')) as Hset.
  { intros s Hs. destruct (decide (r = r')) as [<-|]; [by rewrite slot_same|by rewrite slot_other]. }
  repeat case_match; cbn [snd]; auto.
Qed.

Lemma end_inv g reason : registry_inv g -> registry_inv (end_attachment g reason).
Proof. intros [Hc _]. apply end_core. intros r. apply (core_slots _ Hc). Qed.

(** [register] on a registry in which the role holds nothing. *)
Lemma register_step g sh p allow adm g' : registry_inv g -> preface_ok p -> pending (lanes g (role p)) = None ->
  register ct_eq g sh p allow = Ok (adm, g') ->
  registry_inv g' /\ ascends g [(adm_role adm, adm_lane_generation adm)] g'.
Proof.
  intros [Hc Hh] Hp Hn H. apply register_Ok in H as (_ & He & Hadm & -> & ->); [|apply Hc|done].
  split; [|by eapply open_ascends]. split; [by apply open_core; [..|apply Hadm]|].
  apply open_holds; try done. intros Er r.
  destruct (pending (lanes g r)) as [q|] eqn:Eq; [|done]. destruct (Hh _ _ Eq) as (Hu & _).
  destruct He as [[_ ?]|(? & ? & ? & _)]; congruence.
Qed.

(** The preface [open_local] builds. *)
Definition local_preface (g : LaneRegistry) (r : LaneRole) : LanePreface :=
  mkPreface r (if requires_attachment r then registry_attachment g else None) (next_generation g r).

Lemma next_generation_typed g r : core g -> 0 < next_generation g r /\ in_width 32 (next_generation g r).
Proof.
  intros Hc. unfold next_generation. destruct (highest (lanes g r)) as [h|] eqn:E; cbn; [|by vm_compute].
  destruct (ok_typed _ _ (core_slots _ Hc r) h E) as [Hp Hw].
  destruct (checked_add 32 h 1) as [n|] eqn:Ea; cbn; [|by vm_compute].
  apply checked_add_Some in Ea as [-> Hm]. unfold in_width, umax in *. lia.
Qed.

Lemma local_preface_ok g r : core g -> (r <> Control -> authorized g) -> preface_ok (local_preface g r).
Proof.
  intros Hc Ha. destruct (next_generation_typed g r Hc) as [Hp Hw]. unfold preface_ok, local_preface.
  cbn [lane_generation attachment role]. split_and!; [lia|done|].
  destruct (decide (r = Control)) as [->|Hr]; [done|]. rewrite requires_other by done.
  destruct (Ha Hr) as (a & roles & E). unfold registry_attachment. rewrite E. split; [done|].
  pose proof (core_phase _ Hc) as Hph. unfold phase_ok in Hph. by rewrite E in Hph.
Qed.

(** [open_local] registers that preface, on the endpoint that opens the role. *)
Lemma open_local_Ok g r p g' : core g -> open_local ct_eq g r = Ok (p, g') <->
  opener r = local g /\ p = local_preface g r /\ preface_ok p /\
  exists adm, register ct_eq g (shape r) p false = Ok (adm, g').
Proof.
  intros Hc. unfold open_local, endpoint_eq.
  case_bool_decide as Eop; cbn [negb guard_err mbind result_bind]; [|naive_solver].
  assert (forall q, match register ct_eq g (shape r) q false with
                    | Ok (_, g1) => Ok (q, g1) | Err e => Err (Refused e) end = Ok (p, g') <->
                    p = q /\ exists adm, register ct_eq g (shape r) q false = Ok (adm, g')) as Hfin.
  { intros q. destruct (register ct_eq g (shape r) q false) as [[adm g1]|e]; [|naive_solver].
    split; [intros [= <- <-]; split; [done|by eexists]|]. by intros (-> & ? & [= _ ->]). }
  pose proof (local_preface_ok g r Hc) as Hok. unfold local_preface in *.
  destruct (decide (r = Control)) as [->|Hr].
  - rewrite requires_control in *. cbn [mbind result_bind]. rewrite Hfin. unfold control_preface. split.
    + intros [-> Hx]. split_and!; try done. by apply Hok.
    + by intros (_ & -> & _ & Hx).
  - rewrite (requires_other _ Hr) in *. unfold bound_preface, registry_attachment in *. rewrite (requires_other _ Hr).
    destruct (phase g) as [| |a roles|reason] eqn:Eph; cbn [negb mbind result_bind].
    1,2,4: split; [done|]; intros (_ & -> & (_ & _ & Hp) & _); done.
    rewrite Hfin. split; [|naive_solver]. intros [-> Hx]. split_and!; try done. apply Hok. intros _. by eexists _, _.
Qed.

Lemma open_local_step g r p g' : registry_inv g -> open_local ct_eq g r = Ok (p, g') ->
  registry_inv g' /\ ascends g [(role p, lane_generation p)] g'.
Proof.
  intros Hi H. apply open_local_Ok in H as (Hop & -> & Hp & adm & Hr); [|apply Hi].
  pose proof Hr as Ha. apply register_Ok in Ha as (_ & _ & _ & Ha & _); [|apply (core_phase _ (proj1 Hi))|done].
  apply register_step in Hr as [? Hasc]; [|done..|].
  2:{ cbn. destruct (pending (lanes g r)) as [q|] eqn:Eq; [|done].
    destruct (proj2 Hi _ _ Eq) as (_ & Hl & Ho). congruence. }
  split; [done|]. by rewrite Ha in Hasc.
Qed.

Lemma hold_step g sh p res g' : registry_inv g -> preface_ok p -> local g = Deck -> phase g = Unauthorized ->
  role p <> Control -> opener (role p) = Pier -> hold_pending g sh p = Ok (res, g') ->
  registry_inv g' /\ ascends g [] g' /\ (exists sup, res = PendingAuthorization (role p) (lane_generation p) sup).
Proof.
  intros [Hc Hh] Hp Hl Hu Hr Ho H. unfold hold_pending in H. inv_ok.
  match goal with |- context [set_slot g (role p) ?s] => set (s1 := s) end.
  assert (forall r', r' <> role p -> lanes (set_slot g (role p) s1) r' = lanes g r') as Hother by (intros; by apply slot_other).
  split_and!; [split| |by eexists].
  - apply hold_core; try done; [|by intros q [= <-]|left; congruence].
    pose proof (ok_count _ _ (core_slots _ Hc (role p))). cbn. lia.
  - intros r q. destruct (decide (r = role p)) as [->|]; [|rewrite Hother by done; apply Hh]. done.
  - apply ascends_same. intros r. destruct (decide (r = role p)) as [->|]; [by rewrite slot_same|by rewrite Hother].
Qed.

Lemma admit_step g sh p : registry_inv g -> preface_ok p ->
  match admit_peer ct_eq g sh p with
  | Ok (LaneAdmitted a, g') => registry_inv g' /\ ascends g [(adm_role a, adm_lane_generation a)] g'
  | Ok (PendingAuthorization _ _ _, g') => registry_inv g' /\ ascends g [] g'
  | Err _ => True
  end.
Proof.
  intros Hi Hp. unfold admit_peer, endpoint_eq.
  destruct (bool_decide_reflect (opener (role p) = peer (local g))) as [Eop|]; cbn [negb guard_err mbind result_bind]; [|done].
  destruct (is_unauthorized g && bool_decide (local g = Deck) && requires_attachment (role p)) eqn:Eh.
  - boolify. repeat match goal with H : bool_decide _ = true |- _ => apply bool_decide_eq_true in H end.
    assert (phase g = Unauthorized) as Hu by (unfold is_unauthorized in *; by destruct (phase g)).
    destruct (hold_pending g sh p) as [[res g']|] eqn:Ehp; [|done].
    apply hold_step in Ehp as (? & ? & sup & ->); try done; [by apply requires_spec|].
    rewrite Eop. by match goal with H : local g = Deck |- _ => rewrite H end.
  - destruct (register ct_eq g sh p true) as [[a g']|] eqn:Er; [|done]. cbn [mbind result_bind].
    eapply register_step; try done.
    destruct (pending (lanes g (role p))) as [q|] eqn:Eq; [|done]. exfalso.
    destruct (proj2 Hi _ _ Eq) as (Hu & Hl & _). destruct (ok_held _ _ (core_slots _ (proj1 Hi) _) _ Eq) as (_ & _ & Hn).
    unfold is_unauthorized in Eh. rewrite Hu, bool_decide_eq_true_2, requires_other in Eh by done. done.
Qed.

(** Every operation keeps the invariant and opens only newer generations. *)
Lemma registry_step_inv g op : registry_inv g -> op_ok op ->
  registry_inv (registry_step g op) /\ ascends g (op_opens g op) (registry_step g op).
Proof.
  intros Hi Hop. destruct op as [r|sh p|a roles|r gen|r gen f|reason]; cbn [registry_step op_opens op_ok] in *.
  - destruct (open_local ct_eq g r) as [[p g']|e] eqn:E; cbn [next_registry].
    + by apply open_local_step in E.
    + split; [done|by apply ascends_same].
  - pose proof (admit_step g sh p Hi Hop) as Ha.
    destruct (admit_peer ct_eq g sh p) as [[[a|] g']|e]; cbn [next_registry]; try done.
  - pose proof (authorize_spec g a roles Hi Hop) as Ha.
    destruct (authorize ct_eq g a roles) as [[l g']|e]; cbn [next_registry]; [tauto|].
    split; [done|by apply ascends_same].
  - split; [by apply mark_inv|]. apply ascends_same. intros r'. unfold mark_healthy. case_bool_decide; [|done].
    destruct (decide (r = r')) as [<-|]; [by rewrite slot_same|by rewrite slot_other].
  - split; [by apply report_inv|]. apply ascends_same. intros r'. apply report_highest.
  - split; [by apply end_inv|]. by apply ascends_same.
Qed.

Lemma registry_run_inv ops : forall g, registry_inv g -> Forall op_ok ops -> registry_inv (registry_run g ops).
Proof.
  induction ops as [|op ops IH]; intros g Hi Hops; [done|]. apply Forall_cons in Hops as [Ho Hops].
  apply IH; [|done]. by apply registry_step_inv.
Qed.

Lemma step_local g op : local (registry_step g op) = local g.
Proof.
  destruct op as [r'|sh p|a roles|r' gen|r' gen f|reason]; cbn [registry_step]; try done.
  - unfold open_local. destruct (guard_err _ _); cbn [mbind result_bind next_registry]; [|done].
    match goal with |- context [?m ≫= _] => destruct m; cbn [mbind result_bind next_registry]; [|done] end.
    destruct (register _ _ _ _ _) as [[adm g']|] eqn:Er; cbn [next_registry]; [|done]. by apply register_local in Er.
  - unfold admit_peer. destruct (guard_err _ _); cbn [mbind result_bind next_registry]; [|done]. case_match.
    + unfold hold_pending. destruct (guard_err _ _); cbn [mbind result_bind next_registry]; [|done].
      by repeat case_match.
    + destruct (register ct_eq g sh p true) as [[adm g']|] eqn:Er; cbn [mbind result_bind next_registry]; [|done].
      by apply register_local in Er.
  - unfold authorize. destruct (phase g); cbn [next_registry]; try done.
    assert (forall l st, local (fst (fold_left (resolve_pending ct_eq) l st)) = local (fst st)) as Hf.
    { induction l as [|x l IH]; intros [g1 acc]; [done|]. cbn [fold_left]. rewrite IH. cbn.
      destruct (pending (lanes g1 x)); [|done]. destruct (register _ _ _ _ _) as [[adm g']|] eqn:Er; [|done].
      by apply register_local in Er. }
    specialize (Hf LaneRole_ALL (set_phase g (Authorized a (with_role roles Control)), [])).
    by destruct (fold_left _ _ _).
  - unfold mark_healthy. by case_bool_decide.
  - unfold report_failure. by repeat case_match.
Qed.

Lemma run_local ops : forall g, local (registry_run g ops) = local g.
Proof. induction ops as [|op ops IH]; intros g; [done|]. cbn. etransitivity; [apply IH|apply step_local]. Qed.

(** The lanes a run opened, in order. *)
Fixpoint run_opens (g : LaneRegistry) (ops : list RegistryOp) : list (LaneRole * Z) :=
  match ops with
  | [] => []
  | op :: ops => op_opens g op ++ run_opens (registry_step g op) ops
  end.

Lemma run_ascends ops : forall g, registry_inv g -> Forall op_ok ops -> ascends g (run_opens g ops) (registry_run g ops).
Proof.
  induction ops as [|op ops IH]; intros g Hi Hops; [by apply ascends_same|].
  apply Forall_cons in Hops as [Ho Hops]. destruct (registry_step_inv g op Hi Ho) as [Hi' Ha].
  eapply ascends_trans; [done|]. by apply IH.
Qed.

(** ** What [admit_peer] decides *)

Definition holdable (g : LaneRegistry) (p : LanePreface) : Prop :=
  phase g = Unauthorized /\ local g = Deck /\ role p <> Control.

Lemma entitled_not_held g p : entitled g p ->
  is_unauthorized g && bool_decide (local g = Deck) && requires_attachment (role p) = false.
Proof.
  unfold entitled, is_unauthorized.
  intros [[-> _]|(a & roles & _ & -> & _)]; [by rewrite requires_control, andb_false_r|done].
Qed.

Lemma admit_Admitted g sh p adm g' : phase_ok g -> preface_ok p ->
  admit_peer ct_eq g sh p = Ok (LaneAdmitted adm, g') <->
  opener (role p) = peer (local g) /\ sh = shape (role p) /\ entitled g p /\
  slot_admits true (lanes g (role p)) (lane_generation p) /\
  adm = mkAdmission (role p) (lane_generation p) (granted_generation g (role p))
          (replaced (role p) (state (lanes g (role p)))) /\
  g' = with_open g (role p) (lane_generation p).
Proof.
  intros Hph Hp. rewrite <- (register_Ok g sh p true adm g') by done. unfold admit_peer, endpoint_eq.
  destruct (bool_decide_reflect (opener (role p) = peer (local g))) as [Eop|]; cbn [negb guard_err mbind result_bind];
    [|naive_solver].
  destruct (is_unauthorized g && bool_decide (local g = Deck) && requires_attachment (role p)) eqn:Eh.
  - split.
    + intros H. exfalso. unfold hold_pending in H. inv_ok. done.
    + intros [_ H]. apply register_Ok in H as (_ & He & _); [|done..]. apply entitled_not_held in He. congruence.
  - destruct (register ct_eq g sh p true) as [[a g1]|e]; cbn [mbind result_bind]; naive_solver.
Qed.

Lemma admit_Held g sh p r gen sup g' : registry_inv g -> preface_ok p ->
  admit_peer ct_eq g sh p = Ok (PendingAuthorization r gen sup, g') <->
  opener (role p) = peer (local g) /\ sh = shape (role p) /\ holdable g p /\
  (forall held, pending (lanes g (role p)) = Some held -> lane_generation held < lane_generation p) /\
  r = role p /\ gen = lane_generation p /\
  sup = (fun held => superseded_for_role (role p) (lane_generation held)) <$> pending (lanes g (role p)) /\
  g' = set_slot g (role p) (mkSlot (state (lanes g (role p))) (highest (lanes g (role p)))
         (consecutive_failures (lanes g (role p))) (Some p)).
Proof.
  intros Hi Hp. unfold admit_peer, endpoint_eq, holdable.
  destruct (bool_decide_reflect (opener (role p) = peer (local g))) as [Eop|]; cbn [negb guard_err mbind result_bind];
    [|naive_solver].
  assert ((is_unauthorized g && bool_decide (local g = Deck) && requires_attachment (role p) = true) <->
    phase g = Unauthorized /\ local g = Deck /\ role p <> Control) as Hh.
  { rewrite !andb_true_iff, bool_decide_eq_true, requires_spec. unfold is_unauthorized. destruct (phase g); naive_solver. }
  destruct (is_unauthorized g && bool_decide (local g = Deck) && requires_attachment (role p)).
  - unfold hold_pending, shape_eq. case_bool_decide as Esh; cbn [negb guard_err mbind result_bind]; [|naive_solver].
    destruct (pending (lanes g (role p))) as [held|] eqn:Ep; cbn [mbind result_bind fmap option_fmap option_map].
    + destruct (Z.leb_spec (lane_generation p) (lane_generation held)); cbn [mbind result_bind].
      * split; [done|]. intros (_ & _ & _ & Hlt & _). specialize (Hlt held eq_refl). lia.
      * split; [intros [= <- <- <- <-]|by intros (_ & _ & _ & _ & -> & -> & -> & ->)].
        split_and!; try done; [naive_solver..|]. by intros ? [= <-].
    + naive_solver.
  - split; [|naive_solver]. intros H. destruct (register ct_eq g sh p true) as [[a g1]|]; done.
Qed.

(** ** Recovery *)

Definition is_reopen (r : LaneRole) (a : LaneRecoveryAction) : bool :=
  match a with Reopen r' _ _ _ _ _ => bool_decide (r' = r) | _ => false end.

(** How often a run asks for a role to be reopened. *)
Fixpoint reopens (r : LaneRole) (g : LaneRegistry) (ops : list RegistryOp) : Z :=
  match ops with
  | [] => 0
  | op :: ops =>
    match op with
    | ReportFailure r' gen f => if is_reopen r (fst (report_failure g r' gen f)) then 1 else 0
    | _ => 0
    end + reopens r (registry_step g op) ops
  end.

(** A run in which the role never delivers successfully. *)
Definition unhealthy (r : LaneRole) (op : RegistryOp) : Prop :=
  match op with MarkHealthy r' _ => r' <> r | _ => True end.

Definition failures (g : LaneRegistry) (r : LaneRole) : Z := consecutive_failures (lanes g r).

Lemma open_failures g r gen r' : failures (with_open g r gen) r' = failures g r'.
Proof. unfold failures. rewrite open_lanes. case_bool_decide as E; [by subst|done]. Qed.

Lemma set_failures g r s r' : consecutive_failures s = failures g r -> failures (set_slot g r s) r' = failures g r'.
Proof.
  intros E. unfold failures in *. destruct (decide (r = r')) as [<-|]; [by rewrite slot_same|by rewrite slot_other].
Qed.

Lemma register_failures g sh p allow adm g' r : register ct_eq g sh p allow = Ok (adm, g') -> failures g' r = failures g r.
Proof.
  intros H. unfold register in H. inv_ok. apply open_failures.
Qed.

Lemma resolve_failures l r : forall g acc, failures (fst (fold_left (resolve_pending ct_eq) l (g, acc))) r = failures g r.
Proof.
  induction l as [|x l IH]; intros g acc; [done|]. cbn [fold_left].
  assert (failures (fst (resolve_pending ct_eq (g, acc) x)) r = failures g r) as E.
  { cbn. destruct (pending (lanes g x)) as [held|]; [|done].
    match goal with |- context [register ct_eq ?g1 _ _ _] => assert (failures g1 r = failures g r) as E1 by by apply set_failures end.
    destruct (register _ _ _ _ _) as [[a g']|] eqn:Er; [|done]. apply register_failures with (r := r) in Er. cbn. congruence. }
  destruct (resolve_pending ct_eq (g, acc) x) as [g1 acc1]. rewrite IH. exact E.
Qed.

(** Apart from successful delivery, only a reported failure changes a role's
    count, and a reopening raises it by one. *)
Lemma step_failures g op r : registry_inv g -> unhealthy r op ->
  match op with
  | ReportFailure r' gen f =>
    failures (registry_step g op) r >= failures g r + (if is_reopen r (fst (report_failure g r' gen f)) then 1 else 0)
  | _ => failures (registry_step g op) r = failures g r
  end.
Proof.
  intros Hi Hu. destruct op as [r'|sh p|a roles|r' gen|r' gen f|reason]; cbn [registry_step unhealthy] in *.
  - destruct (open_local ct_eq g r') as [[p g']|e] eqn:E; cbn [next_registry]; [|done].
    apply open_local_Ok in E as (_ & _ & _ & adm & E); [|apply Hi]. by eapply register_failures.
  - unfold admit_peer. destruct (guard_err _ _); cbn [mbind result_bind next_registry]; [|done].
    case_match.
    + unfold hold_pending. destruct (guard_err _ _); cbn [mbind result_bind next_registry]; [|done].
      repeat case_match; cbn [mbind result_bind next_registry]; try done; by apply set_failures.
    + destruct (register ct_eq g sh p true) as [[adm g']|] eqn:Er; cbn [mbind result_bind next_registry]; [|done].
      by eapply register_failures.
  - unfold authorize. destruct (phase g); cbn [next_registry]; try done.
    destruct (fold_left _ _ _) as [g' l] eqn:E. cbn [next_registry].
    pose proof (resolve_failures LaneRole_ALL r (set_phase g (Authorized a (with_role roles Control))) []) as Hf.
    by rewrite E in Hf.
  - unfold mark_healthy. case_bool_decide; [|done]. unfold failures. by rewrite slot_other.
  - unfold report_failure. destruct (is_ended g); cbn [fst snd is_reopen]; [lia|].
    case_bool_decide; cbn [negb fst snd is_reopen]; [|lia]. rewrite failures_small by apply Hi.
    assert (forall st, failures (set_slot g r' (mkSlot st (highest (lanes g r')) (consecutive_failures (lanes g r') + 1)
       (pending (lanes g r')))) r = failures g r + (if bool_decide (r' = r) then 1 else 0)) as Hset.
    { intros st. unfold failures. case_bool_decide as E; [subst; by rewrite slot_same|]. rewrite slot_other by done. lia. }
    assert (forall x reason, failures (drop_pending (set_phase x reason)) r = failures x r) as Hdrop by done.
    repeat case_match; cbn [fst snd is_reopen] in *; rewrite ?Hdrop, Hset; try discriminate; case_bool_decide; lia || congruence.
  - done.
Qed.

Lemma reopen_room g r' gen f r : core g -> is_reopen r (fst (report_failure g r' gen f)) = true ->
  failures g r + 1 <= max_consecutive_failures (policy_for_role r).
Proof.
  intros Hc. unfold report_failure. destruct (is_ended g); [done|].
  case_bool_decide; cbn [negb]; [|done]. rewrite failures_small by done.
  case_bool_decide; [done|].
  destruct (Z.ltb_spec (max_consecutive_failures (policy_for_role r')) (consecutive_failures (lanes g r') + 1)).
  - by destruct (exhausted _).
  - cbn. intros E. apply bool_decide_eq_true in E as ->. done.
Qed.

Lemma reopens_bound ops r : forall g, registry_inv g -> Forall op_ok ops -> Forall (unhealthy r) ops ->
  reopens r g ops <= Z.max 0 (max_consecutive_failures (policy_for_role r) - failures g r).
Proof.
  induction ops as [|op ops IH]; intros g Hi Hops Hu; [cbn; lia|].
  apply Forall_cons in Hops as [Ho Hops]. apply Forall_cons in Hu as [Hu Hus]. cbn [reopens].
  pose proof (step_failures g op r Hi Hu) as Hf.
  specialize (IH (registry_step g op) (proj1 (registry_step_inv g op Hi Ho)) Hops Hus).
  destruct op as [| | | |r' gen f|]; try lia.
  pose proof (reopen_room g r' gen f r (proj1 Hi)) as Hr.
  destruct (is_reopen r (fst (report_failure g r' gen f))); [specialize (Hr eq_refl)|]; lia.
Qed.

(** The state a role keeps across another role's failure. *)
Definition same_lane (s s' : LaneSlot) : Prop :=
  state s' = state s /\ highest s' = highest s /\ consecutive_failures s' = consecutive_failures s.

(** What a failure of a current lane leads to. *)
Definition recovery_outcome (g : LaneRegistry) (r : LaneRole) (gen : Z) (f : LaneFailure)
    (act : LaneRecoveryAction) (g' : LaneRegistry) : Prop :=
  let policy := policy_for_role r in
  if bool_decide (failures g r < max_consecutive_failures policy) then
    act = Reopen r gen (opener r) (requires_reset f) (requires_keyframe policy) (release_held_input policy) /\
    state (lanes g' r) = Recovering gen f /\ phase g' = phase g
  else
    match exhausted policy with
    | DisableVisibly =>
      act = Disable r (requires_reset f) /\ state (lanes g' r) = Disabled RecoveryExhausted /\ phase g' = phase g
    | ExhaustEndAttachment =>
      let reason := if bool_decide (r = Control) then ControlFailed else LaneExhausted r in
      act = EndAttachment r (requires_reset f) reason /\ phase g' = Ended reason
    end.

Lemma report_scoped g r gen f r' : r' <> r ->
  same_lane (lanes g r') (lanes (snd (report_failure g r gen f)) r').
Proof.
  intros Hr. unfold report_failure. destruct (is_ended g); [done|]. case_bool_decide; cbn [negb]; [|done].
  assert (forall s, same_lane (lanes g r') (lanes (set_slot g r s) r')) as Hset by (intros s; by rewrite slot_other).
  repeat case_match; cbn [snd]; apply Hset.
Qed.

Lemma report_outcome g r gen f : registry_inv g -> is_ended g = false -> state (lanes g r) = Open gen ->
  recovery_outcome g r gen f (fst (report_failure g r gen f)) (snd (report_failure g r gen f)).
Proof.
  intros [Hc _] He Ho. unfold recovery_outcome, report_failure. rewrite He, (bool_decide_eq_true_2 (state (lanes g r) = Open gen)) by done.
  cbn [negb]. rewrite failures_small by done. fold (failures g r).
  pose proof (ok_count _ _ (core_slots _ Hc r)) as Hcnt. fold (failures g r) in Hcnt.
  assert (forall st, state (lanes (set_slot g r (mkSlot st (highest (lanes g r)) (failures g r + 1)
      (pending (lanes g r)))) r) = st) as Hset by (intros; by rewrite slot_same).
  destruct (decide (r = Control)) as [->|Hr].
  - rewrite !(bool_decide_eq_true_2 (Control = Control)) by done. rewrite bool_decide_eq_false_2 by (cbn; lia). done.
  - rewrite !(bool_decide_eq_false_2 (r = Control)) by done.
    destruct (Z.ltb_spec (max_consecutive_failures (policy_for_role r)) (failures g r + 1)).
    + rewrite bool_decide_eq_false_2 by lia. destruct (exhausted (policy_for_role r)); cbn [fst snd]; [|done].
      split_and!; [done|apply Hset|done].
    + rewrite bool_decide_eq_true_2 by lia. cbn [fst snd]. split_and!; [done|apply Hset|done].
Qed.
End Registry.

(** ** Theorems on one registry *)

Definition ct_eq_law (ct_eq : list Z -> list Z -> bool) : Prop :=
  forall a b, length a = length b -> ct_eq a b = true <-> a = b.

Definition bytes_eq (a b : list Z) : bool := bool_decide (a = b).
Lemma bytes_eq_law : ct_eq_law bytes_eq.
Proof. intros a b _. apply bool_decide_eq_true. Qed.

(** No payload before authorization. After any sequence of operations, a
    lane on which a payload may be sent is open in the sending direction with
    the newest generation its role has seen, the attachment has not ended,
    and the lane is the control lane or its role is one the authorized
    attachment grants; lanes are held only on the client, for roles the host
    opens, while authorization is pending. *)
Theorem sends_are_authorized ct_eq e ops r gen held : ct_eq_law ct_eq -> Forall op_ok ops ->
  let g := registry_run ct_eq (LaneRegistry_new e) ops in
  (check_send g r = Ok gen ->
   lane_state g r = Open gen /\ highest (lanes g r) = Some gen /\ may_send r e = true /\
   (r = Control \/ exists a roles, phase g = Authorized a roles /\ contains roles r = true /\ attachment_ok a)) /\
  (pending (lanes g r) = Some held ->
   e = Deck /\ opener r = Pier /\ phase g = Unauthorized /\ role held = r /\ check_send g r <> Ok gen).
Proof.
  intros Hct Hops g. pose proof (registry_run_inv ct_eq Hct ops _ (new_inv e) Hops) as [Hc Hh]. fold g in Hc, Hh.
  assert (local g = e) as Hl by exact (run_local ct_eq ops (LaneRegistry_new e)).
  assert (check_send g r = Ok gen ->
   lane_state g r = Open gen /\ highest (lanes g r) = Some gen /\ may_send r e = true /\
   (r = Control \/ exists a roles, phase g = Authorized a roles /\ contains roles r = true /\ attachment_ok a)) as Hs.
  { unfold check_send. destruct (is_ended g) eqn:Ee; [done|]. rewrite Hl.
    destruct (may_send r e); cbn [negb]; [|done].
    destruct (lane_state g r) eqn:Es; try done. intros [= ->].
    split_and!; [done|by apply (ok_open _ _ (core_slots _ Hc r))|done|].
    pose proof (core_openable _ Hc r) as Ho. unfold lane_state in Es. rewrite Es in Ho. specialize (Ho ltac:(done)).
    pose proof (core_phase _ Hc) as Hp. unfold openable, phase_ok, is_ended in *.
    destruct (phase g) as [| |a roles|]; try done; [by left|]. destruct Ho as [Ho|Ho]; [by left|right; by exists a, roles]. }
  split; [done|]. intros Hp. destruct (Hh _ _ Hp) as (Hu & Hd & Ho).
  destruct (ok_held _ _ (core_slots _ Hc r) _ Hp) as (Hr & _ & Hnc).
  split_and!; try done; [congruence|]. intros E. destruct (Hs E) as (_ & _ & _ & [?|(? & ? & ? & _)]); congruence.
Qed.

Definition video_grant : LaneRoleSet := from_roles [Video; InputCursor].
Definition control_lane : LanePreface := control_preface 1.
Definition sample_ops : list RegistryOp :=
  [OpenLocal Control; AdmitPeer Unidirectional (mkPreface Video (Some sample_attachment) 4);
   AdmitPeer Unidirectional (mkPreface Video (Some sample_attachment) 6);
   Authorize sample_attachment video_grant; OpenLocal InputCursor; ReportFailure InputCursor 1 PeerReset;
   OpenLocal InputCursor].

Lemma sample_ops_ok : Forall op_ok sample_ops.
Proof.
  pose proof sample_attachment_ok as Ha.
  repeat (apply Forall_cons; split; [cbn; unfold preface_ok; cbn; try done|]); [..|constructor]; split_and!; done.
Qed.

Lemma sends_are_authorized_witness :
  let g := registry_run bytes_eq (LaneRegistry_new Deck) sample_ops in
  check_send g InputCursor = Ok 2 /\ highest (lanes g InputCursor) = Some 2 /\ lane_state g Video = Open 6.
Proof.
  split; [by vm_compute|]. split; [|by vm_compute].
  apply (sends_are_authorized bytes_eq Deck sample_ops InputCursor 2 sample_preface);
    [exact bytes_eq_law|exact sample_ops_ok|by vm_compute].
Defined.

(** A lane generation is used once. Over any sequence of operations - own
    lanes opened, peers admitted or superseding, held lanes resolved by
    [authorize] - the generations opened for a role strictly increase, each
    above everything the role has seen, and the slot remembers the last. *)
Theorem lane_generations_ascend ct_eq e ops r : ct_eq_law ct_eq -> Forall op_ok ops ->
  let g := LaneRegistry_new e in
  StronglySorted Z.lt (gens r (run_opens ct_eq g ops)) /\
  last (gens r (run_opens ct_eq g ops)) = highest (lanes (registry_run ct_eq g ops) r).
Proof.
  intros Hct Hops g. pose proof (run_ascends ct_eq Hct ops _ (new_inv e) Hops r) as Ha.
  split; [by apply ascending_above in Ha as [Hs _]|].
  revert Ha. change (highest (lanes (LaneRegistry_new e) r)) with (@None Z). fold g.
  generalize (gens r (run_opens ct_eq g ops)) (highest (lanes (registry_run ct_eq g ops) r)). clear.
  intros l h'. assert (forall h, ascending h l h' -> match last l with Some x => h' = Some x | None => h' = h end) as H.
  { induction l as [|x l IH]; intros h; cbn [ascending]; [done|]. intros [_ Hl]. specialize (IH _ Hl).
    rewrite last_cons. by destruct (last l). }
  intros Ha. specialize (H None Ha). by destruct (last l).
Qed.

Lemma lane_generations_ascend_witness :
  gens InputCursor (run_opens bytes_eq (LaneRegistry_new Deck) sample_ops) = [1; 2] /\
  StronglySorted Z.lt (gens InputCursor (run_opens bytes_eq (LaneRegistry_new Deck) sample_ops)).
Proof.
  split; [by vm_compute|].
  apply (lane_generations_ascend bytes_eq Deck sample_ops InputCursor bytes_eq_law sample_ops_ok).
Defined.

(** C34: The admission decision. After any sequence of operations, a stream of
    the peer is admitted exactly when the peer opens the role, with the
    role's shape, and either it is the first control lane or the attachment
    is authorized, grants the role and is the one the preface names, and the
    role is not disabled and has seen no generation as new as this one; the
    admission names the open lane it replaces and opens nothing else. It is
    held exactly when the client awaits authorization and holds no generation
    as new as this one. *)
Theorem admission_exact ct_eq e ops sh p : ct_eq_law ct_eq -> Forall op_ok ops -> preface_ok p ->
  let g := registry_run ct_eq (LaneRegistry_new e) ops in
  let r := role p in
  (forall adm g', admit_peer ct_eq g sh p = Ok (LaneAdmitted adm, g') <->
     opener r = peer e /\ sh = shape r /\
     ((r = Control /\ phase g = AwaitingControl) \/
      (exists a roles, r <> Control /\ phase g = Authorized a roles /\ contains roles r = true /\ attachment p = Some a)) /\
     (forall reason, lane_state g r <> Disabled reason) /\
     (forall h, highest (lanes g r) = Some h -> h < lane_generation p) /\
     adm = mkAdmission r (lane_generation p) (granted_generation g r) (replaced r (lane_state g r)) /\
     g' = with_open g r (lane_generation p)) /\
  ((exists held g', admit_peer ct_eq g sh p = Ok (PendingAuthorization r (lane_generation p) held, g')) <->
     opener r = Pier /\ sh = shape r /\ phase g = Unauthorized /\ e = Deck /\
     (forall h, pending_generation g r = Some h -> h < lane_generation p)).
Proof.
  intros Hct Hops Hp g r. pose proof (registry_run_inv ct_eq Hct ops _ (new_inv e) Hops) as Hi. fold g in Hi.
  assert (local g = e) as Hl by exact (run_local ct_eq ops (LaneRegistry_new e)).
  split.
  - intros adm g'. rewrite (admit_Admitted ct_eq Hct) by (done || apply Hi). rewrite Hl. fold r.
    unfold slot_admits, entitled, lane_state. fold r. split; [tauto|].
    intros (Ho & Hs & He & Hd & Hh & Hadm). split_and!; try tauto. intros open Eo. split; [done|].
    specialize (Hh open (ok_open _ _ (core_slots _ (proj1 Hi) r) _ Eo)). lia.
  - unfold pending_generation. split.
    + intros (held & g' & H). apply (admit_Held ct_eq) in H as (Ho & Hs & (Hu & Hd & Hr) & Hh & _); [|done..].
      rewrite Hd in Ho. split_and!; try done; [congruence|].
      intros h Eh. apply fmap_Some in Eh as (x & Ex & ->). by apply Hh.
    + intros (Ho & Hs & Hu & He & Hh). rewrite He in Hl. eexists _, _. apply (admit_Held ct_eq); [done..|].
      rewrite Hl. split_and!; try done.
      * unfold holdable. split_and!; [done..|]. intros E. unfold r in Ho. by rewrite E in Ho.
      * intros held Eh. apply Hh. fold r in Eh. by rewrite Eh.
Qed.

Lemma admission_exact_witness :
  let g := registry_run bytes_eq (LaneRegistry_new Deck) sample_ops in
  exists g', admit_peer bytes_eq g Unidirectional (mkPreface Video (Some sample_attachment) 9)
    = Ok (LaneAdmitted (mkAdmission Video 9 (Some 3) (Some (mkSuperseded 6 true false true))), g').
Proof.
  eexists. apply (admission_exact bytes_eq Deck sample_ops Unidirectional (mkPreface Video (Some sample_attachment) 9)
    bytes_eq_law sample_ops_ok).
  - pose proof sample_attachment_ok. unfold preface_ok. cbn. done.
  - split_and!.
    + by vm_compute.
    + done.
    + right. exists sample_attachment, (with_role video_grant Control). split_and!; by vm_compute.
    + intros reason. by vm_compute.
    + intros h Hh. vm_compute in Hh. injection Hh as <-. by vm_compute.
    + by vm_compute.
    + reflexivity.
Defined.

(** Recovery is lane-scoped and bounded. After any sequence of
    operations, the failure of a current lane of a live attachment has the
    outcome of its role's policy - reopen, disable or end, by whether the
    role's bound is used up -, any other report changes nothing, no other
    role's state, generation or failure count changes, and from then on a role
    that never delivers is reopened at most as often as its policy allows. *)
Theorem recovery_scoped_bounded ct_eq e ops r gen f later : ct_eq_law ct_eq -> Forall op_ok ops ->
  let g := registry_run ct_eq (LaneRegistry_new e) ops in
  let '(act, g') := report_failure g r gen f in
  (if negb (is_ended g) && bool_decide (lane_state g r = Open gen) then recovery_outcome g r gen f act g'
   else act = Superseded /\ g' = g) /\
  (forall r', r' <> r -> same_lane (lanes g r') (lanes g' r')) /\
  (Forall op_ok later -> Forall (unhealthy r) later ->
   reopens ct_eq r g later <= max_consecutive_failures (policy_for_role r) <= 3).
Proof.
  intros Hct Hops g. pose proof (registry_run_inv ct_eq Hct ops _ (new_inv e) Hops) as Hi. fold g in Hi.
  clearbody g. clear Hops.
  assert (forall act g', report_failure g r gen f = (act, g') ->
    if negb (is_ended g) && bool_decide (lane_state g r = Open gen) then recovery_outcome g r gen f act g'
    else act = Superseded /\ g' = g) as Hout.
  { intros act g' E. destruct (is_ended g) eqn:Ee; cbn [negb andb].
    - unfold report_failure in E. rewrite Ee in E. by injection E as <- <-.
    - case_bool_decide as Eo.
      + pose proof (report_outcome g r gen f Hi Ee Eo) as H. by rewrite E in H.
      + unfold report_failure in E. unfold lane_state in Eo. rewrite Ee, bool_decide_eq_false_2 in E by done.
        by injection E as <- <-. }
  pose proof (fun r' => report_scoped g r gen f r') as Hsc.
  destruct (report_failure g r gen f) as [act g'] eqn:E. split_and!; [by apply Hout|exact Hsc|].
intros Hl Hu. pose proof (reopens_bound ct_eq Hct later r g Hi Hl Hu) as Hb.
    pose proof (ok_count _ _ (core_slots _ (proj1 Hi) r)) as Hc. pose proof (policy_bounds r). unfold failures in Hb. lia.
Qed.

Definition fail_and_reopen (gen : Z) : list RegistryOp := [ReportFailure InputCursor gen PartialFrame; OpenLocal InputCursor].

Lemma recovery_scoped_bounded_witness :
  let g := registry_run bytes_eq (LaneRegistry_new Deck) sample_ops in
  let later := fail_and_reopen 2 ++ fail_and_reopen 3 ++ fail_and_reopen 4 in
  reopens bytes_eq InputCursor g later = 2 /\ reopens bytes_eq InputCursor g later <= 3 /\
  phase (registry_run bytes_eq g later) = Ended (LaneExhausted InputCursor).
Proof.
  split; [by vm_compute|]. split; [|by vm_compute].
  pose proof (recovery_scoped_bounded bytes_eq Deck sample_ops InputCursor 2 PartialFrame
    (fail_and_reopen 2 ++ fail_and_reopen 3 ++ fail_and_reopen 4) bytes_eq_law sample_ops_ok) as H.
  cbv zeta in H. destruct (report_failure _ _ _ _) as [act g']. destruct H as (_ & _ & H).
  apply H; repeat constructor.
Defined.
