(* ===== verification/LaneSession.v ===== *)
(** * Transport: two lane registries and the streams between them

    Composes [LaneRegistry] (of [shared/transport/src/lanes.rs]) on both
    endpoints of a session with the wire formats of [LaneWire]: each endpoint
    opens lanes by writing the preface bytes on a new stream, streams arrive
    in any order or not at all (QUIC gives no order across streams), the host
    sends its attachment grant once it has authorized, and the client
    validates the grant before it authorizes. *)

From stdpp Require Import functions.
From S2P Require Import Prelude ProtocolWire LaneWire LaneRegistry.

Record Session := mkSession {
  regs : LaneEndpoint -> LaneRegistry;
  granted : option (LaneAttachment * LaneRoleSet);
  air : list (LaneEndpoint * list Z)
}.

Definition Session_new : Session := mkSession LaneRegistry_new None [].

Inductive SessionEvent :=
| SessOpen (e : LaneEndpoint) (r : LaneRole)
| SessDeliver (i : nat)
| SessLose (i : nat)
| SessGrant (a : LaneAttachment) (roles : LaneRoleSet)
| SessAccept
| SessFail (e : LaneEndpoint) (r : LaneRole) (gen : Z) (f : LaneFailure)
| SessHealthy (e : LaneEndpoint) (r : LaneRole) (gen : Z)
| SessEnd (e : LaneEndpoint) (reason : LaneEndReason).

Section Session.
Context (ct_eq : list Z -> list Z -> bool).

Definition apply_op (s : Session) (e : LaneEndpoint) (op : RegistryOp) : LaneEndpoint -> LaneRegistry :=
  <[e := registry_step ct_eq (regs s e) op]> (regs s).

Definition session_step (s : Session) (ev : SessionEvent) : Session :=
  match ev with
  | SessOpen e r =>
    match open_local ct_eq (regs s e) r with
    | Ok (p, _) => mkSession (apply_op s e (OpenLocal r)) (granted s) (air s ++ [(e, encode_preface p)])
    | Err _ => s
    end
  | SessDeliver i =>
    match air s !! i with
    | Some (e, bytes) =>
      match decode_preface bytes with
      | Ok p => mkSession (apply_op s (peer e) (AdmitPeer (shape (role p)) p)) (granted s) (delete i (air s))
      | Err _ => mkSession (regs s) (granted s) (delete i (air s))
      end
    | None => s
    end
  | SessLose i => mkSession (regs s) (granted s) (delete i (air s))
  | SessGrant a roles =>
    match authorize ct_eq (regs s Pier) a roles with
    | Ok _ => mkSession (apply_op s Pier (Authorize a roles)) (Some (a, roles)) (air s)
    | Err _ => s
    end
  | SessAccept =>
    match granted s with
    | Some (a, roles) =>
      match validate_attachment (LaneAttachmentMsg_new a roles) with
      | Ok (a, roles) => mkSession (apply_op s Deck (Authorize a roles)) (granted s) (air s)
      | Err _ => s
      end
    | None => s
    end
  | SessFail e r gen f => mkSession (apply_op s e (ReportFailure r gen f)) (granted s) (air s)
  | SessHealthy e r gen => mkSession (apply_op s e (MarkHealthy r gen)) (granted s) (air s)
  | SessEnd e reason => mkSession (apply_op s e (EndLanes reason)) (granted s) (air s)
  end.

Definition session_run (s : Session) (evs : list SessionEvent) : Session := fold_left session_step evs s.
End Session.

Definition event_ok (ev : SessionEvent) : Prop :=
  match ev with SessGrant a _ => attachment_ok a | _ => True end.

Section Invariant.
Context (ct_eq : list Z -> list Z -> bool).
Hypothesis ct_eq_spec : ct_eq_law ct_eq.

(** ** What a registry has seen *)

Definition seen (g : LaneRegistry) (r : LaneRole) (h : Z) : Prop :=
  highest (lanes g r) = Some h \/ exists q, pending (lanes g r) = Some q /\ lane_generation q = h.

(** [learns g l g']: everything [g'] has seen, [g] had seen or [l] shows. *)
Definition learns (g : LaneRegistry) (l : list (LaneRole * Z)) (g' : LaneRegistry) : Prop :=
  forall r h, seen g' r h -> seen g r h \/ (r, h) ∈ l.

Lemma learns_same g g' : (forall r, highest (lanes g' r) = highest (lanes g r)) ->
  (forall r, pending (lanes g' r) = pending (lanes g r) \/ pending (lanes g' r) = None) -> learns g [] g'.
Proof.
  intros Hh Hp r h [E|(q & Eq & E)]; left; [left; by rewrite <- Hh|].
  destruct (Hp r) as [Ep|Ep]; [|congruence]. right. exists q. by rewrite <- Ep.
Qed.

Lemma learns_open g r gen : learns g [(r, gen)] (with_open g r gen).
Proof.
  intros r' h. unfold seen. rewrite open_lanes. case_bool_decide as E; [subst r'|by left].
  intros [[= <-]|(q & Eq & Ep)]; [right; by left|]. left. right. by exists q.
Qed.

Lemma resolve_learns g acc r : core g ->
  learns g [] (fst (resolve_pending ct_eq (g, acc) r)).
Proof.
  intros Hc. cbn. fold (unheld (lanes g r)). destruct (pending (lanes g r)) as [held|] eqn:Ep; [|by intros r' h; left].
  destruct (ok_held _ _ (core_slots _ Hc r) _ Ep) as (Hr & Hp & Hnc).
  assert (learns g [] (set_slot g r (unheld (lanes g r)))) as Hl.
  { apply learns_same; intros r'; (destruct (decide (r = r')) as [<-|]; [rewrite slot_same|rewrite slot_other by done]); auto. }
  destruct (register _ _ _ _ _) as [[a g']|] eqn:Er; [|done].
  unfold register in Er. inv_ok. intros r' h Hs. apply learns_open in Hs as [Hs|Hs]; [by apply Hl|].
  apply list_elem_of_singleton in Hs as [= -> ->]. left. right. by exists held.
Qed.

Lemma fold_learns l : forall g acc, NoDup l -> core g -> authorized g ->
  learns g [] (fst (fold_left (resolve_pending ct_eq) l (g, acc))).
Proof.
  induction l as [|r l IH]; intros g acc Hnd Hc Ha; [by intros r h; left|].
  apply NoDup_cons in Hnd as [_ Hnd]. cbn [fold_left]. pose proof (resolve_learns g acc r Hc) as Hl.
  destruct (resolve_pending ct_eq (g, acc) r) as [g1 acc1] eqn:E1.
  destruct (resolve_spec ct_eq ct_eq_spec _ _ _ _ _ Hc Ha E1) as (Hc1 & Hph & _).
  intros r' h Hs. apply (IH g1 acc1 Hnd Hc1) in Hs as [Hs|Hs]; [by apply Hl|by apply not_elem_of_nil in Hs|].
  unfold authorized. by rewrite Hph.
Qed.

(** What an operation shows a registry. *)
Definition shown (g : LaneRegistry) (op : RegistryOp) : list (LaneRole * Z) :=
  match op with
  | OpenLocal r => [(r, next_generation g r)]
  | AdmitPeer _ p => [(role p, lane_generation p)]
  | _ => []
  end.

Lemma step_learns g op : registry_inv g -> op_ok op -> learns g (shown g op) (registry_step ct_eq g op).
Proof.
  intros Hi Ho. destruct op as [r|sh p|a roles|r gen|r gen f|reason]; cbn [registry_step shown op_ok] in *.
  - destruct (open_local ct_eq g r) as [[p g']|e] eqn:E; cbn [next_registry]; [|by intros r' h; left].
    apply open_local_Ok in E as (_ & -> & _ & adm & E); [|done|apply Hi]. unfold register in E. inv_ok. apply learns_open.
  - destruct (admit_peer ct_eq g sh p) as [[[a|r gen sup] g']|e] eqn:E; cbn [next_registry]; [| |by intros r h; left].
    + apply admit_Admitted in E as (_ & _ & _ & _ & _ & ->); [apply learns_open|done|apply Hi|done].
    + apply admit_Held in E as (_ & _ & _ & _ & _ & _ & _ & ->); [|done..].
      intros r' h. unfold seen. destruct (decide (role p = r')) as [<-|]; [rewrite slot_same|rewrite slot_other by done; by left].
      cbn [highest pending]. intros [?|(q & [= <-] & <-)]; [by left; left|right; by left].
  - unfold authorize. destruct (phase g) eqn:Eph; cbn [next_registry]; try (by intros r h; left).
    destruct (fold_left _ _ _) as [g' l] eqn:Ef. cbn [next_registry].
    pose proof (fold_learns LaneRole_ALL (set_phase g (Authorized a (with_role roles Control))) [] ALL_NoDup) as Hl.
    rewrite Ef in Hl. apply Hl; [by apply set_authorized_core; [apply Hi|..]|by eexists _, _].
  - unfold mark_healthy. case_bool_decide; [|by intros r' h; left].
    apply learns_same; intros r'; (destruct (decide (r = r')) as [<-|]; [rewrite slot_same|rewrite slot_other by done]); auto.
  - apply learns_same; [apply report_highest|]. intros r'. apply report_pending.
  - by apply learns_same; auto.
Qed.

(** How an operation moves the phase. *)
Inductive phase_move (g : LaneRegistry) (op : RegistryOp) (g' : LaneRegistry) : Prop :=
| move_same : phase g' = phase g -> phase_move g op g'
| move_end : is_ended g' = true -> phase_move g op g'
| move_control gen : phase g = AwaitingControl -> phase g' = Unauthorized ->
    (Control, gen) ∈ shown g op -> phase_move g op g'
| move_authorize a roles : op = Authorize a roles -> phase g = Unauthorized ->
    phase g' = Authorized a (with_role roles Control) -> phase_move g op g'.

Lemma open_move g p op : entitled g p -> (role p, lane_generation p) ∈ shown g op ->
  phase_move g op (with_open g (role p) (lane_generation p)).
Proof.
  intros [[Er Ea]|(a & roles & Er & Ea & _)] Hs.
  - eapply move_control; [done|by rewrite open_phase, bool_decide_eq_true_2|]. rewrite Er in Hs. exact Hs.
  - apply move_same. by rewrite open_phase, bool_decide_eq_false_2.
Qed.

Lemma step_move g op : registry_inv g -> op_ok op -> phase_move g op (registry_step ct_eq g op).
Proof.
  intros Hi Ho. destruct op as [r|sh p|a roles|r gen|r gen f|reason]; cbn [registry_step op_ok] in *.
  - destruct (open_local ct_eq g r) as [[p g']|e] eqn:E; cbn [next_registry]; [|by apply move_same].
    apply open_local_Ok in E as (_ & -> & Hp & adm & E); [|done|apply Hi].
    apply register_Ok in E as (_ & He & _ & _ & ->); [|done|apply Hi|done]. apply open_move; [done|by left].
  - destruct (admit_peer ct_eq g sh p) as [[[a|r gen sup] g']|e] eqn:E; cbn [next_registry]; [| |by apply move_same].
    + apply admit_Admitted in E as (_ & _ & He & _ & _ & ->); [|done|apply Hi|done]. apply open_move; [done|by left].
    + apply admit_Held in E as (_ & _ & _ & _ & _ & _ & _ & ->); [|done..]. by apply move_same.
  - pose proof (authorize_spec ct_eq ct_eq_spec g a roles Hi Ho) as Ha.
    destruct (authorize ct_eq g a roles) as [[l g']|e]; cbn [next_registry]; [|by apply move_same].
    destruct Ha as (? & ? & _). by eapply move_authorize.
  - apply move_same. unfold mark_healthy. by case_bool_decide.
  - unfold report_failure. destruct (is_ended g); [by apply move_same|].
    case_bool_decide; cbn [negb]; [|by apply move_same].
    repeat case_match; cbn [snd]; try (by apply move_same); by apply move_end.
  - by apply move_end.
Qed.

Lemma ended_stays g op : registry_inv g -> op_ok op -> is_ended g = true -> is_ended (registry_step ct_eq g op) = true.
Proof.
  intros Hi Ho He. destruct (step_move g op Hi Ho) as [E|E|gen E _ _|a roles _ E _]; unfold is_ended in *; try done;
    [by rewrite E|by rewrite E in He..].
Qed.

(** Generations seen never shrink. *)
Lemma highest_grows g op r h : registry_inv g -> op_ok op -> highest (lanes g r) = Some h ->
  exists h', highest (lanes (registry_step ct_eq g op) r) = Some h' /\ h <= h'.
Proof.
  intros Hi Ho Hh. pose proof (proj2 (registry_step_inv ct_eq ct_eq_spec g op Hi Ho) r) as Ha. rewrite Hh in Ha.
  generalize dependent (highest (lanes (registry_step ct_eq g op) r)).
  generalize (gens r (op_opens ct_eq g op)). intros l. clear Hh. revert h.
  induction l as [|x l IH]; intros h o; cbn [ascending].
  - intros ->. exists h. split; [done|lia].
  - intros [Hx Hl]. destruct (IH _ _ Hl) as (h' & -> & Hle). exists h'. split; [done|]. specialize (Hx h eq_refl). lia.
Qed.

(** ** The session invariant: generations *)

Definition key (p : LanePreface) : LaneRole * Z := (role p, lane_generation p).

(** [sent rs r h]: the opener of the role has used a generation as new. *)
Definition sent (rs : LaneEndpoint -> LaneRegistry) (r : LaneRole) (h : Z) : Prop :=
  exists top, highest (lanes (rs (opener r)) r) = Some top /\ h <= top.

Definition received (rs : LaneEndpoint -> LaneRegistry) (r : LaneRole) (h : Z) : Prop := seen (rs (peer (opener r))) r h.

Record lanes_ok (rs : LaneEndpoint -> LaneRegistry) (ps : list LanePreface) : Prop := {
  lo_local : forall e, local (rs e) = e;
  lo_inv : forall e, registry_inv (rs e);
  lo_received : forall r h, received rs r h -> sent rs r h;
  lo_unique : NoDup (map key ps);
  lo_air : forall p, p ∈ ps -> preface_ok p /\ sent rs (role p) (lane_generation p) /\
             ~ received rs (role p) (lane_generation p)
}.

Lemma peer_ne e : peer e <> e.
Proof. by destruct e. Qed.

Lemma peer_other e e' : e <> e' -> e' = peer e.
Proof. by destruct e, e'. Qed.

Lemma update_lanes rs ps ps' e op : lanes_ok rs ps -> op_ok op -> sublist ps' ps ->
  (forall r h, (r, h) ∈ shown (rs e) op -> opener r <> e -> sent rs r h /\ ((r, h) ∉ map key ps')) ->
  lanes_ok (<[e := registry_step ct_eq (rs e) op]> rs) ps'.
Proof.
  intros [Hl Hi Hr Hu Ha] Ho Hsub Hsh.
  set (rs' := <[e := registry_step ct_eq (rs e) op]> rs).
  assert (forall e', rs' e' = rs e' \/ (e' = e /\ rs' e' = registry_step ct_eq (rs e) op)) as Hrs.
  { intros e'. unfold rs'. destruct (decide (e = e')) as [<-|]; [right; by rewrite fn_lookup_insert|left; by rewrite fn_lookup_insert_ne]. }
  assert (forall r h, sent rs r h -> sent rs' r h) as Hsent.
  { intros r h (top & Ht & Hle). unfold sent. destruct (Hrs (opener r)) as [->|[Ee ->]]; [by exists top|].
    rewrite Ee in Ht. destruct (highest_grows _ op _ _ (Hi e) Ho Ht) as (h' & -> & ?). exists h'. split; [done|lia]. }
  assert (forall r h, received rs' r h -> received rs r h \/ ((r, h) ∈ shown (rs e) op /\ opener r <> e)) as Hrec.
  { intros r h. unfold received. destruct (Hrs (peer (opener r))) as [->|[Ee ->]]; [by left|]. intros Hs.
    apply step_learns in Hs as [Hs|Hs]; [left; by rewrite Ee|right|done..]. split; [done|].
    intros E. rewrite E in Ee. by apply peer_ne in Ee. }
  constructor.
  - intros e'. destruct (Hrs e') as [->|[-> ->]]; [done|]. by rewrite step_local.
  - intros e'. destruct (Hrs e') as [->|[-> ->]]; [done|]. by apply registry_step_inv.
  - intros r h H. apply Hsent. apply Hrec in H as [H|[H1 H2]]; [by apply Hr|by apply Hsh].
  - apply (sublist_NoDup _ (map key ps)); [done|]. by apply (fmap_sublist key).
  - intros p Hp. assert (p ∈ ps) as Hp' by by eapply elem_of_sublist.
    destruct (Ha p Hp') as (Hok & Hs & Hn). split_and!; [done|by apply Hsent|]. intros H.
    apply Hrec in H as [H|[H1 H2]]; [done|]. destruct (Hsh _ _ H1 H2) as [_ Hf]. apply Hf.
    change (role p, lane_generation p) with (key p). by apply list_elem_of_fmap_2.
Qed.

(** ** The session invariant: phases *)

Definition unopened (g : LaneRegistry) : Prop := phase g = AwaitingControl \/ is_ended g = true.

(** What a stream in flight is bound to. *)
Definition bound (s : Session) (p : LanePreface) : Prop :=
  match attachment p with
  | None => lane_generation p = 1 /\ unopened (regs s Pier)
  | Some a => exists roles, granted s = Some (a, roles) /\ contains roles (role p) = true
  end.

Definition pier_granted (s : Session) : Prop :=
  match phase (regs s Pier) with
  | Authorized a rs => exists roles, granted s = Some (a, roles) /\ rs = with_role roles Control
  | Ended _ => True
  | _ => granted s = None
  end.

Definition deck_granted (s : Session) : Prop :=
  match phase (regs s Deck) with
  | AwaitingControl => granted s = None /\ unopened (regs s Pier)
  | Authorized a rs => exists roles, granted s = Some (a, roles) /\ forall r, r <> Control -> contains rs r = contains roles r
  | _ => True
  end.

Record session_inv (s : Session) (ps : list LanePreface) : Prop := {
  si_lanes : lanes_ok (regs s) ps;
  si_air : air s = map (fun p => (opener (role p), encode_preface p)) ps;
  si_bound : forall p, p ∈ ps -> bound s p;
  si_pier : pier_granted s;
  si_deck : deck_granted s;
  si_granted : forall a roles, granted s = Some (a, roles) -> attachment_ok a
}.

Lemma session_new_inv : session_inv Session_new [].
Proof.
  constructor; try done; [|by intros p ?%not_elem_of_nil|by split; [|left]].
  constructor; try done; [intros e; apply new_inv| |constructor|by intros p ?%not_elem_of_nil].
  intros r h [H|(q & H & _)]; done.
Qed.

Definition flying (ps : list LanePreface) : list (LaneEndpoint * list Z) :=
  map (fun p => (opener (role p), encode_preface p)) ps.

Lemma apply_same s e op : apply_op ct_eq s e op e = registry_step ct_eq (regs s e) op.
Proof. apply fn_lookup_insert. Qed.
Lemma apply_other s e op e' : e <> e' -> apply_op ct_eq s e op e' = regs s e'.
Proof. apply fn_lookup_insert_ne. Qed.

Lemma unopened_step g op : registry_inv g -> op_ok op -> (forall gen, (Control, gen) ∈ shown g op -> False) ->
  unopened g -> unopened (registry_step ct_eq g op).
Proof.
  intros Hi Ho Hc [Hu|Hu]; [|right; by apply ended_stays].
  destruct (step_move g op Hi Ho) as [E|E|gen _ _ E|a roles _ E _]; [left; congruence|by right|by destruct (Hc gen)|congruence].
Qed.

(** An operation that is no authorization. *)
Lemma update_session s ps ps' e op : session_inv s ps -> op_ok op -> (forall a roles, op <> Authorize a roles) ->
  sublist ps' ps ->
  (forall r h, (r, h) ∈ shown (regs s e) op -> opener r <> e ->
     sent (regs s) r h /\ ((r, h) ∉ map key ps')) ->
  (forall gen, (Control, gen) ∈ shown (regs s e) op -> e = Pier -> gen = 1) ->
  session_inv (mkSession (apply_op ct_eq s e op) (granted s) (flying ps')) ps'.
Proof.
  intros [Hl Ha Hb Hp Hd Hg] Ho Hna Hsub Hsh Hone.
  pose proof (step_move (regs s e) op (lo_inv _ _ Hl e) Ho) as Hm.
  assert (e = Pier -> unopened (regs s Pier) -> (forall gen, (Control, gen) ∈ shown (regs s e) op -> False) ->
    unopened (apply_op ct_eq s e op Pier)) as Hun.
  { intros -> Hu Hc. rewrite apply_same. by apply unopened_step; [apply (lo_inv _ _ Hl)|..]. }
  constructor; cbn [regs granted air]; [by apply update_lanes with ps|done| | | |done].
  - intros p Hin. assert (p ∈ ps) as Hin' by by eapply elem_of_sublist.
    specialize (Hb p Hin'). unfold bound in *. cbn [regs granted].
    destruct (attachment p) as [a|] eqn:Eat; [done|]. destruct Hb as [Hg1 Hu]. split; [done|].
    destruct e; [|by rewrite apply_other]. apply Hun; [done..|]. intros gen Hc.
    destruct (lo_air _ _ Hl p Hin') as ((_ & _ & Hok) & _). rewrite Eat in Hok.
    destruct (Hsh _ _ Hc ltac:(done)) as [_ Hf]. apply Hf. rewrite (Hone gen Hc eq_refl), <- Hok, <- Hg1.
    change (role p, lane_generation p) with (key p). by apply list_elem_of_fmap_2.
  - unfold pier_granted in *. cbn [regs granted]. destruct e; [rewrite apply_same|by rewrite apply_other].
    destruct Hm as [E|E|gen E1 E2 _|a roles E _ _]; [by rewrite E| |by rewrite E2, E1 in *|by destruct (Hna a roles)].
    unfold is_ended in E. by destruct (phase (registry_step _ _ _)).
  - unfold deck_granted in *. cbn [regs granted]. destruct e.
    + rewrite apply_other by done. destruct (phase (regs s Deck)) eqn:Ed; try done.
      destruct Hd as [? Hu]. split; [done|]. apply Hun; [done..|]. intros gen Hc.
      destruct (Hsh _ _ Hc ltac:(done)) as [(top & Ht & _) _]. cbn in Ht.
      by rewrite (core_awaiting _ (proj1 (lo_inv _ _ Hl Deck)) Ed) in Ht.
    + rewrite apply_same, apply_other by done.
      destruct Hm as [E|E|gen E1 E2 _|a roles E _ _]; [by rewrite E| |by rewrite E2|by destruct (Hna a roles)].
      unfold is_ended in E. by destruct (phase (registry_step _ _ _)).
Qed.

(** A new stream. *)
Lemma add_lane rs ps p : lanes_ok rs ps -> preface_ok p ->
  (forall q, q ∈ ps -> role q = role p -> lane_generation q < lane_generation p) ->
  (forall h, received rs (role p) h -> h < lane_generation p) ->
  sent rs (role p) (lane_generation p) -> lanes_ok rs (ps ++ [p]).
Proof.
  intros [Hl Hi Hr Hu Ha] Hp Hq Hh Hs. constructor; try done.
  - rewrite map_app. apply NoDup_app. split_and!; [done| |apply NoDup_singleton].
    intros k Hk ->%list_elem_of_singleton. apply list_elem_of_fmap in Hk as (q & E & Hin).
    injection E as E1 E2. specialize (Hq q Hin (eq_sym E1)). lia.
  - intros q [Hin| ->%list_elem_of_singleton]%elem_of_app; [by apply Ha|]. split_and!; [done..|].
    intros H. specialize (Hh _ H). lia.
Qed.

(** Opening a lane raises the role's highest generation. *)
Lemma open_local_effect g r p g' : registry_inv g -> open_local ct_eq g r = Ok (p, g') ->
  p = local_preface g r /\ opener r = local g /\ preface_ok p /\ entitled g p /\
  (forall h, highest (lanes g r) = Some h -> h < lane_generation p) /\
  highest (lanes g' r) = Some (lane_generation p).
Proof.
  intros Hi H. apply open_local_Ok in H as (Hop & -> & Hp & adm & Hr); [|done|apply Hi].
  apply register_Ok in Hr as (_ & He & (_ & _ & Hh) & _ & ->); [|done|apply Hi|done].
  split_and!; try done. rewrite open_lanes. by rewrite bool_decide_eq_true_2.
Qed.

Lemma open_session s ps e r : session_inv s ps ->
  exists ps', session_inv (session_step ct_eq s (SessOpen e r)) ps'.
Proof.
  intros Hi. cbn [session_step]. destruct (open_local ct_eq (regs s e) r) as [[p g']|] eqn:E; [|by exists ps].
  pose proof (lo_local _ _ (si_lanes _ _ Hi) e) as Hloc.
  destruct (open_local_effect _ _ _ _ (lo_inv _ _ (si_lanes _ _ Hi) e) E) as (Ep & Hop & Hp & He & Hlt & Hhi).
  rewrite Hloc in Hop. assert (role p = r) as Er by by rewrite Ep.
  assert (session_inv (mkSession (apply_op ct_eq s e (OpenLocal r)) (granted s) (flying ps)) ps) as Hi'.
  { apply update_session with ps; try done.
    - intros r' h [= -> ->]%list_elem_of_singleton. by intros ?.
    - intros gen [= <- _]%list_elem_of_singleton. by intros ->. }
  exists (ps ++ [p]). destruct Hi as [Hl Ha Hb Hpg Hd Hg], Hi' as [Hl' _ Hb' Hpg' Hd' Hg'].
  assert (apply_op ct_eq s e (OpenLocal r) e = g') as Eg by (rewrite apply_same; cbn; by rewrite E).
  constructor; cbn [regs granted air] in *; try done.
  - apply add_lane; [done|done| | |].
    + intros q Hq Eq. destruct (lo_air _ _ Hl q Hq) as (_ & (top & Ht & Hle) & _).
      rewrite Eq, Er, Hop in Ht. specialize (Hlt _ Ht). lia.
    + intros h. unfold received. rewrite Er, Hop, apply_other by (intros E'; by apply (peer_ne e)).
      intros Hs. destruct (lo_received _ _ Hl r h) as (top & Ht & Hle); [unfold received; by rewrite Hop|].
      rewrite Hop in Ht. specialize (Hlt _ Ht). lia.
    + unfold sent. rewrite Er, Hop, Eg. exists (lane_generation p). split; [done|lia].
  - unfold flying. rewrite Ha, map_app. cbn. by rewrite Er, Hop.
  - intros q [Hq| ->%list_elem_of_singleton]%elem_of_app; [by apply Hb'|]. unfold bound. cbn [regs granted].
    unfold local_preface in Ep. rewrite Ep. cbn [attachment lane_generation role].
    destruct (requires_attachment r) eqn:Ereq.
    + apply requires_spec in Ereq.
      destruct He as [[Ec _]|(a & roles & _ & Eph & Hc & Hat)]; [congruence|]. unfold registry_attachment. rewrite Eph.
      destruct e; [unfold pier_granted in Hpg; rewrite Eph in Hpg|unfold deck_granted in Hd; rewrite Eph in Hd].
      * destruct Hpg as (rs & Hgr & ->). exists rs. split; [done|]. rewrite Er, contains_with in Hc.
        by rewrite bool_decide_eq_false_2 in Hc.
      * destruct Hd as (rs & Hgr & Heq). exists rs. split; [done|]. rewrite <- Heq by done. by rewrite Er in Hc.
    + assert (r = Control) as -> by (by destruct r). cbn in Hop. subst e.
      destruct He as [[_ Eph]|(a & roles & Hnc & _)]; [|by rewrite Er in Hnc].
      unfold deck_granted in Hd. rewrite Eph in Hd. destruct Hd as [_ Hu].
      rewrite apply_other by done. split; [|done]. unfold next_generation.
      by rewrite (core_awaiting _ (proj1 (lo_inv _ _ Hl Deck)) Eph).
Qed.

(** A stream leaves the air. *)
Lemma flying_lookup ps i e bytes : flying ps !! i = Some (e, bytes) ->
  exists p, ps !! i = Some p /\ e = opener (role p) /\ bytes = encode_preface p.
Proof. change (flying ps) with ((fun p => (opener (role p), encode_preface p)) <$> ps). rewrite list_lookup_fmap. intros H. apply fmap_Some in H as (p & Hp & [= -> ->]). by exists p. Qed.

Lemma flying_delete ps i : delete i (flying ps) = flying (delete i ps).
Proof. symmetry. apply list_fmap_delete. Qed.

Lemma delete_sublist (ps : list LanePreface) i : sublist (delete i ps) ps.
Proof. apply sublist_delete. Qed.

Lemma deleted_key ps i p : NoDup (map key ps) -> ps !! i = Some p -> key p ∉ map key (delete i ps).
Proof.
  intros Hnd Hi Hin. change (map key) with (fmap (M:=list) key) in *. rewrite list_fmap_delete in Hin.
  apply (list_elem_of_lookup_1) in Hin as [j Hj].
  assert ((key <$> ps) !! i = Some (key p)) as Hki by by rewrite list_lookup_fmap, Hi.
  destruct (decide (j < i)%nat).
  - rewrite list_lookup_delete_lt in Hj by done. pose proof (NoDup_lookup _ _ _ _ Hnd Hj Hki). lia.
  - rewrite list_lookup_delete_ge in Hj by lia. pose proof (NoDup_lookup _ _ _ _ Hnd Hj Hki). lia.
Qed.

Lemma deliver_session s ps i : session_inv s ps -> exists ps', session_inv (session_step ct_eq s (SessDeliver i)) ps'.
Proof.
  intros Hi. pose proof (si_air _ _ Hi) as Hair. fold (flying ps) in Hair. cbn [session_step].
  destruct (air s !! i) as [[e bytes]|] eqn:El; [|by exists ps]. rewrite Hair in El.
  apply flying_lookup in El as (p & Hp & -> & ->).
  assert (p ∈ ps) as Hin by by eapply list_elem_of_lookup_2.
  pose proof (si_lanes _ _ Hi) as Hl. destruct (lo_air _ _ Hl p Hin) as (Hok & Hs & Hn).
  rewrite decode_encode_preface by done. exists (delete i ps). rewrite Hair, flying_delete.
  apply update_session with ps; try done; [apply delete_sublist| |].
  - intros r h [= -> ->]%list_elem_of_singleton _. split; [done|].
    apply (deleted_key ps i p); [apply (lo_unique _ _ Hl)|done].
  - intros gen [= Ec ->]%list_elem_of_singleton _.
    pose proof (si_bound _ _ Hi p Hin) as Hb. unfold bound in Hb. destruct Hok as (_ & _ & Hatt).
    destruct (attachment p); [by destruct Hatt|]. by destruct Hb.
Qed.

Lemma accept_step s ps : session_inv s ps -> exists ps', session_inv (session_step ct_eq s SessAccept) ps'.
Proof.
  intros Hi. exists ps. cbn [session_step]. destruct (granted s) as [[a roles]|] eqn:Eg; [|done].
  destruct (grant_accepted a roles (si_granted _ _ Hi _ _ Eg)) as (roles' & -> & Hrs).
  destruct Hi as [Hl Ha Hb Hp Hd Hg]. pose proof (Hg _ _ Eg) as Hok.
  assert (op_ok (Authorize a roles')) as Ho by done.
  constructor; cbn [regs granted air]; rewrite <- ?Eg; try done.
  - apply update_lanes with ps; try done. by intros r h ?%not_elem_of_nil.
  - unfold deck_granted in *. cbn [regs granted]. rewrite apply_same, apply_other by done.
    destruct (step_move (regs s Deck) (Authorize a roles') (lo_inv _ _ Hl Deck) Ho) as [E|E|gen _ _ E|a' rs [= <- <-] E1 E2].
    + by rewrite E.
    + unfold is_ended in E. by destruct (phase (registry_step _ _ _)).
    + by apply not_elem_of_nil in E.
    + rewrite E2. exists roles. split; [done|]. intros r Hr. rewrite contains_with, Hrs.
      rewrite bool_decide_eq_false_2 by done. rewrite (requires_other r Hr). by rewrite andb_true_r.
Qed.

Lemma grant_step s ps a roles : session_inv s ps -> attachment_ok a ->
  exists ps', session_inv (session_step ct_eq s (SessGrant a roles)) ps'.
Proof.
  intros Hi Hok. exists ps. cbn [session_step].
  destruct Hi as [Hl Ha Hb Hp Hd Hg].
  pose proof (authorize_spec ct_eq ct_eq_spec (regs s Pier) a roles (lo_inv _ _ Hl Pier) Hok) as Hau.
  destruct (authorize ct_eq (regs s Pier) a roles) as [[l g']|] eqn:Eau; [|done].
  destruct Hau as (Hu & Hph & _).
  assert (apply_op ct_eq s Pier (Authorize a roles) Pier = g') as Eg' by (rewrite apply_same; cbn; by rewrite Eau).
  unfold pier_granted in Hp. rewrite Hu in Hp.
  assert (~ unopened (regs s Pier)) as Hun by (unfold unopened, is_ended; rewrite Hu; by intros [?|?]).
  constructor; cbn [regs granted air]; try done.
  - apply update_lanes with ps; try done. by intros r h ?%not_elem_of_nil.
  - intros p Hin. specialize (Hb p Hin). unfold bound in *. destruct (attachment p).
    + destruct Hb as (? & Hb & _). congruence.
    + by destruct Hb as [_ ?].
  - unfold pier_granted. cbn [regs granted]. rewrite Eg', Hph. by exists roles.
  - unfold deck_granted in *. cbn [regs granted]. rewrite apply_other by done.
    destruct (phase (regs s Deck)); [by destruct Hd|done| |done]. destruct Hd as (? & Hd & _). congruence.
  - by intros a' roles' [= <- <-].
Qed.

Lemma session_step_inv s ps ev : session_inv s ps -> event_ok ev -> exists ps', session_inv (session_step ct_eq s ev) ps'.
Proof.
  intros Hi Hev.
  assert (forall e op, (forall a roles, op <> Authorize a roles) -> op_ok op -> shown (regs s e) op = [] ->
    session_inv (mkSession (apply_op ct_eq s e op) (granted s) (air s)) ps) as Hsimple.
  { intros e op Hna Ho Hsh. rewrite (si_air _ _ Hi). apply update_session with ps; rewrite ?Hsh; try done;
      by intros ? ?%not_elem_of_nil || by intros ? ? ?%not_elem_of_nil. }
  destruct ev as [e r|i|i|a roles| |e r gen f|e r gen|e reason].
  - by eapply open_session.
  - by eapply deliver_session.
  - exists (delete i ps). cbn [session_step]. destruct Hi as [Hl Ha Hb Hp Hd Hg]. fold (flying ps) in Ha.
    constructor; cbn [regs granted air]; try done.
    + destruct Hl as [H1 H2 H3 H4 H5]. constructor; try done.
      * apply (sublist_NoDup _ (map key ps)); [done|]. apply (fmap_sublist key), delete_sublist.
      * intros p Hp'. apply H5. eapply elem_of_sublist; [done|apply delete_sublist].
    + by rewrite Ha, flying_delete.
    + intros p Hp'. apply Hb. eapply elem_of_sublist; [done|apply delete_sublist].
  - by eapply grant_step.
  - by eapply accept_step.
  - exists ps. by apply Hsimple.
  - exists ps. by apply Hsimple.
  - exists ps. by apply Hsimple.
Qed.

Lemma session_run_inv evs : forall s ps, session_inv s ps -> Forall event_ok evs ->
  exists ps', session_inv (session_run ct_eq s evs) ps'.
Proof.
  induction evs as [|ev evs IH]; intros s ps Hi Hev; [by exists ps|]. apply Forall_cons in Hev as [He Hev].
  destruct (session_step_inv s ps ev Hi He) as [ps1 H1]. by eapply IH.
Qed.

(** The stream of the lane its opener has open now is not refused. *)
Lemma current_admitted s ps p : session_inv s ps -> p ∈ ps ->
  lane_state (regs s (opener (role p))) (role p) = Open (lane_generation p) ->
  let g := regs s (peer (opener (role p))) in
  is_ended g = true \/ lane_state g (role p) = Disabled RecoveryExhausted \/
  exists adm g', admit_peer ct_eq g (shape (role p)) p = Ok (adm, g').
Proof.
  intros [Hl Ha Hb Hp Hd Hg] Hin Ho g. destruct (lo_air _ _ Hl p Hin) as (Hok & _ & Hn).
  pose proof (lo_inv _ _ Hl (peer (opener (role p)))) as Hi. fold g in Hi.
  assert (local g = peer (opener (role p))) as Hloc by apply (lo_local _ _ Hl).
  assert (opener (role p) = peer (local g)) as Hop by (rewrite Hloc; by destruct (opener (role p))).
  destruct (is_ended g) eqn:Ee; [by left|right].
  destruct (decide (lane_state g (role p) = Disabled RecoveryExhausted)) as [|Hnd]; [by left|right].
  pose proof (ok_open _ _ (core_slots _ (proj1 (lo_inv _ _ Hl (opener (role p)))) (role p)) _ Ho) as Htop.
  assert (forall h, seen g (role p) h -> h < lane_generation p) as Hnew.
  { intros h Hs. destruct (lo_received _ _ Hl (role p) h Hs) as (top & Ht & Hle).
    rewrite Htop in Ht. injection Ht as <-. destruct (decide (h = lane_generation p)) as [->|]; [done|lia]. }
  assert (entitled g p -> exists adm g', admit_peer ct_eq g (shape (role p)) p = Ok (adm, g')) as Hadmit.
  { intros He. eexists _, _. apply (admit_Admitted ct_eq); [done|apply Hi|done|].
    split_and!; [exact Hop|reflexivity|exact He| |reflexivity|reflexivity]. split_and!.
    - intros [] E. by apply Hnd.
    - intros open E. split; [done|]. specialize (Hnew open).
      pose proof (ok_open _ _ (core_slots _ (proj1 Hi) _) _ E) as Eh. specialize (Hnew (or_introl Eh)). lia.
    - intros h Eh. apply Hnew. by left. }
  specialize (Hb p Hin). unfold bound in Hb. pose proof Hok as (Hz & Hw & Hatt).
  destruct (attachment p) as [a|] eqn:Eat.
  - destruct Hatt as [Hr _], Hb as (roles & Hgr & Hc).
    destruct (opener (role p)) eqn:Eop; cbn [peer] in *.
    + unfold deck_granted in Hd. fold g in Hd. destruct (phase g) as [| |a' rs|] eqn:Eph.
      * destruct Hd. congruence.
      * eexists _, _. apply (admit_Held ct_eq); [done|exact Hi|exact Hok|].
        split_and!; try done; [by rewrite Eop, Hloc|]. intros held Eh. apply Hnew. right. by exists held.
      * destruct Hd as (roles' & E & Heq). rewrite Hgr in E. injection E as <- <-.
        apply Hadmit. right. exists a, rs. split_and!; try done. by rewrite Heq.
      * unfold is_ended in Ee. by rewrite Eph in Ee.
    + unfold pier_granted in Hp. fold g in Hp. destruct (phase g) as [| |a' rs|] eqn:Eph; try congruence.
      * destruct Hp as (roles' & E & ->). rewrite Hgr in E. injection E as <- <-.
        apply Hadmit. right. exists a, (with_role roles Control). split_and!; try done.
        rewrite contains_with, Hc. by rewrite orb_true_r.
      * unfold is_ended in Ee. by rewrite Eph in Ee.
  - apply Hadmit. left. split; [done|]. assert (g = regs s Pier) as Eg by (unfold g; by rewrite Hatt).
    destruct Hb as [_ [Hu|Hu]]; [by rewrite Eg|]. rewrite Eg in Ee. congruence.
Qed.
End Invariant.

(** ** Theorems on the session *)

(** C10: A lane that is open is admitted by the other side. Start with two
    fresh registries and let the endpoints open lanes, streams arrive in any
    order or get lost, the host authorize and the client accept the grant,
    lanes fail and deliver, attachments end, in any sequence: the bytes of
    every stream in flight decode to a preface of the endpoint that opened
    it, and if that is the lane its opener has open now, the other endpoint
    admits it (or, before it has accepted the grant, holds it) unless it has
    ended the attachment or disabled the role. *)
Theorem open_lane_admitted ct_eq evs i e bytes : ct_eq_law ct_eq -> Forall event_ok evs ->
  let s := session_run ct_eq Session_new evs in
  air s !! i = Some (e, bytes) ->
  exists p, decode_preface bytes = Ok p /\ opener (role p) = e /\
    (lane_state (regs s e) (role p) = Open (lane_generation p) ->
     let g := regs s (peer e) in
     is_ended g = true \/ lane_state g (role p) = Disabled RecoveryExhausted \/
     exists adm g', admit_peer ct_eq g (shape (role p)) p = Ok (adm, g')).
Proof.
  intros Hct Hev s Hi. destruct (session_run_inv ct_eq Hct evs _ _ session_new_inv Hev) as [ps Hs]. fold s in Hs.
  rewrite (si_air _ _ Hs) in Hi. apply flying_lookup in Hi as (p & Hp & -> & ->).
  assert (p ∈ ps) as Hin by by eapply list_elem_of_lookup_2.
  destruct (lo_air _ _ (si_lanes _ _ Hs) p Hin) as (Hok & _ & _).
  exists p. split_and!; [by apply decode_encode_preface|done|]. by apply current_admitted with ps.
Qed.

Definition sample_events : list SessionEvent :=
  [SessOpen Deck Control; SessDeliver 0; SessGrant sample_attachment video_grant; SessOpen Pier Video;
   SessFail Pier Video 1 PeerReset; SessOpen Pier Video].

Lemma open_lane_admitted_witness :
  let s := session_run bytes_eq Session_new sample_events in
  air s !! 1%nat = Some (Pier, encode_preface (mkPreface Video (Some sample_attachment) 2)) /\
  exists p, decode_preface (encode_preface (mkPreface Video (Some sample_attachment) 2)) = Ok p /\ opener (role p) = Pier.
Proof.
  split; [by vm_compute|].
  destruct (open_lane_admitted bytes_eq sample_events 1 Pier (encode_preface (mkPreface Video (Some sample_attachment) 2))
    bytes_eq_law) as (p & Hd & Ho & _).
  - repeat (apply Forall_cons; split; [first [exact I | exact sample_attachment_ok]|]). constructor.
  - by vm_compute.
  - by exists p.
Defined.
