(* ===== verification/TransportContract.v ===== *)
(** * Transport: admission evidence, envelopes and the bounded queue

    Models the pure contract of [shared/transport/src/lib.rs], with both
    transport features enabled: the classes of messages and how they are
    delivered, capability negotiation, the evidence that binds a connection to
    a session, the checks an inbound envelope passes before its payload is
    allocated, and the outbound queue; and [lane_max_frame_bytes] of
    [shared/transport/src/lanes.rs], which reads the same policy.  Identity
    strings are byte strings whose length is in bytes.  The adapter of
    [receive_bounded] is the interface [TransportPeer]. *)

From stdpp Require Import strings.
From S2P Require Import Prelude ProtocolWire LaneWire.

Definition MAX_NEGOTIATED_CAPABILITIES : Z := 64.
Definition MAX_TRANSPORT_IDENTITY_BYTES : Z := 512.
Definition CAPABILITY_TRANSPORT_WSS : string := "transport:wss-v1".
Definition CAPABILITY_TRANSPORT_QUIC : string := "transport:quic-v1".
Definition CAPABILITY_RELIABLE_STREAM : string := "delivery:reliable-stream-v1".
Definition CAPABILITY_ENCRYPTED_DATAGRAM : string := "delivery:encrypted-datagram-v1".

Inductive TransportProfile := WebSocketSecure | Quic.
Inductive MessageClass := ClassControl | ClassMedia | ClassInput.
Inductive ReliabilityClass := RelControl | MediaReliable | MediaLowLatency | InputLowLatency.
Inductive DeliveryMechanism := ReliableStream | EncryptedDatagram.
#[global] Instance TransportProfile_eq_dec : EqDecision TransportProfile. Proof. solve_decision. Defined.
#[global] Instance MessageClass_eq_dec : EqDecision MessageClass. Proof. solve_decision. Defined.
#[global] Instance ReliabilityClass_eq_dec : EqDecision ReliabilityClass. Proof. solve_decision. Defined.
#[global] Instance DeliveryMechanism_eq_dec : EqDecision DeliveryMechanism. Proof. solve_decision. Defined.

Inductive TransportContractError :=
| MessageClassMismatch | WrongMessageClass | DeliveryNotAvailableForProfile | DeliveryClassMismatch
| PayloadTooLarge (actual maximum : Z)
| PayloadLengthMismatch (declared actual : Z)
| DeclaredSizeUnrepresentable | SequenceMismatch | SessionEvidenceMismatch | PeerEvidenceMismatch
| HostEvidenceMismatch | RoleIdentityMismatch | AdmissionNotAuthorized | MissingAdmissionBinding | GrantExpired
| EmptyIdentity | IdentityTooLong | CapabilityLimit | CapabilityMismatch | TransportProfileMismatch
| PeerRoleMismatch | QueueMessageLimit | QueueByteLimit | ReceiveStateMismatch.
#[global] Instance TransportContractError_eq_dec : EqDecision TransportContractError. Proof. solve_decision. Defined.

Definition reliability_class_for_frame_byte (frame_type_byte : Z) : ReliabilityClass :=
  match FrameType_try_from frame_type_byte with
  | Ok (VideoFull | VideoPartial | VideoH264 | VideoH265 | VideoAv1
       | RegionVideoFull | RegionVideoH264 | RegionVideoH265 | RegionVideoAv1 | FAudio | AudioUpstream) => MediaLowLatency
  | Ok (Clipboard | HidDeviceAdded | HidDeviceRemoved | UsbBridgeUrbSubmit | UsbBridgeUrbCancel) | Err _ => RelControl
  | Ok (HidReport | UsbBridgeUrbComplete | CursorUpdate) => InputLowLatency
  end.

Definition delivery_mechanism_for (class : ReliabilityClass) (profile : TransportProfile) (datagram_available : bool)
    (payload_len max_datagram_payload : Z) (connection_max_datagram_size : option Z) (framing_overhead : Z)
  : DeliveryMechanism :=
  if bool_decide (profile = Quic) && datagram_available && bool_decide (class = MediaLowLatency)
     && match checked_add usize_bits payload_len framing_overhead with
        | Some total =>
          (total <=? max_datagram_payload)
          && match connection_max_datagram_size with Some live_limit => total <=? live_limit | None => false end
        | None => false
        end
  then EncryptedDatagram else ReliableStream.

(** ** Identities and capabilities *)

Definition blen (s : string) : Z := Z.of_nat (String.length s).

Definition validate_transport_identity (value : string) : result TransportContractError unit :=
  if blen value =? 0 then Err EmptyIdentity
  else if MAX_TRANSPORT_IDENTITY_BYTES <? blen value then Err IdentityTooLong
  else Ok tt.

Definition CapabilityId : Type := string.
Definition CapabilityId_new (value : string) : result TransportContractError CapabilityId :=
  _ ← validate_transport_identity value; Ok value.

Definition NegotiatedCapabilities : Type := gset string.
Definition NegotiatedCapabilities_new (capabilities : list CapabilityId)
  : result TransportContractError NegotiatedCapabilities :=
  let capabilities : gset string := list_to_set capabilities in
  if MAX_NEGOTIATED_CAPABILITIES <? Z.of_nat (size capabilities) then Err CapabilityLimit else Ok capabilities.

Definition contains_name (c : NegotiatedCapabilities) (capability : string) : bool := bool_decide (capability ∈ c).
Definition intersection_caps (c other : NegotiatedCapabilities) : NegotiatedCapabilities := c ∩ other.
Definition supports_all (c required : NegotiatedCapabilities) : bool := bool_decide (required ⊆ c).

Definition select_transport_profile (local remote : list TransportProfile) (required : option TransportProfile)
  : result TransportContractError TransportProfile :=
  let shared p := bool_decide (p ∈ local) && bool_decide (p ∈ remote) in
  match required with
  | Some required => if shared required then Ok required else Err TransportProfileMismatch
  | None =>
    if shared Quic then Ok Quic
    else if shared WebSocketSecure then Ok WebSocketSecure
    else Err TransportProfileMismatch
  end.

Definition profile_capability (p : TransportProfile) : string :=
  match p with WebSocketSecure => CAPABILITY_TRANSPORT_WSS | Quic => CAPABILITY_TRANSPORT_QUIC end.

Definition validate_negotiated_capabilities (profile : TransportProfile) (negotiated required : NegotiatedCapabilities)
  : result TransportContractError unit :=
  guard_err (negb (contains_name negotiated (profile_capability profile))
             || negb (contains_name negotiated CAPABILITY_RELIABLE_STREAM)
             || negb (supports_all negotiated required)) CapabilityMismatch.

(** ** Session evidence *)

Inductive PeerRole := Client | Host | Gateway.
#[global] Instance PeerRole_eq_dec : EqDecision PeerRole. Proof. solve_decision. Defined.

Inductive AuthorizationState := AuthPending | AuthAuthorized | AuthDenied.
#[global] Instance AuthorizationState_eq_dec : EqDecision AuthorizationState. Proof. solve_decision. Defined.

Record AuthenticatedPeer := mkPeer { peer_role : PeerRole; peer_ident : string }.

Definition AuthenticatedPeer_new (role : PeerRole) (identity : string) : result TransportContractError AuthenticatedPeer :=
  _ ← validate_transport_identity identity; Ok (mkPeer role identity).

(** The fields a validated session grant shares with the evidence retained
    from it. *)
Record GrantBindingEvidence := mkGrant {
  gr_version : Z; gr_subject : string; gr_tenant : option string;
  gr_client_identity : string; gr_host_identity : string; gr_session_id : string;
  gr_nonce : string; gr_expires_at : Z
}.

Record SessionBinding := mkBinding {
  bd_connection_id : string; bd_session_id : string; bd_peer : AuthenticatedPeer;
  bd_grant : GrantBindingEvidence; bd_capabilities : NegotiatedCapabilities; bd_authorization : AuthorizationState
}.

(** [validate_peer_grant_binding] and [validate_peer_grant_evidence]. *)
Definition validate_peer_grant_evidence (p : AuthenticatedPeer) (g : GrantBindingEvidence)
  : result TransportContractError unit :=
  match peer_role p with
  | Client => guard_err (negb (bool_decide (peer_ident p = gr_client_identity g))) RoleIdentityMismatch
  | Host => guard_err (negb (bool_decide (peer_ident p = gr_host_identity g))) RoleIdentityMismatch
  | Gateway => Ok tt
  end.

Definition SessionBinding_new (connection_id session_id : string) (p : AuthenticatedPeer) (grant : GrantBindingEvidence)
    (capabilities : NegotiatedCapabilities) (authorization : AuthorizationState) (now_epoch_seconds : Z)
  : result TransportContractError SessionBinding :=
  _ ← validate_transport_identity session_id;
  _ ← guard_err (negb (bool_decide (session_id = gr_session_id grant))) SessionEvidenceMismatch;
  _ ← guard_err (gr_expires_at grant <=? now_epoch_seconds) GrantExpired;
  _ ← validate_peer_grant_evidence p grant;
  Ok (mkBinding connection_id session_id p grant capabilities authorization).

Definition validate_admission (b : SessionBinding) (now_epoch_seconds : Z) : result TransportContractError unit :=
  _ ← guard_err (negb (bool_decide (bd_authorization b = AuthAuthorized))) AdmissionNotAuthorized;
  _ ← guard_err (gr_expires_at (bd_grant b) <=? now_epoch_seconds) GrantExpired;
  _ ← guard_err (negb (bool_decide (bd_session_id b = gr_session_id (bd_grant b)))) SessionEvidenceMismatch;
  validate_peer_grant_evidence (bd_peer b) (bd_grant b).

(** Direct-session replacement connections. *)
Record DirectResumeTransportBinding := mkResumeBinding {
  rb_connection_id : string; rb_host_identity : string; rb_active_session_id : string
}.

Definition DirectResumeTransportBinding_new (connection_id host_identity active_session_id : string)
  : result TransportContractError DirectResumeTransportBinding :=
  _ ← validate_transport_identity connection_id;
  _ ← validate_transport_identity host_identity;
  _ ← validate_transport_identity active_session_id;
  Ok (mkResumeBinding connection_id host_identity active_session_id).

(** The grant's claims name a Host and an active session. *)
Definition validate_grant (b : DirectResumeTransportBinding) (claims_host claims_session : string)
  : result TransportContractError unit :=
  _ ← guard_err (negb (bool_decide (rb_host_identity b = claims_host))) HostEvidenceMismatch;
  guard_err (negb (bool_decide (rb_active_session_id b = claims_session))) SessionEvidenceMismatch.

(** ** Envelopes *)

Record EnvelopeMetadata := mkMeta {
  message_class : MessageClass; reliability : ReliabilityClass; delivery : DeliveryMechanism;
  declared_size : Z; sequence : Z; meta_session_id : string; meta_peer_identity : string
}.

Record OutboundEnvelope := mkOutbound { out_metadata : EnvelopeMetadata; out_payload : list Z }.
Record InboundEnvelope := mkInbound { in_metadata : EnvelopeMetadata; in_payload : list Z }.
Record AcceptedInboundEnvelope := mkAccepted { acc_metadata : EnvelopeMetadata; allocation_size : Z }.

Definition with_declared (m : EnvelopeMetadata) (n : Z) : EnvelopeMetadata :=
  mkMeta (message_class m) (reliability m) (delivery m) n (sequence m) (meta_session_id m) (meta_peer_identity m).

Definition OutboundEnvelope_new (m : EnvelopeMetadata) (payload : list Z) : result TransportContractError OutboundEnvelope :=
  n ← ok_or (try_unsigned 32 (len payload)) DeclaredSizeUnrepresentable;
  Ok (mkOutbound (with_declared m n) payload).

Record BoundedTransportPolicy := mkTransportPolicy {
  max_control_payload_bytes : Z; max_media_payload_bytes : Z; max_input_payload_bytes : Z;
  max_queued_messages : Z; max_queued_bytes : Z; max_datagram_payload_bytes : Z
}.

Definition BoundedTransportPolicy_default : BoundedTransportPolicy :=
  mkTransportPolicy (1024 * 1024) (64 * 1024 * 1024) (64 * 1024) 256 (128 * 1024 * 1024) 1024.

Definition class_matches (c : MessageClass) (r : ReliabilityClass) : bool :=
  match c, r with
  | ClassControl, RelControl | ClassMedia, (MediaReliable | MediaLowLatency) | ClassInput, InputLowLatency => true
  | _, _ => false
  end.

Definition is_encrypted_datagram (d : DeliveryMechanism) : bool :=
  match d with ReliableStream => false | EncryptedDatagram => true end.

(** The size bound of a class. *)
Definition maximum_for (policy : BoundedTransportPolicy) (m : EnvelopeMetadata) : Z :=
  Z.min (match reliability m with
         | RelControl => max_control_payload_bytes policy
         | MediaReliable => max_media_payload_bytes policy
         | MediaLowLatency =>
           if is_encrypted_datagram (delivery m) then max_datagram_payload_bytes policy
           else max_media_payload_bytes policy
         | InputLowLatency => max_input_payload_bytes policy
         end) (umax 32).

Definition validate_metadata (policy : BoundedTransportPolicy) (profile : TransportProfile) (m : EnvelopeMetadata)
  : result TransportContractError unit :=
  _ ← guard_err (negb (class_matches (message_class m) (reliability m))) MessageClassMismatch;
  _ ← match delivery m with
      | ReliableStream => Ok tt
      | EncryptedDatagram =>
        _ ← guard_err (negb (bool_decide (profile = Quic))) DeliveryNotAvailableForProfile;
        guard_err (negb (bool_decide (reliability m = MediaLowLatency))) DeliveryClassMismatch
      end;
  _ ← validate_transport_identity (meta_session_id m);
  _ ← validate_transport_identity (meta_peer_identity m);
  actual ← ok_or (try_unsigned usize_bits (declared_size m)) DeclaredSizeUnrepresentable;
  let maximum := maximum_for policy m in
  guard_err (maximum <? actual) (PayloadTooLarge actual maximum).

Definition validate (policy : BoundedTransportPolicy) (profile : TransportProfile) (e : OutboundEnvelope)
  : result TransportContractError unit :=
  declared ← ok_or (try_unsigned usize_bits (declared_size (out_metadata e))) DeclaredSizeUnrepresentable;
  _ ← guard_err (negb (declared =? len (out_payload e))) (PayloadLengthMismatch declared (len (out_payload e)));
  validate_metadata policy profile (out_metadata e).

Definition validate_envelope_capabilities (profile : TransportProfile) (negotiated : NegotiatedCapabilities)
    (m : EnvelopeMetadata) : result TransportContractError unit :=
  _ ← validate_negotiated_capabilities profile negotiated ∅;
  guard_err (bool_decide (delivery m = EncryptedDatagram)
             && negb (contains_name negotiated CAPABILITY_ENCRYPTED_DATAGRAM)) CapabilityMismatch.

Record InboundAdmission := mkInboundAdmission {
  ia_session_id : string; ia_peer_identity : string; ia_capabilities : NegotiatedCapabilities
}.

Definition InboundAdmission_from_binding (b : SessionBinding) (now_epoch_seconds : Z)
  : result TransportContractError InboundAdmission :=
  _ ← validate_admission b now_epoch_seconds;
  Ok (mkInboundAdmission (bd_session_id b) (peer_ident (bd_peer b)) (bd_capabilities b)).

Record ReceiveExpectation := mkExpectation {
  allowed_message_classes : list MessageClass; expected_sequence : Z; now_epoch_seconds : Z
}.

Definition accept_inbound_for_admission (policy : BoundedTransportPolicy) (profile : TransportProfile)
    (m : EnvelopeMetadata) (admission : InboundAdmission) (expectation : ReceiveExpectation)
  : result TransportContractError AcceptedInboundEnvelope :=
  _ ← validate_metadata policy profile m;
  _ ← validate_envelope_capabilities profile (ia_capabilities admission) m;
  _ ← guard_err (negb (bool_decide (message_class m ∈ allowed_message_classes expectation))) WrongMessageClass;
  _ ← guard_err (negb (sequence m =? expected_sequence expectation)) SequenceMismatch;
  _ ← guard_err (negb (bool_decide (meta_session_id m = ia_session_id admission))) SessionEvidenceMismatch;
  _ ← guard_err (negb (bool_decide (meta_peer_identity m = ia_peer_identity admission))) PeerEvidenceMismatch;
  n ← ok_or (try_unsigned usize_bits (declared_size m)) DeclaredSizeUnrepresentable;
  Ok (mkAccepted m n).

Definition accept_inbound (policy : BoundedTransportPolicy) (profile : TransportProfile) (m : EnvelopeMetadata)
    (b : SessionBinding) (expectation : ReceiveExpectation) : result TransportContractError AcceptedInboundEnvelope :=
  admission ← InboundAdmission_from_binding b (now_epoch_seconds expectation);
  accept_inbound_for_admission policy profile m admission expectation.

(** ** Receiving through an adapter *)

(** [TransportPeer]: a concrete adapter. A payload is read into the slice it
    is given, so it cannot change its length. *)
Class TransportPeer (P Error : Type) := {
  profile_of : P -> TransportProfile;
  binding_of : P -> option SessionBinding;
  receive_metadata : P -> result Error (option EnvelopeMetadata) * P;
  receive_payload : P -> AcceptedInboundEnvelope -> list Z -> result Error Z * list Z * P;
  receive_payload_len : forall p a dest, length (snd (fst (receive_payload p a dest))) = length dest
}.

Inductive BoundedReceiveError (Error : Type) :=
| Adapter (e : Error)
| Contract (e : TransportContractError).
Arguments Adapter {Error} e.
Arguments Contract {Error} e.

Definition receive_bounded {P Error : Type} `{TransportPeer P Error} (p : P) (policy : BoundedTransportPolicy)
    (expectation : ReceiveExpectation) : result (BoundedReceiveError Error) (option InboundEnvelope) * P :=
  match binding_of p with
  | None => (Err (Contract MissingAdmissionBinding), p)
  | Some b =>
    match InboundAdmission_from_binding b (now_epoch_seconds expectation) with
    | Err e => (Err (Contract e), p)
    | Ok admission =>
      match receive_metadata p with
      | (Err e, p) => (Err (Adapter e), p)
      | (Ok None, p) => (Ok None, p)
      | (Ok (Some m), p) =>
        match accept_inbound_for_admission policy (profile_of p) m admission expectation with
        | Err e => (Err (Contract e), p)
        | Ok accepted =>
          match receive_payload p accepted (repeat 0 (Z.to_nat (allocation_size accepted))) with
          | (Err e, _, p) => (Err (Adapter e), p)
          | (Ok actual, payload, p) =>
            if negb (actual =? allocation_size accepted)
            then (Err (Contract (PayloadLengthMismatch (allocation_size accepted) actual)), p)
            else (Ok (Some (mkInbound (acc_metadata accepted) payload)), p)
          end
        end
      end
    end
  end.

(** ** The outbound queue *)

Record BoundedQueue := mkQueue {
  q_profile : TransportProfile; q_policy : BoundedTransportPolicy; queued_bytes : Z; q_messages : list OutboundEnvelope
}.

Definition BoundedQueue_new (profile : TransportProfile) (policy : BoundedTransportPolicy) : BoundedQueue :=
  mkQueue profile policy 0 [].

Definition queue_push (q : BoundedQueue) (e : OutboundEnvelope) : result TransportContractError BoundedQueue :=
  _ ← validate (q_policy q) (q_profile q) e;
  _ ← guard_err (max_queued_messages (q_policy q) <=? len (q_messages q)) QueueMessageLimit;
  next_bytes ← ok_or (checked_add usize_bits (queued_bytes q) (len (out_payload e))) QueueByteLimit;
  _ ← guard_err (max_queued_bytes (q_policy q) <? next_bytes) QueueByteLimit;
  Ok (mkQueue (q_profile q) (q_policy q) next_bytes (q_messages q ++ [e])).

(** [pop]; the subtraction of the source would panic below zero, so it is
    checked. *)
Definition queue_pop (q : BoundedQueue) : option (option OutboundEnvelope * BoundedQueue) :=
  match q_messages q with
  | [] => Some (None, q)
  | e :: messages =>
    bytes ← checked_sub (queued_bytes q) (len (out_payload e));
    Some (Some e, mkQueue (q_profile q) (q_policy q) bytes messages)
  end.

(** ** The frame bound of a lane *)

Definition AUDIO_PRIORITY_MAX_FRAME_BYTES : Z := 64 * 1024.

Definition lane_max_frame_bytes (r : LaneRole) (policy : BoundedTransportPolicy) : Z :=
  match r with
  | Control | BulkAux => max_control_payload_bytes policy
  | Video => max_media_payload_bytes policy
  | AudioOutput => AUDIO_PRIORITY_MAX_FRAME_BYTES
  | InputCursor => max_input_payload_bytes policy
  | Microphone =>
    MICROPHONE_HEADER_SIZE
    + (if MICROPHONE_PCM_BYTES <? MAX_MICROPHONE_OPUS_BYTES then MAX_MICROPHONE_OPUS_BYTES else MICROPHONE_PCM_BYTES)
  end.

(** ** What the checks accept *)

Lemma identity_Ok v u : validate_transport_identity v = Ok u <-> 1 <= blen v <= MAX_TRANSPORT_IDENTITY_BYTES.
Proof.
  unfold validate_transport_identity. destruct u.
  destruct (Z.eqb_spec (blen v) 0), (Z.ltb_spec MAX_TRANSPORT_IDENTITY_BYTES (blen v)); unfold blen in *; split; done || lia.
Qed.

(** The role and grant evidence of an admitted peer agree. *)
Definition peer_matches (p : AuthenticatedPeer) (g : GrantBindingEvidence) : Prop :=
  match peer_role p with
  | Client => peer_ident p = gr_client_identity g
  | Host => peer_ident p = gr_host_identity g
  | Gateway => True
  end.

Lemma peer_grant_Ok p g u : validate_peer_grant_evidence p g = Ok u <-> peer_matches p g.
Proof.
  destruct u. unfold validate_peer_grant_evidence, peer_matches.
  destruct (peer_role p); rewrite ?guard_err_Ok, ?negb_false_iff, ?bool_decide_eq_true; done.
Qed.

Definition admitted (b : SessionBinding) (now : Z) : Prop :=
  bd_authorization b = AuthAuthorized /\ now < gr_expires_at (bd_grant b) /\
  bd_session_id b = gr_session_id (bd_grant b) /\ peer_matches (bd_peer b) (bd_grant b).

Lemma validate_admission_Ok b now u : validate_admission b now = Ok u <-> admitted b now.
Proof.
  unfold validate_admission, admitted. destruct u. rewrite !unit_bind_Ok, !guard_err_Ok, peer_grant_Ok.
  rewrite !negb_false_iff, !bool_decide_eq_true, Z.leb_gt. tauto.
Qed.

(** The negotiated capabilities an envelope needs. *)
Definition negotiated_for (profile : TransportProfile) (c : NegotiatedCapabilities) (m : EnvelopeMetadata) : Prop :=
  (profile_capability profile ∈ c) /\ (CAPABILITY_RELIABLE_STREAM ∈ c) /\
  (delivery m = EncryptedDatagram -> CAPABILITY_ENCRYPTED_DATAGRAM ∈ c).

Lemma capabilities_Ok profile c m u : validate_envelope_capabilities profile c m = Ok u <-> negotiated_for profile c m.
Proof.
  unfold validate_envelope_capabilities, validate_negotiated_capabilities, negotiated_for, contains_name, supports_all.
  destruct u. rewrite unit_bind_Ok, !guard_err_Ok, !orb_false_iff, andb_false_iff, !negb_false_iff, !bool_decide_eq_true.
  rewrite bool_decide_eq_false. split.
  - intros (((? & ?) & _) & Hd). split_and!; [done..|]. intros E. destruct Hd as [Hd|Hd]; [done|]. destruct (decide (CAPABILITY_ENCRYPTED_DATAGRAM ∈ c)); done.
  - intros (? & ? & Hd). split_and!; [done..|set_solver|]. destruct (delivery m); [by left|right; auto].
Qed.

(** The metadata a policy admits. *)
Definition metadata_ok (policy : BoundedTransportPolicy) (profile : TransportProfile) (m : EnvelopeMetadata) : Prop :=
  class_matches (message_class m) (reliability m) = true /\
  (delivery m = EncryptedDatagram -> profile = Quic /\ reliability m = MediaLowLatency) /\
  1 <= blen (meta_session_id m) <= MAX_TRANSPORT_IDENTITY_BYTES /\
  1 <= blen (meta_peer_identity m) <= MAX_TRANSPORT_IDENTITY_BYTES /\
  declared_size m <= maximum_for policy m.

Lemma declared_width m : in_width 32 (declared_size m) -> try_unsigned usize_bits (declared_size m) = Some (declared_size m).
Proof. intros H. apply try_unsigned_in. unfold in_width, usize_bits in *. pow2. lia. Qed.

Lemma metadata_Ok policy profile m u : in_width 32 (declared_size m) ->
  validate_metadata policy profile m = Ok u <-> metadata_ok policy profile m.
Proof.
  intros Hw. unfold validate_metadata, metadata_ok. destruct u. rewrite declared_width by done.
  rewrite !unit_bind_Ok, guard_err_Ok, negb_false_iff, !identity_Ok. cbn [ok_or mbind result_bind].
  rewrite guard_err_Ok, Z.ltb_ge.
  assert ((match delivery m with
    | ReliableStream => Ok tt
    | EncryptedDatagram =>
      _ ← guard_err (negb (bool_decide (profile = Quic))) DeliveryNotAvailableForProfile;
      guard_err (negb (bool_decide (reliability m = MediaLowLatency))) DeliveryClassMismatch
    end = Ok tt) <-> (delivery m = EncryptedDatagram -> profile = Quic /\ reliability m = MediaLowLatency)) as ->; [|tauto].
  destruct (delivery m); [naive_solver|].
  rewrite unit_bind_Ok, !guard_err_Ok, !negb_false_iff, !bool_decide_eq_true. naive_solver.
Qed.

(** What an accepted envelope agrees with. *)
Definition envelope_ok (policy : BoundedTransportPolicy) (profile : TransportProfile) (b : SessionBinding)
    (expectation : ReceiveExpectation) (m : EnvelopeMetadata) : Prop :=
  metadata_ok policy profile m /\ negotiated_for profile (bd_capabilities b) m /\
  (message_class m ∈ allowed_message_classes expectation) /\ sequence m = expected_sequence expectation /\
  meta_session_id m = bd_session_id b /\ meta_peer_identity m = peer_ident (bd_peer b).

Lemma accept_Ok policy profile m b now expectation admission a : in_width 32 (declared_size m) ->
  InboundAdmission_from_binding b now = Ok admission ->
  accept_inbound_for_admission policy profile m admission expectation = Ok a <->
  envelope_ok policy profile b expectation m /\ a = mkAccepted m (declared_size m).
Proof.
  intros Hw Ha. unfold InboundAdmission_from_binding in Ha. inv_ok.
  unfold accept_inbound_for_admission, envelope_ok. cbn [ia_capabilities ia_session_id ia_peer_identity].
  rewrite !unit_bind_Ok, !guard_err_Ok, metadata_Ok, capabilities_Ok, !negb_false_iff, !bool_decide_eq_true, Z.eqb_eq by done.
  rewrite declared_width by done. cbn [ok_or mbind result_bind].
  split; [intros (? & ? & ? & ? & ? & ? & [= <-])|intros ((? & ? & ? & ? & ? & ?) & ->)]; split_and!; done.
Qed.

Lemma from_binding_Ok b now : (exists a, InboundAdmission_from_binding b now = Ok a) <-> admitted b now.
Proof.
  rewrite <- (validate_admission_Ok b now tt). unfold InboundAdmission_from_binding.
  destruct (validate_admission b now) as [[]|]; cbn [mbind result_bind]; [|naive_solver].
  split; [done|]. intros _. by eexists.
Qed.

(** A metadata record an adapter parses has a 32-bit declared size. *)
Definition typed_metadata {P Error : Type} `{TransportPeer P Error} (p : P) : Prop :=
  forall m, fst (receive_metadata p) = Ok (Some m) -> in_width 32 (declared_size m).

(** Nothing is allocated or read before it is admitted. Whatever adapter
    [receive_bounded] runs on: an envelope it returns came from metadata that
    the live admission (authorized, unexpired, of this session and peer role)
    and the expectation accept - class, delivery, negotiated capabilities,
    sequence, session, peer and size - and carries exactly the declared
    number of bytes; and the adapter is asked for a payload only after that
    acceptance, for exactly the declared size, which is within the policy. *)
Theorem receive_admits_before_reading (P Error : Type) (T : TransportPeer P Error) (p : P)
    (policy : BoundedTransportPolicy) (expectation : ReceiveExpectation) : typed_metadata p ->
  let '(res, p') := receive_bounded p policy expectation in
  let accepted b m := admitted b (now_epoch_seconds expectation) /\
    envelope_ok policy (profile_of (snd (receive_metadata p))) b expectation m /\
    fst (receive_metadata p) = Ok (Some m) /\ binding_of p = Some b in
  (forall env, res = Ok (Some env) ->
     exists b, accepted b (in_metadata env) /\ len (in_payload env) = declared_size (in_metadata env)) /\
  (p' = p \/ p' = snd (receive_metadata p) \/
   exists b m, accepted b m /\ declared_size m <= maximum_for policy m /\
     p' = snd (receive_payload (snd (receive_metadata p)) (mkAccepted m (declared_size m))
                 (repeat 0 (Z.to_nat (declared_size m))))).
Proof.
  intros Ht. unfold receive_bounded.
  destruct (binding_of p) as [b|] eqn:Eb; [|split; [done|by left]].
  destruct (InboundAdmission_from_binding b (now_epoch_seconds expectation)) as [admission|e] eqn:Ea; [|split; [done|by left]].
  assert (admitted b (now_epoch_seconds expectation)) as Had by (apply from_binding_Ok; by eexists).
  unfold typed_metadata in Ht. destruct (receive_metadata p) as [[[m|]|e] p1] eqn:Em; cbn [fst snd] in *;
    [|split; [done|by right; left]..].
  specialize (Ht m eq_refl).
  destruct (accept_inbound_for_admission policy (profile_of p1) m admission expectation) as [acc|e] eqn:Eacc;
    [|split; [done|by right; left]].
  apply (accept_Ok _ _ _ b (now_epoch_seconds expectation)) in Eacc as [Hok ->]; [|done..]. cbn [allocation_size acc_metadata].
  assert (admitted b (now_epoch_seconds expectation) /\ envelope_ok policy (profile_of p1) b expectation m /\
    @Ok Error _ (Some m) = Ok (Some m) /\ Some b = Some b) as Hacc by done.
  pose proof (receive_payload_len p1 (mkAccepted m (declared_size m)) (repeat 0 (Z.to_nat (declared_size m)))) as Hlen.
  destruct (receive_payload p1 _ _) as [[[actual|e] payload] p2] eqn:Ep; cbn [fst snd] in *.
  2:{ split; [done|]. right. right. exists b, m. split_and!; [done..|apply Hok|by rewrite Ep]. }
  assert (forall q : P, q = p2 -> q = p \/ q = p1 \/ exists b0 m0,
    (admitted b0 (now_epoch_seconds expectation) /\ envelope_ok policy (profile_of p1) b0 expectation m0 /\
     @Ok Error _ (Some m) = Ok (Some m0) /\ Some b = Some b0) /\ declared_size m0 <= maximum_for policy m0 /\
    q = snd (receive_payload p1 (mkAccepted m0 (declared_size m0)) (repeat 0 (Z.to_nat (declared_size m0))))) as Hread.
  { intros q ->. right. right. exists b, m. split_and!; [done..|apply Hok|by rewrite Ep]. }
  destruct (Z.eqb_spec actual (declared_size m)); cbn [negb]; (split; [|by apply Hread]); [|done].
  intros env [= <-]. exists b. split; [exact Hacc|]. cbn [in_metadata in_payload]. unfold len. rewrite Hlen, repeat_length.
  unfold in_width in Ht. lia.
Qed.

(** An adapter over bytes already received. *)
Record ScriptedPeer := mkScripted {
  sp_binding : option SessionBinding; sp_metadata : option EnvelopeMetadata; sp_payload : list Z
}.

(** It copies what fits of its payload into the slice. *)
Definition copy_into (src dest : list Z) : list Z := take (length dest) src ++ drop (length src) dest.

Lemma copy_into_length src dest : length (copy_into src dest) = length dest.
Proof. unfold copy_into. rewrite length_app, length_take, length_drop. lia. Qed.

#[global, refine] Instance scripted_peer : TransportPeer ScriptedPeer string := {
  profile_of _ := Quic;
  binding_of := sp_binding;
  receive_metadata p := (Ok (sp_metadata p), mkScripted (sp_binding p) None (sp_payload p));
  receive_payload p _ dest := (Ok (len (sp_payload p)), copy_into (sp_payload p) dest, mkScripted (sp_binding p) None [])
}.
Proof. intros p a dest. apply copy_into_length. Defined.

Definition sample_caps : NegotiatedCapabilities :=
  {[ CAPABILITY_TRANSPORT_QUIC; CAPABILITY_RELIABLE_STREAM; CAPABILITY_ENCRYPTED_DATAGRAM ]}.
Definition sample_binding_evidence : SessionBinding :=
  mkBinding "conn" "session-1" (mkPeer Client "deck") (mkGrant 1 "ada" None "deck" "pier" "session-1" "n" 5000)
    sample_caps AuthAuthorized.
Definition sample_meta : EnvelopeMetadata :=
  mkMeta ClassMedia MediaLowLatency EncryptedDatagram 3 7 "session-1" "deck".
Definition sample_peer : ScriptedPeer := mkScripted (Some sample_binding_evidence) (Some sample_meta) [1; 2; 3].
Definition sample_expectation : ReceiveExpectation := mkExpectation [ClassMedia] 7 4999.

Lemma receive_admits_before_reading_witness :
  fst (receive_bounded sample_peer BoundedTransportPolicy_default sample_expectation)
    = Ok (Some (mkInbound sample_meta [1; 2; 3])) /\
  exists b, binding_of sample_peer = Some b /\ admitted b 4999.
Proof.
  assert (fst (receive_bounded sample_peer BoundedTransportPolicy_default sample_expectation)
    = Ok (Some (mkInbound sample_meta [1; 2; 3]))) as E by by vm_compute.
  split; [exact E|].
  pose proof (receive_admits_before_reading ScriptedPeer string scripted_peer sample_peer
    BoundedTransportPolicy_default sample_expectation ltac:(by intros m [= <-])) as H.
  destruct (receive_bounded sample_peer BoundedTransportPolicy_default sample_expectation) as [res p'].
  destruct H as [H _]. destruct (H _ E) as (b & (Had & _ & _ & Hb) & _). by exists b.
Defined.

(** ** The queue and its specification *)

Fixpoint total_bytes (l : list OutboundEnvelope) : Z :=
  match l with [] => 0 | e :: l => len (out_payload e) + total_bytes l end.

Lemma total_app l k : total_bytes (l ++ k) = total_bytes l + total_bytes k.
Proof. induction l as [|e l IH]; [done|]. cbn. rewrite IH. lia. Qed.

Lemma total_bytes_nonneg l : 0 <= total_bytes l.
Proof. induction l as [|e l IH]; cbn; [lia|]. pose proof (len_nonneg (out_payload e)). lia. Qed.

Inductive QueueOp := Push (e : OutboundEnvelope) | Pop.

(** One operation of the queue; [None] would be the underflow of [pop]. *)
Definition queue_step (q : BoundedQueue) (op : QueueOp) : option (result TransportContractError (option OutboundEnvelope) * BoundedQueue) :=
  match op with
  | Push e => Some (match queue_push q e with Ok q' => (Ok None, q') | Err err => (Err err, q) end)
  | Pop => '(e, q') ← queue_pop q; Some (Ok e, q')
  end.

Fixpoint queue_run (q : BoundedQueue) (ops : list QueueOp)
  : option (list (result TransportContractError (option OutboundEnvelope)) * BoundedQueue) :=
  match ops with
  | [] => Some ([], q)
  | op :: ops => '(r, q) ← queue_step q op; '(rs, q) ← queue_run q ops; Some (r :: rs, q)
  end.

(** The specification: a first-in first-out list under two budgets. *)
Definition fits (policy : BoundedTransportPolicy) (l : list OutboundEnvelope) : Prop :=
  len l <= max_queued_messages policy /\ total_bytes l <= max_queued_bytes policy.

Inductive spec_step (profile : TransportProfile) (policy : BoundedTransportPolicy) (l : list OutboundEnvelope)
  : QueueOp -> result TransportContractError (option OutboundEnvelope) -> list OutboundEnvelope -> Prop :=
| spec_push e : validate policy profile e = Ok tt -> fits policy (l ++ [e]) ->
    spec_step profile policy l (Push e) (Ok None) (l ++ [e])
| spec_invalid e err : validate policy profile e = Err err -> spec_step profile policy l (Push e) (Err err) l
| spec_full e err : validate policy profile e = Ok tt -> ~ fits policy (l ++ [e]) ->
    err = (if max_queued_messages policy <? len (l ++ [e]) then QueueMessageLimit else QueueByteLimit) ->
    spec_step profile policy l (Push e) (Err err) l
| spec_pop e l' : l = e :: l' -> spec_step profile policy l Pop (Ok (Some e)) l'
| spec_empty : l = [] -> spec_step profile policy l Pop (Ok None) l.

Inductive spec_run (profile : TransportProfile) (policy : BoundedTransportPolicy)
  : list OutboundEnvelope -> list QueueOp -> list (result TransportContractError (option OutboundEnvelope)) ->
    list OutboundEnvelope -> Prop :=
| spec_nil l : spec_run profile policy l [] [] l
| spec_cons l op r l1 ops rs l2 : spec_step profile policy l op r l1 -> spec_run profile policy l1 ops rs l2 ->
    spec_run profile policy l (op :: ops) (r :: rs) l2.

(** The queue holds a list that fits and counts its bytes. *)
Definition queue_rel (q : BoundedQueue) (l : list OutboundEnvelope) : Prop :=
  q_messages q = l /\ queued_bytes q = total_bytes l /\ fits (q_policy q) l.

Definition policy_typed (policy : BoundedTransportPolicy) : Prop :=
  0 <= max_queued_messages policy /\ in_width usize_bits (max_queued_bytes policy).

Lemma push_refines q l e : policy_typed (q_policy q) -> queue_rel q l ->
  exists r q' l', queue_step q (Push e) = Some (r, q') /\ spec_step (q_profile q) (q_policy q) l (Push e) r l' /\
    queue_rel q' l' /\ q_policy q' = q_policy q /\ q_profile q' = q_profile q.
Proof.
  intros [Hm Hb] (Hq & Hbytes & Hfit). cbn [queue_step]. unfold queue_push.
  destruct (validate (q_policy q) (q_profile q) e) as [[]|err] eqn:Ev; cbn [mbind result_bind].
  2:{ eexists _, q, l. split_and!; [done|by apply spec_invalid|done..]. }
  rewrite Hq, Hbytes. pose proof (total_bytes_nonneg l). pose proof (len_nonneg (out_payload e)).
  assert (len (l ++ [e]) = len l + 1) as Hl by (rewrite len_app; done).
  assert (total_bytes (l ++ [e]) = total_bytes l + len (out_payload e)) as Ht by (rewrite total_app; cbn; lia).
  destruct (Z.leb_spec (max_queued_messages (q_policy q)) (len l)); cbn [guard_err mbind result_bind].
  { eexists _, q, l. split_and!; [done| |done..]. apply spec_full; [done|unfold fits; lia|].
    by rewrite (proj2 (Z.ltb_lt _ _)) by lia. }
  assert (forall err : TransportContractError, ~ fits (q_policy q) (l ++ [e]) -> err = QueueByteLimit ->
    exists r q' l', Some (Err err, q) = Some (r, q') /\ spec_step (q_profile q) (q_policy q) l (Push e) r l' /\
      queue_rel q' l' /\ q_policy q' = q_policy q /\ q_profile q' = q_profile q) as Hfull.
  { intros err Hnf ->. eexists _, q, l. split_and!; [done| |done..]. apply spec_full; [done|done|].
    by rewrite (proj2 (Z.ltb_ge _ _)) by lia. }
  destruct (checked_add usize_bits (total_bytes l) (len (out_payload e))) as [n|] eqn:Ea; cbn [ok_or mbind result_bind].
  - apply checked_add_Some in Ea as [-> _].
    destruct (Z.ltb_spec (max_queued_bytes (q_policy q)) (total_bytes l + len (out_payload e))); cbn [guard_err mbind result_bind].
    + apply Hfull; [unfold fits; lia|done].
    + eexists _, _, (l ++ [e]). split_and!; [done| | |done..].
      * apply spec_push; [done|]. unfold fits. lia.
      * split_and!; cbn [q_messages queued_bytes q_policy]; [done|lia|unfold fits; lia].
  - apply Hfull; [|done]. intros [_ Hf]. rewrite Ht in Hf.
    assert (checked_add usize_bits (total_bytes l) (len (out_payload e)) = Some (total_bytes l + len (out_payload e))) as E.
    { apply checked_add_Some. unfold in_width, umax in *. split; [done|lia]. }
    congruence.
Qed.

Lemma pop_refines q l : queue_rel q l ->
  exists r q' l', queue_step q Pop = Some (r, q') /\ spec_step (q_profile q) (q_policy q) l Pop r l' /\
    queue_rel q' l' /\ q_policy q' = q_policy q /\ q_profile q' = q_profile q.
Proof.
  intros (Hq & Hbytes & Hfit). cbn [queue_step]. unfold queue_pop. rewrite Hq. destruct l as [|e l]; cbn [mbind option_bind].
  { eexists _, q, []. split_and!; [done|by apply spec_empty|done..]. }
  pose proof (total_bytes_nonneg l). pose proof (len_nonneg (out_payload e)). unfold fits in Hfit.
  cbn [total_bytes] in *. rewrite len_cons in Hfit.
  assert (checked_sub (queued_bytes q) (len (out_payload e)) = Some (total_bytes l)) as ->.
  { apply checked_sub_Some. lia. }
  cbn [mbind option_bind]. eexists _, _, l. split_and!; [done|by apply spec_pop| |done..].
  split_and!; [done..|]. unfold fits. cbn [q_policy]. lia.
Qed.

(** The outbound queue is a first-in first-out list under its budgets.
    Any sequence of pushes and pops on a fresh queue runs without the
    underflow [pop]'s subtraction could have, and returns exactly what the
    specification does: an envelope is queued iff it is valid and the queue
    stays within both the message and the byte budget with it, the refusal
    names the budget that was exceeded and leaves the queue as it was, and
    pops return the envelopes in order; the byte counter is the exact sum. *)
Theorem bounded_queue_refines (profile : TransportProfile) (policy : BoundedTransportPolicy) (ops : list QueueOp) :
  policy_typed policy ->
  exists rs q l, queue_run (BoundedQueue_new profile policy) ops = Some (rs, q) /\
    spec_run profile policy [] ops rs l /\
    q_messages q = l /\ queued_bytes q = total_bytes l /\ fits policy l.
Proof.
  intros Hp.
  assert (forall q l, q_policy q = policy -> q_profile q = profile -> queue_rel q l ->
    exists rs q' l', queue_run q ops = Some (rs, q') /\ spec_run profile policy l ops rs l' /\
      q_messages q' = l' /\ queued_bytes q' = total_bytes l' /\ fits policy l') as Hrun.
  { induction ops as [|op ops IH]; intros q l Epo Epr Hrel.
    - exists [], q, l. destruct Hrel as (? & ? & Hf). rewrite Epo in Hf. split_and!; [done|constructor|done..].
    - assert (exists r q1 l1, queue_step q op = Some (r, q1) /\ spec_step (q_profile q) (q_policy q) l op r l1 /\
        queue_rel q1 l1 /\ q_policy q1 = q_policy q /\ q_profile q1 = q_profile q) as (r & q1 & l1 & Es & Hs & Hr1 & E1 & E2).
      { destruct op; [apply push_refines; by rewrite ?Epo|by apply pop_refines]. }
      destruct (IH q1 l1) as (rs & q2 & l2 & Er & Hs2 & ? & ? & ?); [congruence..|done|].
      exists (r :: rs), q2, l2. cbn [queue_run]. rewrite Es. cbn [mbind option_bind]. rewrite Er.
      split_and!; [done| |done..]. rewrite Epo, Epr in Hs. by econstructor. }
  apply Hrun; [done..|]. split_and!; [done..|]. unfold fits. destruct Hp as [? Hb]. unfold in_width in Hb. unfold len. cbn. lia.
Qed.

Definition sample_envelope : OutboundEnvelope :=
  mkOutbound (mkMeta ClassControl RelControl ReliableStream 2 0 "s" "p") [9; 9].

Lemma bounded_queue_refines_witness :
  exists rs q l, queue_run (BoundedQueue_new Quic (mkTransportPolicy 2 2 2 1 8 2))
    [Push sample_envelope; Push sample_envelope; Pop; Pop] = Some (rs, q) /\
    rs = [Ok None; Err QueueMessageLimit; Ok (Some sample_envelope); Ok None] /\
    spec_run Quic (mkTransportPolicy 2 2 2 1 8 2) [] [Push sample_envelope; Push sample_envelope; Pop; Pop] rs l.
Proof.
  destruct (bounded_queue_refines Quic (mkTransportPolicy 2 2 2 1 8 2) [Push sample_envelope; Push sample_envelope; Pop; Pop])
    as (rs & q & l & E & Hs & _); [by split; vm_compute|].
  exists rs, q, l. split_and!; [exact E| |exact Hs]. vm_compute in E. by injection E as <- _.
Defined.

(** ** Routing *)

Lemma delivery_datagram class profile available n limit live overhead : in_width usize_bits limit ->
  delivery_mechanism_for class profile available n limit live overhead = EncryptedDatagram <->
  profile = Quic /\ available = true /\ class = MediaLowLatency /\ n + overhead <= limit /\
  exists live', live = Some live' /\ n + overhead <= live'.
Proof.
  intros Hw. unfold delivery_mechanism_for.
  assert ((bool_decide (profile = Quic) && available && bool_decide (class = MediaLowLatency)
     && match checked_add usize_bits n overhead with
        | Some total =>
          (total <=? limit) && match live with Some live_limit => total <=? live_limit | None => false end
        | None => false
        end) = true <->
    profile = Quic /\ available = true /\ class = MediaLowLatency /\ n + overhead <= limit /\
    exists live', live = Some live' /\ n + overhead <= live') as H.
  { rewrite !andb_true_iff, !bool_decide_eq_true.
    assert (match checked_add usize_bits n overhead with
        | Some total =>
          (total <=? limit) && match live with Some live_limit => total <=? live_limit | None => false end
        | None => false
        end = true <-> n + overhead <= limit /\ exists live', live = Some live' /\ n + overhead <= live') as ->; [|tauto].
    destruct (checked_add usize_bits n overhead) as [total|] eqn:E.
    - apply checked_add_Some in E as [-> _]. rewrite andb_true_iff, Z.leb_le.
      destruct live as [live|]; [rewrite Z.leb_le; naive_solver|naive_solver].
    - split; [done|]. intros [Hle _]. exfalso.
      assert (checked_add usize_bits n overhead = Some (n + overhead)) as E'; [|congruence].
      apply checked_add_Some. split; [done|]. unfold in_width, umax in *. lia. }
  destruct (_ && _); [tauto|]. split; [done|]. intros Hc. apply H in Hc. done.
Qed.

Lemma class_by_lane b r : lane_for_binary_message [b] = Some r ->
  (reliability_class_for_frame_byte b = MediaLowLatency <-> framing r = LengthPrefixedMedia).
Proof.
  unfold lane_for_binary_message, reliability_class_for_frame_byte.
  destruct (FrameType_try_from b) as [t|]; [|done]. intros [= <-]. by destruct t.
Qed.

(** Routing never produces an envelope its own policy refuses for how it
    is delivered. An encrypted datagram is chosen exactly for low-latency
    media on QUIC when datagrams are available and the framed payload fits
    both the policy's and the live limit; the metadata with that choice then
    passes the policy's class, profile, delivery and size checks, and a
    payload sent on the stream instead passes them iff it is within its
    class's bound. A frame byte is low-latency media exactly when its lane
    carries length-prefixed media. *)
Theorem routing_agrees_with_policy policy profile available live overhead (m : EnvelopeMetadata) (b : Z) (r : LaneRole) :
  let chosen := delivery_mechanism_for (reliability m) profile available (declared_size m)
                  (max_datagram_payload_bytes policy) live overhead in
  0 <= overhead -> in_width 32 (declared_size m) -> in_width usize_bits (max_datagram_payload_bytes policy) ->
  delivery m = chosen -> class_matches (message_class m) (reliability m) = true ->
  1 <= blen (meta_session_id m) <= MAX_TRANSPORT_IDENTITY_BYTES ->
  1 <= blen (meta_peer_identity m) <= MAX_TRANSPORT_IDENTITY_BYTES ->
  (chosen = EncryptedDatagram <->
     profile = Quic /\ available = true /\ reliability m = MediaLowLatency /\
     declared_size m + overhead <= max_datagram_payload_bytes policy /\
     exists limit, live = Some limit /\ declared_size m + overhead <= limit) /\
  (validate_metadata policy profile m = Ok tt <->
     chosen = EncryptedDatagram \/ declared_size m <= maximum_for policy m) /\
  (lane_for_binary_message [b] = Some r ->
     (reliability_class_for_frame_byte b = MediaLowLatency <-> framing r = LengthPrefixedMedia)).
Proof.
  intros chosen Ho Hw Hd Hdel Hc Hs Hp. pose proof (delivery_datagram (reliability m) profile available
    (declared_size m) (max_datagram_payload_bytes policy) live overhead Hd) as Hiff.
  split_and!; [exact Hiff| |apply class_by_lane].
  rewrite metadata_Ok by done. unfold metadata_ok. rewrite Hdel. fold chosen in Hiff. split; [tauto|].
  intros Hor.
  assert (chosen = EncryptedDatagram -> profile = Quic /\ reliability m = MediaLowLatency) as H1.
  { intros E. apply Hiff in E. tauto. }
  assert (declared_size m <= maximum_for policy m) as H2; [|tauto].
  destruct Hor as [E|]; [|done]. pose proof (proj1 Hiff E) as (_ & _ & Er & Hle & _).
  unfold maximum_for. rewrite Er, Hdel, E. cbn [is_encrypted_datagram]. unfold in_width, umax in *. lia.
Qed.

Lemma routing_agrees_with_policy_witness :
  validate_metadata BoundedTransportPolicy_default Quic sample_meta = Ok tt /\
  lane_for_binary_message [0x10] = Some AudioOutput /\ reliability_class_for_frame_byte 0x10 = MediaLowLatency.
Proof.
  destruct (routing_agrees_with_policy BoundedTransportPolicy_default Quic true (Some 1200) 9 sample_meta 0x10 AudioOutput)
    as (_ & Hv & Hb); [by vm_compute..|].
  split; [|split; [done|]].
  - apply Hv. left. by vm_compute.
  - by apply Hb.
Defined.

(** Both peers select the same profile, and never one that is not shared or
    not the required one. *)
Lemma profile_selection_symmetric local remote required :
  select_transport_profile local remote required = select_transport_profile remote local required /\
  (forall p, select_transport_profile local remote required = Ok p ->
     (p ∈ local) /\ (p ∈ remote) /\ (forall q, required = Some q -> p = q) /\
     (required = None -> Quic ∈ local -> Quic ∈ remote -> p = Quic)).
Proof.
  unfold select_transport_profile. split.
  - destruct required as [p|].
    + by rewrite (andb_comm (bool_decide (p ∈ local))).
    + by rewrite (andb_comm (bool_decide (Quic ∈ local))), (andb_comm (bool_decide (WebSocketSecure ∈ local))).
  - intros p. destruct required as [q|].
    + destruct (_ && _) eqn:E; [|done]. apply andb_true_iff in E. rewrite !bool_decide_eq_true in E.
      intros [= <-]. split_and!; try tauto; [by intros ? [= <-]|done].
    + destruct (bool_decide (Quic ∈ local) && bool_decide (Quic ∈ remote)) eqn:E.
      * apply andb_true_iff in E. rewrite !bool_decide_eq_true in E. intros [= <-]. split_and!; tauto || done.
      * destruct (bool_decide (WebSocketSecure ∈ local) && bool_decide (WebSocketSecure ∈ remote)) eqn:E2; [|done].
        apply andb_true_iff in E2. rewrite !bool_decide_eq_true in E2. intros [= <-]. split_and!; try tauto; [done|].
        intros _ H1 H2. rewrite !bool_decide_eq_true_2 in E by done. done.
Qed.
