(* ===== verification/TransportHealth.v ===== *)
(** * Transport: the fallback circuit breaker and the silence proof

    Models [shared/transport/src/fallback.rs] (the three-rung ladder of
    transport modes, its failure window and its probed upgrades) and
    [shared/transport/src/liveness.rs] (the decision that a peer is silent).
    The breaker's times are whole seconds given by the caller; the observer's
    are nanoseconds. *)

From S2P Require Import Prelude.

Definition CB_DEFAULT_FAILURE_THRESHOLD : Z := 3.
Definition CB_DEFAULT_WINDOW_SECS : Z := 60.
Definition CB_DEFAULT_PROBE_INTERVAL_SECS : Z := 300.
Definition CB_UPGRADE_PROBES_REQUIRED : Z := 2.

Inductive FallbackMode := QuicWithDatagrams | QuicStreamsOnly | WebSocketSecure.
#[global] Instance FallbackMode_eq_dec : EqDecision FallbackMode. Proof. solve_decision. Defined.

Definition downgrade (m : FallbackMode) : option FallbackMode :=
  match m with
  | QuicWithDatagrams => Some QuicStreamsOnly
  | QuicStreamsOnly => Some WebSocketSecure
  | WebSocketSecure => None
  end.

Definition is_quic (m : FallbackMode) : bool := negb (bool_decide (m = WebSocketSecure)).
Definition datagrams_active (m : FallbackMode) : bool := bool_decide (m = QuicWithDatagrams).

Inductive FailureKind := QuicHandshake | PacketTimeout | SustainedLoss | DatagramDrop | ConnectionClosed | PathChange.
#[global] Instance FailureKind_eq_dec : EqDecision FailureKind. Proof. solve_decision. Defined.

(** The durations of the policy are read in whole seconds only. *)
Record CircuitBreakerPolicy := mkBreakerPolicy { failure_threshold : Z; window : Z; probe_interval : Z }.

Definition CircuitBreakerPolicy_default : CircuitBreakerPolicy :=
  mkBreakerPolicy CB_DEFAULT_FAILURE_THRESHOLD CB_DEFAULT_WINDOW_SECS CB_DEFAULT_PROBE_INTERVAL_SECS.

Definition validated (p : CircuitBreakerPolicy) : CircuitBreakerPolicy :=
  mkBreakerPolicy (if failure_threshold p =? 0 then 1 else failure_threshold p)
    (if window p =? 0 then 1 else window p) (if probe_interval p =? 0 then 1 else probe_interval p).

Record TransportCircuitBreaker := mkBreaker {
  mode : FallbackMode;
  policy : CircuitBreakerPolicy;
  failure_count : Z;
  window_start_secs : Z;
  downgraded_at_secs : option Z;
  consecutive_probe_successes : Z
}.

Definition breaker_new (p : CircuitBreakerPolicy) : TransportCircuitBreaker :=
  mkBreaker QuicWithDatagrams (validated p) 0 0 None 0.

Definition with_mode (p : CircuitBreakerPolicy) (m : FallbackMode) : TransportCircuitBreaker :=
  mkBreaker m (validated p) 0 0 (if bool_decide (m = QuicWithDatagrams) then None else Some 0) 0.

(** The [match kind] of a reached threshold. *)
Definition downgraded (b : TransportCircuitBreaker) (kind : FailureKind) (now : Z) : FallbackMode * option Z :=
  match kind with
  | QuicHandshake => (WebSocketSecure, Some now)
  | DatagramDrop => (QuicStreamsOnly, Some now)
  | PacketTimeout | SustainedLoss | ConnectionClosed =>
    match downgrade (mode b) with
    | Some lower => (lower, Some now)
    | None => (mode b, downgraded_at_secs b)
    end
  | PathChange => (mode b, downgraded_at_secs b)
  end.

Definition record_failure (b : TransportCircuitBreaker) (kind : FailureKind) (now : Z) : TransportCircuitBreaker :=
  if bool_decide (kind = PathChange) then b
  else if bool_decide (kind = DatagramDrop) && negb (bool_decide (mode b = QuicWithDatagrams)) then b
  else
    let '(count, start) :=
      if window (policy b) <? saturating_sub now (window_start_secs b) then (0, now)
      else (failure_count b, window_start_secs b) in
    let count := count + 1 in
    if failure_threshold (policy b) <=? count then
      let '(m, at_) := downgraded b kind now in
      mkBreaker m (policy b) 0 now at_ 0
    else mkBreaker (mode b) (policy b) count start (downgraded_at_secs b) (consecutive_probe_successes b).

Definition record_success (b : TransportCircuitBreaker) (now : Z) : TransportCircuitBreaker :=
  mkBreaker (mode b) (policy b) 0 now (downgraded_at_secs b) 0.

Definition should_probe_upgrade (b : TransportCircuitBreaker) (now : Z) : bool :=
  if bool_decide (mode b = QuicWithDatagrams) then false
  else match downgraded_at_secs b with
       | None => false
       | Some at_ => probe_interval (policy b) <=? saturating_sub now at_
       end.

Definition apply_upgrade (b : TransportCircuitBreaker) (now : Z) : TransportCircuitBreaker :=
  let m := match mode b with
           | WebSocketSecure => QuicStreamsOnly
           | QuicStreamsOnly | QuicWithDatagrams => QuicWithDatagrams
           end in
  mkBreaker m (policy b) 0 (window_start_secs b)
    (if bool_decide (m = QuicWithDatagrams) then None else Some now) 0.

Definition set_probes (b : TransportCircuitBreaker) (n : Z) : TransportCircuitBreaker :=
  mkBreaker (mode b) (policy b) (failure_count b) (window_start_secs b) (downgraded_at_secs b) n.

Definition record_probe_result (b : TransportCircuitBreaker) (success : bool) (now : Z) : TransportCircuitBreaker :=
  if bool_decide (mode b = QuicWithDatagrams) then set_probes b 0
  else if negb success then set_probes b 0
  else if negb (should_probe_upgrade b now) then b
  else
    let b := set_probes b (consecutive_probe_successes b + 1) in
    if CB_UPGRADE_PROBES_REQUIRED <=? consecutive_probe_successes b then apply_upgrade b now else b.

(** ** The silence proof *)

Definition LANE_KEEPALIVE_INTERVAL : Z := duration_from_secs 1.
Definition LANE_IDLE_TIMEOUT : Z := duration_from_secs 10.
Definition PEER_SILENCE_PROOF : Z := duration_from_secs 3.
Definition ATTACHMENT_HANDOVER_WAIT : Z := duration_from_secs 12.
Definition LIVENESS_SAMPLE_INTERVAL : Z := 100 * 1000000.

Inductive PeerLivenessVerdict := Alive | Silent (silent_for : Z) | VerdictClosed.

Record SilenceObserver := mkObserver { started_at : Z; received : Z; heard_since_start : bool }.

Definition SilenceObserver_new (at_ received : Z) : SilenceObserver := mkObserver at_ received false.

Definition observe (o : SilenceObserver) (at_ rx proof : Z) : option PeerLivenessVerdict * SilenceObserver :=
  let o := if negb (rx =? received o) then mkObserver (started_at o) rx true else o in
  if heard_since_start o then (Some Alive, o)
  else
    let silent_for := saturating_sub at_ (started_at o) in
    (if proof <=? silent_for then Some (Silent silent_for) else None, o).

(** ** The ladder *)

Definition rank (m : FallbackMode) : Z :=
  match m with QuicWithDatagrams => 2 | QuicStreamsOnly => 1 | WebSocketSecure => 0 end.

Inductive BreakerOp :=
| Fails (kind : FailureKind) (now : Z)
| Succeeds (now : Z)
| Probe (success : bool) (now : Z)
| Upgrades (now : Z).

Definition op_time (op : BreakerOp) : Z := match op with Fails _ t | Succeeds t | Probe _ t | Upgrades t => t end.

Definition breaker_step (b : TransportCircuitBreaker) (op : BreakerOp) : TransportCircuitBreaker :=
  match op with
  | Fails kind now => record_failure b kind now
  | Succeeds now => record_success b now
  | Probe success now => record_probe_result b success now
  | Upgrades now => apply_upgrade b now
  end.

Definition breaker_run (b : TransportCircuitBreaker) (ops : list BreakerOp) : TransportCircuitBreaker :=
  fold_left breaker_step ops b.

Lemma breaker_run_snoc b ops op : breaker_run b (ops ++ [op]) = breaker_step (breaker_run b ops) op.
Proof. unfold breaker_run. by rewrite fold_left_app. Qed.

Record breaker_inv (b : TransportCircuitBreaker) : Prop := {
  bi_count : 0 <= failure_count b < failure_threshold (policy b);
  bi_window : 1 <= window (policy b);
  bi_probe : 1 <= probe_interval (policy b);
  bi_mode : mode b = QuicWithDatagrams <-> downgraded_at_secs b = None;
  bi_probes : 0 <= consecutive_probe_successes b < CB_UPGRADE_PROBES_REQUIRED
}.

Definition policy_ok (p : CircuitBreakerPolicy) : Prop :=
  in_width 32 (failure_threshold p) /\ in_width 64 (window p) /\ in_width 64 (probe_interval p).

Lemma with_mode_inv p m : policy_ok p -> breaker_inv (with_mode p m).
Proof.
  intros (H1 & H2 & H3). unfold in_width in *. unfold with_mode, validated.
  constructor; cbn; unfold CB_UPGRADE_PROBES_REQUIRED;
    try (repeat match goal with |- context [?x =? 0] => destruct (Z.eqb_spec x 0) end; lia).
  by destruct m.
Qed.

Lemma downgraded_at b kind now m at_ : breaker_inv b -> downgraded b kind now = (m, at_) ->
  (m = QuicWithDatagrams <-> at_ = None).
Proof.
  intros Hi E. pose proof (bi_mode _ Hi) as Hm. unfold downgraded, downgrade in E.
  destruct kind, (mode b) eqn:Em; injection E as <- <-; rewrite ?Em in *; naive_solver.
Qed.

(** The failure is one the breaker counts in its mode. *)
Definition counted (b : TransportCircuitBreaker) (kind : FailureKind) : bool :=
  negb (bool_decide (kind = PathChange))
  && (negb (bool_decide (kind = DatagramDrop)) || bool_decide (mode b = QuicWithDatagrams)).

(** Whether the window of earlier failures is still open, the failures it
    then counts with this one, and where it starts. *)
Definition window_open (b : TransportCircuitBreaker) (now : Z) : bool :=
  saturating_sub now (window_start_secs b) <=? window (policy b).
Definition count_with (b : TransportCircuitBreaker) (now : Z) : Z :=
  if window_open b now then failure_count b + 1 else 1.
Definition start_with (b : TransportCircuitBreaker) (now : Z) : Z :=
  if window_open b now then window_start_secs b else now.

(** [record_failure] in three cases. *)
Lemma failure_cases b kind now :
  record_failure b kind now =
  if negb (counted b kind) then b
  else if failure_threshold (policy b) <=? count_with b now then
    let '(m, at_) := downgraded b kind now in mkBreaker m (policy b) 0 now at_ 0
  else mkBreaker (mode b) (policy b) (count_with b now) (start_with b now) (downgraded_at_secs b)
         (consecutive_probe_successes b).
Proof.
  unfold record_failure, counted, count_with, start_with, window_open.
  case_bool_decide; [done|]. cbn [negb andb].
  destruct (bool_decide (kind = DatagramDrop)), (bool_decide (mode b = QuicWithDatagrams)); cbn [negb andb orb]; try done;
    (destruct (Z.ltb_spec (window (policy b)) (saturating_sub now (window_start_secs b)));
     [rewrite (proj2 (Z.leb_gt (saturating_sub _ _) _)) by done|rewrite (proj2 (Z.leb_le (saturating_sub _ _) _)) by done]); done.
Qed.

Lemma count_with_pos b now : breaker_inv b -> 1 <= count_with b now.
Proof. intros Hi. pose proof (bi_count _ Hi). unfold count_with. destruct (window_open b now); lia. Qed.

Ltac binv := constructor; cbn; unfold CB_UPGRADE_PROBES_REQUIRED in *; try done; try lia.

Lemma apply_upgrade_inv b n now : breaker_inv b -> breaker_inv (apply_upgrade (set_probes b n) now) /\ breaker_inv (apply_upgrade b now).
Proof.
  intros [Hc Hw Hp Hm Hs]. unfold CB_UPGRADE_PROBES_REQUIRED in *.
  split; unfold apply_upgrade; cbn [mode set_probes policy]; binv; by destruct (mode b).
Qed.

Lemma step_breaker_inv b op : breaker_inv b -> breaker_inv (breaker_step b op).
Proof.
  intros Hi. destruct Hi as [Hc Hw Hp Hm Hs] eqn:E. clear E. unfold CB_UPGRADE_PROBES_REQUIRED in *.
  destruct op as [kind now|now|success now|now]; cbn [breaker_step].
  - rewrite failure_cases. destruct (counted b kind); cbn [negb]; [|done].
    pose proof (count_with_pos b now Hi).
    destruct (Z.leb_spec (failure_threshold (policy b)) (count_with b now)).
    + destruct (downgraded b kind now) as [m at_] eqn:Ed. binv. by apply downgraded_at in Ed.
    + binv.
  - binv.
  - unfold record_probe_result. case_bool_decide as Em; [binv|].
    destruct success; cbn [negb]; [|binv].
    destruct (should_probe_upgrade b now); cbn [negb]; [|done].
    unfold CB_UPGRADE_PROBES_REQUIRED. cbn [set_probes consecutive_probe_successes].
    destruct (Z.leb_spec 2 (consecutive_probe_successes b + 1)); [|binv].
    exact (proj1 (apply_upgrade_inv b _ now Hi)).
  - exact (proj2 (apply_upgrade_inv b 0 now Hi)).
Qed.

Lemma run_breaker_inv ops : forall b, breaker_inv b -> breaker_inv (breaker_run b ops).
Proof. induction ops as [|op ops IH]; intros b Hi; [done|]. apply IH. by apply step_breaker_inv. Qed.

Lemma step_policy b op : policy (breaker_step b op) = policy b.
Proof.
  destruct op as [kind now|now|success now|now]; cbn [breaker_step]; [|done| |done].
  - rewrite failure_cases. destruct (counted b kind); cbn [negb]; [|done].
    destruct (_ <=? _); [by destruct (downgraded b kind now)|done].
  - unfold record_probe_result. repeat case_match; done.
Qed.

Lemma run_policy p m ops : policy (breaker_run (with_mode p m) ops) = validated p.
Proof.
  induction ops as [|op ops IH] using rev_ind; [done|]. by rewrite breaker_run_snoc, step_policy.
Qed.

(** ** Evidence for a downgrade *)

(** How many failures were recorded at or after [s]. *)
Fixpoint failures_since (s : Z) (ops : list BreakerOp) : Z :=
  match ops with
  | [] => 0
  | op :: ops =>
    match op with Fails kind t => if bool_decide (kind <> PathChange /\ s <= t) then 1 else 0 | _ => 0 end
    + failures_since s ops
  end.

Lemma failures_since_app s l k : failures_since s (l ++ k) = failures_since s l + failures_since s k.
Proof. induction l as [|op l IH]; [done|]. cbn. rewrite IH. lia. Qed.

Lemma failures_since_mono s s' l : s' <= s -> failures_since s l <= failures_since s' l.
Proof.
  intros Hs. induction l as [|op l IH]; [done|]. cbn. destruct op as [kind t| | |]; [|lia..].
  do 2 case_bool_decide; naive_solver lia.
Qed.

Lemma failures_since_nonneg s l : 0 <= failures_since s l.
Proof. induction l as [|op l IH]; [done|]. cbn. destruct op; [case_bool_decide|..]; lia. Qed.

Lemma failures_since_snoc s ops op : failures_since s (ops ++ [op]) = failures_since s ops +
  match op with Fails kind t => if bool_decide (kind <> PathChange /\ s <= t) then 1 else 0 | _ => 0 end.
Proof. rewrite failures_since_app. cbn. lia. Qed.

(** Times never go back. *)
Definition monotone (ops : list BreakerOp) : Prop := StronglySorted Z.le (0 :: map op_time ops).

Lemma monotone_snoc ops op : monotone (ops ++ [op]) -> monotone ops /\ 0 <= op_time op /\
  (forall op', op' ∈ ops -> op_time op' <= op_time op).
Proof.
  unfold monotone. rewrite map_app, app_comm_cons. cbn [map]. intros H.
  apply StronglySorted_app in H as (H1 & H2 & H3). split_and!; [done|apply H1; set_solver|].
  intros op' Hin. apply H1; [|set_solver]. apply elem_of_cons. right. by apply list_elem_of_fmap_2.
Qed.

Lemma evidence ops : forall b0, breaker_inv b0 -> failure_count b0 = 0 -> window_start_secs b0 = 0 -> monotone ops ->
  let b := breaker_run b0 ops in
  failure_count b <= failures_since (window_start_secs b) ops /\
  (window_start_secs b = 0 \/ exists op, op ∈ ops /\ window_start_secs b = op_time op).
Proof.
  induction ops as [|op ops IH] using rev_ind; intros b0 Hi Hc Hw Hm; [cbn; split; [lia|by left]|].
  apply monotone_snoc in Hm as (Hm & Ht & Hle). rewrite breaker_run_snoc.
  destruct (IH b0 Hi Hc Hw Hm) as [Hcnt Hst]. clear IH. pose proof (run_breaker_inv ops b0 Hi) as Hib.
  set (b := breaker_run b0 ops) in *. cbn zeta.
  assert (window_start_secs b <= op_time op) as Hsle.
  { destruct Hst as [-> |(op' & Hin & ->)]; [done|auto]. }
  assert (window_start_secs b = 0 \/ exists op', op' ∈ ops ++ [op] /\ window_start_secs b = op_time op') as Hst'.
  { destruct Hst as [Hst|(op' & Hin & Hst)]; [by left|right]. exists op'. split; [set_solver|done]. }
  assert (exists op', op' ∈ ops ++ [op] /\ op_time op = op_time op') as Hnow by (exists op; split; [set_solver|done]).
  assert (failure_count b <= failures_since (window_start_secs b) (ops ++ [op])) as Hgrow.
  { rewrite failures_since_snoc. destruct op; [case_bool_decide|..]; lia. }
  destruct op as [kind now|now|success now|now]; cbn [breaker_step op_time] in *.
  - rewrite failure_cases. destruct (counted b kind) eqn:Ec; cbn [negb]; [|done].
    assert (kind <> PathChange) as Hk by (intros ->; done).
    destruct (failure_threshold (policy b) <=? count_with b now).
    + destruct (downgraded b kind now) as [m at_]. cbn. split; [apply failures_since_nonneg|by right].
    + cbn [failure_count window_start_secs]. unfold count_with, start_with. destruct (window_open b now).
      * split; [|done]. rewrite failures_since_snoc. rewrite bool_decide_eq_true_2 by done. lia.
      * split; [|by right]. rewrite failures_since_snoc. rewrite bool_decide_eq_true_2 by (split; [done|lia]).
        pose proof (failures_since_nonneg now ops). lia.
  - cbn. split; [apply failures_since_nonneg|by right].
  - unfold record_probe_result. case_bool_decide; [done|]. destruct success; cbn [negb]; [|done].
    destruct (should_probe_upgrade b now); cbn [negb]; [|done].
    destruct (_ <=? _); [|done]. cbn. split; [apply failures_since_nonneg|done].
  - cbn. split; [apply failures_since_nonneg|done].
Qed.

(** ** Evidence for an upgrade *)

(** What does not clear a first successful probe. *)
Definition keeps_probe (op : BreakerOp) : Prop :=
  match op with Succeeds _ | Probe false _ | Upgrades _ => False | _ => True end.

(** One eligible successful probe stands in the history, in the current mode. *)
Definition armed (b0 : TransportCircuitBreaker) (ops : list BreakerOp) (b : TransportCircuitBreaker) : Prop :=
  exists pre t mid, ops = pre ++ Probe true t :: mid /\ Forall keeps_probe mid /\
    should_probe_upgrade (breaker_run b0 pre) t = true /\
    mode (breaker_run b0 pre) = mode b /\ downgraded_at_secs (breaker_run b0 pre) = downgraded_at_secs b.

Lemma armed_snoc b0 ops b b' op : armed b0 ops b -> keeps_probe op -> mode b' = mode b ->
  downgraded_at_secs b' = downgraded_at_secs b -> armed b0 (ops ++ [op]) b'.
Proof.
  intros (pre & t & mid & -> & Hk & Hs & Hm & Hd) Ho E1 E2. exists pre, t, (mid ++ [op]).
  rewrite <- app_assoc. split_and!; [done| |done|congruence..]. by apply Forall_app_2; [|constructor].
Qed.

Lemma probes_armed ops : forall b0, breaker_inv b0 -> consecutive_probe_successes b0 = 0 ->
  consecutive_probe_successes (breaker_run b0 ops) = 1 -> armed b0 ops (breaker_run b0 ops).
Proof.
  induction ops as [|op ops IH] using rev_ind; intros b0 Hi H0 H1; [cbn in H1; lia|].
  specialize (IH b0 Hi H0). rewrite breaker_run_snoc in *. pose proof (run_breaker_inv ops b0 Hi) as Hib.
  set (b := breaker_run b0 ops) in *. destruct op as [kind now|now|success now|now]; cbn [breaker_step] in *; [|done| |done].
  - rewrite failure_cases in *. destruct (counted b kind); cbn [negb] in *; [|by apply armed_snoc with b; [apply IH|..]].
    destruct (_ <=? _); [by destruct (downgraded b kind now)|]. cbn in H1. by apply armed_snoc with b; [apply IH|..].
  - unfold record_probe_result in *. case_bool_decide; [done|]. destruct success; cbn [negb] in *; [|done].
    destruct (should_probe_upgrade b now) eqn:Es; cbn [negb] in *; [|by apply armed_snoc with b; [apply IH|..]].
    destruct (_ <=? _); [done|]. exists ops, now, []. split_and!; done.
Qed.

(** C36: The mode moves on evidence only. For a breaker started in any mode
    and any observations with times that do not go back: a rung is lost only
    by a recorded failure with at least the policy's threshold of failures in
    the window that ends now, one rung unless the handshake itself failed,
    and never by a path change or, below the datagram rung, a datagram drop;
    a rung is gained one at a time and, unless the caller itself asks for it
    with [apply_upgrade], which needs no evidence, only by a successful probe
    after an earlier successful probe in the same mode, both at least the probe
    interval after the mode was entered, with no failed probe, no session
    success and no such request between. *)
Theorem ladder_moves_on_evidence (p : CircuitBreakerPolicy) (start : FallbackMode) (ops : list BreakerOp) (op : BreakerOp) :
  policy_ok p -> monotone (ops ++ [op]) ->
  let b := breaker_run (with_mode p start) ops in
  let b' := breaker_run (with_mode p start) (ops ++ [op]) in
  (rank (mode b') < rank (mode b) ->
     exists kind now, op = Fails kind now /\
       failure_threshold (validated p) <= failures_since (now - window (validated p)) (ops ++ [op]) /\
       kind <> PathChange /\ (kind = DatagramDrop -> mode b = QuicWithDatagrams) /\
       (if bool_decide (kind = QuicHandshake) then mode b' = WebSocketSecure
        else rank (mode b') = rank (mode b) - 1)) /\
  (rank (mode b) < rank (mode b') ->
     rank (mode b') = rank (mode b) + 1 /\
     ((exists now, op = Upgrades now) \/
     exists pre t mid now, ops = pre ++ Probe true t :: mid /\ op = Probe true now /\ Forall keeps_probe mid /\
       exists entered, downgraded_at_secs (breaker_run (with_mode p start) pre) = Some entered /\
         downgraded_at_secs b = Some entered /\ mode (breaker_run (with_mode p start) pre) = mode b /\
         probe_interval (validated p) <= t - entered /\ probe_interval (validated p) <= now - entered)).
Proof.
  intros Hp Hm b b'. pose proof (with_mode_inv p start Hp) as Hi0.
  assert (forall l, policy (breaker_run (with_mode p start) l) = validated p) as Hpol by apply run_policy.
  pose proof (run_breaker_inv ops _ Hi0) as Hib. fold b in Hib.
  pose proof (proj1 (monotone_snoc _ _ Hm)) as Hm0. apply monotone_snoc in Hm as (_ & _ & Hle).
  destruct (evidence ops _ Hi0 eq_refl eq_refl Hm0) as [Hev Hst]. fold b in Hev, Hst.
  unfold b' in *. rewrite breaker_run_snoc. fold b.
  pose proof (bi_probe _ Hib) as Hpi. specialize (Hpol ops) as Hpolb. fold b in Hpolb. rewrite Hpolb in Hpi.
  destruct op as [kind now|now|success now|now]; cbn [breaker_step op_time] in *.
  - rewrite failure_cases. destruct (counted b kind) eqn:Ec; cbn [negb]; [|split; lia].
    unfold counted in Ec. apply andb_true_iff in Ec as [Ek Ed]. apply negb_true_iff, bool_decide_eq_false in Ek.
    destruct (Z.leb_spec (failure_threshold (policy b)) (count_with b now)) as [Hthr|]; [|cbn; split; lia].
    assert (rank (mode b) <> rank (fst (downgraded b kind now)) ->
      rank (fst (downgraded b kind now)) < rank (mode b) /\
      (if bool_decide (kind = QuicHandshake) then fst (downgraded b kind now) = WebSocketSecure
       else rank (fst (downgraded b kind now)) = rank (mode b) - 1)) as Hrank.
    { unfold downgraded. apply orb_true_iff in Ed.
      destruct kind, (mode b) eqn:Em; cbn in *; try (intros; split; done || lia); naive_solver. }
    destruct (downgraded b kind now) as [m at_]. cbn [fst mode] in *. split; [|lia]. intros Hlt.
    exists kind, now. split_and!; [done| |done| |by apply Hrank; lia].
    + rewrite Hpolb in Hthr. unfold count_with, window_open in Hthr. rewrite failures_since_snoc.
      pose proof (bi_window _ Hib) as Hwin. rewrite Hpolb in *.
      rewrite bool_decide_eq_true_2 by (split; [done|lia]).
      destruct (Z.leb_spec (saturating_sub now (window_start_secs b)) (window (validated p))) as [Hopen|_].
      * pose proof (failures_since_mono (window_start_secs b) (now - window (validated p)) ops).
        unfold saturating_sub in Hopen. lia.
      * pose proof (failures_since_nonneg (now - window (validated p)) ops). lia.
    + intros ->. rewrite orb_false_l in Ed. by apply bool_decide_eq_true in Ed.
  - split; cbn; lia.
  - unfold record_probe_result. case_bool_decide as Em; [split; cbn; lia|].
    destruct success; cbn [negb]; [|split; cbn; lia].
    destruct (should_probe_upgrade b now) eqn:Es; cbn [negb]; [|split; lia].
    cbn [set_probes consecutive_probe_successes]. pose proof (bi_probes _ Hib) as Hpr. unfold CB_UPGRADE_PROBES_REQUIRED in *.
    destruct (Z.leb_spec 2 (consecutive_probe_successes b + 1)); [|cbn; split; lia].
    assert (rank (mode (apply_upgrade (set_probes b (consecutive_probe_successes b + 1)) now)) = rank (mode b) + 1) as Hup.
    { unfold apply_upgrade. cbn. by destruct (mode b). }
    split; [lia|]. intros _. split; [done|]. right.
    destruct (probes_armed ops _ Hi0 eq_refl) as (pre & t & mid & E & Hk & Hs & Hmo & Hd); [fold b; lia|]. fold b in Hmo, Hd.
    exists pre, t, mid, now. split_and!; [done..|]. unfold should_probe_upgrade in Hs, Es.
    rewrite Hmo, Hd, Hpol in Hs. rewrite Hpolb in Es.
    rewrite bool_decide_eq_false_2 in Hs, Es by done. destruct (downgraded_at_secs b) as [entered|]; [|done].
    exists entered. apply Z.leb_le in Hs, Es. unfold saturating_sub in *. split_and!; try done; lia.
  - unfold apply_upgrade. cbn [mode]. destruct (mode b); cbn; (split; [lia|]); intros ?; (split; [lia|left; by eexists]).
Qed.

Definition three_losses : list BreakerOp := [Fails SustainedLoss 10; Fails PacketTimeout 20].

Definition two_probes : list BreakerOp := [Probe true 300; Fails PathChange 301].

Lemma ladder_moves_on_evidence_witness :
  (mode (breaker_run (with_mode CircuitBreakerPolicy_default QuicWithDatagrams) (three_losses ++ [Fails SustainedLoss 60]))
     = QuicStreamsOnly /\
   3 <= failures_since 0 (three_losses ++ [Fails SustainedLoss 60])) /\
  (mode (breaker_run (with_mode CircuitBreakerPolicy_default WebSocketSecure) (two_probes ++ [Probe true 400])) = QuicStreamsOnly /\
   exists pre t mid, two_probes = pre ++ Probe true t :: mid /\ Forall keeps_probe mid).
Proof.
  split.
  - split; [by vm_compute|].
    destruct (ladder_moves_on_evidence CircuitBreakerPolicy_default QuicWithDatagrams three_losses (Fails SustainedLoss 60))
      as [Hdown _].
    + by vm_compute.
    + unfold monotone. cbn. repeat constructor; lia.
    + destruct Hdown as (kind & now & E & Hf & _); [by vm_compute|]. injection E as <- <-. exact Hf.
  - split; [by vm_compute|].
    destruct (ladder_moves_on_evidence CircuitBreakerPolicy_default WebSocketSecure two_probes (Probe true 400)) as [_ Hup].
    + by vm_compute.
    + unfold monotone. cbn. repeat constructor; lia.
    + destruct Hup as [_ [[now E]|(pre & t & mid & now & E & _ & Hk & _)]]; [by vm_compute|discriminate E|]. by exists pre, t, mid.
Defined.

(** One request of the caller climbs without a probe, two climb the ladder. *)
Example upgrades_without_a_probe :
  mode (breaker_run (with_mode CircuitBreakerPolicy_default WebSocketSecure) [Upgrades 0; Upgrades 0]) = QuicWithDatagrams.
Proof. by vm_compute. Qed.

(** The converse fails: the window is anchored at the last reset, not at the
    first failure, so failures within one window's length that straddle the
    anchor's end are not counted together. *)
Lemma straddling_failures_not_counted :
  let ops := [Fails SustainedLoss 50; Fails SustainedLoss 55; Fails SustainedLoss 61] in
  failures_since (61 - 60) ops = 3 /\ mode (breaker_run (breaker_new CircuitBreakerPolicy_default) ops) = QuicWithDatagrams.
Proof. split; by vm_compute. Qed.

(** ** The silence proof *)

(** A proof's samples: the time and the counter read. *)
Definition observe_all (o : SilenceObserver) (proof : Z) (samples : list (Z * Z)) : SilenceObserver :=
  fold_left (fun o s => snd (observe o (fst s) (snd s) proof)) samples o.

Definition moved (received0 : Z) (samples : list (Z * Z)) : Prop := exists s, s ∈ samples /\ snd s <> received0.

Lemma observe_all_state at0 received0 proof samples :
  let o := observe_all (SilenceObserver_new at0 received0) proof samples in
  started_at o = at0 /\ (heard_since_start o = true <-> moved received0 samples) /\
  (heard_since_start o = false -> received o = received0).
Proof.
  induction samples as [|[t rx] samples IH] using rev_ind.
  { cbn. split_and!; [done| |done]. split; [done|]. by intros (s & ?%not_elem_of_nil & _). }
  unfold observe_all in *. rewrite fold_left_app. cbn [fold_left fst snd] in *.
  set (o := fold_left _ samples _) in *. destruct IH as (Hs & Hh & Hr).
  assert (moved received0 (samples ++ [(t, rx)]) <-> moved received0 samples \/ rx <> received0) as Hm.
  { unfold moved. split.
    - intros (s & [Hin| ->%list_elem_of_singleton]%elem_of_app & Hne); [left; by exists s|by right].
    - intros [(s & Hin & Hne)|Hne]; [exists s|exists (t, rx)]; (split; [set_solver|done]). }
  rewrite Hm. unfold observe. destruct (Z.eqb_spec rx (received o)) as [E|E]; cbn [negb].
  - assert (snd (if heard_since_start o then (Some Alive, o)
      else (if proof <=? saturating_sub t (started_at o) then Some (Silent (saturating_sub t (started_at o))) else None, o)) = o)
      as -> by by destruct (heard_since_start o).
    split_and!; [done| |done]. rewrite Hh. split; [by left|]. intros [Hmv|Hne]; [done|].
    destruct (heard_since_start o); [by apply Hh|]. by rewrite E, Hr in Hne.
  - cbn [heard_since_start snd started_at received]. split_and!; [done| |done]. split; [|done]. intros _.
    destruct (heard_since_start o) eqn:Eh; [left; by apply Hh|right]. by rewrite <- (Hr eq_refl).
Qed.

(** Silence is proven, never guessed. After any samples of a proof, the
    next sample's verdict is Alive exactly when some sample read another
    counter than the start did, and Silent exactly when none did and at least
    the whole proof window has passed since the start, with the time that
    passed; otherwise there is none. *)
Theorem silence_proof_exact (at0 received0 proof t rx : Z) (samples : list (Z * Z)) :
  let o := observe_all (SilenceObserver_new at0 received0) proof samples in
  let verdict := fst (observe o t rx proof) in
  (verdict = Some Alive <-> moved received0 (samples ++ [(t, rx)])) /\
  (forall d, verdict = Some (Silent d) <->
     ~ moved received0 (samples ++ [(t, rx)]) /\ d = saturating_sub t at0 /\ proof <= d) /\
  (verdict = None <-> ~ moved received0 (samples ++ [(t, rx)]) /\ saturating_sub t at0 < proof).
Proof.
  intros o verdict. pose proof (observe_all_state at0 received0 proof (samples ++ [(t, rx)])) as H.
  unfold observe_all in H. rewrite fold_left_app in H. cbn [fold_left fst snd] in H. fold (observe_all (SilenceObserver_new at0 received0) proof samples) in H.
  fold o in H. destruct H as (Hs & Hh & _).
  assert (started_at (snd (observe o t rx proof)) = started_at o) as Es.
  { unfold observe. destruct (negb _); cbn; [done|]. by destruct (heard_since_start o). }
  assert (verdict = if heard_since_start (snd (observe o t rx proof)) then Some Alive
    else if proof <=? saturating_sub t at0 then Some (Silent (saturating_sub t at0)) else None) as ->.
  { rewrite <- Hs, Es. unfold verdict, observe. destruct (negb _); cbn; [done|]. by destruct (heard_since_start o) eqn:Eh; cbn; rewrite Eh. }
  destruct (heard_since_start (snd (observe o t rx proof))).
  - pose proof (proj1 Hh eq_refl) as Hmv. split_and!; [done| |]; [intros d|]; split; try done; intros (Hn & _); done.
  - assert (~ moved received0 (samples ++ [(t, rx)])) as Hn by (intros Hmv; by apply Hh in Hmv).
    destruct (Z.leb_spec proof (saturating_sub t at0)); split_and!; try (intros d); split; try done.
    + intros [= <-]. done.
    + by intros (_ & -> & _).
    + intros (_ & ?). lia.
    + intros (_ & -> & ?). lia.
Qed.

(** The shared bounds the module's documentation relies on. *)
Lemma liveness_bounds :
  LANE_KEEPALIVE_INTERVAL * 3 <= PEER_SILENCE_PROOF < LANE_IDLE_TIMEOUT /\
  LANE_IDLE_TIMEOUT < ATTACHMENT_HANDOVER_WAIT /\ LIVENESS_SAMPLE_INTERVAL * 10 <= LANE_KEEPALIVE_INTERVAL.
Proof. by vm_compute. Qed.
