(* ===== verification/CertMarker.v ===== *)
(** * Transport: pins, PEM and the ownership marker of a host certificate

    Models [shared/transport/src/cert_marker.rs] less its X.509 predicates,
    which read certificates through a third-party parser: the normalised pins,
    hexadecimal and base64, the body of a PEM document, the validity window
    and the marker file.  Texts are lists of characters ([RustText]); the
    decoder's accumulator is a [u32], so the shift that feeds it drops what
    leaves its 32 bits. *)

From stdpp Require Import strings.
From S2P Require Import Prelude Utf8 RustText.

Definition MARKER_VERSION : Z := 3.

Inductive MarkerError :=
  MissingVersion | UnsupportedVersion | MissingCertificatePin | MissingSpkiPin | MalformedPin | UnrecognizedMarkerEntry.
#[global] Instance MarkerError_eq_dec : EqDecision MarkerError. Proof. solve_decision. Defined.

Definition pin_separator (c : Z) : bool := (c =? 58) || (c =? 32) || (c =? 9) || (c =? CR) || (c =? LF).

Definition normalize_certificate_pin (value : list Z) : option (list Z) :=
  let body := match rsplit_once EQUALS value with Some (_, remainder) => remainder | None => value end in
  let cleaned := filter (fun c => pin_separator c = false) body in
  if bool_decide (cleaned = []) || negb (forallb is_ascii_hexdigit cleaned) then None
  else Some (map to_ascii_lowercase cleaned).

Definition normalize_spki_pin (value : list Z) : option (list Z) :=
  '(algorithm, digest) ← split_once 47 (trim value);
  if negb (eq_ignore_ascii_case algorithm (string_bytes "sha256")) || bool_decide (digest = []) then None
  else Some (string_bytes "sha256/" ++ digest).

(** ** Hexadecimal *)

Definition hex_digit (n : Z) : Z := if n <? 10 then 48 + n else 87 + n.

Fixpoint hex_lower (bytes : list Z) : list Z :=
  match bytes with
  | [] => []
  | b :: r => hex_digit (b / 16) :: hex_digit (b mod 16) :: hex_lower r
  end.

(** The pairs of an ASCII text, a colon before each but the first. *)
Fixpoint colon_pairs (first : bool) (upper : list Z) : list Z :=
  let colon := if first then [] else [58] in
  match upper with
  | [] => []
  | [a] => colon ++ [a]
  | a :: b :: r => colon ++ a :: b :: colon_pairs false r
  end.

Definition colon_hex (hex : list Z) : list Z := colon_pairs true (map to_ascii_uppercase hex).

(** ** Base64 *)

Definition ALPHABET : list Z := string_bytes "ABCDEFGHIJKLMNOPQRSTUVWXYZabcdefghijklmnopqrstuvwxyz0123456789+/".

Definition sextet (triple k : Z) : Z := byte_at ALPHABET (Z.land (Z.shiftr triple k) 0x3F).

Definition triple_of (first second third : Z) : Z :=
  Z.lor (Z.lor (Z.shiftl first 16) (Z.shiftl second 8)) third.

Fixpoint base64_encode (bytes : list Z) : list Z :=
  match bytes with
  | [] => []
  | [a] => let t := triple_of a 0 0 in [sextet t 18; sextet t 12; EQUALS; EQUALS]
  | [a; b] => let t := triple_of a b 0 in [sextet t 18; sextet t 12; sextet t 6; EQUALS]
  | a :: b :: c :: r =>
    let t := triple_of a b c in [sextet t 18; sextet t 12; sextet t 6; sextet t 0] ++ base64_encode r
  end.

Definition base64_value (byte : Z) : option Z :=
  if (65 <=? byte) && (byte <=? 90) then Some (byte - 65)
  else if (97 <=? byte) && (byte <=? 122) then Some (byte - 97 + 26)
  else if (48 <=? byte) && (byte <=? 57) then Some (byte - 48 + 52)
  else if byte =? 43 then Some 62
  else if byte =? 47 then Some 63
  else None.

(** The loop of [base64_decode], from its accumulator and its bit count. *)
Fixpoint base64_loop (chunk bits : Z) (input : list Z) : option (list Z) :=
  match input with
  | [] => Some []
  | byte :: r =>
    if byte =? EQUALS then Some [] else
    value ← base64_value byte;
    let chunk := Z.lor (wrapping 32 (Z.shiftl chunk 6)) value in
    let bits := bits + 6 in
    if 8 <=? bits then
      let bits := bits - 8 in
      out ← base64_loop chunk bits r;
      Some (Z.land (Z.shiftr chunk bits) 0xFF :: out)
    else base64_loop chunk bits r
  end.

Definition base64_decode (input : list Z) : option (list Z) := base64_loop 0 0 input.

Definition PEM_BEGIN : list Z := string_bytes "-----BEGIN CERTIFICATE-----".
Definition PEM_END : list Z := string_bytes "-----END CERTIFICATE-----".

Definition pem_to_der (text : list Z) : option (list Z) :=
  '(_, rest) ← find_split PEM_BEGIN text;
  '(inner, _) ← find_split PEM_END rest;
  base64_decode (filter (fun c => is_whitespace c = false) inner).

(** ** Validity *)

Record ValidityWindow := mkValidity { not_before : Z; not_after : Z }.

Definition is_current (v : ValidityWindow) (now : Z) : bool := (not_before v <=? now) && (now <? not_after v).
Definition is_due_for_renewal (v : ValidityWindow) (now window_seconds : Z) : bool :=
  not_after v - now <=? window_seconds.

(** ** The marker file *)

Record OwnershipMarker := mkMarker { certificate_pin : list Z; spki_pin : list Z }.

Definition OwnershipMarker_new (certificate spki : list Z) : result MarkerError OwnershipMarker :=
  c ← ok_or (normalize_certificate_pin certificate) MalformedPin;
  s ← ok_or (normalize_spki_pin spki) MalformedPin;
  Ok (mkMarker c s).

Record marker_fields := mkMarkerFields {
  field_version : option Z; field_certificate : option (list Z); field_spki : option (list Z)
}.

Definition marker_line (f : marker_fields) (line : list Z) : result MarkerError marker_fields :=
  let line := trim_end_matches (fun c => (c =? CR) || (c =? LF)) line in
  if bool_decide (trim line = []) then Ok f else
  match split_once EQUALS line with
  | None => Err UnrecognizedMarkerEntry
  | Some (key, value) =>
    if bool_decide (key = string_bytes "version") then
      v ← ok_or (parse_u32 (trim value)) UnrecognizedMarkerEntry;
      Ok (mkMarkerFields (Some v) (field_certificate f) (field_spki f))
    else if bool_decide (key = string_bytes "certificate") then
      Ok (mkMarkerFields (field_version f) (Some value) (field_spki f))
    else if bool_decide (key = string_bytes "spki") then
      Ok (mkMarkerFields (field_version f) (field_certificate f) (Some value))
    else Err UnrecognizedMarkerEntry
  end.

Fixpoint marker_lines (f : marker_fields) (ls : list (list Z)) : result MarkerError marker_fields :=
  match ls with
  | [] => Ok f
  | l :: ls => f ← marker_line f l; marker_lines f ls
  end.

Definition marker_parse (text : list Z) : result MarkerError OwnershipMarker :=
  f ← marker_lines (mkMarkerFields None None None) (lines text);
  match field_version f with
  | None => Err MissingVersion
  | Some found =>
    if negb (found =? MARKER_VERSION) then Err UnsupportedVersion else
    certificate ← ok_or (field_certificate f) MissingCertificatePin;
    spki ← ok_or (field_spki f) MissingSpkiPin;
    OwnershipMarker_new certificate spki
  end.

Definition marker_render (m : OwnershipMarker) : list Z :=
  string_bytes "version=3" ++ [LF] ++ string_bytes "certificate=" ++ certificate_pin m ++ [LF]
  ++ string_bytes "spki=" ++ spki_pin m ++ [LF].

Definition marker_matches (m : OwnershipMarker) (certificate spki : list Z) : bool :=
  bool_decide (normalize_certificate_pin certificate = Some (certificate_pin m))
  && bool_decide (normalize_spki_pin spki = Some (spki_pin m)).

(** ** Hexadecimal pins *)

#[local] Arguments to_ascii_uppercase : simpl never.
#[local] Arguments hex_digit : simpl never.
#[local] Arguments pin_separator : simpl never.

Lemma hex_lower_app a b : hex_lower (a ++ b) = hex_lower a ++ hex_lower b.
Proof. induction a as [|x a IH]; simpl; [done|]. by rewrite IH. Qed.

Lemma hex_digit_lower n : 0 <= n < 16 -> is_ascii_hexdigit (hex_digit n) = true
  /\ pin_separator (hex_digit n) = false /\ hex_digit n <> EQUALS
  /\ pin_separator (to_ascii_uppercase (hex_digit n)) = false /\ to_ascii_uppercase (hex_digit n) <> EQUALS
  /\ is_ascii_hexdigit (to_ascii_uppercase (hex_digit n)) = true
  /\ to_ascii_lowercase (to_ascii_uppercase (hex_digit n)) = hex_digit n
  /\ to_ascii_lowercase (hex_digit n) = hex_digit n.
Proof.
  intros Hn.
  assert (n ∈ range 16) as Hin by (by apply elem_of_range).
  revert n Hn Hin. refine (fun n _ Hin => _).
  unfold range in Hin. vm_compute in Hin.
  repeat (apply elem_of_cons in Hin as [->|Hin]; [vm_compute; repeat split; congruence|]).
  by apply not_elem_of_nil in Hin.
Qed.

Definition hex_text (t : list Z) : Prop := Forall (fun c => exists n, 0 <= n < 16 /\ c = hex_digit n) t.

Lemma hex_lower_text bytes : Forall is_u8 bytes -> hex_text (hex_lower bytes).
Proof.
  induction 1 as [|b r Hb Hr IH]; simpl; [constructor|]. unfold is_u8 in Hb.
  repeat constructor; [| |done]; eexists; (split; [|done]); [split; [by apply Z.div_pos; lia|apply Z.div_lt_upper_bound; lia]|].
  apply Z.mod_pos_bound. lia.
Qed.

(** A text whose characters other than separators are hexadecimal digits
    normalises to those digits, in lower case. *)
Lemma normalize_pin_of value body : rsplit_once EQUALS value = None /\ body = value
    \/ (exists algorithm, rsplit_once EQUALS value = Some (algorithm, body)) ->
  normalize_certificate_pin value
  = (if bool_decide (filter (fun c => pin_separator c = false) body = [])
        || negb (forallb is_ascii_hexdigit (filter (fun c => pin_separator c = false) body)) then None
     else Some (map to_ascii_lowercase (filter (fun c => pin_separator c = false) body))).
Proof. unfold normalize_certificate_pin. intros [[-> ->]|(algorithm & ->)]; done. Qed.

Lemma pins_keep c l : pin_separator c = false ->
  filter (fun c => pin_separator c = false) (c :: l) = c :: filter (fun c => pin_separator c = false) l.
Proof. intros Hc. by rewrite filter_cons_True. Qed.

Lemma pins_drop l :
  filter (fun c => pin_separator c = false) (58 :: l) = filter (fun c => pin_separator c = false) l.
Proof. by rewrite filter_cons_False. Qed.

Lemma filter_colon_pairs t first : hex_text t ->
  filter (fun c => pin_separator c = false) (colon_pairs first (map to_ascii_uppercase t)) = map to_ascii_uppercase t.
Proof.
  revert first. remember (length t) as n eqn:Hn. assert (length t <= n)%nat as Hle by lia. clear Hn.
  revert t Hle. induction n as [|n IH]; intros [|a [|b r]] Hle first Ht; simpl in Hle; try done; try lia.
  - apply Forall_cons in Ht as [(k & Hk & ->) _]. destruct (hex_digit_lower k Hk) as (_ & _ & _ & Hs & _).
    destruct first; cbn [map colon_pairs app]; rewrite ?pins_drop; by rewrite pins_keep.
  - apply Forall_cons in Ht as [(k & Hk & ->) Ht]. apply Forall_cons in Ht as [(j & Hj & ->) Ht].
    destruct (hex_digit_lower k Hk) as (_ & _ & _ & Hs & _).
    destruct (hex_digit_lower j Hj) as (_ & _ & _ & Hs' & _).
    destruct first; cbn [map colon_pairs app]; rewrite ?pins_drop; rewrite !pins_keep by done;
      do 2 f_equal; apply IH; [lia|done|lia|done].
Qed.

Lemma colon_pairs_no_equals t first : hex_text t -> EQUALS ∉ colon_pairs first (map to_ascii_uppercase t).
Proof.
  intros Ht Hin. assert (EQUALS ∈ filter (fun c => pin_separator c = false) (colon_pairs first (map to_ascii_uppercase t))) as Hf.
  { by apply list_elem_of_filter. }
  rewrite (filter_colon_pairs t first Ht) in Hf. apply list_elem_of_fmap in Hf as (c & Hc & Hin').
  unfold hex_text in Ht. rewrite Forall_forall in Ht. destruct (Ht c Hin') as (k & Hk & ->).
  by destruct (hex_digit_lower k Hk) as (_ & _ & _ & _ & Hne & _).
Qed.

Lemma hex_text_upper t : hex_text t -> forallb is_ascii_hexdigit (map to_ascii_uppercase t) = true
  /\ map to_ascii_lowercase (map to_ascii_uppercase t) = t
  /\ forallb is_ascii_hexdigit t = true /\ map to_ascii_lowercase t = t
  /\ filter (fun c => pin_separator c = false) t = t /\ EQUALS ∉ t.
Proof.
  induction 1 as [|c t (k & Hk & ->) Ht (IH1 & IH2 & IH3 & IH4 & IH5 & IH6)].
  { repeat split; try done. apply not_elem_of_nil. }
  destruct (hex_digit_lower k Hk) as (H1 & H2 & H3 & H4 & H5 & H6 & H7 & H8).
  cbn [map forallb]. rewrite IH1, IH2, IH3, IH4, H1, H6, H7, H8. repeat split; try done.
  - by rewrite pins_keep, IH5.
  - by apply not_elem_of_cons.
Qed.

(** What a pin file holds, the fingerprint as [openssl] prints it, is the pin
    itself; so is the pin. *)
Lemma pin_file_normalizes algorithm hex : hex_text hex -> hex <> [] ->
  normalize_certificate_pin (algorithm ++ EQUALS :: colon_hex hex ++ [LF]) = Some hex
  /\ normalize_certificate_pin hex = Some hex.
Proof.
  intros Ht Hne. destruct (hex_text_upper hex Ht) as (H1 & H2 & H3 & H4 & H5 & H6).
  unfold colon_hex. pose proof (filter_colon_pairs hex true Ht) as Hf.
  split.
  - rewrite (normalize_pin_of _ (colon_pairs true (map to_ascii_uppercase hex) ++ [LF])).
    + rewrite filter_app, Hf. change (filter _ [LF]) with (@nil Z). rewrite app_nil_r, H1, H2.
      rewrite bool_decide_eq_false_2; [done|]. by destruct hex.
    + right. exists algorithm. apply rsplit_once_app. intros [Hin|Hin]%elem_of_app.
      * by apply (colon_pairs_no_equals hex true Ht).
      * by apply list_elem_of_singleton in Hin.
  - rewrite (normalize_pin_of hex hex).
    + rewrite H5, H3, H4. rewrite bool_decide_eq_false_2; [done|]. done.
    + left. split; [|done]. by apply rsplit_once_None.
Qed.

(** Every pin normalisation gives is fixed by it. *)
Lemma normalize_certificate_pin_idemp v p : normalize_certificate_pin v = Some p -> hex_text p /\ p <> [].
Proof.
  unfold normalize_certificate_pin.
  set (body := match rsplit_once EQUALS v with Some _ => _ | None => _ end).
  destruct (bool_decide_reflect (filter (fun c => pin_separator c = false) body = [])) as [|Hne]; simpl; [done|].
  destruct (forallb is_ascii_hexdigit _) eqn:Hh; simpl; [|done]. intros [= <-]. split.
  - apply Forall_forall. intros c Hc. apply list_elem_of_fmap in Hc as (d & -> & Hd).
    apply forallb_forall with (x := d) in Hh; [|by apply list_elem_of_In].
    unfold is_ascii_hexdigit, is_ascii_digit in Hh. unfold to_ascii_lowercase, hex_digit.
    exists (if d <=? 57 then d - 48 else if d <=? 70 then d - 55 else d - 87).
    repeat match goal with |- context [?a <=? ?b] => destruct (Z.leb_spec a b) end; simpl;
      repeat match goal with H : context [?a <=? ?b] |- _ => destruct (Z.leb_spec a b) end; simpl in Hh;
      try (by inversion Hh); try lia;
      match goal with |- context [?a <? ?b] => destruct (Z.ltb_spec a b) end; lia.
  - intros Hm. apply map_eq_nil in Hm. contradiction.
Qed.

(** ** Base64 round trip *)

(** One step of the accumulator, as arithmetic. *)
Definition base64_push (chunk value : Z) : Z := Z.lor (wrapping 32 (Z.shiftl chunk 6)) value.

Lemma base64_push_arith c v : 0 <= v < 64 -> base64_push c v = 64 * (c mod 2 ^ 26) + v.
Proof.
  intros Hv. unfold base64_push, wrapping. rewrite Z.shiftl_mul_pow2 by lia.
  replace (c * 2 ^ 6 mod 2 ^ 32) with ((c mod 2 ^ 26) * 2 ^ 6).
  2:{ rewrite (Z.mul_comm c), (Z.mul_comm (c mod _)). change (2 ^ 32) with (2 ^ 6 * 2 ^ 26). by rewrite Z.mul_mod_distr_l. }
  set (m := c mod 2 ^ 26). pose proof (Z.add_lor_land (m * 2 ^ 6) v) as Hadd.
  assert (Z.land (m * 2 ^ 6) v = 0) as Hland; [|rewrite Hland in Hadd; lia].
  apply Z.bits_inj'. intros i Hi. rewrite Z.land_spec, Z.bits_0.
  destruct (Z.lt_ge_cases i 6).
  - by rewrite Z.mul_pow2_bits_low by lia.
  - rewrite (Z.bits_above_log2 v i); [apply andb_false_r|lia|].
    destruct (Z.eq_dec v 0) as [->|]; [simpl; lia|]. apply Z.log2_lt_pow2; [lia|].
    apply Z.lt_le_trans with (2 ^ 6); [lia|]. apply Z.pow_le_mono_r; lia.
Qed.

Lemma low_byte x s : 0 <= s -> Z.land (Z.shiftr x s) 0xFF = x / 2 ^ s mod 256.
Proof. intros Hs. rewrite Z.shiftr_div_pow2 by done. change 0xFF with (Z.ones 8). by rewrite Z.land_ones. Qed.

(** The bytes a group of four sextets gives, whatever the accumulator held. *)
Lemma base64_group c v1 v2 v3 v4 : 0 <= v1 < 64 -> 0 <= v2 < 64 -> 0 <= v3 < 64 -> 0 <= v4 < 64 ->
  let c2 := base64_push (base64_push c v1) v2 in
  let c3 := base64_push c2 v3 in
  Z.land (Z.shiftr c2 4) 0xFF = 4 * v1 + v2 / 16
  /\ Z.land (Z.shiftr c3 2) 0xFF = 16 * (v2 mod 16) + v3 / 4
  /\ Z.land (Z.shiftr (base64_push c3 v4) 0) 0xFF = 64 * (v3 mod 4) + v4.
Proof.
  intros H1 H2 H3 H4 c2 c3. subst c2 c3. rewrite !base64_push_arith, !low_byte by lia.
  change (2 ^ 26) with 67108864. change (2 ^ 4) with 16. change (2 ^ 2) with 4. change (2 ^ 0) with 1.
  set (m := c mod 67108864). assert (0 <= m < 67108864) by (by apply Z.mod_pos_bound). clearbody m.
  repeat split; Z.to_euclidean_division_equations; lia.
Qed.

Lemma alphabet_value n : 0 <= n < 64 ->
  base64_value (byte_at ALPHABET n) = Some n /\ (byte_at ALPHABET n =? EQUALS) = false
  /\ is_whitespace (byte_at ALPHABET n) = false /\ byte_at ALPHABET n <> 45.
Proof.
  intros Hn. assert (n ∈ range 64) as Hin by (by apply elem_of_range).
  unfold range in Hin. vm_compute in Hin. clear Hn.
  repeat (apply elem_of_cons in Hin as [->|Hin]; [vm_compute; repeat split; congruence|]).
  by apply not_elem_of_nil in Hin.
Qed.

Definition sextet_value (t k : Z) : Z := t / 2 ^ k mod 64.

Lemma sextet_eq t k : 0 <= k -> sextet t k = byte_at ALPHABET (sextet_value t k) /\ 0 <= sextet_value t k < 64.
Proof.
  intros Hk. unfold sextet, sextet_value. rewrite Z.shiftr_div_pow2 by done. change 0x3F with (Z.ones 6).
  rewrite Z.land_ones by lia. split; [done|]. by apply Z.mod_pos_bound.
Qed.

Lemma triple_of_arith a b c : is_u8 a -> is_u8 b -> is_u8 c -> triple_of a b c = 65536 * a + 256 * b + c.
Proof.
  unfold is_u8, triple_of. intros Ha Hb Hc. rewrite !Z.shiftl_mul_pow2 by lia.
  rewrite <- (Z.mul_1_r c) at 1. change 1 with (2 ^ 0).
  assert (forall x y i, 0 <= x < 256 -> 0 <= i -> (2 ^ (i + 8) | y) -> 0 <= y -> Z.lor y (x * 2 ^ i) = y + x * 2 ^ i) as Hlor.
  { intros x y i Hx Hi [q ->] Hq. pose proof (Z.add_lor_land (q * 2 ^ (i + 8)) (x * 2 ^ i)) as Hadd.
    assert (Z.land (q * 2 ^ (i + 8)) (x * 2 ^ i) = 0) as Hland; [|rewrite Hland in Hadd; lia].
    apply Z.bits_inj'. intros j Hj. rewrite Z.land_spec, Z.bits_0.
    destruct (Z.lt_ge_cases j (i + 8)); [by rewrite Z.mul_pow2_bits_low by lia|].
    rewrite andb_comm, Z.mul_pow2_bits by lia.
    rewrite (Z.bits_above_log2 x (j - i)); [done|lia|].
    destruct (Z.eq_dec x 0) as [->|]; [simpl; lia|]. apply Z.log2_lt_pow2; [lia|].
    apply Z.lt_le_trans with (2 ^ 8); [lia|]. apply Z.pow_le_mono_r; lia. }
  rewrite (Hlor b) by (try lia; exists a; lia).
  rewrite (Hlor c) by (try lia; exists (a * 2 ^ 8 + b); lia). lia.
Qed.

Lemma base64_loop_step chunk bits n r : 0 <= n < 64 ->
  base64_loop chunk bits (byte_at ALPHABET n :: r) =
    if 8 <=? bits + 6 then
      out ← base64_loop (base64_push chunk n) (bits + 6 - 8) r;
      Some (Z.land (Z.shiftr (base64_push chunk n) (bits + 6 - 8)) 0xFF :: out)
    else base64_loop (base64_push chunk n) (bits + 6) r.
Proof.
  intros Hn. destruct (alphabet_value n Hn) as (Hv & He & _). cbn [base64_loop]. rewrite He, Hv. done.
Qed.

Lemma base64_first chunk n r : 0 <= n < 64 ->
  base64_loop chunk 0 (byte_at ALPHABET n :: r) = base64_loop (base64_push chunk n) 6 r.
Proof. intros Hn. by rewrite base64_loop_step. Qed.

Lemma base64_next bits chunk n r : 0 <= n < 64 -> 2 <= bits ->
  base64_loop chunk bits (byte_at ALPHABET n :: r)
  = (out ← base64_loop (base64_push chunk n) (bits - 2) r;
     Some (Z.land (Z.shiftr (base64_push chunk n) (bits - 2)) 0xFF :: out)).
Proof.
  intros Hn Hb. rewrite base64_loop_step by done. rewrite (proj2 (Z.leb_le 8 (bits + 6))) by lia.
  by replace (bits + 6 - 8) with (bits - 2) by lia.
Qed.

(** Decoding undoes encoding, from any accumulator at a byte boundary. *)
Lemma base64_loop_encode bytes : Forall is_u8 bytes -> forall chunk, base64_loop chunk 0 (base64_encode bytes) = Some bytes.
Proof.
  remember (length bytes) as n eqn:Hn. assert (length bytes <= n)%nat as Hle by lia. clear Hn.
  revert bytes Hle. induction n as [|n IH]; intros [|a [|b [|c r]]] Hle Hb chunk; simpl in Hle; try done; try lia;
    repeat (apply Forall_cons in Hb as [? Hb]).
  - cbn [base64_encode]. assert (triple_of a 0 0 = 65536 * a) as Ht by (rewrite triple_of_arith; unfold is_u8 in *; lia).
    destruct (sextet_eq (triple_of a 0 0) 18 ltac:(lia)) as [-> Hs1].
    destruct (sextet_eq (triple_of a 0 0) 12 ltac:(lia)) as [-> Hs2].
    rewrite base64_first, !base64_next by (done || lia).
    destruct (base64_group chunk _ _ 0 0 Hs1 Hs2 ltac:(lia) ltac:(lia)) as (E1 & _).
    cbv zeta in E1. change (6 - 2) with 4. change (4 - 2) with 2. change (2 - 2) with 0. cbn. rewrite E1. do 2 f_equal.
    unfold sextet_value, is_u8 in *. rewrite Ht. change (2 ^ 18) with 262144. change (2 ^ 12) with 4096.
    Z.to_euclidean_division_equations; lia.
  - cbn [base64_encode]. assert (triple_of a b 0 = 65536 * a + 256 * b) as Ht by (rewrite triple_of_arith; unfold is_u8 in *; lia).
    destruct (sextet_eq (triple_of a b 0) 18 ltac:(lia)) as [-> Hs1].
    destruct (sextet_eq (triple_of a b 0) 12 ltac:(lia)) as [-> Hs2].
    destruct (sextet_eq (triple_of a b 0) 6 ltac:(lia)) as [-> Hs3].
    rewrite base64_first, !base64_next by (done || lia).
    destruct (base64_group chunk _ _ _ 0 Hs1 Hs2 Hs3 ltac:(lia)) as (E1 & E2 & _).
    cbv zeta in E1, E2. change (6 - 2) with 4. change (4 - 2) with 2. change (2 - 2) with 0. cbn. rewrite E1, E2.
    unfold sextet_value, is_u8 in *. rewrite Ht.
    change (2 ^ 18) with 262144. change (2 ^ 12) with 4096. change (2 ^ 6) with 64.
    repeat f_equal; Z.to_euclidean_division_equations; lia.
  - cbn [base64_encode app]. assert (triple_of a b c = 65536 * a + 256 * b + c) as Ht by (by apply triple_of_arith).
    destruct (sextet_eq (triple_of a b c) 18 ltac:(lia)) as [-> Hs1].
    destruct (sextet_eq (triple_of a b c) 12 ltac:(lia)) as [-> Hs2].
    destruct (sextet_eq (triple_of a b c) 6 ltac:(lia)) as [-> Hs3].
    destruct (sextet_eq (triple_of a b c) 0 ltac:(lia)) as [-> Hs4].
    rewrite base64_first, !base64_next by (done || lia).
    destruct (base64_group chunk _ _ _ _ Hs1 Hs2 Hs3 Hs4) as (E1 & E2 & E3).
    cbv zeta in E1, E2, E3. change (6 - 2) with 4. change (4 - 2) with 2. change (2 - 2) with 0.
    cbn -[base64_loop base64_encode]. rewrite (IH r) by (done || lia). cbn. rewrite E1, E2, E3.
    unfold sextet_value, is_u8 in *. rewrite Ht.
    change (2 ^ 18) with 262144. change (2 ^ 12) with 4096. change (2 ^ 6) with 64. change (2 ^ 0) with 1.
    repeat f_equal; Z.to_euclidean_division_equations; lia.
Qed.

(** ** PEM *)

Lemma base64_encode_alphabet bytes : Forall is_u8 bytes ->
  Forall (fun c => c <> 45 /\ is_whitespace c = false) (base64_encode bytes).
Proof.
  assert (forall t k, 0 <= k -> sextet t k <> 45 /\ is_whitespace (sextet t k) = false) as Hs.
  { intros t k Hk. destruct (sextet_eq t k Hk) as [-> Hv]. by destruct (alphabet_value _ Hv) as (_ & _ & ? & ?). }
  remember (length bytes) as n eqn:Hn. assert (length bytes <= n)%nat as Hle by lia. clear Hn.
  revert bytes Hle. induction n as [|n IH]; intros [|a [|b [|c r]]] Hle Hb; simpl in Hle; try lia;
    repeat (apply Forall_cons in Hb as [? Hb]); cbn [base64_encode app]; repeat constructor; try (by apply Hs); try done.
  apply IH; [lia|done].
Qed.

(** The body of a PEM document is read back.  Decoding undoes encoding on
    every sequence of bytes, and a document with the encoded bytes between the
    certificate's delimiters gives the bytes, however the body is broken into
    lines and whatever surrounds the delimiters, as long as no dash comes
    before the first one. *)
Theorem pem_body_exact (bytes pre inner post : list Z)
  (Hb : Forall is_u8 bytes)
  (Hpre : 45 ∉ pre)
  (Hinner : filter (fun c => is_whitespace c = false) inner = base64_encode bytes) :
  base64_decode (base64_encode bytes) = Some bytes
  /\ pem_to_der (pre ++ PEM_BEGIN ++ inner ++ PEM_END ++ post) = Some bytes.
Proof.
  assert (base64_decode (base64_encode bytes) = Some bytes) as Hdec by (by apply base64_loop_encode).
  split; [done|]. unfold pem_to_der.
  change PEM_BEGIN with (45 :: tail PEM_BEGIN). rewrite find_split_app by done. cbn [mbind option_bind].
  change PEM_END with (45 :: tail PEM_END). rewrite find_split_app.
  - cbn [mbind option_bind]. by rewrite Hinner.
  - intros Hin. pose proof (base64_encode_alphabet bytes Hb) as Hall. rewrite <- Hinner, Forall_forall in Hall.
    destruct (Hall 45) as [Hne _]; [|done]. by apply list_elem_of_filter.
Qed.

Lemma pem_body_exact_witness :
  pem_to_der (string_bytes "# Pier" ++ [LF] ++ PEM_BEGIN ++ [LF] ++ string_bytes "/wAB" ++ [LF] ++ string_bytes "gA==" ++ [LF] ++ PEM_END ++ [LF])
  = Some [255; 0; 1; 128].
Proof.
  pose proof (pem_body_exact [255; 0; 1; 128] (string_bytes "# Pier" ++ [LF])
    ([LF] ++ string_bytes "/wAB" ++ [LF] ++ string_bytes "gA==" ++ [LF]) [LF]) as H.
  destruct H as [_ H].
  - repeat constructor; lia.
  - vm_compute. intros Hin. repeat (apply elem_of_cons in Hin as [?|Hin]; [done|]). by apply not_elem_of_nil in Hin.
  - vm_compute. reflexivity.
  - exact H.
Defined.

(** ** Markers *)

Lemma normalize_spki_pin_Some v p : normalize_spki_pin v = Some p ->
  exists digest, p = string_bytes "sha256/" ++ digest /\ digest <> [] /\ trimmed_end digest = true
    /\ (forall c, c ∈ digest -> c ∈ v).
Proof.
  unfold normalize_spki_pin. destruct (split_once 47 (trim v)) as [[algorithm digest]|] eqn:E; simpl; [|done].
  apply split_once_Some in E as [E _].
  destruct (negb _) eqn:Ea; simpl; [done|]. destruct (bool_decide_reflect (digest = [])) as [|Hne]; [done|].
  intros [= <-]. exists digest. repeat split; try done.
  - pose proof (trim_trimmed_end v) as Ht. rewrite E in Ht. change (47 :: digest) with ([47] ++ digest) in Ht.
    by rewrite app_assoc, trimmed_end_app in Ht.
  - intros c Hc. apply trim_subset. rewrite E, elem_of_app, elem_of_cons. tauto.
Qed.

Lemma normalize_spki_pin_idemp v p : normalize_spki_pin v = Some p -> normalize_spki_pin p = Some p.
Proof.
  intros (digest & -> & Hne & He & _)%normalize_spki_pin_Some. unfold normalize_spki_pin.
  rewrite trim_keep; [|done|by rewrite trimmed_end_app].
  change (string_bytes "sha256/" ++ digest) with (string_bytes "sha256" ++ 47 :: digest).
  rewrite split_once_app; [|by apply (bool_decide_unpack _); vm_compute].
  cbn -[string_bytes app]. rewrite bool_decide_eq_false_2 by done. done.
Qed.

Lemma OwnershipMarker_new_Ok c s m :
  OwnershipMarker_new c s = Ok m <->
  normalize_certificate_pin c = Some (certificate_pin m) /\ normalize_spki_pin s = Some (spki_pin m).
Proof.
  unfold OwnershipMarker_new. destruct (normalize_certificate_pin c) as [p|]; simpl; [|split; [done|by intros [? _]]].
  destruct (normalize_spki_pin s) as [q|]; simpl; [|split; [done|by intros [_ ?]]].
  split; [by intros [= <-]|]. destruct m as [mc ms]; simpl. by intros [[= ->] [= ->]].
Qed.

Lemma trim_end_crlf_keep l : trimmed_end l = true -> trim_end_matches (fun c => (c =? CR) || (c =? LF)) l = l.
Proof.
  intros He. unfold trim_end_matches. rewrite trim_start_matches_keep; [by rewrite rev_involutive|].
  unfold trimmed_end, trimmed_start in He. destruct (rev l) as [|c r]; [done|].
  destruct (Z.eqb_spec c CR) as [->|]; [done|]. by destruct (Z.eqb_spec c LF) as [->|].
Qed.

(** One rendered line sets its field. *)
Lemma marker_line_field f key value : (EQUALS ∉ key) -> trimmed_start (key ++ [EQUALS]) = true ->
  trimmed_end (key ++ EQUALS :: value) = true ->
  marker_line f (key ++ EQUALS :: value) =
    if bool_decide (key = string_bytes "version") then
      v ← ok_or (parse_u32 (trim value)) UnrecognizedMarkerEntry;
      Ok (mkMarkerFields (Some v) (field_certificate f) (field_spki f))
    else if bool_decide (key = string_bytes "certificate") then
      Ok (mkMarkerFields (field_version f) (Some value) (field_spki f))
    else if bool_decide (key = string_bytes "spki") then
      Ok (mkMarkerFields (field_version f) (field_certificate f) (Some value))
    else Err UnrecognizedMarkerEntry.
Proof.
  intros Hk Hs He. unfold marker_line. rewrite trim_end_crlf_keep by done.
  rewrite trim_keep; [|by destruct key|done]. rewrite bool_decide_eq_false_2 by (by destruct key).
  by rewrite split_once_app.
Qed.

Lemma hex_text_trimmed t : hex_text t -> (LF ∉ t) /\ trimmed_end t = true.
Proof.
  intros Ht. assert (forall c, c ∈ t -> is_whitespace c = false) as Hw.
  { intros c Hc. unfold hex_text in Ht. rewrite Forall_forall in Ht. destruct (Ht c Hc) as (n & Hn & ->).
    assert (n ∈ range 16) as Hin by (by apply elem_of_range). unfold range in Hin. vm_compute in Hin. clear -Hin.
    repeat (apply elem_of_cons in Hin as [->|Hin]; [done|]). by apply not_elem_of_nil in Hin. }
  split; [intros Hin; by apply Hw in Hin|]. unfold trimmed_end, trimmed_start.
  destruct (rev t) as [|c r] eqn:E; [done|]. rewrite Hw; [done|]. apply list_elem_of_In, in_rev. rewrite E. by left.
Qed.

Lemma marker_lines_render m : hex_text (certificate_pin m) -> certificate_pin m <> [] ->
  (LF ∉ spki_pin m) -> spki_pin m <> [] -> trimmed_end (spki_pin m) = true ->
  marker_lines (mkMarkerFields None None None) (lines (marker_render m))
  = Ok (mkMarkerFields (Some 3) (Some (certificate_pin m)) (Some (spki_pin m))).
Proof.
  intros Hc Hcne Hs Hsne Hse. destruct (hex_text_trimmed _ Hc) as [Hcl Hce].
  assert (forall key v, (LF ∉ key) -> (LF ∉ v) -> LF ∉ key ++ EQUALS :: v) as Hno.
  { intros key v Hk Hv. rewrite elem_of_app, elem_of_cons. by intros [?|[?|?]]. }
  assert (forall key v, v <> [] -> trimmed_end v = true -> trimmed_end (key ++ EQUALS :: v) = true) as Hend.
  { intros key v Hv Hve. change (EQUALS :: v) with ([EQUALS] ++ v). by rewrite app_assoc, trimmed_end_app. }
  assert (forall l : list Z, bool_decide (LF ∈ l) = false -> LF ∉ l) as Hdec by (intros l; apply bool_decide_eq_false).
  unfold marker_render.
  change (string_bytes "version=3") with (string_bytes "version" ++ EQUALS :: [51]).
  replace (string_bytes "certificate=") with (string_bytes "certificate" ++ [EQUALS]) by reflexivity.
  replace (string_bytes "spki=") with (string_bytes "spki" ++ [EQUALS]) by reflexivity.
  replace ((string_bytes "version" ++ EQUALS :: [51]) ++ [LF] ++ (string_bytes "certificate" ++ [EQUALS])
      ++ certificate_pin m ++ [LF] ++ (string_bytes "spki" ++ [EQUALS]) ++ spki_pin m ++ [LF])
    with ((string_bytes "version" ++ EQUALS :: [51]) ++ LF ::
      (string_bytes "certificate" ++ EQUALS :: certificate_pin m) ++ LF ::
      (string_bytes "spki" ++ EQUALS :: spki_pin m) ++ LF :: []) by (by rewrite <- !app_assoc).
  rewrite lines_record by (solve [apply Hdec; vm_compute; reflexivity | vm_compute; reflexivity]).
  rewrite lines_record by (solve [by apply Hend | apply Hno; [by apply Hdec|done]]).
  rewrite lines_record by (solve [by apply Hend | apply Hno; [by apply Hdec|done]]).
  cbn [marker_lines].
  rewrite marker_line_field by (solve [vm_compute; reflexivity | apply (bool_decide_unpack _); vm_compute; exact I]).
  rewrite (bool_decide_eq_true_2 (string_bytes "version" = string_bytes "version")) by reflexivity. cbn [mbind result_bind].
  change (parse_u32 (trim [51])) with (Some 3). cbn [ok_or mbind result_bind].
  rewrite marker_line_field by (solve [by apply Hend | vm_compute; reflexivity | apply (bool_decide_unpack _); vm_compute; exact I]).
  rewrite (bool_decide_eq_false_2 (string_bytes "certificate" = string_bytes "version")) by (vm_compute; congruence).
  rewrite (bool_decide_eq_true_2 (string_bytes "certificate" = string_bytes "certificate")) by reflexivity.
  cbn [mbind result_bind field_version field_certificate field_spki].
  rewrite marker_line_field by (solve [by apply Hend | vm_compute; reflexivity | apply (bool_decide_unpack _); vm_compute; exact I]).
  rewrite (bool_decide_eq_false_2 (string_bytes "spki" = string_bytes "version")) by (vm_compute; congruence).
  rewrite (bool_decide_eq_false_2 (string_bytes "spki" = string_bytes "certificate")) by (vm_compute; congruence).
  rewrite (bool_decide_eq_true_2 (string_bytes "spki" = string_bytes "spki")) by reflexivity.
  done.
Qed.

(** The fields of a parsed marker are parts of its lines. *)
Lemma marker_lines_fields ls : Forall (fun l => LF ∉ l) ls -> forall f g,
  match field_spki f with Some v => LF ∉ v | None => True end ->
  marker_lines f ls = Ok g -> match field_spki g with Some v => LF ∉ v | None => True end.
Proof.
  induction 1 as [|l ls Hl Hls IH]; intros f g Hf; cbn [marker_lines]; [by intros [= ->]|].
  destruct (marker_line f l) as [f'|e] eqn:E; [|done]. cbn [mbind result_bind]. apply IH.
  revert E. unfold marker_line. set (line := trim_end_matches _ l).
  assert (LF ∉ line) as Hline.
  { intros Hin. apply Hl. unfold line, trim_end_matches in Hin.
    destruct (trim_start_matches_suffix (fun c => (c =? CR) || (c =? LF)) (rev l)) as (pre & Hr & _).
    apply (f_equal (@rev Z)) in Hr. rewrite rev_involutive, rev_app_distr in Hr. rewrite Hr. apply elem_of_app. by left. }
  clearbody line. case_bool_decide; [by intros [= <-]|].
  destruct (split_once EQUALS line) as [[key value]|] eqn:Es; [|done].
  apply split_once_Some in Es as [-> _]. rewrite elem_of_app, elem_of_cons in Hline.
  repeat case_bool_decide.
  - destruct (parse_u32 (trim value)); [|done]. by intros [= <-].
  - by intros [= <-].
  - intros [= <-]. simpl. tauto.
  - done.
Qed.

Lemma marker_new_parses m c s : OwnershipMarker_new c s = Ok m -> (LF ∉ spki_pin m) -> marker_parse (marker_render m) = Ok m.
Proof.
  intros Hm Hlf. pose proof Hm as [Hc Hs]%OwnershipMarker_new_Ok.
  destruct (normalize_certificate_pin_idemp _ _ Hc) as [Hhex Hne].
  destruct (normalize_spki_pin_Some _ _ Hs) as (digest & Hd & Hdne & Hde & _).
  unfold marker_parse. rewrite marker_lines_render; try done.
  - cbn. apply OwnershipMarker_new_Ok. split; [|by eapply normalize_spki_pin_idemp].
    by apply (pin_file_normalizes []).
  - rewrite Hd. by vm_compute.
  - by rewrite Hd, trimmed_end_app.
Qed.

Lemma marker_matches_new m c s : marker_matches m c s = true <-> OwnershipMarker_new c s = Ok m.
Proof.
  rewrite OwnershipMarker_new_Ok. unfold marker_matches. by rewrite andb_true_iff, !bool_decide_eq_true.
Qed.

(** A marker file survives being written and read.  Whatever text a
    marker was parsed from, what [render] writes of it is parsed back to it; a
    marker made from pins is parsed back when its public-key pin is one line;
    and it matches the material whose two pins normalise to its own and no
    other. *)
Theorem marker_file_exact (m : OwnershipMarker) :
  (forall text, marker_parse text = Ok m -> marker_parse (marker_render m) = Ok m)
  /\ (forall certificate spki, OwnershipMarker_new certificate spki = Ok m ->
        (LF ∉ spki_pin m) -> marker_parse (marker_render m) = Ok m)
  /\ (forall certificate spki,
        marker_matches m certificate spki = true <-> OwnershipMarker_new certificate spki = Ok m).
Proof.
  repeat split.
  - intros text Hp. unfold marker_parse in Hp.
    destruct (marker_lines _ (lines text)) as [f|] eqn:E; [|done]. cbn [mbind result_bind] in Hp.
    assert (Forall (fun l => LF ∉ l) (lines text)) as Hls by (apply Forall_forall; intros l; apply lines_no_LF).
    pose proof (marker_lines_fields (lines text) Hls (mkMarkerFields None None None) f I E) as Hf.
    destruct (field_version f) as [v|]; [|done]. destruct (negb _); [done|].
    destruct (field_certificate f) as [c|]; [|done]. destruct (field_spki f) as [s|]; [|done]. cbn [ok_or mbind result_bind] in Hp.
    apply (marker_new_parses m c s Hp). apply OwnershipMarker_new_Ok in Hp as [_ Hs].
    destruct (normalize_spki_pin_Some _ _ Hs) as (digest & -> & _ & _ & Hsub).
    intros [Hin|Hin]%elem_of_app; [|by apply Hf, Hsub].
    revert Hin. by apply (bool_decide_unpack _).
  - apply marker_new_parses.
  - apply marker_matches_new.
  - apply marker_matches_new.
Qed.
