(* ===== verification/CertJournal.v ===== *)
(** * Transport: the certificate journal and the provisioning decision

    Models [shared/transport/src/cert_transaction.rs] (the journal of a
    certificate transaction, its text form and the recovery it decides for
    each managed file) and [plan] of
    [shared/transport/src/cert_provisioning.rs] (what to do with the material
    a host found).  A managed file is its position in [MANAGED_FILES]. *)

From stdpp Require Import strings.
From S2P Require Import Prelude Utf8 RustText.

Definition MANAGED_FILES : list (list Z) :=
  map string_bytes ["host.key"; "host.crt"; "host.cert-sha256"; "host.spki-sha256"; "host.generated-by-arcen"]%string.

Inductive TransactionPhase := Prepared | Committed.
#[global] Instance TransactionPhase_eq_dec : EqDecision TransactionPhase. Proof. solve_decision. Defined.

Definition phase_parse (value : list Z) : option TransactionPhase :=
  if bool_decide (value = string_bytes "prepared") then Some Prepared
  else if bool_decide (value = string_bytes "committed") then Some Committed
  else None.

Definition phase_str (p : TransactionPhase) : list Z :=
  match p with Prepared => string_bytes "prepared" | Committed => string_bytes "committed" end.

Record FileBefore := mkFileBefore { existed_now : bool; backup_present : bool }.

Inductive FileRecovery := RequirePublished | RestoreBackup | RemoveFile | RequireUntouched.
#[global] Instance FileRecovery_eq_dec : EqDecision FileRecovery. Proof. solve_decision. Defined.

Inductive JournalError :=
  MissingTransactionId | MissingPhase | UnknownPhase | IncompleteFileRecord | UnrecognizedEntry.
#[global] Instance JournalError_eq_dec : EqDecision JournalError. Proof. solve_decision. Defined.

(** [existed] has one flag for each managed file, in their order. *)
Record TransactionJournal := mkJournal {
  transaction_id : list Z; journal_phase : TransactionPhase; existed : list bool
}.

Definition existed_prefix : list Z := string_bytes "existed.".

Definition render_flag (name : list Z) (e : bool) : list Z :=
  existed_prefix ++ name ++ [EQUALS; if e then 49 else 48] ++ [LF].

Fixpoint render_flags (names : list (list Z)) (flags : list bool) : list Z :=
  match names, flags with
  | n :: names, e :: flags => render_flag n e ++ render_flags names flags
  | _, _ => []
  end.

Definition render (j : TransactionJournal) : list Z :=
  string_bytes "transaction=" ++ transaction_id j ++ [LF]
  ++ string_bytes "phase=" ++ phase_str (journal_phase j) ++ [LF]
  ++ render_flags MANAGED_FILES (existed j).

Definition position (name : list Z) : option nat := fst <$> list_find (fun managed => managed = name) MANAGED_FILES.

(** The three locals of [parse]. *)
Record journal_fields := mkFields {
  f_transaction_id : option (list Z); f_phase : option TransactionPhase; f_existed : list (option bool)
}.

Definition parse_line (f : journal_fields) (line : list Z) : result JournalError journal_fields :=
  let line := trim line in
  if bool_decide (line = []) then Ok f else
  match split_once EQUALS line with
  | None => Err UnrecognizedEntry
  | Some (key, value) =>
    if bool_decide (key = string_bytes "transaction") then Ok (mkFields (Some value) (f_phase f) (f_existed f))
    else if bool_decide (key = string_bytes "phase") then
      p ← ok_or (phase_parse value) UnknownPhase;
      Ok (mkFields (f_transaction_id f) (Some p) (f_existed f))
    else
      name ← ok_or (strip_prefix existed_prefix key) UnrecognizedEntry;
      index ← ok_or (position name) UnrecognizedEntry;
      e ← (if bool_decide (value = [48]) then Ok false
           else if bool_decide (value = [49]) then Ok true
           else Err UnrecognizedEntry);
      Ok (mkFields (f_transaction_id f) (f_phase f) (<[index := Some e]> (f_existed f)))
  end.

Fixpoint parse_lines (f : journal_fields) (ls : list (list Z)) : result JournalError journal_fields :=
  match ls with
  | [] => Ok f
  | l :: ls => f ← parse_line f l; parse_lines f ls
  end.

Fixpoint resolve (flags : list (option bool)) : result JournalError (list bool) :=
  match flags with
  | [] => Ok []
  | None :: _ => Err IncompleteFileRecord
  | Some e :: flags => es ← resolve flags; Ok (e :: es)
  end.

Definition parse_finish (f : journal_fields) : result JournalError TransactionJournal :=
  id ← ok_or (f_transaction_id f) MissingTransactionId;
  if bool_decide (id = []) then Err MissingTransactionId else
  phase ← ok_or (f_phase f) MissingPhase;
  resolved ← resolve (f_existed f);
  Ok (mkJournal id phase resolved).

Definition no_fields : journal_fields := mkFields None None (replicate (length MANAGED_FILES) None).

Definition parse (text : list Z) : result JournalError TransactionJournal :=
  f ← parse_lines no_fields (lines text); parse_finish f.

Definition existed_before (j : TransactionJournal) (name : list Z) : result JournalError bool :=
  match position name with
  | None => Err UnrecognizedEntry
  | Some i => ok_or (existed j !! i) UnrecognizedEntry
  end.

Definition recover_file (j : TransactionJournal) (name : list Z) (now : FileBefore) : result JournalError FileRecovery :=
  e ← existed_before j name;
  if bool_decide (journal_phase j = Committed) then Ok RequirePublished
  else if backup_present now then Ok RestoreBackup
  else if (e : bool) then Ok RequireUntouched else Ok RemoveFile.

(** ** The provisioning decision *)

Inductive ProvisioningRequest := Ensure | Renew | Rekey | AdoptLegacy.
Inductive MaterialOwnership := Owned | Foreign | Ambiguous.
#[global] Instance MaterialOwnership_eq_dec : EqDecision MaterialOwnership. Proof. solve_decision. Defined.

Record MaterialState := mkMaterial {
  certificate_present : bool;
  key_present : bool;
  ownership : option MaterialOwnership;
  certificate_valid : bool;
  expiring_or_expired : bool;
  stale_staging_present : bool;
  legacy_arcen_self_signed : bool
}.

Definition is_partial (s : MaterialState) : bool := negb (Bool.eqb (certificate_present s) (key_present s)).
Definition is_complete (s : MaterialState) : bool := certificate_present s && key_present s.

Inductive ProvisioningAction := KeepExisting | CreateNew | RenewPreservingKey | ReplaceKeyAndCertificate | AdoptAndRenew.
#[global] Instance ProvisioningAction_eq_dec : EqDecision ProvisioningAction. Proof. solve_decision. Defined.

Definition changes_client_trust (a : ProvisioningAction) : bool :=
  match a with CreateNew | ReplaceKeyAndCertificate => true | _ => false end.

Definition writes_material (a : ProvisioningAction) : bool :=
  match a with KeepExisting => false | _ => true end.

Inductive ProvisioningRefusal :=
  IncompleteMaterial | ForeignMaterial | NothingToRenew | NothingToRekey | NothingToAdopt | AlreadyOwned | InvalidCertificate.

Record ProvisioningPlan := mkPlan {
  action : ProvisioningAction; clear_stale_staging : bool; invalidates_pins : bool
}.

Definition plan_action (request : ProvisioningRequest) (s : MaterialState) : result ProvisioningRefusal ProvisioningAction :=
  let foreign := bool_decide (ownership s = Some Foreign) in
  let ambiguous := bool_decide (ownership s = Some Ambiguous) in
  match request with
  | AdoptLegacy =>
    if negb (is_complete s) then Err NothingToAdopt
    else if ambiguous then Err ForeignMaterial
    else if negb foreign then Err AlreadyOwned
    else Ok AdoptAndRenew
  | Ensure =>
    if negb (is_complete s) then Ok CreateNew
    else if foreign && legacy_arcen_self_signed s then Ok AdoptAndRenew
    else if foreign || ambiguous then
      if negb (certificate_valid s) then Err InvalidCertificate else Ok KeepExisting
    else if negb (certificate_valid s) && expiring_or_expired s then Ok RenewPreservingKey
    else if negb (certificate_valid s) then Err InvalidCertificate
    else if expiring_or_expired s then Ok RenewPreservingKey
    else Ok KeepExisting
  | Renew =>
    if negb (is_complete s) then Err NothingToRenew
    else if foreign || ambiguous then Err ForeignMaterial
    else Ok RenewPreservingKey
  | Rekey =>
    if negb (is_complete s) then Err NothingToRekey
    else if foreign || ambiguous then Err ForeignMaterial
    else Ok ReplaceKeyAndCertificate
  end.

Definition plan (request : ProvisioningRequest) (s : MaterialState) : result ProvisioningRefusal ProvisioningPlan :=
  if is_partial s then Err IncompleteMaterial else
  a ← plan_action request s;
  Ok (mkPlan a (stale_staging_present s && writes_material a) (changes_client_trust a)).

(** ** The text form *)

(** A journal the text form can hold: its identifier is a line's end. *)
Definition wf_journal (j : TransactionJournal) : Prop :=
  transaction_id j <> [] /\ (LF ∉ transaction_id j) /\ trimmed_end (transaction_id j) = true
  /\ length (existed j) = length MANAGED_FILES.

Lemma parse_lines_record f l rest : (LF ∉ l) -> trimmed_end l = true ->
  parse_lines f (lines (l ++ LF :: rest)) = (f' ← parse_line f l; parse_lines f' (lines rest)).
Proof. intros Hl He. by rewrite lines_record. Qed.

Definition flag_line (i : nat) (e : bool) : list Z :=
  existed_prefix ++ nth i MANAGED_FILES [] ++ [EQUALS; if e then 49 else 48].

Lemma flag_line_plain i e : (i < 5)%nat -> (LF ∉ flag_line i e) /\ trimmed_end (flag_line i e) = true.
Proof.
  intros Hi. do 5 (destruct i as [|i]; [destruct e; (split; [apply (bool_decide_unpack _); vm_compute; exact I|vm_compute; reflexivity])|]). lia.
Qed.

Lemma parse_flag_line i e f : (i < 5)%nat ->
  parse_line f (flag_line i e) = Ok (mkFields (f_transaction_id f) (f_phase f) (<[i := Some e]> (f_existed f))).
Proof. intros Hi. do 5 (destruct i as [|i]; [by destruct e|]). lia. Qed.

Lemma parse_phase_line p f :
  parse_line f (string_bytes "phase=" ++ phase_str p) = Ok (mkFields (f_transaction_id f) (Some p) (f_existed f)).
Proof. by destruct p. Qed.

Lemma parse_id_line id f : id <> [] -> trimmed_end id = true ->
  parse_line f (string_bytes "transaction=" ++ id) = Ok (mkFields (Some id) (f_phase f) (f_existed f)).
Proof.
  intros Hne He. unfold parse_line. rewrite trim_keep; [|done|by rewrite trimmed_end_app].
  change (string_bytes "transaction=" ++ id) with (string_bytes "transaction" ++ EQUALS :: id).
  rewrite split_once_app; [done|]. by apply (bool_decide_unpack _); vm_compute.
Qed.

Lemma render_lines j : length (existed j) = length MANAGED_FILES -> exists a b c d e,
  existed j = [a; b; c; d; e] /\
  render j = (string_bytes "transaction=" ++ transaction_id j) ++ LF ::
    (string_bytes "phase=" ++ phase_str (journal_phase j)) ++ LF ::
    flag_line 0 a ++ LF :: flag_line 1 b ++ LF :: flag_line 2 c ++ LF :: flag_line 3 d ++ LF :: flag_line 4 e ++ LF :: [].
Proof.
  intros Hl. unfold render. destruct j as [id p [|a [|b [|c [|d [|e [|]]]]]]]; try done.
  exists a, b, c, d, e. split; [done|]. cbn [transaction_id journal_phase existed].
  unfold flag_line. rewrite <- !app_assoc. cbn [app]. done.
Qed.

Lemma parse_render j : wf_journal j -> parse (render j) = Ok j.
Proof.
  intros (Hne & Hlf & He & Hl). destruct (render_lines j Hl) as (a & b & c & d & e & Hex & ->).
  unfold parse. rewrite parse_lines_record.
  2:{ intros [Hin|Hin]%elem_of_app; [|done]. revert Hin. by apply (bool_decide_unpack _); vm_compute. }
  2:{ by rewrite trimmed_end_app. }
  rewrite parse_id_line by done. cbn [mbind result_bind]. rewrite parse_lines_record.
  2:{ destruct (journal_phase j); by apply (bool_decide_unpack _); vm_compute. }
  2:{ by destruct (journal_phase j). }
  rewrite parse_phase_line. cbn [mbind result_bind].
  do 5 (rewrite parse_lines_record by (by apply flag_line_plain; lia); rewrite parse_flag_line by lia; cbn [mbind result_bind]).
  unfold parse_finish. destruct j as [id p ex]. cbn in Hne, Hex |- *. rewrite bool_decide_eq_false_2 by done. cbn. by rewrite Hex.
Qed.

Definition wf_fields (f : journal_fields) : Prop :=
  match f_transaction_id f with Some id => (LF ∉ id) /\ trimmed_end id = true | None => True end
  /\ length (f_existed f) = length MANAGED_FILES.

Lemma parse_line_wf f l g : (LF ∉ l) -> wf_fields f -> parse_line f l = Ok g -> wf_fields g.
Proof.
  intros Hl [Hid Hlen]. unfold parse_line.
  assert (LF ∉ trim l) as Ht by (intros Hin; by apply Hl, trim_subset).
  pose proof (trim_trimmed_end l) as He. revert Ht He. generalize (trim l) as line. intros line Ht He.
  case_bool_decide; [by intros [= <-]|].
  destruct (split_once EQUALS line) as [[key value]|] eqn:Es; [|done]. apply split_once_Some in Es as [-> _].
  repeat case_bool_decide.
  - intros [= <-]. split; [|done]. simpl. rewrite elem_of_app, elem_of_cons in Ht. split; [tauto|].
    destruct value as [|v value]; [done|]. change (EQUALS :: v :: value) with ([EQUALS] ++ v :: value) in He.
    by rewrite app_assoc, trimmed_end_app in He.
  - destruct (phase_parse value); [|done]. by intros [= <-].
  - destruct (strip_prefix existed_prefix key) as [name|]; [|done]. cbn [ok_or mbind result_bind].
    destruct (position name) as [i|]; [|done]. cbn [ok_or mbind result_bind].
    intros [= <-]. split; [done|]. cbn. by rewrite length_insert.
  - destruct (strip_prefix existed_prefix key) as [name|]; [|done]. cbn [ok_or mbind result_bind].
    destruct (position name) as [i|]; [|done]. cbn [ok_or mbind result_bind].
    intros [= <-]. split; [done|]. cbn. by rewrite length_insert.
  - destruct (strip_prefix existed_prefix key) as [name|]; [|done]. cbn [ok_or mbind result_bind].
    by destruct (position name).
Qed.

Lemma parse_lines_wf ls : Forall (fun l => LF ∉ l) ls -> forall f g, wf_fields f -> parse_lines f ls = Ok g -> wf_fields g.
Proof.
  induction 1 as [|l ls Hl Hls IH]; intros f g Hf; cbn [parse_lines]; [by intros [= <-]|].
  destruct (parse_line f l) as [f'|] eqn:E; [|done]. cbn [mbind result_bind]. apply IH. by eapply parse_line_wf.
Qed.

Lemma resolve_Ok flags es : resolve flags = Ok es <-> flags = Some <$> es.
Proof.
  revert es. induction flags as [|[e|] flags IH]; intros es; cbn [resolve].
  - split; [by intros [= <-]|]. by destruct es.
  - destruct (resolve flags) as [r|] eqn:E; cbn [mbind result_bind].
    + assert (flags = Some <$> r) as -> by (by apply IH). split; [by intros [= <-]|].
      destruct es as [|x es]; [done|]. cbn. intros [= -> H]. do 2 f_equal. revert H. by intros ->%(inj (fmap Some)).
    + split; [done|]. destruct es as [|x es]; [done|]. cbn. intros [= -> H]. by apply IH in H.
  - split; [done|]. by destruct es.
Qed.

Lemma parse_wf t j : parse t = Ok j -> wf_journal j.
Proof.
  unfold parse. destruct (parse_lines no_fields (lines t)) as [f|] eqn:E; [|done]. cbn [mbind result_bind].
  apply parse_lines_wf in E as [Hid Hlen]; [|apply Forall_forall; intros l; apply lines_no_LF|by split].
  unfold parse_finish. destruct (f_transaction_id f) as [id|]; [|done]. cbn [ok_or mbind result_bind].
  case_bool_decide; [done|]. destruct (f_phase f); [|done]. cbn [ok_or mbind result_bind].
  destruct (resolve (f_existed f)) as [es|] eqn:Er; [|done]. cbn [mbind result_bind]. intros [= <-].
  apply resolve_Ok in Er. rewrite Er, length_fmap in Hlen. destruct Hid. by repeat split.
Qed.

(** The journal survives being written and read, exactly when its
    identifier fits the text form.  A journal is parsed back from what
    [render] writes of it if and only if its identifier is not empty, is one
    line, does not end in white space, and it has one flag for each managed
    file; and every journal the parser accepts, whoever wrote it, is one of
    those.  So a recovery that rewrites or repeats a journal it read never
    meets another one. *)
Theorem journal_codec_exact (j : TransactionJournal) :
  (parse (render j) = Ok j <-> wf_journal j) /\ (forall text, parse text = Ok j -> parse (render j) = Ok j).
Proof.
  split; [split; [apply parse_wf|apply parse_render]|]. intros text Ht. by eapply parse_render, parse_wf.
Qed.

(** An identifier of the form the hosts give one, [pid-seconds], fits. *)
Definition id_character (c : Z) : bool := is_ascii_digit c || (c =? 45).

Lemma id_fits id p ex : id <> [] -> Forall (fun c => id_character c = true) id -> length ex = length MANAGED_FILES ->
  wf_journal (mkJournal id p ex).
Proof.
  intros Hne Hall Hl. assert (forall c, c ∈ id -> is_whitespace c = false) as Hw.
  { intros c Hc. rewrite Forall_forall in Hall. specialize (Hall c Hc). unfold id_character, is_ascii_digit in Hall.
    unfold is_whitespace. apply orb_true_iff in Hall. rewrite andb_true_iff, !Z.leb_le, Z.eqb_eq in Hall.
    repeat rewrite orb_false_iff. repeat rewrite andb_false_iff. repeat rewrite Z.leb_gt. repeat rewrite Z.eqb_neq. lia. }
  repeat split; try done; cbn.
  - intros Hin. by apply Hw in Hin.
  - unfold trimmed_end, trimmed_start. destruct (rev id) as [|c r] eqn:E; [done|]. rewrite Hw; [done|].
    apply list_elem_of_In, in_rev. rewrite E. by left.
Qed.

(** ** What a plan may do *)

Definition is_absent (s : MaterialState) : bool := negb (certificate_present s) && negb (key_present s).
Definition not_ours (s : MaterialState) : bool :=
  bool_decide (ownership s = Some Foreign) || bool_decide (ownership s = Some Ambiguous).

(** Healthy material this host created. *)
Definition owned_valid : MaterialState := mkMaterial true true (Some Owned) true false false true.

Ltac plan_cases :=
  unfold plan, plan_action, is_partial, is_complete, is_absent, not_ours in *; simpl in *;
  repeat match goal with |- context [bool_decide ?P] => destruct (bool_decide_reflect P) end;
  subst; simpl in *; naive_solver.

Lemma plan_invalidates request s p : plan request s = Ok p ->
  (invalidates_pins p = true <->
     (request = Ensure /\ is_absent s = true) \/ (request = Rekey /\ is_complete s = true /\ not_ours s = false)).
Proof. destruct s as [c k o v x st lg]. destruct request, c, k, v, x, lg; plan_cases. Qed.

(** A plan changes what clients trust only when it was asked to.  It
    invalidates pins exactly when the directory was empty and material was to
    be ensured, or when a rekey was asked for over a complete pair that is not
    someone else's; it writes over someone else's pair only to adopt it, which
    keeps the key, and then the pair carries no marker and either adoption was
    asked for or the pair is one an old installer left; half a pair is refused
    under every request; a pair is kept as it is only when its certificate is
    valid; and after a plan was carried out, ensuring changes nothing. *)
Theorem plan_changes_trust_on_request (request : ProvisioningRequest) (s : MaterialState) :
  (is_partial s = true -> plan request s = Err IncompleteMaterial)
  /\ (forall p, plan request s = Ok p ->
        (invalidates_pins p = true <->
           (request = Ensure /\ is_absent s = true) \/ (request = Rekey /\ is_complete s = true /\ not_ours s = false))
        /\ (writes_material (action p) = true -> is_complete s = true -> not_ours s = true ->
              action p = AdoptAndRenew /\ ownership s = Some Foreign
              /\ (request = AdoptLegacy \/ legacy_arcen_self_signed s = true))
        /\ (writes_material (action p) = false ->
              request = Ensure /\ is_complete s = true /\ certificate_valid s = true)
        /\ clear_stale_staging p = stale_staging_present s && writes_material (action p))
  /\ (request <> Ensure -> forall e, plan request s = Err e -> e <> InvalidCertificate)
  /\ plan Ensure owned_valid = Ok (mkPlan KeepExisting false false).
Proof.
  destruct s as [c k o v x st lg]. split; [by destruct c, k|]. split.
  - intros p Hp. split; [by apply plan_invalidates|]. revert Hp. destruct request, c, k, v, x, lg; plan_cases.
  - split; [|done]. intros Hr e. destruct request, c, k; plan_cases.
Qed.

Lemma plan_changes_trust_on_request_witness :
  plan Rekey owned_valid = Ok (mkPlan ReplaceKeyAndCertificate false true)
  /\ plan Ensure (mkMaterial true true (Some Foreign) true false true true) = Ok (mkPlan AdoptAndRenew true false)
  /\ plan Ensure (mkMaterial true false (Some Owned) true false true true) = Err IncompleteMaterial.
Proof.
  split; [reflexivity|]. split; [reflexivity|].
  apply (plan_changes_trust_on_request Ensure (mkMaterial true false (Some Owned) true false true true)). reflexivity.
Defined.
