(* ===== verification/CertPublish.v ===== *)
(** * Hosts: publishing certificate material on macOS

    Models the journalled transaction of [hosts/macos/src/host_cert.rs] that
    publishes a certificate, its pins and its marker, and the recovery of an
    interrupted one, over the journal of [CertJournal] and the marker of
    [CertMarker]; what to publish is decided in [CertProvision].

    A directory maps paths to the contents of plain files; symbolic links,
    which the code refuses, are left out, as are file modes.  A program is a
    function on the directory that also returns every directory it went
    through, so that a crash is a prefix of a run: each operation that writes
    adds the states a crash can leave (a new file empty, torn, whole).  A
    [faults] value says which operations fail: those that need space or change
    a mode, and, apart, renames and removals.

    The theorems are proved in a small program logic with a crash invariant:
    [hoare I P m Q E] says that from [P] every directory [m] goes through
    satisfies [I], and that it ends in [Q] or fails in [E]. *)

From stdpp Require Import strings gmap.
From S2P Require Import Prelude Utf8 RustText CertMarker CertJournal.

(** ** Paths and directories *)

(** A managed file by its position, its staging file, its backup in a
    transaction, the journal and the journal's staging file. *)
Inductive path :=
  | Final (i : nat) | Staging (i : nat) | Backup (id : list Z) (i : nat) | JournalPath | JournalStaging.
#[global] Instance path_eq_dec : EqDecision path. Proof. solve_decision. Defined.
#[global] Instance path_countable : Countable path.
Proof.
  refine (inj_countable'
    (fun p => match p with
      | Final i => inl (inl i) | Staging i => inl (inr i)
      | Backup id i => inr (inl (id, i)) | JournalPath => inr (inr true) | JournalStaging => inr (inr false) end)
    (fun c => match c with
      | inl (inl i) => Final i | inl (inr i) => Staging i
      | inr (inl (id, i)) => Backup id i | inr (inr true) => JournalPath | inr (inr false) => JournalStaging end) _).
  by intros [].
Defined.

Abbreviation directory := (gmap path (list Z)).

(** [managed()]: the managed files in the shared order. *)
Definition managed : list nat := seq 0 5.
Definition KEY : nat := 0.
Definition CERTIFICATE : nat := 1.
Definition CERT_PIN : nat := 2.
Definition SPKI_PIN : nat := 3.
Definition MARKER : nat := 4.

Definition staging_for (target : path) : path :=
  match target with Final i => Staging i | JournalPath => JournalStaging | p => p end.

Inductive CertError := Refused (r : ProvisioningRefusal) | Io | Generation.

(** ** Programs *)

Record faults := mkFaults {
  write_fails : nat -> bool;   (** the n-th operation that needs space or changes a mode *)
  meta_fails : nat -> bool;    (** the n-th rename or removal *)
  torn : nat -> nat            (** how much of the n-th write a crash leaves *)
}.

Record fs := mkFs { files : directory; clock : nat }.

Definition M (A : Type) : Type := fs -> list directory * (fs * result CertError A).

#[global] Instance M_ret : MRet M := fun A a s => ([], (s, Ok a)).
#[global] Instance M_bind : MBind M := fun A B k m s =>
  match m s with
  | (l, (s', Ok a)) => let '(l', out) := k a s' in (l ++ l', out)
  | (l, (s', Err e)) => (l, (s', Err e))
  end.

Definition throw {A} (e : CertError) : M A := fun s => ([], (s, Err e)).
Definition lift {A} (r : result CertError A) : M A := fun s => ([], (s, r)).
Definition modify (f : directory -> directory) : M unit := fun s => ([f (files s)], (mkFs (f (files s)) (clock s), Ok tt)).
Definition get : M directory := fun s => ([], (s, Ok (files s))).
Definition is_file (p : path) : M bool := fun s => ([], (s, Ok (is_some (files s !! p)))).
Definition read (p : path) : M (list Z) := fun s => ([], (s, ok_or (files s !! p) Io)).

Fixpoint iter {A} (f : A -> M unit) (l : list A) : M unit :=
  match l with [] => mret tt | x :: l => _ ← f x; iter f l end.

(** [let _ = operation]: a failure is ignored. *)
Definition ignore (m : M unit) : M unit := fun s =>
  match m s with (l, (s', _)) => (l, (s', Ok tt)) end.

Section Programs.
Context (F : faults).

(** Whether the next operation of a kind fails. *)
Definition tick (fails : faults -> nat -> bool) : M bool := fun s =>
  ([], (mkFs (files s) (S (clock s)), Ok (fails F (clock s)))).

Definition remove_file (p : path) : M unit :=
  f ← tick meta_fails; d ← get;
  if (f : bool) then throw Io else
  match (d : directory) !! p with
  | None => throw Io
  | Some _ => modify (delete p)
  end.

Definition rename (a b : path) : M unit :=
  f ← tick meta_fails; d ← get;
  if (f : bool) then throw Io else
  match (d : directory) !! a with
  | None => throw Io
  | Some v => modify (fun d => <[b := v]> (delete a d))
  end.

(** Creating or truncating a file and writing [bytes] to it. *)
Definition write_file (p : path) (bytes : list Z) : M unit :=
  f ← tick write_fails;
  if (f : bool) then throw Io else
  _ ← modify <[p := []]>;
  _ ← (fun s => modify <[p := take (torn F (clock s)) bytes]> s);
  f ← tick write_fails;
  if (f : bool) then throw Io else
  modify <[p := bytes]>.

Definition set_permissions : M unit := f ← tick write_fails; if (f : bool) then throw Io else mret tt.

Definition copy (a b : path) : M unit := bytes ← read a; write_file b bytes.

Definition write_private (target : path) (bytes : list Z) : M unit :=
  _ ← write_file (staging_for target) bytes;
  _ ← rename (staging_for target) target;
  set_permissions.

(** *** A transaction *)

Record Transaction := mkTransaction { t_id : list Z; t_backups : list nat }.

Fixpoint begin_backups (id : list Z) (l : list nat) : M (list bool * list nat) :=
  match l with
  | [] => mret ([], [])
  | i :: l =>
    present ← is_file (Final i);
    if (present : bool) then
      _ ← copy (Final i) (Backup id i);
      '(existed, backups) ← begin_backups id l; mret (true :: existed, i :: backups)
    else '(existed, backups) ← begin_backups id l; mret (false :: existed, backups)
  end.

Definition begin (id : list Z) : M Transaction :=
  '(existed, backups) ← begin_backups id managed;
  _ ← write_private JournalPath (render (mkJournal id Prepared existed));
  mret (mkTransaction id backups).

Definition commit (t : Transaction) : M unit :=
  d ← get;
  let existed := map (fun i => is_some ((d : directory) !! Final i)) managed in
  _ ← write_private JournalPath (render (mkJournal (t_id t) Committed existed));
  _ ← iter (fun i => ignore (remove_file (Backup (t_id t) i))) (t_backups t);
  remove_file JournalPath.

Definition roll_back (t : Transaction) : M unit :=
  _ ← iter (fun i => _ ← ignore (remove_file (Final i)); ignore (rename (Backup (t_id t) i) (Final i))) (t_backups t);
  _ ← iter (fun i => if bool_decide (i ∈ t_backups t) then mret tt else ignore (remove_file (Final i))) managed;
  ignore (remove_file JournalPath).

(** The body of the loop of [recover_interrupted]. *)
Definition recover_one (journal : TransactionJournal) (i : nat) : M unit :=
  let name := nth i MANAGED_FILES [] in
  let backup := Backup (transaction_id journal) i in
  present ← is_file (Final i);
  backed ← is_file backup;
  decision ← lift (match recover_file journal name (mkFileBefore present backed) with Ok a => Ok a | Err _ => Err Io end);
  _ ← match decision with
      | RequirePublished | RequireUntouched => if (present : bool) then mret tt else throw Io
      | RestoreBackup => _ ← ignore (remove_file (Final i)); rename backup (Final i)
      | RemoveFile => ignore (remove_file (Final i))
      end;
  ignore (remove_file backup).

Definition recover_interrupted : M (option (list Z)) :=
  present ← is_file JournalPath;
  if negb (present : bool) then mret None else
  text ← read JournalPath;
  journal ← lift (match parse text with Ok j => Ok j | Err _ => Err Io end);
  _ ← iter (recover_one journal) managed;
  _ ← iter (fun i => ignore (remove_file (Staging i))) managed;
  _ ← remove_file JournalPath;
  mret (Some (transaction_id journal)).

(** *** Publishing *)

(** The pins of a certificate, computed from its PEM by an X.509 parser and a
    hash: the certificate's in hexadecimal, the public key's. *)
Context (pins_from_pem : list Z -> option (list Z * list Z)).

Definition cert_pin_text (certificate : list Z) : list Z :=
  string_bytes "sha256 Fingerprint=" ++ colon_hex certificate ++ [LF].

Definition write_pins (certificate_pem : list Z) : M unit :=
  pins ← lift (ok_or (pins_from_pem certificate_pem) Generation);
  _ ← write_private (Final CERT_PIN) (cert_pin_text pins.1);
  write_private (Final SPKI_PIN) (pins.2 ++ [LF]).

Definition write_marker (certificate_pem : list Z) : M unit :=
  pins ← lift (ok_or (pins_from_pem certificate_pem) Generation);
  marker ← lift (match OwnershipMarker_new pins.1 pins.2 with Ok m => Ok m | Err _ => Err Generation end);
  write_private (Final MARKER) (marker_render marker).

Definition publish (certificate_pem : list Z) (key_pem : option (list Z)) : M unit :=
  _ ← match key_pem with Some key => write_private (Final KEY) key | None => mret tt end;
  _ ← write_private (Final CERTIFICATE) certificate_pem;
  _ ← write_pins certificate_pem;
  write_marker certificate_pem.

(** The [match] on the outcome of [publish]. *)
Definition settle (transaction : Transaction) (publishing : M unit) : M unit := fun s =>
  match publishing s with
  | (l, (s', Ok _)) => let '(l', out) := commit transaction s' in (l ++ l', out)
  | (l, (s', Err e)) => match roll_back transaction s' with (l', (s'', _)) => (l ++ l', (s'', Err e)) end
  end.

Definition publish_in_transaction (id certificate_pem : list Z) (key_pem : option (list Z)) : M unit :=
  transaction ← begin id;
  settle transaction (publish certificate_pem key_pem).

End Programs.

(** The states a crash of [m] run from [d] can leave, and its outcome. *)
Definition crashes {A} (m : M A) (d : directory) : list directory := d :: (m (mkFs d 0)).1.
Definition outcome {A} (m : M A) (d : directory) : directory * result CertError A :=
  let '(s, r) := (m (mkFs d 0)).2 in (files s, r).

(** ** A program logic with a crash invariant *)

Definition hoare {A} (I P : directory -> Prop) (m : M A) (Q : A -> directory -> Prop) (E : directory -> Prop) : Prop :=
  forall s, P (files s) ->
    Forall I (m s).1 /\ match (m s).2.2 with Ok a => Q a (files (m s).2.1) | Err _ => E (files (m s).2.1) end.

Lemma hoare_ret {A} (I P E : directory -> Prop) (a : A) (Q : A -> directory -> Prop) :
  (forall d, P d -> Q a d) -> hoare I P (mret a) Q E.
Proof. intros HPQ s Hs. split; [constructor|]. by apply HPQ. Qed.

Lemma bind_pure {A B} (m : M A) (k : A -> M B) a s : m s = ([], (s, Ok a)) -> (m ≫= k) s = k a s.
Proof. intros Hm. unfold mbind, M_bind. rewrite Hm. by destruct (k a s). Qed.

Lemma hoare_bind {A B} (I P E : directory -> Prop) (m : M A) (k : A -> M B) (R : A -> directory -> Prop) Q :
  hoare I P m R E -> (forall a, hoare I (R a) (k a) Q E) -> hoare I P (m ≫= k) Q E.
Proof.
  intros Hm Hk s Hs. destruct (Hm s Hs) as [Hl Hr]. unfold mbind, M_bind.
  destruct (m s) as [l [s' [a|e]]] eqn:Em; simpl in *; [|by split].
  destruct (Hk a s' Hr) as [Hl' Hr']. destruct (k a s') as [l' [s'' r]]. simpl in *. split; [|done]. by apply Forall_app.
Qed.

Lemma hoare_weaken {A} (I P P' E E' : directory -> Prop) (m : M A) (Q Q' : A -> directory -> Prop) :
  hoare I P' m Q' E' -> (forall d, P d -> P' d) -> (forall a d, Q' a d -> Q a d) -> (forall d, E' d -> E d) ->
  hoare I P m Q E.
Proof.
  intros Hm HP HQ HE s Hs. destruct (Hm s (HP _ Hs)) as [Hl Hr]. split; [done|].
  destruct (m s).2.2; [by apply HQ|by apply HE].
Qed.

Lemma hoare_or {A} (I P1 P2 E : directory -> Prop) (m : M A) (Q : A -> directory -> Prop) :
  hoare I P1 m Q E -> hoare I P2 m Q E -> hoare I (fun d => P1 d \/ P2 d) m Q E.
Proof. intros H1 H2 s [Hs|Hs]; [by apply H1|by apply H2]. Qed.

Lemma hoare_crash {A} (I I' P E : directory -> Prop) (m : M A) (Q : A -> directory -> Prop) :
  (forall d, I' d -> I d) -> hoare I' P m Q E -> hoare I P m Q E.
Proof. intros HI Hm s Hs. destruct (Hm s Hs) as [Hl Hr]. split; [|done]. eapply Forall_impl; [done|]. simpl. auto. Qed.

Lemma hoare_throw {A} (I P E : directory -> Prop) e (Q : A -> directory -> Prop) :
  (forall d, P d -> E d) -> hoare I P (throw e) Q E.
Proof. intros HPE s Hs. split; [constructor|]. by apply HPE. Qed.

Lemma hoare_lift {A} (I P E : directory -> Prop) (r : result CertError A) (Q : A -> directory -> Prop) :
  (forall a d, r = Ok a -> P d -> Q a d) -> (forall d, P d -> E d) -> hoare I P (lift r) Q E.
Proof. intros HQ HE s Hs. split; [constructor|]. simpl. destruct r; [by apply HQ|by apply HE]. Qed.

Lemma hoare_modify (I P E : directory -> Prop) f (Q : unit -> directory -> Prop) :
  (forall d, P d -> I (f d) /\ Q tt (f d)) -> hoare I P (modify f) Q E.
Proof. intros HQ s Hs. destruct (HQ _ Hs). split; [repeat constructor; done|done]. Qed.

Lemma hoare_get (I P E : directory -> Prop) : hoare I P get (fun a d => a = d /\ P d) E.
Proof. intros s Hs. by split. Qed.

Lemma hoare_is_file (I P E : directory -> Prop) p : hoare I P (is_file p) (fun a d => a = is_some (d !! p) /\ P d) E.
Proof. intros s Hs. by split. Qed.

Lemma hoare_read (I P E : directory -> Prop) p :
  (forall d, P d -> E d) -> hoare I P (read p) (fun a d => d !! p = Some a /\ P d) E.
Proof. intros HE s Hs. split; [constructor|]. simpl. destruct (files s !! p) as [v|] eqn:Ep; simpl; auto. Qed.

Lemma hoare_tick (I P E : directory -> Prop) F fails : hoare I P (tick F fails) (fun _ => P) E.
Proof. intros s Hs. by split. Qed.

Lemma hoare_ignore (I P E : directory -> Prop) (m : M unit) (Q : unit -> directory -> Prop) :
  hoare I P m Q (Q tt) -> hoare I P (ignore m) Q E.
Proof.
  intros Hm s Hs. destruct (Hm s Hs) as [Hl Hr]. unfold ignore.
  destruct (m s) as [l [s' [[]|e]]]; simpl in *; by split.
Qed.

(** A loop with an invariant indexed by what is still to do. *)
Lemma hoare_iter {A} (I E : directory -> Prop) (f : A -> M unit) (P : list A -> directory -> Prop) (l : list A) :
  (forall x r, x ∈ l -> hoare I (P (x :: r)) (f x) (fun _ => P r) E) -> hoare I (P l) (iter f l) (fun _ => P []) E.
Proof.
  induction l as [|x l IH]; intros Hf; cbn [iter]; [by apply hoare_ret|].
  eapply hoare_bind; [apply Hf; apply elem_of_cons; by left|]. intros u. cbn beta. apply IH. intros y r Hy. apply Hf, elem_of_cons. by right.
Qed.

(** *** The operations, when renames and removals do not fail *)

Section Operations.
Context (F : faults) (Hmeta : forall n, meta_fails F n = false).
Context (I : directory -> Prop).

Lemma hoare_remove (P E : directory -> Prop) p (Q : unit -> directory -> Prop) :
  (forall d, P d -> match d !! p with Some _ => I (delete p d) /\ Q tt (delete p d) | None => E d end) ->
  hoare I P (remove_file F p) Q E.
Proof.
  intros HP s Hs. specialize (HP _ Hs). unfold remove_file, tick, get, mbind, M_bind. simpl. rewrite Hmeta.
  destruct (files s !! p) as [v|]; simpl; [|by split]. destruct HP. split; [by repeat constructor|done].
Qed.

Lemma hoare_remove_quiet (P E : directory -> Prop) p (Q : unit -> directory -> Prop) :
  (forall d, P d -> I (delete p d) /\ Q tt (delete p d)) -> hoare I P (ignore (remove_file F p)) Q E.
Proof.
  intros HP. apply hoare_ignore, hoare_remove. intros d Hd. destruct (HP d Hd) as [HI HQ].
  destruct (d !! p) eqn:Ep; [by split|]. by rewrite delete_id in HQ.
Qed.

Lemma hoare_rename (P E : directory -> Prop) a b (Q : unit -> directory -> Prop) :
  (forall d, P d -> exists v, d !! a = Some v /\ I (<[b := v]> (delete a d)) /\ Q tt (<[b := v]> (delete a d))) ->
  hoare I P (rename F a b) Q E.
Proof.
  intros HP s Hs. destruct (HP _ Hs) as (v & Hv & HI & HQ). unfold rename, tick, get, mbind, M_bind. simpl.
  rewrite Hmeta, Hv. simpl. split; [by repeat constructor|done].
Qed.

Lemma hoare_write_file (P E : directory -> Prop) p bytes :
  (forall d b, P d -> I (<[p := b]> d) /\ P (<[p := b]> d)) -> (forall d, P d -> E d) ->
  hoare I P (write_file F p bytes) (fun _ d => P d /\ d !! p = Some bytes) E.
Proof.
  intros HP HE. unfold write_file. eapply hoare_bind; [apply hoare_tick|]. intros [|]; [by apply hoare_throw|].
  eapply hoare_bind; [by apply (hoare_modify I P E _ (fun _ => P)); auto|]. intros [].
  eapply (hoare_bind _ _ _ _ _ (fun _ => P)).
  { intros s Hs. destruct (HP _ (take (torn F (clock s)) bytes) Hs). split; [by repeat constructor|done]. }
  intros []. eapply hoare_bind; [apply hoare_tick|]. intros [|]; [by apply hoare_throw|].
  apply hoare_modify. intros d Hd. destruct (HP d bytes Hd). by rewrite lookup_insert_eq.
Qed.

Lemma hoare_write_private (P E : directory -> Prop) target bytes (Q : directory -> Prop) :
  (forall d b, P d -> I (<[staging_for target := b]> d) /\ P (<[staging_for target := b]> d)) ->
  (forall d, P d -> E d) -> (forall d, Q d -> E d) ->
  (forall d, P d -> I (<[target := bytes]> (delete (staging_for target) d)) /\ Q (<[target := bytes]> (delete (staging_for target) d))) ->
  hoare I P (write_private F target bytes) (fun _ => Q) E.
Proof.
  intros Hst HE HQE HQ. unfold write_private.
  eapply hoare_bind; [by apply hoare_write_file|]. intros [].
  eapply hoare_bind.
  { apply (hoare_rename _ _ _ _ (fun _ => Q)). intros d [Hd Hs]. exists bytes. split; [done|]. by apply HQ. }
  intros []. unfold set_permissions. eapply hoare_bind; [apply hoare_tick|].
  intros [|]; [by apply hoare_throw|by apply hoare_ret].
Qed.

End Operations.

(** ** The states of a transaction *)

Section States.
Context (id : list Z) (old : nat -> option (list Z)) (new : nat -> list Z).

Definition old_flags : list bool := map (fun i => is_some (old i)) managed.

(** The managed files are the old ones, the new ones. *)
Definition finals_old (d : directory) : Prop := forall i, i ∈ managed -> d !! Final i = old i.
Definition finals_new (d : directory) : Prop := forall i, i ∈ managed -> d !! Final i = Some (new i).

Definition prepared_text : list Z := render (mkJournal id Prepared old_flags).
Definition committed_text : list Z := render (mkJournal id Committed (replicate 5 true)).

(** Nothing is in progress: no journal. *)
Definition at_rest (finals : directory -> Prop) (d : directory) : Prop := d !! JournalPath = None /\ finals d.

(** What is known of one managed file while the transaction is prepared: its
    old contents are in its backup, or it has them and the backup is gone. *)
Definition recoverable (d : directory) (i : nat) : Prop :=
  match old i with
  | Some v => d !! Backup id i = Some v \/ (d !! Backup id i = None /\ d !! Final i = Some v)
  | None => d !! Backup id i = None
  end.

Definition prepared (d : directory) : Prop :=
  d !! JournalPath = Some prepared_text /\ forall i, i ∈ managed -> recoverable d i.

(** Before anything is put back: every backup is in place. *)
Definition backed_up (d : directory) : Prop := forall i, i ∈ managed -> d !! Backup id i = old i.
Definition publishing (d : directory) : Prop := d !! JournalPath = Some prepared_text /\ backed_up d.

Definition committed (d : directory) : Prop := d !! JournalPath = Some committed_text /\ finals_new d.

(** What a crash can leave. *)
Definition crash_safe (d : directory) : Prop :=
  at_rest finals_old d \/ prepared d \/ committed d \/ at_rest finals_new d.

Lemma publishing_prepared d : publishing d -> prepared d.
Proof.
  intros [Hj Hb]. split; [done|]. intros i Hi. unfold recoverable. specialize (Hb i Hi). rewrite Hb.
  destruct (old i); [by left|done].
Qed.

End States.

(** What the state predicates say survives a change of a path they do not
    mention. *)
Ltac untouched :=
  repeat match goal with
  | |- context [(<[?p := ?v]> ?d) !! ?q] => rewrite (lookup_insert_ne d p q) by congruence
  | |- context [(delete ?p ?d) !! ?q] => rewrite (lookup_delete_ne d p q) by congruence
  end.

Lemma elem_of_managed i : (i ∈ managed) <-> (i < 5)%nat.
Proof. unfold managed. rewrite elem_of_seq. lia. Qed.

Lemma managed_cases i : (i ∈ managed) -> i = 0%nat \/ i = 1%nat \/ i = 2%nat \/ i = 3%nat \/ i = 4%nat.
Proof. rewrite elem_of_managed. lia. Qed.

Section Recovery.
Context (F : faults) (Hmeta : forall n, meta_fails F n = false).
Context (id : list Z) (old : nat -> option (list Z)) (new : nat -> list Z).
Context (Hid : wf_journal (mkJournal id Prepared (old_flags old))).

Lemma parse_prepared_text : parse (prepared_text id old) = Ok (mkJournal id Prepared (old_flags old)).
Proof. by apply parse_render. Qed.

Lemma parse_committed_text : parse (committed_text id) = Ok (mkJournal id Committed (replicate 5 true)).
Proof. apply parse_render. by destruct Hid as (? & ? & ? & _). Qed.

Lemma decide_prepared i now : (i ∈ managed) ->
  recover_file (mkJournal id Prepared (old_flags old)) (nth i MANAGED_FILES []) now
  = Ok (if backup_present now then RestoreBackup else if is_some (old i) then RequireUntouched else RemoveFile).
Proof.
  intros Hi. destruct now as [n b].
  destruct (managed_cases i Hi) as [-> | [-> | [-> | [-> | ->]]]]; unfold recover_file, existed_before; simpl;
    destruct b; try reflexivity; match goal with |- context [old ?k] => destruct (old k); reflexivity end.
Qed.

Lemma decide_committed i now : (i ∈ managed) ->
  recover_file (mkJournal id Committed (replicate 5 true)) (nth i MANAGED_FILES []) now = Ok RequirePublished.
Proof. intros Hi. by destruct (managed_cases i Hi) as [-> | [-> | [-> | [-> | ->]]]]. Qed.

(** A prepared transaction with the files outside [todo] put back. *)
Definition restoring (todo : list nat) (d : directory) : Prop :=
  prepared id old d /\ forall i, i ∈ managed -> i ∉ todo -> d !! Final i = old i.

Lemma prepared_update d d' : prepared id old d -> d' !! JournalPath = d !! JournalPath ->
  (forall i, i ∈ managed -> recoverable id old d' i) -> prepared id old d'.
Proof. intros [Hj _] Hj' Hr. split; [congruence|done]. Qed.

(** Changing the two paths of one file keeps the others recoverable. *)
Lemma recoverable_other d d' i k : recoverable id old d k ->
  (d' !! Final k = d !! Final k) -> (d' !! Backup id k = d !! Backup id k) -> i <> k -> recoverable id old d' k.
Proof. unfold recoverable. intros Hr -> ->. done. Qed.

(** The directory after one file is put back, and while it is. *)
Lemma restoring_step d d' i r : restoring (i :: r) d -> d' !! JournalPath = d !! JournalPath ->
  (forall k, k <> i -> d' !! Final k = d !! Final k /\ d' !! Backup id k = d !! Backup id k) ->
  ((i ∈ managed) -> recoverable id old d' i) ->
  prepared id old d' /\ ((d' !! Final i = old i) -> restoring r d').
Proof.
  intros [[Hj Hr] Hdone] Hj' Hk Hi.
  assert (prepared id old d') as Hp.
  { split; [congruence|]. intros k Hkm. destruct (decide (k = i)) as [->|Hne]; [auto|].
    destruct (Hk k Hne) as [Hf Hb]. specialize (Hr k Hkm). unfold recoverable in *. by rewrite Hf, Hb. }
  split; [done|]. intros Hfi. split; [done|]. intros k Hkm Hkr. destruct (decide (k = i)) as [->|Hne]; [done|].
  destruct (Hk k Hne) as [-> _]. apply Hdone; [done|]. apply not_elem_of_cons. by split.
Qed.

Lemma restoring_weaken i r d : restoring r d -> restoring (i :: r) d.
Proof. intros [Hp Hd]. split; [done|]. intros k Hk [_ Hr]%not_elem_of_cons. auto. Qed.

Lemma recover_one_restores i r E : (i ∈ managed) ->
  hoare (prepared id old) (restoring (i :: r)) (recover_one F (mkJournal id Prepared (old_flags old)) i)
    (fun _ => restoring r) E.
Proof.
  intros Hi. set (Q1 := fun d => restoring r d /\ d !! Final i = old i).
  unfold recover_one. cbn [transaction_id].
  eapply hoare_bind; [apply hoare_is_file|]. intros present. cbn beta.
  eapply hoare_bind; [apply hoare_is_file|]. intros backed. cbn beta.
  rewrite decide_prepared by done. cbn [backup_present].
  eapply (hoare_bind _ _ _ _ _ (fun a d => a = (if backed then RestoreBackup else if is_some (old i) then RequireUntouched else RemoveFile)
     /\ backed = is_some (d !! Backup id i) /\ present = is_some (d !! Final i) /\ restoring (i :: r) d)).
  { intros s Hs. split; [constructor|]. cbn. tauto. }
  intros a. apply (hoare_bind _ _ _ _ _ (fun _ => Q1)).
  - destruct a.
    + intros s (Ha & _). destruct backed; [done|]. by destruct (old i).
    + apply (hoare_bind _ _ _ _ _ (fun _ d => restoring (i :: r) d /\ exists v, d !! Backup id i = Some v /\ old i = Some v)).
      * apply hoare_remove_quiet; [done|]. intros d (Ha & Hb & _ & Hr).
        assert (exists v, d !! Backup id i = Some v /\ old i = Some v) as (v & Hv & Ho).
        { pose proof Hr as [[_ Hrec] _]. specialize (Hrec i Hi). unfold recoverable in Hrec.
          destruct (d !! Backup id i) as [w|]; [|by subst backed; destruct (old i)].
          destruct (old i) as [v|]; [|done]. exists v. destruct Hrec as [[= ->]|[? _]]; [done|congruence]. }
        assert (recoverable id old (delete (Final i) d) i) as Hrec.
        { unfold recoverable. rewrite Ho. left. by untouched. }
        destruct (restoring_step d (delete (Final i) d) i r Hr) as [Hp _]; [by untouched| |done|].
        { intros k Hk. split; rewrite lookup_delete_ne; congruence. }
        repeat split; try apply Hp; [|exists v; split; [by untouched|done]].
        intros k Hk Hkr. rewrite lookup_delete_ne by (apply not_elem_of_cons in Hkr as [? _]; congruence). by apply Hr.
      * intros []. apply hoare_rename; [done|]. intros d [Hr (v & Hv & Ho)]. exists v. split; [done|].
        destruct (restoring_step d (<[Final i := v]> (delete (Backup id i) d)) i r Hr) as [Hp Hd]; [by untouched| | |].
        { intros k Hk. split; by rewrite lookup_insert_ne, lookup_delete_ne by congruence. }
        { intros _. unfold recoverable. rewrite Ho. right. rewrite lookup_insert_eq. split; [|done].
          untouched. by rewrite lookup_delete_eq. }
        split; [done|]. unfold Q1. rewrite lookup_insert_eq. split; [by apply Hd; rewrite lookup_insert_eq|done].
    + apply hoare_remove_quiet; [done|]. intros d (Ha & Hb & _ & Hr).
      assert (old i = None /\ d !! Backup id i = None) as [Ho Hn].
      { destruct backed; [done|]. destruct (old i); [done|]. by destruct (d !! Backup id i). }
      destruct (restoring_step d (delete (Final i) d) i r Hr) as [Hp Hd]; [by untouched| | |].
      { intros k Hk. split; rewrite lookup_delete_ne; congruence. }
      { intros _. unfold recoverable. rewrite Ho. by untouched. }
      unfold Q1. rewrite Ho, lookup_delete_eq in *. auto.
    + intros s (Ha & Hb & Hpres & Hr).
      assert (exists v, old i = Some v /\ files s !! Final i = Some v) as (v & Ho & Hv).
      { destruct backed; [done|]. pose proof Hr as [[_ Hrec] _]. specialize (Hrec i Hi). unfold recoverable in Hrec.
        destruct (old i) as [v|]; [|done]. exists v. split; [done|].
        destruct Hrec as [Hrec|[_ ?]]; [|done]. by rewrite Hrec in Hb. }
      rewrite Hpres, Hv. cbn. split; [constructor|]. unfold Q1. rewrite Ho. split; [|done].
      apply (restoring_step (files s) (files s) i r Hr); try done; [|congruence]. intros _. apply Hr, Hi.
  - intros u. apply hoare_remove_quiet; [done|]. intros d [Hr Hf].
    pose proof (restoring_weaken i r d Hr) as Hr'.
    destruct (restoring_step d (delete (Backup id i) d) i r Hr') as [Hp Hd]; [by untouched| | |].
    { intros k Hk. split; rewrite lookup_delete_ne; congruence. }
    { intros _. unfold recoverable. destruct (old i); [right|]; rewrite lookup_delete_eq; [|done]. split; [done|]. by untouched. }
    split; [done|]. apply Hd. by untouched.
Qed.

(** Staging files belong to no state. *)
Lemma staging_irrelevant (d : directory) i v :
  let d' := partial_alter (fun _ => v) (Staging i) d in
  d' !! JournalPath = d !! JournalPath /\ (forall k, d' !! Final k = d !! Final k)
  /\ (forall k, d' !! Backup id k = d !! Backup id k).
Proof. cbn. repeat split; intros; by rewrite lookup_partial_alter_ne. Qed.

Lemma clear_staging (I P : directory -> Prop) E (l : list nat) :
  (forall d, P d -> I d) ->
  (forall d d', P d -> d' !! JournalPath = d !! JournalPath -> (forall k, d' !! Final k = d !! Final k) ->
     (forall k, d' !! Backup id k = d !! Backup id k) -> P d') ->
  hoare I P (iter (fun i => ignore (remove_file F (Staging i))) l) (fun _ => P) E.
Proof.
  intros HI HP. apply (hoare_iter I E _ (fun _ => P)). intros i r _. apply hoare_remove_quiet; [done|].
  intros d Hd. assert (P (delete (Staging i) d)) by (by apply (HP d); try apply (staging_irrelevant d i None)). auto.
Qed.

(** What recovery does with a journal it understands. *)
Definition recover_with (j : TransactionJournal) : M (option (list Z)) :=
  _ ← iter (recover_one F j) managed;
  _ ← iter (fun i => ignore (remove_file F (Staging i))) managed;
  _ ← remove_file F JournalPath;
  mret (Some (transaction_id j)).

Lemma recover_journal (I P E : directory -> Prop) text j (Q : option (list Z) -> directory -> Prop) :
  (forall d, P d -> d !! JournalPath = Some text) -> parse text = Ok j ->
  hoare I P (recover_with j) Q E -> hoare I P (recover_interrupted F) Q E.
Proof.
  intros Hj Hp Hm s Hs. specialize (Hm s Hs). specialize (Hj _ Hs). unfold recover_interrupted.
  rewrite (bind_pure _ _ true s) by (unfold is_file; by rewrite Hj). cbn [negb].
  rewrite (bind_pure _ _ text s) by (unfold read; by rewrite Hj).
  rewrite (bind_pure _ _ j s) by (by rewrite Hp). exact Hm.
Qed.

(** The end of a recovery: no staging files, no journal. *)
Lemma recover_end (I P P' E : directory -> Prop) (id' : list Z) :
  (forall d, P d -> I d) ->
  (forall d d', P d -> d' !! JournalPath = d !! JournalPath -> (forall k, d' !! Final k = d !! Final k) ->
     (forall k, d' !! Backup id k = d !! Backup id k) -> P d') ->
  (forall d, P d -> d !! JournalPath <> None /\ I (delete JournalPath d) /\ P' (delete JournalPath d)) ->
  hoare I P
    (_ ← iter (fun i => ignore (remove_file F (Staging i))) managed; _ ← remove_file F JournalPath; mret (Some id'))
    (fun a d => a = Some id' /\ P' d) E.
Proof.
  intros HI HP HQ. eapply hoare_bind; [by apply clear_staging|]. intros u. cbn beta.
  eapply (hoare_bind _ _ _ _ _ (fun _ => P')); [|intros u'; by apply hoare_ret].
  apply hoare_remove; [done|]. intros d Hd. destruct (HQ d Hd) as (Hj & HI' & HP'). by destruct (d !! JournalPath).
Qed.

Lemma recover_prepared E : hoare (fun d => prepared id old d \/ at_rest (finals_old old) d) (prepared id old)
  (recover_interrupted F) (fun a d => a = Some id /\ at_rest (finals_old old) d) E.
Proof.
  eapply recover_journal; [by intros d [Hj _]|apply parse_prepared_text|].
  unfold recover_with. apply (hoare_bind _ _ _ _ _ (fun _ => restoring [])).
  { apply (hoare_weaken _ _ (restoring managed) _ E _ _ (fun _ => restoring [])); [|by intros d Hd; split|done|done].
    eapply hoare_crash; [intros d; apply or_introl|]. apply (hoare_iter _ _ _ restoring).
    intros i r Hi. by apply recover_one_restores. }
  intros u. apply recover_end; [intros d [Hd _]; by left| |].
  - intros d d' [[Hj Hr] Hd] Hj' Hf Hb. split; [split; [congruence|]|].
    + intros k Hk. specialize (Hr k Hk). unfold recoverable in *. by rewrite Hf, Hb.
    + intros k Hk Hn. rewrite Hf. by apply Hd.
  - intros d [[Hj Hr] Hd]. rewrite Hj. split; [done|].
    assert (at_rest (finals_old old) (delete JournalPath d)); [|by split; [right|]].
    split; [apply lookup_delete_eq|]. intros i Hi. rewrite lookup_delete_ne by done. apply Hd; [done|apply not_elem_of_nil].
Qed.

Lemma recover_one_committed i E : (i ∈ managed) ->
  hoare (committed id new) (committed id new) (recover_one F (mkJournal id Committed (replicate 5 true)) i)
    (fun _ => committed id new) E.
Proof.
  intros Hi. unfold recover_one. cbn [transaction_id].
  eapply hoare_bind; [apply hoare_is_file|]. intros present. cbn beta.
  eapply hoare_bind; [apply hoare_is_file|]. intros backed. cbn beta. rewrite decide_committed by done.
  apply (hoare_bind _ _ _ _ _ (fun a d => a = RequirePublished /\ present = true /\ committed id new d)).
  { intros s (_ & -> & Hs). split; [constructor|]. pose proof Hs as [_ Hf]. by rewrite (Hf i Hi). }
  intros a. apply (hoare_bind _ _ _ _ _ (fun _ => committed id new)).
  { intros s (-> & -> & Hs). by split. }
  intros u. apply hoare_remove_quiet; [done|]. intros d [Hj Hf].
  assert (committed id new (delete (Backup id i) d)); [|done].
  split; [by untouched|]. intros k Hk. untouched. by apply Hf.
Qed.

Lemma recover_committed E : hoare (fun d => committed id new d \/ at_rest (finals_new new) d) (committed id new)
  (recover_interrupted F) (fun a d => a = Some id /\ at_rest (finals_new new) d) E.
Proof.
  eapply recover_journal; [by intros d [Hj _]|apply parse_committed_text|].
  unfold recover_with. apply (hoare_bind _ _ _ _ _ (fun _ => committed id new)).
  { eapply hoare_crash; [intros d; apply or_introl|]. apply (hoare_iter _ _ _ (fun _ => committed id new)).
    intros i r Hi. by apply recover_one_committed. }
  intros u. apply recover_end; [intros d Hd; by left| |].
  - intros d d' [Hj Hf] Hj' Hf' _. split; [congruence|]. intros k Hk. rewrite Hf'. by apply Hf.
  - intros d [Hj Hf]. rewrite Hj. split; [done|].
    assert (at_rest (finals_new new) (delete JournalPath d)); [|by split; [right|]].
    split; [apply lookup_delete_eq|]. intros i Hi. rewrite lookup_delete_ne by done. by apply Hf.
Qed.

(** With no journal there is nothing to do. *)
Lemma recover_at_rest (I E finals : directory -> Prop) :
  hoare I (at_rest finals) (recover_interrupted F) (fun a d => a = None /\ at_rest finals d) E.
Proof.
  intros s Hs. pose proof Hs as [Hj _]. unfold recover_interrupted, is_file, mbind, M_bind. rewrite Hj.
  split; [constructor|]. by split.
Qed.

(** From any state a crash leaves, recovery succeeds and ends with all the old
    files or all the new ones; so does recovery after a crash in recovery. *)
Lemma recover_crash_safe : hoare (crash_safe id old new) (crash_safe id old new) (recover_interrupted F)
  (fun _ d => at_rest (finals_old old) d \/ at_rest (finals_new new) d) (fun _ => False).
Proof.
  repeat apply hoare_or.
  - eapply hoare_weaken; [apply (recover_at_rest _ (fun _ => False) (finals_old old))|done| |done].
    intros a d [_ Hd]. by left.
  - eapply hoare_weaken; [eapply hoare_crash; [|apply (recover_prepared (fun _ => False))]|done| |done].
    + intros d [?|?]; [by right; left|by left].
    + intros a d [_ Hd]. by left.
  - eapply hoare_weaken; [eapply hoare_crash; [|apply (recover_committed (fun _ => False))]|done| |done].
    + intros d [?|?]; [by right; right; left|by right; right; right].
    + intros a d [_ Hd]. by right.
  - eapply hoare_weaken; [apply (recover_at_rest _ (fun _ => False) (finals_new new))|done| |done].
    intros a d [_ Hd]. by right.
Qed.

End Recovery.

Section Publishing.
Context (F : faults) (Hmeta : forall n, meta_fails F n = false).
Context (id : list Z) (old : nat -> option (list Z)) (new : nat -> list Z).

#[local] Lemma safe_rest d : at_rest (finals_old old) d -> crash_safe id old new d.
Proof. by left. Qed.
#[local] Lemma safe_publishing d : publishing id old d -> crash_safe id old new d.
Proof. intros H. right. left. by apply publishing_prepared. Qed.
#[local] Lemma safe_prepared d : prepared id old d -> crash_safe id old new d.
Proof. intros H. right. by left. Qed.
#[local] Lemma safe_committed d : committed id new d -> crash_safe id old new d.
Proof. intros H. right. right. by left. Qed.
#[local] Hint Resolve safe_rest safe_publishing safe_prepared safe_committed : arcen.

Definition old_backups : list nat := filter (fun i => is_some (old i) = true) managed.

Lemma elem_of_old_backups i : (i ∈ old_backups) <-> (i ∈ managed) /\ exists v, old i = Some v.
Proof.
  unfold old_backups. rewrite list_elem_of_filter. destruct (old i) as [v|]; simpl; [|by split; [intros []|intros [_ [? ?]]]].
  split; [intros [_ Hi]|intros [Hi _]]; eauto.
Qed.

(** While backups are taken: the backups outside [todo] are whole. *)
Definition backing (todo : list nat) (d : directory) : Prop :=
  at_rest (finals_old old) d
  /\ forall i, i ∈ managed -> (i ∉ todo -> d !! Backup id i = old i) /\ (old i = None -> d !! Backup id i = None).

Lemma at_rest_update d p v : at_rest (finals_old old) d -> p <> JournalPath -> (forall i, p <> Final i) ->
  at_rest (finals_old old) (partial_alter (fun _ => v) p d).
Proof.
  intros [Hj Hf] Hp Hpf. split; [by rewrite lookup_partial_alter_ne|]. intros i Hi.
  rewrite lookup_partial_alter_ne by done. by apply Hf.
Qed.

Lemma backing_write i r d b v : backing (i :: r) d -> old i = Some v -> backing (i :: r) (<[Backup id i := b]> d).
Proof.
  intros [Hr Hb] Ho. split; [by apply (at_rest_update d (Backup id i) (Some b) Hr)|].
  intros k Hk. destruct (Hb k Hk) as [H1 H2]. split.
  - intros Hkr. rewrite lookup_insert_ne; [auto|]. apply not_elem_of_cons in Hkr as [? _]. congruence.
  - intros Hn. rewrite lookup_insert_ne; [auto|]. congruence.
Qed.

Lemma begin_backups_takes l : (forall i, i ∈ l -> i ∈ managed) ->
  hoare (crash_safe id old new) (backing l) (begin_backups F id l)
    (fun a d => a = (map (fun i => is_some (old i)) l, filter (fun i => is_some (old i) = true) l) /\ backing [] d)
    (crash_safe id old new).
Proof.
  induction l as [|i l IH]; intros Hl; cbn [begin_backups].
  { apply hoare_ret. by split. }
  assert (i ∈ managed) as Hi by (apply Hl, elem_of_cons; by left).
  assert (forall k, k ∈ l -> k ∈ managed) as Hl' by (intros k Hk; apply Hl, elem_of_cons; by right).
  eapply hoare_bind; [apply hoare_is_file|]. intros present. cbn beta. destruct (old i) as [v|] eqn:Ho.
  - apply (hoare_weaken _ _ (fun d => present = true /\ backing (i :: l) d) _ (crash_safe id old new) _ _
      (fun a d => a = (map (fun i => is_some (old i)) (i :: l), filter (fun i => is_some (old i) = true) (i :: l)) /\ backing [] d)); try done.
    2:{ intros d [-> Hd]. split; [|done]. destruct Hd as [[_ Hf] _]. by rewrite (Hf i Hi), Ho. }
    destruct present; [|by intros s [? _]].
    apply (hoare_bind _ _ _ _ _ (fun _ => backing l)).
    + unfold copy. apply (hoare_bind _ _ _ _ _ (fun bytes d => bytes = v /\ backing (i :: l) d)).
      { intros s [_ Hs]. split; [constructor|]. pose proof Hs as [[_ Hf] _]. cbn. rewrite (Hf i Hi), Ho. by split. }
      intros bytes. eapply hoare_weaken.
      { apply (hoare_write_file F _ (fun d => bytes = v /\ backing (i :: l) d) (crash_safe id old new)).
        - intros d b [-> Hd]. pose proof (backing_write i l d b v Hd Ho) as Hd'. split; [|done]. apply safe_rest. by apply Hd'.
        - intros d [_ [Hd _]]. by left. }
      * done.
      * intros [] d [[-> Hd] Hb]. split; [by apply Hd|]. intros k Hk. destruct Hd as [_ Hd]. destruct (Hd k Hk) as [H1 H2].
        split; [|done]. intros Hkl. destruct (decide (k = i)) as [->|Hne]; [congruence|]. apply H1. by apply not_elem_of_cons.
      * done.
    + intros u. eapply hoare_bind; [by apply IH|]. intros [existed backups]. apply hoare_ret. intros d [[= -> ->] Hd].
      split; [|done]. cbn [map]. by rewrite Ho, filter_cons_True by (by rewrite Ho).
  - apply (hoare_weaken _ _ (fun d => present = false /\ backing (i :: l) d) _ (crash_safe id old new) _ _
      (fun a d => a = (map (fun i => is_some (old i)) (i :: l), filter (fun i => is_some (old i) = true) (i :: l)) /\ backing [] d)); try done.
    2:{ intros d [-> Hd]. split; [|done]. destruct Hd as [[_ Hf] _]. by rewrite (Hf i Hi), Ho. }
    destruct present; [by intros s [? _]|].
    eapply hoare_bind.
    { eapply hoare_weaken; [by apply IH| |done|done]. intros d [_ [Hr Hd]]. split; [done|]. intros k Hk.
      destruct (Hd k Hk) as [H1 H2]. split; [|done]. intros Hkl. destruct (decide (k = i)) as [->|Hne]; [by rewrite Ho, H2|].
      apply H1. by apply not_elem_of_cons. }
    intros [existed backups]. apply hoare_ret. intros d [[= -> ->] Hd]. split; [|done]. cbn [map].
    by rewrite Ho, filter_cons_False by (by rewrite Ho).
Qed.

(** A transaction begins with every backup whole and the journal written. *)
Lemma begin_prepares :
  hoare (crash_safe id old new) (backing managed) (begin F id)
    (fun t d => t = mkTransaction id old_backups /\ publishing id old d /\ finals_old old d) (crash_safe id old new).
Proof.
  unfold begin. eapply hoare_bind; [by apply begin_backups_takes|]. intros [existed backups].
  apply (hoare_bind _ _ _ _ _ (fun _ d => (existed, backups) = (old_flags old, old_backups) /\ publishing id old d /\ finals_old old d)).
  - apply hoare_write_private; [done| | | |].
    + intros d b [He [Hr Hb]].
      assert (backing [] (<[staging_for JournalPath := b]> d)) as Hd'.
      { split; [by apply (at_rest_update d JournalStaging (Some b) Hr)|]. intros k Hk. cbn [staging_for]. untouched. by apply Hb. }
      split; [apply safe_rest, Hd'|by split].
    + intros d [_ [Hd _]]. by left.
    + intros d [_ [Hd _]]. auto with arcen.
    + intros d [[= -> ->] [[Hj Hf] Hb]]. cbn [staging_for].
      assert (publishing id old (<[JournalPath := render (mkJournal id Prepared (old_flags old))]> (delete JournalStaging d))) as Hp.
      { split; [by rewrite lookup_insert_eq|]. intros k Hk. untouched. apply Hb; [done|apply not_elem_of_nil]. }
      split; [auto with arcen|]. repeat split; try apply Hp. intros k Hk. untouched. by apply Hf.
  - intros []. apply hoare_ret. intros d [[= -> ->] Hd]. by split.
Qed.

(** *** Publishing over a prepared transaction *)

(** The files of [written] have their new contents. *)
Definition published (written : list nat) (d : directory) : Prop :=
  publishing id old d /\ forall i, i ∈ written -> d !! Final i = Some (new i).

Lemma publish_file written i :
  hoare (crash_safe id old new) (published written) (write_private F (Final i) (new i))
    (fun _ => published (i :: written)) (publishing id old).
Proof.
  apply hoare_write_private; [done| |by intros d [? _]|by intros d [? _]|].
  - intros d b [[Hj Hb] Hf]. cbn [staging_for].
    assert (published written (<[Staging i := b]> d)) as Hd; [|split; [apply safe_publishing, Hd|done]].
    repeat split; [by untouched|intros k Hk; untouched; by apply Hb|intros k Hk; untouched; by apply Hf].
  - intros d [[Hj Hb] Hf]. cbn [staging_for].
    assert (published (i :: written) (<[Final i := new i]> (delete (Staging i) d))) as Hd; [|split; [apply safe_publishing, Hd|done]].
    repeat split; [by untouched|intros k Hk; untouched; by apply Hb|].
    intros k Hk. destruct (decide (k = i)) as [->|Hne]; [by rewrite lookup_insert_eq|]. untouched.
    apply Hf. by apply elem_of_cons in Hk as [?|?].
Qed.

Lemma publish_publishes pins_from_pem certificate key :
  match key with Some k => new KEY = k | None => old KEY = Some (new KEY) end ->
  new CERTIFICATE = certificate ->
  (forall pins, pins_from_pem certificate = Some pins ->
     new CERT_PIN = cert_pin_text pins.1 /\ new SPKI_PIN = pins.2 ++ [LF]
     /\ forall m, OwnershipMarker_new pins.1 pins.2 = Ok m -> new MARKER = marker_render m) ->
  hoare (crash_safe id old new) (fun d => publishing id old d /\ finals_old old d)
    (publish F pins_from_pem certificate key) (fun _ => published managed) (publishing id old).
Proof.
  intros Hkey Hcert Hpins. unfold publish.
  apply (hoare_bind _ _ _ _ _ (fun _ => published [KEY])).
  { destruct key as [k|].
    - rewrite <- Hkey. eapply hoare_weaken; [apply (publish_file [] KEY)| |done|done].
      intros d [Hd _]. split; [done|]. intros i Hi. by apply not_elem_of_nil in Hi.
    - apply hoare_ret. intros d [Hd Hf]. split; [done|]. intros i ->%list_elem_of_singleton.
      rewrite (Hf KEY) by (by apply elem_of_managed; unfold KEY; lia). done. }
  intros u. apply (hoare_bind _ _ _ _ _ (fun _ => published [CERTIFICATE; KEY])).
  { rewrite <- Hcert. apply publish_file. }
  intros u'. apply (hoare_bind _ _ _ _ _ (fun _ => published [SPKI_PIN; CERT_PIN; CERTIFICATE; KEY])).
  - unfold write_pins. apply (hoare_bind _ _ _ _ _ (fun pins d => pins_from_pem certificate = Some pins /\ published [CERTIFICATE; KEY] d)).
    { apply hoare_lift; [|by intros d [? _]]. intros pins d Hp Hd. destruct (pins_from_pem certificate); [|done]. by injection Hp as ->. }
    intros pins. apply (hoare_bind _ _ _ _ _ (fun _ d => pins_from_pem certificate = Some pins /\ published [CERT_PIN; CERTIFICATE; KEY] d)).
    + intros s [Hp Hs]. destruct (Hpins pins Hp) as (Hc & _ & _). rewrite <- Hc.
      destruct (publish_file [CERTIFICATE; KEY] CERT_PIN s Hs) as [Hl Hr]. split; [done|].
      destruct (_ s).2.2; [by split|done].
    + intros u''. intros s [Hp Hs]. destruct (Hpins pins Hp) as (_ & Hc & _). rewrite <- Hc.
      by apply (publish_file [CERT_PIN; CERTIFICATE; KEY] SPKI_PIN s).
  - intros u''. unfold write_marker.
    apply (hoare_bind _ _ _ _ _ (fun pins d => pins_from_pem certificate = Some pins /\ published [SPKI_PIN; CERT_PIN; CERTIFICATE; KEY] d)).
    { apply hoare_lift; [|by intros d [? _]]. intros pins d Hp Hd. destruct (pins_from_pem certificate); [|done]. by injection Hp as ->. }
    intros pins. apply (hoare_bind _ _ _ _ _ (fun m d => new MARKER = marker_render m /\ published [SPKI_PIN; CERT_PIN; CERTIFICATE; KEY] d)).
    { intros s [Hp Hs]. destruct (Hpins pins Hp) as (_ & _ & Hm). split; [constructor|]. cbn.
      destruct (OwnershipMarker_new pins.1 pins.2) as [m|] eqn:Em; [|by apply Hs]. split; [by apply Hm|done]. }
    intros m s [Hm Hs]. rewrite <- Hm.
    destruct (publish_file [SPKI_PIN; CERT_PIN; CERTIFICATE; KEY] MARKER s Hs) as [Hl Hr]. split; [done|].
    destruct (_ s).2.2; [|done]. destruct Hr as [Hr1 Hr2]. split; [done|].
    intros i Hi. apply Hr2. destruct (managed_cases i Hi) as [-> | [-> | [-> | [-> | ->]]]]; by repeat constructor.
Qed.

(** *** Committing *)

Lemma commit_commits : hoare (crash_safe id old new) (published managed) (commit F (mkTransaction id old_backups))
  (fun _ => at_rest (finals_new new)) (fun d => publishing id old d \/ committed id new d).
Proof.
  unfold commit. cbn [t_id t_backups].
  apply (hoare_bind _ _ _ _ _ (fun d0 d => map (fun i => is_some (d0 !! Final i)) managed = replicate 5 true /\ published managed d)).
  { intros s Hs. split; [constructor|]. cbn -[managed]. split; [|done]. pose proof Hs as [_ Hf].
    assert (forall i, (i < 5)%nat -> is_some (files s !! Final i) = true) as Hi.
    { intros i Hi. by rewrite Hf by (by apply elem_of_managed). }
    cbn. by rewrite !Hi by lia. }
  intros d0. apply (hoare_bind _ _ _ _ _ (fun _ => committed id new)).
  { apply hoare_write_private; [done| | | |].
    - intros d b [He [[Hj Hb] Hf]]. cbn [staging_for].
      assert (published managed (<[JournalStaging := b]> d)) as Hd; [|split; [apply safe_publishing, Hd|done]].
      repeat split; [by untouched|intros k Hk; untouched; by apply Hb|intros k Hk; untouched; by apply Hf].
    - intros d [_ [Hd _]]. by left.
    - intros d Hd. by right.
    - intros d [He [[Hj Hb] Hf]]. rewrite He. cbn [staging_for].
      assert (committed id new (<[JournalPath := committed_text id]> (delete JournalStaging d))) as Hd; [|auto with arcen].
      split; [by rewrite lookup_insert_eq|]. intros k Hk. untouched. by apply Hf. }
  intros u. apply (hoare_bind _ _ _ _ _ (fun _ => committed id new)).
  { apply (hoare_iter _ _ _ (fun _ => committed id new)). intros i r _. apply hoare_remove_quiet; [done|].
    intros d [Hj Hf]. assert (committed id new (delete (Backup id i) d)) as Hd; [|auto with arcen].
    split; [by untouched|]. intros k Hk. untouched. by apply Hf. }
  intros u'. apply hoare_remove; [done|]. intros d [Hj Hf]. rewrite Hj.
  assert (at_rest (finals_new new) (delete JournalPath d)) as Hd; [|split; [by right; right; right|done]].
  split; [apply lookup_delete_eq|]. intros k Hk. untouched. by apply Hf.
Qed.

(** *** Rolling back *)

(** The files with a backup outside [todo] are restored, and the backups of
    [todo] are in place, each file of [todo] being listed once. *)
Definition rolling (todo : list nat) (d : directory) : Prop :=
  prepared id old d /\ NoDup todo
  /\ (forall i, i ∈ todo -> (i ∈ managed) /\ exists v, old i = Some v /\ d !! Backup id i = Some v)
  /\ (forall i v, i ∈ managed -> old i = Some v -> i ∉ todo -> d !! Final i = Some v).

(** Removing the published file leaves the backups; so does restoring another. *)
Lemma rolling_remove i r d : rolling (i :: r) d -> rolling (i :: r) (delete (Final i) d).
Proof.
  intros ([Hj Hr] & Hnd & Hb & Hf). split_and!; [|done| |].
  - split; [by untouched|]. intros k Hk. specialize (Hr k Hk). unfold recoverable in *.
    destruct (decide (k = i)) as [->|Hne]; [|by untouched].
    destruct (Hb i) as (_ & v & Ho & Hv); [apply elem_of_cons; by left|]. rewrite Ho. left. by untouched.
  - intros k Hk. untouched. by apply Hb.
  - intros k v Hk Ho Hn. rewrite lookup_delete_ne; [by apply Hf|]. apply not_elem_of_cons in Hn as [? _]. congruence.
Qed.

Lemma rolling_restore i r d v : rolling (i :: r) d -> d !! Backup id i = Some v ->
  rolling r (<[Final i := v]> (delete (Backup id i) d)).
Proof.
  intros ([Hj Hr] & Hnd & Hb & Hf) Hv. apply NoDup_cons in Hnd as [Hir Hnd].
  destruct (Hb i) as (Hi & w & Ho & Hw); [apply elem_of_cons; by left|]. assert (w = v) as -> by congruence.
  split_and!; [|done| |].
  - split; [by untouched|]. intros k Hk. specialize (Hr k Hk). unfold recoverable in *.
    destruct (decide (k = i)) as [->|Hne]; [|by untouched].
    rewrite Ho. right. rewrite lookup_insert_eq. untouched. by rewrite lookup_delete_eq.
  - intros k Hk. untouched. apply Hb, elem_of_cons. by right.
  - intros k x Hk Hx Hn. destruct (decide (k = i)) as [->|Hne]; [rewrite lookup_insert_eq; congruence|].
    untouched. apply (Hf k x Hk Hx). by apply not_elem_of_cons.
Qed.

(** The files with a backup are restored, and the files of [todo] without one
    may still be there. *)
Definition sweeping (todo : list nat) (d : directory) : Prop :=
  prepared id old d /\ forall i, i ∈ managed -> (exists v, old i = Some v) \/ i ∉ todo -> d !! Final i = old i.

Lemma sweeping_remove i r d : sweeping (i :: r) d -> (old i = None) -> sweeping r (delete (Final i) d).
Proof.
  intros [[Hj Hr] Hf] Ho. split.
  - split; [by untouched|]. intros k Hk. specialize (Hr k Hk). unfold recoverable in *.
    destruct (decide (k = i)) as [->|Hne]; [rewrite Ho in *|]; by untouched.
  - intros k Hk Hn. destruct (decide (k = i)) as [->|Hne]; [by rewrite lookup_delete_eq|]. untouched. apply Hf; [done|].
    destruct Hn as [Hn|Hn]; [by left|right; by apply not_elem_of_cons].
Qed.

Lemma roll_back_restores E : hoare (crash_safe id old new) (publishing id old) (roll_back F (mkTransaction id old_backups))
  (fun _ => at_rest (finals_old old)) E.
Proof.
  unfold roll_back. cbn [t_id t_backups]. apply (hoare_bind _ _ _ _ _ (fun _ => rolling [])).
  { eapply (hoare_weaken _ _ (rolling old_backups) _ E _ _ (fun _ => rolling [])); [|intros d Hd; split_and!|done|done].
    - apply (hoare_iter _ _ _ rolling). intros i r _.
      apply (hoare_bind _ _ _ _ _ (fun _ => rolling (i :: r))).
      + apply hoare_remove_quiet; [done|]. intros d Hd. pose proof (rolling_remove i r d Hd) as Hd'.
        split; [apply safe_prepared, Hd'|done].
      + intros u. apply hoare_ignore, hoare_rename; [done|]. intros d Hd.
        pose proof Hd as (_ & _ & Hb & _). destruct (Hb i) as (_ & v & _ & Hv); [apply elem_of_cons; by left|].
        exists v. pose proof (rolling_restore i r d v Hd Hv) as Hd'. split_and!; [done|apply safe_prepared, Hd'|done].
    - by apply publishing_prepared.
    - apply NoDup_filter, NoDup_seq.
    - intros i [Hi (v & Hv)]%elem_of_old_backups. split; [done|]. exists v. split; [done|]. destruct Hd as [_ Hb]. by rewrite Hb.
    - intros i v Hi Hv Hn. destruct Hn. apply elem_of_old_backups. eauto. }
  intros u. apply (hoare_bind _ _ _ _ _ (fun _ => sweeping [])).
  { eapply (hoare_weaken _ _ (sweeping managed) _ E _ _ (fun _ => sweeping [])); [|intros d (Hp & _ & _ & Hf); split; [done|]|done|done].
    - apply (hoare_iter _ _ _ sweeping). intros i r Hi. case_bool_decide as Hb.
      + apply hoare_ret. intros d [Hp Hf]. split; [done|]. intros k Hk Hn. apply Hf; [done|].
        destruct Hn as [Hn|Hn]; [by left|]. destruct (decide (k = i)) as [->|Hne]; [|right; by apply not_elem_of_cons].
        left. by apply elem_of_old_backups in Hb as [_ ?].
      + apply hoare_remove_quiet; [done|]. intros d Hd. assert (old i = None) as Ho.
        { destruct (old i) as [v|] eqn:Ev; [|done]. destruct Hb. apply elem_of_old_backups. eauto. }
        pose proof (sweeping_remove i r d Hd Ho) as Hd'. split; [apply safe_prepared, Hd'|done].
    - intros i Hi [[v Hv]|Hn]; [|done]. rewrite Hv. apply (Hf i v Hi Hv), not_elem_of_nil. }
  intros u'. apply hoare_remove_quiet; [done|]. intros d [[Hj Hr] Hf].
  assert (at_rest (finals_old old) (delete JournalPath d)) as Hd; [|auto with arcen].
  split; [apply lookup_delete_eq|]. intros k Hk. untouched. apply Hf; [done|]. right. apply not_elem_of_nil.
Qed.

End Publishing.

(** ** Publishing is atomic *)

(** What publishing puts in each managed file. *)
Definition new_content (pins_from_pem : list Z -> option (list Z * list Z)) (d : directory)
    (certificate : list Z) (key : option (list Z)) (i : nat) : list Z :=
  let pins := default ([], []) (pins_from_pem certificate) in
  match i with
  | 0%nat => default (default [] (d !! Final KEY)) key
  | 1%nat => certificate
  | 2%nat => cert_pin_text pins.1
  | 3%nat => pins.2 ++ [LF]
  | _ => match OwnershipMarker_new pins.1 pins.2 with Ok m => marker_render m | Err _ => [] end
  end.

(** The directories left by running [m] from [d], to its end or to a crash,
    and then recovering any number of times, each recovery but the last cut
    off by a crash. *)
Inductive left_behind {A} (m : M A) (d : directory) : directory -> Prop :=
  | left_crash c : (c ∈ crashes m d) -> left_behind m d c
  | left_end : left_behind m d (outcome m d).1
  | left_again F c c' : left_behind m d c -> (forall n, meta_fails F n = false) ->
      (c' ∈ crashes (recover_interrupted F) c) -> left_behind m d c'.

Lemma settle_safe F (Hmeta : forall n, meta_fails F n = false) id old new publishing_ (P : directory -> Prop) :
  hoare (crash_safe id old new) P publishing_ (fun _ => published id old new managed) (publishing id old) ->
  hoare (crash_safe id old new) P (settle F (mkTransaction id (old_backups old)) publishing_)
    (fun _ => at_rest (finals_new new)) (crash_safe id old new).
Proof.
  intros Hm s Hs. destruct (Hm s Hs) as [Hl Hr]. unfold settle.
  destruct (publishing_ s) as [l [s' [[]|e]]]; simpl in *.
  - destruct (commit_commits F Hmeta id old new s' Hr) as [Hl' Hr'].
    destruct (commit _ _ s') as [l' [s'' [[]|e]]]; simpl in *; (split; [by apply Forall_app|]); [done|].
    destruct Hr' as [Hp|Hc]; [right; left; by apply publishing_prepared|by right; right; left].
  - destruct (roll_back_restores F Hmeta id old new (fun _ => False) s' Hr) as [Hl' Hr'].
    destruct (roll_back _ _ s') as [l' [s'' [[]|e']]]; simpl in *; (split; [by apply Forall_app|]); [by left|done].
Qed.

Lemma publish_in_transaction_safe F pins_from_pem id d certificate key :
  (forall n, meta_fails F n = false) ->
  (key = None -> is_some (d !! Final KEY) = true) ->
  let old i := d !! Final i in
  let new := new_content pins_from_pem d certificate key in
  hoare (crash_safe id old new) (backing id old managed) (publish_in_transaction F pins_from_pem id certificate key)
    (fun _ => at_rest (finals_new new)) (crash_safe id old new).
Proof.
  intros Hmeta Hkey old new. unfold publish_in_transaction.
  eapply hoare_bind; [by apply begin_prepares|]. intros t. cbn beta.
  apply (hoare_weaken _ _ (fun d => t = mkTransaction id (old_backups old) /\ publishing id old d /\ finals_old old d) _
    (crash_safe id old new) _ _ (fun _ => at_rest (finals_new new))); try done.
  intros s [-> Hs].
  refine (settle_safe F Hmeta id old new _ (fun d => publishing id old d /\ finals_old old d) _ s Hs).
  apply publish_publishes; try done.
  - destruct key as [k|]; [done|]. unfold old, new, new_content. cbn. specialize (Hkey eq_refl).
    by destruct (d !! Final KEY).
  - intros pins Hp. unfold new, new_content. rewrite Hp. cbn. repeat split; try done. by intros m ->.
Qed.

Lemma left_behind_safe F pins_from_pem id d certificate key c :
  (forall n, meta_fails F n = false) ->
  (key = None -> is_some (d !! Final KEY) = true) ->
  wf_journal (mkJournal id Prepared (replicate 5 true)) ->
  d !! JournalPath = None ->
  (forall i, i ∈ managed -> d !! Final i = None -> d !! Backup id i = None) ->
  left_behind (publish_in_transaction F pins_from_pem id certificate key) d c ->
  crash_safe id (fun i => d !! Final i) (new_content pins_from_pem d certificate key) c.
Proof.
  intros Hmeta Hkey Hid Hj Hfresh. pose proof (publish_in_transaction_safe F pins_from_pem id d certificate key Hmeta Hkey) as Hsafe.
  cbv zeta in Hsafe.
  assert (backing id (fun i => d !! Final i) managed d) as Hstart.
  { split; [by split|]. intros i Hi. split; [done|by apply Hfresh]. }
  destruct (Hsafe (mkFs d 0) Hstart) as [Hl Hr].
  induction 1 as [c Hc| |F' c c' Hc IH HF' Hc'].
  - apply elem_of_cons in Hc as [->|Hc]; [by left|]. by eapply Forall_forall in Hl.
  - unfold outcome. destruct (publish_in_transaction _ _ _ _ _ _) as [l [s [[]|e]]]; simpl in *; [by right; right; right|done].
  - assert (wf_journal (mkJournal id Prepared (old_flags (fun i => d !! Final i)))) as Hid'.
    { by destruct Hid as (? & ? & ? & _). }
    destruct (recover_crash_safe F' HF' id _ _ Hid' (mkFs c 0) IH) as [Hl' _].
    apply elem_of_cons in Hc' as [->|Hc']; [done|]. by eapply Forall_forall in Hl'.
Qed.

(** C2: Publishing a certificate is atomic under crashes.  Start from a
    directory with no transaction in progress, let the operations that need
    space fail as they will, and let the run stop anywhere, in a torn write
    too, and so each recovery that follows.  Then a recovery that is not cut
    off succeeds and leaves no journal and either all five managed files as
    they were, absent ones absent, or all five new: the certificate, its two
    pins, the marker and the key, which is the old key when none was given.  A
    run that reports success has left the new ones. *)
Theorem publish_is_atomic (F F' : faults) (pins_from_pem : list Z -> option (list Z * list Z))
    (id certificate : list Z) (key : option (list Z)) (d c : directory)
  (Hmeta : forall n, meta_fails F n = false) (Hmeta' : forall n, meta_fails F' n = false)
  (Hid : id <> [] /\ Forall (fun x => id_character x = true) id)
  (Hrest : d !! JournalPath = None)
  (Hfresh : forall i, i ∈ managed -> d !! Final i = None -> d !! Backup id i = None)
  (Hkey : key = None -> is_some (d !! Final KEY) = true) :
  let run := publish_in_transaction F pins_from_pem id certificate key in
  let new := new_content pins_from_pem d certificate key in
  (left_behind run d c ->
     exists d' r, outcome (recover_interrupted F') c = (d', Ok r) /\ d' !! JournalPath = None
       /\ ((forall i, i ∈ managed -> d' !! Final i = d !! Final i)
           \/ (forall i, i ∈ managed -> d' !! Final i = Some (new i))))
  /\ (forall d', outcome run d = (d', Ok tt) ->
        d' !! JournalPath = None /\ forall i, i ∈ managed -> d' !! Final i = Some (new i)).
Proof.
  intros run new. assert (wf_journal (mkJournal id Prepared (replicate 5 true))) as Hwf
    by (destruct Hid; by apply id_fits).
  split.
  - intros Hc. apply left_behind_safe in Hc; try done.
    assert (wf_journal (mkJournal id Prepared (old_flags (fun i => d !! Final i)))) as Hid'.
    { by destruct Hwf as (? & ? & ? & _). }
    destruct (recover_crash_safe F' Hmeta' id _ _ Hid' (mkFs c 0) Hc) as [_ Hr]. unfold outcome.
    destruct (recover_interrupted F' (mkFs c 0)) as [l [s [r|e]]]; simpl in *; [|done].
    exists (files s), r. split; [done|]. destruct Hr as [[Hj Hf]|[Hj Hf]]; (split; [done|]); [by left|by right].
  - intros d' Hd'. pose proof (publish_in_transaction_safe F pins_from_pem id d certificate key Hmeta Hkey) as Hsafe.
    destruct (Hsafe (mkFs d 0)) as [_ Hr].
    { split; [by split|]. intros i Hi. split; [done|by apply Hfresh]. }
    unfold outcome, run in Hd'. destruct (publish_in_transaction _ _ _ _ _ _) as [l [s [[]|e]]]; simpl in *; [|done].
    injection Hd' as <-. by destruct Hr.
Qed.

(** A directory with an old key and certificate, and a run whose second
    backup is torn. *)
Definition sample_directory : directory := <[Final 0 := [1; 1]]> (<[Final 1 := [2; 2]]> ∅).
Definition no_faults : faults := mkFaults (fun _ => false) (fun _ => false) (fun _ => 1%nat).
Definition sample_pins (pem : list Z) : option (list Z * list Z) := Some (string_bytes "ab", string_bytes "sha256/cd").

Lemma publish_is_atomic_witness :
  left_behind (publish_in_transaction no_faults sample_pins (string_bytes "7-9") [5; 5] None) sample_directory
    (nth 20 (crashes (publish_in_transaction no_faults sample_pins (string_bytes "7-9") [5; 5] None) sample_directory) ∅)
  /\ exists d', (outcome (recover_interrupted no_faults)
       (nth 20 (crashes (publish_in_transaction no_faults sample_pins (string_bytes "7-9") [5; 5] None) sample_directory) ∅)).1 = d'
     /\ d' !! JournalPath = None.
Proof.
  assert (left_behind (publish_in_transaction no_faults sample_pins (string_bytes "7-9") [5; 5] None) sample_directory
    (nth 20 (crashes (publish_in_transaction no_faults sample_pins (string_bytes "7-9") [5; 5] None) sample_directory) ∅)) as Hc.
  { apply left_crash. apply list_elem_of_In, nth_In. vm_compute. lia. }
  split; [exact Hc|].
  pose proof (publish_is_atomic no_faults no_faults sample_pins (string_bytes "7-9") [5; 5] None sample_directory
    (nth 20 (crashes (publish_in_transaction no_faults sample_pins (string_bytes "7-9") [5; 5] None) sample_directory) ∅)) as H.
  destruct H as [H _].
  - reflexivity.
  - reflexivity.
  - split; [discriminate|]. repeat constructor.
  - reflexivity.
  - intros i Hi _. destruct (managed_cases i Hi) as [-> | [-> | [-> | [-> | ->]]]]; reflexivity.
  - reflexivity.
  - destruct (H Hc) as (d' & r & Ho & Hj & _). exists d'. split; [|exact Hj]. rewrite Ho. reflexivity.
Defined.

(** ** What the transaction does not cover *)

(** A run that dies between its backups and its journal leaves a copy of the
    private key that no later run removes: recovery acts only on a journal. *)
Lemma key_backup_outlives_recovery :
  exists c, (c ∈ crashes (publish_in_transaction no_faults sample_pins (string_bytes "7-9") [5; 5] None) sample_directory)
    /\ c !! Backup (string_bytes "7-9") 0 = sample_directory !! Final KEY
    /\ c !! JournalPath = None
    /\ outcome (recover_interrupted no_faults) c = (c, Ok None).
Proof.
  exists (nth 3 (crashes (publish_in_transaction no_faults sample_pins (string_bytes "7-9") [5; 5] None) sample_directory) ∅).
  split; [apply list_elem_of_In, nth_In; vm_compute; lia|]. by split_and!; vm_compute.
Qed.

(** A rename that fails while rolling back loses the file: the journal is
    removed all the same, and the next recovery finds nothing to do. *)
Definition rename_fault : faults :=
  mkFaults (fun n => bool_decide (n = 12%nat)) (fun n => bool_decide (n = 14%nat)) (fun _ => 1%nat).

Lemma roll_back_loses_record :
  exists d, outcome (publish_in_transaction rename_fault sample_pins (string_bytes "7-9") [5; 5] None) sample_directory = (d, Err Io)
    /\ d !! Final KEY = None /\ d !! JournalPath = None
    /\ outcome (recover_interrupted no_faults) d = (d, Ok None).
Proof.
  exists (outcome (publish_in_transaction rename_fault sample_pins (string_bytes "7-9") [5; 5] None) sample_directory).1.
  by split_and!; vm_compute.
Qed.
