(* ===== verification/CertProvision.v ===== *)
(** * Hosts: provisioning certificate material on macOS

    Models [inspect] and [provision] of [hosts/macos/src/host_cert.rs]: recover
    what was interrupted, look at the directory, let the shared policy
    ([CertJournal]) decide, and publish ([CertPublish]) what it decided.  X.509
    parsing, hashing and key generation are the parameter [crypto]. *)

From stdpp Require Import strings gmap.
From S2P Require Import Prelude Utf8 RustText CertMarker CertJournal CertPublish.

Record ProvisioningOutcome := mkOutcome {
  o_action : ProvisioningAction; invalidated_pins : bool; certificate_sha256 : list Z
}.

(** What X.509 parsing, hashing and key generation give: the pins of a
    certificate, its validity window, whether it has the profile of an old
    installer given whether its companion pins match, and a new certificate
    and key, over an old key when there is one. *)
Record crypto := mkCrypto {
  pins_from_pem : list Z -> option (list Z * list Z);
  validity_from_pem : list Z -> option ValidityWindow;
  is_legacy_profile : list Z -> bool -> bool;
  generate : option (list Z) -> result CertError (list Z * list Z)
}.

Section Provisioning.
Context (F : faults) (X : crypto).

Definition RENEW_WITHIN_DAYS : Z := 30.

Definition inspect_validity (pem : list Z) (now : Z) : bool * bool :=
  match validity_from_pem X pem with
  | None => (false, false)
  | Some window =>
    let now := if now <? 2 ^ 63 then now else 2 ^ 63 - 1 in
    (is_current window now, is_due_for_renewal window now (RENEW_WITHIN_DAYS * 24 * 60 * 60))
  end.

Definition marker_describes (d : directory) (certificate : list Z) : bool :=
  match d !! Final MARKER with
  | None => false
  | Some recorded =>
    match marker_parse recorded, pins_from_pem X certificate with
    | Ok marker, Some pins => marker_matches marker pins.1 pins.2
    | _, _ => false
    end
  end.

Definition companion_pins_match (certificate certificate_pin_text spki_pin_text : list Z) : bool :=
  match pins_from_pem X certificate with
  | None => false
  | Some pins =>
    bool_decide (normalize_certificate_pin certificate_pin_text = Some pins.1)
    && bool_decide (normalize_spki_pin spki_pin_text = Some pins.2)
  end.

Definition legacy_companion (d : directory) (certificate : list Z) : bool :=
  match d !! Final CERT_PIN, d !! Final SPKI_PIN with
  | Some c, Some s => companion_pins_match certificate c s
  | _, _ => false
  end.

Definition has_stale_staging (d : directory) : bool := existsb (fun i => is_some (d !! Staging i)) managed.

Definition inspect (d : directory) (now : Z) : MaterialState :=
  let certificate := d !! Final CERTIFICATE in
  if negb (is_some certificate) && negb (is_some (d !! Final KEY)) then
    mkMaterial false false None false false (has_stale_staging d) false
  else
    let validity := match certificate with Some bytes => inspect_validity bytes now | None => (false, false) end in
    mkMaterial (is_some certificate) (is_some (d !! Final KEY))
      (bytes ← certificate; Some (if negb (is_some (d !! Final MARKER)) then Foreign
                                  else if marker_describes d bytes then Owned else Ambiguous))
      validity.1 validity.2 (has_stale_staging d)
      (match certificate with Some bytes => is_legacy_profile X bytes (legacy_companion d bytes) | None => false end).

Definition reported_pin (pem : list Z) : list Z :=
  match pins_from_pem X pem with Some pins => pins.1 | None => string_bytes "unavailable" end.

Definition clear_staging_files : M unit :=
  iter (fun i => present ← is_file (Staging i);
                 if (present : bool) then remove_file F (Staging i) else mret tt) managed.

Definition reissue (id : list Z) (p : ProvisioningPlan) : M ProvisioningOutcome :=
  key ← read (Final KEY);
  generated ← lift (generate X (Some key));
  _ ← publish_in_transaction F (pins_from_pem X) id generated.1 None;
  mret (mkOutcome (action p) (invalidates_pins p) (reported_pin generated.1)).

Definition carry_out (id : list Z) (p : ProvisioningPlan) : M ProvisioningOutcome :=
  match action p with
  | KeepExisting =>
    bytes ← read (Final CERTIFICATE);
    mret (mkOutcome (action p) (invalidates_pins p) (reported_pin bytes))
  | AdoptAndRenew | RenewPreservingKey => reissue id p
  | CreateNew | ReplaceKeyAndCertificate =>
    generated ← lift (generate X None);
    _ ← publish_in_transaction F (pins_from_pem X) id generated.1 (Some generated.2);
    mret (mkOutcome (action p) (invalidates_pins p) (reported_pin generated.1))
  end.

(** [now] gives both the clock and, with the process, the transaction [id]. *)
Definition provision (request : ProvisioningRequest) (id : list Z) (now : Z) : M ProvisioningOutcome :=
  _ ← recover_interrupted F;
  d ← get;
  p ← lift (match plan request (inspect (d : directory) now) with Ok p => Ok p | Err r => Err (Refused r) end);
  _ ← (if clear_stale_staging p then clear_staging_files else mret tt);
  carry_out id p.

End Provisioning.

(** ** What a run that succeeds did *)

Lemma hoare_true {A} (m : M A) : hoare (fun _ => True) (fun _ => True) m (fun _ _ => True) (fun _ => True).
Proof. intros s _. split; [by apply Forall_true|]. by destruct (m s).2.2. Qed.

(** A publication that succeeds had pins and a marker to write. *)
Lemma publish_ok_pins F pins certificate key :
  hoare (fun _ => True) (fun _ => True) (publish F pins certificate key)
    (fun _ _ => exists p m, pins certificate = Some p /\ OwnershipMarker_new p.1 p.2 = Ok m) (fun _ => True).
Proof.
  unfold publish. eapply hoare_bind; [apply hoare_true|]. intros []. cbn beta.
  eapply hoare_bind; [apply hoare_true|]. intros []. cbn beta.
  eapply hoare_bind; [apply hoare_true|]. intros []. cbn beta.
  unfold write_marker. eapply (hoare_bind _ _ _ _ _ (fun p _ => pins certificate = Some p)).
  { apply hoare_lift; [|done]. intros p d Hp _. by apply ok_or_Ok in Hp. }
  intros p. eapply (hoare_bind _ _ _ _ _ (fun m _ => pins certificate = Some p /\ OwnershipMarker_new p.1 p.2 = Ok m)).
  { intros s Hp. split; [constructor|]. cbn. by destruct (OwnershipMarker_new p.1 p.2). }
  intros m s [Hp Hm]. split; [by apply Forall_true|]. destruct (_ s).2.2; eauto.
Qed.

Lemma publish_in_transaction_ok_pins F pins id certificate key :
  hoare (fun _ => True) (fun _ => True) (publish_in_transaction F pins id certificate key)
    (fun _ _ => exists p m, pins certificate = Some p /\ OwnershipMarker_new p.1 p.2 = Ok m) (fun _ => True).
Proof.
  unfold publish_in_transaction. eapply hoare_bind; [apply hoare_true|]. intros t s _.
  split; [by apply Forall_true|]. unfold settle.
  destruct (publish_ok_pins F pins certificate key s I) as [_ Hr].
  destruct (publish F pins certificate key s) as [l [s' [[]|e]]]; simpl in *.
  - destruct (commit F t s') as [l' [s'' [[]|e]]]; simpl; [done|done].
  - by destruct (roll_back F t s') as [l' [s'' r]].
Qed.

Lemma hoare_and {A} (I P1 P2 E1 E2 : directory -> Prop) (m : M A) Q1 Q2 :
  hoare I P1 m Q1 E1 -> hoare (fun _ => True) P2 m Q2 E2 ->
  hoare I (fun d => P1 d /\ P2 d) m (fun a d => Q1 a d /\ Q2 a d) (fun d => E1 d /\ E2 d).
Proof.
  intros H1 H2 s [Hs1 Hs2]. destruct (H1 s Hs1) as [Hl Hr1], (H2 s Hs2) as [_ Hr2]. split; [done|].
  by destruct (m s).2.2.
Qed.

Section Run.
Context (F : faults) (Hmeta : forall n, meta_fails F n = false) (X : crypto) (id : list Z) (d0 : directory).
Context (Hfresh : forall i, i ∈ managed -> d0 !! Final i = None -> d0 !! Backup id i = None).

(** Nothing has changed but staging files. *)
Definition untouched_but_staging (d : directory) : Prop :=
  d !! JournalPath = None /\ (forall i, d !! Final i = d0 !! Final i) /\ (forall i, d !! Backup id i = d0 !! Backup id i).

Definition any (d : directory) : Prop := True.

(** What a publication from there leaves when it succeeds. *)
Definition issued (certificate : list Z) (key : option (list Z)) (d : directory) : Prop :=
  at_rest (finals_new (new_content (pins_from_pem X) d0 certificate key)) d
  /\ exists p m, pins_from_pem X certificate = Some p /\ OwnershipMarker_new p.1 p.2 = Ok m.

Lemma publish_issues certificate key :
  (key = None -> is_some (d0 !! Final KEY) = true) ->
  hoare any untouched_but_staging (publish_in_transaction F (pins_from_pem X) id certificate key)
    (fun _ => issued certificate key) any.
Proof.
  intros Hkey s Hs. pose proof Hs as (Hj & Hf & Hb).
  assert (key = None -> is_some (files s !! Final KEY) = true) as Hkey' by (by rewrite Hf).
  destruct (publish_in_transaction_safe F (pins_from_pem X) id (files s) certificate key Hmeta Hkey' s) as [_ Hr].
  { split; [by split|]. intros i Hi. split; [done|]. rewrite Hf, Hb. by apply Hfresh. }
  destruct (publish_in_transaction_ok_pins F (pins_from_pem X) id certificate key s I) as [_ Hr'].
  split; [by apply Forall_true|]. destruct (_ s).2.2 as [[]|]; [|done]. split; [|done].
  destruct Hr as [Hj' Hn]. split; [done|]. intros i Hi. rewrite Hn by done.
  unfold new_content. by rewrite Hf.
Qed.

(** The outcome of a plan. *)
Definition carried_out (p : ProvisioningPlan) (o : ProvisioningOutcome) (d : directory) : Prop :=
  o_action o = action p /\ invalidated_pins o = invalidates_pins p
  /\ match action p with
     | KeepExisting => untouched_but_staging d
     | AdoptAndRenew | RenewPreservingKey => exists certificate, issued certificate None d
     | CreateNew | ReplaceKeyAndCertificate => exists certificate key, issued certificate (Some key) d
     end.

Lemma carry_out_plan p : hoare any untouched_but_staging (carry_out F X id p) (carried_out p) any.
Proof.
  assert (action p = AdoptAndRenew \/ action p = RenewPreservingKey ->
    hoare any untouched_but_staging (reissue F X id p) (carried_out p) any) as Hreissue.
  { intros Ha. unfold reissue.
    apply (hoare_bind _ _ _ _ _ (fun key d => is_some (d0 !! Final KEY) = true /\ untouched_but_staging d)).
    { intros s Hs. split; [constructor|]. pose proof Hs as (_ & Hf & _). cbn. rewrite Hf. by destruct (d0 !! Final KEY). }
    intros key. apply (hoare_bind _ _ _ _ _ (fun _ d => is_some (d0 !! Final KEY) = true /\ untouched_but_staging d)).
    { by apply hoare_lift. }
    intros generated. apply (hoare_bind _ _ _ _ _ (fun _ => issued generated.1 None)).
    { intros s [Hk Hs]. by apply publish_issues. }
    intros u. apply hoare_ret. intros d Hd. split; [done|]. split; [done|].
    destruct Ha as [-> | ->]; eauto. }
  assert (action p = CreateNew \/ action p = ReplaceKeyAndCertificate ->
    hoare any untouched_but_staging (generated ← lift (generate X None);
      _ ← publish_in_transaction F (pins_from_pem X) id generated.1 (Some generated.2);
      mret (mkOutcome (action p) (invalidates_pins p) (reported_pin X generated.1))) (carried_out p) any) as Hcreate.
  { intros Ha. apply (hoare_bind _ _ _ _ _ (fun _ => untouched_but_staging)); [by apply hoare_lift|].
    intros generated. apply (hoare_bind _ _ _ _ _ (fun _ => issued generated.1 (Some generated.2))); [by apply publish_issues|].
    intros u. apply hoare_ret. intros d Hd. split; [done|]. split; [done|].
    destruct Ha as [-> | ->]; eauto. }
  unfold carry_out. destruct (action p) eqn:Ha; try (apply Hreissue; tauto); try (apply Hcreate; tauto).
  apply (hoare_bind _ _ _ _ _ (fun _ => untouched_but_staging)).
  { intros s Hs. split; [constructor|]. cbn. by destruct (files s !! Final CERTIFICATE). }
  intros bytes. apply hoare_ret. intros d Hd. unfold carried_out. by rewrite Ha.
Qed.

Lemma clear_staging_files_only : hoare any untouched_but_staging (clear_staging_files F) (fun _ => untouched_but_staging) any.
Proof.
  apply (hoare_iter any any _ (fun _ => untouched_but_staging)). intros i r _.
  eapply hoare_bind; [apply hoare_is_file|]. intros present. cbn beta. destruct present; [|apply hoare_ret; by intros d [_ Hd]].
  apply hoare_remove; [done|]. intros d [_ (Hj & Hf & Hb)]. destruct (d !! Staging i); [|done]. split; [done|].
  repeat split; intros; untouched; auto.
Qed.

(** A whole run from a directory with no transaction in progress. *)
Lemma provision_carries_out request now :
  d0 !! JournalPath = None ->
  hoare any (fun d => d = d0) (provision F X request id now)
    (fun o d => exists p, plan request (inspect X d0 now) = Ok p /\ carried_out p o d) any.
Proof.
  intros Hj. unfold provision. apply (hoare_bind _ _ _ _ _ (fun _ d => d = d0)).
  { eapply hoare_weaken; [apply (recover_at_rest F any any (fun d => d = d0))| | |done].
    - by intros d ->.
    - by intros a d [_ [_ ?]]. }
  intros u. eapply hoare_bind; [apply hoare_get|]. intros d. cbn beta.
  apply (hoare_bind _ _ _ _ _ (fun p d => plan request (inspect X d0 now) = Ok p /\ untouched_but_staging d)).
  { intros s [-> Hs]. split; [constructor|]. cbn. rewrite Hs.
    destruct (plan request (inspect X d0 now)) as [p|r]; [|done]. by repeat split. }
  intros p. apply (hoare_bind _ _ _ _ _ (fun _ d => plan request (inspect X d0 now) = Ok p /\ untouched_but_staging d)).
  { intros s [Hp Hs]. destruct (clear_stale_staging p); [|split; [constructor|by split]].
    destruct (clear_staging_files_only s Hs) as [Hl Hr]. split; [done|].
    destruct (_ s).2.2; [by split|done]. }
  intros u'. intros s [Hp Hs]. destruct (carry_out_plan p s Hs) as [Hl Hr]. split; [done|].
  destruct (_ s).2.2 as [o|]; [by exists p|done].
Qed.

End Run.

(** Material just issued is recognised as this host's own. *)
Lemma issued_is_owned X d0 certificate key d now :
  (forall pem pins, pins_from_pem X pem = Some pins -> LF ∉ pins.2) ->
  issued X d0 certificate key d ->
  ownership (inspect X d now) = Some Owned /\ is_complete (inspect X d now) = true.
Proof.
  intros Hone [[Hj Hf] (p & m & Hp & Hm)].
  assert (forall i, (i < 5)%nat -> d !! Final i = Some (new_content (pins_from_pem X) d0 certificate key i)) as Hi.
  { intros i Hi. by apply Hf, elem_of_managed. }
  assert (marker_describes X d certificate = true) as Hmark.
  { unfold marker_describes, MARKER. rewrite Hi by lia. rewrite Hp.
    replace (new_content (pins_from_pem X) d0 certificate key 4) with (marker_render m)
      by (unfold new_content; rewrite Hp; unfold default, from_option, id; by rewrite Hm).
    rewrite (marker_new_parses m p.1 p.2); [by apply marker_matches_new|done|].
    apply OwnershipMarker_new_Ok in Hm as [_ Hs]. apply normalize_spki_pin_Some in Hs as (digest & -> & _ & _ & Hsub).
    intros [Hin|Hin]%elem_of_app; [|by apply (Hone _ _ Hp), Hsub]. revert Hin. by apply (bool_decide_unpack _). }
  unfold inspect, CERTIFICATE, KEY, MARKER in *. rewrite !Hi by lia. cbn [is_some negb andb].
  unfold is_complete. cbn [ownership certificate_present key_present mbind option_bind].
  change (new_content (pins_from_pem X) d0 certificate key 1) with certificate.
  by rewrite Hmark.
Qed.

(** C16: A provisioning run keeps what clients trust unless it was asked not
    to, and owns what it writes.  From a directory with no transaction in
    progress, a run that succeeds took the action the shared policy decides
    for what was there; unless it reports that pins are invalidated the
    private key is the one that was there, and it reports so only when the
    directory was empty or a rekey was asked for; a run that keeps the
    material changes no managed file; and after a run that writes, the
    directory holds a complete pair this host recognises as its own, so that
    the marker it wrote is the one it will check. *)
Theorem provision_keeps_trust (F : faults) (X : crypto) (id : list Z) (request : ProvisioningRequest) (now now' : Z)
    (d d' : directory) (o : ProvisioningOutcome)
  (Hmeta : forall n, meta_fails F n = false)
  (Hpins : forall pem pins, pins_from_pem X pem = Some pins -> LF ∉ pins.2)
  (Hrest : d !! JournalPath = None)
  (Hfresh : forall i, i ∈ managed -> d !! Final i = None -> d !! Backup id i = None)
  (Hrun : outcome (provision F X request id now) d = (d', Ok o)) :
  (exists p, plan request (inspect X d now) = Ok p /\ o_action o = action p /\ invalidated_pins o = invalidates_pins p)
  /\ (invalidated_pins o = false -> d' !! Final KEY = d !! Final KEY)
  /\ (invalidated_pins o = true ->
        (request = Ensure /\ is_absent (inspect X d now) = true) \/ request = Rekey)
  /\ (writes_material (o_action o) = false -> forall i, d' !! Final i = d !! Final i)
  /\ (writes_material (o_action o) = true ->
        ownership (inspect X d' now') = Some Owned /\ is_complete (inspect X d' now') = true).
Proof.
  destruct (provision_carries_out F Hmeta X id d Hfresh request now Hrest (mkFs d 0) eq_refl) as [_ Hr].
  unfold outcome in Hrun. destruct (provision F X request id now (mkFs d 0)) as [l [s [o'|e]]]; simpl in *; [|done].
  injection Hrun as <- <-. destruct Hr as (p & Hp & Ha & Hi & Hc). split_and!.
  - by exists p.
  - rewrite Hi. intros Hinv. assert (forall c, issued X d c None (files s) -> files s !! Final KEY = d !! Final KEY) as Hkey.
    { intros c [[_ Hf] _]. rewrite (Hf KEY) by (by apply elem_of_managed; unfold KEY; lia).
      cbn. assert (is_some (d !! Final KEY) = true) as Hs; [|by destruct (d !! Final KEY)].
      unfold plan in Hp. destruct (is_partial (inspect X d now)) eqn:Ep; [done|].
      destruct (plan_action request (inspect X d now)) as [a|] eqn:Epa; [|done]. injection Hp as <-. cbn in *.
      assert (is_complete (inspect X d now) = true) as Hcm.
      { unfold plan_action in Epa. destruct (is_complete (inspect X d now)); [done|].
        destruct request; try done. injection Epa as <-. done. }
      unfold is_complete, inspect in Hcm. destruct (d !! Final KEY); [done|].
      destruct (d !! Final CERTIFICATE); cbn in Hcm; by rewrite ?andb_false_r in Hcm. }
    destruct (action p) eqn:Eact; try (destruct Hc as (c & Hc); by apply (Hkey c)).
    + by apply Hc.
    + unfold plan in Hp. destruct (is_partial _); [done|]. destruct (plan_action _ _); [|done]. injection Hp as <-.
      cbn in *. by subst.
    + unfold plan in Hp. destruct (is_partial _); [done|]. destruct (plan_action _ _); [|done]. injection Hp as <-.
      cbn in *. by subst.
  - rewrite Hi. intros Hinv. apply (plan_invalidates _ _ _ Hp) in Hinv. tauto.
  - rewrite Ha. intros Hw. destruct (action p); try done. by apply Hc.
  - rewrite Ha. intros Hw. destruct (action p); try done;
      (destruct Hc as (c & Hc) || destruct Hc as (c & k & Hc)); try (by eapply issued_is_owned); destruct Hc as (k & Hc);
      by eapply issued_is_owned.
Qed.

(** A certificate is its two-byte name; the pins follow it. *)
Definition sample_crypto : crypto :=
  mkCrypto sample_pins (fun _ => Some (mkValidity 0 100000000)) (fun _ _ => false) (fun key => Ok ([8; 8], default [9] key)).

Definition sample_marked : directory :=
  <[Final 4 := marker_render (mkMarker (string_bytes "ab") (string_bytes "sha256/cd"))]> sample_directory.

Lemma provision_keeps_trust_witness :
  exists d' o, outcome (provision no_faults sample_crypto Renew (string_bytes "7-9") 5) sample_marked = (d', Ok o)
    /\ invalidated_pins o = false /\ d' !! Final KEY = Some [1; 1] /\ d' !! Final CERTIFICATE = Some [8; 8]
    /\ ownership (inspect sample_crypto d' 6) = Some Owned.
Proof.
  exists (outcome (provision no_faults sample_crypto Renew (string_bytes "7-9") 5) sample_marked).1,
    (mkOutcome RenewPreservingKey false (string_bytes "ab")).
  assert (outcome (provision no_faults sample_crypto Renew (string_bytes "7-9") 5) sample_marked
    = ((outcome (provision no_faults sample_crypto Renew (string_bytes "7-9") 5) sample_marked).1,
       Ok (mkOutcome RenewPreservingKey false (string_bytes "ab")))) as Hrun by (vm_compute; reflexivity).
  split; [exact Hrun|]. split; [reflexivity|].
  destruct (provision_keeps_trust no_faults sample_crypto (string_bytes "7-9") Renew 5 6 sample_marked _ _
    ltac:(reflexivity) ltac:(intros pem pins [= <-]; apply (bool_decide_unpack _); vm_compute; exact I) ltac:(reflexivity)
    ltac:(intros i Hi _; destruct (managed_cases i Hi) as [-> | [-> | [-> | [-> | ->]]]]; reflexivity) Hrun)
    as (_ & Hk & _ & _ & Ho).
  split; [rewrite Hk; reflexivity|]. split; [vm_compute; reflexivity|]. apply Ho. reflexivity.
Defined.
