(* ===== verification/IdentityGrants.v ===== *)
(** * Identity: disclaimers, online identity and session grants

    Models [shared/identity/src/lib.rs]: the disclaimer a user acknowledges
    before signing in, the validation of an online identity's claims, and the
    short-lived session grant with its signature and its one-time consumption.
    A [String] is the list of its UTF-8 bytes.  SHA-256 and signature
    verification belong to third-party code and adapters: they are
    parameters; the replay store is the interface [GrantReplayConsumer]. *)

From stdpp Require Import strings gmap.
From S2P Require Import Prelude Utf8.

Definition MAX_SESSION_GRANT_LIFETIME_SECONDS : Z := 300.
Definition SESSION_GRANT_VERSION_V1 : Z := 1.
Definition MAX_GRANT_BINDING_VALUE_BYTES : Z := 512.
Definition MAX_DISCLAIMER_CONTENT_BYTES : Z := 16 * 1024.
Definition MAX_DISCLAIMER_LOCALE_BYTES : Z := 64.

Definition text := list Z.

(** ** Disclaimers *)

Inductive DisclaimerError :=
  EmptyLocale | LocaleTooLong | UnsafeLocale | EmptyContent | ContentTooLarge | InvalidUtf8 | InvalidDigest.
#[global] Instance DisclaimerError_eq_dec : EqDecision DisclaimerError. Proof. solve_decision. Defined.

Definition is_alphanumeric (b : Z) : bool :=
  ((65 <=? b) && (b <=? 90)) || ((97 <=? b) && (b <=? 122)) || ((48 <=? b) && (b <=? 57)).

(** The loop of [DisclaimerLocale::new], from the length of the current segment. *)
Fixpoint locale_segments (segment_len : Z) (value : text) : result DisclaimerError Z :=
  match value with
  | [] => Ok segment_len
  | b :: r =>
    if is_alphanumeric b then locale_segments (segment_len + 1) r
    else if ((b =? 95) || (b =? 45)) && (0 <? segment_len) then locale_segments 0 r
    else Err UnsafeLocale
  end.

Definition DisclaimerLocale_new (value : text) : result DisclaimerError text :=
  if bool_decide (value = []) then Err EmptyLocale
  else if MAX_DISCLAIMER_LOCALE_BYTES <? len value then Err LocaleTooLong
  else if negb (forallb (fun b => b <? 128) value) then Err UnsafeLocale
  else
    segment_len ← locale_segments 0 value;
    if segment_len =? 0 then Err UnsafeLocale else Ok value.

Definition lower_hex_nibble (b : Z) : option Z :=
  if (48 <=? b) && (b <=? 57) then Some (b - 48)
  else if (97 <=? b) && (b <=? 102) then Some (b - 97 + 10)
  else None.

Definition HEX : text := string_bytes "0123456789abcdef".

Fixpoint hex_text (bytes : list Z) : text :=
  match bytes with
  | [] => []
  | b :: r => byte_at HEX (Z.shiftr b 4) :: byte_at HEX (Z.land b 0x0f) :: hex_text r
  end.

(** The pairs of [chunks_exact(2)]; an odd byte at the end is left over. *)
Fixpoint hex_pairs (value : text) : option (list Z) :=
  match value with
  | a :: b :: r =>
    high ← lower_hex_nibble a;
    low ← lower_hex_nibble b;
    rest ← hex_pairs r;
    Some (Z.lor (Z.shiftl high 4) low :: rest)
  | _ => Some []
  end.

Definition parse_lower_hex (value : text) : result DisclaimerError (list Z) :=
  if negb (len value =? 64) then Err InvalidDigest else ok_or (hex_pairs value) InvalidDigest.

Definition to_lower_hex (digest : list Z) : text := hex_text digest.

(** The comparison without an early exit, over the pairs of [zip]. *)
Definition digest_matches (a b : list Z) : bool :=
  fold_left (fun difference p => Z.lor difference (Z.lxor p.1 p.2)) (combine a b) 0 =? 0.

Record PreparedDisclaimer := mkDisclaimer { d_locale : text; d_text : text; d_digest : list Z }.

Record DisclaimerAcceptance := mkAcceptance { a_locale : text; a_digest : list Z; accepted_at_epoch_seconds : Z }.

Section Disclaimers.
Context (sha256 : list Z -> list Z).

Definition PreparedDisclaimer_from_bytes (locale content : text) : result DisclaimerError PreparedDisclaimer :=
  if bool_decide (content = []) then Err EmptyContent
  else if MAX_DISCLAIMER_CONTENT_BYTES <? len content then Err ContentTooLarge
  else if negb (from_utf8 content) then Err InvalidUtf8
  else Ok (mkDisclaimer locale content (sha256 content)).

End Disclaimers.

Definition matches_acknowledgment (d : PreparedDisclaimer) (value : text) : result DisclaimerError bool :=
  other ← parse_lower_hex value; Ok (digest_matches (d_digest d) other).

Definition DisclaimerAcceptance_new (d : PreparedDisclaimer) (accepted_at : Z) : DisclaimerAcceptance :=
  mkAcceptance (d_locale d) (d_digest d) accepted_at.

(** ** Online identity *)

Inductive IdentityValidationError :=
| EmptyIssuer | EmptyAudience | IssuerMismatch | AudienceMismatch | EmptySubject | TenantMismatch | IssuedInFuture
| Expired | InvalidLifetime | SessionBindingMismatch | EmptySessionId | UnsupportedGrantVersion | SubjectMismatch
| EmptyClientIdentity | ClientIdentityMismatch | EmptyHostIdentity | HostIdentityMismatch | EmptyNonce
| NonceMismatch | GrantBindingValueTooLong.
#[global] Instance IdentityValidationError_eq_dec : EqDecision IdentityValidationError. Proof. solve_decision. Defined.

Record OidcConfiguration := mkOidc { o_issuer : text; o_audiences : gset text; required_tenant : option text }.

Definition OidcConfiguration_new (issuer : text) (audiences : list text) (tenant : option text)
  : result IdentityValidationError OidcConfiguration :=
  if bool_decide (issuer = []) then Err EmptyIssuer else
  let audiences := list_to_set audiences in
  if bool_decide (audiences = ∅) || bool_decide ([] ∈ audiences) then Err EmptyAudience
  else Ok (mkOidc issuer audiences tenant).

Record OidcClaims := mkOidcClaims {
  oc_issuer : text; oc_audiences : list text; oc_subject : text; oc_tenant : option text;
  oc_issued_at : Z; oc_expires_at : Z
}.

Record ValidatedIdentity := mkIdentity {
  vi_issuer : text; vi_subject : text; vi_tenant : option text; authenticated_at : Z; vi_expires_at : Z
}.

Definition validate_oidc_claims (c : OidcConfiguration) (claims : OidcClaims) (now : Z)
  : result IdentityValidationError ValidatedIdentity :=
  if negb (bool_decide (oc_issuer claims = o_issuer c)) then Err IssuerMismatch
  else if negb (existsb (fun a => bool_decide (a ∈ o_audiences c)) (oc_audiences claims)) then Err AudienceMismatch
  else if bool_decide (oc_subject claims = []) then Err EmptySubject
  else if now <? oc_issued_at claims then Err IssuedInFuture
  else if oc_expires_at claims <=? now then Err Expired
  else if match required_tenant c with
          | Some t => negb (bool_decide (oc_tenant claims = Some t))
          | None => false
          end then Err TenantMismatch
  else Ok (mkIdentity (oc_issuer claims) (oc_subject claims) (oc_tenant claims) (oc_issued_at claims) (oc_expires_at claims)).

(** ** Session grants *)

Definition validate_grant_binding_value (value : text) (empty_error : IdentityValidationError)
  : result IdentityValidationError unit :=
  if bool_decide (value = []) then Err empty_error
  else if MAX_GRANT_BINDING_VALUE_BYTES <? len value then Err GrantBindingValueTooLong
  else Ok tt.

(** [ClientIdentity::new], [HostIdentity::new], [GrantNonce::new]. *)
Definition grant_binding_value (value : text) (empty_error : IdentityValidationError)
  : result IdentityValidationError text :=
  _ ← validate_grant_binding_value value empty_error; Ok value.

Record SessionGrantClaims := mkClaims {
  version : Z;
  issuer : text;
  audience : text;
  subject : text;
  tenant : option text;
  client_identity : text;
  host_identity : text;
  session_id : text;
  nonce : text;
  issued_at : Z;
  expires_at : Z
}.

Record SignedSessionGrant := mkSigned { claims : SessionGrantClaims; key_id : text; algorithm : text; signature : list Z }.

Record GrantValidationContext := mkGrantContext {
  cx_issuer : text;
  cx_audience : text;
  expected_subject : text;
  expected_tenant : option text;
  expected_client_identity : text;
  expected_host_identity : text;
  expected_session_id : text;
  expected_nonce : text;
  now_epoch_seconds : Z
}.

Record ValidatedSessionGrant := mkValidated {
  v_version : Z; v_issuer : text; v_audience : text; v_subject : text; v_tenant : option text;
  v_client_identity : text; v_host_identity : text; v_session_id : text; v_nonce : text; v_expires_at : Z
}.

(** A bounded value that must be the expected one. *)
Definition bound_to (value expected : text) (empty_error mismatch : IdentityValidationError)
  : result IdentityValidationError unit :=
  _ ← validate_grant_binding_value value empty_error;
  guard_err (negb (bool_decide (value = expected))) mismatch.

Definition validate_grant_identity_bindings (c : SessionGrantClaims) (x : GrantValidationContext)
  : result IdentityValidationError unit :=
  _ ← guard_err (negb (version c =? SESSION_GRANT_VERSION_V1)) UnsupportedGrantVersion;
  _ ← bound_to (issuer c) (cx_issuer x) EmptyIssuer IssuerMismatch;
  _ ← bound_to (audience c) (cx_audience x) EmptyAudience AudienceMismatch;
  _ ← bound_to (subject c) (expected_subject x) EmptySubject SubjectMismatch;
  _ ← guard_err (bool_decide (tenant c = Some [])) TenantMismatch;
  _ ← guard_err (match tenant c with Some t => MAX_GRANT_BINDING_VALUE_BYTES <? len t | None => false end) GrantBindingValueTooLong;
  _ ← guard_err (negb (bool_decide (tenant c = expected_tenant x))) TenantMismatch;
  _ ← bound_to (client_identity c) (expected_client_identity x) EmptyClientIdentity ClientIdentityMismatch;
  _ ← bound_to (host_identity c) (expected_host_identity x) EmptyHostIdentity HostIdentityMismatch;
  _ ← bound_to (session_id c) (expected_session_id x) EmptySessionId SessionBindingMismatch;
  bound_to (nonce c) (expected_nonce x) EmptyNonce NonceMismatch.

Definition validate_grant_timing (c : SessionGrantClaims) (now : Z) : result IdentityValidationError unit :=
  if now <? issued_at c then Err IssuedInFuture
  else if expires_at c <=? now then Err Expired
  else
    lifetime ← ok_or (checked_sub (expires_at c) (issued_at c)) InvalidLifetime;
    if (lifetime =? 0) || (MAX_SESSION_GRANT_LIFETIME_SECONDS <? lifetime) then Err InvalidLifetime else Ok tt.

Inductive GrantValidationError (E : Type) := SignatureRejected (e : E) | ClaimsRejected (e : IdentityValidationError).
Arguments SignatureRejected {E} e.
Arguments ClaimsRejected {E} e.

Definition map_err {E E' A} (f : E -> E') (r : result E A) : result E' A :=
  match r with Ok a => Ok a | Err e => Err (f e) end.

Definition validated_of (c : SessionGrantClaims) : ValidatedSessionGrant :=
  mkValidated (version c) (issuer c) (audience c) (subject c) (tenant c) (client_identity c) (host_identity c)
    (session_id c) (nonce c) (expires_at c).

Definition validate_session_grant {E} (verify : SignedSessionGrant -> result E unit) (grant : SignedSessionGrant)
    (x : GrantValidationContext) : result (GrantValidationError E) ValidatedSessionGrant :=
  _ ← map_err SignatureRejected (verify grant);
  _ ← map_err ClaimsRejected (validate_grant_identity_bindings (claims grant) x);
  _ ← map_err ClaimsRejected (validate_grant_timing (claims grant) (now_epoch_seconds x));
  Ok (validated_of (claims grant)).

(** ** One-time consumption *)

Definition GrantReplayKey : Type := text * text.
Definition replay_key (g : ValidatedSessionGrant) : GrantReplayKey := (v_issuer g, v_nonce g).

Inductive GrantReplayConsumption := Consumed | AlreadyConsumed.

(** A store that consumes atomically, with what its documentation promises: a
    consumed key stays protected through its retention, and cleaning up comes
    only after that instant. *)
Class GrantReplayConsumer (S E : Type) := {
  consume_once : S -> GrantReplayKey -> Z -> Z -> result E GrantReplayConsumption * S;
  protected : S -> GrantReplayKey -> Z -> Prop;
  consumed_protects : forall s k retain now t, (consume_once s k retain now).1 = Ok Consumed ->
    t <= retain -> protected (consume_once s k retain now).2 k t;
  protected_refuses : forall s k retain now, protected s k now -> (consume_once s k retain now).1 <> Ok Consumed;
  protected_stays : forall s k k' retain now t, protected s k t -> now <= t -> protected (consume_once s k' retain now).2 k t
}.

Inductive GrantReplayError (E : Type) := ReplayExpired | ReplayStore (e : E) | ReplayAlreadyConsumed.
Arguments ReplayExpired {E}.
Arguments ReplayStore {E} e.
Arguments ReplayAlreadyConsumed {E}.

Record ConsumedSessionGrant := mkConsumed { grant : ValidatedSessionGrant; consumed_at : Z }.

Definition consume_validated_session_grant {S E} `{GrantReplayConsumer S E} (s : S) (g : ValidatedSessionGrant) (now : Z)
  : result (GrantReplayError E) ConsumedSessionGrant * S :=
  if v_expires_at g <=? now then (Err ReplayExpired, s) else
  match consume_once s (replay_key g) (v_expires_at g) now with
  | (Err e, s) => (Err (ReplayStore e), s)
  | (Ok Consumed, s) => (Ok (mkConsumed g now), s)
  | (Ok AlreadyConsumed, s) => (Err ReplayAlreadyConsumed, s)
  end.

(** ** What a validated grant says *)

Lemma map_err_Ok {E E' A} (f : E -> E') (r : result E A) a : map_err f r = Ok a <-> r = Ok a.
Proof. destruct r; simpl; split; congruence. Qed.

Definition bounded (value : text) : Prop := value <> [] /\ len value <= MAX_GRANT_BINDING_VALUE_BYTES.

Lemma validate_grant_binding_value_Ok value e u : validate_grant_binding_value value e = Ok u <-> bounded value.
Proof.
  unfold validate_grant_binding_value, bounded. destruct u. case_bool_decide as Hv; [naive_solver|].
  destruct (Z.ltb_spec MAX_GRANT_BINDING_VALUE_BYTES (len value)); split; try done; try (intros [_ ?]; lia).
Qed.

Lemma bound_to_Ok value expected e m u : bound_to value expected e m = Ok u <-> bounded value /\ value = expected.
Proof.
  unfold bound_to. rewrite unit_bind_Ok, validate_grant_binding_value_Ok, guard_err_Ok, negb_false_iff, bool_decide_eq_true. done.
Qed.

(** The claims name everything the context expects, in bounded values. *)
Definition bound_as_expected (c : SessionGrantClaims) (x : GrantValidationContext) : Prop :=
  version c = SESSION_GRANT_VERSION_V1
  /\ (bounded (issuer c) /\ issuer c = cx_issuer x)
  /\ (bounded (audience c) /\ audience c = cx_audience x)
  /\ (bounded (subject c) /\ subject c = expected_subject x)
  /\ (forall t, tenant c = Some t -> bounded t) /\ tenant c = expected_tenant x
  /\ (bounded (client_identity c) /\ client_identity c = expected_client_identity x)
  /\ (bounded (host_identity c) /\ host_identity c = expected_host_identity x)
  /\ (bounded (session_id c) /\ session_id c = expected_session_id x)
  /\ (bounded (nonce c) /\ nonce c = expected_nonce x).

Lemma identity_bindings_Ok c x u : validate_grant_identity_bindings c x = Ok u <-> bound_as_expected c x.
Proof.
  unfold validate_grant_identity_bindings, bound_as_expected.
  rewrite !unit_bind_Ok, !bound_to_Ok, !guard_err_Ok, !negb_false_iff, Z.eqb_eq, bool_decide_eq_false, bool_decide_eq_true.
  assert ((tenant c <> Some [] /\ match tenant c with Some t => MAX_GRANT_BINDING_VALUE_BYTES <? len t | None => false end = false)
    <-> (forall t, tenant c = Some t -> bounded t)) as Ht; [|tauto].
  unfold bounded. destruct (tenant c) as [t|]; [|by split; [intros _ t [=]|]]. rewrite Z.ltb_ge. split.
  - intros [Hne Hle] t' [= <-]. split; [by intros ->|done].
  - intros H. destruct (H t eq_refl). split; [by intros [= ->]|done].
Qed.

Lemma grant_timing_Ok c now u : validate_grant_timing c now = Ok u <->
  issued_at c <= now < expires_at c /\ expires_at c - issued_at c <= MAX_SESSION_GRANT_LIFETIME_SECONDS.
Proof.
  unfold validate_grant_timing. destruct u. destruct (Z.ltb_spec now (issued_at c)); [split; [done|lia]|].
  destruct (Z.leb_spec (expires_at c) now); [split; [done|lia]|].
  unfold checked_sub. rewrite (proj2 (Z.leb_le _ _)) by lia. cbn [ok_or mbind result_bind].
  destruct (Z.eqb_spec (expires_at c - issued_at c) 0); [lia|].
  destruct (Z.ltb_spec MAX_SESSION_GRANT_LIFETIME_SECONDS (expires_at c - issued_at c)); simpl; split; try done; lia.
Qed.

(** A session grant is accepted exactly when its signature verifies, it is
    the grant that was expected, and it is live.  Every binding (issuer,
    audience, subject, tenant, client, host, session, nonce) must be the
    expected one, a required tenant and the absence of one alike, each
    non-empty and bounded; the clock must be in [issued_at, expires_at), with
    a lifetime of at most five minutes; and the evidence carries the claims as
    they were signed. *)
Theorem session_grant_exact {E} (verify : SignedSessionGrant -> result E unit) (g : SignedSessionGrant)
    (x : GrantValidationContext) (v : ValidatedSessionGrant) :
  validate_session_grant verify g x = Ok v <->
    verify g = Ok tt /\ bound_as_expected (claims g) x
    /\ (issued_at (claims g) <= now_epoch_seconds x < expires_at (claims g)
        /\ expires_at (claims g) - issued_at (claims g) <= MAX_SESSION_GRANT_LIFETIME_SECONDS)
    /\ v = validated_of (claims g).
Proof.
  unfold validate_session_grant.
  rewrite !unit_bind_Ok, !map_err_Ok, identity_bindings_Ok, grant_timing_Ok. split.
  - intros (H1 & H2 & H3 & [= <-]). done.
  - by intros (H1 & H2 & H3 & ->).
Qed.

Definition sample_claims : SessionGrantClaims :=
  mkClaims 1 [1] [2] [3] None [4] [5] [6] [7] 100 300.
Definition sample_context : GrantValidationContext := mkGrantContext [1] [2] [3] None [4] [5] [6] [7] 299.

(** ** A grant is consumed once *)

Section Consumption.
Context {S E : Type} `{!GrantReplayConsumer S E}.

(** A history of attempts, each with its clock. *)
Fixpoint consume_all (s : S) (attempts : list (ValidatedSessionGrant * Z)) : list ConsumedSessionGrant * S :=
  match attempts with
  | [] => ([], s)
  | (g, now) :: r =>
    let '(outcome, s) := consume_validated_session_grant s g now in
    let '(consumed, s) := consume_all s r in
    (match outcome with Ok c => c :: consumed | Err _ => consumed end, s)
  end.

Fixpoint clock_from (t : Z) (attempts : list (ValidatedSessionGrant * Z)) : Prop :=
  match attempts with [] => True | (_, now) :: r => t <= now /\ clock_from now r end.

Lemma consume_Ok s g now c s' : consume_validated_session_grant s g now = (Ok c, s') ->
  now < v_expires_at g /\ c = mkConsumed g now /\ consume_once s (replay_key g) (v_expires_at g) now = (Ok Consumed, s').
Proof.
  unfold consume_validated_session_grant. destruct (Z.leb_spec (v_expires_at g) now); [done|].
  destruct (consume_once s (replay_key g) (v_expires_at g) now) as [[[]|e] s'']; try done. by intros [= <- <-].
Qed.

Lemma consume_keeps_protected s g now k t : protected s k t -> now <= t ->
  protected (consume_validated_session_grant s g now).2 k t.
Proof.
  intros Hp Ht. unfold consume_validated_session_grant. destruct (v_expires_at g <=? now); [done|].
  pose proof (protected_stays s k (replay_key g) (v_expires_at g) now t Hp Ht) as Hs.
  by destruct (consume_once s (replay_key g) (v_expires_at g) now) as [[[]|e] s''].
Qed.

Lemma consume_protected s g now : protected s (replay_key g) now ->
  forall c s', consume_validated_session_grant s g now <> (Ok c, s').
Proof.
  intros Hp c s' Hc. apply consume_Ok in Hc as (_ & _ & Hc). apply (protected_refuses s (replay_key g) (v_expires_at g) now Hp).
  by rewrite Hc.
Qed.

(** While a key is protected up to [t], only attempts after [t] can win it. *)
Lemma protected_history attempts : forall s t0 k t, protected s k t -> clock_from t0 attempts ->
  (forall t', t0 <= t' <= t -> protected s k t') ->
  Forall (fun c => replay_key (grant c) = k -> t < consumed_at c) (consume_all s attempts).1.
Proof.
  induction attempts as [|[g now] r IH]; intros s t0 k t Hp Hclock Hall; cbn [consume_all]; [constructor|].
  destruct Hclock as [Hnow Hclock].
  destruct (consume_validated_session_grant s g now) as [o s1] eqn:Ho.
  destruct (consume_all s1 r) as [consumed s2] eqn:Hr.
  assert (Forall (fun c => replay_key (grant c) = k -> t < consumed_at c) consumed) as Hrest.
  { destruct (Z.le_gt_cases now t) as [Hle|Hgt].
    - specialize (IH s1 now k t). rewrite Hr in IH. apply IH; [|done|].
      + change s1 with (o, s1).2. rewrite <- Ho. by apply consume_keeps_protected.
      + intros t' Ht'. change s1 with (o, s1).2. rewrite <- Ho. apply consume_keeps_protected; [apply Hall; lia|lia].
    - assert (forall a l t1 s', clock_from t1 l -> (consume_all s' l).1 = a -> Forall (fun c => t1 <= consumed_at c) a) as Hlate.
      { clear. intros a l. revert a. induction l as [|[g n] l IHl]; intros a t1 s' Hc <-; cbn [consume_all]; [constructor|].
        destruct Hc as [Hn Hc]. destruct (consume_validated_session_grant s' g n) as [o s1] eqn:Ho.
        destruct (consume_all s1 l) as [cs s2] eqn:Hl. pose proof (IHl cs n s1 Hc ltac:(by rewrite Hl)) as Hcs.
        assert (Forall (fun c => t1 <= consumed_at c) cs) as Hcs' by (eapply Forall_impl; [done|]; simpl; lia).
        destruct o as [c|e]; [|done]. constructor; [|done]. apply consume_Ok in Ho as (_ & -> & _). done. }
      eapply Forall_impl; [apply (Hlate consumed r now s1 Hclock); by rewrite Hr|]. simpl. lia. }
  destruct o as [c|e]; [|done]. simpl. constructor; [|done]. apply consume_Ok in Ho as Ho'. destruct Ho' as (Hexp & -> & _). cbn.
  intros <-. destruct (Z.le_gt_cases now t) as [Hle|Hgt]; [|lia]. exfalso.
  eapply (consume_protected s g now); [apply Hall; lia|done].
Qed.

(** A later win of the same key comes only after the first one's expiry. *)
Definition apart (c1 c2 : ConsumedSessionGrant) : Prop :=
  replay_key (grant c1) = replay_key (grant c2) -> v_expires_at (grant c1) < consumed_at c2.

Lemma consume_all_apart attempts : forall s t0, clock_from t0 attempts ->
  forall i j c1 c2, (i < j)%nat -> (consume_all s attempts).1 !! i = Some c1 -> (consume_all s attempts).1 !! j = Some c2 -> apart c1 c2.
Proof.
  induction attempts as [|[g now] r IH]; intros s t0 Hclock i j c1 c2 Hij; cbn [consume_all]; [done|].
  destruct Hclock as [Hnow Hclock].
  destruct (consume_validated_session_grant s g now) as [o s1] eqn:Ho. specialize (IH s1 now Hclock).
  destruct (consume_all s1 r) as [consumed s2] eqn:Hr. destruct o as [c|e]; cbn [fst] in *; [|by apply IH].
  destruct j as [|j]; [lia|]. destruct i as [|i]; [|apply IH; lia]. cbn. intros [= <-] Hc2.
  apply consume_Ok in Ho as (Hexp & -> & Hc). unfold apart. cbn. intros Hk.
  pose proof (consumed_protects s (replay_key g) (v_expires_at g) now) as Hprot. rewrite Hc in Hprot.
  pose proof (protected_history r s1 now (replay_key g) (v_expires_at g)) as Hh. rewrite Hr in Hh.
  rewrite Forall_forall in Hh. apply Hh; try done.
  - by apply Hprot.
  - intros t' Ht'. apply Hprot; [done|lia].
  - eapply list_elem_of_lookup_2. done.
Qed.

End Consumption.

(** A session grant is good for one session.  Over any history of
    attempts with a clock that does not go back, against any store that keeps
    its promise, no two attempts consume the same grant; and two consumptions
    of one issuer's nonce are apart: the second comes only after the first
    grant has expired.  What is consumed is the grant that was presented,
    before its expiry. *)
Theorem grant_consumed_once {S E : Type} `{!GrantReplayConsumer S E} (s : S) (t0 : Z)
    (attempts : list (ValidatedSessionGrant * Z))
  (Hclock : clock_from t0 attempts) :
  NoDup (grant <$> (consume_all s attempts).1)
  /\ (forall i j c1 c2, (i < j)%nat -> (consume_all s attempts).1 !! i = Some c1 -> (consume_all s attempts).1 !! j = Some c2 ->
        replay_key (grant c1) = replay_key (grant c2) -> v_expires_at (grant c1) < consumed_at c2)
  /\ Forall (fun c => (grant c, consumed_at c) ∈ attempts /\ consumed_at c < v_expires_at (grant c)) (consume_all s attempts).1.
Proof.
  assert (Forall (fun c => (grant c, consumed_at c) ∈ attempts /\ consumed_at c < v_expires_at (grant c)) (consume_all s attempts).1) as Hall.
  { clear Hclock. revert s. induction attempts as [|[g now] r IH]; intros s; cbn [consume_all]; [constructor|].
    destruct (consume_validated_session_grant s g now) as [o s1] eqn:Ho. specialize (IH s1).
    destruct (consume_all s1 r) as [consumed s2]. cbn [fst] in *.
    assert (Forall (fun c => (grant c, consumed_at c) ∈ (g, now) :: r /\ consumed_at c < v_expires_at (grant c)) consumed) as Hrest.
    { eapply Forall_impl; [done|]. simpl. intros c [Hc He]. split; [by apply elem_of_cons; right|done]. }
    destruct o as [c|e]; [|done]. constructor; [|done]. apply consume_Ok in Ho as (He & -> & _). cbn.
    split; [by apply elem_of_cons; left|done]. }
  pose proof (consume_all_apart attempts s t0 Hclock) as Hap. split; [|by split].
  apply NoDup_alt. intros i j g Hi Hj. rewrite list_lookup_fmap in Hi, Hj.
  destruct ((consume_all s attempts).1 !! i) as [c1|] eqn:E1; [|done].
  destruct ((consume_all s attempts).1 !! j) as [c2|] eqn:E2; [|done]. injection Hi as Hi. injection Hj as Hj.
  rewrite Forall_forall in Hall.
  destruct (Nat.lt_trichotomy i j) as [Hlt|[->|Hlt]]; [|done|]; exfalso.
  - pose proof (Hap i j c1 c2 Hlt E1 E2) as Ha. unfold apart in Ha. rewrite Hi, Hj in Ha. specialize (Ha eq_refl).
    destruct (Hall c2 (list_elem_of_lookup_2 _ _ _ E2)) as [_ He]. rewrite Hj in He. lia.
  - pose proof (Hap j i c2 c1 Hlt E2 E1) as Ha. unfold apart in Ha. rewrite Hi, Hj in Ha. specialize (Ha eq_refl).
    destruct (Hall c1 (list_elem_of_lookup_2 _ _ _ E1)) as [_ He]. rewrite Hi in He. lia.
Qed.

(** A store that drops keys whose retention has passed. *)
Definition memory_store : Type := gmap GrantReplayKey Z.

Definition sweep (s : memory_store) (now : Z) : memory_store := filter (fun kv => now <= kv.2) s.

Definition memory_consume (s : memory_store) (k : GrantReplayKey) (retain now : Z)
  : result Empty_set GrantReplayConsumption * memory_store :=
  match sweep s now !! k with
  | Some _ => (Ok AlreadyConsumed, sweep s now)
  | None => (Ok Consumed, <[k := retain]> (sweep s now))
  end.

Definition memory_protected (s : memory_store) (k : GrantReplayKey) (t : Z) : Prop := exists r, s !! k = Some r /\ t <= r.

Lemma sweep_lookup s now k r : sweep s now !! k = Some r <-> s !! k = Some r /\ now <= r.
Proof. unfold sweep. apply map_lookup_filter_Some. Qed.

#[global] Program Instance memory_consumer : GrantReplayConsumer memory_store Empty_set :=
  {| consume_once := memory_consume; protected := memory_protected |}.
Next Obligation.
  intros s k retain now t. unfold memory_consume. destruct (sweep s now !! k); [done|]. intros _ Ht.
  exists retain. split; [apply (lookup_insert_eq (M := gmap GrantReplayKey))|done].
Qed.
Next Obligation.
  intros s k retain now (r & Hr & Hle). unfold memory_consume.
  by rewrite (proj2 (sweep_lookup s now k r) (conj Hr Hle)).
Qed.
Next Obligation.
  intros s k k' retain now t (r & Hr & Hle) Hnow. unfold memory_consume.
  assert (sweep s now !! k = Some r) as Hs by (apply sweep_lookup; split; [done|lia]).
  destruct (sweep s now !! k') eqn:Hk'; [by exists r|]. exists r. split; [|done]. cbn.
  transitivity (sweep s now !! k); [apply (lookup_insert_ne (M := gmap GrantReplayKey)); congruence|done].
Qed.

Definition sample_grant : ValidatedSessionGrant := validated_of sample_claims.

Lemma grant_consumed_once_witness :
  clock_from 100 [(sample_grant, 120); (sample_grant, 130); (sample_grant, 400)]
  /\ (consume_all (∅ : memory_store) [(sample_grant, 120); (sample_grant, 130); (sample_grant, 400)]).1 = [mkConsumed sample_grant 120]
  /\ NoDup (grant <$> (consume_all (∅ : memory_store) [(sample_grant, 120); (sample_grant, 130); (sample_grant, 400)]).1).
Proof.
  split; [cbn; lia|]. split; [vm_compute; reflexivity|].
  apply (grant_consumed_once (∅ : memory_store) 100). cbn. lia.
Defined.

(** ** Digests in hexadecimal *)

Lemma hex_byte b : is_u8 b -> exists h l,
  byte_at HEX (Z.shiftr b 4) = h /\ byte_at HEX (Z.land b 0x0f) = l
  /\ lower_hex_nibble h = Some (b / 16) /\ lower_hex_nibble l = Some (b mod 16)
  /\ Z.lor (Z.shiftl (b / 16) 4) (b mod 16) = b.
Proof.
  intros Hb. assert (b ∈ range 256) as Hin by (by apply elem_of_range).
  unfold range in Hin. vm_compute in Hin. clear Hb.
  repeat (apply elem_of_cons in Hin as [->|Hin]; [by do 2 eexists; vm_compute|]). by apply not_elem_of_nil in Hin.
Qed.

Lemma hex_pairs_text bytes : Forall is_u8 bytes -> hex_pairs (hex_text bytes) = Some bytes.
Proof.
  induction 1 as [|b r Hb Hr IH]; [done|]. destruct (hex_byte b Hb) as (h & l & Hh & Hl & Eh & El & Hlor).
  cbn [hex_text hex_pairs]. rewrite Hh, Hl, Eh. cbn [mbind option_bind]. rewrite El, IH. cbn [mbind option_bind]. by rewrite Hlor.
Qed.

Lemma hex_text_len bytes : len (hex_text bytes) = 2 * len bytes.
Proof. induction bytes as [|b r IH]; [done|]. cbn [hex_text]. rewrite !len_cons, IH. lia. Qed.

Lemma lower_hex_nibble_inv c n : lower_hex_nibble c = Some n -> 0 <= n < 16 /\ byte_at HEX n = c.
Proof.
  unfold lower_hex_nibble. intros H.
  assert (0 <= n < 16 /\ c = if n <? 10 then 48 + n else 87 + n) as [Hn ->].
  { destruct (Z.leb_spec 48 c), (Z.leb_spec c 57), (Z.leb_spec 97 c), (Z.leb_spec c 102); simpl in H; try done;
      injection H as <-; split; try lia; (destruct (Z.ltb_spec (c - 48) 10) || idtac); (destruct (Z.ltb_spec (c - 97 + 10) 10) || idtac); lia. }
  split; [done|]. assert (n ∈ range 16) as Hin by (by apply elem_of_range).
  unfold range in Hin. vm_compute in Hin. clear H Hn.
  repeat (apply elem_of_cons in Hin as [->|Hin]; [by vm_compute|]). by apply not_elem_of_nil in Hin.
Qed.

Lemma nibbles_byte h l : 0 <= h < 16 -> 0 <= l < 16 ->
  is_u8 (Z.lor (Z.shiftl h 4) l) /\ Z.shiftr (Z.lor (Z.shiftl h 4) l) 4 = h /\ Z.land (Z.lor (Z.shiftl h 4) l) 0x0f = l.
Proof.
  intros Hh Hl.
  assert (h ∈ range 16) as Hin by (by apply elem_of_range). assert (l ∈ range 16) as Hin' by (by apply elem_of_range).
  unfold range in Hin, Hin'. vm_compute in Hin, Hin'. clear Hh Hl.
  repeat (apply elem_of_cons in Hin as [->|Hin]; [
    repeat (apply elem_of_cons in Hin' as [->|Hin']; [by vm_compute|]); by apply not_elem_of_nil in Hin'|]).
  by apply not_elem_of_nil in Hin.
Qed.

Lemma hex_pairs_inv n : forall value bytes, length value = (2 * n)%nat -> hex_pairs value = Some bytes ->
  Forall is_u8 bytes /\ value = hex_text bytes.
Proof.
  induction n as [|n IH]; intros [|a [|b r]] bytes Hlen; simpl in Hlen; try lia; cbn [hex_pairs].
  - intros [= <-]. by split.
  - destruct (lower_hex_nibble a) as [h|] eqn:Ea; cbn [mbind option_bind]; [|done].
    destruct (lower_hex_nibble b) as [l|] eqn:Eb; cbn [mbind option_bind]; [|done].
    destruct (hex_pairs r) as [rest|] eqn:Er; cbn [mbind option_bind]; [|done]. intros [= <-].
    destruct (IH r rest ltac:(lia) Er) as [Hrest ->].
    apply lower_hex_nibble_inv in Ea as [Hh Ha], Eb as [Hl Hb].
    destruct (nibbles_byte h l Hh Hl) as (Hu & Hs & Hm). split; [by constructor|].
    cbn [hex_text]. by rewrite Hs, Hm, Ha, Hb.
Qed.

Lemma parse_lower_hex_Ok value digest : parse_lower_hex value = Ok digest <->
  (Forall is_u8 digest /\ len digest = 32) /\ value = to_lower_hex digest.
Proof.
  unfold parse_lower_hex, to_lower_hex. destruct (Z.eqb_spec (len value) 64) as [Hlen|Hlen]; simpl.
  - rewrite ok_or_Ok. split.
    + intros Hp. destruct (hex_pairs_inv 32 value digest ltac:(unfold len in Hlen; lia) Hp) as [Hu ->].
      rewrite hex_text_len in Hlen. repeat split; try done. lia.
    + intros [[Hu _] ->]. by apply hex_pairs_text.
  - split; [done|]. intros [[_ Hd] ->]. rewrite hex_text_len in Hlen. lia.
Qed.

Lemma digest_matches_eq a : forall b, Forall is_u8 a -> Forall is_u8 b -> length a = length b ->
  digest_matches a b = true <-> a = b.
Proof.
  assert (forall a b acc, 0 <= acc -> Forall is_u8 a -> Forall is_u8 b -> length a = length b ->
    fold_left (fun difference p => Z.lor difference (Z.lxor p.1 p.2)) (combine a b) acc = 0 <-> acc = 0 /\ a = b) as Hfold.
  { clear. intros a. induction a as [|x a IH]; intros [|y b] acc Hacc Ha Hb Hlen; simpl in Hlen; try lia; cbn [combine fold_left].
    { tauto. }
    apply Forall_cons in Ha as [Hx Ha]. apply Forall_cons in Hb as [Hy Hb]. unfold is_u8 in Hx, Hy.
    rewrite IH; [|apply Z.lor_nonneg; cbn; split; [done|apply Z.lxor_nonneg; lia]|done|done|lia].
    rewrite Z.lor_eq_0_iff. cbn. rewrite Z.lxor_eq_0_iff. split; [intros [[-> ->] ->]; done|by intros [-> [= -> ->]]]. }
  intros b Ha Hb Hlen. unfold digest_matches. rewrite Z.eqb_eq, Hfold by done. tauto.
Qed.

(** A disclaimer is acknowledged exactly by its own digest.  When the
    prepared digest is 32 bytes, the acknowledgment that matches is its 64
    lower-case hexadecimal characters and nothing else: any other text is
    either refused as malformed or does not match; a malformed one is one
    that is not the lower-case hexadecimal of any 32 bytes. *)
Theorem acknowledgment_exact (d : PreparedDisclaimer) (value : text)
  (Hd : Forall is_u8 (d_digest d) /\ len (d_digest d) = 32) :
  (matches_acknowledgment d value = Ok true <-> value = to_lower_hex (d_digest d))
  /\ (matches_acknowledgment d value = Err InvalidDigest <->
        ~ exists digest, (Forall is_u8 digest /\ len digest = 32) /\ value = to_lower_hex digest)
  /\ parse_lower_hex (to_lower_hex (d_digest d)) = Ok (d_digest d).
Proof.
  assert (forall digest, parse_lower_hex value = Ok digest ->
    (Forall is_u8 digest /\ len digest = 32) /\ value = to_lower_hex digest
    /\ (digest_matches (d_digest d) digest = true <-> d_digest d = digest)) as Hp.
  { intros digest Hp. apply parse_lower_hex_Ok in Hp as [[Hu Hl] Hv]. split; [done|]. split; [done|].
    apply digest_matches_eq; [by apply Hd|done|]. destruct Hd as [_ Hdl]. unfold len in *. lia. }
  assert (parse_lower_hex (to_lower_hex (d_digest d)) = Ok (d_digest d)) as Hself by (by apply parse_lower_hex_Ok).
  split; [|split; [|done]].
  - unfold matches_acknowledgment. split.
    + destruct (parse_lower_hex value) as [digest|] eqn:E; [|done]. destruct (Hp digest eq_refl) as (_ & Hv & Hm).
      cbn. intros [= Ht]. apply Hm in Ht. by rewrite Ht.
    + intros Hv. rewrite Hv in *. rewrite Hself in *. destruct (Hp _ eq_refl) as (_ & _ & Hm). cbn. f_equal. by apply Hm.
  - unfold matches_acknowledgment. split.
    + destruct (parse_lower_hex value) as [digest|] eqn:E; [done|]. intros _ (digest & Hdig & Hv).
      by rewrite (proj2 (parse_lower_hex_Ok value digest) (conj Hdig Hv)) in E.
    + intros Hno. destruct (parse_lower_hex value) as [digest|e] eqn:E.
      * destruct Hno. exists digest. destruct (Hp digest eq_refl) as (? & ? & _). done.
      * cbn. unfold parse_lower_hex in E. destruct (negb _); [by injection E as <-|].
        destruct (hex_pairs value); simpl in E; [done|by injection E as <-].
Qed.

Definition sample_disclaimer : PreparedDisclaimer := mkDisclaimer [101; 110] [72; 105] (replicate 32 171).

Lemma acknowledgment_exact_witness :
  matches_acknowledgment sample_disclaimer (to_lower_hex (replicate 32 171)) = Ok true
  /\ matches_acknowledgment sample_disclaimer (to_lower_hex (replicate 32 172)) = Ok false
  /\ parse_lower_hex (to_lower_hex (d_digest sample_disclaimer)) = Ok (d_digest sample_disclaimer).
Proof.
  split; [reflexivity|]. split; [reflexivity|].
  apply (acknowledgment_exact sample_disclaimer []). split; [repeat constructor; lia|reflexivity].
Defined.

(** ** Locales *)

(** Every separator stands between two alphanumeric bytes. *)
Fixpoint well_separated (after_alnum : bool) (value : text) : bool :=
  match value with
  | [] => after_alnum
  | b :: r => if is_alphanumeric b then well_separated true r
              else ((b =? 95) || (b =? 45)) && after_alnum && well_separated false r
  end.

Lemma locale_segments_ok value : forall n, 0 <= n ->
  (exists m, locale_segments n value = Ok m /\ m <> 0) <-> well_separated (0 <? n) value = true.
Proof.
  induction value as [|b r IH]; intros n Hn; cbn [locale_segments well_separated].
  - rewrite Z.ltb_lt. split; [intros (m & [= <-] & ?); lia|]. intros ?. exists n. split; [done|lia].
  - destruct (is_alphanumeric b).
    + rewrite IH by lia. by rewrite (proj2 (Z.ltb_lt 0 (n + 1))) by lia.
    + destruct (((b =? 95) || (b =? 45)) && (0 <? n)); simpl; [by rewrite IH|]. split; [|done]. by intros (m & ? & _).
Qed.

(** A locale is accepted exactly when it is at most 64 ASCII letters and
    digits in segments joined by single underscores or dashes; so it names no
    directory. *)
Lemma locale_exact (value v : text) :
  DisclaimerLocale_new value = Ok v <->
    v = value /\ 0 < len value <= MAX_DISCLAIMER_LOCALE_BYTES /\ well_separated false value = true.
Proof.
  assert (well_separated false value = true -> forallb (fun b => b <? 128) value = true) as Hascii.
  { generalize false. induction value as [|b r IH]; intros a; cbn [well_separated forallb]; [done|].
    intros H. destruct (is_alphanumeric b) eqn:Eb.
    - rewrite (IH true H), andb_true_r. unfold is_alphanumeric in Eb. apply Z.ltb_lt.
      destruct (Z.leb_spec b 90), (Z.leb_spec b 122), (Z.leb_spec b 57); lia.
    - apply andb_true_iff in H as [H Hr]. rewrite (IH false Hr), andb_true_r. apply andb_true_iff in H as [H _].
      apply Z.ltb_lt. apply orb_true_iff in H as [H|H]; apply Z.eqb_eq in H; lia. }
  unfold DisclaimerLocale_new. case_bool_decide as Hne.
  { subst. split; [done|]. intros (_ & Hl & _). unfold len in Hl. cbn in Hl. lia. }
  assert (0 < len value) as Hpos.
  { destruct value; [done|]. rewrite len_cons. pose proof (len_nonneg value). lia. }
  destruct (Z.ltb_spec MAX_DISCLAIMER_LOCALE_BYTES (len value)); [split; [done|lia]|].
  pose proof (locale_segments_ok value 0 ltac:(lia)) as Hseg. change (0 <? 0) with false in Hseg.
  destruct (forallb (fun b => b <? 128) value) eqn:Ef; simpl.
  2:{ split; [done|]. intros (_ & _ & Hw). by specialize (Hascii Hw). }
  destruct (locale_segments 0 value) as [m|e]; cbn [mbind result_bind].
  - destruct (Z.eqb_spec m 0) as [->|Hm].
    + split; [done|]. intros (_ & _ & Hw). apply Hseg in Hw as (m & [= <-] & ?). done.
    + split; [intros [= <-]|by intros (-> & _)]. split; [done|]. split; [lia|]. apply Hseg. eauto.
  - split; [done|]. intros (_ & _ & Hw). by apply Hseg in Hw as (m & ? & _).
Qed.

Example sample_grant_accepted :
  validate_session_grant (fun _ => Ok (E := unit) tt) (mkSigned sample_claims [] [] []) sample_context = Ok sample_grant.
Proof. reflexivity. Qed.
