(* ===== verification/IdentityResume.v ===== *)
(** * Identity: direct-resume grants

    Models [shared/identity/src/direct_resume.rs]: the claims of a grant that
    lets a Deck resume its session, the bytes that are signed, the opaque
    token, and its validation against the session it must belong to.  The
    signer, the verifier and the JSON codec of the envelope are third-party
    code or adapters and are parameters. *)

From stdpp Require Import strings.
From S2P Require Import Prelude Utf8 IdentityGrants.

Definition DIRECT_RESUME_SIGNING_DOMAIN : text := string_bytes "arcen-direct-quic-resume-v1".
Definition DIRECT_RESUME_SCHEMA : text := string_bytes "arcen.direct_wss_resume".
Definition DIRECT_RESUME_VERSION : Z := 1.
Definition DIRECT_RESUME_AUDIENCE : text := string_bytes "arcen-direct-quic".
Definition DIRECT_RESUME_ALGORITHM : text := string_bytes "hmac-sha256".
Definition MAX_DIRECT_RESUME_LIFETIME_SECONDS : Z := 14400.
Definition MAX_DIRECT_RESUME_TOKEN_BYTES : Z := 8192.
Definition MAX_DIRECT_RESUME_SESSION_ID_BYTES : Z := 128.
Definition MAX_WINDOWS_SID_BYTES : Z := 184.
Definition MAX_LOGIND_SESSION_ID_BYTES : Z := 128.
Definition MAX_DISCLAIMER_VERSION_BYTES : Z := 64.
Definition DIRECT_RESUME_TOKEN_PREFIX : text := string_bytes "v1.".

Inductive DirectResumeError :=
| TokenTooLong | MalformedToken | UnsupportedTokenVersion | UnsupportedSchema | UnsupportedClaimsVersion
| ResumeAudienceMismatch | AlgorithmMismatch | EmptyHost | HostIdentityTooLong | EmptyActiveSession
| ActiveSessionTooLong | InvalidWindowsSid | WindowsSidTooLong | EmptyLogindSession | LogindSessionTooLong
| EmptyDisclaimerVersion | DisclaimerVersionTooLong | ResumeIssuedInFuture | ResumeExpired | ResumeInvalidLifetime
| HostMismatch | ActiveSessionMismatch | NativePrincipalMismatch | HolderNonceMismatch | GenerationMismatch
| ResumeNonceMismatch | DisclaimerDigestMismatch | DisclaimerVersionMismatch.
#[global] Instance DirectResumeError_eq_dec : EqDecision DirectResumeError. Proof. solve_decision. Defined.

(** ** Bounded values *)

Inductive DirectResumeStringKind := KHostIdentity | KActiveSession | KWindowsSid | KLogindSession | KDisclaimerVersion.

Definition empty_error (k : DirectResumeStringKind) : DirectResumeError :=
  match k with
  | KHostIdentity => EmptyHost | KActiveSession => EmptyActiveSession | KWindowsSid => InvalidWindowsSid
  | KLogindSession => EmptyLogindSession | KDisclaimerVersion => EmptyDisclaimerVersion
  end.

Definition too_long_error (k : DirectResumeStringKind) : DirectResumeError :=
  match k with
  | KHostIdentity => HostIdentityTooLong | KActiveSession => ActiveSessionTooLong | KWindowsSid => WindowsSidTooLong
  | KLogindSession => LogindSessionTooLong | KDisclaimerVersion => DisclaimerVersionTooLong
  end.

Definition validate_bounded_string (value : text) (maximum : Z) (k : DirectResumeStringKind)
  : result DirectResumeError unit :=
  if bool_decide (value = []) then Err (empty_error k)
  else if maximum <? len value then Err (too_long_error k)
  else Ok tt.

(** [ActiveHostSessionId::new], [LogindSessionId::new], [DisclaimerVersion::new]. *)
Definition bounded_resume_string (maximum : Z) (k : DirectResumeStringKind) (value : text)
  : result DirectResumeError text :=
  _ ← validate_bounded_string value maximum k; Ok value.

(** The components of a SID after its [S-]: digits between dashes; the count
    of components, from the state of the current one. *)
Fixpoint sid_components (component_empty : bool) (value : text) : option Z :=
  match value with
  | [] => if component_empty then None else Some 1
  | b :: r =>
    if b =? 45 then if component_empty then None else n ← sid_components true r; Some (n + 1)
    else if (48 <=? b) && (b <=? 57) then sid_components false r else None
  end.

Definition WindowsSid_new (value : text) : result DirectResumeError text :=
  _ ← validate_bounded_string value MAX_WINDOWS_SID_BYTES KWindowsSid;
  match value with
  | a :: b :: components =>
    if (a =? 83) && (b =? 45) then
      match sid_components true components with
      | Some component_count => if component_count <? 2 then Err InvalidWindowsSid else Ok value
      | None => Err InvalidWindowsSid
      end
    else Err InvalidWindowsSid
  | _ => Err InvalidWindowsSid
  end.

(** ** Claims *)

Inductive NativePrincipal :=
| Windows (sid : text) (wts_session_id : Z)
| Linux (uid : Z) (logind_session_id : text).
#[global] Instance NativePrincipal_eq_dec : EqDecision NativePrincipal. Proof. solve_decision. Defined.

Record DirectResumeGrantClaims := mkResumeClaims {
  schema : text;
  r_version : Z;
  r_audience : text;
  r_algorithm : text;
  r_host_identity : text;
  active_session_id : text;
  native_principal : NativePrincipal;
  holder_nonce : list Z;
  generation : Z;
  r_nonce : list Z;
  disclaimer_digest : list Z;
  disclaimer_version : text;
  r_issued_at : Z;
  r_expires_at : Z
}.

Definition validate_lifetime (c : DirectResumeGrantClaims) : result DirectResumeError unit :=
  lifetime ← ok_or (checked_sub (r_expires_at c) (r_issued_at c)) ResumeInvalidLifetime;
  guard_err ((lifetime =? 0) || (MAX_DIRECT_RESUME_LIFETIME_SECONDS <? lifetime)) ResumeInvalidLifetime.

Definition validate_claim_structure (c : DirectResumeGrantClaims) : result DirectResumeError unit :=
  _ ← guard_err (negb (bool_decide (schema c = DIRECT_RESUME_SCHEMA))) UnsupportedSchema;
  _ ← guard_err (negb (r_version c =? DIRECT_RESUME_VERSION)) UnsupportedClaimsVersion;
  _ ← guard_err (negb (bool_decide (r_audience c = DIRECT_RESUME_AUDIENCE))) ResumeAudienceMismatch;
  _ ← guard_err (negb (bool_decide (r_algorithm c = DIRECT_RESUME_ALGORITHM))) AlgorithmMismatch;
  _ ← validate_bounded_string (r_host_identity c) MAX_GRANT_BINDING_VALUE_BYTES KHostIdentity;
  _ ← validate_bounded_string (active_session_id c) MAX_DIRECT_RESUME_SESSION_ID_BYTES KActiveSession;
  _ ← match native_principal c with
      | Windows sid _ => validate_bounded_string sid MAX_WINDOWS_SID_BYTES KWindowsSid
      | Linux _ logind => validate_bounded_string logind MAX_LOGIND_SESSION_ID_BYTES KLogindSession
      end;
  _ ← validate_bounded_string (disclaimer_version c) MAX_DISCLAIMER_VERSION_BYTES KDisclaimerVersion;
  validate_lifetime c.

Definition DirectResumeGrantClaims_new (host session : text) (principal : NativePrincipal) (holder : list Z)
    (gen : Z) (n digest : list Z) (dversion : text) (issued expires : Z) : result DirectResumeError DirectResumeGrantClaims :=
  let c := mkResumeClaims DIRECT_RESUME_SCHEMA DIRECT_RESUME_VERSION DIRECT_RESUME_AUDIENCE DIRECT_RESUME_ALGORITHM
    host session principal holder gen n digest dversion issued expires in
  _ ← validate_claim_structure c;
  _ ← validate_lifetime c;
  Ok c.

(** ** The signed bytes *)

Definition append_part (output part : list Z) : result DirectResumeError (list Z) :=
  length ← ok_or (try_unsigned 32 (len part)) TokenTooLong;
  Ok (output ++ to_be 4 length ++ part).

Fixpoint append_parts (output : list Z) (parts : list (list Z)) : result DirectResumeError (list Z) :=
  match parts with
  | [] => Ok output
  | p :: parts => output ← append_part output p; append_parts output parts
  end.

Definition principal_parts (p : NativePrincipal) : list (list Z) :=
  match p with
  | Windows sid wts => [string_bytes "windows"; sid; to_be 4 wts]
  | Linux uid logind => [string_bytes "linux"; to_be 4 uid; logind]
  end.

Definition signing_parts (c : DirectResumeGrantClaims) : list (list Z) :=
  [DIRECT_RESUME_SIGNING_DOMAIN; schema c; to_be 2 (r_version c); r_audience c; r_algorithm c; r_host_identity c;
   active_session_id c] ++ principal_parts (native_principal c)
  ++ [holder_nonce c; to_be 8 (generation c); r_nonce c; disclaimer_digest c; disclaimer_version c;
      to_be 8 (r_issued_at c); to_be 8 (r_expires_at c)].

Definition canonical_signing_bytes (c : DirectResumeGrantClaims) : result DirectResumeError (list Z) :=
  _ ← validate_claim_structure c;
  append_parts [] (signing_parts c).

(** ** Timing and bindings *)

Definition validate_timing (c : DirectResumeGrantClaims) (now : Z) : result DirectResumeError unit :=
  _ ← validate_lifetime c;
  _ ← guard_err (now <? r_issued_at c) ResumeIssuedInFuture;
  guard_err (r_expires_at c <=? now) ResumeExpired.

Record DirectResumeBindingContext := mkBindingContext {
  b_host_identity : text;
  b_active_session_id : text;
  b_native_principal : NativePrincipal;
  b_holder_nonce : list Z;
  b_disclaimer_digest : list Z;
  b_disclaimer_version : text;
  b_now : Z
}.

Record DirectResumeValidationContext := mkValidationContext {
  x_binding : DirectResumeBindingContext; x_generation : Z; x_nonce : list Z
}.

Definition validate_immutable_bindings (c : DirectResumeGrantClaims) (x : DirectResumeBindingContext)
  : result DirectResumeError unit :=
  _ ← guard_err (negb (bool_decide (r_host_identity c = b_host_identity x))) HostMismatch;
  _ ← guard_err (negb (bool_decide (active_session_id c = b_active_session_id x))) ActiveSessionMismatch;
  _ ← guard_err (negb (bool_decide (native_principal c = b_native_principal x))) NativePrincipalMismatch;
  _ ← guard_err (negb (bool_decide (holder_nonce c = b_holder_nonce x))) HolderNonceMismatch;
  _ ← guard_err (negb (digest_matches (disclaimer_digest c) (b_disclaimer_digest x))) DisclaimerDigestMismatch;
  guard_err (negb (bool_decide (disclaimer_version c = b_disclaimer_version x))) DisclaimerVersionMismatch.

Definition validate_slot_binding (c : DirectResumeGrantClaims) (expected_generation : Z) (expected : list Z)
  : result DirectResumeError unit :=
  _ ← guard_err (negb (generation c =? expected_generation)) GenerationMismatch;
  guard_err (negb (bool_decide (r_nonce c = expected))) ResumeNonceMismatch.

(** ** Tokens *)

Record SignedDirectResumeEnvelope := mkEnvelope { e_claims : DirectResumeGrantClaims; e_signature : list Z }.

Definition starts_with (p t : text) : bool := bool_decide (take (length p) t = p).

Definition token_parse (value : text) : result DirectResumeError text :=
  if MAX_DIRECT_RESUME_TOKEN_BYTES <? len value then Err TokenTooLong
  else if negb (starts_with DIRECT_RESUME_TOKEN_PREFIX value) then
    if bool_decide (46 ∈ value) then Err UnsupportedTokenVersion else Err MalformedToken
  else if len value =? len DIRECT_RESUME_TOKEN_PREFIX then Err MalformedToken
  else Ok value.

Definition decode_hex (value : text) : result DirectResumeError (list Z) :=
  if negb (len value mod 2 =? 0) then Err MalformedToken else ok_or (hex_pairs value) MalformedToken.

Inductive DirectResumeSigningError (E : Type) := SigningClaims (e : DirectResumeError) | Signer (e : E) | Serialization.
Arguments SigningClaims {E} e.
Arguments Signer {E} e.
Arguments Serialization {E}.
Inductive DirectResumeValidationError (E : Type) := ValidationClaims (e : DirectResumeError) | Signature (e : E).
Arguments ValidationClaims {E} e.
Arguments Signature {E} e.

Section Tokens.
Context {E : Type}.
Context (to_vec : SignedDirectResumeEnvelope -> option (list Z)) (from_slice : list Z -> option SignedDirectResumeEnvelope).

Definition token_decode (token : text) : result DirectResumeError SignedDirectResumeEnvelope :=
  encoded ← (if starts_with DIRECT_RESUME_TOKEN_PREFIX token then Ok (drop (length DIRECT_RESUME_TOKEN_PREFIX) token)
             else Err UnsupportedTokenVersion);
  bytes ← decode_hex encoded;
  ok_or (from_slice bytes) MalformedToken.

Definition sign_direct_resume_grant (sign : list Z -> result E (list Z)) (c : DirectResumeGrantClaims) (now : Z)
  : result (DirectResumeSigningError E) text :=
  _ ← map_err SigningClaims (validate_claim_structure c);
  _ ← map_err SigningClaims (validate_timing c now);
  canonical ← map_err SigningClaims (canonical_signing_bytes c);
  signature ← map_err Signer (sign canonical);
  bytes ← ok_or (to_vec (mkEnvelope c signature)) Serialization;
  let token := DIRECT_RESUME_TOKEN_PREFIX ++ hex_text bytes in
  if MAX_DIRECT_RESUME_TOKEN_BYTES <? len token then Err (SigningClaims TokenTooLong) else Ok token.

Definition validate_direct_resume_grant_candidate (verify : list Z -> list Z -> result E unit) (token : text)
    (x : DirectResumeBindingContext) : result (DirectResumeValidationError E) DirectResumeGrantClaims :=
  envelope ← map_err ValidationClaims (token_decode token);
  let c := e_claims envelope in
  _ ← map_err ValidationClaims (validate_claim_structure c);
  canonical ← map_err ValidationClaims (canonical_signing_bytes c);
  _ ← map_err Signature (verify canonical (e_signature envelope));
  _ ← map_err ValidationClaims (validate_immutable_bindings c x);
  _ ← map_err ValidationClaims (validate_timing c (b_now x));
  Ok c.

Definition validate_direct_resume_grant (verify : list Z -> list Z -> result E unit) (token : text)
    (x : DirectResumeValidationContext) : result (DirectResumeValidationError E) DirectResumeGrantClaims :=
  validated ← validate_direct_resume_grant_candidate verify token (x_binding x);
  _ ← map_err ValidationClaims (validate_slot_binding validated (x_generation x) (x_nonce x));
  Ok validated.

End Tokens.

(** ** The signed bytes name the claims *)

(** What the types of the claims say: the widths of the integers and the sizes
    of the nonces and the digest. *)
Definition nonce_bytes (n : list Z) : Prop := Forall is_u8 n /\ len n = 32.

Definition claims_typed (c : DirectResumeGrantClaims) : Prop :=
  in_width 16 (r_version c) /\ in_width 64 (generation c) /\ in_width 64 (r_issued_at c) /\ in_width 64 (r_expires_at c)
  /\ match native_principal c with Windows _ wts => in_width 32 wts | Linux uid _ => in_width 32 uid end
  /\ nonce_bytes (holder_nonce c) /\ nonce_bytes (r_nonce c) /\ nonce_bytes (disclaimer_digest c).

Definition part_bytes (p : list Z) : list Z := to_be 4 (len p) ++ p.

Lemma append_parts_Ok parts : forall output b, append_parts output parts = Ok b <->
  Forall (fun p => in_width 32 (len p)) parts /\ b = output ++ concat (map part_bytes parts).
Proof.
  induction parts as [|p parts IH]; intros output b; cbn [append_parts map concat].
  - rewrite app_nil_r. split; [intros [= <-]; by split|by intros [_ ->]].
  - unfold append_part. destruct (try_unsigned 32 (len p)) as [n|] eqn:En; cbn [ok_or mbind result_bind].
    + apply try_unsigned_Some in En as [-> Hw]. rewrite IH. unfold part_bytes. rewrite !app_assoc, Forall_cons.
      split; intros [H1 H2]; (split; [tauto|done]).
    + split; [done|]. intros [Hall _]. apply Forall_cons in Hall as [Hw _]. by rewrite (try_unsigned_in 32 (len p) Hw) in En.
Qed.

Lemma part_bytes_inj p q r s : in_width 32 (len p) -> in_width 32 (len q) ->
  part_bytes p ++ r = part_bytes q ++ s -> p = q /\ r = s.
Proof.
  intros Hp Hq H. unfold part_bytes in H. rewrite <- !app_assoc in H.
  apply app_inj_1 in H as [Hl H]; [|by rewrite !to_be_length].
  apply (f_equal from_be) in Hl. rewrite !from_to_be_small in Hl by done. 
  apply app_inj_1 in H as [-> ->]; [done|]. unfold len in Hl. lia.
Qed.

Lemma parts_inj ps : forall qs, length ps = length qs -> Forall (fun p => in_width 32 (len p)) ps ->
  Forall (fun p => in_width 32 (len p)) qs -> concat (map part_bytes ps) = concat (map part_bytes qs) -> ps = qs.
Proof.
  induction ps as [|p ps IH]; intros [|q qs] Hlen Hps Hqs H; simpl in Hlen; try done; try lia.
  apply Forall_cons in Hps as [Hp Hps]. apply Forall_cons in Hqs as [Hq Hqs]. cbn [map concat] in H.
  apply part_bytes_inj in H as [-> H]; try done. f_equal. apply IH; try done. lia.
Qed.

Lemma to_be_inj n a b : in_width (8 * Z.of_nat n) a -> in_width (8 * Z.of_nat n) b -> to_be n a = to_be n b -> a = b.
Proof. intros Ha Hb H. apply (f_equal from_be) in H. by rewrite !from_to_be_small in H. Qed.

Lemma parts_cons (a b : list Z) r s : a :: r = b :: s -> a = b /\ r = s.
Proof. by intros [= -> ->]. Qed.

Lemma principal_parts_inj p q ps qs :
  match p with Windows _ wts => in_width 32 wts | Linux uid _ => in_width 32 uid end ->
  match q with Windows _ wts => in_width 32 wts | Linux uid _ => in_width 32 uid end ->
  principal_parts p ++ ps = principal_parts q ++ qs -> p = q /\ ps = qs.
Proof.
  unfold principal_parts. destruct p as [sid wts|uid logind], q as [sid' wts'|uid' logind']; cbn [app]; intros Hp Hq H; try done;
    apply parts_cons in H as [_ H]; apply parts_cons in H as [H1 H]; apply parts_cons in H as [H2 ->].
  - apply to_be_inj in H2; try done. by subst.
  - apply to_be_inj in H1; try done. by subst.
Qed.

Lemma signing_parts_length c : length (signing_parts c) = 17%nat.
Proof. unfold signing_parts. destruct (native_principal c); reflexivity. Qed.

Lemma signing_parts_inj c d : claims_typed c -> claims_typed d -> signing_parts c = signing_parts d -> c = d.
Proof.
  intros (Hc1 & Hc2 & Hc3 & Hc4 & Hc5 & _) (Hd1 & Hd2 & Hd3 & Hd4 & Hd5 & _) H. unfold signing_parts in H.
  cbn [app] in H. apply parts_cons in H as [_ H]. apply parts_cons in H as [Hs H]. apply parts_cons in H as [Hv H].
  apply parts_cons in H as [Ha H]. apply parts_cons in H as [Hal H]. apply parts_cons in H as [Hh H]. apply parts_cons in H as [Hse H].
  apply principal_parts_inj in H as [Hp H]; [|done|done].
  apply parts_cons in H as [Hho H]. apply parts_cons in H as [Hg H]. apply parts_cons in H as [Hn H]. apply parts_cons in H as [Hdg H].
  apply parts_cons in H as [Hdv H]. apply parts_cons in H as [Hi H]. apply parts_cons in H as [He _].
  apply to_be_inj in Hv; [|done|done]. apply to_be_inj in Hg; [|done|done].
  apply to_be_inj in Hi; [|done|done]. apply to_be_inj in He; [|done|done].
  destruct c, d; simpl in *; congruence.
Qed.

Lemma canonical_Ok c b : canonical_signing_bytes c = Ok b <->
  validate_claim_structure c = Ok tt /\ Forall (fun p => in_width 32 (len p)) (signing_parts c)
  /\ b = concat (map part_bytes (signing_parts c)).
Proof. unfold canonical_signing_bytes. by rewrite unit_bind_Ok, append_parts_Ok. Qed.

Lemma canonical_inj c d b : claims_typed c -> claims_typed d ->
  canonical_signing_bytes c = Ok b -> canonical_signing_bytes d = Ok b -> c = d.
Proof.
  intros Hc Hd (_ & Hpc & ->)%canonical_Ok (_ & Hpd & H)%canonical_Ok. apply signing_parts_inj; try done.
  apply parts_inj; try done. by rewrite !signing_parts_length.
Qed.

(** ** What a validated grant says *)

Lemma lifetime_Ok c u : validate_lifetime c = Ok u <->
  0 < r_expires_at c - r_issued_at c <= MAX_DIRECT_RESUME_LIFETIME_SECONDS.
Proof.
  unfold validate_lifetime, checked_sub. destruct u.
  destruct (Z.leb_spec (r_issued_at c) (r_expires_at c)); cbn [ok_or mbind result_bind].
  - rewrite guard_err_Ok, orb_false_iff, Z.eqb_neq, Z.ltb_ge. lia.
  - split; [done|]. lia.
Qed.

Lemma bounded_string_Ok value maximum k u : validate_bounded_string value maximum k = Ok u <->
  value <> [] /\ len value <= maximum.
Proof.
  unfold validate_bounded_string. destruct u. case_bool_decide; [naive_solver|].
  destruct (Z.ltb_spec maximum (len value)); split; try done; by intros [_ ?]; lia.
Qed.

Lemma timing_Ok c now u : validate_timing c now = Ok u <->
  r_issued_at c <= now < r_expires_at c /\ r_expires_at c - r_issued_at c <= MAX_DIRECT_RESUME_LIFETIME_SECONDS.
Proof.
  unfold validate_timing. rewrite !unit_bind_Ok, lifetime_Ok, !guard_err_Ok, Z.ltb_ge, Z.leb_gt. lia.
Qed.

(** The claims belong to this session. *)
Definition belongs (c : DirectResumeGrantClaims) (x : DirectResumeBindingContext) : Prop :=
  r_host_identity c = b_host_identity x /\ active_session_id c = b_active_session_id x
  /\ native_principal c = b_native_principal x /\ holder_nonce c = b_holder_nonce x
  /\ disclaimer_digest c = b_disclaimer_digest x /\ disclaimer_version c = b_disclaimer_version x.

Lemma immutable_bindings_Ok c x u : nonce_bytes (disclaimer_digest c) -> nonce_bytes (b_disclaimer_digest x) ->
  validate_immutable_bindings c x = Ok u <-> belongs c x.
Proof.
  intros [Hc Hlc] [Hx Hlx]. unfold validate_immutable_bindings, belongs.
  rewrite !unit_bind_Ok, !guard_err_Ok, !negb_false_iff, !bool_decide_eq_true.
  rewrite digest_matches_eq by (done || (unfold len in *; lia)). done.
Qed.

Lemma slot_binding_Ok c gen n u : validate_slot_binding c gen n = Ok u <-> generation c = gen /\ r_nonce c = n.
Proof.
  unfold validate_slot_binding. by rewrite unit_bind_Ok, !guard_err_Ok, !negb_false_iff, Z.eqb_eq, bool_decide_eq_true.
Qed.

Section Validation.
Context {E : Type} (to_vec : SignedDirectResumeEnvelope -> option (list Z))
  (from_slice : list Z -> option SignedDirectResumeEnvelope).
Context (verify : list Z -> list Z -> result E unit).

(** A candidate is accepted for exactly these reasons. *)
Definition genuine (token : text) (c : DirectResumeGrantClaims) : Prop :=
  exists signature canonical, token_decode from_slice token = Ok (mkEnvelope c signature)
    /\ canonical_signing_bytes c = Ok canonical /\ verify canonical signature = Ok tt.

Lemma map_err_bind {E1 E2 A B} (f : E1 -> E2) (r : result E1 A) (k : A -> result E2 B) b :
  (a ← map_err f r; k a) = Ok b <-> exists a, r = Ok a /\ k a = Ok b.
Proof.
  destruct r as [a|e]; cbn; [|by split; [|intros (? & ? & _)]]. split; [by exists a|]. by intros (a' & [= ->] & ?).
Qed.

Lemma validate_Ok token x c :
  (forall t d, genuine t d -> nonce_bytes (disclaimer_digest d)) -> nonce_bytes (b_disclaimer_digest (x_binding x)) ->
  validate_direct_resume_grant from_slice verify token x = Ok c <->
    genuine token c /\ belongs c (x_binding x)
    /\ (r_issued_at c <= b_now (x_binding x) < r_expires_at c
        /\ r_expires_at c - r_issued_at c <= MAX_DIRECT_RESUME_LIFETIME_SECONDS)
    /\ generation c = x_generation x /\ r_nonce c = x_nonce x.
Proof.
  intros Htyped Hx. unfold validate_direct_resume_grant, validate_direct_resume_grant_candidate.
  rewrite bind_Ok. split.
  - intros (v & Hv & Hslot). apply map_err_bind in Hv as ([d sg] & Hdec & Hv). cbn in Hv.
    apply map_err_bind in Hv as ([] & Hst & Hv). apply map_err_bind in Hv as (canonical & Hcan & Hv).
    apply map_err_bind in Hv as ([] & Hver & Hv). apply map_err_bind in Hv as ([] & Hbind & Hv).
    apply map_err_bind in Hv as ([] & Htime & Hv). injection Hv as <-.
    apply map_err_bind in Hslot as ([] & Hslot & [= <-]).
    assert (genuine token d) as Hg by (exists sg, canonical; done).
    apply immutable_bindings_Ok in Hbind; [|by eapply Htyped|done].
    apply timing_Ok in Htime. apply slot_binding_Ok in Hslot. done.
  - intros (Hg & Hb & Ht & Hs). pose proof Hg as (sg & canonical & Hdec & Hcan & Hver). exists c.
    rewrite Hdec. cbn. pose proof Hcan as (Hst & _)%canonical_Ok. rewrite Hst. cbn. rewrite Hcan. cbn. rewrite Hver. cbn.
    rewrite (proj2 (immutable_bindings_Ok c (x_binding x) tt (Htyped token c Hg) Hx) Hb). cbn.
    rewrite (proj2 (timing_Ok c (b_now (x_binding x)) tt) Ht). cbn.
    rewrite (proj2 (slot_binding_Ok c (x_generation x) (x_nonce x) tt) Hs). done.
Qed.

Lemma genuine_typed token c :
  (forall bytes e, from_slice bytes = Some e -> claims_typed (e_claims e)) -> genuine token c -> claims_typed c.
Proof.
  intros Hdecoded (sg & canonical & Hdec & _). unfold token_decode in Hdec.
  apply bind_Ok in Hdec as (encoded & _ & Hdec). apply bind_Ok in Hdec as (bytes & _ & Hdec).
  apply ok_or_Ok in Hdec. by apply Hdecoded in Hdec.
Qed.

(** Signing gives a token that decodes to what was signed. *)
Lemma sign_Ok sign c now token :
  (forall e bytes, to_vec e = Some bytes -> Forall is_u8 bytes /\ bytes <> [] /\ from_slice bytes = Some e) ->
  sign_direct_resume_grant (E := E) to_vec sign c now = Ok token ->
  exists signature canonical, canonical_signing_bytes c = Ok canonical /\ sign canonical = Ok signature
    /\ token_decode from_slice token = Ok (mkEnvelope c signature)
    /\ token_parse token = Ok token
    /\ (r_issued_at c <= now < r_expires_at c
        /\ r_expires_at c - r_issued_at c <= MAX_DIRECT_RESUME_LIFETIME_SECONDS).
Proof.
  intros Hserde Hsign. unfold sign_direct_resume_grant in Hsign.
  apply map_err_bind in Hsign as ([] & Hst & Hsign). apply map_err_bind in Hsign as ([] & Ht & Hsign).
  apply map_err_bind in Hsign as (canonical & Hcan & Hsign). apply map_err_bind in Hsign as (sg & Hsg & Hsign).
  destruct (to_vec (mkEnvelope c sg)) as [bytes|] eqn:Ev; cbn [ok_or mbind result_bind] in Hsign; [|done].
  destruct (Hserde _ _ Ev) as (Hu8 & Hne & Hfrom).
  destruct (Z.ltb_spec MAX_DIRECT_RESUME_TOKEN_BYTES (len (DIRECT_RESUME_TOKEN_PREFIX ++ hex_text bytes))); [done|].
  apply Ok_inj in Hsign. subst token. exists sg, canonical. split; [done|]. split; [done|].
  assert (starts_with DIRECT_RESUME_TOKEN_PREFIX (DIRECT_RESUME_TOKEN_PREFIX ++ hex_text bytes) = true) as Hpre.
  { unfold starts_with. rewrite take_app_length. by apply bool_decide_eq_true_2. }
  split; [|split; [|by apply timing_Ok in Ht]].
  - unfold token_decode. rewrite Hpre, drop_app_length. cbn [mbind result_bind]. unfold decode_hex.
    rewrite hex_text_len, (Z.mul_comm 2), Z.mod_mul by done. cbn [negb Z.eqb]. rewrite hex_pairs_text by done.
    cbn [ok_or mbind result_bind]. by rewrite Hfrom.
  - unfold token_parse. rewrite (proj2 (Z.ltb_ge _ _)) by done. rewrite Hpre. cbn [negb].
    rewrite len_app, hex_text_len. destruct (Z.eqb_spec (len DIRECT_RESUME_TOKEN_PREFIX + 2 * len bytes) (len DIRECT_RESUME_TOKEN_PREFIX)) as [Hz|]; [|done].
    destruct bytes as [|b r]; [done|]. rewrite len_cons in Hz. pose proof (len_nonneg r). lia.
Qed.

End Validation.

(** C22: A resume grant that is accepted was issued, for this session, as it
    is.  Suppose the verifier accepts only signatures made over bytes that
    were signed.  Then accepted claims are, in every field, claims the host
    signed: the signed bytes name their claims, so no other claims verify under
    a signature made for them.  They belong to the session they are presented
    to (host, session, native principal, holder, disclaimer and its version),
    carry the slot's generation and nonce, and are presented while live, with
    a lifetime of at most four hours. *)
Theorem resume_grant_authentic {E : Type} (from_slice : list Z -> option SignedDirectResumeEnvelope)
    (verify : list Z -> list Z -> result E unit) (issued : list DirectResumeGrantClaims)
    (token : text) (x : DirectResumeValidationContext) (c : DirectResumeGrantClaims)
  (Hdecoded : forall bytes e, from_slice bytes = Some e -> claims_typed (e_claims e))
  (Hissued : Forall claims_typed issued)
  (Hverify : forall canonical signature, verify canonical signature = Ok tt ->
     exists d, d ∈ issued /\ canonical_signing_bytes d = Ok canonical)
  (Hx : nonce_bytes (b_disclaimer_digest (x_binding x)))
  (Hvalid : validate_direct_resume_grant from_slice verify token x = Ok c) :
  (c ∈ issued) /\ belongs c (x_binding x)
  /\ generation c = x_generation x /\ r_nonce c = x_nonce x
  /\ r_issued_at c <= b_now (x_binding x) < r_expires_at c
  /\ r_expires_at c - r_issued_at c <= MAX_DIRECT_RESUME_LIFETIME_SECONDS.
Proof.
  assert (forall t d, genuine from_slice verify t d -> claims_typed d) as Htyped by (intros t d; by apply genuine_typed).
  apply validate_Ok in Hvalid as (Hg & Hb & [Ht Hl] & Hgen & Hn); [| |done].
  2:{ intros t d Hd. by apply Htyped in Hd as (_ & _ & _ & _ & _ & _ & _ & ?). }
  pose proof Hg as (sg & canonical & _ & Hcan & Hver).
  destruct (Hverify canonical sg Hver) as (d & Hd & Hcd).
  assert (c = d) as ->; [|done]. apply (canonical_inj c d canonical); try done; [by eapply Htyped|].
  rewrite Forall_forall in Hissued. by apply Hissued.
Qed.

(** A signed grant resumes its own session.  When the codec of the
    envelope reads back what it writes and the verifier accepts what the
    signer signs, a token that was signed decodes to its claims and is accepted
    by the session it names, with its generation and nonce, at any time in its
    lifetime; and at no time outside it. *)
Theorem signed_grant_accepted {E : Type} (to_vec : SignedDirectResumeEnvelope -> option (list Z))
    (from_slice : list Z -> option SignedDirectResumeEnvelope)
    (sign : list Z -> result E (list Z)) (verify : list Z -> list Z -> result E unit)
    (c : DirectResumeGrantClaims) (now later : Z) (token : text)
  (Hserde : forall e bytes, to_vec e = Some bytes -> Forall is_u8 bytes /\ bytes <> [] /\ from_slice bytes = Some e)
  (Hpair : forall canonical signature, sign canonical = Ok signature -> verify canonical signature = Ok tt)
  (Hdecoded : forall bytes e, from_slice bytes = Some e -> claims_typed (e_claims e))
  (Hsign : sign_direct_resume_grant to_vec sign c now = Ok token) :
  let x := mkValidationContext (mkBindingContext (r_host_identity c) (active_session_id c) (native_principal c)
    (holder_nonce c) (disclaimer_digest c) (disclaimer_version c) later) (generation c) (r_nonce c) in
  token_parse token = Ok token
  /\ (validate_direct_resume_grant from_slice verify token x = Ok c <-> r_issued_at c <= later < r_expires_at c).
Proof.
  intros x. pose proof (sign_Ok to_vec from_slice sign c now token Hserde Hsign) as (sg & canonical & Hcan & Hsg & Hdec & Hp & Ht).
  split; [done|].
  assert (forall t d, genuine from_slice verify t d -> claims_typed d) as Htyped by (intros t d; by apply genuine_typed).
  assert (genuine from_slice verify token c) as Hg by (exists sg, canonical; auto).
  assert (nonce_bytes (disclaimer_digest c)) as Hdg by (by apply Htyped in Hg as (_ & _ & _ & _ & _ & _ & _ & ?)).
  rewrite validate_Ok.
  - cbn. split; [by intros (_ & _ & [? _] & _)|]. intros Hl. split; [done|]. split; [done|]. split; [|done]. split; [done|lia].
  - intros t d Hd. by apply Htyped in Hd as (_ & _ & _ & _ & _ & _ & _ & ?).
  - done.
Qed.

#[global] Instance DirectResumeGrantClaims_eq_dec : EqDecision DirectResumeGrantClaims. Proof. solve_decision. Defined.
#[global] Instance SignedDirectResumeEnvelope_eq_dec : EqDecision SignedDirectResumeEnvelope. Proof. solve_decision. Defined.

(** A host that has issued one grant, with a codec and a key that know it. *)
Definition resume_claims : DirectResumeGrantClaims :=
  mkResumeClaims DIRECT_RESUME_SCHEMA 1 DIRECT_RESUME_AUDIENCE DIRECT_RESUME_ALGORITHM (string_bytes "pier") (string_bytes "s-1")
    (Linux 1000 (string_bytes "c2")) (replicate 32 1) 3 (replicate 32 2) (replicate 32 9) (string_bytes "v1") 100 700.
Definition resume_envelope : SignedDirectResumeEnvelope := mkEnvelope resume_claims (replicate 32 5).
Definition one_to_vec (e : SignedDirectResumeEnvelope) : option (list Z) :=
  if bool_decide (e = resume_envelope) then Some [123; 125] else None.
Definition one_from_slice (bytes : list Z) : option SignedDirectResumeEnvelope :=
  if bool_decide (bytes = [123; 125]) then Some resume_envelope else None.
Definition one_sign (canonical : list Z) : result unit (list Z) :=
  if bool_decide (canonical_signing_bytes resume_claims = Ok canonical) then Ok (replicate 32 5) else Err tt.
Definition one_verify (canonical signature : list Z) : result unit unit :=
  if bool_decide (canonical_signing_bytes resume_claims = Ok canonical) && bool_decide (signature = replicate 32 5)
  then Ok tt else Err tt.
Definition resume_context (now : Z) : DirectResumeValidationContext :=
  mkValidationContext (mkBindingContext (string_bytes "pier") (string_bytes "s-1") (Linux 1000 (string_bytes "c2"))
    (replicate 32 1) (replicate 32 9) (string_bytes "v1") now) 3 (replicate 32 2).

Lemma resume_claims_typed : claims_typed resume_claims.
Proof. unfold claims_typed, nonce_bytes. cbn -[Z.pow]. repeat split; try lia; repeat constructor; lia. Qed.

Lemma one_decoded bytes e : one_from_slice bytes = Some e -> claims_typed (e_claims e).
Proof. unfold one_from_slice. case_bool_decide; [|done]. intros [= <-]. apply resume_claims_typed. Qed.

Definition resume_token : text := string_bytes "v1.7b7d".

Lemma resume_grant_authentic_witness :
  validate_direct_resume_grant one_from_slice one_verify resume_token (resume_context 500) = Ok resume_claims
  /\ (resume_claims ∈ [resume_claims]) /\ belongs resume_claims (x_binding (resume_context 500)).
Proof.
  assert (validate_direct_resume_grant one_from_slice one_verify resume_token (resume_context 500) = Ok resume_claims) as Hv
    by (vm_compute; reflexivity).
  destruct (resume_grant_authentic one_from_slice one_verify [resume_claims] resume_token (resume_context 500) resume_claims)
    as (Hin & Hb & _).
  - apply one_decoded.
  - constructor; [apply resume_claims_typed|constructor].
  - intros canonical signature. unfold one_verify. case_bool_decide; [|discriminate]. intros _.
    exists resume_claims. split; [apply elem_of_cons; left; reflexivity|assumption].
  - split; [repeat constructor; lia|reflexivity].
  - exact Hv.
  - split; [exact Hv|]. split; [exact Hin|exact Hb].
Defined.

Lemma signed_grant_accepted_witness :
  sign_direct_resume_grant one_to_vec one_sign resume_claims 100 = Ok resume_token
  /\ validate_direct_resume_grant one_from_slice one_verify resume_token (resume_context 699) = Ok resume_claims
  /\ validate_direct_resume_grant one_from_slice one_verify resume_token (resume_context 700) <> Ok resume_claims.
Proof.
  assert (sign_direct_resume_grant one_to_vec one_sign resume_claims 100 = Ok resume_token) as Hs by (vm_compute; reflexivity).
  assert (forall later, token_parse resume_token = Ok resume_token
    /\ (validate_direct_resume_grant one_from_slice one_verify resume_token (resume_context later) = Ok resume_claims <-> 100 <= later < 700)) as H.
  { intros later. apply (signed_grant_accepted one_to_vec one_from_slice one_sign one_verify resume_claims 100 later resume_token).
    - intros e bytes. unfold one_to_vec. case_bool_decide as He; [|discriminate]. intros [= <-]. rewrite He.
      split; [repeat constructor; lia|]. split; [discriminate|reflexivity].
    - intros canonical signature. unfold one_sign, one_verify. case_bool_decide; [|discriminate]. intros [= <-].
      rewrite bool_decide_eq_true_2; reflexivity.
    - apply one_decoded.
    - exact Hs. }
  split; [exact Hs|]. split; [apply (H 699); lia|]. intros Hv. apply (H 700) in Hv. lia.
Defined.
