(* ===== verification/Float64.v ===== *)
(** * Binary64 arithmetic

    Rust's [f64] by the Standard Library's specification of IEEE 754
    arithmetic ([SpecFloat]) at 53 bits of precision, rounding to nearest with
    ties to even: the operations, comparisons and casts the components use.
    All of it evaluates.  A decimal literal is the quotient of two integers
    that a [f64] holds exactly, which is the nearest [f64] to it. *)

From Stdlib Require Import SpecFloat.
From S2P Require Import Prelude.

Abbreviation f64 := spec_float.

Definition f64_mul : f64 -> f64 -> f64 := SFmul 53 1024.
Definition f64_div : f64 -> f64 -> f64 := SFdiv 53 1024.
Definition f64_add : f64 -> f64 -> f64 := SFadd 53 1024.
Definition f64_sub : f64 -> f64 -> f64 := SFsub 53 1024.
Definition f64_abs : f64 -> f64 := SFabs.
Definition f64_ltb : f64 -> f64 -> bool := SFltb.
Definition f64_leb : f64 -> f64 -> bool := SFleb.
Definition f64_zero : f64 := S754_zero false.

Definition is_nan (x : f64) : bool := match x with S754_nan => true | _ => false end.
Definition is_finite (x : f64) : bool := match x with S754_nan | S754_infinity _ => false | _ => true end.

(** [f64::max] and [f64::min]: a NaN gives the other operand. *)
Definition f64_max (a b : f64) : f64 := if is_nan a then b else if is_nan b then a else if f64_ltb a b then b else a.
Definition f64_min (a b : f64) : f64 := if is_nan a then b else if is_nan b then a else if f64_ltb b a then b else a.

(** An integer [as f64]: the nearest. *)
Definition of_int (z : Z) : f64 := binary_normalize 53 1024 z 0 false.

(** The literal [n / d]. *)
Definition lit (n d : Z) : f64 := f64_div (of_int n) (of_int d).

(** [f64::round] followed by the cast to an unsigned integer of [w] bits: half
    away from zero, then saturating, a NaN giving zero. *)
Definition saturate (w z : Z) : Z := Z.max 0 (Z.min z (umax w)).

Definition round_magnitude (m : positive) (e : Z) : Z :=
  if 0 <=? e then Z.shiftl (Zpos m) e else Z.shiftr (Zpos m + Z.shiftl 1 (- e - 1)) (- e).

Definition round_as (w : Z) (x : f64) : Z :=
  match x with
  | S754_nan | S754_zero _ => 0
  | S754_infinity s => if s then 0 else umax w
  | S754_finite s m e => if s then 0 else saturate w (round_magnitude m e)
  end.

(** [f64::round] kept as a float. *)
Definition f64_round (x : f64) : f64 :=
  match x with
  | S754_finite s m e => binary_normalize 53 1024 (if s then - round_magnitude m e else round_magnitude m e) 0 s
  | _ => x
  end.

(** A float [as] an unsigned integer: towards zero, saturating. *)
Definition trunc_as (w : Z) (x : f64) : Z :=
  match x with
  | S754_nan | S754_zero _ => 0
  | S754_infinity s => if s then 0 else umax w
  | S754_finite s m e => if s then 0 else saturate w (Z.shiftl (Zpos m) e)
  end.

(** [Duration::as_secs_f64] of a duration in nanoseconds. *)
Definition as_secs_f64 (d : Z) : f64 :=
  f64_add (of_int (d / NANOS_PER_SEC)) (f64_div (of_int (d mod NANOS_PER_SEC)) (of_int NANOS_PER_SEC)).

Lemma saturate_range w z : 0 <= w -> 0 <= saturate w z <= umax w.
Proof. intros Hw. unfold saturate, umax. pose proof (Z.pow_pos_nonneg 2 w ltac:(lia) Hw). lia. Qed.

Lemma round_as_range w x : 0 <= w -> 0 <= round_as w x <= umax w.
Proof.
  intros Hw. assert (0 <= umax w) as Hu by (unfold umax; pose proof (Z.pow_pos_nonneg 2 w ltac:(lia) Hw); lia).
  destruct x as [s|s| |[] m e]; simpl; try lia; [destruct s; lia|by apply saturate_range].
Qed.

Lemma trunc_as_range w x : 0 <= w -> 0 <= trunc_as w x <= umax w.
Proof.
  intros Hw. assert (0 <= umax w) as Hu by (unfold umax; pose proof (Z.pow_pos_nonneg 2 w ltac:(lia) Hw); lia).
  destruct x as [s|s| |[] m e]; simpl; try lia; [destruct s; lia|by apply saturate_range].
Qed.

(** The arithmetic on values a reader can check. *)
Example lit_rounds : round_as 64 (f64_mul (of_int 4000000) (lit 72 100)) = 2880000
  /\ round_as 64 (f64_mul (of_int 1000001) (lit 1 2)) = 500001
  /\ trunc_as 32 (lit 29 10) = 2
  /\ round_as 64 (as_secs_f64 1500000000) = 2.
Proof. by vm_compute. Qed.

(** The value of an integral float, and the cast to a signed integer: towards
    zero, saturating. *)
Definition signed_value (x : f64) : Z :=
  match x with S754_finite s m e => (if s then Z.opp else id) (Z.shiftl (Zpos m) e) | _ => 0 end.
Definition saturate_signed (w z : Z) : Z := Z.max (- 2 ^ (w - 1)) (Z.min z (2 ^ (w - 1) - 1)).
Definition trunc_as_signed (w : Z) (x : f64) : Z :=
  match x with
  | S754_infinity s => if s then - 2 ^ (w - 1) else 2 ^ (w - 1) - 1
  | _ => saturate_signed w (signed_value x)
  end.

Lemma trunc_as_signed_range w x : 1 <= w -> in_signed w (trunc_as_signed w x).
Proof.
  intros Hw. pose proof (Z.pow_pos_nonneg 2 (w - 1) ltac:(lia) ltac:(lia)). unfold in_signed.
  destruct x as [s|s| |s m e]; unfold trunc_as_signed, saturate_signed; try lia. destruct s; lia.
Qed.

Example signed_rounds : trunc_as_signed 32 (f64_round (f64_mul (of_int (-1080)) (lit 15 10))) = -1620
  /\ trunc_as_signed 32 (f64_round (lit (-5) 2)) = -3
  /\ trunc_as_signed 32 (lit (-29) 10) = -2.
Proof. by vm_compute. Qed.
