(* ===== verification/PathSignal.v ===== *)
(** * Telemetry: the path signal

    Models [shared/telemetry/src/path_signal.rs]: the round-trip baseline over
    a window and the deltas of a transport's cumulative counters.  Durations
    are nanoseconds. *)

From S2P Require Import Prelude.

Definition PATH_BASELINE_WINDOW : Z := duration_from_secs 10.
Definition from_micros (us : Z) : Z := us * 1000.

Record PathSignal := mkPathSignal {
  rtt_micros : Z;
  baseline_rtt_micros : Z;
  congestion_window_bytes : Z;
  bytes_in_flight : option Z;
  congestion_events_delta : Z;
  lost_packets_delta : Z;
  lost_bytes_delta : Z;
  sent_packets_delta : Z
}.

Definition rtt (p : PathSignal) : Z := from_micros (rtt_micros p).
Definition baseline_rtt (p : PathSignal) : Z := from_micros (baseline_rtt_micros p).
Definition queue_delay (p : PathSignal) : Z := saturating_sub (rtt p) (baseline_rtt p).

Record BaselineSample := mkBaseline { observed_at : Z; sample_rtt_micros : Z }.

Record PathSignalState := mkPathState {
  baseline_window : Z;
  samples : list BaselineSample;
  congestion_events : Z;
  lost_packets : Z;
  lost_bytes : Z;
  sent_packets : Z
}.

Definition PathSignalState_new (w : Z) : PathSignalState := mkPathState w [] 0 0 0 0.

Record PathSignalCounters := mkCounters {
  c_rtt : Z;
  c_congestion_window_bytes : Z;
  c_bytes_in_flight : option Z;
  c_congestion_events : Z;
  c_lost_packets : Z;
  c_lost_bytes : Z;
  c_sent_packets : Z
}.

Definition micros (d : Z) : Z := Z.min (d / 1000) (umax 64).

(** The loop that drops the samples that have left the window. *)
Fixpoint drop_stale (w now : Z) (l : list BaselineSample) : list BaselineSample :=
  match l with
  | [] => []
  | s :: r => if w <? saturating_sub now (observed_at s) then drop_stale w now r else l
  end.

Fixpoint min_rtt (l : list BaselineSample) : option Z :=
  match l with
  | [] => None
  | s :: r => Some (match min_rtt r with Some m => Z.min (sample_rtt_micros s) m | None => sample_rtt_micros s end)
  end.

Definition path_observe (p : PathSignalState) (now : Z) (c : PathSignalCounters) : PathSignal * PathSignalState :=
  let us := micros (c_rtt c) in
  let kept := drop_stale (baseline_window p) now (samples p ++ [mkBaseline now us]) in
  (mkPathSignal us (default us (min_rtt kept)) (c_congestion_window_bytes c) (c_bytes_in_flight c)
     (saturating_sub (c_congestion_events c) (congestion_events p)) (saturating_sub (c_lost_packets c) (lost_packets p))
     (saturating_sub (c_lost_bytes c) (lost_bytes p)) (saturating_sub (c_sent_packets c) (sent_packets p)),
   mkPathState (baseline_window p) kept (c_congestion_events c) (c_lost_packets c) (c_lost_bytes c) (c_sent_packets c)).

(** ** The signal of a history *)

Fixpoint path_run (p : PathSignalState) (history : list (Z * PathSignalCounters)) : list PathSignal * PathSignalState :=
  match history with
  | [] => ([], p)
  | (now, c) :: r =>
    let '(signal, p) := path_observe p now c in
    let '(signals, p) := path_run p r in (signal :: signals, p)
  end.

(** Counters that only grow, read by a clock that does not go back. *)
Fixpoint cumulative (t events lost bytes sent : Z) (history : list (Z * PathSignalCounters)) : Prop :=
  match history with
  | [] => True
  | (now, c) :: r =>
    t <= now /\ events <= c_congestion_events c /\ lost <= c_lost_packets c /\ bytes <= c_lost_bytes c
    /\ sent <= c_sent_packets c
    /\ cumulative now (c_congestion_events c) (c_lost_packets c) (c_lost_bytes c) (c_sent_packets c) r
  end.

Definition sum (f : PathSignal -> Z) (l : list PathSignal) : Z := fold_right (fun s n => f s + n) 0 l.

(** The deltas add up to the counters: nothing is counted twice or missed. *)
Lemma deltas_telescope history : forall p,
  (exists t, cumulative t (congestion_events p) (lost_packets p) (lost_bytes p) (sent_packets p) history) ->
  let '(signals, p') := path_run p history in
  sum congestion_events_delta signals = congestion_events p' - congestion_events p
  /\ sum lost_packets_delta signals = lost_packets p' - lost_packets p
  /\ sum lost_bytes_delta signals = lost_bytes p' - lost_bytes p
  /\ sum sent_packets_delta signals = sent_packets p' - sent_packets p.
Proof.
  induction history as [|[now c] r IH]; intros p (t & Hc); cbn [path_run]; [unfold sum; simpl; lia|].
  destruct Hc as (Ht & He & Hl & Hb & Hs & Hc). unfold path_observe.
  match goal with |- context [path_run ?q r] => set (p1 := q) end.
  specialize (IH p1 ltac:(by exists now)). destruct (path_run p1 r) as [signals p']. subst p1. simpl in *.
  unfold saturating_sub. lia.
Qed.

Lemma min_rtt_spec l : match min_rtt l with
  | Some m => (exists s, s ∈ l /\ sample_rtt_micros s = m) /\ forall s, s ∈ l -> m <= sample_rtt_micros s
  | None => l = [] end.
Proof.
  induction l as [|s r IH]; simpl; [done|]. destruct (min_rtt r) as [m|].
  - destruct IH as [(s' & Hs' & Hm) Hall]. split.
    + destruct (Z.min_spec (sample_rtt_micros s) m) as [[_ ->]|[_ ->]].
      * exists s. by split; [apply elem_of_cons; left|].
      * exists s'. by split; [apply elem_of_cons; right|].
    + intros x [->|Hx]%elem_of_cons; [lia|]. specialize (Hall x Hx). lia.
  - subst. split; [exists s; by split; [apply elem_of_cons; left|]|]. intros x ->%list_elem_of_singleton. lia.
Qed.

(** The samples of a state are in the order of the clock, up to [t]. *)
Fixpoint ordered (t : Z) (l : list BaselineSample) : Prop :=
  match l with [] => True | s :: r => t <= observed_at s /\ ordered (observed_at s) r end.

Lemma ordered_snoc l : forall t now us, t <= now -> (forall s, s ∈ l -> observed_at s <= now) -> ordered t l ->
  ordered t (l ++ [mkBaseline now us]).
Proof.
  induction l as [|s r IH]; intros t now us Ht Hall Ho; simpl in *; [done|]. destruct Ho as [Hs Ho]. split; [done|].
  apply IH; [apply Hall, elem_of_cons; by left|intros x Hx; apply Hall, elem_of_cons; by right|done].
Qed.

(** Of samples in order, exactly those inside the window are kept. *)
Lemma drop_stale_spec w now l : forall t, 0 <= w -> ordered t l ->
  forall s, s ∈ drop_stale w now l <-> s ∈ l /\ now - observed_at s <= w.
Proof.
  induction l as [|x r IH]; intros t Hw Ho s; cbn [drop_stale].
  { split; [intros Hs; by apply not_elem_of_nil in Hs|by intros [Hs _]]. }
  destruct Ho as [Hx Ho]. unfold saturating_sub. destruct (Z.ltb_spec w (Z.max (now - observed_at x) 0)) as [Hlt|Hge].
  - rewrite (IH (observed_at x) Hw Ho s), elem_of_cons. split; [tauto|]. intros [[->|Hs] Hin]; [lia|done].
  - split; [|tauto]. intros Hs. split; [done|].
    assert (observed_at x <= observed_at s) as Hle; [|lia].
    apply elem_of_cons in Hs as [->|Hs]; [lia|]. clear -Ho Hs. revert Ho Hs. generalize (observed_at x). intros t Ho Hs.
    revert t Ho. induction r as [|y r IH]; intros t Ho; [by apply not_elem_of_nil in Hs|]. destruct Ho as [Hy Ho].
    apply elem_of_cons in Hs as [->|Hs]; [done|]. specialize (IH Hs (observed_at y) Ho). lia.
Qed.

(** What one observation reports of the round trip: the baseline is the least
    round trip seen in the window that ends now, so the queue delay is the time
    above it, and it is never negative nor above the round trip. *)
Lemma observe_baseline p now c :
  0 <= baseline_window p -> ordered 0 (samples p) -> (forall s, s ∈ samples p -> observed_at s <= now) -> 0 <= now ->
  let '(signal, p') := path_observe p now c in
  (exists s, (s ∈ samples p') /\ sample_rtt_micros s = baseline_rtt_micros signal)
  /\ (forall s, s ∈ samples p -> now - observed_at s <= baseline_window p -> baseline_rtt_micros signal <= sample_rtt_micros s)
  /\ baseline_rtt_micros signal <= rtt_micros signal
  /\ (forall s, (s ∈ samples p') <-> (s ∈ samples p \/ s = mkBaseline now (micros (c_rtt c))) /\ now - observed_at s <= baseline_window p).
Proof.
  intros Hw Ho Hle Hnow. unfold path_observe. cbn.
  set (all := samples p ++ [mkBaseline now (micros (c_rtt c))]).
  assert (ordered 0 all) as Hall by (by apply ordered_snoc).
  pose proof (drop_stale_spec (baseline_window p) now all 0 Hw Hall) as Hkept.
  assert (mkBaseline now (micros (c_rtt c)) ∈ drop_stale (baseline_window p) now all) as Hself.
  { apply Hkept. split; [|cbn; lia]. apply elem_of_app. right. by apply list_elem_of_singleton. }
  pose proof (min_rtt_spec (drop_stale (baseline_window p) now all)) as Hmin.
  destruct (min_rtt (drop_stale (baseline_window p) now all)) as [m|]; [|rewrite Hmin in Hself; by apply not_elem_of_nil in Hself].
  destruct Hmin as [Hex Hmin]. cbn. split_and!.
  - done.
  - intros s Hs Hin. apply Hmin, Hkept. split; [|done]. apply elem_of_app. by left.
  - by apply (Hmin _ Hself).
  - intros s. rewrite Hkept. unfold all. by rewrite elem_of_app, list_elem_of_singleton.
Qed.

(** The state after a history: the samples of its last window, in order. *)
Definition sampled (history : list (Z * PathSignalCounters)) (s : BaselineSample) : Prop :=
  exists c, ((observed_at s, c) ∈ history) /\ sample_rtt_micros s = micros (c_rtt c).

Fixpoint clock_ordered (t : Z) (history : list (Z * PathSignalCounters)) : Prop :=
  match history with [] => True | (now, _) :: r => t <= now /\ clock_ordered now r end.

Record path_inv (w last : Z) (seen : BaselineSample -> Prop) (p : PathSignalState) : Prop := {
  pi_window : baseline_window p = w;
  pi_ordered : ordered 0 (samples p);
  pi_last : forall s, seen s -> observed_at s <= last;
  pi_samples : forall s, (s ∈ samples p) <-> seen s /\ last - observed_at s <= w
}.

Lemma drop_stale_ordered w now l : forall t, ordered t l -> 0 <= t -> ordered 0 (drop_stale w now l).
Proof.
  induction l as [|x r IH]; intros t Ho Ht; cbn [drop_stale]; [done|]. destruct Ho as [Hx Ho].
  destruct (w <? _); [apply (IH (observed_at x)); [done|lia]|]. split; [lia|done].
Qed.

Lemma path_inv_step w last seen p now c : 0 <= w -> 0 <= last -> last <= now -> path_inv w last seen p ->
  path_inv w now (fun s => seen s \/ s = mkBaseline now (micros (c_rtt c))) (path_observe p now c).2.
Proof.
  intros Hw H0 Hnow [Hwin Hord Hlast Hsam]. unfold path_observe. cbn [snd].
  assert (forall s, s ∈ samples p -> observed_at s <= now) as Hle by (intros s [Hs _]%Hsam; specialize (Hlast s Hs); lia).
  pose proof (ordered_snoc (samples p) 0 now (micros (c_rtt c)) ltac:(lia) Hle Hord) as Hall.
  split; cbn; [done|by apply (drop_stale_ordered _ _ _ 0)| |].
  - intros s [Hs| ->]; [specialize (Hlast s Hs); lia|done].
  - intros s. rewrite (drop_stale_spec _ _ _ 0) by (done || lia).
    rewrite elem_of_app, list_elem_of_singleton, Hsam, Hwin. split; [tauto|]. intros [[Hs|Hs] Hin]; [|tauto].
    split; [|done]. left. split; [done|lia].
Qed.

Lemma path_run_snoc history : forall p now c,
  path_run p (history ++ [(now, c)]) =
    let '(signals, q) := path_run p history in
    let '(signal, q) := path_observe q now c in (signals ++ [signal], q).
Proof.
  induction history as [|[t d] r IH]; intros p now c; cbn [path_run app]; [by destruct (path_observe p now c)|].
  destruct (path_observe p t d) as [signal p1]. rewrite IH. destruct (path_run p1 r) as [signals q].
  by destruct (path_observe q now c).
Qed.

Lemma path_run_inv w history : 0 <= w -> forall last p seen, 0 <= last -> path_inv w last seen p -> clock_ordered last history ->
  exists last', last <= last' /\ (forall now c, clock_ordered last (history ++ [(now, c)]) -> last' <= now)
    /\ path_inv w last' (fun s => seen s \/ sampled history s) (path_run p history).2.
Proof.
  intros Hw. induction history as [|[t d] r IH]; intros last p seen Hl Hinv Hc; cbn [path_run].
  - exists last. split; [lia|]. split; [by intros now c [? _]|]. destruct Hinv as [H1 H2 H3 H4]. split; try done.
    + intros s [Hs|(c & Hs & _)]; [auto|by apply not_elem_of_nil in Hs].
    + intros s. cbn. rewrite H4. split; [tauto|]. intros [[Hs|(c & Hs & _)] ?]; [tauto|by apply not_elem_of_nil in Hs].
  - destruct Hc as [Ht Hc]. pose proof (path_inv_step w last seen p t d Hw Hl Ht Hinv) as Hstep.
    destruct (path_observe p t d) as [signal p1]. cbn [snd] in Hstep.
    destruct (IH t p1 _ ltac:(lia) Hstep Hc) as (last' & Hl' & Hlater & Hinv').
    destruct (path_run p1 r) as [signals q]. cbn [snd] in *. exists last'. split; [lia|].
    split; [intros now c [_ Hcc]; by apply (Hlater now c)|].
    assert (forall s, (seen s \/ s = mkBaseline t (micros (c_rtt d))) \/ sampled r s <-> seen s \/ sampled ((t, d) :: r) s) as Heq.
    { intros s. unfold sampled. split.
      - intros [[Hk|Hk]|(c & Hin & Hs)]; [tauto|subst s|].
        + right. exists d. split; [apply elem_of_cons; by left|done].
        + right. exists c. split; [apply elem_of_cons; by right|done].
      - intros [Hk|(c & Hin & Hs)]; [tauto|]. apply elem_of_cons in Hin as [Hin|Hin]; [|right; by exists c].
        injection Hin as Ho ->. left. right. destruct s as [o u]. simpl in *. congruence. }
    destruct Hinv' as [H1 H2 H3 H4]. split; try done.
    + intros s Hs. by apply H3, Heq.
    + intros s. by rewrite H4, Heq.
Qed.

(** The path signal measures queueing against the best round trip of the
    window and counts every event once.  For any history of readings of
    cumulative counters by a clock that does not go back, the signal of its
    last reading has as its baseline the least round trip among the readings
    of the window that ends there (the last one included), so that the queue
    delay is exactly the time above it; and the deltas of all the signals add
    up to the counters' last values. *)
Theorem path_signal_exact (w : Z) (history : list (Z * PathSignalCounters)) (now : Z) (c : PathSignalCounters)
  (Hw : 0 <= w)
  (Hhistory : cumulative 0 0 0 0 0 (history ++ [(now, c)])) :
  let '(signals, p) := path_run (PathSignalState_new w) (history ++ [(now, c)]) in
  (exists signal, last signals = Some signal
    /\ (exists t d, ((t, d) ∈ history ++ [(now, c)]) /\ now - t <= w /\ baseline_rtt_micros signal = micros (c_rtt d))
    /\ (forall t d, (t, d) ∈ history ++ [(now, c)] -> now - t <= w -> baseline_rtt_micros signal <= micros (c_rtt d))
    /\ rtt_micros signal = micros (c_rtt c)
    /\ queue_delay signal = rtt signal - baseline_rtt signal)
  /\ sum congestion_events_delta signals = c_congestion_events c
  /\ sum lost_packets_delta signals = c_lost_packets c
  /\ sum lost_bytes_delta signals = c_lost_bytes c
  /\ sum sent_packets_delta signals = c_sent_packets c.
Proof.
  assert (forall h t e l b s, cumulative t e l b s h -> clock_ordered t h) as Hclock.
  { intros h. induction h as [|[t' d] r IH]; intros; simpl in *; [done|]. destruct H as (? & _ & _ & _ & _ & ?). eauto. }
  pose proof (Hclock _ _ _ _ _ _ Hhistory) as Hco.
  assert (clock_ordered 0 history) as Hch.
  { clear -Hco. revert Hco. generalize 0. induction history as [|[t d] r IH]; intros z H; simpl in *; [done|]. destruct H. eauto. }
  pose proof (deltas_telescope (history ++ [(now, c)]) (PathSignalState_new w) ltac:(by exists 0)) as Hsum.
  assert (path_inv w 0 (fun _ => False) (PathSignalState_new w)) as H0.
  { split; try done. intros s. cbn. split; [intros Hs; by apply not_elem_of_nil in Hs|by intros [[] _]]. }
  destruct (path_run_inv w history Hw 0 _ _ ltac:(lia) H0 Hch) as (t' & Ht' & Hlater & Hinv).
  pose proof (Hlater now c Hco) as Hnow. rewrite path_run_snoc in Hsum |- *.
  destruct (path_run (PathSignalState_new w) history) as [signals q]. cbn [snd] in Hinv.
  pose proof (path_inv_step w t' _ q now c Hw ltac:(lia) Hnow Hinv) as Hinv'.
  destruct (path_observe q now c) as [signal q'] eqn:Eo. cbn [snd] in Hinv'.
  assert (forall s, s ∈ samples q -> observed_at s <= now) as Hle.
  { intros s Hs. apply (pi_samples _ _ _ _ Hinv) in Hs as [Hs _]. apply (pi_last _ _ _ _ Hinv) in Hs. lia. }
  pose proof (observe_baseline q now c ltac:(by rewrite (pi_window _ _ _ _ Hinv)) (pi_ordered _ _ _ _ Hinv) Hle ltac:(lia)) as Hob.
  rewrite Eo in Hob. destruct Hob as ((sx & Hsx & Hbx) & _ & Hbr & _).
  assert (forall s, s ∈ samples q' <-> sampled (history ++ [(now, c)]) s /\ now - observed_at s <= w) as Hsam.
  { intros s. rewrite (pi_samples _ _ _ _ Hinv'). unfold sampled. split; (intros [Hs Hin]; split; [|done]).
    - destruct Hs as [[[]|(d & Hd & Hr)]| ->]; [exists d|exists c]; rewrite elem_of_app, list_elem_of_singleton; auto.
    - destruct Hs as (d & Hd & Hr). apply elem_of_app in Hd as [Hd|Hd%list_elem_of_singleton].
      + left. right. by exists d.
      + right. destruct s as [o u]. simpl in *. by injection Hd as -> ->; subst. }
  unfold path_observe in Eo. injection Eo as Esig Eq.
  assert (lost_packets q' = c_lost_packets c /\ congestion_events q' = c_congestion_events c
    /\ lost_bytes q' = c_lost_bytes c /\ sent_packets q' = c_sent_packets c) as (E1 & E2 & E3 & E4) by (by rewrite <- Eq).
  assert (baseline_rtt_micros signal = default (micros (c_rtt c)) (min_rtt (samples q'))) as Hbase by (by rewrite <- Esig, <- Eq).
  assert (rtt_micros signal = micros (c_rtt c)) as Hrtt by (by rewrite <- Esig).
  clear Esig Eq. cbn in Hsum.
  split; [|rewrite E1, E2, E3, E4 in Hsum; lia].
  exists signal. rewrite last_snoc. split; [done|].
  pose proof (min_rtt_spec (samples q')) as Hmin. destruct (min_rtt (samples q')) as [m|]; [|rewrite Hmin in Hsx; by apply not_elem_of_nil in Hsx].
  simpl in Hbase. subst m. destruct Hmin as [_ Hmin]. split_and!.
  - apply Hsam in Hsx as [(d & Hd & Hr) Hin]. exists (observed_at sx), d. rewrite <- Hbx, Hr. done.
  - intros t d Hd Hin. apply (Hmin (mkBaseline t (micros (c_rtt d)))), Hsam. split; [|done]. by exists d.
  - done.
  - unfold queue_delay, saturating_sub, rtt, baseline_rtt, from_micros. lia.
Qed.

Definition sample_counters (ms lost sent : Z) : PathSignalCounters := mkCounters (ms * 1000000) 12000 None 0 lost 0 sent.

Lemma path_signal_exact_witness :
  let '(signals, p) := path_run (PathSignalState_new PATH_BASELINE_WINDOW)
    ([(0, sample_counters 50 1 10); (duration_from_secs 5, sample_counters 40 1 20)] ++ [(duration_from_secs 16, sample_counters 60 3 30)]) in
  sum lost_packets_delta signals = 3 /\ last (baseline_rtt_micros <$> signals) = Some 60000.
Proof.
  pose proof (path_signal_exact PATH_BASELINE_WINDOW [(0, sample_counters 50 1 10); (duration_from_secs 5, sample_counters 40 1 20)]
    (duration_from_secs 16) (sample_counters 60 3 30)) as H.
  assert (0 <= PATH_BASELINE_WINDOW) as Hw by (vm_compute; discriminate).
  assert (cumulative 0 0 0 0 0 ([(0, sample_counters 50 1 10); (duration_from_secs 5, sample_counters 40 1 20)]
    ++ [(duration_from_secs 16, sample_counters 60 3 30)])) as Hc by (vm_compute; repeat split; discriminate).
  specialize (H Hw Hc).
  destruct (path_run (PathSignalState_new PATH_BASELINE_WINDOW) _) as [signals p] eqn:E.
  destruct H as (_ & _ & Hl & _). split; [exact Hl|]. vm_compute in E. injection E as <- _. reflexivity.
Defined.
