(* ===== verification/RateControl.v ===== *)
(** * Media: rate control

    Models [shared/media/src/rate_control.rs]: the bitrate controller every
    host runs once per interval on the path signal, the frame rate a Detail
    stream is given, and the ledger that brings the target to each pipeline
    ([RateSync] holds the latter).  Floats are [Float64]'s, durations are
    nanoseconds, [observe_with] is cut at the places where its theorems need a
    name: the reaction to the interval, the cooldown and the report. *)

From S2P Require Import Prelude Float64 PathSignal.

Inductive ProbeStep := CeilingFraction | TargetRelative | EvidenceGatedTargetRelative.

Record RateControlPolicy := mkPolicy {
  floor_bps : Z;
  start_bps : Z;
  ceiling_bps : Z;
  congested_queue_delay : Z;
  clear_queue_delay : Z;
  congested_frame_wait : Z;
  clear_frame_wait : Z;
  delivered_share : f64;
  decrease_factor : f64;
  max_single_decrease_factor : f64;
  cut_cooldown_intervals : Z;
  additive_increase : f64;
  increase_factor : f64;
  hold_intervals : Z;
  max_hold_intervals : Z;
  knee_repeat_window : f64;
  knee_slow_probe_window : f64;
  knee_increase_factor : f64;
  knee_expiry : Z;
  knee_clear_intervals : Z;
  congested_loss_rate : f64;
  event_loss_rate : f64;
  queue_delay_samples : Z;
  severe_queue_delay_factor : Z;
  min_change : f64;
  probe_step : ProbeStep;
  evidence_gate_bps : option Z;
  min_loss_sample_packets : Z;
  max_loss_sample_intervals : Z
}.

Definition from_millis (ms : Z) : Z := ms * 1000000.

(** [Ord::clamp], whose bounds are in order wherever the code calls it. *)
Definition clamp (lo hi z : Z) : Z := if z <? lo then lo else if hi <? z then hi else z.

Definition for_bounds_priority_probe_step (start ceiling : Z) (step : ProbeStep) : RateControlPolicy :=
  let ceiling := Z.max ceiling 1 in
  let start := clamp 1 ceiling start in
  let floor := Z.min (Z.max (start / 4) 500000) start in
  let gated := match step with EvidenceGatedTargetRelative => true | _ => false end in
  {| floor_bps := floor; start_bps := start; ceiling_bps := ceiling;
     congested_queue_delay := from_millis 15; clear_queue_delay := from_millis 5;
     congested_frame_wait := from_millis 51; clear_frame_wait := from_millis 50;
     delivered_share := lit 85 100; decrease_factor := lit 72 100; max_single_decrease_factor := lit 5 10;
     cut_cooldown_intervals := 3; additive_increase := lit 25 1000;
     increase_factor := if gated then lit 125 100 else lit 108 100;
     hold_intervals := if gated then 1 else 2; max_hold_intervals := 24;
     knee_repeat_window := lit 25 100; knee_slow_probe_window := lit 15 100; knee_increase_factor := lit 102 100;
     knee_expiry := duration_from_secs 30; knee_clear_intervals := 10;
     congested_loss_rate := lit 2 100; event_loss_rate := lit 5 1000;
     queue_delay_samples := 2; severe_queue_delay_factor := 3;
     min_change := if gated then lit 1 100 else lit 3 100;
     probe_step := step; evidence_gate_bps := None;
     min_loss_sample_packets := 200; max_loss_sample_intervals := 10 |}.

Definition for_bounds_and_priority (start ceiling : Z) : RateControlPolicy :=
  for_bounds_priority_probe_step start ceiling CeilingFraction.
Definition for_bounds (start ceiling : Z) : RateControlPolicy := for_bounds_and_priority start ceiling.
Definition for_ceiling (ceiling : Z) : RateControlPolicy := for_bounds ceiling ceiling.

Definition with_evidence_gate (gate : Z) (p : RateControlPolicy) : RateControlPolicy :=
  let gate := clamp (start_bps p) (ceiling_bps p) gate in
  {| floor_bps := floor_bps p; start_bps := start_bps p; ceiling_bps := ceiling_bps p;
     congested_queue_delay := congested_queue_delay p; clear_queue_delay := clear_queue_delay p;
     congested_frame_wait := congested_frame_wait p; clear_frame_wait := clear_frame_wait p;
     delivered_share := delivered_share p; decrease_factor := decrease_factor p;
     max_single_decrease_factor := max_single_decrease_factor p; cut_cooldown_intervals := cut_cooldown_intervals p;
     additive_increase := additive_increase p; increase_factor := increase_factor p;
     hold_intervals := hold_intervals p; max_hold_intervals := max_hold_intervals p;
     knee_repeat_window := knee_repeat_window p; knee_slow_probe_window := knee_slow_probe_window p;
     knee_increase_factor := knee_increase_factor p; knee_expiry := knee_expiry p;
     knee_clear_intervals := knee_clear_intervals p; congested_loss_rate := congested_loss_rate p;
     event_loss_rate := event_loss_rate p; queue_delay_samples := queue_delay_samples p;
     severe_queue_delay_factor := severe_queue_delay_factor p; min_change := min_change p;
     probe_step := probe_step p; evidence_gate_bps := if gate <? ceiling_bps p then Some gate else None;
     min_loss_sample_packets := min_loss_sample_packets p; max_loss_sample_intervals := max_loss_sample_intervals p |}.

Record RateSample := mkRateSample {
  delivered_bytes : Z;
  peak_pipeline_delivered_bytes : Z;
  elapsed : Z;
  mean_frame_wait : Z;
  frames : Z;
  pipeline_count : Z;
  path : option PathSignal
}.

Record RateHints := mkHints { keyframe_bytes : Z }.

Record LossEvidence := mkEvidence {
  ev_rate : f64;
  ev_sent_packets : Z;
  ev_intervals : Z;
  ev_congestion_events : Z
}.

Record LossPool := mkPool { pool_sent : Z; pool_lost : Z; pool_congestion_events : Z; pool_intervals : Z }.
Definition LossPool_default : LossPool := mkPool 0 0 0 0.

Inductive DetailFramerateReason := Contract | AppLimited | BitsPerFrame.
Record DetailFramerate := mkDetail { detail_fps : Z; detail_reason : DetailFramerateReason }.

Inductive RateChangeReason := QueueDelay | LossOrCongestion | FrameWait | ProbeIncrease | Bound.

Record RateChange := mkChange { change_target_bps : Z; change_previous_bps : Z; change_reason : RateChangeReason }.

Record CongestionEvent := mkEvent { event_reason : RateChangeReason; event_severe : bool }.

Record RateController := mkController {
  rc_policy : RateControlPolicy;
  rc_target_bps : Z;
  rc_hold : Z;
  queue_delay_streak : Z;
  last_queue_delay : option Z;
  frame_wait_streak : Z;
  last_frame_wait : option Z;
  loss_streak : Z;
  cut_cooldown_remaining : Z;
  cooldown_first_cut_target_bps : option Z;
  cooldown_severe_cut_taken : bool;
  knee_bps : option Z;
  knee_age : Z;
  knee_repeats : Z;
  clear_intervals : Z;
  loss_pool : LossPool;
  interval_loss : option LossEvidence;
  loss_unresolved : bool;
  rc_bitrate_bound : bool
}.

(** Assignments to the controller's fields. *)
Definition set_target (v : Z) (c : RateController) : RateController :=
  mkController (rc_policy c) v (rc_hold c) (queue_delay_streak c) (last_queue_delay c) (frame_wait_streak c) (last_frame_wait c) (loss_streak c) (cut_cooldown_remaining c) (cooldown_first_cut_target_bps c) (cooldown_severe_cut_taken c) (knee_bps c) (knee_age c) (knee_repeats c) (clear_intervals c) (loss_pool c) (interval_loss c) (loss_unresolved c) (rc_bitrate_bound c).
Definition set_hold (v : Z) (c : RateController) : RateController :=
  mkController (rc_policy c) (rc_target_bps c) v (queue_delay_streak c) (last_queue_delay c) (frame_wait_streak c) (last_frame_wait c) (loss_streak c) (cut_cooldown_remaining c) (cooldown_first_cut_target_bps c) (cooldown_severe_cut_taken c) (knee_bps c) (knee_age c) (knee_repeats c) (clear_intervals c) (loss_pool c) (interval_loss c) (loss_unresolved c) (rc_bitrate_bound c).
Definition set_queue (streak : Z) (last : option Z) (c : RateController) : RateController :=
  mkController (rc_policy c) (rc_target_bps c) (rc_hold c) streak last (frame_wait_streak c) (last_frame_wait c) (loss_streak c) (cut_cooldown_remaining c) (cooldown_first_cut_target_bps c) (cooldown_severe_cut_taken c) (knee_bps c) (knee_age c) (knee_repeats c) (clear_intervals c) (loss_pool c) (interval_loss c) (loss_unresolved c) (rc_bitrate_bound c).
Definition set_frame_wait (streak : Z) (last : option Z) (c : RateController) : RateController :=
  mkController (rc_policy c) (rc_target_bps c) (rc_hold c) (queue_delay_streak c) (last_queue_delay c) streak last (loss_streak c) (cut_cooldown_remaining c) (cooldown_first_cut_target_bps c) (cooldown_severe_cut_taken c) (knee_bps c) (knee_age c) (knee_repeats c) (clear_intervals c) (loss_pool c) (interval_loss c) (loss_unresolved c) (rc_bitrate_bound c).
Definition set_loss_streak (v : Z) (c : RateController) : RateController :=
  mkController (rc_policy c) (rc_target_bps c) (rc_hold c) (queue_delay_streak c) (last_queue_delay c) (frame_wait_streak c) (last_frame_wait c) v (cut_cooldown_remaining c) (cooldown_first_cut_target_bps c) (cooldown_severe_cut_taken c) (knee_bps c) (knee_age c) (knee_repeats c) (clear_intervals c) (loss_pool c) (interval_loss c) (loss_unresolved c) (rc_bitrate_bound c).
Definition set_cooldown (remaining : Z) (first : option Z) (severe : bool) (c : RateController) : RateController :=
  mkController (rc_policy c) (rc_target_bps c) (rc_hold c) (queue_delay_streak c) (last_queue_delay c) (frame_wait_streak c) (last_frame_wait c) (loss_streak c) remaining first severe (knee_bps c) (knee_age c) (knee_repeats c) (clear_intervals c) (loss_pool c) (interval_loss c) (loss_unresolved c) (rc_bitrate_bound c).
Definition set_knee (knee : option Z) (repeats : Z) (c : RateController) : RateController :=
  mkController (rc_policy c) (rc_target_bps c) (rc_hold c) (queue_delay_streak c) (last_queue_delay c) (frame_wait_streak c) (last_frame_wait c) (loss_streak c) (cut_cooldown_remaining c) (cooldown_first_cut_target_bps c) (cooldown_severe_cut_taken c) knee (knee_age c) repeats (clear_intervals c) (loss_pool c) (interval_loss c) (loss_unresolved c) (rc_bitrate_bound c).
Definition set_knee_age (v : Z) (c : RateController) : RateController :=
  mkController (rc_policy c) (rc_target_bps c) (rc_hold c) (queue_delay_streak c) (last_queue_delay c) (frame_wait_streak c) (last_frame_wait c) (loss_streak c) (cut_cooldown_remaining c) (cooldown_first_cut_target_bps c) (cooldown_severe_cut_taken c) (knee_bps c) v (knee_repeats c) (clear_intervals c) (loss_pool c) (interval_loss c) (loss_unresolved c) (rc_bitrate_bound c).
Definition set_clear_intervals (v : Z) (c : RateController) : RateController :=
  mkController (rc_policy c) (rc_target_bps c) (rc_hold c) (queue_delay_streak c) (last_queue_delay c) (frame_wait_streak c) (last_frame_wait c) (loss_streak c) (cut_cooldown_remaining c) (cooldown_first_cut_target_bps c) (cooldown_severe_cut_taken c) (knee_bps c) (knee_age c) (knee_repeats c) v (loss_pool c) (interval_loss c) (loss_unresolved c) (rc_bitrate_bound c).
Definition set_loss (pool : LossPool) (loss : option LossEvidence) (unresolved : bool) (c : RateController) : RateController :=
  mkController (rc_policy c) (rc_target_bps c) (rc_hold c) (queue_delay_streak c) (last_queue_delay c) (frame_wait_streak c) (last_frame_wait c) (loss_streak c) (cut_cooldown_remaining c) (cooldown_first_cut_target_bps c) (cooldown_severe_cut_taken c) (knee_bps c) (knee_age c) (knee_repeats c) (clear_intervals c) pool loss unresolved (rc_bitrate_bound c).
Definition set_bitrate_bound (v : bool) (c : RateController) : RateController :=
  mkController (rc_policy c) (rc_target_bps c) (rc_hold c) (queue_delay_streak c) (last_queue_delay c) (frame_wait_streak c) (last_frame_wait c) (loss_streak c) (cut_cooldown_remaining c) (cooldown_first_cut_target_bps c) (cooldown_severe_cut_taken c) (knee_bps c) (knee_age c) (knee_repeats c) (clear_intervals c) (loss_pool c) (interval_loss c) (loss_unresolved c) v.

Definition RateController_new (p : RateControlPolicy) : RateController :=
  mkController p (start_bps p) 0 0 None 0 None 0 0 None false None 0 0 0 LossPool_default None false false.

(** ** Measures of a sample *)

Definition delivered_bps (s : RateSample) : f64 :=
  let pipelines := Z.max (pipeline_count s) 1 in
  f64_div (f64_div (f64_mul (of_int (delivered_bytes s)) (of_int 8)) (as_secs_f64 (elapsed s))) (of_int pipelines).

Definition peak_pipeline_bps (s : RateSample) : f64 :=
  let fallback := delivered_bytes s / Z.max (pipeline_count s) 1 in
  f64_div (f64_mul (of_int (Z.max (peak_pipeline_delivered_bytes s) fallback)) (of_int 8)) (as_secs_f64 (elapsed s)).

Definition within_share (value reference : Z) (share : f64) : bool :=
  if reference =? 0 then value =? 0
  else f64_leb (f64_div (f64_abs (f64_sub (of_int value) (of_int reference))) (of_int reference)) share.

Definition BITRATE_BOUND_SHARE : f64 := lit 9 10.
Definition APP_LIMITED_SHARE : f64 := lit 6 10.

(** Tracks whether the stream spends its target, with hysteresis. *)
Definition note_spend (s : RateSample) (target : Z) (c : RateController) : RateController :=
  if frames s =? 0 then c
  else
    let delivered := peak_pipeline_bps s in
    if negb (is_finite delivered) then c
    else if f64_leb (f64_mul (of_int target) BITRATE_BOUND_SHARE) delivered then set_bitrate_bound true c
    else if f64_ltb delivered (f64_mul (of_int target) APP_LIMITED_SHARE) then set_bitrate_bound false c
    else c.

(** ** Loss evidence *)

Definition pool_loss (p : RateControlPolicy) (pool : LossPool) (signal : PathSignal) : option LossEvidence * LossPool :=
  let pool := mkPool (saturating_add 64 (pool_sent pool) (sent_packets_delta signal))
    (saturating_add 64 (pool_lost pool) (lost_packets_delta signal))
    (saturating_add 64 (pool_congestion_events pool) (congestion_events_delta signal))
    (saturating_add 32 (pool_intervals pool) 1) in
  let enough := min_loss_sample_packets p <=? pool_sent pool in
  let stale := Z.max (max_loss_sample_intervals p) 1 <=? pool_intervals pool in
  if negb enough && negb stale then (None, pool)
  else
    let judged := enough || (min_loss_sample_packets p / 4 <=? pool_sent pool) in
    (if judged && (0 <? pool_sent pool)
     then Some (mkEvidence (f64_div (of_int (pool_lost pool)) (of_int (pool_sent pool))) (pool_sent pool)
                  (pool_intervals pool) (pool_congestion_events pool))
     else None, LossPool_default).

Definition loss_rate_of (loss : option LossEvidence) : f64 := default f64_zero (ev_rate <$> loss).
Definition interval_loss_rate (c : RateController) : f64 := loss_rate_of (interval_loss c).

(** ** Congestion *)

(** The path's part of [congestion_event]: [None] falls through to the frame
    wait. *)
Definition path_congestion (signal : PathSignal) (keyframe_burst : bool) (c : RateController) :
    option CongestionEvent * RateController :=
  let p := rc_policy c in
  let '(loss, pool) := pool_loss p (loss_pool c) signal in
  let c := set_loss pool loss (negb (is_some loss) && negb (pool_lost pool =? 0)) c in
  let loss_rate := loss_rate_of loss in
  let events := default 0 (ev_congestion_events <$> loss) in
  let delay := queue_delay signal in
  let rising_queue := match last_queue_delay c with
    | Some previous => duration_saturating_add previous (clear_queue_delay p) <=? delay | None => false end in
  let queue_congested := congested_queue_delay p <? delay in
  let streak := if queue_congested then saturating_add 32 (queue_delay_streak c) 1
    else if delay <=? clear_queue_delay p then 0 else queue_delay_streak c in
  let c := set_queue streak (Some delay) c in
  let severe_queue_delay := negb keyframe_burst &&
    (duration_saturating_mul (congested_queue_delay p) (severe_queue_delay_factor p) <=? delay) in
  let severe_loss := f64_leb (f64_mul (congested_loss_rate p) (of_int 2)) loss_rate in
  if f64_leb (congested_loss_rate p) loss_rate then (Some (mkEvent LossOrCongestion severe_loss), c)
  else if queue_congested && (severe_queue_delay || (queue_delay_samples p <=? queue_delay_streak c))
  then (Some (mkEvent QueueDelay severe_queue_delay), c)
  else
    let c := if is_some loss then
        let lossy := negb (events =? 0) && f64_leb (event_loss_rate p) loss_rate in
        set_loss_streak (if lossy then saturating_add 32 (loss_streak c) 1 else 0) c
      else c in
    if is_some loss && negb (events =? 0) &&
       ((queue_delay_samples p <=? loss_streak c) || (f64_leb (event_loss_rate p) loss_rate && rising_queue))
    then (Some (mkEvent LossOrCongestion severe_loss), c)
    else (None, c).

(** The frame-wait part. *)
Definition frame_wait_congestion (s : RateSample) (keyframe_burst : bool) (c : RateController) :
    option CongestionEvent * RateController :=
  let p := rc_policy c in
  if frames s =? 0 then (None, c)
  else
    let wait := mean_frame_wait s in
    let falling := match last_frame_wait c with Some previous => wait <? previous | None => false end in
    let c := set_frame_wait (frame_wait_streak c) (Some wait) c in
    if (congested_frame_wait p <=? wait) && negb falling then
      let c := set_frame_wait (saturating_add 32 (frame_wait_streak c) 1) (Some wait) c in
      let severe_wait := duration_saturating_mul (congested_frame_wait p) (severe_queue_delay_factor p) in
      let severe := negb keyframe_burst && (severe_wait <=? wait) in
      if severe || (queue_delay_samples p <=? frame_wait_streak c) then (Some (mkEvent FrameWait severe), c)
      else (None, c)
    else if (wait <=? clear_frame_wait p) || falling then (None, set_frame_wait 0 (Some wait) c)
    else (None, c).

Definition congestion_event (s : RateSample) (h : RateHints) (c : RateController) :
    option CongestionEvent * RateController :=
  let keyframe_burst := negb (keyframe_bytes h =? 0) in
  let c := set_loss (loss_pool c) None false c in
  let '(event, c) := match path s with
    | Some signal => path_congestion signal keyframe_burst c
    | None => (None, set_loss_streak 0 (set_queue 0 None c)) end in
  match event with
  | Some _ => (event, c)
  | None => frame_wait_congestion s keyframe_burst c
  end.

Definition path_is_clear (s : RateSample) (c : RateController) : bool :=
  match path s with
  | Some signal => negb (loss_unresolved c) && f64_ltb (interval_loss_rate c) (congested_loss_rate (rc_policy c))
      && (queue_delay signal <=? congested_queue_delay (rc_policy c))
  | None => true end
  && ((frames s =? 0) || (mean_frame_wait s <=? clear_frame_wait (rc_policy c))).

Definition path_resets_knee (s : RateSample) (c : RateController) : bool :=
  match path s with
  | Some signal => negb (loss_unresolved c) && f64_ltb (interval_loss_rate c) (event_loss_rate (rc_policy c))
      && (queue_delay signal <=? clear_queue_delay (rc_policy c))
  | None => true end.

(** ** Cuts *)

Definition delivered_capacity_is_reliable (s : RateSample) (cause : RateChangeReason) (c : RateController) : bool :=
  let p := rc_policy c in
  if (frames s =? 0) || match cause with FrameWait => true | _ => false end then false
  else match cause, path s with
    | QueueDelay, Some signal =>
      (duration_saturating_mul (congested_queue_delay p) (severe_queue_delay_factor p) <=? queue_delay signal)
      || (queue_delay_samples p <=? queue_delay_streak c)
    | LossOrCongestion, Some _ => f64_leb (congested_loss_rate p) (interval_loss_rate c)
    | _, _ => false
    end.

Definition decreased_target (s : RateSample) (previous : Z) (cause : RateChangeReason) (c : RateController) : Z :=
  let p := rc_policy c in
  let target := f64_mul (of_int previous) (decrease_factor p) in
  let target := if delivered_capacity_is_reliable s cause c then
      let delivered := delivered_bps s in
      if is_finite delivered && f64_ltb f64_zero delivered then f64_min target (f64_mul delivered (delivered_share p))
      else target
    else target in
  round_as 64 (f64_max target (f64_mul (of_int previous) (max_single_decrease_factor p))).

Definition cooldown_cut_target (s : RateSample) (previous : Z) (e : CongestionEvent) (c : RateController) :
    option Z * RateController :=
  if cut_cooldown_remaining c =? 0 then (Some (decreased_target s previous (event_reason e) c), c)
  else if negb (event_severe e) || cooldown_severe_cut_taken c then (None, c)
  else
    let c := set_cooldown (cut_cooldown_remaining c) (cooldown_first_cut_target_bps c) true c in
    let target := decreased_target s previous (event_reason e) c in
    let cap := Z.min (default previous (cooldown_first_cut_target_bps c) *
        round_as 64 (f64_mul (decrease_factor (rc_policy c)) (of_int 1000))) (umax 64) / 1000 in
    (Some (Z.min target cap), c).

Definition start_cut_cooldown (target : Z) (c : RateController) : RateController :=
  set_cooldown (cut_cooldown_intervals (rc_policy c)) (Some target) false c.

Definition remember_knee (cut_target : Z) (c : RateController) : RateController :=
  match knee_bps c with
  | Some knee =>
    if within_share cut_target knee (knee_repeat_window (rc_policy c)) && (knee_age c <=? knee_expiry (rc_policy c))
    then set_knee (Some (saturating_add 64 knee cut_target / 2)) (saturating_add 32 (knee_repeats c) 1) c
    else set_knee (Some cut_target) 0 c
  | None => set_knee (Some cut_target) 0 c
  end.

Definition knee_hold_intervals (c : RateController) : Z :=
  let shift := Z.min (knee_repeats c) 8 in
  let factor := if shift <? 32 then wrapping 32 (Z.shiftl 1 shift) else umax 32 in
  Z.min (Z.min (hold_intervals (rc_policy c) * factor) (umax 32)) (max_hold_intervals (rc_policy c)).

(** ** Probes *)

Definition near_any_remembered_knee (target : Z) (c : RateController) : bool :=
  match knee_bps c with
  | Some knee => (knee_age c <=? knee_expiry (rc_policy c)) && within_share target knee (knee_slow_probe_window (rc_policy c))
  | None => false
  end.

Definition near_remembered_knee (target : Z) (c : RateController) : bool :=
  (0 <? knee_repeats c) && near_any_remembered_knee target c.

Definition above_evidence_gate (target : Z) (c : RateController) : bool :=
  match evidence_gate_bps (rc_policy c) with Some gate => gate <=? target | None => false end.

Definition increased_target (previous : Z) (c : RateController) : Z :=
  let p := rc_policy c in
  if near_remembered_knee previous c then round_as 64 (f64_mul (of_int previous) (knee_increase_factor p))
  else
    let relative := f64_mul (of_int previous) (f64_sub (increase_factor p) (of_int 1)) in
    let additive := match probe_step p with
      | CeilingFraction =>
        if above_evidence_gate previous c then relative
        else f64_max (f64_mul (of_int (default (ceiling_bps p) (evidence_gate_bps p))) (additive_increase p)) (of_int 250000)
      | _ => relative end in
    let multiplicative := f64_mul (of_int previous) (increase_factor p) in
    let increased := round_as 64 (f64_max multiplicative (f64_add (of_int previous) additive)) in
    match evidence_gate_bps p with
    | Some gate => if previous <? gate then Z.min increased gate else increased
    | None => increased
    end.

(** Delivery evidence: the busiest pipeline spent nine tenths of the target. *)
Definition spends_target (s : RateSample) (previous : Z) : bool :=
  is_some (path s) && negb (frames s =? 0) && is_finite (peak_pipeline_bps s)
  && f64_leb (f64_mul (of_int previous) (lit 9 10)) (peak_pipeline_bps s).

Definition may_probe_up (s : RateSample) (previous : Z) (c : RateController) : bool :=
  if match probe_step (rc_policy c) with EvidenceGatedTargetRelative => false | _ => true end
     && negb (above_evidence_gate previous c) then true
  else spends_target s previous.

(** ** One interval *)

(** The branch for a clear path. *)
Definition clear_interval (s : RateSample) (previous : Z) (c : RateController) : option RateChangeReason * RateController :=
  let p := rc_policy c in
  let c := set_knee_age (duration_saturating_add (knee_age c) (elapsed s)) c in
  if (0 <? rc_hold c) && negb (previous =? floor_bps p) then (None, set_hold (rc_hold c - 1) c)
  else
    let c := set_clear_intervals (saturating_add 32 (clear_intervals c) 1) c in
    let c := if (previous =? floor_bps p) && path_resets_knee s c then set_hold 0 (set_knee None 0 c) else c in
    let c := if path_resets_knee s c &&
        ((knee_expiry p <=? knee_age c) || (knee_clear_intervals p <=? clear_intervals c)) then set_knee None 0 c else c in
    if (previous <? ceiling_bps p) && may_probe_up s previous c
    then (Some ProbeIncrease, set_target (increased_target previous c) c)
    else (None, c).

(** The branch for a congestion event; the flag says whether it cut. *)
Definition congested_interval (s : RateSample) (previous : Z) (in_cut_cooldown : bool) (e : CongestionEvent) (c : RateController) :
    bool * RateController :=
  match cooldown_cut_target s previous e c with
  | (Some target, c) =>
    let c := remember_knee previous c in
    let c := set_target target c in
    let c := set_hold (knee_hold_intervals c) c in
    let c := set_clear_intervals 0 c in
    let c := set_knee_age 0 c in
    (true, if negb in_cut_cooldown then start_cut_cooldown target c else c)
  | (None, c) => (false, c)
  end.

(** The reaction: the reason, if any, and whether it was a cut. *)
Definition react (s : RateSample) (h : RateHints) (c : RateController) : option RateChangeReason * bool * RateController :=
  let in_cut_cooldown := 0 <? cut_cooldown_remaining c in
  let previous := rc_target_bps c in
  let c := note_spend s previous c in
  match congestion_event s h c with
  | (Some e, c) =>
    let '(cut, c) := congested_interval s previous in_cut_cooldown e c in
    (if cut then Some (event_reason e) else None, cut, c)
  | (None, c) =>
    if path_is_clear s c then let '(reason, c) := clear_interval s previous c in (reason, false, c)
    else (None, false, c)
  end.

Definition cooldown_tick (in_cut_cooldown : bool) (c : RateController) : RateController :=
  if in_cut_cooldown then
    let remaining := saturating_sub (cut_cooldown_remaining c) 1 in
    if remaining =? 0 then set_cooldown 0 None false c
    else set_cooldown remaining (cooldown_first_cut_target_bps c) (cooldown_severe_cut_taken c) c
  else c.

Definition at_bound (c : RateController) : bool :=
  (rc_target_bps c =? floor_bps (rc_policy c)) || (rc_target_bps c =? ceiling_bps (rc_policy c))
  || bool_decide (evidence_gate_bps (rc_policy c) = Some (rc_target_bps c)).

Definition report (previous : Z) (reason : option RateChangeReason) (c : RateController) : option RateChange :=
  let moved := negb (rc_target_bps c =? previous) && at_bound c in
  let change := f64_div (f64_abs (f64_sub (of_int (rc_target_bps c)) (of_int previous))) (of_int (Z.max previous 1)) in
  if f64_leb (min_change (rc_policy c)) change || moved
  then Some (mkChange (rc_target_bps c) previous (default Bound reason)) else None.

Definition observe_with (s : RateSample) (h : RateHints) (c : RateController) : option RateChange * RateController :=
  if elapsed s =? 0 then (None, c)
  else
    let in_cut_cooldown := 0 <? cut_cooldown_remaining c in
    let previous := rc_target_bps c in
    let '(reason, _, c) := react s h c in
    let c := cooldown_tick in_cut_cooldown c in
    let c := set_target (clamp (floor_bps (rc_policy c)) (ceiling_bps (rc_policy c)) (rc_target_bps c)) c in
    (report previous reason c, c).

Definition observe (s : RateSample) (c : RateController) : option RateChange * RateController :=
  observe_with s (mkHints 0) c.

(** ** The frame rate of a Detail stream *)

Definition DETAIL_BITS_BEFORE_FRAMES : f64 := lit 5 10.
Definition DETAIL_MIN_FPS : Z := 8.

Definition detail_framerate_for (max_fps start target : Z) : Z :=
  let max_fps := Z.max max_fps 1 in
  if start =? 0 then max_fps
  else
    let knee := f64_mul (of_int start) DETAIL_BITS_BEFORE_FRAMES in
    let fps := f64_round (f64_div (f64_mul (of_int max_fps) (of_int target)) knee) in
    let fps := if is_finite fps && f64_ltb f64_zero fps then trunc_as 32 (f64_min fps (of_int (umax 32))) else 0 in
    clamp (Z.min DETAIL_MIN_FPS max_fps) max_fps fps.

Definition detail_framerate (max_fps : Z) (c : RateController) : DetailFramerate :=
  let max_fps := Z.max max_fps 1 in
  let shed := detail_framerate_for max_fps (start_bps (rc_policy c)) (rc_target_bps c) in
  if max_fps <=? shed then mkDetail max_fps Contract
  else if negb (rc_bitrate_bound c) then mkDetail max_fps AppLimited
  else mkDetail shed BitsPerFrame.

(** The tests of the source. *)
Example detail_framerate_keeps_bits_per_frame :
  detail_framerate_for 30 4000000 4000000 = 30 /\ detail_framerate_for 30 4000000 2000000 = 30
  /\ detail_framerate_for 30 4000000 1000000 = 15 /\ detail_framerate_for 30 4000000 100 = 8.
Proof. by vm_compute. Qed.

Definition signal_of (rtt_ms baseline_ms congestion lost sent : Z) : PathSignal :=
  mkPathSignal (rtt_ms * 1000) (baseline_ms * 1000) 1000000 None congestion lost (lost * 1200) sent.

Definition sample_of (bps wait_ms : Z) (signal : PathSignal) : RateSample :=
  mkRateSample (bps / 8) (bps / 8) (duration_from_secs 1) (from_millis wait_ms) 30 1 (Some signal).

Fixpoint targets (samples : list (RateSample * RateHints)) (c : RateController) : list Z :=
  match samples with
  | [] => []
  | (s, h) :: r => let c := (observe_with s h c).2 in rc_target_bps c :: targets r c
  end.

Example lan_trace_climbs_to_the_ceiling :
  targets (replicate 10 (sample_of 1000000000 1 (signal_of 1 1 0 0 100), mkHints 0)) (RateController_new (for_bounds 4665600 9331200))
  = [5038848; 5441956; 5877312; 6347497; 6855297; 7403721; 7996019; 8635701; 9326557; 9331200].
Proof. by vm_compute. Qed.

(** ** What each step leaves alone *)

(** The fields that decide rates: sensing an interval does not touch them. *)
Record same_rates (c d : RateController) : Prop := {
  same_policy : rc_policy d = rc_policy c;
  same_target : rc_target_bps d = rc_target_bps c;
  same_remaining : cut_cooldown_remaining d = cut_cooldown_remaining c;
  same_first : cooldown_first_cut_target_bps d = cooldown_first_cut_target_bps c;
  same_severe : cooldown_severe_cut_taken d = cooldown_severe_cut_taken c;
  same_knee : knee_bps d = knee_bps c;
  same_repeats : knee_repeats d = knee_repeats c;
  same_age : knee_age d = knee_age c
}.

#[global] Instance same_rates_preorder : PreOrder same_rates.
Proof. split; [by intros c|]. intros a b c [] []. split; congruence. Qed.

Create HintDb rate discriminated.

(** Splits a step into its branches and closes those that only assign. *)
Ltac rate_cases :=
  repeat match goal with
  | |- context [match ?x with _ => _ end] => destruct x eqn:?
  | |- context [if ?b then _ else _] => destruct b eqn:?
  end.

Lemma note_spend_same s t c : same_rates c (note_spend s t c).
Proof. unfold note_spend. rate_cases; by split. Qed.

Lemma path_congestion_same signal burst c : same_rates c (path_congestion signal burst c).2.
Proof.
  unfold path_congestion. destruct (pool_loss _ _ _) as [loss pool]. cbv zeta.
  destruct (f64_leb (congested_loss_rate (rc_policy _)) _); [by split|].
  match goal with |- context [if ?b && ?d then (Some (mkEvent QueueDelay _), _) else _] => destruct (b && d); [by split|] end.
  destruct (is_some loss); [|by split]. match goal with |- context [if ?b then _ else _] => destruct b; by split end.
Qed.

Lemma frame_wait_congestion_same s burst c : same_rates c (frame_wait_congestion s burst c).2.
Proof.
  unfold frame_wait_congestion. destruct (frames s =? 0); [done|]. cbv zeta.
  match goal with |- context [if ?b then _ else _] => destruct b end;
  match goal with |- context [if ?b then _ else _] => destruct b; by split end.
Qed.

Lemma congestion_event_same s h c : same_rates c (congestion_event s h c).2.
Proof.
  unfold congestion_event. cbv zeta.
  set (c1 := set_loss _ _ _ c). assert (same_rates c c1) as H1 by by split.
  destruct (path s) as [signal|].
  - pose proof (path_congestion_same signal (negb (keyframe_bytes h =? 0)) c1) as H2.
    destruct (path_congestion _ _ c1) as [e c2]. simpl in H2. etrans; [exact H1|].
    destruct e; [done|]. etrans; [exact H2|]. apply frame_wait_congestion_same.
  - etrans; [|apply frame_wait_congestion_same]. by split.
Qed.

(** What a cut does: only outside a cooldown, or once and for a severe event
    inside it. *)
Lemma congested_interval_spec s e c : 0 <= cut_cooldown_remaining c ->
  let remaining := cut_cooldown_remaining c in
  let '(cut, d) := congested_interval s (rc_target_bps c) (0 <? remaining) e c in
  rc_policy d = rc_policy c
  /\ if cut then
       if remaining =? 0
       then cut_cooldown_remaining d = cut_cooldown_intervals (rc_policy c) /\ cooldown_severe_cut_taken d = false
         /\ cooldown_first_cut_target_bps d = Some (rc_target_bps d)
         /\ rc_target_bps d = decreased_target s (rc_target_bps c) (event_reason e) c
       else event_severe e = true /\ cooldown_severe_cut_taken c = false
         /\ cut_cooldown_remaining d = remaining /\ cooldown_severe_cut_taken d = true
         /\ cooldown_first_cut_target_bps d = cooldown_first_cut_target_bps c
     else d = c /\ 0 < remaining /\ (event_severe e = false \/ cooldown_severe_cut_taken c = true).
Proof.
  intros Hr. unfold congested_interval, cooldown_cut_target. cbv zeta.
  destruct (Z.eqb_spec (cut_cooldown_remaining c) 0) as [H0|H0].
  - rewrite H0. unfold remember_knee. destruct (knee_bps c); [destruct (_ && _)|]; by repeat split.
  - destruct (Z.ltb_spec 0 (cut_cooldown_remaining c)); [|lia].
    destruct (event_severe e); simpl; [|by auto]. destruct (cooldown_severe_cut_taken c) eqn:Es; simpl; [by auto|].
    unfold remember_knee. simpl. destruct (knee_bps c); [destruct (_ && _)|]; simpl; by repeat split.
Qed.

(** What a clear interval does. *)
Lemma clear_interval_spec s c :
  let '(reason, d) := clear_interval s (rc_target_bps c) c in
  rc_policy d = rc_policy c /\ cut_cooldown_remaining d = cut_cooldown_remaining c
  /\ cooldown_first_cut_target_bps d = cooldown_first_cut_target_bps c
  /\ cooldown_severe_cut_taken d = cooldown_severe_cut_taken c
  /\ (reason = None /\ rc_target_bps d = rc_target_bps c
      \/ reason = Some ProbeIncrease /\ rc_target_bps c < ceiling_bps (rc_policy c)
         /\ exists k, rc_policy k = rc_policy c /\ (knee_bps k = knee_bps c /\ knee_repeats k = knee_repeats c \/ knee_bps k = None)
            /\ may_probe_up s (rc_target_bps c) k = true /\ rc_target_bps d = increased_target (rc_target_bps c) k).
Proof.
  unfold clear_interval. cbv zeta. destruct (_ && negb (rc_target_bps c =? floor_bps (rc_policy c))); [by auto 10|].
  set (c1 := set_clear_intervals _ _).
  set (c2 := if (rc_target_bps c =? floor_bps (rc_policy c)) && path_resets_knee s c1 then _ else c1).
  set (c3 := if path_resets_knee s c2 && _ then set_knee None 0 c2 else c2).
  assert (forall k, k = c1 \/ k = c2 \/ k = c3 ->
    rc_policy k = rc_policy c /\ rc_target_bps k = rc_target_bps c /\ cut_cooldown_remaining k = cut_cooldown_remaining c
    /\ cooldown_first_cut_target_bps k = cooldown_first_cut_target_bps c
    /\ cooldown_severe_cut_taken k = cooldown_severe_cut_taken c
    /\ (knee_bps k = knee_bps c /\ knee_repeats k = knee_repeats c \/ knee_bps k = None)) as Hk.
  { assert (forall P : RateController -> Prop, P c1 -> P (set_hold 0 (set_knee None 0 c1)) -> P c2) as H2
      by (intros P ? ?; unfold c2; by case_match).
    assert (forall P : RateController -> Prop, P c2 -> P (set_knee None 0 c2) -> P c3) as H3
      by (intros P ? ?; unfold c3; by case_match).
    intros k [->|[->| ->]]; [by auto 10|apply H2; simpl; by auto 10|]. apply H3; apply H2; simpl; by auto 10. }
  clearbody c3. destruct (Hk c3) as (Hp & Ht & Hr & Hf & Hs & Hkn); [by auto|].
  destruct (Z.ltb_spec (rc_target_bps c) (ceiling_bps (rc_policy c))); [|simpl; by auto 10].
  destruct (may_probe_up s (rc_target_bps c) c3) eqn:Em; simpl; [|by auto 10].
  repeat (split; [done|]). right. split; [done|]. split; [done|]. exists c3. auto.
Qed.

(** ** One interval as a whole *)

Definition clamped (p : RateControlPolicy) (t : Z) : Z := clamp (floor_bps p) (ceiling_bps p) t.

(** Whether the interval cut the target. *)
Definition cut_in (s : RateSample) (h : RateHints) (c : RateController) : bool :=
  if elapsed s =? 0 then false else (react s h c).1.2.

Definition gate_slack (c : RateController) : Prop :=
  exists knee, knee_bps c = Some knee /\ 0 < knee_repeats c
    /\ within_share (rc_target_bps c) knee (knee_slow_probe_window (rc_policy c)) = true.

(** A severe interval: on an interval without a keyframe burst a queue delay, or
    a frame wait, of the severe multiple of what counts as congested; or a
    judged loss of twice the congested rate. *)
Definition severe_interval (s : RateSample) (h : RateHints) (c : RateController) : Prop :=
  let p := rc_policy c in
  (exists signal, path s = Some signal /\ keyframe_bytes h = 0
     /\ duration_saturating_mul (congested_queue_delay p) (severe_queue_delay_factor p) <= queue_delay signal)
  \/ (exists signal, path s = Some signal
        /\ f64_leb (f64_mul (congested_loss_rate p) (of_int 2)) (loss_rate_of (pool_loss p (loss_pool c) signal).1) = true)
  \/ (frames s <> 0 /\ keyframe_bytes h = 0
      /\ duration_saturating_mul (congested_frame_wait p) (severe_queue_delay_factor p) <= mean_frame_wait s).

Lemma frame_wait_severe s burst c e : (frame_wait_congestion s burst c).1 = Some e -> event_severe e = true ->
  frames s <> 0 /\ burst = false
  /\ duration_saturating_mul (congested_frame_wait (rc_policy c)) (severe_queue_delay_factor (rc_policy c)) <= mean_frame_wait s.
Proof.
  unfold frame_wait_congestion. destruct (Z.eqb_spec (frames s) 0); [done|]. cbv zeta. intros H He.
  destruct (_ && negb _); [|by destruct (_ || _)]. cbn in H. destruct (_ || _); [|done]. injection H as <-. cbn in He.
  apply andb_true_iff in He as [Hb Hw]. apply negb_true_iff in Hb. apply Z.leb_le in Hw. done.
Qed.

Lemma path_severe signal burst c e : (path_congestion signal burst c).1 = Some e -> event_severe e = true ->
  let p := rc_policy c in
  (burst = false /\ duration_saturating_mul (congested_queue_delay p) (severe_queue_delay_factor p) <= queue_delay signal)
  \/ f64_leb (f64_mul (congested_loss_rate p) (of_int 2)) (loss_rate_of (pool_loss p (loss_pool c) signal).1) = true.
Proof.
  unfold path_congestion. destruct (pool_loss _ _ _) as [loss pool]. cbn [fst]. cbv zeta. cbn [rc_policy set_loss set_queue].
  intros H He. destruct (f64_leb (congested_loss_rate _) _); [injection H as <-; by right|].
  destruct (_ && (_ || _)); [|destruct (_ && _ && _); [injection H as <-; by right|done]]. injection H as <-. cbn in He.
  apply andb_true_iff in He as [Hb Hw]. apply negb_true_iff in Hb. apply Z.leb_le in Hw. by left.
Qed.

Lemma congestion_severe s h c e : (congestion_event s h c).1 = Some e -> event_severe e = true -> severe_interval s h c.
Proof.
  unfold congestion_event, severe_interval. cbv zeta. set (c1 := set_loss _ _ _ c). intros H He.
  assert (forall d, same_rates c1 d -> (frame_wait_congestion s (negb (keyframe_bytes h =? 0)) d).1 = Some e ->
    frames s <> 0 /\ keyframe_bytes h = 0
    /\ duration_saturating_mul (congested_frame_wait (rc_policy c)) (severe_queue_delay_factor (rc_policy c)) <= mean_frame_wait s) as Hwait.
  { intros d Hd Hf. pose proof (frame_wait_severe _ _ _ _ Hf He) as (Hn & Hb & Hw). rewrite (same_policy _ _ Hd) in Hw.
    apply negb_false_iff, Z.eqb_eq in Hb. done. }
  destruct (path s) as [signal|]; [|right; right; eapply Hwait, H; by split].
  pose proof (path_congestion_same signal (negb (keyframe_bytes h =? 0)) c1) as Hsame.
  pose proof (path_severe signal (negb (keyframe_bytes h =? 0)) c1) as Hpath.
  destruct (path_congestion _ _ c1) as [[e'|] d]; cbn [fst snd] in *; [|right; right; by eapply Hwait].
  destruct (Hpath e H He) as [[Hb Hw]|Hl]; [left|right; left]; exists signal; [|done].
  apply negb_false_iff, Z.eqb_eq in Hb. done.
Qed.

Lemma note_spend_severe s h t c : severe_interval s h (note_spend s t c) = severe_interval s h c.
Proof. unfold note_spend. by rate_cases. Qed.

(** The target an interval leads to, before the clamp. *)
Lemma react_spec s h c : 0 <= cut_cooldown_remaining c ->
  let remaining := cut_cooldown_remaining c in
  let '(reason, cut, d) := react s h c in
  rc_policy d = rc_policy c
  /\ if cut then
       if remaining =? 0
       then cut_cooldown_remaining d = cut_cooldown_intervals (rc_policy c) /\ cooldown_severe_cut_taken d = false
       else severe_interval s h c /\ cooldown_severe_cut_taken c = false /\ cut_cooldown_remaining d = remaining
         /\ cooldown_severe_cut_taken d = true
     else cut_cooldown_remaining d = remaining /\ cooldown_severe_cut_taken d = cooldown_severe_cut_taken c
       /\ (reason = None /\ rc_target_bps d = rc_target_bps c
           \/ reason = Some ProbeIncrease /\ rc_target_bps c < ceiling_bps (rc_policy c)
              /\ exists k, rc_policy k = rc_policy c
                 /\ (knee_bps k = knee_bps c /\ knee_repeats k = knee_repeats c \/ knee_bps k = None)
                 /\ may_probe_up s (rc_target_bps c) k = true /\ rc_target_bps d = increased_target (rc_target_bps c) k).
Proof.
  intros Hr. unfold react. cbv zeta.
  pose proof (note_spend_same s (rc_target_bps c) c) as H1.
  pose proof (congestion_event_same s h (note_spend s (rc_target_bps c) c)) as H2.
  pose proof (congestion_severe s h (note_spend s (rc_target_bps c) c)) as Hsev. rewrite note_spend_severe in Hsev.
  destruct (congestion_event s h _) as [e d]. simpl in H2, Hsev.
  assert (same_rates c d) as [Sp St Sr Sf Ss Sk Sn Sa] by (etrans; [exact H1|exact H2]). clear H1 H2.
  destruct e as [e|].
  - pose proof (congested_interval_spec s e d ltac:(lia)) as H. cbv zeta in H. rewrite Sr, St in H.
    destruct (congested_interval s (rc_target_bps c) _ e d) as [cut k]. destruct H as [Hp H]. rewrite <- Sp. split; [done|].
    destruct cut; [|destruct H as (-> & _ & _); rewrite Sr, Ss, St; by auto].
    destruct (Z.eqb_spec (cut_cooldown_remaining c) 0); [destruct H as (? & ? & _); by auto|]. rewrite Ss in H. specialize (Hsev e eq_refl). tauto.
  - destruct (path_is_clear s d); [|simpl; rewrite Sp, Sr, Ss, St; by auto 10].
    pose proof (clear_interval_spec s d) as H. rewrite St in H.
    destruct (clear_interval s (rc_target_bps c) d) as [reason k]. rewrite Sp, Sr, Ss, Sk, Sn in H.
    destruct H as (Hp & Hr' & _ & Hs & H). tauto.
Qed.

(** One interval of non-zero length, by what it does to the target, the
    cooldown and the report. *)
Lemma observe_with_spec s h c : 0 <= cut_cooldown_remaining c -> elapsed s <> 0 ->
  let r := cut_cooldown_remaining c in
  let '(change, d) := observe_with s h c in
  rc_policy d = rc_policy c
  /\ rc_target_bps d = clamped (rc_policy c) (rc_target_bps (react s h c).2)
  /\ (forall x, change = Some x -> change_target_bps x = rc_target_bps d /\ change_previous_bps x = rc_target_bps c)
  /\ if cut_in s h c then
       if r =? 0 then cut_cooldown_remaining d = cut_cooldown_intervals (rc_policy c) /\ cooldown_severe_cut_taken d = false
       else severe_interval s h c /\ cooldown_severe_cut_taken c = false /\ cut_cooldown_remaining d = r - 1
         /\ (0 < r - 1 -> cooldown_severe_cut_taken d = true)
     else cut_cooldown_remaining d = Z.max (r - 1) 0 /\ (0 < r - 1 -> cooldown_severe_cut_taken d = cooldown_severe_cut_taken c).
Proof.
  intros Hr Hel. cbv zeta. unfold observe_with, cut_in. destruct (Z.eqb_spec (elapsed s) 0); [done|].
  pose proof (react_spec s h c Hr) as H. destruct (react s h c) as [[reason cut] k]. cbn [fst snd]. destruct H as [Hp H].
  set (d := cooldown_tick (0 <? cut_cooldown_remaining c) k).
  assert (rc_policy d = rc_policy k /\ rc_target_bps d = rc_target_bps k) as [Edp Edt]
    by (unfold d, cooldown_tick; by repeat case_match).
  split; [by cbn; rewrite Edp|]. split; [by cbn; rewrite Edp, Edt, Hp|].
  split. { intros x. unfold report. match goal with |- context [if ?b then Some _ else None] => destruct b; [|done] end. by intros [= <-]. }
  cbn. subst d. unfold cooldown_tick, saturating_sub. destruct (Z.ltb_spec 0 (cut_cooldown_remaining c)) as [Hc|Hc].
  - destruct (Z.eqb_spec (cut_cooldown_remaining c) 0); [lia|]. destruct cut.
    + destruct H as (Hsev & Hs & Hk & Ht). rewrite Hk. destruct (Z.eqb_spec (Z.max (cut_cooldown_remaining c - 1) 0) 0); cbn;
        (split; [done|split; [done|split; [lia|]]]); intros; [lia|done].
    + destruct H as (Hk & Hs & _). rewrite Hk. destruct (Z.eqb_spec (Z.max (cut_cooldown_remaining c - 1) 0) 0); cbn;
        (split; [lia|]); intros; [lia|done].
  - replace (cut_cooldown_remaining c) with 0 in * by lia. cbn in H. destruct cut; [done|]. split; [lia|lia].
Qed.

(** ** The properties *)

(** A policy whose bounds are in order, as every constructor builds it. *)
Record policy_wf (p : RateControlPolicy) : Prop := {
  wf_floor : floor_bps p <= start_bps p;
  wf_ceiling : start_bps p <= ceiling_bps p;
  wf_gate : forall g, evidence_gate_bps p = Some g -> start_bps p <= g < ceiling_bps p;
  wf_cooldown : 0 <= cut_cooldown_intervals p
}.

Lemma clamp_range lo hi z : lo <= hi -> lo <= clamp lo hi z <= hi.
Proof. unfold clamp. destruct (Z.ltb_spec z lo), (Z.ltb_spec hi z); lia. Qed.

Lemma clamp_id lo hi z : lo <= z <= hi -> clamp lo hi z = z.
Proof. unfold clamp. destruct (Z.ltb_spec z lo), (Z.ltb_spec hi z); lia. Qed.

Lemma for_bounds_wf start ceiling step : policy_wf (for_bounds_priority_probe_step start ceiling step).
Proof.
  pose proof (clamp_range 1 (Z.max ceiling 1) start ltac:(lia)).
  split; cbn -[clamp Z.max]; try done; lia.
Qed.

Lemma with_evidence_gate_wf gate p : policy_wf p -> policy_wf (with_evidence_gate gate p).
Proof.
  intros [Hf Hc Hg Hn]. split; try done. cbn. intros g. pose proof (clamp_range (start_bps p) (ceiling_bps p) gate Hc).
  destruct (Z.ltb_spec (clamp (start_bps p) (ceiling_bps p) gate) (ceiling_bps p)); [|done]. intros [= <-]. lia.
Qed.

(** The controller between intervals. *)
Record rate_inv (p : RateControlPolicy) (c : RateController) : Prop := {
  ri_policy : rc_policy c = p;
  ri_bounds : floor_bps p <= rc_target_bps c <= ceiling_bps p;
  ri_remaining : 0 <= cut_cooldown_remaining c <= cut_cooldown_intervals p
}.

Lemma rate_inv_new p : policy_wf p -> rate_inv p (RateController_new p).
Proof. intros [Hf Hc Hg Hn]. split; cbn; [done|lia|lia]. Qed.

Lemma rate_inv_step p s h c : policy_wf p -> rate_inv p c -> rate_inv p (observe_with s h c).2.
Proof.
  intros Hwf [Hp Hb Hr]. destruct (Z.eq_dec (elapsed s) 0) as [He|He].
  { unfold observe_with. by rewrite He. }
  pose proof (observe_with_spec s h c ltac:(lia) He) as H. destruct (observe_with s h c) as [change d]. simpl.
  destruct H as (Hp' & Ht & _ & Hcut). rewrite Hp in *. split; [done| |].
  - rewrite Ht. apply clamp_range. pose proof (wf_floor p Hwf). pose proof (wf_ceiling p Hwf). lia.
  - pose proof (wf_cooldown p Hwf). repeat case_match; lia.
Qed.

Fixpoint run (l : list (RateSample * RateHints)) (c : RateController) : list (option RateChange) * RateController :=
  match l with
  | [] => ([], c)
  | (s, h) :: r => let '(change, c) := observe_with s h c in let '(changes, c) := run r c in (change :: changes, c)
  end.

Lemma rate_inv_run p l : policy_wf p -> forall c, rate_inv p c -> rate_inv p (run l c).2.
Proof.
  intros Hwf. induction l as [|[s h] r IH]; intros c Hc; cbn [run]; [done|].
  pose proof (rate_inv_step p s h c Hwf Hc) as H. destruct (observe_with s h c) as [change d]. specialize (IH d H).
  by destruct (run r d).
Qed.

(** The number of cuts in a run. *)
Fixpoint cuts (l : list (RateSample * RateHints)) (c : RateController) : Z :=
  match l with
  | [] => 0
  | (s, h) :: r => (if cut_in s h c then 1 else 0) + cuts r (observe_with s h c).2
  end.

(** How many intervals' worth of cuts a state still allows. *)
Definition cut_credit (n : Z) (c : RateController) : Z :=
  if cut_cooldown_remaining c =? 0 then 2 * n
  else (if cooldown_severe_cut_taken c then 0 else n + 1) + 2 * (n - cut_cooldown_remaining c).

Lemma cuts_bounded p l : policy_wf p -> forall c, rate_inv p c ->
  (cut_cooldown_intervals p + 1) * cuts l c <= 2 * len l + cut_credit (cut_cooldown_intervals p) c.
Proof.
  intros Hwf. pose proof (wf_cooldown p Hwf) as Hn. induction l as [|[s h] r IH]; intros c Hc; cbn [cuts].
  { destruct Hc. unfold cut_credit, len. cbn. repeat case_match; lia. }
  specialize (IH _ (rate_inv_step p s h c Hwf Hc)). destruct Hc as [Hp Hb Hr]. rewrite len_cons.
  destruct (Z.eq_dec (elapsed s) 0) as [He|He].
  { unfold cut_in. rewrite He. cbn -[Z.mul]. unfold observe_with in IH |- *. rewrite He in IH |- *. cbn in IH |- *. lia. }
  pose proof (observe_with_spec s h c ltac:(lia) He) as H. destruct (observe_with s h c) as [change d].
  cbn [snd] in *. destruct H as (_ & _ & _ & H). rewrite Hp in H. unfold cut_credit in *.
  destruct (cut_in s h c); destruct (Z.eqb_spec (cut_cooldown_remaining c) 0) as [E0|E0];
    destruct (Z.eqb_spec (cut_cooldown_remaining d) 0) as [E1|E1];
    destruct (cooldown_severe_cut_taken c) eqn:Ec, (cooldown_severe_cut_taken d) eqn:Ed; lia || intuition (discriminate || lia).
Qed.

(** C12: However bad or good the path, the encoder is never asked for a rate
    outside the policy's floor and ceiling, and it is not cut faster than the
    cooldown allows.  For every run of a controller whose policy is well
    formed: the target stays within the bounds after every interval, what is
    reported is where the target went and came from, and of [k] intervals at
    most [2 (k + n) / (n + 1)] cut, [n] being the cooldown's length.  A cut
    while the cooldown still runs is its second and last, and only a severe
    interval takes it: a queue or frame wait at the severe multiple without a
    keyframe burst, or twice the congested loss. *)
Theorem rate_stays_in_bounds_and_cuts_pace (p : RateControlPolicy) (l : list (RateSample * RateHints)) (s : RateSample) (h : RateHints)
  (Hwf : policy_wf p) :
  let c := (run l (RateController_new p)).2 in
  let '(change, d) := observe_with s h c in
  floor_bps p <= rc_target_bps c <= ceiling_bps p
  /\ (forall x, change = Some x -> change_target_bps x = rc_target_bps d /\ change_previous_bps x = rc_target_bps c
        /\ floor_bps p <= change_target_bps x <= ceiling_bps p)
  /\ (cut_cooldown_intervals p + 1) * cuts l (RateController_new p) <= 2 * (len l + cut_cooldown_intervals p)
  /\ (cut_in s h c = true -> 0 < cut_cooldown_remaining c ->
      severe_interval s h c /\ cooldown_severe_cut_taken c = false
      /\ (0 < cut_cooldown_remaining d -> cooldown_severe_cut_taken d = true)).
Proof.
  pose proof (rate_inv_run p l Hwf _ (rate_inv_new p Hwf)) as Hc. cbv zeta.
  set (c := (run l (RateController_new p)).2) in *.
  pose proof (rate_inv_step p s h c Hwf Hc) as Hd. pose proof (ri_remaining _ _ Hc) as Hr.
  assert (forall x, (observe_with s h c).1 = Some x ->
    change_target_bps x = rc_target_bps (observe_with s h c).2 /\ change_previous_bps x = rc_target_bps c) as Hx.
  { intros x Hx. destruct (Z.eq_dec (elapsed s) 0) as [He|He]; [unfold observe_with in Hx; by rewrite He in Hx|].
    pose proof (observe_with_spec s h c ltac:(lia) He) as H. cbv zeta in H. destruct (observe_with s h c). by apply H. }
  assert (cut_in s h c = true -> 0 < cut_cooldown_remaining c -> severe_interval s h c /\ cooldown_severe_cut_taken c = false
    /\ (0 < cut_cooldown_remaining (observe_with s h c).2 -> cooldown_severe_cut_taken (observe_with s h c).2 = true)) as Hcut.
  { intros Hcut Hrem. assert (elapsed s <> 0) as He by (intros He; unfold cut_in in Hcut; by rewrite He in Hcut).
    pose proof (observe_with_spec s h c ltac:(lia) He) as H. cbv zeta in H. rewrite Hcut, (proj2 (Z.eqb_neq _ _)) in H by lia.
    destruct (observe_with s h c). destruct H as (_ & _ & _ & ? & ? & E & ?). cbn [snd]. rewrite E. done. }
  destruct (observe_with s h c) as [change d]. cbn [fst snd] in *.
  split; [apply Hc|]. split.
  - intros x E. destruct (Hx x E) as [Et Ep]. split; [done|]. split; [done|]. rewrite Et. apply Hd.
  - split; [|exact Hcut]. pose proof (cuts_bounded p l Hwf _ (rate_inv_new p Hwf)) as H. unfold cut_credit in H. cbn in H. lia.
Qed.

(** Above the gate a rise needs evidence, whatever the state. *)
Lemma probe_gated s c k gate : evidence_gate_bps (rc_policy k) = Some gate ->
  rc_policy k = rc_policy c -> (knee_bps k = knee_bps c /\ knee_repeats k = knee_repeats c \/ knee_bps k = None) ->
  may_probe_up s (rc_target_bps c) k = true ->
  if gate <=? rc_target_bps c then spends_target s (rc_target_bps c) = true
  else increased_target (rc_target_bps c) k <= gate \/ gate_slack c.
Proof.
  intros Hg Hp Hk Hm. unfold may_probe_up, above_evidence_gate in Hm. rewrite Hg in Hm.
  destruct (Z.leb_spec gate (rc_target_bps c)); [by rewrite andb_false_r in Hm|].
  unfold increased_target. destruct (near_remembered_knee (rc_target_bps c) k) eqn:En.
  - right. unfold near_remembered_knee, near_any_remembered_knee in En. apply andb_true_iff in En as [Hr En].
    destruct (knee_bps k) as [knee|] eqn:Ek; [|done]. destruct Hk as [[Hk Hn]|]; [|done]. exists knee.
    apply andb_true_iff in En as [_ En]. rewrite <- Hk, <- Hn, <- Hp. apply Z.ltb_lt in Hr. by repeat split.
  - left. cbv zeta. rewrite Hg. destruct (Z.ltb_spec (rc_target_bps c) gate); lia.
Qed.

(** Above the evidence gate a probe needs proof that the encoder spends
    what it has.  In any state a run reaches, an interval that does not cut
    leaves the target where it was or probes upward; when the target is at or
    above the gate it rises only if the busiest pipeline delivered nine tenths
    of it over a path with truth and frames, and when it is below the gate it
    does not pass the gate - except by the slow probe near a knee that cuts
    have repeated. *)
Theorem probe_above_gate_needs_evidence (p : RateControlPolicy) (gate : Z) (l : list (RateSample * RateHints)) (s : RateSample) (h : RateHints)
  (Hwf : policy_wf p) (Hgate : evidence_gate_bps p = Some gate)
  (Hcut : cut_in s h (run l (RateController_new p)).2 = false) :
  let c := (run l (RateController_new p)).2 in
  let d := (observe_with s h c).2 in
  (rc_target_bps d = rc_target_bps c)
  \/ (gate <= rc_target_bps c /\ spends_target s (rc_target_bps c) = true)
  \/ (rc_target_bps c < gate /\ (rc_target_bps d <= gate \/ gate_slack c)).
Proof.
  pose proof (rate_inv_run p l Hwf _ (rate_inv_new p Hwf)) as [Hp Hb Hr]. revert Hcut. cbv zeta.
  generalize dependent (run l (RateController_new p)).2. intros c Hp Hb Hr Hcut.
  destruct (Z.eq_dec (elapsed s) 0) as [He|He]; [left; unfold observe_with; by rewrite He|].
  unfold cut_in in Hcut. rewrite (proj2 (Z.eqb_neq _ _) He) in Hcut.
  pose proof (observe_with_spec s h c ltac:(lia) He) as H. destruct (observe_with s h c) as [change d]. cbn [snd].
  destruct H as (_ & Ht & _). rewrite Ht, Hp. clear Ht.
  pose proof (react_spec s h c ltac:(lia)) as H. destruct (react s h c) as [[reason cut] r]. cbn [fst snd] in *. subst cut.
  destruct H as (_ & _ & _ & [[_ ->]|(_ & _ & k & Hkp & Hkk & Hm & ->)]); [left; by apply clamp_id|right].
  pose proof (probe_gated s c k gate ltac:(congruence) Hkp Hkk Hm) as H.
  destruct (Z.leb_spec gate (rc_target_bps c)); [by left|right]. split; [done|].
  destruct H as [H|H]; [left|by right]. pose proof (wf_gate p Hwf gate Hgate). pose proof (wf_floor p Hwf).
  unfold clamped, clamp. repeat match goal with |- context [?a <? ?b] => destruct (Z.ltb_spec a b) end; lia.
Qed.

(** ** Two runs *)

(** A second with a short queue in which a stream limited by its content
    delivers a few kilobytes; and one whose frames wait long. *)
Definition quiet_second : RateSample * RateHints :=
  (mkRateSample 1000 1000 (duration_from_secs 1) (from_millis 1) 30 1 (Some (signal_of 38 30 0 0 300)), mkHints 0).
Definition waiting_second : RateSample * RateHints :=
  (mkRateSample 1000 1000 (duration_from_secs 1) (from_millis 200) 30 1 (Some (signal_of 38 30 0 0 300)), mkHints 0).
Definition knee_run : list (RateSample * RateHints) :=
  replicate 10 quiet_second ++ [waiting_second] ++ replicate 6 quiet_second ++ [waiting_second] ++ replicate 7 quiet_second.
Definition gated_policy : RateControlPolicy := with_evidence_gate 20000000 (for_bounds 10000000 40000000).

(** Near a repeated knee the slow probe crosses the gate although no interval
    of the run carries evidence. *)
Lemma slow_probe_crosses_gate :
  forallb (fun i => negb (spends_target i.1 10000000)) knee_run = true
  /\ rc_target_bps (run (knee_run ++ replicate 6 quiet_second) (RateController_new gated_policy)).2 = 20010703.
Proof. by vm_compute. Qed.

(** What a host that applies only the reported changes encodes at. *)
Definition applied_on_change (l : list (option RateChange)) (initial : Z) : Z :=
  fold_left (fun bps change => match change with Some x => change_target_bps x | None => bps end) l initial.

(** The slow probe's steps are below [min_change], so none is reported: such a
    host stays behind the controller for good. *)
Lemma slow_probe_goes_unreported :
  let '(changes, c) := run (knee_run ++ replicate 20 quiet_second) (RateController_new gated_policy) in
  drop 25 changes = replicate 20 None
  /\ applied_on_change changes 10000000 = 17768931 /\ rc_target_bps c = 20010703.
Proof. by vm_compute. Qed.

(** After the second that waits, another one is a severe interval in the
    cooldown. *)
Definition cooling : RateController := (run (replicate 10 quiet_second ++ [waiting_second]) (RateController_new gated_policy)).2.

Lemma rate_stays_in_bounds_and_cuts_pace_witness :
  cuts knee_run (RateController_new gated_policy) = 2 /\ 4 * cuts knee_run (RateController_new gated_policy) <= 2 * (25 + 3)
  /\ cut_cooldown_remaining cooling = 3 /\ cut_in waiting_second.1 waiting_second.2 cooling = true
  /\ severe_interval waiting_second.1 waiting_second.2 cooling
  /\ rc_target_bps (observe_with waiting_second.1 waiting_second.2 cooling).2 < rc_target_bps cooling.
Proof.
  assert (policy_wf gated_policy) as Hwf by (apply with_evidence_gate_wf, for_bounds_wf).
  split; [by vm_compute|]. split.
  - pose proof (rate_stays_in_bounds_and_cuts_pace gated_policy knee_run (fst quiet_second) (mkHints 0) Hwf) as H.
    cbv zeta in H. destruct (observe_with _ _ _) as [change d]. destruct H as (_ & _ & H & _). exact H.
  - split; [by vm_compute|]. split; [by vm_compute|]. split; [|by vm_compute].
    pose proof (rate_stays_in_bounds_and_cuts_pace gated_policy (replicate 10 quiet_second ++ [waiting_second])
      (fst waiting_second) (snd waiting_second) Hwf) as H.
    cbv zeta in H. destruct (observe_with _ _ _) as [change d]. destruct H as (_ & _ & _ & H). apply H; by vm_compute.
Defined.

Lemma probe_above_gate_needs_evidence_witness :
  let c := (run (replicate 10 quiet_second) (RateController_new gated_policy)).2 in
  let d := (observe_with (fst quiet_second) (mkHints 0) c).2 in
  rc_target_bps c = 20000000 /\ cut_in (fst quiet_second) (mkHints 0) c = false /\ rc_target_bps d = rc_target_bps c.
Proof.
  assert (policy_wf gated_policy) as Hwf by (apply with_evidence_gate_wf, for_bounds_wf).
  cbv zeta. split; [by vm_compute|]. split; [by vm_compute|].
  destruct (probe_above_gate_needs_evidence gated_policy 20000000 (replicate 10 quiet_second) (fst quiet_second) (mkHints 0) Hwf)
    as [H|[[_ H]|[H _]]]; [by vm_compute|by vm_compute|exact H|vm_compute in H; discriminate H|vm_compute in H; discriminate H].
Defined.
