(* ===== verification/RateLoss.v ===== *)
(** * Media: loss evidence over a controller's run

    Which packets each piece of loss evidence of [RateControl] was measured
    over: the reference cuts the path signals of a run into pools, and the
    controller acts on exactly the pools that are worth judging. *)

From S2P Require Import Prelude Float64 PathSignal RateControl.

(** A pool after one more interval. *)
Definition add_signal (pool : LossPool) (signal : PathSignal) : LossPool :=
  mkPool (saturating_add 64 (pool_sent pool) (sent_packets_delta signal))
    (saturating_add 64 (pool_lost pool) (lost_packets_delta signal))
    (saturating_add 64 (pool_congestion_events pool) (congestion_events_delta signal))
    (saturating_add 32 (pool_intervals pool) 1).
Definition total (seg : list PathSignal) : LossPool := fold_left add_signal seg LossPool_default.

(** When a pool is closed, and what it is worth. *)
Definition closed (p : RateControlPolicy) (pool : LossPool) : bool :=
  (min_loss_sample_packets p <=? pool_sent pool) || (Z.max (max_loss_sample_intervals p) 1 <=? pool_intervals pool).
Definition judge (p : RateControlPolicy) (pool : LossPool) : option LossEvidence :=
  if ((min_loss_sample_packets p <=? pool_sent pool) || (min_loss_sample_packets p / 4 <=? pool_sent pool)) && (0 <? pool_sent pool)
  then Some (mkEvidence (f64_div (of_int (pool_lost pool)) (of_int (pool_sent pool))) (pool_sent pool) (pool_intervals pool)
               (pool_congestion_events pool))
  else None.

Lemma pool_loss_eq p pool signal : pool_loss p pool signal =
  let pool := add_signal pool signal in if closed p pool then (judge p pool, LossPool_default) else (None, pool).
Proof.
  unfold pool_loss, closed, judge. cbv zeta. fold (add_signal pool signal).
  destruct (min_loss_sample_packets p <=? pool_sent (add_signal pool signal)), (_ <=? pool_intervals (add_signal pool signal)); done.
Qed.

(** The reference: [segs] are the closed pools of a sequence of signals and
    [pending] what is still pooling. *)
Definition open_pool (p : RateControlPolicy) (seg : list PathSignal) : Prop :=
  forall k, (0 < k)%nat -> (k <= length seg)%nat -> closed p (total (take k seg)) = false.
Definition closed_pool (p : RateControlPolicy) (seg : list PathSignal) : Prop :=
  closed p (total seg) = true /\ exists front signal, seg = front ++ [signal] /\ open_pool p front.

(** ** The controller's pool *)

Record same_pool (c d : RateController) : Prop := {
  sp_pool : loss_pool d = loss_pool c;
  sp_loss : interval_loss d = interval_loss c;
  sp_policy : rc_policy d = rc_policy c
}.

#[global] Instance same_pool_preorder : PreOrder same_pool.
Proof. split; [by intros c|]. intros a b c [] []. split; congruence. Qed.

Lemma note_spend_pool s t c : same_pool c (note_spend s t c).
Proof. unfold note_spend. rate_cases; by split. Qed.

Lemma frame_wait_pool s burst c : same_pool c (frame_wait_congestion s burst c).2.
Proof.
  unfold frame_wait_congestion. destruct (frames s =? 0); [done|]. cbv zeta.
  match goal with |- context [if ?b then _ else _] => destruct b end;
  match goal with |- context [if ?b then _ else _] => destruct b; by split end.
Qed.

Lemma remember_knee_pool t c : same_pool c (remember_knee t c).
Proof. unfold remember_knee. destruct (knee_bps c); [case_match|]; by split. Qed.

Lemma congested_interval_pool s previous cooling e c : same_pool c (congested_interval s previous cooling e c).2.
Proof.
  unfold congested_interval. assert (same_pool c (cooldown_cut_target s previous e c).2) as H.
  { unfold cooldown_cut_target. case_match; [done|]. case_match; by split. }
  destruct (cooldown_cut_target s previous e c) as [[t|] d]; [|done]. cbn [snd] in H. etrans; [exact H|].
  etrans; [apply (remember_knee_pool previous)|]. destruct (negb cooling); by split.
Qed.

Lemma clear_interval_pool s previous c : same_pool c (clear_interval s previous c).2.
Proof.
  unfold clear_interval. cbv zeta. case_match; [by split|].
  set (c1 := set_clear_intervals _ _). set (c2 := if (previous =? floor_bps (rc_policy c)) && path_resets_knee s c1 then _ else c1).
  set (c3 := if path_resets_knee s c2 && _ then set_knee None 0 c2 else c2).
  assert (same_pool c c1) as H1 by by split.
  assert (same_pool c c2) as H2 by (unfold c2; case_match; [etrans; [exact H1|by split]|done]).
  assert (same_pool c c3) as H3 by (unfold c3; case_match; [etrans; [exact H2|by split]|done]).
  case_match; cbn [snd]; [etrans; [exact H3|by split]|done].
Qed.

(** What one interval does to the pool and the evidence. *)
Lemma observe_pool s h c : elapsed s <> 0 ->
  let d := (observe_with s h c).2 in
  rc_policy d = rc_policy c
  /\ match path s with
     | Some signal => (interval_loss d, loss_pool d) = pool_loss (rc_policy c) (loss_pool c) signal
     | None => interval_loss d = None /\ loss_pool d = loss_pool c
     end.
Proof.
  intros He. unfold observe_with. rewrite (proj2 (Z.eqb_neq _ _) He). cbv zeta.
  pose proof (note_spend_pool s (rc_target_bps c) c) as H1. unfold react. cbv zeta.
  set (b := note_spend s (rc_target_bps c) c) in *.
  assert (let d := (congestion_event s h b).2 in rc_policy d = rc_policy b /\
    match path s with
    | Some signal => (interval_loss d, loss_pool d) = pool_loss (rc_policy b) (loss_pool b) signal
    | None => interval_loss d = None /\ loss_pool d = loss_pool b
    end) as H2.
  { unfold congestion_event. cbv zeta. destruct (path s) as [signal|].
    - unfold path_congestion. cbn [loss_pool rc_policy set_loss].
      destruct (pool_loss (rc_policy b) (loss_pool b) signal) as [loss pool]. cbv zeta.
      set (c1 := set_queue _ _ _). assert (interval_loss c1 = loss /\ loss_pool c1 = pool /\ rc_policy c1 = rc_policy b) as Hc1 by done.
      destruct (f64_leb _ _); [by split|].
      match goal with |- context [if ?x then (Some (mkEvent QueueDelay _), _) else _] => destruct x end;
        [by split|].
      set (c2 := if is_some loss then _ else c1).
      assert (interval_loss c2 = loss /\ loss_pool c2 = pool /\ rc_policy c2 = rc_policy b) as Hc2 by (unfold c2; by destruct (is_some loss)).
      clearbody c2. match goal with |- context [if ?x then (Some (mkEvent LossOrCongestion _), c2) else _] => destruct x end; cbn [snd]; [destruct Hc2 as (-> & -> & ->); done|].
      destruct (frame_wait_pool s (negb (keyframe_bytes h =? 0)) c2) as [-> -> ->]. destruct Hc2 as (-> & -> & ->). done.
    - set (c1 := set_loss_streak _ _). destruct (frame_wait_pool s (negb (keyframe_bytes h =? 0)) c1) as [-> -> ->]. done. }
  destruct (congestion_event s h b) as [e d]. cbn [snd] in H2.
  destruct H1 as [E1 _ E3]. rewrite E1, E3 in H2.
  match goal with |- context [set_target _ (cooldown_tick ?f _)] => set (cooling := f) end.
  assert (forall r t, same_pool d r -> same_pool d (set_target t (cooldown_tick cooling r))) as Htick.
  { intros r t Hr. etrans; [exact Hr|]. unfold cooldown_tick. destruct cooling; [|done]. cbv zeta. destruct (_ =? 0); by split. }
  destruct e as [e|]; [|destruct (path_is_clear s d)].
  - pose proof (congested_interval_pool s (rc_target_bps c) cooling e d) as H. fold cooling.
    destruct (congested_interval s (rc_target_bps c) cooling e d) as [cut r]. cbn [snd] in *.
    by destruct (Htick r (clamp (floor_bps (rc_policy (cooldown_tick cooling r)))
      (ceiling_bps (rc_policy (cooldown_tick cooling r))) (rc_target_bps (cooldown_tick cooling r))) H) as [-> -> ->].
  - pose proof (clear_interval_pool s (rc_target_bps c) d) as H.
    destruct (clear_interval s (rc_target_bps c) d) as [reason r]. cbn [snd] in *.
    by destruct (Htick r (clamp (floor_bps (rc_policy (cooldown_tick cooling r)))
      (ceiling_bps (rc_policy (cooldown_tick cooling r))) (rc_target_bps (cooldown_tick cooling r))) H) as [-> -> ->].
  - cbn [snd]. by destruct (Htick d (clamp (floor_bps (rc_policy (cooldown_tick cooling d)))
      (ceiling_bps (rc_policy (cooldown_tick cooling d))) (rc_target_bps (cooldown_tick cooling d))) ltac:(done)) as [-> -> ->].
Qed.

(** ** The run *)

(** The path signals of the intervals a run takes in, and the evidence it
    acts on, in order. *)
Definition signals_of (l : list (RateSample * RateHints)) : list PathSignal :=
  omap (fun i => if elapsed i.1 =? 0 then None else path i.1) l.

Fixpoint evidence (l : list (RateSample * RateHints)) (c : RateController) : list LossEvidence :=
  match l with
  | [] => []
  | (s, h) :: r =>
    let d := (observe_with s h c).2 in
    (if elapsed s =? 0 then [] else option_list (interval_loss d)) ++ evidence r d
  end.

(** The pools of a run that starts with [pending] signals pooled. *)
Definition pools_of (p : RateControlPolicy) (signals pending : list PathSignal) (judged : list LossEvidence) : Prop :=
  exists segs, signals = concat segs ++ pending
    /\ (forall seg, seg ∈ segs -> closed_pool p seg) /\ open_pool p pending
    /\ judged = omap (fun seg => judge p (total seg)) segs.

Lemma total_snoc seg signal : total (seg ++ [signal]) = add_signal (total seg) signal.
Proof. unfold total. by rewrite fold_left_app. Qed.

Lemma open_pool_snoc p seg signal : open_pool p seg -> closed p (total (seg ++ [signal])) = false -> open_pool p (seg ++ [signal]).
Proof.
  intros Ho Hc k Hk Hle. rewrite length_app in Hle. simpl in Hle.
  destruct (decide (k <= length seg)%nat) as [H|H]; [rewrite take_app_le by done; by apply Ho|].
  by rewrite take_ge by (rewrite length_app; simpl; lia).
Qed.

(** The run from a pool of the signals [pending] judges the pools of
    [pending] followed by the run's own signals. *)
Lemma evidence_pools l : forall c pending, open_pool (rc_policy c) pending -> loss_pool c = total pending ->
  exists rest, pools_of (rc_policy c) (pending ++ signals_of l) rest (evidence l c) /\ loss_pool (run l c).2 = total rest.
Proof.
  induction l as [|[s h] r IH]; intros c pending Ho Hp; cbn [evidence run].
  { exists pending. split; [|done]. exists []. cbn. rewrite app_nil_r. split; [done|]. split; [|done].
    intros seg Hin. by apply not_elem_of_nil in Hin. }
  unfold signals_of. cbn [omap list_omap fst]. fold (signals_of r).
  destruct (Z.eq_dec (elapsed s) 0) as [He|He].
  { unfold observe_with. rewrite He. cbn. destruct (IH c pending Ho Hp) as (rest & H1 & H2). exists rest.
    destruct (run r c). by split. }
  pose proof (observe_pool s h c He) as [Hpol Hpool]. rewrite (proj2 (Z.eqb_neq _ _) He).
  destruct (observe_with s h c) as [change d]. cbn [snd] in *. rewrite <- Hpol in *.
  destruct (path s) as [signal|].
  - rewrite pool_loss_eq, Hp, <- total_snoc in Hpool. cbv zeta in Hpool.
    destruct (closed (rc_policy d) (total (pending ++ [signal]))) eqn:Ec; apply pair_equal_spec in Hpool as [E1 E2]; rewrite E1.
    + destruct (IH d [] ltac:(intros k ? Hk; simpl in Hk; lia) E2) as (rest & (segs & Hs & Hcl & Hop & Hj) & Hrest).
      exists rest. split; [|by destruct (run r d)]. exists ((pending ++ [signal]) :: segs). split_and!.
      * cbn [concat]. rewrite <- !app_assoc. simpl in Hs |- *. by rewrite Hs.
      * intros seg [->|Hin]%elem_of_cons; [|by apply Hcl]. split; [done|]. by exists pending, signal.
      * done.
      * cbn [omap list_omap]. rewrite Hj. by destruct (judge _ _).
    + destruct (IH d (pending ++ [signal]) (open_pool_snoc _ _ _ Ho Ec) E2) as (rest & H1 & H2).
      exists rest. rewrite <- app_assoc in H1. split; [exact H1|]. by destruct (run r d).
  - destruct Hpool as [E1 E2]. rewrite E1. destruct (IH d pending Ho ltac:(congruence)) as (rest & H1 & H2).
    exists rest. split; [exact H1|]. by destruct (run r d).
Qed.

(** The counts of a pool in plain arithmetic. *)
Definition measured (seg : list PathSignal) : LossPool :=
  mkPool (sum sent_packets_delta seg) (sum lost_packets_delta seg) (sum congestion_events_delta seg) (len seg).

(** Counts that fit the pool's fields. *)
Record countable (signals : list PathSignal) : Prop := {
  co_nonneg : forall s, s ∈ signals -> 0 <= sent_packets_delta s /\ 0 <= lost_packets_delta s /\ 0 <= congestion_events_delta s;
  co_sent : sum sent_packets_delta signals <= umax 64;
  co_lost : sum lost_packets_delta signals <= umax 64;
  co_events : sum congestion_events_delta signals <= umax 64;
  co_intervals : len signals <= umax 32
}.

Lemma sum_app f l k : sum f (l ++ k) = sum f l + sum f k.
Proof. unfold sum. induction l as [|x l IH]; simpl; [done|]. rewrite IH. lia. Qed.

Lemma sum_nonneg f l : (forall s, s ∈ l -> 0 <= f s) -> 0 <= sum f l.
Proof.
  unfold sum. induction l as [|x l IH]; intros H; simpl; [done|]. pose proof (H x ltac:(apply elem_of_cons; by left)).
  specialize (IH ltac:(intros s Hs; apply H, elem_of_cons; by right)). lia.
Qed.

Lemma countable_app_l l k : countable (l ++ k) -> countable l.
Proof.
  intros [Hn H1 H2 H3 H4]. rewrite !sum_app in *. rewrite len_app in H4. pose proof (len_nonneg k).
  assert (forall s, s ∈ k -> s ∈ l ++ k) as Hin by (intros; apply elem_of_app; by right).
  pose proof (sum_nonneg sent_packets_delta k ltac:(intros s Hs; by apply Hn, Hin)).
  pose proof (sum_nonneg lost_packets_delta k ltac:(intros s Hs; by apply Hn, Hin)).
  pose proof (sum_nonneg congestion_events_delta k ltac:(intros s Hs; by apply Hn, Hin)).
  split; try lia. intros s Hs. apply Hn, elem_of_app. by left.
Qed.

Lemma countable_app_r l k : countable (l ++ k) -> countable k.
Proof.
  intros [Hn H1 H2 H3 H4]. rewrite !sum_app in *. rewrite len_app in H4. pose proof (len_nonneg l).
  assert (forall s, s ∈ l -> s ∈ l ++ k) as Hin by (intros; apply elem_of_app; by left).
  pose proof (sum_nonneg sent_packets_delta l ltac:(intros s Hs; by apply Hn, Hin)).
  pose proof (sum_nonneg lost_packets_delta l ltac:(intros s Hs; by apply Hn, Hin)).
  pose proof (sum_nonneg congestion_events_delta l ltac:(intros s Hs; by apply Hn, Hin)).
  split; try lia. intros s Hs. apply Hn, elem_of_app. by right.
Qed.

Lemma total_measured seg : countable seg -> total seg = measured seg.
Proof.
  induction seg as [|signal seg IH] using rev_ind; intros Hc; [done|].
  rewrite total_snoc, (IH (countable_app_l _ _ Hc)). destruct Hc as [_ H1 H2 H3 H4].
  unfold add_signal, measured, saturating_add in *. rewrite !sum_app, len_app in *. unfold sum in *. cbn in *.
  unfold len in *. simpl in *. f_equal; lia.
Qed.

(** C31: The controller judges loss over enough packets, and judges every
    packet once.  For every run whose counts fit their fields, the path
    signals of its intervals fall into consecutive pools and a rest that is
    still pooling: a pool ends at the first interval that brings it to
    [min_loss_sample_packets] sent packets or to [max_loss_sample_intervals]
    intervals, and the evidence the controller acts on is, in order, exactly
    that of the pools with packets in them of which there are at least a
    quarter of that minimum - the share lost of the packets sent. *)
Theorem loss_evidence_exact (p : RateControlPolicy) (l : list (RateSample * RateHints))
  (Hcount : countable (signals_of l)) :
  exists segs pending,
    signals_of l = concat segs ++ pending
    /\ (forall seg, seg ∈ segs -> closed p (measured seg) = true
          /\ forall k, (0 < k)%nat -> (k < length seg)%nat -> closed p (measured (take k seg)) = false)
    /\ (forall k, (0 < k)%nat -> (k <= length pending)%nat -> closed p (measured (take k pending)) = false)
    /\ evidence l (RateController_new p) = omap (fun seg => judge p (measured seg)) segs.
Proof.
  destruct (evidence_pools l (RateController_new p) [] ltac:(intros k ? Hk; simpl in Hk; lia) eq_refl)
    as (pending & (segs & Hs & Hcl & Hop & Hj) & _). cbn [app] in Hs. change (rc_policy (RateController_new p)) with p in *.
  exists segs, pending. rewrite Hs in Hcount.
  assert (forall seg, seg ∈ segs -> countable seg) as Hseg.
  { apply countable_app_l in Hcount. clear -Hcount. intros seg Hin. apply list_elem_of_split in Hin as (a & b & ->).
    rewrite concat_app in Hcount. cbn in Hcount. by apply countable_app_r, countable_app_l in Hcount. }
  assert (forall k seg, countable seg -> total (take k seg) = measured (take k seg)) as Htake.
  { intros k seg H. apply total_measured. rewrite <- (take_drop k seg) in H. by apply countable_app_l in H. }
  split; [done|]. split_and!.
  - intros seg Hin. destruct (Hcl seg Hin) as [Hc (front & signal & -> & Ho)]. pose proof (Hseg _ Hin) as Hco.
    split; [by rewrite <- total_measured|]. intros k Hk Hlt. rewrite <- (Htake k _ Hco). rewrite length_app in Hlt. simpl in Hlt.
    rewrite take_app_le by lia. apply Ho; lia.
  - intros k Hk Hle. rewrite <- Htake; [by apply Hop|]. by apply countable_app_r in Hcount.
  - rewrite Hj. clear -Hseg. induction segs as [|seg segs IH]; [done|]. cbn [omap list_omap].
    rewrite (total_measured seg) by (apply Hseg, elem_of_cons; by left).
    destruct (judge p (measured seg)); [f_equal|]; apply IH; intros x Hx; apply Hseg, elem_of_cons; by right.
Qed.

(** Three quiet seconds of a stream pool into one judgement. *)
Definition lossy_second (lost sent : Z) : RateSample * RateHints := (sample_of 300000 1 (signal_of 30 30 0 lost sent), mkHints 0).

Lemma loss_evidence_exact_witness :
  exists segs pending,
    signals_of [lossy_second 1 90; lossy_second 0 90; lossy_second 3 20; lossy_second 1 30] = concat segs ++ pending
    /\ evidence [lossy_second 1 90; lossy_second 0 90; lossy_second 3 20; lossy_second 1 30] (RateController_new (for_bounds 4000000 8000000))
       = omap (fun seg => judge (for_bounds 4000000 8000000) (measured seg)) segs
    /\ (ev_sent_packets <$> evidence [lossy_second 1 90; lossy_second 0 90; lossy_second 3 20; lossy_second 1 30]
          (RateController_new (for_bounds 4000000 8000000))) = [200].
Proof.
  destruct (loss_evidence_exact (for_bounds 4000000 8000000) [lossy_second 1 90; lossy_second 0 90; lossy_second 3 20; lossy_second 1 30])
    as (segs & pending & H1 & _ & _ & H2).
  { split; [|by vm_compute|by vm_compute|by vm_compute|by vm_compute]. intros s Hs. vm_compute in Hs.
    repeat (apply elem_of_cons in Hs as [->|Hs]; [by vm_compute|]). by apply not_elem_of_nil in Hs. }
  exists segs, pending. split; [exact H1|]. split; [exact H2|]. by vm_compute.
Defined.
