(* ===== verification/RateSync.v ===== *)
(** * Media: bringing a rate to every pipeline

    Models [PipelineRateSync] of [shared/media/src/rate_control.rs]: the ledger
    of what each encoder pipeline accepted, and the pass that re-sends what a
    full mailbox missed.  The pipelines are an interface: two calls that say
    whether a pipeline took a value, and the law that a pipeline holds what it
    last took. *)

From S2P Require Import Prelude.

(** The pipelines' side of [send_bitrate] and [send_framerate]. *)
Class Pipelines (E : Type) := {
  send_bitrate : nat -> Z -> E -> bool * E;
  send_framerate : nat -> Z -> E -> bool * E;
  holds : E -> nat -> option Z * option Z;
  send_bitrate_law : forall i v e j, holds (send_bitrate i v e).2 j =
    if (send_bitrate i v e).1 && bool_decide (i = j) then (Some v, (holds e j).2) else holds e j;
  send_framerate_law : forall i v e j, holds (send_framerate i v e).2 j =
    if (send_framerate i v e).1 && bool_decide (i = j) then ((holds e j).1, Some v) else holds e j
}.

Record PipelineRateSync := mkSync { applied_bps : list (option Z); applied_fps : list (option Z) }.

Record PipelineSyncOutcome := mkOutcome { bitrate_sent : Z; framerate_sent : Z; pending : Z }.

Definition PipelineRateSync_new (pipelines : nat) (initial_bitrate initial_framerate : Z) : PipelineRateSync :=
  mkSync (replicate pipelines (Some initial_bitrate)) (replicate pipelines (Some initial_framerate)).

Section Sync.
Context {E : Type} `{Pipelines E}.
Implicit Types (e : E) (l : PipelineRateSync) (o : PipelineSyncOutcome).

(** One turn of the loop: frame rate first, then bitrate. *)
Definition sync_framerate (framerate : option Z) (i : nat) (l : PipelineRateSync) (o : PipelineSyncOutcome) (e : E) :
    bool * PipelineRateSync * PipelineSyncOutcome * E :=
  match framerate with
  | Some fps =>
    if decide (default None (applied_fps l !! i) = Some fps) then (false, l, o, e)
    else
      let '(accepted, e) := send_framerate i fps e in
      if accepted
      then (false, mkSync (applied_bps l) (<[i := Some fps]> (applied_fps l)),
            mkOutcome (bitrate_sent o) (framerate_sent o + 1) (pending o), e)
      else (true, l, o, e)
  | None => (false, l, o, e)
  end.

Definition sync_bitrate (bitrate : Z) (i : nat) (behind : bool) (l : PipelineRateSync) (o : PipelineSyncOutcome) (e : E) :
    bool * PipelineRateSync * PipelineSyncOutcome * E :=
  if decide (default None (applied_bps l !! i) = Some bitrate) then (behind, l, o, e)
  else
    let '(accepted, e) := send_bitrate i bitrate e in
    if accepted
    then (behind, mkSync (<[i := Some bitrate]> (applied_bps l)) (applied_fps l),
          mkOutcome (bitrate_sent o + 1) (framerate_sent o) (pending o), e)
    else (true, l, o, e).

Definition sync_one (bitrate : Z) (framerate : option Z) (i : nat) (l : PipelineRateSync) (o : PipelineSyncOutcome) (e : E) :
    PipelineRateSync * PipelineSyncOutcome * E :=
  let '(behind, l, o, e) := sync_framerate framerate i l o e in
  let '(behind, l, o, e) := sync_bitrate bitrate i behind l o e in
  (l, if behind then mkOutcome (bitrate_sent o) (framerate_sent o) (pending o + 1) else o, e).

Fixpoint sync_from (bitrate : Z) (framerate : option Z) (indices : list nat) (l : PipelineRateSync) (o : PipelineSyncOutcome) (e : E) :
    PipelineRateSync * PipelineSyncOutcome * E :=
  match indices with
  | [] => (l, o, e)
  | i :: r => let '(l, o, e) := sync_one bitrate framerate i l o e in sync_from bitrate framerate r l o e
  end.

Definition sync (bitrate : Z) (framerate : option Z) (l : PipelineRateSync) (e : E) : PipelineRateSync * PipelineSyncOutcome * E :=
  sync_from bitrate framerate (seq 0 (length (applied_bps l))) l (mkOutcome 0 0 0) e.

(** ** The ledger and the pipelines *)

(** The ledger says what the pipelines hold. *)
Definition ledger_true (l : PipelineRateSync) (e : E) : Prop :=
  length (applied_fps l) = length (applied_bps l)
  /\ forall i, (i < length (applied_bps l))%nat ->
       applied_bps l !! i = Some (holds e i).1 /\ applied_fps l !! i = Some (holds e i).2.

(** A pipeline that has the wanted state. *)
Definition in_step (bitrate : Z) (framerate : option Z) (e : E) (i : nat) : bool :=
  bool_decide ((holds e i).1 = Some bitrate)
  && match framerate with Some fps => bool_decide ((holds e i).2 = Some fps) | None => true end.

Definition behind_count (bitrate : Z) (framerate : option Z) (indices : list nat) (e : E) : Z :=
  len (filter (fun i => in_step bitrate framerate e i = false) indices).

Lemma ledger_insert_bps l e i v e' : ledger_true l e -> (i < length (applied_bps l))%nat ->
  (forall j, holds e' j = if bool_decide (i = j) then (Some v, (holds e j).2) else holds e j) ->
  ledger_true (mkSync (<[i := Some v]> (applied_bps l)) (applied_fps l)) e'.
Proof.
  intros [Hlen Hall] Hi He. split; cbn; [by rewrite length_insert|]. intros j Hj. rewrite length_insert in Hj. rewrite He.
  destruct (Hall j Hj) as [Hb Hf]. case_bool_decide as Hij; [subst j|].
  - by rewrite list_lookup_insert_eq.
  - by rewrite list_lookup_insert_ne.
Qed.

Lemma ledger_insert_fps l e i v e' : ledger_true l e -> (i < length (applied_bps l))%nat ->
  (forall j, holds e' j = if bool_decide (i = j) then ((holds e j).1, Some v) else holds e j) ->
  ledger_true (mkSync (applied_bps l) (<[i := Some v]> (applied_fps l))) e'.
Proof.
  intros [Hlen Hall] Hi He. split; cbn; [by rewrite length_insert|]. intros j Hj. rewrite He.
  destruct (Hall j Hj) as [Hb Hf]. case_bool_decide as Hij; [subst j|].
  - rewrite list_lookup_insert_eq by lia. done.
  - by rewrite list_lookup_insert_ne.
Qed.

(** One turn leaves a true ledger, touches one pipeline only, and counts it
    exactly when it is still behind. *)
Lemma sync_one_spec bitrate framerate i l o e : ledger_true l e -> (i < length (applied_bps l))%nat ->
  let '(l', o', e') := sync_one bitrate framerate i l o e in
  ledger_true l' e' /\ length (applied_bps l') = length (applied_bps l)
  /\ (forall j, j <> i -> holds e' j = holds e j)
  /\ pending o' = pending o + (if in_step bitrate framerate e' i then 0 else 1)
  /\ (in_step bitrate framerate e i = true -> l' = l /\ o' = o /\ e' = e)
  /\ bitrate_sent o' = bitrate_sent o + (if decide ((holds e' i).1 = (holds e i).1) then 0 else 1)
  /\ framerate_sent o' = framerate_sent o + (if decide ((holds e' i).2 = (holds e i).2) then 0 else 1).
Proof.
  intros Hl Hi. unfold sync_one.
  assert (let '(behind, l', o', e') := sync_framerate framerate i l o e in
    ledger_true l' e' /\ length (applied_bps l') = length (applied_bps l) /\ (forall j, j <> i -> holds e' j = holds e j)
    /\ (holds e' i).1 = (holds e i).1
    /\ behind = (match framerate with Some fps => negb (bool_decide ((holds e' i).2 = Some fps)) | None => false end)
    /\ pending o' = pending o /\ bitrate_sent o' = bitrate_sent o
    /\ (match framerate with Some fps => (holds e i).2 = Some fps | None => True end -> l' = l /\ o' = o /\ e' = e)
    /\ framerate_sent o' = framerate_sent o + (if decide ((holds e' i).2 = (holds e i).2) then 0 else 1)) as H1.
  { unfold sync_framerate. destruct framerate as [fps|]; [|rewrite decide_True by done; split; [exact Hl|]; repeat split; lia].
    destruct (proj2 Hl i Hi) as [_ Hf]. rewrite Hf. cbn [default]. simpl.
    destruct (decide ((holds e i).2 = Some fps)) as [Ed|Ed].
    { rewrite bool_decide_true, decide_True by done. split; [exact Hl|]. repeat split; lia. }
    pose proof (send_framerate_law i fps e) as Hlaw. destruct (send_framerate i fps e) as [accepted e']. cbn in Hlaw.
    destruct accepted; cbn in Hlaw.
    - split; [by eapply ledger_insert_fps|]. cbn. rewrite !Hlaw, bool_decide_true by done. cbn.
      rewrite bool_decide_true by done. split; [done|]. split; [intros j Hj; by rewrite Hlaw, bool_decide_false|].
      rewrite decide_False by congruence. by repeat split.
    - split; [by split; [apply Hl|intros j Hj; rewrite Hlaw; apply Hl]|]. rewrite !Hlaw, bool_decide_false, decide_True by done.
      split; [done|]. split; [intros j Hj; apply Hlaw|]. repeat split; done || lia. }
  destruct (sync_framerate framerate i l o e) as [[[behind l1] o1] e1].
  destruct H1 as (Hl1 & Hlen1 & Hoth1 & Hb1 & -> & Hp1 & Hbs1 & Hid1 & Hfs1).
  unfold sync_bitrate. destruct (proj2 Hl1 i ltac:(lia)) as [Hb _]. rewrite Hb. cbn [default]. simpl. rewrite Hb1.
  set (fps_ok := match framerate with Some fps => bool_decide ((holds e1 i).2 = Some fps) | None => true end).
  assert (match framerate with Some fps => negb (bool_decide ((holds e1 i).2 = Some fps)) | None => false end = negb fps_ok) as ->
    by (unfold fps_ok; by destruct framerate).
  assert (forall x, in_step bitrate framerate x i = true -> (holds x i).1 = Some bitrate
    /\ match framerate with Some fps => (holds x i).2 = Some fps | None => True end) as Hin.
  { intros x Hx. unfold in_step in Hx. apply andb_true_iff in Hx as [Hx Hy]. apply bool_decide_eq_true in Hx. split; [done|].
    destruct framerate; [by apply bool_decide_eq_true in Hy|done]. }
  destruct (decide ((holds e i).1 = Some bitrate)) as [Ed|Ed].
  { assert (in_step bitrate framerate e1 i = fps_ok) as Estep by (unfold in_step; by rewrite Hb1, bool_decide_true).
    split; [done|]. split; [done|]. split; [done|]. rewrite Estep, Hb1, decide_True by done.
    destruct fps_ok eqn:Ef; cbn; (split; [lia|]); (split; [|split; [lia|done]]); intros [_ Hx]%Hin; [by apply Hid1|].
    exfalso. destruct (Hid1 Hx) as (_ & _ & Ee). subst e1. unfold fps_ok in Ef. destruct framerate; [by rewrite bool_decide_true in Ef|done]. }
  pose proof (send_bitrate_law i bitrate e1) as Hlaw. destruct (send_bitrate i bitrate e1) as [accepted e2]. cbn in Hlaw.
  assert (in_step bitrate framerate e i = true -> False) as Hno by (intros [Hx _]%Hin; by apply Ed).
  destruct accepted; cbn in Hlaw.
  - assert (in_step bitrate framerate e2 i = fps_ok) as Estep
      by (unfold in_step; rewrite !(Hlaw i), !(bool_decide_true (i = i)) by done; cbn; by rewrite bool_decide_true).
    assert (forall j, j <> i -> holds e2 j = holds e j) as Hoth2
      by (intros j Hj; rewrite Hlaw, bool_decide_false by done; by apply Hoth1).
    rewrite Estep, !Hlaw, bool_decide_true by done. cbn. rewrite decide_False by congruence.
    destruct fps_ok; cbn; (split; [by apply (ledger_insert_bps _ e1); [|lia|]|]); rewrite length_insert;
      (split; [done|]); (split; [done|]); (split; [lia|]); (split; [done|]); (split; [lia|done]).
  - assert (in_step bitrate framerate e2 i = false) as Estep
      by (unfold in_step; rewrite Hlaw, Hb1, bool_decide_false by done; done).
    rewrite Estep, !Hlaw, Hb1, decide_True by done.
    split; [by split; [apply Hl1|intros j Hj; rewrite Hlaw; apply Hl1]|]. cbn. split; [done|].
    split; [intros j Hj; rewrite Hlaw; by apply Hoth1|]. split; [lia|]. split; [done|]. split; [lia|done].
Qed.

(** A pipeline that takes what it is sent is in step afterwards. *)
Lemma sync_one_accepts bitrate framerate i l o e : ledger_true l e -> (i < length (applied_bps l))%nat ->
  (forall v x, (send_bitrate i v x).1 = true) -> (forall v x, (send_framerate i v x).1 = true) ->
  in_step bitrate framerate (sync_one bitrate framerate i l o e).2 i = true.
Proof.
  intros Hl Hi Hb Hf. unfold sync_one.
  assert (let '(_, l', _, e') := sync_framerate framerate i l o e in
    applied_bps l' = applied_bps l /\ (holds e' i).1 = (holds e i).1
    /\ match framerate with Some fps => (holds e' i).2 = Some fps | None => True end) as H1.
  { unfold sync_framerate. destruct framerate as [fps|]; [|done]. destruct (proj2 Hl i Hi) as [_ Hlf]. rewrite Hlf. simpl.
    case_decide; [done|]. pose proof (send_framerate_law i fps e i) as Hlaw. specialize (Hf fps e).
    destruct (send_framerate i fps e) as [a e']. simpl in *. subst a. rewrite bool_decide_true in Hlaw by done. by rewrite Hlaw. }
  destruct (sync_framerate framerate i l o e) as [[[behind l1] o1] e1]. destruct H1 as (Hl1 & Hb1 & Hf1).
  unfold sync_bitrate. rewrite Hl1. destruct (proj2 Hl i Hi) as [Hlb _]. rewrite Hlb. simpl.
  assert (forall x, (holds x i).1 = Some bitrate -> match framerate with Some fps => (holds x i).2 = Some fps | None => True end ->
    in_step bitrate framerate x i = true) as Hin.
  { intros x H1 H2. unfold in_step. rewrite bool_decide_true by done. destruct framerate; [by rewrite bool_decide_true|done]. }
  case_decide as Hd; [apply Hin; [cbn [snd]; congruence|done]|].
  pose proof (send_bitrate_law i bitrate e1 i) as Hlaw. specialize (Hb bitrate e1).
  destruct (send_bitrate i bitrate e1) as [a e2]. simpl in *. subst a. rewrite bool_decide_true in Hlaw by done.
  change (in_step bitrate framerate e2 i = true). apply Hin; rewrite Hlaw; [done|]. destruct framerate; cbn; [exact Hf1|done].
Qed.

(** How many of [indices] hold something else after than before. *)
Definition changed_count (get : option Z * option Z -> option Z) (indices : list nat) (e e' : E) : Z :=
  len (filter (fun i => get (holds e' i) <> get (holds e i)) indices).

Lemma len_filter_cons {A} (P : A -> Prop) `{forall x, Decision (P x)} x (k : list A) :
  len (filter P (x :: k)) = (if decide (P x) then 1 else 0) + len (filter P k).
Proof. rewrite filter_cons. case_decide; [by rewrite len_cons|done]. Qed.

Lemma len_filter_ext {A} (P Q : A -> Prop) `{forall x, Decision (P x), forall x, Decision (Q x)} (k : list A) :
  (forall x, x ∈ k -> P x <-> Q x) -> len (filter P k) = len (filter Q k).
Proof.
  induction k as [|x k IH]; intros Hpq; [done|]. rewrite !len_filter_cons.
  rewrite IH by (intros y Hy; apply Hpq, elem_of_cons; by right).
  assert (P x <-> Q x) as Hx by (apply Hpq, elem_of_cons; by left). by rewrite (decide_ext _ _ _ _ Hx).
Qed.

(** The whole pass. *)
Lemma sync_from_spec bitrate framerate indices : forall l o e, NoDup indices -> ledger_true l e ->
  (forall i, i ∈ indices -> (i < length (applied_bps l))%nat) ->
  let '(l', o', e') := sync_from bitrate framerate indices l o e in
  ledger_true l' e' /\ length (applied_bps l') = length (applied_bps l)
  /\ (forall j, ~ (j ∈ indices) \/ in_step bitrate framerate e j = true -> holds e' j = holds e j)
  /\ pending o' = pending o + behind_count bitrate framerate indices e'
  /\ bitrate_sent o' = bitrate_sent o + changed_count fst indices e e'
  /\ framerate_sent o' = framerate_sent o + changed_count snd indices e e'
  /\ ((forall i, i ∈ indices -> in_step bitrate framerate e i = true) -> l' = l /\ o' = o /\ e' = e)
  /\ ((forall i v x, (send_bitrate i v x).1 = true) -> (forall i v x, (send_framerate i v x).1 = true) ->
        forall i, i ∈ indices -> in_step bitrate framerate e' i = true).
Proof.
  induction indices as [|i r IH]; intros l o e Hnd Hl Hi; cbn [sync_from].
  { do 6 (split; [done || unfold behind_count, changed_count, len; cbn; lia|]).
    split; [done|]. intros _ _ i Hin. by apply not_elem_of_nil in Hin. }
  apply NoDup_cons in Hnd as [Hni Hnd].
  pose proof (sync_one_spec bitrate framerate i l o e Hl (Hi i ltac:(apply elem_of_cons; by left))) as H1.
  pose proof (sync_one_accepts bitrate framerate i l o e Hl (Hi i ltac:(apply elem_of_cons; by left))) as Hacc.
  destruct (sync_one bitrate framerate i l o e) as [[l1 o1] e1]. cbn [snd] in Hacc.
  destruct H1 as (Hl1 & Hlen1 & Hoth1 & Hp1 & Hid1 & Hb1 & Hf1).
  specialize (IH l1 o1 e1 Hnd Hl1 ltac:(intros j Hj; rewrite Hlen1; apply Hi, elem_of_cons; by right)).
  destruct (sync_from bitrate framerate r l1 o1 e1) as [[l2 o2] e2].
  destruct IH as (Hl2 & Hlen2 & Hoth2 & Hp2 & Hb2 & Hf2 & Hid2 & Hacc2).
  assert (holds e2 i = holds e1 i) as Ei by (apply Hoth2; by left).
  assert (forall x y j, holds x j = holds y j -> in_step bitrate framerate x j = in_step bitrate framerate y j) as Hstep
    by (intros x y j E1; unfold in_step; by rewrite E1).
  assert (forall j, j ∈ r -> holds e1 j = holds e j) as Hr by (intros j Hj; apply Hoth1; intros ->; done).
  split; [done|]. split; [congruence|]. split_and!.
  - intros j Hj. destruct (decide (j = i)) as [->|Hji].
    + rewrite Ei. destruct Hj as [Hj|Hj]; [exfalso; apply Hj, elem_of_cons; by left|]. by destruct (Hid1 Hj) as (_ & _ & ->).
    + rewrite Hoth2; [by apply Hoth1|]. destruct Hj as [Hj|Hj]; [left|right; by rewrite (Hstep e1 e) by by apply Hoth1].
      intros Hin. by apply Hj, elem_of_cons; right.
  - rewrite Hp2, Hp1. unfold behind_count. rewrite len_filter_cons, (Hstep e2 e1 i Ei).
    destruct (in_step bitrate framerate e1 i); [rewrite decide_False by done|rewrite decide_True by done]; lia.
  - rewrite Hb2, Hb1. unfold changed_count. rewrite len_filter_cons, Ei.
    rewrite (len_filter_ext _ (fun j => (holds e2 j).1 <> (holds e j).1) r) by (intros j Hj; by rewrite (Hr j Hj)).
    destruct (decide ((holds e1 i).1 = (holds e i).1)); [rewrite decide_False by tauto|rewrite decide_True by done]; lia.
  - rewrite Hf2, Hf1. unfold changed_count. rewrite len_filter_cons, Ei.
    rewrite (len_filter_ext _ (fun j => (holds e2 j).2 <> (holds e j).2) r) by (intros j Hj; by rewrite (Hr j Hj)).
    destruct (decide ((holds e1 i).2 = (holds e i).2)); [rewrite decide_False by tauto|rewrite decide_True by done]; lia.
  - intros Hall. destruct (Hid1 (Hall i ltac:(apply elem_of_cons; by left))) as (-> & -> & ->).
    apply Hid2. intros j Hj. apply Hall, elem_of_cons. by right.
  - intros Hsb Hsf j [->|Hj]%elem_of_cons; [|by apply Hacc2].
    rewrite (Hstep e2 e1 i Ei). by apply Hacc.
Qed.

(** A rate target reaches every pipeline, whatever mailboxes were full.
    When the ledger says what the pipelines hold, a pass leaves it so;
    [pending] is the number of pipelines that do not have the wanted state,
    [bitrate_sent] and [framerate_sent] are the numbers of those whose value
    changed, and a pipeline that had the wanted state is left alone.  Once
    nothing is pending a further pass sends nothing, and a pass over pipelines
    that take what they are sent leaves nothing pending. *)
Theorem pipeline_sync_exact (bitrate : Z) (framerate : option Z) (l : PipelineRateSync) (e : E)
  (Hledger : ledger_true l e) :
  let '(l', o, e') := sync bitrate framerate l e in
  ledger_true l' e'
  /\ pending o = behind_count bitrate framerate (seq 0 (length (applied_bps l))) e'
  /\ bitrate_sent o = changed_count fst (seq 0 (length (applied_bps l))) e e'
  /\ framerate_sent o = changed_count snd (seq 0 (length (applied_bps l))) e e'
  /\ (forall i, in_step bitrate framerate e i = true -> holds e' i = holds e i)
  /\ (pending o = 0 -> (forall i, (i < length (applied_bps l))%nat -> in_step bitrate framerate e' i = true)
       /\ sync bitrate framerate l' e' = (l', mkOutcome 0 0 0, e'))
  /\ ((forall i v x, (send_bitrate i v x).1 = true) -> (forall i v x, (send_framerate i v x).1 = true) -> pending o = 0).
Proof.
  unfold sync at 1.
  pose proof (sync_from_spec bitrate framerate (seq 0 (length (applied_bps l))) l (mkOutcome 0 0 0) e (NoDup_seq _ _) Hledger
    ltac:(intros i Hi%elem_of_seq; lia)) as H1.
  destruct (sync_from _ _ _ l _ e) as [[l' o] e']. destruct H1 as (Hl & Hlen & Hoth & Hp & Hb & Hf & _ & Hacc). cbn in Hp, Hb, Hf.
  split; [done|]. split; [lia|]. split; [lia|]. split; [lia|]. split; [intros i Hi; apply Hoth; by right|].
  assert (forall k, behind_count bitrate framerate k e' = 0 <-> forall i, i ∈ k -> in_step bitrate framerate e' i = true) as Hcount.
  { intros k. unfold behind_count. induction k as [|i k IH].
    - split; [intros _ i Hi; by apply not_elem_of_nil in Hi|done].
    - rewrite len_filter_cons. pose proof (len_nonneg (filter (fun i => in_step bitrate framerate e' i = false) k)).
      destruct (in_step bitrate framerate e' i) eqn:Ei; [rewrite decide_False by done|rewrite decide_True by done].
      + rewrite Z.add_0_l, IH. split; [intros H2 j [->|Hj]%elem_of_cons; auto|intros H2 j Hj; apply H2, elem_of_cons; by right].
      + split; [lia|]. intros H2. specialize (H2 i ltac:(apply elem_of_cons; by left)). congruence. }
  split.
  - intros H0. rewrite Hp, Z.add_0_l in H0. pose proof (proj1 (Hcount _) H0) as Hin.
    assert (forall i, (i < length (applied_bps l))%nat -> in_step bitrate framerate e' i = true) as Hall
      by (intros i Hi; apply Hin, elem_of_seq; lia).
    split; [done|]. unfold sync.
    pose proof (sync_from_spec bitrate framerate (seq 0 (length (applied_bps l'))) l' (mkOutcome 0 0 0) e' (NoDup_seq _ _) Hl
      ltac:(intros i Hi%elem_of_seq; lia)) as H2.
    destruct (sync_from _ _ _ l' _ e') as [[l2 o2] e2]. destruct H2 as (_ & _ & _ & _ & _ & _ & Hid & _).
    destruct Hid as (-> & -> & ->); [|done]. intros i Hi%elem_of_seq. apply Hall. lia.
  - intros Hsb Hsf. rewrite Hp, Z.add_0_l. apply Hcount. by apply Hacc.
Qed.
End Sync.

(** ** Mailboxes with room for one message *)

Definition mailboxes : Type := nat -> bool * (option Z * option Z).

Definition post (put : option Z * option Z -> option Z * option Z) (i : nat) (e : mailboxes) : bool * mailboxes :=
  if (e i).1 then (false, e) else (true, fun j => if bool_decide (i = j) then (false, put (e j).2) else e j).

#[export] Instance mailbox_pipelines : Pipelines mailboxes.
Proof.
  refine {| send_bitrate i v := post (fun h => (Some v, h.2)) i; send_framerate i v := post (fun h => (h.1, Some v)) i;
            holds e i := (e i).2 |};
    intros i v e j; unfold post; destruct (e i).1; cbn; [done| |done|]; by case_bool_decide.
Defined.

(** The second mailbox is full: its step is missed and re-sent. *)
Definition two_mailboxes (full : bool) : mailboxes := fun i => (full && (i =? 1)%nat, (Some 4000000, Some 30)).

Lemma pipeline_sync_exact_witness :
  let '(l, o, e) := sync 2000000 (Some 15) (PipelineRateSync_new 2 4000000 30) (two_mailboxes true) in
  pending o = 1 /\ bitrate_sent o = 1 /\ behind_count 2000000 (Some 15) [0; 1]%nat e = 1.
Proof.
  pose proof (pipeline_sync_exact 2000000 (Some 15) (PipelineRateSync_new 2 4000000 30) (two_mailboxes true)) as H.
  assert (ledger_true (PipelineRateSync_new 2 4000000 30) (two_mailboxes true)) as Hl.
  { split; [done|]. intros i Hi. cbn in Hi. destruct i as [|[|i]]; [done|done|lia]. }
  specialize (H Hl). destruct (sync 2000000 _ _ _) as [[l o] e] eqn:E. destruct H as (_ & Hp & Hb & _).
  assert (pending o = 1 /\ bitrate_sent o = 1) as [Ep Eb] by (vm_compute in E; by injection E as _ <- _).
  split; [exact Ep|]. split; [exact Eb|]. rewrite <- Ep. symmetry. exact Hp.
Defined.
