(* ===== verification/TopologyPlacement.v ===== *)
(** * Media: placing monitors on the host desktop

    Models [shared/media/src/topology_placement.rs]: the transform conventions,
    the breadth-first placement that keeps monitors flush with their
    neighbours, the origin policies, the guard against mixed units and the
    region sets of a committed plan.  Coordinates are [i64]s and [i32]s; the
    scale of a monitor is an [f64] ([Float64]). *)

From stdpp Require Import strings.
From S2P Require Import Prelude Float64 MediaRegion RegionInput MonitorWire MultiMonitor.

Inductive TransformConvention := NativeNeedsTransform | AlreadyCompositorOriented.

Definition desktop_footprint (c : TransformConvention) (width height : Z) (r : Rotation) : Z * Z :=
  match c with
  | NativeNeedsTransform => match r with Rot0 | Rot180 => (width, height) | Rot90 | Rot270 => (height, width) end
  | AlreadyCompositorOriented => (width, height)
  end.

Definition region_transform (c : TransformConvention) (r : Rotation) : OutputTransform :=
  match c with
  | NativeNeedsTransform =>
    match r with Rot0 => Normal | Rot90 => Rotate90 | Rot180 => Rotate180 | Rot270 => Rotate270 end
  | AlreadyCompositorOriented => Normal
  end.

Definition monitor_desktop_footprint (c : TransformConvention) (r : RequestedMonitor) : Z * Z :=
  desktop_footprint c (mon_width_px (rmon_monitor r)) (mon_height_px (rmon_monitor r)) (mon_rotation (rmon_monitor r)).

Inductive OriginPolicy := PreserveSigned | TranslateToNonNegative.

Record PlacedLayout := mkPlaced { placed_rects : list LayoutRect; placed_bounds : LayoutBounds; placed_translation : LayoutTranslation }.

Inductive LayoutSpace := LogicalArrangement | HostPixel.
#[global] Instance LayoutSpace_eq_dec : EqDecision LayoutSpace. Proof. solve_decision. Defined.

Record SpacedLayoutRect := mkSpaced { origin_space : LayoutSpace; extent_space : LayoutSpace; spaced_rect : LayoutRect }.

Definition spaced_logical (r : LayoutRect) : SpacedLayoutRect := mkSpaced LogicalArrangement LogicalArrangement r.
Definition spaced_host_pixel (r : LayoutRect) : SpacedLayoutRect := mkSpaced HostPixel HostPixel r.
Definition is_mixed_unit (s : SpacedLayoutRect) : bool :=
  match origin_space s, extent_space s with
  | LogicalArrangement, LogicalArrangement | HostPixel, HostPixel => false
  | _, _ => true
  end.

Inductive TopologyPlacementError :=
| ScaleOutOfRange
| PrimaryIndexOutOfRange (index len : Z)
| MixedUnitRect (origin extent : LayoutSpace)
| LayoutSpaceMismatch (expected actual : LayoutSpace)
| Contract (e : MediaContractError)
| Region (e : RegionContractError).

(** [From<MediaContractError>], [From<RegionContractError>]. *)
Definition contract {A} (r : result MediaContractError A) : result TopologyPlacementError A :=
  match r with Ok a => Ok a | Err e => Err (Contract e) end.
Definition region {A} (r : result RegionContractError A) : result TopologyPlacementError A :=
  match r with Ok a => Ok a | Err e => Err (Region e) end.

(** ** Touching edges *)

Inductive TouchingEdge := EdgeRight | EdgeLeft | EdgeBelow | EdgeAbove.

Definition touching_edge (anchor candidate : LayoutRect) : option TouchingEdge :=
  let vertical_overlap := (clr_y candidate <? bottom_exclusive anchor) && (clr_y anchor <? bottom_exclusive candidate) in
  let horizontal_overlap := (clr_x candidate <? right_exclusive anchor) && (clr_x anchor <? right_exclusive candidate) in
  if vertical_overlap && (clr_x candidate =? right_exclusive anchor) then Some EdgeRight
  else if vertical_overlap && (right_exclusive candidate =? clr_x anchor) then Some EdgeLeft
  else if horizontal_overlap && (clr_y candidate =? bottom_exclusive anchor) then Some EdgeBelow
  else if horizontal_overlap && (bottom_exclusive candidate =? clr_y anchor) then Some EdgeAbove
  else None.

Definition checked_round_offset (logical_delta : Z) (scale : f64) : result TopologyPlacementError Z :=
  let scaled := f64_round (f64_mul (of_int logical_delta) scale) in
  if negb (Float64.is_finite scaled) || f64_ltb scaled (of_int (- 2 ^ 31)) || f64_ltb (of_int (2 ^ 31 - 1)) scaled
  then Err (Contract MediaCoordinateOverflow)
  else Ok (trunc_as_signed 32 scaled).

Definition checked_i64_position (value : Z) : result TopologyPlacementError Z :=
  ok_or (try_signed 32 value) (Contract MediaCoordinateOverflow).

(** ** Placement *)

(** The three parallel vectors of the source, one entry per monitor. *)
Record Geometry := mkGeometry { g_logical : LayoutRect; g_footprint : Z * Z; g_scale : f64 * f64 }.

Definition geometry (c : TransformConvention) (r : RequestedMonitor) (logical : LayoutRect) : Geometry :=
  let f := monitor_desktop_footprint c r in
  mkGeometry logical f
    (f64_div (of_int f.1) (of_int (rmon_logical_width r)), f64_div (of_int f.2) (of_int (rmon_logical_height r))).

(** Indexing; every index the code uses is in range. *)
Definition no_geometry : Geometry := mkGeometry (mkLayoutRect 0 0 0 0) (0, 0) (f64_zero, f64_zero).
Definition at_ (geo : list Geometry) (i : nat) : Geometry := nth i geo no_geometry.

(** Where a candidate goes that touches a placed anchor. *)
Definition flush_position (edge : TouchingEdge) (a : Geometry) (origin : Z * Z) (g : Geometry) : result TopologyPlacementError (Z * Z) :=
  match edge with
  | EdgeRight | EdgeLeft =>
    cross ← checked_round_offset (clr_y (g_logical g) - clr_y (g_logical a)) (g_scale a).2;
    Ok (match edge with EdgeRight => origin.1 + (g_footprint a).1 | _ => origin.1 - (g_footprint g).1 end, origin.2 + cross)
  | EdgeBelow | EdgeAbove =>
    cross ← checked_round_offset (clr_x (g_logical g) - clr_x (g_logical a)) (g_scale a).1;
    Ok (origin.1 + cross, match edge with EdgeBelow => origin.2 + (g_footprint a).2 | _ => origin.2 - (g_footprint g).2 end)
  end.

Abbreviation Placed := (list (option (Z * Z))).


(** The inner loop, over the candidates of one anchor. *)
Fixpoint scan (geo : list Geometry) (anchor : nat) (origin : Z * Z) (candidates : list nat) (placed : Placed) (queue : list nat) :
    result TopologyPlacementError (Placed * list nat) :=
  match candidates with
  | [] => Ok (placed, queue)
  | i :: r =>
    match mjoin (placed !! i) with
    | Some _ => scan geo anchor origin r placed queue
    | None =>
      match touching_edge (g_logical (at_ geo anchor)) (g_logical (at_ geo i)) with
      | None => scan geo anchor origin r placed queue
      | Some edge =>
        p ← flush_position edge (at_ geo anchor) origin (at_ geo i);
        scan geo anchor origin r (<[i := Some p]> placed) (queue ++ [i])
      end
    end
  end.

(** The [while] loop; [None] is fuel that ran out. *)
Fixpoint walk (fuel : nat) (geo : list Geometry) (placed : Placed) (queue : list nat) : result TopologyPlacementError (option Placed) :=
  match queue with
  | [] => Ok (Some placed)
  | anchor :: queue =>
    match fuel with
    | O => Ok None
    | S fuel =>
      match mjoin (placed !! anchor) with
      | None => walk fuel geo placed queue
      | Some origin =>
        '(placed, queue) ← scan geo anchor origin (seq 0 (length geo)) placed queue;
        walk fuel geo placed queue
      end
    end
  end.

(** The fallback of a monitor that no chain of neighbours joins to the
    primary. *)
Definition fallback (primary g : Geometry) (slot : option (Z * Z)) : result TopologyPlacementError (Z * Z) :=
  match slot with
  | Some p => Ok p
  | None =>
    x ← checked_round_offset (clr_x (g_logical g) - clr_x (g_logical primary)) (g_scale primary).1;
    y ← checked_round_offset (clr_y (g_logical g) - clr_y (g_logical primary)) (g_scale primary).2;
    Ok (x, y)
  end.

Definition narrow (p : Z * Z) : result TopologyPlacementError (Z * Z) :=
  x ← checked_i64_position p.1; y ← checked_i64_position p.2; Ok (x, y).

Definition geometries (monitors : list RequestedMonitor) (c : TransformConvention) : result TopologyPlacementError (list Geometry) :=
  logical ← contract (collect logical_arrangement_rect monitors);
  Ok (zip_with (geometry c) monitors logical).

Definition plan_edge_aware_offsets (monitors : list RequestedMonitor) (primary_index : Z) (c : TransformConvention) :
    result TopologyPlacementError (list (Z * Z)) :=
  _ ← guard_err (len monitors <=? primary_index) (PrimaryIndexOutOfRange primary_index (len monitors));
  geo ← geometries monitors c;
  let primary := Z.to_nat primary_index in
  placed ← walk (length monitors) geo (<[primary := Some (0, 0)]> (replicate (length monitors) None)) [primary];
  placed ← ok_or placed (Contract MediaCoordinateOverflow);
  placed ← collect (fun '(g, slot) => fallback (at_ geo primary) g slot) (zip geo placed);
  collect narrow placed.

(** ** Bounds and origin policy *)

Fixpoint plain_rects (space : LayoutSpace) (rects : list SpacedLayoutRect) : result TopologyPlacementError (list LayoutRect) :=
  match rects with
  | [] => Ok []
  | s :: r =>
    _ ← guard_err (is_mixed_unit s) (MixedUnitRect (origin_space s) (extent_space s));
    _ ← guard_err (negb (bool_decide (origin_space s = space))) (LayoutSpaceMismatch space (origin_space s));
    plain ← plain_rects space r; Ok (spaced_rect s :: plain)
  end.

Definition checked_layout_bounds (space : LayoutSpace) (rects : list SpacedLayoutRect) : result TopologyPlacementError LayoutBounds :=
  plain ← plain_rects space rects; contract (bounds_from_rects plain).

Definition spaced_arrangement_rect (r : RequestedMonitor) : result TopologyPlacementError SpacedLayoutRect :=
  rect ← contract (logical_arrangement_rect r); Ok (spaced_logical rect).
Definition applied_desktop_rect (a : AppliedMonitor) : result TopologyPlacementError SpacedLayoutRect :=
  rect ← contract (desktop_rect_px a); Ok (spaced_host_pixel rect).
Definition logical_origin_with_stream_extent_rect (r : RequestedMonitor) : result TopologyPlacementError SpacedLayoutRect :=
  rect ← contract (LayoutRect_new (mon_x (rmon_monitor r)) (mon_y (rmon_monitor r)) (mon_width_px (rmon_monitor r))
                     (mon_height_px (rmon_monitor r)));
  Ok (mkSpaced LogicalArrangement HostPixel rect).

Definition apply_origin_policy (rects : list LayoutRect) (policy : OriginPolicy) : result TopologyPlacementError PlacedLayout :=
  bounds ← checked_layout_bounds HostPixel (map spaced_host_pixel rects);
  let translation := match policy with PreserveSigned => mkTranslation 0 0 | TranslateToNonNegative => bounds_translation_to_origin bounds end in
  if (dx translation =? 0) && (dy translation =? 0) then Ok (mkPlaced rects bounds translation)
  else
    translated ← contract (collect (fun r => LayoutRect_translated r translation) rects);
    bounds ← checked_layout_bounds HostPixel (map spaced_host_pixel translated);
    Ok (mkPlaced translated bounds translation).

Definition footprint_rect (c : TransformConvention) (r : RequestedMonitor) (offset : Z * Z) : result MediaContractError LayoutRect :=
  let f := monitor_desktop_footprint c r in LayoutRect_new offset.1 offset.2 f.1 f.2.

Definition place_monitors (monitors : list RequestedMonitor) (primary_index : Z) (c : TransformConvention) (policy : OriginPolicy) :
    result TopologyPlacementError PlacedLayout :=
  offsets ← plan_edge_aware_offsets monitors primary_index c;
  rects ← contract (collect (fun '(m, o) => footprint_rect c m o) (zip monitors offsets));
  apply_origin_policy rects policy.

(** ** Regions of a plan *)

Definition scale120_from_scale (scale : f64) : result TopologyPlacementError Scale120 :=
  let units := f64_round (f64_mul scale (of_int SCALE_DENOMINATOR)) in
  if negb (Float64.is_finite units) || f64_ltb units (of_int 1) || f64_ltb (of_int (umax 32)) units then Err ScaleOutOfRange
  else region (Scale120_new (trunc_as 32 units)).

Definition logical_rect_from_layout (r : LayoutRect) : result TopologyPlacementError LogicalRect :=
  origin ← region (LogicalPoint_from_pixels (clr_x r) (clr_y r));
  size ← region (LogicalSize_from_pixels (clr_width r) (clr_height r));
  region (LogicalRect_new origin size).

Record RegionPlacement := mkPlacement {
  pl_region_id : RegionId;
  pl_output : OutputIdentity;
  pl_logical_rect : LogicalRect;
  pl_stream_size : PhysicalSize;
  pl_scale : Scale120;
  pl_rotation : Rotation;
  pl_primary : bool;
  pl_applied_rect : AppliedRect
}.

Definition descriptor_of (c : TransformConvention) (p : RegionPlacement) : RegionDescriptor :=
  mkDescriptor (pl_region_id p) (pl_output p) (pl_logical_rect p) (pl_stream_size p) (pl_scale p)
    (region_transform c (pl_rotation p)) (pl_primary p).

Definition build_region_sets (generation : RegionGeneration) (c : TransformConvention) (placements : list RegionPlacement) :
    result RegionContractError (RegionSet * AppliedRegionSet) :=
  requested ← RegionSet_new generation (map (descriptor_of c) placements);
  applied ← collect (fun '(d, p) => AppliedRegionDescriptor_new d (pl_applied_rect p)) (zip (set_regions requested) placements);
  applied ← AppliedRegionSet_new generation applied;
  Ok (requested, applied).

(** ** What the walk does *)

Definition touching (geo : list Geometry) (i j : nat) : option TouchingEdge :=
  touching_edge (g_logical (at_ geo i)) (g_logical (at_ geo j)).

(** A chain of touching monitors. *)
Definition touches (geo : list Geometry) (i j : nat) : Prop := (j < length geo)%nat /\ is_Some (touching geo i j).
Definition joined (geo : list Geometry) : nat -> nat -> Prop := rtc (touches geo).

(** A monitor placed from a neighbour that is placed. *)
Definition placed_from (geo : list Geometry) (placed : Placed) (i j : nat) : Prop :=
  exists pi pj edge, placed !! i = Some (Some pi) /\ placed !! j = Some (Some pj)
    /\ touching geo i j = Some edge /\ flush_position edge (at_ geo i) pi (at_ geo j) = Ok pj.

Definition unplaced (placed : Placed) : nat := length (filter (fun s => s = None) placed).

Lemma mjoin_Some (placed : Placed) i p : mjoin (placed !! i) = Some p <-> placed !! i = Some (Some p).
Proof. destruct (placed !! i) as [[q|]|]; cbn; split; congruence. Qed.

Lemma unplaced_insert placed i p : placed !! i = Some None -> S (unplaced (<[i := Some p]> placed)) = unplaced placed.
Proof.
  unfold unplaced. revert i. induction placed as [|x r IH]; intros [|i] Hi; cbn in Hi; try done.
  - injection Hi as ->. change (<[0%nat := Some p]> (None :: r)) with (Some p :: r). rewrite filter_cons_False, filter_cons_True by done. done.
  - change (<[S i := Some p]> (x :: r)) with (x :: <[i := Some p]> r). rewrite !filter_cons. destruct (decide (x = None)); cbn [length]; by rewrite <- (IH i).
Qed.

Lemma scan_spec geo anchor origin candidates : forall placed queue placed' queue',
  placed !! anchor = Some (Some origin) -> (forall i, i ∈ candidates -> (i < length placed)%nat) ->
  scan geo anchor origin candidates placed queue = Ok (placed', queue') ->
  length placed' = length placed
  /\ (forall i p, placed !! i = Some (Some p) -> placed' !! i = Some (Some p))
  /\ (forall i, i ∈ candidates -> is_Some (touching geo anchor i) -> exists p, placed' !! i = Some (Some p))
  /\ exists fresh, queue' = queue ++ fresh
     /\ (forall i, i ∈ fresh -> placed_from geo placed' anchor i /\ (i ∈ candidates))
     /\ (forall i p, placed' !! i = Some (Some p) -> placed !! i = Some (Some p) \/ i ∈ fresh)
     /\ (unplaced placed' + length fresh = unplaced placed)%nat.
Proof.
  induction candidates as [|i r IH]; intros placed queue placed' queue' Ha Hc E; cbn [scan] in E.
  { injection E as <- <-. split; [done|]. split; [done|]. split; [intros i Hi; by apply not_elem_of_nil in Hi|].
    exists []. rewrite app_nil_r. split; [done|]. split; [intros i Hi; by apply not_elem_of_nil in Hi|]. split; [by left|cbn; lia]. }
  assert (forall j, j ∈ r -> (j < length placed)%nat) as Hr by (intros j Hj; apply Hc, elem_of_cons; by right).
  assert (forall fresh : list nat, (forall j, j ∈ fresh -> placed_from geo placed' anchor j /\ (j ∈ r)) ->
    forall j, j ∈ fresh -> placed_from geo placed' anchor j /\ (j ∈ i :: r)) as Hweak.
  { intros fresh H j Hj. destruct (H j Hj). split; [done|]. apply elem_of_cons. by right. }
  destruct (mjoin (placed !! i)) as [p|] eqn:Ei.
  { apply mjoin_Some in Ei. destruct (IH _ _ _ _ Ha Hr E) as (H1 & H2 & H3 & fresh & H4 & H5 & H6).
    split; [done|]. split; [done|]. split; [|exists fresh; split; [done|]; split; [by apply Hweak|done]].
    intros j [->|Hj]%elem_of_cons Ht; [exists p; by apply H2|by apply H3]. }
  destruct (touching_edge _ _) as [edge|] eqn:Et.
  2:{ destruct (IH _ _ _ _ Ha Hr E) as (H1 & H2 & H3 & fresh & H4 & H5 & H6). split; [done|]. split; [done|].
      split; [|exists fresh; split; [done|]; split; [by apply Hweak|done]]. intros j [->|Hj]%elem_of_cons Ht; [|by apply H3]. unfold touching in Ht. rewrite Et in Ht.
      by destruct Ht. }
  apply bind_Ok in E as (q & Eq & E).
  assert (placed !! i = Some None) as Hi.
  { destruct (lookup_lt_is_Some_2 placed i ltac:(apply Hc, elem_of_cons; by left)) as [[x|] Hx]; [|done]. by rewrite Hx in Ei. }
  assert (anchor <> i) as Hne by (intros ->; congruence).
  destruct (IH (<[i := Some q]> placed) (queue ++ [i]) placed' queue') as (H1 & H2 & H3 & fresh & H4 & H5 & H6 & H7); try done.
  { by rewrite list_lookup_insert_ne. }
  { intros j Hj. rewrite length_insert. by apply Hr. }
  rewrite length_insert in H1.
  assert (placed' !! i = Some (Some q)) as Hq.
  { apply H2. apply list_lookup_insert_eq. apply lookup_lt_is_Some_1. by eexists. }
  assert (forall j p, placed !! j = Some (Some p) -> placed' !! j = Some (Some p)) as Hkeep.
  { intros j p Hj. apply H2. rewrite list_lookup_insert_ne; [done|]. intros ->. congruence. }
  split; [done|]. split; [done|]. split.
  - intros j [->|Hj]%elem_of_cons Ht; [by exists q|by apply H3].
  - exists (i :: fresh). rewrite H4, <- app_assoc. split; [done|]. split; [|split].
    + intros j [->|Hj]%elem_of_cons; [|by apply (Hweak fresh)]. split; [|apply elem_of_cons; by left].
      exists origin, q, edge. auto.
    + intros j p Hj. destruct (H6 j p Hj) as [Hj'|Hj']; [|right; apply elem_of_cons; by right].
      destruct (decide (i = j)) as [->|Hij]; [right; apply elem_of_cons; by left|left].
      by rewrite list_lookup_insert_ne in Hj'.
    + pose proof (unplaced_insert placed i q Hi). cbn [length]. lia.
Qed.

Record walk_inv (geo : list Geometry) (primary : nat) (placed : Placed) (queue : list nat) : Prop := {
  wi_length : length placed = length geo;
  wi_primary : placed !! primary = Some (Some (0, 0));
  wi_queue : forall i, i ∈ queue -> (i < length geo)%nat /\ exists p, placed !! i = Some (Some p);
  wi_chain : forall i p, placed !! i = Some (Some p) -> rtc (placed_from geo placed) primary i;
  wi_done : forall i p j, placed !! i = Some (Some p) -> ~ (i ∈ queue) -> touches geo i j -> exists q, placed !! j = Some (Some q)
}.

Lemma placed_from_mono geo placed placed' i j :
  (forall k p, placed !! k = Some (Some p) -> placed' !! k = Some (Some p)) ->
  placed_from geo placed i j -> placed_from geo placed' i j.
Proof. intros H (pi & pj & e & Hi & Hj & Ht & Hf). exists pi, pj, e. auto. Qed.

Lemma walk_spec geo primary fuel : forall placed queue r, walk_inv geo primary placed queue ->
  (unplaced placed + length queue <= fuel)%nat -> walk fuel geo placed queue = Ok r ->
  exists placed', r = Some placed' /\ walk_inv geo primary placed' [].
Proof.
  induction fuel as [|fuel IH]; intros placed [|anchor queue] r Hinv Hf E; cbn [walk] in E; try (injection E as <-; by exists placed).
  { cbn in Hf. lia. }
  destruct (wi_queue _ _ _ _ Hinv anchor ltac:(apply elem_of_cons; by left)) as (Han & origin & Ho).
  rewrite (proj2 (mjoin_Some _ _ _) Ho) in E. apply bind_Ok in E as ([placed' queue'] & Es & E).
  destruct Hinv as [Hl Hp Hq Hc Hd]. cbn [length] in Hf.
  apply scan_spec in Es as (H1 & H2 & H3 & fresh & -> & H5 & H6 & H7); [|done|intros i Hi%elem_of_seq; lia].
  apply (IH placed' (queue ++ fresh)); [|rewrite length_app; lia|done]. split; [congruence|by apply H2| | |].
  - intros i [Hi|Hi]%elem_of_app.
    + destruct (Hq i ltac:(apply elem_of_cons; by right)) as (? & p & Hip). split; [done|]. exists p. by apply H2.
    + destruct (H5 i Hi) as [(pi & pj & e & _ & Hpj & _) Hin]. apply elem_of_seq in Hin. split; [lia|by exists pj].
  - intros i p Hi. destruct (H6 i p Hi) as [Hi'|Hi'].
    + eapply rtc_subrel; [|by eapply Hc]. intros x y. by apply placed_from_mono.
    + eapply rtc_r; [|by apply H5]. eapply rtc_subrel; [|by eapply Hc]. intros x y. by apply placed_from_mono.
  - intros i p j Hi Hni Ht. destruct (decide (i = anchor)) as [->|Hia].
    + destruct Ht as [Hj Ht]. apply (H3 j); [apply elem_of_seq; lia|done].
    + destruct (H6 i p Hi) as [Hi'|Hi']; [|exfalso; apply Hni, elem_of_app; by right].
      destruct (Hd i p j Hi') as [q Hq']; [|done|exists q; by apply H2].
      intros [->|Hin]%elem_of_cons; [done|]. apply Hni, elem_of_app. by left.
Qed.

(** When the walk ends, the monitors placed are those joined to the primary. *)
Lemma walk_complete geo primary placed i : walk_inv geo primary placed [] ->
  (exists p, placed !! i = Some (Some p)) <-> joined geo primary i.
Proof.
  intros [Hl Hp Hq Hc Hd]. split.
  - intros [p Hi]. eapply rtc_subrel; [|by eapply Hc]. intros x y (px & py & e & _ & Hy & Ht & _).
    split; [|by exists e]. rewrite <- Hl. by apply lookup_lt_is_Some_1; eexists.
  - intros Hj. unfold joined in Hj. revert i Hj. apply rtc_ind_r; [by eexists|].
    intros y z _ Hyz [q Hy]. by eapply Hd; [exact Hy|apply not_elem_of_nil|].
Qed.

(** The start of the walk; it needs as many turns as there are monitors. *)
Definition start (n primary : nat) : Placed := <[primary := Some (0, 0)]> (replicate n None).

Lemma walk_start geo primary : (primary < length geo)%nat ->
  walk_inv geo primary (start (length geo) primary) [primary]
  /\ (unplaced (start (length geo) primary) + 1 <= length geo)%nat.
Proof.
  intros Hk. unfold start.
  assert (<[primary := Some (0, 0)]> (replicate (length geo) None) !! primary = Some (Some (0, 0))) as Hp
    by (apply list_lookup_insert_eq; by rewrite length_replicate).
  assert (forall i p, <[primary := Some (0, 0)]> (replicate (length geo) None) !! i = Some (Some p) -> primary = i) as Honly.
  { intros i p Hi. destruct (decide (primary = i)) as [|Hne]; [done|].
    rewrite list_lookup_insert_ne in Hi by done. by apply lookup_replicate in Hi as [? _]. }
  split; [split|].
  - by rewrite length_insert, length_replicate.
  - done.
  - intros i ->%list_elem_of_singleton. split; [done|by exists (0, 0)].
  - intros i p <-%Honly. apply rtc_refl.
  - intros i p j <-%Honly Hni. exfalso. by apply Hni, list_elem_of_singleton.
  - assert (unplaced (replicate (length geo) None) = length geo) as Hu.
    { unfold unplaced. generalize (length geo). intros n. induction n as [|n IH]; [done|].
      cbn [replicate]. rewrite filter_cons_True by done. cbn [length]. by rewrite IH. }
    pose proof (unplaced_insert (replicate (length geo) None) primary (0, 0)) as Hi.
    rewrite Hu in Hi. specialize (Hi ltac:(by apply lookup_replicate)). lia.
Qed.

Lemma walk_never_runs_out geo primary : (primary < length geo)%nat ->
  walk (length geo) geo (start (length geo) primary) [primary] <> Ok None.
Proof.
  intros Hk H. destruct (walk_start geo primary Hk) as [Hinv Hm].
  by apply (walk_spec geo primary _ _ _ _ Hinv) in H as (x & Hx & _).
Qed.

(** ** The layout *)

Lemma contract_Ok {A} (r : result MediaContractError A) a : contract r = Ok a <-> r = Ok a.
Proof. destruct r; cbn; split; congruence. Qed.

Lemma narrow_Ok p q : narrow p = Ok q <-> q = p /\ in_signed 32 p.1 /\ in_signed 32 p.2.
Proof.
  unfold narrow, checked_i64_position. destruct p as [x y]. cbn [fst snd]. split.
  - intros (a & Ha%ok_or_Ok & H)%bind_Ok. apply bind_Ok in H as (b & Hb%ok_or_Ok & [= <-]).
    apply try_signed_Some in Ha as [-> ?], Hb as [-> ?]. done.
  - intros (-> & H1 & H2). by rewrite !try_signed_in.
Qed.

(** The geometry of each monitor. *)
Lemma geometries_Ok monitors c geo : geometries monitors c = Ok geo ->
  Forall2 (fun m g => exists rect, logical_arrangement_rect m = Ok rect /\ g = geometry c m rect) monitors geo.
Proof.
  intros (logical & Hl & [= <-])%bind_Ok. apply contract_Ok, collect_inv in Hl.
  induction Hl as [|m rect ms rects Hm _ IH]; cbn; constructor; [by exists rect|done].
Qed.

(** The cross-axis distance from a placed neighbour, in its own scale. *)
Definition cross_aligned (edge : TouchingEdge) (a g : Geometry) (from to : Z * Z) : Prop :=
  match edge with
  | EdgeRight | EdgeLeft => checked_round_offset (clr_y (g_logical g) - clr_y (g_logical a)) (g_scale a).2 = Ok (to.2 - from.2)
  | EdgeBelow | EdgeAbove => checked_round_offset (clr_x (g_logical g) - clr_x (g_logical a)) (g_scale a).1 = Ok (to.1 - from.1)
  end.

(** Two rectangles that share the boundary [edge]. *)
Definition share_edge (edge : TouchingEdge) (r1 r2 : LayoutRect) : Prop :=
  match edge with
  | EdgeRight => clr_x r2 = right_exclusive r1
  | EdgeLeft => right_exclusive r2 = clr_x r1
  | EdgeBelow => clr_y r2 = bottom_exclusive r1
  | EdgeAbove => bottom_exclusive r2 = clr_y r1
  end.

Definition origin_of (r : LayoutRect) : Z * Z := (clr_x r, clr_y r).

(** Monitor [j] lies flush against monitor [i], on the edge its logical
    rectangle touches. *)
Definition flush_in (geo : list Geometry) (rects : list LayoutRect) (i j : nat) : Prop :=
  exists r1 r2 edge, rects !! i = Some r1 /\ rects !! j = Some r2 /\ touching geo i j = Some edge
    /\ share_edge edge r1 r2 /\ cross_aligned edge (at_ geo i) (at_ geo j) (origin_of r1) (origin_of r2).

Definition rect_at (t : LayoutTranslation) (g : Geometry) (o : Z * Z) : LayoutRect :=
  mkLayoutRect (o.1 + dx t) (o.2 + dy t) (g_footprint g).1 (g_footprint g).2.

Lemma flush_position_rects t edge a g o p : flush_position edge a o g = Ok p ->
  share_edge edge (rect_at t a o) (rect_at t g p)
  /\ cross_aligned edge a g (origin_of (rect_at t a o)) (origin_of (rect_at t g p)).
Proof.
  unfold flush_position, share_edge, cross_aligned, right_exclusive, bottom_exclusive.
  destruct edge; intros (cross & Hc & [= <-])%bind_Ok; cbn; (split; [lia|]); rewrite Hc; f_equal; lia.
Qed.

(** The plan of the offsets. *)
Lemma plan_spec monitors primary c offsets : 0 <= primary -> plan_edge_aware_offsets monitors primary c = Ok offsets ->
  exists geo placed, geometries monitors c = Ok geo /\ walk_inv geo (Z.to_nat primary) placed []
    /\ length offsets = length geo
    /\ (forall i p, placed !! i = Some (Some p) -> offsets !! i = Some p)
    /\ (forall i o, offsets !! i = Some o -> in_signed 32 o.1 /\ in_signed 32 o.2
          /\ (placed !! i = Some None -> fallback (at_ geo (Z.to_nat primary)) (at_ geo i) None = Ok o)).
Proof.
  intros H0 H. unfold plan_edge_aware_offsets in H. apply bind_Ok in H as ([] & Hg & H). apply guard_err_Ok, Z.leb_gt in Hg.
  apply bind_Ok in H as (geo & Hgeo & H). apply bind_Ok in H as (placed & Hw & H). cbv zeta in H.
  apply bind_Ok in H as (pl & Hpl%ok_or_Ok & H). apply bind_Ok in H as (spots & Hs & Hn). subst placed.
  pose proof (Forall2_length _ _ _ (geometries_Ok _ _ _ Hgeo)) as Hlen. unfold len in Hg.
  set (k := Z.to_nat primary) in *. assert (k < length geo)%nat as Hk by lia.
  destruct (walk_start geo k Hk) as [Hinv Hm]. rewrite <- Hlen in Hinv, Hm.
  destruct (walk_spec geo k (length monitors) _ _ (Some pl) Hinv Hm Hw) as (placed' & [= <-] & Hinv').
  exists geo, pl. apply collect_inv in Hs, Hn. pose proof (wi_length _ _ _ _ Hinv') as Hpl.
  pose proof (Forall2_length _ _ _ Hs) as L1. pose proof (Forall2_length _ _ _ Hn) as L2. rewrite length_zip in L1.
  assert (forall i o, offsets !! i = Some o -> exists slot, pl !! i = Some slot
    /\ fallback (at_ geo k) (at_ geo i) slot = Ok o /\ in_signed 32 o.1 /\ in_signed 32 o.2) as Ho.
  { intros i o Hi. destruct (Forall2_lookup_r _ _ _ _ _ Hn Hi) as (q & Hq & Hno). apply narrow_Ok in Hno as (-> & ? & ?).
    destruct (Forall2_lookup_r _ _ _ _ _ Hs Hq) as ([g slot] & Hz & Hf). apply lookup_zip_Some in Hz as [Hgi Hsl].
    exists slot. unfold at_ at 2. by rewrite (nth_lookup_Some _ _ _ _ Hgi). }
  split; [done|]. split; [done|]. split; [lia|]. split.
  - intros i p Hi. assert (i < length offsets)%nat as Hlt by (apply lookup_lt_Some in Hi; lia).
    destruct (lookup_lt_is_Some_2 _ _ Hlt) as [o Eo]. destruct (Ho i o Eo) as (slot & Hsl & Hf & _).
    rewrite Hi in Hsl. injection Hsl as <-. cbn in Hf. congruence.
  - intros i o Hi. destruct (Ho i o Hi) as (slot & Hsl & Hf & ? & ?). split; [done|]. split; [done|].
    intros Hno. rewrite Hno in Hsl. by injection Hsl as <-.
Qed.


(** The rectangles before the origin policy. *)
Lemma placed_layout monitors primary c policy layout : 0 <= primary ->
  place_monitors monitors primary c policy = Ok layout ->
  exists geo offsets, geometries monitors c = Ok geo /\ plan_edge_aware_offsets monitors primary c = Ok offsets
    /\ length geo = length monitors
    /\ let rects := zip_with (rect_at (mkTranslation 0 0)) geo offsets in
       Forall rect_ok rects /\ apply_origin_policy rects policy = Ok layout.
Proof.
  intros H0 (offsets & Ho & (rects & Hr & H)%bind_Ok)%bind_Ok.
  destruct (plan_spec _ _ _ _ H0 Ho) as (geo & placed & Hgeo & Hinv & Hlen & _ & _).
  pose proof (geometries_Ok _ _ _ Hgeo) as Hg. exists geo, offsets. split; [done|]. split; [done|].
  split; [by rewrite (Forall2_length _ _ _ Hg)|]. apply contract_Ok, collect_inv in Hr.
  assert (rects = zip_with (rect_at (mkTranslation 0 0)) geo offsets /\ Forall rect_ok rects) as [-> Hok]; [|done].
  clear -Hg Hlen Hr. revert offsets rects Hlen Hr. induction Hg as [|m g ms gs (rect & Hm & ->) _ IH]; intros [|o os] rects Hlen Hr;
    try done; inversion Hr as [|? r ? rs Hf Hrs]; subst; [by split|].
  destruct (IH os rs ltac:(by injection Hlen) Hrs) as [-> Hok]. unfold footprint_rect, LayoutRect_new, layout_end in Hf.
  destruct (_ || _) eqn:Ez; [done|]. apply orb_false_iff in Ez as [Ew Eh]. apply Z.eqb_neq in Ew, Eh. inv_ok.
  match goal with |- ?r :: _ = _ /\ _ => assert (r = rect_at (mkTranslation 0 0) (geometry c m rect) o) as E
    by (unfold rect_at; cbn; f_equal; lia) end.
  cbn [zip_with]. rewrite E. split; [done|]. constructor; [|done]. rewrite <- E.
  repeat match goal with H : try_signed _ _ = Some _ |- _ => apply try_signed_Some in H as [-> ?] end.
  boolify. unfold rect_ok, right_exclusive, bottom_exclusive, I32_MAX in *. cbn in *. lia.
Qed.

Lemma host_pixel_bounds rects : checked_layout_bounds HostPixel (map spaced_host_pixel rects) = contract (bounds_from_rects rects).
Proof.
  unfold checked_layout_bounds. assert (plain_rects HostPixel (map spaced_host_pixel rects) = Ok rects) as ->; [|done].
  induction rects as [|r rects IH]; [done|]. cbn [map plain_rects spaced_host_pixel]. cbn. by rewrite IH.
Qed.

Lemma translated_Ok r t r' : rect_typed r -> LayoutRect_translated r t = Ok r' ->
  r' = shift_rect t r /\ rect_typed r' /\ rect_ok r'.
Proof.
  intros (_ & _ & Hw & Hh) H. unfold LayoutRect_translated, to_i32, LayoutRect_new, layout_end in H.
  apply bind_Ok in H as (x & Hx%ok_or_Ok & H). apply bind_Ok in H as (y & Hy%ok_or_Ok & H).
  apply bind_Ok in H as (x' & Hx'%ok_or_Ok & H). apply bind_Ok in H as (y' & Hy'%ok_or_Ok & H).
  apply try_signed_Some in Hx as [-> _], Hy as [-> _], Hx' as [-> Hx'], Hy' as [-> Hy'].
  destruct (_ || _) eqn:Ez; [done|]. apply orb_false_iff in Ez as [Ew Eh]. apply Z.eqb_neq in Ew, Eh. inv_ok.
  repeat match goal with H : try_signed _ _ = Some _ |- _ => apply try_signed_Some in H as [-> ?] end. boolify.
  split; [done|]. split; [by repeat split; (apply Hx' || apply Hy' || apply Hw || apply Hh)|].
  unfold rect_ok, right_exclusive, bottom_exclusive, I32_MAX in *. cbn. lia.
Qed.

Lemma shift_rect_zero t r : dx t = 0 -> dy t = 0 -> shift_rect t r = r.
Proof. intros Hx Hy. destruct r. unfold shift_rect. cbn. f_equal; lia. Qed.

Lemma origin_policy_spec rects policy layout : Forall rect_typed rects -> Forall rect_ok rects ->
  apply_origin_policy rects policy = Ok layout ->
  let t := placed_translation layout in
  placed_rects layout = map (shift_rect t) rects
  /\ is_hull (placed_rects layout) (placed_bounds layout)
  /\ match policy with
     | PreserveSigned => dx t = 0 /\ dy t = 0
     | TranslateToNonNegative =>
       0 <= dx t /\ 0 <= dy t /\ 0 <= clb_x (placed_bounds layout) /\ 0 <= clb_y (placed_bounds layout)
       /\ (dx t = 0 \/ clb_x (placed_bounds layout) = 0) /\ (dy t = 0 \/ clb_y (placed_bounds layout) = 0)
     end.
Proof.
  intros Ht Ho (b & Hb & H)%bind_Ok. rewrite host_pixel_bounds in Hb. apply contract_Ok, bounds_from_rects_Ok in Hb as [Hhull _]; [|done|done].
  set (t := match policy with PreserveSigned => mkTranslation 0 0 | _ => bounds_translation_to_origin b end) in *.
  cbv zeta in H. destruct ((dx t =? 0) && (dy t =? 0)) eqn:Ez.
  { apply andb_true_iff in Ez as [Ex%Z.eqb_eq Ey%Z.eqb_eq]. injection H as <-. cbn. split; [|split; [done|]].
    - clear -Ex Ey. induction rects as [|r rects IH]; [done|]. cbn. by rewrite shift_rect_zero, <- IH.
    - destruct policy; [done|]. subst t. unfold bounds_translation_to_origin in *. cbn in *.
      destruct (Z.ltb_spec (clb_x b) 0), (Z.ltb_spec (clb_y b) 0); lia. }
  apply bind_Ok in H as (translated & Htr%contract_Ok%collect_inv & H). apply bind_Ok in H as (b' & Hb' & [= <-]).
  assert (translated = map (shift_rect t) rects /\ Forall rect_typed translated /\ Forall rect_ok translated) as (-> & Ht' & Ho').
  { clear -Htr Ht. induction Htr as [|r r' rects rects' Hr _ IH]; [done|]. apply Forall_cons in Ht as [Hr0 Ht].
    destruct (translated_Ok r t r' Hr0 Hr) as (-> & ? & ?). destruct (IH Ht) as (-> & ? & ?). split; [done|]; split; by constructor. }
  rewrite host_pixel_bounds in Hb'. apply contract_Ok, bounds_from_rects_Ok in Hb' as [Hhull' _]; [|done|done].
  cbn. split; [done|]. split; [done|]. pose proof (hull_shift t rects b Hhull) as Hs.
  assert (clb_x b' = clb_x b + dx t /\ clb_y b' = clb_y b + dy t) as [Ex Ey].
  { destruct Hs as ([Hs1 (r1 & Hr1 & E1)] & [Hs2 (r2 & Hr2 & E2)] & _). destruct Hhull' as ([H1 (q1 & Hq1 & F1)] & [H2 (q2 & Hq2 & F2)] & _).
    cbn in *. split; apply Z.le_antisymm.
    - rewrite <- E1. by apply H1.
    - rewrite <- F1. by apply Hs1.
    - rewrite <- E2. by apply H2.
    - rewrite <- F2. by apply Hs2. }
  rewrite Ex, Ey. destruct policy; [done|]. subst t. unfold bounds_translation_to_origin in *. cbn in *.
  destruct (Z.ltb_spec (clb_x b) 0), (Z.ltb_spec (clb_y b) 0); lia.
Qed.

(** The dimensions of a monitor are [u32]s. *)
Definition dimensions_typed (r : RequestedMonitor) : Prop := is_u32 (mon_width_px (rmon_monitor r)) /\ is_u32 (mon_height_px (rmon_monitor r)).

(** The rectangles of a layout, by the geometry and the offsets of its plan. *)
Lemma placed_rects_spec monitors primary c policy layout : 0 <= primary -> Forall dimensions_typed monitors ->
  place_monitors monitors primary c policy = Ok layout ->
  exists geo offsets placed, geometries monitors c = Ok geo /\ walk_inv geo (Z.to_nat primary) placed []
  /\ length offsets = length geo
  /\ (forall i p, placed !! i = Some (Some p) -> offsets !! i = Some p)
  /\ (forall i o, offsets !! i = Some o -> in_signed 32 o.1 /\ in_signed 32 o.2
        /\ (placed !! i = Some None -> fallback (at_ geo (Z.to_nat primary)) (at_ geo i) None = Ok o))
  /\ placed_rects layout = zip_with (rect_at (placed_translation layout)) geo offsets
  /\ is_hull (placed_rects layout) (placed_bounds layout)
  /\ match policy with
     | PreserveSigned => dx (placed_translation layout) = 0 /\ dy (placed_translation layout) = 0
     | TranslateToNonNegative =>
       0 <= dx (placed_translation layout) /\ 0 <= dy (placed_translation layout)
       /\ 0 <= clb_x (placed_bounds layout) /\ 0 <= clb_y (placed_bounds layout)
       /\ (dx (placed_translation layout) = 0 \/ clb_x (placed_bounds layout) = 0)
       /\ (dy (placed_translation layout) = 0 \/ clb_y (placed_bounds layout) = 0)
     end.
Proof.
  intros Hprimary Htyped Hplaced.
  destruct (placed_layout _ _ _ _ _ Hprimary Hplaced) as (geo & offsets & Hgeo & Hplan & Hlen & Hok & Hpol).
  destruct (plan_spec _ _ _ _ Hprimary Hplan) as (geo' & placed & Hgeo' & Hinv & Hlo & Hkeep & Hoff).
  assert (geo' = geo) as -> by congruence. pose proof (geometries_Ok _ _ _ Hgeo) as Hg.
  set (k := Z.to_nat primary) in *.
  assert (Forall rect_typed (zip_with (rect_at (mkTranslation 0 0)) geo offsets)) as Hty.
  { apply Forall_lookup. intros i r Hi. apply lookup_zip_with_Some in Hi as (g & o & -> & Hgi & Hoi).
    destruct (Forall2_lookup_r _ _ _ _ _ Hg Hgi) as (m & Hm & rect & _ & ->). rewrite Forall_lookup in Htyped.
    destruct (Htyped i m Hm) as [Hw Hh]. destruct (Hoff i o Hoi) as (Hx & Hy & _).
    unfold rect_typed, rect_at, geometry, monitor_desktop_footprint, desktop_footprint. cbn. rewrite !Z.add_0_r.
    split; [done|]. split; [done|]. by destruct c, (mon_rotation (rmon_monitor m)). }
  destruct (origin_policy_spec _ _ _ Hty Hok Hpol) as (Hrects & Hhull & Hpolicy). cbv zeta in *.
  set (t := placed_translation layout) in *.
  assert (placed_rects layout = zip_with (rect_at t) geo offsets) as Er.
  { rewrite Hrects. clear. revert offsets. induction geo as [|g geo IH]; intros [|o offsets]; try done. cbn. rewrite IH. f_equal.
    unfold shift_rect, rect_at. cbn. f_equal; lia. }
  exists geo, offsets, placed. by rewrite Er in *.
Qed.

(** Their sizes are the footprints. *)
Definition rect_size (r : LayoutRect) : Z * Z := (clr_width r, clr_height r).

Lemma placed_sizes t monitors c geo offsets : geometries monitors c = Ok geo -> length offsets = length geo ->
  rect_size <$> zip_with (rect_at t) geo offsets = monitor_desktop_footprint c <$> monitors.
Proof.
  intros Hg%geometries_Ok. revert offsets. induction Hg as [|m g ms gs (rect & _ & ->) _ IH]; intros [|o os] Hl; try done.
  cbn. rewrite <- (IH os) by (by injection Hl). f_equal. unfold rect_size. cbn. by destruct (monitor_desktop_footprint c m).
Qed.

(** C24: Monitors keep their neighbours.  In a layout that is placed, every
    monitor has the footprint of its stream under the caller's convention; the
    primary is at the origin, before the origin policy moves the whole desktop;
    a monitor that a chain of touching monitors joins to the primary is joined
    to it by a chain of which each link is flush - it shares with the one
    before it the boundary on which their logical rectangles touch, shifted
    along it by their logical distance in the placed neighbour's own scale -
    and a monitor that nothing joins to the primary is at its logical distance
    in the primary's scale.  The bounds are the hull of the rectangles;
    [PreserveSigned] moves nothing, and [TranslateToNonNegative] moves the
    desktop just far enough that no coordinate is negative. *)
Theorem placement_exact (monitors : list RequestedMonitor) (primary : Z) (c : TransformConvention) (policy : OriginPolicy) (layout : PlacedLayout)
  (Hprimary : 0 <= primary) (Htyped : Forall dimensions_typed monitors)
  (Hplaced : place_monitors monitors primary c policy = Ok layout) :
  let k := Z.to_nat primary in
  let t := placed_translation layout in
  let rects := placed_rects layout in
  exists geo, geometries monitors c = Ok geo
  /\ (clr_width <$> rects) = (fun m => (monitor_desktop_footprint c m).1) <$> monitors
  /\ (clr_height <$> rects) = (fun m => (monitor_desktop_footprint c m).2) <$> monitors
  /\ (origin_of <$> rects !! k) = Some (dx t, dy t)
  /\ (forall i, joined geo k i -> rtc (flush_in geo rects) k i)
  /\ (forall i r, rects !! i = Some r -> ~ joined geo k i ->
        checked_round_offset (clr_x (g_logical (at_ geo i)) - clr_x (g_logical (at_ geo k))) (g_scale (at_ geo k)).1 = Ok (clr_x r - dx t)
        /\ checked_round_offset (clr_y (g_logical (at_ geo i)) - clr_y (g_logical (at_ geo k))) (g_scale (at_ geo k)).2 = Ok (clr_y r - dy t))
  /\ is_hull rects (placed_bounds layout)
  /\ match policy with
     | PreserveSigned => dx t = 0 /\ dy t = 0
     | TranslateToNonNegative =>
       0 <= dx t /\ 0 <= dy t /\ 0 <= clb_x (placed_bounds layout) /\ 0 <= clb_y (placed_bounds layout)
       /\ (dx t = 0 \/ clb_x (placed_bounds layout) = 0) /\ (dy t = 0 \/ clb_y (placed_bounds layout) = 0)
     end.
Proof.
  cbv zeta. destruct (placed_rects_spec _ _ _ _ _ Hprimary Htyped Hplaced) as (geo & offsets & placed & Hgeo & Hinv & Hlo & Hkeep & Hoff & Er & Hhull & Hpolicy).
  pose proof (geometries_Ok _ _ _ Hgeo) as Hg. set (k := Z.to_nat primary) in *. set (t := placed_translation layout) in *.
  rewrite Er in *. clear Er.
  assert (forall i r, zip_with (rect_at t) geo offsets !! i = Some r -> exists o, offsets !! i = Some o /\ r = rect_at t (at_ geo i) o) as Hat.
  { intros i r Hi. apply lookup_zip_with_Some in Hi as (g & o & -> & Hgi & Hoi). exists o. split; [done|].
    unfold at_. by rewrite (nth_lookup_Some _ _ _ _ Hgi). }
  assert (forall i p, placed !! i = Some (Some p) -> zip_with (rect_at t) geo offsets !! i = Some (rect_at t (at_ geo i) p)) as Hplace.
  { intros i p Hi. pose proof (Hkeep i p Hi) as Ho.
    destruct (lookup_lt_is_Some_2 geo i ltac:(apply lookup_lt_Some in Ho; lia)) as [g Hgi].
    apply lookup_zip_with_Some. exists g, p. split; [|done]. unfold at_. by rewrite (nth_lookup_Some _ _ _ _ Hgi). }
  exists geo. split; [done|]. split_and!.
  - pose proof (f_equal (fmap fst) (placed_sizes t _ _ _ _ Hgeo Hlo)) as Hz. by rewrite <- !list_fmap_compose in Hz.
  - pose proof (f_equal (fmap snd) (placed_sizes t _ _ _ _ Hgeo Hlo)) as Hz. by rewrite <- !list_fmap_compose in Hz.
  - rewrite (Hplace _ _ (wi_primary _ _ _ _ Hinv)). done.
  - intros i Hj. apply (walk_complete _ _ _ _ Hinv) in Hj as [p Hi]. eapply rtc_subrel; [|by eapply (wi_chain _ _ _ _ Hinv)].
    intros x y (px & py & e & Hx & Hy & Ht & Hf). destruct (flush_position_rects t _ _ _ _ _ Hf) as [Hs Hc].
    exists (rect_at t (at_ geo x) px), (rect_at t (at_ geo y) py), e. auto.
  - intros i r Hi Hnj. destruct (Hat i r Hi) as (o & Ho & ->). destruct (Hoff i o Ho) as (_ & _ & Hfb).
    assert (placed !! i = Some None) as Hno.
    { destruct (lookup_lt_is_Some_2 placed i) as [[p|] Hp]; [|exfalso; apply Hnj, (walk_complete _ _ _ _ Hinv); by exists p|done].
      rewrite (wi_length _ _ _ _ Hinv), <- Hlo. by eapply lookup_lt_Some. }
    specialize (Hfb Hno). cbn in Hfb. apply bind_Ok in Hfb as (x & Hx & Hfb). apply bind_Ok in Hfb as (y & Hy & [= <-]).
    cbn. rewrite Hx, Hy. split; f_equal; lia.
  - done.
  - done.
Qed.

Definition beside (id : string) (x y width height : Z) (primary : bool) (logical_width logical_height : Z) : RequestedMonitor :=
  mkRequestedMonitor (mkMonitor (mkIdentity id "" 0 0 0) x y width height F32_ONE 60 Rot0 primary F32_ZERO F32_ZERO None)
    logical_width logical_height.

(** A primary with a denser monitor at its left, and one apart. *)
Definition chain : list RequestedMonitor :=
  [beside "p" 0 0 1920 1080 true 1920 1080; beside "l" (-1280) 40 2560 1440 false 1280 720; beside "far" 5000 0 1920 1080 false 1920 1080].

Lemma placement_exact_witness :
  exists layout geo, place_monitors chain 0 NativeNeedsTransform TranslateToNonNegative = Ok layout
    /\ geometries chain NativeNeedsTransform = Ok geo
    /\ rtc (flush_in geo (placed_rects layout)) 0%nat 1%nat /\ placed_rects layout !! 1%nat = Some (mkLayoutRect 0 40 2560 1440).
Proof.
  destruct (place_monitors chain 0 NativeNeedsTransform TranslateToNonNegative) as [layout|e] eqn:E; [|vm_compute in E; discriminate].
  destruct (placement_exact chain 0 NativeNeedsTransform TranslateToNonNegative layout) as (geo & Hgeo & _ & _ & _ & Hj & _); [lia| |exact E|].
  { repeat constructor; cbn; lia. }
  exists layout, geo. split; [done|]. split; [exact Hgeo|].
  assert (geometries chain NativeNeedsTransform = Ok geo) as Hg by exact Hgeo.
  vm_compute in E. injection E as <-. split; [|done]. apply Hj. apply rtc_once. vm_compute in Hg. injection Hg as <-.
  split; [cbn; lia|]. vm_compute. by eexists.
Defined.

(** ** Two monitors beside the primary *)

(** A primary of 1920 by 2160 and, stacked to its right, a monitor of twice
    the density over one of its density: both touch the primary, so both are
    placed from it, and the upper one's footprint covers the lower one's. *)
Definition stacked : list RequestedMonitor :=
  [beside "a" 0 0 1920 2160 true 1920 2160; beside "b" 1920 0 3840 2160 false 1920 1080; beside "c" 1920 1080 1920 1080 false 1920 1080].

Lemma stacked_monitors_overlap :
  is_ok (RequestedMonitorTopology_new stacked) = true
  /\ place_monitors stacked 0 NativeNeedsTransform PreserveSigned
     = Ok (mkPlaced [mkLayoutRect 0 0 1920 2160; mkLayoutRect 1920 0 3840 2160; mkLayoutRect 1920 1080 1920 1080]
             (mkLayoutBounds 0 0 5760 2160) (mkTranslation 0 0)).
Proof. split; by vm_compute. Qed.
