(* ===== verification/PenEdges.v ===== *)
(** * Input: pen edges, from the client's samples to the host's injections

    Models [shared/input/src/pen_edges.rs] (the transitions a host injects for
    a stream of samples) and [shared/input/src/pen_forwarding.rs] (the client's
    dispatcher, which tells edges from motion and may fold motion), with the
    pen sample of [shared/input/src/lib.rs].  Button masks are [u16]s. *)

From Stdlib Require Import SpecFloat.
From S2P Require Import Prelude Float64.
From S2P Require RegionInput.

Abbreviation PenTool := RegionInput.PenTool.
Abbreviation Tip := RegionInput.Tip.
Abbreviation Eraser := RegionInput.Eraser.
Abbreviation f32 := RegionInput.f32.

#[export] Instance PenTool_eq_dec : EqDecision PenTool.
Proof. solve_decision. Defined.

(** ** pen_edges.rs *)

Definition MAX_BARREL_BUTTONS : Z := 8.

Record PenToolState := mkTool {
  tool_in_proximity : bool;
  tool_touching : bool;
  tool_buttons : Z;
  tool_end : PenTool
}.

Definition released (tool : PenTool) : PenToolState := mkTool false false 0 tool.
Definition PenToolState_default : PenToolState := released Tip.
Definition holds_anything (s : PenToolState) : bool := tool_touching s || negb (tool_buttons s =? 0).

Inductive PenEdge :=
| ToolIn (tool : PenTool)
| ToolOut (tool : PenTool)
| TipDown
| TipUp
| Barrel (index : Z) (pressed : bool).

(** The body of the loop over the buttons. *)
Definition barrel_edge (previous current index : Z) : option PenEdge :=
  let mask := Z.shiftl 1 index in
  if negb (Z.land (Z.lxor previous current) mask =? 0) then Some (Barrel index (negb (Z.land current mask =? 0))) else None.

Definition plan_barrel_edges (previous current : Z) : list PenEdge :=
  if Z.lxor previous current =? 0 then [] else omap (barrel_edge previous current) (range MAX_BARREL_BUTTONS).

Definition release_held (s : PenToolState) : list PenEdge :=
  plan_barrel_edges (tool_buttons s) 0 ++ (if tool_touching s then [TipUp] else []).

Definition plan_pen_edges (previous : PenToolState) (tool : PenTool) (in_proximity touching : bool) (buttons : Z) :
    list PenEdge * PenToolState :=
  let '(touching, buttons) := if in_proximity then (touching, buttons) else (false, 0) in
  let tool_changed := tool_in_proximity previous && in_proximity && negb (bool_decide (tool_end previous = tool)) in
  let edges := if (tool_in_proximity previous && negb in_proximity) || tool_changed
               then release_held previous ++ [ToolOut (tool_end previous)] else [] in
  if ((tool_in_proximity previous && negb in_proximity) || tool_changed) && negb tool_changed then (edges, released tool)
  else
    let entering := (negb (tool_in_proximity previous) && in_proximity) || tool_changed in
    let edges := edges ++ (if entering then [ToolIn tool] else []) in
    let baseline := if entering then released tool else previous in
    let edges := edges ++
      (if in_proximity
       then plan_barrel_edges (tool_buttons baseline) buttons
            ++ (if negb (eqb touching (tool_touching baseline)) then [if touching then TipDown else TipUp] else [])
       else []) in
    (edges, mkTool in_proximity touching buttons tool).

(** ** lib.rs and pen_forwarding.rs *)

Record LowLatencyMetadata := mkMetadata { md_sequence : Z; md_timestamp_ns : Z; md_coalescable : bool }.

Record PenEvent := mkPenEvent {
  pen_x : f64;
  pen_y : f64;
  pen_pressure : f32;
  pen_tilt_x : f32;
  pen_tilt_y : f32;
  pen_rotation : f32;
  pen_tool : PenTool;
  pen_in_proximity : bool;
  pen_touching : bool;
  pen_buttons : Z;
  pen_metadata : LowLatencyMetadata
}.

Inductive PenField := FieldX | FieldY | FieldPressure | FieldTiltX | FieldTiltY | FieldRotation.

(** [InputContractError::OutOfRange] of the field. *)
Definition validate_unit (field : PenField) (value : f64) : result PenField unit :=
  guard_err (negb (Float64.is_finite value && (f64_leb f64_zero value && f64_leb value (of_int 1)))) field.
Definition validate_f32 (field : PenField) (value minimum maximum : f32) : result PenField unit :=
  guard_err (negb (RegionInput.f32_in_range value minimum maximum)) field.

Definition PenEvent_validate (e : PenEvent) : result PenField unit :=
  _ ← validate_unit FieldX (pen_x e);
  _ ← validate_unit FieldY (pen_y e);
  _ ← validate_f32 FieldPressure (pen_pressure e) RegionInput.F32_ZERO RegionInput.F32_ONE;
  _ ← validate_f32 FieldTiltX (pen_tilt_x e) RegionInput.F32_MINUS_90 RegionInput.F32_90;
  _ ← validate_f32 FieldTiltY (pen_tilt_y e) RegionInput.F32_MINUS_90 RegionInput.F32_90;
  validate_f32 FieldRotation (pen_rotation e) RegionInput.F32_ZERO RegionInput.F32_360.

Definition DEFAULT_PEN_EDGE_CAPACITY : Z := 64.

Inductive PenForwardMode := Immediate | BatchedLatestMotion.

Record PenEdgeState := mkEdgeState { es_in_proximity : bool; es_tool : PenTool; es_touching : bool; es_buttons : Z }.

#[export] Instance PenEdgeState_eq_dec : EqDecision PenEdgeState.
Proof. solve_decision. Defined.

(** [PenEdgeState::of] *)
Definition edge_state_of (e : PenEvent) : PenEdgeState :=
  mkEdgeState (pen_in_proximity e) (pen_tool e) (pen_touching e) (pen_buttons e).

Inductive PenDispatchOverflow := DispatchOverflow.

Record PenForwardingDispatcher := mkDispatcher {
  fd_capacity : Z;
  fd_mode : PenForwardMode;
  fd_last_state : option PenEdgeState;
  fd_last_position : f64 * f64;
  fd_edge_count : Z;
  fd_motion_forwarded_count : Z;
  fd_motion_coalesced_count : Z;
  fd_overflow_count : Z
}.

(** [with_mode]; [None] is its panic on a capacity of zero. *)
Definition with_mode (capacity : Z) (mode : PenForwardMode) : option PenForwardingDispatcher :=
  if 0 <? capacity then Some (mkDispatcher capacity mode None (f64_zero, f64_zero) 0 0 0 0) else None.
Definition with_capacity (capacity : Z) : option PenForwardingDispatcher := with_mode capacity Immediate.
Definition PenForwardingDispatcher_new : option PenForwardingDispatcher := with_capacity DEFAULT_PEN_EDGE_CAPACITY.

Definition fd_in_proximity (d : PenForwardingDispatcher) : bool :=
  match fd_last_state d with Some s => es_in_proximity s | None => false end.

(** [event.metadata.coalescable = b] *)
Definition stamp (b : bool) (e : PenEvent) : PenEvent :=
  mkPenEvent (pen_x e) (pen_y e) (pen_pressure e) (pen_tilt_x e) (pen_tilt_y e) (pen_rotation e) (pen_tool e)
    (pen_in_proximity e) (pen_touching e) (pen_buttons e)
    (mkMetadata (md_sequence (pen_metadata e)) (md_timestamp_ns (pen_metadata e)) b).

Definition forward (d : PenForwardingDispatcher) (event : PenEvent) : PenEvent * PenForwardingDispatcher :=
  let state := edge_state_of event in
  let motion := bool_decide (fd_last_state d = Some state) in
  (stamp motion event,
   mkDispatcher (fd_capacity d) (fd_mode d) (Some state) (pen_x event, pen_y event)
     (if motion then fd_edge_count d else saturating_add 64 (fd_edge_count d) 1)
     (if motion then saturating_add 64 (fd_motion_forwarded_count d) 1 else fd_motion_forwarded_count d)
     (fd_motion_coalesced_count d) (fd_overflow_count d)).

(** The locals of [dispatch]. *)
Record Working := mkWorking {
  w_out : list PenEvent;
  w_state : option PenEdgeState;
  w_position : f64 * f64;
  w_edges : Z;
  w_forwarded : Z;
  w_coalesced : Z;
  w_batch_edges : Z
}.

(** One event of the batch; [None] is the overflow. *)
Definition dispatch_event (capacity : Z) (mode : PenForwardMode) (w : Working) (event : PenEvent) : option Working :=
  let state := edge_state_of event in
  let position := (pen_x event, pen_y event) in
  if negb (bool_decide (w_state w = Some state)) then
    if capacity <=? w_batch_edges w then None
    else Some (mkWorking (w_out w ++ [stamp false event]) (Some state) position (w_edges w + 1) (w_forwarded w) (w_coalesced w)
                 (w_batch_edges w + 1))
  else
    let event := stamp true event in
    let fold := match mode with
                | BatchedLatestMotion => match last (w_out w) with Some l => bool_decide (edge_state_of l = state) | None => false end
                | Immediate => false
                end in
    if fold
    then Some (mkWorking (removelast (w_out w) ++ [event]) (Some state) position (w_edges w) (w_forwarded w) (w_coalesced w + 1)
                 (w_batch_edges w))
    else Some (mkWorking (w_out w ++ [event]) (Some state) position (w_edges w) (w_forwarded w + 1) (w_coalesced w)
                 (w_batch_edges w)).

Fixpoint dispatch_loop (capacity : Z) (mode : PenForwardMode) (w : Working) (events : list PenEvent) : option Working :=
  match events with
  | [] => Some w
  | event :: r => w ← dispatch_event capacity mode w event; dispatch_loop capacity mode w r
  end.

Definition dispatch (d : PenForwardingDispatcher) (events : list PenEvent) :
    result PenDispatchOverflow (list PenEvent) * PenForwardingDispatcher :=
  match dispatch_loop (fd_capacity d) (fd_mode d) (mkWorking [] (fd_last_state d) (fd_last_position d) 0 0 0 0) events with
  | None =>
    (Err DispatchOverflow,
     mkDispatcher (fd_capacity d) (fd_mode d) (fd_last_state d) (fd_last_position d) (fd_edge_count d)
       (fd_motion_forwarded_count d) (fd_motion_coalesced_count d) (saturating_add 64 (fd_overflow_count d) 1))
  | Some w =>
    (Ok (w_out w),
     mkDispatcher (fd_capacity d) (fd_mode d) (w_state w) (w_position w)
       (saturating_add 64 (fd_edge_count d) (w_edges w))
       (saturating_add 64 (fd_motion_forwarded_count d) (w_forwarded w))
       (saturating_add 64 (fd_motion_coalesced_count d) (w_coalesced w)) (fd_overflow_count d))
  end.

Definition release_event (d : PenForwardingDispatcher) (metadata : LowLatencyMetadata) : option PenEvent * PenForwardingDispatcher :=
  match fd_last_state d with
  | None => (None, d)
  | Some state =>
    if negb (es_in_proximity state) then (None, d)
    else
      let event := mkPenEvent (fd_last_position d).1 (fd_last_position d).2 RegionInput.F32_ZERO RegionInput.F32_ZERO
        RegionInput.F32_ZERO RegionInput.F32_ZERO (es_tool state) false false 0
        (mkMetadata (md_sequence metadata) (md_timestamp_ns metadata) false) in
      if is_ok (PenEvent_validate event)
      then (Some event,
            mkDispatcher (fd_capacity d) (fd_mode d) (Some (mkEdgeState false (es_tool state) false 0)) (fd_last_position d)
              (saturating_add 64 (fd_edge_count d) 1) (fd_motion_forwarded_count d) (fd_motion_coalesced_count d)
              (fd_overflow_count d))
      else (None, d)
  end.

Definition PenForwardingDispatcher_reset (d : PenForwardingDispatcher) : PenForwardingDispatcher :=
  mkDispatcher (fd_capacity d) (fd_mode d) None (f64_zero, f64_zero) (fd_edge_count d) (fd_motion_forwarded_count d)
    (fd_motion_coalesced_count d) (fd_overflow_count d).

(** ** The device that the host injects into *)

(** What applications see: the tool over the tablet, its tip and its buttons,
    as a mask. *)
Record Device := mkDevice { dev_tool : option PenTool; dev_tip : bool; dev_held : Z }.

(** An injection; [None] where it makes no sense: a second tool, a press or a
    release that changes nothing, a press without a tool, a tool that leaves
    with something held. *)
Definition inject (d : Device) (e : PenEdge) : option Device :=
  match e, dev_tool d with
  | ToolIn tool, None => if dev_tip d || negb (dev_held d =? 0) then None else Some (mkDevice (Some tool) false 0)
  | ToolOut tool, Some t =>
    if negb (bool_decide (t = tool)) || dev_tip d || negb (dev_held d =? 0) then None else Some (mkDevice None false 0)
  | TipDown, Some t => if dev_tip d then None else Some (mkDevice (Some t) true (dev_held d))
  | TipUp, Some t => if dev_tip d then Some (mkDevice (Some t) false (dev_held d)) else None
  | Barrel index pressed, Some t =>
    if (0 <=? index) && (index <? MAX_BARREL_BUTTONS) && negb (eqb (Z.testbit (dev_held d) index) pressed)
    then Some (mkDevice (Some t) (dev_tip d) (if pressed then Z.setbit (dev_held d) index else Z.clearbit (dev_held d) index))
    else None
  | _, _ => None
  end.

Fixpoint inject_all (d : Device) (edges : list PenEdge) : option Device :=
  match edges with [] => Some d | e :: r => d ← inject d e; inject_all d r end.

(** The buttons a sample may report: the low eight. *)
Definition reported (buttons : Z) : Z := Z.land buttons (umax MAX_BARREL_BUTTONS).

Definition device_of (s : PenToolState) : Device :=
  mkDevice (if tool_in_proximity s then Some (tool_end s) else None) (tool_touching s) (reported (tool_buttons s)).

(** A tool that is away holds nothing. *)
Definition resting (s : PenToolState) : Prop := tool_in_proximity s = false -> s = released (tool_end s).

Lemma inject_all_app d l l' : inject_all d (l ++ l') = (d' ← inject_all d l; inject_all d' l').
Proof. revert d. induction l as [|e l IH]; intros d; [done|]. cbn. destruct (inject d e); cbn; [apply IH|done]. Qed.

Lemma barrel_edge_spec p c i : 0 <= i ->
  barrel_edge p c i = if xorb (Z.testbit p i) (Z.testbit c i) then Some (Barrel i (Z.testbit c i)) else None.
Proof.
  intros Hi. unfold barrel_edge. rewrite !land_bit, Z.lxor_spec, !negb_involutive by done. done.
Qed.

Lemma reported_testbit b i : 0 <= i -> Z.testbit (reported b) i = Z.testbit b i && (i <? MAX_BARREL_BUTTONS).
Proof.
  intros Hi. unfold reported, umax. rewrite Z.land_spec, Z.sub_1_r, <- Z.ones_equiv. f_equal.
  destruct (Z.ltb_spec i MAX_BARREL_BUTTONS); [by apply Z.ones_spec_low|by apply Z.ones_spec_high].
Qed.

(** The loop over the buttons, on a device that holds the previous ones. *)
Lemma barrel_loop p c tool tip held l :
  NoDup l -> (forall i, i ∈ l -> 0 <= i < MAX_BARREL_BUTTONS /\ Z.testbit held i = Z.testbit p i) ->
  exists held', inject_all (mkDevice (Some tool) tip held) (omap (barrel_edge p c) l) = Some (mkDevice (Some tool) tip held')
    /\ forall j, 0 <= j -> Z.testbit held' j = if bool_decide (j ∈ l) then Z.testbit c j else Z.testbit held j.
Proof.
  revert held. induction l as [|i l IH]; intros held Hnd Hl.
  - exists held. split; [done|]. intros j _. by rewrite bool_decide_eq_false_2 by apply not_elem_of_nil.
  - apply NoDup_cons in Hnd as [Hi Hnd]. destruct (Hl i) as [Hb Hheld]; [apply list_elem_of_here|]. cbn [omap list_omap].
    rewrite barrel_edge_spec by lia. destruct (xorb (Z.testbit p i) (Z.testbit c i)) eqn:Ex.
    + cbn [inject_all inject dev_tool dev_tip dev_held mbind option_bind].
      rewrite (proj2 (Z.leb_le 0 i)), (proj2 (Z.ltb_lt i MAX_BARREL_BUTTONS)), Hheld by lia.
      assert (negb (eqb (Z.testbit p i) (Z.testbit c i)) = true) as -> by (by destruct (Z.testbit p i), (Z.testbit c i)).
      cbn [andb]. set (h := if Z.testbit c i then _ else _).
      assert (forall j, 0 <= j -> Z.testbit h j = if bool_decide (j = i) then Z.testbit c i else Z.testbit held j) as Hh.
      { intros j Hj. subst h. case_bool_decide as Hji; [subst j|]; destruct (Z.testbit c i);
          rewrite ?Z.setbit_eq, ?Z.clearbit_eq, ?Z.setbit_neq, ?Z.clearbit_neq by lia; done. }
      destruct (IH h Hnd) as (held' & Hrun & Hbits).
      { intros j Hj. destruct (Hl j) as [? Hhj]; [by apply list_elem_of_further|]. split; [done|]. rewrite Hh, bool_decide_eq_false_2 by (lia || by intros -> ). done. }
      exists held'. split; [exact Hrun|]. intros j Hj. rewrite Hbits, Hh by done.
      rewrite (bool_decide_ext (j ∈ i :: l) (j = i \/ j ∈ l)) by apply elem_of_cons. clear -Hi.
      destruct (bool_decide_reflect (j ∈ l)), (bool_decide_reflect (j = i)) as [-> |]; by rewrite ?bool_decide_eq_true_2, ?bool_decide_eq_false_2 by tauto.
    + destruct (IH held Hnd) as (held' & Hrun & Hbits); [intros j Hj; by apply Hl, list_elem_of_further|].
      exists held'. split; [exact Hrun|]. intros j Hj. rewrite Hbits by done.
      rewrite (bool_decide_ext (j ∈ i :: l) (j = i \/ j ∈ l)) by apply elem_of_cons. clear -Hi Hheld Ex.
      destruct (bool_decide_reflect (j ∈ l)), (bool_decide_reflect (j = i)) as [-> |]; try by rewrite ?bool_decide_eq_true_2, ?bool_decide_eq_false_2 by tauto.
      rewrite bool_decide_eq_true_2, Hheld by tauto. by destruct (Z.testbit p i), (Z.testbit c i).
Qed.

Lemma barrel_edges_inject p c tool tip :
  inject_all (mkDevice (Some tool) tip (reported p)) (plan_barrel_edges p c) = Some (mkDevice (Some tool) tip (reported c)).
Proof.
  unfold plan_barrel_edges. destruct (Z.eqb_spec (Z.lxor p c) 0) as [->%Z.lxor_eq|_]; [done|].
  destruct (barrel_loop p c tool tip (reported p) (range MAX_BARREL_BUTTONS)) as (held & Hrun & Hbits).
  - apply NoDup_seqZ.
  - intros i Hi%elem_of_range. split; [done|]. rewrite reported_testbit, (proj2 (Z.ltb_lt _ _)), andb_true_r by lia. done.
  - rewrite Hrun. do 2 f_equal. apply Z.bits_inj'. intros j Hj. rewrite Hbits, !reported_testbit by done.
    destruct (bool_decide_reflect (j ∈ range MAX_BARREL_BUTTONS)) as [Hin|Hin]; rewrite elem_of_range in Hin.
    + rewrite (proj2 (Z.ltb_lt _ _)) by lia. by rewrite andb_true_r.
    + rewrite (proj2 (Z.ltb_ge _ _)) by lia. by rewrite !andb_false_r.
Qed.

Lemma release_held_inject s : 
  inject_all (mkDevice (Some (tool_end s)) (tool_touching s) (reported (tool_buttons s))) (release_held s ++ [ToolOut (tool_end s)])
  = Some (mkDevice None false 0).
Proof.
  unfold release_held. rewrite <- app_assoc, inject_all_app, barrel_edges_inject. cbn [mbind option_bind].
  destruct (tool_touching s); cbn; by rewrite bool_decide_eq_true_2.
Qed.

Lemma press_inject tool tip p touching c :
  inject_all (mkDevice (Some tool) tip (reported p))
    (plan_barrel_edges p c ++ (if negb (eqb touching tip) then [if touching then TipDown else TipUp] else []))
  = Some (mkDevice (Some tool) touching (reported c)).
Proof. rewrite inject_all_app, barrel_edges_inject. cbn [mbind option_bind]. by destruct touching, tip. Qed.

(** Nothing changed, nothing is injected. *)
Lemma plan_barrel_same b : plan_barrel_edges b b = [].
Proof. unfold plan_barrel_edges. by rewrite Z.lxor_nilpotent. Qed.

Lemma plan_again previous tool p t b :
  plan_pen_edges (plan_pen_edges previous tool p t b).2 tool p t b = ([], (plan_pen_edges previous tool p t b).2).
Proof.
  unfold plan_pen_edges. destruct previous as [q u c e]. cbn [tool_in_proximity tool_touching tool_buttons tool_end].
  destruct p, q; cbn; [|by rewrite bool_decide_eq_true_2, plan_barrel_same, eqb_reflx by done|done|done].
  case_bool_decide; cbn; by rewrite bool_decide_eq_true_2, plan_barrel_same, eqb_reflx by done.
Qed.

(** One sample: the edges make sense to the device and bring it to the
    sample. *)
Lemma plan_exact (previous : PenToolState) (tool : PenTool) (in_proximity touching : bool) (buttons : Z)
  (Hrest : resting previous) :
  let '(edges, next) := plan_pen_edges previous tool in_proximity touching buttons in
  next = (if in_proximity then mkTool true touching buttons tool else released tool)
  /\ inject_all (device_of previous) edges = Some (device_of next)
  /\ resting next
  /\ (next = previous -> edges = []).
Proof.
  pose proof (plan_again previous tool in_proximity touching buttons) as Hagain.
  assert (forall s, tool_in_proximity s = true ->
    inject_all (device_of s) (release_held s ++ [ToolOut (tool_end s)]) = Some (mkDevice None false 0)) as Hrel.
  { intros s Hs. unfold device_of. rewrite Hs. apply release_held_inject. }
  assert (forall t c, inject_all (mkDevice (Some tool) false 0)
    (plan_barrel_edges 0 c ++ (if negb (eqb t false) then [if t then TipDown else TipUp] else [])) = Some (mkDevice (Some tool) t (reported c))) as Hpress.
  { intros t c. apply (press_inject tool false 0 t c). }
  destruct (plan_pen_edges previous tool in_proximity touching buttons) as [edges next] eqn:E. cbn [snd] in Hagain.
  assert (next = previous -> edges = []) as Hsame by (intros -> ; rewrite E in Hagain; by injection Hagain). clear Hagain.
  unfold plan_pen_edges in E. destruct (tool_in_proximity previous) eqn:Ep, in_proximity; cbn [andb orb negb] in E.
  - case_bool_decide as Et; cbn [negb] in E; injection E as <- <-; (split; [done|]); (split; [|split; [done|exact Hsame]]).
    + unfold device_of at 1. rewrite Ep, Et. apply press_inject.
    + rewrite <- app_assoc, inject_all_app, Hrel by done. cbn [mbind option_bind]. rewrite inject_all_app. cbn. apply Hpress.
  - injection E as <- <-. split; [done|]. split; [by apply Hrel|]. split; [done|exact Hsame].
  - injection E as <- <-. split; [done|]. split; [|split; [done|exact Hsame]].
    rewrite (Hrest Ep). cbn. apply Hpress.
  - injection E as <- <-. split; [done|]. split; [|split; [by intros _|exact Hsame]]. by rewrite (Hrest Ep).
Qed.

(** ** The client and the host together *)

(** What the host injects for a stream of samples. *)
Definition host_step (s : PenToolState) (e : PenEvent) : list PenEdge * PenToolState :=
  plan_pen_edges s (pen_tool e) (pen_in_proximity e) (pen_touching e) (pen_buttons e).

Fixpoint host_run (s : PenToolState) (events : list PenEvent) : list PenEdge * PenToolState :=
  match events with
  | [] => ([], s)
  | e :: r => let '(edges, s) := host_step s e in let '(rest, s) := host_run s r in (edges ++ rest, s)
  end.

(** The events that change what the previous one left. *)
Fixpoint transitions (before : option PenEdgeState) (events : list PenEvent) : list PenEvent :=
  match events with
  | [] => []
  | e :: r => (if bool_decide (before = Some (edge_state_of e)) then [] else [e]) ++ transitions (Some (edge_state_of e)) r
  end.

Definition edge_state_after (before : option PenEdgeState) (events : list PenEvent) : option PenEdgeState :=
  match last events with Some e => Some (edge_state_of e) | None => before end.

Lemma host_run_app s l l' :
  host_run s (l ++ l') = let '(e, s) := host_run s l in let '(e', s) := host_run s l' in (e ++ e', s).
Proof.
  revert s. induction l as [|x l IH]; intros s; cbn; [by destruct (host_run s l')|].
  destruct (host_step s x) as [e s1]. rewrite IH. destruct (host_run s1 l) as [e1 s2], (host_run s2 l') as [e2 s3]. by rewrite app_assoc.
Qed.

Lemma host_step_ext s e e' : edge_state_of e = edge_state_of e' -> host_step s e = host_step s e'.
Proof. unfold edge_state_of, host_step. intros [= -> -> -> ->]. done. Qed.

(** A sample after one of the same edge state adds nothing. *)
Lemma host_run_again s l e e' : edge_state_of e' = edge_state_of e -> host_run s ((l ++ [e]) ++ [e']) = host_run s (l ++ [e]).
Proof.
  intros He. rewrite (host_run_app s (l ++ [e])), host_run_app. destruct (host_run s l) as [e1 s1]. cbn [host_run].
  destruct (host_step s1 e) as [e2 s2] eqn:E. cbn [host_run].
  assert (host_step s2 e' = ([], s2)) as ->; [|by rewrite !app_nil_r].
  rewrite (host_step_ext s2 e' e He). replace s2 with (host_step s1 e).2 by by rewrite E. apply plan_again.
Qed.

Lemma transitions_app before l l' :
  transitions before (l ++ l') = transitions before l ++ transitions (edge_state_after before l) l'.
Proof.
  revert before. induction l as [|e l IH]; intros before; [done|]. cbn [app transitions]. rewrite IH, <- app_assoc. do 2 f_equal.
  unfold edge_state_after. rewrite last_cons. by destruct (last l).
Qed.

(** The event as it was before the dispatcher stamped it. *)
Definition unstamped (e : PenEvent) : PenEvent := stamp false e.

(** The batch with every event stamped: motion may be coalesced, an edge may
    not. *)
Fixpoint marked (before : option PenEdgeState) (events : list PenEvent) : list PenEvent :=
  match events with
  | [] => []
  | e :: r => stamp (bool_decide (before = Some (edge_state_of e))) e :: marked (Some (edge_state_of e)) r
  end.

(** What is true after each event of a batch: [l] has been read. *)
Record batch_inv (capacity : Z) (mode : PenForwardMode) (before : option PenEdgeState) (w : Working) (l : list PenEvent) : Prop := {
  bi_state : w_state w = edge_state_after before l;
  bi_edges : w_edges w = w_batch_edges w /\ w_batch_edges w = len (transitions before l) /\ w_batch_edges w <= capacity;
  bi_out : sublist (unstamped <$> w_out w) (unstamped <$> l);
  bi_last : (unstamped <$> last (w_out w)) = (unstamped <$> last l);
  bi_counts : w_edges w + w_forwarded w = len (w_out w) /\ len (w_out w) + w_coalesced w = len l;
  bi_immediate : mode = Immediate -> w_out w = marked before l;
  bi_states : (edge_state_of <$> transitions before (w_out w)) = (edge_state_of <$> transitions before l);
  bi_host : forall s, host_run s (w_out w) = host_run s l
}.

Lemma edge_state_after_snoc before l e : edge_state_after before (l ++ [e]) = Some (edge_state_of e).
Proof. unfold edge_state_after. by rewrite last_snoc. Qed.

Lemma edge_state_after_last before l l' : (unstamped <$> last l) = (unstamped <$> last l') -> edge_state_after before l = edge_state_after before l'.
Proof.
  unfold edge_state_after. destruct (last l) as [e|], (last l') as [e'|]; try done. intros H%(inj Some).
  apply (f_equal edge_state_of) in H. exact (f_equal Some H).
Qed.

Lemma marked_app before l l' : marked before (l ++ l') = marked before l ++ marked (edge_state_after before l) l'.
Proof.
  revert before. induction l as [|e l IH]; intros before; [done|]. cbn. rewrite IH. do 2 f_equal.
  unfold edge_state_after. rewrite last_cons. by destruct (last l).
Qed.

Lemma transitions_states before l l' : (edge_state_of <$> l) = (edge_state_of <$> l') ->
  (edge_state_of <$> transitions before l) = (edge_state_of <$> transitions before l').
Proof.
  revert before l'. induction l as [|e l IH]; intros before [|e' l'] H; try done. rewrite !fmap_cons in H. apply cons_eq_inj in H as [He H].
  cbn [transitions]. rewrite !fmap_app, (IH _ _ H), He. f_equal. case_bool_decide; [done|]. cbn. by rewrite He.
Qed.

(** A stamped event after a prefix that the host reads alike. *)
Lemma host_run_stamp s l l' b e : host_run s l = host_run s l' -> host_run s (l ++ [stamp b e]) = host_run s (l' ++ [e]).
Proof. intros H. rewrite !host_run_app, H. destruct (host_run s l') as [? s1]. cbn. by rewrite (host_step_ext s1 (stamp b e) e). Qed.

Lemma batch_start capacity mode before position : 0 <= capacity -> batch_inv capacity mode before (mkWorking [] before position 0 0 0 0) [].
Proof. intros H. by constructor; cbn. Qed.

(** An event that is appended. *)
Lemma batch_push capacity mode before w l e w' : batch_inv capacity mode before w l ->
  let motion := bool_decide (edge_state_after before l = Some (edge_state_of e)) in
  w_out w' = w_out w ++ [stamp motion e] -> w_state w' = Some (edge_state_of e) ->
  w_edges w' = w_edges w + (if motion then 0 else 1) -> w_batch_edges w' = w_batch_edges w + (if motion then 0 else 1) ->
  w_forwarded w' = w_forwarded w + (if motion then 1 else 0) -> w_coalesced w' = w_coalesced w -> w_batch_edges w' <= capacity ->
  batch_inv capacity mode before w' (l ++ [e]).
Proof.
  intros [Hs (He & Hb & _) Ho Hl [Hc1 Hc2] Hi Ht Hh] motion Eo Es Ee Eb Ef Ec Hcap.
  assert (edge_state_after before (w_out w) = edge_state_after before l) as Hafter by by apply edge_state_after_last.
  assert (len (transitions before (l ++ [e])) = len (transitions before l) + (if motion then 0 else 1)) as Hlen.
  { rewrite transitions_app. cbn [transitions]. rewrite app_nil_r, len_app. subst motion. by case_bool_decide. }
  constructor.
  - by rewrite edge_state_after_snoc.
  - lia.
  - rewrite Eo, !fmap_app. by apply sublist_app.
  - by rewrite Eo, !last_snoc.
  - rewrite Eo, !len_app, !len_cons, !len_nil. clearbody motion; destruct motion; lia.
  - intros E. rewrite Eo, (Hi E), marked_app. done.
  - rewrite Eo, !transitions_app, !fmap_app, Ht, Hafter. f_equal. cbn [transitions]. change (edge_state_of (stamp motion e)) with (edge_state_of e). by case_bool_decide.
  - intros s. rewrite Eo. apply host_run_stamp, Hh.
Qed.

(** An event that replaces the last one. *)
Lemma batch_fold capacity before w l e o x w' : batch_inv capacity BatchedLatestMotion before w l ->
  edge_state_after before l = Some (edge_state_of e) -> w_out w = o ++ [x] -> edge_state_of x = edge_state_of e ->
  w' = mkWorking (o ++ [stamp true e]) (Some (edge_state_of e)) (pen_x e, pen_y e) (w_edges w) (w_forwarded w) (w_coalesced w + 1) (w_batch_edges w) ->
  batch_inv capacity BatchedLatestMotion before w' (l ++ [e]).
Proof.
  intros [Hs (He & Hb & Hcap) Ho Hl [Hc1 Hc2] _ Ht Hh] Hmotion Eo Ex ->. rewrite Eo in Ho, Hl, Hc1, Hc2, Ht, Hh.
  assert (transitions before (l ++ [e]) = transitions before l) as Hsame.
  { rewrite transitions_app. cbn [transitions]. by rewrite bool_decide_eq_true_2, app_nil_r by done. }
  constructor; cbn.
  - by rewrite edge_state_after_snoc.
  - rewrite Hsame. lia.
  - rewrite fmap_app in Ho |- *. rewrite fmap_app. apply sublist_app; [|done].
    etransitivity; [|exact Ho]. apply sublist_inserts_r. done.
  - by rewrite !last_snoc.
  - rewrite !len_app, !len_cons, !len_nil in *. lia.
  - done.
  - rewrite Hsame, <- Ht. apply transitions_states. rewrite !fmap_app. cbn. by rewrite Ex.
  - intros s. rewrite last_snoc in Hl. destruct (last l) as [y|] eqn:El; [|done]. apply last_Some in El as [l0 ->].
    rewrite edge_state_after_snoc in Hmotion. apply (inj Some) in Hmotion as Hx. rewrite host_run_again by done. rewrite <- Hh.
    rewrite !host_run_app. destruct (host_run s o) as [? s1]. cbn [host_run]. by rewrite (host_step_ext s1 (stamp true e) x) by done.
Qed.

Lemma dispatch_event_spec capacity mode before w l e : batch_inv capacity mode before w l ->
  match dispatch_event capacity mode w e with
  | Some w' => batch_inv capacity mode before w' (l ++ [e]) /\ w_position w' = (pen_x e, pen_y e)
  | None => capacity < len (transitions before (l ++ [e]))
  end.
Proof.
  intros Hinv. pose proof (bi_state _ _ _ _ _ Hinv) as Hs. destruct (bi_edges _ _ _ _ _ Hinv) as (_ & Hb & Hcap).
  unfold dispatch_event. rewrite Hs. destruct (bool_decide_reflect (edge_state_after before l = Some (edge_state_of e))) as [Em|Em]; cbn [negb].
  - assert (batch_inv capacity mode before (mkWorking (w_out w ++ [stamp true e]) (Some (edge_state_of e)) (pen_x e, pen_y e) (w_edges w)
      (w_forwarded w + 1) (w_coalesced w) (w_batch_edges w)) (l ++ [e])) as Hpush.
    { eapply (batch_push _ _ _ _ _ _ _ Hinv); rewrite ?bool_decide_eq_true_2 by done; cbn; done || lia. }
    destruct mode; [by split|]. destruct (last (w_out w)) as [x|] eqn:El; [|by split]. case_bool_decide as Ex; [|by split].
    split; [|done]. apply last_Some in El as [o Eo]. eapply (batch_fold _ _ _ _ _ _ _ _ Hinv Em Eo Ex). by rewrite Eo, removelast_last.
  - destruct (Z.leb_spec capacity (w_batch_edges w)) as [Hle|Hlt].
    + rewrite transitions_app. cbn [transitions]. rewrite bool_decide_eq_false_2, app_nil_r, len_app, len_cons, len_nil by done. lia.
    + split; [|done]. eapply (batch_push _ _ _ _ _ _ _ Hinv); rewrite ?bool_decide_eq_false_2 by done; cbn; done || lia.
Qed.

Lemma transitions_grow before l l' : len (transitions before l) <= len (transitions before (l ++ l')).
Proof. rewrite transitions_app, len_app. unfold len. lia. Qed.

Lemma dispatch_loop_spec capacity mode before events : forall w l, batch_inv capacity mode before w l ->
  match dispatch_loop capacity mode w events with
  | Some w' => batch_inv capacity mode before w' (l ++ events)
               /\ w_position w' = (match last events with Some e => (pen_x e, pen_y e) | None => w_position w end)
  | None => capacity < len (transitions before (l ++ events))
  end.
Proof.
  induction events as [|e events IH]; intros w l Hinv; [by rewrite app_nil_r|]. cbn [dispatch_loop].
  pose proof (dispatch_event_spec _ _ _ _ _ e Hinv) as Hstep.
  destruct (dispatch_event capacity mode w e) as [w'|]; cbn [mbind option_bind].
  - destruct Hstep as [Hinv' Hpos]. specialize (IH w' _ Hinv'). rewrite <- app_assoc in IH. cbn [app] in IH.
    destruct (dispatch_loop capacity mode w' events); [|done]. destruct IH as [? ->]. split; [done|]. rewrite last_cons.
    by destruct (last events).
  - pose proof (transitions_grow before (l ++ [e]) events) as Hg. rewrite <- app_assoc in Hg. cbn [app] in Hg. lia.
Qed.

(** What the last sample says of the tool. *)
Definition sampled (e : PenEvent) : PenToolState :=
  if pen_in_proximity e then mkTool true (pen_touching e) (pen_buttons e) (pen_tool e) else released (pen_tool e).

(** C13: Nothing is stranded on the host.  Whatever samples arrive - swapped
    tool ends, contact claimed away from the tablet, any button mask - the
    edges that the host plans for them always make sense to the device they
    are injected into: a press or a release changes something, no press comes
    without a tool, and no tool leaves with something held.  They bring the
    device exactly to the last sample: its tool, its tip and its low eight
    buttons, and to nothing at all when the tool is out of proximity.  A sample
    that repeats the last one injects nothing. *)
Theorem pen_stream_exact (s : PenToolState) (events : list PenEvent) (Hrest : resting s) :
  let '(edges, after) := host_run s events in
  inject_all (device_of s) edges = Some (device_of after)
  /\ after = match last events with Some e => sampled e | None => s end
  /\ (forall e, edge_state_of <$> last events = Some (edge_state_of e) -> host_run s (events ++ [e]) = (edges, after)).
Proof.
  destruct (host_run s events) as [edges after] eqn:E. split; [|split].
  - revert s edges after Hrest E. induction events as [|e events IH]; intros s edges after Hrest E; cbn [host_run] in E.
    { by injection E as <- <-. }
    pose proof (plan_exact s (pen_tool e) (pen_in_proximity e) (pen_touching e) (pen_buttons e) Hrest) as Hp.
    unfold host_step in E. destruct (plan_pen_edges _ _ _ _ _) as [l s1]. destruct Hp as (_ & Hin & Hr & _).
    destruct (host_run s1 events) as [l' s2] eqn:E2. injection E as <- <-. rewrite inject_all_app, Hin. by apply IH.
  - revert s edges after Hrest E. induction events as [|e events IH]; intros s edges after Hrest E; cbn [host_run] in E.
    { by injection E as <- <-. }
    pose proof (plan_exact s (pen_tool e) (pen_in_proximity e) (pen_touching e) (pen_buttons e) Hrest) as Hp.
    unfold host_step in E. destruct (plan_pen_edges _ _ _ _ _) as [l s1]. destruct Hp as (Hs1 & _ & Hr & _).
    destruct (host_run s1 events) as [l' s2] eqn:E2. injection E as <- <-. rewrite last_cons, (IH s1 l' s2 Hr E2).
    by destruct (last events).
  - intros e He. destruct (last events) as [x|] eqn:El; [|done]. apply last_Some in El as [l ->].
    apply (inj Some) in He. rewrite host_run_again by done. exact E.
Qed.

Definition stroke (sequence : Z) (tool : PenTool) (proximity touching : bool) (buttons : Z) : PenEvent :=
  mkPenEvent f64_zero f64_zero RegionInput.F32_ONE RegionInput.F32_ZERO RegionInput.F32_ZERO RegionInput.F32_ZERO
    tool proximity touching buttons (mkMetadata sequence sequence true).

(** The tip draws with two buttons, then the eraser replaces it. *)
Lemma pen_stream_exact_witness :
  let events := [stroke 1 Tip true true 3; stroke 2 Eraser true true 1] in
  (host_run PenToolState_default events).1
  = [ToolIn Tip; Barrel 0 true; Barrel 1 true; TipDown; Barrel 0 false; Barrel 1 false; TipUp; ToolOut Tip; ToolIn Eraser;
     Barrel 0 true; TipDown]
  /\ inject_all (mkDevice None false 0) (host_run PenToolState_default events).1 = Some (mkDevice (Some Eraser) true 1).
Proof.
  cbv zeta. split; [by vm_compute|].
  pose proof (pen_stream_exact PenToolState_default [stroke 1 Tip true true 3; stroke 2 Eraser true true 1] (fun _ => eq_refl)) as H.
  destruct (host_run _ _) as [edges after]. destruct H as (H & -> & _). exact H.
Defined.

(** C27: The dispatcher loses no edge.  A batch is refused exactly when it
    changes the edge state more often than the capacity allows, and then only
    the overflow counter moves.  Otherwise the host plans exactly the same
    edges for what is sent as for what came in, whatever state it is in; what
    is sent are events of the batch in their order, up to the stamp, with a
    last one that is the batch's last; it shows the same changes of the edge
    state; in immediate mode it is the whole batch, where exactly the samples
    that change nothing are marked coalescable.  The dispatcher remembers the
    last edge state and position, and its counters add up. *)
Theorem dispatch_keeps_edges (d : PenForwardingDispatcher) (events : list PenEvent) (Hcapacity : 0 < fd_capacity d) :
  let before := fd_last_state d in
  let changes := len (transitions before events) in
  match dispatch d events with
  | (Err _, d') =>
    fd_capacity d < changes
    /\ d' = mkDispatcher (fd_capacity d) (fd_mode d) before (fd_last_position d) (fd_edge_count d) (fd_motion_forwarded_count d)
              (fd_motion_coalesced_count d) (saturating_add 64 (fd_overflow_count d) 1)
  | (Ok out, d') =>
    changes <= fd_capacity d
    /\ (forall s, host_run s out = host_run s events)
    /\ sublist (unstamped <$> out) (unstamped <$> events)
    /\ (unstamped <$> last out) = (unstamped <$> last events)
    /\ (edge_state_of <$> transitions before out) = (edge_state_of <$> transitions before events)
    /\ (fd_mode d = Immediate -> out = marked before events)
    /\ d' = mkDispatcher (fd_capacity d) (fd_mode d) (edge_state_after before events)
              (match last events with Some e => (pen_x e, pen_y e) | None => fd_last_position d end)
              (saturating_add 64 (fd_edge_count d) changes)
              (saturating_add 64 (fd_motion_forwarded_count d) (len out - changes))
              (saturating_add 64 (fd_motion_coalesced_count d) (len events - len out)) (fd_overflow_count d)
  end.
Proof.
  cbv zeta. unfold dispatch.
  pose proof (dispatch_loop_spec (fd_capacity d) (fd_mode d) (fd_last_state d) events _ []
    (batch_start (fd_capacity d) (fd_mode d) (fd_last_state d) (fd_last_position d) ltac:(lia))) as H.
  destruct (dispatch_loop _ _ _ events) as [w|]; [|by split].
  destruct H as [[Hs (He & Hb & Hc) Ho Hl [Hc1 Hc2] Hi Ht Hh] Hp]. cbn [app w_position] in *.
  split; [lia|]. do 5 (split; [done|]). rewrite Hs, Hp. do 2 f_equal; lia.
Qed.

Lemma dispatch_keeps_edges_witness :
  let events := [stroke 1 Tip true false 0; stroke 2 Tip true true 0; stroke 3 Tip true true 0; stroke 4 Tip false true 0] in
  exists d out d', with_mode 3 BatchedLatestMotion = Some d /\ dispatch d events = (Ok out, d')
    /\ (md_sequence ∘ pen_metadata <$> out) = [1; 3; 4]
    /\ host_run PenToolState_default out = host_run PenToolState_default events.
Proof.
  cbv zeta. set (events := [_; _; _; _]). set (d := mkDispatcher 3 BatchedLatestMotion None (f64_zero, f64_zero) 0 0 0 0).
  pose proof (dispatch_keeps_edges d events ltac:(cbn; lia)) as H. cbv zeta in H.
  exists d. destruct (dispatch d events) as [[out|] d'] eqn:E; [|by vm_compute in E].
  exists out, d'. split; [done|]. split; [done|]. split; [|apply H]. vm_compute in E. by injection E as <- <-.
Defined.

(** In the batched mode a motion sample takes the place of an edge before it:
    the sample that touched down is not sent, and what is sent in its place is
    marked coalescable. *)
Lemma folded_motion_replaces_edge :
  exists d out d', with_mode 64 BatchedLatestMotion = Some d
    /\ dispatch d [stroke 1 Tip true true 0; stroke 2 Tip true true 0] = (Ok out, d')
    /\ out = [stroke 2 Tip true true 0] /\ fd_edge_count d' = 1.
Proof. do 3 eexists. split; [reflexivity|]. split; [by vm_compute|]. done. Qed.

(** The release of a tool in proximity takes everything off the device,
    whatever the host has seen, and is not repeated; it needs a last position
    within the unit square. *)
Lemma release_lets_go d metadata st s : fd_last_state d = Some st -> es_in_proximity st = true ->
  match release_event d metadata with
  | (Some e, d') =>
    (resting s -> inject_all (device_of s) (host_step s e).1 = Some (mkDevice None false 0))
    /\ release_event d' metadata = (None, d')
  | (None, d') => d' = d /\ (is_ok (validate_unit FieldX (fd_last_position d).1) && is_ok (validate_unit FieldY (fd_last_position d).2)) = false
  end.
Proof.
  intros Hst Hin. unfold release_event. rewrite Hst, Hin. cbn [negb].
  unfold PenEvent_validate. cbn [pen_x pen_y pen_pressure pen_tilt_x pen_tilt_y pen_rotation].
  destruct (validate_unit FieldX _) as [[]|]; [|done]. destruct (validate_unit FieldY _) as [[]|]; [|done].
  assert (forall A (a b : A), (if is_ok (_ ← @Ok PenField unit tt; _ ← Ok tt;
    _ ← validate_f32 FieldPressure RegionInput.F32_ZERO RegionInput.F32_ZERO RegionInput.F32_ONE;
    _ ← validate_f32 FieldTiltX RegionInput.F32_ZERO RegionInput.F32_MINUS_90 RegionInput.F32_90;
    _ ← validate_f32 FieldTiltY RegionInput.F32_ZERO RegionInput.F32_MINUS_90 RegionInput.F32_90;
    validate_f32 FieldRotation RegionInput.F32_ZERO RegionInput.F32_ZERO RegionInput.F32_360) then a else b) = a) as -> by done.
  split; [|done]. intros Hr. pose proof (plan_exact s (es_tool st) false false 0 Hr) as H. unfold host_step.
  cbn [pen_tool pen_in_proximity pen_touching pen_buttons]. destruct (plan_pen_edges _ _ _ _ _) as [edges next].
  destruct H as (-> & H & _). exact H.
Qed.
