(* ===== verification/PenAxes.v ===== *)
(** * Input: pen axes

    Models [shared/input/src/pen_axes.rs]: the conversions between a device's
    ranges and the vendor-neutral axes of a sample.  [f64] is [Float64]'s;
    [f32] is [SpecFloat] at 24 bits of precision. *)

From Stdlib Require Import SpecFloat.
From S2P Require Import Prelude Float64.
From S2P Require RegionInput.

Abbreviation f32 := RegionInput.f32.
Abbreviation f32_zero := RegionInput.F32_ZERO.
Abbreviation f32_one := RegionInput.F32_ONE.

(** ** Conversions between the two widths *)

Definition signed_mantissa (s : bool) (m : positive) : Z := if s then Zneg m else Zpos m.

(** [as f32] and [f64::from(f32)]. *)
Definition narrow (x : f64) : f32 :=
  match x with S754_finite s m e => binary_normalize 24 128 (signed_mantissa s m) e s | _ => x end.
Definition widen (x : f32) : f64 :=
  match x with S754_finite s m e => binary_normalize 53 1024 (signed_mantissa s m) e s | _ => x end.

Definition f32_div : f32 -> f32 -> f32 := SFdiv 24 128.

(** [f64::clamp] and [f32::clamp]; a NaN stays. *)
Definition float_clamp (x lo hi : spec_float) : spec_float :=
  if SFltb x lo then lo else if SFltb hi x then hi else x.

(** The remainder of truncating division, which is exact, and
    [f64::rem_euclid]. *)
Definition f64_rem (x y : f64) : f64 :=
  match x, y with
  | S754_nan, _ | _, S754_nan | S754_infinity _, _ | _, S754_zero _ => S754_nan
  | S754_zero _, _ | _, S754_infinity _ => x
  | S754_finite s m e, S754_finite _ n f =>
    let g := Z.min e f in
    let r := Z.shiftl (Zpos m) (e - g) mod Z.shiftl (Zpos n) (f - g) in
    match r with Z0 => S754_zero s | _ => binary_normalize 53 1024 (if s then - r else r) g s end
  end.
Definition f64_rem_euclid (x y : f64) : f64 :=
  let r := f64_rem x y in if f64_ltb r f64_zero then f64_add r (f64_abs y) else r.

(** [f32::round] followed by the cast to a signed or an unsigned integer. *)
Definition round_signed (w : Z) (x : f32) : Z := trunc_as_signed w (f64_round (widen x)).
Definition round_unsigned (w : Z) (x : f32) : Z := round_as w x.

(** ** pen_axes.rs *)

Record LogicalRange := mkRange { range_min : Z; range_max : Z }.

Definition LogicalRange_new (min max : Z) : option LogicalRange := if min <? max then Some (mkRange min max) else None.

(** [abs_diff] of the ends. *)
Definition span (r : LogicalRange) : Z := range_max r - range_min r.
Definition levels (r : LogicalRange) : Z := saturating_add 64 (span r) 1.

Definition TYPED_PEN_PRESSURE_RANGE : LogicalRange := mkRange 0 65535.
Definition WINDOWS_INK_PRESSURE_RANGE : LogicalRange := mkRange 0 1024.
Definition TILT_DEGREES_FULL_SCALE : f32 := RegionInput.F32_90.
Definition MINUS_TILT_DEGREES_FULL_SCALE : f32 := RegionInput.F32_MINUS_90.
Definition ROTATION_DEGREES_FULL_TURN : f32 := RegionInput.F32_360.

Definition clamp_z (x lo hi : Z) : Z := Z.max lo (Z.min x hi).

Definition normalize_logical (raw : Z) (r : LogicalRange) : f32 :=
  let offset := clamp_z raw (range_min r) (range_max r) - range_min r in
  float_clamp (narrow (f64_div (of_int offset) (of_int (span r)))) f32_zero f32_one.

Definition scale_unit (value : f32) (r : LogicalRange) : Z :=
  let unit := if RegionInput.is_finite value then widen (float_clamp value f32_zero f32_one) else f64_zero in
  let steps := round_as 64 (f64_mul unit (of_int (span r))) in
  Z.min (range_min r + Z.min steps (span r)) (2 ^ 63 - 1).

Definition clamp_pressure (pressure : f64) : f32 :=
  if Float64.is_finite pressure then narrow (float_clamp pressure f64_zero (of_int 1)) else f32_zero.

Definition clamp_degrees (x : f32) : f32 := float_clamp x MINUS_TILT_DEGREES_FULL_SCALE TILT_DEGREES_FULL_SCALE.

Definition tilt_unit_to_degrees (unit : f64) : f32 :=
  if Float64.is_finite unit
  then clamp_degrees (narrow (f64_mul (float_clamp unit (of_int (-1)) (of_int 1)) (widen TILT_DEGREES_FULL_SCALE)))
  else f32_zero.

Definition tilt_degrees_to_unit (degrees : f32) : f64 :=
  if RegionInput.is_finite degrees
  then widen (float_clamp (f32_div degrees TILT_DEGREES_FULL_SCALE) (SFopp f32_one) f32_one)
  else f64_zero.

Definition tilt_logical_to_degrees (raw : Z) (logical : LogicalRange) (physical_degrees : option (f64 * f64)) : f32 :=
  let unit := widen (normalize_logical raw logical) in
  let unscaled := f64_mul (f64_sub (f64_mul unit (of_int 2)) (of_int 1)) (widen TILT_DEGREES_FULL_SCALE) in
  let degrees := match physical_degrees with
    | Some (low, high) =>
      if Float64.is_finite low && Float64.is_finite high && f64_ltb low high
      then f64_add low (f64_mul unit (f64_sub high low)) else unscaled
    | None => unscaled
    end in
  clamp_degrees (narrow degrees).

Definition wrap_rotation_degrees (degrees : f64) : f32 :=
  if negb (Float64.is_finite degrees) then f32_zero
  else
    let narrowed := narrow (f64_rem_euclid degrees (widen ROTATION_DEGREES_FULL_TURN)) in
    if SFleb ROTATION_DEGREES_FULL_TURN narrowed then f32_zero else narrowed.

Definition twist_logical_to_degrees (raw : Z) (logical : LogicalRange) : f32 :=
  let offset := clamp_z raw (range_min logical) (range_max logical) - range_min logical in
  wrap_rotation_degrees (f64_mul (f64_div (of_int offset) (of_int (levels logical))) (widen ROTATION_DEGREES_FULL_TURN)).

Definition whole_tilt_degrees (degrees : f32) : Z :=
  if negb (RegionInput.is_finite degrees) then 0 else clamp_z (round_signed 32 (clamp_degrees degrees)) (-90) 90.

Definition whole_rotation_degrees (degrees : f32) : Z :=
  if negb (RegionInput.is_finite degrees) then 0
  else round_unsigned 32 (float_clamp degrees f32_zero ROTATION_DEGREES_FULL_TURN) mod 360.

(** Values a reader can check. *)
Example axes_evaluate :
  scale_unit (normalize_logical 8191 (mkRange 0 16383)) (mkRange 0 16383) = 8191
  /\ scale_unit (narrow (lit 1 2)) WINDOWS_INK_PRESSURE_RANGE = 512
  /\ whole_rotation_degrees (wrap_rotation_degrees (of_int (-90))) = 270
  /\ wrap_rotation_degrees (of_int 720) = f32_zero
  /\ whole_tilt_degrees (tilt_unit_to_degrees (lit (-1) 2)) = -45
  /\ whole_tilt_degrees (tilt_logical_to_degrees 600 (mkRange (-900) 900) (Some (of_int (-60), of_int 60))) = 40
  /\ whole_rotation_degrees (twist_logical_to_degrees 900 (mkRange 0 3599)) = 90.
Proof. by vm_compute. Qed.

(** ** No axis is a NaN *)

Definition float_nan (x : spec_float) : bool := match x with S754_nan => true | _ => false end.

Lemma shr_1_nonneg mrs : 0 <= shr_m mrs -> 0 <= shr_m (shr_1 mrs).
Proof. destruct mrs as [[|[p|p|]|p] r s]; cbn; lia. Qed.

Lemma shr_nonneg mrs e n : 0 <= shr_m mrs -> 0 <= shr_m (shr mrs e n).1.
Proof.
  intros H. destruct n as [|p|p]; cbn; try done. revert mrs H. induction p as [p IH|p IH|]; intros mrs H; cbn.
  - apply IH, IH. by apply shr_1_nonneg.
  - by apply IH, IH.
  - by apply shr_1_nonneg.
Qed.

Lemma shr_record_of_loc_m m l : shr_m (shr_record_of_loc m l) = m.
Proof. by destruct l as [|[]]. Qed.

Lemma round_nearest_even_nonneg m l : 0 <= m -> 0 <= round_nearest_even m l.
Proof. intros H. destruct l as [|[]]; cbn; [done|destruct (Z.even m); lia|done|lia]. Qed.

Lemma binary_round_aux_number prec emax s m e l : 0 <= m -> float_nan (binary_round_aux prec emax s m e l) = false.
Proof.
  intros H. unfold binary_round_aux, shr_fexp.
  pose proof (shr_nonneg (shr_record_of_loc m l) e (fexp prec emax (Zdigits2 m + e) - e)) as H1. rewrite shr_record_of_loc_m in H1.
  destruct (shr (shr_record_of_loc m l) e _) as [mrs e']. specialize (H1 H). cbn [fst] in H1.
  set (m' := round_nearest_even _ _). assert (0 <= m') as H' by by apply round_nearest_even_nonneg.
  pose proof (shr_nonneg (shr_record_of_loc m' loc_Exact) e' (fexp prec emax (Zdigits2 m' + e') - e')) as H2. rewrite shr_record_of_loc_m in H2.
  destruct (shr (shr_record_of_loc m' loc_Exact) e' _) as [mrs' e'']. specialize (H2 H'). cbn [fst] in H2.
  destruct (shr_m mrs') as [|p|p]; [done| |lia]. by destruct (Z.leb _ _).
Qed.

Lemma binary_normalize_number prec emax m e s : float_nan (binary_normalize prec emax m e s) = false.
Proof.
  assert (forall b p, float_nan (binary_round prec emax b p e) = false) as H.
  { intros b p. unfold binary_round. destruct (shl_align _ _ _) as [mz ez]. by apply binary_round_aux_number. }
  destruct m; [done|apply H|apply H].
Qed.

Lemma narrow_number x : float_nan x = false -> float_nan (narrow x) = false.
Proof. destruct x; [done..|]. intros _. apply binary_normalize_number. Qed.
Lemma widen_number x : float_nan x = false -> float_nan (widen x) = false.
Proof. destruct x; [done..|]. intros _. apply binary_normalize_number. Qed.

Lemma float_clamp_number x lo hi :
  float_nan x = false -> float_nan lo = false -> float_nan hi = false -> float_nan (float_clamp x lo hi) = false.
Proof. intros. unfold float_clamp. by destruct (SFltb x lo), (SFltb hi x). Qed.

Lemma clamp_pressure_number p : float_nan (clamp_pressure p) = false.
Proof.
  unfold clamp_pressure. destruct (Float64.is_finite p) eqn:E; [|done]. apply narrow_number, float_clamp_number; [|done|].
  - by destruct p.
  - apply binary_normalize_number.
Qed.

(** Whole axes stay in their ranges, whatever the value (a NaN included). *)
Lemma whole_axes_in_range value r degrees : in_signed 64 (range_min r) -> in_signed 64 (range_max r) -> range_min r < range_max r ->
  range_min r <= scale_unit value r <= range_max r
  /\ -90 <= whole_tilt_degrees degrees <= 90 /\ 0 <= whole_rotation_degrees degrees < 360.
Proof.
  unfold in_signed, scale_unit, whole_tilt_degrees, whole_rotation_degrees, clamp_z, span. intros. split; [|split].
  - pose proof (round_as_range 64 (f64_mul (if RegionInput.is_finite value then widen (float_clamp value f32_zero f32_one) else f64_zero)
      (of_int (range_max r - range_min r))) ltac:(lia)). lia.
  - destruct (negb _); lia.
  - destruct (negb _); [lia|]. by apply Z.mod_pos_bound.
Qed.
