(* ===== verification/StylusEmulator.v ===== *)
(** * Input: pen samples as frames of an emulated stylus

    Models [shared/input/src/pen_emulation.rs]: the planner that turns pen
    samples into frames of the emulated-input protocol, over the edges of
    [PenEdges] and the axes of [PenAxes]; and, as a specification, the protocol
    as a compositor checks it. *)

From Stdlib Require Import SpecFloat.
From S2P Require Import Prelude Float64 PenEdges PenAxes.
From S2P Require RegionInput.

(** 1/65535 as an [f32]. *)
Definition MIN_CONTACT_PRESSURE : f32 := f32_div f32_one (narrow (of_int 65535)).

Definition MAX_STYLUS_BARREL_BUTTONS : Z := 3.

Definition barrel_button_code (index : Z) : option Z :=
  if index =? 0 then Some 331 else if index =? 1 then Some 332 else if index =? 2 then Some 329 else None.

Record StylusBinding := mkBinding {
  bind_pressure : bool;
  bind_tilt : bool;
  bind_rotation : bool;
  bind_erase : bool;
  bind_barrel_buttons : Z
}.

Definition deliverable_buttons (b : StylusBinding) : Z :=
  if MAX_STYLUS_BARREL_BUTTONS <? bind_barrel_buttons b then MAX_STYLUS_BARREL_BUTTONS else bind_barrel_buttons b.

Record StylusSample := mkSample {
  smp_x : f64; smp_y : f64;
  smp_pressure : f32; smp_tilt_x : f32; smp_tilt_y : f32; smp_rotation : f32;
  smp_tool : PenTool;
  smp_in_proximity : bool;
  smp_touching : bool;
  smp_buttons : Z
}.

Inductive StylusOp :=
| OpProximityIn
| OpProximityOut
| OpMotion (x y : f32)
| OpPressure (pressure : f32)
| OpTilt (x y : f32)
| OpRotation (degrees : f32)
| OpEraseStart
| OpEraseStop
| OpTipDown
| OpTipUp
| OpButton (index : Z) (pressed : bool).

#[export] Instance f32_eq_dec : EqDecision spec_float.
Proof. solve_decision. Defined.
#[export] Instance StylusOp_eq_dec : EqDecision StylusOp.
Proof. solve_decision. Defined.

(** The operations of a frame, in order. *)
Abbreviation StylusFrame := (list StylusOp).

(** [StylusFrame::has], used for operations without a value. *)
Definition has (frame : StylusFrame) (wanted : StylusOp) : bool := bool_decide (wanted ∈ frame).

(** [StylusSampleError::NotFinite] of the field. *)
Inductive SampleField := SampleX | SampleY | SamplePressure | SampleTiltX | SampleTiltY | SampleRotation.

Record SentAxes := mkSent { sent_x : f32; sent_y : f32; sent_pressure : f32; sent_tilt : f32 * f32; sent_rotation : f32 }.

Record StylusEmulator := mkEmulator {
  em_binding : StylusBinding;
  em_tool : PenToolState;
  em_sent : option SentAxes;
  em_dropped_buttons : Z;
  em_withheld_erasers : Z
}.

Definition StylusEmulator_new (b : StylusBinding) : StylusEmulator := mkEmulator b PenToolState_default None 0 0.

Definition em_holds_anything (em : StylusEmulator) : bool := tool_in_proximity (em_tool em).

(** Bitwise; the compared values are numbers, so their bits are equal exactly
    when they are. *)
Definition differs (value sent : f32) : bool := negb (bool_decide (value = sent)).

Definition contact_pressure (pressure : f32) (touching : bool) : f32 :=
  if touching && SFltb pressure MIN_CONTACT_PRESSURE then MIN_CONTACT_PRESSURE else pressure.

Definition clamp_tilt (degrees : f32) : f32 := clamp_degrees degrees.

Definition sample_fields (s : StylusSample) : list (SampleField * bool) :=
  [(SampleX, Float64.is_finite (smp_x s)); (SampleY, Float64.is_finite (smp_y s));
   (SamplePressure, RegionInput.is_finite (smp_pressure s)); (SampleTiltX, RegionInput.is_finite (smp_tilt_x s));
   (SampleTiltY, RegionInput.is_finite (smp_tilt_y s)); (SampleRotation, RegionInput.is_finite (smp_rotation s))].

Definition check_finite (s : StylusSample) : result SampleField unit :=
  match List.find (fun f => negb f.2) (sample_fields s) with Some (field, _) => Err field | None => Ok tt end.

Definition with_pressure (pressure : f32) (a : SentAxes) : SentAxes :=
  mkSent (sent_x a) (sent_y a) pressure (sent_tilt a) (sent_rotation a).

(** What [push_all_axes] appends and remembers. *)
Definition push_all_axes (b : StylusBinding) (frame : StylusFrame) (axes : SentAxes) (touching : bool) : StylusFrame * option SentAxes :=
  let pressure := contact_pressure (sent_pressure axes) touching in
  (frame ++ [OpMotion (sent_x axes) (sent_y axes)]
   ++ (if bind_pressure b then [OpPressure pressure] else [])
   ++ (if bind_tilt b then [OpTilt (sent_tilt axes).1 (sent_tilt axes).2] else [])
   ++ (if bind_rotation b then [OpRotation (sent_rotation axes)] else []),
   Some (with_pressure pressure axes)).

Definition push_changed_axes (b : StylusBinding) (sent : option SentAxes) (frame : StylusFrame) (axes : SentAxes) (touching : bool) :
    StylusFrame * option SentAxes :=
  match sent with
  | None => push_all_axes b frame axes touching
  | Some previous =>
    let pressure := contact_pressure (sent_pressure axes) touching in
    let frame1 := frame ++ (if differs (sent_x axes) (sent_x previous) || differs (sent_y axes) (sent_y previous)
                            then [OpMotion (sent_x axes) (sent_y axes)] else []) in
    (frame1
     ++ (if bind_pressure b && (differs pressure (sent_pressure previous) || has frame1 OpTipDown) then [OpPressure pressure] else [])
     ++ (if bind_tilt b && (differs (sent_tilt axes).1 (sent_tilt previous).1 || differs (sent_tilt axes).2 (sent_tilt previous).2)
         then [OpTilt (sent_tilt axes).1 (sent_tilt axes).2] else [])
     ++ (if bind_rotation b && differs (sent_rotation axes) (sent_rotation previous) then [OpRotation (sent_rotation axes)] else []),
     Some (with_pressure pressure axes))
  end.

(** The locals of [frames] and the fields it changes. *)
Record Framing := mkFraming {
  fr_sent : option SentAxes;
  fr_dropped : Z;
  fr_frames : list StylusFrame;
  fr_frame : StylusFrame;
  fr_entered : bool
}.

(** Closing the frame that is open. *)
Definition take_frame (w : Framing) : Framing := mkFraming (fr_sent w) (fr_dropped w) (fr_frames w ++ [fr_frame w]) [] (fr_entered w).
Definition push_op (op : StylusOp) (w : Framing) : Framing :=
  mkFraming (fr_sent w) (fr_dropped w) (fr_frames w) (fr_frame w ++ [op]) (fr_entered w).

(** One edge. *)
Definition frame_edge (b : StylusBinding) (next : PenToolState) (axes : option SentAxes) (w : Framing) (edge : PenEdge) : Framing :=
  match edge with
  | ToolOut _ =>
    let w := push_op OpProximityOut w in
    take_frame (mkFraming None (fr_dropped w) (fr_frames w) (fr_frame w) (fr_entered w))
  | ToolIn tool =>
    match axes with
    | None => w
    | Some axes =>
      let w := push_op OpProximityIn (if has (fr_frame w) OpProximityOut then take_frame w else w) in
      let '(frame, sent) := push_all_axes b (fr_frame w) axes (tool_touching next) in
      let frame := if bool_decide (tool = Eraser) && bind_erase b then frame ++ [OpEraseStart] else frame in
      mkFraming sent (fr_dropped w) (fr_frames w) frame true
    end
  | Barrel index pressed =>
    if index <? deliverable_buttons b then push_op (OpButton index pressed) w
    else mkFraming (fr_sent w) (saturating_add 64 (fr_dropped w) 1) (fr_frames w) (fr_frame w) (fr_entered w)
  | TipDown => push_op OpTipDown (if has (fr_frame w) OpTipUp then take_frame w else w)
  | TipUp => push_op OpTipUp (if has (fr_frame w) OpTipDown then take_frame w else w)
  end.

Definition frames (em : StylusEmulator) (edges : list PenEdge) (next : PenToolState) (axes : option SentAxes) :
    list StylusFrame * StylusEmulator :=
  let b := em_binding em in
  let w := fold_left (frame_edge b next axes) edges (mkFraming (em_sent em) (em_dropped_buttons em) [] [] false) in
  let '(frame, sent) :=
    match axes with
    | Some axes =>
      if tool_in_proximity next && negb (fr_entered w)
      then push_changed_axes b (fr_sent w) (fr_frame w) axes (tool_touching next) else (fr_frame w, fr_sent w)
    | None => (fr_frame w, fr_sent w)
    end in
  (fr_frames w ++ (match frame with [] => [] | _ => [frame] end),
   mkEmulator b (em_tool em) sent (fr_dropped w) (em_withheld_erasers em)).

(** [self.tool = next] *)
Definition set_tool (next : PenToolState) (em : StylusEmulator) : StylusEmulator :=
  mkEmulator (em_binding em) next (em_sent em) (em_dropped_buttons em) (em_withheld_erasers em).

(** The axes of a sample as they are sent. *)
Definition axes_of (s : StylusSample) : SentAxes :=
  mkSent (narrow (smp_x s)) (narrow (smp_y s)) (clamp_pressure (widen (smp_pressure s)))
    (clamp_tilt (smp_tilt_x s), clamp_tilt (smp_tilt_y s)) (wrap_rotation_degrees (widen (smp_rotation s))).

(** An eraser that the stylus cannot send. *)
Definition withheld (b : StylusBinding) (s : StylusSample) : bool :=
  smp_in_proximity s && bool_decide (smp_tool s = Eraser) && negb (bind_erase b).

Definition plan (em : StylusEmulator) (s : StylusSample) : result SampleField (list StylusFrame) * StylusEmulator :=
  match check_finite s with
  | Err field => (Err field, em)
  | Ok _ =>
    let w := withheld (em_binding em) s in
    let in_proximity := if w then false else smp_in_proximity s in
    let em := if w then mkEmulator (em_binding em) (em_tool em) (em_sent em) (em_dropped_buttons em)
                          (saturating_add 64 (em_withheld_erasers em) 1) else em in
    let '(edges, next) := plan_pen_edges (em_tool em) (smp_tool s) in_proximity (smp_touching s) (smp_buttons s) in
    let '(fs, em) := frames em edges next (Some (axes_of s)) in
    (Ok fs, set_tool next em)
  end.

Definition release (em : StylusEmulator) : list StylusFrame * StylusEmulator :=
  let '(edges, next) := plan_pen_edges (em_tool em) (tool_end (em_tool em)) false false 0 in
  let '(fs, em) := frames em edges next None in
  (fs, set_tool next em).

(** ** What a host may advertise *)

Inductive CapabilityAvailability := Available | Unavailable | Unknown.

Record PenCapabilityTruth := mkTruth {
  truth_pen : CapabilityAvailability;
  truth_pressure : CapabilityAvailability;
  truth_tilt : CapabilityAvailability;
  truth_rotation : CapabilityAvailability;
  truth_eraser : CapabilityAvailability;
  truth_proximity : CapabilityAvailability;
  truth_barrel_buttons : CapabilityAvailability
}.

Definition availability (present : bool) : CapabilityAvailability := if present then Available else Unavailable.

Definition TRUTH_UNAVAILABLE : PenCapabilityTruth :=
  mkTruth Unavailable Unavailable Unavailable Unavailable Unavailable Unavailable Unavailable.
Definition LINUX_UINPUT_TABLET : PenCapabilityTruth :=
  mkTruth Available Available Available Unavailable Available Available Available.
Definition linux_uinput (tablet_device : bool) : PenCapabilityTruth := if tablet_device then LINUX_UINPUT_TABLET else TRUTH_UNAVAILABLE.
Definition emulated_stylus (b : StylusBinding) : PenCapabilityTruth :=
  mkTruth Available (availability (bind_pressure b)) (availability (bind_tilt b)) (availability (bind_rotation b))
    (availability (bind_erase b)) Available (availability (0 <? deliverable_buttons b)).
Definition pen_available (t : PenCapabilityTruth) : bool := match truth_pen t with Available => true | _ => false end.

(** ** The protocol, as a compositor checks it *)

(** The axes a stylus was last given in this stay in proximity. *)
Record Axes := mkAxes {
  ax_position : option (f32 * f32); ax_pressure : option f32; ax_tilt : option (f32 * f32); ax_rotation : option f32
}.

Definition no_axes : Axes := mkAxes None None None None.

(** The stylus on the compositor's side: what is pressed on it, and its axes.
    The tool of the [Device] stands for its presence; which end it is, is
    [st_erasing]. *)
Record Stylus := mkStylus { st_device : Device; st_erasing : bool; st_axes : Axes }.

Definition no_stylus : Stylus := mkStylus (mkDevice None false 0) false no_axes.

Definition present (st : Stylus) : bool := is_some (dev_tool (st_device st)).

Definition via_device (st : Stylus) (edge : PenEdge) : option Stylus :=
  d ← inject (st_device st) edge; Some (mkStylus d (st_erasing st) (st_axes st)).

Definition on_axes (st : Stylus) (a : Axes) : option Stylus := Some (mkStylus (st_device st) (st_erasing st) a).

(** One operation; [None] where the client breaks the protocol: only what is
    bound is sent, only in proximity, and only what changes something, a value
    of an axis included.  Only a frame that makes [contact] may restate the
    pressure. *)
Definition op_step (b : StylusBinding) (contact : bool) (st : Stylus) (op : StylusOp) : option Stylus :=
  let a := st_axes st in
  match op with
  | OpProximityIn => d ← inject (st_device st) (ToolIn Tip); Some (mkStylus d false no_axes)
  | OpProximityOut => d ← inject (st_device st) (ToolOut Tip); Some (mkStylus d false no_axes)
  | OpMotion x y =>
    if present st && negb (bool_decide (ax_position a = Some (x, y)))
    then on_axes st (mkAxes (Some (x, y)) (ax_pressure a) (ax_tilt a) (ax_rotation a)) else None
  | OpPressure p =>
    if present st && bind_pressure b && (contact || negb (bool_decide (ax_pressure a = Some p)))
    then on_axes st (mkAxes (ax_position a) (Some p) (ax_tilt a) (ax_rotation a)) else None
  | OpTilt x y =>
    if present st && bind_tilt b && negb (bool_decide (ax_tilt a = Some (x, y)))
    then on_axes st (mkAxes (ax_position a) (ax_pressure a) (Some (x, y)) (ax_rotation a)) else None
  | OpRotation r =>
    if present st && bind_rotation b && negb (bool_decide (ax_rotation a = Some r))
    then on_axes st (mkAxes (ax_position a) (ax_pressure a) (ax_tilt a) (Some r)) else None
  | OpEraseStart =>
    if present st && bind_erase b && negb (st_erasing st) then Some (mkStylus (st_device st) true a) else None
  | OpEraseStop => if st_erasing st then Some (mkStylus (st_device st) false a) else None
  | OpTipDown => via_device st TipDown
  | OpTipUp => via_device st TipUp
  | OpButton index pressed => if index <? deliverable_buttons b then via_device st (Barrel index pressed) else None
  end.

Fixpoint run_ops (b : StylusBinding) (contact : bool) (st : Stylus) (ops : list StylusOp) : option Stylus :=
  match ops with [] => Some st | op :: r => st ← op_step b contact st op; run_ops b contact st r end.

Definition is_motion (op : StylusOp) : bool := match op with OpMotion _ _ => true | _ => false end.
Definition is_pressure (op : StylusOp) : bool := match op with OpPressure _ => true | _ => false end.
Definition is_tilt (op : StylusOp) : bool := match op with OpTilt _ _ => true | _ => false end.
Definition is_rotation (op : StylusOp) : bool := match op with OpRotation _ => true | _ => false end.

Definition at_most_once (what : StylusOp -> bool) (frame : StylusFrame) : bool := (length (List.filter what frame) <=? 1)%nat.

(** A frame says something, its operations do not contradict each other, and it
    gives an axis one value. *)
Definition frame_consistent (frame : StylusFrame) : bool :=
  negb (bool_decide (frame = []))
  && negb (has frame OpProximityIn && has frame OpProximityOut)
  && negb (has frame OpTipDown && has frame OpTipUp)
  && negb (has frame OpEraseStart && has frame OpEraseStop)
  && at_most_once is_motion frame && at_most_once is_pressure frame
  && at_most_once is_tilt frame && at_most_once is_rotation frame.

(** The frame that brings a tool into proximity has its position and a value
    for every bound axis. *)
Definition frame_complete (b : StylusBinding) (frame : StylusFrame) : bool :=
  negb (has frame OpProximityIn)
  || (existsb is_motion frame && (negb (bind_pressure b) || existsb is_pressure frame)
      && (negb (bind_tilt b) || existsb is_tilt frame) && (negb (bind_rotation b) || existsb is_rotation frame)).

(** With pressure bound, a stylus in contact has pressure. *)
Definition pressed (b : StylusBinding) (st : Stylus) : bool :=
  negb (dev_tip (st_device st)) || negb (bind_pressure b)
  || match ax_pressure (st_axes st) with Some p => SFltb f32_zero p | None => false end.

Definition frame_step (b : StylusBinding) (st : Stylus) (frame : StylusFrame) : option Stylus :=
  if frame_consistent frame && frame_complete b frame
  then st ← run_ops b (has frame OpTipDown) st frame; (if pressed b st then Some st else None) else None.

Fixpoint run_frames (b : StylusBinding) (st : Stylus) (fs : list StylusFrame) : option Stylus :=
  match fs with [] => Some st | f :: r => st ← frame_step b st f; run_frames b st r end.

(** The buttons a stylus can deliver. *)
Definition delivered (b : StylusBinding) (buttons : Z) : Z := Z.land buttons (umax (deliverable_buttons b)).

(** The values of the bound axes. *)
Definition given (b : StylusBinding) (a : SentAxes) : Axes :=
  mkAxes (Some (sent_x a, sent_y a)) (if bind_pressure b then Some (sent_pressure a) else None)
    (if bind_tilt b then Some (sent_tilt a) else None) (if bind_rotation b then Some (sent_rotation a) else None).

(** With the pressure that contact asks for. *)
Definition touched (touching : bool) (a : SentAxes) : SentAxes := with_pressure (contact_pressure (sent_pressure a) touching) a.

(** What the compositor should have of an emulator. *)
Definition stylus_of (em : StylusEmulator) : Stylus :=
  let t := em_tool em in
  let b := em_binding em in
  mkStylus
    (mkDevice (if tool_in_proximity t then Some Tip else None) (tool_touching t) (delivered b (tool_buttons t)))
    (tool_in_proximity t && bool_decide (tool_end t = Eraser))
    (match em_sent em with Some a => given b a | None => no_axes end).

(** What the compositor should have after a sample of a tool it is shown. *)
Definition sampled (b : StylusBinding) (s : StylusSample) : Stylus :=
  mkStylus (mkDevice (Some Tip) (smp_touching s) (delivered b (smp_buttons s))) (bool_decide (smp_tool s = Eraser))
    (given b (touched (smp_touching s) (axes_of s))).

(** *** Operations of an emulator *)

Inductive StylusInput := Sample (s : StylusSample) | Release.

Definition stylus_input (em : StylusEmulator) (i : StylusInput) : list StylusFrame * StylusEmulator :=
  match i with
  | Sample s => match plan em s with (Ok fs, em) => (fs, em) | (Err _, em) => ([], em) end
  | Release => release em
  end.

Fixpoint stylus_run (em : StylusEmulator) (inputs : list StylusInput) : list StylusFrame * StylusEmulator :=
  match inputs with
  | [] => ([], em)
  | i :: r => let '(fs, em) := stylus_input em i in let '(gs, em) := stylus_run em r in (fs ++ gs, em)
  end.

Record emulator_inv (em : StylusEmulator) : Prop := {
  ei_buttons : 0 <= bind_barrel_buttons (em_binding em);
  ei_resting : resting (em_tool em);
  ei_sent : is_some (em_sent em) = tool_in_proximity (em_tool em);
  ei_eraser : tool_in_proximity (em_tool em) = true -> tool_end (em_tool em) = Eraser -> bind_erase (em_binding em) = true;
  ei_pressed : pressed (em_binding em) (stylus_of em) = true
}.

(** *** Buttons *)

Lemma run_ops_app b contact st l l' : run_ops b contact st (l ++ l') = (st ← run_ops b contact st l; run_ops b contact st l').
Proof. revert st. induction l as [|op l IH]; intros st; [done|]. cbn. destruct (op_step b contact st op); cbn; [apply IH|done]. Qed.

Lemma run_frames_app b st l l' : run_frames b st (l ++ l') = (st ← run_frames b st l; run_frames b st l').
Proof. revert st. induction l as [|f l IH]; intros st; [done|]. cbn. destruct (frame_step b st f); cbn; [apply IH|done]. Qed.

Lemma deliverable_range b : 0 <= bind_barrel_buttons b -> 0 <= deliverable_buttons b <= 3.
Proof. unfold deliverable_buttons, MAX_STYLUS_BARREL_BUTTONS. destruct (Z.ltb_spec 3 (bind_barrel_buttons b)); lia. Qed.

(** The button operations of a change of the mask. *)
Definition button_of (edge : PenEdge) : option StylusOp :=
  match edge with Barrel index pressed => Some (OpButton index pressed) | _ => None end.
Definition button_ops (b : StylusBinding) (previous current : Z) : list StylusOp :=
  omap button_of (omap (barrel_edge previous current) (range (deliverable_buttons b))).

Lemma delivered_testbit b x i : 0 <= bind_barrel_buttons b -> 0 <= i ->
  Z.testbit (delivered b x) i = Z.testbit x i && (i <? deliverable_buttons b).
Proof.
  intros Hb Hi. apply deliverable_range in Hb. unfold delivered, umax. rewrite Z.land_spec, Z.sub_1_r, <- Z.ones_equiv. f_equal.
  destruct (Z.ltb_spec i (deliverable_buttons b)); [apply Z.ones_spec_low|apply Z.ones_spec_high]; lia.
Qed.

Lemma barrel_edge_Barrel p c i edge : barrel_edge p c i = Some edge -> exists pressed, edge = Barrel i pressed.
Proof. unfold barrel_edge. destruct (negb _); [|done]. intros [= <-]. by eexists. Qed.

Lemma buttons_via_device b contact edges : forall st d, Forall (fun e => exists i p, e = Barrel i p /\ i < deliverable_buttons b) edges ->
  inject_all (st_device st) edges = Some d ->
  run_ops b contact st (omap button_of edges) = Some (mkStylus d (st_erasing st) (st_axes st)).
Proof.
  induction edges as [|e edges IH]; intros st d Hall Hrun; [cbn in Hrun; injection Hrun as <-; by destruct st|].
  apply Forall_cons in Hall as [(i & p & -> & Hi) Hall]. cbn [omap list_omap button_of run_ops op_step].
  rewrite (proj2 (Z.ltb_lt _ _) Hi). unfold via_device. cbn [inject_all] in Hrun.
  destruct (inject (st_device st) (Barrel i p)) as [d1|] eqn:E; [|done]. cbn [mbind option_bind] in *.
  by rewrite (IH (mkStylus d1 (st_erasing st) (st_axes st)) d Hall Hrun).
Qed.

Lemma barrel_edges_below b p c l : (forall i, i ∈ l -> i < deliverable_buttons b) ->
  Forall (fun e => exists i q, e = Barrel i q /\ i < deliverable_buttons b) (omap (barrel_edge p c) l).
Proof.
  intros Hl. apply Forall_forall. intros e He. apply list_elem_of_omap in He as (i & Hi & He).
  destruct (barrel_edge_Barrel _ _ _ _ He) as [q ->]. eauto.
Qed.

(** The button operations bring the delivered buttons to the new mask. *)
Lemma button_ops_run b contact p c tip e pr : 0 <= bind_barrel_buttons b ->
  run_ops b contact (mkStylus (mkDevice (Some Tip) tip (delivered b p)) e pr) (button_ops b p c)
  = Some (mkStylus (mkDevice (Some Tip) tip (delivered b c)) e pr).
Proof.
  intros Hb. pose proof (deliverable_range b Hb) as Hd. pose proof (delivered_testbit b) as Ht.
  destruct (barrel_loop p c Tip tip (delivered b p) (range (deliverable_buttons b))) as (held & Hrun & Hbits).
  - apply NoDup_seqZ.
  - intros i Hi%elem_of_range. split; [unfold MAX_BARREL_BUTTONS; lia|].
    rewrite Ht, (proj2 (Z.ltb_lt _ _)), andb_true_r by lia. done.
  - unfold button_ops. erewrite buttons_via_device; [|by apply barrel_edges_below; intros i Hi%elem_of_range; lia|exact Hrun].
    cbn. do 3 f_equal. apply Z.bits_inj'. intros j Hj. rewrite Hbits, !Ht by done.
    destruct (bool_decide_reflect (j ∈ range (deliverable_buttons b))) as [Hin|Hin]; rewrite elem_of_range in Hin.
    + rewrite (proj2 (Z.ltb_lt _ _)) by lia. by rewrite andb_true_r.
    + rewrite (proj2 (Z.ltb_ge _ _)) by lia. by rewrite !andb_false_r.
Qed.

(** *** What the edges become *)

Definition with_frame (w : Framing) (dropped : Z) (ops : list StylusOp) : Framing :=
  mkFraming (fr_sent w) dropped (fr_frames w) (fr_frame w ++ ops) (fr_entered w).

Lemma barrel_push b next axes p c l : forall w, (forall i, i ∈ l -> i < deliverable_buttons b) ->
  fold_left (frame_edge b next axes) (omap (barrel_edge p c) l) w
  = with_frame w (fr_dropped w) (omap button_of (omap (barrel_edge p c) l)).
Proof.
  induction l as [|i l IH]; intros w Hl; [destruct w; unfold with_frame; cbn; by rewrite app_nil_r|].
  assert (forall j, j ∈ l -> j < deliverable_buttons b) as Hl' by (intros j Hj; by apply Hl, list_elem_of_further).
  cbn [omap list_omap]. destruct (barrel_edge p c i) as [e|] eqn:E; [|by apply IH].
  destruct (barrel_edge_Barrel _ _ _ _ E) as [q ->]. cbn [fold_left frame_edge omap list_omap button_of].
  rewrite (proj2 (Z.ltb_lt i _)) by (apply Hl, list_elem_of_here). rewrite (IH _ Hl'). unfold with_frame. cbn. by rewrite <- app_assoc.
Qed.

Lemma barrel_drop b next axes p c l : forall w, (forall i, i ∈ l -> deliverable_buttons b <= i) ->
  exists dropped, fold_left (frame_edge b next axes) (omap (barrel_edge p c) l) w = with_frame w dropped [].
Proof.
  induction l as [|i l IH]; intros w Hl; [exists (fr_dropped w); destruct w; unfold with_frame; cbn; by rewrite app_nil_r|].
  assert (forall j, j ∈ l -> deliverable_buttons b <= j) as Hl' by (intros j Hj; by apply Hl, list_elem_of_further).
  cbn [omap list_omap]. destruct (barrel_edge p c i) as [e|] eqn:E; [|by apply IH].
  destruct (barrel_edge_Barrel _ _ _ _ E) as [q ->]. cbn [fold_left frame_edge].
  rewrite (proj2 (Z.ltb_ge i _)) by (apply Hl, list_elem_of_here). edestruct IH as [dropped ->]; [exact Hl'|]. by exists dropped.
Qed.

Lemma plan_barrel_range p c : plan_barrel_edges p c = omap (barrel_edge p c) (range MAX_BARREL_BUTTONS).
Proof.
  unfold plan_barrel_edges. destruct (Z.eqb_spec (Z.lxor p c) 0) as [->%Z.lxor_eq|_]; [|done].
  generalize (range MAX_BARREL_BUTTONS). intros l. induction l as [|i l IH]; [done|].
  cbn [omap list_omap]. unfold barrel_edge at 1. by rewrite Z.lxor_nilpotent.
Qed.

Lemma barrel_frames b next axes p c w : 0 <= bind_barrel_buttons b ->
  exists dropped, fold_left (frame_edge b next axes) (plan_barrel_edges p c) w = with_frame w dropped (button_ops b p c).
Proof.
  intros Hb%deliverable_range. rewrite plan_barrel_range. unfold range.
  replace MAX_BARREL_BUTTONS with (deliverable_buttons b + (MAX_BARREL_BUTTONS - deliverable_buttons b)) by lia.
  rewrite seqZ_app, omap_app, fold_left_app by (unfold MAX_BARREL_BUTTONS; lia).
  rewrite (barrel_push b next axes p c (seqZ 0 (deliverable_buttons b))) by (intros i Hi%elem_of_seqZ; lia).
  destruct (barrel_drop b next axes p c (seqZ (0 + deliverable_buttons b) (MAX_BARREL_BUTTONS - deliverable_buttons b))
    (with_frame w (fr_dropped w) (omap button_of (omap (barrel_edge p c) (seqZ 0 (deliverable_buttons b)))))) as [dropped ->];
    [intros i Hi%elem_of_seqZ; lia|]. exists dropped. unfold with_frame, button_ops, range. cbn. by rewrite app_nil_r.
Qed.

Lemma has_app l l' op : has (l ++ l') op = has l op || has l' op.
Proof. unfold has. rewrite (bool_decide_ext _ (op ∈ l \/ op ∈ l')) by apply elem_of_app. apply bool_decide_or. Qed.

Lemma has_cons x l op : has (x :: l) op = bool_decide (op = x) || has l op.
Proof. unfold has. rewrite (bool_decide_ext _ (op = x \/ op ∈ l)) by apply elem_of_cons. apply bool_decide_or. Qed.

Lemma has_nil op : has [] op = false.
Proof. done. Qed.

Definition is_button (op : StylusOp) : bool := match op with OpButton _ _ => true | _ => false end.

Lemma button_ops_buttons b p c : Forall (fun op => is_button op = true) (button_ops b p c).
Proof.
  apply Forall_forall. intros op Hop. unfold button_ops in Hop. apply list_elem_of_omap in Hop as (e & He & Hop).
  apply list_elem_of_omap in He as (i & _ & He). destruct (barrel_edge_Barrel _ _ _ _ He) as [q ->]. by injection Hop as <-.
Qed.

Lemma has_buttons b p c op : is_button op = false -> has (button_ops b p c) op = false.
Proof.
  intros Hop. apply bool_decide_eq_false_2. intros Hin. pose proof (button_ops_buttons b p c) as H. rewrite Forall_forall in H.
  by rewrite (H _ Hin) in Hop.
Qed.

Lemma existsb_buttons b p c f : (forall i q, f (OpButton i q) = false) -> existsb f (button_ops b p c) = false.
Proof.
  intros Hf. pose proof (button_ops_buttons b p c) as H. induction H as [|op l Hop _ IH]; [done|]. destruct op; try done.
  cbn. by rewrite Hf.
Qed.

Lemma filter_buttons b p c f : (forall i q, f (OpButton i q) = false) -> List.filter f (button_ops b p c) = [].
Proof.
  intros Hf. pose proof (button_ops_buttons b p c) as H. induction H as [|op l Hop _ IH]; [done|]. destruct op; try done.
  cbn. by rewrite Hf.
Qed.

Definition tip_ops (before after : bool) : list StylusOp := if negb (eqb after before) then [if after then OpTipDown else OpTipUp] else [].
Definition tip_edges (before after : bool) : list PenEdge := if negb (eqb after before) then [if after then TipDown else TipUp] else [].

Lemma press_frames b next axes p c t0 t1 w : 0 <= bind_barrel_buttons b ->
  has (fr_frame w) OpTipDown = false -> has (fr_frame w) OpTipUp = false ->
  exists dropped, fold_left (frame_edge b next axes) (plan_barrel_edges p c ++ tip_edges t0 t1) w
    = with_frame w dropped (button_ops b p c ++ tip_ops t0 t1).
Proof.
  intros Hb Hd Hu. rewrite fold_left_app. destruct (barrel_frames b next axes p c w Hb) as [dropped ->]. exists dropped.
  unfold tip_edges, tip_ops. destruct (negb (eqb t1 t0)); [|by rewrite app_nil_r].
  destruct t1; cbn [fold_left frame_edge]; unfold with_frame; cbn [fr_frame]; rewrite has_app, Hd || rewrite has_app, Hu;
    rewrite has_buttons by done; cbn [orb]; unfold push_op; cbn; by rewrite app_assoc.
Qed.

(** The frame that leaves, the frame that enters and the frame of a stay. *)
Definition leave_frame (b : StylusBinding) (p : Z) (tip : bool) : StylusFrame := (button_ops b p 0 ++ tip_ops tip false) ++ [OpProximityOut].

Definition enter_frame (b : StylusBinding) (tool : PenTool) (a : SentAxes) (touching : bool) (c : Z) : StylusFrame :=
  ((push_all_axes b [OpProximityIn] a touching).1 ++ (if bool_decide (tool = Eraser) && bind_erase b then [OpEraseStart] else []))
  ++ button_ops b 0 c ++ tip_ops false touching.

Lemma tip_ops_run b contact tool t0 t1 held e pr :
  run_ops b contact (mkStylus (mkDevice (Some tool) t0 held) e pr) (tip_ops t0 t1) = Some (mkStylus (mkDevice (Some tool) t1 held) e pr).
Proof. by destruct t0, t1. Qed.

Lemma leave_frame_step b p tip e pr : 0 <= bind_barrel_buttons b ->
  frame_step b (mkStylus (mkDevice (Some Tip) tip (delivered b p)) e pr) (leave_frame b p tip) = Some no_stylus.
Proof.
  intros Hb. unfold frame_step, frame_consistent, frame_complete, leave_frame, at_most_once.
  rewrite !has_app, !has_cons, !has_nil, !has_buttons, !List.filter_app, !filter_buttons by done.
  assert (bool_decide ((button_ops b p 0 ++ tip_ops tip false) ++ [OpProximityOut] = []) = false) as ->
    by (apply bool_decide_eq_false_2; by destruct (button_ops b p 0 ++ tip_ops tip false)).
  rewrite !run_ops_app, button_ops_run by done. cbn [mbind option_bind]. rewrite tip_ops_run.
  by destruct tip.
Qed.

Lemma contact_pressure_positive p : float_nan p = false -> SFltb f32_zero (contact_pressure p true) = true.
Proof.
  intros Hn. unfold contact_pressure. cbn [andb].
  assert (exists m e, MIN_CONTACT_PRESSURE = S754_finite false m e) as (m & e & Hm) by (eexists _, _; by vm_compute).
  rewrite Hm. destruct (SFltb p (S754_finite false m e)) eqn:E; [done|].
  destruct p as [s|[]| |[] n f]; done.
Qed.

Definition erase_ops (b : StylusBinding) (tool : PenTool) : list StylusOp :=
  if bool_decide (tool = Eraser) && bind_erase b then [OpEraseStart] else [].

Lemma enter_axes_run b contact a touching :
  run_ops b contact no_stylus (push_all_axes b [OpProximityIn] a touching).1
  = Some (mkStylus (mkDevice (Some Tip) false 0) false (given b (touched touching a))).
Proof. destruct b as [[] [] [] be bb], contact, a as [x y p [tx ty] r]; done. Qed.

Lemma erase_ops_run b contact tool d pr : (tool = Eraser -> bind_erase b = true) -> is_some (dev_tool d) = true ->
  run_ops b contact (mkStylus d false pr) (erase_ops b tool) = Some (mkStylus d (bool_decide (tool = Eraser)) pr).
Proof.
  intros He Hd. unfold erase_ops. case_bool_decide as E; [|done]. rewrite (He E). cbn. unfold present. cbn. by rewrite Hd, (He E).
Qed.

Lemma enter_frame_shape b tool a touching c :
  frame_consistent (enter_frame b tool a touching c) && frame_complete b (enter_frame b tool a touching c) = true.
Proof.
  unfold frame_consistent, frame_complete, enter_frame, push_all_axes, at_most_once. cbn [fst].
  rewrite !has_app, !existsb_app, !has_cons, !has_nil, !has_buttons, !existsb_buttons, !List.filter_app, !filter_buttons by done.
  destruct b as [[] [] [] [] bb], (bool_decide (tool = Eraser)), touching; done.
Qed.

Lemma enter_frame_step b tool a touching c : 0 <= bind_barrel_buttons b -> float_nan (sent_pressure a) = false ->
  (tool = Eraser -> bind_erase b = true) ->
  frame_step b no_stylus (enter_frame b tool a touching c)
  = Some (mkStylus (mkDevice (Some Tip) touching (delivered b c)) (bool_decide (tool = Eraser))
            (given b (touched touching a))).
Proof.
  intros Hb Hn He. unfold frame_step. rewrite enter_frame_shape. unfold enter_frame. fold (erase_ops b tool).
  match goal with |- context [run_ops b (has ?f ?op)] => generalize (has f op) end.
  intros contact. rewrite !run_ops_app, enter_axes_run. cbn [mbind option_bind]. rewrite erase_ops_run by done. cbn [mbind option_bind].
  rewrite run_ops_app. change 0 with (delivered b 0) at 1. rewrite button_ops_run by done. cbn [mbind option_bind]. rewrite tip_ops_run.
  cbn [mbind option_bind]. unfold pressed. cbn [st_device dev_tip st_axes]. destruct touching; [|done].
  unfold given. cbn [ax_pressure]. destruct (bind_pressure b); [|done]. cbn. by rewrite contact_pressure_positive.
Qed.

(** What a stay adds after the buttons and the tip. *)
Definition stay_frame (b : StylusBinding) (previous a : SentAxes) (t0 t1 : bool) (p c : Z) : StylusFrame :=
  (push_changed_axes b (Some previous) (button_ops b p c ++ tip_ops t0 t1) a t1).1.

(** What is restated of an axis is what differs. *)
Lemma motion_run b contact d e previous a pr ti ro : is_some (dev_tool d) = true ->
  run_ops b contact (mkStylus d e (mkAxes (Some (sent_x previous, sent_y previous)) pr ti ro))
    (if differs (sent_x a) (sent_x previous) || differs (sent_y a) (sent_y previous) then [OpMotion (sent_x a) (sent_y a)] else [])
  = Some (mkStylus d e (mkAxes (Some (sent_x a, sent_y a)) pr ti ro)).
Proof.
  intros Hd. destruct previous as [px py pp pt prot]. unfold differs. cbn [sent_x sent_y].
  do 2 case_bool_decide; cbn [negb orb run_ops]; try (simplify_eq; done); cbn; unfold present; cbn; rewrite Hd;
    rewrite bool_decide_eq_false_2 by congruence; done.
Qed.

Lemma pressure_run b contact d e q p po ti ro : is_some (dev_tool d) = true ->
  run_ops b contact (mkStylus d e (mkAxes po (if bind_pressure b then Some p else None) ti ro))
    (if bind_pressure b && (differs q p || contact) then [OpPressure q] else [])
  = Some (mkStylus d e (mkAxes po (if bind_pressure b then Some q else None) ti ro)).
Proof.
  intros Hd. unfold differs. destruct (bind_pressure b) eqn:E; [|done]. cbn [andb].
  case_bool_decide; destruct contact; cbn [negb orb run_ops]; try (simplify_eq; done); cbn; unfold present; cbn; rewrite Hd, E;
    try rewrite bool_decide_eq_false_2 by congruence; done.
Qed.

Lemma tilt_run b contact d e x y p po pr ro : is_some (dev_tool d) = true ->
  run_ops b contact (mkStylus d e (mkAxes po pr (if bind_tilt b then Some p else None) ro))
    (if bind_tilt b && (differs x p.1 || differs y p.2) then [OpTilt x y] else [])
  = Some (mkStylus d e (mkAxes po pr (if bind_tilt b then Some (x, y) else None) ro)).
Proof.
  intros Hd. destruct p as [px py]. unfold differs. destruct (bind_tilt b) eqn:E; [|done]. cbn [andb fst snd].
  do 2 case_bool_decide; cbn [negb orb run_ops]; try (simplify_eq; done); cbn; unfold present; cbn; rewrite Hd, E;
    rewrite bool_decide_eq_false_2 by congruence; done.
Qed.

Lemma rotation_run b contact d e r p po pr ti : is_some (dev_tool d) = true ->
  run_ops b contact (mkStylus d e (mkAxes po pr ti (if bind_rotation b then Some p else None)))
    (if bind_rotation b && differs r p then [OpRotation r] else [])
  = Some (mkStylus d e (mkAxes po pr ti (if bind_rotation b then Some r else None))).
Proof.
  intros Hd. unfold differs. destruct (bind_rotation b) eqn:E; [|done]. cbn [andb].
  case_bool_decide; cbn [negb run_ops]; try (simplify_eq; done); cbn; unfold present; cbn; rewrite Hd, E;
    rewrite bool_decide_eq_false_2 by congruence; done.
Qed.

Definition is_axis (op : StylusOp) : bool := is_motion op || is_pressure op || is_tilt op || is_rotation op.

Lemma Forall_if {A} (P : A -> Prop) (c : bool) x : P x -> Forall P (if c then [x] else []).
Proof. intros H. destruct c; [by apply Forall_cons_2|done]. Qed.

Lemma stay_axes_run b previous a t0 t1 p c d e : is_some (dev_tool d) = true ->
  exists ops, stay_frame b previous a t0 t1 p c = (button_ops b p c ++ tip_ops t0 t1) ++ ops
    /\ Forall (fun op => is_axis op = true) ops
    /\ at_most_once is_motion ops && at_most_once is_pressure ops && at_most_once is_tilt ops && at_most_once is_rotation ops = true
    /\ run_ops b (has (button_ops b p c ++ tip_ops t0 t1) OpTipDown) (mkStylus d e (given b previous)) ops
       = Some (mkStylus d e (given b (touched t1 a))).
Proof.
  intros Hd. unfold stay_frame, push_changed_axes. cbn [fst]. generalize (button_ops b p c ++ tip_ops t0 t1). intros f.
  rewrite <- app_assoc. eexists. split; [reflexivity|].
  assert (has (f ++ (if differs (sent_x a) (sent_x previous) || differs (sent_y a) (sent_y previous)
    then [OpMotion (sent_x a) (sent_y a)] else [])) OpTipDown = has f OpTipDown) as ->.
  { rewrite has_app. destruct (differs (sent_x a) _ || _); [|by rewrite orb_false_r]. rewrite has_cons, has_nil, bool_decide_eq_false_2 by done. by rewrite orb_false_r. }
  split_and!.
  - rewrite !Forall_app. split_and!; by apply Forall_if.
  - unfold at_most_once. rewrite !List.filter_app.
    by repeat match goal with |- context [if ?c then [_] else []] => destruct c end.
  - rewrite run_ops_app. unfold given at 1. rewrite motion_run by done. cbn [mbind option_bind].
    rewrite run_ops_app, pressure_run by done. cbn [mbind option_bind]. rewrite run_ops_app, tilt_run by done. cbn [mbind option_bind].
    rewrite rotation_run by done. unfold given. cbn. by destruct (sent_tilt a).
Qed.

Lemma has_none (f : StylusOp -> bool) ops op : Forall (fun x => f x = true) ops -> f op = false -> has ops op = false.
Proof.
  intros H Hop. apply bool_decide_eq_false_2. intros Hin. rewrite Forall_forall in H. by rewrite (H _ Hin) in Hop.
Qed.

Lemma at_most_once_press b p c t0 t1 ops f : (forall i q, f (OpButton i q) = false) -> f OpTipDown = false -> f OpTipUp = false ->
  at_most_once f ((button_ops b p c ++ tip_ops t0 t1) ++ ops) = at_most_once f ops.
Proof.
  intros Hb Hd Hu. unfold at_most_once. rewrite !List.filter_app, filter_buttons by done.
  destruct t0, t1; cbn; by rewrite ?Hd, ?Hu.
Qed.

(** The frames of a stay: one frame, or none when nothing changed. *)
Lemma stay_frame_step b previous a t0 t1 p c e : 0 <= bind_barrel_buttons b -> float_nan (sent_pressure a) = false ->
  let f := stay_frame b previous a t0 t1 p c in
  run_frames b (mkStylus (mkDevice (Some Tip) t0 (delivered b p)) e (given b previous)) (match f with [] => [] | _ => [f] end)
  = Some (mkStylus (mkDevice (Some Tip) t1 (delivered b c)) e (given b (touched t1 a))).
Proof.
  intros Hb Hn. cbv zeta. destruct (stay_axes_run b previous a t0 t1 p c (mkDevice (Some Tip) t1 (delivered b c)) e eq_refl)
    as (ops & Ef & Hall & Honce & Hrun). rewrite Ef. set (st := mkStylus _ _ _). set (target := Some _).
  set (contact := has (button_ops b p c ++ tip_ops t0 t1) OpTipDown) in *.
  assert (run_ops b contact st ((button_ops b p c ++ tip_ops t0 t1) ++ ops) = target) as Hops.
  { subst st target. rewrite !run_ops_app, button_ops_run by done. cbn [mbind option_bind]. by rewrite tip_ops_run. }
  assert (has ((button_ops b p c ++ tip_ops t0 t1) ++ ops) OpTipDown = contact) as Hc.
  { rewrite has_app, (has_none _ _ _ Hall) by done. by rewrite orb_false_r. }
  destruct ((button_ops b p c ++ tip_ops t0 t1) ++ ops) as [|x l] eqn:El; [exact Hops|].
  cbn [run_frames]. rewrite <- El in *. clear Ef. unfold frame_step, frame_consistent, frame_complete.
  rewrite Hc, Hops, !at_most_once_press by done. rewrite !andb_true_iff in Honce. destruct Honce as [[[-> ->] ->] ->].
  assert (bool_decide ((button_ops b p c ++ tip_ops t0 t1) ++ ops = []) = false) as -> by (rewrite El; by apply bool_decide_eq_false_2).
  clear Hc Hops. subst contact. rewrite !has_app, !has_buttons, !(has_none _ _ _ Hall) by done. subst target. cbn [mbind option_bind].
  unfold pressed, given, touched, with_pressure. cbn [st_device dev_tip st_axes ax_pressure sent_pressure].
  destruct t0, t1, (bind_pressure b); cbn; rewrite ?(contact_pressure_positive _ Hn); done.
Qed.

Lemma out_fold b next axes s tool sent dropped : 0 <= bind_barrel_buttons b ->
  exists dropped', fold_left (frame_edge b next axes) (release_held s ++ [ToolOut tool]) (mkFraming sent dropped [] [] false)
    = mkFraming None dropped' [leave_frame b (tool_buttons s) (tool_touching s)] [] false.
Proof.
  intros Hb. rewrite fold_left_app.
  destruct (press_frames b next axes (tool_buttons s) 0 (tool_touching s) false (mkFraming sent dropped [] [] false) Hb eq_refl eq_refl) as [d Hd].
  exists d. unfold release_held. replace (if tool_touching s then [TipUp] else []) with (tip_edges (tool_touching s) false) by by destruct (tool_touching s).
  rewrite Hd. done.
Qed.

Lemma in_fold b next a tool c sent dropped fs : 0 <= bind_barrel_buttons b ->
  exists dropped', fold_left (frame_edge b next (Some a)) ([ToolIn tool] ++ plan_barrel_edges 0 c ++ tip_edges false (tool_touching next))
      (mkFraming sent dropped fs [] false)
    = mkFraming (Some (touched (tool_touching next) a)) dropped' fs
        (enter_frame b tool a (tool_touching next) c) true.
Proof.
  intros Hb. rewrite fold_left_app. cbn [fold_left frame_edge fr_frame]. rewrite has_nil.
  set (w := mkFraming (Some (touched (tool_touching next) a)) dropped fs
    ((push_all_axes b [OpProximityIn] a (tool_touching next)).1 ++ erase_ops b tool) true).
  assert (frame_edge b next (Some a) (mkFraming sent dropped fs [] false) (ToolIn tool) = w) as E.
  { unfold w, frame_edge, erase_ops, push_all_axes. cbn. by destruct (bool_decide _ && _); rewrite ?app_nil_r. }
  cbn [frame_edge fr_frame] in E. rewrite has_nil in E. rewrite E. clear E.
  destruct (press_frames b next (Some a) 0 c false (tool_touching next) w Hb) as [d Hd].
  - subst w. cbn [fr_frame]. unfold erase_ops. by destruct b as [[] [] [] [] bb], (bool_decide (tool = Eraser)).
  - subst w. cbn [fr_frame]. unfold erase_ops. by destruct b as [[] [] [] [] bb], (bool_decide (tool = Eraser)).
  - exists d. rewrite Hd. done.
Qed.

(** *** The emulator *)

(** What the emulator remembers after an entry or a stay. *)
Lemma emulator_present b tool touching buttons a dropped withheld : 0 <= bind_barrel_buttons b -> float_nan (sent_pressure a) = false ->
  (tool = Eraser -> bind_erase b = true) ->
  emulator_inv (mkEmulator b (mkTool true touching buttons tool) (Some (touched touching a)) dropped withheld).
Proof.
  intros Hb Hn He. constructor; cbn; try done. unfold pressed, stylus_of. cbn. destruct touching; [|done].
  destruct (bind_pressure b); [|done]. cbn. by rewrite (contact_pressure_positive _ Hn).
Qed.

Lemma emulator_away b tool dropped withheld : 0 <= bind_barrel_buttons b ->
  emulator_inv (mkEmulator b (released tool) None dropped withheld).
Proof. intros Hb. by constructor; cbn. Qed.

Lemma stylus_away b tool dropped withheld : stylus_of (mkEmulator b (released tool) None dropped withheld) = no_stylus.
Proof. unfold stylus_of, no_stylus. cbn. by destruct (bind_pressure b). Qed.

Lemma stylus_present b tool touching buttons a dropped withheld :
  stylus_of (mkEmulator b (mkTool true touching buttons tool) (Some a) dropped withheld)
  = mkStylus (mkDevice (Some Tip) touching (delivered b buttons)) (bool_decide (tool = Eraser)) (given b a).
Proof. done. Qed.

Lemma frames_spec em tool in_proximity touching buttons axes : emulator_inv em ->
  (in_proximity = true -> tool = Eraser -> bind_erase (em_binding em) = true) ->
  match axes with Some a => float_nan (sent_pressure a) = false | None => in_proximity = false end ->
  let '(edges, next) := plan_pen_edges (em_tool em) tool in_proximity touching buttons in
  let '(fs, em') := frames em edges next axes in
  emulator_inv (set_tool next em') /\ em_binding em' = em_binding em
  /\ run_frames (em_binding em) (stylus_of em) fs = Some (stylus_of (set_tool next em'))
  /\ (in_proximity = true -> forall a, axes = Some a ->
      stylus_of (set_tool next em')
      = mkStylus (mkDevice (Some Tip) touching (delivered (em_binding em) buttons)) (bool_decide (tool = Eraser))
          (given (em_binding em) (touched touching a))).
Proof.
  intros [Hb Hrest Hsent Herase Hpr] He Haxes. destruct em as [b [q t0 p e0] sent dropped wh].
  cbn [em_binding em_tool em_sent tool_in_proximity tool_end tool_touching tool_buttons] in *.
  unfold plan_pen_edges. cbn [tool_in_proximity tool_end tool_touching tool_buttons].
  destruct q, in_proximity; cbn [andb orb negb].
  - destruct axes as [a|]; [|done]. destruct sent as [previous|]; [|done]. case_bool_decide as Et; cbn [negb andb orb].
    + (* a stay *)
      subst e0. cbn [tool_touching tool_buttons app]. unfold frames. cbn [em_binding em_sent em_dropped_buttons em_tool em_withheld_erasers].
      destruct (press_frames b (mkTool true touching buttons tool) (Some a) p buttons t0 touching (mkFraming (Some previous) dropped [] [] false)
        Hb eq_refl eq_refl) as [d Hd]. unfold tip_edges in Hd. rewrite Hd. clear Hd. unfold with_frame.
      cbn [fr_frame fr_sent fr_dropped fr_frames fr_entered tool_in_proximity tool_touching andb negb app push_changed_axes].
      split; [|split; [done|split; [|by intros _ a' [= <-]]]].
      * by apply emulator_present; [..|apply He].
      * unfold set_tool. cbn [em_binding em_sent em_dropped_buttons em_withheld_erasers]. rewrite !stylus_present.
        apply (stay_frame_step b previous a t0 touching p buttons (bool_decide (tool = Eraser)) Hb Haxes).
    + (* a swap *)
      rewrite <- !app_assoc, (app_assoc (release_held _)). unfold frames. cbn [em_binding em_sent em_dropped_buttons em_tool em_withheld_erasers].
      rewrite fold_left_app. destruct (out_fold b (mkTool true touching buttons tool) (Some a) (mkTool true t0 p e0) e0 (Some previous) dropped Hb) as [d ->].
      destruct (in_fold b (mkTool true touching buttons tool) a tool buttons None d [leave_frame b p t0] Hb) as [d' Hd'].
      cbn [tool_buttons tool_touching] in *. cbn [released tool_buttons tool_touching]. unfold tip_edges in Hd'. rewrite Hd'. clear Hd'.
      cbn [fr_frame fr_sent fr_dropped fr_frames fr_entered tool_in_proximity tool_touching andb negb app].
      split; [|split; [done|split; [|by intros _ a' [= <-]]]].
      * by apply emulator_present; [..|apply He].
      * unfold set_tool. cbn [em_binding em_sent em_dropped_buttons em_withheld_erasers]. rewrite !stylus_present.
        assert ((match enter_frame b tool a touching buttons with [] => [] | _ :: _ => [enter_frame b tool a touching buttons] end)
          = [enter_frame b tool a touching buttons]) as -> by done.
        cbn [run_frames]. rewrite leave_frame_step by done. cbn [mbind option_bind].
        by rewrite enter_frame_step; [|done..|apply He].
  - (* the tool leaves *)
    unfold frames. cbn [em_binding em_sent em_dropped_buttons em_tool em_withheld_erasers].
    destruct (out_fold b (released tool) axes (mkTool true t0 p e0) e0 sent dropped Hb) as [d Hd].
    cbn [tool_end] in *. rewrite Hd. clear Hd. cbn [fr_frame fr_sent fr_dropped fr_frames fr_entered tool_in_proximity released andb tool_buttons tool_touching].
    assert ((match axes with Some _ | None => ([] : StylusFrame, None : option SentAxes) end) = ([], None)) as -> by by destruct axes.
    destruct sent as [previous|]; [|done]. rewrite app_nil_r. unfold set_tool. cbn [em_binding em_sent em_dropped_buttons em_withheld_erasers].
    rewrite stylus_present, stylus_away. split; [by apply emulator_away|]. split; [done|]. split; [|done]. cbn [run_frames].
    rewrite leave_frame_step by done. done.
  - (* the tool enters *)
    destruct axes as [a|]; [|done]. destruct sent as [previous|]; [done|]. injection (Hrest eq_refl) as -> ->.
    cbn [app]. unfold frames. cbn [em_binding em_sent em_dropped_buttons em_tool em_withheld_erasers].
    destruct (in_fold b (mkTool true touching buttons tool) a tool buttons None dropped [] Hb) as [d' Hd'].
    cbn [tool_touching app] in Hd'. cbn [released tool_buttons tool_touching]. unfold tip_edges in Hd'. rewrite Hd'. clear Hd'.
    cbn [fr_frame fr_sent fr_dropped fr_frames fr_entered tool_in_proximity tool_touching andb negb app].
    unfold set_tool. cbn [em_binding em_sent em_dropped_buttons em_withheld_erasers]. split; [|split; [done|split; [|by intros _ a' [= <-]]]].
    + by apply emulator_present; [..|apply He].
    + change (mkTool false false 0 e0) with (released e0). rewrite stylus_away, stylus_present.
      assert ((match enter_frame b tool a touching buttons with [] => [] | _ :: _ => [enter_frame b tool a touching buttons] end)
        = [enter_frame b tool a touching buttons]) as -> by done.
      cbn [run_frames]. by rewrite enter_frame_step; [|done..|apply He].
  - (* it stays away *)
    destruct sent as [previous|]; [done|]. injection (Hrest eq_refl) as -> ->. cbn [app].
    assert (frames (mkEmulator b (mkTool false false 0 e0) None dropped wh) [] (mkTool false false 0 tool) axes
      = ([], mkEmulator b (mkTool false false 0 e0) None dropped wh)) as -> by (unfold frames; by destruct axes).
    change (mkTool false false 0 e0) with (released e0). change (mkTool false false 0 tool) with (released tool).
    unfold set_tool. cbn [em_binding em_sent em_dropped_buttons em_withheld_erasers run_frames].
    rewrite !stylus_away. split; [by apply emulator_away|]. by split_and!.
Qed.

Lemma check_finite_pressure s : is_ok (check_finite s) = true -> RegionInput.is_finite (smp_pressure s) = true.
Proof.
  unfold check_finite, sample_fields. cbn [List.find snd]. destruct (Float64.is_finite (smp_x s)), (Float64.is_finite (smp_y s)); try done.
  cbn. by destruct (RegionInput.is_finite (smp_pressure s)).
Qed.

(** A sample of a tool that the stylus shows: the stylus is the sample's. *)
Lemma sample_spec em s : emulator_inv em ->
  match plan em s with
  | (Ok fs, em') =>
    emulator_inv em' /\ em_binding em' = em_binding em /\ run_frames (em_binding em) (stylus_of em) fs = Some (stylus_of em')
    /\ (smp_in_proximity s = true -> withheld (em_binding em) s = false -> stylus_of em' = sampled (em_binding em) s)
  | (Err _, em') => em' = em
  end.
Proof.
  intros Hinv. unfold plan. destruct (check_finite s) as [u|]; [|done].
  set (w := withheld (em_binding em) s). set (q := if w then false else smp_in_proximity s).
  set (em1 := if w then _ else em).
  assert (emulator_inv em1 /\ em_binding em1 = em_binding em /\ stylus_of em1 = stylus_of em) as (Hinv1 & Hb1 & Hs1).
  { subst em1. destruct w; [|done]. split; [|done]. destruct Hinv. by constructor. }
  assert (em_tool em1 = em_tool em) as Ht by (subst em1; by destruct w). clearbody em1.
  pose proof (frames_spec em1 (smp_tool s) q (smp_touching s) (smp_buttons s) (Some (axes_of s)) Hinv1) as H. rewrite Ht in H |- *.
  destruct (plan_pen_edges _ _ _ _ _) as [edges next]. destruct (frames em1 edges next _) as [fs em2].
  rewrite Hb1, Hs1 in H. destruct H as (H1 & H2 & H3 & H4).
  - intros Hq He. subst q w. unfold withheld in Hq. rewrite He, bool_decide_eq_true_2, andb_true_r in Hq by done.
    by destruct (smp_in_proximity s), (bind_erase (em_binding em)).
  - apply clamp_pressure_number.
  - split_and!; [done..|]. intros Hp Hw. apply H4; [|done]. subst q. by rewrite Hw.
Qed.

Lemma stylus_input_spec em i : emulator_inv em ->
  let '(fs, em') := stylus_input em i in
  emulator_inv em' /\ em_binding em' = em_binding em /\ run_frames (em_binding em) (stylus_of em) fs = Some (stylus_of em').
Proof.
  intros Hinv. destruct i as [s|]; cbn [stylus_input].
  - pose proof (sample_spec em s Hinv) as H. destruct (plan em s) as [[fs|] em']; [by destruct H as (? & ? & ? & _)|by subst em'].
  - unfold release. pose proof (frames_spec em (tool_end (em_tool em)) false false 0 None Hinv) as H.
    destruct (plan_pen_edges _ _ _ _ _) as [edges next]. destruct (frames em edges next None) as [fs em2].
    by destruct H as (? & ? & ? & _).
Qed.

Lemma stylus_run_spec inputs : forall em, emulator_inv em ->
  let '(fs, em') := stylus_run em inputs in
  emulator_inv em' /\ em_binding em' = em_binding em /\ run_frames (em_binding em) (stylus_of em) fs = Some (stylus_of em').
Proof.
  induction inputs as [|i inputs IH]; intros em Hinv; [by split|]. cbn [stylus_run].
  pose proof (stylus_input_spec em i Hinv) as H. destruct (stylus_input em i) as [fs em1]. destruct H as (H1 & Hb1 & Hr1).
  pose proof (IH em1 H1) as H. destruct (stylus_run em1 inputs) as [gs em2]. destruct H as (H2 & Hb2 & Hr2).
  split; [done|]. split; [congruence|]. by rewrite run_frames_app, Hr1, <- Hb1.
Qed.

Lemma stylus_gone em : emulator_inv em -> tool_in_proximity (em_tool em) = false -> stylus_of em = no_stylus.
Proof.
  intros [_ Hrest Hsent _ _] Hq. destruct em as [b t sent d w]. cbn in *. rewrite Hq in Hsent. destruct sent; [done|].
  rewrite (Hrest Hq). apply stylus_away.
Qed.

Lemma frames_tool em edges next axes : (let '(fs, em') := frames em edges next axes in em_tool (set_tool next em')) = next.
Proof. unfold frames. by destruct (match axes with Some _ => _ | None => _ end). Qed.

Lemma check_finite_ok s : is_ok (check_finite s) = true <-> Forall (fun f => f.2 = true) (sample_fields s).
Proof.
  unfold check_finite. induction (sample_fields s) as [|[f v] l IH]; [by split|]. cbn [List.find snd].
  rewrite Forall_cons. cbn [snd]. destruct v; cbn; [rewrite IH|]; naive_solver.
Qed.

(** C28: An emulated stylus keeps to its protocol.  Whatever samples and
    releases it is given, the compositor accepts every frame it sends: no
    empty frame; no frame that brings a tool in and takes one away, that
    presses and lifts the tip, that starts and stops erasing or that gives an
    axis two values; a tool that comes in has its position and a value for
    every bound axis in that frame; only bound axes, only deliverable buttons
    and only in proximity is sent, and only what changes something: a position,
    tilt, rotation or pressure is sent only when it differs from the one sent
    last in this stay, except that a frame that makes contact may restate the
    pressure; a tool that leaves holds nothing; and with pressure bound the
    pressure is above zero at the end of every frame that leaves the tip down.
    After each input the compositor's stylus is in the state the emulator has:
    presence, contact, the deliverable buttons, the eraser and every bound
    axis; after a sample of a tool in proximity that is the sample's state, so
    nothing that changed is left out; a release leaves no stylus.  A sample
    that is not a number in some field is refused, and an eraser that cannot be
    sent stays away. *)
Theorem stylus_keeps_protocol (b : StylusBinding) (inputs : list StylusInput) (Hbuttons : 0 <= bind_barrel_buttons b) :
  let '(fs, em) := stylus_run (StylusEmulator_new b) inputs in
  run_frames b no_stylus fs = Some (stylus_of em)
  /\ (forall s, is_ok (plan em s).1 = true <-> Forall (fun f => f.2 = true) (sample_fields s))
  /\ (forall s, is_ok (plan em s).1 = true -> smp_in_proximity s = true -> withheld b s = false ->
       stylus_of (plan em s).2 = sampled b s)
  /\ (forall s, withheld b s = true -> is_ok (plan em s).1 = true -> stylus_of (plan em s).2 = no_stylus)
  /\ stylus_of (release em).2 = no_stylus.
Proof.
  assert (emulator_inv (StylusEmulator_new b)) as H0 by by apply emulator_away.
  pose proof (stylus_run_spec inputs _ H0) as H. destruct (stylus_run _ inputs) as [fs em]. destruct H as (Hinv & Hb & Hrun).
  cbn [em_binding] in *. split; [|split; [|split; [|split]]].
  - unfold StylusEmulator_new, PenToolState_default in Hrun. cbn [em_binding] in Hrun. by rewrite stylus_away in Hrun.
  - intros s. rewrite <- check_finite_ok. unfold plan. destruct (check_finite s); [|done].
    destruct (plan_pen_edges _ _ _ _ _) as [edges next]. by destruct (frames _ edges next _).
  - intros s Hok Hp Hw. pose proof (sample_spec em s Hinv) as H. destruct (plan em s) as [[gs|] em']; [|done].
    destruct H as (_ & _ & _ & H). cbn in Hb. rewrite Hb in H. by apply H.
  - intros s Hw Hok. pose proof (stylus_input_spec em (Sample s) Hinv) as H. cbn [stylus_input] in H.
    assert (tool_in_proximity (em_tool (plan em s).2) = false) as Hq.
    { unfold plan in *. destruct (check_finite s); [|done]. cbn in Hb. rewrite Hb, Hw in *. cbn [em_tool] in *.
      pose proof (plan_exact (em_tool em) (smp_tool s) false (smp_touching s) (smp_buttons s) (ei_resting _ Hinv)) as Hp.
      destruct (plan_pen_edges _ _ _ _ _) as [edges next]. destruct Hp as (-> & _).
      pose proof (frames_tool (mkEmulator b (em_tool em) (em_sent em) (em_dropped_buttons em) (saturating_add 64 (em_withheld_erasers em) 1))
        edges (released (smp_tool s)) (Some (axes_of s))) as Ht. by destruct (frames _ _ _ _) as [gs em']. }
    destruct (plan em s) as [[gs|] em']; [|done]. destruct H as (H & _ & _). by apply stylus_gone.
  - pose proof (stylus_input_spec em Release Hinv) as H. cbn [stylus_input] in H.
    assert (tool_in_proximity (em_tool (release em).2) = false) as Hq.
    { unfold release. pose proof (plan_exact (em_tool em) (tool_end (em_tool em)) false false 0 (ei_resting _ Hinv)) as Hp.
      destruct (plan_pen_edges _ _ _ _ _) as [edges next]. destruct Hp as (-> & _).
      pose proof (frames_tool em edges (released (tool_end (em_tool em))) None) as Ht. by destruct (frames _ _ _ _) as [gs em']. }
    destruct (release em) as [gs em']. destruct H as (H & _ & _). by apply stylus_gone.
Qed.

Definition drawing (tool : PenTool) (proximity touching : bool) (buttons : Z) : StylusInput :=
  Sample (mkSample (lit 3 2) (of_int 7) f32_zero f32_zero f32_zero f32_zero tool proximity touching buttons).

(** A stroke without pressure, given twice, the eraser in its place, and a
    release. *)
Lemma stylus_keeps_protocol_witness :
  let b := mkBinding true false false true 2 in
  let inputs := [drawing Tip true true 7; drawing Tip true true 7; drawing Eraser true true 0; Release] in
  exists fs, (stylus_run (StylusEmulator_new b) inputs).1 = fs /\ run_frames b no_stylus fs = Some no_stylus
  /\ fs = [[OpProximityIn; OpMotion (narrow (lit 3 2)) (narrow (of_int 7)); OpPressure MIN_CONTACT_PRESSURE;
            OpButton 0 true; OpButton 1 true; OpTipDown];
           [OpButton 0 false; OpButton 1 false; OpTipUp; OpProximityOut];
           [OpProximityIn; OpMotion (narrow (lit 3 2)) (narrow (of_int 7)); OpPressure MIN_CONTACT_PRESSURE; OpEraseStart; OpTipDown];
           [OpTipUp; OpProximityOut]].
Proof.
  cbv zeta. set (b := mkBinding true false false true 2). set (inputs := [_; _; _; _]).
  pose proof (stylus_keeps_protocol b inputs ltac:(cbn; lia)) as H.
  destruct (stylus_run (StylusEmulator_new b) inputs) as [fs em] eqn:E. destruct H as (H & _). exists fs. split; [done|].
  vm_compute in E. injection E as <- <-. split; [exact H|by vm_compute].
Defined.
