(* ===== verification/AppliedTopology.v ===== *)
(** * Media: the client's reading of an applied topology

    Models [shared/media/src/applied_topology.rs]: the validation of the
    host's applied topology for a client's windows and decoders, over the wire
    message of [MonitorWire] and the media rosters of [MultiMonitor], and the
    pointer that crosses from one monitor into another; with the tokens of
    [shared/media/src/lib.rs] and [video/plan.rs] it reads.  The client's
    display resolver is a parameter. *)

From stdpp Require Import strings.
From S2P Require Import Prelude Float64 PenAxes CaptureSurface MonitorWire MultiMonitor.
From S2P Require MediaRegion RegionFrame.

(** ** Tokens *)

Definition VideoCodec_ALL : list VideoCodec := [CodecJpeg; CodecH264; CodecH265; CodecVp9; CodecAv1].
Definition codec_token (c : VideoCodec) : string :=
  match c with CodecJpeg => "jpeg" | CodecH264 => "h264" | CodecH265 => "h265" | CodecVp9 => "vp9" | CodecAv1 => "av1" end.
Definition ChromaSubsampling_ALL : list ChromaSubsampling := [Chroma420; Chroma422; Chroma444].
Definition chroma_token (c : ChromaSubsampling) : string :=
  match c with Chroma420 => "yuv420" | Chroma422 => "yuv422" | Chroma444 => "yuv444" end.

(** The loop of [from_token]. *)
Definition find_token {A} (token : A -> string) (all : list A) (value : string) : option A :=
  List.find (fun a => bool_decide (token a = value)) all.
Definition codec_from_token : string -> option VideoCodec := find_token codec_token VideoCodec_ALL.
Definition chroma_from_token : string -> option ChromaSubsampling := find_token chroma_token ChromaSubsampling_ALL.

Definition backend_from_token (value : string) : option EncoderBackend :=
  if bool_decide (value = "native-nvenc") then Some NativeNvenc
  else if bool_decide (value = "media-foundation-sw-h264") then Some WindowsMediaFoundation
  else if bool_decide (value = "videotoolbox") then Some VideoToolbox
  else if bool_decide (value = "openh264-sw-h264") then Some OpenH264
  else if bool_decide (value = "rav1e-sw-av1") then Some Rav1e
  else None.
Definition backend_ready_token (b : EncoderBackend) : string :=
  match b with
  | NativeNvenc => "native-nvenc" | WindowsMediaFoundation => "media-foundation-sw-h264" | VideoToolbox => "videotoolbox"
  | OpenH264 => "openh264-sw-h264" | Rav1e => "rav1e-sw-av1"
  end.

Definition legacy_h264 : VideoConfiguration :=
  mkVideo CodecH264 Chroma420 EightBit RangeLimited MatrixBt709 PrimariesBt709 TcBt709.

(** ** applied_topology.rs *)

(** [MonitorDesktopRect] and [DesktopRect], coordinates widened to [i64]. *)
Record MonitorDesktopRect := mkDesktopRect { dr_x : Z; dr_y : Z; dr_width_px : Z; dr_height_px : Z }.

(** A media plan that cannot be read, by the text that says so. *)
Inductive PlanFault :=
| PlanError (e : MediaContractError)
| UnknownBackend (session_monitor_id : Z) (token : string)
| UnknownCodec (session_monitor_id : Z) (token : string)
| UnknownChroma (session_monitor_id : Z) (token : string)
| BadBitrate (session_monitor_id kbps : Z) (e : MediaContractError).

Inductive AppliedTopologyValidationError :=
| UnsupportedCarrier (c : MultiMonitorCarrierMsg)
| InvalidMonitorCount (count : Z)
| UnresolvedClientDisplayId (id : string)
| InvalidSessionMonitorId (e : MediaContractError)
| InvalidMediaPlan (fault : PlanFault)
| InvalidGeneration.

Record AppliedTopologyParts := mkParts {
  parts_generation : Z;
  parts_carrier : MultiMonitorCarrierMsg;
  parts_desktop : MonitorDesktopRect;
  parts_monitors : list AppliedMonitorDescriptorMsg;
  parts_primary : AppliedMonitorDescriptorMsg
}.

(** [from_message]; [None] is the index that the message's own validation
    keeps in range. *)
Definition from_message (t : AppliedMonitorTopologyMsg) : option AppliedTopologyParts :=
  primary ← AppliedTopology_primary t;
  let d := at_desktop t in
  Some (mkParts (at_topology_generation t) (at_selected_carrier t)
    (mkDesktopRect (desktop_x d) (desktop_y d) (desktop_width_px d) (desktop_height_px d)) (at_monitors t) primary).

Definition read_applied_media_plan (m : AppliedMonitorDescriptorMsg) (session_monitor_id : Z) :
    result AppliedTopologyValidationError RegionMediaPlan :=
  let p := ap_media_plan m in
  let id := ap_session_monitor_id m in
  let plan_error {A} (wrap : MediaContractError -> PlanFault) (r : result MediaContractError A) : result AppliedTopologyValidationError A :=
    match r with Ok a => Ok a | Err e => Err (InvalidMediaPlan (wrap e)) end in
  stream_epoch ← plan_error PlanError (MediaStreamEpoch_new (mp_stream_epoch p));
  backend ← ok_or (backend_from_token (mp_encoder_backend p)) (InvalidMediaPlan (UnknownBackend id (mp_encoder_backend p)));
  codec ← ok_or (codec_from_token (mp_codec p)) (InvalidMediaPlan (UnknownCodec id (mp_codec p)));
  chroma ← ok_or (chroma_from_token (mp_chroma p)) (InvalidMediaPlan (UnknownChroma id (mp_chroma p)));
  bitrate_budget ← plan_error (BadBitrate id (mp_bitrate_kbps p)) (BitrateBudgetKbps_new (mp_bitrate_kbps p));
  plan_error PlanError
    (RegionMediaPlan_new session_monitor_id stream_epoch backend
       (mkVideo codec chroma (video_bit_depth legacy_h264) (video_range legacy_h264) (video_matrix legacy_h264)
          (video_primaries legacy_h264) (video_transfer legacy_h264))
       (mp_width_px p) (mp_height_px p) (mp_fps p) bitrate_budget).

(** The negotiated primary first, then the others in wire order. *)
Definition primary_first (primary : AppliedMonitorDescriptorMsg) (monitors : list AppliedMonitorDescriptorMsg) : list AppliedMonitorDescriptorMsg :=
  primary :: List.filter (fun m => negb (ap_session_monitor_id m =? ap_session_monitor_id primary)) monitors.

Section Resolver.

(** The client's native display handle and its [NativeDisplayResolver]. *)
Context {D : Type} (resolve : string -> option D).

Record ResolvedAppliedMonitor := mkResolved { res_session_monitor_id : Z; res_native_display_id : D; res_rect : MonitorDesktopRect }.

Record ValidatedAppliedTopology := mkValidated {
  val_generation : Z;
  val_carrier : MultiMonitorCarrierMsg;
  val_monitors : list ResolvedAppliedMonitor;
  val_media_roster : RegionMediaRoster;
  val_desktop : MonitorDesktopRect
}.

Definition monitor_ids (v : ValidatedAppliedTopology) : list Z := map res_session_monitor_id (val_monitors v).
Definition native_display_ids (v : ValidatedAppliedTopology) : list D := map res_native_display_id (val_monitors v).
Definition primary_monitor_id (v : ValidatedAppliedTopology) : option Z := res_session_monitor_id <$> head (val_monitors v).
Definition monitor_rect (v : ValidatedAppliedTopology) (monitor_id : Z) : option MonitorDesktopRect :=
  res_rect <$> List.find (fun m => res_session_monitor_id m =? monitor_id) (val_monitors v).

(** One monitor of the loop. *)
Definition read_applied_monitor (m : AppliedMonitorDescriptorMsg) :
    result AppliedTopologyValidationError (ResolvedAppliedMonitor * RegionMediaPlan) :=
  native_display_id ← ok_or (resolve (ap_client_display_id m)) (UnresolvedClientDisplayId (ap_client_display_id m));
  session_monitor_id ← match SessionMonitorId_new (ap_session_monitor_id m) with Ok id => Ok id | Err e => Err (InvalidSessionMonitorId e) end;
  media_plan ← read_applied_media_plan m session_monitor_id;
  Ok (mkResolved session_monitor_id native_display_id (mkDesktopRect (ap_x m) (ap_y m) (ap_width_px m) (ap_height_px m)), media_plan).

Definition validate_applied_topology_parts (parts : AppliedTopologyParts) (supported_carriers : list MultiMonitorCarrierMsg) :
    result AppliedTopologyValidationError ValidatedAppliedTopology :=
  _ ← guard_err (negb (bool_decide (parts_carrier parts ∈ supported_carriers))) (UnsupportedCarrier (parts_carrier parts));
  generation ← match TopologyGeneration_new (parts_generation parts) with Ok g => Ok g | Err _ => Err InvalidGeneration end;
  let count := len (parts_monitors parts) in
  _ ← guard_err ((count =? 0) || (MAX_MULTI_MONITOR_COUNT <? count)) (InvalidMonitorCount count);
  read ← collect read_applied_monitor (primary_first (parts_primary parts) (parts_monitors parts));
  media_roster ← match RegionMediaRoster_new (map snd read) with Ok r => Ok r | Err e => Err (InvalidMediaPlan (PlanError e)) end;
  Ok (mkValidated generation (parts_carrier parts) (map fst read) media_roster (parts_desktop parts)).

(** [None] is [from_message]'s. *)
Definition validate_applied_topology_for_production (t : AppliedMonitorTopologyMsg) (supported_carriers : list MultiMonitorCarrierMsg) :
    option (result AppliedTopologyValidationError ValidatedAppliedTopology) :=
  parts ← from_message t; Some (validate_applied_topology_parts parts supported_carriers).

End Resolver.

(** ** The pointer that leaves its monitor *)

Definition rounded_offset_pixels (fraction : f64) (span : Z) : Z :=
  trunc_as_signed 64 (f64_round (f64_mul (float_clamp fraction (of_int (-1000)) (of_int 1000)) (of_int span))).

(** The rectangle test of the search. *)
Definition contains (r : MonitorDesktopRect) (x y : Z) : bool :=
  (0 <? dr_width_px r) && (0 <? dr_height_px r) && (dr_x r <=? x) && (x <? dr_x r + dr_width_px r)
  && (dr_y r <=? y) && (y <? dr_y r + dr_height_px r).

(** The applied-desktop pixel the fraction points at. *)
Definition desktop_point (r : MonitorDesktopRect) (fraction : f64 * f64) : Z * Z :=
  (dr_x r + rounded_offset_pixels fraction.1 (saturating_sub (dr_width_px r) 1),
   dr_y r + rounded_offset_pixels fraction.2 (saturating_sub (dr_height_px r) 1)).

(** A local offset as a fraction of a monitor's span. *)
Definition local_fraction (offset extent : Z) : f64 :=
  float_clamp (f64_div (of_int offset) (f64_max (of_int (saturating_sub extent 1)) (of_int 1))) f64_zero (of_int 1).

Definition resolve_pointer_crossing (monitors : list (Z * MonitorDesktopRect)) (origin : Z) (unclamped_fraction : f64 * f64) :
    option (Z * (f64 * f64)) :=
  if negb (Float64.is_finite unclamped_fraction.1) || negb (Float64.is_finite unclamped_fraction.2) then None
  else
    origin_rect ← snd <$> List.find (fun m => m.1 =? origin) monitors;
    if (dr_width_px origin_rect =? 0) || (dr_height_px origin_rect =? 0) then None
    else
      let '(desktop_x, desktop_y) := desktop_point origin_rect unclamped_fraction in
      '(containing_id, rect) ← List.find (fun m => contains m.2 desktop_x desktop_y) monitors;
      local_x ← try_unsigned 32 (desktop_x - dr_x rect);
      local_y ← try_unsigned 32 (desktop_y - dr_y rect);
      Some (containing_id, (local_fraction local_x (dr_width_px rect), local_fraction local_y (dr_height_px rect))).

(** ** What a valid message is read as *)

(** [List.find] by a key that is unique. *)
Lemma find_key {A} (key : A -> Z) l x : NoDup (map key l) -> x ∈ l -> List.find (fun y => key y =? key x) l = Some x.
Proof.
  induction l as [|y l IH]; intros Hnd Hx; [by apply not_elem_of_nil in Hx|]. cbn [map] in Hnd. apply NoDup_cons in Hnd as [Hy Hnd].
  cbn [List.find]. destruct (Z.eqb_spec (key y) (key x)) as [E|E].
  - apply elem_of_cons in Hx as [->|Hx]; [done|]. exfalso. apply Hy. rewrite E. by apply list_elem_of_fmap_2.
  - apply IH; [done|]. apply elem_of_cons in Hx as [->|Hx]; done.
Qed.

Lemma filter_other_ids (a : AppliedMonitorDescriptorMsg) l : ap_session_monitor_id a ∉ map ap_session_monitor_id l ->
  List.filter (fun m => negb (ap_session_monitor_id m =? ap_session_monitor_id a)) l = l.
Proof.
  induction l as [|m l IH]; intros H; [done|]. cbn [map] in H. apply not_elem_of_cons in H as [Hm H]. cbn [List.filter].
  destruct (Z.eqb_spec (ap_session_monitor_id m) (ap_session_monitor_id a)); [congruence|]. cbn. by rewrite IH.
Qed.

Lemma primary_first_moves pre a post : NoDup (map ap_session_monitor_id (pre ++ a :: post)) ->
  primary_first a (pre ++ a :: post) = a :: pre ++ post.
Proof.
  intros Hnd. unfold primary_first. rewrite List.filter_app. cbn [List.filter]. rewrite Z.eqb_refl. cbn [negb].
  rewrite map_app in Hnd. cbn [map] in Hnd. apply NoDup_app in Hnd as (_ & Hpre & Hpost). apply NoDup_cons in Hpost as [Hpost _].
  rewrite !filter_other_ids; [done|done|]. intros Hin. apply (Hpre _ Hin). apply elem_of_cons. by left.
Qed.

Lemma find_token_sound {A} (token : A -> string) all value a : find_token token all value = Some a -> token a = value.
Proof. intros H%List.find_some. by destruct H as [_ H%bool_decide_eq_true]. Qed.

Lemma codec_tokens value : value ∈ ["jpeg"; "h264"; "h265"; "vp9"; "av1"] -> exists c, codec_from_token value = Some c /\ codec_token c = value.
Proof.
  rewrite !elem_of_cons, elem_of_nil. intros [-> |[-> |[-> |[-> |[-> |[]]]]]]; eexists; (split; [by vm_compute|done]).
Qed.

Lemma chroma_tokens value : value ∈ ["yuv420"; "yuv422"; "yuv444"] -> exists c, chroma_from_token value = Some c /\ chroma_token c = value.
Proof. rewrite !elem_of_cons, elem_of_nil. intros [-> |[-> |[-> |[]]]]; eexists; (split; [by vm_compute|done]). Qed.

Lemma backend_token_sound value b : backend_from_token value = Some b -> backend_ready_token b = value.
Proof. unfold backend_from_token. repeat (case_bool_decide; [by intros [= <-]|]). done. Qed.

Section Reading.
Context {D : Type} (resolve : string -> option D).

(** What the client adds to the message's own validity: the display is here,
    the backend is known and the rate is within the budget's bounds. *)
Definition readable (m : AppliedMonitorDescriptorMsg) : Prop :=
  is_Some (resolve (ap_client_display_id m)) /\ is_Some (backend_from_token (mp_encoder_backend (ap_media_plan m)))
  /\ MIN_KBPS <= mp_bitrate_kbps (ap_media_plan m) <= MAX_KBPS.

(** A media plan carries its message. *)
Record plan_carries (m : AppliedMonitorDescriptorMsg) (p : RegionMediaPlan) : Prop := {
  pc_id : plan_session_monitor_id p = ap_session_monitor_id m;
  pc_epoch : plan_stream_epoch p = mp_stream_epoch (ap_media_plan m);
  pc_backend : backend_ready_token (plan_backend p) = mp_encoder_backend (ap_media_plan m);
  pc_codec : codec_token (video_codec (plan_video p)) = mp_codec (ap_media_plan m);
  pc_chroma : chroma_token (video_chroma (plan_video p)) = mp_chroma (ap_media_plan m);
  pc_size : plan_width p = mp_width_px (ap_media_plan m) /\ plan_height p = mp_height_px (ap_media_plan m);
  pc_rate : plan_fps p = mp_fps (ap_media_plan m) /\ plan_bitrate_budget p = mp_bitrate_kbps (ap_media_plan m)
}.

Definition rect_of (m : AppliedMonitorDescriptorMsg) : MonitorDesktopRect := mkDesktopRect (ap_x m) (ap_y m) (ap_width_px m) (ap_height_px m).

(** The errors that a readable message cannot have. *)
Definition monitor_error (m : AppliedMonitorDescriptorMsg) (e : AppliedTopologyValidationError) : Prop :=
  match e with
  | UnresolvedClientDisplayId id => id = ap_client_display_id m /\ resolve id = None
  | InvalidMediaPlan (UnknownBackend id token) =>
    id = ap_session_monitor_id m /\ token = mp_encoder_backend (ap_media_plan m) /\ backend_from_token token = None
  | InvalidMediaPlan (BadBitrate id kbps _) =>
    id = ap_session_monitor_id m /\ kbps = mp_bitrate_kbps (ap_media_plan m) /\ ~ (MIN_KBPS <= kbps <= MAX_KBPS)
  | _ => False
  end.

Lemma bitrate_new_Ok kbps : match BitrateBudgetKbps_new kbps with Ok b => b = kbps /\ MIN_KBPS <= kbps <= MAX_KBPS | Err _ => ~ (MIN_KBPS <= kbps <= MAX_KBPS) end.
Proof.
  unfold BitrateBudgetKbps_new, MIN_KBPS, MAX_KBPS. destruct (Z.eqb_spec kbps 0); [lia|].
  destruct (Z.ltb_spec kbps 100), (Z.ltb_spec 500000 kbps); cbn; lia.
Qed.

Lemma read_monitor_spec m : applied_monitor_ok m ->
  match read_applied_monitor resolve m with
  | Ok (r, p) => readable m /\ plan_carries m p /\ res_session_monitor_id r = ap_session_monitor_id m /\ res_rect r = rect_of m
                 /\ resolve (ap_client_display_id m) = Some (res_native_display_id r)
  | Err e => ~ readable m /\ monitor_error m e
  end.
Proof.
  intros (Hid & _ & (Hw & Hh & Hf & _ & He & _ & _ & Hc & Hch)). unfold read_applied_monitor, readable.
  destruct (resolve (ap_client_display_id m)) as [native|] eqn:Er; cbn [ok_or mbind result_bind]; [|by split; [intros [[? ?] _]|]].
  unfold SessionMonitorId_new. rewrite (proj2 (Z.eqb_neq _ _) Hid). cbn [mbind result_bind].
  unfold read_applied_media_plan, MediaStreamEpoch_new. rewrite (proj2 (Z.eqb_neq _ _) He). cbn [mbind result_bind].
  destruct (backend_from_token _) as [b|] eqn:Eb; cbn [ok_or mbind result_bind]; [|by split; [intros (_ & [? ?] & _)|]].
  destruct (codec_tokens _ Hc) as (c & -> & Ec). destruct (chroma_tokens _ Hch) as (ch & -> & Ech). cbn [ok_or mbind result_bind].
  pose proof (bitrate_new_Ok (mp_bitrate_kbps (ap_media_plan m))) as Hb.
  destruct (BitrateBudgetKbps_new _) as [k|e]; cbn [mbind result_bind]; [|split; [by intros (_ & _ & ?)|done]].
  destruct Hb as [-> Hb]. unfold RegionMediaPlan_new.
  rewrite (proj2 (Z.eqb_neq _ _) Hw), (proj2 (Z.eqb_neq _ _) Hh), (proj2 (Z.eqb_neq _ _) Hf). cbn.
  split; [split; [by eexists|by split; [eexists|]]|]. split; [|done]. constructor; try done. by apply backend_token_sound.
Qed.

Lemma collect_cases {E A B} (f : A -> result E B) l :
  match collect f l with
  | Ok bs => Forall2 (fun a b => f a = Ok b) l bs
  | Err e => exists pre a post, l = pre ++ a :: post /\ f a = Err e /\ Forall (fun x => is_ok (f x) = true) pre
  end.
Proof.
  induction l as [|a l IH]; [by constructor|]. cbn [collect]. destruct (f a) as [b|e] eqn:Ea; cbn [mbind result_bind].
  - destruct (collect f l) as [bs|e]; cbn [mbind result_bind]; [by constructor|]. destruct IH as (pre & x & post & -> & Hx & Hpre).
    exists (a :: pre), x, post. split; [done|]. split; [done|]. constructor; [by rewrite Ea|done].
  - by exists [], a, l.
Qed.

(** What one monitor was read as. *)
Definition read_as (m : AppliedMonitorDescriptorMsg) (rp : ResolvedAppliedMonitor * RegionMediaPlan) : Prop :=
  readable m /\ plan_carries m rp.2 /\ res_session_monitor_id rp.1 = ap_session_monitor_id m /\ res_rect rp.1 = rect_of m
  /\ resolve (ap_client_display_id m) = Some (res_native_display_id rp.1).

Lemma read_all l rps : Forall applied_monitor_ok l -> Forall2 (fun m rp => read_applied_monitor resolve m = Ok rp) l rps ->
  Forall2 read_as l rps.
Proof.
  intros Hok H. induction H as [|m [r p] l rps Hm _ IH]; [constructor|]. apply Forall_cons in Hok as [Hm' Hok].
  pose proof (read_monitor_spec m Hm') as Hs. rewrite Hm in Hs. constructor; [exact Hs|by apply IH].
Qed.

Lemma read_as_ids l rps : Forall2 read_as l rps ->
  Forall readable l /\ map res_session_monitor_id (map fst rps) = map ap_session_monitor_id l
  /\ map plan_session_monitor_id (map snd rps) = map ap_session_monitor_id l
  /\ (Some <$> map res_native_display_id (map fst rps)) = map (resolve ∘ ap_client_display_id) l.
Proof.
  induction 1 as [|m [r p] l rps (Hr & Hp & Hi & _ & Hn) _ (IH1 & IH2 & IH3 & IH4)]; [by split_and!|].
  cbn in *. split_and!; [by constructor|by rewrite Hi, IH2|by rewrite (pc_id _ _ Hp), IH3|by rewrite Hn, IH4].
Qed.

(** C19: The client reads the host's topology as it was agreed.  A message that
    passed the wire's own validation is accepted exactly when the client
    implements its carrier and, for every monitor, the display is present, the
    encoder backend is known and the rate lies within the budget's bounds; no
    other error is possible.  What is accepted has the message's generation,
    carrier and desktop, its monitors with the primary moved to the front and
    the others in wire order, and for each of them the rectangle it was given,
    the native display its identifier resolves to and a media plan that says
    what the message says.  What is refused for a monitor is refused for the
    first unreadable one in that order. *)
Theorem applied_topology_read (generation : Z) (d : DeclaredDesktop) (carrier : MultiMonitorCarrierMsg)
  (ms : list AppliedMonitorDescriptorMsg) (supported : list MultiMonitorCarrierMsg) (t : AppliedMonitorTopologyMsg)
  (Hrects : Forall (fun m => rect_typed (applied_rect m)) ms) (Hdesktop : desktop_typed d)
  (Hmessage : AppliedMonitorTopologyMsg_new generation d carrier ms = Ok t) :
  exists pre a post, ms = pre ++ a :: post /\ ap_is_primary a = true
  /\ match validate_applied_topology_for_production resolve t supported with
     | None => False
     | Some (Ok v) =>
       carrier ∈ supported /\ Forall readable ms
       /\ val_generation v = generation /\ val_carrier v = carrier
       /\ val_desktop v = mkDesktopRect (desktop_x d) (desktop_y d) (desktop_width_px d) (desktop_height_px d)
       /\ monitor_ids v = map ap_session_monitor_id (a :: pre ++ post)
       /\ (Some <$> native_display_ids v) = map (resolve ∘ ap_client_display_id) (a :: pre ++ post)
       /\ (forall m, m ∈ ms -> monitor_rect v (ap_session_monitor_id m) = Some (rect_of m)
            /\ exists p, roster_plan (val_media_roster v) (ap_session_monitor_id m) = Some p /\ plan_carries m p)
     | Some (Err e) =>
       (e = UnsupportedCarrier carrier /\ carrier ∉ supported)
       \/ (carrier ∈ supported /\ exists before m after, a :: pre ++ post = before ++ m :: after
           /\ Forall readable before /\ ~ readable m /\ monitor_error m e)
     end.
Proof.
  unfold AppliedMonitorTopologyMsg_new in Hmessage. apply bind_Ok in Hmessage as (i & Hi & [= <-]).
  apply (validate_applied_Ok generation d ms i Hrects Hdesktop) in Hi. destruct Hi as [Hg Hc _ Hids Hms Hp _ _ _].
  destruct Hp as (pre & a & post & -> & -> & Ha & _). exists pre, a, post. split; [done|]. split; [done|].
  unfold validate_applied_topology_for_production, from_message, AppliedTopology_primary. cbn [at_monitors at_primary_index].
  rewrite MediaRegion.read_at_middle. cbn [mbind option_bind]. unfold validate_applied_topology_parts.
  cbn [parts_carrier parts_generation parts_monitors parts_primary parts_desktop at_selected_carrier at_topology_generation at_desktop at_monitors].
  destruct (bool_decide_reflect (carrier ∈ supported)) as [Hs|Hs]; cbn [negb guard_err mbind result_bind]; [|by left].
  unfold TopologyGeneration_new. rewrite (proj2 (Z.eqb_neq _ _) Hg). cbn [mbind result_bind].
  rewrite (proj2 (Z.eqb_neq _ _)), (proj2 (Z.ltb_ge _ _)) by lia. cbn [orb guard_err mbind result_bind].
  rewrite primary_first_moves by done. set (ordered := a :: pre ++ post).
  assert (pre ++ a :: post ≡ₚ ordered) as Hperm by (subst ordered; by rewrite Permutation_middle).
  assert (Forall applied_monitor_ok ordered) as Hok by by rewrite <- Hperm.
  assert (NoDup (map ap_session_monitor_id ordered)) as Hnd by by rewrite <- Hperm.
  pose proof (collect_cases (read_applied_monitor resolve) ordered) as Hread.
  destruct (collect (read_applied_monitor resolve) ordered) as [rps|e]; cbn [mbind result_bind].
  - apply (read_all _ _ Hok) in Hread. destruct (read_as_ids _ _ Hread) as (Hr & Hri & Hpi & Hn).
    assert (RegionMediaRoster_new (map snd rps) = Ok (map snd rps)) as ->.
    { unfold RegionMediaRoster_new. assert (len (map snd rps) = len (pre ++ a :: post)) as ->.
      { unfold len. rewrite length_map, <- (Forall2_length _ _ _ Hread). by rewrite Hperm. }
      rewrite (proj2 (media_count_Ok _ (len_nonneg _)) Hc). cbn [mbind result_bind]. rewrite Hpi.
      rewrite (proj2 (session_ids_Ok _ [])); [done|]. split; [done|]. intros ? _. apply not_elem_of_nil. }
    cbn [mbind result_bind]. do 2 (split; [by rewrite ?Hperm|]). do 3 (split; [done|]). split; [exact Hri|]. split; [exact Hn|].
    intros m Hm. rewrite Hperm in Hm. apply list_elem_of_lookup in Hm as [j Hj].
    destruct (Forall2_lookup_l _ _ _ _ _ Hread Hj) as ([r p] & Hrp & (_ & Hcarry & Hid & Hrect & _)). cbn in *.
    apply list_elem_of_lookup_2 in Hrp. split.
    + unfold monitor_rect. cbn [val_monitors]. rewrite <- Hid.
      rewrite (find_key res_session_monitor_id (map fst rps) r); [by rewrite <- Hrect|by rewrite Hri|by apply (list_elem_of_fmap_2 fst _ (r, p))].
    + exists p. split; [|done]. rewrite <- (pc_id _ _ Hcarry).
      apply RegionFrame.roster_plan_find; [by rewrite Hpi|by apply (list_elem_of_fmap_2 snd _ (r, p))].
  - right. split; [done|]. destruct Hread as (before & m & after & E & Hm & Hbefore). exists before, m, after. split; [done|].
    rewrite E in Hok. apply Forall_app in Hok as [Hob Hom]. apply Forall_cons in Hom as [Hom _].
    pose proof (read_monitor_spec m Hom) as Hs'. rewrite Hm in Hs'. split; [|exact Hs'].
    clear -Hbefore Hob. induction Hbefore as [|x l Hx _ IH]; [constructor|]. apply Forall_cons in Hob as [Hox Hob].
    constructor; [|by apply IH]. pose proof (read_monitor_spec x Hox) as Hs'. destruct (read_applied_monitor resolve x) as [[r p]|]; [|done]. apply Hs'.
Qed.
End Reading.

Lemma applied_topology_read_witness :
  let resolve (id : string) := if bool_decide (id = "left") then Some 10 else if bool_decide (id = "right") then Some 20 else None in
  let plan := mkMediaPlanMsg 1 "videotoolbox" "hardware" "h265" "yuv444" 1920 1080 60 6000 CursorLocal false "" in
  let ms := [mkAppliedMsg "left" 1 0 0 1920 1080 60 Degrees0 false plan; mkAppliedMsg "right" 2 1920 0 1920 1080 60 Degrees0 true plan] in
  exists t v, AppliedMonitorTopologyMsg_new 1 sample_desktop MuxedReliableStream ms = Ok t
    /\ validate_applied_topology_for_production resolve t [MuxedReliableStream] = Some (Ok v)
    /\ monitor_ids v = [2; 1] /\ native_display_ids v = [20; 10].
Proof.
  cbv zeta. set (resolve := fun id : string => _). set (ms := [_; _]).
  destruct (AppliedMonitorTopologyMsg_new 1 sample_desktop MuxedReliableStream ms) as [t|e] eqn:Et; [|by vm_compute in Et].
  destruct (applied_topology_read resolve 1 sample_desktop MuxedReliableStream ms [MuxedReliableStream] t)
    as (pre & a & post & Ems & _ & H); [by repeat constructor; cbn; lia|by unfold desktop_typed, in_signed, in_width; cbn; lia|exact Et|].
  exists t. destruct (validate_applied_topology_for_production resolve t [MuxedReliableStream]) as [[v|e]|] eqn:Ev.
  - exists v. split; [done|]. split; [done|]. destruct H as (_ & _ & _ & _ & _ & _ & Hn & _).
    vm_compute in Et. injection Et as <-. vm_compute in Ev. injection Ev as <-. by split.
  - vm_compute in Et. injection Et as <-. by vm_compute in Ev.
  - done.
Defined.

(** ** The pointer *)

Lemma find_split {A} (f : A -> bool) l : 
  match List.find f l with
  | Some x => exists pre post, l = pre ++ x :: post /\ f x = true /\ Forall (fun y => f y = false) pre
  | None => Forall (fun y => f y = false) l
  end.
Proof.
  induction l as [|y l IH]; [constructor|]. cbn [List.find]. destruct (f y) eqn:Ey; [by exists [], l|].
  destruct (List.find f l) as [x|]; [|by constructor]. destruct IH as (pre & post & -> & Hx & Hpre).
  exists (y :: pre), post. split; [done|]. split; [done|]. by constructor.
Qed.

(** A crossing is into the first monitor that contains the pointed pixel; a
    pixel that no monitor contains, an unknown origin or a fraction that is
    not a number gives none. *)
Lemma pointer_crossing_spec monitors origin fraction :
  Forall (fun m => 0 <= dr_width_px m.2 < 2 ^ 32 /\ 0 <= dr_height_px m.2 < 2 ^ 32) monitors ->
  match resolve_pointer_crossing monitors origin fraction with
  | Some (id, f) => exists r o pre post, Float64.is_finite fraction.1 && Float64.is_finite fraction.2 = true
      /\ List.find (fun m => m.1 =? origin) monitors = Some (origin, o)
      /\ let '(x, y) := desktop_point o fraction in
         monitors = pre ++ (id, r) :: post /\ contains r x y = true /\ Forall (fun m => contains m.2 x y = false) pre
         /\ f = (local_fraction (x - dr_x r) (dr_width_px r), local_fraction (y - dr_y r) (dr_height_px r))
  | None =>
    Float64.is_finite fraction.1 && Float64.is_finite fraction.2 = false
    \/ match List.find (fun m => m.1 =? origin) monitors with
       | None => True
       | Some (_, o) => dr_width_px o = 0 \/ dr_height_px o = 0
                        \/ let '(x, y) := desktop_point o fraction in Forall (fun m => contains m.2 x y = false) monitors
       end
  end.
Proof.
  intros Hwide. unfold resolve_pointer_crossing.
  destruct (Float64.is_finite fraction.1), (Float64.is_finite fraction.2); cbn [negb orb andb]; try by left.
  pose proof (find_split (fun m : Z * MonitorDesktopRect => m.1 =? origin) monitors) as Ho.
  destruct (List.find (fun m => m.1 =? origin) monitors) as [[oid o]|] eqn:Eo; cbn [fmap option_fmap option_map snd mbind option_bind]; [|by right].
  destruct Ho as (_ & _ & _ & Hid & _). cbn in Hid. apply Z.eqb_eq in Hid as ->.
  destruct (Z.eqb_spec (dr_width_px o) 0); cbn [orb]; [right; by left|].
  destruct (Z.eqb_spec (dr_height_px o) 0); cbn [orb]; [right; right; by left|].
  destruct (desktop_point o fraction) as [x y] eqn:Ep.
  pose proof (find_split (fun m : Z * MonitorDesktopRect => contains m.2 x y) monitors) as Hc.
  destruct (List.find (fun m => contains m.2 x y) monitors) as [[id r]|]; cbn [mbind option_bind]; [|by right; right; right].
  destruct Hc as (pre & post & -> & Hin & Hpre). cbn [snd] in Hin. pose proof Hin as Hin'. unfold contains in Hin'. boolify.
  apply Forall_app in Hwide as [_ Hwide]. apply Forall_cons in Hwide as [[Hw Hh] _]. cbn [snd] in Hw, Hh.
  rewrite !try_unsigned_in by (unfold in_width; lia). cbn [mbind option_bind].
  exists r, o, pre, post. split; [done|]. split; [done|]. rewrite Ep. by split_and!.
Qed.
