(* ===== verification/OutputTransaction.v ===== *)
(** * Outputs: capabilities and the output transaction

    Models [shared/outputs/src/provider]: the capability gate
    ([capability.rs]), the typed failures ([error.rs]), the provider interface
    ([mod.rs], a class here) and the transaction driver ([transaction.rs]).  A
    provider is a state that includes what the operating system shows of it;
    an awaited method is a function on it. *)

From stdpp Require Import strings.
From S2P Require Import Prelude MonitorWire.

(** ** capability.rs *)

Inductive OutputSurface := SharedPhysical | DedicatedPhysical | Virtual.

Inductive RollbackGuarantee := NoRollback | BestEffort | SafePrimary | ExactRestore.

(** The derived order: weakest to strongest. *)
Definition guarantee_rank (g : RollbackGuarantee) : Z :=
  match g with NoRollback => 0 | BestEffort => 1 | SafePrimary => 2 | ExactRestore => 3 end.

Inductive CapabilityRangeError :=
| ZeroMinimum
| Inverted (min max : Z)
| ExceedsSupportedRegions (max limit : Z).

Record OutputCapabilities := mkCapabilities {
  min_regions : Z;
  max_regions : Z;
  surface : OutputSurface;
  cap_exact_modes : bool;
  signed_desktop_coordinates : bool;
  persistent_dedicated_desktop : bool;
  headless_capable : bool;
  per_region_rotation : bool;
  cap_fractional_scale : bool;
  rollback_guarantee : RollbackGuarantee
}.

Definition OutputCapabilities_new (min max : Z) (s : OutputSurface) (g : RollbackGuarantee) :
    result CapabilityRangeError OutputCapabilities :=
  _ ← guard_err (min =? 0) ZeroMinimum;
  _ ← guard_err (max <? min) (Inverted min max);
  _ ← guard_err (MAX_MULTI_MONITOR_COUNT <? max) (ExceedsSupportedRegions max MAX_MULTI_MONITOR_COUNT);
  Ok (mkCapabilities min max s false false false false false false g).

Definition serves_region_count (c : OutputCapabilities) (regions : Z) : bool := (min_regions c <=? regions) && (regions <=? max_regions c).

Definition required_rollback (s : OutputSurface) : RollbackGuarantee :=
  match s with SharedPhysical => SafePrimary | DedicatedPhysical | Virtual => BestEffort end.

Record OutputDemand := mkDemand {
  dem_regions : Z;
  negative_coordinates : bool;
  dem_exact_modes : bool;
  persistent_desktop : bool;
  headless : bool;
  dem_rotation : bool;
  dem_fractional_scale : bool
}.

Definition OutputDemand_new (regions : Z) : OutputDemand := mkDemand regions false false false false false false.

Inductive CapabilityMismatch :=
| RegionCount (requested min max : Z)
| ExactModesUnsupported
| SignedCoordinatesUnsupported
| PersistentDesktopUnsupported
| HeadlessUnsupported
| RotationUnsupported
| FractionalScaleUnsupported
| RollbackGuaranteeInsufficient (required provided : RollbackGuarantee).

Definition admits (c : OutputCapabilities) (d : OutputDemand) : result CapabilityMismatch unit :=
  _ ← guard_err (negb (serves_region_count c (dem_regions d))) (RegionCount (dem_regions d) (min_regions c) (max_regions c));
  _ ← guard_err (dem_exact_modes d && negb (cap_exact_modes c)) ExactModesUnsupported;
  _ ← guard_err (negative_coordinates d && negb (signed_desktop_coordinates c)) SignedCoordinatesUnsupported;
  _ ← guard_err (persistent_desktop d && negb (persistent_dedicated_desktop c)) PersistentDesktopUnsupported;
  _ ← guard_err (headless d && negb (headless_capable c)) HeadlessUnsupported;
  _ ← guard_err (dem_rotation d && negb (per_region_rotation c)) RotationUnsupported;
  _ ← guard_err (dem_fractional_scale d && negb (cap_fractional_scale c)) FractionalScaleUnsupported;
  let required := required_rollback (surface c) in
  guard_err (guarantee_rank (rollback_guarantee c) <? guarantee_rank required)
    (RollbackGuaranteeInsufficient required (rollback_guarantee c)).

(** ** error.rs *)

Inductive OutputStage := StageAdmission | StagePreflight | StageBind | StageVerify | StageCommit.

Inductive OutputTransactionError (E : Type) :=
| AdmissionRefused (m : CapabilityMismatch)
| OperationFailed (s : OutputStage) (source : E)
| RollbackFailed (s : OutputStage) (source rollback : E).
Arguments AdmissionRefused {E}.
Arguments OperationFailed {E}.
Arguments RollbackFailed {E}.

Definition stage {E} (e : OutputTransactionError E) : OutputStage :=
  match e with AdmissionRefused _ => StageAdmission | OperationFailed s _ | RollbackFailed s _ _ => s end.
Definition failure {E} (e : OutputTransactionError E) : option E :=
  match e with AdmissionRefused _ => None | OperationFailed _ f | RollbackFailed _ f _ => Some f end.
Definition error_rollback {E} (e : OutputTransactionError E) : option E :=
  match e with RollbackFailed _ _ r => Some r | _ => None end.
Definition rollback_failed {E} (e : OutputTransactionError E) : bool := match e with RollbackFailed _ _ _ => true | _ => false end.

(** [BindFailure]: the failure, and that of the provider's own undo. *)
Record BindFailure (E : Type) := mkBindFailure { bind_source : E; bind_rollback : option E }.
Arguments mkBindFailure {E}.
Arguments bind_source {E}.
Arguments bind_rollback {E}.

(** ** mod.rs: the provider *)

Class OutputProvider (P Context_ Plan Prepared Binding Evidence E : Type) := {
  capabilities : P -> OutputCapabilities;
  demand : P -> Plan -> OutputDemand;
  preflight : Plan -> Context_ -> P -> result E Prepared * P;
  bind : Prepared -> P -> result (BindFailure E) Binding * P;
  verify : Binding -> P -> result E unit * (Binding * P);
  commit_binding : Binding -> P -> result E unit * (Binding * P);
  rollback_binding : Binding -> P -> result E unit * (Binding * P);
  evidence : P -> Binding -> Evidence;
  is_armed : P -> Binding -> bool
}.

(** ** transaction.rs *)

Inductive OutputTransactionState := Bound | Committed | RolledBack.

Section Driver.
Context {P Context_ Plan Prepared Binding Evidence E : Type} `{!OutputProvider P Context_ Plan Prepared Binding Evidence E}.

Record OutputTransaction := mkTransaction { tx_provider : P; tx_binding : Binding; tx_state : OutputTransactionState }.

Record CommittedOutput := mkCommitted { co_provider : P; co_binding : Binding }.

(** A refusal comes with the provider as it was left. *)
Definition acquire (p : P) (plan : Plan) (context : Context_) : result (OutputTransactionError E * P) OutputTransaction :=
  match admits (capabilities p) (demand p plan) with
  | Err m => Err (AdmissionRefused m, p)
  | Ok _ =>
    match preflight plan context p with
    | (Err source, p) => Err (OperationFailed StagePreflight source, p)
    | (Ok prepared, p) =>
      match bind prepared p with
      | (Err f, p) =>
        Err (match bind_rollback f with
             | None => OperationFailed StageBind (bind_source f)
             | Some rollback => RollbackFailed StageBind (bind_source f) rollback
             end, p)
      | (Ok binding, p) =>
        match verify binding p with
        | (Err source, (binding, p)) =>
          match rollback_binding binding p with
          | (Ok _, (_, p)) => Err (OperationFailed StageVerify source, p)
          | (Err rollback, (_, p)) => Err (RollbackFailed StageVerify source rollback, p)
          end
        | (Ok _, (binding, p)) => Ok (mkTransaction p binding Bound)
        end
      end
    end
  end.

Definition tx_is_armed (t : OutputTransaction) : bool := is_armed (tx_provider t) (tx_binding t).
Definition tx_evidence (t : OutputTransaction) : Evidence := evidence (tx_provider t) (tx_binding t).

Definition commit (t : OutputTransaction) : result (OutputTransactionError E) unit * OutputTransaction :=
  match tx_state t with
  | Committed | RolledBack => (Ok tt, t)
  | Bound =>
    match commit_binding (tx_binding t) (tx_provider t) with
    | (Ok _, (b, p)) => (Ok tt, mkTransaction p b Committed)
    | (Err source, (b, p)) =>
      match rollback_binding b p with
      | (Ok _, (b, p)) => (Err (OperationFailed StageCommit source), mkTransaction p b RolledBack)
      | (Err rollback, (b, p)) => (Err (RollbackFailed StageCommit source rollback), mkTransaction p b Bound)
      end
    end
  end.

Definition rollback (t : OutputTransaction) : result E unit * OutputTransaction :=
  match tx_state t with
  | RolledBack => (Ok tt, t)
  | s =>
    match rollback_binding (tx_binding t) (tx_provider t) with
    | (Ok _, (b, p)) => (Ok tt, mkTransaction p b RolledBack)
    | (Err e, (b, p)) => (Err e, mkTransaction p b s)
    end
  end.

Definition into_committed (t : OutputTransaction) : result OutputTransaction CommittedOutput :=
  match tx_state t with
  | Committed => Ok (mkCommitted (tx_provider t) (tx_binding t))
  | Bound | RolledBack => Err t
  end.

(** What a host does with a transaction. *)
Inductive TransactionCall := CallCommit | CallRollback.

Definition transaction_call (t : OutputTransaction) (c : TransactionCall) : OutputTransaction :=
  match c with CallCommit => (commit t).2 | CallRollback => (rollback t).2 end.

Definition transaction_run (t : OutputTransaction) (calls : list TransactionCall) : OutputTransaction := fold_left transaction_call calls t.

End Driver.
Arguments OutputTransaction : clear implicits.
Arguments CommittedOutput : clear implicits.

(** ** The gate *)

(** A demand fits what is promised. *)
Record fits (c : OutputCapabilities) (d : OutputDemand) : Prop := {
  fit_regions : min_regions c <= dem_regions d <= max_regions c;
  fit_modes : dem_exact_modes d = true -> cap_exact_modes c = true;
  fit_coordinates : negative_coordinates d = true -> signed_desktop_coordinates c = true;
  fit_desktop : persistent_desktop d = true -> persistent_dedicated_desktop c = true;
  fit_headless : headless d = true -> headless_capable c = true;
  fit_rotation : dem_rotation d = true -> per_region_rotation c = true;
  fit_scale : dem_fractional_scale d = true -> cap_fractional_scale c = true;
  fit_rollback : guarantee_rank (required_rollback (surface c)) <= guarantee_rank (rollback_guarantee c)
}.

Lemma unsupported_Ok a b : a && negb b = false <-> (a = true -> b = true).
Proof. destruct a, b; cbn; naive_solver. Qed.

Lemma admits_exact c d : admits c d = Ok tt <-> fits c d.
Proof.
  unfold admits. rewrite !unit_bind_Ok, !guard_err_Ok, !unsupported_Ok, negb_false_iff, Z.ltb_ge.
  unfold serves_region_count. rewrite andb_true_iff, !Z.leb_le. split.
  - intros (? & ? & ? & ? & ? & ? & ? & ?). by constructor.
  - intros [[] ???????]. by split_and!.
Qed.

(** ** The ownership rules *)

(** What the interface documents: a preflight changes nothing, a binding owns
    all that was made for it, and a provider that reports no failed undo has
    undone.  [clean] says that the attempt has left nothing in the operating
    system, [holds] that all it left belongs to the binding. *)
Class OwnershipRules {P Context_ Plan Prepared Binding Evidence E : Type} `{!OutputProvider P Context_ Plan Prepared Binding Evidence E}
    (clean : P -> Prop) (holds : P -> Binding -> Prop) := {
  preflight_clean plan context p : clean p -> clean (preflight plan context p).2;
  bind_holds prepared p b p' : clean p -> bind prepared p = (Ok b, p') -> holds p' b;
  bind_undone prepared p source p' : clean p -> bind prepared p = (Err (mkBindFailure source None), p') -> clean p';
  verify_holds b p : holds p b -> holds (verify b p).2.2 (verify b p).2.1;
  commit_holds b p : holds p b -> holds (commit_binding b p).2.2 (commit_binding b p).2.1;
  rollback_clean b p b' p' : holds p b -> rollback_binding b p = (Ok tt, (b', p')) -> clean p';
  rollback_holds b p e b' p' : holds p b -> rollback_binding b p = (Err e, (b', p')) -> holds p' b'
}.

Section Ownership.
Context {P Context_ Plan Prepared Binding Evidence E : Type} `{!OutputProvider P Context_ Plan Prepared Binding Evidence E}
  (clean : P -> Prop) (holds : P -> Binding -> Prop) `{!OwnershipRules clean holds}.

(** Who owns what a transaction left. *)
Definition owned (t : OutputTransaction P Binding) : Prop :=
  match tx_state t with RolledBack => clean (tx_provider t) | _ => holds (tx_provider t) (tx_binding t) end.

(** Who owns what a failure left. *)
Definition left_behind (e : OutputTransactionError E) (p : P) : Prop := rollback_failed e = false -> clean p.

Lemma transaction_acquire_spec p plan context : clean p ->
  match acquire p plan context with
  | Ok t => tx_state t = Bound /\ owned t /\ fits (capabilities p) (demand p plan)
  | Err (e, p') => left_behind e p' /\ stage e <> StageCommit
    /\ (rollback_failed e = true -> stage e = StageBind \/ stage e = StageVerify)
    /\ (forall m, e = AdmissionRefused m -> p' = p /\ admits (capabilities p) (demand p plan) = Err m)
  end.
Proof.
  intros Hp. unfold acquire, left_behind. destruct (admits _ _) as [[]|m] eqn:Ea; [|by split_and!; [done..|by intros ? [= ->]]].
  apply admits_exact in Ea. pose proof (preflight_clean plan context p Hp) as H1.
  destruct (preflight plan context p) as [[prepared|source] p1]; [|by split_and!]. cbn in H1.
  destruct (bind prepared p1) as [[b|[source [r|]]] p2] eqn:Eb.
  - pose proof (bind_holds _ _ _ _ H1 Eb) as H2. pose proof (verify_holds b p2 H2) as H3.
    destruct (verify b p2) as [[[]|source] [b3 p3]]; cbn in H3; [by split_and!|].
    destruct (rollback_binding b3 p3) as [[[]|r] [b4 p4]] eqn:Er; cbn; split_and!; try done; [|by right].
    intros _. by eapply rollback_clean.
  - cbn. split_and!; try done. by left.
  - cbn. split_and!; try done. intros _. by eapply bind_undone.
Qed.

Lemma transaction_commit_spec t : owned t ->
  match commit t with
  | (Ok _, t') => owned t' /\ tx_state t' = (match tx_state t with Bound => Committed | s => s end)
                  /\ (tx_state t <> Bound -> t' = t)
  | (Err e, t') => tx_state t = Bound /\ owned t' /\ left_behind e (tx_provider t') /\ stage e = StageCommit
                  /\ tx_state t' = (if rollback_failed e then Bound else RolledBack)
  end.
Proof.
  unfold owned, commit, left_behind. destruct t as [p b []]; cbn [tx_state tx_provider tx_binding]; intros Ht; try by split_and!.
  pose proof (commit_holds b p Ht) as H1. destruct (commit_binding b p) as [[[]|source] [b1 p1]]; cbn in H1; [by split_and!|].
  destruct (rollback_binding b1 p1) as [[[]|r] [b2 p2]] eqn:Er; cbn; split_and!; try done.
  - by eapply rollback_clean.
  - intros _. by eapply rollback_clean.
  - by eapply rollback_holds.
Qed.

Lemma transaction_rollback_spec t : owned t ->
  match rollback t with
  | (Ok _, t') => owned t' /\ tx_state t' = RolledBack /\ (tx_state t = RolledBack -> t' = t)
  | (Err _, t') => tx_state t <> RolledBack /\ owned t' /\ tx_state t' = tx_state t
  end.
Proof.
  unfold owned, rollback. destruct t as [p b s]. cbn [tx_state tx_provider tx_binding]. intros Ht.
  destruct s; [| |by split_and!]; destruct (rollback_binding b p) as [[[]|e] [b1 p1]] eqn:Er; cbn; split_and!; try done;
    (by eapply rollback_clean) || by eapply rollback_holds.
Qed.

Lemma transaction_run_owned calls : forall t, owned t -> owned (transaction_run t calls).
Proof.
  induction calls as [|[] calls IH]; intros t Ht; [done|apply IH..]; cbn [transaction_call].
  - pose proof (transaction_commit_spec t Ht) as H. destruct (commit t) as [[]  t']; apply H.
  - pose proof (transaction_rollback_spec t Ht) as H. destruct (rollback t) as [[]  t']; apply H.
Qed.

(** C14: An output transaction never loses a teardown.  With a provider that
    keeps the ownership rules, started with nothing in the operating system: a
    plan is refused by the gate exactly when a promise does not fit it, before
    any provider code has run; a failed acquisition has left nothing unless it
    says that an undo failed, and only binding and verifying can say so.  After
    any commits and rollbacks, whatever the provider answers to them, the
    transaction is rolled back and nothing is left, or everything that is left
    belongs to its binding.  A failed commit has rolled back, or says that the
    rollback failed and can be rolled back again; a failed rollback changes no
    state; commits of a resolved transaction and rollbacks of a rolled back one
    do nothing; and only a committed transaction gives up its resources. *)
Theorem output_transaction_owns (p : P) (plan : Plan) (context : Context_) (calls : list TransactionCall) (Hclean : clean p) :
  ((exists m, acquire p plan context = Err (AdmissionRefused m, p)) <-> ~ fits (capabilities p) (demand p plan))
  /\ match acquire p plan context with
  | Err (e, p') => left_behind e p' /\ (rollback_failed e = true -> stage e = StageBind \/ stage e = StageVerify)
  | Ok t =>
    tx_state t = Bound
    /\ let t' := transaction_run t calls in
       owned t'
       /\ (is_ok (into_committed t') = true <-> tx_state t' = Committed)
       /\ match commit t' with
          | (Ok _, t'') => (tx_state t' = Bound -> tx_state t'' = Committed) /\ (tx_state t' <> Bound -> t'' = t')
          | (Err e, t'') => tx_state t' = Bound /\ tx_state t'' = (if rollback_failed e then Bound else RolledBack)
                            /\ left_behind e (tx_provider t'')
          end
       /\ match rollback t' with
          | (Ok _, t'') => tx_state t'' = RolledBack /\ clean (tx_provider t'') /\ (tx_state t' = RolledBack -> t'' = t')
          | (Err _, t'') => tx_state t'' = tx_state t' /\ tx_state t' <> RolledBack
          end
  end.
Proof.
  pose proof (transaction_acquire_spec p plan context Hclean) as Ha. split.
  - rewrite <- admits_exact. split.
    + intros [m Hm]. rewrite Hm in Ha. destruct Ha as (_ & _ & _ & Ha). destruct (Ha m eq_refl) as [_ ->]. done.
    + intros Hno. unfold acquire. destruct (admits _ _) as [[]|m]; [done|by exists m].
  - destruct (acquire p plan context) as [t|[e p']]; [|by destruct Ha as (? & _ & ? & _)].
    destruct Ha as (Hb & Ht & _). split; [done|]. cbv zeta. pose proof (transaction_run_owned calls t Ht) as Hr. split; [done|].
    set (t' := transaction_run t calls) in *. split; [unfold into_committed; by destruct (tx_state t')|]. split.
    + pose proof (transaction_commit_spec t' Hr) as H. destruct (commit t') as [[]  t'']; [|by destruct H as (? & _ & ? & _ & ?)].
      destruct H as (_ & -> & ?). split; [by intros ->|done].
    + pose proof (transaction_rollback_spec t' Hr) as H. destruct (rollback t') as [[]  t'']; [|by destruct H as (? & _ & ?)].
      destruct H as (Ho & Hs & ?). unfold owned in Ho. by rewrite Hs in Ho.
Qed.
End Ownership.

(** *** A provider of virtual displays *)

(** Displays by number, a binding is the displays it made, and the first
    commit and the first rollback fail. *)
Record Displays := mkDisplays { made : list Z; commit_fails : bool; rollback_fails : bool }.

#[local] Instance displays_provider : OutputProvider Displays unit Z (list Z) (list Z) unit string := {
  capabilities _ := mkCapabilities 1 4 Virtual true true true true true true ExactRestore;
  demand _ n := OutputDemand_new n;
  preflight n _ p := (Ok (range n), p);
  bind l p := (Ok l, mkDisplays l (commit_fails p) (rollback_fails p));
  verify l p := (Ok tt, (l, p));
  commit_binding l p := if commit_fails p then (Err "commit", (l, mkDisplays (made p) false (rollback_fails p))) else (Ok tt, (l, p));
  rollback_binding l p := if rollback_fails p then (Err "rollback", (l, mkDisplays (made p) (commit_fails p) false))
                          else (Ok tt, (l, mkDisplays [] (commit_fails p) false));
  evidence _ _ := tt;
  is_armed p _ := negb (bool_decide (made p = []))
}.

#[local] Instance displays_rules : OwnershipRules (fun p : Displays => made p = []) (fun p b => made p = b).
Proof.
  constructor; cbn.
  - done.
  - by intros ???? _ [= -> <-].
  - done.
  - done.
  - intros b p H. by destruct (commit_fails p).
  - intros b p b' p' H. destruct (rollback_fails p); [done|]. by intros [= <- <-].
  - intros b p e b' p' H. destruct (rollback_fails p); [|done]. by intros [= <- <- <-].
Defined.

(** The commit fails and so does its rollback; the next rollback succeeds. *)
Lemma output_transaction_owns_witness :
  exists t : OutputTransaction Displays (list Z), acquire (mkDisplays [] true true) 2 tt = Ok t /\ made (tx_provider t) = [0; 1]
    /\ tx_state (transaction_run t [CallCommit]) = Bound
    /\ tx_state (transaction_run t [CallCommit; CallRollback]) = RolledBack
    /\ owned (fun p => made p = []) (fun p b => made p = b) (transaction_run t [CallCommit; CallRollback]).
Proof.
  destruct (output_transaction_owns (fun p => made p = []) (fun p b => made p = b) (mkDisplays [] true true) 2 tt [CallCommit; CallRollback] eq_refl)
    as [_ H]. destruct (acquire (mkDisplays [] true true) 2 tt) as [t|e] eqn:E; [|by vm_compute in E].
  exists t. destruct H as (_ & H & _). split; [done|]. vm_compute in E. injection E as <-. split; [done|]. split; [done|]. split; [done|]. exact H.
Defined.
