(* ===== verification/Worklist.v ===== *)
(** * Worklist exploration

    The loop that several components share: items by index, some of them
    placed with a value; the item at the head of a worklist gives a value to
    each neighbour that has none, and the neighbour joins the worklist.  A
    queue or a stack differ in where a neighbour joins it. *)

From S2P Require Import Prelude.

(** ** Short chains *)

(** A chain leaves its start for the last time with some step. *)
Lemma rtc_leave (R : nat -> nat -> Prop) x y : rtc R x y ->
  y = x \/ exists z, R x z /\ z <> x /\ rtc (fun u v => R u v /\ v <> x) z y.
Proof.
  revert y. apply rtc_ind_r; [by left|]. intros y w _ Hyw IH. destruct (decide (w = x)) as [->|Hw]; [by left|right].
  destruct IH as [->|(z & Hz & Hne & Hr)]; [exists w; split_and!; [done..|apply rtc_refl]|].
  exists z. split_and!; [done..|]. by eapply rtc_r.
Qed.

(** Between members of a finite set a chain need not repeat one. *)
Lemma rtc_short n : forall (R : nat -> nat -> Prop) X x y, (length X <= n)%nat -> x ∈ X -> (forall u v, R u v -> v ∈ X) ->
  rtc R x y -> exists m, (m < n)%nat /\ nsteps R m x y.
Proof.
  induction n as [|n IH]; intros R X x y Hn Hx HR Hxy.
  { destruct X; [by apply not_elem_of_nil in Hx|cbn in Hn; lia]. }
  destruct (rtc_leave R x y Hxy) as [->|(z & Hz & Hne & Hr)]; [exists 0%nat; split; [lia|constructor]|].
  destruct (IH (fun u v => R u v /\ v <> x) (filter (fun v => v <> x) X) z y) as (m & Hm & Hs).
  - pose proof (length_filter_lt (fun v => v <> x) X x Hx ltac:(by intros [])). lia.
  - apply list_elem_of_filter. split; [done|by eapply HR].
  - intros u v [Huv Hv]. apply list_elem_of_filter. split; [done|by eapply HR].
  - done.
  - exists (S m). split; [lia|]. eapply nsteps_l; [exact Hz|].
    apply (nsteps_congruence id R) in Hs; [done|by intros u v []].
Qed.

Section Worklist.

(** [step i a j]: what item [i], placed with [a], gives to item [j]. *)
Context {A : Type} (step : nat -> A -> nat -> option A) (push : nat -> list nat -> list nat).

Abbreviation Placed := (list (option A)).

(** The inner loop, over the candidates of item [i]. *)
Fixpoint visit (i : nat) (a : A) (candidates : list nat) (placed : Placed) (queue : list nat) : Placed * list nat :=
  match candidates with
  | [] => (placed, queue)
  | j :: r =>
    match mjoin (placed !! j), step i a j with
    | None, Some b => visit i a r (<[j := Some b]> placed) (push j queue)
    | _, _ => visit i a r placed queue
    end
  end.

(** The outer loop; [None] is fuel that ran out. *)
Fixpoint explore (fuel : nat) (placed : Placed) (queue : list nat) : option Placed :=
  match queue with
  | [] => Some placed
  | i :: queue =>
    match fuel with
    | O => None
    | S fuel =>
      match mjoin (placed !! i) with
      | None => explore fuel placed queue
      | Some a => let '(placed, queue) := visit i a (seq 0 (length placed)) placed queue in explore fuel placed queue
      end
    end
  end.

(** From one placed item. *)
Definition explore_from (n k : nat) (a : A) : option Placed := explore n (<[k := Some a]> (replicate n None)) [k].

(** ** What it finds *)

Definition value (placed : Placed) (i : nat) (a : A) : Prop := placed !! i = Some (Some a).
Definition gives (placed : Placed) (i j : nat) : Prop := exists a b, value placed i a /\ value placed j b /\ step i a j = Some b.
Definition vacant (placed : Placed) : nat := length (filter (fun s => s = None) placed).

Lemma mjoin_value placed i a : mjoin (placed !! i) = Some a <-> value placed i a.
Proof. unfold value. destruct (placed !! i) as [[b|]|]; cbn; split; congruence. Qed.

Lemma vacant_insert placed i (a : A) : placed !! i = Some None -> S (vacant (<[i := Some a]> placed)) = vacant placed.
Proof.
  unfold vacant. revert i. induction placed as [|x r IH]; intros [|i] Hi; cbn in Hi; try done.
  - injection Hi as ->. cbn [insert list_insert]. rewrite filter_cons_False, filter_cons_True by done. done.
  - cbn [insert list_insert]. rewrite !filter_cons. specialize (IH i Hi). unfold insert in IH. case_decide; cbn [length]; by rewrite <- IH.
Qed.

Lemma gives_mono placed placed' i j : (forall k a, value placed k a -> value placed' k a) -> gives placed i j -> gives placed' i j.
Proof. intros H (a & b & ? & ? & ?). exists a, b. auto. Qed.

Hypothesis push_perm : forall j q, push j q ≡ₚ j :: q.

(** What a visit of [i] leaves: values stay, each candidate that [i] reaches
    has one, and the items that joined the worklist are the new ones. *)
Lemma visit_spec i a candidates : forall placed queue placed' queue',
  value placed i a -> (forall j, j ∈ candidates -> (j < length placed)%nat) ->
  visit i a candidates placed queue = (placed', queue') ->
  length placed' = length placed
  /\ (forall k b, value placed k b -> value placed' k b)
  /\ (forall j, j ∈ candidates -> is_Some (step i a j) -> exists b, value placed' j b)
  /\ exists fresh, queue' ≡ₚ fresh ++ queue
     /\ (forall j, j ∈ fresh -> gives placed' i j /\ (j ∈ candidates))
     /\ (forall k b, value placed' k b -> value placed k b \/ k ∈ fresh)
     /\ (vacant placed' + length fresh = vacant placed)%nat.
Proof.
  induction candidates as [|j r IH]; intros placed queue placed' queue' Ha Hc E; cbn [visit] in E.
  { injection E as <- <-. split; [done|]. split; [done|]. split; [intros j Hj; by apply not_elem_of_nil in Hj|].
    exists []. split; [done|]. split; [intros j Hj; by apply not_elem_of_nil in Hj|]. split; [by left|cbn; lia]. }
  assert (forall k, k ∈ r -> (k < length placed)%nat) as Hr by (intros k Hk; apply Hc, elem_of_cons; by right).
  assert (forall p q, visit i a r p q = (placed', queue') -> p = placed -> q = queue ->
    (is_Some (step i a j) -> exists b, value placed j b) ->
    length placed' = length placed /\ (forall k b, value placed k b -> value placed' k b)
    /\ (forall k, k ∈ j :: r -> is_Some (step i a k) -> exists b, value placed' k b)
    /\ exists fresh, queue' ≡ₚ fresh ++ queue /\ (forall k, k ∈ fresh -> gives placed' i k /\ (k ∈ j :: r))
       /\ (forall k b, value placed' k b -> value placed k b \/ k ∈ fresh) /\ (vacant placed' + length fresh = vacant placed)%nat) as Hskip.
  { intros p q E' -> -> Hj. destruct (IH _ _ _ _ Ha Hr E') as (H1 & H2 & H3 & fresh & H4 & H5 & H6).
    split; [done|]. split; [done|]. split.
    - intros k [->|Hk]%elem_of_cons Hs; [destruct (Hj Hs) as [b Hb]; exists b; by apply H2|by apply H3].
    - exists fresh. split; [done|]. split; [|done]. intros k Hk. destruct (H5 k Hk). split; [done|]. apply elem_of_cons. by right. }
  destruct (mjoin (placed !! j)) as [b|] eqn:Ej.
  { eapply Hskip; [exact E|done..|]. intros _. exists b. by apply mjoin_value. }
  destruct (step i a j) as [b|] eqn:Es; [|eapply Hskip; [exact E|done..|intros []; done]]. clear Hskip.
  assert (placed !! j = Some None) as Hj.
  { destruct (lookup_lt_is_Some_2 placed j ltac:(apply Hc, elem_of_cons; by left)) as [[x|] Hx]; [|done]. by rewrite Hx in Ej. }
  assert (j <> i) as Hne by (intros ->; unfold value in Ha; congruence).
  destruct (IH (<[j := Some b]> placed) (push j queue) placed' queue') as (H1 & H2 & H3 & fresh & H4 & H5 & H6 & H7); try done.
  { unfold value. by rewrite list_lookup_insert_ne. }
  { intros k Hk. rewrite length_insert. by apply Hr. }
  rewrite length_insert in H1.
  assert (value placed' j b) as Hb by (apply H2, list_lookup_insert_eq, lookup_lt_is_Some_1; by eexists).
  assert (forall k c, value placed k c -> value placed' k c) as Hkeep.
  { intros k c Hk. apply H2. unfold value. rewrite list_lookup_insert_ne; [done|]. intros ->. unfold value in Hk. congruence. }
  split; [done|]. split; [done|]. split; [intros k [->|Hk]%elem_of_cons Hs; [by exists b|by apply H3]|].
  exists (j :: fresh). split; [rewrite H4, push_perm; cbn; by rewrite Permutation_middle|]. split; [|split].
  - intros k [->|Hk]%elem_of_cons.
    + split; [|apply elem_of_cons; by left]. exists a, b. by split_and!; [apply Hkeep|..].
    + destruct (H5 k Hk). split; [done|]. apply elem_of_cons. by right.
  - intros k c Hk. destruct (H6 k c Hk) as [Hk'|Hk']; [|right; apply elem_of_cons; by right].
    destruct (decide (j = k)) as [->|Hjk]; [right; apply elem_of_cons; by left|left]. unfold value in *. by rewrite list_lookup_insert_ne in Hk'.
  - pose proof (vacant_insert placed j b Hj). cbn [length]. lia.
Qed.

Record explored (n k : nat) (a : A) (placed : Placed) (queue : list nat) : Prop := {
  ex_length : length placed = n;
  ex_start : value placed k a;
  ex_queue : forall i, i ∈ queue -> exists b, value placed i b;
  ex_chain : forall i b, value placed i b -> rtc (gives placed) k i;
  ex_done : forall i b j, value placed i b -> ~ (i ∈ queue) -> (j < n)%nat -> is_Some (step i b j) -> exists c, value placed j c
}.

Lemma explore_spec n k a fuel : forall placed queue, explored n k a placed queue -> (vacant placed + length queue <= fuel)%nat ->
  exists placed', explore fuel placed queue = Some placed' /\ explored n k a placed' [].
Proof.
  induction fuel as [|fuel IH]; intros placed [|i queue] Hinv Hf; cbn [explore]; try by exists placed.
  { cbn in Hf. lia. }
  destruct (ex_queue _ _ _ _ _ Hinv i ltac:(apply elem_of_cons; by left)) as [b Hb].
  rewrite (proj2 (mjoin_value _ _ _) Hb). destruct (visit _ _ _ _ _) as [placed' queue'] eqn:Ev.
  destruct Hinv as [Hl Hs Hq Hc Hd]. cbn [length] in Hf.
  apply visit_spec in Ev as (H1 & H2 & H3 & fresh & H4 & H5 & H6 & H7); [|done|intros j Hj%elem_of_seq; lia].
  apply (IH placed' queue'); [|rewrite H4, length_app; lia]. split; [congruence|by apply H2| | |].
  - intros j. rewrite H4. intros [Hj|Hj]%elem_of_app; [destruct (H5 j Hj) as [(? & c & _ & Hc' & _) _]; by exists c|].
    destruct (Hq j ltac:(apply elem_of_cons; by right)) as [c Hc']. exists c. by apply H2.
  - intros j c Hj. destruct (H6 j c Hj) as [Hj'|Hj'].
    + eapply rtc_subrel; [|by eapply Hc]. intros x y. by apply gives_mono.
    + eapply rtc_r; [|by apply H5]. eapply rtc_subrel; [|by eapply Hc]. intros x y. by apply gives_mono.
  - intros j c l Hj Hni Hln Hs'. rewrite H4 in Hni. destruct (decide (j = i)) as [->|Hji].
    + assert (c = b) as -> by (specialize (H2 i b Hb); unfold value in *; congruence). apply H3; [apply elem_of_seq; lia|done].
    + destruct (H6 j c Hj) as [Hj'|Hj']; [|exfalso; apply Hni, elem_of_app; by left].
      destruct (Hd j c l Hj') as [d Hd']; [|done..|exists d; by apply H2].
      intros [->|Hin]%elem_of_cons; [done|]. apply Hni, elem_of_app. by right.
Qed.

(** One unit of fuel per item is enough, and the items placed are those that a
    chain of steps reaches. *)
Lemma explore_from_spec n k a : (k < n)%nat -> exists placed, explore_from n k a = Some placed /\ explored n k a placed [].
Proof.
  intros Hk. set (start := <[k := Some a]> (replicate n None) : Placed).
  assert (value start k a) as Hs by (apply list_lookup_insert_eq; by rewrite length_replicate).
  assert (forall i b, value start i b -> i = k) as Honly.
  { intros i b Hi. destruct (decide (k = i)) as [|Hne]; [done|]. unfold value, start in Hi. rewrite list_lookup_insert_ne in Hi by done.
    by apply lookup_replicate in Hi as [? _]. }
  apply explore_spec.
  - split; [by unfold start; rewrite length_insert, length_replicate|done| | |].
    + intros i ->%list_elem_of_singleton. by exists a.
    + intros i b ->%Honly. apply rtc_refl.
    + intros i b j ->%Honly Hni. exfalso. by apply Hni, list_elem_of_singleton.
  - assert (vacant (replicate n None : Placed) = n) as Hv.
    { unfold vacant. clear. induction n as [|n IH]; [done|]. cbn [replicate]. rewrite filter_cons_True by done. cbn [length]. by rewrite IH. }
    pose proof (vacant_insert (replicate n None) k a) as Hi. rewrite Hv in Hi. specialize (Hi ltac:(by apply lookup_replicate)).
    change (vacant start + 1 <= n)%nat. unfold start. lia.
Qed.

(** When whether a step is possible does not depend on the value. *)
Lemma explored_iff n k a placed (E : nat -> nat -> Prop) i : explored n k a placed [] ->
  (forall i b j, value placed i b -> (is_Some (step i b j) <-> E i j)) -> (forall i j, E i j -> (j < n)%nat) ->
  (exists b, value placed i b) <-> rtc E k i.
Proof.
  intros [Hl Hs Hq Hc Hd] HE Hn. split.
  - intros [b Hi]. eapply rtc_subrel; [|by eapply Hc]. intros x y (c & d & Hx & Hy & Hst). apply (HE x c y Hx). by exists d.
  - intros Hi. revert i Hi. apply rtc_ind_r; [by eexists|]. intros y z _ Hyz [c Hy].
    eapply Hd; [exact Hy|apply not_elem_of_nil|by eapply Hn|by apply (HE y c z Hy)].
Qed.

(** An item that has a value has it after fewer steps than there are items. *)
Lemma explored_short n k a placed i b : explored n k a placed [] -> value placed i b ->
  exists m, (m < n)%nat /\ nsteps (gives placed) m k i.
Proof.
  intros Hex Hi. assert (forall j c, value placed j c -> j ∈ seq 0 n) as Hin.
  { intros j c Hj. apply elem_of_seq. rewrite <- (ex_length _ _ _ _ _ Hex). apply lookup_lt_Some in Hj. lia. }
  apply (rtc_short n (gives placed) (seq 0 n)); [by rewrite length_seq|by eapply Hin, ex_start| |by eapply ex_chain].
  intros u v (_ & c & _ & Hv & _). by eapply Hin.
Qed.

End Worklist.
