(* ===== verification/FloatExact.v ===== *)
(** * Integers in binary64

    An integer below 2^53 is a binary64 number: it converts, divides by one,
    rounds and casts back to itself.  Used where the code scales pixels by a
    factor that is one. *)

From Stdlib Require Import SpecFloat.
From S2P Require Import Prelude Float64.

Lemma digits2_pos_bounds p : 2 ^ (Zpos (digits2_pos p) - 1) <= Zpos p < 2 ^ Zpos (digits2_pos p).
Proof.
  induction p as [p IH|p IH|]; cbn [digits2_pos]; [| |done];
    rewrite Pos2Z.inj_succ; replace (Z.succ (Zpos (digits2_pos p)) - 1) with (Z.succ (Zpos (digits2_pos p) - 1)) by lia;
    rewrite !Z.pow_succ_r by lia; lia.
Qed.

Lemma digits2_unique p d : 2 ^ (d - 1) <= Zpos p < 2 ^ d -> Zpos (digits2_pos p) = d.
Proof.
  intros H. pose proof (digits2_pos_bounds p) as Hp. set (k := Zpos (digits2_pos p)) in *.
  assert (0 < d) by (destruct (Z_lt_le_dec 0 d) as [|Hd]; [done|]; pose proof (Z.pow_le_mono_r 2 d 0 ltac:(lia) Hd); lia).
  assert (0 < k) by done.
  apply Z.le_antisymm; apply Z.nlt_ge; intros Hlt.
  - pose proof (Z.pow_le_mono_r 2 d (k - 1) ltac:(lia) ltac:(lia)). lia.
  - pose proof (Z.pow_le_mono_r 2 k (d - 1) ltac:(lia) ltac:(lia)). lia.
Qed.

Lemma shift_xO p d : Zpos (Pos.iter xO p d) = Zpos p * 2 ^ Zpos d.
Proof.
  induction d as [|d IH] using Pos.peano_ind; [cbn; lia|].
  rewrite Pos.iter_succ, Pos2Z.inj_xO, IH, Pos2Z.inj_succ, Z.pow_succ_r by lia. lia.
Qed.

(** A full mantissa in the range of the exponents is not rounded. *)
Lemma round_exact s m e : 2 ^ 52 <= Zpos m < 2 ^ 53 -> -1074 <= e <= 971 ->
  binary_round_aux 53 1024 s (Zpos m) e loc_Exact = S754_finite s m e.
Proof.
  intros Hm He. pose proof (digits2_unique m 53 Hm) as Hd.
  assert (forall l, shr_fexp 53 1024 (Zpos m) e l = (shr_record_of_loc (Zpos m) l, e)) as Hs.
  { intros l. unfold shr_fexp, shr, fexp, emin, Zdigits2. rewrite Hd.
    replace (Z.max (53 + e - 53) (3 - 1024 - 53) - e) with 0 by lia. done. }
  unfold binary_round_aux. rewrite Hs. cbn [shr_record_of_loc shr_m loc_of_shr_record round_nearest_even].
  rewrite Hs. cbn [shr_record_of_loc shr_m]. by rewrite (proj2 (Z.leb_le e (1024 - 53))) by lia.
Qed.

(** Nor one with a zero bit below it. *)
Lemma round_even_exact s m e : 2 ^ 52 <= Zpos m < 2 ^ 53 -> -1073 <= e <= 970 ->
  binary_round_aux 53 1024 s (Zpos m~0) e loc_Exact = S754_finite s m (e + 1).
Proof.
  intros Hm He. assert (Zpos (digits2_pos m~0) = 54) as Hd by (apply digits2_unique; lia).
  pose proof (round_exact s m (e + 1) Hm ltac:(lia)) as Hr. unfold binary_round_aux in *.
  assert (shr_fexp 53 1024 (Zpos m~0) e loc_Exact = shr_fexp 53 1024 (Zpos m) (e + 1) loc_Exact) as ->; [|exact Hr].
  pose proof (digits2_unique m 53 Hm) as Hd'. unfold shr_fexp, fexp, emin, Zdigits2. rewrite Hd, Hd'.
  replace (Z.max (54 + e - 53) (3 - 1024 - 53) - e) with 1 by lia.
  replace (Z.max (53 + (e + 1) - 53) (3 - 1024 - 53) - (e + 1)) with 0 by lia. done.
Qed.

(** The integer as a mantissa of 53 bits. *)
Definition mantissa_of (p : positive) : Z * Z := let d := Zpos (digits2_pos p) in (Zpos p * 2 ^ (53 - d), d - 53).

Lemma mantissa_of_bounds p : Zpos p < 2 ^ 53 -> 2 ^ 52 <= (mantissa_of p).1 < 2 ^ 53 /\ -52 <= (mantissa_of p).2 <= 0.
Proof.
  intros Hp. pose proof (digits2_pos_bounds p) as Hd. unfold mantissa_of. cbn [fst snd]. set (d := Zpos (digits2_pos p)) in *.
  assert (1 <= d <= 53) as Hr.
  { split; [lia|]. apply Z.nlt_ge. intros Hlt. pose proof (Z.pow_le_mono_r 2 53 (d - 1) ltac:(lia) ltac:(lia)). lia. }
  split; [|lia]. replace 52 with ((d - 1) + (53 - d)) at 1 by lia.
  replace (2 ^ 53) with (2 ^ (d + (53 - d))) by (f_equal; lia). rewrite !Z.pow_add_r by lia.
  pose proof (Z.pow_pos_nonneg 2 (53 - d) ltac:(lia) ltac:(lia)). nia.
Qed.

Lemma binary_round_int s p : Zpos p < 2 ^ 53 ->
  binary_round 53 1024 s p 0 = S754_finite s (Z.to_pos (mantissa_of p).1) (mantissa_of p).2.
Proof.
  intros Hp. pose proof (mantissa_of_bounds p Hp) as [Hm He]. unfold binary_round, shl_align, fexp, emin.
  unfold mantissa_of in *. cbn [fst snd] in *. set (d := Zpos (digits2_pos p)) in *.
  replace (Z.max (d + 0 - 53) (3 - 1024 - 53) - 0) with (d - 53) by lia.
  replace (Z.max (d + 0 - 53) (3 - 1024 - 53)) with (d - 53) by lia.
  destruct (d - 53) as [|k|k] eqn:E; [|lia|].
  - rewrite round_exact; [|replace (53 - d) with 0 in Hm by lia; lia|lia]. f_equal. replace (53 - d) with 0 by lia. by rewrite Z.pow_0_r, Z.mul_1_r.
  - pose proof (shift_xO p k) as Hs. replace (53 - d) with (Zpos k) in * by lia. rewrite round_exact by (rewrite ?Hs; lia).
    f_equal. by rewrite <- Hs.
Qed.

(** The float of an integer, by its sign and magnitude. *)
Lemma of_int_pos p : Zpos p < 2 ^ 53 -> of_int (Zpos p) = S754_finite false (Z.to_pos (mantissa_of p).1) (mantissa_of p).2.
Proof. intros Hp. unfold of_int, binary_normalize. by apply binary_round_int. Qed.
Lemma of_int_neg p : Zpos p < 2 ^ 53 -> of_int (Zneg p) = S754_finite true (Z.to_pos (mantissa_of p).1) (mantissa_of p).2.
Proof. intros Hp. unfold of_int, binary_normalize. by apply binary_round_int. Qed.

Lemma div_one s m e : 2 ^ 52 <= Zpos m < 2 ^ 53 -> -1000 <= e <= 900 ->
  f64_div (S754_finite s m e) (of_int 1) = S754_finite s m e.
Proof.
  intros Hm He. change (of_int 1) with (S754_finite false 4503599627370496 (-52)). unfold f64_div, SFdiv, SFdiv_core_binary.
  rewrite xorb_false_r. unfold Zdigits2. rewrite (digits2_unique m 53 Hm). unfold fexp, emin.
  change (Zpos (digits2_pos 4503599627370496)) with 53.
  replace (Z.min (Z.max (53 + e - (53 + -52) - 53) (3 - 1024 - 53)) (e - -52)) with (e - 1) by lia.
  replace (e - -52 - (e - 1)) with 53 by lia. cbv iota zeta beta. rewrite Z.shiftl_mul_pow2 by lia.
  replace (Zpos m * 2 ^ 53) with (4503599627370496 * Zpos m~0) by lia.
  pose proof (Z.div_eucl_eq (4503599627370496 * Zpos m~0) 4503599627370496 ltac:(lia)) as _.
  assert (Z.div_eucl (4503599627370496 * Zpos m~0) 4503599627370496 = (Zpos m~0, 0)) as ->.
  { rewrite (surjective_pairing (Z.div_eucl _ _)). change (fst (Z.div_eucl ?a ?b)) with (a / b). change (snd (Z.div_eucl ?a ?b)) with (a mod b).
    rewrite Z.mul_comm, Z.div_mul, Z.mod_mul by lia. done. }
  change (new_location 4503599627370496 0) with loc_Exact. rewrite round_even_exact by lia. f_equal. lia.
Qed.

(** The rounded magnitude of an integer. *)
Lemma round_magnitude_int p : Zpos p < 2 ^ 53 -> round_magnitude (Z.to_pos (mantissa_of p).1) (mantissa_of p).2 = Zpos p.
Proof.
  intros Hp. pose proof (mantissa_of_bounds p Hp) as [Hm He]. unfold round_magnitude. rewrite Z2Pos.id by lia.
  unfold mantissa_of in *. cbn [fst snd] in *. set (d := Zpos (digits2_pos p)) in *. destruct (Z.leb_spec 0 (d - 53)).
  - replace (d - 53) with 0 by lia. replace (53 - d) with 0 by lia. rewrite Z.pow_0_r, Z.shiftl_0_r. lia.
  - replace (- (d - 53) - 1) with (52 - d) by lia. replace (- (d - 53)) with (53 - d) by lia.
    rewrite Z.shiftl_1_l, Z.shiftr_div_pow2 by lia. symmetry.
    apply Z.div_unique with (2 ^ (52 - d)); [|lia]. left. replace (53 - d) with (Z.succ (52 - d)) by lia.
    rewrite Z.pow_succ_r by lia. pose proof (Z.pow_pos_nonneg 2 (52 - d) ltac:(lia) ltac:(lia)). lia.
Qed.

Lemma signed_value_int s p : Zpos p < 2 ^ 53 ->
  signed_value (S754_finite s (Z.to_pos (mantissa_of p).1) (mantissa_of p).2) = (if s then Zneg p else Zpos p).
Proof.
  intros Hp. pose proof (mantissa_of_bounds p Hp) as [Hm He]. unfold signed_value. rewrite Z2Pos.id by lia.
  unfold mantissa_of in *. cbn [fst snd] in *. set (d := Zpos (digits2_pos p)) in *.
  assert (Z.shiftl (Zpos p * 2 ^ (53 - d)) (d - 53) = Zpos p) as ->; [|by destruct s].
  replace (d - 53) with (- (53 - d)) by lia. rewrite Z.shiftl_opp_r, Z.shiftr_div_pow2 by lia.
  rewrite Z.div_mul; [done|]. pose proof (Z.pow_pos_nonneg 2 (53 - d) ltac:(lia) ltac:(lia)). lia.
Qed.

(** An integer over one, rounded. *)
Lemma over_one z : - 2 ^ 53 < z < 2 ^ 53 -> trunc_as_signed 64 (f64_round (f64_div (of_int z) (of_int 1))) = z.
Proof.
  intros Hz. destruct z as [|p|p]; [by vm_compute| |]; assert (Zpos p < 2 ^ 53) as Hp by lia;
    pose proof (mantissa_of_bounds p Hp) as [Hm He].
  - rewrite of_int_pos, div_one by (rewrite ?Z2Pos.id; lia). unfold f64_round. rewrite round_magnitude_int by done.
    change (binary_normalize 53 1024 (Zpos p) 0 false) with (of_int (Zpos p)). rewrite of_int_pos by done.
    unfold trunc_as_signed. rewrite signed_value_int by done. unfold saturate_signed. lia.
  - rewrite of_int_neg, div_one by (rewrite ?Z2Pos.id; lia). unfold f64_round. rewrite round_magnitude_int by done.
    assert (binary_normalize 53 1024 (- Zpos p) 0 true = of_int (Zneg p)) as -> by done. rewrite of_int_neg by done.
    unfold trunc_as_signed. rewrite signed_value_int by done. unfold saturate_signed. lia.
Qed.
