(* ===== verification/WaylandOutputs.v ===== *)
(** * Session: the virtual outputs of a headless Wayland session

    Models [shared/session/src/wayland_outputs.rs] with the output request of
    [wayland_session.rs]: the layout a compositor accepts, the plan that moves
    a desktop to other outputs, the check of what the compositor reports, and
    the positions in its logical layout mode.  Positions are [i32]s, sizes
    [u32]s, UI scales [f64]s ([Float64]).  The two walks are [Worklist]'s. *)

From Stdlib Require Import SpecFloat.
From stdpp Require Import strings.
From S2P Require Import Prelude Float64 FloatExact Worklist.

(** ** wayland_session.rs *)

Definition MAX_VIRTUAL_OUTPUT_EDGE : Z := 16384.
Definition MAX_VIRTUAL_OUTPUT_REFRESH_HZ : Z := 240.

Record VirtualOutputRequest := mkOutputRequest { vr_width : Z; vr_height : Z; vr_refresh_hz : Z }.

#[export] Instance VirtualOutputRequest_eq_dec : EqDecision VirtualOutputRequest.
Proof. solve_decision. Defined.

Inductive VirtualOutputRequestError := RequestSize (width height : Z) | RequestRefresh (refresh : Z).

Definition VirtualOutputRequest_new (width height refresh_hz : Z) : result VirtualOutputRequestError VirtualOutputRequest :=
  _ ← guard_err ((width =? 0) || (height =? 0) || (MAX_VIRTUAL_OUTPUT_EDGE <? width) || (MAX_VIRTUAL_OUTPUT_EDGE <? height))
        (RequestSize width height);
  _ ← guard_err ((refresh_hz =? 0) || (MAX_VIRTUAL_OUTPUT_REFRESH_HZ <? refresh_hz)) (RequestRefresh refresh_hz);
  Ok (mkOutputRequest width height refresh_hz).

(** ** The compositor's mode *)

Definition REMOTE_MONITORS_MIN_MAJOR : Z := 49.
Definition MAX_WAYLAND_OUTPUTS : Z := 4.

Inductive VirtualOutputMode := StartupMonitors | RemoteMonitors.

Definition for_compositor_major (major : option Z) : VirtualOutputMode :=
  match major with Some m => if REMOTE_MONITORS_MIN_MAJOR <=? m then RemoteMonitors else StartupMonitors | None => StartupMonitors end.
Definition reconfigurable (m : VirtualOutputMode) : bool := match m with RemoteMonitors => true | StartupMonitors => false end.
Definition mode_max_outputs (m : VirtualOutputMode) : Z := match m with StartupMonitors => 1 | RemoteMonitors => MAX_WAYLAND_OUTPUTS end.

(** ** Placed outputs *)

Record OutputDensity := mkDensity { den_width_mm : Z; den_height_mm : Z; den_logical_width : Z }.

#[export] Instance OutputDensity_eq_dec : EqDecision OutputDensity.
Proof. solve_decision. Defined.

Definition no_density : OutputDensity := mkDensity 0 0 0.
Definition is_known (d : OutputDensity) : bool := ((0 <? den_width_mm d) && (0 <? den_height_mm d)) || (0 <? den_logical_width d).

Record PlacedOutput := mkOutput { po_request : VirtualOutputRequest; po_x : Z; po_y : Z; po_density : OutputDensity }.

#[export] Instance PlacedOutput_eq_dec : EqDecision PlacedOutput.
Proof. solve_decision. Defined.

Definition at_origin (r : VirtualOutputRequest) : PlacedOutput := mkOutput r 0 0 no_density.
Definition with_density (o : PlacedOutput) (d : OutputDensity) : PlacedOutput := mkOutput (po_request o) (po_x o) (po_y o) d.

Definition right (o : PlacedOutput) : Z := po_x o + vr_width (po_request o).
Definition bottom (o : PlacedOutput) : Z := po_y o + vr_height (po_request o).

Definition overlaps (a b : PlacedOutput) : bool :=
  (po_x a <? right b) && (po_x b <? right a) && (po_y a <? bottom b) && (po_y b <? bottom a).

Definition touches (a b : PlacedOutput) : bool :=
  let vertical_overlap := Z.max (po_y a) (po_y b) <? Z.min (bottom a) (bottom b) in
  let horizontal_overlap := Z.max (po_x a) (po_x b) <? Z.min (right a) (right b) in
  (((right a =? po_x b) || (right b =? po_x a)) && vertical_overlap)
  || (((bottom a =? po_y b) || (bottom b =? po_y a)) && horizontal_overlap).

(** ** The layout a compositor accepts *)

Inductive LayoutError :=
| LayoutCount (requested max : Z)
| LayoutOverlap (first second : Z)
| LayoutDetached (index : Z)
| NotAnchored (x y : Z).

(** The inner and the outer loop over the pairs. *)
Fixpoint overlap_of (output : PlacedOutput) (index : Z) (others : list PlacedOutput) : option Z :=
  match others with
  | [] => None
  | other :: r => if overlaps output other then Some index else overlap_of output (index + 1) r
  end.
Fixpoint first_overlap (index : Z) (outputs : list PlacedOutput) : option (Z * Z) :=
  match outputs with
  | [] => None
  | output :: r =>
    match overlap_of output (index + 1) r with Some other => Some (index, other) | None => first_overlap (index + 1) r end
  end.

(** The outputs that the first one reaches: a reached one is [Some tt], and
    the frontier is a stack. *)
Definition reach (outputs : list PlacedOutput) (index : nat) (_ : unit) (other : nat) : option unit :=
  a ← outputs !! index; b ← outputs !! other; if touches a b then Some tt else None.
Definition flood (outputs : list PlacedOutput) : option (list (option unit)) := explore_from (reach outputs) cons (length outputs) 0 tt.

(** [position(|reached| !reached)] *)
Fixpoint first_vacant {A} (index : Z) (l : list (option A)) : option Z :=
  match l with [] => None | None :: _ => Some index | Some _ :: r => first_vacant (index + 1) r end.

(** [min().unwrap_or(0)] *)
Definition least (l : list Z) : Z := match l with [] => 0 | x :: r => fold_left Z.min r x end.

(** The flood does not run out of fuel. *)
Definition validate_layout (outputs : list PlacedOutput) (mode : VirtualOutputMode) : result LayoutError unit :=
  _ ← guard_err ((len outputs =? 0) || (mode_max_outputs mode <? len outputs)) (LayoutCount (len outputs) (mode_max_outputs mode));
  _ ← match first_overlap 0 outputs with Some (first, second) => Err (LayoutOverlap first second) | None => Ok tt end;
  reached ← ok_or (flood outputs) (LayoutDetached 0);
  _ ← match first_vacant 0 reached with Some detached => Err (LayoutDetached detached) | None => Ok tt end;
  let x := least (map po_x outputs) in
  let y := least (map po_y outputs) in
  guard_err (negb ((x =? 0) && (y =? 0))) (NotAnchored x y).

(** ** Moving a desktop to other outputs *)

(** [u32] to [i32], saturating. *)
Definition width_i32 (width : Z) : Z := match try_signed 32 width with Some w => w | None => 2 ^ 31 - 1 end.

Fixpoint left_to_right_from (x : Z) (requests : list VirtualOutputRequest) : list PlacedOutput :=
  match requests with
  | [] => []
  | r :: rest => mkOutput r x 0 no_density :: left_to_right_from (Z.min (2 ^ 31 - 1) (x + width_i32 (vr_width r))) rest
  end.
Definition left_to_right (requests : list VirtualOutputRequest) : list PlacedOutput := left_to_right_from 0 requests.

Inductive Reconfiguration :=
| Unchanged
| InPlace (resized : list Z) (moved : bool)
| Recreate.

Inductive ReconfigureError :=
| ReconfigureLayout (e : LayoutError)
| Fixed
| ReconfigureGeneration (current requested : Z).

(** The indices whose request changes, from [index] on. *)
Fixpoint resized_from (index : Z) (pairs : list (PlacedOutput * PlacedOutput)) : list Z :=
  match pairs with
  | [] => []
  | (old, new) :: r =>
    (if bool_decide (po_request old = po_request new) then [] else [index]) ++ resized_from (index + 1) r
  end.

Definition plan_reconfiguration (current requested : list PlacedOutput) (mode : VirtualOutputMode) : result ReconfigureError Reconfiguration :=
  match validate_layout requested mode with
  | Err e => Err (ReconfigureLayout e)
  | Ok _ =>
    if bool_decide (current = requested) then Ok Unchanged
    else if negb (reconfigurable mode) then Err Fixed
    else if negb (len current =? len requested) then Ok Recreate
    else
      Ok (InPlace (resized_from 0 (zip current requested))
            (existsb (fun p => negb ((po_x p.1 =? po_x p.2) && (po_y p.1 =? po_y p.2))) (zip current requested)))
  end.

Definition check_next_generation (current requested : Z) : result ReconfigureError unit :=
  guard_err (negb ((current <? umax 64) && (requested =? current + 1))) (ReconfigureGeneration current requested).

Inductive TopologyReattach := Reattach | ReconfigureInPlace | Replace.

Definition reattach_topology_action (mode : VirtualOutputMode) (matches : bool) : TopologyReattach :=
  if matches then Reattach else if reconfigurable mode then ReconfigureInPlace else Replace.

(** ** What the compositor reports *)

Record ObservedPlacement := mkObserved { ob_connector : string; ob_x : Z; ob_y : Z }.

Inductive PlacementMismatch :=
| Missing (connector : string)
| Moved (connector : string) (expected observed : Z * Z)
| Scaled (connector : string) (expected observed : Z)
| Unexpected (connector : string).

(** One requested output. *)
Definition verify_one (observed : list ObservedPlacement) (requested : string * PlacedOutput) : result PlacementMismatch unit :=
  let '(connector, placed) := requested in
  found ← ok_or (List.find (fun o => bool_decide (ob_connector o = connector)) observed) (Missing connector);
  guard_err (negb ((ob_x found =? po_x placed) && (ob_y found =? po_y placed)))
    (Moved connector (po_x placed, po_y placed) (ob_x found, ob_y found)).

Definition verify_placement (requested : list (string * PlacedOutput)) (observed : list ObservedPlacement) : result PlacementMismatch unit :=
  _ ← forM_err (verify_one observed) requested;
  match List.find (fun o => negb (existsb (fun r => bool_decide (r.1 = ob_connector o)) requested)) observed with
  | Some extra => Err (Unexpected (ob_connector extra))
  | None => Ok tt
  end.

(** ** Absolute input and the logical layout mode *)

Inductive LayoutMode := Logical | Physical.
Definition from_mutter (value : option Z) : LayoutMode := if bool_decide (value = Some 1) then Logical else Physical.

Inductive AbsoluteInputStream := MonitorStream | VirtualStream.

(** A scale that is not a positive number counts as 1. *)
Definition usable_scale (scale : f64) : f64 := if Float64.is_finite scale && f64_ltb f64_zero scale then scale else of_int 1.

Definition absolute_stream_coordinate (kind : AbsoluteInputStream) (layout : LayoutMode) (scale : f64) (p : f64 * f64) : f64 * f64 :=
  match kind, layout with
  | VirtualStream, Logical => (f64_div p.1 (usable_scale scale), f64_div p.2 (usable_scale scale))
  | _, _ => p
  end.

Record ScaledOutput := mkScaled { so_x : Z; so_y : Z; so_width : Z; so_height : Z; so_scale : f64 }.

(** [(value as f64 / scale).round() as i64] *)
Definition over_scale (value : Z) (scale : f64) : Z := trunc_as_signed 64 (f64_round (f64_div (of_int value) (usable_scale scale))).
Definition logical_size (o : ScaledOutput) : Z * Z := (over_scale (so_width o) (so_scale o), over_scale (so_height o) (so_scale o)).
Definition scaled (o : ScaledOutput) (offset : Z) : Z := over_scale offset (so_scale o).

Inductive LogicalLayoutError := LogicalDetached (index : Z) | Inconsistent (index : Z).

Inductive Side := SideRight | SideLeft | SideBelow | SideAbove.
#[export] Instance Side_eq_dec : EqDecision Side.
Proof. solve_decision. Defined.

(** [i64] sums; they wrap where overflow is not checked (a build that checks it
    panics there). *)
Definition wrap_i64 (z : Z) : Z := (z + 2 ^ 63) mod 2 ^ 64 - 2 ^ 63.
Definition add_i64 (a b : Z) : Z := wrap_i64 (a + b).
Definition sub_i64 (a b : Z) : Z := wrap_i64 (a - b).

(** [(x, y, width, height)] *)
Definition Rect : Type := Z * Z * Z * Z.

Definition side_of (a b : Rect) : option Side :=
  let '(ax, ay, aw, ah) := a in
  let '(bx, by_, bw, bh) := b in
  let rows := (ay <? add_i64 by_ bh) && (by_ <? add_i64 ay ah) in
  let columns := (ax <? add_i64 bx bw) && (bx <? add_i64 ax aw) in
  if rows && (add_i64 ax aw =? bx) then Some SideRight
  else if rows && (add_i64 bx bw =? ax) then Some SideLeft
  else if columns && (add_i64 ay ah =? by_) then Some SideBelow
  else if columns && (add_i64 by_ bh =? ay) then Some SideAbove
  else None.

Definition pixel_rect (o : ScaledOutput) : Rect := (so_x o, so_y o, so_width o, so_height o).
Definition touching (a b : ScaledOutput) : option Side := side_of (pixel_rect a) (pixel_rect b).

(** The closure [along]. *)
Definition along (a : ScaledOutput) (a_start a_extent b_start b_extent a_logical b_logical a_origin : Z) : Z :=
  let offset := sub_i64 b_start a_start in
  if offset =? 0 then a_origin
  else if add_i64 offset b_extent =? a_extent then sub_i64 (add_i64 a_origin a_logical) b_logical
  else add_i64 a_origin (scaled a offset).

Definition logical_neighbour (a : ScaledOutput) (origin : Z * Z) (b : ScaledOutput) (side : Side) : Z * Z :=
  let '(alw, alh) := logical_size a in
  let '(blw, blh) := logical_size b in
  let down := along a (so_y a) (so_height a) (so_y b) (so_height b) alh blh origin.2 in
  let across := along a (so_x a) (so_width a) (so_x b) (so_width b) alw blw origin.1 in
  match side with
  | SideRight => (add_i64 origin.1 alw, down)
  | SideLeft => (sub_i64 origin.1 blw, down)
  | SideBelow => (across, add_i64 origin.2 alh)
  | SideAbove => (across, sub_i64 origin.2 blh)
  end.

Definition logical_rect (p : Z * Z) (o : ScaledOutput) : Rect := (p.1, p.2, (logical_size o).1, (logical_size o).2).

Definition rects_overlap (a b : Rect) : bool :=
  let '(ax, ay, aw, ah) := a in
  let '(bx, by_, bw, bh) := b in
  (ax <? add_i64 bx bw) && (bx <? add_i64 ax aw) && (ay <? add_i64 by_ bh) && (by_ <? add_i64 ay ah).

(** One pair of the check. *)
Definition pair_holds (a b : ScaledOutput) (pa pb : Z * Z) : bool :=
  match touching a b with
  | Some side => bool_decide (side_of (logical_rect pa a) (logical_rect pb b) = Some side)
  | None => true
  end
  && negb (rects_overlap (logical_rect pa a) (logical_rect pb b)).

Fixpoint check_against (a : ScaledOutput) (pa : Z * Z) (index : Z) (others : list (ScaledOutput * (Z * Z))) : result LogicalLayoutError unit :=
  match others with
  | [] => Ok tt
  | (b, pb) :: r => _ ← guard_err (negb (pair_holds a b pa pb)) (Inconsistent index); check_against a pa (index + 1) r
  end.
Fixpoint check_pairs (index : Z) (outputs : list (ScaledOutput * (Z * Z))) : result LogicalLayoutError unit :=
  match outputs with
  | [] => Ok tt
  | (a, pa) :: r => _ ← check_against a pa (index + 1) r; check_pairs (index + 1) r
  end.

(** The walk of a queue; an output in the queue has its position. *)
Definition neighbour_position (outputs : list ScaledOutput) (a : nat) (origin : Z * Z) (b : nat) : option (Z * Z) :=
  oa ← outputs !! a; ob ← outputs !! b; side ← touching oa ob; Some (logical_neighbour oa origin ob side).
Definition append (j : nat) (queue : list nat) : list nat := queue ++ [j].
Definition logical_walk (outputs : list ScaledOutput) : option (list (option (Z * Z))) :=
  explore_from (neighbour_position outputs) append (length outputs) 0 (0, 0).

Fixpoint placed_positions (index : Z) (placed : list (option (Z * Z))) : result LogicalLayoutError (list (Z * Z)) :=
  match placed with
  | [] => Ok []
  | p :: r => p ← ok_or p (LogicalDetached index); r ← placed_positions (index + 1) r; Ok (p :: r)
  end.

Fixpoint anchored (index : Z) (min_x min_y : Z) (positions : list (Z * Z)) : result LogicalLayoutError (list (Z * Z)) :=
  match positions with
  | [] => Ok []
  | (x, y) :: r =>
    x ← ok_or (try_signed 32 (sub_i64 x min_x)) (Inconsistent index);
    y ← ok_or (try_signed 32 (sub_i64 y min_y)) (Inconsistent index);
    r ← anchored (index + 1) min_x min_y r; Ok ((x, y) :: r)
  end.

(** The walk does not run out of fuel. *)
Definition logical_positions (outputs : list ScaledOutput) : result LogicalLayoutError (list (Z * Z)) :=
  match outputs with
  | [] => Ok []
  | _ =>
    placed ← ok_or (logical_walk outputs) (LogicalDetached 0);
    positions ← placed_positions 0 placed;
    _ ← check_pairs 0 (zip outputs positions);
    anchored 0 (least (map fst positions)) (least (map snd positions)) positions
  end.

(** ** Pairs, positions and minima *)

Lemma ordered_pairs {A} (R : A -> A -> Prop) l :
  ForallOrdPairs R l <-> forall i j a b, (i < j)%nat -> l !! i = Some a -> l !! j = Some b -> R a b.
Proof.
  induction l as [|x l IH]; [split; [done|constructor]|]. split.
  - inversion 1 as [|? ? Hx Hl]; subst. intros [|i] [|j] a b Hij Ha Hb; [lia| |lia|].
    + injection Ha as <-. rewrite Forall_lookup in Hx. by eapply Hx.
    + eapply IH; [exact Hl| |exact Ha|exact Hb]. lia.
  - intros H. constructor.
    + apply Forall_lookup. intros i b Hb. by apply (H 0%nat (S i) x b ltac:(lia)).
    + apply IH. intros i j a b Hij. apply (H (S i) (S j)). lia.
Qed.

Lemma least_spec l : l <> [] -> (least l ∈ l) /\ forall x, x ∈ l -> least l <= x.
Proof.
  destruct l as [|x r]; [done|]. intros _. cbn [least]. revert x. induction r as [|y r IH]; intros x; cbn [fold_left].
  - split; [apply elem_of_cons; by left|]. intros z ->%list_elem_of_singleton. lia.
  - destruct (IH (Z.min x y)) as [H1 H2]. split.
    + apply elem_of_cons in H1 as [->|H1]; [|apply elem_of_cons; right; apply elem_of_cons; by right].
      destruct (Z.min_spec x y) as [[_ ->]|[_ ->]]; [apply elem_of_cons; by left|apply elem_of_cons; right; apply elem_of_cons; by left].
    + assert (fold_left Z.min r (Z.min x y) <= Z.min x y) as Hm by (apply H2, elem_of_cons; by left).
      intros z [->|[->|Hz]%elem_of_cons]%elem_of_cons; [lia|lia|]. apply H2, elem_of_cons. by right.
Qed.

Lemma first_vacant_None {A} (l : list (option A)) : forall k,
  first_vacant k l = None <-> forall i, (i < length l)%nat -> exists a, l !! i = Some (Some a).
Proof.
  induction l as [|[x|] l IH]; intros k; cbn [first_vacant].
  - split; [cbn; lia|done].
  - rewrite IH. split; intros H i Hi; [destruct i; [by eexists|apply H; cbn in Hi; lia]|]. apply (H (S i)). cbn. lia.
  - split; [done|]. intros H. by destruct (H 0%nat ltac:(cbn; lia)).
Qed.

(** ** The layout, by pixels *)

Definition sized (o : PlacedOutput) : Prop := 0 < vr_width (po_request o) /\ 0 < vr_height (po_request o).

(** The pixels of an output. *)
Definition covers (o : PlacedOutput) (p : Z * Z) : Prop := po_x o <= p.1 < right o /\ po_y o <= p.2 < bottom o.

(** Outputs without a common pixel, and outputs with neighbouring pixels. *)
Definition apart (a b : PlacedOutput) : Prop := forall p, covers a p -> covers b p -> False.
Definition next_to (p q : Z * Z) : Prop := Z.abs (p.1 - q.1) + Z.abs (p.2 - q.2) = 1.
Definition adjacent (a b : PlacedOutput) : Prop := exists p q, covers a p /\ covers b q /\ next_to p q.

Lemma overlaps_apart a b : sized a -> sized b -> overlaps a b = false <-> apart a b.
Proof.
  intros [Ha1 Ha2] [Hb1 Hb2]. unfold overlaps, apart, covers, right, bottom. split.
  - intros H [px py] [H1 H2] [H3 H4]. cbn in *. rewrite !andb_false_iff, !Z.ltb_ge in H. lia.
  - intros H. apply not_true_iff_false. rewrite !andb_true_iff, !Z.ltb_lt. intros H'.
    apply (H (Z.max (po_x a) (po_x b), Z.max (po_y a) (po_y b))); cbn; lia.
Qed.

Lemma touches_adjacent a b : sized a -> sized b -> apart a b -> touches a b = true <-> adjacent a b.
Proof.
  intros [Ha1 Ha2] [Hb1 Hb2] Hap. unfold touches, adjacent, next_to, apart, covers, right, bottom in *.
  rewrite !orb_true_iff, !andb_true_iff, !orb_true_iff, !Z.eqb_eq, !Z.ltb_lt. split.
  - intros [[[E|E] H]|[[E|E] H]].
    + exists (po_x b - 1, Z.max (po_y a) (po_y b)), (po_x b, Z.max (po_y a) (po_y b)). cbn. lia.
    + exists (po_x a, Z.max (po_y a) (po_y b)), (po_x a - 1, Z.max (po_y a) (po_y b)). cbn. lia.
    + exists (Z.max (po_x a) (po_x b), po_y b - 1), (Z.max (po_x a) (po_x b), po_y b). cbn. lia.
    + exists (Z.max (po_x a) (po_x b), po_y a), (Z.max (po_x a) (po_x b), po_y a - 1). cbn. lia.
  - intros ([px py] & [qx qy] & Hp & Hq & Hn). cbn [fst snd] in *.
    pose proof (fun H => Hap (px, py) Hp H) as H1. pose proof (fun H => Hap (qx, qy) H Hq) as H2. cbn [fst snd] in *. clear Hap.
    assert ((px = qx - 1 \/ px = qx + 1) /\ py = qy \/ px = qx /\ (py = qy - 1 \/ py = qy + 1)) as [[[->| ->] ->]|[-> [->| ->]]] by (clear -Hn; lia);
      clear Hn; [left|left|right|right]; (split; [|lia]).
    + left. destruct (Z_lt_le_dec (po_x b) qx); [exfalso; apply H1; lia|].
      destruct (Z_lt_le_dec qx (po_x a + vr_width (po_request a))); [exfalso; apply H2; lia|lia].
    + right. destruct (Z_lt_le_dec (po_x a) (qx + 1)); [exfalso; apply H2; lia|].
      destruct (Z_lt_le_dec (qx + 1) (po_x b + vr_width (po_request b))); [exfalso; apply H1; lia|lia].
    + left. destruct (Z_lt_le_dec (po_y b) qy); [exfalso; apply H1; lia|].
      destruct (Z_lt_le_dec qy (po_y a + vr_height (po_request a))); [exfalso; apply H2; lia|lia].
    + right. destruct (Z_lt_le_dec (po_y a) (qy + 1)); [exfalso; apply H2; lia|].
      destruct (Z_lt_le_dec (qy + 1) (po_y b + vr_height (po_request b))); [exfalso; apply H1; lia|lia].
Qed.

Lemma overlap_of_None o l : forall k, overlap_of o k l = None <-> Forall (fun b => overlaps o b = false) l.
Proof.
  induction l as [|b l IH]; intros k; cbn [overlap_of]; [split; [constructor|done]|].
  rewrite Forall_cons, <- (IH (k + 1)). destruct (overlaps o b); [split; [done|by intros []]|by split; [split|intros []]].
Qed.

Lemma first_overlap_None l : forall k, first_overlap k l = None <-> ForallOrdPairs (fun a b => overlaps a b = false) l.
Proof.
  induction l as [|a l IH]; intros k; cbn [first_overlap]; [split; [constructor|done]|].
  destruct (overlap_of a (k + 1) l) as [j|] eqn:E.
  - split; [done|]. inversion 1; subst. by rewrite (proj2 (overlap_of_None a l (k + 1))) in E.
  - rewrite (IH (k + 1)). apply overlap_of_None in E. split; [by constructor|by inversion 1].
Qed.

(** Two outputs by index. *)
Definition linked (R : PlacedOutput -> PlacedOutput -> Prop) (outputs : list PlacedOutput) (i j : nat) : Prop :=
  exists a b, outputs !! i = Some a /\ outputs !! j = Some b /\ R a b.

Lemma flood_spec outputs : outputs <> [] -> exists reached, flood outputs = Some reached /\ length reached = length outputs
  /\ forall i, (exists u, reached !! i = Some (Some u)) <-> rtc (linked (fun a b => touches a b = true) outputs) 0%nat i.
Proof.
  intros Hne. assert (0 < length outputs)%nat as Hl by (destruct outputs; [done|cbn; lia]).
  destruct (explore_from_spec (reach outputs) cons ltac:(done) (length outputs) 0 tt Hl) as (reached & Hf & Hex).
  exists reached. split; [exact Hf|]. split; [by eapply ex_length|]. intros i. eapply explored_iff; [exact Hex| |].
  - intros x [] y _. unfold reach, linked. destruct (outputs !! x) as [a|], (outputs !! y) as [b|]; cbn; try (split; [by intros []|naive_solver]).
    destruct (touches a b) eqn:E; split; [intros _; by exists a, b|by eexists|by intros []|naive_solver congruence].
  - intros x y (a & b & _ & Hb & _). by eapply lookup_lt_Some.
Qed.

Lemma linked_adjacent outputs i : Forall sized outputs ->
  (forall i j a b, i <> j -> outputs !! i = Some a -> outputs !! j = Some b -> apart a b) ->
  rtc (linked (fun a b => touches a b = true) outputs) 0%nat i <-> rtc (linked adjacent outputs) 0%nat i.
Proof.
  intros Hs Hap. rewrite Forall_lookup in Hs.
  assert (forall x y, x <> y -> linked (fun a b => touches a b = true) outputs x y <-> linked adjacent outputs x y) as Hxy.
  { intros x y Hne. unfold linked. split; intros (a & b & Ha & Hb & H); exists a, b; (split_and!; [done|done|]);
      eapply touches_adjacent; eauto. }
  split; (induction 1 as [|x y z H _ IH]; [apply rtc_refl|]); (destruct (decide (x = y)) as [->|Hne]; [done|]);
    (eapply rtc_l; [by apply Hxy, H|done]).
Qed.

(** C21: A layout is accepted exactly when a compositor can show it.  There is at
    least one output and no more than the mode serves; no two of them have a
    pixel in common; from the first one every output is reached through outputs
    that have neighbouring pixels; and the desktop starts at the origin: no
    coordinate is negative, and some output is at the left edge and some at the
    top edge. *)
Theorem wayland_layout_exact (outputs : list PlacedOutput) (mode : VirtualOutputMode) (Hsized : Forall sized outputs) :
  validate_layout outputs mode = Ok tt <->
  0 < len outputs <= mode_max_outputs mode
  /\ (forall i j a b, i <> j -> outputs !! i = Some a -> outputs !! j = Some b -> apart a b)
  /\ (forall i, (i < length outputs)%nat -> rtc (linked adjacent outputs) 0%nat i)
  /\ (forall o, o ∈ outputs -> 0 <= po_x o /\ 0 <= po_y o)
  /\ (exists o, (o ∈ outputs) /\ po_x o = 0) /\ (exists o, (o ∈ outputs) /\ po_y o = 0).
Proof.
  unfold validate_layout. rewrite unit_bind_Ok, guard_err_Ok, orb_false_iff, Z.eqb_neq, Z.ltb_ge.
  destruct (decide (outputs = [])) as [->|Hne].
  { split; [by intros [[H _] _]|by intros [[H _] _]]. }
  destruct (flood_spec outputs Hne) as (reached & -> & Hlr & Hr). cbn [ok_or mbind result_bind].
  assert (map po_x outputs <> [] /\ map po_y outputs <> []) as [Hx Hy] by (by destruct outputs).
  destruct (least_spec _ Hx) as [Hx1 Hx2], (least_spec _ Hy) as [Hy1 Hy2].
  assert (first_overlap 0 outputs = None <->
    forall i j a b, i <> j -> outputs !! i = Some a -> outputs !! j = Some b -> apart a b) as Hov.
  { rewrite first_overlap_None, ordered_pairs. rewrite Forall_lookup in Hsized. split.
    - intros H i j a b Hij Ha Hb. destruct (decide (i < j)%nat) as [Hlt|Hge].
      + eapply overlaps_apart; eauto.
      + intros p Hpa Hpb. assert (apart b a) as Hba by (eapply overlaps_apart; eauto; eapply H; [|eauto..]; lia). by apply (Hba p).
    - intros H i j a b Hij Ha Hb. eapply overlaps_apart; eauto. eapply H; [|eauto..]. lia. }
  destruct (first_overlap 0 outputs) as [[f s]|].
  { split; [by intros [_ ?]|]. intros (_ & Hap & _). by apply Hov in Hap. }
  pose proof (proj1 Hov eq_refl) as Hap. cbn [mbind result_bind].
  assert (first_vacant 0 reached = None <-> forall i, (i < length outputs)%nat -> rtc (linked adjacent outputs) 0%nat i) as Hfv.
  { rewrite first_vacant_None, Hlr. by setoid_rewrite Hr; setoid_rewrite (linked_adjacent outputs _ Hsized Hap). }
  destruct (first_vacant 0 reached) as [d|].
  { split; [by intros [_ ?]|]. intros (_ & _ & Hc & _). by apply Hfv in Hc. }
  pose proof (proj1 Hfv eq_refl) as Hc. cbn [mbind result_bind]. rewrite guard_err_Ok, negb_false_iff, andb_true_iff, !Z.eqb_eq.
  assert (least (map po_x outputs) = 0 /\ least (map po_y outputs) = 0 <->
    (forall o, o ∈ outputs -> 0 <= po_x o /\ 0 <= po_y o) /\ (exists o, (o ∈ outputs) /\ po_x o = 0) /\ (exists o, (o ∈ outputs) /\ po_y o = 0)) as ->.
  { split.
    - intros [Ex Ey]. rewrite Ex in *. rewrite Ey in *. split.
      + intros o Ho. split; [apply Hx2|apply Hy2]; by apply list_elem_of_fmap_2.
      + apply list_elem_of_fmap in Hx1 as (o & ? & ?), Hy1 as (o' & ? & ?). split; [by exists o|by exists o'].
    - intros (Hall & (o & Ho & Eo) & (o' & Ho' & Eo')). split; apply Z.le_antisymm.
      + rewrite <- Eo. apply Hx2. by apply list_elem_of_fmap_2.
      + apply list_elem_of_fmap in Hx1 as (q & -> & Hq). by apply Hall.
      + rewrite <- Eo'. apply Hy2. by apply list_elem_of_fmap_2.
      + apply list_elem_of_fmap in Hy1 as (q & -> & Hq). by apply Hall. }
  pose proof (len_nonneg outputs). split; [intros [[? ?] ?]|intros [? (_ & _ & ?)]]; (split; [lia|done]).
Qed.

(** Two outputs side by side and one above the second. *)
Definition three_outputs : list PlacedOutput :=
  [mkOutput (mkOutputRequest 1920 1080 60) 0 1440 no_density; mkOutput (mkOutputRequest 2560 1440 60) 1920 1440 no_density;
   mkOutput (mkOutputRequest 2560 1440 60) 1920 0 no_density].

Lemma wayland_layout_exact_witness :
  validate_layout three_outputs RemoteMonitors = Ok tt /\ (forall i, (i < 3)%nat -> rtc (linked adjacent three_outputs) 0%nat i).
Proof.
  assert (validate_layout three_outputs RemoteMonitors = Ok tt) as H by (by vm_compute). split; [exact H|].
  apply (wayland_layout_exact three_outputs RemoteMonitors) in H; [apply H|]. repeat constructor.
Defined.

(** ** The logical layout *)




Definition rects_meet (a b : Rect) : bool :=
  let '(ax, ay, aw, ah) := a in
  let '(bx, by_, bw, bh) := b in
  (ax <? bx + bw) && (bx <? ax + aw) && (ay <? by_ + bh) && (by_ <? ay + ah).













(** *** Layouts within reach *)









(** *** Unscaled outputs *)





















(** A scale of 2^-200 makes the second output's logical size saturate, and the
    wrapped sums accept a layout in which it covers the third. *)
Definition tiny_scale : list ScaledOutput :=
  [mkScaled 0 0 1920 1080 (of_int 1); mkScaled 1920 0 1920 1080 (f64_div (of_int 1) (of_int (2 ^ 200))); mkScaled 0 1080 1920 1080 (lit 1 4)].

Definition rect_at (outputs : list ScaledOutput) (positions : list (Z * Z)) (i : nat) : option Rect :=
  o ← outputs !! i; p ← positions !! i; Some (logical_rect p o).

Example wrapped_layout_overlaps :
  match logical_positions tiny_scale with
  | Ok positions =>
    match rect_at tiny_scale positions 1, rect_at tiny_scale positions 2 with
    | Some a, Some b => rects_meet a b = true /\ rects_overlap a b = false
    | _, _ => False
    end
  | Err _ => False
  end.
Proof. by vm_compute. Qed.
