(* ===== verification/VirtualTopology.v ===== *)
(** * Outputs: a requested topology on virtual outputs

    Models [shared/outputs/src/virtual_topology.rs]: the plan of one virtual
    output per requested monitor, over the placement of [TopologyPlacement] and
    within the limits a host states. *)

From Stdlib Require Import SpecFloat.
From stdpp Require Import strings.
From S2P Require Import Prelude Float64 MediaRegion MonitorWire MultiMonitor TopologyPlacement.
From S2P Require RegionInput PenAxes.

Definition VIRTUAL_TRANSFORM_CONVENTION : TransformConvention := AlreadyCompositorOriented.
Definition VIRTUAL_ORIGIN_POLICY : OriginPolicy := TranslateToNonNegative.

Record VirtualOutputLimits := mkLimits {
  max_outputs : Z;
  min_edge : Z;
  max_edge : Z;
  max_desktop_edge : Z;
  max_refresh_hz : Z;
  lim_rotation : bool
}.

Record VirtualOutputPlan := mkOutputPlan {
  vo_session_monitor_id : Z;
  vo_client_display_id : string;
  vo_x : Z; vo_y : Z; vo_width : Z; vo_height : Z;
  vo_refresh_hz : Z;
  vo_logical_rect : LogicalRect;
  vo_physical_size : PhysicalSize;
  vo_scale : Scale120;
  vo_width_mm : Z; vo_height_mm : Z;
  vo_rotation : Rotation;
  vo_primary : bool
}.

Definition output_rect (o : VirtualOutputPlan) : result MediaContractError LayoutRect := LayoutRect_new (vo_x o) (vo_y o) (vo_width o) (vo_height o).

Record VirtualTopologyPlan := mkVirtualPlan { vp_generation : Z; vp_desktop_width : Z; vp_desktop_height : Z; vp_outputs : list VirtualOutputPlan }.

Definition virtual_primary (p : VirtualTopologyPlan) : option VirtualOutputPlan := List.find vo_primary (vp_outputs p).

(** The primary's index and the others in order. *)
Definition primary_first_indices {A} (is_primary : A -> bool) (l : list A) : list Z :=
  let primary := default 0 (position is_primary l) in
  primary :: List.filter (fun index => negb (index =? primary)) (range (len l)).
Definition primary_first_order (p : VirtualTopologyPlan) : list Z := primary_first_indices vo_primary (vp_outputs p).

Inductive VirtualTopologyError :=
| TooManyOutputs (requested max : Z)
| OutputSize (display : string) (width height : Z)
| OddSize (display : string) (width height : Z)
| RefreshRate (display : string) (refresh_hz : Z)
| OutputRotation (display : string) (rotation : Rotation)
| DesktopTooLarge (width height : Z)
| PlacementRefused (e : TopologyPlacementError)
| ContractRefused (e : MediaContractError).

(** [From<TopologyPlacementError>] and [From<MediaContractError>]. *)
Definition of_placement (e : TopologyPlacementError) : VirtualTopologyError :=
  match e with Contract e => ContractRefused e | other => PlacementRefused other end.
Definition placement_of {A} (r : result TopologyPlacementError A) : result VirtualTopologyError A :=
  match r with Ok a => Ok a | Err e => Err (of_placement e) end.
Definition contract_of {A} (r : result MediaContractError A) : result VirtualTopologyError A :=
  match r with Ok a => Ok a | Err e => Err (ContractRefused e) end.

(** 100000 as an [f32]. *)
Definition MAX_MILLIMETRES : RegionInput.f32 := PenAxes.narrow (of_int 100000).

Definition millimetres (value : RegionInput.f32) : Z :=
  if RegionInput.is_finite value && SFltb RegionInput.F32_ZERO value && SFltb value MAX_MILLIMETRES
  then PenAxes.round_unsigned 32 value else 0.

(** The checks of one monitor. *)
Definition check_limits (limits : VirtualOutputLimits) (m : RequestedMonitor) : result VirtualTopologyError unit :=
  display ← contract_of (client_display_id m);
  let raw := rmon_monitor m in
  let width := mon_width_px raw in
  let height := mon_height_px raw in
  _ ← guard_err ((width <? min_edge limits) || (height <? min_edge limits) || (max_edge limits <? width) || (max_edge limits <? height))
        (OutputSize display width height);
  _ ← guard_err (negb (width mod 2 =? 0) || negb (height mod 2 =? 0)) (OddSize display width height);
  _ ← guard_err ((mon_refresh_hz raw =? 0) || (max_refresh_hz limits <? mon_refresh_hz raw)) (RefreshRate display (mon_refresh_hz raw));
  guard_err (match mon_rotation raw with Rot0 => false | _ => true end && negb (lim_rotation limits)) (OutputRotation display (mon_rotation raw)).

(** The output of one monitor. *)
Definition plan_output (index : Z) (m : RequestedMonitor) (rect : LayoutRect) : result VirtualTopologyError VirtualOutputPlan :=
  let raw := rmon_monitor m in
  id ← contract_of (ok_or (try_unsigned 16 (index + 1)) MediaCoordinateOverflow);
  session_monitor_id ← contract_of (SessionMonitorId_new id);
  physical_size ← placement_of (region (PhysicalSize_new (mon_width_px raw) (mon_height_px raw)));
  display ← contract_of (client_display_id m);
  arrangement ← contract_of (logical_arrangement_rect m);
  logical_rect ← placement_of (logical_rect_from_layout arrangement);
  scale ← placement_of (scale120_from_scale (PenAxes.widen (mon_scale raw)));
  Ok (mkOutputPlan session_monitor_id display (clr_x rect) (clr_y rect) (clr_width rect) (clr_height rect) (mon_refresh_hz raw)
        logical_rect physical_size scale (millimetres (mon_width_mm raw)) (millimetres (mon_height_mm raw)) (mon_rotation raw)
        (mon_primary raw)).

Fixpoint plan_outputs (index : Z) (pairs : list (RequestedMonitor * LayoutRect)) : result VirtualTopologyError (list VirtualOutputPlan) :=
  match pairs with
  | [] => Ok []
  | (m, rect) :: r => o ← plan_output index m rect; os ← plan_outputs (index + 1) r; Ok (o :: os)
  end.

Definition plan_virtual_topology (requested : RequestedMonitorTopology) (generation : Z) (limits : VirtualOutputLimits) :
    result VirtualTopologyError VirtualTopologyPlan :=
  let monitors := topo_monitors requested in
  _ ← guard_err ((len monitors =? 0) || (max_outputs limits <? len monitors)) (TooManyOutputs (len monitors) (max_outputs limits));
  _ ← forM_err (check_limits limits) monitors;
  primary_index ← contract_of (ok_or (position (fun m => mon_primary (rmon_monitor m)) monitors) (MediaPrimaryCount 0));
  placed ← placement_of (place_monitors monitors primary_index VIRTUAL_TRANSFORM_CONVENTION VIRTUAL_ORIGIN_POLICY);
  let bounds := placed_bounds placed in
  _ ← guard_err ((max_desktop_edge limits <? clb_width bounds) || (max_desktop_edge limits <? clb_height bounds))
        (DesktopTooLarge (clb_width bounds) (clb_height bounds));
  outputs ← plan_outputs 0 (zip monitors (placed_rects placed));
  Ok (mkVirtualPlan generation (clb_width bounds) (clb_height bounds) outputs).

(** ** What a plan is *)

Lemma placement_of_Ok {A} (r : result TopologyPlacementError A) a : placement_of r = Ok a <-> r = Ok a.
Proof. destruct r; cbn; split; congruence. Qed.
Lemma contract_of_Ok {A} (r : result MediaContractError A) a : contract_of r = Ok a <-> r = Ok a.
Proof. destruct r; cbn; split; congruence. Qed.

(** A monitor within the limits. *)
Record within (limits : VirtualOutputLimits) (m : RequestedMonitor) : Prop := {
  wi_width : min_edge limits <= mon_width_px (rmon_monitor m) <= max_edge limits;
  wi_height : min_edge limits <= mon_height_px (rmon_monitor m) <= max_edge limits;
  wi_even : mon_width_px (rmon_monitor m) mod 2 = 0 /\ mon_height_px (rmon_monitor m) mod 2 = 0;
  wi_refresh : mon_refresh_hz (rmon_monitor m) <> 0 /\ mon_refresh_hz (rmon_monitor m) <= max_refresh_hz limits;
  wi_rotation : mon_rotation (rmon_monitor m) <> Rot0 -> lim_rotation limits = true
}.

Lemma check_limits_Ok limits m : check_limits limits m = Ok tt <-> is_ok (client_display_id m) = true /\ within limits m.
Proof.
  unfold check_limits. destruct (client_display_id m) as [d|e]; cbn [contract_of mbind result_bind is_ok]; [|by split; [|intros [? _]]].
  rewrite !unit_bind_Ok, !guard_err_Ok, !orb_false_iff, !Z.ltb_ge, !negb_false_iff, !Z.eqb_eq, Z.eqb_neq, andb_false_iff, negb_false_iff. split.
  - intros ((((? & ?) & ?) & ?) & [? ?] & [? ?] & Hr). split; [done|]. split; [lia|lia|done|done|].
    destruct Hr as [Hr|]; [|done]. by destruct (mon_rotation _).
  - intros [_ [[] [] [] [] Hr]]. split; [done|]. split; [done|]. split; [done|].
    destruct (mon_rotation (rmon_monitor m)); [by left|right; by apply Hr..].
Qed.

(** The output that serves a monitor. *)
Record serves (generation_index : Z) (m : RequestedMonitor) (o : VirtualOutputPlan) : Prop := {
  sv_id : vo_session_monitor_id o = generation_index + 1;
  sv_display : vo_client_display_id o = id_id (identity (rmon_monitor m));
  sv_size : vo_width o = mon_width_px (rmon_monitor m) /\ vo_height o = mon_height_px (rmon_monitor m);
  sv_stream : vo_physical_size o = mkPhysicalSize (vo_width o) (vo_height o);
  sv_refresh : vo_refresh_hz o = mon_refresh_hz (rmon_monitor m);
  sv_rotation : vo_rotation o = mon_rotation (rmon_monitor m);
  sv_primary : vo_primary o = mon_primary (rmon_monitor m);
  sv_logical : logical_rect_from_layout (arrangement m) = Ok (vo_logical_rect o)
}.

Definition rect_of_output (o : VirtualOutputPlan) : LayoutRect := mkLayoutRect (vo_x o) (vo_y o) (vo_width o) (vo_height o).

Lemma arrangement_rect m r : logical_arrangement_rect m = Ok r -> r = arrangement m.
Proof.
  unfold logical_arrangement_rect, LayoutRect_new. destruct (_ || _); [done|].
  intros (? & _ & (? & _ & [= <-])%bind_Ok)%bind_Ok. done.
Qed.

Lemma plan_output_Ok index m rect o : plan_output index m rect = Ok o ->
  rect_size rect = monitor_desktop_footprint VIRTUAL_TRANSFORM_CONVENTION m ->
  serves index m o /\ rect_of_output o = rect /\ index + 1 < 2 ^ 16.
Proof.
  intros H Hs. unfold plan_output in H. apply bind_Ok in H as (id & Hid%contract_of_Ok%ok_or_Ok & H). apply try_unsigned_Some in Hid as [-> Hid].
  apply bind_Ok in H as (sid & Hsid%contract_of_Ok & H). apply bind_Ok in H as (ps & Hps%placement_of_Ok & H).
  apply bind_Ok in H as (d & Hd%contract_of_Ok & H). apply bind_Ok in H as (ar & Har%contract_of_Ok%arrangement_rect & H). subst ar.
  apply bind_Ok in H as (lr & Hlr%placement_of_Ok & H). apply bind_Ok in H as (sc & Hsc & [= <-]).
  unfold SessionMonitorId_new in Hsid. destruct (_ =? 0); [done|]. injection Hsid as <-.
  apply monitor_id_Ok in Hd as [-> _]. unfold region, PhysicalSize_new in Hps. destruct (_ || _); [done|]. injection Hps as <-.
  unfold rect_size, VIRTUAL_TRANSFORM_CONVENTION, monitor_desktop_footprint, desktop_footprint in Hs. injection Hs as Hw Hh.
  split; [|split; [by destruct rect|unfold in_width in Hid; lia]]. split; cbn; try done. by rewrite Hw, Hh.
Qed.

Lemma plan_outputs_Ok pairs : forall index outputs, plan_outputs index pairs = Ok outputs ->
  Forall (fun p => rect_size p.2 = monitor_desktop_footprint VIRTUAL_TRANSFORM_CONVENTION p.1) pairs ->
  map rect_of_output outputs = map snd pairs
  /\ (forall i m, fst <$> pairs !! i = Some m -> exists o, outputs !! i = Some o /\ serves (index + Z.of_nat i) m o).
Proof.
  induction pairs as [|[m rect] pairs IH]; intros index outputs H Hs; cbn [plan_outputs] in H.
  { injection H as <-. split; [done|]. by intros [|i] m Hm. }
  apply Forall_cons in Hs as [Hs Hss]. apply bind_Ok in H as (o & Ho & H). apply bind_Ok in H as (os & Hos & [= <-]).
  destruct (plan_output_Ok _ _ _ _ Ho Hs) as (Hsv & Hr & _). destruct (IH _ _ Hos Hss) as [Hrs Hall]. cbn [map snd]. rewrite Hr, Hrs.
  split; [done|]. intros [|i] m' Hm.
  - injection Hm as <-. exists o. by rewrite Z.add_0_r.
  - destruct (Hall i m' Hm) as (o' & Ho' & Hsv'). exists o'. split; [done|]. by replace (index + Z.of_nat (S i)) with (index + 1 + Z.of_nat i) by lia.
Qed.

(** The layout that a plan was made from. *)
Lemma plan_layout requested generation limits p : Forall dimensions_typed (topo_monitors requested) ->
  plan_virtual_topology requested generation limits = Ok p ->
  exists layout, length (placed_rects layout) = length (topo_monitors requested)
  /\ map rect_of_output (vp_outputs p) = placed_rects layout
  /\ is_hull (placed_rects layout) (mkLayoutBounds 0 0 (vp_desktop_width p) (vp_desktop_height p))
  /\ (forall i m, topo_monitors requested !! i = Some m -> exists o, vp_outputs p !! i = Some o /\ serves (Z.of_nat i) m o).
Proof.
  intros Htyped H. unfold plan_virtual_topology in H. apply bind_Ok in H as ([] & _ & H). apply bind_Ok in H as ([] & _ & H).
  apply bind_Ok in H as (k & Hk%contract_of_Ok%ok_or_Ok & H). apply bind_Ok in H as (layout & Hl%placement_of_Ok & H).
  apply bind_Ok in H as ([] & _ & H). apply bind_Ok in H as (outputs & Ho & [= <-]). exists layout. cbn [vp_outputs vp_desktop_width vp_desktop_height].
  assert (0 <= k) as Hk0 by (apply position_Some in Hk as (pre & ? & ? & _ & -> & _); apply len_nonneg).
  destruct (placed_rects_spec _ _ _ _ _ Hk0 Htyped Hl) as (geo & offsets & placed & Hgeo & Hinv & Hlo & Hkeep & _ & Er & Hhull & Hp).
  pose proof (Forall2_length _ _ _ (geometries_Ok _ _ _ Hgeo)) as Hlg. pose proof (placed_sizes (placed_translation layout) _ _ _ _ Hgeo Hlo) as Hsz.
  rewrite <- Er in Hsz. assert (length (placed_rects layout) = length (topo_monitors requested)) as Hlen.
  { apply (f_equal length) in Hsz. by rewrite !length_fmap in Hsz. }
  assert (map snd (zip (topo_monitors requested) (placed_rects layout)) = placed_rects layout) as Ezip by (apply snd_zip; lia).
  apply plan_outputs_Ok in Ho as [Hrects Hall].
  2:{ apply Forall_lookup. intros i [m r] [Hm Hr]%lookup_zip_Some. cbn. assert ((rect_size <$> placed_rects layout) !! i = (monitor_desktop_footprint AlreadyCompositorOriented <$> topo_monitors requested) !! i) as E by (by rewrite Hsz).
      rewrite !list_lookup_fmap, Hm, Hr in E. by apply (inj Some) in E. }
  split; [done|]. split; [by rewrite Hrects|]. split.
  - replace (mkLayoutBounds 0 0 _ _) with (placed_bounds layout); [done|]. destruct Hp as (Hdx & Hdy & Hx & Hy & Hxz & Hyz).
    assert (exists r, r ∈ placed_rects layout /\ clr_x r = dx (placed_translation layout) /\ clr_y r = dy (placed_translation layout)) as (r & Hr & Erx & Ery).
    { pose proof (Hkeep _ _ (wi_primary _ _ _ _ Hinv)) as Hpo.
      destruct (lookup_lt_is_Some_2 geo (Z.to_nat k)) as [g Hg]; [apply lookup_lt_Some in Hpo; lia|].
      exists (rect_at (placed_translation layout) g (0, 0)). split; [|cbn; lia]. rewrite Er. apply list_elem_of_lookup. exists (Z.to_nat k).
      apply lookup_zip_with_Some. by exists g, (0, 0). }
    destruct Hhull as ([Hlx _] & [Hly _] & _). specialize (Hlx r Hr). specialize (Hly r Hr).
    destruct (placed_bounds layout) as [bx by_ bw bh]. cbn in *. f_equal; lia.
  - intros i m Hm. destruct (lookup_lt_is_Some_2 (placed_rects layout) i) as [r Hr]; [apply lookup_lt_Some in Hm; lia|].
    destruct (Hall i m) as (o & Ho & Hs); [|by exists o]. by rewrite (proj2 (lookup_zip_Some _ _ i m r) (conj Hm Hr)).
Qed.

Lemma position_primary {A} (p : A -> bool) l i : position p l = Some i -> exists a, l !! Z.to_nat i = Some a /\ p a = true.
Proof.
  intros (pre & a & post & -> & -> & Ha & _)%position_Some. exists a. split; [|done]. unfold len. rewrite Nat2Z.id.
  by apply list_lookup_middle.
Qed.

Lemma primary_first_perm {A} (p : A -> bool) l : l <> [] -> primary_first_indices p l ≡ₚ range (len l).
Proof.
  intros Hne. unfold primary_first_indices. set (k := default 0 (position p l)).
  assert (0 <= k < len l) as Hk.
  { assert (0 < len l) by (destruct l; [done|rewrite len_cons; pose proof (len_nonneg l); lia]). unfold k.
    destruct (position p l) as [i|] eqn:E; cbn; [|lia]. apply position_Some in E as (pre & a & post & -> & -> & _). rewrite len_app, len_cons.
    pose proof (len_nonneg pre). pose proof (len_nonneg post). lia. }
  apply NoDup_Permutation; [|apply NoDup_seqZ|].
  - constructor.
    + rewrite list_elem_of_In, filter_In. intros [_ H]. by rewrite Z.eqb_refl in H.
    + apply NoDup_ListNoDup, List.NoDup_filter, NoDup_ListNoDup, NoDup_seqZ.
  - intros i. rewrite elem_of_cons, elem_of_range, list_elem_of_In, filter_In, <- list_elem_of_In, elem_of_range, negb_true_iff, Z.eqb_neq.
    destruct (decide (i = k)); lia.
Qed.

(** C26: A topology planned onto virtual outputs is served as it was asked for.
    Every monitor is within the host's limits - their number, its edges, which
    are even, its refresh rate, its rotation - and gets one output: with the
    next session identity in roster order, the client's display identity, its
    size, refresh rate and rotation, and its arrangement.  The outputs fill the
    desktop from its origin: the bounding box starts at (0, 0), is the hull of
    their rectangles and stays within the host's bound.  The compositor is given
    each output once, a primary one first. *)
Theorem virtual_plan_exact (requested : RequestedMonitorTopology) (generation : Z) (limits : VirtualOutputLimits) (p : VirtualTopologyPlan)
  (Htyped : Forall dimensions_typed (topo_monitors requested))
  (Hplan : plan_virtual_topology requested generation limits = Ok p) :
  let monitors := topo_monitors requested in
  0 < len monitors <= max_outputs limits
  /\ Forall (within limits) monitors
  /\ vp_generation p = generation
  /\ length (vp_outputs p) = length monitors
  /\ (forall i m, monitors !! i = Some m -> exists o, vp_outputs p !! i = Some o /\ serves (Z.of_nat i) m o)
  /\ is_hull (map rect_of_output (vp_outputs p)) (mkLayoutBounds 0 0 (vp_desktop_width p) (vp_desktop_height p))
  /\ vp_desktop_width p <= max_desktop_edge limits /\ vp_desktop_height p <= max_desktop_edge limits
  /\ primary_first_order p ≡ₚ range (len monitors)
  /\ exists o, (i ← head (primary_first_order p); vp_outputs p !! Z.to_nat i) = Some o /\ vo_primary o = true.
Proof.
  cbv zeta. destruct (plan_layout _ _ _ _ Htyped Hplan) as (layout & Hlen & Hrects & Hhull & Hall).
  assert (length (vp_outputs p) = length (topo_monitors requested)) as Hlo by (rewrite <- Hlen, <- Hrects; by rewrite length_map).
  unfold plan_virtual_topology in Hplan. apply unit_bind_Ok in Hplan as [Hc Hplan]. apply unit_bind_Ok in Hplan as [Hw Hplan].
  apply guard_err_Ok, orb_false_iff in Hc as [Hc1%Z.eqb_neq Hc2%Z.ltb_ge]. apply forM_err_Ok in Hw.
  apply bind_Ok in Hplan as (k & Hk%contract_of_Ok%ok_or_Ok & Hplan). apply bind_Ok in Hplan as (layout' & _ & Hplan).
  apply unit_bind_Ok in Hplan as [Hd Hplan]. apply guard_err_Ok, orb_false_iff in Hd as [Hd1%Z.ltb_ge Hd2%Z.ltb_ge].
  apply bind_Ok in Hplan as (outputs & _ & Hp). pose proof (len_nonneg (topo_monitors requested)).
  split; [lia|]. split; [eapply Forall_impl; [exact Hw|]; intros m Hm; by apply check_limits_Ok in Hm as [_ ?]|].
  assert (vp_generation p = generation /\ vp_desktop_width p = clb_width (placed_bounds layout')
    /\ vp_desktop_height p = clb_height (placed_bounds layout')) as (-> & Ew & Eh) by (by injection Hp as <-).
  assert (vp_outputs p <> []) as Hne.
  { intros E. rewrite E in Hlo. unfold len in Hc1. cbn in Hlo. lia. }
  assert (len (topo_monitors requested) = len (vp_outputs p)) as El by (unfold len; by rewrite Hlo).
  split_and!; [done|done|done|by rewrite Hrects|lia|lia|rewrite El; by apply primary_first_perm|].
  unfold primary_first_order, primary_first_indices. cbn [head mbind option_bind].
  apply position_primary in Hk as (m & Hm & Hpm). destruct (Hall _ _ Hm) as (o & Ho & Hs).
  destruct (position vo_primary (vp_outputs p)) as [i|] eqn:Ei; [by apply position_primary in Ei|].
  exfalso. assert (forall q, q ∈ vp_outputs p -> vo_primary q = false) as Hnone.
  { clear -Ei. induction (vp_outputs p) as [|x l IH]; [by intros q Hq%not_elem_of_nil|]. cbn [position] in Ei.
    destruct (vo_primary x) eqn:Ex; [done|]. destruct (position vo_primary l); [done|]. intros q [->|Hq]%elem_of_cons; [done|by apply IH]. }
  specialize (Hnone o ltac:(apply list_elem_of_lookup; by eexists)). rewrite (sv_primary _ _ _ Hs) in Hnone. congruence.
Qed.

Definition wayland_limits : VirtualOutputLimits := mkLimits 4 320 7680 16384 240 false.
Definition pair_request : RequestedMonitorTopology :=
  mkTopology [beside "left" (-1280) 40 2560 1440 false 1280 720; beside "main" 0 0 1920 1080 true 1920 1080] 1.

Lemma virtual_plan_exact_witness :
  exists p, plan_virtual_topology pair_request 1 wayland_limits = Ok p
    /\ map (fun o => (vo_session_monitor_id o, vo_x o, vo_y o)) (vp_outputs p) = [(1, 0, 40); (2, 2560, 0)]
    /\ primary_first_order p ≡ₚ [0; 1].
Proof.
  destruct (plan_virtual_topology pair_request 1 wayland_limits) as [p|e] eqn:E; [|vm_compute in E; discriminate].
  exists p. split; [done|]. destruct (virtual_plan_exact pair_request 1 wayland_limits p) as (_ & _ & _ & _ & _ & _ & _ & _ & H & _); [|exact E|].
  - repeat constructor; cbn; lia.
  - vm_compute in E. injection E as <-. split; [done|exact H].
Defined.
