(* ===== verification/RegionAdmission.v ===== *)
(** * Outputs: admission of a multi-region request, and the applied regions

    Models [shared/outputs/src/admission.rs] (the gates, the carrier rule and
    the frozen order of the steps) and [applied.rs] (the join of the planned
    regions with their media, and the translation of the desktop's origin).
    What a host implements is a class of pure steps; the lemmas are about any
    host. *)

From S2P Require Import Prelude MultiMonitor.

(** ** admission.rs *)

Record AdmissionGates := mkGates {
  carrier_ready : bool;
  operator_enabled : bool;
  inventory_available : bool;
  offer_advertised : bool
}.

Definition GATES_CLOSED : AdmissionGates := mkGates false false false false.
Definition GATES_OPEN : AdmissionGates := mkGates true true true true.

Definition may_advertise (g : AdmissionGates) : bool := carrier_ready g && operator_enabled g && inventory_available g.

Inductive GateClosed := CarrierNotReady | OperatorDisabled | NoInventoryAvailable | NotAdvertised.

Definition evaluate (g : AdmissionGates) : result GateClosed unit :=
  _ ← guard_err (negb (carrier_ready g)) CarrierNotReady;
  _ ← guard_err (negb (operator_enabled g)) OperatorDisabled;
  _ ← guard_err (negb (inventory_available g)) NoInventoryAvailable;
  guard_err (negb (offer_advertised g)) NotAdvertised.

Inductive AdmissionStage := StageOffer | StageCarrier | StageRequest | StagePlanning | StageMediaPolicy.

Record AdmissionRejection (E : Type) := mkRejection { rej_stage : AdmissionStage; rej_source : E }.
Arguments mkRejection {E}.
Arguments rej_stage {E}.
Arguments rej_source {E}.

Inductive DegradeReason (E : Type) := Gate (g : GateClosed) | Rejected (r : AdmissionRejection E).
Arguments Gate {E}.
Arguments Rejected {E}.

Definition reason_gate {E} (r : DegradeReason E) : option GateClosed := match r with Gate g => Some g | Rejected _ => None end.
Definition reason_stage {E} (r : DegradeReason E) : option AdmissionStage := match r with Gate _ => None | Rejected r => Some (rej_stage r) end.
Definition reason_source {E} (r : DegradeReason E) : option E := match r with Gate _ => None | Rejected r => Some (rej_source r) end.

Inductive AdmissionOutcome (P C E : Type) :=
| NotRequested
| Degraded (r : DegradeReason E)
| AdmittedPlan (plan : P) (carrier : C).
Arguments NotRequested {P C E}.
Arguments Degraded {P C E}.
Arguments AdmittedPlan {P C E}.

Definition is_admitted {P C E} (o : AdmissionOutcome P C E) : bool := match o with AdmittedPlan _ _ => true | _ => false end.
Definition into_admitted {P C E} (o : AdmissionOutcome P C E) : option (P * C) :=
  match o with AdmittedPlan plan carrier => Some (plan, carrier) | NotRequested | Degraded _ => None end.
Definition degrade_reason {P C E} (o : AdmissionOutcome P C E) : option (DegradeReason E) :=
  match o with Degraded r => Some r | NotRequested | AdmittedPlan _ _ => None end.

Inductive CarrierMismatch := HostOffersNone | ClientSupportsNone | NoCommonCarrier.

Definition select_carrier {C} `{EqDecision C} (host_preference client_supported : list C) : result CarrierMismatch C :=
  _ ← guard_err (bool_decide (host_preference = [])) HostOffersNone;
  _ ← guard_err (bool_decide (client_supported = [])) ClientSupportsNone;
  ok_or (List.find (fun carrier => bool_decide (carrier ∈ client_supported)) host_preference) NoCommonCarrier.

Definition admission {R P C E} (gates : AdmissionGates) (requested : option R) (select : R -> result (AdmissionRejection E) C)
    (plan : R -> C -> result (AdmissionRejection E) P) : AdmissionOutcome P C E :=
  match requested with
  | None => NotRequested
  | Some requested =>
    match evaluate gates with
    | Err gate => Degraded (Gate gate)
    | Ok _ =>
      match select requested with
      | Err rejection => Degraded (Rejected rejection)
      | Ok carrier =>
        match plan requested carrier with
        | Ok plan => AdmittedPlan plan carrier
        | Err rejection => Degraded (Rejected rejection)
        end
      end
    end
  end.

(** [TopologyGeneration::FIRST] *)
Definition FIRST_GENERATION : Z := 1.

(** The host's half; [self] is the instance. *)
Class RegionAdmissionPolicy (Request Carrier Plan Rejection : Type) := {
  validate_advertised_offer : Request -> result Rejection unit;
  policy_select_carrier : Request -> result Rejection Carrier;
  convert_request : Request -> result Rejection RequestedMonitorTopology;
  policy_plan_topology : Request -> RequestedMonitorTopology -> Z -> result Rejection Plan;
  check_media_policy : Plan -> result Rejection unit
}.

Definition degraded {P C E} (stage : AdmissionStage) (source : E) : AdmissionOutcome P C E := Degraded (Rejected (mkRejection stage source)).

Section Admission.
Context {Request Carrier Plan Rejection : Type} `{!RegionAdmissionPolicy Request Carrier Plan Rejection}.

Definition admit_regions (gates : AdmissionGates) (requested : option Request) : AdmissionOutcome Plan Carrier Rejection :=
  match requested with
  | None => NotRequested
  | Some requested =>
    match evaluate gates with
    | Err gate => Degraded (Gate gate)
    | Ok _ =>
      match validate_advertised_offer requested with
      | Err source => degraded StageOffer source
      | Ok _ =>
        match policy_select_carrier requested with
        | Err source => degraded StageCarrier source
        | Ok carrier =>
          match convert_request requested with
          | Err source => degraded StageRequest source
          | Ok topology =>
            match policy_plan_topology requested topology FIRST_GENERATION with
            | Err source => degraded StagePlanning source
            | Ok plan =>
              match check_media_policy plan with
              | Err source => degraded StageMediaPolicy source
              | Ok _ => AdmittedPlan plan carrier
              end
            end
          end
        end
      end
    end
  end.

(** *** The order of the steps *)

(** What the steps before the refusal have settled. *)
Record agreed (r : Request) (carrier : Carrier) : Prop := {
  ag_offer : validate_advertised_offer r = Ok tt;
  ag_carrier : policy_select_carrier r = Ok carrier
}.
Record planned (r : Request) (carrier : Carrier) (topology : RequestedMonitorTopology) (plan : Plan) : Prop := {
  pd_agreed : agreed r carrier;
  pd_request : convert_request r = Ok topology;
  pd_plan : policy_plan_topology r topology FIRST_GENERATION = Ok plan
}.

(** The step that refuses a request is the first that fails. *)
Inductive refused (r : Request) : AdmissionStage -> Rejection -> Prop :=
| refused_offer e : validate_advertised_offer r = Err e -> refused r StageOffer e
| refused_carrier e : validate_advertised_offer r = Ok tt -> policy_select_carrier r = Err e -> refused r StageCarrier e
| refused_request carrier e : agreed r carrier -> convert_request r = Err e -> refused r StageRequest e
| refused_planning carrier topology e : agreed r carrier -> convert_request r = Ok topology ->
    policy_plan_topology r topology FIRST_GENERATION = Err e -> refused r StagePlanning e
| refused_media carrier topology plan e : planned r carrier topology plan -> check_media_policy plan = Err e -> refused r StageMediaPolicy e.

(** The gates, in their order. *)
Definition first_closed (g : AdmissionGates) (c : GateClosed) : Prop :=
  match c with
  | CarrierNotReady => carrier_ready g = false
  | OperatorDisabled => carrier_ready g = true /\ operator_enabled g = false
  | NoInventoryAvailable => carrier_ready g = true /\ operator_enabled g = true /\ inventory_available g = false
  | NotAdvertised => may_advertise g = true /\ offer_advertised g = false
  end.

Lemma evaluate_Err g c : evaluate g = Err c <-> first_closed g c.
Proof. destruct g as [[] [] [] []], c; cbn; split; try done; try (by intros (? & ? & ?)); try (by intros [? ?]). Qed.

Lemma evaluate_Ok g : evaluate g = Ok tt <-> g = GATES_OPEN.
Proof. destruct g as [[] [] [] []]; cbn; split; done. Qed.

(** Every request has one outcome, and it is the one the steps say. *)
Lemma admit_regions_spec gates r :
  match admit_regions gates (Some r) with
  | NotRequested => False
  | Degraded (Gate g) => first_closed gates g
  | Degraded (Rejected rej) => gates = GATES_OPEN /\ refused r (rej_stage rej) (rej_source rej)
  | AdmittedPlan plan carrier => gates = GATES_OPEN /\ exists topology, planned r carrier topology plan /\ check_media_policy plan = Ok tt
  end.
Proof.
  unfold admit_regions. destruct (evaluate gates) as [[]|g] eqn:Eg; [|by apply evaluate_Err]. apply evaluate_Ok in Eg.
  destruct (validate_advertised_offer r) as [[]|e] eqn:E1; [|by split; [|constructor]].
  destruct (policy_select_carrier r) as [carrier|e] eqn:E2; [|by split; [|constructor]].
  destruct (convert_request r) as [topology|e] eqn:E3; [|by split; [|eapply refused_request; [by split|]]].
  destruct (policy_plan_topology r topology FIRST_GENERATION) as [plan|e] eqn:E4; [|by split; [|eapply refused_planning; [by split|..]]].
  destruct (check_media_policy plan) as [[]|e] eqn:E5.
  - split; [done|]. exists topology. by split; [split; [split|..]|].
  - split; [done|]. eapply refused_media; [by split; [split|..]|done].
Qed.

(** It is the two-callback admission, with the steps grouped around the choice
    of the carrier. *)
Lemma admit_regions_admission (gates : AdmissionGates) (requested : option Request) :
  admit_regions gates requested = admission gates requested
    (fun r => match validate_advertised_offer r with
              | Err e => Err (mkRejection StageOffer e)
              | Ok _ => match policy_select_carrier r with Err e => Err (mkRejection StageCarrier e) | Ok c => Ok c end
              end)
    (fun r _ => match convert_request r with
                | Err e => Err (mkRejection StageRequest e)
                | Ok t => match policy_plan_topology r t FIRST_GENERATION with
                          | Err e => Err (mkRejection StagePlanning e)
                          | Ok plan => match check_media_policy plan with Err e => Err (mkRejection StageMediaPolicy e) | Ok _ => Ok plan end
                          end
                end).
Proof.
  unfold admit_regions, admission, degraded. destruct requested as [r|]; [|done].
  destruct (evaluate gates); [|done]. by repeat case_match; simplify_eq.
Qed.
End Admission.

(** A carrier is the first the host prefers that the client supports too. *)
Lemma select_carrier_Ok {C} `{EqDecision C} (host client : list C) c : select_carrier host client = Ok c <->
  exists pre post, host = pre ++ c :: post /\ (c ∈ client) /\ forall d, d ∈ pre -> ~ (d ∈ client).
Proof.
  unfold select_carrier. rewrite !unit_bind_Ok, !guard_err_Ok, !bool_decide_eq_false, ok_or_Ok. split.
  - intros (_ & _ & Hf). revert Hf. induction host as [|d host IH]; [done|]. cbn [List.find]. case_bool_decide as Hd.
    + intros [= ->]. exists [], host. split; [done|]. split; [done|]. by intros ? ?%not_elem_of_nil.
    + intros Hf. destruct (IH Hf) as (pre & post & -> & Hc & Hpre). exists (d :: pre), post. split; [done|]. split; [done|].
      by intros x [->|Hx]%elem_of_cons; [|apply Hpre].
  - intros (pre & post & -> & Hc & Hpre). split; [by destruct pre|]. split; [intros ->; by apply not_elem_of_nil in Hc|].
    induction pre as [|d pre IH]; cbn [List.find app].
    + by rewrite bool_decide_true.
    + rewrite bool_decide_false by (apply Hpre, elem_of_cons; by left). apply IH. intros x Hx. apply Hpre, elem_of_cons. by right.
Qed.

(** ** applied.rs *)

Record OriginTranslation := mkOrigin { ot_x : Z; ot_y : Z }.

Definition NO_TRANSLATION : OriginTranslation := mkOrigin 0 0.
Definition to_origin (desktop_x desktop_y : Z) : OriginTranslation :=
  mkOrigin (if desktop_x <? 0 then - desktop_x else 0) (if desktop_y <? 0 then - desktop_y else 0).

Inductive OriginTranslationOverflow := TranslationOverflow.

(** [apply] of a coordinate. *)
Definition origin_apply (coordinate shift : Z) : result OriginTranslationOverflow Z :=
  let translated := coordinate + shift in
  if (translated <? - 2 ^ 31) || (2 ^ 31 - 1 <? translated) then Err TranslationOverflow else Ok translated.
Definition apply_x (t : OriginTranslation) (x : Z) : result OriginTranslationOverflow Z := origin_apply x (ot_x t).
Definition apply_y (t : OriginTranslation) (y : Z) : result OriginTranslationOverflow Z := origin_apply y (ot_y t).

Record AppliedRegion (M R : Type) := mkAppliedRegion { ar_region : M; ar_resolved : R; ar_media : RegionMediaPlan; ar_translation : OriginTranslation }.
Arguments mkAppliedRegion {M R}.
Arguments ar_region {M R}.
Arguments ar_resolved {M R}.
Arguments ar_media {M R}.
Arguments ar_translation {M R}.

Definition bitrate_kbps {M R} (a : AppliedRegion M R) : Z := plan_bitrate_budget (ar_media a).
Definition stream_epoch {M R} (a : AppliedRegion M R) : Z := plan_stream_epoch (ar_media a).

Class AppliedRegionAssembler (Region Resolved Descriptor Error : Type) := {
  session_monitor_id : Region -> Z;
  missing_media_plan : Region -> Error;
  describe : AppliedRegion Region Resolved -> result Error Descriptor
}.

Section Assembly.
Context {Region Resolved Descriptor Error : Type} `{!AppliedRegionAssembler Region Resolved Descriptor Error}.

(** One region. *)
Definition assemble_region (resolved : list (Z * Resolved)) (negotiated : RegionMediaRoster) (translation : OriginTranslation) (region : Region) :
    result Error Descriptor :=
  let monitor_id := session_monitor_id region in
  '(_, resolved) ← ok_or (List.find (fun r => r.1 =? monitor_id) resolved) (missing_media_plan region);
  media ← ok_or (roster_plan negotiated monitor_id) (missing_media_plan region);
  describe (mkAppliedRegion region resolved media translation).

Definition assemble_applied_regions (regions : list Region) (resolved : list (Z * Resolved)) (negotiated : RegionMediaRoster)
    (translation : OriginTranslation) : result Error (list Descriptor) :=
  collect (assemble_region resolved negotiated translation) regions.

(** Every region is described, in order, with its own media. *)
Lemma assembled regions resolved negotiated translation ds :
  assemble_applied_regions regions resolved negotiated translation = Ok ds ->
  Forall2 (fun region d => exists r media, ((session_monitor_id region, r) ∈ resolved) /\ (media ∈ negotiated)
    /\ plan_session_monitor_id media = session_monitor_id region
    /\ describe (mkAppliedRegion region r media translation) = Ok d) regions ds.
Proof.
  intros H%collect_inv. eapply Forall2_impl; [exact H|]. intros region d Hd. unfold assemble_region in Hd.
  apply bind_Ok in Hd as ([id r] & Hr%ok_or_Ok & Hd). apply bind_Ok in Hd as (media & Hm%ok_or_Ok & Hd).
  apply find_some in Hr as [Hin E%Z.eqb_eq]. cbn in E. subst id. unfold roster_plan in Hm. apply fmap_Some in Hm as ([i p] & Hp & ->).
  apply list_find_Some in Hp as (Hp & E & _). exists r, p. split; [by apply list_elem_of_In|]. split; [|done].
  apply list_elem_of_lookup. by exists i.
Qed.
End Assembly.
