(* ===== verification/MediaFormats.v ===== *)
(** * Media: codecs, chroma formats, depths and colour, and sets of them

    Models the vocabulary of [shared/media/src/lib.rs]: every value's token, its
    parser, the bit it has in a set, the sets (a [u32] mask each; the four set
    types of the source have one body, here [FormatSet]) and the tables of what
    is offered for a codec.  Text is its characters. *)

From stdpp Require Import strings.
From S2P Require Import Prelude Utf8 CaptureSurface MultiMonitor AppliedTopology.

(** ** Tokens *)

Definition ColorRange_ALL : list ColorRange := [RangeLimited; RangeFull].
Definition range_token (r : ColorRange) : string := match r with RangeLimited => "limited" | RangeFull => "full" end.
Definition ColorMatrix_ALL : list ColorMatrix := [MatrixIdentity; MatrixBt709; MatrixBt601; MatrixBt2020Ncl].
Definition matrix_token (m : ColorMatrix) : string :=
  match m with MatrixIdentity => "identity" | MatrixBt709 => "bt709" | MatrixBt601 => "bt601" | MatrixBt2020Ncl => "bt2020ncl" end.
Definition is_identity (m : ColorMatrix) : bool := match m with MatrixIdentity => true | _ => false end.
Definition ColorPrimaries_ALL : list ColorPrimaries := [PrimariesBt709; PrimariesBt2020; PrimariesDisplayP3].
Definition primaries_token (p : ColorPrimaries) : string :=
  match p with PrimariesBt709 => "bt709" | PrimariesBt2020 => "bt2020" | PrimariesDisplayP3 => "display_p3" end.
Definition Transfer_ALL : list TransferCharacteristics := [TcBt709; TcSrgb; TcPq; TcHlg].
Definition transfer_token (t : TransferCharacteristics) : string :=
  match t with TcBt709 => "bt709" | TcSrgb => "srgb" | TcPq => "pq" | TcHlg => "hlg" end.
Definition BitDepth_ALL : list BitDepth := [EightBit; TenBit; TwelveBit].
Definition depth_bits (d : BitDepth) : Z := match d with EightBit => 8 | TenBit => 10 | TwelveBit => 12 end.
Definition depth_token (d : BitDepth) : string := match d with EightBit => "8" | TenBit => "10" | TwelveBit => "12" end.

(** A type whose values are named on the wire: [ALL] and [token]. *)
Class Tokens (A : Type) := { every : list A; token : A -> string }.
#[export] Instance codec_tokens_of : Tokens VideoCodec := {| every := VideoCodec_ALL; token := codec_token |}.
#[export] Instance chroma_tokens_of : Tokens ChromaSubsampling := {| every := ChromaSubsampling_ALL; token := chroma_token |}.
#[export] Instance range_tokens_of : Tokens ColorRange := {| every := ColorRange_ALL; token := range_token |}.
#[export] Instance matrix_tokens_of : Tokens ColorMatrix := {| every := ColorMatrix_ALL; token := matrix_token |}.
#[export] Instance primaries_tokens_of : Tokens ColorPrimaries := {| every := ColorPrimaries_ALL; token := primaries_token |}.
#[export] Instance transfer_tokens_of : Tokens TransferCharacteristics := {| every := Transfer_ALL; token := transfer_token |}.
#[export] Instance depth_tokens_of : Tokens BitDepth := {| every := BitDepth_ALL; token := depth_token |}.

(** The characters of a value's token. *)
Definition token_text {A} `{Tokens A} (a : A) : list Z := string_bytes (token a).
(** The loop of [from_token]. *)
Definition from_token {A} `{Tokens A} (value : list Z) : option A := List.find (fun a => bool_decide (token_text a = value)) every.

(** What the parsers rely on: every value is listed, tokens differ, and a token
    is a word that ends no field. *)
Class TokenLaws (A : Type) `{Tokens A} := {
  every_value a : a ∈ every;
  token_text_inj : Inj (=) (=) token_text;
  token_word a : token_text a <> [] /\ Forall (fun c => 33 <= c < 127) (token_text a)
}.

Ltac finite_tokens :=
  split; [by intros []; apply (bool_decide_unpack _); vm_compute|by intros [] [] E; try done; discriminate E|
          by intros []; (split; [discriminate|apply (bool_decide_unpack _); vm_compute])].
#[export] Instance VideoCodec_eq_dec : EqDecision VideoCodec. Proof. solve_decision. Defined.
#[export] Instance BitDepth_eq_dec : EqDecision BitDepth. Proof. solve_decision. Defined.
#[export] Instance Transfer_eq_dec : EqDecision TransferCharacteristics. Proof. solve_decision. Defined.
#[export] Instance codec_laws : TokenLaws VideoCodec. Proof. finite_tokens. Qed.
#[export] Instance chroma_laws : TokenLaws ChromaSubsampling. Proof. finite_tokens. Qed.
#[export] Instance range_laws : TokenLaws ColorRange. Proof. finite_tokens. Qed.
#[export] Instance matrix_laws : TokenLaws ColorMatrix. Proof. finite_tokens. Qed.
#[export] Instance primaries_laws : TokenLaws ColorPrimaries. Proof. finite_tokens. Qed.
#[export] Instance transfer_laws : TokenLaws TransferCharacteristics. Proof. finite_tokens. Qed.
#[export] Instance depth_laws : TokenLaws BitDepth. Proof. finite_tokens. Qed.

Lemma find_inj {A B} `{EqDecision B} (f : A -> B) (l : list A) a : Inj (=) (=) f -> a ∈ l ->
  List.find (fun x => bool_decide (f x = f a)) l = Some a.
Proof.
  intros Hinj Ha. induction l as [|x l IH]; [by apply elem_of_nil in Ha|]. cbn [List.find].
  case_bool_decide as E; [by rewrite (inj f _ _ E)|]. apply IH. by apply elem_of_cons in Ha as [->|Ha].
Qed.

Lemma from_token_text {A} `{TokenLaws A} a : from_token (token_text a) = Some a.
Proof. apply find_inj; [apply token_text_inj|apply every_value]. Qed.

Lemma from_token_Some {A} `{TokenLaws A} value a : from_token value = Some a <-> value = token_text a.
Proof.
  split; [|intros ->; apply from_token_text].
  intros E. apply List.find_some in E as [_ E]. by apply bool_decide_eq_true in E.
Qed.

(** ** Sets *)

(** A value's bit. *)
Class BitIndex (A : Type) := bit_index : A -> Z.
Definition codec_bit_index (c : VideoCodec) : Z :=
  match c with CodecJpeg => 0 | CodecH264 => 1 | CodecH265 => 2 | CodecVp9 => 3 | CodecAv1 => 4 end.
Definition chroma_bit_index (c : ChromaSubsampling) : Z := match c with Chroma420 => 0 | Chroma422 => 1 | Chroma444 => 2 end.
Definition range_bit_index (r : ColorRange) : Z := match r with RangeLimited => 0 | RangeFull => 1 end.
Definition depth_bit_index (d : BitDepth) : Z := match d with EightBit => 0 | TenBit => 1 | TwelveBit => 2 end.
#[export] Instance codec_bits_of : BitIndex VideoCodec := codec_bit_index.
#[export] Instance chroma_bits_of : BitIndex ChromaSubsampling := chroma_bit_index.
#[export] Instance range_bits_of : BitIndex ColorRange := range_bit_index.
#[export] Instance depth_bits_of : BitIndex BitDepth := depth_bit_index.

Record FormatSet (A : Type) := mkFormatSet { set_bits : Z }.
Arguments mkFormatSet {A}.
Arguments set_bits {A}.

Definition CodecSet : Type := FormatSet VideoCodec.
Definition ChromaSet : Type := FormatSet ChromaSubsampling.
Definition BitDepthSet : Type := FormatSet BitDepth.
Definition ColorRangeSet : Type := FormatSet ColorRange.

Section Sets.
Context {A : Type} `{BitIndex A}.

Definition set_empty : FormatSet A := mkFormatSet 0.
Definition set_with (s : FormatSet A) (a : A) : FormatSet A := mkFormatSet (Z.lor (set_bits s) (Z.shiftl 1 (bit_index a))).
Definition from_slice (l : list A) : FormatSet A := fold_left set_with l set_empty.
Definition set_contains (s : FormatSet A) (a : A) : bool := negb (Z.land (set_bits s) (Z.shiftl 1 (bit_index a)) =? 0).
Definition set_intersection (s t : FormatSet A) : FormatSet A := mkFormatSet (Z.land (set_bits s) (set_bits t)).
Definition contains_all (s t : FormatSet A) : bool := Z.land (set_bits s) (set_bits t) =? set_bits t.
Definition set_members `{Tokens A} (s : FormatSet A) : list A := List.filter (set_contains s) every.
End Sets.

(** [next_back] and [rfind] of the members. *)
Definition deepest (s : BitDepthSet) : option BitDepth := last (set_members s).
Definition deepest_up_to (s : BitDepthSet) (ceiling : BitDepth) : option BitDepth :=
  last (List.filter (fun d => depth_bits d <=? depth_bits ceiling) (set_members s)).

(** ** What is offered for a codec *)

Definition offered_chroma (c : VideoCodec) : ChromaSet :=
  match c with
  | CodecH265 => from_slice [Chroma420; Chroma422; Chroma444]
  | CodecH264 | CodecAv1 => from_slice [Chroma420; Chroma444]
  | CodecJpeg | CodecVp9 => from_slice [Chroma420]
  end.
Definition offered_bit_depths (c : VideoCodec) : BitDepthSet :=
  match c with
  | CodecAv1 => from_slice [EightBit; TenBit; TwelveBit]
  | CodecH264 | CodecH265 | CodecVp9 => from_slice [EightBit; TenBit]
  | CodecJpeg => from_slice [EightBit]
  end.

(** ** Facts about sets *)

Class BitLaws (A : Type) `{BitIndex A} := {
  bit_index_inj : Inj (=) (=) bit_index;
  bit_index_range (a : A) : 0 <= bit_index a < 32
}.
Ltac finite_bits := split; [by intros [] []|by intros []; cbv].
#[export] Instance codec_bit_laws : BitLaws VideoCodec. Proof. finite_bits. Qed.
#[export] Instance chroma_bit_laws : BitLaws ChromaSubsampling. Proof. finite_bits. Qed.
#[export] Instance range_bit_laws : BitLaws ColorRange. Proof. finite_bits. Qed.
#[export] Instance depth_bit_laws : BitLaws BitDepth. Proof. finite_bits. Qed.

Section SetFacts.
Context {A : Type} `{BitLaws A} `{EqDecision A}.

Lemma set_contains_bit s (a : A) : set_contains s a = Z.testbit (set_bits s) (bit_index a).
Proof. unfold set_contains. rewrite land_bit by apply bit_index_range. apply negb_involutive. Qed.

Lemma contains_set_with s (a b : A) : set_contains (set_with s a) b = set_contains s b || bool_decide (a = b).
Proof.
  rewrite !set_contains_bit. cbn [set_with set_bits]. pose proof (bit_index_range a). pose proof (bit_index_range b).
  rewrite Z.lor_spec, Z.shiftl_1_l, Z.pow2_bits_eqb by lia. f_equal. apply Bool.eq_iff_eq_true.
  rewrite Z.eqb_eq, bool_decide_eq_true. split; [apply bit_index_inj|by intros ->].
Qed.

Lemma contains_empty (a : A) : set_contains set_empty a = false.
Proof. rewrite set_contains_bit. apply Z.bits_0. Qed.

Lemma contains_slice (l : list A) a : set_contains (from_slice l) a = bool_decide (a ∈ l).
Proof.
  unfold from_slice. enough (forall s, set_contains (fold_left set_with l s) a = set_contains s a || bool_decide (a ∈ l)) as ->
    by by rewrite contains_empty.
  induction l as [|x l IH]; intros s; cbn [fold_left].
  - by rewrite (bool_decide_eq_false_2 _ (not_elem_of_nil a)), orb_false_r.
  - rewrite IH, contains_set_with, <- orb_assoc. f_equal. apply Bool.eq_iff_eq_true.
    rewrite orb_true_iff, !bool_decide_eq_true, elem_of_cons. naive_solver.
Qed.

Lemma contains_intersection s t (a : A) : set_contains (set_intersection s t) a = set_contains s a && set_contains t a.
Proof. rewrite !set_contains_bit. cbn [set_intersection set_bits]. apply Z.land_spec. Qed.

Lemma elem_of_members `{!Tokens A} `{!TokenLaws A} s (a : A) : (a ∈ set_members s) <-> set_contains s a = true.
Proof. unfold set_members. rewrite list_elem_of_In, List.filter_In, <- list_elem_of_In. pose proof (every_value a). tauto. Qed.

Lemma contains_all_empty s : contains_all (A:=A) s set_empty = true.
Proof. unfold contains_all. cbn [set_empty set_bits]. by rewrite Z.land_0_r. Qed.

Lemma contains_all_with s t (a : A) : contains_all s (set_with t a) = contains_all s t && set_contains s a.
Proof.
  unfold contains_all. rewrite set_contains_bit. cbn [set_with set_bits]. pose proof (bit_index_range a) as Ha.
  set (x := set_bits s). set (y := set_bits t). set (n := bit_index a) in *. rewrite Z.shiftl_1_l.
  apply Bool.eq_iff_eq_true. rewrite andb_true_iff, !Z.eqb_eq. split.
  - intros E. split.
    + apply Z.bits_inj'. intros m Hm. apply (f_equal (fun z => Z.testbit z m)) in E. revert E. rewrite !Z.land_spec, !Z.lor_spec.
      by destruct (Z.testbit x m), (Z.testbit y m), (Z.testbit (2 ^ n) m).
    + apply (f_equal (fun z => Z.testbit z n)) in E. revert E. rewrite Z.land_spec, Z.lor_spec, Z.pow2_bits_true, orb_true_r by lia.
      by rewrite andb_true_r.
  - intros [Ey Ex]. apply Z.bits_inj'. intros m Hm. apply (f_equal (fun z => Z.testbit z m)) in Ey. revert Ey.
    rewrite !Z.land_spec, !Z.lor_spec, Z.pow2_bits_eqb by lia. destruct (Z.eqb_spec n m) as [->|].
    + rewrite Ex. by destruct (Z.testbit y m).
    + by rewrite orb_false_r.
Qed.
End SetFacts.
