(* ===== verification/MediaPlan.v ===== *)
(** * Media: the plan an encoder backend is chosen by

    Models the resolver of [shared/media/src/video/plan.rs]: what each backend
    can encode, the order in which a host's probed candidates are tried, the
    strict resolution that fails closed and the degrading one that fits the
    request to the backend and says what it changed. *)

From S2P Require Import Prelude CaptureSurface MultiMonitor AppliedTopology MediaFormats.

(** ** Backends *)

Inductive EncoderRequest := RequestAuto | RequestNvenc | RequestMediaFoundation | RequestSoftwareH264 | RequestSoftwareAv1.
Definition is_auto (r : EncoderRequest) : bool := match r with RequestAuto => true | _ => false end.

Definition accepts (r : EncoderRequest) (b : EncoderBackend) : bool :=
  is_auto r
  || match r, b with
     | RequestNvenc, NativeNvenc | RequestMediaFoundation, WindowsMediaFoundation | RequestSoftwareH264, OpenH264
     | RequestSoftwareAv1, Rav1e => true
     | _, _ => false
     end.

Record BackendLimits := mkBackendLimits {
  bl_codecs : CodecSet;
  bl_chroma : ChromaSet;
  bl_bit_depths : BitDepthSet;
  bl_ranges : ColorRangeSet;
  bl_identity_matrix : bool;
  bl_max_width : Z;
  bl_max_height : Z;
  bl_max_fps : Z;
  bl_cursor_in_video : bool
}.

Definition supports_matrix (l : BackendLimits) (m : ColorMatrix) : bool := negb (is_identity m) || bl_identity_matrix l.

Definition contract (b : EncoderBackend) : BackendLimits :=
  match b with
  | NativeNvenc =>
    mkBackendLimits (from_slice [CodecH264; CodecH265; CodecAv1]) (from_slice [Chroma420; Chroma444]) (from_slice [EightBit; TenBit])
      (from_slice [RangeLimited; RangeFull]) true 8192 8192 240 true
  | WindowsMediaFoundation =>
    mkBackendLimits (from_slice [CodecH264]) (from_slice [Chroma420]) (from_slice [EightBit])
      (from_slice [RangeLimited; RangeFull]) false 4096 4096 60 false
  | VideoToolbox =>
    mkBackendLimits (from_slice [CodecH264; CodecH265]) (from_slice [Chroma420; Chroma444]) (from_slice [EightBit; TenBit])
      (from_slice [RangeLimited]) false 8192 8192 120 false
  | OpenH264 =>
    mkBackendLimits (from_slice [CodecH264]) (from_slice [Chroma420]) (from_slice [EightBit])
      (from_slice [RangeLimited; RangeFull]) false 1920 1200 30 false
  | Rav1e =>
    mkBackendLimits (from_slice [CodecAv1]) (from_slice [Chroma420; Chroma422; Chroma444]) (from_slice [EightBit; TenBit; TwelveBit])
      (from_slice [RangeLimited; RangeFull]) true 3840 2160 60 false
  end.

Definition narrowed_to (l other : BackendLimits) : BackendLimits :=
  mkBackendLimits (set_intersection (bl_codecs l) (bl_codecs other))
    (from_slice (List.filter (fun c => set_contains (bl_chroma l) c && set_contains (bl_chroma other) c) every))
    (set_intersection (bl_bit_depths l) (bl_bit_depths other)) (set_intersection (bl_ranges l) (bl_ranges other))
    (bl_identity_matrix l && bl_identity_matrix other) (Z.min (bl_max_width l) (bl_max_width other))
    (Z.min (bl_max_height l) (bl_max_height other)) (Z.min (bl_max_fps l) (bl_max_fps other))
    (bl_cursor_in_video l && bl_cursor_in_video other).

Definition with_source_cursor (l : BackendLimits) (c : CursorEvidence) : BackendLimits :=
  mkBackendLimits (bl_codecs l) (bl_chroma l) (bl_bit_depths l) (bl_ranges l) (bl_identity_matrix l) (bl_max_width l) (bl_max_height l)
    (bl_max_fps l) (bl_cursor_in_video l || match c with Composited => true | _ => false end).

Inductive BackendUnavailableReason :=
  NotBuilt | RuntimeMissing | HardwareUnavailable | SessionLimit | UnsupportedDisplay | UnsupportedConfiguration.
Inductive BackendAvailability := Available (l : BackendLimits) | Unavailable (r : BackendUnavailableReason).
Record BackendCandidate := mkCandidate { cand_backend : EncoderBackend; cand_availability : BackendAvailability }.

Record MediaRequest := mkMediaRequest {
  mr_encoder : EncoderRequest;
  mr_video : VideoConfiguration;
  mr_width : Z;
  mr_height : Z;
  mr_fps : Z;
  mr_cursor_mode : CursorMode
}.

Record ResolvedMediaPlan := mkResolved {
  rp_backend : EncoderBackend;
  rp_video : VideoConfiguration;
  rp_width : Z;
  rp_height : Z;
  rp_fps : Z;
  rp_cursor_mode : CursorMode;
  rp_cursor_in_video : bool;
  rp_codecs : CodecSet;
  rp_chroma : ChromaSet;
  rp_bit_depths : BitDepthSet;
  rp_ranges : ColorRangeSet
}.

Inductive MediaPlanError :=
| InvalidGeometry
| UnsupportedFormat
| BackendUnavailable (r : BackendUnavailableReason)
| RequestedBackendMissing
| NoBackendAvailable.

(** ** Strict resolution *)

Definition codec_chroma_ceiling (b : EncoderBackend) (c : VideoCodec) : ChromaSet :=
  match b, c with
  | NativeNvenc, CodecAv1 => from_slice [Chroma420]
  | _, _ => from_slice ChromaSubsampling_ALL
  end.

Definition is_host_cursor (c : CursorMode) : bool := match c with CursorHost => true | CursorLocal => false end.

Definition validate_request (r : MediaRequest) : result MediaPlanError unit :=
  _ ← guard_err ((mr_width r =? 0) || (mr_height r =? 0) || (mr_fps r =? 0)) InvalidGeometry;
  guard_err (match video_chroma (mr_video r) with Chroma420 => true | _ => false end
             && negb (Z.land (Z.lor (mr_width r) (mr_height r)) 1 =? 0)) InvalidGeometry.

Definition format_supported (v : VideoConfiguration) (b : EncoderBackend) (l : BackendLimits) : bool :=
  set_contains (bl_codecs l) (video_codec v)
  && set_contains (bl_chroma l) (video_chroma v)
  && set_contains (bl_bit_depths l) (video_bit_depth v)
  && set_contains (bl_ranges l) (video_range v)
  && supports_matrix l (video_matrix v)
  && set_contains (offered_chroma (video_codec v)) (video_chroma v)
  && set_contains (offered_bit_depths (video_codec v)) (video_bit_depth v)
  && set_contains (codec_chroma_ceiling b (video_codec v)) (video_chroma v).

Definition plan_with (b : EncoderBackend) (v : VideoConfiguration) (width height fps : Z) (cursor : CursorMode) (l : BackendLimits) :
    ResolvedMediaPlan :=
  mkResolved b v width height fps cursor (bl_cursor_in_video l) (bl_codecs l) (bl_chroma l) (bl_bit_depths l) (bl_ranges l).

Definition resolve_available (r : MediaRequest) (b : EncoderBackend) (l : BackendLimits) : result MediaPlanError ResolvedMediaPlan :=
  if negb (format_supported (mr_video r) b l)
     || (bl_max_width l <? mr_width r) || (bl_max_height l <? mr_height r) || (bl_max_fps l <? mr_fps r)
     || (is_host_cursor (mr_cursor_mode r) && negb (bl_cursor_in_video l))
  then Err UnsupportedFormat
  else Ok (plan_with b (mr_video r) (mr_width r) (mr_height r) (mr_fps r) (mr_cursor_mode r) l).

(** ** Degrading resolution *)

Record PlanDegradation := mkDegradation {
  codec_changed : bool;
  chroma_changed : bool;
  bit_depth_reduced : bool;
  range_changed : bool;
  matrix_changed : bool;
  primaries_changed : bool;
  transfer_changed : bool;
  fps_clamped : bool;
  geometry_clamped : bool;
  cursor_moved_to_local : bool
}.

Definition colour_degraded (d : PlanDegradation) : bool :=
  codec_changed d || chroma_changed d || bit_depth_reduced d || range_changed d || matrix_changed d || primaries_changed d
  || transfer_changed d.
Definition is_exact (d : PlanDegradation) : bool :=
  negb (codec_changed d) && negb (chroma_changed d) && negb (bit_depth_reduced d) && negb (range_changed d)
  && negb (matrix_changed d) && negb (primaries_changed d) && negb (transfer_changed d) && negb (fps_clamped d)
  && negb (geometry_clamped d) && negb (cursor_moved_to_local d).

Definition CODEC_PREFERENCE : list VideoCodec := [CodecH265; CodecH264].
Definition best_codec (requested : VideoCodec) (l : BackendLimits) : option VideoCodec :=
  if set_contains (bl_codecs l) requested then Some requested else List.find (set_contains (bl_codecs l)) CODEC_PREFERENCE.

(** [x & !1] of a [u32]. *)
Definition even_below (x : Z) : Z := Z.land x 0xFFFFFFFE.

(** The 64-bit products stay below [2 ^ 64]. *)
Definition fit_geometry (width height : Z) (l : BackendLimits) : option (Z * Z) :=
  if (bl_max_width l =? 0) || (bl_max_height l =? 0) then None else
  '(fitted_width, fitted_height) ←
    (if (bl_max_width l <? width) || (bl_max_height l <? height) then
       let width_scale := bl_max_width l * 1024 / Z.max width 1 in
       let height_scale := bl_max_height l * 1024 / Z.max height 1 in
       let scale := Z.min width_scale height_scale in
       fitted_width ← try_unsigned 32 (width * scale / 1024);
       fitted_height ← try_unsigned 32 (height * scale / 1024);
       Some (fitted_width, fitted_height)
     else Some (width, height));
  let fitted_width := even_below fitted_width in
  let fitted_height := even_below fitted_height in
  if (fitted_width =? 0) || (fitted_height =? 0) then None else Some (fitted_width, fitted_height).

Definition degraded_chroma (chroma : ChromaSubsampling) (codec : VideoCodec) (b : EncoderBackend) (l : BackendLimits) : ChromaSubsampling :=
  if set_contains (bl_chroma l) chroma && set_contains (offered_chroma codec) chroma && set_contains (codec_chroma_ceiling b codec) chroma
  then chroma else Chroma420.
Definition degraded_depth (depth : BitDepth) (codec : VideoCodec) (l : BackendLimits) : option BitDepth :=
  let offered := set_intersection (bl_bit_depths l) (offered_bit_depths codec) in
  match deepest_up_to offered depth with Some d => Some d | None => deepest offered end.

Definition degrade_to_limits (r : MediaRequest) (b : EncoderBackend) (l : BackendLimits) :
    result MediaPlanError (ResolvedMediaPlan * PlanDegradation) :=
  let v := mr_video r in
  codec ← ok_or (best_codec (video_codec v) l) UnsupportedFormat;
  let chroma := degraded_chroma (video_chroma v) codec b l in
  bit_depth ← ok_or (degraded_depth (video_bit_depth v) codec l) UnsupportedFormat;
  let range := if set_contains (bl_ranges l) (video_range v) then video_range v else RangeLimited in
  let matrix := if supports_matrix l (video_matrix v) then video_matrix v else MatrixBt709 in
  let fps := Z.min (mr_fps r) (bl_max_fps l) in
  _ ← guard_err (fps =? 0) InvalidGeometry;
  '(width, height) ← ok_or (fit_geometry (mr_width r) (mr_height r) l) InvalidGeometry;
  let moved := is_host_cursor (mr_cursor_mode r) && negb (bl_cursor_in_video l) in
  Ok (plan_with b (mkVideo codec chroma bit_depth range matrix (video_primaries v) (video_transfer v)) width height fps
        (if moved then CursorLocal else mr_cursor_mode r) l,
      mkDegradation (negb (bool_decide (codec = video_codec v))) (negb (bool_decide (chroma = video_chroma v)))
        (depth_bits bit_depth <? depth_bits (video_bit_depth v)) (negb (bool_decide (range = video_range v)))
        (negb (bool_decide (matrix = video_matrix v))) false false (negb (fps =? mr_fps r))
        (negb (width =? mr_width r) || negb (height =? mr_height r)) moved).

(** ** The candidates *)

(** The loop both resolutions share; [serve] is what they do with the first
    usable candidate. *)
Fixpoint resolve_loop {A} (serve : EncoderBackend -> BackendLimits -> result MediaPlanError A) (request : EncoderRequest) (matched : bool)
    (candidates : list BackendCandidate) : result MediaPlanError A :=
  match candidates with
  | [] => Err (if negb (is_auto request) && negb matched then RequestedBackendMissing else NoBackendAvailable)
  | c :: rest =>
    if negb (accepts request (cand_backend c)) then resolve_loop serve request matched rest else
    match cand_availability c with
    | Available l => serve (cand_backend c) l
    | Unavailable reason => if negb (is_auto request) then Err (BackendUnavailable reason) else resolve_loop serve request true rest
    end
  end.

Definition resolve_media_plan_degrading (r : MediaRequest) (candidates : list BackendCandidate) :
    result MediaPlanError (ResolvedMediaPlan * PlanDegradation) :=
  _ ← validate_request r;
  resolve_loop (degrade_to_limits r) (mr_encoder r) false candidates.

Definition resolve_media_plan (r : MediaRequest) (candidates : list BackendCandidate) : result MediaPlanError ResolvedMediaPlan :=
  _ ← validate_request r;
  resolve_loop (resolve_available r) (mr_encoder r) false candidates.

(** ** What a plan promises *)

Record request_typed (r : MediaRequest) : Prop := {
  rt_width : is_u32 (mr_width r);
  rt_height : is_u32 (mr_height r);
  rt_fps : is_u32 (mr_fps r)
}.
Record limits_typed (l : BackendLimits) : Prop := {
  lt_width : is_u32 (bl_max_width l);
  lt_height : is_u32 (bl_max_height l);
  lt_fps : is_u32 (bl_max_fps l)
}.

Record well_formed (r : MediaRequest) : Prop := {
  wf_width : mr_width r <> 0;
  wf_height : mr_height r <> 0;
  wf_fps : mr_fps r <> 0;
  wf_even : video_chroma (mr_video r) = Chroma420 -> Z.even (mr_width r) = true /\ Z.even (mr_height r) = true
}.

(** What a backend within these limits can encode. *)
Record fits (r : MediaRequest) (b : EncoderBackend) (l : BackendLimits) : Prop := {
  fits_codec : set_contains (bl_codecs l) (video_codec (mr_video r)) = true;
  fits_chroma : set_contains (bl_chroma l) (video_chroma (mr_video r)) = true;
  fits_depth : set_contains (bl_bit_depths l) (video_bit_depth (mr_video r)) = true;
  fits_range : set_contains (bl_ranges l) (video_range (mr_video r)) = true;
  fits_matrix : video_matrix (mr_video r) = MatrixIdentity -> bl_identity_matrix l = true;
  fits_offered_chroma : set_contains (offered_chroma (video_codec (mr_video r))) (video_chroma (mr_video r)) = true;
  fits_offered_depth : set_contains (offered_bit_depths (video_codec (mr_video r))) (video_bit_depth (mr_video r)) = true;
  fits_ceiling : b = NativeNvenc -> video_codec (mr_video r) = CodecAv1 -> video_chroma (mr_video r) = Chroma420;
  fits_width : mr_width r <= bl_max_width l;
  fits_height : mr_height r <= bl_max_height l;
  fits_fps : mr_fps r <= bl_max_fps l;
  fits_cursor : mr_cursor_mode r = CursorHost -> bl_cursor_in_video l = true
}.

Definition exact_plan (r : MediaRequest) (b : EncoderBackend) (l : BackendLimits) : ResolvedMediaPlan :=
  plan_with b (mr_video r) (mr_width r) (mr_height r) (mr_fps r) (mr_cursor_mode r) l.

(** A candidate the resolution passes over. *)
Definition skipped (request : EncoderRequest) (c : BackendCandidate) : Prop :=
  accepts request (cand_backend c) = false \/ (request = RequestAuto /\ exists reason, cand_availability c = Unavailable reason).

(** The candidate it stops at. *)
Definition first_usable (request : EncoderRequest) (candidates : list BackendCandidate) (b : EncoderBackend) (l : BackendLimits) : Prop :=
  exists pre post, candidates = pre ++ mkCandidate b (Available l) :: post /\ Forall (skipped request) pre /\ accepts request b = true.

(** No candidate will do, and why. *)
Inductive unusable (request : EncoderRequest) (candidates : list BackendCandidate) : MediaPlanError -> Prop :=
| UnusableNamed pre b reason post : candidates = pre ++ mkCandidate b (Unavailable reason) :: post ->
    Forall (fun c => accepts request (cand_backend c) = false) pre -> accepts request b = true -> request <> RequestAuto ->
    unusable request candidates (BackendUnavailable reason)
| UnusableMissing : Forall (fun c => accepts request (cand_backend c) = false) candidates -> request <> RequestAuto ->
    unusable request candidates RequestedBackendMissing
| UnusableAll : Forall (fun c => exists reason, cand_availability c = Unavailable reason) candidates -> request = RequestAuto ->
    unusable request candidates NoBackendAvailable.

Lemma is_auto_true r : is_auto r = true <-> r = RequestAuto.
Proof. by destruct r. Qed.

Lemma resolve_loop_spec {A} (serve : EncoderBackend -> BackendLimits -> result MediaPlanError A) request matched candidates :
  (matched = true -> request = RequestAuto) ->
  (exists b l, first_usable request candidates b l /\ resolve_loop serve request matched candidates = serve b l)
  \/ (exists e, unusable request candidates e /\ resolve_loop serve request matched candidates = Err e).
Proof.
  revert matched. induction candidates as [|[b a] rest IH]; intros matched Hm; cbn [resolve_loop cand_backend cand_availability].
  - right. eexists. split; [|done]. destruct (is_auto request) eqn:Ea; cbn [negb andb].
    + apply is_auto_true in Ea. by constructor.
    + assert (request <> RequestAuto) by by intros ->. destruct matched; [by destruct (H (Hm eq_refl))|]. by apply UnusableMissing.
  - assert (forall c m, skipped request c -> (m = true -> request = RequestAuto) ->
      (accepts request (cand_backend c) = false \/ m = true) ->
      (exists b l, first_usable request (c :: rest) b l /\ resolve_loop serve request m rest = serve b l)
      \/ (exists e, unusable request (c :: rest) e /\ resolve_loop serve request m rest = Err e)) as Hskip.
    { intros c m Hc Hm' Hor. destruct (IH m Hm') as [(b' & l & (pre & post & -> & Hpre & Hb) & E)|(e & He & E)].
      - left. exists b', l. split; [|done]. exists (c :: pre), post. split_and!; [done|by constructor|done].
      - right. exists e. split; [|done]. destruct He as [pre b' reason post -> Hpre Hb Hn|Hall Hn|Hall ->].
        + apply (UnusableNamed _ _ (c :: pre) b' reason post); try done. constructor; [|done]. destruct Hor as [?|?]; [done|by destruct (Hn (Hm' H))].
        + apply UnusableMissing; [|done]. constructor; [|done]. destruct Hor as [?|?]; [done|by destruct (Hn (Hm' H))].
        + apply UnusableAll; [|done]. constructor; [|done]. by destruct Hc as [Hc|[_ Hc]]. }
    destruct (accepts request b) eqn:Eb; cbn [negb].
    + destruct a as [l|reason]; [left; exists b, l; split; [|done]; exists [], rest; by split_and!|].
      destruct (is_auto request) eqn:Ea; cbn [negb].
      * apply is_auto_true in Ea as Er. apply (Hskip (mkCandidate b (Unavailable reason)) true); [|done|by right]. right. eauto.
      * right. eexists. split; [|done]. apply (UnusableNamed _ _ [] b reason rest); try done. by intros ->.
    + apply (Hskip (mkCandidate b a) matched); [by left|done|by left].
Qed.

Lemma supports_matrix_iff l m : supports_matrix l m = true <-> (m = MatrixIdentity -> bl_identity_matrix l = true).
Proof. unfold supports_matrix. destruct m; cbn [is_identity negb orb]; naive_solver. Qed.

Lemma ceiling_iff b c chroma : set_contains (codec_chroma_ceiling b c) chroma = true <-> (b = NativeNvenc -> c = CodecAv1 -> chroma = Chroma420).
Proof. by destruct b, c, chroma; split; try done; intros H; specialize (H eq_refl eq_refl). Qed.

Lemma odd_pair x y : (Z.land (Z.lor x y) 1 =? 0) = Z.even x && Z.even y.
Proof.
  change 1 with (Z.shiftl 1 0). rewrite land_bit, Z.lor_spec, !Z.bit0_odd by done.
  by rewrite negb_orb, !Z.negb_odd.
Qed.

Lemma validate_request_exact r : match validate_request r with Ok _ => well_formed r | Err e => e = InvalidGeometry /\ ~ well_formed r end.
Proof.
  unfold validate_request, guard_err. rewrite odd_pair, negb_andb.
  destruct (Z.eqb_spec (mr_width r) 0); [by split; [|intros []]|]. destruct (Z.eqb_spec (mr_height r) 0); [by split; [|intros []]|].
  destruct (Z.eqb_spec (mr_fps r) 0); [by split; [|intros []]|]. cbn [orb mbind result_bind].
  destruct (video_chroma (mr_video r)) eqn:Ec; cbn [andb]; [|by constructor; rewrite ?Ec..].
  destruct (Z.even (mr_width r)) eqn:Ew, (Z.even (mr_height r)) eqn:Eh; cbn [negb orb];
    [by constructor|split; [done|intros [_ _ _ H]; destruct (H Ec); congruence]..].
Qed.

Lemma resolve_available_exact r b l :
  match resolve_available r b l with
  | Ok p => fits r b l /\ p = exact_plan r b l
  | Err e => e = UnsupportedFormat /\ ~ fits r b l
  end.
Proof.
  unfold resolve_available, format_supported. match goal with |- context [if ?b then _ else _] => destruct b eqn:E end.
  - split; [done|]. intros [? ? ? ? ?%supports_matrix_iff ? ? ?%ceiling_iff ? ? ? Hc].
    repeat match goal with H : ?x = true, E : context [?x] |- _ => rewrite H in E; clear H end. cbn [andb negb orb] in E.
    apply orb_true_iff in E as [E|E]; [boolify; lia|].
    destruct (mr_cursor_mode r); [done|]. by rewrite Hc in E.
  - split; [|done]. rewrite !orb_false_iff, negb_false_iff, !andb_true_iff, !Z.ltb_ge in E.
    destruct E as ((((Hf & ?) & ?) & ?) & Hh). destruct Hf as (((((((? & ?) & ?) & ?) & Hm) & ?) & ?) & Hc).
    constructor; try done; [by apply supports_matrix_iff|by apply ceiling_iff|].
    intros E. rewrite E in Hh. by apply negb_false_iff in Hh.
Qed.

(** The strict resolution of a media plan.  It is refused for its geometry
    exactly when a dimension or the rate is zero, or an edge is odd where the
    chroma is subsampled both ways.  Otherwise the first candidate that the
    request accepts and that is available decides - under [auto], candidates
    that are unavailable are passed over - and the plan is the request itself,
    with that backend and its capabilities, exactly when all of it fits the
    backend's limits, what is offered for the codec, and the backend's ceiling
    for it; else nothing is resolved.  A named backend that is unavailable is
    refused for its reason, one that is no candidate is missing, and [auto]
    fails only when every candidate is unavailable. *)
Theorem media_plan_exact (r : MediaRequest) (candidates : list BackendCandidate) :
  match resolve_media_plan r candidates with
  | Ok p => well_formed r /\ exists b l, first_usable (mr_encoder r) candidates b l /\ fits r b l /\ p = exact_plan r b l
  | Err InvalidGeometry => ~ well_formed r
  | Err UnsupportedFormat => well_formed r /\ exists b l, first_usable (mr_encoder r) candidates b l /\ ~ fits r b l
  | Err e => well_formed r /\ unusable (mr_encoder r) candidates e
  end.
Proof.
  unfold resolve_media_plan. pose proof (validate_request_exact r) as Hv.
  destruct (validate_request r) as [?|e]; cbn [mbind result_bind]; [|by destruct Hv as [-> ?]].
  destruct (resolve_loop_spec (resolve_available r) (mr_encoder r) false candidates ltac:(done)) as [(b & l & Hu & ->)|(e & He & ->)].
  - pose proof (resolve_available_exact r b l) as H. destruct (resolve_available r b l) as [p|e].
    + split; [done|]. by exists b, l.
    + destruct H as [-> H]. split; [done|]. by exists b, l.
  - by destruct He; econstructor; eauto using unusable.
Qed.

(** ** What degrading changes *)

Lemma even_below_spec x : is_u32 x -> even_below x = 2 * (x / 2).
Proof.
  intros Hx. unfold even_below. change (x / 2) with (x / 2 ^ 1). rewrite <- Z.shiftr_div_pow2, Z.mul_comm by done.
  change (Z.shiftr x 1 * 2) with (Z.shiftr x 1 * 2 ^ 1). rewrite <- Z.shiftl_mul_pow2 by done.
  change 0xFFFFFFFE with (Z.shiftl (Z.ones 31) 1). apply Z.bits_inj'. intros n Hn. rewrite Z.land_spec, !Z.shiftl_spec by done.
  destruct (Z.eq_dec n 0) as [->|]; [by rewrite !(Z.testbit_neg_r _ (0 - 1)), andb_false_r by done|].
  rewrite Z.shiftr_spec by lia. replace (n - 1 + 1) with n by lia.
  destruct (Z.lt_ge_cases n 32); [by rewrite Z.ones_spec_low, andb_true_r by lia|].
  rewrite Z.ones_spec_high, andb_false_r by lia. destruct (Z.eq_dec x 0) as [->|]; [by rewrite Z.bits_0|].
  symmetry. apply Z.bits_above_log2; [unfold in_width in Hx; lia|]. enough (Z.log2 x < 32) by lia.
  apply Z.log2_lt_pow2; unfold in_width in Hx; lia.
Qed.

(** The largest scale, in 1024ths and at most 1, at which an image of these
    dimensions stays within the limits. *)
Record is_scale (width height : Z) (l : BackendLimits) (k : Z) : Prop := {
  scale_range : 0 <= k <= 1024;
  scale_width : width * k <= bl_max_width l * 1024;
  scale_height : height * k <= bl_max_height l * 1024;
  scale_largest k' : k' <= 1024 -> width * k' <= bl_max_width l * 1024 -> height * k' <= bl_max_height l * 1024 -> k' <= k
}.

Lemma div_le_iff a b c : 0 < b -> (c <= a / b <-> b * c <= a).
Proof. intros Hb. split; [|apply Z.div_le_lower_bound; lia]. pose proof (Z.mul_div_le a b Hb). nia. Qed.

Lemma half_scaled w k : 2 * (w * k / 1024 / 2) = 2 * (w * k / 2048).
Proof. by rewrite Z.div_div. Qed.

Lemma scaled_below w k : 0 < w -> 0 <= k <= 1024 -> 0 <= w * k / 1024 <= w.
Proof. intros Hw Hk. split; [apply Z.div_pos; nia|]. apply Z.div_le_upper_bound; nia. Qed.

(** The scale [fit_geometry] uses. *)
Definition fitted_scale (width height : Z) (l : BackendLimits) : Z :=
  if (bl_max_width l <? width) || (bl_max_height l <? height)
  then Z.min (bl_max_width l * 1024 / width) (bl_max_height l * 1024 / height) else 1024.

Lemma fitted_scale_spec width height l : limits_typed l -> 0 < width -> 0 < height -> is_scale width height l (fitted_scale width height l).
Proof.
  intros [Hlw Hlh _] Hw Hh. unfold in_width in Hlw, Hlh. unfold fitted_scale.
  pose proof (div_le_iff (bl_max_width l * 1024) width) as Dw. pose proof (div_le_iff (bl_max_height l * 1024) height) as Dh.
  pose proof (Z.div_pos (bl_max_width l * 1024) width ltac:(lia) ltac:(lia)).
  pose proof (Z.div_pos (bl_max_height l * 1024) height ltac:(lia) ltac:(lia)).
  set (x := bl_max_width l * 1024 / width) in *. set (y := bl_max_height l * 1024 / height) in *.
  assert (bl_max_width l < width -> x <= 1024) as Bx by (intros; apply Z.div_le_upper_bound; lia).
  assert (bl_max_height l < height -> y <= 1024) as By by (intros; apply Z.div_le_upper_bound; lia).
  assert (Z.min x y <= 1024 -> is_scale width height l (Z.min x y)) as Hmin.
  { intros Hm. split; [lia|apply Dw; lia|apply Dh; lia|]. intros k' _ Hk1%Dw Hk2%Dh; lia. }
  destruct (Z.ltb_spec (bl_max_width l) width) as [H1|H1], (Z.ltb_spec (bl_max_height l) height) as [H2|H2]; cbn [orb];
    [apply Hmin; specialize (Bx H1); lia|apply Hmin; specialize (Bx H1); lia|apply Hmin; specialize (By H2); lia|split; lia].
Qed.

Lemma fit_geometry_exact width height l : limits_typed l -> 0 < width < 2 ^ 32 -> 0 < height < 2 ^ 32 ->
  let k := fitted_scale width height l in
  match fit_geometry width height l with
  | Some (w, h) => w = 2 * (width * k / 2048) /\ h = 2 * (height * k / 2048) /\ 2048 <= width * k /\ 2048 <= height * k
  | None => width * k < 2048 \/ height * k < 2048
  end.
Proof.
  intros Hl Hw Hh k. pose proof (fitted_scale_spec width height l Hl ltac:(lia) ltac:(lia)) as Hk. fold k in Hk.
  destruct Hk as [Hk Hkw Hkh _]. unfold fit_geometry.
  destruct (Z.eqb_spec (bl_max_width l) 0) as [E|Nw]; [left; nia|]. destruct (Z.eqb_spec (bl_max_height l) 0) as [E|Nh]; [right; nia|].
  cbn [orb]. rewrite !Z.max_l by lia. pose proof (scaled_below width k ltac:(lia) Hk) as Bw. pose proof (scaled_below height k ltac:(lia) Hk) as Bh.
  assert ((if (bl_max_width l <? width) || (bl_max_height l <? height) then
       fitted_width ← try_unsigned 32 (width * Z.min (bl_max_width l * 1024 / width) (bl_max_height l * 1024 / height) / 1024);
       fitted_height ← try_unsigned 32 (height * Z.min (bl_max_width l * 1024 / width) (bl_max_height l * 1024 / height) / 1024);
       Some (fitted_width, fitted_height)
     else Some (width, height)) = Some (width * k / 1024, height * k / 1024)) as ->.
  { subst k. unfold fitted_scale in *. destruct ((bl_max_width l <? width) || (bl_max_height l <? height)); [|by rewrite !Z.div_mul].
    rewrite (try_unsigned_in 32) by (unfold in_width; lia). cbn [mbind option_bind].
    rewrite (try_unsigned_in 32) by (unfold in_width; lia). done. }
  cbn [mbind option_bind]. rewrite !even_below_spec, !half_scaled by (unfold in_width; lia).
  pose proof (div_le_iff (width * k) 2048 1 ltac:(done)). pose proof (div_le_iff (height * k) 2048 1 ltac:(done)).
  pose proof (Z.div_pos (width * k) 2048 ltac:(nia) ltac:(done)). pose proof (Z.div_pos (height * k) 2048 ltac:(nia) ltac:(done)).
  destruct (Z.eqb_spec (2 * (width * k / 2048)) 0); [left; lia|]. destruct (Z.eqb_spec (2 * (height * k / 2048)) 0); [right; lia|].
  cbn [orb]. split_and!; lia.
Qed.

(** The formats every backend has, which a request is degraded to. *)
Record floor (l : BackendLimits) : Prop := {
  floor_chroma : set_contains (bl_chroma l) Chroma420 = true;
  floor_range : set_contains (bl_ranges l) RangeLimited = true;
  floor_depth : set_contains (bl_bit_depths l) EightBit = true
}.

Lemma contract_floor b : floor (contract b) /\ limits_typed (contract b).
Proof. by destruct b. Qed.

(** A request for what a plan resolved to. *)
Definition request_of (r : MediaRequest) (p : ResolvedMediaPlan) : MediaRequest :=
  mkMediaRequest (mr_encoder r) (rp_video p) (rp_width p) (rp_height p) (rp_fps p) (rp_cursor_mode p).

(** What the backend can encode of the request is kept, and the rest becomes
    the nearest it can. *)
Record kept (r : MediaRequest) (p : ResolvedMediaPlan) (b : EncoderBackend) (l : BackendLimits) : Prop := {
  kept_codec : set_contains (bl_codecs l) (video_codec (mr_video r)) = true -> video_codec (rp_video p) = video_codec (mr_video r);
  kept_chroma : set_contains (bl_chroma l) (video_chroma (mr_video r)) = true ->
    set_contains (offered_chroma (video_codec (rp_video p))) (video_chroma (mr_video r)) = true ->
    (b = NativeNvenc -> video_codec (rp_video p) = CodecAv1 -> video_chroma (mr_video r) = Chroma420) ->
    video_chroma (rp_video p) = video_chroma (mr_video r);
  kept_depth_below : depth_bits (video_bit_depth (rp_video p)) <= depth_bits (video_bit_depth (mr_video r));
  kept_depth d : depth_bits d <= depth_bits (video_bit_depth (mr_video r)) -> set_contains (bl_bit_depths l) d = true ->
    set_contains (offered_bit_depths (video_codec (rp_video p))) d = true -> depth_bits d <= depth_bits (video_bit_depth (rp_video p));
  kept_range : set_contains (bl_ranges l) (video_range (mr_video r)) = true -> video_range (rp_video p) = video_range (mr_video r);
  kept_matrix : (video_matrix (mr_video r) = MatrixIdentity -> bl_identity_matrix l = true) ->
    video_matrix (rp_video p) = video_matrix (mr_video r);
  kept_primaries : video_primaries (rp_video p) = video_primaries (mr_video r);
  kept_transfer : video_transfer (rp_video p) = video_transfer (mr_video r);
  kept_cursor : (mr_cursor_mode r = CursorHost -> bl_cursor_in_video l = true) -> rp_cursor_mode p = mr_cursor_mode r
}.

(** The flags say exactly what changed. *)
Record told (r : MediaRequest) (p : ResolvedMediaPlan) (d : PlanDegradation) : Prop := {
  told_codec : codec_changed d = true <-> video_codec (rp_video p) <> video_codec (mr_video r);
  told_chroma : chroma_changed d = true <-> video_chroma (rp_video p) <> video_chroma (mr_video r);
  told_depth : bit_depth_reduced d = true <-> video_bit_depth (rp_video p) <> video_bit_depth (mr_video r);
  told_range : range_changed d = true <-> video_range (rp_video p) <> video_range (mr_video r);
  told_matrix : matrix_changed d = true <-> video_matrix (rp_video p) <> video_matrix (mr_video r);
  told_primaries : primaries_changed d = true <-> video_primaries (rp_video p) <> video_primaries (mr_video r);
  told_transfer : transfer_changed d = true <-> video_transfer (rp_video p) <> video_transfer (mr_video r);
  told_fps : fps_clamped d = true <-> rp_fps p <> mr_fps r;
  told_geometry : geometry_clamped d = true <-> (rp_width p, rp_height p) <> (mr_width r, mr_height r);
  told_cursor : cursor_moved_to_local d = true <-> rp_cursor_mode p <> mr_cursor_mode r
}.

Lemma best_codec_spec c l :
  match best_codec c l with
  | Some c' => set_contains (bl_codecs l) c' = true /\ (set_contains (bl_codecs l) c = true -> c' = c)
  | None => forall c', c' ∈ [c; CodecH265; CodecH264] -> set_contains (bl_codecs l) c' = false
  end.
Proof.
  unfold best_codec, CODEC_PREFERENCE. destruct (set_contains (bl_codecs l) c) eqn:E; [done|]. cbn [List.find].
  destruct (set_contains (bl_codecs l) CodecH265) eqn:E5; [done|]. destruct (set_contains (bl_codecs l) CodecH264) eqn:E4; [done|].
  intros c' Hc. repeat (apply elem_of_cons in Hc as [->|Hc]; [done|]). by apply elem_of_nil in Hc.
Qed.

Lemma offers_floor c : set_contains (offered_chroma c) Chroma420 = true /\ set_contains (offered_bit_depths c) EightBit = true.
Proof. by destruct c. Qed.

Lemma degraded_chroma_spec chroma c b l : floor l -> let chroma' := degraded_chroma chroma c b l in
  set_contains (bl_chroma l) chroma' = true /\ set_contains (offered_chroma c) chroma' = true
  /\ (b = NativeNvenc -> c = CodecAv1 -> chroma' = Chroma420)
  /\ (set_contains (bl_chroma l) chroma = true -> set_contains (offered_chroma c) chroma = true ->
      (b = NativeNvenc -> c = CodecAv1 -> chroma = Chroma420) -> chroma' = chroma).
Proof.
  intros Hl. cbn zeta. unfold degraded_chroma. pose proof (ceiling_iff b c chroma) as Hc.
  destruct (set_contains (bl_chroma l) chroma) eqn:E1, (set_contains (offered_chroma c) chroma) eqn:E2,
    (set_contains (codec_chroma_ceiling b c) chroma) eqn:E3; cbn [andb];
    (split_and!; try done; try apply Hl; try apply offers_floor; try (intros; naive_solver)).
Qed.

Lemma degraded_depth_spec depth c l : floor l -> exists d, degraded_depth depth c l = Some d
  /\ set_contains (bl_bit_depths l) d = true /\ set_contains (offered_bit_depths c) d = true /\ depth_bits d <= depth_bits depth
  /\ forall d', depth_bits d' <= depth_bits depth -> set_contains (bl_bit_depths l) d' = true -> set_contains (offered_bit_depths c) d' = true ->
     depth_bits d' <= depth_bits d.
Proof.
  intros Hl. pose proof (floor_depth l Hl) as H8. pose proof (proj2 (offers_floor c)) as O8.
  unfold degraded_depth, deepest_up_to, deepest, set_members. cbn [every depth_tokens_of BitDepth_ALL List.filter]. rewrite !contains_intersection, H8, O8.
  destruct (set_contains (bl_bit_depths l) TenBit) eqn:H10, (set_contains (bl_bit_depths l) TwelveBit) eqn:H12,
    (set_contains (offered_bit_depths c) TenBit) eqn:O10, (set_contains (offered_bit_depths c) TwelveBit) eqn:O12, depth;
    cbn; eexists; (split; [reflexivity|]); (split_and!; [done..|cbn; lia|]); intros []; cbn; congruence || lia.
Qed.

(** What degrading gives on a backend. *)
Record degraded (r : MediaRequest) (b : EncoderBackend) (l : BackendLimits) (k : Z) (p : ResolvedMediaPlan) (d : PlanDegradation) : Prop := {
  dg_fits : fits (request_of r p) b l;
  dg_plan : p = exact_plan (request_of r p) b l;
  dg_width : rp_width p = 2 * (mr_width r * k / 2048) /\ 0 < rp_width p;
  dg_height : rp_height p = 2 * (mr_height r * k / 2048) /\ 0 < rp_height p;
  dg_fps : rp_fps p = Z.min (mr_fps r) (bl_max_fps l) /\ 0 < rp_fps p;
  dg_kept : kept r p b l;
  dg_told : told r p d
}.

Lemma changed_iff {A} `{EqDecision A} (x y : A) : negb (bool_decide (x = y)) = true <-> x <> y.
Proof. rewrite negb_true_iff. apply bool_decide_eq_false. Qed.

Lemma depth_bits_inj d d' : depth_bits d = depth_bits d' -> d = d'.
Proof. by destruct d, d'. Qed.

Lemma degrade_to_limits_exact r b l : request_typed r -> limits_typed l -> floor l -> well_formed r ->
  let k := fitted_scale (mr_width r) (mr_height r) l in
  match degrade_to_limits r b l with
  | Ok (p, d) => degraded r b l k p d
  | Err e =>
    (e = UnsupportedFormat /\ forall c, c ∈ [video_codec (mr_video r); CodecH265; CodecH264] -> set_contains (bl_codecs l) c = false)
    \/ (e = InvalidGeometry /\ (bl_max_fps l = 0 \/ mr_width r * k < 2048 \/ mr_height r * k < 2048))
  end.
Proof.
  intros [Tw Th Tf] Hl Hfloor [Nw Nh Nf _] k. unfold in_width in Tw, Th, Tf.
  unfold degrade_to_limits. pose proof (best_codec_spec (video_codec (mr_video r)) l) as Hc.
  destruct (best_codec _ l) as [codec|]; cbn [ok_or mbind result_bind]; [|by left]. destruct Hc as [Hc Hkeep].
  destruct (degraded_depth_spec (video_bit_depth (mr_video r)) codec l Hfloor) as (depth & -> & D1 & D2 & D3 & D4).
  cbn [ok_or mbind result_bind]. pose proof (lt_fps l Hl) as Tl. unfold in_width in Tl.
  destruct (Z.eqb_spec (Z.min (mr_fps r) (bl_max_fps l)) 0); cbn [guard_err mbind result_bind]; [right; split; [done|lia]|].
  pose proof (fit_geometry_exact (mr_width r) (mr_height r) l Hl ltac:(lia) ltac:(lia)) as Hg. fold k in Hg.
  destruct (fit_geometry _ _ l) as [[w h]|]; cbn [ok_or mbind result_bind]; [|by right; split; [done|right]].
  destruct Hg as (Ew & Eh & Gw & Gh). destruct (fitted_scale_spec (mr_width r) (mr_height r) l Hl ltac:(lia) ltac:(lia)) as [Hk Kw Kh _]. fold k in Hk, Kw, Kh.
  destruct (degraded_chroma_spec (video_chroma (mr_video r)) codec b l Hfloor) as (C1 & C2 & C3 & C4).
  pose proof (Z.mul_div_le (mr_width r * k) 2048 ltac:(done)). pose proof (Z.mul_div_le (mr_height r * k) 2048 ltac:(done)).
  pose proof (Z.div_le_lower_bound (mr_width r * k) 2048 1 ltac:(done) ltac:(lia)). pose proof (Z.div_le_lower_bound (mr_height r * k) 2048 1 ltac:(done) ltac:(lia)).
  split; [split| |..]; cbn [request_of plan_with mr_encoder mr_video mr_width mr_height mr_fps mr_cursor_mode rp_backend rp_video rp_width rp_height
    rp_fps rp_cursor_mode video_codec video_chroma video_bit_depth video_range video_matrix video_primaries video_transfer]; try done; try lia.
  - destruct (set_contains (bl_ranges l) (video_range (mr_video r))) eqn:E; [done|apply Hfloor].
  - apply supports_matrix_iff. by destruct (supports_matrix l (video_matrix (mr_video r))) eqn:E.
  - destruct (mr_cursor_mode r), (bl_cursor_in_video l) eqn:E; done.
  - split; cbn; try done.
    + by intros ->.
    + by intros ->%supports_matrix_iff.
    + intros H'. destruct (mr_cursor_mode r); [done|]. by rewrite H'.
  - split; cbn; try apply changed_iff; try done.
    + rewrite Z.ltb_lt. split; [intros ? ->; lia|]. intros Hne. apply Z.le_neq. split; [done|]. by intros E%depth_bits_inj.
    + by rewrite negb_true_iff, Z.eqb_neq.
    + rewrite orb_true_iff, !negb_true_iff, !Z.eqb_neq. split; [naive_solver|]. intros Hne.
      destruct (Z.eq_dec w (mr_width r)) as [->|]; [right|by left]. by intros ->.
    + by destruct (mr_cursor_mode r), (bl_cursor_in_video l).
Qed.

#[export] Instance CursorMode_eq_dec : EqDecision CursorMode. Proof. solve_decision. Defined.

Lemma unchanged_iff (x : bool) (Q : Prop) `{Decision Q} : (x = true <-> ~ Q) -> (x = false <-> Q).
Proof.
  intros Hx. destruct (decide Q) as [HQ|HQ], x; split; try done; intros.
  - by destruct (proj1 Hx eq_refl).
  - discriminate (proj2 Hx HQ).
Qed.

Lemma told_exact r p d : told r p d ->
  (is_exact d = true <-> rp_video p = mr_video r /\ rp_width p = mr_width r /\ rp_height p = mr_height r /\ rp_fps p = mr_fps r
                         /\ rp_cursor_mode p = mr_cursor_mode r).
Proof.
  intros [T1 T2 T3 T4 T5 T6 T7 T8 T9 T10]. unfold is_exact. rewrite !andb_true_iff, !negb_true_iff.
  rewrite (unchanged_iff _ _ T1), (unchanged_iff _ _ T2), (unchanged_iff _ _ T3), (unchanged_iff _ _ T4), (unchanged_iff _ _ T5),
    (unchanged_iff _ _ T6), (unchanged_iff _ _ T7), (unchanged_iff _ _ T8), (unchanged_iff _ _ T9), (unchanged_iff _ _ T10).
  destruct (rp_video p) as [c1 c2 c3 c4 c5 c6 c7], (mr_video r) as [v1 v2 v3 v4 v5 v6 v7]. cbn. split.
  - intros (((((((((-> & ->) & ->) & ->) & ->) & ->) & ->) & ->) & [= -> ->]) & ->). done.
  - intros ([= -> -> -> -> -> -> ->] & -> & -> & -> & ->). done.
Qed.

Lemma resolve_loop_usable {A} (serve : EncoderBackend -> BackendLimits -> result MediaPlanError A) request candidates b l :
  first_usable request candidates b l -> forall matched, resolve_loop serve request matched candidates = serve b l.
Proof.
  intros (pre & post & -> & Hpre & Hb). induction Hpre as [|c pre Hc _ IH]; intros matched; cbn [app resolve_loop].
  - cbn [cand_backend cand_availability]. by rewrite Hb.
  - destruct (accepts request (cand_backend c)) eqn:E; cbn [negb]; [|apply IH]. destruct Hc as [Hc|[-> [reason ->]]]; [congruence|]. cbn [is_auto negb]. apply IH.
Qed.

Definition no_degradation : PlanDegradation := mkDegradation false false false false false false false false false false.

Lemma degrade_fitting r b l : request_typed r -> limits_typed l -> floor l -> well_formed r -> fits r b l ->
  Z.even (mr_width r) = true -> Z.even (mr_height r) = true -> degrade_to_limits r b l = Ok (exact_plan r b l, no_degradation).
Proof.
  intros Ht Hl Hf Hwf Hfit Hw Hh. pose proof (degrade_to_limits_exact r b l Ht Hl Hf Hwf) as H. cbn zeta in H.
  pose proof (fits_width _ _ _ Hfit). pose proof (fits_height _ _ _ Hfit). pose proof (fits_fps _ _ _ Hfit).
  destruct Ht as [Tw Th Tf], Hwf as [Nw Nh Nf _]. unfold in_width in Tw, Th, Tf.
  assert (fitted_scale (mr_width r) (mr_height r) l = 1024) as Ek.
  { unfold fitted_scale. by rewrite (proj2 (Z.ltb_ge _ _)), (proj2 (Z.ltb_ge _ _)) by done. }
  rewrite Ek in H. apply Z.even_spec in Hw as [w Hw], Hh as [h Hh].
  destruct (degrade_to_limits r b l) as [[p d]|e].
  - destruct H as [_ Ep [Ew _] [Eh _] [Ef _] Hkept Htold].
    assert (rp_video p = mr_video r) as Ev.
    { destruct Hfit as [F1 F2 F3 F4 F5 F6 F7 F8 _ _ _ _], Hkept as [K1 K2 K3 K4 K5 K6 K7 K8 _]. specialize (K1 F1).
      rewrite K1 in K2, K4. specialize (K2 F2 F6 F8). specialize (K5 F4). specialize (K6 F5).
      specialize (K4 (video_bit_depth (mr_video r)) ltac:(lia) F3 F7). assert (video_bit_depth (rp_video p) = video_bit_depth (mr_video r)) as K by (apply depth_bits_inj; lia).
      destruct (rp_video p), (mr_video r). cbn in *. congruence. }
    assert (rp_width p = mr_width r) as Ew' by (rewrite Ew, Hw; f_equal; symmetry; apply Z.div_unique_exact; lia).
    assert (rp_height p = mr_height r) as Eh' by (rewrite Eh, Hh; f_equal; symmetry; apply Z.div_unique_exact; lia).
    assert (rp_fps p = mr_fps r) as Ef' by lia.
    assert (rp_cursor_mode p = mr_cursor_mode r) as Ecur by apply (kept_cursor _ _ _ _ Hkept), (fits_cursor _ _ _ Hfit).
    f_equal. apply f_equal2.
    + rewrite Ep. unfold exact_plan, request_of. cbn. congruence.
    + assert (is_exact d = true) as Hd by by apply (told_exact r p d Htold). destruct d. unfold is_exact in Hd. cbn in Hd. boolify.
      unfold no_degradation. by simplify_eq.
  - destruct H as [[_ H]|[_ [H|[H|H]]]]; [|lia..]. specialize (H (video_codec (mr_video r)) ltac:(by left)). pose proof (fits_codec _ _ _ Hfit). congruence.
Qed.

Lemma degraded_is_exact r b l k p d : degraded r b l k p d -> (is_exact d = true <-> p = exact_plan r b l).
Proof.
  intros H. rewrite (told_exact r p d (dg_told _ _ _ _ _ _ H)). pose proof (dg_plan _ _ _ _ _ _ H) as Ep. split.
  - intros (Ev & Ew & Eh & Ef & Ec). rewrite Ep. unfold exact_plan, request_of. cbn. congruence.
  - by intros ->.
Qed.

Lemma even_double n : Z.even (2 * n) = true.
Proof. apply Z.even_spec. by exists n. Qed.

Lemma degraded_resolves r b l k p d candidates : first_usable (mr_encoder r) candidates b l -> degraded r b l k p d ->
  resolve_media_plan (request_of r p) candidates = Ok p.
Proof.
  intros Hu [Hfit Hp [Ew Pw] [Eh Ph] [_ Pf] _ _]. unfold resolve_media_plan.
  pose proof (validate_request_exact (request_of r p)) as Hv. destruct (validate_request (request_of r p)) as [?|e]; cbn [mbind result_bind].
  - change (mr_encoder (request_of r p)) with (mr_encoder r). rewrite (resolve_loop_usable _ _ _ _ _ Hu).
    pose proof (resolve_available_exact (request_of r p) b l) as H. destruct (resolve_available (request_of r p) b l); [by destruct H as [_ ->]; rewrite <- Hp|].
    by destruct H.
  - destruct Hv as [_ []]. split; cbn; try lia. intros _. rewrite Ew, Eh, !even_double. done.
Qed.

(** Degrading a media plan.  It fails as the strict resolution does, except
    that the chosen backend need only encode the codec, H.265 or H.264, and the
    geometry, scaled to the limits, must not vanish.  Otherwise its plan is what
    the strict resolution gives for that plan's own format: the requested
    codec, chroma, depth, range, matrix and cursor are kept where the backend
    can encode them, a depth it cannot becomes the deepest below it, the rate is
    clamped, and the geometry is scaled by one factor - the largest, in 1024ths,
    that stays within the limits - to even edges.  The flags say exactly what
    changed, so that [is_exact] holds exactly for the request itself; and a
    request of even edges that the strict resolution serves is served the
    same. *)
Theorem degraded_plan_exact (r : MediaRequest) (candidates : list BackendCandidate) (Htyped : request_typed r)
  (Hlimits : Forall (fun c => forall l, cand_availability c = Available l -> limits_typed l /\ floor l) candidates) :
  match resolve_media_plan_degrading r candidates with
  | Ok (p, d) => well_formed r
    /\ resolve_media_plan (request_of r p) candidates = Ok p
    /\ exists b l k, first_usable (mr_encoder r) candidates b l /\ is_scale (mr_width r) (mr_height r) l k /\ degraded r b l k p d
                     /\ (is_exact d = true <-> p = exact_plan r b l)
  | Err InvalidGeometry => ~ well_formed r
    \/ exists b l k, first_usable (mr_encoder r) candidates b l /\ is_scale (mr_width r) (mr_height r) l k
       /\ (bl_max_fps l = 0 \/ mr_width r * k < 2048 \/ mr_height r * k < 2048)
  | Err UnsupportedFormat => well_formed r /\ exists b l, first_usable (mr_encoder r) candidates b l
    /\ forall c, c ∈ [video_codec (mr_video r); CodecH265; CodecH264] -> set_contains (bl_codecs l) c = false
  | Err e => well_formed r /\ unusable (mr_encoder r) candidates e
  end
  /\ (forall p, resolve_media_plan r candidates = Ok p -> Z.even (mr_width r) = true -> Z.even (mr_height r) = true ->
      resolve_media_plan_degrading r candidates = Ok (p, no_degradation)).
Proof.
  assert (forall b l, first_usable (mr_encoder r) candidates b l -> limits_typed l /\ floor l) as Huse.
  { intros b l (pre & post & -> & _). apply Forall_app in Hlimits as [_ H]. apply Forall_cons in H as [H _]. by apply H. }
  unfold resolve_media_plan_degrading. pose proof (validate_request_exact r) as Hv. split.
  - destruct (validate_request r) as [?|e] eqn:Ev; cbn [mbind result_bind]; [|destruct Hv as [-> ?]; by left].
    destruct (resolve_loop_spec (degrade_to_limits r) (mr_encoder r) false candidates ltac:(done)) as [(b & l & Hu & ->)|(e & He & ->)].
    2:{ by destruct He; econstructor; eauto using unusable. }
    destruct (Huse b l Hu) as [Hl Hf]. pose proof (degrade_to_limits_exact r b l Htyped Hl Hf Hv) as H. cbn zeta in H.
    pose proof (fitted_scale_spec (mr_width r) (mr_height r) l Hl) as Hk. destruct Htyped as [Tw Th _]. unfold in_width in Tw, Th.
    specialize (Hk ltac:(destruct Hv; lia) ltac:(destruct Hv; lia)).
    destruct (degrade_to_limits r b l) as [[p d]|e].
    + split; [done|]. split; [by eapply degraded_resolves|]. exists b, l, (fitted_scale (mr_width r) (mr_height r) l).
      split_and!; try done. by eapply degraded_is_exact.
    + destruct H as [[-> H]|[-> H]]; [split; [done|]; by exists b, l|right]. by exists b, l, (fitted_scale (mr_width r) (mr_height r) l).
  - intros p Hp Hw Hh. unfold resolve_media_plan in Hp. destruct (validate_request r) as [?|e]; cbn [mbind result_bind] in *; [|done].
    destruct (resolve_loop_spec (resolve_available r) (mr_encoder r) false candidates ltac:(done)) as [(b & l & Hu & E)|(e & He & E)]; [|congruence].
    rewrite E in Hp. pose proof (resolve_available_exact r b l) as H. rewrite Hp in H. destruct H as [Hfit ->].
    rewrite (resolve_loop_usable _ _ _ _ _ Hu). destruct (Huse b l Hu). by apply degrade_fitting.
Qed.

(** ** Runs *)

(** 4:4:4 at ten bits on a host whose NVENC has no session left. *)
Definition grading_request : MediaRequest :=
  mkMediaRequest RequestAuto (mkVideo CodecH265 Chroma444 TenBit RangeFull MatrixBt709 PrimariesBt709 TcBt709) 3840 2160 60 CursorHost.
Definition software_host : list BackendCandidate :=
  [mkCandidate NativeNvenc (Unavailable SessionLimit); mkCandidate OpenH264 (Available (contract OpenH264))].

Lemma candidates_typed : Forall (fun c => forall l, cand_availability c = Available l -> limits_typed l /\ floor l) software_host.
Proof.
  constructor; [by intros l|]. constructor; [|by constructor]. intros l [= <-]. by destruct (contract_floor OpenH264).
Qed.

Lemma degraded_plan_exact_witness :
  let p := mkResolved OpenH264 (mkVideo CodecH264 Chroma420 EightBit RangeFull MatrixBt709 PrimariesBt709 TcBt709) 1920 1080 30 CursorLocal false
             (bl_codecs (contract OpenH264)) (bl_chroma (contract OpenH264)) (bl_bit_depths (contract OpenH264)) (bl_ranges (contract OpenH264)) in
  resolve_media_plan_degrading grading_request software_host
    = Ok (p, mkDegradation true true true false false false false true true true)
  /\ resolve_media_plan (request_of grading_request p) software_host = Ok p.
Proof.
  pose proof (degraded_plan_exact grading_request software_host ltac:(by split) candidates_typed) as [H _].
  split; [vm_compute; reflexivity|].
  match type of H with match ?x with _ => _ end => let y := eval vm_compute in x in change x with y in H end.
  exact (proj1 (proj2 H)).
Defined.

(** NVENC encodes AV1 only in 4:2:0, so a request for AV1 in 4:4:4 with the
    identity matrix keeps that matrix and loses its chroma planes. *)
Example identity_matrix_subsampled :
  exists p d,
    resolve_media_plan_degrading
      (mkMediaRequest RequestAuto (mkVideo CodecAv1 Chroma444 TenBit RangeFull MatrixIdentity PrimariesBt709 TcBt709) 1920 1080 60 CursorLocal)
      [mkCandidate NativeNvenc (Available (contract NativeNvenc))] = Ok (p, d)
    /\ video_matrix (rp_video p) = MatrixIdentity /\ video_chroma (rp_video p) = Chroma420 /\ matrix_changed d = false.
Proof. do 2 eexists. by vm_compute. Qed.

(** Without the eight-bit floor a depth can rise, and no flag says so. *)
Example raised_depth_untold :
  let l := narrowed_to (contract NativeNvenc) (mkBackendLimits (from_slice [CodecH265]) (from_slice [Chroma420]) (from_slice [TenBit])
             (from_slice [RangeLimited]) false 4096 4096 60 true) in
  exists p d,
    resolve_media_plan_degrading
      (mkMediaRequest RequestAuto (mkVideo CodecH265 Chroma420 EightBit RangeLimited MatrixBt709 PrimariesBt709 TcBt709) 1920 1080 60 CursorLocal)
      [mkCandidate NativeNvenc (Available l)] = Ok (p, d)
    /\ is_exact d = true /\ video_bit_depth (rp_video p) = TenBit.
Proof. cbn zeta. do 2 eexists. by vm_compute. Qed.
