(* ===== verification/ReadyLine.v ===== *)
(** * Media: the line a capture process announces its plan with

    Models the READY and UNAVAILABLE lines of [shared/media/src/video/plan.rs]:
    their formatters and their strict parsers, which check the announced plan
    against the request and the backend's contract, over the plans of
    [MediaPlan].  A line is its characters; the map of its fields is a list
    sorted by name, as a [BTreeMap] is. *)

From stdpp Require Import strings.
From S2P Require Import Prelude Utf8 RustText CaptureSurface MultiMonitor AppliedTopology MediaFormats MediaPlan.

Definition SPACE : Z := 32.
Definition HYPHEN : Z := 45.
Definition READY_PREFIX : list Z := string_bytes "[capenc] READY ".
Definition UNAVAILABLE_PREFIX : list Z := string_bytes "[capenc] UNAVAILABLE ".
Definition READY_VERSION : list Z := string_bytes "2".

(** ** Tokens *)

Inductive ConversionBackend := ConversionGpu | ConversionCpu.

Definition capture_token (c : CaptureBackend) : string :=
  match c with
  | NvFbc => "nvfbc" | XShm => "xshm" | DesktopDuplication => "dxgi-dda" | WindowsGraphicsCapture => "wgc" | PipeWire => "pipewire"
  end.
Definition backend_zero_copy (c : CaptureBackend) : bool :=
  match c with NvFbc | DesktopDuplication | WindowsGraphicsCapture => true | XShm | PipeWire => false end.
Definition conversion_token (c : ConversionBackend) : string := match c with ConversionGpu => "gpu" | ConversionCpu => "cpu" end.

(** A [match] on text: the value of the first arm it equals. *)
Definition match_text {A} (arms : list (string * A)) (value : list Z) : option A :=
  snd <$> List.find (fun arm => bool_decide (string_bytes arm.1 = value)) arms.

Definition capture_from_token : list Z -> option CaptureBackend :=
  match_text [("nvfbc", NvFbc); ("xshm", XShm); ("dxgi-dda", DesktopDuplication); ("wgc", WindowsGraphicsCapture); ("pipewire", PipeWire)].
Definition conversion_from_token : list Z -> option ConversionBackend := match_text [("gpu", ConversionGpu); ("cpu", ConversionCpu)].
Definition ready_backend : list Z -> option EncoderBackend :=
  match_text [("native-nvenc", NativeNvenc); ("media-foundation-sw-h264", WindowsMediaFoundation); ("videotoolbox", VideoToolbox);
              ("openh264-sw-h264", OpenH264); ("rav1e-sw-av1", Rav1e)].
Definition unavailable_backend : list Z -> option EncoderBackend :=
  match_text [("native-nvenc", NativeNvenc); ("media-foundation-sw-h264", WindowsMediaFoundation); ("videotoolbox", VideoToolbox);
              ("openh264-sw-h264", OpenH264)].
Definition ready_cursor : list Z -> option CursorMode := match_text [("local", CursorLocal); ("host", CursorHost)].
Definition unavailable_reason : list Z -> option BackendUnavailableReason :=
  match_text [("not_built", NotBuilt); ("runtime_missing", RuntimeMissing); ("hardware_unavailable", HardwareUnavailable);
              ("session_limit", SessionLimit); ("unsupported_display", UnsupportedDisplay); ("unsupported_configuration", UnsupportedConfiguration)].

Definition cursor_token (c : CursorMode) : string := match c with CursorLocal => "local" | CursorHost => "host" end.
Definition reason_code (r : BackendUnavailableReason) : string :=
  match r with
  | NotBuilt => "not_built" | RuntimeMissing => "runtime_missing" | HardwareUnavailable => "hardware_unavailable"
  | SessionLimit => "session_limit" | UnsupportedDisplay => "unsupported_display" | UnsupportedConfiguration => "unsupported_configuration"
  end.

(** [CorrelationId::parse_uuid]. *)
Definition uuid_char (index c : Z) : bool :=
  if bool_decide (index ∈ [8; 13; 18; 23]) then c =? HYPHEN else is_ascii_digit c || ((97 <=? c) && (c <=? 102)).
Fixpoint uuid_from (index : Z) (t : list Z) : bool :=
  match t with [] => true | c :: r => uuid_char index c && uuid_from (index + 1) r end.
Definition parse_uuid (t : list Z) : bool := (len t =? 36) && uuid_from 0 t.

(** ** The map of fields *)

Definition Fields : Type := list (list Z * list Z).

(** The order of text: by characters. *)
Fixpoint text_ltb (a b : list Z) : bool :=
  match a, b with
  | _, [] => false
  | [], _ :: _ => true
  | x :: a, y :: b => (x <? y) || ((x =? y) && text_ltb a b)
  end.

(** [insert]: whether the name was new, and the map. *)
Fixpoint fields_insert (name value : list Z) (m : Fields) : bool * Fields :=
  match m with
  | [] => (true, [(name, value)])
  | (n, v) :: r =>
    if bool_decide (n = name) then (false, (n, value) :: r)
    else if text_ltb name n then (true, (name, value) :: m)
    else let '(fresh, r) := fields_insert name value r in (fresh, (n, v) :: r)
  end.
Fixpoint fields_remove (name : list Z) (m : Fields) : option (list Z) * Fields :=
  match m with
  | [] => (None, [])
  | (n, v) :: r => if bool_decide (n = name) then (Some v, r) else let '(o, r) := fields_remove name r in (o, (n, v) :: r)
  end.

(** The names, joined by commas. *)
Fixpoint field_names (m : Fields) : list Z :=
  match m with
  | [] => []
  | [(n, _)] => n
  | (n, _) :: r => n ++ 44 :: field_names r
  end.

Section Parser.
Context {E : Type} (malformed duplicate : list Z -> E) (missing : string -> E).

Fixpoint parse_fields (m : Fields) (words : list (list Z)) : result E Fields :=
  match words with
  | [] => Ok m
  | word :: words =>
    '(name, value) ← ok_or (split_once EQUALS word) (malformed word);
    _ ← guard_err (bool_decide (name = []) || bool_decide (value = [])) (malformed word);
    let '(fresh, m) := fields_insert name value m in
    _ ← guard_err (negb fresh) (duplicate name);
    parse_fields m words
  end.

Definition take_field (name : string) (m : Fields) : result E (list Z * Fields) :=
  let '(value, m) := fields_remove (string_bytes name) m in
  value ← ok_or value (missing name);
  Ok (value, m).
End Parser.

(** ** READY *)

Inductive ReadyProtocolError :=
| ReadyMissingPrefix
| ReadyMalformedToken (t : list Z)
| ReadyDuplicateField (n : list Z)
| ReadyMissingField (n : string)
| ReadyUnsupportedVersion
| ReadyUnsupportedBackend
| ReadyUnsupportedCodec
| ReadyUnsupportedChroma
| ReadyUnsupportedBitDepth
| ReadyUnsupportedRange
| ReadyUnsupportedMatrix
| ReadyUnsupportedPrimaries
| ReadyUnsupportedTransfer
| ReadyInvalidNumber (n : string)
| ReadyInvalidBoolean (n : string)
| ReadyUnsupportedCursor
| ReadyRequestConflict
| ReadyInvalidSessionId
| ReadyUnknownFields (names : list Z)
| ReadyCapabilityConflict
| ReadyBackendNotAllowed.

Record ReadyExpectation := mkReadyExpectation {
  exp_request : MediaRequest;
  exp_allowed_backends : list EncoderBackend;
  exp_session_log_id : option (list Z)
}.

Definition take_ready : string -> Fields -> result ReadyProtocolError (list Z * Fields) := take_field ReadyMissingField.
Definition parse_bool (value : list Z) (name : string) : result ReadyProtocolError bool :=
  ok_or (match_text [("true", true); ("false", false)] value) (ReadyInvalidBoolean name).

(** A field that must be there, read by [read]. *)
Definition take_as {A} (read : list Z -> option A) (e : ReadyProtocolError) (name : string) (m : Fields) :
    result ReadyProtocolError (A * Fields) :=
  '(text, m) ← take_ready name m;
  a ← ok_or (read text) e;
  Ok (a, m).
Definition take_u32 (name : string) : Fields -> result ReadyProtocolError (Z * Fields) := take_as RustText.parse_u32 (ReadyInvalidNumber name) name.
Definition take_bool (name : string) (m : Fields) : result ReadyProtocolError (bool * Fields) :=
  '(text, m) ← take_ready name m;
  b ← parse_bool text name;
  Ok (b, m).

Definition read_video (m : Fields) : result ReadyProtocolError (VideoConfiguration * Fields) :=
  '(codec, m) ← take_as from_token ReadyUnsupportedCodec "codec" m;
  '(chroma, m) ← take_as from_token ReadyUnsupportedChroma "chroma" m;
  '(bit_depth, m) ← take_as from_token ReadyUnsupportedBitDepth "bit_depth" m;
  '(range, m) ← take_as from_token ReadyUnsupportedRange "range" m;
  '(matrix, m) ← take_as from_token ReadyUnsupportedMatrix "matrix" m;
  '(primaries, m) ← take_as from_token ReadyUnsupportedPrimaries "primaries" m;
  '(transfer, m) ← take_as from_token ReadyUnsupportedTransfer "transfer" m;
  Ok (mkVideo codec chroma bit_depth range matrix primaries transfer, m).

(** The five named capabilities of the wire. *)
Record ReadySupport := mkSupport { sup_h264 : bool; sup_h265 : bool; sup_yuv444 : bool; sup_main10 : bool; sup_full_range : bool }.

Definition read_support (v : VideoConfiguration) (m : Fields) : result ReadyProtocolError (ReadySupport * Fields) :=
  '(h264, m) ← take_bool "supports_h264" m;
  '(h265, m) ← take_bool "supports_h265" m;
  '(yuv444, m) ← take_bool "supports_yuv444" m;
  '(main10, m) ← take_bool "supports_main10" m;
  '(full_range, m) ← take_bool "supports_full_range" m;
  _ ← guard_err (match video_codec v with CodecH264 => negb h264 | CodecH265 => negb h265 | _ => false end
                 || match video_chroma v with Chroma444 => negb yuv444 | _ => false end
                 || match video_bit_depth v with TenBit => negb main10 | _ => false end
                 || match video_range v with RangeFull => negb full_range | _ => false end) ReadyCapabilityConflict;
  Ok (mkSupport h264 h265 yuv444 main10 full_range, m).

Definition read_sid (expected : option (list Z)) (m : Fields) : result ReadyProtocolError Fields :=
  let '(sid, m) := fields_remove (string_bytes "sid") m in
  match sid with
  | Some actual =>
    _ ← guard_err (negb (parse_uuid actual)) ReadyInvalidSessionId;
    _ ← guard_err (match expected with Some e => negb (bool_decide (e = actual)) | None => false end) ReadyRequestConflict;
    Ok m
  | None => _ ← guard_err (match expected with Some _ => true | None => false end) (ReadyMissingField "sid"); Ok m
  end.

(** The sets the booleans and the format stand for. *)
Definition with_if {A} `{BitIndex A} (b : bool) (a : A) (s : FormatSet A) : FormatSet A := if b then set_with s a else s.
Definition reported_plan (b : EncoderBackend) (v : VideoConfiguration) (width height fps : Z) (cursor : CursorMode) (s : ReadySupport) :
    ResolvedMediaPlan :=
  mkResolved b v width height fps cursor (is_host_cursor cursor)
    (set_with (with_if (sup_h265 s) CodecH265 (with_if (sup_h264 s) CodecH264 set_empty)) (video_codec v))
    (set_with (with_if (sup_yuv444 s) Chroma444 (from_slice [Chroma420])) (video_chroma v))
    (set_with (with_if (sup_main10 s) TenBit (from_slice [EightBit])) (video_bit_depth v))
    (set_with (with_if (sup_full_range s) RangeFull (from_slice [RangeLimited])) (video_range v)).

#[export] Instance VideoConfiguration_eq_dec : EqDecision VideoConfiguration. Proof. solve_decision. Defined.

#[export] Instance EncoderBackend_eq_dec : EqDecision EncoderBackend. Proof. solve_decision. Defined.

Definition request_conflict (p : ResolvedMediaPlan) (r : MediaRequest) : bool :=
  (rp_width p =? 0) || (rp_height p =? 0) || (rp_fps p =? 0)
  || negb (eqb (mr_width r =? 0) (mr_height r =? 0))
  || (negb (mr_width r =? 0) && negb (rp_width p =? mr_width r))
  || (negb (mr_height r =? 0) && negb (rp_height p =? mr_height r))
  || negb (rp_fps p =? mr_fps r)
  || negb (bool_decide (rp_video p = mr_video r))
  || negb (bool_decide (rp_cursor_mode p = mr_cursor_mode r)).

Definition capability_conflict (p : ResolvedMediaPlan) : bool :=
  let v := rp_video p in
  let c := contract (rp_backend p) in
  negb (set_contains (bl_codecs c) (video_codec v))
  || negb (set_contains (bl_chroma c) (video_chroma v))
  || negb (set_contains (bl_bit_depths c) (video_bit_depth v))
  || negb (set_contains (bl_ranges c) (video_range v))
  || negb (supports_matrix c (video_matrix v))
  || negb (set_contains (offered_chroma (video_codec v)) (video_chroma v))
  || negb (set_contains (offered_bit_depths (video_codec v)) (video_bit_depth v))
  || negb (set_contains (codec_chroma_ceiling (rp_backend p) (video_codec v)) (video_chroma v))
  || negb (contains_all (bl_codecs c) (rp_codecs p))
  || negb (forallb (set_contains (bl_chroma c)) (set_members (rp_chroma p)))
  || negb (forallb (set_contains (bl_bit_depths c)) (set_members (rp_bit_depths p)))
  || negb (forallb (set_contains (bl_ranges c)) (set_members (rp_ranges p)))
  || negb (set_contains (rp_codecs p) (video_codec v))
  || negb (set_contains (rp_chroma p) (video_chroma v))
  || negb (set_contains (rp_bit_depths p) (video_bit_depth v))
  || negb (set_contains (rp_ranges p) (video_range v))
  || (bl_max_width c <? rp_width p) || (bl_max_height c <? rp_height p) || (bl_max_fps c <? rp_fps p)
  || (match video_chroma v with Chroma420 => true | _ => false end
      && (negb (rp_width p mod 2 =? 0) || negb (rp_height p mod 2 =? 0))).

(** What follows the map's construction. *)
Definition read_ready (e : ReadyExpectation) (m : Fields) : result ReadyProtocolError ResolvedMediaPlan :=
  '(version, m) ← take_ready "version" m;
  _ ← guard_err (negb (bool_decide (version = READY_VERSION))) ReadyUnsupportedVersion;
  '(backend, m) ← take_as ready_backend ReadyUnsupportedBackend "backend" m;
  _ ← guard_err (negb (bool_decide (backend ∈ exp_allowed_backends e))) ReadyBackendNotAllowed;
  _ ← guard_err (negb (accepts (mr_encoder (exp_request e)) backend)) ReadyRequestConflict;
  '(video, m) ← read_video m;
  '(width, m) ← take_u32 "width" m;
  '(height, m) ← take_u32 "height" m;
  '(fps, m) ← take_u32 "fps" m;
  '(support, m) ← read_support video m;
  '(cursor_mode, m) ← take_as ready_cursor ReadyUnsupportedCursor "cursor" m;
  m ← read_sid (exp_session_log_id e) m;
  let m := (fields_remove (string_bytes "capture") m).2 in
  let m := (fields_remove (string_bytes "capture_zero_copy") m).2 in
  let m := (fields_remove (string_bytes "conversion_backend") m).2 in
  _ ← guard_err (negb (bool_decide (m = []))) (ReadyUnknownFields (field_names m));
  let plan := reported_plan backend video width height fps cursor_mode support in
  _ ← guard_err (request_conflict plan (exp_request e)) ReadyRequestConflict;
  _ ← guard_err (capability_conflict plan) ReadyCapabilityConflict;
  Ok plan.

Definition parse_ready_v1 (line : list Z) (e : ReadyExpectation) : result ReadyProtocolError ResolvedMediaPlan :=
  payload ← ok_or (strip_prefix READY_PREFIX line) ReadyMissingPrefix;
  m ← parse_fields ReadyMalformedToken ReadyDuplicateField [] (split_ascii_whitespace payload);
  read_ready e m.

(** [" name=value"]. *)
Definition field (name : string) (value : list Z) : list Z := SPACE :: string_bytes name ++ EQUALS :: value.
Definition bool_text (b : bool) : list Z := string_bytes (if b then "true" else "false").

Definition format_ready_v1_with_capture_and_conversion (p : ResolvedMediaPlan) (capture : option CaptureBackend)
    (conversion : option ConversionBackend) (session_log_id : option (list Z)) : list Z :=
  let sid := match session_log_id with Some value => field "sid" value | None => [] end in
  let capture := match capture with
                 | Some c => field "capture" (string_bytes (capture_token c)) ++ field "capture_zero_copy" (bool_text (backend_zero_copy c))
                 | None => []
                 end in
  let conversion := match conversion with Some c => field "conversion_backend" (string_bytes (conversion_token c)) | None => [] end in
  let v := rp_video p in
  READY_PREFIX ++ string_bytes "version=" ++ READY_VERSION
  ++ field "backend" (string_bytes (backend_ready_token (rp_backend p)))
  ++ field "codec" (token_text (video_codec v)) ++ field "chroma" (token_text (video_chroma v))
  ++ field "bit_depth" (token_text (video_bit_depth v)) ++ field "range" (token_text (video_range v))
  ++ field "matrix" (token_text (video_matrix v)) ++ field "primaries" (token_text (video_primaries v))
  ++ field "transfer" (token_text (video_transfer v))
  ++ field "width" (decimal (rp_width p)) ++ field "height" (decimal (rp_height p)) ++ field "fps" (decimal (rp_fps p))
  ++ field "supports_h264" (bool_text (set_contains (rp_codecs p) CodecH264))
  ++ field "supports_h265" (bool_text (set_contains (rp_codecs p) CodecH265))
  ++ field "supports_yuv444" (bool_text (set_contains (rp_chroma p) Chroma444))
  ++ field "supports_main10" (bool_text (set_contains (rp_bit_depths p) TenBit))
  ++ field "supports_full_range" (bool_text (set_contains (rp_ranges p) RangeFull))
  ++ field "cursor" (string_bytes (cursor_token (rp_cursor_mode p)))
  ++ capture ++ conversion ++ sid.
Definition format_ready_v1 (p : ResolvedMediaPlan) (session_log_id : option (list Z)) : list Z :=
  format_ready_v1_with_capture_and_conversion p None None session_log_id.

Definition find_prefixed (prefix : string) (line : list Z) : option (list Z) :=
  payload ← strip_prefix READY_PREFIX line;
  head (omap (strip_prefix (string_bytes prefix)) (split_ascii_whitespace payload)).
Definition parse_ready_capture (line : list Z) : option CaptureBackend := value ← find_prefixed "capture=" line; capture_from_token value.
Definition parse_ready_conversion (line : list Z) : option ConversionBackend :=
  value ← find_prefixed "conversion_backend=" line; conversion_from_token value.

(** ** UNAVAILABLE *)

Record BackendUnavailableNotice := mkNotice { not_backend : EncoderBackend; not_reason : BackendUnavailableReason }.

Inductive UnavailableProtocolError :=
| UnavailableMissingPrefix
| UnavailableMalformedToken (t : list Z)
| UnavailableDuplicateField (n : list Z)
| UnavailableMissingField (n : string)
| UnavailableUnsupportedVersion
| UnavailableUnsupportedBackend
| UnavailableUnsupportedReason
| UnavailableUnknownFields (names : list Z).

Definition format_unavailable_v1 (n : BackendUnavailableNotice) : list Z :=
  UNAVAILABLE_PREFIX ++ string_bytes "version=1" ++ field "backend" (string_bytes (backend_ready_token (not_backend n)))
  ++ field "code" (string_bytes (reason_code (not_reason n))).

Definition take_unavailable_field : string -> Fields -> result UnavailableProtocolError (list Z * Fields) := take_field UnavailableMissingField.

Definition parse_unavailable_v1 (line : list Z) : result UnavailableProtocolError BackendUnavailableNotice :=
  payload ← ok_or (strip_prefix UNAVAILABLE_PREFIX line) UnavailableMissingPrefix;
  m ← parse_fields UnavailableMalformedToken UnavailableDuplicateField [] (split_ascii_whitespace payload);
  '(version, m) ← take_unavailable_field "version" m;
  _ ← guard_err (negb (bool_decide (version = string_bytes "1"))) UnavailableUnsupportedVersion;
  '(backend, m) ← take_unavailable_field "backend" m;
  backend ← ok_or (unavailable_backend backend) UnavailableUnsupportedBackend;
  '(code, m) ← take_unavailable_field "code" m;
  reason ← ok_or (unavailable_reason code) UnavailableUnsupportedReason;
  _ ← guard_err (negb (bool_decide (m = []))) (UnavailableUnknownFields (field_names m));
  Ok (mkNotice backend reason).

(** A notice of the software AV1 encoder cannot be read. *)
Lemma unavailable_notice_exact n :
  parse_unavailable_v1 (format_unavailable_v1 n)
  = match not_backend n with Rav1e => Err UnavailableUnsupportedBackend | _ => Ok n end.
Proof. by destruct n as [[] []]; vm_compute. Qed.

(** ** Reading a line back *)

Definition plain (v : list Z) : Prop := v <> [] /\ Forall (fun c => 33 <= c < 127) v.
Definition word_of (nv : string * list Z) : list Z := string_bytes nv.1 ++ EQUALS :: nv.2.
Definition sentence (l : list (string * list Z)) : list Z := concat (map (fun nv => field nv.1 nv.2) l).

(** A name that is a word without an equals sign. *)
Definition good_name (n : string) : bool := bool_decide (n <> "") && forallb (fun c => (33 <=? c) && (c <? 127) && negb (c =? EQUALS)) (string_bytes n).

Lemma good_name_spec n : good_name n = true ->
  string_bytes n <> [] /\ (EQUALS ∉ string_bytes n) /\ Forall (fun c => 33 <= c < 127) (string_bytes n).
Proof.
  unfold good_name. rewrite andb_true_iff, bool_decide_eq_true, forallb_forall. intros [Hn H]. (split; [by destruct n|]); split.
  - intros Hin. apply list_elem_of_In, H in Hin. discriminate Hin.
  - apply List.Forall_forall. intros c Hc%H. boolify. lia.
Qed.

Lemma plain_word n v : good_name n = true -> plain v -> plain (word_of (n, v)).
Proof.
  intros (Hne & _ & Hn)%good_name_spec [_ Hv]. unfold plain, word_of. cbn [fst snd]. split; [by destruct (string_bytes n)|].
  apply Forall_app. split; [done|]. constructor; [unfold EQUALS; lia|done].
Qed.

Lemma plain_visible v : plain v -> Forall (fun c => is_ascii_whitespace c = false) v.
Proof. intros [_ H]. eapply Forall_impl; [exact H|]. intros c Hc. cbn in Hc.
  unfold is_ascii_whitespace. rewrite !orb_false_iff, !Z.eqb_neq. lia.
Qed.

Lemma split_sentence l : Forall (fun nv => good_name nv.1 = true /\ plain nv.2) l -> split_ascii_whitespace (sentence l) = map word_of l.
Proof.
  induction 1 as [|[n v] l [Hn Hv] Hl IH]; [done|]. cbn [map sentence concat fst snd].
  change (split_ascii_whitespace ((SPACE :: word_of (n, v)) ++ sentence l) = word_of (n, v) :: map word_of l).
  change (split_ascii_whitespace ((SPACE :: word_of (n, v)) ++ sentence l)) with (split_ascii_whitespace (word_of (n, v) ++ sentence l)).
  pose proof (plain_word n v Hn Hv) as Hw. rewrite split_word; [by rewrite IH|apply Hw|by apply plain_visible|].
  by destruct Hl as [|[]].
Qed.

(** The map of a sentence, when no name repeats. *)
Fixpoint insert_all (m : Fields) (l : list (string * list Z)) : option Fields :=
  match l with
  | [] => Some m
  | (n, v) :: l => match fields_insert (string_bytes n) v m with (true, m) => insert_all m l | (false, _) => None end
  end.

Lemma parse_words {E} (malformed duplicate : list Z -> E) l m m' : Forall (fun nv => good_name nv.1 = true /\ plain nv.2) l ->
  insert_all m l = Some m' -> parse_fields malformed duplicate m (map word_of l) = Ok m'.
Proof.
  intros Hl. revert m. induction Hl as [|[n v] l [Hn Hv] Hl IH]; intros m H; cbn [insert_all map parse_fields] in *; [by injection H as ->|].
  apply good_name_spec in Hn as (Hne & Heq & _). unfold word_of. cbn [fst snd] in *. rewrite split_once_app by done. cbn [ok_or mbind result_bind].
  rewrite !bool_decide_eq_false_2 by (done || apply Hv). cbn [orb guard_err mbind result_bind].
  destruct (fields_insert (string_bytes n) v m) as [[] m1]; [|done]. cbn [negb guard_err mbind result_bind]. by apply IH.
Qed.


(** The words of a READY line. *)
Definition capture_words (c : option CaptureBackend) : list (string * list Z) :=
  match c with
  | Some c => [("capture", string_bytes (capture_token c)); ("capture_zero_copy", bool_text (backend_zero_copy c))]
  | None => []
  end.
Definition conversion_words (c : option ConversionBackend) : list (string * list Z) :=
  match c with Some c => [("conversion_backend", string_bytes (conversion_token c))] | None => [] end.
Definition sid_words (sid : option (list Z)) : list (string * list Z) := match sid with Some value => [("sid", value)] | None => [] end.
Definition plan_words (p : ResolvedMediaPlan) : list (string * list Z) :=
  let v := rp_video p in
  [("backend", string_bytes (backend_ready_token (rp_backend p))); ("codec", token_text (video_codec v)); ("chroma", token_text (video_chroma v));
   ("bit_depth", token_text (video_bit_depth v)); ("range", token_text (video_range v)); ("matrix", token_text (video_matrix v));
   ("primaries", token_text (video_primaries v)); ("transfer", token_text (video_transfer v));
   ("width", decimal (rp_width p)); ("height", decimal (rp_height p)); ("fps", decimal (rp_fps p));
   ("supports_h264", bool_text (set_contains (rp_codecs p) CodecH264)); ("supports_h265", bool_text (set_contains (rp_codecs p) CodecH265));
   ("supports_yuv444", bool_text (set_contains (rp_chroma p) Chroma444)); ("supports_main10", bool_text (set_contains (rp_bit_depths p) TenBit));
   ("supports_full_range", bool_text (set_contains (rp_ranges p) RangeFull)); ("cursor", string_bytes (cursor_token (rp_cursor_mode p)))].
Definition ready_words (p : ResolvedMediaPlan) (capture : option CaptureBackend) (conversion : option ConversionBackend) (sid : option (list Z)) :
    list (string * list Z) :=
  plan_words p ++ capture_words capture ++ conversion_words conversion ++ sid_words sid.

Lemma sentence_app a b : sentence (a ++ b) = sentence a ++ sentence b.
Proof. unfold sentence. by rewrite map_app, concat_app. Qed.

Lemma format_words p capture conversion sid :
  format_ready_v1_with_capture_and_conversion p capture conversion sid
  = READY_PREFIX ++ word_of ("version", READY_VERSION) ++ sentence (ready_words p capture conversion sid).
Proof.
  unfold format_ready_v1_with_capture_and_conversion, ready_words. f_equal. change (word_of ("version", READY_VERSION)) with (string_bytes "version=" ++ READY_VERSION).
  rewrite <- app_assoc. do 2 f_equal. rewrite !sentence_app. unfold plan_words, sentence. cbn [map concat fst snd]. rewrite app_nil_r, <- !app_assoc.
  do 17 f_equal. destruct capture, conversion, sid; cbn [capture_words conversion_words sid_words map concat fst snd app];
    rewrite ?app_nil_r, <- ?app_assoc; done.
Qed.

Lemma plain_decimal n : plain (decimal n).
Proof.
  split; [apply decimal_nonempty|]. eapply Forall_impl; [apply decimal_digits|]. unfold is_digit. intros c Hc. cbn in Hc. lia.
Qed.

Lemma plain_uuid t : parse_uuid t = true -> plain t.
Proof.
  unfold parse_uuid. rewrite andb_true_iff, Z.eqb_eq. intros [Hl Ht]. split; [by destruct t|].
  revert Ht. generalize 0. clear Hl. induction t as [|c t IH]; intros i; [by constructor|]. cbn [uuid_from]. rewrite andb_true_iff. intros [Hc Ht].
  constructor; [|by eapply IH]. unfold uuid_char, is_ascii_digit, HYPHEN in Hc. case_bool_decide; [apply Z.eqb_eq in Hc; lia|].
  rewrite orb_true_iff, !andb_true_iff, !Z.leb_le in Hc. lia.
Qed.

Lemma plain_const s : good_name s = true -> plain (string_bytes s).
Proof. by intros (? & _ & ?)%good_name_spec. Qed.

Lemma ready_words_good p capture conversion sid : (forall t, sid = Some t -> parse_uuid t = true) ->
  Forall (fun nv => good_name nv.1 = true /\ plain nv.2) (ready_words p capture conversion sid).
Proof.
  intros Hsid. unfold ready_words, plan_words. rewrite !Forall_app. split_and!.
  - repeat (constructor; [split; [reflexivity|]; cbn [snd]; try apply token_word; try apply plain_decimal|]); [..|by constructor].
    all: apply plain_const; first [by destruct (rp_backend p)|by destruct (rp_cursor_mode p)|by destruct (set_contains _ _)].
  - destruct capture as [[]|]; repeat constructor; cbn; lia || done.
  - destruct conversion as [[]|]; repeat constructor; cbn; lia || done.
  - destruct sid as [t|]; [|by constructor]. constructor; [|by constructor]. split; [done|]. by apply plain_uuid, Hsid.
Qed.

(** What the line's booleans say of a plan. *)
Definition support_of (p : ResolvedMediaPlan) : ReadySupport :=
  mkSupport (set_contains (rp_codecs p) CodecH264) (set_contains (rp_codecs p) CodecH265) (set_contains (rp_chroma p) Chroma444)
    (set_contains (rp_bit_depths p) TenBit) (set_contains (rp_ranges p) RangeFull).
Definition as_announced (p : ResolvedMediaPlan) : ResolvedMediaPlan :=
  reported_plan (rp_backend p) (rp_video p) (rp_width p) (rp_height p) (rp_fps p) (rp_cursor_mode p) (support_of p).

(** A plan whose capabilities cover its format. *)
Record announceable (p : ResolvedMediaPlan) : Prop := {
  an_width : is_u32 (rp_width p);
  an_height : is_u32 (rp_height p);
  an_fps : is_u32 (rp_fps p);
  an_codec : set_contains (rp_codecs p) (video_codec (rp_video p)) = true;
  an_chroma : set_contains (rp_chroma p) (video_chroma (rp_video p)) = true;
  an_depth : set_contains (rp_bit_depths p) (video_bit_depth (rp_video p)) = true;
  an_range : set_contains (rp_ranges p) (video_range (rp_video p)) = true
}.

Lemma bool_text_read b : match_text [("true", true); ("false", false)] (bool_text b) = Some b.
Proof. by destruct b. Qed.

Lemma take_ready_removed n m v m' : fields_remove (string_bytes n) m = (Some v, m') -> take_ready n m = Ok (v, m').
Proof. unfold take_ready, take_field. by intros ->. Qed.

Lemma take_as_removed {A} (read : list Z -> option A) e n m v m' a :
  fields_remove (string_bytes n) m = (Some v, m') -> read v = Some a -> take_as read e n m = Ok (a, m').
Proof. unfold take_as. intros H Ha. rewrite (take_ready_removed _ _ _ _ H). cbn [mbind result_bind]. by rewrite Ha. Qed.

Lemma take_bool_removed n m v m' b :
  fields_remove (string_bytes n) m = (Some v, m') -> match_text [("true", true); ("false", false)] v = Some b -> take_bool n m = Ok (b, m').
Proof. unfold take_bool, parse_bool. intros H Ha. rewrite (take_ready_removed _ _ _ _ H). cbn [mbind result_bind]. by rewrite Ha. Qed.

(** One field of a concrete map, whose text has a known reading. *)
Ltac removed n m k := let x := eval vm_compute in (fields_remove (string_bytes n) m) in match x with (Some ?v, ?m') => k v m' end.
Ltac read_step :=
  match goal with
  | |- context [take_as ?r ?e ?n ?m] =>
    removed n m ltac:(fun v m' => match goal with H : r v = Some ?a |- _ =>
      rewrite (take_as_removed r e n m v m' a ltac:(vm_compute; reflexivity) H) end)
  | |- context [take_bool ?n ?m] =>
    removed n m ltac:(fun v m' => match goal with H : match_text _ v = Some ?b |- _ =>
      rewrite (take_bool_removed n m v m' b ltac:(vm_compute; reflexivity) H) end)
  | |- context [take_ready ?n ?m] =>
    removed n m ltac:(fun v m' => rewrite (take_ready_removed n m v m') by (vm_compute; reflexivity))
  end; cbn [mbind result_bind].

Lemma support_covers v codecs chromas depths ranges :
  set_contains codecs (video_codec v) = true -> set_contains chromas (video_chroma v) = true ->
  set_contains depths (video_bit_depth v) = true -> set_contains ranges (video_range v) = true ->
  match video_codec v with
  | CodecH264 => negb (set_contains codecs CodecH264) | CodecH265 => negb (set_contains codecs CodecH265) | _ => false
  end
  || match video_chroma v with Chroma444 => negb (set_contains chromas Chroma444) | _ => false end
  || match video_bit_depth v with TenBit => negb (set_contains depths TenBit) | _ => false end
  || match video_range v with RangeFull => negb (set_contains ranges RangeFull) | _ => false end = false.
Proof.
  intros H1 H2 H3 H4. rewrite !orb_false_iff.
  split_and!; [destruct (video_codec v)|destruct (video_chroma v)|destruct (video_bit_depth v)|destruct (video_range v)]; done || by rewrite ?H1, ?H2, ?H3, ?H4.
Qed.

Lemma read_plan_words p capture conversion sid (e : ReadyExpectation) : announceable p ->
  accepts (mr_encoder (exp_request e)) (rp_backend p) = true -> rp_backend p ∈ exp_allowed_backends e ->
  exp_session_log_id e = sid -> (forall t, sid = Some t -> parse_uuid t = true) ->
  exists m, insert_all [] (("version", READY_VERSION) :: ready_words p capture conversion sid) = Some m
  /\ read_ready e m = (_ ← guard_err (request_conflict (as_announced p) (exp_request e)) ReadyRequestConflict;
                       _ ← guard_err (capability_conflict (as_announced p)) ReadyCapabilityConflict;
                       Ok (as_announced p)).
Proof.
  intros [Tw Th Tf A1 A2 A3 A4] Hacc Hin Hexp Hsid.
  unfold ready_words, plan_words, as_announced, support_of. destruct p as [b v w h f cur civ codecs chromas depths ranges].
  cbn [rp_backend rp_video rp_width rp_height rp_fps rp_cursor_mode rp_codecs rp_chroma rp_bit_depths rp_ranges] in *.
  assert (ready_backend (string_bytes (backend_ready_token b)) = Some b) as Rb by by destruct b.
  assert (ready_cursor (string_bytes (cursor_token cur)) = Some cur) as Rcur by by destruct cur.
  pose proof (support_covers v codecs chromas depths ranges A1 A2 A3 A4) as Hcover.
  pose proof (from_token_text (video_codec v)) as R1. pose proof (from_token_text (video_chroma v)) as R2.
  pose proof (from_token_text (video_bit_depth v)) as R3. pose proof (from_token_text (video_range v)) as R4.
  pose proof (from_token_text (video_matrix v)) as R5. pose proof (from_token_text (video_primaries v)) as R6.
  pose proof (from_token_text (video_transfer v)) as R7.
  pose proof (parse_decimal 32 w ltac:(done) Tw : RustText.parse_u32 (decimal w) = Some w) as N1.
  pose proof (parse_decimal 32 h ltac:(done) Th : RustText.parse_u32 (decimal h) = Some h) as N2.
  pose proof (parse_decimal 32 f ltac:(done) Tf : RustText.parse_u32 (decimal f) = Some f) as N3.
  pose proof (bool_text_read (set_contains codecs CodecH264)) as B1. pose proof (bool_text_read (set_contains codecs CodecH265)) as B2.
  pose proof (bool_text_read (set_contains chromas Chroma444)) as B3. pose proof (bool_text_read (set_contains depths TenBit)) as B4.
  pose proof (bool_text_read (set_contains ranges RangeFull)) as B5.
  repeat match goal with
  | |- context [token_text ?x] => generalize dependent (token_text x); intros ? ?
  | |- context [decimal ?x] => generalize dependent (decimal x); intros ? ?
  | |- context [bool_text (set_contains ?s ?x)] => generalize dependent (bool_text (set_contains s x)); intros ? ?
  | |- context [string_bytes (backend_ready_token ?x)] => generalize dependent (string_bytes (backend_ready_token x)); intros ? ?
  | |- context [string_bytes (cursor_token ?x)] => generalize dependent (string_bytes (cursor_token x)); intros ? ?
  end.
  destruct capture as [cap|], conversion as [conv|], sid as [sid|]; cbn [capture_words conversion_words sid_words app];
    try generalize (string_bytes (capture_token cap)) as t_capture, (bool_text (backend_zero_copy cap)) as t_zero;
    try generalize (string_bytes (conversion_token conv)) as t_conversion; intros; (eexists; split; [vm_compute; reflexivity|]).
  all: unfold read_ready, read_video, read_support, take_u32, read_sid; rewrite Hexp; do 2 read_step.
  all: rewrite (bool_decide_eq_true_2 ([50] = READY_VERSION)) by done; cbn [negb guard_err mbind result_bind].
  all: rewrite (bool_decide_eq_true_2 _ Hin), Hacc; cbn [negb guard_err mbind result_bind]; do 15 read_step.
  all: cbn [video_codec video_chroma video_bit_depth video_range]; rewrite Hcover; cbn [guard_err mbind result_bind]; read_step.
  all: match goal with |- context [fields_remove (string_bytes "sid") ?m] =>
    let x := eval vm_compute in (fields_remove (string_bytes "sid") m) in change (fields_remove (string_bytes "sid") m) with x end.
  all: cbn [mbind result_bind].
  all: rewrite ?(Hsid sid eq_refl), ?(bool_decide_eq_true_2 (sid = sid) eq_refl); cbn [negb guard_err mbind result_bind].
  all: match goal with |- context [bool_decide (?m = [])] => rewrite (bool_decide_eq_true_2 (m = [])) by (vm_compute; reflexivity) end.
  all: cbn [negb guard_err mbind result_bind].
  all: by destruct v.
Qed.

(** A probe that reports no more than the backend's contract, its cursor
    aside ([with_source_cursor]). *)
Record within_contract (b : EncoderBackend) (l : BackendLimits) : Prop := {
  wc_codecs c : set_contains (bl_codecs l) c = true -> set_contains (bl_codecs (contract b)) c = true;
  wc_chroma c : set_contains (bl_chroma l) c = true -> set_contains (bl_chroma (contract b)) c = true;
  wc_depths d : set_contains (bl_bit_depths l) d = true -> set_contains (bl_bit_depths (contract b)) d = true;
  wc_ranges r : set_contains (bl_ranges l) r = true -> set_contains (bl_ranges (contract b)) r = true;
  wc_identity : bl_identity_matrix l = true -> bl_identity_matrix (contract b) = true;
  wc_width : bl_max_width l <= bl_max_width (contract b);
  wc_height : bl_max_height l <= bl_max_height (contract b);
  wc_fps : bl_max_fps l <= bl_max_fps (contract b)
}.

Lemma narrowed_within b l c : within_contract b (with_source_cursor (narrowed_to (contract b) l) c).
Proof.
  split; cbn [narrowed_to with_source_cursor bl_codecs bl_chroma bl_bit_depths bl_ranges bl_identity_matrix bl_max_width bl_max_height bl_max_fps];
    try lia; try (intros x; rewrite contains_intersection; by intros [? ?]%andb_true_iff).
  - intros x. rewrite contains_slice, bool_decide_eq_true, list_elem_of_In, List.filter_In, andb_true_iff. tauto.
  - by intros [? ?]%andb_true_iff.
Qed.

(** What the reader knows of the plan: the format, and the capabilities the
    line has a word for. *)
Record announces (p q : ResolvedMediaPlan) : Prop := {
  ann_backend : rp_backend q = rp_backend p;
  ann_video : rp_video q = rp_video p;
  ann_geometry : (rp_width q, rp_height q, rp_fps q) = (rp_width p, rp_height p, rp_fps p);
  ann_cursor : rp_cursor_mode q = rp_cursor_mode p;
  ann_codecs c : set_contains (rp_codecs q) c = true <->
    set_contains (rp_codecs p) c = true /\ (c ∈ [CodecH264; CodecH265; video_codec (rp_video p)]);
  ann_chroma c : set_contains (rp_chroma q) c = true <->
    c = Chroma420 \/ set_contains (rp_chroma p) c = true /\ (c ∈ [Chroma444; video_chroma (rp_video p)]);
  ann_depths d : set_contains (rp_bit_depths q) d = true <->
    d = EightBit \/ set_contains (rp_bit_depths p) d = true /\ (d ∈ [TenBit; video_bit_depth (rp_video p)]);
  ann_ranges r : set_contains (rp_ranges q) r = true <->
    r = RangeLimited \/ set_contains (rp_ranges p) r = true /\ (r ∈ [RangeFull; video_range (rp_video p)])
}.

Lemma contains_with_if {A} `{BitLaws A} `{EqDecision A} (b : bool) (a c : A) s :
  set_contains (with_if b a s) c = set_contains s c || (b && bool_decide (a = c)).
Proof. destruct b; cbn [with_if andb]; [apply contains_set_with|by rewrite orb_false_r]. Qed.

Ltac announced_set :=
  cbn [as_announced reported_plan rp_codecs rp_chroma rp_bit_depths rp_ranges support_of sup_h264 sup_h265 sup_yuv444 sup_main10 sup_full_range];
  rewrite ?contains_set_with, ?contains_with_if, ?contains_slice, ?contains_empty; cbn [orb];
  rewrite ?orb_true_iff, ?andb_true_iff, ?bool_decide_eq_true, ?elem_of_cons, ?elem_of_nil.

Lemma as_announced_says p : announceable p -> announces p (as_announced p).
Proof.
  intros [_ _ _ A1 A2 A3 A4]. split; try done; intros x; announced_set; naive_solver.
Qed.

Lemma resolved_announceable r candidates p : request_typed r -> resolve_media_plan r candidates = Ok p ->
  exists l, fits r (rp_backend p) l /\ p = exact_plan r (rp_backend p) l /\ well_formed r /\ announceable p
  /\ first_usable (mr_encoder r) candidates (rp_backend p) l.
Proof.
  intros [Tw Th Tf] Hp. unfold resolve_media_plan in Hp. pose proof (validate_request_exact r) as Hv.
  destruct (validate_request r) as [?|e]; cbn [mbind result_bind] in Hp; [|done].
  destruct (resolve_loop_spec (resolve_available r) (mr_encoder r) false candidates ltac:(done)) as [(b & l & Hu & E)|(e & He & E)]; [|congruence].
  rewrite E in Hp. pose proof (resolve_available_exact r b l) as H. rewrite Hp in H. destruct H as [Hfit ->].
  exists l. cbn [exact_plan plan_with rp_backend]. split_and!; try done. by destruct Hfit.
Qed.

(** The format of a plan, asked for without a cursor. *)
Definition format_request (p : ResolvedMediaPlan) : MediaRequest :=
  mkMediaRequest RequestAuto (rp_video p) (rp_width p) (rp_height p) (rp_fps p) CursorLocal.

(** What a plan that is read keeps of its backend's contract. *)
Record keeps_contract (p : ResolvedMediaPlan) : Prop := {
  kc_fits : fits (format_request p) (rp_backend p) (contract (rp_backend p));
  kc_codecs : contains_all (bl_codecs (contract (rp_backend p))) (rp_codecs p) = true;
  kc_chroma c : set_contains (rp_chroma p) c = true -> set_contains (bl_chroma (contract (rp_backend p))) c = true;
  kc_depths d : set_contains (rp_bit_depths p) d = true -> set_contains (bl_bit_depths (contract (rp_backend p))) d = true;
  kc_ranges r : set_contains (rp_ranges p) r = true -> set_contains (bl_ranges (contract (rp_backend p))) r = true;
  kc_codec : set_contains (rp_codecs p) (video_codec (rp_video p)) = true;
  kc_chroma_of : set_contains (rp_chroma p) (video_chroma (rp_video p)) = true;
  kc_depth_of : set_contains (rp_bit_depths p) (video_bit_depth (rp_video p)) = true;
  kc_range_of : set_contains (rp_ranges p) (video_range (rp_video p)) = true;
  kc_even : video_chroma (rp_video p) = Chroma420 -> Z.even (rp_width p) = true /\ Z.even (rp_height p) = true
}.

Lemma members_within {A} `{BitLaws A} `{EqDecision A} `{!Tokens A} `{!TokenLaws A} (s t : FormatSet A) :
  forallb (set_contains s) (set_members t) = true <-> forall a, set_contains t a = true -> set_contains s a = true.
Proof.
  rewrite forallb_forall. split; intros Hs a Ha; apply Hs.
  - by apply list_elem_of_In, elem_of_members.
  - by apply elem_of_members, list_elem_of_In.
Qed.

Lemma mod2_even x : (x mod 2 =? 0) = Z.even x.
Proof. rewrite Zmod_even. by destruct (Z.even x). Qed.

Lemma capability_conflict_false p : capability_conflict p = false <-> keeps_contract p.
Proof.
  unfold capability_conflict. rewrite !orb_false_iff, !negb_false_iff, !Z.ltb_ge, !members_within, supports_matrix_iff, ceiling_iff, !mod2_even.
  split.
  - intros H. destruct H as (((((((((((((((((((? & ?) & ?) & ?) & ?) & ?) & ?) & ?) & ?) & ?) & ?) & ?) & ?) & ?) & ?) & ?) & ?) & ?) & ?) & He).
    split; try done. intros Hc. rewrite Hc in He. cbn [andb] in He. by rewrite orb_false_iff, !negb_false_iff in He.
  - intros [[]]. cbn in *. split_and!; try done. destruct (video_chroma (rp_video p)) eqn:Hc; [|done..].
    destruct kc_even0 as [-> ->]; done.
Qed.

Lemma announced_within b p : announceable p -> rp_backend p = b ->
  (forall c, set_contains (rp_codecs p) c = true -> set_contains (bl_codecs (contract b)) c = true) ->
  contains_all (bl_codecs (contract b)) (rp_codecs (as_announced p)) = true.
Proof.
  intros Ha _ Hw. cbn [as_announced reported_plan rp_codecs support_of sup_h264 sup_h265]. rewrite contains_all_with, (Hw _ (an_codec _ Ha)), andb_true_r.
  unfold with_if.
  destruct (set_contains (rp_codecs p) CodecH265) eqn:E5, (set_contains (rp_codecs p) CodecH264) eqn:E4;
    by rewrite ?contains_all_with, ?contains_all_empty, ?(Hw CodecH265 E5), ?(Hw CodecH264 E4).
Qed.

(** No conflict with the request that was resolved, or with the contract. *)
Lemma announced_no_conflict r l p : well_formed r -> fits r (rp_backend p) l -> p = exact_plan r (rp_backend p) l ->
  within_contract (rp_backend p) l -> announceable p ->
  request_conflict (as_announced p) r = false /\ capability_conflict (as_announced p) = false.
Proof.
  intros [Nw Nh Nf Heven] Hfit Hp [W1 W2 W3 W4 W5 W6 W7 W8] Ha. pose proof (as_announced_says p Ha) as [_ _ _ _ S1 S2 S3 S4].
  pose proof (announced_within _ p Ha eq_refl) as Hall.
  destruct Hfit as [F1 F2 F3 F4 F5 F6 F7 F8 F9 F10 F11 _], (proj1 (contract_floor (rp_backend p))) as [L1 L2 L3].
  assert (rp_codecs p = bl_codecs l /\ rp_chroma p = bl_chroma l /\ rp_bit_depths p = bl_bit_depths l /\ rp_ranges p = bl_ranges l
    /\ rp_video p = mr_video r /\ rp_width p = mr_width r /\ rp_height p = mr_height r /\ rp_fps p = mr_fps r /\ rp_cursor_mode p = mr_cursor_mode r)
    as (E1 & E2 & E3 & E4 & Ev & Ew & Eh & Ef & Ec) by by rewrite Hp.
  rewrite E1, Ev in *. rewrite E2, E3, E4 in *. split.
  - unfold request_conflict. cbn [as_announced reported_plan rp_width rp_height rp_fps rp_video rp_cursor_mode].
    rewrite Ev, Ew, Eh, Ef, Ec, !(proj2 (Z.eqb_neq _ 0)), !Z.eqb_refl, !bool_decide_eq_true_2 by done. done.
  - apply capability_conflict_false. split; change (rp_backend (as_announced p)) with (rp_backend p); change (rp_video (as_announced p)) with (rp_video p);
      rewrite ?Ev.
    + split; cbn [format_request as_announced reported_plan mr_video mr_width mr_height mr_fps mr_cursor_mode rp_video rp_width rp_height rp_fps];
        rewrite ?Ev, ?Ew, ?Eh, ?Ef; (try lia); auto; done.
    + by apply Hall.
    + intros c [->|[Hc _]]%S2; [done|by apply W2].
    + intros d [->|[Hd _]]%S3; [done|by apply W3].
    + intros x [->|[Hx _]]%S4; [done|by apply W4].
    + apply S1. split; [done|]. by do 2 right; left.
    + apply S2. right. split; [done|]. by right; left.
    + apply S3. right. split; [done|]. by right; left.
    + apply S4. right. split; [done|]. by right; left.
    + intros Hc. cbn [as_announced reported_plan rp_width rp_height]. rewrite Ew, Eh. by apply Heven.
Qed.

Lemma find_plan_words (prefix : string) p rest :
  prefix = "capture=" \/ prefix = "conversion_backend=" ->
  omap (strip_prefix (string_bytes prefix)) (map word_of (("version", READY_VERSION) :: plan_words p ++ rest))
  = omap (strip_prefix (string_bytes prefix)) (map word_of rest).
Proof.
  intros Hp. change (("version", READY_VERSION) :: plan_words p ++ rest) with ((("version", READY_VERSION) :: plan_words p) ++ rest).
  rewrite map_app, omap_app. unfold plan_words.
  repeat match goal with
  | |- context [token_text ?x] => generalize (token_text x); intro
  | |- context [decimal ?x] => generalize (decimal x); intro
  | |- context [bool_text ?x] => generalize (bool_text x); intro
  | |- context [string_bytes (backend_ready_token ?x)] => generalize (string_bytes (backend_ready_token x)); intro
  | |- context [string_bytes (cursor_token ?x)] => generalize (string_bytes (cursor_token x)); intro
  end.
  by destruct Hp as [->| ->].
Qed.

Lemma split_ready_line p capture conversion sid : (forall t, sid = Some t -> parse_uuid t = true) ->
  exists payload, strip_prefix READY_PREFIX (format_ready_v1_with_capture_and_conversion p capture conversion sid) = Some payload
  /\ split_ascii_whitespace payload = map word_of (("version", READY_VERSION) :: ready_words p capture conversion sid).
Proof.
  intros Hsid. rewrite format_words, strip_prefix_app. eexists. split; [done|].
  pose proof (ready_words_good p capture conversion sid Hsid) as Hgood. rewrite split_word.
  - by rewrite (split_sentence _ Hgood).
  - done.
  - by apply (bool_decide_unpack _); vm_compute.
  - done.
Qed.

(** A READY line is read back.  When a plan was resolved from backends
    that report no more than their contract, its line - with any capture path
    and conversion, and with the session's identifier or none - is accepted
    against the request it was resolved from; what is read has the plan's
    backend, format, geometry, rate and cursor, and of its capabilities exactly
    those the line has a word for or the plan uses, with the floor of 4:2:0,
    eight bits and limited range; and the capture path and the conversion are
    read as they were named. *)
Theorem ready_line_read_back (r : MediaRequest) (candidates : list BackendCandidate) (p : ResolvedMediaPlan) (allowed : list EncoderBackend)
  (capture : option CaptureBackend) (conversion : option ConversionBackend) (sid : option (list Z)) (Htyped : request_typed r)
  (Hcontract : Forall (fun c => forall l, cand_availability c = Available l -> within_contract (cand_backend c) l) candidates)
  (Hplan : resolve_media_plan r candidates = Ok p) (Hallowed : rp_backend p ∈ allowed) (Hsid : forall t, sid = Some t -> parse_uuid t = true) :
  let line := format_ready_v1_with_capture_and_conversion p capture conversion sid in
  (exists q, parse_ready_v1 line (mkReadyExpectation r allowed sid) = Ok q /\ announces p q /\ rp_cursor_in_video q = is_host_cursor (rp_cursor_mode p))
  /\ parse_ready_capture line = capture /\ parse_ready_conversion line = conversion.
Proof.
  intros line. destruct (resolved_announceable r candidates p Htyped Hplan) as (l & Hfit & Hp & Hwf & Ha & Hu).
  assert (within_contract (rp_backend p) l /\ accepts (mr_encoder r) (rp_backend p) = true) as [Hw Hacc].
  { destruct Hu as (pre & post & -> & _ & Hacc). apply Forall_app in Hcontract as [_ H]. apply Forall_cons in H as [H _]. split; [by apply H|done]. }
  destruct (split_ready_line p capture conversion sid Hsid) as (payload & Hline & Hwords). fold line in Hline. split; [|split].
  - destruct (read_plan_words p capture conversion sid (mkReadyExpectation r allowed sid) Ha Hacc Hallowed eq_refl Hsid) as (m & Hm & Hread).
    exists (as_announced p). split; [|by split; [apply as_announced_says|]]. unfold parse_ready_v1. rewrite Hline. cbn [ok_or mbind result_bind].
    rewrite Hwords, (parse_words _ _ _ _ m); [|by constructor; [split; [|apply plain_const]|apply ready_words_good]|done]. cbn [mbind result_bind].
    rewrite Hread. destruct (announced_no_conflict r l p Hwf Hfit Hp Hw Ha) as [E1 E2]. cbn [exp_request]. by rewrite E1, E2.
  - unfold parse_ready_capture, find_prefixed. rewrite Hline. cbn [mbind option_bind]. rewrite Hwords. unfold ready_words. rewrite find_plan_words by by left.
    by destruct capture as [[]|], conversion as [[]|], sid.
  - unfold parse_ready_conversion, find_prefixed. rewrite Hline. cbn [mbind option_bind]. rewrite Hwords. unfold ready_words. rewrite find_plan_words by by right.
    by destruct capture as [[]|], conversion as [[]|], sid.
Qed.

Definition grading_video : VideoConfiguration := mkVideo CodecH265 Chroma444 TenBit RangeFull MatrixBt709 PrimariesBt709 TcBt709.
Definition nvenc_request : MediaRequest := mkMediaRequest RequestNvenc grading_video 3840 2160 60 CursorHost.
Definition nvenc_host : list BackendCandidate := [mkCandidate NativeNvenc (Available (contract NativeNvenc))].
Definition nvenc_plan : ResolvedMediaPlan := exact_plan nvenc_request NativeNvenc (contract NativeNvenc).
Definition session_id : list Z := string_bytes "01234567-89ab-cdef-8123-456789abcdef".

Lemma ready_line_read_back_witness :
  let line := format_ready_v1_with_capture_and_conversion nvenc_plan (Some NvFbc) (Some ConversionGpu) (Some session_id) in
  (exists q, parse_ready_v1 line (mkReadyExpectation nvenc_request [NativeNvenc; OpenH264] (Some session_id)) = Ok q /\ announces nvenc_plan q
    /\ rp_cursor_in_video q = true)
  /\ parse_ready_capture line = Some NvFbc /\ parse_ready_conversion line = Some ConversionGpu.
Proof.
  apply (ready_line_read_back nvenc_request nvenc_host nvenc_plan [NativeNvenc; OpenH264] (Some NvFbc) (Some ConversionGpu) (Some session_id)).
  - by split.
  - constructor; [|by constructor]. intros l [= <-]. by split.
  - by vm_compute.
  - by left.
  - by intros t [= <-].
Defined.

(** ** What is accepted *)

Lemma request_conflict_false p r : request_conflict p r = false ->
  rp_width p <> 0 /\ rp_height p <> 0 /\ rp_fps p = mr_fps r /\ rp_fps p <> 0 /\ rp_video p = mr_video r /\ rp_cursor_mode p = mr_cursor_mode r
  /\ ((mr_width r = 0 /\ mr_height r = 0) \/ (rp_width p = mr_width r /\ rp_height p = mr_height r)).
Proof.
  unfold request_conflict. rewrite !orb_false_iff, !negb_false_iff, !bool_decide_eq_true, !Z.eqb_neq, !andb_false_iff, !negb_false_iff, !Z.eqb_eq.
  intros ((((((((? & ?) & ?) & Hb) & Hw) & Hh) & ?) & ?) & ?). apply eqb_prop in Hb. split_and!; try done.
  destruct Hw as [Hw|Hw], Hh as [Hh|Hh]; [by left| | |by right].
  - rewrite Hw in Hb. symmetry in Hb. apply Z.eqb_eq in Hb. by left.
  - rewrite Hh in Hb. apply Z.eqb_eq in Hb. by left.
Qed.

(** Taking a field leaves the others. *)
Definition same_field (s : list Z) (m m' : Fields) : Prop := (fields_remove s m').1 = (fields_remove s m).1.
#[export] Instance same_field_trans s : Transitive (same_field s).
Proof. unfold same_field. intros x y z H1 H2. congruence. Qed.

Lemma remove_other s n m : n <> s -> same_field s m (fields_remove n m).2.
Proof.
  intros Hn. unfold same_field. induction m as [|[k v] m IH]; [done|]. cbn [fields_remove]. case_bool_decide as Ek.
  - cbn [snd]. rewrite bool_decide_eq_false_2 by congruence. by destruct (fields_remove s m).
  - destruct (fields_remove n m) as [o m'] eqn:E. cbn [snd fields_remove] in *. case_bool_decide; [done|].
    destruct (fields_remove s m'), (fields_remove s m). by cbn in *.
Qed.

Lemma take_ready_keeps s n m v m' : string_bytes n <> s -> take_ready n m = Ok (v, m') -> same_field s m m'.
Proof.
  intros Hn. unfold take_ready, take_field. pose proof (remove_other s _ m Hn) as H.
  destruct (fields_remove (string_bytes n) m) as [[t|] m1]; cbn [ok_or mbind result_bind]; [|done]. by intros [= _ <-].
Qed.

Lemma take_as_keeps {A} s (read : list Z -> option A) e n m a m' : string_bytes n <> s -> take_as read e n m = Ok (a, m') -> same_field s m m'.
Proof.
  intros Hn. unfold take_as. destruct (take_ready n m) as [[v m1]|] eqn:E; cbn [mbind result_bind]; [|done].
  destruct (read v); cbn [ok_or mbind result_bind]; [|done]. intros [= _ <-]. by eapply take_ready_keeps.
Qed.

Lemma take_bool_keeps s n m b m' : string_bytes n <> s -> take_bool n m = Ok (b, m') -> same_field s m m'.
Proof.
  intros Hn. unfold take_bool. destruct (take_ready n m) as [[v m1]|] eqn:E; cbn [mbind result_bind]; [|done].
  destruct (parse_bool v n); cbn [mbind result_bind]; [|done]. intros [= _ <-]. by eapply take_ready_keeps.
Qed.

(** The fields a bind took, and what they keep. *)
Ltac fields_step s :=
  match goal with
  | H : (_ ≫= _) = Ok _ |- _ => apply bind_Ok in H as (? & ? & ?)
  | H : guard_err _ _ = Ok _ |- _ => apply guard_err_Ok in H
  | H : Ok _ = Ok _ |- _ => injection H as H; subst
  | H : (let '(_, _) := ?x in _) = Ok _ |- _ => destruct x
  | H : take_ready _ _ = Ok (_, _) |- _ => apply (take_ready_keeps s) in H; [|done]
  | H : take_u32 _ _ = Ok (_, _) |- _ => apply (take_as_keeps s) in H; [|done]
  | H : take_as _ _ _ _ = Ok (_, _) |- _ => apply (take_as_keeps s) in H; [|done]
  | H : take_bool _ _ = Ok (_, _) |- _ => apply (take_bool_keeps s) in H; [|done]
  end.

Lemma read_video_keeps m v m' : read_video m = Ok (v, m') -> same_field (string_bytes "sid") m m'.
Proof. unfold read_video. intros H. repeat fields_step (string_bytes "sid"). by repeat (etrans; [eassumption|]). Qed.

Lemma read_support_keeps v m sup m' : read_support v m = Ok (sup, m') -> same_field (string_bytes "sid") m m'.
Proof. unfold read_support. intros H. repeat fields_step (string_bytes "sid"). by repeat (etrans; [eassumption|]). Qed.

Lemma read_sid_inv expected m m' : read_sid expected m = Ok m' ->
  forall sid, expected = Some sid -> parse_uuid sid = true /\ (fields_remove (string_bytes "sid") m).1 = Some sid.
Proof.
  unfold read_sid. intros H sid ->. destruct (fields_remove (string_bytes "sid") m) as [[actual|] m1]; [|done]. repeat fields_step (string_bytes "sid").
  match goal with E : negb (bool_decide _) = false |- _ => apply negb_false_iff, bool_decide_eq_true in E as -> end.
  match goal with E : negb (parse_uuid _) = false |- _ => by apply negb_false_iff in E end.
Qed.

(** No READY line gets past its request or its backend.  Whatever text a
    capture process writes, a plan that is accepted has an allowed backend that
    the request accepts, and the request's format, rate, cursor and - where it
    names one - geometry; its format fits the backend's contract, is offered for
    the codec, and has even edges where the chroma is subsampled both ways; it
    claims no capability the contract lacks, and claims what it uses; and where
    a session identifier is expected, the line carries it. *)
Theorem ready_line_sound (line : list Z) (e : ReadyExpectation) (p : ResolvedMediaPlan) (Hparse : parse_ready_v1 line e = Ok p) :
  let r := exp_request e in
  rp_backend p ∈ exp_allowed_backends e /\ accepts (mr_encoder r) (rp_backend p) = true
  /\ rp_video p = mr_video r /\ rp_fps p = mr_fps r /\ rp_cursor_mode p = mr_cursor_mode r
  /\ ((mr_width r = 0 /\ mr_height r = 0) \/ (rp_width p = mr_width r /\ rp_height p = mr_height r))
  /\ well_formed (format_request p) /\ keeps_contract p
  /\ forall sid, exp_session_log_id e = Some sid -> parse_uuid sid = true
     /\ exists payload m, strip_prefix READY_PREFIX line = Some payload
        /\ parse_fields ReadyMalformedToken ReadyDuplicateField [] (split_ascii_whitespace payload) = Ok m
        /\ (fields_remove (string_bytes "sid") m).1 = Some sid.
Proof.
  unfold parse_ready_v1 in Hparse. apply bind_Ok in Hparse as (payload & Hpayload & Hparse). apply bind_Ok in Hparse as (m & Hm & Hparse).
  destruct (strip_prefix READY_PREFIX line) as [?|] eqn:Hline; [injection Hpayload as ->|done]. unfold read_ready in Hparse.
  repeat first [fields_step (string_bytes "sid")
    |match goal with
     | H : read_video _ = Ok _ |- _ => apply read_video_keeps in H
     | H : read_support _ _ = Ok _ |- _ => apply read_support_keeps in H
     end].
  match goal with H : capability_conflict ?q = false |- _ => apply capability_conflict_false in H as Hkeeps; set (p := q) in * end.
  match goal with H : request_conflict _ _ = false |- _ => apply request_conflict_false in H as (Hw & Hh & Hf & Nf & Hv & Hc & Hg) end.
  repeat match goal with E : negb _ = false |- _ => apply negb_false_iff in E end.
  assert (same_field (string_bytes "sid") m f6) as Hsame by by repeat (etrans; [eassumption|]).
  split_and!; try done; [by eapply bool_decide_eq_true|split; cbn [format_request mr_width mr_height mr_fps mr_video]; [done..|apply Hkeeps]|].
  intros sid Hsid. match goal with H : read_sid _ _ = Ok _ |- _ => destruct (read_sid_inv _ _ _ H sid Hsid) as [Hu Hr] end.
  split; [done|]. exists payload, m. by rewrite <- Hsame.
Qed.

Lemma ready_line_sound_witness :
  let line := format_ready_v1_with_capture_and_conversion nvenc_plan None None (Some session_id) in
  let e := mkReadyExpectation nvenc_request [NativeNvenc] (Some session_id) in
  exists p, parse_ready_v1 line e = Ok p /\ rp_backend p ∈ [NativeNvenc] /\ rp_video p = grading_video.
Proof.
  cbn zeta. eexists. split; [vm_compute; reflexivity|].
  match goal with |- rp_backend ?q ∈ _ /\ _ =>
    destruct (ready_line_sound (format_ready_v1_with_capture_and_conversion nvenc_plan None None (Some session_id))
      (mkReadyExpectation nvenc_request [NativeNvenc] (Some session_id)) q ltac:(vm_compute; reflexivity)) as (H1 & _ & H2 & _) end.
  by split.
Defined.
