(* ===== verification/Pipelines.v ===== *)
(** * Media: stream pipelines, their contracts and their bitrates

    Models [shared/media/src/video/pipeline] (the contracts of Auto, Speed,
    Grading, HDR and Software, what a session is served as and what it then
    operates under), [video/preset.rs], [video/bitrate.rs], the encoder intent of
    [media/src/lib.rs] and the wire names of [protocol/src/messages.rs].  The
    contracts' wording for users is left out; floats are [Float64]'s, durations
    are nanoseconds. *)

From stdpp Require Import strings.
From S2P Require Import Prelude Float64 Utf8 RustText PathSignal RateControl CaptureSurface MultiMonitor AppliedTopology MediaFormats MediaPlan.

(** ** Vocabulary *)

Inductive EncodeIntent := Interactive | Quality.
Definition EncodeIntent_ALL : list EncodeIntent := [Interactive; Quality].
Definition intent_token (i : EncodeIntent) : string := match i with Interactive => "interactive" | Quality => "quality" end.
Definition allows_added_latency (i : EncodeIntent) : bool := match i with Quality => true | Interactive => false end.

Inductive MotionPriority := Detail | Motion.
Definition MotionPriority_ALL : list MotionPriority := [Detail; Motion].
Definition priority_token (p : MotionPriority) : string := match p with Detail => "detail" | Motion => "motion" end.

#[export] Instance intent_tokens_of : Tokens EncodeIntent := {| every := EncodeIntent_ALL; token := intent_token |}.
#[export] Instance priority_tokens_of : Tokens MotionPriority := {| every := MotionPriority_ALL; token := priority_token |}.
#[export] Instance EncodeIntent_eq_dec : EqDecision EncodeIntent. Proof. solve_decision. Defined.
#[export] Instance MotionPriority_eq_dec : EqDecision MotionPriority. Proof. solve_decision. Defined.
#[export] Instance AcceleratorClass_eq_dec : EqDecision AcceleratorClass. Proof. solve_decision. Defined.
#[export] Instance intent_laws : TokenLaws EncodeIntent. Proof. finite_tokens. Qed.
#[export] Instance priority_laws : TokenLaws MotionPriority. Proof. finite_tokens. Qed.

Inductive VideoSelectionIntent := SelectExact | AdaptivePerformance | ColorFidelity.
Inductive StreamPipeline := StreamAuto | StreamSpeed | StreamGrading | StreamHdr | StreamUnknown (token : list Z).
Inductive ServedStreamPipeline :=
| ServedAuto | ServedSpeed | ServedGrading | ServedHdr | ServedSoftware | ServedCustom | ServedUnknown (token : list Z).

Inductive PipelineId := PipeAuto | PipeSpeed | PipeGrading | PipeHdr | PipeSoftware.
#[export] Instance PipelineId_eq_dec : EqDecision PipelineId. Proof. solve_decision. Defined.
#[export] Instance ServedStreamPipeline_eq_dec : EqDecision ServedStreamPipeline. Proof. solve_decision. Defined.

Definition PipelineId_ALL : list PipelineId := [PipeAuto; PipeSpeed; PipeGrading; PipeHdr; PipeSoftware].
Definition pipeline_token (p : PipelineId) : string :=
  match p with PipeAuto => "auto" | PipeSpeed => "speed" | PipeGrading => "grading" | PipeHdr => "hdr" | PipeSoftware => "software" end.
Definition request_wire (p : PipelineId) : option StreamPipeline :=
  match p with
  | PipeAuto => Some StreamAuto | PipeSpeed => Some StreamSpeed | PipeGrading => Some StreamGrading | PipeHdr => Some StreamHdr
  | PipeSoftware => None
  end.
Definition served_wire (p : PipelineId) : ServedStreamPipeline :=
  match p with
  | PipeAuto => ServedAuto | PipeSpeed => ServedSpeed | PipeGrading => ServedGrading | PipeHdr => ServedHdr
  | PipeSoftware => ServedSoftware
  end.
Definition from_served_wire (s : ServedStreamPipeline) : option PipelineId :=
  match s with
  | ServedAuto => Some PipeAuto | ServedSpeed => Some PipeSpeed | ServedGrading => Some PipeGrading | ServedHdr => Some PipeHdr
  | ServedSoftware => Some PipeSoftware
  | ServedCustom | ServedUnknown _ => None
  end.
Definition from_wire (s : StreamPipeline) : option PipelineId :=
  match s with
  | StreamAuto => Some PipeAuto | StreamSpeed => Some PipeSpeed | StreamGrading => Some PipeGrading | StreamHdr => Some PipeHdr
  | StreamUnknown _ => None
  end.
Definition wants_display_hdr (p : PipelineId) : bool := match p with PipeHdr => true | _ => false end.
Definition served_pipeline_wants_display_hdr (served : option ServedStreamPipeline) : bool :=
  match (s ← served; from_served_wire s) with Some p => wants_display_hdr p | None => false end.
Definition session_wants_display_hdr (served : option ServedStreamPipeline) (request_hdr10 : bool) : bool :=
  request_hdr10 || served_pipeline_wants_display_hdr served.

(** ** The bits a picture is worth *)

Definition samples_per_pixel (c : ChromaSubsampling) : f64 :=
  match c with Chroma420 => lit 15 10 | Chroma422 => lit 2 1 | Chroma444 => lit 3 1 end.
Definition depth_scale (d : BitDepth) : f64 :=
  match d with EightBit => lit 1 1 | TenBit => lit 125 100 | TwelveBit => lit 15 10 end.
Definition BASE_BITS_PER_SAMPLE : f64 := lit 5 100.

(** The clamp to the range of a [u32] is the saturation of the cast. *)
Definition average_bitrate_bps (width height fps : Z) (chroma : ChromaSubsampling) (depth : BitDepth) : Z :=
  let pixels_per_second := f64_mul (f64_mul (of_int width) (of_int height)) (of_int (Z.max fps 1)) in
  let samples_per_second := f64_mul pixels_per_second (samples_per_pixel chroma) in
  round_as 32 (f64_mul (f64_mul samples_per_second (depth_scale depth)) BASE_BITS_PER_SAMPLE).

Definition CAP_WIDTH : Z := 1920.
Definition CAP_HEIGHT : Z := 1080.
Definition CAP_FPS : Z := 30.
Definition high_fidelity (chroma : ChromaSubsampling) (depth : BitDepth) : bool :=
  bool_decide (chroma = Chroma444) || negb (bool_decide (depth = EightBit)).
Definition link_cap (fps : Z) (chroma : ChromaSubsampling) (depth : BitDepth) : Z :=
  if high_fidelity chroma depth then average_bitrate_bps CAP_WIDTH CAP_HEIGHT (Z.min fps CAP_FPS) Chroma420 EightBit
  else average_bitrate_bps CAP_WIDTH CAP_HEIGHT (Z.min fps CAP_FPS) chroma depth.
Definition link_capped_average_bitrate_bps (width height fps : Z) (chroma : ChromaSubsampling) (depth : BitDepth) : Z :=
  Z.min (average_bitrate_bps width height fps chroma depth) (link_cap fps chroma depth).

(** ** Policies *)

Inductive CodecPolicy := Ladder (codecs : list VideoCodec) | AsRequested.
Definition policy_ladder (p : CodecPolicy) : list VideoCodec := match p with Ladder l => l | AsRequested => [] end.

Inductive BitratePolicy :=
| LinkCappedAverage
| LinkCappedWithCeiling (ceiling_bps : Z)
| MotionCappedStartShapeCeiling
| SoftwareCpuH264 (start_1080p30_bps ceiling_1080p30_bps floor_bps : Z)
| FixedBounds (start_bps ceiling_bps : Z)
| SessionBounds.

Definition PROVEN_PATH_HEADROOM : Z := 4.
Definition PROVEN_PATH_CEILING_BPS : Z := 250000000.
Definition proven_path_ceiling_bps (shape_bps : Z) : Z :=
  Z.max (Z.min (saturating_mul 32 shape_bps PROVEN_PATH_HEADROOM) PROVEN_PATH_CEILING_BPS) shape_bps.

(** A bitrate of 1080p30 for another shape; the sum inside the division does not
    overflow as in [div_ceil]. *)
Definition scaled (shape reference bps : Z) : Z :=
  default (umax 32) (try_unsigned 32 (div_ceil (saturating_mul 64 bps shape) reference)).

Definition policy_bounds (p : BitratePolicy) (width height fps : Z) (chroma : ChromaSubsampling) (depth : BitDepth) : Z * Z :=
  match p with
  | LinkCappedAverage | MotionCappedStartShapeCeiling =>
    (link_capped_average_bitrate_bps width height fps chroma depth,
     proven_path_ceiling_bps (average_bitrate_bps width height fps chroma depth))
  | SessionBounds =>
    (link_capped_average_bitrate_bps width height fps chroma depth, average_bitrate_bps width height fps chroma depth)
  | SoftwareCpuH264 start_1080p30 ceiling_1080p30 floor =>
    let shape := average_bitrate_bps width height fps chroma depth in
    let reference := Z.max (average_bitrate_bps 1920 1080 30 Chroma420 EightBit) 1 in
    let start := Z.max (Z.min shape (scaled shape reference start_1080p30)) floor in
    (start, Z.max (Z.max (scaled shape reference ceiling_1080p30) start) floor)
  | LinkCappedWithCeiling ceiling => (link_capped_average_bitrate_bps width height fps chroma depth, Z.max ceiling 1)
  | FixedBounds start ceiling => (start, ceiling)
  end.

Definition encoder_start_and_max (p : BitratePolicy) (width height fps : Z) (chroma : ChromaSubsampling) (depth : BitDepth) : Z * Z :=
  let '(start, ceiling) := policy_bounds p width height fps chroma depth in
  match p with LinkCappedWithCeiling _ => (start, ceiling) | _ => (start, start) end.

Definition evidence_gate (p : BitratePolicy) (width height fps : Z) (chroma : ChromaSubsampling) (depth : BitDepth) : option Z :=
  match p with
  | LinkCappedAverage | MotionCappedStartShapeCeiling => Some (average_bitrate_bps width height fps chroma depth)
  | _ => None
  end.
Definition encoder_ceiling_bps (p : BitratePolicy) : option Z := match p with LinkCappedWithCeiling ceiling => Some ceiling | _ => None end.

Inductive PipelineQpMapDefault := QpMapOff.
Record KeelPolicy := mkKeelPolicy { idle_cadence_required : bool; qp_map_default : PipelineQpMapDefault }.

Inductive RawFrameOverflowDisposition := LatestWins.
Inductive EncodedFrameOverflowDisposition := ClearPredictionChain.
Record RawFrameOverflowPolicy := mkRawOverflow { raw_disposition : RawFrameOverflowDisposition; raw_requires_idr : bool }.
Record EncodedFrameOverflowPolicy := mkEncodedOverflow {
  encoded_disposition : EncodedFrameOverflowDisposition;
  encoded_requires_idr : bool;
  keyframe_request_min_interval : Z
}.
Record QueuePolicy := mkQueuePolicy {
  host_video_frames : Z;
  host_writer_messages : Z;
  deck_video_packets : Z;
  deck_video_bytes : Z;
  raw_overflow : RawFrameOverflowPolicy;
  encoded_overflow : EncodedFrameOverflowPolicy
}.

Record KeyframePolicy := mkKeyframe { on_demand : bool; safety_refresh_interval : option Z }.
Definition ON_DEMAND_ONLY : KeyframePolicy := mkKeyframe true None.
Definition SOFTWARE_FALLBACK : KeyframePolicy := mkKeyframe true (Some (duration_from_secs 10)).
Definition scheduled_period_frames (k : KeyframePolicy) (fps : Z) : Z :=
  match safety_refresh_interval k with
  | None => 0
  | Some interval => default (umax 32) (try_unsigned 32 (saturating_mul 64 (interval / NANOS_PER_SEC) (Z.max fps 1)))
  end.

Record DecodeLatencyPolicy := mkDecodeLatency { realtime : bool }.
Definition DecodeLatency_DEFAULT : DecodeLatencyPolicy := mkDecodeLatency true.
Definition DecodeLatency_SPEED : DecodeLatencyPolicy := mkDecodeLatency true.

Definition encoder_buffer_frames (p : MotionPriority) (i : EncodeIntent) : f64 :=
  match p with Motion => lit 1 1 | Detail => match i with Interactive => lit 2 1 | Quality => lit 8 1 end end.

(** ** The contracts *)

Record PipelineContract := mkContract {
  pc_id : PipelineId;
  pc_max_fps : Z;
  pc_priority : MotionPriority;
  pc_intent : EncodeIntent;
  pc_encoder_buffer_frames : f64;
  pc_selection : VideoSelectionIntent;
  pc_colour : VideoConfiguration;
  pc_codec_policy : CodecPolicy;
  pc_bitrate : BitratePolicy;
  pc_probe_step : ProbeStep;
  pc_keel : KeelPolicy;
  pc_queue : QueuePolicy;
  pc_decode_latency : DecodeLatencyPolicy;
  pc_keyframe : KeyframePolicy
}.

Definition AUTO_SPEED_LADDER : list VideoCodec := [CodecAv1; CodecH265; CodecH264].
Definition AUTO_SPEED_FROM_HEVC : list VideoCodec := [CodecH265; CodecH264].
Definition AUTO_SPEED_FROM_H264 : list VideoCodec := [CodecH264].
Definition HEVC_FIDELITY_LADDER : list VideoCodec := [CodecH265; CodecH264].
Definition SOFTWARE_LADDER : list VideoCodec := [CodecH264].
Definition KEEL_IDLE_QP_OFF : KeelPolicy := mkKeelPolicy true QpMapOff.
Definition DECK_VIDEO_PACKETS : Z := 30.
Definition DEFAULT_QUEUE_POLICY : QueuePolicy :=
  mkQueuePolicy 4 2 DECK_VIDEO_PACKETS (64 * 1024 * 1024) (mkRawOverflow LatestWins false)
    (mkEncodedOverflow ClearPredictionChain true (duration_from_secs 1)).
Definition HDR_QUEUE_POLICY : QueuePolicy :=
  mkQueuePolicy 8 4 DECK_VIDEO_PACKETS (128 * 1024 * 1024) (mkRawOverflow LatestWins false)
    (mkEncodedOverflow ClearPredictionChain true (duration_from_secs 1)).

Definition sdr_420 (codec : VideoCodec) : VideoConfiguration :=
  mkVideo codec Chroma420 EightBit RangeLimited MatrixBt709 PrimariesBt709 TcBt709.
Definition grading_reference : VideoConfiguration := mkVideo CodecH265 Chroma444 TenBit RangeFull MatrixBt709 PrimariesBt709 TcBt709.
Definition hdr10 : VideoConfiguration := mkVideo CodecH265 Chroma444 TenBit RangeFull MatrixBt2020Ncl PrimariesBt2020 TcPq.

Definition AUTO_CONTRACT : PipelineContract :=
  mkContract PipeAuto 30 Detail Interactive (encoder_buffer_frames Detail Interactive) AdaptivePerformance (sdr_420 CodecH264)
    (Ladder AUTO_SPEED_LADDER) LinkCappedAverage CeilingFraction KEEL_IDLE_QP_OFF DEFAULT_QUEUE_POLICY DecodeLatency_DEFAULT
    ON_DEMAND_ONLY.
Definition SPEED_CONTRACT : PipelineContract :=
  mkContract PipeSpeed 60 Motion Interactive (encoder_buffer_frames Motion Interactive) AdaptivePerformance (sdr_420 CodecH264)
    (Ladder AUTO_SPEED_LADDER) MotionCappedStartShapeCeiling CeilingFraction KEEL_IDLE_QP_OFF DEFAULT_QUEUE_POLICY
    DecodeLatency_SPEED ON_DEMAND_ONLY.
Definition GRADING_BITRATE_CEILING_BPS : Z := 250000000.
Definition GRADING_CONTRACT : PipelineContract :=
  mkContract PipeGrading 30 Detail Quality (encoder_buffer_frames Detail Quality) ColorFidelity grading_reference
    (Ladder HEVC_FIDELITY_LADDER) (LinkCappedWithCeiling GRADING_BITRATE_CEILING_BPS) TargetRelative KEEL_IDLE_QP_OFF
    DEFAULT_QUEUE_POLICY DecodeLatency_DEFAULT ON_DEMAND_ONLY.
Definition HDR_CONTRACT : PipelineContract :=
  mkContract PipeHdr 30 Detail Quality (encoder_buffer_frames Detail Quality) ColorFidelity hdr10
    (Ladder HEVC_FIDELITY_LADDER) (LinkCappedWithCeiling 500000000) EvidenceGatedTargetRelative KEEL_IDLE_QP_OFF HDR_QUEUE_POLICY
    DecodeLatency_DEFAULT ON_DEMAND_ONLY.
Definition SOFTWARE_CONTRACT : PipelineContract :=
  mkContract PipeSoftware 30 Detail Interactive (encoder_buffer_frames Detail Interactive) AdaptivePerformance (sdr_420 CodecH264)
    (Ladder SOFTWARE_LADDER) (SoftwareCpuH264 4000000 8000000 750000) CeilingFraction KEEL_IDLE_QP_OFF DEFAULT_QUEUE_POLICY
    DecodeLatency_DEFAULT SOFTWARE_FALLBACK.

Definition pipeline_contract (p : PipelineId) : PipelineContract :=
  match p with
  | PipeAuto => AUTO_CONTRACT | PipeSpeed => SPEED_CONTRACT | PipeGrading => GRADING_CONTRACT | PipeHdr => HDR_CONTRACT
  | PipeSoftware => SOFTWARE_CONTRACT
  end.

Definition rate_control_policy (c : PipelineContract) (width height fps : Z) (chroma : ChromaSubsampling) (depth : BitDepth) :
    RateControlPolicy :=
  let '(start, ceiling) := policy_bounds (pc_bitrate c) width height fps chroma depth in
  let policy := for_bounds_priority_probe_step start ceiling (pc_probe_step c) in
  match evidence_gate (pc_bitrate c) width height fps chroma depth with
  | Some gate => with_evidence_gate gate policy
  | None => policy
  end.

Inductive StreamingPreset := PresetAuto | PresetSpeed | PresetGrading | PresetHdr.
Definition preset_pipeline (p : StreamingPreset) : PipelineId :=
  match p with PresetAuto => PipeAuto | PresetSpeed => PipeSpeed | PresetGrading => PipeGrading | PresetHdr => PipeHdr end.
Definition preset_pipeline_contract (p : StreamingPreset) : PipelineContract := pipeline_contract (preset_pipeline p).

Record PresetContract := mkPresetContract {
  prc_max_fps : Z; prc_priority : MotionPriority; prc_intent : EncodeIntent; prc_encoder_buffer_frames : f64 }.
Definition preset_contract (p : StreamingPreset) : PresetContract :=
  let c := preset_pipeline_contract p in mkPresetContract (pc_max_fps c) (pc_priority c) (pc_intent c) (pc_encoder_buffer_frames c).

(** ** Requests *)

Inductive SoftwareFallbackDecision := Serve (reason : string) | Degrade (reason : string) | Refuse (reason : string).
Definition decision_reason (d : SoftwareFallbackDecision) : string := match d with Serve r | Degrade r | Refuse r => r end.
Definition is_refusal (d : SoftwareFallbackDecision) : bool := match d with Refuse _ => true | _ => false end.

Definition software_fallback_decision (requested : option PipelineId) (selection : VideoSelectionIntent) : SoftwareFallbackDecision :=
  match requested with
  | Some PipeSpeed => Degrade "software fallback serves Speed as Software/Auto H.264 8-bit 4:2:0 at 30 fps"
  | Some PipeGrading => Refuse "Grading requires a hardware 10-bit 4:4:4 encoder; software fallback is H.264 8-bit 4:2:0 only"
  | Some PipeHdr => Refuse "HDR requires a hardware 10-bit PQ/BT.2020 encoder; software fallback is H.264 8-bit 4:2:0 only"
  | Some PipeAuto | Some PipeSoftware => Serve "software fallback serves the Auto contract"
  | None =>
    match selection with
    | ColorFidelity =>
      Refuse "colour-fidelity requests require a hardware 10-bit 4:4:4 encoder; software fallback is H.264 8-bit 4:2:0 only"
    | AdaptivePerformance | SelectExact => Serve "software fallback serves the compatible H.264 8-bit request"
    end
  end.

Definition pipeline_for_request (selection : VideoSelectionIntent) (video : VideoConfiguration) (max_fps : Z) (priority : MotionPriority) :
    option PipelineId :=
  match selection with
  | AdaptivePerformance => Some (if (30 <? max_fps) || bool_decide (priority = Motion) then PipeSpeed else PipeAuto)
  | ColorFidelity => Some (match video_transfer video with TcPq | TcHlg => PipeHdr | _ => PipeGrading end)
  | SelectExact => None
  end.

Definition resolve_request_pipeline (wire : option StreamPipeline) (selection : VideoSelectionIntent) (video : VideoConfiguration)
    (max_fps : Z) (priority : MotionPriority) : option PipelineId :=
  match (w ← wire; from_wire w) with
  | Some p => Some p
  | None => pipeline_for_request selection video max_fps priority
  end.

(** [ladder.len() == 3] and its codecs are those of Auto and Speed. *)
Definition pipeline_codec_ladder (p : PipelineId) (requested : VideoCodec) : list VideoCodec :=
  match pc_codec_policy (pipeline_contract p) with
  | Ladder ladder =>
    if bool_decide (ladder = AUTO_SPEED_LADDER) then
      match requested with
      | CodecAv1 => AUTO_SPEED_LADDER
      | CodecH265 => AUTO_SPEED_FROM_HEVC
      | CodecH264 => AUTO_SPEED_FROM_H264
      | CodecJpeg | CodecVp9 => []
      end
    else ladder
  | AsRequested => [requested]
  end.

(** ** What a session is served as *)

Record ServedPipelineContext := mkServedContext { ctx_backend : option AcceleratorClass; exact_or_admin_override : bool }.

Definition codec_policy_allows (p : CodecPolicy) (codec : VideoCodec) : bool :=
  match p with Ladder l => bool_decide (codec ∈ l) | AsRequested => true end.

Definition product_contract_matches (p : PipelineId) (v : VideoConfiguration) (max_fps : Z) (priority : MotionPriority) : bool :=
  let c := pipeline_contract p in
  let fps_matches :=
    match p with
    | PipeSpeed => (30 <? max_fps) || bool_decide (priority = Motion)
    | PipeAuto => (max_fps <=? 30) && bool_decide (priority = Detail)
    | PipeGrading | PipeHdr => (max_fps <=? pc_max_fps c) && bool_decide (priority = pc_priority c)
    | PipeSoftware => false
    end in
  fps_matches
  && bool_decide (video_chroma v = video_chroma (pc_colour c))
  && bool_decide (video_bit_depth v = video_bit_depth (pc_colour c))
  && bool_decide (video_range v = video_range (pc_colour c))
  && bool_decide (video_matrix v = video_matrix (pc_colour c))
  && bool_decide (video_primaries v = video_primaries (pc_colour c))
  && bool_decide (video_transfer v = video_transfer (pc_colour c))
  && codec_policy_allows (pc_codec_policy c) (video_codec v).

Definition served_pipeline (requested : option PipelineId) (v : VideoConfiguration) (max_fps : Z) (priority : MotionPriority)
    (c : ServedPipelineContext) : ServedStreamPipeline :=
  match ctx_backend c with
  | None => ServedCustom
  | Some Software => ServedSoftware
  | Some Hardware =>
    let search :=
      if exact_or_admin_override c then ServedCustom
      else match List.find (fun p => product_contract_matches p v max_fps priority) [PipeAuto; PipeSpeed; PipeGrading; PipeHdr] with
           | Some p => served_wire p
           | None => ServedCustom
           end in
    match requested with
    | Some p => if negb (exact_or_admin_override c) && product_contract_matches p v max_fps priority then served_wire p else search
    | None => search
    end
  end.

Fixpoint aggregate_loop (backends : list (option AcceleratorClass)) (saw_encoder saw_unknown : bool) : option AcceleratorClass :=
  match backends with
  | [] => if saw_encoder && negb saw_unknown then Some Hardware else None
  | Some Hardware :: r => aggregate_loop r true saw_unknown
  | Some Software :: _ => Some Software
  | None :: r => aggregate_loop r true true
  end.
Definition aggregate_encoder_backend (backends : list (option AcceleratorClass)) : option AcceleratorClass :=
  aggregate_loop backends false false.
Definition aggregate_plan_encoder_backend (plans : list ResolvedMediaPlan) : option AcceleratorClass :=
  aggregate_encoder_backend (map (fun p => Some (accelerator_class (rp_backend p))) plans).

(** ** What it then operates under *)

Inductive OperationalPipeline := OpContract (p : PipelineId) | OpLegacy.

Definition operational_pipeline (served : option ServedStreamPipeline) : OperationalPipeline :=
  match served with
  | Some ServedAuto => OpContract PipeAuto
  | Some ServedSpeed => OpContract PipeSpeed
  | Some ServedGrading => OpContract PipeGrading
  | Some ServedHdr => OpContract PipeHdr
  | Some ServedSoftware => OpContract PipeSoftware
  | Some ServedCustom | Some (ServedUnknown _) | None => OpLegacy
  end.

Definition operational_bitrate_bounds (served : option ServedStreamPipeline) (width height fps : Z) (chroma : ChromaSubsampling)
    (depth : BitDepth) : Z * Z :=
  match operational_pipeline served with
  | OpContract p => policy_bounds (pc_bitrate (pipeline_contract p)) width height fps chroma depth
  | OpLegacy => (link_capped_average_bitrate_bps width height fps chroma depth, average_bitrate_bps width height fps chroma depth)
  end.

Definition operational_encoder_bitrate_bounds (served : option ServedStreamPipeline) (width height fps : Z) (chroma : ChromaSubsampling)
    (depth : BitDepth) : Z * Z :=
  match operational_pipeline served with
  | OpContract p => encoder_start_and_max (pc_bitrate (pipeline_contract p)) width height fps chroma depth
  | OpLegacy => let start := link_capped_average_bitrate_bps width height fps chroma depth in (start, start)
  end.

Definition clamp_live_bitrate_target (target_bps live_max_bps : Z) : Z := if live_max_bps <? target_bps then live_max_bps else target_bps.

Definition operational_rate_control_policy (served : option ServedStreamPipeline) (width height fps : Z) (chroma : ChromaSubsampling)
    (depth : BitDepth) (fallback_priority : MotionPriority) : RateControlPolicy :=
  match operational_pipeline served with
  | OpContract p => rate_control_policy (pipeline_contract p) width height fps chroma depth
  | OpLegacy =>
    let '(start, ceiling) := operational_bitrate_bounds served width height fps chroma depth in for_bounds_and_priority start ceiling
  end.

Definition operational_motion_priority (served : option ServedStreamPipeline) (fallback : MotionPriority) : MotionPriority :=
  match operational_pipeline served with OpContract p => pc_priority (pipeline_contract p) | OpLegacy => fallback end.
Definition operational_encode_intent (served : option ServedStreamPipeline) (fallback : EncodeIntent) : EncodeIntent :=
  match operational_pipeline served with OpContract p => pc_intent (pipeline_contract p) | OpLegacy => fallback end.
Definition operational_keyframe_policy (served : option ServedStreamPipeline) : KeyframePolicy :=
  match operational_pipeline served with OpContract p => pc_keyframe (pipeline_contract p) | OpLegacy => ON_DEMAND_ONLY end.

(** ** Bitrates *)

Lemma average_range width height fps chroma depth : 0 <= average_bitrate_bps width height fps chroma depth <= umax 32.
Proof. by apply round_as_range. Qed.

(** The cap of a shape, for each of the frame rates it is billed at. *)
Definition billed_caps (chroma : ChromaSubsampling) (depth : BitDepth) : list Z :=
  map (fun n => link_cap (Z.of_nat n) chroma depth) (seq 1 30).

Lemma billed_caps_low : forallb (fun chroma => forallb (fun depth => forallb (fun cap => cap <=? 6220800) (billed_caps chroma depth))
    BitDepth_ALL) ChromaSubsampling_ALL = true.
Proof. by vm_compute. Qed.

Lemma link_cap_billed fps chroma depth : In (link_cap fps chroma depth) (billed_caps chroma depth).
Proof.
  unfold billed_caps. apply in_map_iff. exists (Z.to_nat (Z.max (Z.min fps 30) 1)). split; [|apply in_seq; lia].
  rewrite Z2Nat.id by lia. unfold link_cap, average_bitrate_bps, CAP_FPS.
  by replace (Z.max (Z.min (Z.max (Z.min fps 30) 1) 30) 1) with (Z.max (Z.min fps 30) 1) by lia.
Qed.

Lemma link_cap_low fps chroma depth : link_cap fps chroma depth <= 6220800.
Proof.
  pose proof billed_caps_low as H. rewrite forallb_forall in H.
  specialize (H chroma ltac:(destruct chroma; cbn; tauto)). rewrite forallb_forall in H.
  specialize (H depth ltac:(destruct depth; cbn; tauto)). rewrite forallb_forall in H.
  specialize (H _ (link_cap_billed fps chroma depth)). lia.
Qed.

Lemma link_capped_range width height fps chroma depth : let start := link_capped_average_bitrate_bps width height fps chroma depth in
  0 <= start <= average_bitrate_bps width height fps chroma depth /\ start <= 6220800.
Proof.
  cbv zeta. unfold link_capped_average_bitrate_bps. pose proof (average_range width height fps chroma depth).
  pose proof (link_cap_low fps chroma depth). assert (0 <= link_cap fps chroma depth); [|lia].
  unfold link_cap. case_match; apply average_range.
Qed.

Lemma proven_path_range shape : shape <= proven_path_ceiling_bps shape /\ proven_path_ceiling_bps shape <= Z.max shape PROVEN_PATH_CEILING_BPS.
Proof. unfold proven_path_ceiling_bps. lia. Qed.

(** A [BitratePolicy] whose own figures are in order. *)
Definition policy_in_order (p : BitratePolicy) : Prop :=
  match p with
  | FixedBounds start ceiling => 0 <= start <= ceiling
  | LinkCappedWithCeiling ceiling => 6220800 <= ceiling
  | SoftwareCpuH264 _ _ floor => 0 <= floor
  | _ => True
  end.

Lemma contracts_in_order p : policy_in_order (pc_bitrate (pipeline_contract p)).
Proof. by destruct p. Qed.

Lemma policy_bounds_ordered p width height fps chroma depth : policy_in_order p ->
  let '(start, ceiling) := policy_bounds p width height fps chroma depth in 0 <= start <= ceiling.
Proof.
  intros Hp. pose proof (link_capped_range width height fps chroma depth) as [H L]. cbv zeta in H, L.
  pose proof (proven_path_range (average_bitrate_bps width height fps chroma depth)).
  destruct p; cbn -[Z.max Z.min] in *; lia.
Qed.

Lemma gate_is_shape p width height fps chroma depth gate : evidence_gate p width height fps chroma depth = Some gate ->
  gate = average_bitrate_bps width height fps chroma depth /\ (policy_bounds p width height fps chroma depth).1 <= gate
  /\ gate <= (policy_bounds p width height fps chroma depth).2.
Proof.
  pose proof (link_capped_range width height fps chroma depth) as [H _]. cbv zeta in H.
  pose proof (proven_path_range (average_bitrate_bps width height fps chroma depth)).
  destruct p; cbn -[Z.max]; intros [= <-]; lia.
Qed.

(** The bounds a policy is built for are its own, but for zero. *)
Lemma for_bounds_bounds start ceiling step : 0 <= start <= ceiling ->
  start_bps (for_bounds_priority_probe_step start ceiling step) = Z.max 1 start
  /\ ceiling_bps (for_bounds_priority_probe_step start ceiling step) = Z.max 1 ceiling
  /\ 1 <= floor_bps (for_bounds_priority_probe_step start ceiling step).
Proof.
  intros H. cbn -[Z.max]. unfold RateControl.clamp.
  destruct (Z.ltb_spec start 1), (Z.ltb_spec (Z.max ceiling 1) start); repeat split; lia.
Qed.

(** The policy of bounds in order, with the gate it is given. *)
Definition policy_of (start ceiling : Z) (step : ProbeStep) (gate : option Z) : RateControlPolicy :=
  let policy := for_bounds_priority_probe_step start ceiling step in
  match gate with Some g => with_evidence_gate g policy | None => policy end.

Lemma policy_of_spec start ceiling step gate : 0 <= start <= ceiling -> (forall g, gate = Some g -> start <= g <= ceiling) ->
  let policy := policy_of start ceiling step gate in
  policy_wf policy /\ start_bps policy = Z.max 1 start /\ ceiling_bps policy = Z.max 1 ceiling /\ 1 <= floor_bps policy
  /\ (forall g, evidence_gate_bps policy = Some g <-> exists shape, gate = Some shape /\ g = Z.max 1 shape /\ g < ceiling).
Proof.
  intros H Hg. pose proof (for_bounds_bounds start ceiling step H) as (Hs & Hc & Hf).
  pose proof (for_bounds_wf start ceiling step) as Hwf. unfold policy_of. destruct gate as [shape|]; cbv zeta.
  - specialize (Hg shape eq_refl). split; [by apply with_evidence_gate_wf|]. do 3 (split; [done|]). intros g.
    unfold with_evidence_gate. cbn [evidence_gate_bps]. rewrite Hs, Hc.
    replace (RateControl.clamp (Z.max 1 start) (Z.max 1 ceiling) shape) with (Z.max 1 shape).
    2:{ unfold RateControl.clamp. destruct (Z.ltb_spec shape (Z.max 1 start)), (Z.ltb_spec (Z.max 1 ceiling) shape); lia. }
    destruct (Z.ltb_spec (Z.max 1 shape) (Z.max 1 ceiling)); split; try done.
    + intros [= <-]. exists shape. repeat split; lia.
    + intros (? & [= <-] & -> & _). done.
    + intros (? & [= <-] & -> & ?). lia.
  - do 4 (split; [done|]). intros g. split; [done|]. by intros (? & ? & _).
Qed.

(** The bitrate policy and the probe of what is served. *)
Definition served_bitrate (served : option ServedStreamPipeline) : BitratePolicy :=
  match operational_pipeline served with OpContract p => pc_bitrate (pipeline_contract p) | OpLegacy => SessionBounds end.
Definition served_probe (served : option ServedStreamPipeline) : ProbeStep :=
  match operational_pipeline served with OpContract p => pc_probe_step (pipeline_contract p) | OpLegacy => CeilingFraction end.

Lemma served_in_order served : policy_in_order (served_bitrate served).
Proof. unfold served_bitrate. case_match; [apply contracts_in_order|done]. Qed.

Lemma operational_bounds_eq served width height fps chroma depth :
  operational_bitrate_bounds served width height fps chroma depth = policy_bounds (served_bitrate served) width height fps chroma depth
  /\ operational_encoder_bitrate_bounds served width height fps chroma depth
     = encoder_start_and_max (served_bitrate served) width height fps chroma depth.
Proof. unfold operational_bitrate_bounds, operational_encoder_bitrate_bounds, served_bitrate. by case_match. Qed.

Lemma operational_policy_eq served width height fps chroma depth priority :
  let '(start, ceiling) := policy_bounds (served_bitrate served) width height fps chroma depth in
  operational_rate_control_policy served width height fps chroma depth priority
  = policy_of start ceiling (served_probe served) (evidence_gate (served_bitrate served) width height fps chroma depth).
Proof.
  unfold operational_rate_control_policy, operational_bitrate_bounds, served_bitrate, served_probe, rate_control_policy.
  pose proof (average_range width height fps chroma depth). destruct served as [[]|]; try done; cbn; lia.
Qed.

Lemma encoder_within p width height fps chroma depth : policy_in_order p ->
  let '(start, ceiling) := policy_bounds p width height fps chroma depth in
  (encoder_start_and_max p width height fps chroma depth).1 = start
  /\ start <= (encoder_start_and_max p width height fps chroma depth).2 <= ceiling.
Proof.
  intros Hp. pose proof (policy_bounds_ordered p width height fps chroma depth Hp) as H. unfold encoder_start_and_max.
  destruct (policy_bounds _ _ _ _ _ _). destruct p; cbn; lia.
Qed.

(** ** The rate policy of what is served *)

(** The products whose rate may pass the shape's budget, with evidence. *)
Definition has_gate (served : option ServedStreamPipeline) : Prop := served = Some ServedAuto \/ served = Some ServedSpeed.

Lemma served_start served width height fps chroma depth : served <> Some ServedSoftware ->
  (policy_bounds (served_bitrate served) width height fps chroma depth).1 <= 6220800.
Proof.
  intros H. pose proof (link_capped_range width height fps chroma depth) as [_ L].
  destruct served as [[]|]; cbn; done || lia.
Qed.

Lemma served_ceiling served width height fps chroma depth :
  (policy_bounds (served_bitrate served) width height fps chroma depth).2
    <= Z.max (average_bitrate_bps width height fps chroma depth) 500000000 \/ served = Some ServedSoftware.
Proof.
  pose proof (proven_path_range (average_bitrate_bps width height fps chroma depth)). unfold PROVEN_PATH_CEILING_BPS in *.
  destruct served as [[]|]; cbn -[Z.max proven_path_ceiling_bps average_bitrate_bps]; auto; left; unfold GRADING_BITRATE_CEILING_BPS; lia.
Qed.

Lemma served_gate served width height fps chroma depth g :
  evidence_gate (served_bitrate served) width height fps chroma depth = Some g <-> has_gate served /\ g = average_bitrate_bps width height fps chroma depth.
Proof. unfold has_gate. destruct served as [[]|]; cbn; naive_solver. Qed.

(** A session starts at a rate that every link it was tuned for carries,
    and its controller can never be led astray by the bounds it is given.  For
    every pipeline a host serves, known or not, and every shape of the picture:
    the rate-control policy is well formed, starts and ends at the bounds of
    the served contract (a rate of zero is one), and its encoder is configured
    at that start and never above that ceiling; unless it is the software
    fallback the start is at most 6220800 bits per second however large the
    picture is.  Only Auto and Speed may go past the budget of their shape, and
    theirs is exactly the rate above which the controller demands evidence.
    Whatever the path does, the controller's target stays positive and at most
    at the ceiling. *)
Theorem served_rate_policy_sound (served : option ServedStreamPipeline) (width height fps : Z) (chroma : ChromaSubsampling) (depth : BitDepth)
  (priority : MotionPriority) (l : list (RateSample * RateHints)) :
  let shape := average_bitrate_bps width height fps chroma depth in
  let '(start, ceiling) := operational_bitrate_bounds served width height fps chroma depth in
  let '(encoder_start, encoder_max) := operational_encoder_bitrate_bounds served width height fps chroma depth in
  let policy := operational_rate_control_policy served width height fps chroma depth priority in
  policy_wf policy /\ start_bps policy = Z.max 1 start /\ ceiling_bps policy = Z.max 1 ceiling
  /\ encoder_start = start /\ start <= encoder_max <= ceiling
  /\ (served <> Some ServedSoftware -> start <= 6220800)
  /\ (ceiling <= Z.max shape 500000000 \/ served = Some ServedSoftware)
  /\ (forall g, evidence_gate_bps policy = Some g <-> has_gate served /\ g = Z.max 1 shape /\ g < ceiling)
  /\ 1 <= rc_target_bps (run l (RateController_new policy)).2 <= Z.max 1 ceiling.
Proof.
  cbv zeta. destruct (operational_bounds_eq served width height fps chroma depth) as [-> ->].
  pose proof (served_in_order served) as Hp. pose proof (policy_bounds_ordered _ width height fps chroma depth Hp) as Hb.
  pose proof (encoder_within _ width height fps chroma depth Hp) as He.
  pose proof (gate_is_shape (served_bitrate served) width height fps chroma depth) as Hg.
  pose proof (operational_policy_eq served width height fps chroma depth priority) as Heq.
  pose proof (served_start served width height fps chroma depth) as Hstart.
  pose proof (served_ceiling served width height fps chroma depth) as Hceiling.
  pose proof (served_gate served width height fps chroma depth) as Hgate.
  destruct (policy_bounds _ _ _ _ _ _) as [start ceiling]. destruct (encoder_start_and_max _ _ _ _ _ _) as [encoder_start encoder_max].
  cbn [fst snd] in *. rewrite Heq.
  pose proof (policy_of_spec start ceiling (served_probe served) _ Hb (fun g Hsome => proj2 (Hg g Hsome)))
    as (Hwf & Hs & Hc & Hf & Hev).
  do 3 (split; [done|]). split; [tauto|]. split; [tauto|]. split; [done|]. split; [done|]. split.
  { intros g. rewrite Hev. split; [intros (shape & Hsome & Hrest); apply Hgate in Hsome as [? ->]; done|].
    intros (Hgated & Hrest). eexists. split; [apply Hgate; by split|done]. }
  pose proof (ri_bounds _ _ (rate_inv_run _ l Hwf _ (rate_inv_new _ Hwf))). lia.
Qed.

(** A picture of a workstation: where each contract starts and may go. *)
Example rates_of_4k : map (fun s => operational_bitrate_bounds (Some s) 3840 2160 60 Chroma420 EightBit)
    [ServedAuto; ServedSpeed; ServedGrading; ServedHdr; ServedSoftware; ServedCustom]
  = [(4665600, 149299200); (4665600, 149299200); (4665600, 250000000); (4665600, 500000000); (32000000, 64000000); (4665600, 37324800)].
Proof. by vm_compute. Qed.

(** ** What a session is named *)

(** The streams that are a product, whatever was asked for: ordinary 4:2:0 SDR
    at a desktop's or a motion cadence, and the two fidelity contracts. *)
Inductive product_stream : PipelineId -> VideoConfiguration -> Z -> MotionPriority -> Prop :=
| StreamIsAuto codec fps : codec ∈ [CodecAv1; CodecH265; CodecH264] -> fps <= 30 -> product_stream PipeAuto (sdr_420 codec) fps Detail
| StreamIsSpeed codec fps priority : codec ∈ [CodecAv1; CodecH265; CodecH264] -> 30 < fps \/ priority = Motion ->
    product_stream PipeSpeed (sdr_420 codec) fps priority
| StreamIsGrading codec fps : codec ∈ [CodecH265; CodecH264] -> fps <= 30 ->
    product_stream PipeGrading (mkVideo codec Chroma444 TenBit RangeFull MatrixBt709 PrimariesBt709 TcBt709) fps Detail
| StreamIsHdr codec fps : codec ∈ [CodecH265; CodecH264] -> fps <= 30 ->
    product_stream PipeHdr (mkVideo codec Chroma444 TenBit RangeFull MatrixBt2020Ncl PrimariesBt2020 TcPq) fps Detail.

(** The name a host may give a session whose region encoders report these
    accelerations: [software] when one of them is software, [custom] when one
    is not known or nothing was started, else the product the stream is. *)
Inductive session_named (backends : list (option AcceleratorClass)) (overridden : bool) (v : VideoConfiguration) (fps : Z)
    (priority : MotionPriority) : ServedStreamPipeline -> Prop :=
| NamedSoftware : Some Software ∈ backends -> session_named backends overridden v fps priority ServedSoftware
| NamedUnproven : Some Software ∉ backends -> backends = [] \/ None ∈ backends -> session_named backends overridden v fps priority ServedCustom
| NamedProduct p : backends <> [] -> Forall (fun b => b = Some Hardware) backends -> overridden = false -> product_stream p v fps priority ->
    session_named backends overridden v fps priority (served_wire p)
| NamedCustom : backends <> [] -> Forall (fun b => b = Some Hardware) backends ->
    overridden = true \/ (forall p, ~ product_stream p v fps priority) ->
    session_named backends overridden v fps priority ServedCustom.

Lemma product_matches_iff p v fps priority : product_contract_matches p v fps priority = true <-> product_stream p v fps priority.
Proof.
  unfold product_contract_matches. rewrite !andb_true_iff, !bool_decide_eq_true.
  destruct v as [codec chroma depth range matrix primaries transfer]. split.
  - intros [[[[[[[Hfps ?] ?] ?] ?] ?] ?] Hcodec].
    destruct p; cbn in *; simplify_eq; boolify; rewrite ?bool_decide_eq_true in *; subst.
    + by apply (StreamIsAuto codec).
    + apply StreamIsSpeed; [done|]. destruct Hfps; [left; lia|by right].
    + by apply StreamIsGrading.
    + by apply StreamIsHdr.
  - intros H. inversion H; subst; cbn;
      rewrite ?andb_true_iff, ?orb_true_iff, ?Z.leb_le, ?Z.ltb_lt, ?bool_decide_eq_true; repeat split; done || lia.
Qed.

(** No stream is two products. *)
Lemma product_stream_unique p q v fps priority : product_stream p v fps priority -> product_stream q v fps priority -> p = q.
Proof.
  intros Hp Hq. inversion Hp; subst; inversion Hq; subst; try done;
    match goal with H : _ \/ _ |- _ => destruct H; [lia|done] end.
Qed.

(** What the loop over the encoders finds. *)
Inductive acceleration (backends : list (option AcceleratorClass)) : option AcceleratorClass -> Prop :=
| AnySoftware : Some Software ∈ backends -> acceleration backends (Some Software)
| Unproven : Some Software ∉ backends -> backends = [] \/ None ∈ backends -> acceleration backends None
| AllHardware : backends <> [] -> Forall (fun b => b = Some Hardware) backends -> acceleration backends (Some Hardware).

Lemma aggregate_loop_spec backends se su :
  (Some Software ∈ backends -> aggregate_loop backends se su = Some Software)
  /\ (Some Software ∉ backends -> None ∈ backends -> aggregate_loop backends se su = None)
  /\ (Forall (fun b => b = Some Hardware) backends ->
      aggregate_loop backends se su = if (se || negb (bool_decide (backends = []))) && negb su then Some Hardware else None).
Proof.
  revert se su. induction backends as [|b r IH]; intros se su.
  { split; [by intros ?%not_elem_of_nil|]. split; [by intros _ ?%not_elem_of_nil|]. intros _. cbn. by rewrite orb_false_r. }
  destruct b as [[]|]; cbn [aggregate_loop].
  - destruct (IH true su) as (H1 & H2 & H3). split; [intros [|]%elem_of_cons; [done|auto]|].
    split; [intros Hs [|]%elem_of_cons; [done|set_solver]|]. intros [_ Hr]%Forall_cons. rewrite (H3 Hr). cbn. by rewrite orb_true_r.
  - split; [done|]. split; [set_solver|]. by intros [? _]%Forall_cons.
  - destruct (IH true true) as (H1 & H2 & H3). split; [intros [|]%elem_of_cons; [done|auto]|]. split; [|by intros [? _]%Forall_cons].
    intros Hs _. destruct (decide (None ∈ r)) as [Hn|Hn]; [set_solver|].
    rewrite H3; [done|]. apply Forall_forall. intros [[]|] Hin; set_solver.
Qed.

Lemma aggregate_exact backends : acceleration backends (aggregate_encoder_backend backends).
Proof.
  unfold aggregate_encoder_backend. destruct (aggregate_loop_spec backends false false) as (H1 & H2 & H3).
  destruct (decide (Some Software ∈ backends)) as [Hs|Hs]; [rewrite H1 by done; by constructor|].
  destruct (decide (None ∈ backends)) as [Hn|Hn]; [rewrite H2 by done; constructor; auto|].
  assert (Forall (fun b => b = Some Hardware) backends) as Hall by (apply Forall_forall; intros [[]|]; set_solver).
  rewrite (H3 Hall). destruct backends as [|b r]; cbn; [by constructor; auto|]. by constructor.
Qed.

Lemma served_search_spec v fps priority :
  match List.find (fun p => product_contract_matches p v fps priority) [PipeAuto; PipeSpeed; PipeGrading; PipeHdr] with
  | Some p => product_stream p v fps priority
  | None => forall p, ~ product_stream p v fps priority
  end.
Proof.
  destruct (List.find _ _) as [p|] eqn:E; [apply List.find_some in E as [_ E]; by apply product_matches_iff|].
  intros p H. assert (p <> PipeSoftware) as Hp by (by inversion H).
  eapply List.find_none in E; [|shelve]. by rewrite (proj2 (product_matches_iff p v fps priority) H) in E.
  Unshelve. destruct p; cbn; tauto.
Qed.

Lemma session_named_unique backends overridden v fps priority a b :
  session_named backends overridden v fps priority a -> session_named backends overridden v fps priority b -> a = b.
Proof.
  intros Ha Hb. inversion Ha; subst; inversion Hb; subst; try done; rewrite ?Forall_forall in *;
    try match goal with
    | H : product_stream ?p _ _ _, H' : product_stream ?q _ _ _ |- _ => by rewrite (product_stream_unique p q _ _ _ H H')
    | H : _ \/ (forall p, ~ product_stream p _ _ _) |- _ => destruct H; [done|naive_solver]
    end; naive_solver.
Qed.

(** What a host says it serves is what its encoders and the final stream
    prove, whatever the client asked for.  For every list of region encoders
    (each reporting hardware, software or nothing) and every final stream the
    name is exactly this: [software] when any encoder is software; [custom]
    when there is none or one is unknown, when an exact request or an
    administrator set the axes, and when the stream is no product; otherwise
    the product the stream is.  In particular the request never changes the
    name. *)
Theorem served_name_truthful (requested : option PipelineId) (v : VideoConfiguration) (fps : Z) (priority : MotionPriority)
  (overridden : bool) (backends : list (option AcceleratorClass)) (name : ServedStreamPipeline) :
  served_pipeline requested v fps priority (mkServedContext (aggregate_encoder_backend backends) overridden) = name
  <-> session_named backends overridden v fps priority name.
Proof.
  pose proof (aggregate_exact backends) as Hagg. pose proof (served_search_spec v fps priority) as Hsearch.
  assert (session_named backends overridden v fps priority
    (served_pipeline requested v fps priority (mkServedContext (aggregate_encoder_backend backends) overridden))) as Hnamed.
  { unfold served_pipeline. cbn [ctx_backend exact_or_admin_override].
    destruct Hagg as [?|? ?|Hne Hall]; [by apply NamedSoftware|by apply NamedUnproven|].
    destruct overridden; [destruct requested; apply NamedCustom; auto|]. cbn [negb andb].
    assert (forall p, product_contract_matches p v fps priority = true -> session_named backends false v fps priority (served_wire p)) as Hp
      by (intros p ?%product_matches_iff; by apply NamedProduct).
    destruct (List.find _ _) as [q|] eqn:E; [apply List.find_some in E as [_ E]|];
      (destruct requested as [p|]; [destruct (product_contract_matches p v fps priority) eqn:Ep|]); auto; apply NamedCustom; auto. }
  split; [by intros <-|]. intros Hname. by eapply session_named_unique.
Qed.
