(* ===== verification/CaptureAdmission.v ===== *)
(** * Media: what a capture source may be served as

    Models [shared/media/src/video/capture_admission.rs]: from the evidence
    about a capture source and the limits of an encoder, whether a preset is
    served, visibly downgraded or unavailable, with the white test of
    [video/pq_white.rs].  Built on the facts of [CaptureSurface], the contracts
    of [Pipelines] and the strict resolution of [MediaPlan]. *)

From stdpp Require Import strings.
From S2P Require Import Prelude Float64 Utf8 RustText CaptureSurface MultiMonitor AppliedTopology MediaFormats MediaPlan Pipelines.

(** ** Evidence, requests, plans *)

Inductive SamplePrecision := NativeWide | UpconvertedEightBit.

Record CaptureSourceEvidence := mkEvidence {
  ev_backend : CaptureBackend;
  ev_format : CapturePixelFormat;
  ev_colour : SourceColour;
  ev_sample_precision : SourceFact SamplePrecision;
  ev_output_hdr_active : SourceFact bool;
  ev_copy_path : CopyPath;
  ev_gpu : GpuMatch;
  ev_sustained_fps : SourceFact Z;
  ev_cursor : CursorEvidence
}.

Record EncoderCapability := mkCapability { cap_backend : EncoderBackend; cap_limits : BackendLimits }.

Record AdmissionRequest := mkAdmission {
  ad_preset : StreamingPreset;
  ad_requested_codec : VideoCodec;
  ad_width : Z;
  ad_height : Z;
  ad_max_fps : Z
}.
(** [AdmissionRequest { preset, ..request }]. *)
Definition with_preset (p : StreamingPreset) (r : AdmissionRequest) : AdmissionRequest :=
  mkAdmission p (ad_requested_codec r) (ad_width r) (ad_height r) (ad_max_fps r).

Inductive Rgb10Signal := Direct | PqBt2020ToSdrBt709.
Inductive SourceTransform :=
| Sdr8Rgb
| Sdr8YuvPassthrough
| PackedRgb10 (signal : Rgb10Signal)
| HalfFloatPq (signal : Rgb10Signal)
| LinearToSdr
| LinearToPq (sdr_white_nits : Z).
Definition transform_token (t : SourceTransform) : string :=
  match t with
  | Sdr8Rgb => "sdr8-rgb"
  | Sdr8YuvPassthrough => "sdr8-yuv"
  | PackedRgb10 Direct => "rgb10-direct"
  | PackedRgb10 PqBt2020ToSdrBt709 => "rgb10-pq-to-sdr"
  | HalfFloatPq Direct => "f16-pq-direct"
  | HalfFloatPq PqBt2020ToSdrBt709 => "f16-pq-to-sdr"
  | LinearToSdr => "linear-to-sdr"
  | LinearToPq _ => "linear-to-pq"
  end.

Inductive AdmissionReason :=
| EightBitSource | WideSourceOnEightBitPath | SourcePrecisionUnproven | UpconvertedEightBitContent | TransferUnknown
| PrimariesUnknown | YuvSignalUnknown | HdrOnEightBitSource | NoSharedConversion | HdrOutputNotProven | SdrSource
| ReferenceWhiteUnknown | ReferenceWhiteUnsupported | EncoderCannotServeContract | AdmitGpuIdentityUnproven | AdmitGpuMismatch
| CopyPathNotRateQualified | CaptureRateBelowContract | EncoderRateBelowContract | EncoderGeometryExceeded
| SpeedRuntimeBelowFloor
| SoftwareFallback (reason : string).

Definition TOKENED : list AdmissionReason :=
  [EightBitSource; WideSourceOnEightBitPath; SourcePrecisionUnproven; UpconvertedEightBitContent; TransferUnknown;
   PrimariesUnknown; YuvSignalUnknown; HdrOnEightBitSource; NoSharedConversion; HdrOutputNotProven; SdrSource;
   ReferenceWhiteUnknown; ReferenceWhiteUnsupported; EncoderCannotServeContract; AdmitGpuIdentityUnproven; AdmitGpuMismatch;
   CopyPathNotRateQualified; CaptureRateBelowContract; EncoderRateBelowContract; EncoderGeometryExceeded;
   SpeedRuntimeBelowFloor].
Definition reason_token (r : AdmissionReason) : string :=
  match r with
  | EightBitSource => "eight_bit_source"
  | WideSourceOnEightBitPath => "wide_source_on_eight_bit_path"
  | SourcePrecisionUnproven => "source_precision_unproven"
  | UpconvertedEightBitContent => "upconverted_eight_bit_content"
  | TransferUnknown => "transfer_unknown"
  | PrimariesUnknown => "primaries_unknown"
  | YuvSignalUnknown => "yuv_signal_unknown"
  | HdrOnEightBitSource => "hdr_on_eight_bit_source"
  | NoSharedConversion => "no_shared_conversion"
  | HdrOutputNotProven => "hdr_output_not_proven"
  | SdrSource => "sdr_source"
  | ReferenceWhiteUnknown => "reference_white_unknown"
  | ReferenceWhiteUnsupported => "reference_white_unsupported"
  | EncoderCannotServeContract => "encoder_cannot_serve_contract"
  | AdmitGpuIdentityUnproven => "gpu_identity_unproven"
  | AdmitGpuMismatch => "gpu_mismatch"
  | CopyPathNotRateQualified => "copy_path_not_rate_qualified"
  | CaptureRateBelowContract => "capture_rate_below_contract"
  | EncoderRateBelowContract => "encoder_rate_below_contract"
  | EncoderGeometryExceeded => "encoder_geometry_exceeded"
  | SpeedRuntimeBelowFloor => "speed_runtime_below_floor"
  | SoftwareFallback _ => "software_fallback"
  end.
Definition reason_from_token (value : list Z) (requested : PipelineId) : option AdmissionReason :=
  if bool_decide (value = string_bytes "software_fallback") then
    Some (SoftwareFallback (decision_reason (software_fallback_decision (Some requested) (pc_selection (pipeline_contract requested)))))
  else List.find (fun r => bool_decide (string_bytes (reason_token r) = value)) TOKENED.

Record AdmittedCapture := mkAdmitted {
  ac_pipeline : PipelineId;
  ac_codec : VideoCodec;
  ac_fps_ceiling : Z;
  ac_fps_limited_by : option AdmissionReason;
  ac_transform : SourceTransform;
  ac_copy_path : CopyPath;
  ac_colour_assumed : bool;
  ac_cursor_mode : option CursorMode
}.

Record AdmittedEpoch := mkEpoch {
  ep_pipeline : PipelineId;
  ep_video : VideoConfiguration;
  ep_fps : Z;
  ep_priority : MotionPriority;
  ep_intent : EncodeIntent;
  ep_keyframe : KeyframePolicy;
  ep_cursor_mode : CursorMode
}.

(** [VideoConfiguration { codec, ..contract.colour }]. *)
Definition with_codec (codec : VideoCodec) (v : VideoConfiguration) : VideoConfiguration :=
  mkVideo codec (video_chroma v) (video_bit_depth v) (video_range v) (video_matrix v) (video_primaries v) (video_transfer v).

(** [requested.clamp(1, self.fps)] panics when [fps] is zero. *)
Definition live_fps (e : AdmittedEpoch) (requested : Z) : option Z :=
  if ep_fps e <? 1 then None else Some (RateControl.clamp 1 (ep_fps e) requested).

Definition epoch (a : AdmittedCapture) : option AdmittedEpoch :=
  let c := pipeline_contract (ac_pipeline a) in
  cursor_mode ← ac_cursor_mode a;
  Some (mkEpoch (ac_pipeline a) (with_codec (ac_codec a) (pc_colour c)) (ac_fps_ceiling a) (pc_priority c) (pc_intent c) (pc_keyframe c)
          cursor_mode).

Inductive PresetAdmission :=
| Admit (served : AdmittedCapture)
| Downgrade (requested : StreamingPreset) (served : AdmittedCapture) (reason : AdmissionReason)
| AdmitUnavailable (requested : StreamingPreset) (reason : AdmissionReason) (fallback : option AdmissionReason).

Definition admission_served (a : PresetAdmission) : option AdmittedCapture :=
  match a with Admit s | Downgrade _ s _ => Some s | AdmitUnavailable _ _ _ => None end.

Definition admission_degradation (a : PresetAdmission) (requested : StreamingPreset) (requested_fps : Z) : option PlanDegradation :=
  served ← admission_served a;
  let wanted := preset_pipeline_contract requested in
  let got := pipeline_contract (ac_pipeline served) in
  Some (mkDegradation false
          (negb (bool_decide (video_chroma (pc_colour wanted) = video_chroma (pc_colour got))))
          (depth_bits (video_bit_depth (pc_colour got)) <? depth_bits (video_bit_depth (pc_colour wanted)))
          (negb (bool_decide (video_range (pc_colour wanted) = video_range (pc_colour got))))
          (negb (bool_decide (video_matrix (pc_colour wanted) = video_matrix (pc_colour got))))
          (negb (bool_decide (video_primaries (pc_colour wanted) = video_primaries (pc_colour got))))
          (negb (bool_decide (video_transfer (pc_colour wanted) = video_transfer (pc_colour got))))
          (ac_fps_ceiling served <? Z.min (pc_max_fps wanted) (Z.max requested_fps 1)) false false).

(** ** Graphics white *)

Definition GRAPHICS_WHITE_NITS : f64 := of_int 203.
Definition GRAPHICS_WHITE_TOLERANCE_NITS : f64 := of_int 5.
Definition is_graphics_white (source_white_nits : f64) : bool :=
  is_finite source_white_nits && f64_leb (f64_abs (f64_sub source_white_nits GRAPHICS_WHITE_NITS)) GRAPHICS_WHITE_TOLERANCE_NITS.

(** ** Admission *)

Definition serves_codec (request : AdmissionRequest) (contract : PipelineContract) (encoder : EncoderCapability) (fps : Z)
    (codec : VideoCodec) : bool :=
  match resolve_media_plan (mkMediaRequest RequestAuto (with_codec codec (pc_colour contract)) (ad_width request) (ad_height request)
                              fps CursorLocal) [mkCandidate (cap_backend encoder) (Available (cap_limits encoder))] with
  | Ok _ => true
  | Err _ => false
  end.
Definition first_servable_codec (request : AdmissionRequest) (contract : PipelineContract) (encoder : EncoderCapability) (fps : Z) :
    option VideoCodec :=
  List.find (serves_codec request contract encoder fps) (pipeline_codec_ladder (pc_id contract) (ad_requested_codec request)).

(** The frame-rate ceiling of [complete_plan], and what lowered it. *)
Definition admitted_fps (request : AdmissionRequest) (contract : PipelineContract) (source : CaptureSourceEvidence)
    (encoder : EncoderCapability) : Z * option AdmissionReason :=
  let fps_ceiling := Z.min (pc_max_fps contract) (Z.max (ad_max_fps request) 1) in
  let '(fps_ceiling, limited_by) :=
    if bl_max_fps (cap_limits encoder) <? fps_ceiling then (bl_max_fps (cap_limits encoder), Some EncoderRateBelowContract)
    else (fps_ceiling, None) in
  match authoritative (ev_sustained_fps source) with
  | Some measured => if measured <? fps_ceiling then (measured, Some CaptureRateBelowContract) else (fps_ceiling, limited_by)
  | None => (fps_ceiling, limited_by)
  end.

Definition complete_plan (request : AdmissionRequest) (contract : PipelineContract) (source : CaptureSourceEvidence)
    (encoder : EncoderCapability) (transform : SourceTransform) (colour_assumed : bool) : result AdmissionReason AdmittedCapture :=
  _ ← guard_err ((bl_max_width (cap_limits encoder) <? ad_width request) || (bl_max_height (cap_limits encoder) <? ad_height request))
        EncoderGeometryExceeded;
  let '(fps_ceiling, limited_by) := admitted_fps request contract source encoder in
  _ ← guard_err (fps_ceiling =? 0) CaptureRateBelowContract;
  codec ← ok_or (first_servable_codec request contract encoder fps_ceiling) EncoderCannotServeContract;
  Ok (mkAdmitted (pc_id contract) codec fps_ceiling limited_by transform (ev_copy_path source) colour_assumed
        (cursor_authority (ev_cursor source))).

Definition check_gpu (source : CaptureSourceEvidence) : result AdmissionReason unit :=
  if requires_same_gpu (ev_copy_path source) then
    match ev_gpu source with
    | GpuSame => Ok tt
    | GpuDifferent => Err AdmitGpuMismatch
    | GpuUnknown => Err AdmitGpuIdentityUnproven
    end
  else Ok tt.

Definition pq_graphics_white (source : CaptureSourceEvidence) : result AdmissionReason unit :=
  white ← ok_or (authoritative (sdr_white_nits (ev_colour source))) ReferenceWhiteUnknown;
  guard_err (negb (is_graphics_white (of_int white))) ReferenceWhiteUnsupported.

Definition authoritative_colour (source : CaptureSourceEvidence) : result AdmissionReason (SourceTransfer * ColorPrimaries) :=
  transfer ← ok_or (authoritative (colour_transfer (ev_colour source))) TransferUnknown;
  primaries ← ok_or (authoritative (colour_primaries (ev_colour source))) PrimariesUnknown;
  Ok (transfer, primaries).

Definition is_software (encoder : EncoderCapability) : bool := bool_decide (accelerator_class (cap_backend encoder) = Software).

Definition fidelity_preconditions (preset : StreamingPreset) (source : CaptureSourceEvidence) (encoder : EncoderCapability) :
    result AdmissionReason unit :=
  _ ← guard_err (is_software encoder)
        (SoftwareFallback (decision_reason
           (software_fallback_decision (Some (preset_pipeline preset)) (pc_selection (preset_pipeline_contract preset)))));
  _ ← guard_err (negb (is_wide (precision (ev_format source)))) EightBitSource;
  _ ← match ev_sample_precision source with
      | Authoritative NativeWide => Ok tt
      | Authoritative UpconvertedEightBit | Inferred UpconvertedEightBit => Err UpconvertedEightBitContent
      | Inferred NativeWide | FactUnknown => Err SourcePrecisionUnproven
      end;
  check_gpu source.

Definition hdr_transform (source : CaptureSourceEvidence) (transfer : SourceTransfer) (primaries : ColorPrimaries) :
    result AdmissionReason SourceTransform :=
  match precision (ev_format source), transfer, primaries with
  | _, TransferSrgb, _ | _, TransferBt709, _ => Err SdrSource
  | Ten, TransferPq, PrimariesBt2020 => _ ← pq_graphics_white source; Ok (PackedRgb10 Direct)
  | HalfFloat, TransferPq, PrimariesBt2020 => _ ← pq_graphics_white source; Ok (HalfFloatPq Direct)
  | HalfFloat, LinearExtended, PrimariesBt709 =>
    match authoritative (sdr_white_nits (ev_colour source)) with
    | Some nits => if 0 <? nits then Ok (LinearToPq nits) else Err ReferenceWhiteUnknown
    | None => Err ReferenceWhiteUnknown
    end
  | _, _, _ => Err NoSharedConversion
  end.

Definition hdr_plan (request : AdmissionRequest) (source : CaptureSourceEvidence) (encoder : EncoderCapability) :
    result AdmissionReason AdmittedCapture :=
  _ ← fidelity_preconditions PresetHdr source encoder;
  _ ← guard_err (negb (bool_decide (authoritative (ev_output_hdr_active source) = Some true))) HdrOutputNotProven;
  '(transfer, primaries) ← authoritative_colour source;
  transform ← hdr_transform source transfer primaries;
  complete_plan request (pipeline_contract PipeHdr) source encoder transform false.

Definition grading_transform (source : CaptureSourceEvidence) (transfer : SourceTransfer) (primaries : ColorPrimaries) :
    result AdmissionReason SourceTransform :=
  match precision (ev_format source), transfer, primaries with
  | Ten, TransferSrgb, PrimariesBt709 | Ten, TransferBt709, PrimariesBt709 => Ok (PackedRgb10 Direct)
  | Ten, TransferPq, PrimariesBt2020 => _ ← pq_graphics_white source; Ok (PackedRgb10 PqBt2020ToSdrBt709)
  | HalfFloat, TransferPq, PrimariesBt2020 => _ ← pq_graphics_white source; Ok (HalfFloatPq PqBt2020ToSdrBt709)
  | HalfFloat, LinearExtended, PrimariesBt709 => Ok LinearToSdr
  | _, _, _ => Err NoSharedConversion
  end.

Definition grading_plan (request : AdmissionRequest) (source : CaptureSourceEvidence) (encoder : EncoderCapability) :
    result AdmissionReason AdmittedCapture :=
  _ ← fidelity_preconditions PresetGrading source encoder;
  '(transfer, primaries) ← authoritative_colour source;
  transform ← grading_transform source transfer primaries;
  complete_plan request (pipeline_contract PipeGrading) source encoder transform false.

Definition software_plan (request : AdmissionRequest) (source : CaptureSourceEvidence) (encoder : EncoderCapability)
    (transform : SourceTransform) (colour_assumed : bool) : result AdmissionReason PresetAdmission :=
  let contract := pipeline_contract PipeSoftware in
  match software_fallback_decision (Some (preset_pipeline (ad_preset request))) (pc_selection (preset_pipeline_contract (ad_preset request)))
  with
  | Refuse reason => Err (SoftwareFallback reason)
  | Serve _ => plan ← complete_plan request contract source encoder transform colour_assumed; Ok (Admit plan)
  | Degrade reason =>
    plan ← complete_plan request contract source encoder transform colour_assumed;
    Ok (Downgrade (ad_preset request) plan (SoftwareFallback reason))
  end.

Definition sdr8_transform (source : CaptureSourceEvidence) : result AdmissionReason (SourceTransform * bool) :=
  let colour := ev_colour source in
  _ ← match fact_value (colour_transfer colour) with
      | Some TransferPq | Some TransferHlg | Some LinearExtended => Err HdrOnEightBitSource
      | Some TransferSrgb | Some TransferBt709 | None => Ok tt
      end;
  _ ← guard_err (match fact_value (colour_primaries colour) with
                 | Some primaries => negb (bool_decide (primaries = PrimariesBt709))
                 | None => false
                 end) NoSharedConversion;
  let assumed := bool_decide (authoritative (colour_transfer colour) = None) || bool_decide (authoritative (colour_primaries colour) = None) in
  if is_yuv (ev_format source) then
    match authoritative (colour_range colour), authoritative (colour_matrix colour) with
    | Some range, Some matrix =>
      _ ← guard_err (negb (bool_decide (range = RangeLimited)) || negb (bool_decide (matrix = MatrixBt709))) NoSharedConversion;
      Ok (Sdr8YuvPassthrough, assumed)
    | _, _ => Err YuvSignalUnknown
    end
  else Ok (Sdr8Rgb, assumed).

Definition sdr8_plan (request : AdmissionRequest) (pipeline : PipelineId) (source : CaptureSourceEvidence) (encoder : EncoderCapability) :
    result AdmissionReason PresetAdmission :=
  _ ← guard_err (is_wide (precision (ev_format source))) WideSourceOnEightBitPath;
  '(transform, colour_assumed) ← sdr8_transform source;
  _ ← check_gpu source;
  if is_software encoder then software_plan request source encoder transform colour_assumed
  else plan ← complete_plan request (pipeline_contract pipeline) source encoder transform colour_assumed; Ok (Admit plan).

Definition admit_unavailable (request : AdmissionRequest) (reason : AdmissionReason) : PresetAdmission :=
  AdmitUnavailable (ad_preset request) reason None.

Definition admit_auto (request : AdmissionRequest) (source : CaptureSourceEvidence) (encoder : EncoderCapability) : PresetAdmission :=
  match sdr8_plan request PipeAuto source encoder with Ok a => a | Err reason => admit_unavailable request reason end.

(** The Auto plan served for a Speed request, for [reason]. *)
Definition speed_as_auto (request : AdmissionRequest) (source : CaptureSourceEvidence) (encoder : EncoderCapability) (reason : AdmissionReason) :
    PresetAdmission :=
  match sdr8_plan (with_preset PresetAuto request) PipeAuto source encoder with
  | Ok (Admit served) => Downgrade (ad_preset request) served reason
  | Ok other => other
  | Err reason => admit_unavailable request reason
  end.

Definition admit_speed (request : AdmissionRequest) (source : CaptureSourceEvidence) (encoder : EncoderCapability) : PresetAdmission :=
  if negb (is_software encoder) && negb (zero_copy (ev_copy_path source)) && bool_decide (authoritative (ev_sustained_fps source) = None)
  then speed_as_auto request source encoder CopyPathNotRateQualified
  else match sdr8_plan request PipeSpeed source encoder with Ok a => a | Err reason => admit_unavailable request reason end.

Definition admit_speed_after_runtime_shortfall (request : AdmissionRequest) (source : CaptureSourceEvidence) (encoder : EncoderCapability) :
    PresetAdmission := speed_as_auto request source encoder SpeedRuntimeBelowFloor.

Definition admit_grading (request : AdmissionRequest) (source : CaptureSourceEvidence) (encoder : EncoderCapability) : PresetAdmission :=
  match grading_plan request source encoder with Ok plan => Admit plan | Err reason => admit_unavailable request reason end.

Definition admit_hdr (request : AdmissionRequest) (source : CaptureSourceEvidence) (encoder : EncoderCapability) : PresetAdmission :=
  match hdr_plan request source encoder with
  | Ok plan => Admit plan
  | Err (SoftwareFallback text) => admit_unavailable request (SoftwareFallback text)
  | Err reason =>
    match grading_plan (with_preset PresetGrading request) source encoder with
    | Ok served => Downgrade (ad_preset request) served reason
    | Err fallback => AdmitUnavailable (ad_preset request) reason (Some fallback)
    end
  end.

Definition admit_capture_source (request : AdmissionRequest) (source : CaptureSourceEvidence) (encoder : EncoderCapability) : PresetAdmission :=
  match ad_preset request with
  | PresetAuto => admit_auto request source encoder
  | PresetSpeed => admit_speed request source encoder
  | PresetGrading => admit_grading request source encoder
  | PresetHdr => admit_hdr request source encoder
  end.

(** ** Specification: what a source can truthfully be served as *)

(** SDR white at the contract's level; in nits, from 198 to 208. *)
Definition white_at_graphics_level (source : CaptureSourceEvidence) : Prop :=
  exists nits, sdr_white_nits (ev_colour source) = Authoritative nits /\ is_graphics_white (of_int nits) = true.

Example graphics_white_window :
  forallb (fun w => Bool.eqb (is_graphics_white (of_int (Z.of_nat w))) ((198 <=? Z.of_nat w) && (Z.of_nat w <=? 208))) (seq 0 1000) = true.
Proof. by vm_compute. Qed.

(** Eight-bit samples, not known to be anything but BT.709 SDR. *)
Record sdr8_source (source : CaptureSourceEvidence) : Prop := {
  s8_precision : precision (ev_format source) = Eight;
  s8_transfer : forall t, fact_value (colour_transfer (ev_colour source)) = Some t -> is_sdr t = true;
  s8_primaries : forall p, fact_value (colour_primaries (ev_colour source)) = Some p -> p = PrimariesBt709
}.

(** Wide samples that are proven to carry wide content of this colour. *)
Record wide_source (source : CaptureSourceEvidence) (sp : SourcePrecision) (t : SourceTransfer) (p : ColorPrimaries) : Prop := {
  ws_precision : precision (ev_format source) = sp;
  ws_native : ev_sample_precision source = Authoritative NativeWide;
  ws_transfer : colour_transfer (ev_colour source) = Authoritative t;
  ws_primaries : colour_primaries (ev_colour source) = Authoritative p
}.

Definition colour_reported (source : CaptureSourceEvidence) : bool :=
  match colour_transfer (ev_colour source), colour_primaries (ev_colour source) with Authoritative _, Authoritative _ => true | _, _ => false end.

(** The contracts a source can feed, by which conversion, and whether its
    colour had to be assumed. *)
Inductive source_fits (source : CaptureSourceEvidence) : PipelineId -> SourceTransform -> bool -> Prop :=
| Fits8Rgb p : p ∈ [PipeAuto; PipeSpeed; PipeSoftware] -> sdr8_source source -> is_yuv (ev_format source) = false ->
    source_fits source p Sdr8Rgb (negb (colour_reported source))
| Fits8Yuv p : p ∈ [PipeAuto; PipeSpeed; PipeSoftware] -> sdr8_source source -> is_yuv (ev_format source) = true ->
    colour_range (ev_colour source) = Authoritative RangeLimited -> colour_matrix (ev_colour source) = Authoritative MatrixBt709 ->
    source_fits source p Sdr8YuvPassthrough (negb (colour_reported source))
| FitsGradingSdr10 t : is_sdr t = true -> wide_source source Ten t PrimariesBt709 -> source_fits source PipeGrading (PackedRgb10 Direct) false
| FitsGradingPq10 : wide_source source Ten TransferPq PrimariesBt2020 -> white_at_graphics_level source ->
    source_fits source PipeGrading (PackedRgb10 PqBt2020ToSdrBt709) false
| FitsGradingPq16 : wide_source source HalfFloat TransferPq PrimariesBt2020 -> white_at_graphics_level source ->
    source_fits source PipeGrading (HalfFloatPq PqBt2020ToSdrBt709) false
| FitsGradingLinear : wide_source source HalfFloat LinearExtended PrimariesBt709 -> source_fits source PipeGrading LinearToSdr false
| FitsHdrPq10 : ev_output_hdr_active source = Authoritative true -> wide_source source Ten TransferPq PrimariesBt2020 ->
    white_at_graphics_level source -> source_fits source PipeHdr (PackedRgb10 Direct) false
| FitsHdrPq16 : ev_output_hdr_active source = Authoritative true -> wide_source source HalfFloat TransferPq PrimariesBt2020 ->
    white_at_graphics_level source -> source_fits source PipeHdr (HalfFloatPq Direct) false
| FitsHdrLinear nits : ev_output_hdr_active source = Authoritative true -> wide_source source HalfFloat LinearExtended PrimariesBt709 ->
    sdr_white_nits (ev_colour source) = Authoritative nits -> 0 < nits -> source_fits source PipeHdr (LinearToPq nits) false.

(** The rates an admitted ceiling may not exceed. *)
Definition fps_limits (request : AdmissionRequest) (p : PipelineId) (source : CaptureSourceEvidence) (encoder : EncoderCapability) : list Z :=
  pc_max_fps (pipeline_contract p) :: Z.max (ad_max_fps request) 1 :: bl_max_fps (cap_limits encoder)
    :: match ev_sustained_fps source with Authoritative measured => [measured] | _ => [] end.

(** What the encoder is asked for. *)
Definition encode_request (request : AdmissionRequest) (p : PipelineId) (codec : VideoCodec) (fps : Z) : MediaRequest :=
  mkMediaRequest RequestAuto (with_codec codec (pc_colour (pipeline_contract p))) (ad_width request) (ad_height request) fps CursorLocal.
Definition encodable (request : AdmissionRequest) (p : PipelineId) (encoder : EncoderCapability) (fps : Z) (codec : VideoCodec) : Prop :=
  well_formed (encode_request request p codec fps) /\ fits (encode_request request p codec fps) (cap_backend encoder) (cap_limits encoder).

(** How the served contract is encoded: within the encoder's size, at the
    least of the limits on its rate, with the first codec of its ladder the
    encoder can serve completely. *)
Record encoding_plan (request : AdmissionRequest) (p : PipelineId) (source : CaptureSourceEvidence) (encoder : EncoderCapability)
    (a : AdmittedCapture) : Prop := {
  en_pipeline : ac_pipeline a = p;
  en_width : ad_width request <= bl_max_width (cap_limits encoder);
  en_height : ad_height request <= bl_max_height (cap_limits encoder);
  en_fps : ac_fps_ceiling a ∈ fps_limits request p source encoder;
  en_fps_least : Forall (Z.le (ac_fps_ceiling a)) (fps_limits request p source encoder);
  en_fps_positive : ac_fps_ceiling a <> 0;
  en_limited : ac_fps_limited_by a
    = (if ac_fps_ceiling a =? Z.min (pc_max_fps (pipeline_contract p)) (Z.max (ad_max_fps request) 1) then None
       else if ac_fps_ceiling a =? bl_max_fps (cap_limits encoder) then Some EncoderRateBelowContract else Some CaptureRateBelowContract);
  en_codec : exists before after, pipeline_codec_ladder p (ad_requested_codec request) = before ++ ac_codec a :: after
    /\ encodable request p encoder (ac_fps_ceiling a) (ac_codec a)
    /\ Forall (fun c => ~ encodable request p encoder (ac_fps_ceiling a) c) before;
  en_path : ac_copy_path a = ev_copy_path source;
  en_cursor : ac_cursor_mode a = cursor_authority (ev_cursor source)
}.

Record capture_plan (request : AdmissionRequest) (p : PipelineId) (source : CaptureSourceEvidence) (encoder : EncoderCapability)
    (a : AdmittedCapture) : Prop := {
  cp_source : source_fits source p (ac_transform a) (ac_colour_assumed a);
  cp_gpu : requires_same_gpu (ev_copy_path source) = true -> ev_gpu source = GpuSame;
  cp_class : accelerator_class (cap_backend encoder) = Software <-> p = PipeSoftware;
  cp_encoding : encoding_plan request p source encoder a
}.

(** ** The encoding *)

Lemma find_first {A} (f : A -> bool) l x :
  List.find f l = Some x <-> exists before after, l = before ++ x :: after /\ f x = true /\ Forall (fun y => f y = false) before.
Proof.
  split.
  - induction l as [|y l IH]; cbn; [done|]. destruct (f y) eqn:E.
    + intros [= ->]. by exists [], l.
    + intros (before & after & -> & Hx & Hb)%IH. exists (y :: before), after. by repeat constructor.
  - intros (before & after & -> & Hx & Hb). induction Hb as [|y before Hy _ IH]; cbn; [by rewrite Hx|by rewrite Hy].
Qed.

Lemma contract_id p : pc_id (pipeline_contract p) = p.
Proof. by destruct p. Qed.

Lemma serves_codec_iff request p encoder fps codec :
  serves_codec request (pipeline_contract p) encoder fps codec = true <-> encodable request p encoder fps codec.
Proof.
  unfold serves_codec, encodable, resolve_media_plan. fold (encode_request request p codec fps).
  set (r := encode_request _ _ _ _). pose proof (validate_request_exact r) as Hv.
  destruct (validate_request r) as [[]|e]; cbn [mbind result_bind]; [|naive_solver].
  cbn [resolve_loop cand_backend cand_availability]. change (accepts (mr_encoder r) (cap_backend encoder)) with true. cbn [negb].
  pose proof (resolve_available_exact r (cap_backend encoder) (cap_limits encoder)) as H.
  destruct (resolve_available _ _ _); naive_solver.
Qed.

Lemma first_servable_codec_iff request p encoder fps codec :
  first_servable_codec request (pipeline_contract p) encoder fps = Some codec
  <-> exists before after, pipeline_codec_ladder p (ad_requested_codec request) = before ++ codec :: after
      /\ encodable request p encoder fps codec /\ Forall (fun c => ~ encodable request p encoder fps c) before.
Proof.
  unfold first_servable_codec. rewrite find_first, contract_id.
  assert (forall c, serves_codec request (pipeline_contract p) encoder fps c = false <-> ~ encodable request p encoder fps c) as Hf
    by (intros c; rewrite <- serves_codec_iff; by destruct (serves_codec _ _ _ _ _)).
  split; intros (before & after & Hl & Hx & Hb); exists before, after; (split; [exact Hl|]).
  - split; [by apply serves_codec_iff|]. eapply Forall_impl; [exact Hb|]. intros c. exact (proj1 (Hf c)).
  - split; [by apply serves_codec_iff|]. eapply Forall_impl; [exact Hb|]. intros c. exact (proj2 (Hf c)).
Qed.

Lemma authoritative_iff {T} (f : SourceFact T) (v : T) : authoritative f = Some v <-> f = Authoritative v.
Proof. destruct f; naive_solver. Qed.

Lemma least_rate_unique (x y : Z) l : x ∈ l -> Forall (Z.le x) l -> y ∈ l -> Forall (Z.le y) l -> x = y.
Proof. rewrite !Forall_forall. intros Hx Hlx Hy Hly. specialize (Hlx y Hy). specialize (Hly x Hx). lia. Qed.

Lemma admitted_fps_spec request p source encoder :
  let '(fps, limited) := admitted_fps request (pipeline_contract p) source encoder in
  fps ∈ fps_limits request p source encoder /\ Forall (Z.le fps) (fps_limits request p source encoder)
  /\ limited = (if fps =? Z.min (pc_max_fps (pipeline_contract p)) (Z.max (ad_max_fps request) 1) then None
                else if fps =? bl_max_fps (cap_limits encoder) then Some EncoderRateBelowContract else Some CaptureRateBelowContract).
Proof.
  unfold admitted_fps, fps_limits. set (c := pc_max_fps _). set (q := Z.max _ 1). set (e := bl_max_fps _).
  assert (forall x, x = c \/ x = q \/ x = e -> x ∈ [c; q; e]) as Hin by set_solver.
  destruct (ev_sustained_fps source) as [m|m|]; cbn [authoritative];
    destruct (Z.ltb_spec e (Z.min c q)); repeat match goal with |- context [?x <? ?y] => destruct (Z.ltb_spec x y) end;
    (split; [rewrite ?elem_of_cons, elem_of_nil; lia|split; [repeat constructor; lia|]]);
    repeat match goal with |- context [?x =? ?y] => destruct (Z.eqb_spec x y) end; done || lia.
Qed.

Lemma complete_plan_exact request p source encoder t b a :
  complete_plan request (pipeline_contract p) source encoder t b = Ok a
  <-> encoding_plan request p source encoder a /\ ac_transform a = t /\ ac_colour_assumed a = b.
Proof.
  unfold complete_plan. pose proof (admitted_fps_spec request p source encoder) as Hfps.
  destruct (admitted_fps _ _ _ _) as [fps limited]. destruct Hfps as (Hin & Hleast & Hlim). split.
  - intros H. inv_ok. boolify. simplify_eq. match goal with H : first_servable_codec _ _ _ _ = _ |- _ => apply first_servable_codec_iff in H end.
    split; [|done]. rewrite contract_id. constructor; cbn; try done; lia.
  - intros ([? ? ? Hf Hfl Hpos Hl Hc ? ?] & <- & <-). pose proof (least_rate_unique _ _ _ Hf Hfl Hin Hleast) as E.
    destruct a as [ap ac af al at_ path assumed cursor]. cbn in *. subst.
    assert ((bl_max_width (cap_limits encoder) <? ad_width request) = false) as -> by lia.
    assert ((bl_max_height (cap_limits encoder) <? ad_height request) = false) as -> by lia.
    assert ((fps =? 0) = false) as -> by lia. cbn [guard_err orb mbind result_bind].
    rewrite (proj2 (first_servable_codec_iff _ _ _ _ _) Hc). by rewrite contract_id.
Qed.

(** ** The source *)

Lemma check_gpu_Ok source : check_gpu source = Ok tt <-> (requires_same_gpu (ev_copy_path source) = true -> ev_gpu source = GpuSame).
Proof. unfold check_gpu. destruct (requires_same_gpu _), (ev_gpu source); naive_solver. Qed.

Lemma colour_assumed_reported source :
  bool_decide (authoritative (colour_transfer (ev_colour source)) = None) || bool_decide (authoritative (colour_primaries (ev_colour source)) = None)
  = negb (colour_reported source).
Proof. unfold colour_reported. by destruct (colour_transfer _), (colour_primaries _). Qed.

Lemma sdr8_source_iff source : precision (ev_format source) = Eight ->
  sdr8_source source <->
  (match fact_value (colour_transfer (ev_colour source)) with
   | Some TransferPq | Some TransferHlg | Some LinearExtended => False | Some TransferSrgb | Some TransferBt709 | None => True end
   /\ match fact_value (colour_primaries (ev_colour source)) with Some p => p = PrimariesBt709 | None => True end).
Proof.
  intros Hp. split.
  - intros [_ Ht Hc]. split.
    + destruct (fact_value (colour_transfer _)) as [t|]; [|done]. specialize (Ht t eq_refl). by destruct t.
    + destruct (fact_value (colour_primaries _)) as [p|]; [|done]. by apply Hc.
  - intros [Ht Hc]. split; [done| |].
    + intros t E. rewrite E in Ht. by destruct t.
    + intros p E. by rewrite E in Hc.
Qed.

Lemma sdr8_transform_fits source p t b : precision (ev_format source) = Eight -> p ∈ [PipeAuto; PipeSpeed; PipeSoftware] ->
  sdr8_transform source = Ok (t, b) <-> source_fits source p t b.
Proof.
  intros He Hp. unfold sdr8_transform. rewrite colour_assumed_reported. pose proof (sdr8_source_iff source He) as Hs.
  assert (source_fits source p t b <-> sdr8_source source /\ b = negb (colour_reported source)
    /\ if is_yuv (ev_format source)
       then colour_range (ev_colour source) = Authoritative RangeLimited /\ colour_matrix (ev_colour source) = Authoritative MatrixBt709
            /\ t = Sdr8YuvPassthrough
       else t = Sdr8Rgb) as ->.
  { split.
    - intros H. inversion H; subst; try (by rewrite !elem_of_cons, elem_of_nil in Hp; naive_solver);
        by repeat match goal with E : is_yuv _ = _ |- _ => rewrite E; clear E end.
    - intros (H1 & -> & H2). destruct (is_yuv (ev_format source)) eqn:E; [destruct H2 as (? & ? & ->)|subst t]; by constructor. }
  rewrite Hs. clear Hs.
  destruct (fact_value (colour_transfer _)) as [[]|], (fact_value (colour_primaries _)) as [[]|]; cbn; try naive_solver.
  all: destruct (is_yuv _); [|naive_solver];
    destruct (colour_range (ev_colour source)) as [[]| |], (colour_matrix (ev_colour source)) as [[]| |]; cbn; naive_solver.
Qed.

Lemma is_software_iff encoder : is_software encoder = true <-> accelerator_class (cap_backend encoder) = Software.
Proof. apply bool_decide_eq_true. Qed.

Lemma fidelity_Ok preset source encoder : fidelity_preconditions preset source encoder = Ok tt <->
  is_software encoder = false /\ is_wide (precision (ev_format source)) = true /\ ev_sample_precision source = Authoritative NativeWide
  /\ (requires_same_gpu (ev_copy_path source) = true -> ev_gpu source = GpuSame).
Proof.
  unfold fidelity_preconditions. rewrite <- check_gpu_Ok. destruct (is_software encoder), (is_wide _); cbn; try naive_solver.
  destruct (ev_sample_precision source) as [[]|[]|]; cbn; naive_solver.
Qed.

Lemma authoritative_colour_Ok source t p : authoritative_colour source = Ok (t, p)
  <-> colour_transfer (ev_colour source) = Authoritative t /\ colour_primaries (ev_colour source) = Authoritative p.
Proof. unfold authoritative_colour. destruct (colour_transfer _), (colour_primaries _); cbn; naive_solver. Qed.

Lemma pq_graphics_white_Ok source : pq_graphics_white source = Ok tt <-> white_at_graphics_level source.
Proof.
  unfold pq_graphics_white, white_at_graphics_level. destruct (sdr_white_nits _) as [n|n|]; cbn [authoritative ok_or mbind result_bind];
    [|split; [done|by intros (? & ? & _)]..].
  rewrite guard_err_Ok, negb_false_iff. split; [by exists n|by intros (m & [= ->] & ?)].
Qed.

Lemma wide_unique source sp t p sp' t' p' : wide_source source sp t p -> wide_source source sp' t' p' -> sp' = sp /\ t' = t /\ p' = p.
Proof. intros [? ? ? ?] [? ? ? ?]. split_and!; congruence. Qed.

Lemma not_sdr8_pipeline source p x b : source_fits source p x b -> p = PipeGrading \/ p = PipeHdr ->
  exists sp t c, sp <> Eight /\ wide_source source sp t c.
Proof.
  intros H Hp. inversion H; subst; try (eexists _, _, _; split; [|eassumption]; done);
    (match goal with E : _ ∈ _ |- _ => rewrite !elem_of_cons, elem_of_nil in E; naive_solver end).
Qed.

(** The wide conversions of a proven source. *)
Lemma grading_fits source sp t p x : wide_source source sp t p -> sp <> Eight ->
  grading_transform source t p = Ok x <-> source_fits source PipeGrading x false.
Proof.
  intros Hw Hsp. unfold grading_transform. rewrite (ws_precision _ _ _ _ Hw). split.
  - intros H. destruct sp, t, p; try done; try (apply bind_Ok in H as ([] & Hg%pq_graphics_white_Ok & H));
      injection H as <-;
      first [by apply (FitsGradingSdr10 _ TransferSrgb)|by apply (FitsGradingSdr10 _ TransferBt709)|solve [econstructor; done]].
  - intros H. inversion H; subst; try (match goal with E : _ ∈ _ |- _ => rewrite !elem_of_cons, elem_of_nil in E; naive_solver end);
      match goal with E : wide_source _ _ _ _ |- _ => destruct (wide_unique _ _ _ _ _ _ _ E Hw) as (-> & -> & ->) end;
      try match goal with E : white_at_graphics_level _ |- _ => apply pq_graphics_white_Ok in E; rewrite E end; try done.
    match goal with E : is_sdr ?t = true |- _ => by destruct t end.
Qed.

Lemma hdr_fits source sp t p x : wide_source source sp t p -> sp <> Eight -> ev_output_hdr_active source = Authoritative true ->
  hdr_transform source t p = Ok x <-> source_fits source PipeHdr x false.
Proof.
  intros Hw Hsp Ha. unfold hdr_transform. rewrite (ws_precision _ _ _ _ Hw). split.
  - intros H. destruct sp, t, p; try done; try (apply bind_Ok in H as ([] & Hg%pq_graphics_white_Ok & H); injection H as <-; by econstructor).
    destruct (sdr_white_nits (ev_colour source)) as [n|n|] eqn:En; cbn in H; try done.
    destruct (Z.ltb_spec 0 n); [|done]. injection H as <-. solve [econstructor; done].
  - intros H. inversion H; subst; try (match goal with E : _ ∈ _ |- _ => rewrite !elem_of_cons, elem_of_nil in E; naive_solver end);
      match goal with E : wide_source _ _ _ _ |- _ => destruct (wide_unique _ _ _ _ _ _ _ E Hw) as (-> & -> & ->) end;
      try match goal with E : white_at_graphics_level _ |- _ => apply pq_graphics_white_Ok in E; rewrite E end; try done.
    match goal with E : sdr_white_nits _ = _ |- _ => rewrite E end. cbn.
    match goal with E : 0 < ?n |- _ => by rewrite (proj2 (Z.ltb_lt 0 n) E) end.
Qed.

(** ** The plans *)

Lemma fits_wide_false source p x b : source_fits source p x b -> p = PipeGrading \/ p = PipeHdr -> b = false.
Proof. intros H Hp. inversion H; subst; try done; (match goal with E : _ ∈ _ |- _ => rewrite !elem_of_cons, elem_of_nil in E; naive_solver end). Qed.

Lemma wide_is_wide source sp t p : wide_source source sp t p -> sp <> Eight -> is_wide (precision (ev_format source)) = true.
Proof. intros [-> _ _ _]. by destruct sp. Qed.

Lemma hardware_class encoder p : is_software encoder = false -> p <> PipeSoftware ->
  (accelerator_class (cap_backend encoder) = Software <-> p = PipeSoftware).
Proof. intros H Hp. pose proof (is_software_iff encoder). split; [intros E|done]. naive_solver congruence. Qed.

Lemma grading_plan_exact request source encoder a :
  grading_plan request source encoder = Ok a <-> capture_plan request PipeGrading source encoder a.
Proof.
  unfold grading_plan. rewrite unit_bind_Ok, fidelity_Ok. split.
  - intros ((Hs & Hw & Hn & Hg) & H). apply bind_Ok in H as ([t p] & [Ht Hp]%authoritative_colour_Ok & H).
    apply bind_Ok in H as (x & Hx & H). apply complete_plan_exact in H as (Henc & Et & Eb).
    assert (wide_source source (precision (ev_format source)) t p) as Hsrc by done.
    rewrite (grading_fits source _ t p x Hsrc) in Hx by (by destruct (precision _)).
    split; [by rewrite Et, Eb|done|by apply hardware_class|done].
  - intros [Hf Hg Hc Henc]. destruct (not_sdr8_pipeline _ _ _ _ Hf ltac:(by left)) as (sp & t & p & Hsp & Hw).
    pose proof (fits_wide_false _ _ _ _ Hf ltac:(by left)) as Hb. rewrite Hb in Hf. split.
    + split_and!; [|by eapply wide_is_wide|by eapply ws_native|done]. apply not_true_iff_false. rewrite is_software_iff, Hc. done.
    + rewrite (proj2 (authoritative_colour_Ok source t p)) by (by destruct Hw). cbn [mbind result_bind].
      rewrite (proj2 (grading_fits source sp t p _ Hw Hsp) Hf). cbn [mbind result_bind]. by apply complete_plan_exact.
Qed.

Lemma hdr_plan_exact request source encoder a :
  hdr_plan request source encoder = Ok a <-> capture_plan request PipeHdr source encoder a.
Proof.
  unfold hdr_plan. rewrite unit_bind_Ok, fidelity_Ok, unit_bind_Ok, guard_err_Ok, negb_false_iff, bool_decide_eq_true, authoritative_iff. split.
  - intros ((Hs & Hw & Hn & Hg) & Ha & H). apply bind_Ok in H as ([t p] & [Ht Hp]%authoritative_colour_Ok & H).
    apply bind_Ok in H as (x & Hx & H). apply complete_plan_exact in H as (Henc & Et & Eb).
    assert (wide_source source (precision (ev_format source)) t p) as Hsrc by done.
    rewrite (hdr_fits source _ t p x Hsrc) in Hx by (done || by destruct (precision _)).
    split; [by rewrite Et, Eb|done|by apply hardware_class|done].
  - intros [Hf Hg Hc Henc]. destruct (not_sdr8_pipeline _ _ _ _ Hf ltac:(by right)) as (sp & t & p & Hsp & Hw).
    pose proof (fits_wide_false _ _ _ _ Hf ltac:(by right)) as Hb. rewrite Hb in Hf.
    assert (ev_output_hdr_active source = Authoritative true) as Ha.
    { inversion Hf; subst; try done; (match goal with E : _ ∈ _ |- _ => rewrite !elem_of_cons, elem_of_nil in E; naive_solver end). }
    split; [|split; [done|]].
    + split_and!; [|by eapply wide_is_wide|by eapply ws_native|done]. apply not_true_iff_false. rewrite is_software_iff, Hc. done.
    + rewrite (proj2 (authoritative_colour_Ok source t p)) by (by destruct Hw). cbn [mbind result_bind].
      rewrite (proj2 (hdr_fits source sp t p _ Hw Hsp Ha) Hf). cbn [mbind result_bind]. by apply complete_plan_exact.
Qed.

Lemma eight_not_wide p : is_wide p = false <-> p = Eight.
Proof. by destruct p. Qed.

Lemma sdr8_eight source p t b : source_fits source p t b -> p ∈ [PipeAuto; PipeSpeed; PipeSoftware] -> precision (ev_format source) = Eight.
Proof.
  intros H Hp. inversion H; subst; try (match goal with E : sdr8_source _ |- _ => apply E end);
    rewrite !elem_of_cons, elem_of_nil in Hp; naive_solver.
Qed.

(** The eight-bit contracts. *)
Lemma sdr8_plan_exact request p source encoder a : p ∈ [PipeAuto; PipeSpeed] -> is_software encoder = false ->
  sdr8_plan request p source encoder = Ok a <-> exists plan, a = Admit plan /\ capture_plan request p source encoder plan.
Proof.
  intros Hp Hs. assert (p ∈ [PipeAuto; PipeSpeed; PipeSoftware]) as Hp' by (revert Hp; rewrite !elem_of_cons, elem_of_nil; naive_solver).
  assert (p <> PipeSoftware) as Hne by (intros ->; rewrite !elem_of_cons, elem_of_nil in Hp; naive_solver).
  unfold sdr8_plan. rewrite unit_bind_Ok, guard_err_Ok, eight_not_wide. rewrite Hs. split.
  - intros [He H]. apply bind_Ok in H as ([t b] & Ht & H). rewrite (sdr8_transform_fits source p) in Ht by done.
    apply unit_bind_Ok in H as [Hg H]. rewrite check_gpu_Ok in Hg. apply bind_Ok in H as (plan & Hplan & [= <-]).
    apply complete_plan_exact in Hplan as (Henc & Et & Eb). exists plan. split; [done|].
    split; [by rewrite Et, Eb|done|by apply hardware_class|done].
  - intros (plan & -> & [Hf Hg Hc Henc]). pose proof (sdr8_eight _ _ _ _ Hf Hp') as He. split; [done|].
    rewrite (proj2 (sdr8_transform_fits source p _ _ He Hp') Hf). cbn [mbind result_bind].
    rewrite (proj2 (check_gpu_Ok source) Hg). cbn [mbind result_bind].
    rewrite (proj2 (complete_plan_exact request p source encoder (ac_transform plan) (ac_colour_assumed plan) plan)) by done. done.
Qed.

Definition served_in_software (request : AdmissionRequest) (plan : AdmittedCapture) : option PresetAdmission :=
  match ad_preset request with
  | PresetAuto => Some (Admit plan)
  | PresetSpeed => Some (Downgrade PresetSpeed plan (SoftwareFallback (decision_reason (software_fallback_decision (Some PipeSpeed) SelectExact))))
  | PresetGrading | PresetHdr => None
  end.

Lemma sdr8_software_exact request p source encoder a : is_software encoder = true ->
  sdr8_plan request p source encoder = Ok a
  <-> exists plan, served_in_software request plan = Some a /\ capture_plan request PipeSoftware source encoder plan.
Proof.
  intros Hs. assert (PipeSoftware ∈ [PipeAuto; PipeSpeed; PipeSoftware]) as Hp by set_solver.
  unfold sdr8_plan. rewrite unit_bind_Ok, guard_err_Ok, eight_not_wide. rewrite Hs. split.
  - intros [He H]. apply bind_Ok in H as ([t b] & Ht & H). rewrite (sdr8_transform_fits source PipeSoftware) in Ht by done.
    apply unit_bind_Ok in H as [Hg H]. rewrite check_gpu_Ok in Hg.
    assert (forall plan, complete_plan request (pipeline_contract PipeSoftware) source encoder t b = Ok plan ->
      capture_plan request PipeSoftware source encoder plan) as Hplan.
    { intros plan (Henc & Et & Eb)%complete_plan_exact. split; [by rewrite Et, Eb|done| |done]. apply is_software_iff in Hs. done. }
    unfold software_plan in H. unfold served_in_software.
    destruct (ad_preset request); cbn in H; try done; apply bind_Ok in H as (plan & Hc & [= <-]); eauto.
  - intros (plan & Ha & [Hf Hg Hc Henc]). pose proof (sdr8_eight _ _ _ _ Hf Hp) as He. split; [done|].
    rewrite (proj2 (sdr8_transform_fits source PipeSoftware _ _ He Hp) Hf). cbn [mbind result_bind].
    rewrite (proj2 (check_gpu_Ok source) Hg). cbn [mbind result_bind]. unfold software_plan, served_in_software in *.
    rewrite (proj2 (complete_plan_exact request PipeSoftware source encoder (ac_transform plan) (ac_colour_assumed plan) plan)) by done.
    by destruct (ad_preset request); simplify_eq.
Qed.

(** ** Presets *)

(** A rate the source is known to keep, or one that no copy can lower. *)
Definition rate_qualified (source : CaptureSourceEvidence) : bool :=
  zero_copy (ev_copy_path source) || match ev_sustained_fps source with Authoritative _ => true | _ => false end.

(** The contracts that may serve a preset, the preferred one first. *)
Definition candidates (preset : StreamingPreset) (source : CaptureSourceEvidence) (encoder : EncoderCapability) : list PipelineId :=
  match preset, is_software encoder with
  | PresetAuto, false => [PipeAuto]
  | PresetSpeed, false => [if rate_qualified source then PipeSpeed else PipeAuto]
  | PresetAuto, true | PresetSpeed, true => [PipeSoftware]
  | PresetGrading, false => [PipeGrading]
  | PresetHdr, false => [PipeHdr; PipeGrading]
  | PresetGrading, true | PresetHdr, true => []
  end.

(** The plan of the first contract that has one. *)
Definition first_plan (cs : list PipelineId) (request : AdmissionRequest) (source : CaptureSourceEvidence) (encoder : EncoderCapability)
    (a : AdmittedCapture) : Prop :=
  exists before p after, cs = before ++ p :: after /\ capture_plan request p source encoder a
    /\ Forall (fun q => forall a', ~ capture_plan request q source encoder a') before.

Lemma first_plan_nil request source encoder a : ~ first_plan [] request source encoder a.
Proof. intros (before & p & after & E & _). by destruct before. Qed.

Lemma first_plan_cons p cs request source encoder a : first_plan (p :: cs) request source encoder a <->
  capture_plan request p source encoder a \/ ((forall a', ~ capture_plan request p source encoder a') /\ first_plan cs request source encoder a).
Proof.
  split.
  - intros ([|q before] & p' & after & E & Hp & Hb); injection E as -> ->; [by left|right].
    apply Forall_cons in Hb as [Hq Hb]. split; [exact Hq|]. by exists before, p', after.
  - intros [Hp|(Hno & before & p' & after & -> & Hp & Hb)]; [exists [], p, cs; split_and!; [done..|constructor]|].
    exists (p :: before), p', after. split_and!; [done..|by constructor].
Qed.

(** What a preset is served as when its plan has this result. *)
Definition own_pipeline (preset : StreamingPreset) (p : PipelineId) : Prop :=
  p = preset_pipeline preset \/ (preset = PresetAuto /\ p = PipeSoftware).

Definition labelled (request : AdmissionRequest) (encoder : EncoderCapability) (a : PresetAdmission) : Prop :=
  match a with
  | Admit served => own_pipeline (ad_preset request) (ac_pipeline served)
  | Downgrade requested served reason =>
    requested = ad_preset request /\ ~ own_pipeline (ad_preset request) (ac_pipeline served)
    /\ (ad_preset request = PresetSpeed ->
        reason = if is_software encoder then SoftwareFallback (decision_reason (software_fallback_decision (Some PipeSpeed) SelectExact))
                 else CopyPathNotRateQualified)
  | AdmitUnavailable requested _ _ => requested = ad_preset request
  end.

Lemma plan_pipeline request p source encoder a : capture_plan request p source encoder a -> ac_pipeline a = p.
Proof. intros [_ _ _ []]. done. Qed.

Lemma unqualified_copy source encoder : is_software encoder = false ->
  negb (is_software encoder) && negb (zero_copy (ev_copy_path source)) && bool_decide (authoritative (ev_sustained_fps source) = None)
  = negb (rate_qualified source).
Proof. intros ->. unfold rate_qualified. by destruct (zero_copy _), (ev_sustained_fps source). Qed.

Lemma no_plan_Err {E} (r : result E AdmittedCapture) e (P : AdmittedCapture -> Prop) : (forall a, r = Ok a <-> P a) -> r = Err e -> forall a, ~ P a.
Proof. intros H -> a Ha. by apply H in Ha. Qed.

Definition served_right (request : AdmissionRequest) (source : CaptureSourceEvidence) (encoder : EncoderCapability) (a : PresetAdmission) : Prop :=
  (forall served, admission_served a = Some served <-> first_plan (candidates (ad_preset request) source encoder) request source encoder served)
  /\ labelled request encoder a.

(** The eight-bit presets. *)
Lemma sdr8_served request p source encoder : p ∈ [PipeAuto; PipeSpeed] -> is_software encoder = false ->
  candidates (ad_preset request) source encoder = [p] -> p = preset_pipeline (ad_preset request) ->
  served_right request source encoder match sdr8_plan request p source encoder with Ok a => a | Err reason => admit_unavailable request reason end.
Proof.
  intros Hp Hs Hc Hpre. pose proof (sdr8_plan_exact request p source encoder) as H. unfold served_right. rewrite Hc.
  destruct (sdr8_plan request p source encoder) as [a|reason].
  - destruct (proj1 (H a Hp Hs) eq_refl) as (plan & -> & Hplan). split; [|by left; rewrite (plan_pipeline _ _ _ _ _ Hplan)].
    intros served. rewrite first_plan_cons. split; [by intros [= <-]; left|]. intros [Hserved|[Hno _]]; [|by apply Hno in Hplan].
    cbn. pose proof (proj2 (H (Admit served) Hp Hs) (ex_intro _ served (conj eq_refl Hserved))) as E. by injection E as ->.
  - split; [|done]. intros served. rewrite first_plan_cons. split; [done|]. intros [Hserved|[_ []%first_plan_nil]].
    by pose proof (proj2 (H (Admit served) Hp Hs) (ex_intro _ served (conj eq_refl Hserved))).
Qed.

Lemma software_served request p source encoder : is_software encoder = true -> ad_preset request = PresetAuto \/ ad_preset request = PresetSpeed ->
  served_right request source encoder match sdr8_plan request p source encoder with Ok a => a | Err reason => admit_unavailable request reason end.
Proof.
  intros Hs Hpre. pose proof (sdr8_software_exact request p source encoder) as H. unfold served_right.
  assert (candidates (ad_preset request) source encoder = [PipeSoftware]) as -> by (unfold candidates; rewrite Hs; by destruct Hpre as [-> | ->]).
  assert (forall plan, exists a, served_in_software request plan = Some a /\ admission_served a = Some plan) as Hsome
    by (intros plan; unfold served_in_software; destruct Hpre as [-> | ->]; by eexists).
  destruct (sdr8_plan request p source encoder) as [a|reason].
  - destruct (proj1 (H a Hs) eq_refl) as (plan & Ea & Hplan). destruct (Hsome plan) as (a' & Ea' & Hserved).
    assert (a' = a) as -> by congruence. split.
    + intros served. rewrite first_plan_cons. split; [intros E; left; by assert (plan = served) as <- by congruence|].
      intros [Hp|[Hno _]]; [|by apply Hno in Hplan]. destruct (Hsome served) as (b & Eb & Hb).
      pose proof (proj2 (H b Hs) (ex_intro _ served (conj Eb Hp))) as E. by injection E as ->.
    + pose proof (plan_pipeline _ _ _ _ _ Hplan) as Hpp. unfold served_in_software, own_pipeline in *.
      destruct Hpre as [E|E]; rewrite E in Ea; injection Ea as <-; cbn; unfold own_pipeline; rewrite E, Hpp; [by right|].
      split; [done|]. split; [by intros [?|[? _]]|]. by rewrite Hs.
  - split; [|done]. intros served. rewrite first_plan_cons. split; [done|]. intros [Hp|[_ []%first_plan_nil]].
    destruct (Hsome served) as (b & Eb & _). by pose proof (proj2 (H b Hs) (ex_intro _ served (conj Eb Hp))).
Qed.

(** The preset asked for is no part of a plan. *)
Lemma capture_plan_preset q request p source encoder a :
  capture_plan (with_preset q request) p source encoder a <-> capture_plan request p source encoder a.
Proof. split; intros [? ? ? []]; by constructor. Qed.

Lemma speed_as_auto_served request source encoder : is_software encoder = false -> ad_preset request = PresetSpeed ->
  rate_qualified source = false -> served_right request source encoder (speed_as_auto request source encoder CopyPathNotRateQualified).
Proof.
  intros Hs Hpre Hq. unfold speed_as_auto, served_right, candidates. rewrite Hpre, Hs, Hq.
  pose proof (fun a => sdr8_plan_exact (with_preset PresetAuto request) PipeAuto source encoder a ltac:(set_solver) Hs) as H.
  destruct (sdr8_plan (with_preset PresetAuto request) PipeAuto source encoder) as [a|reason].
  - destruct (proj1 (H a) eq_refl) as (plan & -> & Hplan). rewrite capture_plan_preset in Hplan. split.
    + intros served. rewrite first_plan_cons. split; [by intros [= <-]; left|]. intros [Hserved|[Hno _]]; [|by apply Hno in Hplan].
      rewrite <- (capture_plan_preset PresetAuto) in Hserved. cbn.
      pose proof (proj2 (H (Admit served)) (ex_intro _ served (conj eq_refl Hserved))) as E. by injection E as ->.
    + cbn. split; [by rewrite Hpre|]. rewrite (plan_pipeline _ _ _ _ _ Hplan), Hpre, Hs. split; [|done]. by intros [?|[? _]].
  - split; [|done]. intros served. rewrite first_plan_cons. split; [done|]. intros [Hserved|[_ []%first_plan_nil]].
    rewrite <- (capture_plan_preset PresetAuto) in Hserved.
    by pose proof (proj2 (H (Admit served)) (ex_intro _ served (conj eq_refl Hserved))).
Qed.

Lemma speed_served request source encoder : ad_preset request = PresetSpeed -> served_right request source encoder (admit_speed request source encoder).
Proof.
  intros Hpre. unfold admit_speed. destruct (is_software encoder) eqn:Hs; cbn [negb andb]; [apply software_served; by try right|].
  pose proof (unqualified_copy source encoder Hs) as Hq. rewrite Hs in Hq. cbn [negb andb] in Hq. rewrite Hq.
  destruct (rate_qualified source) eqn:Hr; cbn [negb]; [|by apply speed_as_auto_served].
  apply sdr8_served; [set_solver|done| |by rewrite Hpre]. unfold candidates. by rewrite Hpre, Hs, Hr.
Qed.

Lemma auto_served request source encoder : ad_preset request = PresetAuto -> served_right request source encoder (admit_auto request source encoder).
Proof.
  intros Hpre. unfold admit_auto. destruct (is_software encoder) eqn:Hs; [apply software_served; by try left|].
  apply sdr8_served; [set_solver|done| |by rewrite Hpre]. unfold candidates. by rewrite Hpre, Hs.
Qed.

(** No wide contract is served in software. *)
Lemma software_no_plan request p source encoder a : is_software encoder = true -> p <> PipeSoftware -> ~ capture_plan request p source encoder a.
Proof. intros Hs%is_software_iff Hp [_ _ Hc _]. by apply Hp, Hc. Qed.

Lemma hdr_software request source encoder : is_software encoder = true ->
  hdr_plan request source encoder
  = Err (SoftwareFallback (decision_reason (software_fallback_decision (Some PipeHdr) (pc_selection (preset_pipeline_contract PresetHdr))))).
Proof. intros Hs. unfold hdr_plan, fidelity_preconditions. by rewrite Hs. Qed.

Lemma hdr_hardware_reason request source encoder text : is_software encoder = false -> hdr_plan request source encoder <> Err (SoftwareFallback text).
Proof.
  intros Hs. unfold hdr_plan, fidelity_preconditions, hdr_transform, pq_graphics_white, authoritative_colour, complete_plan, check_gpu, guard_err, ok_or. rewrite Hs.
  by repeat (case_match || cbn); simplify_eq.
Qed.

Lemma grading_served request source encoder : ad_preset request = PresetGrading ->
  served_right request source encoder (admit_grading request source encoder).
Proof.
  intros Hpre. unfold admit_grading, served_right, candidates. rewrite Hpre. pose proof (grading_plan_exact request source encoder) as H.
  destruct (is_software encoder) eqn:Hs.
  - destruct (grading_plan request source encoder) as [plan|reason].
    + exfalso. by eapply (software_no_plan request PipeGrading source encoder plan Hs); [|apply H].
    + split; [|done]. intros served. by split; [|intros []%first_plan_nil].
  - destruct (grading_plan request source encoder) as [plan|reason].
    + pose proof (proj1 (H plan) eq_refl) as Hplan. split; [|left; rewrite Hpre; by apply (plan_pipeline _ _ _ _ _ Hplan)].
      intros served. rewrite first_plan_cons. cbn. split; [by intros [= <-]; left|]. intros [Hp|[Hno _]]; [|by apply Hno in Hplan].
      apply H in Hp. congruence.
    + split; [|done]. intros served. rewrite first_plan_cons. split; [done|]. intros [Hp|[_ []%first_plan_nil]]. by apply H in Hp.
Qed.

Lemma hdr_served request source encoder : ad_preset request = PresetHdr -> served_right request source encoder (admit_hdr request source encoder).
Proof.
  intros Hpre. unfold admit_hdr, served_right, candidates. rewrite Hpre. destruct (is_software encoder) eqn:Hs.
  { rewrite hdr_software by done. split; [|done]. intros served. by split; [|intros []%first_plan_nil]. }
  pose proof (hdr_plan_exact request source encoder) as H. pose proof (grading_plan_exact (with_preset PresetGrading request) source encoder) as G.
  destruct (hdr_plan request source encoder) as [plan|reason] eqn:E.
  { pose proof (proj1 (H plan) eq_refl) as Hplan. split; [|left; rewrite Hpre; by apply (plan_pipeline _ _ _ _ _ Hplan)].
    intros served. rewrite first_plan_cons. cbn. split; [by intros [= <-]; left|]. intros [Hp|[Hno _]]; [|by apply Hno in Hplan].
    apply H in Hp. congruence. }
  assert (forall a, ~ capture_plan request PipeHdr source encoder a) as Hno by (intros a Ha%H; done).
  assert (forall text, reason <> SoftwareFallback text) as Hr
    by (intros text ->; by apply (hdr_hardware_reason request source encoder text Hs)).
  assert (served_right request source encoder
    match grading_plan (with_preset PresetGrading request) source encoder with
    | Ok served => Downgrade (ad_preset request) served reason
    | Err fallback => AdmitUnavailable (ad_preset request) reason (Some fallback)
    end) as Hg.
  { unfold served_right, candidates. rewrite Hpre, Hs. destruct (grading_plan _ source encoder) as [plan|fallback].
    - pose proof (proj1 (G plan) eq_refl) as Hplan. rewrite capture_plan_preset in Hplan. split.
      + intros served. rewrite !first_plan_cons. cbn. split; [by intros [= <-]; right; split; [|left]|].
        intros [[]%Hno|[_ [Hp|[Hno' _]]]]; [|by apply Hno' in Hplan]. rewrite <- (capture_plan_preset PresetGrading) in Hp. apply G in Hp. congruence.
      + cbn. rewrite Hpre, (plan_pipeline _ _ _ _ _ Hplan). split; [done|]. split; [by intros [?|[? _]]|done].
    - split; [|by cbn; rewrite Hpre]. intros served. rewrite !first_plan_cons. split; [done|].
      intros [[]%Hno|[_ [Hp|[_ []%first_plan_nil]]]]. rewrite <- (capture_plan_preset PresetGrading) in Hp. by apply G in Hp. }
  unfold served_right, candidates in Hg. rewrite Hpre, Hs in Hg. destruct reason; try exact Hg. by destruct (Hr reason).
Qed.

(** ** Properties *)

(** C20: A capture source is served as what it truthfully is, by the first
    contract that may serve the preset, and the answer says which.  A plan is
    served exactly when it is the plan of the first contract, in the preset's
    order (Auto or Speed on hardware, Software in their place on a software
    encoder; Speed gives way to Auto when its path copies and has no measured
    rate; HDR gives way to Grading; Grading and HDR are never served in
    software), that has one.  Such a plan needs samples that fit the contract:
    eight-bit SDR, or wide samples proven wide with authoritative colour, PQ at
    the graphics white, an HDR output proven active for HDR; one GPU where the
    path requires it; the encoder's size; the rate that is the least of the
    contract's, the request's, the encoder's and the measured one; and the first
    codec of the ladder that the encoder can serve completely at it.  What is
    served is admitted as the preset exactly when it is the preset's own
    contract (Software counts as Auto's), and is otherwise a downgrade that
    names the preset asked for and, for Speed, why. *)
Theorem capture_admission_exact (request : AdmissionRequest) (source : CaptureSourceEvidence) (encoder : EncoderCapability) :
  (forall served, admission_served (admit_capture_source request source encoder) = Some served
     <-> first_plan (candidates (ad_preset request) source encoder) request source encoder served)
  /\ labelled request encoder (admit_capture_source request source encoder).
Proof.
  change (served_right request source encoder (admit_capture_source request source encoder)). unfold admit_capture_source.
  destruct (ad_preset request) eqn:E; [by apply auto_served|by apply speed_served|by apply grading_served|by apply hdr_served].
Qed.

(** A ten-bit PQ output whose HDR state is known, or not. *)
Definition pq_source (active : SourceFact bool) : CaptureSourceEvidence :=
  mkEvidence PipeWire Xrgb2101010 (mkColour (Authoritative PrimariesBt2020) (Authoritative TransferPq) FactUnknown FactUnknown (Authoritative 203))
    (Authoritative NativeWide) active GpuConvert GpuSame (Authoritative 24) Composited.
Definition nvenc : EncoderCapability := mkCapability NativeNvenc (contract NativeNvenc).
Definition hdr_request : AdmissionRequest := mkAdmission PresetHdr CodecH265 1920 1080 60.

Example hdr_or_grading :
  match admit_capture_source hdr_request (pq_source (Authoritative true)) nvenc, admit_capture_source hdr_request (pq_source FactUnknown) nvenc with
  | Admit a, Downgrade PresetHdr b HdrOutputNotProven =>
    ac_pipeline a = PipeHdr /\ ac_transform a = PackedRgb10 Direct /\ ac_fps_ceiling a = 24 /\ ac_fps_limited_by a = Some CaptureRateBelowContract
    /\ ac_pipeline b = PipeGrading /\ ac_transform b = PackedRgb10 PqBt2020ToSdrBt709
  | _, _ => False
  end.
Proof. by vm_compute. Qed.

(** An epoch runs the contract it was admitted to: without a known cursor there
    is none, and it encodes the contract's colour with the admitted codec at the
    admitted rate, which any live request is held to. *)
Theorem admitted_epoch_runs (a : AdmittedCapture) (requested : Z) (Hfps : 0 < ac_fps_ceiling a) :
  (epoch a = None <-> ac_cursor_mode a = None)
  /\ forall e, epoch a = Some e ->
     ep_video e = with_codec (ac_codec a) (pc_colour (pipeline_contract (ac_pipeline a))) /\ ac_cursor_mode a = Some (ep_cursor_mode e)
     /\ exists fps, live_fps e requested = Some fps /\ 1 <= fps <= ac_fps_ceiling a /\ (1 <= requested <= ac_fps_ceiling a -> fps = requested).
Proof.
  unfold epoch. destruct (ac_cursor_mode a) as [c|]; cbn; [|by split]. split; [done|]. intros e [= <-]. cbn. split; [done|]. split; [done|].
  unfold live_fps. cbn. destruct (Z.ltb_spec (ac_fps_ceiling a) 1); [lia|]. eexists. split; [done|]. unfold RateControl.clamp. destruct (Z.ltb_spec requested 1), (Z.ltb_spec (ac_fps_ceiling a) requested); lia.
Qed.
